(* ===== verification/_CoqProject ===== *)
-Q . S2P
Prelude.v
Config.v
Replacer.v
ClockReplacer.v
Page.v
FileSys.v
DiskManager.v
BufferPool.v
PoolClient.v
PoolSpec.v
Values.v
TablePage.v
TablePageSpec.v
Schema.v
Expressions.v
LinkHash.v
LinkHashSpec.v
Table.v
TableSpec.v
Executors.v
TableScan.v
ExecSpec.v
UnionExecutor.v
MetaPages.v
Catalog.v
CatalogSpec.v
Threads.v
RwLatch.v
WorkPool.v
Lexer.v
Ast.v
SqlExec.v
SqlSpec.v
Server.v
ActTab.v
Lempar.v
LemparSound.v
LemparSafe.v
LemonTable.v
LemonPrintf.v
LemonData.v
LemonSort.v
LemonFirst.v
LemonSymbol.v
LemonActions.v
LemonStates.v
LemonLR0.v
LemonFollow.v
LemonCompress.v
LemonPreproc.v
LemonRead.v
LemonReadSpec.v
LemonScan.v
LemonScanSpec.v
LemonRoundtrip.v
LemonUnion.v
LemonCode.v
LemonTables.v
LemonEmit.v
LemonReport.v
LemonOption.v
LemonListing.v
LemonMain.v
SqlGrammar.v
SqlParser.v
SqlStatements.v
