(* ===== verification/Prelude.v ===== *)
(** * Dawn: a verified model of a small relational database and its parser generator

    Dawn (repository [src/]) is a C++ database in the style of a textbook: a disk
    manager stores 4096-byte pages in one file, a buffer pool caches them in a
    fixed number of frames under a clock replacement policy, slotted table pages
    hold tuples, a hash index and a catalog are built on these, and SQL text is
    parsed by an LALR(1) automaton that the bundled generator [lemon.c] makes from
    [parse.y] and the driver template [lempar.c]. A server cuts what clients send into
    statements and executes them. This library models the storage stack up to the
    catalog, queries and the execution of statements, typed values and schemas, the
    latches and the worker pool, the server's tasks, the scanner, and the generator
    and the driver, as executable functions, and proves what makes them correct.

    ** How the code is rendered

    - Machine integers are [Z]; the places where the code computes in [int] and
      can overflow use [mul32]/[add32] (a fault) or [swrap32]/[mod] (wrap-around).
      Bytes are [Z] in 0..255, multi-byte fields are little-endian.
    - A function that can leave the defined behaviours returns [res]: an access
      out of bounds, a null pointer, an indeterminate value, a failed [assert] or
      [exit], a latch that only another thread could release, or a model loop that
      ran out of fuel are the constructors of [fault]. A theorem that says
      [f x = Ok y] therefore also says that none of these happens.
    - Objects that the code mutates are records passed along; [lemon.c]'s linked
      structures are a heap of symbols, rules and states addressed by index.
    - In the storage stack calls are atomic steps: latches are "held" or "not
      held", which shows a latch that is kept, not interleavings. The concurrent
      classes themselves are step relations over a list of threads.

    ** Files

    - [Prelude]: faults and their monad, memory as byte lists (reads, writes,
      moves, 32-bit fields), ordered sets as sorted lists, list lemmas, tactics and
      the hint databases.
    - [Config], [Replacer], [ClockReplacer], [Page]: [util/config.h], the class of
      replacers with its laws, [buffer/clock_replacer.cpp], [storage/page/page.h].
      The buffer pool is proved against the class, which the clock implements.
    - [FileSys], [DiskManager]: file streams as the code uses them, and
      [storage/disk/disk_manager.cpp]. Allocation returns the least free id,
      release undoes it, and restart recovers exactly the ids and contents a
      shut-down manager had.
    - [BufferPool], [PoolSpec]: [buffer/buffer_pool_manager.cpp]. The invariant of
      the pool, the behaviour of each operation, and the refinement of a store
      of pages with their pins along every sequence of operations, deletion and
      flushing included, that follows the pin protocol.
    - [PoolClient]: what a client of the pool needs: a session is the list of pages
      it holds pinned; getting, changing, making and unpinning pages are steps of
      sessions, and the frames that are left are counted.
    - [Values], [Schema]: [data/*], [table/column.h], [table/schema.cpp],
      [table/tuple.cpp]: tagged values and the four type classes, the layout of
      schemas, tuples built from values and read back.
    - [TablePage], [TablePageSpec]: [storage/page/table_page.cpp] on bytes, and its
      refinement of a list of slots.
    - [LinkHash], [LinkHashSpec]: [index/link_hash.cpp] and
      [storage/page/link_hash_page.h] over the buffer pool: two levels of directory
      pages and lists of table pages below them. The pages of an index, its
      buckets and its contents as a map from keys to tuples; lookup, insertion and
      deletion on these. A class states what the functions need of the type of
      keys; integers and zero-padded strings have it.
    - [Table], [TableSpec], [TableScan]: [table/table.cpp], the iterators
      ([table/table_iterator.cpp], [table/lk_ha_tb_iter.cpp]) and
      [executors/seq_scan_executor.cpp]. A table refines a finite map, and a scan
      returns its tuples once each.
    - [Expressions], [Executors], [ExecSpec], [UnionExecutor]: [sql/expressions/*] and
      [executors/*]: selections, projections and aggregates over a scan return what
      the query means; the union executor with its spilling is modelled, and shown to
      fail on scans.
    - [MetaPages], [Catalog], [CatalogSpec]: [meta/*] and [manager/db_manager.h]: the
      bytes of the catalog page and of a table's meta data, and the operations on
      them over the pool. The page refines a list of names and ids; a table that is
      created is found, empty and with its schema, also after a restart.
    - [Threads], [RwLatch], [WorkPool]: condition variables over a list of threads,
      [util/rwlatch.h] and [util/work_pool.cpp] under every interleaving: exclusion,
      no lost wake-up, every task run once.
    - [Lexer]: [sql/lex.cpp]: scanning returns the lexemes of a text however they are
      spaced, never leaves the text, and does not end on a text that ends with a word.
    - [Ast], [SqlExec], [SqlSpec]: [ast/*] and [sql/sql_parse.cpp]: the syntax tree and
      its accessors, the trees the grammar's actions build, and the execution of
      statements, for any parser given as an argument.
    - [SqlGrammar], [SqlParser], [SqlStatements]: [sql/parse.y]. [SqlGrammar] has the
      text of the grammar and the tables that the modelled generator computes from
      it; the parser accepts only what the grammar derives. [SqlParser] has the code
      of the grammar's rules and the parser made of driver, tables and code.
      [SqlStatements] proves that this parser turns the text of statements into their
      trees, and that a text that creates a table and inserts a row leaves that row in
      that table.
    - [Server]: [server/task.cpp] and [server/server.cpp]: the task of a connection
      cuts the bytes it receives into texts without loss and executes them, and the
      table of connections.
    - [ActTab]: the packing of action tables ([lemon.c], [acttab_*]).
    - [Lempar], [LemparSound], [LemparSafe]: the driver [lempar.c] over arbitrary
      tables; its soundness for every grammar the tables agree with; and a check of
      tables under which no call, ended or not, meets a fault: nothing is popped below
      the bottom of the stack or pushed beyond its end. Dawn's tables pass the check.
    - [LemonTable], [LemonData], [LemonSort], [LemonFirst], [LemonSymbol],
      [LemonStates], [LemonLR0], [LemonFollow], [LemonActions], [LemonCompress]: the
      parts of [lemon.c] that keep strings, states and configurations in hash tables,
      sort lists, compute first sets, number symbols and rules, build the states and
      prove them to be the LR(0) automaton, spread the lookaheads, build and resolve
      the actions of the states and compress them.
    - [LemonPreproc], [LemonRead], [LemonReadSpec], [LemonScan], [LemonScanSpec],
      [LemonRoundtrip]: the reader of grammar files: conditional text, the scanner of
      [Parse] and every state of [parseonetoken]. On every file, reading ends
      in a result or in one of the faults that are named, the tokens are those of a
      reference scanner, and a grammar that is printed is read back.
    - [LemonPrintf], [LemonUnion], [LemonCode], [LemonTables], [LemonEmit],
      [LemonReport]: the writer of the parser: formatted printing, the numbers of data
      types, the code of the rules, the tables, and every line of the generated file
      with its line directives. The tables that are written make the driver of
      [Lempar] act as the states' action lists say.
    - [LemonOption], [LemonListing]: the command line, the reprint, the report file,
      the header file and the search for the template.
    - [LemonMain]: [main] of the generator: its passes in their order over a map of
      files that outlives a fault. It writes no file but the four that are named after
      the grammar, in whatever way it ends.

    ** What the theorems show

    For the storage stack: page ids are handed out once, data survives eviction
    and restart, pinned pages stay where they are, tuples written are the tuples
    read through deletions that compact the page, a table behaves as a map through
    directory, buckets, eviction and disk, scanning it visits everything, and
    queries over the scan return the selected, projected or aggregated tuples. The
    refinement of a table covers lookups, insertions and deletions by key, for integer
    keys and strings that fill their column, while a bucket fits in one page and keeps
    a tuple; beyond that the code departs from a map (its overflow pages are not
    initialised, a shorter string is hashed with another length). Where a theorem has
    such a condition its comment states it, with the theorem that shows what happens
    without it. The catalog keeps what it is given,
    on its page and after loading it again, and a text of statements goes through
    scanner, generated parser, tree, catalog, schema, tuple and index to a row that is
    found. The bytes of a client are executed in order, whatever the pieces
    in which they arrive. For the generator: reading a grammar inverts printing it,
    no action is lost or invented between conflict resolution, the packed table and
    the driver's search, first sets and nullability are exactly the inductive notions,
    the states are the closures of reachable kernels with all their transitions,
    follow sets are what the links carry, the labels of rule code become the places
    they name, data types are numbered one to one, and the line directives name the
    lines they stand on up to the offset the code gets wrong. For the driver: what it
    accepts is derivable, and on tables that pass a check its stack stays in its array
    and no array is left. A few theorems record
    where the code departs from what it is meant to do (a freed frame still offered
    for eviction, a deleted task that is run, a label at the end of a rule's code, and
    others); they are runs of the same definitions.

    ** Fuel

    Loops bounded by data recurse on it. The others carry fuel: two turns of the
    hand for [victim], one more than the number of frames for the eviction loop of
    the pool, one more than the number of symbols (and of symbols times the size of
    a set) for the two loops of [FindFirstSets], the number of items for the closure
    of a state and the number of sets of items for the nesting of [getstate], one
    more than configurations times the size of a set for [FindFollowSets], the
    length of the text for the preprocessor and the scanner, the number of records a
    page can have, of allocated pages and of directory slots for the loops of the
    index and its iterator, the size of the table plus one for probing, the length of
    the code plus one for the labels of a rule. Executions of the latch and of the
    worker pool are bounded by a measure of their state. The theorems prove these
    enough; the theorems on queries give the fuel of the executors' loops as a bound
    on the number of tuples. Three loops of the code need not end: the driver's
    reductions on tables that reduce for ever, the unit-rule pass of [CompressTables]
    on a cyclic grammar, and the token loop of [sql_execute] on a text that ends with
    a word; [Parse], [unit_skip] and [sql_execute] take their fuel as an argument, and
    no theorem claims that they end on every input. The generator's run on [parse.y]
    is computed: a depth of 200 suffices for the nesting of [getstate], as the result
    shows. The parser made from it gives [Parse] 200 steps for a token, twice the size
    of its stack, and [sql_execute] takes one step more than the text has lexemes;
    the theorems on statements prove both enough.

    ** Not modelled

    Threads inside the storage stack (each call runs to its end; the latch of a page
    is not part of its state), the log file's contents, logging output and the
    [to_string] methods; sockets, epoll and the start and shutdown of the server;
    of [main] of the generator, the statistics, the text that it prints for its
    options and a template that is also an output file; the release of memory in the
    code of the rules of [parse.y]. The hash function is a parameter
    of the index; the code of grammar rules, destructors and error callbacks is a
    parameter of the driver; [strtod] is a parameter of the option parser, whose table
    of options does not use it. *)
From stdpp Require Export base numbers list option fin_maps gmap sets strings.
From Stdlib Require Export ZArith Lia Sorted.

#[global] Open Scope Z_scope.
#[global] Set Default Goal Selector "!".

(** ** Faults: the ways an execution of the C++ code can leave the defined,
    returning behaviours of the language. *)
Inductive fault :=
  | NullDeref        (* a null [Page*] is dereferenced *)
  | OutOfBounds      (* an access outside the object it points into *)
  | SignedOverflow   (* [int] arithmetic that leaves 32 bits *)
  | DivByZero        (* an [int] divided by zero *)
  | UninitRead       (* an indeterminate value is used *)
  | ExitCalled       (* [exit(-1)], [FATAL] or a failed [assert] *)
  | Blocked          (* a wait that only another thread can end *)
  | OutOfFuel.       (* the model's loop bound was too small *)

#[global] Instance fault_eq_dec : EqDecision fault.
Proof. solve_decision. Defined.

Inductive res (A : Type) :=
  | Ok (a : A)
  | Err (e : fault).
Arguments Ok {A} _.
Arguments Err {A} _.

#[global] Instance res_ret : MRet res := λ A a, Ok a.
#[global] Instance res_bind : MBind res := λ A B k m,
  match m with Ok a => k a | Err e => Err e end.
#[global] Instance res_fmap : FMap res := λ A B f m,
  match m with Ok a => Ok (f a) | Err e => Err e end.

(** binding with a pattern *)
Notation "'let*' p ':=' m 'in' k" :=
  (match m with Ok p => k | Err e => Err e end)
  (at level 10, p strict pattern, m at level 100, k at level 200,
   format "'[v' 'let*'  p  ':='  m  'in' '//' k ']'").

Definition of_opt {A} (e : fault) (o : option A) : res A :=
  match o with Some a => Ok a | None => Err e end.

Definition is_Ok {A} (r : res A) : Prop := ∃ a, r = Ok a.

(** A computation that threads a state and may fault. *)
Definition ST (S A : Type) : Type := S → res (A * S).
#[global] Instance ST_ret {S} : MRet (ST S) := λ A a s, Ok (a, s).
#[global] Instance ST_bind {S} : MBind (ST S) := λ A B k m s,
  match m s with Ok (a, s') => k a s' | Err e => Err e end.
Definition st_get {S} : ST S S := λ s, Ok (s, s).
Definition st_put {S} (s : S) : ST S unit := λ _, Ok (tt, s).
Definition st_fail {S A} (e : fault) : ST S A := λ _, Err e.
Definition st_lift {S A} (r : res A) : ST S A := λ s,
  match r with Ok a => Ok (a, s) | Err e => Err e end.

Lemma res_bind_Ok {A B} (m : res A) (k : A → res B) (b : B) :
  (m ≫= k) = Ok b ↔ ∃ a, m = Ok a ∧ k a = Ok b.
Proof. destruct m; cbn; naive_solver. Qed.

Lemma of_opt_Ok {A} e (o : option A) a : of_opt e o = Ok a ↔ o = Some a.
Proof. destruct o; cbn; naive_solver. Qed.

Lemma ST_bind_Ok {S A B} (m : ST S A) (k : A → ST S B) s r :
  (m ≫= k) s = Ok r ↔ ∃ a s', m s = Ok (a, s') ∧ k a s' = Ok r.
Proof.
  unfold mbind, ST_bind. destruct (m s) as [[a s']|]; naive_solver.
Qed.

(** [res_inv H] takes apart a hypothesis that a [res] computation returned. *)
Ltac res_inv H :=
  repeat match type of H with
  | (_ ≫= _) = Ok _ => apply res_bind_Ok in H;
      let a := fresh "v" in let E := fresh "E" in destruct H as (a & E & H)
  | of_opt _ _ = Ok _ => apply of_opt_Ok in H
  end.

(** ** Machine integers *)

Definition INT32_MIN : Z := -2147483648.
Definition INT32_MAX : Z := 2147483647.
Definition in32 (z : Z) : Prop := INT32_MIN ≤ z ≤ INT32_MAX.
Definition in32b (z : Z) : bool := (INT32_MIN <=? z) && (z <=? INT32_MAX).

(** the signed value of the low [w] bits *)
Definition swrap (w z : Z) : Z := (z + 2 ^ (w - 1)) mod 2 ^ w - 2 ^ (w - 1).
Definition swrap32 (z : Z) : Z := (z + 2147483648) mod 4294967296 - 2147483648.

Lemma in32b_spec z : in32b z = true ↔ in32 z.
Proof. unfold in32b, in32. rewrite andb_true_iff, !Z.leb_le. done. Qed.

Lemma swrap32_range z : in32 (swrap32 z).
Proof.
  unfold swrap32, in32, INT32_MIN, INT32_MAX.
  pose proof (Z.mod_pos_bound (z + 2147483648) 4294967296 ltac:(lia)). lia.
Qed.

Lemma swrap32_id z : in32 z → swrap32 z = z.
Proof.
  unfold in32, swrap32, INT32_MIN, INT32_MAX. intros ?.
  rewrite Z.mod_small; lia.
Qed.

Lemma swrap32_mod z : swrap32 (z mod 4294967296) = swrap32 z.
Proof.
  unfold swrap32. f_equal. rewrite Zplus_mod_idemp_l. done.
Qed.

(** [int] multiplication and addition: a result outside 32 bits is undefined. *)
Definition mul32 (a b : Z) : res Z :=
  if in32b (a * b) then Ok (a * b) else Err SignedOverflow.
Definition add32 (a b : Z) : res Z :=
  if in32b (a + b) then Ok (a + b) else Err SignedOverflow.

Definition sub32 (a b : Z) : res Z :=
  if in32b (a - b) then Ok (a - b) else Err SignedOverflow.
(** [int] division, which truncates *)
Definition div32 (a b : Z) : res Z :=
  if b =? 0 then Err DivByZero
  else if in32b (Z.quot a b) then Ok (Z.quot a b) else Err SignedOverflow.

Lemma add32_Ok a b : in32 (a + b) → add32 a b = Ok (a + b).
Proof. intros H. unfold add32. by rewrite (proj2 (in32b_spec _) H). Qed.

Lemma mul32_Ok a b : in32 (a * b) → mul32 a b = Ok (a * b).
Proof. intros H. unfold mul32. by rewrite (proj2 (in32b_spec _) H). Qed.

(** ** Byte memory: an object of the program is the list of its bytes, each a
    [Z]; an access outside the list is a fault. *)

Notation bytes := (list Z).

Definition zlen {A} (l : list A) : Z := Z.of_nat (length l).

Definition mem_read (m : bytes) (off len : Z) : res bytes :=
  if (0 <=? off) && (0 <=? len) && (off + len <=? zlen m)
  then Ok (take (Z.to_nat len) (drop (Z.to_nat off) m))
  else Err OutOfBounds.

Definition mem_write (m : bytes) (off : Z) (bs : bytes) : res bytes :=
  if (0 <=? off) && (off + zlen bs <=? zlen m)
  then Ok (take (Z.to_nat off) m ++ bs ++ drop (Z.to_nat (off + zlen bs)) m)
  else Err OutOfBounds.

(** little-endian encoding of a 32-bit integer, and its signed decoding *)
Definition enc32 (z : Z) : bytes :=
  [z mod 256; z / 256 mod 256; z / 65536 mod 256; z / 16777216 mod 256].
Definition dec32 (bs : bytes) : Z :=
  match bs with
  | [a; b; c; d] => swrap32 (a + 256 * b + 65536 * c + 16777216 * d)
  | _ => 0
  end.

Definition rd32 (m : bytes) (off : Z) : res Z := dec32 <$> mem_read m off 4.
Definition wr32 (m : bytes) (off z : Z) : res bytes := mem_write m off (enc32 z).
Definition rd8 (m : bytes) (off : Z) : res Z :=
  match mem_read m off 1 with Ok [b] => Ok b | Ok _ => Err OutOfBounds | Err e => Err e end.
Definition wr8 (m : bytes) (off z : Z) : res bytes := mem_write m off [z].

(** [memset(p + off, v, len)] *)
Definition mem_set (m : bytes) (off v len : Z) : res bytes :=
  if 0 <=? len then mem_write m off (replicate (Z.to_nat len) v) else Err OutOfBounds.

(** [memmove(p + dst, p + src, len)] within one object *)
Definition mem_move (m : bytes) (dst src len : Z) : res bytes :=
  bs ← mem_read m src len; mem_write m dst bs.

(** *** Lemmas on lists and byte memory *)

Lemma zlen_nonneg {A} (l : list A) : 0 ≤ zlen l.
Proof. unfold zlen. lia. Qed.

Lemma zlen_app {A} (l k : list A) : zlen (l ++ k) = zlen l + zlen k.
Proof. unfold zlen. rewrite length_app. lia. Qed.

Lemma zlen_replicate {A} n (x : A) : zlen (replicate n x) = Z.of_nat n.
Proof. unfold zlen. by rewrite length_replicate. Qed.

Lemma zlen_enc32 z : zlen (enc32 z) = 4.
Proof. done. Qed.

Lemma mem_read_Ok m off len bs :
  mem_read m off len = Ok bs ↔
  0 ≤ off ∧ 0 ≤ len ∧ off + len ≤ zlen m ∧
  bs = take (Z.to_nat len) (drop (Z.to_nat off) m).
Proof.
  unfold mem_read. destruct (_ && _) eqn:E.
  - rewrite !andb_true_iff, !Z.leb_le in E. naive_solver.
  - rewrite !andb_false_iff, !Z.leb_gt in E. split; [done | lia].
Qed.

Lemma mem_read_ex m off len :
  0 ≤ off → 0 ≤ len → off + len ≤ zlen m → ∃ bs, mem_read m off len = Ok bs.
Proof. intros. eexists. apply mem_read_Ok. eauto. Qed.

Lemma mem_read_zlen m off len bs : mem_read m off len = Ok bs → zlen bs = len.
Proof.
  intros (?&?&?&->)%mem_read_Ok. unfold zlen in *.
  rewrite length_take, length_drop. lia.
Qed.

Lemma mem_read_lookup m off len bs (i : nat) :
  mem_read m off len = Ok bs → Z.of_nat i < len →
  bs !! i = m !! (Z.to_nat off + i)%nat.
Proof.
  intros (?&?&?&->)%mem_read_Ok ?.
  rewrite lookup_take_lt by lia. by rewrite lookup_drop.
Qed.

(** two memories of one size that agree on a range give the same read *)
Lemma mem_read_ext m m' off len :
  zlen m' = zlen m →
  (∀ i : nat, off ≤ Z.of_nat i < off + len → m' !! i = m !! i) →
  mem_read m' off len = mem_read m off len.
Proof.
  intros Hl Hi. unfold mem_read. rewrite Hl.
  destruct (_ && _) eqn:E; [|done].
  rewrite !andb_true_iff, !Z.leb_le in E. f_equal.
  apply list_eq. intros i. destruct (decide (Z.of_nat i < len)).
  - rewrite !lookup_take_lt, !lookup_drop by lia. apply Hi. lia.
  - rewrite !lookup_take_ge by lia. done.
Qed.

Lemma mem_write_Ok m off bs m' :
  mem_write m off bs = Ok m' ↔
  0 ≤ off ∧ off + zlen bs ≤ zlen m ∧
  m' = take (Z.to_nat off) m ++ bs ++ drop (Z.to_nat (off + zlen bs)) m.
Proof.
  unfold mem_write. destruct (_ && _) eqn:E.
  - rewrite !andb_true_iff, !Z.leb_le in E. naive_solver.
  - rewrite !andb_false_iff, !Z.leb_gt in E. split; [done | lia].
Qed.

Lemma mem_write_lookup m off bs m' (i : nat) :
  mem_write m off bs = Ok m' →
  m' !! i = if decide (off ≤ Z.of_nat i < off + zlen bs)
            then bs !! (i - Z.to_nat off)%nat else m !! i.
Proof.
  intros (?&Hb&->)%mem_write_Ok. unfold zlen in *.
  assert (length (take (Z.to_nat off) m) = Z.to_nat off) as Ht
    by (rewrite length_take; lia).
  case_decide.
  - rewrite lookup_app_r by lia. rewrite lookup_app_l by lia. by rewrite Ht.
  - destruct (decide (Z.of_nat i < off)).
    + rewrite lookup_app_l by lia. by rewrite lookup_take_lt by lia.
    + rewrite lookup_app_r by lia. rewrite lookup_app_r by lia.
      rewrite lookup_drop, Ht. f_equal. lia.
Qed.

Lemma mem_write_zlen m off bs m' : mem_write m off bs = Ok m' → zlen m' = zlen m.
Proof.
  intros (?&?&->)%mem_write_Ok. unfold zlen in *.
  rewrite !length_app, length_take, length_drop. lia.
Qed.

Lemma mem_read_write_disj m off bs m' o l :
  mem_write m off bs = Ok m' → (o + l ≤ off ∨ off + zlen bs ≤ o) →
  mem_read m' o l = mem_read m o l.
Proof.
  intros W D. apply mem_read_ext; [by eapply mem_write_zlen|]. intros i Hi.
  rewrite (mem_write_lookup _ _ _ _ i W). case_decide; [lia|done].
Qed.

Lemma mem_read_write_same m off bs m' :
  mem_write m off bs = Ok m' → mem_read m' off (zlen bs) = Ok bs.
Proof.
  intros W. pose proof (mem_write_zlen _ _ _ _ W) as Hl.
  pose proof W as W'. apply mem_write_Ok in W' as (?&?&_).
  destruct (mem_read_ex m' off (zlen bs)) as [bs' R];
    [done | apply zlen_nonneg | lia |].
  rewrite R. f_equal. apply list_eq. intros i.
  pose proof (mem_read_zlen _ _ _ _ R) as Hz. unfold zlen in *.
  destruct (decide (i < length bs)%nat).
  - rewrite (mem_read_lookup _ _ _ _ i R) by lia.
    rewrite (mem_write_lookup _ _ _ _ _ W). unfold zlen.
    rewrite decide_True by lia. f_equal. lia.
  - rewrite !lookup_ge_None_2 by lia. done.
Qed.

(** the write lemma clients use: it succeeds in bounds, and its frame rule *)
Lemma mem_write_ex m off bs :
  0 ≤ off → off + zlen bs ≤ zlen m →
  ∃ m', mem_write m off bs = Ok m' ∧ zlen m' = zlen m ∧
    mem_read m' off (zlen bs) = Ok bs ∧
    (∀ o l, o + l ≤ off ∨ off + zlen bs ≤ o → mem_read m' o l = mem_read m o l).
Proof.
  intros ? ?. destruct (mem_write m off bs) as [m'|] eqn:E.
  - exists m'. split_and!; eauto using mem_write_zlen, mem_read_write_same.
    intros. by eapply mem_read_write_disj.
  - exfalso. unfold mem_write in E. destruct (_ && _) eqn:E'; [done|].
    rewrite andb_false_iff, !Z.leb_gt in E'. lia.
Qed.

Lemma mem_read_app m off a b :
  0 ≤ a → 0 ≤ b →
  mem_read m off (a + b) =
    (x ← mem_read m off a; y ← mem_read m (off + a) b; Ok (x ++ y)).
Proof.
  intros Ha Hb. unfold mem_read, mbind, res_bind.
  destruct (decide (0 ≤ off ∧ off + (a + b) ≤ zlen m)) as [[H1 H2]|H].
  - rewrite !(proj2 (Z.leb_le _ _)) by lia. cbn. f_equal.
    rewrite (Z2Nat.inj_add a b), (Z2Nat.inj_add off a) by lia.
    rewrite <- drop_drop.
    generalize (drop (Z.to_nat off) m) as k. intros k.
    by rewrite <- take_take_drop.
  - destruct (0 <=? off) eqn:E1; cbn; [|done].
    rewrite !(proj2 (Z.leb_le 0 _)) by lia. cbn.
    rewrite (proj2 (Z.leb_gt (off + (a + b)) _)) by lia.
    destruct (off + a <=? zlen m); [|done].
    rewrite (proj2 (Z.leb_gt (off + a + b) _)) by lia.
    by destruct (0 <=? off + a).
Qed.

Lemma dec_enc32 z : dec32 (enc32 z) = swrap32 z.
Proof.
  cbn [dec32 enc32]. rewrite <- (swrap32_mod z). f_equal.
  pose proof (Z.div_mod z 256). pose proof (Z.div_mod (z / 256) 256).
  pose proof (Z.div_mod (z / 65536) 256).
  pose proof (Z.div_mod (z / 16777216) 256).
  assert (z / 65536 = z / 256 / 256) by (rewrite Z.div_div by lia; done).
  assert (z / 16777216 = z / 65536 / 256) by (rewrite Z.div_div by lia; done).
  assert (z / 4294967296 = z / 16777216 / 256) by (rewrite Z.div_div by lia; done).
  pose proof (Z.div_mod z 4294967296). lia.
Qed.

Lemma rd32_wr32 m off z m' :
  wr32 m off z = Ok m' → in32 z → rd32 m' off = Ok z.
Proof.
  intros W Hz. unfold rd32. change 4 with (zlen (enc32 z)).
  rewrite (mem_read_write_same _ _ _ _ W). cbn [fmap res_fmap].
  by rewrite dec_enc32, swrap32_id.
Qed.

Lemma rd32_ex m off : 0 ≤ off → off + 4 ≤ zlen m → ∃ z, rd32 m off = Ok z ∧ in32 z.
Proof.
  intros. destruct (mem_read_ex m off 4) as [bs Hbs]; [lia..|].
  unfold rd32. rewrite Hbs. eexists. split; [done|].
  apply mem_read_zlen in Hbs. unfold zlen in Hbs.
  destruct bs as [|a [|b [|c [|d [|]]]]]; cbn in *; try lia. apply swrap32_range.
Qed.

(** the 32-bit form of [mem_write_ex] *)
Lemma wr32_ex m off z :
  0 ≤ off → off + 4 ≤ zlen m → in32 z →
  ∃ m', wr32 m off z = Ok m' ∧ zlen m' = zlen m ∧ rd32 m' off = Ok z ∧
    (∀ o l, o + l ≤ off ∨ off + 4 ≤ o → mem_read m' o l = mem_read m o l).
Proof.
  intros ? ? Hz. destruct (mem_write_ex m off (enc32 z)) as (m'&W&L&R&D);
    [done|by rewrite zlen_enc32|].
  exists m'. split_and!; [done|done|by eapply rd32_wr32|].
  intros. apply D. rewrite zlen_enc32. lia.
Qed.

Lemma rd32_ext m m' off :
  mem_read m' off 4 = mem_read m off 4 → rd32 m' off = rd32 m off.
Proof. unfold rd32. by intros ->. Qed.

Create HintDb dawn.
#[export] Hint Resolve zlen_nonneg mem_write_zlen mem_read_zlen : dawn.

(** ** Ordered sets: [std::set<int32_t>] as the strictly increasing list of its
    elements, [begin()] its head *)

Fixpoint oset_insert (x : Z) (l : list Z) : list Z :=
  match l with
  | [] => [x]
  | y :: k => if x <? y then x :: l else if x =? y then l else y :: oset_insert x k
  end.
Definition oset_erase (x : Z) (l : list Z) : list Z := filter (λ y, y ≠ x) l.
Definition oset_mem (x : Z) (l : list Z) : bool := bool_decide (x ∈ l).

Notation oset_ok := (StronglySorted Z.lt).

Lemma elem_of_oset_insert x y l : y ∈ oset_insert x l ↔ y = x ∨ y ∈ l.
Proof.
  induction l as [|z l IH]; cbn; [set_solver|].
  destruct (x <? z); [set_solver|]. destruct (Z.eqb_spec x z); set_solver.
Qed.

Lemma elem_of_oset_erase x y l : y ∈ oset_erase x l ↔ y ≠ x ∧ y ∈ l.
Proof. unfold oset_erase. by rewrite list_elem_of_filter. Qed.

Lemma StronglySorted_cons_elem x (l : list Z) :
  oset_ok (x :: l) ↔ (∀ y, y ∈ l → x < y) ∧ oset_ok l.
Proof.
  split.
  - intros H. inversion H as [|?? H1 H2]; subst. split; [|done].
    intros y Hy. rewrite Forall_forall in H2. by apply H2.
  - intros [H1 H2]. constructor; [done|]. apply Forall_forall. intros. by apply H1.
Qed.

Lemma oset_insert_ok x l : oset_ok l → oset_ok (oset_insert x l).
Proof.
  induction l as [|z l IH]; cbn.
  - intros _. repeat constructor.
  - intros [H1 H2]%StronglySorted_cons_elem. destruct (Z.ltb_spec x z).
    + rewrite StronglySorted_cons_elem. split.
      * intros y [->|Hy]%elem_of_cons; [done|]. apply H1 in Hy. lia.
      * by rewrite StronglySorted_cons_elem.
    + destruct (Z.eqb_spec x z); [by rewrite StronglySorted_cons_elem|].
      rewrite StronglySorted_cons_elem. split; [|by apply IH].
      intros y [->|Hy]%elem_of_oset_insert; [lia|]. by apply H1.
Qed.

Lemma oset_erase_ok x l : oset_ok l → oset_ok (oset_erase x l).
Proof.
  unfold oset_erase. induction l as [|z l IH]; [done|].
  intros [H1 H2]%StronglySorted_cons_elem. rewrite filter_cons. case_decide; [|by apply IH].
  rewrite StronglySorted_cons_elem. split; [|by apply IH].
  intros y [_ Hy]%list_elem_of_filter. by apply H1.
Qed.

(** an ordered set is determined by its members *)
Lemma oset_ext (l k : list Z) : oset_ok l → oset_ok k → (∀ x, x ∈ l ↔ x ∈ k) → l = k.
Proof.
  revert k. induction l as [|x l IH]; intros [|y k] Hl Hk He; [done|..].
  - specialize (He y). set_solver.
  - specialize (He x). set_solver.
  - apply StronglySorted_cons_elem in Hl as [Hl1 Hl2], Hk as [Hk1 Hk2].
    assert (x = y) as ->.
    { destruct (He x) as [H _], (He y) as [_ H']. rewrite !elem_of_cons in H, H'.
      destruct H as [|H]; [tauto|done|]. destruct H' as [|H']; [tauto|done|].
      apply Hl1 in H'. apply Hk1 in H. lia. }
    f_equal. apply IH; [done..|]. intros z. specialize (He z). rewrite !elem_of_cons in He.
    split; intros Hz.
    + destruct He as [He _]. destruct He as [->|]; [tauto| |done]. apply Hl1 in Hz. lia.
    + destruct He as [_ He]. destruct He as [->|]; [tauto| |done]. apply Hk1 in Hz. lia.
Qed.

(** inserting the interval [a, a+n) in increasing order, as the allocation loops do *)
Fixpoint oset_insert_range (a : Z) (n : nat) (l : list Z) : list Z :=
  match n with O => l | S n => oset_insert_range (a + 1) n (oset_insert a l) end.

Lemma elem_of_oset_insert_range a n l y :
  y ∈ oset_insert_range a n l ↔ a ≤ y < a + Z.of_nat n ∨ y ∈ l.
Proof.
  revert a l. induction n as [|n IH]; intros a l; cbn.
  - split; [by right|]. intros [?|?]; [lia|done].
  - rewrite IH, elem_of_oset_insert. split.
    + intros [?|[?|?]]; [left; lia|left; lia|by right].
    + intros [?|?]; [|by right; right].
      destruct (decide (y = a)); [by right; left|left; lia].
Qed.

Lemma oset_insert_range_ok a n l : oset_ok l → oset_ok (oset_insert_range a n l).
Proof. revert a l. induction n; intros; cbn; [done|]. auto using oset_insert_ok. Qed.

#[export] Hint Resolve oset_insert_ok oset_erase_ok oset_insert_range_ok : dawn.
