(* ===== verification/Config.v ===== *)
(** The constants of [src/include/util/config.h]: page geometry, status bytes,
    replacer flags, operation codes, index geometry. *)
From S2P Require Import Prelude.

Definition PAGE_SIZE : Z := 4096.
Definition READ_DB_PG_NUM : Z := 10240.
Definition READ_DB_BUF_SZ : Z := PAGE_SIZE * READ_DB_PG_NUM.

(** page *)
Definition COM_PG_HEADER_SZ : Z := 64.
Definition INVALID_PAGE_ID : Z := -1.
Definition INVALID_SLOT_NUM : Z := -1.
Definition STATUS_EXIST : Z := 1.
Definition STATUS_FREE : Z := 2.
Definition STATUS_TMP : Z := 4.
Definition STATUS_OFFSET : Z := 0.
Definition LSN_OFFSET : Z := 1.
Definition PAGE_ID_OFFSET : Z := 5.
Definition TABLE_PAGE_RESERVED : Z := 64.

(** replacer *)
Definition FRAME_NOT_EXIST : Z := 1.
Definition FRAME_EXIST_TRUE : Z := 2.
Definition FRAME_EXIST_FALSE : Z := 4.

(** operation codes: [op_code_t] is an [int32_t], and callers test it as one *)
Definition OP_SUCCESS : Z := 0.
Definition DUP_KEY : Z := -1.
Definition NEW_PG_FAIL : Z := -2.
Definition TUPLE_NOT_FOUND : Z := -3.
Definition MARK_DELETE_FAIL : Z := -4.

(** sizes of the machine types *)
Definition PTR_SIZE : Z := 8.
Definition ENUM_SIZE : Z := 4.
Definition SIZE_T_SIZE : Z := 4.
Definition OFFSET_T_SIZE : Z := 4.
Definition PGID_T_SIZE : Z := 4.
Definition DECIMAL_T_SIZE : Z := 8.
Definition INTEGER_T_SIZE : Z := 4.
Definition BOOLEAN_T_SIZE : Z := 1.

(** slots of a LinkHashPage, and of the whole two-level directory *)
Definition LK_HA_PG_SLOT_NUM : Z := (PAGE_SIZE - COM_PG_HEADER_SZ) / PGID_T_SIZE.
Definition Lk_HA_TOTAL_SLOT_NUM : Z := LK_HA_PG_SLOT_NUM * LK_HA_PG_SLOT_NUM.

(** [cfg] replaces every constant by its value, so that [lia] can use it. *)
Ltac cfg :=
  unfold Lk_HA_TOTAL_SLOT_NUM, LK_HA_PG_SLOT_NUM, READ_DB_BUF_SZ, READ_DB_PG_NUM,
    PAGE_SIZE, COM_PG_HEADER_SZ, INVALID_PAGE_ID, INVALID_SLOT_NUM, STATUS_EXIST,
    STATUS_FREE, STATUS_TMP, STATUS_OFFSET, LSN_OFFSET, PAGE_ID_OFFSET,
    TABLE_PAGE_RESERVED, FRAME_NOT_EXIST, FRAME_EXIST_TRUE, FRAME_EXIST_FALSE,
    OP_SUCCESS, DUP_KEY, NEW_PG_FAIL, TUPLE_NOT_FOUND, MARK_DELETE_FAIL, PTR_SIZE,
    ENUM_SIZE, SIZE_T_SIZE, OFFSET_T_SIZE, PGID_T_SIZE, DECIMAL_T_SIZE,
    INTEGER_T_SIZE, BOOLEAN_T_SIZE, in32, INT32_MIN, INT32_MAX in *.
Ltac cfg_lia := cfg; lia.
