(* ===== verification/Replacer.v ===== *)
(** The interface [ReplacerAbstract] of [src/include/buffer/replacer_abstract.h]:
    what the buffer pool relies on when it asks a replacement policy for a
    frame. The operations are the virtual methods of the class; the laws are
    the contract between the buffer pool and any replacer. *)
From S2P Require Import Prelude Config.

Class ReplacerAbstract (R : Type) := {
  rep_new : Z → R;
  rep_pin : R → Z → res R;
  rep_unpin : R → Z → res R;
  rep_victim : R → res (Z * R);
  rep_size : R → Z;

  (** [rep_wf r n]: [r] is a well-formed replacer for frames [0 .. n-1] *)
  rep_wf : R → nat → Prop;
  (** [rep_in r i]: frame [i] is a candidate for eviction *)
  rep_in : R → nat → Prop;

  rep_new_spec n : 0 < n → rep_wf (rep_new n) (Z.to_nat n) ∧ ∀ i, ¬ rep_in (rep_new n) i;
  rep_pin_spec r n i : rep_wf r n → (i < n)%nat →
    ∃ r', rep_pin r (Z.of_nat i) = Ok r' ∧ rep_wf r' n ∧
      ∀ j, rep_in r' j ↔ rep_in r j ∧ j ≠ i;
  rep_unpin_spec r n i : rep_wf r n → (i < n)%nat →
    ∃ r', rep_unpin r (Z.of_nat i) = Ok r' ∧ rep_wf r' n ∧
      ∀ j, rep_in r' j ↔ rep_in r j ∨ j = i;
  rep_victim_spec r n i : rep_wf r n → rep_in r i →
    ∃ v r', rep_victim r = Ok (Z.of_nat v, r') ∧ (v < n)%nat ∧ rep_in r v ∧ rep_wf r' n ∧
      ∀ j, rep_in r' j ↔ rep_in r j ∧ j ≠ v;
  rep_victim_blocked r n : rep_wf r n → (∀ i, ¬ rep_in r i) → rep_victim r = Err Blocked;
}.
