(* ===== verification/ClockReplacer.v ===== *)
(** The clock replacer of the buffer pool
    ([src/buffer/clock_replacer.cpp], [src/include/buffer/clock_replacer.h]):
    a circular array of frame flags with a hand. A frame is absent
    ([FRAME_NOT_EXIST]), present with its second chance ([FRAME_EXIST_TRUE]) or
    present without it ([FRAME_EXIST_FALSE]). *)
From S2P Require Import Prelude Config Replacer.

Record ClockReplacer := mkClock {
  flags : list Z;
  pool_size_ : Z;
  clock_pointer_ : Z;
  exit_num : Z;
}.

Definition ClockReplacer_new (pool_size : Z) : ClockReplacer :=
  {| flags := replicate (Z.to_nat pool_size) FRAME_NOT_EXIST;
     pool_size_ := pool_size; clock_pointer_ := 0; exit_num := 0 |}.

(** [flags[i]], a fault outside the array *)
Definition flag_at (r : ClockReplacer) (i : Z) : res Z :=
  if 0 <=? i then of_opt OutOfBounds (flags r !! Z.to_nat i) else Err OutOfBounds.
Definition set_flag (r : ClockReplacer) (i f : Z) : ClockReplacer :=
  {| flags := <[Z.to_nat i := f]> (flags r); pool_size_ := pool_size_ r;
     clock_pointer_ := clock_pointer_ r; exit_num := exit_num r |}.
Definition set_exit_num (r : ClockReplacer) (n : Z) : ClockReplacer :=
  {| flags := flags r; pool_size_ := pool_size_ r;
     clock_pointer_ := clock_pointer_ r; exit_num := n |}.

Definition clock_pointer_to_next (r : ClockReplacer) : ClockReplacer :=
  {| flags := flags r; pool_size_ := pool_size_ r;
     clock_pointer_ := (clock_pointer_ r + 1) mod pool_size_ r;
     exit_num := exit_num r |}.

Definition pin (r : ClockReplacer) (frame_id : Z) : res ClockReplacer :=
  f ← flag_at r frame_id;
  if bool_decide (f ≠ FRAME_NOT_EXIST)
  then Ok (set_flag (set_exit_num r (exit_num r - 1)) frame_id FRAME_NOT_EXIST)
  else Ok r.

Definition unpin (r : ClockReplacer) (frame_id : Z) : res ClockReplacer :=
  f ← flag_at r frame_id;
  if bool_decide (f = FRAME_NOT_EXIST)
  then Ok (set_flag (set_exit_num r (exit_num r + 1)) frame_id FRAME_EXIST_TRUE)
  else Ok r.

(** the second loop of [victim]: turn the hand until it meets a frame that has
    used up its second chance *)
Fixpoint victim_loop (fuel : nat) (r : ClockReplacer) : res (Z * ClockReplacer) :=
  match fuel with
  | O => Err OutOfFuel
  | S fuel =>
      f ← flag_at r (clock_pointer_ r);
      if bool_decide (Z.land f FRAME_EXIST_FALSE ≠ 0) then
        let frame_id := clock_pointer_ r in
        let r := set_flag r (clock_pointer_ r) FRAME_NOT_EXIST in
        let r := set_exit_num r (exit_num r - 1) in
        Ok (frame_id, clock_pointer_to_next r)
      else if bool_decide (Z.land f FRAME_EXIST_TRUE ≠ 0) then
        let r := set_flag r (clock_pointer_ r) FRAME_EXIST_FALSE in
        victim_loop fuel (clock_pointer_to_next r)
      else victim_loop fuel (clock_pointer_to_next r)
  end.

(** Two turns of the hand always suffice ([victim_correct] below). *)
Definition victim_fuel (r : ClockReplacer) : nat := S (2 * length (flags r)).

(** The first loop of [victim] sleeps until some other thread unpins a frame. *)
Definition victim (r : ClockReplacer) : res (Z * ClockReplacer) :=
  if bool_decide (exit_num r > 0) then victim_loop (victim_fuel r) r else Err Blocked.

Definition size (r : ClockReplacer) : Z := exit_num r.

(** ** Invariant and reference behaviour *)

Definition is_flag (f : Z) : Prop :=
  f = FRAME_NOT_EXIST ∨ f = FRAME_EXIST_TRUE ∨ f = FRAME_EXIST_FALSE.

(** the frames that the replacer holds *)
Definition present (r : ClockReplacer) (i : nat) : Prop :=
  ∃ f, flags r !! i = Some f ∧ f ≠ FRAME_NOT_EXIST.
Definition npresent (fs : list Z) : nat :=
  length (filter (λ f, f ≠ FRAME_NOT_EXIST) fs).

Record clock_wf (r : ClockReplacer) : Prop := {
  wf_len : zlen (flags r) = pool_size_ r;
  wf_hand : 0 ≤ clock_pointer_ r < pool_size_ r;
  wf_flags : Forall is_flag (flags r);
  wf_num : exit_num r = Z.of_nat (npresent (flags r));
}.

(** frame reached after [k] steps of the hand *)
Definition pos (r : ClockReplacer) (k : nat) : nat :=
  Z.to_nat ((clock_pointer_ r + Z.of_nat k) mod pool_size_ r).

(** the flags the hand meets in one turn *)
Definition turn (r : ClockReplacer) : list Z :=
  (λ k, default FRAME_NOT_EXIST (flags r !! pos r k)) <$> seq 0 (length (flags r)).

(** distance from the hand to the frame the clock policy chooses: the first
    frame without its second chance, else the first frame present *)
Definition victim_dist (r : ClockReplacer) : option nat :=
  match list_find (λ f, f = FRAME_EXIST_FALSE) (turn r) with
  | Some (k, _) => Some k
  | None => fst <$> list_find (λ f, f = FRAME_EXIST_TRUE) (turn r)
  end.

(** ** The hand's movement *)

Definition demote (f : Z) : Z := if decide (f = FRAME_EXIST_TRUE) then FRAME_EXIST_FALSE else f.
Definition hand (r : ClockReplacer) : nat := Z.to_nat (clock_pointer_ r).
Definition dist (r : ClockReplacer) (i : nat) : Z := (Z.of_nat i - clock_pointer_ r) mod pool_size_ r.

(** one step of the loop over a frame that keeps its place *)
Definition tick (r : ClockReplacer) : ClockReplacer :=
  {| flags := alter demote (hand r) (flags r); pool_size_ := pool_size_ r;
     clock_pointer_ := (clock_pointer_ r + 1) mod pool_size_ r; exit_num := exit_num r |}.

Lemma land_false f : is_flag f → bool_decide (Z.land f FRAME_EXIST_FALSE ≠ 0) = bool_decide (f = FRAME_EXIST_FALSE).
Proof. by intros [->|[->| ->]]. Qed.
Lemma land_true f : is_flag f → bool_decide (Z.land f FRAME_EXIST_TRUE ≠ 0) = bool_decide (f = FRAME_EXIST_TRUE).
Proof. by intros [->|[->| ->]]. Qed.

Lemma demote_flag f : is_flag f → is_flag (demote f).
Proof. intros [->|[->| ->]]; cbv; tauto. Qed.
Lemma demote_present f : demote f ≠ FRAME_NOT_EXIST ↔ f ≠ FRAME_NOT_EXIST.
Proof. unfold demote. case_decide; subst; cfg_lia. Qed.

Lemma flag_at_hand r : clock_wf r → ∃ f, flag_at r (clock_pointer_ r) = Ok f ∧ flags r !! hand r = Some f ∧ is_flag f.
Proof.
  intros [Hl Hh Hf _]. unfold flag_at, hand.
  destruct (lookup_lt_is_Some_2 (flags r) (Z.to_nat (clock_pointer_ r))) as [f Hlk];
    [unfold zlen in Hl; lia|].
  exists f. rewrite Hlk, (proj2 (Z.leb_le _ _)) by lia. split_and!; [done..|].
  by eapply Forall_lookup_1 in Hf.
Qed.

Lemma npresent_alter fs i f : fs !! i = Some f → npresent (alter demote i fs) = npresent fs.
Proof.
  unfold npresent. revert i. induction fs as [|g fs IH]; intros [|i] H; simplify_eq/=.
  - rewrite !filter_cons. pose proof (demote_present f). repeat case_decide; naive_solver.
  - specialize (IH _ H). rewrite !filter_cons. case_decide; cbn; lia.
Qed.

Lemma npresent_insert fs i f g :
  fs !! i = Some f →
  Z.of_nat (npresent (<[i:=g]> fs)) =
    Z.of_nat (npresent fs) - (if decide (f ≠ FRAME_NOT_EXIST) then 1 else 0)
      + (if decide (g ≠ FRAME_NOT_EXIST) then 1 else 0).
Proof.
  unfold npresent. revert i. induction fs as [|h fs IH]; intros [|i] H; simplify_eq/=.
  - rewrite !filter_cons. repeat case_decide; cbn; lia.
  - specialize (IH _ H). rewrite !filter_cons.
    destruct (decide (h ≠ FRAME_NOT_EXIST)); cbn [length]; lia.
Qed.

Lemma npresent_pos fs : (0 < npresent fs)%nat → ∃ i f, fs !! i = Some f ∧ f ≠ FRAME_NOT_EXIST.
Proof.
  unfold npresent. induction fs as [|h fs IH]; [cbn; lia|].
  rewrite filter_cons. case_decide.
  - intros _. by exists O, h.
  - intros (i&f&?&?)%IH. by exists (S i), f.
Qed.

Lemma tick_wf r : clock_wf r → clock_wf (tick r).
Proof.
  intros Hwf. destruct (flag_at_hand r Hwf) as (f&_&Hf&_). destruct Hwf as [Hl Hh Hfs Hn].
  constructor; cbn [tick flags pool_size_ clock_pointer_ exit_num].
  - unfold zlen in *. by rewrite length_alter.
  - apply Z.mod_pos_bound. lia.
  - apply Forall_alter; [done|]. intros. by apply demote_flag.
  - by erewrite npresent_alter.
Qed.

Lemma victim_loop_tick n r f :
  clock_wf r → flags r !! hand r = Some f → f ≠ FRAME_EXIST_FALSE →
  victim_loop (S n) r = victim_loop n (tick r).
Proof.
  intros Hwf Hf Hne. destruct (flag_at_hand r Hwf) as (g&Hg&Hlk&Hfl).
  assert (g = f) as -> by congruence.
  cbn [victim_loop]. rewrite Hg. cbn [mbind res_bind].
  rewrite land_false, land_true by done.
  rewrite (bool_decide_eq_false_2 _ Hne). unfold tick, hand in *.
  case_bool_decide as Ht; f_equal; unfold clock_pointer_to_next, set_flag; cbn; f_equal.
  - apply list_eq. intros j. destruct (decide (j = Z.to_nat (clock_pointer_ r))) as [->|].
    + rewrite list_lookup_alter_eq, Hlk, list_lookup_insert_eq by (by eapply lookup_lt_Some).
      subst. done.
    + by rewrite list_lookup_alter_ne, list_lookup_insert_ne by done.
  - apply list_eq. intros j. destruct (decide (j = Z.to_nat (clock_pointer_ r))) as [->|].
    + rewrite list_lookup_alter_eq, Hlk. cbn. unfold demote. by rewrite decide_False.
    + by rewrite list_lookup_alter_ne.
Qed.

Definition ticks (k : nat) (r : ClockReplacer) : ClockReplacer := Nat.iter k tick r.

Lemma ticks_wf k r : clock_wf r → clock_wf (ticks k r).
Proof. intros. induction k as [|k IH]; [done|]. by apply tick_wf. Qed.

Lemma ticks_fields k r :
  clock_wf r → pool_size_ (ticks k r) = pool_size_ r ∧ exit_num (ticks k r) = exit_num r ∧
  clock_pointer_ (ticks k r) = (clock_pointer_ r + Z.of_nat k) mod pool_size_ r.
Proof.
  intros [_ Hh _ _]. induction k as [|k (IH1&IH2&IH3)].
  - split_and!; [done..|]. change (Z.of_nat 0) with 0. rewrite Z.add_0_r, Z.mod_small; done.
  - change (ticks (S k) r) with (tick (ticks k r)).
    cbn [tick pool_size_ exit_num clock_pointer_]. rewrite IH1, IH2, IH3. split_and!; [done..|].
    rewrite Zplus_mod_idemp_l. f_equal. lia.
Qed.

Lemma hand_ticks k r : clock_wf r → hand (ticks k r) = pos r k.
Proof. intros H. unfold hand, pos. by destruct (ticks_fields k r H) as (_&_&->). Qed.

Lemma dist_pos r k : clock_wf r → (k < length (flags r))%nat → dist r (pos r k) = Z.of_nat k.
Proof.
  intros [Hl Hh _ _] Hk. unfold dist, pos, zlen in *.
  rewrite Z2Nat.id by (apply Z.mod_pos_bound; lia).
  rewrite Zminus_mod_idemp_l. rewrite Z.mod_small; lia.
Qed.

Lemma pos_dist r i : clock_wf r → (i < length (flags r))%nat → pos r (Z.to_nat (dist r i)) = i.
Proof.
  intros [Hl Hh _ _] Hk. unfold dist, pos, zlen in *.
  rewrite Z2Nat.id by (apply Z.mod_pos_bound; lia).
  rewrite Zplus_mod_idemp_r. rewrite Z.mod_small; lia.
Qed.

Lemma dist_range r i : clock_wf r → 0 ≤ dist r i < zlen (flags r).
Proof. intros [Hl Hh _ _]. unfold dist. rewrite Hl. apply Z.mod_pos_bound. lia. Qed.

(** after [k] steps of a turn exactly the frames passed have lost their second chance *)
Lemma ticks_lookup k r i :
  clock_wf r → (k ≤ length (flags r))%nat → (i < length (flags r))%nat →
  flags (ticks k r) !! i = (if decide (dist r i < Z.of_nat k) then demote else id) <$> flags r !! i.
Proof.
  intros Hwf. pose proof (dist_range r i Hwf) as Hd. induction k as [|k IH]; intros Hk Hi.
  - cbn. rewrite decide_False by lia. by rewrite option_fmap_id.
  - change (ticks (S k) r) with (tick (ticks k r)). specialize (IH ltac:(lia) Hi).
    cbn [tick flags]. rewrite (hand_ticks k r Hwf).
    destruct (decide (i = pos r k)) as [->|Hne].
    + rewrite list_lookup_alter_eq, IH. rewrite dist_pos by (done || lia).
      rewrite decide_False, decide_True by lia. by rewrite option_fmap_id.
    + rewrite list_lookup_alter_ne by done. rewrite IH.
      assert (dist r i ≠ Z.of_nat k) as Hdk.
      { intros E. apply Hne. rewrite <- (pos_dist r i Hwf Hi), E. by rewrite Nat2Z.id. }
      destruct (decide (dist r i < Z.of_nat k)).
      * by rewrite decide_True by lia.
      * by rewrite decide_False by lia.
Qed.

Lemma length_turn r : length (turn r) = length (flags r).
Proof. unfold turn. by rewrite length_fmap, length_seq. Qed.

Lemma pos_lt r k : clock_wf r → (pos r k < length (flags r))%nat.
Proof.
  intros [Hl Hh _ _]. unfold pos, zlen in *.
  pose proof (Z.mod_pos_bound (clock_pointer_ r + Z.of_nat k) (pool_size_ r)). lia.
Qed.

Lemma turn_lookup r k : clock_wf r → (k < length (flags r))%nat → turn r !! k = flags r !! pos r k.
Proof.
  intros Hwf Hk. unfold turn. rewrite list_lookup_fmap, lookup_seq_lt by done. cbn.
  destruct (lookup_lt_is_Some_2 (flags r) (pos r k)) as [f ->]; [by apply pos_lt|done].
Qed.

(** the loop runs over the frames that are not to be evicted *)
Lemma victim_loop_ticks k m r :
  clock_wf r → (k ≤ length (flags r))%nat →
  (∀ j, (j < k)%nat → turn r !! j ≠ Some FRAME_EXIST_FALSE) →
  victim_loop (k + m) r = victim_loop m (ticks k r).
Proof.
  intros Hwf. revert m. induction k as [|k IH]; intros m Hk Hno; [done|].
  replace (S k + m)%nat with (k + S m)%nat by lia.
  rewrite IH; [|lia|intros; apply Hno; lia].
  destruct (flag_at_hand (ticks k r) (ticks_wf k r Hwf)) as (f&_&Hf&_).
  apply victim_loop_tick with f; [by apply ticks_wf|done|].
  intros ->. apply (Hno k); [lia|]. rewrite turn_lookup by (done || lia).
  rewrite hand_ticks in Hf by done.
  rewrite ticks_lookup in Hf; [|done|lia|by apply pos_lt].
  rewrite dist_pos in Hf by (done || lia). rewrite decide_False in Hf by lia.
  by rewrite option_fmap_id in Hf.
Qed.

Definition evict_at_hand (r : ClockReplacer) : ClockReplacer :=
  clock_pointer_to_next
    (set_exit_num (set_flag r (clock_pointer_ r) FRAME_NOT_EXIST) (exit_num r - 1)).

Ltac clk := cbn [evict_at_hand clock_pointer_to_next set_exit_num set_flag flags
  pool_size_ clock_pointer_ exit_num].

Lemma victim_loop_hit m r :
  clock_wf r → flags r !! hand r = Some FRAME_EXIST_FALSE →
  victim_loop (S m) r = Ok (Z.of_nat (hand r), evict_at_hand r).
Proof.
  intros Hwf Hf. destruct (flag_at_hand r Hwf) as (g&Hg&Hlk&_).
  assert (g = FRAME_EXIST_FALSE) as -> by congruence.
  cbn [victim_loop]. rewrite Hg. cbn [mbind res_bind].
  rewrite bool_decide_eq_true_2 by done. unfold hand.
  rewrite Z2Nat.id by apply Hwf. done.
Qed.

Lemma evict_at_hand_wf r f :
  clock_wf r → flags r !! hand r = Some f → f ≠ FRAME_NOT_EXIST →
  clock_wf (evict_at_hand r) ∧
  (∀ i, present (evict_at_hand r) i ↔ present r i ∧ i ≠ hand r).
Proof.
  intros [Hl Hh Hfs Hn] Hf Hne. split.
  - constructor; unfold evict_at_hand; clk.
    + unfold zlen in *. by rewrite length_insert.
    + apply Z.mod_pos_bound. lia.
    + apply Forall_insert; [done|]. by left.
    + rewrite (npresent_insert _ _ f) by done.
      rewrite decide_True, decide_False by (done || tauto). lia.
  - intros i. unfold present, evict_at_hand. clk. destruct (decide (i = hand r)) as [->|Hi].
    + rewrite list_lookup_insert_eq by (by eapply lookup_lt_Some). naive_solver.
    + rewrite list_lookup_insert_ne by done. naive_solver.
Qed.

Lemma list_find_first {A} (P : A → Prop) `{∀ x, Decision (P x)} l k x :
  list_find P l = Some (k, x) →
  l !! k = Some x ∧ P x ∧ ∀ j y, (j < k)%nat → l !! j = Some y → ¬ P y.
Proof. intros (?&?&?)%list_find_Some. split_and!; [done..|]. naive_solver. Qed.

Lemma ticks_present r i :
  clock_wf r → present (ticks (length (flags r)) r) i ↔ present r i.
Proof.
  intros Hwf. unfold present. destruct (decide (i < length (flags r))%nat) as [Hi|Hi].
  - rewrite ticks_lookup by (done || lia).
    rewrite decide_True by (pose proof (dist_range r i Hwf); unfold zlen in *; lia).
    destruct (flags r !! i) as [f|]; cbn; [|naive_solver].
    pose proof (demote_present f). naive_solver.
  - pose proof (wf_len _ Hwf) as H1. pose proof (wf_len _ (ticks_wf (length (flags r)) r Hwf)) as H2.
    destruct (ticks_fields (length (flags r)) r Hwf) as (H3&_). unfold zlen in *.
    rewrite !lookup_ge_None_2 by lia. naive_solver.
Qed.

Lemma turn_full r :
  clock_wf r → turn (ticks (length (flags r)) r) = demote <$> turn r.
Proof.
  intros Hwf. set (n := length (flags r)).
  pose proof (ticks_wf n r Hwf) as Hwf'. destruct (ticks_fields n r Hwf) as (Hp&_&Hc).
  assert (length (flags (ticks n r)) = n) as Hn.
  { pose proof (wf_len _ Hwf). pose proof (wf_len _ Hwf'). unfold zlen, n in *. lia. }
  apply list_eq. intros k. rewrite list_lookup_fmap.
  destruct (decide (k < n)%nat) as [Hk|Hk].
  - rewrite !turn_lookup by (done || lia).
    assert (pos (ticks n r) k = pos r k) as ->.
    { unfold pos. rewrite Hp, Hc. rewrite Zplus_mod_idemp_l.
      replace (clock_pointer_ r + Z.of_nat n + Z.of_nat k)
        with (clock_pointer_ r + Z.of_nat k + 1 * pool_size_ r)
        by (rewrite <- (wf_len _ Hwf); unfold zlen, n; lia).
      by rewrite Z_mod_plus_full. }
    rewrite ticks_lookup; [|done|done|by apply pos_lt].
    rewrite decide_True; [done|]. rewrite dist_pos by done. lia.
  - rewrite !lookup_ge_None_2; [done|rewrite length_turn; lia..].
Qed.

Lemma find_demote l :
  list_find (λ f, f = FRAME_EXIST_FALSE) l = None →
  fst <$> list_find (λ f, f = FRAME_EXIST_FALSE) (demote <$> l)
    = fst <$> list_find (λ f, f = FRAME_EXIST_TRUE) l.
Proof.
  induction l as [|f l IH]; [done|]. cbn -[demote].
  destruct (decide (f = FRAME_EXIST_FALSE)); [done|]. intros Hnone.
  destruct (decide (f = FRAME_EXIST_TRUE)) as [->|Ht]; [done|].
  rewrite decide_False by (unfold demote; by rewrite decide_False).
  destruct (list_find (λ f, f = FRAME_EXIST_FALSE) l) eqn:E; [done|]. specialize (IH eq_refl).
  repeat destruct (list_find _ _) as [[]|]; cbn in *; congruence.
Qed.

Lemma victim_dist_some r : clock_wf r → 0 < exit_num r → is_Some (victim_dist r).
Proof.
  intros Hwf Hn. rewrite (wf_num _ Hwf) in Hn.
  destruct (npresent_pos (flags r)) as (i&f&Hf&Hne); [lia|].
  pose proof (lookup_lt_Some _ _ _ Hf) as Hi. pose proof (dist_range r i Hwf) as Hd.
  assert (turn r !! Z.to_nat (dist r i) = Some f) as Ht.
  { rewrite turn_lookup by (done || (unfold zlen in *; lia)). by rewrite pos_dist. }
  pose proof (Forall_lookup_1 _ _ _ _ (wf_flags _ Hwf) Hf) as Hfl.
  unfold victim_dist. destruct (list_find _ (turn r)) as [[k ?]|] eqn:E1; [by eexists|].
  destruct (list_find (λ f, f = FRAME_EXIST_TRUE) (turn r)) as [[k ?]|] eqn:E2; [by eexists|].
  exfalso. rewrite list_find_None in E1, E2. rewrite Forall_lookup in E1, E2.
  apply E1 in Ht as ?. apply E2 in Ht as ?. destruct Hfl as [?|[?|?]]; congruence.
Qed.

(** ** Correctness *)

Lemma victim_loop_dist m r k :
  clock_wf r → list_find (λ f, f = FRAME_EXIST_FALSE) (turn r) = Some (k, FRAME_EXIST_FALSE) →
  ∃ r', victim_loop (S (k + m)) r = Ok (Z.of_nat (pos r k), r') ∧ clock_wf r' ∧
    present r (pos r k) ∧ (∀ i, present r' i ↔ present r i ∧ i ≠ pos r k) ∧
    exit_num r' = exit_num r - 1 ∧ pool_size_ r' = pool_size_ r.
Proof.
  intros Hwf Hfind. apply list_find_first in Hfind as (Hk&_&Hno).
  pose proof (lookup_lt_Some _ _ _ Hk) as Hlt. rewrite length_turn in Hlt.
  rewrite turn_lookup in Hk by done. replace (S (k + m)) with (k + S m)%nat by lia.
  pose proof (ticks_wf k r Hwf) as Hwf'. destruct (ticks_fields k r Hwf) as (Hp&He&_).
  assert (flags (ticks k r) !! hand (ticks k r) = Some FRAME_EXIST_FALSE) as Hh.
  { rewrite hand_ticks, ticks_lookup by (done || lia || by apply pos_lt).
    rewrite dist_pos, decide_False by (done || lia). by rewrite Hk. }
  rewrite victim_loop_ticks by (done || lia || (intros j ? E; by eapply Hno in E)).
  rewrite victim_loop_hit, hand_ticks by done.
  destruct (evict_at_hand_wf _ _ Hwf' Hh) as [Hw Hpr]; [done|].
  eexists. split; [done|]. split_and!.
  - done.
  - by exists FRAME_EXIST_FALSE.
  - intros i. rewrite Hpr, hand_ticks by done. unfold present at 1.
    destruct (decide (i < length (flags r))%nat) as [Hi|Hi].
    + rewrite ticks_lookup by (done || lia). unfold present.
      destruct (flags r !! i) as [f|]; case_decide; cbn; [|naive_solver..].
      pose proof (demote_present f). naive_solver.
    + pose proof (wf_len _ Hwf) as H1. pose proof (wf_len _ Hwf') as H2. unfold zlen in *.
      unfold present. rewrite !lookup_ge_None_2 by lia. naive_solver.
  - cbn. by rewrite He.
  - cbn. done.
Qed.

Lemma victim_correct_aux r :
  clock_wf r → 0 < exit_num r →
  ∃ k r', victim_dist r = Some k ∧ victim r = Ok (Z.of_nat (pos r k), r') ∧ clock_wf r' ∧
    present r (pos r k) ∧ (∀ i, present r' i ↔ present r i ∧ i ≠ pos r k) ∧
    exit_num r' = exit_num r - 1 ∧ pool_size_ r' = pool_size_ r.
Proof.
  intros Hwf Hn. destruct (victim_dist_some r Hwf Hn) as [k Hk]. exists k.
  unfold victim. rewrite bool_decide_eq_true_2 by lia. unfold victim_fuel.
  unfold victim_dist in Hk. destruct (list_find _ (turn r)) as [[k' f]|] eqn:E1.
  - simplify_eq. pose proof (list_find_first _ _ _ _ E1) as (Hlk&->&_).
    apply lookup_lt_Some in Hlk. rewrite length_turn in Hlk.
    destruct (victim_loop_dist (2 * length (flags r) - k) r k Hwf E1) as (r'&Hl&?).
    exists r'. unfold victim_dist. rewrite E1. split; [done|].
    replace (S (2 * length (flags r))) with (S (k + (2 * length (flags r) - k))) by lia. done.
  - set (n := length (flags r)) in *. pose proof (ticks_wf n r Hwf) as Hwf'.
    pose proof (turn_full r Hwf) as Htf. fold n in Htf.
    pose proof (find_demote _ E1) as Hfd. rewrite <- Htf, Hk in Hfd.
    destruct (list_find _ (turn (ticks n r))) as [[k' f]|] eqn:E2; [|done].
    injection Hfd as ->.
    pose proof (list_find_first _ _ _ _ E2) as (Hlk&->&_).
    apply lookup_lt_Some in Hlk. rewrite Htf, length_fmap, length_turn in Hlk. fold n in Hlk.
    destruct (victim_loop_dist (n - k) (ticks n r) k Hwf' E2) as (r'&Hl&?&Hp&Hpr&He&Hps).
    destruct (ticks_fields n r Hwf) as (Hf1&Hf2&Hf3).
    assert (pos (ticks n r) k = pos r k) as Hpos.
    { unfold pos. rewrite Hf1, Hf3, Zplus_mod_idemp_l.
      replace (clock_pointer_ r + Z.of_nat n + Z.of_nat k)
        with (clock_pointer_ r + Z.of_nat k + 1 * pool_size_ r)
        by (rewrite <- (wf_len _ Hwf); unfold zlen, n; lia).
      by rewrite Z_mod_plus_full. }
    rewrite Hpos in *. exists r'. unfold victim_dist. rewrite E1, Hk.
    split; [done|]. split.
    { replace (S (2 * n)) with (n + S (k + (n - k)))%nat by lia.
      rewrite victim_loop_ticks; [exact Hl|done|done|].
      intros j _ E. rewrite list_find_None, Forall_lookup in E1. by eapply E1. }
    unfold n in *. split_and!; [done|by apply ticks_present|..]; try lia.
    intros i. by rewrite Hpr, ticks_present.
Qed.

Lemma flag_at_lt r i :
  clock_wf r → (i < length (flags r))%nat →
  ∃ f, flag_at r (Z.of_nat i) = Ok f ∧ flags r !! i = Some f ∧ is_flag f.
Proof.
  intros Hwf Hi. destruct (lookup_lt_is_Some_2 _ _ Hi) as [f Hf]. exists f.
  unfold flag_at. rewrite Nat2Z.id, Hf, (proj2 (Z.leb_le _ _)) by lia.
  split_and!; [done..|]. by eapply Forall_lookup_1 in Hf; [|apply Hwf].
Qed.

(** storing a flag and adjusting the counter accordingly keeps the invariant *)
Lemma store_flag_wf r i f g d :
  clock_wf r → flags r !! i = Some f → is_flag g →
  d = (if decide (g ≠ FRAME_NOT_EXIST) then 1 else 0)
      - (if decide (f ≠ FRAME_NOT_EXIST) then 1 else 0) →
  clock_wf (set_flag (set_exit_num r (exit_num r + d)) (Z.of_nat i) g).
Proof.
  intros [Hl Hh Hfs Hn] Hf Hg ->. constructor; clk.
  - unfold zlen in *. by rewrite length_insert.
  - done.
  - by apply Forall_insert.
  - rewrite Nat2Z.id. rewrite (npresent_insert _ _ f) by done. lia.
Qed.

Lemma present_store r i g n j :
  (i < length (flags r))%nat →
  present (set_flag (set_exit_num r n) (Z.of_nat i) g) j ↔
  (j = i ∧ g ≠ FRAME_NOT_EXIST) ∨ (j ≠ i ∧ present r j).
Proof.
  intros Hi. unfold present. clk. rewrite Nat2Z.id.
  destruct (decide (j = i)) as [->|].
  - rewrite list_lookup_insert_eq by done. naive_solver.
  - rewrite list_lookup_insert_ne by done. naive_solver.
Qed.

Lemma pin_correct r i :
  clock_wf r → (i < length (flags r))%nat →
  ∃ r', pin r (Z.of_nat i) = Ok r' ∧ clock_wf r' ∧ pool_size_ r' = pool_size_ r ∧
    (∀ j, present r' j ↔ present r j ∧ j ≠ i).
Proof.
  intros Hwf Hi. destruct (flag_at_lt r i Hwf Hi) as (f&Hf&Hlk&Hfl).
  unfold pin. rewrite Hf. cbn [mbind res_bind]. case_bool_decide as Hne.
  - eexists. split; [done|]. split_and!; [|done|].
    + apply (store_flag_wf r i f FRAME_NOT_EXIST (-1)); [done..|by left|].
      by rewrite decide_False, decide_True by (done || tauto).
    + intros j. rewrite present_store by done. naive_solver.
  - exists r. split_and!; [done..|]. intros j. split; [|naive_solver].
    intros Hj. split; [done|]. intros ->. destruct Hj as (?&?&?). congruence.
Qed.

Lemma unpin_correct r i :
  clock_wf r → (i < length (flags r))%nat →
  ∃ r', unpin r (Z.of_nat i) = Ok r' ∧ clock_wf r' ∧ pool_size_ r' = pool_size_ r ∧
    (∀ j, present r' j ↔ present r j ∨ j = i).
Proof.
  intros Hwf Hi. destruct (flag_at_lt r i Hwf Hi) as (f&Hf&Hlk&Hfl).
  unfold unpin. rewrite Hf. cbn [mbind res_bind]. case_bool_decide as Heq.
  - eexists. split; [done|]. split_and!; [|done|].
    + apply (store_flag_wf r i f FRAME_EXIST_TRUE 1); [done..|by right; left|].
      by rewrite decide_True, decide_False by (done || tauto).
    + intros j. rewrite present_store by done.
      assert (FRAME_EXIST_TRUE ≠ FRAME_NOT_EXIST) by done.
      destruct (decide (j = i)); naive_solver.
  - exists r. split_and!; [done..|]. intros j. split; [naive_solver|].
    intros [?| ->]; [done|]. by exists f.
Qed.

Lemma npresent_none fs : (∀ i f, fs !! i = Some f → f = FRAME_NOT_EXIST) → npresent fs = O.
Proof.
  intros H. destruct (npresent fs) eqn:E; [done|].
  destruct (npresent_pos fs) as (i&f&Hf&Hne); [lia|]. by apply H in Hf.
Qed.

Lemma victim_empty r : clock_wf r → (∀ i, ¬ present r i) → victim r = Err Blocked.
Proof.
  intros [Hl Hh Hf Hn] Hnone. unfold victim. rewrite bool_decide_eq_false_2; [done|].
  rewrite Hn, npresent_none; [lia|]. intros i f Hi.
  destruct (decide (f = FRAME_NOT_EXIST)); [done|]. exfalso. apply (Hnone i). by exists f.
Qed.

Lemma ClockReplacer_new_correct n :
  0 < n → clock_wf (ClockReplacer_new n) ∧ (∀ i, ¬ present (ClockReplacer_new n) i).
Proof.
  intros Hn. split.
  - constructor; cbn [ClockReplacer_new flags pool_size_ clock_pointer_ exit_num].
    + rewrite zlen_replicate. lia.
    + lia.
    + apply Forall_replicate. by left.
    + rewrite npresent_none; [done|]. intros i f [??]%lookup_replicate. done.
  - intros i (f&Hf&Hne). cbn in Hf. apply lookup_replicate in Hf as [??]. done.
Qed.

(** The clock replacer keeps the promises of the abstract replacer. *)
#[export] Program Instance ClockReplacer_impl : ReplacerAbstract ClockReplacer := {|
  rep_new := ClockReplacer_new;
  rep_pin := pin;
  rep_unpin := unpin;
  rep_victim := victim;
  rep_size := size;
  rep_wf r n := clock_wf r ∧ length (flags r) = n;
  rep_in := present;
|}.
Next Obligation.
  intros n Hn. destruct (ClockReplacer_new_correct n Hn). split_and!; [done| |done].
  cbn. by rewrite length_replicate.
Qed.
Next Obligation.
  intros r n i [Hwf <-] Hi. destruct (pin_correct r i Hwf Hi) as (r'&?&?&Hp&?).
  exists r'. split_and!; [done..| |done].
  pose proof (wf_len _ Hwf). pose proof (wf_len r'). unfold zlen in *. intuition lia.
Qed.
Next Obligation.
  intros r n i [Hwf <-] Hi. destruct (unpin_correct r i Hwf Hi) as (r'&?&?&Hp&?).
  exists r'. split_and!; [done..| |done].
  pose proof (wf_len _ Hwf). pose proof (wf_len r'). unfold zlen in *. intuition lia.
Qed.
Next Obligation.
  intros r n i [Hwf <-] (f&Hf&Hne).
  assert (0 < exit_num r) as Hpos.
  { rewrite (wf_num _ Hwf). destruct (npresent (flags r)) eqn:E; [|lia].
    unfold npresent in E. apply length_zero_iff_nil in E.
    assert (f ∈ filter (λ f, f ≠ FRAME_NOT_EXIST) (flags r)) as Hin.
    { apply list_elem_of_filter. split; [done|]. by eapply list_elem_of_lookup_2. }
    rewrite E in Hin. by apply elem_of_nil in Hin. }
  destruct (victim_correct_aux r Hwf Hpos) as (k&r'&_&?&Hwf'&?&?&?&Hp).
  exists (pos r k), r'. split_and!; [done|by apply pos_lt|done|done| |done].
  pose proof (wf_len _ Hwf). pose proof (wf_len _ Hwf'). unfold zlen in *. lia.
Qed.
Next Obligation. intros r n [Hwf _] Hno. by apply victim_empty. Qed.

(** C37: For every well-formed clock replacer that holds a frame, [victim] returns
    (two turns of the hand are enough fuel), the frame it returns is the one the
    second-chance policy names (the first frame from the hand whose second
    chance is used up, else the first frame present), and it removes exactly
    that frame while keeping the counter and the flags consistent. *)
Theorem victim_correct r :
  clock_wf r → 0 < size r →
  ∃ k r', victim_dist r = Some k ∧ victim r = Ok (Z.of_nat (pos r k), r') ∧ clock_wf r' ∧
    present r (pos r k) ∧ (∀ i, present r' i ↔ present r i ∧ i ≠ pos r k) ∧
    size r' = size r - 1.
Proof.
  intros Hwf Hn. destruct (victim_correct_aux r Hwf Hn) as (k&r'&?&?&?&?&?&?&_). eauto 10.
Qed.

(** frames 1 and 2 present, the hand on 0: the first turn takes both second
    chances away, the second turn evicts frame 1 *)
Definition clock_ex : ClockReplacer :=
  {| flags := [FRAME_NOT_EXIST; FRAME_EXIST_TRUE; FRAME_EXIST_TRUE];
     pool_size_ := 3; clock_pointer_ := 0; exit_num := 2 |}.

Lemma clock_ex_wf : clock_wf clock_ex.
Proof.
  constructor; [done|cbn; lia| |done].
  repeat (apply Forall_cons; split; [unfold is_flag; tauto|]). constructor.
Qed.

Lemma victim_correct_witness :
  victim clock_ex = Ok (1, mkClock [1; 1; 4] 3 2 1) ∧
  ∃ k r', victim_dist clock_ex = Some k ∧ victim clock_ex = Ok (Z.of_nat (pos clock_ex k), r') ∧
    clock_wf r' ∧ present clock_ex (pos clock_ex k) ∧
    (∀ i, present r' i ↔ present clock_ex i ∧ i ≠ pos clock_ex k) ∧
    size r' = size clock_ex - 1.
Proof.
  split; [reflexivity|]. apply (victim_correct clock_ex); [apply clock_ex_wf|reflexivity].
Defined.
