(* ===== verification/Page.v ===== *)
(** A frame of the buffer pool and its page
    ([src/include/storage/page/page.h]): 4096 bytes of data whose first bytes
    are the common header (status, LSN, page id), plus the in-memory fields.
    The latch of a page only orders threads and has no field here. *)
From S2P Require Import Prelude Config.

Record Page := mkPage {
  data_ : bytes;
  page_id_ : Z;
  pin_count_ : Z;
  is_dirty_ : bool;
  lsn_ : Z;
}.

(** the default constructor: zeroed memory, no page ([lsn_] is only read after
    [set_lsn]) *)
Definition Page_new : Page :=
  {| data_ := replicate (Z.to_nat PAGE_SIZE) 0; page_id_ := INVALID_PAGE_ID;
     pin_count_ := 0; is_dirty_ := false; lsn_ := 0 |}.

(** the constructor with an id and an optional source, which overrides the header *)
Definition Page_make (page_id : Z) (data_src : option bytes) : res Page :=
  let data := default (replicate (Z.to_nat PAGE_SIZE) 0) data_src in
  data ← wr8 data STATUS_OFFSET STATUS_EXIST;
  data ← wr32 data LSN_OFFSET (-1);
  data ← wr32 data PAGE_ID_OFFSET page_id;
  Ok {| data_ := data; page_id_ := page_id; pin_count_ := 0; is_dirty_ := false; lsn_ := 0 |}.

Definition set_data (p : Page) (d : bytes) : Page :=
  {| data_ := d; page_id_ := page_id_ p; pin_count_ := pin_count_ p;
     is_dirty_ := is_dirty_ p; lsn_ := lsn_ p |}.
Definition set_pin_count (p : Page) (n : Z) : Page :=
  {| data_ := data_ p; page_id_ := page_id_ p; pin_count_ := n;
     is_dirty_ := is_dirty_ p; lsn_ := lsn_ p |}.
Definition add_pin_count (p : Page) : Page := set_pin_count p (pin_count_ p + 1).
Definition decrease_pin_count (p : Page) : Page := set_pin_count p (pin_count_ p - 1).
Definition set_pin_count_zero (p : Page) : Page := set_pin_count p 0.
Definition set_is_dirty (p : Page) (b : bool) : Page :=
  {| data_ := data_ p; page_id_ := page_id_ p; pin_count_ := pin_count_ p;
     is_dirty_ := b; lsn_ := lsn_ p |}.

Definition set_page_id (p : Page) (page_id : Z) : res Page :=
  data ← wr32 (data_ p) PAGE_ID_OFFSET page_id;
  Ok {| data_ := data; page_id_ := page_id; pin_count_ := pin_count_ p;
        is_dirty_ := is_dirty_ p; lsn_ := lsn_ p |}.
Definition set_lsn (p : Page) (lsn : Z) : res Page :=
  data ← wr32 (data_ p) LSN_OFFSET lsn;
  Ok {| data_ := data; page_id_ := page_id_ p; pin_count_ := pin_count_ p;
        is_dirty_ := is_dirty_ p; lsn_ := lsn |}.
Definition set_status (p : Page) : res Page :=
  data ← wr8 (data_ p) STATUS_OFFSET STATUS_EXIST;
  Ok (set_data p data).

(** ** The payload: what a page keeps across eviction and reload, namely its
    bytes past the status, LSN and page id fields *)

Definition HEADER_USED : Z := PAGE_ID_OFFSET + PGID_T_SIZE.
Definition payload (d : bytes) : bytes := drop (Z.to_nat HEADER_USED) d.
Definition page_ok (p : Page) : Prop := zlen (data_ p) = PAGE_SIZE.

Lemma payload_lookup d (i : nat) : payload d !! i = d !! (9 + i)%nat.
Proof. unfold payload. rewrite lookup_drop. done. Qed.

Lemma payload_write d off bs d' :
  mem_write d off bs = Ok d' → off + zlen bs ≤ HEADER_USED → payload d' = payload d.
Proof.
  intros W Hb. apply list_eq. intros i. rewrite !payload_lookup.
  rewrite (mem_write_lookup _ _ _ _ _ W). unfold HEADER_USED in Hb.
  rewrite decide_False; [done|cfg_lia].
Qed.

Lemma mem_read_payload d d' o l :
  zlen d' = zlen d → payload d' = payload d → HEADER_USED ≤ o →
  mem_read d' o l = mem_read d o l.
Proof.
  intros Hl Hp Ho. apply mem_read_ext; [done|]. intros i Hi.
  assert (i = 9 + (i - 9))%nat as -> by (unfold HEADER_USED in *; cfg_lia).
  rewrite <- !payload_lookup. by rewrite Hp.
Qed.

Lemma set_page_id_ok p id :
  page_ok p → ∃ p', set_page_id p id = Ok p' ∧ page_ok p' ∧ page_id_ p' = id ∧
    pin_count_ p' = pin_count_ p ∧ is_dirty_ p' = is_dirty_ p ∧
    payload (data_ p') = payload (data_ p) ∧ rd8 (data_ p') STATUS_OFFSET = rd8 (data_ p) STATUS_OFFSET.
Proof.
  unfold page_ok, set_page_id, wr32. intros H.
  destruct (mem_write_ex (data_ p) PAGE_ID_OFFSET (enc32 id)) as (d&W&L&_&D);
    [cfg_lia|rewrite zlen_enc32; cfg_lia|].
  rewrite W. eexists. split; [done|]. cbn. split_and!; [congruence|done..| |].
  - eapply payload_write; [done|]. rewrite zlen_enc32. unfold HEADER_USED. cfg_lia.
  - unfold rd8. rewrite D; [done|cfg_lia].
Qed.

Lemma set_lsn_ok p l :
  page_ok p → ∃ p', set_lsn p l = Ok p' ∧ page_ok p' ∧ page_id_ p' = page_id_ p ∧
    pin_count_ p' = pin_count_ p ∧ is_dirty_ p' = is_dirty_ p ∧
    payload (data_ p') = payload (data_ p) ∧ rd8 (data_ p') STATUS_OFFSET = rd8 (data_ p) STATUS_OFFSET.
Proof.
  unfold page_ok, set_lsn, wr32. intros H.
  destruct (mem_write_ex (data_ p) LSN_OFFSET (enc32 l)) as (d&W&L&_&D);
    [cfg_lia|rewrite zlen_enc32; cfg_lia|].
  rewrite W. eexists. split; [done|]. cbn. split_and!; [congruence|done..| |].
  - eapply payload_write; [done|]. rewrite zlen_enc32. unfold HEADER_USED. cfg_lia.
  - unfold rd8. rewrite D; [done|cfg_lia].
Qed.

Lemma set_status_ok p :
  page_ok p → ∃ p', set_status p = Ok p' ∧ page_ok p' ∧ page_id_ p' = page_id_ p ∧
    pin_count_ p' = pin_count_ p ∧ is_dirty_ p' = is_dirty_ p ∧
    payload (data_ p') = payload (data_ p) ∧ rd8 (data_ p') STATUS_OFFSET = Ok STATUS_EXIST.
Proof.
  unfold page_ok, set_status, wr8. intros H.
  destruct (mem_write_ex (data_ p) STATUS_OFFSET [STATUS_EXIST]) as (d&W&L&R&_);
    [cfg_lia|change (zlen [STATUS_EXIST]) with 1; cfg_lia|].
  rewrite W. eexists. split; [done|]. cbn. split_and!; [congruence|done..| |].
  - eapply payload_write; [done|]. change (zlen [STATUS_EXIST]) with 1. unfold HEADER_USED. cfg_lia.
  - unfold rd8. change (zlen [STATUS_EXIST]) with 1 in R. by rewrite R.
Qed.
