(* ===== verification/FileSys.v ===== *)
(** The file system and the [std::fstream]s the disk manager uses, with the
    helpers of [src/util/util.cpp]. A stream is bound to a file name; its
    [failbit] is sticky: nothing in the program ever calls [clear()], so after
    one short read or failed seek every later operation of that stream fails. *)
From S2P Require Import Prelude Config.

(** a file name is the list of its characters *)
Notation fname := (list Z).

Record FS := mkFS {
  fs_files : gmap (list Z) bytes;
  fs_denied : gset (list Z);   (* names the environment does not let us open *)
}.
Definition fs_set (fs : FS) (n : fname) (c : bytes) : FS :=
  {| fs_files := <[n := c]> (fs_files fs); fs_denied := fs_denied fs |}.

Record fstream := mkStream {
  s_name : option fname;  (* [is_open()] *)
  s_fail : bool;
}.
Definition s_new : fstream := {| s_name := None; s_fail := false |}.
Definition s_is_open (s : fstream) : bool := bool_decide (is_Some (s_name s)).
Definition s_set_fail (s : fstream) : fstream := {| s_name := s_name s; s_fail := true |}.
Definition s_close (s : fstream) : fstream := {| s_name := None; s_fail := s_fail s |}.

(** writing [bs] at [off]: a gap past the end of the file reads as zeros *)
Definition file_write (c : bytes) (off : Z) (bs : bytes) : bytes :=
  take (Z.to_nat off) (c ++ replicate (Z.to_nat (off - zlen c)) 0) ++ bs
    ++ drop (Z.to_nat (off + zlen bs)) c.

(** [seekg(off); write(bs, n)] *)
Definition s_write (s : fstream) (fs : FS) (off : Z) (bs : bytes) : fstream * FS :=
  match s_name s with
  | Some n =>
      match fs_files fs !! n with
      | Some c => if s_fail s || (off <? 0) then (s_set_fail s, fs)
                  else (s, fs_set fs n (file_write c off bs))
      | None => (s_set_fail s, fs)
      end
  | None => (s_set_fail s, fs)
  end.

(** [seekp(off); read(dst, len)]: the characters delivered ([gcount()] of them) *)
Definition s_read (s : fstream) (fs : FS) (off len : Z) : bytes * fstream :=
  match s_name s with
  | Some n =>
      match fs_files fs !! n with
      | Some c =>
          if s_fail s || (off <? 0) then ([], s_set_fail s)
          else let chunk := take (Z.to_nat len) (drop (Z.to_nat off) c) in
               (chunk, if zlen chunk <? len then s_set_fail s else s)
      | None => ([], s_set_fail s)
      end
  | None => ([], s_set_fail s)
  end.

(** [std::ios::in] of an existing file; any other mode is written out below *)
Definition check_inexistence (fs : FS) (n : fname) : bool :=
  negb (bool_decide (is_Some (fs_files fs !! n)) && negb (bool_decide (n ∈ fs_denied fs))).

(** [open_file(name, io, in | out)]: the file must exist *)
Definition open_file (fs : FS) (n : fname) : bool * fstream :=
  if check_inexistence fs n then (false, {| s_name := None; s_fail := true |})
  else (true, {| s_name := Some n; s_fail := false |}).

(** [open_file(name, io, in | out | trunc)]: creates or empties the file *)
Definition open_file_trunc (fs : FS) (n : fname) : bool * fstream * FS :=
  if bool_decide (n ∈ fs_denied fs) then (false, {| s_name := None; s_fail := true |}, fs)
  else (true, {| s_name := Some n; s_fail := false |}, fs_set fs n []).

(** [remove(name)] *)
Definition fs_remove (fs : FS) (n : fname) : FS :=
  {| fs_files := delete n (fs_files fs); fs_denied := fs_denied fs |}.

Definition get_file_sz (s : fstream) (fs : FS) : Z :=
  match s_name s with
  | Some n => if s_fail s then -1
              else match fs_files fs !! n with Some c => zlen c | None => -1 end
  | None => -1
  end.

(** ** Lemmas *)

Lemma file_write_zlen c off bs :
  0 ≤ off → zlen (file_write c off bs) = Z.max (zlen c) (off + zlen bs).
Proof.
  intros. unfold file_write, zlen in *.
  rewrite !length_app, length_take, length_drop, length_app, length_replicate. lia.
Qed.

Lemma file_write_lookup c off bs (i : nat) :
  0 ≤ off →
  file_write c off bs !! i =
    if decide (off ≤ Z.of_nat i < off + zlen bs) then bs !! (i - Z.to_nat off)%nat
    else if decide (zlen c ≤ Z.of_nat i < off) then Some 0 else c !! i.
Proof.
  intros Ho. unfold file_write, zlen in *.
  set (t := take (Z.to_nat off) (c ++ replicate (Z.to_nat (off - Z.of_nat (length c))) 0)).
  assert (length t = Z.to_nat off) as Ht.
  { unfold t. rewrite length_take, length_app, length_replicate. lia. }
  case_decide.
  - rewrite lookup_app_r by lia. rewrite lookup_app_l by lia. by rewrite Ht.
  - destruct (decide (Z.of_nat i < off)).
    + rewrite lookup_app_l by lia. unfold t. rewrite lookup_take_lt by lia. case_decide.
      * rewrite lookup_app_r by lia. by rewrite lookup_replicate_2 by lia.
      * rewrite lookup_app_l by lia. done.
    + rewrite (decide_False (P := _ ≤ Z.of_nat i < off)) by lia.
      rewrite lookup_app_r by lia. rewrite lookup_app_r by lia.
      rewrite lookup_drop, Ht. f_equal. lia.
Qed.

Lemma s_write_Ok s fs n c off bs :
  s_name s = Some n → s_fail s = false → fs_files fs !! n = Some c → 0 ≤ off →
  s_write s fs off bs = (s, fs_set fs n (file_write c off bs)).
Proof.
  intros Hn Hf Hc Ho. unfold s_write. rewrite Hn, Hc, Hf.
  by rewrite (proj2 (Z.ltb_ge _ _)) by lia.
Qed.

Lemma s_read_Ok s fs n c off len :
  s_name s = Some n → s_fail s = false → fs_files fs !! n = Some c → 0 ≤ off → 0 ≤ len →
  off + len ≤ zlen c →
  ∃ bs, s_read s fs off len = (bs, s) ∧ mem_read c off len = Ok bs.
Proof.
  intros Hn Hf Hc Ho Hl Hb. unfold s_read. rewrite Hn, Hc, Hf.
  rewrite (proj2 (Z.ltb_ge off _)) by lia. cbn.
  assert (zlen (take (Z.to_nat len) (drop (Z.to_nat off) c)) = len) as ->.
  { unfold zlen in *. rewrite length_take, length_drop. lia. }
  rewrite Z.ltb_irrefl. eexists. split; [done|]. by apply mem_read_Ok.
Qed.

Lemma s_write_fail s fs off bs : s_fail s = true → s_fail (s_write s fs off bs).1 = true ∧ (s_write s fs off bs).2 = fs.
Proof. intros H. unfold s_write. repeat case_match; cbn; simplify_eq; try done. by rewrite H in *. Qed.

Lemma s_read_fail s fs off len :
  s_fail s = true → s_read s fs off len = ([], s_set_fail s).
Proof. intros H. unfold s_read. rewrite H. repeat case_match; done. Qed.

Lemma file_write_same c off bs : 0 ≤ off → mem_read (file_write c off bs) off (zlen bs) = Ok bs.
Proof.
  intros Ho. pose proof (file_write_zlen c off bs Ho) as Hz.
  destruct (mem_read_ex (file_write c off bs) off (zlen bs)) as [b R];
    [done|apply zlen_nonneg|lia|].
  rewrite R. f_equal. pose proof (mem_read_zlen _ _ _ _ R) as Hb. apply list_eq. intros i.
  unfold zlen in Hb. destruct (decide (i < length bs)%nat).
  - rewrite (mem_read_lookup _ _ _ _ i R) by (unfold zlen; lia).
    rewrite file_write_lookup by done. rewrite decide_True by (unfold zlen; lia). f_equal. lia.
  - rewrite !lookup_ge_None_2 by lia. done.
Qed.

Lemma file_write_other c off bs o l :
  0 ≤ off → 0 ≤ o → 0 ≤ l → o + l ≤ zlen c → o + l ≤ off ∨ off + zlen bs ≤ o →
  mem_read (file_write c off bs) o l = mem_read c o l.
Proof.
  intros Ho ? ? Hl Hd. pose proof (file_write_zlen c off bs Ho) as Hz.
  destruct (mem_read_ex c o l) as [b R]; [done..|].
  destruct (mem_read_ex (file_write c off bs) o l) as [b' R']; [lia..|].
  rewrite R, R'. f_equal. pose proof (mem_read_zlen _ _ _ _ R). pose proof (mem_read_zlen _ _ _ _ R').
  apply list_eq. intros i. destruct (decide (Z.of_nat i < l)).
  - rewrite (mem_read_lookup _ _ _ _ i R), (mem_read_lookup _ _ _ _ i R') by done.
    rewrite file_write_lookup by done. rewrite decide_False by lia. by rewrite decide_False by lia.
  - unfold zlen in *. rewrite !lookup_ge_None_2 by lia. done.
Qed.
