(* ===== verification/DiskManager.v ===== *)
(** The disk manager ([src/storage/disk/disk_manager.cpp],
    [src/include/storage/disk/disk_manager.h]): which page ids are allocated and
    free, the [.db] file of 4096-byte pages, and the [.mtd] file that lets a
    later run recover both. Latches only order threads and are left out. *)
From S2P Require Import Prelude Config FileSys.

Record DiskManager := mkDM {
  db_io_ : fstream;
  log_io_ : fstream;
  meta_io_ : fstream;
  db_name_ : list Z;
  log_name_ : list Z;
  meta_name_ : list Z;
  status_ : bool;
  max_ava_pgid_ : Z;
  max_alloced_pgid_ : option Z;    (* [None]: never initialised *)
  alloced_pgid_ : list Z;          (* std::set *)
  free_pgid_ : list Z;             (* std::set *)
  meta_buffer : option bytes;      (* [None]: nullptr *)
  buffer_size : Z;
  page_buf : bytes;                (* char[PAGE_SIZE] *)
  catalog_page_id_ : Z;
}.

Definition upd_db_io (v : fstream) (d : DiskManager) : DiskManager :=
  mkDM v (log_io_ d) (meta_io_ d) (db_name_ d) (log_name_ d) (meta_name_ d) (status_ d)
    (max_ava_pgid_ d) (max_alloced_pgid_ d) (alloced_pgid_ d) (free_pgid_ d)
    (meta_buffer d) (buffer_size d) (page_buf d) (catalog_page_id_ d).
Definition upd_log_io (v : fstream) (d : DiskManager) : DiskManager :=
  mkDM (db_io_ d) v (meta_io_ d) (db_name_ d) (log_name_ d) (meta_name_ d) (status_ d)
    (max_ava_pgid_ d) (max_alloced_pgid_ d) (alloced_pgid_ d) (free_pgid_ d)
    (meta_buffer d) (buffer_size d) (page_buf d) (catalog_page_id_ d).
Definition upd_meta_io (v : fstream) (d : DiskManager) : DiskManager :=
  mkDM (db_io_ d) (log_io_ d) v (db_name_ d) (log_name_ d) (meta_name_ d) (status_ d)
    (max_ava_pgid_ d) (max_alloced_pgid_ d) (alloced_pgid_ d) (free_pgid_ d)
    (meta_buffer d) (buffer_size d) (page_buf d) (catalog_page_id_ d).
Definition upd_names (db log : list Z) (d : DiskManager) : DiskManager :=
  mkDM (db_io_ d) (log_io_ d) (meta_io_ d) db log (meta_name_ d) (status_ d)
    (max_ava_pgid_ d) (max_alloced_pgid_ d) (alloced_pgid_ d) (free_pgid_ d)
    (meta_buffer d) (buffer_size d) (page_buf d) (catalog_page_id_ d).
Definition upd_status (v : bool) (d : DiskManager) : DiskManager :=
  mkDM (db_io_ d) (log_io_ d) (meta_io_ d) (db_name_ d) (log_name_ d) (meta_name_ d) v
    (max_ava_pgid_ d) (max_alloced_pgid_ d) (alloced_pgid_ d) (free_pgid_ d)
    (meta_buffer d) (buffer_size d) (page_buf d) (catalog_page_id_ d).
Definition upd_ids (ava : Z) (mx : option Z) (al fr : list Z) (d : DiskManager) : DiskManager :=
  mkDM (db_io_ d) (log_io_ d) (meta_io_ d) (db_name_ d) (log_name_ d) (meta_name_ d) (status_ d)
    ava mx al fr (meta_buffer d) (buffer_size d) (page_buf d) (catalog_page_id_ d).
Definition upd_buffer (v : option bytes) (n : Z) (d : DiskManager) : DiskManager :=
  mkDM (db_io_ d) (log_io_ d) (meta_io_ d) (db_name_ d) (log_name_ d) (meta_name_ d) (status_ d)
    (max_ava_pgid_ d) (max_alloced_pgid_ d) (alloced_pgid_ d) (free_pgid_ d)
    v n (page_buf d) (catalog_page_id_ d).
Definition upd_page_buf (v : bytes) (d : DiskManager) : DiskManager :=
  mkDM (db_io_ d) (log_io_ d) (meta_io_ d) (db_name_ d) (log_name_ d) (meta_name_ d) (status_ d)
    (max_ava_pgid_ d) (max_alloced_pgid_ d) (alloced_pgid_ d) (free_pgid_ d)
    (meta_buffer d) (buffer_size d) v (catalog_page_id_ d).
Definition upd_catalog (v : Z) (d : DiskManager) : DiskManager :=
  mkDM (db_io_ d) (log_io_ d) (meta_io_ d) (db_name_ d) (log_name_ d) (meta_name_ d) (status_ d)
    (max_ava_pgid_ d) (max_alloced_pgid_ d) (alloced_pgid_ d) (free_pgid_ d)
    (meta_buffer d) (buffer_size d) (page_buf d) v.

(** the manager and the file system it works on *)
Record Disk := mkDisk { dm : DiskManager; fs : FS }.

(** ** Pages *)

Definition write_page (page_id : Z) (data : bytes) (w : Disk) : bool * Disk :=
  let d := dm w in
  if s_is_open (db_io_ d) then
    let offset := page_id * PAGE_SIZE in         (* computed in [long] *)
    let '(io, fs') := s_write (db_io_ d) (fs w) offset data in
    if s_fail io then (false, mkDisk (upd_db_io io d) fs')
    else (true, mkDisk (upd_db_io io d) fs')
  else (false, mkDisk (upd_status false d) (fs w)).

(** [read_page(page_id, dst)]: the bytes delivered into [dst]; [true] when they
    are a whole page *)
Definition read_page (page_id : Z) (w : Disk) : bool * bytes * Disk :=
  let d := dm w in
  if s_is_open (db_io_ d) then
    let offset := page_id * PAGE_SIZE in
    let '(bs, io) := s_read (db_io_ d) (fs w) offset PAGE_SIZE in
    (bool_decide (zlen bs = PAGE_SIZE), bs, mkDisk (upd_db_io io d) (fs w))
  else (false, [], mkDisk (upd_status false d) (fs w)).

(** the pages made available when no free id is left: the bound doubles *)
Definition grow_ids (d : DiskManager) : res DiskManager :=
  match free_pgid_ d with
  | [] =>
      let tmp := max_ava_pgid_ d in
      ava ← mul32 (max_ava_pgid_ d) 2;
      Ok (upd_ids ava (max_alloced_pgid_ d) (alloced_pgid_ d)
            (oset_insert_range tmp (Z.to_nat (ava - tmp)) []) d)
  | _ => Ok d
  end.

Definition alloc_page (flag : Z) (w : Disk) : res (Z * Disk) :=
  let d := dm w in
  if s_is_open (db_io_ d) then
    d ← grow_ids d;
    match free_pgid_ d with
    | [] => Err OutOfBounds                      (* *end() *)
    | new_page_id :: _ =>
        let d := upd_ids (max_ava_pgid_ d) (max_alloced_pgid_ d)
                   (oset_insert new_page_id (alloced_pgid_ d))
                   (oset_erase new_page_id (free_pgid_ d)) d in
        buf ← wr8 (page_buf d) 0 flag;
        let d := upd_page_buf buf d in
        offset ← mul32 new_page_id PAGE_SIZE;    (* computed in [int] *)
        let '(io, fs') := s_write (db_io_ d) (fs w) offset (page_buf d) in
        let d := upd_db_io io d in
        if s_fail io then
          Ok (-1, mkDisk (upd_ids (max_ava_pgid_ d) (max_alloced_pgid_ d)
                            (oset_erase new_page_id (alloced_pgid_ d))
                            (oset_insert new_page_id (free_pgid_ d)) d) fs')
        else
          match max_alloced_pgid_ d with
          | None => Err UninitRead
          | Some m =>
              let m' := if bool_decide (m < new_page_id) then new_page_id else m in
              Ok (new_page_id, mkDisk (upd_ids (max_ava_pgid_ d) (Some m')
                                         (alloced_pgid_ d) (free_pgid_ d) d) fs')
          end
    end
  else Ok (-1, mkDisk (upd_status false d) (fs w)).

Definition get_new_page : Disk → res (Z * Disk) := alloc_page STATUS_EXIST.

Definition free_page (page_id : Z) (w : Disk) : res (bool * Disk) :=
  let d := dm w in
  if page_id <? 0 then Ok (false, w)
  else if oset_mem page_id (alloced_pgid_ d) then
    offset ← mul32 page_id PAGE_SIZE;            (* computed in [int] *)
    let '(io, fs') := s_write (db_io_ d) (fs w) offset [STATUS_FREE] in
    let d := upd_db_io io d in
    if s_fail io then Ok (false, mkDisk d fs')
    else
      let al := oset_erase page_id (alloced_pgid_ d) in
      let fr := oset_insert page_id (free_pgid_ d) in
      let mx := match max_alloced_pgid_ d with
                | Some m => if m =? page_id
                            then Some (default (-1) (last al))
                            else Some m
                | None => None
                end in
      Ok (true, mkDisk (upd_ids (max_ava_pgid_ d) mx al fr d) fs')
  else Ok (true, w).

Definition is_free (d : DiskManager) (page_id : Z) : bool := oset_mem page_id (free_pgid_ d).
Definition is_allocated (d : DiskManager) (page_id : Z) : bool := oset_mem page_id (alloced_pgid_ d).

(** ** The meta data file *)

(** copying a name and its terminator into the buffer *)
Definition put_name (buf : bytes) (off : Z) (name : list Z) : res bytes :=
  buf ← mem_write buf off name; wr8 buf (off + zlen name) 0.

Definition write_meta_data (w : Disk) : res (bool * Disk) :=
  let d := dm w in
  match meta_buffer d with
  | None => Ok (false, w)
  | Some buf =>
      let db_name_sz_offset := 0 in
      buf ← wr32 buf db_name_sz_offset (zlen (db_name_ d));
      let db_name_offset := db_name_sz_offset + OFFSET_T_SIZE in
      buf ← put_name buf db_name_offset (db_name_ d);
      let log_name_sz_offset := db_name_offset + zlen (db_name_ d) + 1 in
      buf ← wr32 buf log_name_sz_offset (zlen (log_name_ d));
      let log_name_offset := log_name_sz_offset + OFFSET_T_SIZE in
      buf ← put_name buf log_name_offset (log_name_ d);
      let max_ava_pgid_offset := log_name_offset + zlen (log_name_ d) + 1 in
      buf ← wr32 buf max_ava_pgid_offset (max_ava_pgid_ d);
      let catalog_pgid_offset := max_ava_pgid_offset + PGID_T_SIZE in
      buf ← wr32 buf catalog_pgid_offset (catalog_page_id_ d);
      let reserved_offset := catalog_pgid_offset + PGID_T_SIZE in
      buf ← mem_set buf reserved_offset 0 128;
      let d := upd_buffer (Some buf) (buffer_size d) d in
      let '(io, fs') := s_write (meta_io_ d) (fs w) 0 (take (Z.to_nat (buffer_size d)) buf) in
      let d := upd_meta_io io d in
      Ok (negb (s_fail io), mkDisk d fs')
  end.

(** [shutdown()]: saves the meta data when the manager is sane, closes the files *)
Definition shutdown (w : Disk) : res Disk :=
  w ← (if status_ (dm w) then let* (_, w) := write_meta_data w in Ok w else Ok w);
  let d := dm w in
  let d := upd_status false d in
  let d := upd_meta_io (s_close (meta_io_ d)) d in
  let d := upd_db_io (s_close (db_io_ d)) d in
  let d := upd_log_io (s_close (log_io_ d)) d in
  let d := upd_buffer None (match meta_buffer d with Some _ => -1 | None => buffer_size d end) d in
  Ok (mkDisk d (fs w)).

(** ** Creation *)

Definition dot_mtd : list Z := [46; 109; 116; 100].
Definition dot_db : list Z := [46; 100; 98].
Definition dot_log : list Z := [46; 108; 111; 103].

(** the members before either start mode has run; [page_buf] is whatever the
    memory held *)
Definition DM_init (garbage : bytes) (meta_name : list Z) : DiskManager :=
  mkDM s_new s_new s_new (meta_name ++ dot_db) (meta_name ++ dot_log) (meta_name ++ dot_mtd)
    false 0 None [] [] None (-1) garbage 0.

(** [mb] is what the fresh 512-byte buffer happens to hold *)
Definition from_scratch (mb : bytes) (w : Disk) : res Disk :=
  let d := dm w in
  if negb (check_inexistence (fs w) (meta_name_ d)) then Ok w
  else if negb (check_inexistence (fs w) (db_name_ d)) then Ok w
  else if negb (check_inexistence (fs w) (log_name_ d)) then Ok w
  else
    let '(ok, io, fs1) := open_file_trunc (fs w) (meta_name_ d) in
    let d := upd_meta_io io d in
    if negb ok then Ok (mkDisk d fs1)
    else
    let '(ok, io, fs2) := open_file_trunc fs1 (db_name_ d) in
    let d := upd_db_io io d in
    if negb ok then Ok (mkDisk d (fs_remove fs2 (meta_name_ d)))
    else
    let '(ok, io, fs3) := open_file_trunc fs2 (log_name_ d) in
    let d := upd_log_io io d in
    if negb ok then Ok (mkDisk d (fs_remove (fs_remove fs3 (meta_name_ d)) (db_name_ d)))
    else
    let d := upd_ids 100 (Some (-1)) (alloced_pgid_ d)
               (oset_insert_range 0 100 (free_pgid_ d)) d in
    let d := upd_buffer (Some mb) 512 d in
    let* (id, w) := get_new_page (mkDisk d fs3) in
    let w := mkDisk (upd_catalog id (dm w)) (fs w) in
    let* (ok, w) := write_meta_data w in
    if ok then Ok (mkDisk (upd_status true (dm w)) (fs w)) else Ok w.

(** [string_t s = buf + off]: the characters up to the terminator *)
Fixpoint c_str (bs : bytes) : res (list Z) :=
  match bs with
  | [] => Err OutOfBounds
  | c :: bs => if c =? 0 then Ok [] else s ← c_str bs; Ok (c :: s)
  end.
Definition c_str_at (buf : bytes) (off : Z) : res (list Z) :=
  if (0 <=? off) && (off <=? zlen buf) then c_str (drop (Z.to_nat off) buf) else Err OutOfBounds.

(** what the scan of the [.db] file collects *)
Definition scan_state : Type := option Z * list Z * list Z. (* max_alloced, alloced, free *)

Definition scan_page (st : scan_state) (page_id status : Z) : scan_state :=
  let '(mx, al, fr) := st in
  if bool_decide (Z.land status STATUS_EXIST ≠ 0)
  then (Some page_id, oset_insert page_id al, fr)
  else (mx, al, oset_insert page_id fr).

(** the inner loop: [n] pages of the batch starting at page [i * READ_DB_PG_NUM] *)
Fixpoint scan_batch (tmp_buf : bytes) (i : Z) (k n : nat) (st : scan_state) : res scan_state :=
  match n with
  | O => Ok st
  | S n =>
      let offset := Z.of_nat k * PAGE_SIZE in
      let page_id := swrap32 (i * READ_DB_PG_NUM + offset / PAGE_SIZE) in
      status ← rd8 tmp_buf offset;
      scan_batch tmp_buf i (S k) n (scan_page st page_id status)
  end.

(** the outer loop; [None] when a read fails *)
Fixpoint scan_db (io : fstream) (f : FS) (i : Z) (read_cnt : nat) (db_file_sz : Z)
    (st : scan_state) : res (option (scan_state * fstream)) :=
  match read_cnt with
  | O => Ok (Some (st, io))
  | S read_cnt =>
      let read_size := if READ_DB_BUF_SZ <=? db_file_sz then READ_DB_BUF_SZ else db_file_sz in
      let '(tmp_buf, io) := s_read io f (i * READ_DB_BUF_SZ) read_size in
      if s_fail io then Ok None
      else
        let read_sz := zlen tmp_buf in
        st ← scan_batch tmp_buf i 0 (Z.to_nat ((read_sz + PAGE_SIZE - 1) / PAGE_SIZE)) st;
        scan_db io f (i + 1) read_cnt (db_file_sz - READ_DB_BUF_SZ) st
  end.

Definition from_mtd (w : Disk) : res Disk :=
  let d := dm w in
  let '(ok, io) := open_file (fs w) (meta_name_ d) in
  let d := upd_meta_io io d in
  if negb ok then shutdown (mkDisk d (fs w))
  else
  let sz := get_file_sz (meta_io_ d) (fs w) in
  if sz =? -1 then shutdown (mkDisk (upd_buffer None (-1) d) (fs w))
  else
  let '(buf, io) := s_read (meta_io_ d) (fs w) 0 sz in
  let d := upd_buffer (Some buf) sz (upd_meta_io io d) in
  if s_fail io || bool_decide (zlen buf ≠ sz) then shutdown (mkDisk d (fs w))
  else
  let db_name_sz_offset := 0 in
  db_sz ← rd32 buf db_name_sz_offset;
  let db_name_offset := db_name_sz_offset + 4 in
  db_name ← c_str_at buf db_name_offset;
  let d := upd_names db_name (log_name_ d) d in
  let '(ok, io) := open_file (fs w) db_name in
  let d := upd_db_io io d in
  if negb ok then shutdown (mkDisk d (fs w))
  else
  let log_name_sz_offset := db_name_offset + db_sz + 1 in
  log_sz ← rd32 buf log_name_sz_offset;
  let log_name_offset := log_name_sz_offset + 4 in
  log_name ← c_str_at buf log_name_offset;
  let d := upd_names (db_name_ d) log_name d in
  let '(ok, io) := open_file (fs w) log_name in
  let d := upd_log_io io d in
  if negb ok then shutdown (mkDisk d (fs w))
  else
  let max_ava_pgid_offset := log_name_offset + log_sz + 1 in
  ava ← rd32 buf max_ava_pgid_offset;
  let d := upd_ids ava (max_alloced_pgid_ d) (alloced_pgid_ d) (free_pgid_ d) d in
  let catalog_pgid_offset := max_ava_pgid_offset + PGID_T_SIZE in
  cat ← rd32 buf catalog_pgid_offset;
  let d := upd_catalog cat d in
  let db_file_sz := get_file_sz (db_io_ d) (fs w) in
  if (db_file_sz =? -1) || bool_decide (db_file_sz mod PAGE_SIZE ≠ 0)
  then shutdown (mkDisk d (fs w))
  else if db_file_sz =? 0 then
    let d := upd_ids ava (Some (-1)) (alloced_pgid_ d)
               (oset_insert_range 0 (Z.to_nat ava) (free_pgid_ d)) d in
    Ok (mkDisk (upd_status true d) (fs w))
  else
  let read_cnt := db_file_sz / READ_DB_BUF_SZ
                  + (if bool_decide (db_file_sz mod READ_DB_BUF_SZ ≠ 0) then 1 else 0) in
  r ← scan_db (db_io_ d) (fs w) 0 (Z.to_nat read_cnt) db_file_sz
        (max_alloced_pgid_ d, alloced_pgid_ d, free_pgid_ d);
  match r with
  | None => shutdown (mkDisk (upd_db_io (s_set_fail (db_io_ d)) d) (fs w))
  | Some (mx, al, fr, io) =>
      let page_id := swrap32 (db_file_sz / PAGE_SIZE - 1) + 1 in  (* the last id scanned, then ++ *)
      let fr := oset_insert_range page_id (Z.to_nat (ava - page_id)) fr in
      let d := upd_ids ava mx al fr (upd_db_io io d) in
      Ok (mkDisk (upd_status true d) (fs w))
  end.

(** the constructor, and the factory that empties the target first *)
Definition DiskManager_new (garbage mb : bytes) (meta_name : list Z) (create : bool) (f : FS) : res Disk :=
  let w := mkDisk (DM_init garbage meta_name) f in
  if create then from_scratch mb w else from_mtd w.

Definition create_DiskManager (garbage mb : bytes) (meta_name : list Z) (create : bool) (f : FS) :
    res (option Disk * FS) :=
  let f := if create
           then fs_remove (fs_remove (fs_remove f (meta_name ++ dot_mtd)) (meta_name ++ dot_db))
                  (meta_name ++ dot_log)
           else f in
  w ← DiskManager_new garbage mb meta_name create f;
  if negb (status_ (dm w)) || check_inexistence (fs w) (meta_name ++ dot_mtd)
     || check_inexistence (fs w) (meta_name ++ dot_db)
     || check_inexistence (fs w) (meta_name ++ dot_log)
  then (w ← (if status_ (dm w) then shutdown w else Ok w); Ok (None, fs w))
  else Ok (Some w, fs w).

(** ** Invariant *)

(** the contents of the [.db] file *)
Definition db_file (w : Disk) : option bytes :=
  n ← s_name (db_io_ (dm w)); fs_files (fs w) !! n.

(** page [p] as the file holds it *)
Definition disk_page (w : Disk) (p : Z) : res bytes :=
  match db_file w with
  | Some c => mem_read c (p * PAGE_SIZE) PAGE_SIZE
  | None => Err OutOfBounds
  end.

Definition disk_status (w : Disk) (p : Z) : res Z :=
  match db_file w with Some c => rd8 c (p * PAGE_SIZE) | None => Err OutOfBounds end.

Record disk_ok (w : Disk) : Prop := {
  do_nofail : s_fail (db_io_ (dm w)) = false;
  do_file : ∃ c, db_file w = Some c ∧ zlen c mod PAGE_SIZE = 0 ∧
              ∀ p, p ∈ alloced_pgid_ (dm w) → (p + 1) * PAGE_SIZE ≤ zlen c;
  do_al : oset_ok (alloced_pgid_ (dm w));
  do_fr : oset_ok (free_pgid_ (dm w));
  do_part : ∀ p, p ∈ free_pgid_ (dm w) ∨ p ∈ alloced_pgid_ (dm w) ↔ 0 ≤ p < max_ava_pgid_ (dm w);
  do_disj : ∀ p, p ∈ free_pgid_ (dm w) → p ∈ alloced_pgid_ (dm w) → False;
  do_ava : 0 < max_ava_pgid_ (dm w);
  do_max : max_alloced_pgid_ (dm w) = Some (default (-1) (last (alloced_pgid_ (dm w))));
  do_buf : zlen (page_buf (dm w)) = PAGE_SIZE;
}.

(** page ids below this bound have an [int] file offset *)
Definition MAX_INT_PAGES : Z := 524288.

Lemma oset_last l x : oset_ok l → last l = Some x → ∀ y, y ∈ l → y ≤ x.
Proof.
  induction l as [|a l IH]; [done|]. intros [H1 H2]%StronglySorted_cons_elem Hl y Hy.
  destruct l as [|b l]; cbn in Hl.
  - set_solver.
  - apply elem_of_cons in Hy as [->|Hy]; [|by apply IH].
    assert (x ∈ b :: l) as Hx by (by apply last_Some_elem_of). apply H1 in Hx. lia.
Qed.

Lemma oset_last_insert l x :
  oset_ok l →
  default (-1) (last (oset_insert x l)) =
    if decide (default (-1) (last l) < x ∨ l = []) then x else default (-1) (last l).
Proof.
  induction l as [|a l IH]; cbn; [intros; by rewrite decide_True by auto|].
  intros [H1 H2]%StronglySorted_cons_elem. specialize (IH H2).
  assert (∀ y, last (a :: l) = Some y → a ≤ y) as Hge.
  { intros y Hy. destruct l as [|b l]; cbn in Hy; [simplify_eq; lia|].
    assert (y ∈ b :: l) as Hin by (by apply last_Some_elem_of). apply H1 in Hin. lia. }
  destruct (last (a :: l)) as [z|] eqn:Ez; [|by apply last_None in Ez].
  specialize (Hge z eq_refl).
  destruct (Z.ltb_spec x a).
  - rewrite decide_False by (cbn; intros [?|?]; [lia|done]).
    change (last (x :: a :: l)) with (last (a :: l)). by rewrite Ez.
  - destruct (Z.eqb_spec x a) as [->|Hne].
    + rewrite Ez. cbn. rewrite decide_False by (intros [?|?]; [lia|done]). done.
    + assert (last (a :: oset_insert x l) = last (oset_insert x l)) as ->.
      { destruct l; cbn; [done|]. destruct (x <? z0); [done|]. by destruct (x =? z0). }
      rewrite IH. destruct l as [|b l]; cbn in Ez |- *.
      * simplify_eq/=. rewrite !decide_True by (auto || (left; lia)). done.
      * cbn. rewrite Ez. cbn. destruct (decide (z < x ∨ b :: l = [])) as [[?|?]|Hn]; [|done|].
        -- by rewrite decide_True by (left; lia).
        -- rewrite decide_False; [done|]. intros [?|?]; [|done]. apply Hn. by left.
Qed.

(** ** Page input and output *)

Lemma upd_db_io_id d : upd_db_io (db_io_ d) d = d.
Proof. by destruct d. Qed.

Lemma db_file_inv w c : db_file w = Some c → ∃ n, s_name (db_io_ (dm w)) = Some n ∧ fs_files (fs w) !! n = Some c.
Proof. unfold db_file. intros (n&?&?)%bind_Some. eauto. Qed.

Lemma db_is_open w c : db_file w = Some c → s_is_open (db_io_ (dm w)) = true.
Proof. intros (n&Hn&_)%db_file_inv. unfold s_is_open. rewrite Hn. apply bool_decide_eq_true_2. eauto. Qed.

Lemma db_write w c off bs :
  s_fail (db_io_ (dm w)) = false → db_file w = Some c → 0 ≤ off →
  ∃ f', s_write (db_io_ (dm w)) (fs w) off bs = (db_io_ (dm w), f') ∧
    ∀ d', db_io_ d' = db_io_ (dm w) → db_file (mkDisk d' f') = Some (file_write c off bs).
Proof.
  intros Hf (n&Hn&Hc)%db_file_inv Ho. eexists. split; [by eapply s_write_Ok|].
  intros d' Hd. unfold db_file. cbn. rewrite Hd, Hn. cbn. apply lookup_insert_eq.
Qed.

Lemma write_page_ok w c p bs :
  s_fail (db_io_ (dm w)) = false → db_file w = Some c → 0 ≤ p →
  ∃ w', write_page p bs w = (true, w') ∧ dm w' = dm w ∧
    db_file w' = Some (file_write c (p * PAGE_SIZE) bs).
Proof.
  intros Hf Hc Hp. unfold write_page. rewrite (db_is_open _ _ Hc).
  destruct (db_write w c (p * PAGE_SIZE) bs Hf Hc) as (f'&Hw&Hdb); [cfg_lia|].
  rewrite Hw, Hf, upd_db_io_id. eexists. split_and!; [done..|]. by apply Hdb.
Qed.

Lemma read_page_ok w c p bs :
  s_fail (db_io_ (dm w)) = false → db_file w = Some c →
  mem_read c (p * PAGE_SIZE) PAGE_SIZE = Ok bs →
  read_page p w = (true, bs, w).
Proof.
  intros Hf Hc Hr. unfold read_page. rewrite (db_is_open _ _ Hc).
  apply db_file_inv in Hc as (n&Hn&Hc). pose proof (mem_read_zlen _ _ _ _ Hr) as Hz.
  pose proof Hr as (?&?&?&_)%mem_read_Ok.
  destruct (s_read_Ok (db_io_ (dm w)) (fs w) n c (p * PAGE_SIZE) PAGE_SIZE) as (b&Hb&Hr'); [done..|].
  rewrite Hb, upd_db_io_id. assert (b = bs) as -> by congruence.
  rewrite bool_decide_eq_true_2 by done. by destruct w.
Qed.

Lemma page_read_write c p bs :
  0 ≤ p → zlen bs = PAGE_SIZE →
  mem_read (file_write c (p * PAGE_SIZE) bs) (p * PAGE_SIZE) PAGE_SIZE = Ok bs.
Proof. intros ? <-. apply file_write_same. pose proof (zlen_nonneg bs). nia. Qed.

Lemma page_read_write_ne c p q bs off :
  p ≠ q → 0 ≤ p → 0 ≤ q → (q + 1) * PAGE_SIZE ≤ zlen c →
  0 ≤ off → off + zlen bs ≤ PAGE_SIZE →
  mem_read (file_write c (p * PAGE_SIZE + off) bs) (q * PAGE_SIZE) PAGE_SIZE
    = mem_read c (q * PAGE_SIZE) PAGE_SIZE.
Proof.
  intros. apply file_write_other; cfg; [lia..|].
  pose proof (zlen_nonneg bs). destruct (decide (p < q)); lia.
Qed.

(** a whole-page write keeps the file a sequence of pages *)
Lemma file_write_pages c p bs :
  0 ≤ p → zlen bs = PAGE_SIZE → zlen c mod PAGE_SIZE = 0 →
  zlen (file_write c (p * PAGE_SIZE) bs) mod PAGE_SIZE = 0 ∧
  zlen c ≤ zlen (file_write c (p * PAGE_SIZE) bs) ∧
  (p + 1) * PAGE_SIZE ≤ zlen (file_write c (p * PAGE_SIZE) bs).
Proof.
  intros Hp Hb Hc. rewrite file_write_zlen by cfg_lia. rewrite Hb. split_and!; [|cfg_lia..].
  destruct (Z.max_spec (zlen c) (p * PAGE_SIZE + PAGE_SIZE)) as [[_ ->]|[_ ->]]; [|done].
  replace (p * PAGE_SIZE + PAGE_SIZE) with ((p + 1) * PAGE_SIZE) by lia.
  apply Z.mod_mul. done.
Qed.

(** ** Allocation *)

Ltac dmproj := cbn [dm fs db_io_ log_io_ meta_io_ db_name_ log_name_ meta_name_ status_ max_ava_pgid_
  max_alloced_pgid_ alloced_pgid_ free_pgid_ meta_buffer buffer_size page_buf catalog_page_id_
  upd_db_io upd_log_io upd_meta_io upd_names upd_status upd_ids upd_buffer upd_page_buf upd_catalog].

Ltac dmproj_in H := cbn [dm fs db_io_ log_io_ meta_io_ db_name_ log_name_ meta_name_ status_
  max_ava_pgid_ max_alloced_pgid_ alloced_pgid_ free_pgid_ meta_buffer buffer_size page_buf
  catalog_page_id_ upd_db_io upd_log_io upd_meta_io upd_names upd_status upd_ids upd_buffer
  upd_page_buf upd_catalog] in H.

Lemma grow_ids_ok w :
  disk_ok w → in32 (2 * max_ava_pgid_ (dm w)) →
  ∃ d', grow_ids (dm w) = Ok d' ∧ disk_ok (mkDisk d' (fs w)) ∧ free_pgid_ d' ≠ [] ∧
    alloced_pgid_ d' = alloced_pgid_ (dm w) ∧ db_io_ d' = db_io_ (dm w) ∧
    max_ava_pgid_ (dm w) ≤ max_ava_pgid_ d' ≤ 2 * max_ava_pgid_ (dm w) ∧
    (free_pgid_ (dm w) ≠ [] → max_ava_pgid_ d' = max_ava_pgid_ (dm w)).
Proof.
  intros Hok H32. pose proof (do_ava _ Hok) as Hava. unfold grow_ids.
  destruct (free_pgid_ (dm w)) as [|x l] eqn:Ef.
  - rewrite mul32_Ok by (by rewrite Z.mul_comm). cbn [mbind res_bind].
    eexists. split; [done|]. dmproj. split_and!; [|..|done|done|lia|lia|done].
    + destruct Hok as [Hf Hfile Hal _ Hpart Hdisj _ Hmax Hbuf]. rewrite Ef in Hpart.
      constructor; dmproj; try done.
      * apply oset_insert_range_ok. constructor.
      * intros p. rewrite elem_of_oset_insert_range. specialize (Hpart p). rewrite elem_of_nil in *.
        destruct (decide (p < max_ava_pgid_ (dm w))); intuition lia.
      * intros p. rewrite elem_of_oset_insert_range. specialize (Hpart p).
        intros [?|?] ?; [|set_solver]. assert (0 ≤ p < max_ava_pgid_ (dm w)) by tauto. lia.
      * lia.
    + intros E. assert (max_ava_pgid_ (dm w) ∈ @nil Z) as Hin.
      { rewrite <- E. apply elem_of_oset_insert_range. left. lia. }
      by apply elem_of_nil in Hin.
  - eexists. split; [done|]. rewrite Ef. split_and!; [by destruct w|done..|lia|lia|done].
Qed.

Lemma oset_head_min x l : oset_ok (x :: l) → ∀ y, y ∈ x :: l → x ≤ y.
Proof.
  intros [H _]%StronglySorted_cons_elem y [->|Hy]%elem_of_cons; [lia|]. apply H in Hy. lia.
Qed.

(** moving a free id into the allocated set, with its page written *)
Lemma alloc_ids_ok w p bs fs' :
  disk_ok w → p ∈ free_pgid_ (dm w) → zlen bs = PAGE_SIZE →
  (∀ c, db_file w = Some c →
     ∀ d', db_io_ d' = db_io_ (dm w) → db_file (mkDisk d' fs') = Some (file_write c (p * PAGE_SIZE) bs)) →
  disk_ok (mkDisk (upd_ids (max_ava_pgid_ (dm w))
      (Some (if bool_decide (default (-1) (last (alloced_pgid_ (dm w))) < p) then p
             else default (-1) (last (alloced_pgid_ (dm w)))))
      (oset_insert p (alloced_pgid_ (dm w))) (oset_erase p (free_pgid_ (dm w)))
      (upd_page_buf bs (dm w))) fs').
Proof.
  intros [Hf (c&Hc&Hm&Hin) Hal Hfr Hpart Hdisj Hava Hmax Hbuf] Hp Hbs Hfile.
  pose proof (proj1 (Hpart p) (or_introl Hp)) as Hrange.
  destruct (file_write_pages c p bs) as (?&?&?); [lia|done..|].
  constructor; dmproj; try done.
  - exists (file_write c (p * PAGE_SIZE) bs). split; [by eapply Hfile|]. split; [done|].
    intros q [->|Hq]%elem_of_oset_insert; [done|]. apply Hin in Hq. lia.
  - by apply oset_insert_ok.
  - by apply oset_erase_ok.
  - intros q. rewrite elem_of_oset_erase, elem_of_oset_insert, <- Hpart.
    destruct (decide (q = p)) as [->|]; naive_solver.
  - intros q. rewrite elem_of_oset_erase, elem_of_oset_insert.
    intros [? ?] [?|?]; [done|]. by eapply Hdisj.
  - f_equal. rewrite oset_last_insert by done.
    case_bool_decide; [by rewrite decide_True by auto|].
    destruct (alloced_pgid_ (dm w)); cbn in *; [lia|].
    rewrite decide_False; [done|]. intros [?|?]; [lia|done].
Qed.

Lemma alloc_page_aux flag w :
  disk_ok w → 2 * max_ava_pgid_ (dm w) ≤ MAX_INT_PAGES →
  ∃ id w' bs, alloc_page flag w = Ok (id, w') ∧ disk_ok w' ∧
    0 ≤ id < max_ava_pgid_ (dm w') ∧
    (id ∉ alloced_pgid_ (dm w)) ∧ (∀ p, 0 ≤ p < id → p ∈ alloced_pgid_ (dm w)) ∧
    alloced_pgid_ (dm w') = oset_insert id (alloced_pgid_ (dm w)) ∧
    max_ava_pgid_ (dm w) ≤ max_ava_pgid_ (dm w') ≤ 2 * max_ava_pgid_ (dm w) ∧
    disk_page w' id = Ok bs ∧ bs !! O = Some flag ∧
    (∀ p, p ∈ alloced_pgid_ (dm w) → disk_page w' p = disk_page w p) ∧
    (free_pgid_ (dm w) ≠ [] → max_ava_pgid_ (dm w') = max_ava_pgid_ (dm w)) ∧
    (∃ c, db_file w = Some c ∧ db_file w' = Some (file_write c (id * PAGE_SIZE) bs) ∧ zlen bs = PAGE_SIZE).
Proof.
  intros Hok Hbd. unfold MAX_INT_PAGES in Hbd. pose proof (do_ava _ Hok) as Hava.
  destruct (grow_ids_ok w Hok) as (d&Hg&Hok'&Hne&Hal&Hio&Hd&Hd'); [cfg_lia|].
  destruct (do_file _ Hok) as (c&Hc&_&Hin).
  unfold alloc_page. rewrite (db_is_open _ _ Hc), Hg. cbn [mbind res_bind].
  destruct (free_pgid_ d) as [|id l] eqn:Ef; [done|].
  assert (id ∈ free_pgid_ (dm (mkDisk d (fs w)))) as Hid by (dmproj; rewrite Ef; by left).
  pose proof (proj1 (do_part _ Hok' id) (or_introl Hid)) as Hr. dmproj_in Hr.
  pose proof (do_buf _ Hok') as Hpb. dmproj_in Hpb. dmproj.
  destruct (mem_write_ex (page_buf d) 0 [flag]) as (buf&Hb&Hbl&Hb0&_);
    [done|rewrite Hpb; done|].
  unfold wr8. rewrite Hb. cbn [mbind res_bind]. rewrite mul32_Ok by (cfg_lia).
  cbn [mbind res_bind]. dmproj. rewrite Hio.
  destruct (db_write w c (id * PAGE_SIZE) buf (do_nofail _ Hok) Hc) as (f'&Hw&Hdb); [cfg_lia|].
  pose proof (do_max _ Hok') as Hmx. dmproj_in Hmx.
  rewrite Hw, (do_nofail _ Hok), Hmx. dmproj. rewrite Hal.
  rewrite <- Ef.
  eexists id, _, buf. split; [done|]. dmproj. split_and!; try lia.
  - pose proof (alloc_ids_ok (mkDisk d (fs w)) id buf f' Hok' Hid) as H.
    unfold upd_db_io, upd_ids, upd_page_buf in H |- *. dmproj_in H. dmproj.
    rewrite Hal, Hio in H. apply H; [congruence|].
    intros c' Hc' d2 Hd2. apply Hdb in Hd2. rewrite Hd2. unfold db_file in Hc, Hc'.
    dmproj_in Hc'. rewrite Hio in Hc'. congruence.
  - intros Hin'. eapply (do_disj _ Hok'); [exact Hid|]. dmproj. congruence.
  - intros p Hp. rewrite <- Hal.
    assert (p ∈ free_pgid_ d ∨ p ∈ alloced_pgid_ d) as [Hpf|]; [|rewrite Ef in Hpf|done].
    { apply (do_part _ Hok'). dmproj. lia. }
    pose proof (do_fr _ Hok') as Hs. dmproj_in Hs. rewrite Ef in Hs.
    pose proof (oset_head_min _ _ Hs p Hpf). lia.
  - done.
  - unfold disk_page. rewrite Hdb by done. apply page_read_write; [lia|congruence].
  - pose proof (mem_write_lookup _ _ _ _ O Hb) as E. rewrite E.
    change (zlen [flag]) with 1. rewrite decide_True by lia. done.
  - intros p Hp. unfold disk_page. rewrite Hdb, Hc by done.
    assert (p ≠ id). { intros ->. eapply (do_disj _ Hok'); [exact Hid|]. dmproj. congruence. }
    pose proof (proj1 (do_part _ Hok p) (or_intror Hp)). pose proof (Hin _ Hp).
    replace (id * PAGE_SIZE) with (id * PAGE_SIZE + 0) by lia.
    apply page_read_write_ne; [done|lia..|]. rewrite Hbl, Hpb. lia.
  - done.
  - exists c. split_and!; [done|by apply Hdb|congruence].
Qed.

(** ** Release *)

Lemma oset_last_max l m : oset_ok l → m ∈ l → (∀ y, y ∈ l → y ≤ m) → last l = Some m.
Proof.
  intros Hs Hm Hmax. destruct (last l) as [x|] eqn:E.
  - f_equal. pose proof (oset_last _ _ Hs E m Hm). apply last_Some_elem_of in E.
    apply Hmax in E. lia.
  - apply last_None in E. subst. by apply elem_of_nil in Hm.
Qed.

Lemma oset_last_erase l m p : oset_ok l → last l = Some m → m ≠ p → last (oset_erase p l) = Some m.
Proof.
  intros Hs Hl Hne. apply oset_last_max; [by apply oset_erase_ok|..].
  - apply elem_of_oset_erase. split; [done|]. by apply last_Some_elem_of.
  - intros y [_ Hy]%elem_of_oset_erase. by eapply oset_last.
Qed.

Lemma free_page_aux p w :
  disk_ok w → p ∈ alloced_pgid_ (dm w) → p < MAX_INT_PAGES →
  ∃ w', free_page p w = Ok (true, w') ∧ disk_ok w' ∧
    alloced_pgid_ (dm w') = oset_erase p (alloced_pgid_ (dm w)) ∧
    free_pgid_ (dm w') = oset_insert p (free_pgid_ (dm w)) ∧
    max_ava_pgid_ (dm w') = max_ava_pgid_ (dm w) ∧
    disk_status w' p = Ok STATUS_FREE ∧
    (∀ q, q ∈ alloced_pgid_ (dm w) → q ≠ p → disk_page w' q = disk_page w q).
Proof.
  intros [Hf (c&Hc&Hm&Hin) Hal Hfr Hpart Hdisj Hava Hmax Hbuf] Hp Hbd. unfold MAX_INT_PAGES in Hbd.
  pose proof (proj1 (Hpart p) (or_intror Hp)) as Hr. pose proof (Hin p Hp) as Hpin.
  unfold free_page. rewrite (proj2 (Z.ltb_ge _ _)) by lia.
  unfold oset_mem. rewrite bool_decide_eq_true_2 by done.
  rewrite mul32_Ok by cfg_lia. cbn [mbind res_bind].
  destruct (db_write w c (p * PAGE_SIZE) [STATUS_FREE] Hf Hc) as (f'&Hw&Hdb); [cfg_lia|].
  rewrite Hw, Hf, upd_db_io_id. eexists. split; [done|]. dmproj.
  assert (zlen (file_write c (p * PAGE_SIZE) [STATUS_FREE]) = zlen c) as Hlen.
  { rewrite file_write_zlen by cfg_lia. change (zlen [STATUS_FREE]) with 1. cfg_lia. }
  split_and!; [|done..| |].
  - constructor; dmproj; try done.
    + eexists. split; [by apply Hdb|]. rewrite Hlen. split; [done|].
      intros q [_ Hq]%elem_of_oset_erase. by apply Hin.
    + by apply oset_erase_ok.
    + by apply oset_insert_ok.
    + intros q. rewrite elem_of_oset_erase, elem_of_oset_insert, <- Hpart.
      destruct (decide (q = p)) as [->|]; naive_solver.
    + intros q. rewrite elem_of_oset_erase, elem_of_oset_insert.
      intros [?|?] [? ?]; [done|]. by eapply Hdisj.
    + rewrite Hmax. destruct (Z.eqb_spec (default (-1) (last (alloced_pgid_ (dm w)))) p); [done|].
      destruct (last (alloced_pgid_ (dm w))) as [m|] eqn:E.
      * cbn in n |- *. by rewrite (oset_last_erase _ m).
      * apply last_None in E. rewrite E in Hp. by apply elem_of_nil in Hp.
  - unfold disk_status. rewrite Hdb by done. unfold rd8.
    assert (mem_read (file_write c (p * PAGE_SIZE) [STATUS_FREE]) (p * PAGE_SIZE) 1 = Ok [STATUS_FREE]) as ->.
    { apply (file_write_same c (p * PAGE_SIZE) [STATUS_FREE]). cfg_lia. }
    done.
  - intros q Hq Hne. unfold disk_page. rewrite Hdb, Hc by done.
    pose proof (proj1 (Hpart q) (or_intror Hq)). pose proof (Hin _ Hq).
    replace (p * PAGE_SIZE) with (p * PAGE_SIZE + 0) by lia.
    apply page_read_write_ne; [done|lia..|]. change (zlen [STATUS_FREE]) with 1. cfg_lia.
Qed.

(** ** The scan of the database file *)

Fixpoint scan_ref (c : bytes) (a : Z) (n : nat) (st : scan_state) : scan_state :=
  match n with
  | O => st
  | S n => scan_ref c (a + 1) n (scan_page st a (default 0 (c !! Z.to_nat (a * PAGE_SIZE))))
  end.

Lemma scan_ref_app c a n m st :
  scan_ref c a (n + m) st = scan_ref c (a + Z.of_nat n) m (scan_ref c a n st).
Proof.
  revert a st. induction n as [|n IH]; intros a st; cbn [scan_ref Nat.add].
  - f_equal. lia.
  - rewrite IH. f_equal. lia.
Qed.

Lemma rd8_lookup m off b : 0 ≤ off → rd8 m off = Ok b ↔ m !! Z.to_nat off = Some b.
Proof.
  intros Ho. unfold rd8. destruct (decide (off < zlen m)) as [Hlt|Hge].
  - destruct (mem_read_ex m off 1) as [bs R]; [lia..|]. rewrite R.
    pose proof (mem_read_zlen _ _ _ _ R) as Hz. pose proof (mem_read_lookup _ _ _ _ O R ltac:(lia)) as Hl.
    rewrite Nat.add_0_r in Hl. rewrite <- Hl.
    destruct bs as [|x [|y bs]]; unfold zlen in Hz; cbn in Hz; try lia. cbn. naive_solver.
  - unfold mem_read. rewrite (proj2 (Z.leb_gt (off + 1) _)) by lia.
    rewrite andb_false_r. unfold zlen in *. rewrite lookup_ge_None_2 by lia. naive_solver.
Qed.

Lemma scan_batch_ref c tmp i len k n st :
  mem_read c (i * READ_DB_BUF_SZ) len = Ok tmp → 0 ≤ i →
  Z.of_nat (k + n) * PAGE_SIZE ≤ len → in32 (i * READ_DB_PG_NUM + Z.of_nat (k + n)) →
  scan_batch tmp i k n st = Ok (scan_ref c (i * READ_DB_PG_NUM + Z.of_nat k) n st).
Proof.
  intros Hr Hi. revert k st. induction n as [|n IH]; intros k st Hlen H32; [done|].
  cbn [scan_batch scan_ref]. pose proof Hr as (?&?&Hb&_)%mem_read_Ok.
  pose proof (mem_read_lookup _ _ _ _ (Z.to_nat (Z.of_nat k * PAGE_SIZE)) Hr) as Hl.
  pose proof (mem_read_zlen _ _ _ _ Hr) as Hz.
  destruct (rd8 tmp (Z.of_nat k * PAGE_SIZE)) as [b|] eqn:Hb8.
  - cbn [mbind res_bind]. rewrite Z.div_mul by done.
    rewrite swrap32_id by cfg_lia.
    rewrite IH by (cfg; lia). do 2 f_equal; [lia|].
    f_equal. apply rd8_lookup in Hb8; [|cfg_lia]. rewrite Hl in Hb8 by cfg_lia.
    replace (Z.to_nat ((i * READ_DB_PG_NUM + Z.of_nat k) * PAGE_SIZE))
      with (Z.to_nat (i * READ_DB_BUF_SZ) + Z.to_nat (Z.of_nat k * PAGE_SIZE))%nat by cfg_lia.
    by rewrite Hb8.
  - exfalso. destruct (lookup_lt_is_Some_2 tmp (Z.to_nat (Z.of_nat k * PAGE_SIZE))) as [b Hb'].
    { unfold zlen in Hz. cfg_lia. }
    apply rd8_lookup in Hb'; [|cfg_lia]. congruence.
Qed.

Lemma scan_db_ref io f n c i cnt N st :
  s_name io = Some n → s_fail io = false → fs_files f !! n = Some c →
  0 ≤ i → 0 ≤ N → zlen c = i * READ_DB_BUF_SZ + N * PAGE_SIZE →
  in32 (i * READ_DB_PG_NUM + N) →
  (Z.of_nat cnt - 1) * READ_DB_PG_NUM < N ≤ Z.of_nat cnt * READ_DB_PG_NUM →
  scan_db io f i cnt (N * PAGE_SIZE) st
    = Ok (Some (scan_ref c (i * READ_DB_PG_NUM) (Z.to_nat N) st, io)).
Proof.
  intros Hn Hf Hc. revert i N st. induction cnt as [|cnt IH]; intros i N st Hi HN Hlen H32 Hcnt.
  - assert (N = 0) as -> by cfg_lia. done.
  - cbn [scan_db].
    set (rs := if READ_DB_BUF_SZ <=? N * PAGE_SIZE then READ_DB_BUF_SZ else N * PAGE_SIZE).
    set (B := Z.min N READ_DB_PG_NUM).
    assert (rs = B * PAGE_SIZE) as Hrs.
    { unfold rs, B. destruct (Z.leb_spec READ_DB_BUF_SZ (N * PAGE_SIZE)); cfg_lia. }
    destruct (s_read_Ok io f n c (i * READ_DB_BUF_SZ) rs) as (tmp&Hs&Hr);
      [done..|cfg_lia|unfold B in *; cfg_lia|unfold B in *; cfg_lia|].
    rewrite Hs, Hf, (mem_read_zlen _ _ _ _ Hr).
    replace ((rs + PAGE_SIZE - 1) / PAGE_SIZE) with B
      by (rewrite Hrs; apply Z.div_unique with (PAGE_SIZE - 1); cfg_lia).
    rewrite (scan_batch_ref c tmp i rs 0 (Z.to_nat B)) by (done || (unfold B in *; cfg_lia)).
    cbn [mbind res_bind]. rewrite Z.add_0_r.
    destruct (decide (N ≤ READ_DB_PG_NUM)) as [Hle|Hgt].
    + assert (B = N) as -> by (unfold B; lia).
      assert (cnt = O) as -> by cfg_lia. done.
    + assert (B = READ_DB_PG_NUM) as -> by (unfold B; lia).
      replace (N * PAGE_SIZE - READ_DB_BUF_SZ) with ((N - READ_DB_PG_NUM) * PAGE_SIZE) by cfg_lia.
      rewrite (IH (i + 1) (N - READ_DB_PG_NUM)) by cfg_lia. do 3 f_equal.
      replace (Z.to_nat N) with (Z.to_nat READ_DB_PG_NUM + Z.to_nat (N - READ_DB_PG_NUM))%nat by cfg_lia.
      rewrite scan_ref_app. f_equal. cfg_lia.
Qed.

(** the status bit of page [p] in the file *)
Definition exist_bit (c : bytes) (p : Z) : Prop :=
  Z.land (default 0 (c !! Z.to_nat (p * PAGE_SIZE))) STATUS_EXIST ≠ 0.
#[export] Instance exist_bit_dec c p : Decision (exist_bit c p).
Proof. unfold exist_bit. apply _. Defined.

Definition scan_inv (c : bytes) (a : Z) (st : scan_state) : Prop :=
  let '(mx, al, fr) := st in
  oset_ok al ∧ oset_ok fr ∧ mx = last al ∧
  (∀ p, p ∈ al ↔ 0 ≤ p < a ∧ exist_bit c p) ∧
  (∀ p, p ∈ fr ↔ 0 ≤ p < a ∧ ¬ exist_bit c p).

Lemma scan_page_inv c a st :
  0 ≤ a → scan_inv c a st →
  scan_inv c (a + 1) (scan_page st a (default 0 (c !! Z.to_nat (a * PAGE_SIZE)))).
Proof.
  destruct st as [[mx al] fr]. intros Ha (Hal&Hfr&Hmx&Hin&Hout). unfold scan_page.
  fold (exist_bit c a). case_bool_decide as Hb; unfold scan_inv.
  - split_and!; [by apply oset_insert_ok|done| | |].
    + symmetry. apply oset_last_max; [by apply oset_insert_ok|apply elem_of_oset_insert; by left|].
      intros y [->|[? _]%Hin]%elem_of_oset_insert; lia.
    + intros p. rewrite elem_of_oset_insert, Hin. destruct (decide (p = a)) as [->|].
      * split; [intros; split; [lia|done]|auto].
      * intuition lia.
    + intros p. rewrite Hout. destruct (decide (p = a)) as [->|]; [|intuition lia].
      split; [intros [? _]; lia|intros [_ ?]; done].
  - split_and!; [done|by apply oset_insert_ok|done| |].
    + intros p. rewrite Hin. destruct (decide (p = a)) as [->|]; [|intuition lia].
      split; [intros [? _]; lia|intros [_ ?]; done].
    + intros p. rewrite elem_of_oset_insert, Hout. destruct (decide (p = a)) as [->|].
      * split; [intros; split; [lia|done]|auto].
      * intuition lia.
Qed.

Lemma scan_ref_inv c a n st :
  0 ≤ a → scan_inv c a st → scan_inv c (a + Z.of_nat n) (scan_ref c a n st).
Proof.
  revert a st. induction n as [|n IH]; intros a st Ha Hst; cbn [scan_ref].
  - by rewrite Z.add_0_r.
  - replace (a + Z.of_nat (S n)) with (a + 1 + Z.of_nat n) by lia.
    apply IH; [lia|]. by apply scan_page_inv.
Qed.

(** ** The meta data file: what is written is read back *)

Lemma put_name_ex buf off name :
  0 ≤ off → off + zlen name + 1 ≤ zlen buf →
  ∃ buf', put_name buf off name = Ok buf' ∧ zlen buf' = zlen buf ∧
    mem_read buf' off (zlen name) = Ok name ∧ mem_read buf' (off + zlen name) 1 = Ok [0] ∧
    (∀ o l, o + l ≤ off ∨ off + zlen name + 1 ≤ o → mem_read buf' o l = mem_read buf o l).
Proof.
  intros Ho Hb. unfold put_name. pose proof (zlen_nonneg name).
  destruct (mem_write_ex buf off name) as (b1&W1&L1&R1&D1); [lia..|]. rewrite W1.
  cbn [mbind res_bind]. unfold wr8.
  destruct (mem_write_ex b1 (off + zlen name) [0]) as (b2&W2&L2&R2&D2);
    [lia|change (zlen [0]) with 1; lia|]. change (zlen [0]) with 1 in *.
  exists b2. split_and!; [done|lia| |done|].
  - rewrite D2 by lia. done.
  - intros o l Hd. rewrite D2, D1 by lia. done.
Qed.

Lemma c_str_app name rest : Forall (λ c, c ≠ 0) name → c_str (name ++ 0 :: rest) = Ok name.
Proof.
  induction 1 as [|c name Hc _ IH]; [done|]. cbn. rewrite (proj2 (Z.eqb_neq _ _) Hc).
  by rewrite IH.
Qed.

Lemma c_str_at_ok buf off name :
  mem_read buf off (zlen name) = Ok name → mem_read buf (off + zlen name) 1 = Ok [0] →
  Forall (λ c, c ≠ 0) name → c_str_at buf off = Ok name.
Proof.
  intros R1 R2 Hn. pose proof (zlen_nonneg name).
  pose proof (mem_read_app buf off (zlen name) 1) as Ha. rewrite R1 in Ha. cbn [mbind res_bind] in Ha.
  rewrite R2 in Ha. specialize (Ha ltac:(lia) ltac:(lia)). cbn [mbind res_bind] in Ha.
  apply mem_read_Ok in Ha as (?&?&?&He). unfold c_str_at.
  rewrite !(proj2 (Z.leb_le _ _)) by lia. cbn.
  rewrite <- (take_drop (Z.to_nat (zlen name + 1)) (drop (Z.to_nat off) buf)), <- He.
  rewrite <- app_assoc. cbn. by apply c_str_app.
Qed.

(** the length of the meta data of a manager *)
Definition meta_size (d : DiskManager) : Z :=
  4 + zlen (db_name_ d) + 1 + 4 + zlen (log_name_ d) + 1 + 4 + 4 + 128.

(** the layout that [write_meta_data] leaves in the buffer *)
Definition meta_layout (d : DiskManager) (buf : bytes) : Prop :=
  let l := 4 + zlen (db_name_ d) + 1 in
  let m := l + 4 + zlen (log_name_ d) + 1 in
  rd32 buf 0 = Ok (zlen (db_name_ d)) ∧
  mem_read buf 4 (zlen (db_name_ d)) = Ok (db_name_ d) ∧
  mem_read buf (4 + zlen (db_name_ d)) 1 = Ok [0] ∧
  rd32 buf l = Ok (zlen (log_name_ d)) ∧
  mem_read buf (l + 4) (zlen (log_name_ d)) = Ok (log_name_ d) ∧
  mem_read buf (l + 4 + zlen (log_name_ d)) 1 = Ok [0] ∧
  rd32 buf m = Ok (max_ava_pgid_ d) ∧ rd32 buf (m + 4) = Ok (catalog_page_id_ d).

Lemma write_meta_data_layout w buf n c :
  meta_buffer (dm w) = Some buf → zlen buf = buffer_size (dm w) →
  meta_size (dm w) ≤ zlen buf → zlen buf ≤ INT32_MAX →
  in32 (max_ava_pgid_ (dm w)) → in32 (catalog_page_id_ (dm w)) →
  s_name (meta_io_ (dm w)) = Some n → s_fail (meta_io_ (dm w)) = false →
  fs_files (fs w) !! n = Some c →
  ∃ buf' , zlen buf' = zlen buf ∧ meta_layout (dm w) buf' ∧
    write_meta_data w = Ok (true, mkDisk (upd_buffer (Some buf') (buffer_size (dm w)) (dm w))
                                     (fs_set (fs w) n (file_write c 0 buf'))).
Proof.
  intros Hb Hz Hsz H32 Ha Hcat Hn Hf Hc. unfold meta_size in Hsz.
  pose proof (zlen_nonneg (db_name_ (dm w))). pose proof (zlen_nonneg (log_name_ (dm w))).
  unfold write_meta_data. rewrite Hb. cbv zeta.
  change OFFSET_T_SIZE with 4. change PGID_T_SIZE with 4. rewrite !Z.add_0_l.
  destruct (wr32_ex buf 0 (zlen (db_name_ (dm w)))) as (b1&->&L1&R1&D1); [lia|lia|cfg_lia|].
  cbn [mbind res_bind].
  destruct (put_name_ex b1 4 (db_name_ (dm w))) as (b2&->&L2&R2&R2'&D2); [lia..|].
  cbn [mbind res_bind]. set (l := 4 + zlen (db_name_ (dm w)) + 1) in *.
  destruct (wr32_ex b2 l (zlen (log_name_ (dm w)))) as (b3&->&L3&R3&D3); [lia|lia|cfg_lia|].
  cbn [mbind res_bind].
  destruct (put_name_ex b3 (l + 4) (log_name_ (dm w))) as (b4&->&L4&R4&R4'&D4); [lia..|].
  cbn [mbind res_bind]. set (m := l + 4 + zlen (log_name_ (dm w)) + 1) in *.
  destruct (wr32_ex b4 m (max_ava_pgid_ (dm w))) as (b5&->&L5&R5&D5); [lia|lia|done|].
  cbn [mbind res_bind].
  destruct (wr32_ex b5 (m + 4) (catalog_page_id_ (dm w))) as (b6&->&L6&R6&D6); [lia|lia|done|].
  cbn [mbind res_bind]. unfold mem_set. change (0 <=? 128) with true. cbn iota.
  destruct (mem_write_ex b6 (m + 4 + 4) (replicate (Z.to_nat 128) 0)) as (b7&->&L7&_&D7);
    [lia|rewrite zlen_replicate; lia|]. rewrite zlen_replicate in D7.
  cbn [mbind res_bind]. dmproj. exists b7. split; [lia|]. split.
  - unfold meta_layout. fold l. fold m. unfold rd32 in *.
    split_and!;
      (rewrite D7 by lia) || idtac;
      (rewrite D6 by lia) || idtac; (rewrite D5 by lia) || idtac; (rewrite D4 by lia) || idtac;
      (rewrite D3 by lia) || idtac; (rewrite D2 by lia) || idtac; done.
  - rewrite take_ge by (unfold zlen in *; lia).
    rewrite (s_write_Ok _ _ n c 0 b7) by (done || lia). dmproj. by rewrite Hf.
Qed.

(** ** Restart *)

(** what a running manager must satisfy for a later run to recover it: its three
    files exist and can be opened, its meta data fits the buffer, the database
    file lies within the ids handed out and marks exactly the allocated pages *)
Record restartable (w : Disk) (base : list Z) : Prop := {
  rs_ok : disk_ok w;
  rs_status : status_ (dm w) = true;
  rs_meta : s_name (meta_io_ (dm w)) = Some (base ++ dot_mtd) ∧ s_fail (meta_io_ (dm w)) = false;
  rs_db : s_name (db_io_ (dm w)) = Some (db_name_ (dm w)) ∧ db_name_ (dm w) ≠ base ++ dot_mtd;
  rs_log : log_name_ (dm w) ≠ base ++ dot_mtd;
  rs_files : ∀ n, n ∈ [base ++ dot_mtd; db_name_ (dm w); log_name_ (dm w)] →
               is_Some (fs_files (fs w) !! n) ∧ n ∉ fs_denied (fs w);
  rs_names : Forall (λ c, c ≠ 0) (db_name_ (dm w)) ∧ Forall (λ c, c ≠ 0) (log_name_ (dm w));
  rs_buf : ∃ buf, meta_buffer (dm w) = Some buf ∧ zlen buf = buffer_size (dm w) ∧
             meta_size (dm w) ≤ zlen buf ≤ INT32_MAX;
  rs_meta_len : ∀ c, fs_files (fs w) !! (base ++ dot_mtd) = Some c → zlen c ≤ buffer_size (dm w);
  rs_ids : in32 (max_ava_pgid_ (dm w)) ∧ in32 (catalog_page_id_ (dm w));
  rs_used : alloced_pgid_ (dm w) ≠ [];
  rs_len : ∀ c, db_file w = Some c → zlen c ≤ max_ava_pgid_ (dm w) * PAGE_SIZE;
  rs_bits : ∀ c p, db_file w = Some c → 0 ≤ p → (p + 1) * PAGE_SIZE ≤ zlen c →
              exist_bit c p ↔ p ∈ alloced_pgid_ (dm w);
}.

Lemma open_file_ok f n : is_Some (fs_files f !! n) → n ∉ fs_denied f →
  open_file f n = (true, {| s_name := Some n; s_fail := false |}).
Proof.
  intros Hs Hd. unfold open_file, check_inexistence.
  by rewrite bool_decide_eq_true_2, (bool_decide_eq_false_2 (n ∈ _)) by done.
Qed.

(** reading the header fields and opening the files: the first half of [from_mtd] *)
Lemma from_mtd_header g base f d buf :
  fs_files f !! (base ++ dot_mtd) = Some buf → meta_layout d buf →
  Forall (λ c, c ≠ 0) (db_name_ d) → Forall (λ c, c ≠ 0) (log_name_ d) →
  (∀ n, n ∈ [base ++ dot_mtd; db_name_ d; log_name_ d] →
     is_Some (fs_files f !! n) ∧ n ∉ fs_denied f) →
  ∀ c N, fs_files f !! db_name_ d = Some c → zlen c = N * PAGE_SIZE → 0 < N → in32 N →
  N ≤ max_ava_pgid_ d →
  ∀ mx al fr, scan_ref c 0 (Z.to_nat N) (None, [], []) = (mx, al, fr) →
  ∃ w', from_mtd (mkDisk (DM_init g base) f) = Ok w' ∧ fs w' = f ∧
    s_name (db_io_ (dm w')) = Some (db_name_ d) ∧ s_fail (db_io_ (dm w')) = false ∧
    status_ (dm w') = true ∧ db_name_ (dm w') = db_name_ d ∧ log_name_ (dm w') = log_name_ d ∧
    catalog_page_id_ (dm w') = catalog_page_id_ d ∧ max_ava_pgid_ (dm w') = max_ava_pgid_ d ∧
    max_alloced_pgid_ (dm w') = mx ∧ alloced_pgid_ (dm w') = al ∧
    free_pgid_ (dm w') = oset_insert_range N (Z.to_nat (max_ava_pgid_ d - N)) fr ∧
    page_buf (dm w') = g.
Proof.
  intros Hm (R0&R1&R1'&R2&R3&R3'&R4&R5) Hdbn Hlogn Hfiles c N Hc Hlen HN HN32 Hava mx al fr Hscan.
  destruct (Hfiles (base ++ dot_mtd)) as [Hs1 Hd1]; [set_solver|].
  destruct (Hfiles (db_name_ d)) as [Hs2 Hd2]; [set_solver|].
  destruct (Hfiles (log_name_ d)) as [Hs3 Hd3]; [set_solver|].
  unfold from_mtd. dmproj. change (meta_name_ (DM_init g base)) with (base ++ dot_mtd).
  rewrite (open_file_ok _ _ Hs1 Hd1). cbn [negb]. dmproj.
  assert (get_file_sz {| s_name := Some (base ++ dot_mtd); s_fail := false |} f = zlen buf) as ->
    by (unfold get_file_sz; cbn; by rewrite Hm).
  pose proof (zlen_nonneg buf). rewrite (proj2 (Z.eqb_neq (zlen buf) (-1))) by lia.
  destruct (s_read_Ok {| s_name := Some (base ++ dot_mtd); s_fail := false |} f (base ++ dot_mtd) buf 0 (zlen buf))
    as (b&Hb&Hrb); [done..|lia|].
  assert (b = buf) as ->.
  { apply mem_read_Ok in Hrb as (_&_&_&->). change (Z.to_nat 0) with O. rewrite drop_0.
    apply take_ge. unfold zlen. lia. }
  rewrite Hb. cbn [s_fail orb]. rewrite bool_decide_eq_false_2 by tauto.
  rewrite R0. cbn [mbind res_bind]. rewrite Z.add_0_l.
  rewrite (c_str_at_ok buf 4 (db_name_ d)) by done. cbn [mbind res_bind].
  rewrite (open_file_ok _ _ Hs2 Hd2). cbn [negb]. dmproj.
  rewrite R2. cbn [mbind res_bind].
  rewrite (c_str_at_ok buf _ (log_name_ d)) by done. cbn [mbind res_bind].
  rewrite (open_file_ok _ _ Hs3 Hd3). cbn [negb]. dmproj.
  rewrite R4. cbn [mbind res_bind]. change PGID_T_SIZE with 4. rewrite R5. cbn [mbind res_bind].
  assert (get_file_sz {| s_name := Some (db_name_ d); s_fail := false |} f = zlen c) as ->
    by (unfold get_file_sz; cbn; by rewrite Hc).
  rewrite Hlen. rewrite Z.mod_mul by done. rewrite (bool_decide_eq_false_2 (0 ≠ 0)) by tauto.
  rewrite (proj2 (Z.eqb_neq (N * PAGE_SIZE) (-1))) by cfg_lia.
  rewrite (proj2 (Z.eqb_neq (N * PAGE_SIZE) 0)) by cfg_lia. cbn [orb].
  set (cnt := N * PAGE_SIZE / READ_DB_BUF_SZ + _).
  assert ((cnt - 1) * READ_DB_PG_NUM < N ≤ cnt * READ_DB_PG_NUM ∧ 0 ≤ cnt) as [Hcnt Hcnt0].
  { unfold cnt. pose proof (Z.div_mod (N * PAGE_SIZE) READ_DB_BUF_SZ ltac:(done)) as Hdm.
    pose proof (Z.mod_pos_bound (N * PAGE_SIZE) READ_DB_BUF_SZ ltac:(cfg_lia)) as Hmb.
    case_bool_decide; cfg_lia. }
  dmproj. cbn [DM_init max_alloced_pgid_ alloced_pgid_ free_pgid_].
  pose proof (scan_db_ref {| s_name := Some (db_name_ d); s_fail := false |} f (db_name_ d) c 0
    (Z.to_nat cnt) N (None, [], []) eq_refl eq_refl Hc) as Hsd.
  rewrite !Z.mul_0_l in Hsd. rewrite Hsd by (lia || (rewrite Z2Nat.id by lia; lia) || done).
  rewrite Hscan. cbn [mbind res_bind]. rewrite Z.div_mul by done.
  rewrite swrap32_id by cfg_lia. replace (N - 1 + 1) with N by lia.
  eexists. split; [done|]. dmproj. done.
Qed.

(** the closed disk that [shutdown] leaves *)
Lemma shutdown_saved w base :
  restartable w base →
  ∃ w1 buf, shutdown w = Ok w1 ∧ fs_denied (fs w1) = fs_denied (fs w) ∧
    fs_files (fs w1) = <[base ++ dot_mtd := buf]> (fs_files (fs w)) ∧ meta_layout (dm w) buf.
Proof.
  intros [Hok Hst [Hmn Hmf] _ _ Hfiles _ (buf&Hb&Hz&Hsz&H32) Hml [Ha Hcat] _ _ _].
  destruct (Hfiles (base ++ dot_mtd)) as [[c Hc] _]; [set_solver|].
  destruct (write_meta_data_layout w buf (base ++ dot_mtd) c) as (buf'&Hz'&Hlay&Hw); [done..|].
  unfold shutdown. rewrite Hst, Hw. cbn [mbind res_bind].
  eexists _, buf'. split; [done|]. dmproj. split; [done|]. split; [|done]. cbn.
  f_equal. unfold file_write. specialize (Hml c Hc).
  change (Z.to_nat 0) with O. rewrite take_0. cbn. rewrite drop_ge, app_nil_r; [done|].
  pose proof (zlen_nonneg buf'). unfold zlen in *. lia.
Qed.

Lemma restart_aux w base g :
  restartable w base → zlen g = PAGE_SIZE →
  ∃ w1 w2, shutdown w = Ok w1 ∧ from_mtd (mkDisk (DM_init g base) (fs w1)) = Ok w2 ∧
    disk_ok w2 ∧ status_ (dm w2) = true ∧ db_file w2 = db_file w ∧
    alloced_pgid_ (dm w2) = alloced_pgid_ (dm w) ∧ free_pgid_ (dm w2) = free_pgid_ (dm w) ∧
    max_ava_pgid_ (dm w2) = max_ava_pgid_ (dm w) ∧
    max_alloced_pgid_ (dm w2) = max_alloced_pgid_ (dm w) ∧
    catalog_page_id_ (dm w2) = catalog_page_id_ (dm w) ∧
    db_name_ (dm w2) = db_name_ (dm w) ∧ log_name_ (dm w2) = log_name_ (dm w).
Proof.
  intros Hrs Hg. destruct (shutdown_saved w base Hrs) as (w1&buf&Hsd&Hden&Hfs&Hlay).
  destruct Hrs as [Hok Hst _ [Hdn Hne] Hlne Hfiles [Hn1 Hn2] _ _ [Ha _] Hused Hlen Hbits].
  pose proof Hok as [Hnf (c&Hc&Hmod&Hin) Hal Hfr Hpart Hdisj Hava Hmax Hbuf].
  pose proof Hc as (n&Hn&Hcn)%db_file_inv. rewrite Hdn in Hn. injection Hn as <-.
  specialize (Hlen c Hc). apply Z.mod_divide in Hmod as [N HN]; [|done].
  assert (0 < N) as HN0.
  { destruct (alloced_pgid_ (dm w)) as [|a l]; [done|].
    assert (a ∈ a :: l) as Hal' by by left. pose proof (Hin a Hal').
    pose proof (proj1 (Hpart a) (or_intror Hal')). cfg_lia. }
  destruct (scan_ref c 0 (Z.to_nat N) (None, [], [])) as [[mx al] fr] eqn:Hscan.
  pose proof (scan_ref_inv c 0 (Z.to_nat N) (None, [], [])) as Hinv. rewrite Hscan in Hinv.
  rewrite Z2Nat.id, Z.add_0_l in Hinv by lia. destruct Hinv as (Hsal&Hsfr&Hmx&Hial&Hifr).
  { lia. } { split_and!; [constructor..|done| |]; intros p; rewrite elem_of_nil; split; [done|lia|done|lia]. }
  destruct (from_mtd_header g base (fs w1) (dm w) buf) with (c := c) (N := N) (mx := mx) (al := al) (fr := fr)
    as (w2&Hfm&Hf2&Hio2&Hnf2&Hst2&Hdb2&Hlog2&Hcat2&Hava2&Hmx2&Hal2&Hfr2&Hpb2);
    [rewrite Hfs; apply lookup_insert_eq|done..| | |lia|lia|cfg_lia|cfg_lia|done|].
  { intros m Hm. destruct (Hfiles m Hm) as [??]. rewrite Hden, Hfs. split; [|done].
    destruct (decide (m = base ++ dot_mtd)) as [->|].
    - rewrite lookup_insert_eq. by eexists.
    - by rewrite lookup_insert_ne. }
  { rewrite Hfs, lookup_insert_ne; [done|congruence]. }
  assert (db_file w2 = Some c) as Hc2.
  { unfold db_file. rewrite Hio2, Hf2, Hfs. cbn. rewrite lookup_insert_ne; [done|congruence]. }
  assert (∀ p, 0 ≤ p < N → exist_bit c p ↔ p ∈ alloced_pgid_ (dm w)) as Hb.
  { intros p Hp. apply Hbits; [done|lia|]. cfg_lia. }
  assert (al = alloced_pgid_ (dm w)) as Eal.
  { apply oset_ext; [done..|]. intros p. rewrite Hial. split.
    - intros [? ?]. by apply Hb.
    - intros Hp. pose proof (Hin p Hp). pose proof (proj1 (Hpart p) (or_intror Hp)).
      assert (0 ≤ p < N) by cfg_lia. split; [done|by apply Hb]. }
  assert (oset_insert_range N (Z.to_nat (max_ava_pgid_ (dm w) - N)) fr = free_pgid_ (dm w)) as Efr.
  { apply oset_ext; [by apply oset_insert_range_ok|done|]. intros p.
    rewrite elem_of_oset_insert_range, Hifr. specialize (Hpart p). specialize (Hdisj p). split.
    - intros [Hp|[Hp Hnb]].
      + destruct (proj2 Hpart) as [?|Hpa]; [cfg_lia|done|]. apply Hin in Hpa. cfg_lia.
      + destruct (proj2 Hpart) as [?|Hpa]; [cfg_lia|done|]. by apply Hb in Hpa.
    - intros Hp. destruct (decide (p < N)); [right|left].
      + split; [tauto || lia|]. rewrite Hb by (split; [tauto|done]). auto.
      + assert (0 ≤ p < max_ava_pgid_ (dm w)) by tauto. lia. }
  assert (mx = max_alloced_pgid_ (dm w)) as Emx.
  { rewrite Hmx, Hmax, Eal. destruct (last (alloced_pgid_ (dm w))) eqn:E; [done|].
    by apply last_None in E. }
  exists w1, w2. split; [done|]. split; [done|]. split_and!; [|congruence..].
  constructor; try congruence.
  - exists c. split; [done|]. rewrite Hal2, Eal. split; [|done]. rewrite HN. by apply Z.mod_mul.
  - intros p. rewrite Hfr2, Efr, Hal2, Eal, Hava2. done.
  - intros p. rewrite Hfr2, Efr, Hal2, Eal. apply Hdisj.
Qed.

(** ** Creation from scratch *)

Lemma alloc_page_frame flag w id w' :
  alloc_page flag w = Ok (id, w') →
  meta_io_ (dm w') = meta_io_ (dm w) ∧ log_io_ (dm w') = log_io_ (dm w) ∧
  db_name_ (dm w') = db_name_ (dm w) ∧ log_name_ (dm w') = log_name_ (dm w) ∧
  meta_name_ (dm w') = meta_name_ (dm w) ∧ meta_buffer (dm w') = meta_buffer (dm w) ∧
  buffer_size (dm w') = buffer_size (dm w) ∧ catalog_page_id_ (dm w') = catalog_page_id_ (dm w) ∧
  s_name (db_io_ (dm w')) = s_name (db_io_ (dm w)) ∧ fs_denied (fs w') = fs_denied (fs w) ∧
  (∀ n, s_name (db_io_ (dm w)) ≠ Some n → fs_files (fs w') !! n = fs_files (fs w) !! n) ∧
  (∀ n, is_Some (fs_files (fs w) !! n) → is_Some (fs_files (fs w') !! n)).
Proof.
  assert (∀ s f off bs, s_name (s_write s f off bs).1 = s_name s ∧
    fs_denied (s_write s f off bs).2 = fs_denied f ∧
    (∀ n, s_name s ≠ Some n → fs_files (s_write s f off bs).2 !! n = fs_files f !! n) ∧
    (∀ n, is_Some (fs_files f !! n) → is_Some (fs_files (s_write s f off bs).2 !! n))) as Hsw.
  { intros s f off bs. unfold s_write. destruct (s_name s) as [m|] eqn:E; [|done].
    destruct (fs_files f !! m) eqn:E2; [|done]. destruct (_ || _); [done|]. cbn.
    split_and!; [done..| |].
    - intros n Hn. rewrite lookup_insert_ne; [done|congruence].
    - intros n Hn. destruct (decide (n = m)) as [->|]; [rewrite lookup_insert_eq; by eexists|].
      by rewrite lookup_insert_ne. }
  unfold alloc_page. destruct (s_is_open _); [|intros [= <- <-]; done].
  intros H. apply res_bind_Ok in H as (d&Hg&H).
  assert (∃ a fr, d = upd_ids a (max_alloced_pgid_ (dm w)) (alloced_pgid_ (dm w)) fr (dm w)) as (a&fr&->).
  { unfold grow_ids in Hg. destruct (free_pgid_ (dm w)) eqn:E.
    - apply res_bind_Ok in Hg as (v&_&[= <-]). eauto.
    - injection Hg as <-. exists (max_ava_pgid_ (dm w)), (free_pgid_ (dm w)). by destruct (dm w). }
  dmproj_in H. destruct fr as [|x fr]; [done|].
  apply res_bind_Ok in H as (buf&Hbuf&H). apply res_bind_Ok in H as (off&Hoff&H).
  dmproj_in H. specialize (Hsw (db_io_ (dm w)) (fs w) off buf).
  destruct (s_write (db_io_ (dm w)) (fs w) off buf) as [io f'].
  cbn [fst snd] in Hsw. destruct Hsw as (?&?&?&?).
  destruct (s_fail io); [injection H as <- <-; done|].
  destruct (max_alloced_pgid_ (dm w)); [injection H as <- <-; done|done].
Qed.

Lemma from_scratch_ok g mb base f :
  zlen g = PAGE_SIZE → zlen mb = 512 → Forall (λ c, c ≠ 0) base →
  2 * zlen base + 7 + 146 ≤ 512 →
  (∀ n, n ∈ [base ++ dot_mtd; base ++ dot_db; base ++ dot_log] →
     fs_files f !! n = None ∧ n ∉ fs_denied f) →
  ∃ w, DiskManager_new g mb base true f = Ok w ∧ restartable w base ∧
    alloced_pgid_ (dm w) = [0] ∧ catalog_page_id_ (dm w) = 0 ∧ max_ava_pgid_ (dm w) = 100.
Proof.
  intros Hg Hmb Hbase Hlen Hfresh.
  destruct (Hfresh (base ++ dot_mtd)) as [F1 D1]; [set_solver|].
  destruct (Hfresh (base ++ dot_db)) as [F2 D2]; [set_solver|].
  destruct (Hfresh (base ++ dot_log)) as [F3 D3]; [set_solver|].
  assert (base ++ dot_mtd ≠ base ++ dot_db ∧ base ++ dot_mtd ≠ base ++ dot_log
          ∧ base ++ dot_db ≠ base ++ dot_log) as (N1&N2&N3).
  { split_and!; intros E%app_inv_head; done. }
  unfold DiskManager_new, from_scratch. dmproj.
  change (meta_name_ (DM_init g base)) with (base ++ dot_mtd).
  change (db_name_ (DM_init g base)) with (base ++ dot_db).
  change (log_name_ (DM_init g base)) with (base ++ dot_log).
  unfold check_inexistence. rewrite F1, F2, F3.
  rewrite (bool_decide_eq_false_2 (is_Some (@None (list Z)))) by apply is_Some_None.
  cbn [andb negb]. unfold open_file_trunc. rewrite (bool_decide_eq_false_2 _ D1).
  cbn [negb fs_set fs_denied]. dmproj. rewrite (bool_decide_eq_false_2 _ D2). cbn [negb fs_set fs_denied].
  dmproj. rewrite (bool_decide_eq_false_2 _ D3). cbn [negb].
  set (f3 := fs_set (fs_set (fs_set f (base ++ dot_mtd) []) (base ++ dot_db) []) (base ++ dot_log) []).
  set (d0 := upd_buffer _ _ _).
  assert (db_file (mkDisk d0 f3) = Some []) as Hdb0.
  { unfold db_file. cbn. rewrite lookup_insert_ne by done. apply lookup_insert_eq. }
  assert (disk_ok (mkDisk d0 f3)) as Hok0.
  { constructor; dmproj; try done.
    - exists []. split; [done|]. split; [done|]. intros p. cbn. by rewrite elem_of_nil.
    - constructor.
    - apply oset_insert_range_ok. constructor.
    - intros p. cbn [d0 upd_buffer upd_ids free_pgid_ alloced_pgid_ max_ava_pgid_ upd_log_io upd_db_io
        upd_meta_io DM_init]. rewrite elem_of_oset_insert_range, !elem_of_nil. intuition lia.
    - intros p _. cbn. by rewrite elem_of_nil. }
  destruct (alloc_page_aux STATUS_EXIST (mkDisk d0 f3) Hok0) as (id&w&bs&Ha&Hok&Hid&Hnal&Hmin&Hal&_&Hpg&Hst&_&Hava&(c0&Hc0&Hc1&Hbs));
    [cbn; unfold MAX_INT_PAGES; lia|].
  pose proof (alloc_page_frame _ _ _ _ Ha) as (M1&M2&M3&M4&M5&M6&M7&M8&M9&M10&M11&M12).
  unfold get_new_page. rewrite Ha. cbn [d0] in *. dmproj_in M1. cbn in M1, M2, M3, M4, M5, M6, M7, M8, M9.
  change (alloced_pgid_ (dm (mkDisk d0 f3))) with (@nil Z) in *.
  assert (id = 0) as ->.
  { destruct (decide (0 < id)); [|lia]. specialize (Hmin 0 ltac:(lia)). by apply elem_of_nil in Hmin. }
  cbn in Hal. dmproj. specialize (Hava ltac:(done)). cbn in Hava.
  set (w2 := mkDisk (upd_catalog 0 (dm w)) (fs w)).
  assert (fs_files (fs w) !! (base ++ dot_mtd) = Some []) as Hmeta.
  { rewrite M11 by (cbn; congruence). cbn. rewrite !lookup_insert_ne by done. apply lookup_insert_eq. }
  assert (zlen (base ++ dot_db) = zlen base + 3) as Z1 by apply zlen_app.
  assert (zlen (base ++ dot_log) = zlen base + 4) as Z2 by apply zlen_app.
  assert (meta_size (dm w) ≤ 512) as Hsz by (unfold meta_size; rewrite M3, M4, Z1, Z2; lia).
  destruct (write_meta_data_layout w2 mb (base ++ dot_mtd) []) as (buf'&Hz&Hlay&Hw);
    unfold w2; dmproj; [done|congruence|by rewrite Hmb|cfg_lia|rewrite Hava; done|done|by rewrite M1|by rewrite M1|done|].
  unfold w2 in Hw. rewrite Hw. clear Hw. dmproj. eexists. split; [done|].
  rewrite Hdb0 in Hc0. injection Hc0 as <-.
  assert (file_write [] (0 * PAGE_SIZE) bs = bs) as Efw
    by (unfold file_write; cbn; by rewrite drop_nil, app_nil_r).
  rewrite Efw in Hc1. set (w3 := mkDisk _ _).
  assert (db_file w3 = Some bs) as Hc3.
  { unfold w3, db_file in *. dmproj. rewrite M9 in *. cbn in *. by rewrite lookup_insert_ne. }
  split_and!; [|done..].
  assert (disk_ok w3) as Hok3.
  { destruct Hok as [? _ ?????]. constructor; try done.
    exists bs. rewrite Hbs. split_and!; [done..|]. unfold w3. dmproj. rewrite Hal.
    intros p ->%list_elem_of_singleton. done. }
  constructor; unfold w3 in *; dmproj; try done.
  - rewrite M1. done.
  - rewrite M3, M9. cbn. split; [done|congruence].
  - rewrite M4. congruence.
  - cbn [fs_set fs_denied fs_files]. rewrite M3, M4, M10. intros n Hn. split; [|by apply Hfresh].
    destruct (decide (n = base ++ dot_mtd)) as [->|]; [rewrite lookup_insert_eq; by eexists|].
    rewrite lookup_insert_ne by done. apply M12. cbn.
    destruct (decide (n = base ++ dot_log)) as [->|]; [rewrite lookup_insert_eq; by eexists|].
    rewrite lookup_insert_ne by done.
    assert (n = base ++ dot_db) as -> by set_solver. rewrite lookup_insert_eq. by eexists.
  - rewrite M3, M4. split; apply Forall_app; (split; [done|repeat constructor; done]).
  - exists buf'. rewrite M7, Hz, Hmb. cbn. split_and!; [done..|]. cfg_lia.
  - intros c. cbn [fs_set fs_files]. rewrite lookup_insert_eq. intros [= <-]. rewrite file_write_zlen by lia.
    rewrite M7, Hz, Hmb. change (zlen (@nil Z)) with 0. lia.
  - rewrite Hava. done.
  - rewrite Hal. done.
  - intros c Hcc. rewrite Hc3 in Hcc. injection Hcc as <-. rewrite Hbs, Hava. done.
  - intros c p Hcc Hp Hpl. rewrite Hc3 in Hcc. injection Hcc as <-. rewrite Hal.
    assert (p = 0) as -> by cfg_lia. rewrite list_elem_of_singleton.
    unfold exist_bit. change (Z.to_nat (0 * PAGE_SIZE)) with O. rewrite Hst. done.
Qed.

(** ** Properties *)

(** Allocation. On a sane manager whose ids stay addressable with an [int]
    offset, [alloc_page] succeeds and returns the least page id that is not
    allocated, growing the id range when none is free; the id moves to the
    allocated set, its page on disk carries the status flag, no allocated page
    changes, and the manager stays sane. *)
Theorem alloc_page_correct flag w :
  disk_ok w → 2 * max_ava_pgid_ (dm w) ≤ MAX_INT_PAGES →
  ∃ id w' bs, alloc_page flag w = Ok (id, w') ∧ disk_ok w' ∧
    is_allocated (dm w) id = false ∧ (∀ p, 0 ≤ p < id → is_allocated (dm w) p = true) ∧
    alloced_pgid_ (dm w') = oset_insert id (alloced_pgid_ (dm w)) ∧
    disk_page w' id = Ok bs ∧ bs !! O = Some flag ∧
    (∀ p, p ∈ alloced_pgid_ (dm w) → disk_page w' p = disk_page w p).
Proof.
  intros Hok Hbd.
  destruct (alloc_page_aux flag w Hok Hbd) as (id&w'&bs&?&?&?&?&Hmin&?&?&?&?&?&_).
  exists id, w', bs. unfold is_allocated, oset_mem. split_and!; try done.
  - by apply bool_decide_eq_false_2.
  - intros p Hp. by apply bool_decide_eq_true_2, Hmin.
Qed.

(** Release. Freeing an allocated page succeeds, makes exactly that id free
    again (so that the allocated and free ids still partition the id range and
    the largest allocated id is still known), marks the page free on disk, and
    leaves the contents of every other allocated page alone. *)
Theorem free_page_correct p w :
  disk_ok w → p ∈ alloced_pgid_ (dm w) → p < MAX_INT_PAGES →
  ∃ w', free_page p w = Ok (true, w') ∧ disk_ok w' ∧
    is_free (dm w') p = true ∧ alloced_pgid_ (dm w') = oset_erase p (alloced_pgid_ (dm w)) ∧
    disk_status w' p = Ok STATUS_FREE ∧
    (∀ q, q ∈ alloced_pgid_ (dm w) → q ≠ p → disk_page w' q = disk_page w q).
Proof.
  intros Hok Hp Hbd.
  destruct (free_page_aux p w Hok Hp Hbd) as (w'&?&?&?&Hfr&?&?&?).
  exists w'. unfold is_free, oset_mem. split_and!; try done.
  apply bool_decide_eq_true_2. rewrite Hfr. apply elem_of_oset_insert. by left.
Qed.

(** C15: Restart. When a sane manager whose database file marks exactly the
    allocated pages is shut down and a new process opens the same name, the new
    manager recovers the same allocated ids, free ids, bounds, catalog page and
    database contents, whatever batches the scan of the file was cut into. *)
Theorem restart_roundtrip w base g :
  restartable w base → zlen g = PAGE_SIZE →
  ∃ w1 w2, shutdown w = Ok w1 ∧ from_mtd (mkDisk (DM_init g base) (fs w1)) = Ok w2 ∧
    disk_ok w2 ∧ status_ (dm w2) = true ∧ db_file w2 = db_file w ∧
    alloced_pgid_ (dm w2) = alloced_pgid_ (dm w) ∧ free_pgid_ (dm w2) = free_pgid_ (dm w) ∧
    max_ava_pgid_ (dm w2) = max_ava_pgid_ (dm w) ∧
    max_alloced_pgid_ (dm w2) = max_alloced_pgid_ (dm w) ∧
    catalog_page_id_ (dm w2) = catalog_page_id_ (dm w).
Proof.
  intros Hrs Hg.
  destruct (restart_aux w base g Hrs Hg) as (w1&w2&?&?&?&?&?&?&?&?&?&?&_). exists w1, w2. done.
Qed.

(** Creating a database from scratch, on names no file has yet, yields a
    working manager: page 0 is allocated as the catalog page, ids 0..99 are
    available, and the manager is restartable. *)
Theorem create_correct g mb base f :
  zlen g = PAGE_SIZE → zlen mb = 512 → Forall (λ c, c ≠ 0) base →
  2 * zlen base + 7 + 146 ≤ 512 →
  (∀ n, n ∈ [base ++ dot_mtd; base ++ dot_db; base ++ dot_log] →
     fs_files f !! n = None ∧ n ∉ fs_denied f) →
  ∃ w, DiskManager_new g mb base true f = Ok w ∧ restartable w base ∧
    alloced_pgid_ (dm w) = [0] ∧ catalog_page_id_ (dm w) = 0 ∧ max_ava_pgid_ (dm w) = 100.
Proof. apply from_scratch_ok. Qed.

Lemma short_read_aux w c p :
  db_file w = Some c → 0 ≤ p → zlen c < (p + 1) * PAGE_SIZE →
  ∃ bs w', read_page p w = (false, bs, w') ∧ db_file w' = Some c ∧
    (∀ q, (read_page q w').1.1 = false) ∧
    (∀ q data, (write_page q data w').1 = false ∧ db_file (write_page q data w').2 = Some c).
Proof.
  intros Hc Hp Hlen. pose proof (db_is_open _ _ Hc) as Hopen.
  pose proof Hc as (n&Hn&Hcn)%db_file_inv. unfold read_page at 1. rewrite Hopen.
  assert (∃ bs io, s_read (db_io_ (dm w)) (fs w) (p * PAGE_SIZE) PAGE_SIZE = (bs, io) ∧
    zlen bs ≠ PAGE_SIZE ∧ s_fail io = true ∧ s_name io = Some n) as (bs&io&->&Hz&Hf&Hio).
  { unfold s_read. rewrite Hn, Hcn. destruct (_ || _); [by eexists _, _|].
    eexists _, _. split; [done|].
    assert (zlen (take (Z.to_nat PAGE_SIZE) (drop (Z.to_nat (p * PAGE_SIZE)) c)) < PAGE_SIZE) as Hlt.
    { unfold zlen in *. rewrite length_take, length_drop. cfg_lia. }
    rewrite (proj2 (Z.ltb_lt _ _) Hlt). split_and!; [lia|done..]. }
  rewrite bool_decide_eq_false_2 by done. eexists _, _. split; [done|].
  set (w' := mkDisk _ _).
  assert (db_file w' = Some c) as Hc' by (unfold db_file, w'; dmproj; by rewrite Hio).
  pose proof (db_is_open _ _ Hc') as Hopen'. split; [done|]. split.
  - intros q. unfold read_page. rewrite Hopen', s_read_fail by done. cbn.
    by rewrite bool_decide_eq_false_2.
  - intros q data. unfold write_page. rewrite Hopen'.
    destruct (s_write_fail (db_io_ (dm w')) (fs w') (q * PAGE_SIZE) data Hf) as [H1 H2].
    destruct (s_write _ _ _ _) as [io' f'] eqn:E. cbn in H1, H2. rewrite H1. split; [done|].
    subst f'. unfold db_file. cbn [snd]. dmproj. unfold s_write in E.
    assert (s_name io' = Some n) as ->; [|done].
    revert E. cbn [w' dm upd_db_io db_io_]. rewrite Hio. repeat case_match; intros [= <-]; done.
Qed.

(** One short read breaks the stream for good: once [read_page] has been
    asked for a page past the end of the file, every later [read_page] and
    [write_page] of the manager fails and leaves the file unchanged. *)
Theorem short_read_sticky w c p :
  db_file w = Some c → 0 ≤ p → zlen c < (p + 1) * PAGE_SIZE →
  ∃ bs w', read_page p w = (false, bs, w') ∧ db_file w' = Some c ∧
    (∀ q, (read_page q w').1.1 = false) ∧
    (∀ q data, (write_page q data w').1 = false ∧ db_file (write_page q data w').2 = Some c).
Proof. apply short_read_aux. Qed.

(** ** Witnesses: the database named "t" on an empty file system *)

Definition fs_empty : FS := {| fs_files := ∅; fs_denied := ∅ |}.
Definition base_t : list Z := [116].
Definition zeros_page : bytes := replicate (Z.to_nat PAGE_SIZE) 0.
Definition zeros_meta : bytes := replicate 512 0.
Definition disk_t : Disk :=
  match DiskManager_new zeros_page zeros_meta base_t true fs_empty with
  | Ok w => w
  | Err _ => mkDisk (DM_init zeros_page base_t) fs_empty
  end.

Lemma base_t_nonzero : Forall (λ c, c ≠ 0) base_t.
Proof. by repeat constructor. Qed.

Lemma fs_empty_fresh n : fs_files fs_empty !! n = None ∧ n ∉ fs_denied fs_empty.
Proof. split; [apply lookup_empty|apply not_elem_of_empty]. Qed.

Lemma disk_t_ok :
  restartable disk_t base_t ∧ alloced_pgid_ (dm disk_t) = [0] ∧ max_ava_pgid_ (dm disk_t) = 100.
Proof.
  unfold disk_t.
  destruct (from_scratch_ok zeros_page zeros_meta base_t fs_empty) as (w&->&?&?&_&?);
    [done|done|apply base_t_nonzero|done|intros; apply fs_empty_fresh|done].
Qed.

Lemma create_correct_witness :
  ∃ w, DiskManager_new zeros_page zeros_meta base_t true fs_empty = Ok w ∧ restartable w base_t ∧
    alloced_pgid_ (dm w) = [0] ∧ catalog_page_id_ (dm w) = 0 ∧ max_ava_pgid_ (dm w) = 100.
Proof.
  apply (create_correct zeros_page zeros_meta base_t fs_empty);
    [reflexivity|reflexivity|apply base_t_nonzero|vm_compute; discriminate|
     intros n _; apply fs_empty_fresh].
Defined.

Lemma alloc_page_correct_witness :
  ∃ id w' bs, alloc_page STATUS_EXIST disk_t = Ok (id, w') ∧ disk_ok w' ∧
    is_allocated (dm disk_t) id = false ∧ (∀ p, 0 ≤ p < id → is_allocated (dm disk_t) p = true) ∧
    alloced_pgid_ (dm w') = oset_insert id (alloced_pgid_ (dm disk_t)) ∧
    disk_page w' id = Ok bs ∧ bs !! O = Some STATUS_EXIST ∧
    (∀ p, p ∈ alloced_pgid_ (dm disk_t) → disk_page w' p = disk_page disk_t p).
Proof.
  apply (alloc_page_correct STATUS_EXIST disk_t);
    [apply (rs_ok _ _ (proj1 disk_t_ok))|rewrite (proj2 (proj2 disk_t_ok)); vm_compute; discriminate].
Defined.

Lemma free_page_correct_witness :
  ∃ w', free_page 0 disk_t = Ok (true, w') ∧ disk_ok w' ∧
    is_free (dm w') 0 = true ∧ alloced_pgid_ (dm w') = oset_erase 0 (alloced_pgid_ (dm disk_t)) ∧
    disk_status w' 0 = Ok STATUS_FREE ∧
    (∀ q, q ∈ alloced_pgid_ (dm disk_t) → q ≠ 0 → disk_page w' q = disk_page disk_t q).
Proof.
  apply (free_page_correct 0 disk_t);
    [apply (rs_ok _ _ (proj1 disk_t_ok))|
     rewrite (proj1 (proj2 disk_t_ok)); apply list_elem_of_singleton; reflexivity|reflexivity].
Defined.

Lemma restart_roundtrip_witness :
  ∃ w1 w2, shutdown disk_t = Ok w1 ∧ from_mtd (mkDisk (DM_init zeros_page base_t) (fs w1)) = Ok w2 ∧
    disk_ok w2 ∧ status_ (dm w2) = true ∧ db_file w2 = db_file disk_t ∧
    alloced_pgid_ (dm w2) = alloced_pgid_ (dm disk_t) ∧ free_pgid_ (dm w2) = free_pgid_ (dm disk_t) ∧
    max_ava_pgid_ (dm w2) = max_ava_pgid_ (dm disk_t) ∧
    max_alloced_pgid_ (dm w2) = max_alloced_pgid_ (dm disk_t) ∧
    catalog_page_id_ (dm w2) = catalog_page_id_ (dm disk_t).
Proof.
  apply (restart_roundtrip disk_t base_t zeros_page); [apply (proj1 disk_t_ok)|reflexivity].
Defined.

Lemma short_read_sticky_witness :
  ∃ c bs w', db_file disk_t = Some c ∧ read_page 7 disk_t = (false, bs, w') ∧ db_file w' = Some c ∧
    (∀ q, (read_page q w').1.1 = false) ∧
    (∀ q data, (write_page q data w').1 = false ∧ db_file (write_page q data w').2 = Some c).
Proof.
  destruct (db_file disk_t) as [c|] eqn:E; [|exfalso; revert E; vm_compute; discriminate].
  destruct (short_read_sticky disk_t c 7 E) as (bs&w'&H);
    [lia|pose proof (rs_len _ _ (proj1 disk_t_ok) c E) as Hl|exists c, bs, w'; split; [reflexivity|exact H]].
  assert (db_file disk_t = Some (replicate 1 1 ++ replicate 4095 0)) as E' by (vm_compute; reflexivity).
  assert (c = replicate 1 1 ++ replicate 4095 0) as -> by congruence. vm_compute. reflexivity.
Defined.
