(* ===== verification/BufferPool.v ===== *)
(** The buffer pool manager ([src/buffer/buffer_pool_manager.cpp],
    [src/include/buffer/buffer_pool_manager.h]): a fixed array of frames, the map
    from page ids to frames, the list of free frames, a replacer and the disk
    manager. A [Page*] is the index of its frame, so that two pointers to one
    frame alias as they do in the program. The model runs one thread: the pool's
    own latch is kept as a flag (a second [w_lock] without an [unlock] blocks for
    ever), page latches are not modelled. *)
From S2P Require Import Prelude Config Replacer Page FileSys DiskManager.

Record BufferPoolManager (R : Type) := mkBPM {
  pages_ : list Page;
  pool_size_ : Z;
  available_threshold_page_ : Z;
  allocated_threshold_pages_ : Z;
  free_list_ : list Z;
  mapping_ : gmap Z Z;
  disk_manager_ : Disk;
  replacer_ : R;
  latch_ : bool;
}.
Arguments mkBPM {R}.
Arguments pages_ {R}. Arguments pool_size_ {R}. Arguments available_threshold_page_ {R}.
Arguments allocated_threshold_pages_ {R}. Arguments free_list_ {R}. Arguments mapping_ {R}.
Arguments disk_manager_ {R}. Arguments replacer_ {R}. Arguments latch_ {R}.

Section BufferPool.
Context {R : Type} `{RA : ReplacerAbstract R}.

Notation BPM := (BufferPoolManager R).
Implicit Types (b : BPM) (f : Z).

Definition upd_pages (v : list Page) b : BPM :=
  mkBPM v (pool_size_ b) (available_threshold_page_ b) (allocated_threshold_pages_ b)
    (free_list_ b) (mapping_ b) (disk_manager_ b) (replacer_ b) (latch_ b).
Definition upd_free (v : list Z) b : BPM :=
  mkBPM (pages_ b) (pool_size_ b) (available_threshold_page_ b) (allocated_threshold_pages_ b)
    v (mapping_ b) (disk_manager_ b) (replacer_ b) (latch_ b).
Definition upd_mapping (v : gmap Z Z) b : BPM :=
  mkBPM (pages_ b) (pool_size_ b) (available_threshold_page_ b) (allocated_threshold_pages_ b)
    (free_list_ b) v (disk_manager_ b) (replacer_ b) (latch_ b).
Definition upd_disk (v : Disk) b : BPM :=
  mkBPM (pages_ b) (pool_size_ b) (available_threshold_page_ b) (allocated_threshold_pages_ b)
    (free_list_ b) (mapping_ b) v (replacer_ b) (latch_ b).
Definition upd_replacer (v : R) b : BPM :=
  mkBPM (pages_ b) (pool_size_ b) (available_threshold_page_ b) (allocated_threshold_pages_ b)
    (free_list_ b) (mapping_ b) (disk_manager_ b) v (latch_ b).
Definition upd_latch (v : bool) b : BPM :=
  mkBPM (pages_ b) (pool_size_ b) (available_threshold_page_ b) (allocated_threshold_pages_ b)
    (free_list_ b) (mapping_ b) (disk_manager_ b) (replacer_ b) v.
Definition upd_allocated (v : Z) b : BPM :=
  mkBPM (pages_ b) (pool_size_ b) (available_threshold_page_ b) v
    (free_list_ b) (mapping_ b) (disk_manager_ b) (replacer_ b) (latch_ b).

(** [pages_[f]] *)
Definition frame b f : res Page :=
  if 0 <=? f then of_opt OutOfBounds (pages_ b !! Z.to_nat f) else Err OutOfBounds.
Definition set_frame b f (p : Page) : BPM := upd_pages (<[Z.to_nat f := p]> (pages_ b)) b.

(** [latch_.w_lock()] and [latch_.r_lock()] from the only thread there is *)
Definition w_lock b : res BPM := if latch_ b then Err Blocked else Ok (upd_latch true b).
Definition w_unlock b : BPM := upd_latch false b.
Definition r_lock b : res BPM := if latch_ b then Err Blocked else Ok b.

Definition BufferPoolManager_new (disk_manager : Disk) (pool_size : Z) : BPM :=
  {| pages_ := replicate (Z.to_nat pool_size) Page_new; pool_size_ := pool_size;
     available_threshold_page_ := Z.quot pool_size 5 * 4; allocated_threshold_pages_ := 0;
     free_list_ := Z.of_nat <$> seq 0 (Z.to_nat pool_size); mapping_ := ∅;
     disk_manager_ := disk_manager; replacer_ := rep_new pool_size; latch_ := false |}.

(** [get_frame_id]: -1 when the page is not in the pool *)
Definition get_frame_id b (page_id : Z) : Z := default (-1) (mapping_ b !! page_id).

Definition evict_page (page_id f : Z) b : res BPM :=
  p ← frame b f;
  b ← w_lock b;
  match mapping_ b !! page_id with
  | None => Ok (w_unlock b)                        (* "evict fail" *)
  | Some _ =>
      p ← set_page_id p INVALID_PAGE_ID;
      let b := set_frame b f p in
      let b := upd_mapping (delete page_id (mapping_ b)) b in
      let b := upd_free (free_list_ b ++ [f]) b in
      let b := w_unlock b in
      if is_dirty_ p
      then Ok (upd_disk (write_page page_id (data_ p) (disk_manager_ b)).2 b)
      else Ok b
  end.

(** the loop that makes the free list non-empty; it is entered and left with the
    latch held *)
Fixpoint ensure_free (fuel : nat) b : res BPM :=
  match free_list_ b with
  | _ :: _ => Ok b
  | [] =>
      match fuel with
      | O => Err OutOfFuel
      | S fuel =>
          let b := w_unlock b in
          let* (f, r) := rep_victim (replacer_ b) in
          let b := upd_replacer r b in
          p ← frame b f;
          b ← evict_page (page_id_ p) f b;
          b ← w_lock b;
          ensure_free fuel b
      end
  end.

(** every turn takes a frame out of the replacer, so this many turns suffice *)
Definition ensure_fuel b : nat := S (length (pages_ b)).

(** [new_page()] and [new_tmp_page()] are [alloc_page] with either flag *)
Definition alloc_page (flag : Z) b : res (Z * BPM) :=
  let* (page_id, d) := DiskManager.alloc_page flag (disk_manager_ b) in
  let b := upd_disk d b in
  b ← w_lock b;
  b ← ensure_free (ensure_fuel b) b;
  match free_list_ b with
  | [] => Err OutOfBounds
  | f :: rest =>
      let b := upd_free rest b in
      let b := upd_mapping (match mapping_ b !! page_id with
                            | Some _ => mapping_ b            (* insert keeps an old key *)
                            | None => <[page_id := f]> (mapping_ b)
                            end) b in
      let b := w_unlock b in
      p ← frame b f;
      let p := set_is_dirty p true in
      let p := add_pin_count (set_pin_count_zero p) in
      p ← set_lsn p (-1);
      p ← set_page_id p page_id;
      p ← set_status p;
      Ok (f, set_frame b f p)
  end.

Definition new_page : BPM → res (Z * BPM) := alloc_page STATUS_EXIST.
Definition new_tmp_page : BPM → res (Z * BPM) := alloc_page STATUS_TMP.

Definition unpin_page (page_id : Z) (dirty : bool) b : res BPM :=
  b ← w_lock b;
  match mapping_ b !! page_id with
  | None => Ok (w_unlock b)
  | Some f =>
      p ← frame b f;
      let p := if dirty then set_is_dirty p dirty else p in
      let p := decrease_pin_count p in
      let b := set_frame b f p in
      if bool_decide (pin_count_ p > 0) then Ok (w_unlock b)
      else if bool_decide (pin_count_ p = 0) then
        r ← rep_unpin (replacer_ b) f;
        Ok (w_unlock (upd_replacer r b))
      else Ok (w_unlock b)
  end.

Definition flush_page (page_id : Z) b : res (bool * BPM) :=
  b ← r_lock b;
  let f := get_frame_id b page_id in
  if f =? -1 then Ok (false, b)
  else
    p ← frame b f;
    let '(ok, d) := write_page page_id (data_ p) (disk_manager_ b) in
    let b := upd_disk d b in
    if ok then Ok (true, set_frame b f (set_is_dirty p false)) else Ok (false, b).

(** the iteration of [flush_all] over the entries of the map *)
Fixpoint flush_each (ids : list Z) (ok : bool) b : res (bool * BPM) :=
  match ids with
  | [] => Ok (ok, b)
  | id :: ids =>
      let* (ok', b) := flush_page id b in
      flush_each ids (if ok' then ok else false) b
  end.
Definition flush_all b : res (bool * BPM) :=
  b ← r_lock b; flush_each (fst <$> map_to_list (mapping_ b)) true b.

(** [None] is the null pointer. A failed disk read returns without releasing the
    latch. *)
Definition get_page (page_id : Z) b : res (option Z * BPM) :=
  if bool_decide (page_id ≤ INVALID_PAGE_ID) then Ok (None, b)
  else
    b ← w_lock b;
    match mapping_ b !! page_id with
    | Some f =>
        p ← frame b f;
        let b := set_frame b f (add_pin_count p) in
        r ← rep_pin (replacer_ b) f;
        Ok (Some f, w_unlock (upd_replacer r b))
    | None =>
        b ← ensure_free (ensure_fuel b) b;
        match free_list_ b with
        | [] => Err OutOfBounds
        | f :: rest =>
            p ← frame b f;
            let '(ok, bs, d) := read_page page_id (disk_manager_ b) in
            let b := upd_disk d b in
            (* the bytes read land in the frame whether or not they are a page *)
            let p := set_data p (bs ++ drop (length bs) (data_ p)) in
            let b := set_frame b f p in
            if negb ok then Ok (None, b)
            else
              st ← rd8 (data_ p) STATUS_OFFSET;
              if bool_decide (st ≠ STATUS_EXIST) then Ok (None, w_unlock b)
              else
                let p := set_is_dirty p false in
                p ← set_page_id p page_id;
                p ← set_lsn p (-1);
                let p := add_pin_count (set_pin_count_zero p) in
                let b := set_frame b f p in
                let b := upd_mapping (<[page_id := f]> (mapping_ b)) b in
                let b := upd_free rest b in
                Ok (Some f, w_unlock b)
        end
    end.

Definition delete_page (page_id : Z) b : res (bool * BPM) :=
  b ← w_lock b;
  match mapping_ b !! page_id with
  | None =>
      let b := w_unlock b in
      let* (_, d) := free_page page_id (disk_manager_ b) in
      Ok (true, upd_disk d b)
  | Some f =>
      p ← frame b f;
      if bool_decide (pin_count_ p ≠ 0) then Ok (false, w_unlock b)
      else
        p ← set_page_id p INVALID_PAGE_ID;
        let b := set_frame b f p in
        let b := upd_free (free_list_ b ++ [f]) b in
        let b := upd_mapping (delete page_id (mapping_ b)) b in
        let b := w_unlock b in
        let* (_, d) := free_page page_id (disk_manager_ b) in
        Ok (true, upd_disk d b)
  end.

(** half of the pages reserved for executors; nothing else can return them while
    this thread waits *)
Definition get_threshold_page b : res Z :=
  let alloc_num := Z.quot (available_threshold_page_ b) 2 in
  b ← w_lock b;
  if bool_decide (alloc_num + allocated_threshold_pages_ b > available_threshold_page_ b)
  then Err Blocked else Ok alloc_num.
Definition return_threshold_page (ret_thre_page : Z) b : res BPM :=
  b ← w_lock b;
  Ok (w_unlock (upd_allocated (allocated_threshold_pages_ b - ret_thre_page) b)).

(** ** Invariant *)

(** the payload of a page as the pool presents it: from its frame when it has
    one, from disk otherwise *)
Definition view b (q : Z) : option bytes :=
  match mapping_ b !! q with
  | Some f => match frame b f with Ok p => Some (payload (data_ p)) | Err _ => None end
  | None => match disk_page (disk_manager_ b) q with Ok bs => Some (payload bs) | Err _ => None end
  end.

Definition alloced b : list Z := alloced_pgid_ (dm (disk_manager_ b)).

(** what holds of the frame [f] of a resident page [q]; a page that is unpinned
    and clean agrees with its disk copy *)
Record resident b (q f : Z) (p : Page) : Prop := {
  re_frame : frame b f = Ok p;
  re_id : page_id_ p = q;
  re_pin : 0 ≤ pin_count_ p;
  re_status : rd8 (data_ p) STATUS_OFFSET = Ok STATUS_EXIST;
  re_alloced : q ∈ alloced b;
  re_rep : rep_in (replacer_ b) (Z.to_nat f) ↔ pin_count_ p = 0;
  re_clean : pin_count_ p = 0 → is_dirty_ p = false →
    ∃ bs, disk_page (disk_manager_ b) q = Ok bs ∧ payload bs = payload (data_ p) ∧
      rd8 bs STATUS_OFFSET = Ok STATUS_EXIST;
}.

(** the pool's invariant; [x] is a page id whose disk copy need not be valid yet
    (one that is being allocated), -1 when there is none *)
Record bpm_okx (x : Z) b : Prop := {
  bo_latch : latch_ b = false;
  bo_pages : Forall page_ok (pages_ b);
  bo_rep : rep_wf (replacer_ b) (length (pages_ b));
  bo_free : ∀ f, f ∈ free_list_ b → 0 ≤ f < zlen (pages_ b) ∧ ∀ q, mapping_ b !! q ≠ Some f;
  bo_nodup : NoDup (free_list_ b);
  bo_map : ∀ q f, mapping_ b !! q = Some f → ∃ p, resident b q f p;
  bo_rep_in : ∀ i, rep_in (replacer_ b) i → ∃ q, mapping_ b !! q = Some (Z.of_nat i);
  bo_disk : disk_ok (disk_manager_ b);
  bo_unmapped : ∀ q, q ∈ alloced b → q ≠ x → mapping_ b !! q = None →
    ∃ bs, disk_page (disk_manager_ b) q = Ok bs ∧ rd8 bs STATUS_OFFSET = Ok STATUS_EXIST;
}.

Definition bpm_ok b : Prop := bpm_okx (-1) b.

(** there is a frame to be had: one is free or one is unpinned *)
Definition has_frame b : Prop := free_list_ b ≠ [] ∨ ∃ i, rep_in (replacer_ b) i.
(** the frames to be had *)
Definition avail b (g : Z) : Prop := g ∈ free_list_ b ∨ ∃ i, g = Z.of_nat i ∧ rep_in (replacer_ b) i.
Lemma avail_has_frame b g : avail b g → has_frame b.
Proof. intros [Hg|(i&->&Hi)]; [left|right; eauto]. intros E. rewrite E in Hg. by apply not_elem_of_nil in Hg. Qed.

(** ** Frames *)

Ltac bp := cbn [pages_ pool_size_ available_threshold_page_ allocated_threshold_pages_ free_list_
  mapping_ disk_manager_ replacer_ latch_ upd_pages upd_free upd_mapping upd_disk upd_replacer
  upd_latch upd_allocated set_frame w_unlock].

Lemma frame_Ok b f p : frame b f = Ok p ↔ 0 ≤ f ∧ pages_ b !! Z.to_nat f = Some p.
Proof.
  unfold frame. destruct (Z.leb_spec 0 f); [|split; [done|lia]].
  rewrite of_opt_Ok. naive_solver lia.
Qed.

Lemma frame_set_eq b f p : 0 ≤ f < zlen (pages_ b) → frame (set_frame b f p) f = Ok p.
Proof.
  intros ?. apply frame_Ok. bp. split; [lia|]. unfold zlen in *.
  apply list_lookup_insert_eq. lia.
Qed.

Lemma frame_set_ne b f g p : f ≠ g → 0 ≤ f → frame (set_frame b f p) g = frame b g.
Proof.
  intros. unfold frame. destruct (Z.leb_spec 0 g); [|done]. bp.
  rewrite list_lookup_insert_ne by lia. done.
Qed.

Lemma frame_lt b f p : frame b f = Ok p → 0 ≤ f < zlen (pages_ b).
Proof. intros [? H]%frame_Ok. apply lookup_lt_Some in H. unfold zlen. lia. Qed.

Lemma frame_ex b f : 0 ≤ f < zlen (pages_ b) → ∃ p, frame b f = Ok p.
Proof.
  intros ?. destruct (lookup_lt_is_Some_2 (pages_ b) (Z.to_nat f)) as [p Hp]; [unfold zlen in *; lia|].
  exists p. apply frame_Ok. split; [lia|done].
Qed.

Lemma frame_page_ok b f p : Forall page_ok (pages_ b) → frame b f = Ok p → page_ok p.
Proof. intros Hf [_ H]%frame_Ok. by eapply Forall_lookup_1 in Hf. Qed.

Lemma mapping_inj x b q q' f :
  bpm_okx x b → mapping_ b !! q = Some f → mapping_ b !! q' = Some f → q = q'.
Proof.
  intros Hok [p Hp]%(bo_map _ _ Hok) [p' Hp']%(bo_map _ _ Hok).
  pose proof (re_frame _ _ _ _ Hp). pose proof (re_frame _ _ _ _ Hp').
  pose proof (re_id _ _ _ _ Hp). pose proof (re_id _ _ _ _ Hp'). congruence.
Qed.

Lemma upd_latch_id b : latch_ b = false → w_unlock (upd_latch true b) = b.
Proof. destruct b; cbn. by intros ->. Qed.

(** ** The disk below *)

Lemma write_page_disk q bs (w : Disk) :
  disk_ok w → q ∈ alloced_pgid_ (dm w) → zlen bs = PAGE_SIZE →
  ∃ w', write_page q bs w = (true, w') ∧ disk_ok w' ∧ dm w' = dm w ∧ disk_page w' q = Ok bs ∧
    ∀ p, p ∈ alloced_pgid_ (dm w) → p ≠ q → disk_page w' p = disk_page w p.
Proof.
  intros Hok Hq Hbs. destruct (do_file _ Hok) as (c&Hc&Hmod&Hin).
  pose proof (proj1 (do_part _ Hok q) (or_intror Hq)) as Hr.
  destruct (write_page_ok w c q bs (do_nofail _ Hok) Hc) as (w'&Hw&Hdm&Hc'); [lia|].
  destruct (file_write_pages c q bs) as (?&?&?); [lia|done..|].
  exists w'. split; [done|]. split_and!; [|done| |].
  - destruct Hok as [? _ ???????]. constructor; rewrite ?Hdm; try done.
    eexists. split; [done|]. split; [done|]. intros p Hp. apply Hin in Hp. lia.
  - unfold disk_page. rewrite Hc'. apply page_read_write; [lia|done].
  - intros p Hp Hne. unfold disk_page. rewrite Hc', Hc.
    pose proof (proj1 (do_part _ Hok p) (or_intror Hp)). pose proof (Hin _ Hp).
    replace (q * PAGE_SIZE) with (q * PAGE_SIZE + 0) by lia.
    apply page_read_write_ne; [done|lia..|]. lia.
Qed.

(** ** Eviction *)

(** [keeps b b']: no page changes its contents, no pinned page moves, no page id
    is allocated or freed *)
Record keeps b b' : Prop := {
  ke_alloced : alloced b' = alloced b;
  ke_view : ∀ q, q ∈ alloced b → view b' q = view b q;
  ke_pinned : ∀ q f p, mapping_ b !! q = Some f → frame b f = Ok p → 0 < pin_count_ p →
    mapping_ b' !! q = Some f ∧ frame b' f = Ok p;
  ke_unmapped : ∀ q, mapping_ b !! q = None → mapping_ b' !! q = None;
  ke_disk : ∀ q f p, mapping_ b !! q = Some f → frame b f = Ok p → 0 < pin_count_ p →
    disk_page (disk_manager_ b') q = disk_page (disk_manager_ b) q;
  ke_avail : ∀ g, avail b g → avail b' g;
  ke_dm : dm (disk_manager_ b') = dm (disk_manager_ b);
}.

Lemma keeps_refl b : keeps b b.
Proof. constructor; done. Qed.

Lemma keeps_trans b1 b2 b3 : keeps b1 b2 → keeps b2 b3 → keeps b1 b3.
Proof.
  intros [A1 V1 P1 U1 D1 G1 M1] [A2 V2 P2 U2 D2 G2 M2]. constructor; [| | |by auto| |by auto|congruence].
  - congruence.
  - intros q Hq. rewrite V2 by (by rewrite A1). by apply V1.
  - intros q f p Hm Hf Hp. destruct (P1 _ _ _ Hm Hf Hp) as [? ?]. by eapply P2.
  - intros q f p Hm Hf Hp. destruct (P1 _ _ _ Hm Hf Hp) as [? ?]. by rewrite (D2 q f p), (D1 q f p).
Qed.

Lemma evict_page_ok x b q f p r :
  bpm_okx x b → mapping_ b !! q = Some f → frame b f = Ok p → pin_count_ p = 0 →
  rep_wf r (length (pages_ b)) →
  (∀ j, rep_in r j ↔ rep_in (replacer_ b) j ∧ j ≠ Z.to_nat f) →
  ∃ b', evict_page q f (upd_replacer r b) = Ok b' ∧ bpm_okx x b' ∧ keeps b b' ∧
    free_list_ b' = free_list_ b ++ [f] ∧ length (pages_ b') = length (pages_ b).
Proof.
  intros Hok Hm Hf Hpin Hrw Hri. pose proof (bo_map _ _ Hok _ _ Hm) as [p0 Hres].
  assert (p0 = p) as -> by (pose proof (re_frame _ _ _ _ Hres); congruence).
  pose proof (frame_lt _ _ _ Hf) as Hlt. pose proof (frame_page_ok _ _ _ (bo_pages _ _ Hok) Hf) as Hpo.
  destruct (set_page_id_ok p INVALID_PAGE_ID Hpo) as (p'&Hp'&Hpo'&_&_&Hd'&Hpl'&Hst').
  unfold evict_page. change (frame (upd_replacer r b) f) with (frame b f). rewrite Hf.
  cbn [mbind res_bind]. unfold w_lock. bp. rewrite (bo_latch _ _ Hok). cbn [mbind res_bind]. bp.
  rewrite Hm, Hp'. cbn [mbind res_bind]. rewrite Hd'.
  set (b0 := w_unlock _).
  assert (∀ g, g ≠ f → frame b0 g = frame b g) as Hfr.
  { intros g Hg. apply (frame_set_ne b f g p'); [done|lia]. }
  assert (∃ d', (if is_dirty_ p then Ok (upd_disk (write_page q (data_ p') (disk_manager_ b)).2 b0)
            else Ok b0) = Ok (upd_disk d' b0) ∧ disk_ok d' ∧ dm d' = dm (disk_manager_ b) ∧
      (∀ q', q' ∈ alloced b → q' ≠ q → disk_page d' q' = disk_page (disk_manager_ b) q') ∧
      ∃ bs, disk_page d' q = Ok bs ∧ payload bs = payload (data_ p) ∧ rd8 bs STATUS_OFFSET = Ok STATUS_EXIST)
    as (d'&->&Hdok&Hdm&Hdne&bs&Hbs&Hbpl&Hbst).
  { destruct (is_dirty_ p) eqn:Hdirty.
    - destruct (write_page_disk q (data_ p') (disk_manager_ b)) as (d'&Hw&?&?&?&?);
        [apply Hok|apply Hres|done|].
      exists d'. rewrite Hw.
      split_and!; [done..|]. exists (data_ p'). split_and!; [done..|].
      rewrite Hst'. apply Hres.
    - exists (disk_manager_ b). split_and!; [by destruct b|apply Hok|done..|].
      by apply (re_clean _ _ _ _ Hres). }
  exists (upd_disk d' b0). split; [done|].
  assert (alloced (upd_disk d' b0) = alloced b) as Hal by (unfold alloced; bp; by rewrite Hdm).
  split_and!; [| |done|by unfold b0; bp; rewrite length_insert].
  - destruct Hok as [Hla Hpg Hrep Hfree Hnd Hmap Hrin Hdk Hun]. constructor; unfold b0; bp; fold b0.
    + done.
    + by apply Forall_insert.
    + by rewrite length_insert.
    + intros g [Hg| ->%list_elem_of_singleton]%elem_of_app; unfold zlen; rewrite length_insert.
      * destruct (Hfree g Hg) as [? Hno]. split; [done|]. intros q' Hq'.
        apply lookup_delete_Some in Hq' as [_ Hq']. by eapply Hno.
      * split; [done|]. intros q' [Hne Hq']%lookup_delete_Some. apply Hne.
        by eapply (mapping_inj x b).
    + apply NoDup_app. split_and!; [done| |apply NoDup_singleton].
      intros g Hg ->%list_elem_of_singleton. destruct (Hfree f Hg) as [_ Hno]. by apply (Hno q).
    + intros q' g [Hne Hq']%lookup_delete_Some. destruct (Hmap _ _ Hq') as [p1 [F I P S A Re C]].
      assert (g ≠ f) as Hgf. { intros ->. apply Hne. by eapply (mapping_inj x b). }
      exists p1. pose proof (frame_lt _ _ _ F). constructor; unfold b0; bp; fold b0; try done.
      * change (frame (upd_disk d' b0) g) with (frame b0 g). by rewrite Hfr.
      * by rewrite Hal.
      * rewrite Hri, Re. split; [tauto|]. intros; split; [done|lia].
      * intros H1 H2. destruct (C H1 H2) as (bs1&?&?&?). exists bs1. by rewrite Hdne by congruence.
    + intros i [Hi Hne]%Hri. destruct (Hrin i Hi) as [q' Hq'].
      exists q'. rewrite lookup_delete_ne; [done|]. intros <-. rewrite Hm in Hq'. simplify_eq. lia.
    + done.
    + intros q' Hq' Hx Hun'. rewrite Hal in Hq'.
      destruct (decide (q' = q)) as [->|Hne]; [by eauto|].
      rewrite Hdne by done. apply Hun; [done..|]. by rewrite lookup_delete_ne in Hun' by done.
  - constructor; [done| | | | | |done].
    + intros q' Hq'. unfold view. unfold b0; bp; fold b0. destruct (decide (q' = q)) as [->|Hne].
      * rewrite lookup_delete_eq, Hm, Hf, Hbs. by rewrite Hbpl.
      * rewrite lookup_delete_ne by done. destruct (mapping_ b !! q') as [g|] eqn:Hg.
        -- change (frame (upd_disk d' b0) g) with (frame b0 g). rewrite Hfr; [done|].
           intros ->. apply Hne. by eapply (mapping_inj x b).
        -- by rewrite Hdne.
    + intros q' g p1 Hq' Hg Hp1. assert (q' ≠ q) as Hne.
      { intros ->. rewrite Hm in Hq'. simplify_eq. rewrite Hf in Hg. simplify_eq. lia. }
      unfold b0; bp; fold b0. rewrite lookup_delete_ne by done. split; [done|].
      change (frame (upd_disk d' b0) g) with (frame b0 g). rewrite Hfr; [done|].
      intros ->. apply Hne. by eapply (mapping_inj x b).
    + intros q' Hq'. unfold b0; bp. apply lookup_delete_None. by right.
    + intros q' g p1 Hq' Hg Hp1. bp. destruct (bo_map _ _ Hok _ _ Hq') as [? Hr]. apply Hdne; [apply Hr|].
      intros ->. rewrite Hm in Hq'. simplify_eq. rewrite Hf in Hg. simplify_eq. lia.
    + unfold avail, b0. bp. intros g [Hg|(i&->&Hi)]; [left; apply elem_of_app; by left|].
      destruct (decide (i = Z.to_nat f)) as [->|Hne]; [left; rewrite Z2Nat.id by lia; apply elem_of_app; right; by left|].
      right. exists i. split; [done|]. by apply Hri.
Qed.

(** with a frame to be had, the loop ends after at most one eviction *)
Lemma ensure_free_ok x n b :
  bpm_okx x b → has_frame b →
  ∃ b', ensure_free (S n) (upd_latch true b) = Ok (upd_latch true b') ∧ bpm_okx x b' ∧ keeps b b' ∧
    free_list_ b' ≠ [] ∧ length (pages_ b') = length (pages_ b).
Proof.
  intros Hok Hhas. cbn [ensure_free].
  change (free_list_ (upd_latch true b)) with (free_list_ b).
  destruct (free_list_ b) as [|f0 l] eqn:Ef.
  - destruct Hhas as [?|[i Hi]]; [congruence|]. rewrite upd_latch_id by apply Hok.
    destruct (rep_victim_spec _ _ _ (bo_rep _ _ Hok) Hi) as (v&r&Hv&Hvlt&Hvin&Hrw&Hri). rewrite Hv.
    destruct (bo_rep_in _ _ Hok _ Hvin) as [q Hq]. destruct (bo_map _ _ Hok _ _ Hq) as [p Hres].
    change (frame (upd_replacer r b) (Z.of_nat v)) with (frame b (Z.of_nat v)).
    rewrite (re_frame _ _ _ _ Hres). cbn [mbind res_bind]. rewrite (re_id _ _ _ _ Hres).
    destruct (evict_page_ok x b q (Z.of_nat v) p r) as (b'&He&Hok'&Hk&Hfl&Hl);
      [done|done|apply Hres|apply (re_rep _ _ _ _ Hres); by rewrite Nat2Z.id|done|by rewrite Nat2Z.id|].
    rewrite He. cbn [mbind res_bind]. unfold w_lock. rewrite (bo_latch _ _ Hok'). cbn [mbind res_bind].
    exists b'. split; [|split_and!; [done..| |done]].
    + destruct n; cbn [ensure_free]; bp; rewrite Hfl, Ef; done.
    + rewrite Hfl, Ef. done.
  - exists b. rewrite Ef. split_and!; [done..|apply keeps_refl|done|done].
Qed.

(** ** Putting a page into a free frame *)

Lemma bpm_okx_weaken x b : bpm_ok b → bpm_okx x b.
Proof.
  intros [???????? Hun]. constructor; try done. intros q Hq _. apply Hun; [done|].
  intros ->. pose proof (proj1 (do_part _ bo_disk0 (-1)) (or_intror Hq)). lia.
Qed.

(** the pinned pages other than [x] stay where they are, and so do their disk copies *)
Definition pinned_stay (x : Z) b b' : Prop :=
  ∀ q f p, q ≠ x → mapping_ b !! q = Some f → frame b f = Ok p → 0 < pin_count_ p →
    mapping_ b' !! q = Some f ∧ frame b' f = Ok p ∧
    disk_page (disk_manager_ b') q = disk_page (disk_manager_ b) q.

Lemma install_ok q b f rest p :
  bpm_okx q b → free_list_ b = f :: rest → q ∈ alloced b → mapping_ b !! q = None →
  page_ok p → page_id_ p = q → pin_count_ p = 1 → rd8 (data_ p) STATUS_OFFSET = Ok STATUS_EXIST →
  let b' := upd_free rest (upd_mapping (<[q := f]> (mapping_ b)) (set_frame b f p)) in
  bpm_ok b' ∧ frame b' f = Ok p ∧ view b' q = Some (payload (data_ p)) ∧
  (∀ q', q' ∈ alloced b → q' ≠ q → view b' q' = view b q') ∧ pinned_stay q b b'.
Proof.
  intros Hok Hfl Hq Hmq Hpo Hid Hpin Hst b'.
  destruct (bo_free _ _ Hok f) as [Hlt Hnom]; [rewrite Hfl; by left|].
  assert (frame b' f = Ok p) as Hff by (apply (frame_set_eq b f p); done).
  assert (∀ g, g ≠ f → frame b' g = frame b g) as Hfne.
  { intros g Hg. apply (frame_set_ne b f g p); [done|lia]. }
  pose proof (bo_nodup _ _ Hok) as Hnd. rewrite Hfl in Hnd. apply NoDup_cons in Hnd as [Hnin Hnd].
  split_and!; [|done| | |].
  - destruct Hok as [Hla Hpg Hrep Hfree _ Hmap Hrin Hdk Hun]. constructor; unfold b'; bp; fold b'.
    + done.
    + by apply Forall_insert.
    + by rewrite length_insert.
    + intros g Hg. destruct (Hfree g) as [? Hno]; [rewrite Hfl; by right|]. unfold zlen.
      rewrite length_insert. split; [done|]. intros q'. rewrite lookup_insert.
      case_decide; [|apply Hno]. intros [= ->]. done.
    + done.
    + intros q' g. rewrite lookup_insert. case_decide as Hd.
      * intros [= <-]. subst q'. exists p. constructor; try done; [lia| |lia].
        unfold b'. bp. rewrite Hpin. split; [|lia]. intros Hi%Hrin. rewrite Z2Nat.id in Hi by lia.
        destruct Hi as [? Hi]. by apply Hnom in Hi.
      * intros Hg. destruct (Hmap _ _ Hg) as [p1 [F I P S A Re C]].
        exists p1. constructor; try done. rewrite Hfne; [done|]. intros ->. by apply Hnom in Hg.
    + intros i Hi. destruct (Hrin i Hi) as [q' Hq']. exists q'. rewrite lookup_insert_ne; [done|].
      intros <-. congruence.
    + done.
    + intros q' Hq' _. rewrite lookup_insert. case_decide; [done|]. intros. by apply Hun.
  - unfold view. unfold b' at 1. bp. by rewrite lookup_insert_eq, Hff.
  - intros q' Hq' Hne. unfold view. unfold b' at 1. bp. rewrite lookup_insert_ne by done.
    destruct (mapping_ b !! q') as [g|] eqn:Hg; [|done]. rewrite Hfne; [done|].
    intros ->. by apply Hnom in Hg.
  - intros q' g p1 Hne Hm Hf1 _. unfold b' at 1. bp. rewrite lookup_insert_ne by done. split; [done|].
    split; [|done]. rewrite Hfne; [done|]. intros ->. by apply Hnom in Hm.
Qed.

(** ** The operations *)

(** changing the frame of a resident page, and its place in the replacer, keeps
    the rest of the pool *)
Lemma update_resident b q f p p' r d :
  bpm_ok b → mapping_ b !! q = Some f → frame b f = Ok p →
  page_ok p' → page_id_ p' = q → 0 ≤ pin_count_ p' → rd8 (data_ p') STATUS_OFFSET = Ok STATUS_EXIST →
  rep_wf r (length (pages_ b)) →
  (∀ j, rep_in r j ↔ (j = Z.to_nat f ∧ pin_count_ p' = 0) ∨ (j ≠ Z.to_nat f ∧ rep_in (replacer_ b) j)) →
  disk_ok d → dm d = dm (disk_manager_ b) →
  (∀ q', q' ∈ alloced b → q' ≠ q → disk_page d q' = disk_page (disk_manager_ b) q') →
  (pin_count_ p' = 0 → is_dirty_ p' = false → ∃ bs, disk_page d q = Ok bs ∧
     payload bs = payload (data_ p') ∧ rd8 bs STATUS_OFFSET = Ok STATUS_EXIST) →
  let b' := upd_disk d (upd_replacer r (set_frame b f p')) in
  bpm_ok b' ∧ frame b' f = Ok p' ∧ view b' q = Some (payload (data_ p')) ∧
  (∀ q', q' ∈ alloced b → q' ≠ q → view b' q' = view b q') ∧ pinned_stay q b b' ∧
  alloced b' = alloced b.
Proof.
  intros Hok Hm Hf Hpo Hid Hpin Hst Hrw Hri Hdok Hdm Hdne Hcl b'.
  pose proof (frame_lt _ _ _ Hf) as Hlt.
  assert (frame b' f = Ok p') as Hff by (apply (frame_set_eq b f p'); done).
  assert (∀ g, g ≠ f → frame b' g = frame b g) as Hfne.
  { intros g Hg. apply (frame_set_ne b f g p'); [done|lia]. }
  assert (∀ q' g, mapping_ b !! q' = Some g → q' ≠ q → g ≠ f) as Hinj.
  { intros q' g Hg Hne ->. apply Hne. by eapply mapping_inj. }
  assert (alloced b' = alloced b) as Hal by (unfold alloced, b'; bp; by rewrite Hdm).
  split_and!; [|done| | | |done].
  - destruct Hok as [Hla Hpg Hrep Hfree Hnd Hmap Hrin Hdk Hun]. constructor; unfold b'; bp; fold b'.
    + done.
    + by apply Forall_insert.
    + by rewrite length_insert.
    + intros g Hg. unfold zlen. rewrite length_insert. by apply Hfree.
    + done.
    + intros q' g Hg. destruct (decide (q' = q)) as [->|Hne].
      * rewrite Hm in Hg. injection Hg as <-. exists p'. constructor; try done.
        -- rewrite Hal. by destruct (Hmap _ _ Hm) as [? [_ _ _ _ ? _ _]].
        -- unfold b'. bp. rewrite Hri. naive_solver.
      * pose proof (Hinj _ _ Hg Hne) as Hgf. destruct (Hmap _ _ Hg) as [p1 [F I P S A Re C]].
        pose proof (frame_lt _ _ _ F). exists p1. constructor; try done.
        -- by rewrite Hfne.
        -- by rewrite Hal.
        -- unfold b'. bp. rewrite Hri, <- Re.
           assert (Z.to_nat g ≠ Z.to_nat f) by lia. naive_solver.
        -- intros H1 H2. unfold b'. bp. rewrite Hdne by done. by apply C.
    + intros i [[-> _]|[_ Hi]]%Hri; [|by apply Hrin].
      exists q. by rewrite Z2Nat.id by lia.
    + done.
    + intros q' Hq' Hx Hnone. rewrite Hal in Hq'. rewrite Hdne by (congruence || done). by apply Hun.
  - unfold view. unfold b' at 1. bp. by rewrite Hm, Hff.
  - intros q' Hq' Hne. unfold view. unfold b' at 1. bp.
    destruct (mapping_ b !! q') as [g|] eqn:Hg; [by rewrite Hfne by eauto|].
    unfold b'. bp. by rewrite Hdne.
  - intros q' g p1 Hne Hg Hf1 _. unfold b' at 1. bp. split; [done|]. split; [rewrite Hfne; [done|eauto]|].
    destruct (bo_map _ _ Hok _ _ Hg) as [? Hr]. apply Hdne; [apply Hr|done].
Qed.

(** a frame that is to be had and holds a page holds it unpinned *)
Lemma avail_unpinned b q f p : bpm_ok b → mapping_ b !! q = Some f → frame b f = Ok p → avail b f → pin_count_ p = 0.
Proof.
  intros Hok Hm Hf [Hav|(i&->&Hi)].
  - exfalso. by eapply (bo_free _ _ Hok f Hav).
  - destruct (bo_map _ _ Hok _ _ Hm) as [p' Hr]. pose proof (re_frame _ _ _ _ Hr) as Hf'. rewrite Hf in Hf'. injection Hf' as <-.
    apply (re_rep _ _ _ _ Hr). by rewrite Nat2Z.id.
Qed.

(** what a page just pinned in frame [f] brings along: only [f] is no longer to be had,
    and a page nobody else has pinned agrees with the disk unless it is dirty *)
Record access (q f : Z) b b' : Prop := {
  ac_avail : ∀ g, g ≠ f → avail b g → avail b' g;
  ac_clean : ∀ p, frame b' f = Ok p → pin_count_ p = 1 → is_dirty_ p = false →
    ∃ bs, disk_page (disk_manager_ b') q = Ok bs ∧ payload bs = payload (data_ p) ∧ rd8 bs STATUS_OFFSET = Ok STATUS_EXIST;
  ac_own : ∀ p, frame b' f = Ok p → avail b f → pin_count_ p = 1;
  ac_dm : dm (disk_manager_ b') = dm (disk_manager_ b);
  ac_hit : ∀ g p, mapping_ b !! q = Some g → frame b g = Ok p → g = f ∧ frame b' f = Ok (add_pin_count p);
  ac_hit_disk : mapping_ b !! q ≠ None → disk_manager_ b' = disk_manager_ b;
  ac_miss : ∀ p, mapping_ b !! q = None → frame b' f = Ok p → pin_count_ p = 1;
}.

Lemma get_page_ok q b :
  bpm_ok b → q ∈ alloced b → (mapping_ b !! q = None → has_frame b) →
  ∃ f b' p, get_page q b = Ok (Some f, b') ∧ bpm_ok b' ∧ mapping_ b' !! q = Some f ∧
    frame b' f = Ok p ∧ 0 < pin_count_ p ∧ Some (payload (data_ p)) = view b q ∧
    alloced b' = alloced b ∧ (∀ q', q' ∈ alloced b → view b' q' = view b q') ∧ pinned_stay q b b' ∧ access q f b b'.
Proof.
  intros Hok Hq Hhas. pose proof (proj1 (do_part _ (bo_disk _ _ Hok) q) (or_intror Hq)) as Hqr.
  unfold get_page. rewrite bool_decide_eq_false_2 by (cfg; lia).
  unfold w_lock. rewrite (bo_latch _ _ Hok). cbn [mbind res_bind]. bp.
  destruct (mapping_ b !! q) as [f|] eqn:Hm.
  - destruct (bo_map _ _ Hok _ _ Hm) as [p Hres]. pose proof Hres as [F I P S A Re C].
    change (frame (upd_latch true b) f) with (frame b f). rewrite F. cbn [mbind res_bind]. bp.
    pose proof (frame_lt _ _ _ F) as Hlt.
    destruct (rep_pin_spec _ _ (Z.to_nat f) (bo_rep _ _ Hok)) as (r&Hr&Hrw&Hri); [unfold zlen in *; lia|].
    rewrite Z2Nat.id in Hr by lia. rewrite Hr. cbn [mbind res_bind].
    pose proof (update_resident b q f p (add_pin_count p) r (disk_manager_ b) Hok Hm F) as H.
    cbv zeta in H. destruct H as (H1&H2&H3&H4&H5&H6); try done.
    + apply (frame_page_ok b f p); [apply Hok|done].
    + cbn. lia.
    + intros j. rewrite Hri. cbn. naive_solver lia.
    + apply Hok.
    + cbn. lia.
    + exists f, (upd_disk (disk_manager_ b) (upd_replacer r (set_frame b f (add_pin_count p)))), (add_pin_count p).
      split.
      { unfold set_frame, upd_disk, upd_replacer, w_unlock, upd_latch, upd_pages. bp.
        by rewrite (bo_latch _ _ Hok). }
      split_and!; try done.
      * cbn. lia.
      * unfold view. by rewrite Hm, F.
      * intros q' Hq'. destruct (decide (q' = q)) as [->|]; [|by apply H4].
        rewrite H3. unfold view. by rewrite Hm, F.
      * constructor.
        -- intros g Hg [?|(i&->&Hi)]; [by left|right]. exists i. split; [done|]. apply Hri. split; [done|lia].
        -- intros p1 Hp1 Hc Hd. rewrite H2 in Hp1. injection Hp1 as <-. apply C; [cbn in Hc; lia|done].
        -- intros p1 Hp1 Hav. rewrite H2 in Hp1. injection Hp1 as <-. cbn [pin_count_ add_pin_count set_pin_count].
           rewrite (avail_unpinned b q f p Hok Hm F Hav). lia.
        -- done.
        -- intros g p1 Hg Hp1. assert (g = f) as -> by congruence. assert (p1 = p) as -> by congruence. by split.
        -- done.
        -- intros p1 E. congruence.
  - specialize (Hhas eq_refl).
    destruct (ensure_free_ok (-1) (length (pages_ b)) b Hok Hhas) as (b1&He&Hok1&Hk&Hfl&Hlen).
    unfold ensure_fuel. change (pages_ (upd_latch true b)) with (pages_ b). rewrite He.
    cbn [mbind res_bind]. change (free_list_ (upd_latch true b1)) with (free_list_ b1).
    destruct (free_list_ b1) as [|f rest] eqn:Ef; [done|].
    destruct (bo_free _ _ Hok1 f) as [Hlt Hnom]; [rewrite Ef; by left|].
    destruct (frame_ex b1 f Hlt) as [p0 Hp0].
    change (frame (upd_latch true b1) f) with (frame b1 f). rewrite Hp0. cbn [mbind res_bind].
    change (disk_manager_ (upd_latch true b1)) with (disk_manager_ b1).
    assert (q ∈ alloced b1) as Hq1 by (by rewrite (ke_alloced _ _ Hk)).
    assert (mapping_ b1 !! q = None) as Hm1 by (eapply ke_unmapped; done).
    destruct (bo_unmapped _ _ Hok1 q Hq1) as (bs&Hbs&Hst); [lia|done|].
    destruct (do_file _ (bo_disk _ _ Hok1)) as (c&Hc&_). unfold disk_page in Hbs. rewrite Hc in Hbs.
    rewrite (read_page_ok _ c q bs (do_nofail _ (bo_disk _ _ Hok1)) Hc Hbs).
    assert (zlen bs = PAGE_SIZE) as Hz by (by eapply mem_read_zlen).
    pose proof (frame_page_ok _ _ _ (bo_pages _ _ Hok1) Hp0) as Hpo0. unfold page_ok in Hpo0.
    rewrite drop_ge by (unfold zlen in *; lia). rewrite app_nil_r. cbn [negb data_ set_data].
    rewrite Hst. cbn [mbind res_bind]. rewrite bool_decide_eq_false_2 by naive_solver.
    destruct (set_page_id_ok (set_is_dirty (set_data p0 bs) false) q) as (p1&Hp1&Ho1&Hi1&_&_&Hpl1&Hs1); [done|].
    rewrite Hp1. cbn [mbind res_bind].
    destruct (set_lsn_ok p1 (-1)) as (p2&Hp2&Ho2&Hi2&_&_&Hpl2&Hs2); [done|].
    rewrite Hp2. cbn [mbind res_bind]. set (p3 := add_pin_count (set_pin_count_zero p2)).
    destruct (install_ok q b1 f rest p3) as (H1&H2&H3&H4&H5); try done.
    { by apply bpm_okx_weaken. }
    { change (page_id_ p2 = q). congruence. }
    { change (data_ p3) with (data_ p2). rewrite Hs2, Hs1. done. }
    exists f, (upd_free rest (upd_mapping (<[q := f]> (mapping_ b1)) (set_frame b1 f p3))), p3. split.
    { do 2 f_equal. unfold set_frame, upd_disk, upd_free, upd_mapping, w_unlock, upd_latch, upd_pages. bp.
      by rewrite (bo_latch _ _ Hok1), !list_insert_insert_eq. }
    assert (Some (payload (data_ p3)) = view b q) as Hv.
    { rewrite <- (ke_view _ _ Hk) by done. unfold view, disk_page. rewrite Hm1, Hc, Hbs.
      change (data_ p3) with (data_ p2). by rewrite Hpl2, Hpl1. }
    split_and!; try done.
    + bp. apply lookup_insert_eq.
    + apply (ke_alloced _ _ Hk).
    + intros q' Hq'. destruct (decide (q' = q)) as [->|]; [congruence|].
      rewrite H4; [by apply (ke_view _ _ Hk)|by rewrite (ke_alloced _ _ Hk)|done].
    + intros q' g p' Hne Hg Hf' Hpin. destruct (ke_pinned _ _ Hk _ _ _ Hg Hf' Hpin) as [K1 K2].
      destruct (H5 q' g p' Hne K1 K2 Hpin) as (?&?&Hd5). split_and!; [done..|]. rewrite Hd5. by apply (ke_disk _ _ Hk q' g p').
    + constructor.
      * intros g Hg Ha. apply (ke_avail _ _ Hk) in Ha. destruct Ha as [Ha|Ha]; [left|by right].
        rewrite Ef in Ha. by apply elem_of_cons in Ha as [?|?].
      * intros p4 Hp4 _ _. rewrite H2 in Hp4. injection Hp4 as <-. exists bs.
        unfold disk_page. bp. rewrite Hc. change (data_ p3) with (data_ p2). by rewrite Hpl2, Hpl1.
      * intros p4 Hp4 _. rewrite H2 in Hp4. by injection Hp4 as <-.
      * apply (ke_dm _ _ Hk).
      * intros g p4 Hg. congruence.
      * done.
      * intros p4 _ Hp4. rewrite H2 in Hp4. by injection Hp4 as <-.
Qed.

Lemma unpin_page_ok q dirty b f p :
  bpm_ok b → mapping_ b !! q = Some f → frame b f = Ok p → 0 < pin_count_ p →
  (pin_count_ p = 1 → dirty = false → is_dirty_ p = false →
     ∃ bs, disk_page (disk_manager_ b) q = Ok bs ∧ payload bs = payload (data_ p) ∧
       rd8 bs STATUS_OFFSET = Ok STATUS_EXIST) →
  ∃ b' p', unpin_page q dirty b = Ok b' ∧ bpm_ok b' ∧ alloced b' = alloced b ∧
    mapping_ b' !! q = Some f ∧ frame b' f = Ok p' ∧ pin_count_ p' = pin_count_ p - 1 ∧
    (pin_count_ p = 1 → has_frame b') ∧ (has_frame b → has_frame b') ∧
    (∀ q', q' ∈ alloced b → view b' q' = view b q') ∧ pinned_stay q b b' ∧
    (∀ g, avail b g ∨ (g = f ∧ pin_count_ p = 1) → avail b' g) ∧ dm (disk_manager_ b') = dm (disk_manager_ b).
Proof.
  intros Hok Hm Hf Hpin Hcl. destruct (bo_map _ _ Hok _ _ Hm) as [p_ Hres].
  assert (p_ = p) as -> by (pose proof (re_frame _ _ _ _ Hres); congruence).
  destruct Hres as [F I P S A Re C].
  unfold unpin_page, w_lock. rewrite (bo_latch _ _ Hok). cbn [mbind res_bind]. bp. rewrite Hm.
  change (frame (upd_latch true b) f) with (frame b f). rewrite F. cbn [mbind res_bind].
  cbv zeta. set (p' := decrease_pin_count (if dirty then set_is_dirty p dirty else p)).
  assert (pin_count_ p' = pin_count_ p - 1) as Hp' by (by destruct dirty).
  assert (data_ p' = data_ p) as Hd' by (by destruct dirty).
  pose proof (frame_lt _ _ _ F) as Hlt.
  assert (∃ r, (if bool_decide (pin_count_ p' > 0) then Ok (w_unlock (set_frame (upd_latch true b) f p'))
     else if bool_decide (pin_count_ p' = 0) then
       r ← rep_unpin (replacer_ (set_frame (upd_latch true b) f p')) f;
       Ok (w_unlock (upd_replacer r (set_frame (upd_latch true b) f p')))
     else Ok (w_unlock (set_frame (upd_latch true b) f p'))) =
       Ok (upd_disk (disk_manager_ b) (upd_replacer r (set_frame b f p'))) ∧
     rep_wf r (length (pages_ b)) ∧
     ∀ j, rep_in r j ↔ (j = Z.to_nat f ∧ pin_count_ p' = 0) ∨ (j ≠ Z.to_nat f ∧ rep_in (replacer_ b) j))
    as (r&Hr&Hrw&Hri).
  { assert (∀ r, w_unlock (upd_replacer r (set_frame (upd_latch true b) f p')) =
      upd_disk (disk_manager_ b) (upd_replacer r (set_frame b f p'))) as Heq.
    { intros r. unfold set_frame, upd_disk, upd_replacer, w_unlock, upd_latch, upd_pages. bp.
      by rewrite (bo_latch _ _ Hok). }
    case_bool_decide.
    - exists (replacer_ b). split; [by rewrite <- Heq|]. split; [apply Hok|]. intros j.
      destruct (decide (j = Z.to_nat f)) as [->|]; [rewrite Re|]; intuition lia.
    - rewrite bool_decide_eq_true_2 by lia.
      destruct (rep_unpin_spec _ _ (Z.to_nat f) (bo_rep _ _ Hok)) as (r&Hr&Hrw&Hri); [unfold zlen in *; lia|].
      rewrite Z2Nat.id in Hr by lia. bp. rewrite Hr. cbn [mbind res_bind]. exists r.
      split; [by rewrite <- Heq|]. split; [done|]. intros j. rewrite Hri.
      destruct (decide (j = Z.to_nat f)) as [->|]; intuition lia. }
  exists (upd_disk (disk_manager_ b) (upd_replacer r (set_frame b f p'))), p'. split; [exact Hr|].
  pose proof (update_resident b q f p p' r (disk_manager_ b) Hok Hm F) as H.
  cbv zeta in H. destruct H as (H1&H2&H3&H4&H5&H6); try done; try lia.
  { unfold page_ok. rewrite Hd'. by apply (frame_page_ok b f p); [apply Hok|]. }
  { by destruct dirty. }
  { by rewrite Hd'. }
  { apply Hok. }
  { intros Hz Hc. rewrite Hd'. apply Hcl; [lia|by destruct dirty..]. }
  split_and!; try done.
  - intros H. right. exists (Z.to_nat f). apply Hri. left. split; [done|lia].
  - intros [Hfl|[i Hi]]; [by left|]. right. exists i. apply Hri. right. split; [|done].
    intros ->. apply Re in Hi. lia.
  - intros q' Hq'. destruct (decide (q' = q)) as [->|]; [|by apply H4].
    rewrite H3. unfold view. by rewrite Hm, F, Hd'.
  - intros g [[Hg|(i&->&Hi)]|[-> H]]; [by left|right..].
    + exists i. split; [done|]. apply Hri. right. split; [|done]. intros ->. apply Re in Hi. lia.
    + exists (Z.to_nat f). split; [lia|]. apply Hri. left. split; [done|lia].
Qed.

(** a client replacing the bytes of a pinned page, except the status byte *)
Lemma put_data_ok q f p d b :
  bpm_ok b → mapping_ b !! q = Some f → frame b f = Ok p → 0 < pin_count_ p →
  zlen d = PAGE_SIZE → rd8 d STATUS_OFFSET = rd8 (data_ p) STATUS_OFFSET →
  let b' := set_frame b f (set_data p d) in
  bpm_ok b' ∧ frame b' f = Ok (set_data p d) ∧ view b' q = Some (payload d) ∧
  (∀ q', q' ∈ alloced b → q' ≠ q → view b' q' = view b q') ∧ pinned_stay q b b'.
Proof.
  intros Hok Hm Hf Hpin Hl Hst b'. destruct (bo_map _ _ Hok _ _ Hm) as [p_ Hres].
  assert (p_ = p) as -> by (pose proof (re_frame _ _ _ _ Hres); congruence).
  destruct Hres as [F I P S A Re C].
  pose proof (update_resident b q f p (set_data p d) (replacer_ b) (disk_manager_ b) Hok Hm F) as H.
  cbv zeta in H. destruct H as (H1&H2&H3&H4&H5&H6); try done; try (by apply Hok).
  - cbn [data_ set_data]. congruence.
  - intros j. cbn [pin_count_ set_data]. destruct (decide (j = Z.to_nat f)) as [->|]; [rewrite Re|]; intuition lia.
  - cbn [pin_count_ set_data]. lia.
Qed.

(** a client writing through the pointer to a pinned page, past the header *)
Definition write_frame f (off : Z) (bs : bytes) b : res BPM :=
  p ← frame b f;
  d ← mem_write (data_ p) off bs;
  Ok (set_frame b f (set_data p d)).

Lemma write_frame_ok q f p off bs b :
  bpm_ok b → mapping_ b !! q = Some f → frame b f = Ok p → 0 < pin_count_ p →
  HEADER_USED ≤ off → off + zlen bs ≤ PAGE_SIZE →
  ∃ b' d, write_frame f off bs b = Ok b' ∧ mem_write (data_ p) off bs = Ok d ∧ bpm_ok b' ∧
    frame b' f = Ok (set_data p d) ∧ mapping_ b' = mapping_ b ∧ alloced b' = alloced b ∧
    view b' q = Some (payload d) ∧ (has_frame b → has_frame b') ∧
    (∀ q', q' ∈ alloced b → q' ≠ q → view b' q' = view b q') ∧ pinned_stay q b b' ∧
    (∀ g, avail b g → avail b' g).
Proof.
  intros Hok Hm Hf Hpin Ho He. destruct (bo_map _ _ Hok _ _ Hm) as [p_ Hres].
  assert (p_ = p) as -> by (pose proof (re_frame _ _ _ _ Hres); congruence).
  destruct Hres as [F I P S A Re C].
  pose proof (frame_page_ok _ _ _ (bo_pages _ _ Hok) Hf) as Hpo. unfold page_ok in Hpo.
  assert (HEADER_USED = 9) as Hh by done. rewrite Hh in Ho.
  destruct (mem_write_ex (data_ p) off bs) as (d&W&L&_&D); [lia|lia|].
  unfold write_frame. rewrite Hf. cbn [mbind res_bind]. rewrite W. cbn [mbind res_bind].
  exists (set_frame b f (set_data p d)), d.
  pose proof (update_resident b q f p (set_data p d) (replacer_ b) (disk_manager_ b) Hok Hm F) as H.
  cbv zeta in H. destruct H as (H1&H2&H3&H4&H5&H6); try done; try (by apply Hok).
  { unfold page_ok. cbn [data_ set_data]. lia. }
  { cbn [data_ set_data]. unfold rd8 in *. rewrite D; [done|]. cfg_lia. }
  { intros j. cbn [pin_count_ set_data]. destruct (decide (j = Z.to_nat f)) as [->|]; [rewrite Re|]; intuition lia. }
  { cbn [pin_count_ set_data]. lia. }
Qed.

Lemma flush_page_ok q f p b :
  bpm_ok b → mapping_ b !! q = Some f → frame b f = Ok p →
  ∃ b', flush_page q b = Ok (true, b') ∧ bpm_ok b' ∧ mapping_ b' = mapping_ b ∧ alloced b' = alloced b ∧
    frame b' f = Ok (set_is_dirty p false) ∧ disk_page (disk_manager_ b') q = Ok (data_ p) ∧
    (∀ q', q' ∈ alloced b → q' ≠ q → disk_page (disk_manager_ b') q' = disk_page (disk_manager_ b) q') ∧
    (∀ q', q' ∈ alloced b → view b' q' = view b q') ∧ pinned_stay q b b'.
Proof.
  intros Hok Hm Hf. destruct (bo_map _ _ Hok _ _ Hm) as [p_ Hres].
  assert (p_ = p) as -> by (pose proof (re_frame _ _ _ _ Hres); congruence).
  destruct Hres as [F I P S A Re C].
  pose proof (frame_page_ok _ _ _ (bo_pages _ _ Hok) Hf) as Hpo. unfold page_ok in Hpo.
  pose proof (frame_lt _ _ _ Hf) as Hlt.
  unfold flush_page, r_lock. rewrite (bo_latch _ _ Hok). cbn [mbind res_bind].
  unfold get_frame_id. rewrite Hm. change (default (-1) (Some f)) with f. rewrite (proj2 (Z.eqb_neq f (-1))) by lia.
  rewrite Hf. cbn [mbind res_bind].
  destruct (write_page_disk q (data_ p) (disk_manager_ b)) as (d&Hw&Hdok&Hdm&Hdq&Hdne); [apply Hok|done..|].
  rewrite Hw. exists (set_frame (upd_disk d b) f (set_is_dirty p false)). split; [done|].
  pose proof (update_resident b q f p (set_is_dirty p false) (replacer_ b) d Hok Hm F) as H.
  cbv zeta in H. destruct H as (H1&H2&H3&H4&H5&H6); try done; try (by apply Hok).
  { intros j. cbn [pin_count_ set_is_dirty]. destruct (decide (j = Z.to_nat f)) as [->|]; [rewrite Re|]; intuition lia. }
  { intros _ _. eauto. }
  split_and!; try done.
  intros q' Hq'. destruct (decide (q' = q)) as [->|]; [|by apply H4].
  etransitivity; [exact H3|]. unfold view. by rewrite Hm, F.
Qed.

(** what else flushing leaves as it was *)
Lemma flush_page_keeps q b b' ok : flush_page q b = Ok (ok, b') → bpm_ok b → q ∈ alloced b →
  dm (disk_manager_ b') = dm (disk_manager_ b) ∧ ∀ g, avail b g → avail b' g.
Proof.
  unfold flush_page, r_lock. intros H Hok Hq. rewrite (bo_latch _ _ Hok) in H. cbn [mbind res_bind] in H.
  destruct (get_frame_id b q =? -1); [by injection H as <- <-|]. destruct (frame b (get_frame_id b q)) as [p|] eqn:Hf; [|done]. cbn [mbind res_bind] in H.
  pose proof (frame_page_ok _ _ _ (bo_pages _ _ Hok) Hf) as Hpo.
  destruct (write_page_disk q (data_ p) (disk_manager_ b)) as (d&Hw&_&Hdm&_); [apply Hok|done|done|]. rewrite Hw in H. by injection H as <- <-.
Qed.

Lemma alloc_page_ok flag b :
  bpm_ok b → has_frame b → 2 * max_ava_pgid_ (dm (disk_manager_ b)) ≤ MAX_INT_PAGES →
  ∃ f b' p, alloc_page flag b = Ok (f, b') ∧ bpm_ok b' ∧ frame b' f = Ok p ∧
    mapping_ b' !! page_id_ p = Some f ∧ pin_count_ p = 1 ∧ is_dirty_ p = true ∧
    (page_id_ p ∉ alloced b) ∧ alloced b' = oset_insert (page_id_ p) (alloced b) ∧
    (∀ q, q ∈ alloced b → view b' q = view b q) ∧ pinned_stay (-1) b b' ∧
    (∀ g, g ≠ f → avail b g → avail b' g) ∧ max_ava_pgid_ (dm (disk_manager_ b')) ≤ 2 * max_ava_pgid_ (dm (disk_manager_ b)).
Proof.
  intros Hok Hhas Hbd. unfold alloc_page.
  destruct (DiskManager.alloc_page_aux flag (disk_manager_ b) (bo_disk _ _ Hok) Hbd)
    as (id&d&bs&Ha&Hdok&Hidr&Hnin&_&Hal&Hmx&_&_&Hdk&_&_).
  rewrite Ha. cbn [mbind res_bind].
  assert (mapping_ b !! id = None) as Hnone.
  { apply eq_None_not_Some. intros [g Hg]. destruct (bo_map _ _ Hok _ _ Hg) as [? Hr].
    by apply Hnin, Hr. }
  assert (alloced (upd_disk d b) = oset_insert id (alloced b)) as Hal' by done.
  assert (∀ q, q ∈ alloced b → q ∈ alloced (upd_disk d b)) as Hsub.
  { intros q Hq. rewrite Hal'. apply elem_of_oset_insert. by right. }
  assert (bpm_okx id (upd_disk d b)) as Hok0.
  { destruct Hok as [Hla Hpg Hrep Hfree Hnd Hmap Hrin Hdk' Hun]. constructor; try done.
    - intros q g Hg. destruct (Hmap _ _ Hg) as [p [F I P S A Re C]]. exists p. constructor; try done.
      + by apply Hsub.
      + intros H1 H2. destruct (C H1 H2) as (bs1&?&?&?). exists bs1. bp. by rewrite Hdk.
    - intros q Hq Hne Hno. rewrite Hal' in Hq. apply elem_of_oset_insert in Hq as [->|Hq]; [done|].
      bp. rewrite Hdk by done. apply Hun; [done| |done]. intros ->.
      pose proof (proj1 (do_part _ Hdk' (-1)) (or_intror Hq)). lia. }
  assert (∀ q, q ∈ alloced b → view (upd_disk d b) q = view b q) as Hv0.
  { intros q Hq. unfold view. bp. by rewrite Hdk. }
  assert (w_lock (upd_disk d b) = Ok (upd_latch true (upd_disk d b))) as ->.
  { unfold w_lock. bp. by rewrite (bo_latch _ _ Hok). }
  cbn [mbind res_bind].
  destruct (ensure_free_ok id (length (pages_ b)) (upd_disk d b) Hok0 Hhas) as (b1&He&Hok1&Hk&Hfl&Hlen).
  unfold ensure_fuel. change (pages_ (upd_latch true (upd_disk d b))) with (pages_ b). rewrite He.
  cbn [mbind res_bind]. change (free_list_ (upd_latch true b1)) with (free_list_ b1).
  destruct (free_list_ b1) as [|f rest] eqn:Ef; [done|].
  destruct (bo_free _ _ Hok1 f) as [Hlt Hnom]; [rewrite Ef; by left|].
  destruct (frame_ex b1 f Hlt) as [p0 Hp0]. cbv zeta. bp.
  rewrite (ke_unmapped _ _ Hk id Hnone). 
  match goal with |- context [frame ?x f] => set (b2 := x) end.
  change (frame b2 f) with (frame b1 f). rewrite Hp0. cbn [mbind res_bind].
  pose proof (frame_page_ok _ _ _ (bo_pages _ _ Hok1) Hp0) as Hpo0.
  destruct (set_lsn_ok (add_pin_count (set_pin_count_zero (set_is_dirty p0 true))) (-1))
    as (p1&Hp1&Ho1&_&Hc1&Hd1&_&_); [done|]. rewrite Hp1. cbn [mbind res_bind].
  destruct (set_page_id_ok p1 id) as (p2&Hp2&Ho2&Hi2&Hc2&Hd2&_&_); [done|]. rewrite Hp2. cbn [mbind res_bind].
  destruct (set_status_ok p2) as (p3&Hp3&Ho3&Hi3&Hc3&Hd3&_&Hs3); [done|]. rewrite Hp3. cbn [mbind res_bind].
  assert (page_id_ p3 = id) as Hid by congruence.
  assert (pin_count_ p3 = 1) as Hpin by (rewrite Hc3, Hc2, Hc1; done).
  pose proof (ke_alloced _ _ Hk) as Hal1.
  destruct (install_ok id b1 f rest p3) as (H1&H2&H3&H4&H5); try done.
  { rewrite Hal1, Hal'. apply elem_of_oset_insert. by left. }
  { by apply (ke_unmapped _ _ Hk). }
  exists f, (upd_free rest (upd_mapping (<[id := f]> (mapping_ b1)) (set_frame b1 f p3))), p3.
  rewrite Hid. split_and!; try done.
  - unfold b2, set_frame, upd_free, upd_mapping, w_unlock, upd_latch, upd_pages. bp.
    by rewrite (bo_latch _ _ Hok1).
  - bp. apply lookup_insert_eq.
  - rewrite Hd3, Hd2, Hd1. done.
  - exact (eq_trans Hal1 Hal').
  - intros q Hq. rewrite H4.
    + rewrite (ke_view _ _ Hk); [by apply Hv0|by apply Hsub].
    + rewrite Hal1. by apply Hsub.
    + intros ->. by apply Hnin.
  - intros q g p' Hne Hg Hf' Hp'. destruct (ke_pinned _ _ Hk q g p') as [G1 G2]; [done..|].
    destruct (H5 q g p') as (?&?&Hd5); [intros ->; congruence|done..|]. split_and!; [done..|].
    rewrite Hd5, (ke_disk _ _ Hk q g p') by done. bp. destruct (bo_map _ _ Hok _ _ Hg) as [? Hr]. apply Hdk, Hr.
  - intros g Hg Hav. assert (avail b1 g) as Ha1 by by apply (ke_avail _ _ Hk). destruct Ha1 as [Ha1|Ha1]; [left|by right].
    rewrite Ef in Ha1. by apply elem_of_cons in Ha1 as [?|?].
  - bp. rewrite (ke_dm _ _ Hk). apply Hmx.
Qed.

(** a fresh pool over a disk whose allocated pages are all readable *)
Lemma BufferPoolManager_new_ok d n :
  0 < n → disk_ok d →
  (∀ q, q ∈ alloced_pgid_ (dm d) →
     ∃ bs, disk_page d q = Ok bs ∧ rd8 bs STATUS_OFFSET = Ok STATUS_EXIST) →
  bpm_ok (BufferPoolManager_new d n).
Proof.
  intros Hn Hd Hall. destruct (rep_new_spec n Hn) as [Hwf Hin].
  constructor; unfold BufferPoolManager_new; bp; try done.
  - apply Forall_replicate. unfold page_ok, Page_new. cbn [data_]. unfold zlen. rewrite length_replicate. cfg_lia.
  - by rewrite length_replicate.
  - intros f (i&->&Hi)%list_elem_of_fmap. apply elem_of_seq in Hi. unfold zlen. rewrite length_replicate.
    split; [lia|]. intros q. by rewrite lookup_empty.
  - apply NoDup_fmap_2; [apply _|apply NoDup_seq].
  - intros i Hi. by apply Hin in Hi.
  - intros q Hq _ _. by apply Hall.
Qed.

End BufferPool.
