(* ===== verification/PoolClient.v ===== *)
(** What a client of the buffer pool relies on: it pins pages, reads and changes
    them through the frames it was given, and unpins them. A session from a pool
    [b0] records the pages held; when it ends with none held, every frame that
    could be had at the start can be had again. *)
From S2P Require Import Prelude Config Replacer Page FileSys DiskManager BufferPool.

(** a page held: its id, its frame, whether it was changed since it was pinned *)
Record hold := mkHold { h_page : Z; h_frame : Z; h_changed : bool }.

Section PoolClient.
Context {R : Type} `{RA : ReplacerAbstract R}.
Notation BPM := (BufferPoolManager R).
Implicit Types (b : BPM) (H : list hold).

(** ** Accesses through a frame *)

(** an access through a [Page*]; [None] is the null pointer *)
Definition deref (f : option Z) : res Z := of_opt NullDeref f.
Definition reads {A} (f : Z) (g : Page → res A) b : res A := p ← frame b f; g p.
Definition changes {A} (f : Z) (g : Page → res (A * Page)) b : res (A * BPM) :=
  p ← frame b f; let* (a, p) := g p in Ok (a, set_frame b f p).
Definition changes_ (f : Z) (g : Page → res Page) b : res BPM :=
  p ← frame b f; p ← g p; Ok (set_frame b f p).
Definition changes_data (f : Z) (g : bytes → res bytes) b : res BPM :=
  changes_ f (λ p, d ← g (data_ p); Ok (set_data p d)) b.

(** ** Sessions *)

Definition on_disk b (q : Z) (p : Page) : Prop :=
  ∃ bs, disk_page (disk_manager_ b) q = Ok bs ∧ payload bs = payload (data_ p) ∧ rd8 bs STATUS_OFFSET = Ok STATUS_EXIST.

Record held b0 b (h : hold) : Prop := {
  hd_map : mapping_ b !! h_page h = Some (h_frame h);
  hd_frame : ∃ p, frame b (h_frame h) = Ok p ∧ page_id_ p = h_page h ∧ 0 < pin_count_ p ∧
    (avail b0 (h_frame h) → pin_count_ p = 1) ∧
    (h_changed h = false → pin_count_ p = 1 → is_dirty_ p = false → on_disk b (h_page h) p);
}.

Record session b0 H b : Prop := {
  ss_ok : bpm_ok b;
  ss_avail : ∀ g, g ∉ h_frame <$> H → avail b0 g → avail b g;
  ss_pages : NoDup (h_page <$> H);
  ss_held : ∀ h, h ∈ H → held b0 b h;
}.

Lemma session_start b : bpm_ok b → session b [] b.
Proof. intros. constructor; [done|done|constructor|]. by intros h ?%not_elem_of_nil. Qed.

Lemma mapped_id b q f p : bpm_ok b → mapping_ b !! q = Some f → frame b f = Ok p → page_id_ p = q.
Proof.
  intros Hok Hm Hf. destruct (bo_map _ _ Hok _ _ Hm) as [p' Hr]. pose proof (re_frame _ _ _ _ Hr). 
  assert (p' = p) as -> by congruence. apply Hr.
Qed.

(** a page held stays held while other pages are pinned and changed *)
Lemma held_stay b0 x b b' h : held b0 b h → h_page h ≠ x → pinned_stay x b b' → held b0 b' h.
Proof.
  intros [Hm (p&Hf&Hid&Hp&Ho&Hd)] Hne Hst. destruct (Hst _ _ _ Hne Hm Hf Hp) as (Hm'&Hf'&Hdk).
  constructor; [done|]. exists p. split_and!; [done..|]. unfold on_disk. by rewrite Hdk.
Qed.

Lemma held_frame b0 x b b' h p : held b0 b h → pinned_stay x b b' → h_page h ≠ x →
  frame b (h_frame h) = Ok p → frame b' (h_frame h) = Ok p.
Proof.
  intros [Hm (p2&Hf2&_&Hp2&_)] Hst Hne Hf. assert (p2 = p) as -> by congruence. by apply (Hst (h_page h) (h_frame h) p).
Qed.

Lemma held_frame_ne b0 b h q f : bpm_ok b → held b0 b h → mapping_ b !! q = Some f → h_page h ≠ q → h_frame h ≠ f.
Proof. intros Hok Hh Hq Hne E. apply Hne. eapply (mapping_inj _ _ _ _ f Hok); [|done]. rewrite <- E. apply Hh. Qed.

Lemma not_frame b0 H b q f : session b0 H b → mapping_ b !! q = Some f → q ∉ h_page <$> H → f ∉ h_frame <$> H.
Proof.
  intros Hs Hq Hn (h&->&Hh)%list_elem_of_fmap. eapply (held_frame_ne b0 b h q (h_frame h)); [apply Hs|by apply Hs|done| |done].
  intros <-. apply Hn. by apply list_elem_of_fmap_2.
Qed.

(** a frame is left over when more could be had than are held *)
Lemma frame_left (G : list Z) H : NoDup G → (length H < length G)%nat → ∃ g, g ∈ G ∧ g ∉ h_frame <$> H.
Proof.
  intros Hn Hl. destruct (decide (Forall (λ g, g ∈ h_frame <$> H) G)) as [Hall|Hno].
  2: { apply not_Forall_Exists in Hno; [|apply _]. apply Exists_exists in Hno as (g&?&?). eauto. }
  exfalso. assert (G ⊆ h_frame <$> H) as Hsub by (intros g Hg; rewrite Forall_forall in Hall; by apply Hall).
  apply NoDup_submseteq in Hsub; [|done]. apply submseteq_length in Hsub. rewrite length_fmap in Hsub. lia.
Qed.

(** at least [n] frames can be had *)
Definition frames (n : nat) b : Prop := ∃ G, NoDup G ∧ length G = n ∧ ∀ g, g ∈ G → avail b g.

Lemma frames_less n k b : (k ≤ n)%nat → frames n b → frames k b.
Proof.
  intros Hk (G&Hn&Hl&Ha). exists (take k G). split_and!.
  - rewrite <- (take_drop k G) in Hn. by apply NoDup_app in Hn as (?&_).
  - rewrite length_take. lia.
  - intros g Hg. apply Ha. by eapply elem_of_take in Hg as (?&?%list_elem_of_lookup_2&?).
Qed.

Lemma session_has_frame n b0 H b : session b0 H b → frames n b0 → (length H < n)%nat → has_frame b.
Proof.
  intros Hs (G&Hn&Hl&Ha) Hlt. destruct (frame_left G H Hn) as (g&Hg&Hg'); [lia|].
  eapply avail_has_frame, (ss_avail _ _ _ Hs); eauto.
Qed.

Lemma session_fetch b0 H b q :
  session b0 H b → q ∈ alloced b → q ∉ h_page <$> H → has_frame b →
  ∃ f b' p, get_page q b = Ok (Some f, b') ∧ session b0 (mkHold q f false :: H) b' ∧ dm (disk_manager_ b') = dm (disk_manager_ b) ∧
    frame b' f = Ok p ∧ Some (payload (data_ p)) = view b q ∧ (∀ q', q' ∈ alloced b → view b' q' = view b q') ∧
    (∀ h p, h ∈ H → frame b (h_frame h) = Ok p → frame b' (h_frame h) = Ok p) ∧
    (∀ g p0, mapping_ b !! q = Some g → frame b g = Ok p0 → g = f ∧ p = add_pin_count p0).
Proof.
  intros Hs Hq Hnew Hhas.
  destruct (get_page_ok q b) as (f&b'&p&Hg&Hok&Hm&Hf&Hp&Hv&Ha&Hvs&Hst&Hac); [apply Hs|done|done|].
  exists f, b', p. split_and!; [done| |apply Hac|done..| |].
  3: { intros g p0 Hm0 Hf0. destruct (ac_hit _ _ _ _ Hac g p0 Hm0 Hf0) as [-> ?]. split; [done|]. congruence. }
  2: { intros h ph Hh. apply (held_frame _ _ _ _ _ _ (ss_held _ _ _ Hs h Hh) Hst). intros <-. apply Hnew. by apply list_elem_of_fmap_2. }
  assert (f ∉ h_frame <$> H) as Hnf.
  { intros (h&->&Hh)%list_elem_of_fmap. assert (h_page h ≠ q) as Hne by (intros <-; apply Hnew; by apply list_elem_of_fmap_2).
    eapply (held_frame_ne b0 b' h q); [done|eapply held_stay; [by apply Hs|done|done]|done|done|done]. }
  constructor; [done| | |].
  - intros g Hg' Hav. rewrite fmap_cons, not_elem_of_cons in Hg'. destruct Hg' as [? ?]. apply Hac; [done|].
    by apply (ss_avail _ _ _ Hs).
  - rewrite fmap_cons. constructor; [done|apply Hs].
  - intros h [->|Hh]%elem_of_cons.
    + constructor; [done|]. exists p. cbn [h_frame h_page h_changed]. split_and!; [done|by eapply mapped_id|done| |].
      * intros Hav. apply (ac_own _ _ _ _ Hac p Hf). by apply (ss_avail _ _ _ Hs).
      * intros _ H1 H2. by apply (ac_clean _ _ _ _ Hac).
    + eapply held_stay; [by apply Hs| |done]. intros <-. apply Hnew. by apply list_elem_of_fmap_2.
Qed.

Lemma session_get n b0 H b q :
  session b0 H b → q ∈ alloced b → q ∉ h_page <$> H → frames n b0 → (length H < n)%nat →
  ∃ f b' p, get_page q b = Ok (Some f, b') ∧ session b0 (mkHold q f false :: H) b' ∧ dm (disk_manager_ b') = dm (disk_manager_ b) ∧
    frame b' f = Ok p ∧ Some (payload (data_ p)) = view b q ∧ (∀ q', q' ∈ alloced b → view b' q' = view b q') ∧
    (∀ h p, h ∈ H → frame b (h_frame h) = Ok p → frame b' (h_frame h) = Ok p).
Proof.
  intros Hs Hq Hnew Hfr Hlt.
  destruct (session_fetch b0 H b q Hs Hq Hnew) as (f&b'&p&?&?&?&?&?&?&?&_); [by eapply session_has_frame|].
  by exists f, b', p.
Qed.

Lemma session_alloc b0 H b flag :
  session b0 H b → has_frame b → 2 * max_ava_pgid_ (dm (disk_manager_ b)) ≤ MAX_INT_PAGES →
  ∃ f b' p, alloc_page flag b = Ok (f, b') ∧ session b0 (mkHold (page_id_ p) f false :: H) b' ∧
    frame b' f = Ok p ∧ (page_id_ p ∉ alloced b) ∧ alloced b' = oset_insert (page_id_ p) (alloced b) ∧
    (∀ q, q ∈ alloced b → view b' q = view b q) ∧ view b' (page_id_ p) = Some (payload (data_ p)) ∧
    max_ava_pgid_ (dm (disk_manager_ b')) ≤ 2 * max_ava_pgid_ (dm (disk_manager_ b)) ∧
    (∀ h p, h ∈ H → frame b (h_frame h) = Ok p → frame b' (h_frame h) = Ok p).
Proof.
  intros Hs Hhas Hmax.
  destruct (alloc_page_ok flag b) as (f&b'&p&Hg&Hok&Hf&Hm&Hp&Hd&Hni&Ha&Hvs&Hst&Hav&Hmx); [apply Hs|done|done|].
  exists f, b', p.
  assert (∀ h, h ∈ H → h_page h ∈ alloced b ∧ h_page h ≠ -1) as Hal.
  { intros h Hh. destruct (bo_map _ _ (ss_ok _ _ _ Hs) _ _ (hd_map _ _ _ (ss_held _ _ _ Hs h Hh))) as [? Hr].
    split; [apply Hr|]. pose proof (proj1 (do_part _ (bo_disk _ _ (ss_ok _ _ _ Hs)) (h_page h)) (or_intror (re_alloced _ _ _ _ Hr))). lia. }
  assert (∀ h, h ∈ H → held b0 b' h) as Hh' by (intros h Hh; eapply held_stay; [by apply Hs|by apply Hal|done]).
  assert (page_id_ p ∉ h_page <$> H) as Hnew.
  { intros (h&E&Hh)%list_elem_of_fmap. apply Hni. rewrite E. by apply Hal. }
  assert (f ∉ h_frame <$> H) as Hnf.
  { intros (h&->&Hh)%list_elem_of_fmap. eapply (held_frame_ne b0 b' h (page_id_ p)); [done|by apply Hh'|done| |done].
    intros E. apply Hnew. rewrite <- E. by apply list_elem_of_fmap_2. }
  split_and!; [done| |done|done|done|done|unfold view; by rewrite Hm, Hf|done|].
  2: { intros h ph Hh. eapply held_frame; [by apply Hs|done|by apply Hal]. }
  constructor; [done| | |].
  - intros g Hg' Hga. rewrite fmap_cons, not_elem_of_cons in Hg'. destruct Hg' as [? ?]. apply Hav; [done|].
    by apply (ss_avail _ _ _ Hs).
  - rewrite fmap_cons. constructor; [done|apply Hs].
  - intros h [->|Hh]%elem_of_cons; [|by apply Hh'].
    constructor; [done|]. exists p. cbn [h_frame h_page h_changed]. split_and!; [done..|lia|done|]. congruence.
Qed.

Lemma session_new n b0 H b flag :
  session b0 H b → frames n b0 → (length H < n)%nat → 2 * max_ava_pgid_ (dm (disk_manager_ b)) ≤ MAX_INT_PAGES →
  ∃ f b' p, alloc_page flag b = Ok (f, b') ∧ session b0 (mkHold (page_id_ p) f false :: H) b' ∧
    frame b' f = Ok p ∧ (page_id_ p ∉ alloced b) ∧ alloced b' = oset_insert (page_id_ p) (alloced b) ∧
    (∀ q, q ∈ alloced b → view b' q = view b q) ∧ view b' (page_id_ p) = Some (payload (data_ p)) ∧
    max_ava_pgid_ (dm (disk_manager_ b')) ≤ 2 * max_ava_pgid_ (dm (disk_manager_ b)) ∧
    (∀ h p, h ∈ H → frame b (h_frame h) = Ok p → frame b' (h_frame h) = Ok p).
Proof. intros Hs Hfr Hlt Hmax. apply session_alloc; [done|by eapply session_has_frame|done]. Qed.

(** the pages held besides one of them *)
Lemma others b0 H1 q f m H2 b : session b0 (H1 ++ mkHold q f m :: H2) b →
  NoDup (h_page <$> H1 ++ H2) ∧ (∀ h, h ∈ H1 ++ H2 → h_page h ≠ q) ∧ (∀ h, h ∈ H1 ++ H2 → held b0 b h).
Proof.
  intros Hs. pose proof (ss_pages _ _ _ Hs) as Hnd. rewrite fmap_app, fmap_cons in *. cbn [h_page] in Hnd.
  apply NoDup_app in Hnd as (N1&N2&N3). apply NoDup_cons in N3 as [N3 N4]. split_and!.
  - apply NoDup_app. split_and!; [done| |done]. intros x Hx Hx2. eapply N2; [done|by right].
  - intros h [Hh|Hh]%elem_of_app <-; [eapply N2; [by apply list_elem_of_fmap_2|by left]|apply N3; by apply list_elem_of_fmap_2].
  - intros h Hh. apply Hs. rewrite elem_of_app in *. destruct Hh; [by left|right; by right].
Qed.

(** unpinning one of the pages held; a page that was changed is unpinned as dirty *)
Lemma session_unpin b0 H1 q f m H2 b dirty :
  session b0 (H1 ++ mkHold q f m :: H2) b → (m = true → dirty = true) →
  ∃ b', unpin_page q dirty b = Ok b' ∧ session b0 (H1 ++ H2) b' ∧ dm (disk_manager_ b') = dm (disk_manager_ b) ∧
    (∀ q', q' ∈ alloced b → view b' q' = view b q') ∧
    (∀ h p, h ∈ H1 ++ H2 → frame b (h_frame h) = Ok p → frame b' (h_frame h) = Ok p) ∧
    (∀ p, frame b f = Ok p → ∃ p', frame b' f = Ok p' ∧ payload (data_ p') = payload (data_ p)).
Proof.
  intros Hs Hd. assert (mkHold q f m ∈ H1 ++ mkHold q f m :: H2) as Hin by (apply elem_of_app; right; by left).
  destruct (ss_held _ _ _ Hs _ Hin) as [Hm (p&Hf&Hid&Hp&Ho&Hc)]. cbn [h_page h_frame h_changed] in *.
  destruct (unpin_page_ok q dirty b f p) as (b'&p'&Hu&Hok&Ha&Hm'&Hf'&Hpc&_&_&Hvs&Hst&Hav&Hdm); [apply Hs|done..| |].
  { intros H1' H2' H3'. apply Hc; [|done|done]. destruct m; [by rewrite Hd in H2'|done]. }
  exists b'. destruct (others _ _ _ _ _ _ _ Hs) as (Hnd&Hne&Hold).
  split_and!; [done| |done|done| |].
  2: { intros h ph Hh. eapply held_frame; [by apply Hold|done|by apply Hne]. }
  2: { intros p0 Hp0. exists p'. split; [done|]. destruct (bo_map _ _ (ss_ok _ _ _ Hs) _ _ Hm) as [? Hres].
       pose proof (Hvs q (re_alloced _ _ _ _ Hres)) as Hv. unfold view in Hv. rewrite Hm, Hm', Hf', Hf in Hv. congruence. }
  constructor; [done| | |].
  - intros g Hg Hga. apply Hav. destruct (decide (g = f)) as [->|Hgf]; [right; auto|]. left.
    apply (ss_avail _ _ _ Hs); [|done]. rewrite fmap_app, fmap_cons in *. rewrite elem_of_app, elem_of_cons in *. naive_solver.
  - done.
  - intros h Hh. eapply held_stay; [by apply Hold|by apply Hne|done].
Qed.

(** changing the bytes of a page held, all but its status *)
Lemma session_put b0 H1 q f m H2 b p d :
  session b0 (H1 ++ mkHold q f m :: H2) b → frame b f = Ok p → zlen d = PAGE_SIZE →
  rd8 d STATUS_OFFSET = rd8 (data_ p) STATUS_OFFSET →
  let b' := set_frame b f (set_data p d) in
  session b0 (H1 ++ mkHold q f true :: H2) b' ∧ dm (disk_manager_ b') = dm (disk_manager_ b) ∧ view b' q = Some (payload d) ∧
  (∀ q', q' ∈ alloced b → q' ≠ q → view b' q' = view b q') ∧ frame b' f = Ok (set_data p d) ∧
  (∀ h p, h ∈ H1 ++ H2 → frame b (h_frame h) = Ok p → frame b' (h_frame h) = Ok p).
Proof.
  intros Hs Hf Hl Hst b'. assert (mkHold q f m ∈ H1 ++ mkHold q f m :: H2) as Hin by (apply elem_of_app; right; by left).
  destruct (ss_held _ _ _ Hs _ Hin) as [Hm (p_&Hf_&Hid&Hp&Ho&Hc)]. cbn [h_page h_frame h_changed] in *.
  assert (p_ = p) as -> by congruence.
  destruct (put_data_ok q f p d b) as (Hok&Hf'&Hv&Hvs&Hps); [apply Hs|done..|].
  destruct (others _ _ _ _ _ _ _ Hs) as (Hnd&Hne&Hold).
  split_and!; [|done|done|done|done|].
  2: { intros h ph Hh. eapply held_frame; [by apply Hold|done|by apply Hne]. }
  constructor; [done| | |].
  - intros g Hg Hga. apply (ss_avail _ _ _ Hs); [|done]. rewrite fmap_app, fmap_cons in *. done.
  - pose proof (ss_pages _ _ _ Hs) as Hn. rewrite fmap_app, fmap_cons in *. done.
  - intros h Hh. assert (h ∈ H1 ++ H2 ∨ h = mkHold q f true) as [Hh'| ->].
    { rewrite elem_of_app, elem_of_cons in *. naive_solver. }
    + eapply held_stay; [by apply Hold|by apply Hne|done].
    + constructor; [done|]. exists (set_data p d). cbn [h_frame h_page h_changed]. by split_and!.
Qed.

(** flushing one of them: afterwards it need not be changed any more *)
Lemma session_flush b0 H1 q f m m' H2 b p :
  session b0 (H1 ++ mkHold q f m :: H2) b → frame b f = Ok p →
  ∃ b', flush_page q b = Ok (true, b') ∧ session b0 (H1 ++ mkHold q f m' :: H2) b' ∧ dm (disk_manager_ b') = dm (disk_manager_ b) ∧
    (∀ q', q' ∈ alloced b → view b' q' = view b q') ∧ frame b' f = Ok (set_is_dirty p false) ∧ disk_page (disk_manager_ b') q = Ok (data_ p) ∧
    (∀ h p, h ∈ H1 ++ H2 → frame b (h_frame h) = Ok p → frame b' (h_frame h) = Ok p).
Proof.
  intros Hs Hf. assert (mkHold q f m ∈ H1 ++ mkHold q f m :: H2) as Hin by (apply elem_of_app; right; by left).
  destruct (ss_held _ _ _ Hs _ Hin) as [Hm (p_&Hf_&Hid&Hp&Ho&Hc)]. cbn [h_page h_frame h_changed] in *.
  assert (p_ = p) as -> by congruence. destruct (bo_map _ _ (ss_ok _ _ _ Hs) _ _ Hm) as [p_ Hres].
  assert (p_ = p) as -> by (pose proof (re_frame _ _ _ _ Hres); congruence).
  destruct (flush_page_ok q f p b (ss_ok _ _ _ Hs) Hm Hf) as (b'&He&Hok&Hmap&Hal&Hf'&Hdk&_&Hv&Hst).
  destruct (flush_page_keeps q b b' true He (ss_ok _ _ _ Hs) (re_alloced _ _ _ _ Hres)) as [Hdm Hav].
  exists b'. destruct (others _ _ _ _ _ _ _ Hs) as (Hnd&Hne&Hold).
  split_and!; [done| |done|done|done|done|].
  2: { intros h ph Hh. eapply held_frame; [by apply Hold|done|by apply Hne]. }
  constructor; [done| | |].
  - intros g Hg Hga. apply Hav, (ss_avail _ _ _ Hs); [|done]. by rewrite fmap_app, fmap_cons in *.
  - pose proof (ss_pages _ _ _ Hs) as Hn. by rewrite fmap_app, fmap_cons in *.
  - intros h Hh. assert (h ∈ H1 ++ H2 ∨ h = mkHold q f m') as [Hh'| ->].
    { rewrite elem_of_app, elem_of_cons in *. naive_solver. }
    + eapply held_stay; [by apply Hold|by apply Hne|done].
    + constructor; [cbn; by rewrite Hmap|]. exists (set_is_dirty p false). cbn [h_frame h_page h_changed]. split_and!; [done..|].
      intros _ _ _. exists (data_ p). split_and!; [done|done|apply Hres].
Qed.

(** ** Pages that stay pinned *)

(** pages somebody keeps pinned: a session can start with them; their frames are not
    among those that could be had *)
Definition keeps (K : list hold) b : Prop :=
  NoDup (h_page <$> K) ∧ ∀ h, h ∈ K → h_changed h = true ∧ mapping_ b !! h_page h = Some (h_frame h) ∧
    ∃ p, frame b (h_frame h) = Ok p ∧ 0 < pin_count_ p.

Lemma keeps_busy K b h : bpm_ok b → keeps K b → h ∈ K → ¬ avail b (h_frame h).
Proof.
  intros Hok [_ Hk] Hh Hav. destruct (Hk h Hh) as (_&Hm&p&Hf&Hp). pose proof (avail_unpinned b _ _ p Hok Hm Hf Hav). lia.
Qed.
Lemma session_keeps K b : bpm_ok b → keeps K b → session b K b.
Proof.
  intros Hok Hk. constructor; [done|done|apply Hk|]. intros h Hh. pose proof (keeps_busy K b h Hok Hk Hh) as Hb.
  destruct Hk as [_ Hk]. destruct (Hk h Hh) as (Hc&Hm&p&Hf&Hp). constructor; [done|]. exists p. rewrite Hc.
  split_and!; [done|by eapply mapped_id|done|done|done].
Qed.
Lemma keeps_session b0 K b : session b0 K b → Forall (λ h, h_changed h = true) K → keeps K b.
Proof.
  intros Hs Hc. rewrite Forall_forall in Hc. split; [apply Hs|]. intros h Hh. destruct (ss_held _ _ _ Hs h Hh) as [Hm (p&?&_&?&_)]. eauto 6.
Qed.

(** a frame is left over when more could be had than are held besides them *)
Lemma session_room n K b0 H b : session b0 (H ++ K) b → bpm_ok b0 → keeps K b0 → frames n b0 → (length H < n)%nat → has_frame b.
Proof.
  intros Hs Hok Hk (G&Hn&Hl&Ha) Hlt. destruct (frame_left G H Hn) as (g&Hg&Hg'); [lia|].
  eapply avail_has_frame, (ss_avail _ _ _ Hs); [|by apply Ha]. rewrite fmap_app, elem_of_app. intros [?|(h&->&Hh)%list_elem_of_fmap]; [done|].
  by apply (keeps_busy K b0 h Hok Hk Hh), Ha.
Qed.

(** ** Ends of sessions *)

Lemma session_end b0 b : session b0 [] b → bpm_ok b ∧ ∀ g, avail b0 g → avail b g.
Proof. intros Hs. split; [apply Hs|]. intros g. apply Hs. by apply not_elem_of_nil. Qed.

(** what is left when a session ends with pages still pinned, besides those that stay *)
Lemma frames_left n K b0 H b : session b0 (H ++ K) b → bpm_ok b0 → keeps K b0 → frames (length H + n) b0 → frames n b.
Proof.
  intros Hs Hok Hk (G&Hn&Hl&Ha). set (G' := filter (λ g, g ∉ h_frame <$> H) G).
  assert (n ≤ length G')%nat as Hle.
  { assert (G ⊆+ G' ++ (h_frame <$> H)) as Hsub.
    { apply NoDup_submseteq; [done|]. intros g Hg. rewrite elem_of_app. destruct (decide (g ∈ h_frame <$> H)); [by right|left].
      by apply list_elem_of_filter. }
    apply submseteq_length in Hsub. rewrite length_app, length_fmap in Hsub. lia. }
  apply (frames_less (length G')); [done|]. exists G'. split_and!; [by apply NoDup_filter|done|].
  intros g [Hg Hin]%list_elem_of_filter. apply (ss_avail _ _ _ Hs); [|by apply Ha].
  rewrite fmap_app, elem_of_app. intros [?|(h&->&Hh)%list_elem_of_fmap]; [done|]. by apply (keeps_busy K b0 h Hok Hk Hh), Ha.
Qed.
Lemma keeps_nil b : keeps [] b.
Proof. split; [constructor|]. by intros h ?%not_elem_of_nil. Qed.
Lemma frames_leak n b0 H b : session b0 H b → bpm_ok b0 → frames (length H + n) b0 → frames n b.
Proof. intros Hs Hok. apply (frames_left n [] b0 H b); [by rewrite app_nil_r|done|apply keeps_nil]. Qed.

Lemma frames_keep n b b' : (∀ g, avail b g → avail b' g) → frames n b → frames n b'.
Proof. intros Hk (G&?&?&?). exists G. eauto. Qed.

End PoolClient.
