(* ===== verification/PoolSpec.v ===== *)
(** What the buffer pool promises: it implements a store that maps every allocated page
    id to its contents and counts its pins, whatever is evicted and reloaded in between.
    The store and its operations, deletion and flushing included, are abstract; a pool
    whose clients follow the pin protocol refines it. *)
From S2P Require Import Prelude Config Replacer ClockReplacer Page FileSys DiskManager BufferPool.

(** ** Operations of a client *)

Inductive pool_op :=
  | OpNew (flag : Z)                    (* [new_page], [new_tmp_page] *)
  | OpGet (q : Z)
  | OpWrite (q off : Z) (bs : bytes)    (* through the pointer to a page *)
  | OpUnpin (q : Z) (dirty : bool)
  | OpFlush (q : Z)
  | OpFlushAll
  | OpDelete (q : Z).

(** what an operation gives back: the id and contents of a new page, the contents
    behind the pointer that [get_page] returns ([None] for the null pointer) *)
Inductive pool_out :=
  | OutNew (q : Z) (v : bytes)
  | OutPage (v : option bytes)
  | OutUnit
  | OutBool (r : bool).

(** ** The store *)

(** the contents of the pages that exist (past their headers), how often each page is
    pinned, and the pages whose last change nobody has reported or flushed *)
Record store := mkStore {
  s_page : Z → option bytes;
  s_pins : Z → Z;
  s_owed : Z → bool;
}.
Definition upd {A} (q : Z) (v : A) (f : Z → A) : Z → A := λ q', if decide (q' = q) then v else f q'.

Definition spec_write (off : Z) (bs : bytes) (v : option bytes) : option bytes :=
  match v with
  | Some d => match mem_write d (off - HEADER_USED) bs with Ok d' => Some d' | Err _ => None end
  | None => None
  end.

(** the store after an operation that gave back [o] *)
Definition spec_op (op : pool_op) (o : pool_out) (s : store) : store :=
  match op, o with
  | OpNew _, OutNew q v => mkStore (upd q (Some v) (s_page s)) (upd q 1 (s_pins s)) (upd q false (s_owed s))
  | OpGet q, _ => mkStore (s_page s) (upd q (s_pins s q + 1) (s_pins s)) (s_owed s)
  | OpWrite q off bs, _ => mkStore (upd q (spec_write off bs (s_page s q)) (s_page s)) (s_pins s) (upd q true (s_owed s))
  | OpUnpin q dirty, _ => mkStore (s_page s) (upd q (s_pins s q - 1) (s_pins s)) (if dirty then upd q false (s_owed s) else s_owed s)
  | OpFlush q, _ => mkStore (s_page s) (s_pins s) (upd q false (s_owed s))
  | OpFlushAll, _ => mkStore (s_page s) (s_pins s) (λ _, false)
  | OpDelete q, OutBool true => mkStore (upd q None (s_page s)) (s_pins s) (s_owed s)
  | _, _ => s
  end.

(** what an operation may give back *)
Definition spec_out (op : pool_op) (s : store) (o : pool_out) : Prop :=
  match op with
  | OpNew _ => ∃ q v, o = OutNew q v ∧ 0 ≤ q ∧ s_page s q = None
  | OpGet q => o = OutPage (s_page s q) ∧ s_page s q ≠ None
  | OpWrite _ _ _ | OpUnpin _ _ => o = OutUnit
  | OpFlush q => ∃ r, o = OutBool r ∧ (0 < s_pins s q → r = true)
  | OpFlushAll => o = OutBool true
  | OpDelete q => o = OutBool (s_pins s q =? 0)
  end.

Fixpoint spec_run (ops : list pool_op) (outs : list pool_out) (s s' : store) : Prop :=
  match ops, outs with
  | [], [] => s' = s
  | op :: ops, o :: outs => spec_out op s o ∧ spec_run ops outs (spec_op op o s) s'
  | _, _ => False
  end.

Section PoolSpec.
Context {R : Type} `{RA : ReplacerAbstract R}.
Notation BPM := (BufferPoolManager R).
Implicit Types (b : BPM) (s : store).

Definition exec_op (op : pool_op) b : res (pool_out * BPM) :=
  match op with
  | OpNew flag =>
      let* (f, b) := BufferPool.alloc_page flag b in
      p ← frame b f; Ok (OutNew (page_id_ p) (payload (data_ p)), b)
  | OpGet q =>
      let* (r, b) := get_page q b in
      match r with
      | Some f => p ← frame b f; Ok (OutPage (Some (payload (data_ p))), b)
      | None => Ok (OutPage None, b)
      end
  | OpWrite q off bs => b ← write_frame (get_frame_id b q) off bs b; Ok (OutUnit, b)
  | OpUnpin q dirty => b ← unpin_page q dirty b; Ok (OutUnit, b)
  | OpFlush q => let* (r, b) := flush_page q b in Ok (OutBool r, b)
  | OpFlushAll => let* (r, b) := flush_all b in Ok (OutBool r, b)
  | OpDelete q => let* (r, b) := delete_page q b in Ok (OutBool r, b)
  end.

(** the pin protocol: a page is changed and released only while it is pinned; when the
    last pin of a page that was changed goes, the change has been reported by somebody's
    [unpin_page(.., true)] or flushed; a frame can be had for a page that needs one. A page
    is deleted while it is pinned (which the pool refuses) or while no frame holds it *)
Definition op_ok (op : pool_op) s b : Prop :=
  match op with
  | OpNew _ => has_frame b ∧ 2 * max_ava_pgid_ (dm (disk_manager_ b)) ≤ MAX_INT_PAGES
  | OpGet q => s_page s q ≠ None ∧ (mapping_ b !! q = None → has_frame b)
  | OpWrite q off bs => 0 < s_pins s q ∧ HEADER_USED ≤ off ∧ off + zlen bs ≤ PAGE_SIZE
  | OpUnpin q dirty => 0 < s_pins s q ∧ (dirty = true ∨ s_owed s q = false ∨ 1 < s_pins s q)
  | OpFlush _ | OpFlushAll => True
  | OpDelete q => 0 < s_pins s q ∨ (mapping_ b !! q = None ∧ q < MAX_INT_PAGES)
  end.

Fixpoint run (ops : list pool_op) b : res (list pool_out * BPM) :=
  match ops with
  | [] => Ok ([], b)
  | op :: ops => let* (o, b) := exec_op op b in let* (outs, b) := run ops b in Ok (o :: outs, b)
  end.
Fixpoint run_ok (ops : list pool_op) s b : Prop :=
  match ops with
  | [] => True
  | op :: ops => op_ok op s b ∧ ∀ o b', exec_op op b = Ok (o, b') → run_ok ops (spec_op op o s) b'
  end.

(** ** The store of a pool *)

Definition pins b q : Z :=
  match mapping_ b !! q with
  | Some f => match frame b f with Ok p => pin_count_ p | Err _ => 0 end
  | None => 0
  end.
Definition page_of b q : option bytes := if decide (q ∈ alloced b) then view b q else None.

(** the disk copy of a resident page is current *)
Definition synced b q (p : Page) : Prop :=
  ∃ bs, disk_page (disk_manager_ b) q = Ok bs ∧ payload bs = payload (data_ p) ∧
    rd8 bs STATUS_OFFSET = Ok STATUS_EXIST.
Definition reported b q : Prop :=
  ∀ f p, mapping_ b !! q = Some f → frame b f = Ok p → 0 < pin_count_ p → is_dirty_ p = false → synced b q p.

Record refines b s : Prop := {
  rf_ok : bpm_ok b;
  rf_page : ∀ q, page_of b q = s_page s q;
  rf_pins : ∀ q, pins b q = s_pins s q;
  rf_owed : ∀ q, s_owed s q = false → reported b q;
}.

Lemma pins_pos b q : 0 < pins b q ↔ ∃ f p, mapping_ b !! q = Some f ∧ frame b f = Ok p ∧ 0 < pin_count_ p.
Proof.
  unfold pins. split.
  - destruct (mapping_ b !! q) as [f|]; [|lia]. destruct (frame b f) as [p|] eqn:Hf; [|lia]. eauto.
  - intros (f&p&->&->&?). done.
Qed.
Lemma pins_nonneg b q : bpm_ok b → 0 ≤ pins b q.
Proof.
  intros Hok. unfold pins. destruct (mapping_ b !! q) as [f|] eqn:Hm; [|done].
  destruct (bo_map _ _ Hok _ _ Hm) as [p Hr]. rewrite (re_frame _ _ _ _ Hr). apply Hr.
Qed.
Lemma view_Some b q : bpm_ok b → q ∈ alloced b → is_Some (view b q).
Proof.
  intros Hok Hq. unfold view. destruct (mapping_ b !! q) as [f|] eqn:Hm.
  - destruct (bo_map _ _ Hok _ _ Hm) as [p Hr]. by rewrite (re_frame _ _ _ _ Hr).
  - destruct (bo_unmapped _ _ Hok q Hq) as (bs&->&_); [|done|done].
    pose proof (proj1 (do_part _ (bo_disk _ _ Hok) q) (or_intror Hq)). lia.
Qed.
Lemma page_of_Some b q : bpm_ok b → page_of b q ≠ None ↔ q ∈ alloced b.
Proof.
  intros Hok. unfold page_of. case_decide as Hq; [|done]. destruct (view_Some b q Hok Hq) as [? ->]. done.
Qed.

(** ** Eviction touches no pin count *)

Definition pins_kept b b' : Prop :=
  mapping_ b' ⊆ mapping_ b ∧ ∀ f p', frame b' f = Ok p' → ∃ p, frame b f = Ok p ∧ pin_count_ p' = pin_count_ p.

Lemma set_frame_kept b f p p1 : frame b f = Ok p → pin_count_ p1 = pin_count_ p → ∀ g p', frame (set_frame b f p1) g = Ok p' →
  ∃ p0, frame b g = Ok p0 ∧ pin_count_ p' = pin_count_ p0.
Proof.
  intros Hf Hp g p' Hg. pose proof (frame_lt _ _ _ Hf) as Hlt. destruct (decide (g = f)) as [->|].
  - rewrite frame_set_eq in Hg by done. injection Hg as <-. eauto.
  - rewrite frame_set_ne in Hg by (done || lia). eauto.
Qed.
Lemma set_page_id_pins p id p' : set_page_id p id = Ok p' → pin_count_ p' = pin_count_ p.
Proof. unfold set_page_id. intros (d&_&H)%res_bind_Ok. by injection H as <-. Qed.

Lemma evict_page_kept q f b b' : evict_page q f b = Ok b' → pins_kept b b'.
Proof.
  unfold evict_page, w_lock. intros (p&Hf&H)%res_bind_Ok. destruct (latch_ b); [done|]. cbn [mbind res_bind] in H.
  change (mapping_ (upd_latch true b)) with (mapping_ b) in H.
  destruct (mapping_ b !! q); [|injection H as <-; split; [done|]; intros g p' Hg; by exists p'].
  apply res_bind_Ok in H as (p1&Hp1&H). pose proof (set_frame_kept _ _ _ _ Hf (set_page_id_pins _ _ _ Hp1)) as Hk.
  destruct (is_dirty_ p1); injection H as <-; (split; [apply delete_subseteq|exact Hk]).
Qed.
Lemma ensure_free_kept n b b' : ensure_free n b = Ok b' → pins_kept b b'.
Proof.
  revert b. induction n as [|n IH]; intros b; cbn [ensure_free]; destruct (free_list_ b); try done.
  1,3: intros [= <-]; split; [done|]; intros g p' Hg; by exists p'.
  intros ([f r]&_&H)%res_bind_Ok. apply res_bind_Ok in H as (p&_&H). apply res_bind_Ok in H as (b1&He&H).
  apply evict_page_kept in He as [Hm1 Hf1]. unfold w_lock in H. destruct (latch_ b1); [done|].
  destruct (IH _ H) as [Hm2 Hf2]. split; [by etrans|].
  intros g p' Hg. destruct (Hf2 g p' Hg) as (p2&Hg2&->). apply (Hf1 g p2 Hg2).
Qed.

(** ** Refinement, operation by operation *)

Definition back (x : Z) b b' : Prop := ∀ q, q ≠ x → 0 < pins b' q → 0 < pins b q.

Lemma other_pages x b b' q : bpm_ok b → bpm_ok b' → pinned_stay x b b' → back x b b' → q ≠ x →
  pins b' q = pins b q ∧ (reported b q → reported b' q).
Proof.
  intros Hok Hok' Hst Hback Hne. assert (0 < pins b q → pins b' q = pins b q) as Hpos.
  { intros (f&p&Hm&Hf&Hp)%pins_pos. destruct (Hst q f p Hne Hm Hf Hp) as (Hm'&Hf'&_). unfold pins. by rewrite Hm, Hm', Hf, Hf'. }
  split.
  - pose proof (pins_nonneg b q Hok). pose proof (pins_nonneg b' q Hok'). pose proof (Hback q Hne). lia.
  - intros Hr f' p' Hm' Hf' Hp' Hd'. destruct (proj1 (pins_pos b q)) as (f&p&Hm&Hf&Hp).
    { apply Hback; [done|]. apply pins_pos. eauto. }
    destruct (Hst q f p Hne Hm Hf Hp) as (Hm1&Hf1&Hdk). assert (f' = f) as -> by congruence. assert (p' = p) as -> by congruence.
    destruct (Hr f p Hm Hf Hp Hd') as (bs&?&?&?). exists bs. by rewrite Hdk.
Qed.

Lemma refines_step x b b' s s' : refines b s → bpm_ok b' → pinned_stay x b b' → back x b b' →
  (∀ q, q ≠ x → page_of b' q = page_of b q ∧ s_page s' q = s_page s q ∧ s_pins s' q = s_pins s q ∧
     (s_owed s' q = false → s_owed s q = false)) →
  page_of b' x = s_page s' x → pins b' x = s_pins s' x → (s_owed s' x = false → reported b' x) → refines b' s'.
Proof.
  intros [Hok Hpg Hpn How] Hok' Hst Hback Hrest H1 H2 H3.
  assert (∀ q, q ≠ x → pins b' q = pins b q ∧ (reported b q → reported b' q)) as Ho by (intros; by apply (other_pages x)).
  constructor; [done|intros q; destruct (decide (q = x)) as [->|Hne]; [done|destruct (Hrest q Hne) as (E1&E2&E3&E4), (Ho q Hne) as [E5 E6]]..].
  - by rewrite E1, E2.
  - by rewrite E5, E3.
  - intros Hq. by apply E6, How, E4.
Qed.

Lemma upd_eq {A} q (v : A) f : upd q v f q = v.
Proof. unfold upd. by rewrite decide_True. Qed.
Lemma upd_ne {A} q q' (v : A) f : q' ≠ q → upd q v f q' = f q'.
Proof. intros. unfold upd. by rewrite decide_False. Qed.
Ltac sp := cbn [s_page s_pins s_owed spec_op] in *; rewrite ?upd_eq in *.

(** an operation that changes one frame, under the same mapping *)
Lemma one_frame_back x f b b' : bpm_ok b → mapping_ b !! x = Some f → mapping_ b' = mapping_ b →
  (∀ g, g ≠ f → frame b' g = frame b g) → back x b b'.
Proof.
  intros Hok Hm Hm' Hfr q Hne (g&p&Hg&Hp&Hpos)%pins_pos. apply pins_pos. exists g, p. rewrite Hm' in Hg. split; [done|].
  rewrite <- Hfr; [done|]. intros ->. apply Hne. by eapply mapping_inj.
Qed.

Lemma pins_at b q f p : mapping_ b !! q = Some f → frame b f = Ok p → pins b q = pin_count_ p.
Proof. intros H1 H2. unfold pins. by rewrite H1, H2. Qed.
Lemma page_of_view b b' q : alloced b' = alloced b → (q ∈ alloced b → view b' q = view b q) → page_of b' q = page_of b q.
Proof. intros Ha Hv. unfold page_of. rewrite Ha. case_decide; auto. Qed.
Lemma page_of_at b q f p : bpm_ok b → mapping_ b !! q = Some f → frame b f = Ok p → page_of b q = Some (payload (data_ p)).
Proof.
  intros Hok Hm Hf. destruct (bo_map _ _ Hok _ _ Hm) as [p' Hr]. unfold page_of. rewrite decide_True by apply Hr.
  unfold view. by rewrite Hm, Hf.
Qed.

Lemma payload_mem_write d off bs d' :
  HEADER_USED ≤ off → mem_write d off bs = Ok d' →
  mem_write (payload d) (off - HEADER_USED) bs = Ok (payload d').
Proof.
  assert (HEADER_USED = 9) as Hh by done. rewrite Hh. intros Ho W. pose proof W as (?&Hb&_)%mem_write_Ok.
  assert (zlen d' = zlen d) as Hz by (by eapply mem_write_zlen).
  assert (∀ x, 9 ≤ zlen x → zlen (payload x) = zlen x - 9) as Hzl.
  { intros x ?. unfold payload, zlen in *. rewrite length_drop, Hh. lia. }
  destruct (mem_write_ex (payload d) (off - 9) bs) as (m&Hm&_); [lia| |].
  { pose proof (zlen_nonneg bs). rewrite Hzl; lia. }
  rewrite Hm. f_equal. apply list_eq. intros i.
  rewrite (mem_write_lookup _ _ _ _ i Hm), !payload_lookup, (mem_write_lookup _ _ _ _ _ W).
  repeat case_decide; try lia; [|done]. f_equal. lia.
Qed.

Lemma write_refines q off bs b s : refines b s → op_ok (OpWrite q off bs) s b →
  ∃ b', write_frame (get_frame_id b q) off bs b = Ok b' ∧ refines b' (spec_op (OpWrite q off bs) OutUnit s).
Proof.
  intros Hrf (Hp&Ho&He). pose proof (rf_ok _ _ Hrf) as Hok. rewrite <- (rf_pins _ _ Hrf) in Hp. apply pins_pos in Hp as (f&p&Hm&Hf&Hp).
  unfold get_frame_id. rewrite Hm. change (default (-1) (Some f)) with f.
  destruct (write_frame_ok q f p off bs b Hok Hm Hf Hp Ho He) as (b'&d&Hw&Hd&Hok'&Hf'&Hm'&Hal&Hv&_&Hv'&Hst&_).
  exists b'. split; [done|]. assert (mapping_ b' !! q = Some f) as Hmq by (by rewrite Hm').
  apply (refines_step q b b' s); [done..| | | | |]; sp.
  - apply (one_frame_back q f); [done..|]. intros g Hg. unfold write_frame in Hw. rewrite Hf in Hw. cbn [mbind res_bind] in Hw.
    rewrite Hd in Hw. injection Hw as <-. apply frame_set_ne; [done|]. apply (frame_lt _ _ _ Hf).
  - intros q' Hne. rewrite !upd_ne by done. split_and!; [|done..]. apply page_of_view; [done|]. intros. by apply Hv'.
  - rewrite <- (rf_page _ _ Hrf), (page_of_at b q f p), (page_of_at b' q f _) by done. cbn [spec_write data_ set_data].
    by rewrite (payload_mem_write _ _ _ _ Ho Hd).
  - rewrite <- (rf_pins _ _ Hrf), (pins_at b q f p), (pins_at b' q f _) by done. done.
  - done.
Qed.

Lemma unpin_shape q dirty b b' f p : mapping_ b !! q = Some f → frame b f = Ok p → unpin_page q dirty b = Ok b' →
  mapping_ b' = mapping_ b ∧ disk_manager_ b' = disk_manager_ b ∧ (∀ g, g ≠ f → frame b' g = frame b g) ∧
  frame b' f = Ok (decrease_pin_count (if dirty then set_is_dirty p dirty else p)).
Proof.
  intros Hm Hf H. pose proof (frame_lt _ _ _ Hf) as Hlt. unfold unpin_page, w_lock in H. destruct (latch_ b); [done|]. cbn [mbind res_bind] in H.
  change (mapping_ (upd_latch true b)) with (mapping_ b) in H. rewrite Hm in H. change (frame (upd_latch true b) f) with (frame b f) in H.
  rewrite Hf in H. cbn [mbind res_bind] in H. cbv zeta in H.
  assert (∃ r l, b' = upd_replacer r (upd_latch l (set_frame (upd_latch true b) f (decrease_pin_count (if dirty then set_is_dirty p dirty else p))))) as (r&l&->).
  { case_bool_decide; [injection H as <-; by exists (replacer_ b), false|]. case_bool_decide; [|injection H as <-; by exists (replacer_ b), false].
    apply res_bind_Ok in H as (r&_&H). injection H as <-. by eexists r, false. }
  split_and!; [done..| |].
  - intros g Hg. apply (frame_set_ne b f g); [done|lia].
  - by apply (frame_set_eq b f).
Qed.

Lemma unpin_refines q dirty b s : refines b s → op_ok (OpUnpin q dirty) s b →
  ∃ b', unpin_page q dirty b = Ok b' ∧ refines b' (spec_op (OpUnpin q dirty) OutUnit s).
Proof.
  intros Hrf (Hp&Hd). pose proof (rf_ok _ _ Hrf) as Hok. pose proof (rf_owed _ _ Hrf q) as How.
  rewrite <- (rf_pins _ _ Hrf) in Hp, Hd. pose proof Hp as (f&p&Hm&Hf&Hpp)%pins_pos. rewrite (pins_at b q f p) in Hd by done.
  destruct (unpin_page_ok q dirty b f p Hok Hm Hf Hpp) as (b'&p'&Hu&Hok'&Hal&Hm'&Hf'&Hpc&_&_&Hv&Hst&_).
  { intros H1 -> Hc. destruct Hd as [?|[Ho|?]]; [done| |lia]. by apply (How Ho f p). }
  exists b'. split; [done|]. destruct (unpin_shape q dirty b b' f p Hm Hf Hu) as (Hmm&Hdm&Hfr&Hff).
  assert (p' = decrease_pin_count (if dirty then set_is_dirty p dirty else p)) as Hp' by congruence.
  apply (refines_step q b b' s); [done..| | | | |]; sp.
  - by apply (one_frame_back q f).
  - intros q' Hne. rewrite !upd_ne by done. split_and!; [by apply page_of_view; auto|done..|]. destruct dirty; [by rewrite upd_ne|done].
  - rewrite <- (rf_page _ _ Hrf). apply page_of_view; auto.
  - rewrite <- (rf_pins _ _ Hrf), (pins_at b q f p), (pins_at b' q f p') by done. done.
  - intros Ho f1 p1 Hm1 Hf1 _ Hc. assert (f1 = f) as -> by congruence. assert (p1 = p') as -> by congruence. rewrite Hp' in Hc |- *.
    destruct dirty; [done|]. destruct (How Ho f p Hm Hf Hpp Hc) as (bs&?&?&?). exists bs. by rewrite Hdm.
Qed.

Lemma flush_refines q f b s : refines b s → mapping_ b !! q = Some f →
  ∃ b', flush_page q b = Ok (true, b') ∧ mapping_ b' = mapping_ b ∧ refines b' (spec_op (OpFlush q) (OutBool true) s).
Proof.
  intros Hrf Hm. pose proof (rf_ok _ _ Hrf) as Hok. destruct (bo_map _ _ Hok _ _ Hm) as [p Hr]. pose proof (re_frame _ _ _ _ Hr) as Hf.
  destruct (flush_page_ok q f p b Hok Hm Hf) as (b'&Hu&Hok'&Hm'&Hal&Hf'&Hd&Hdne&Hv&Hst). exists b'. split_and!; [done..|].
  assert (mapping_ b' !! q = Some f) as Hmq by (by rewrite Hm').
  apply (refines_step q b b' s); [done..| | | | |]; sp.
  - apply (one_frame_back q f); [done..|]. intros g Hg. unfold flush_page, r_lock in Hu. rewrite (bo_latch _ _ Hok) in Hu. cbn [mbind res_bind] in Hu.
    unfold get_frame_id in Hu. rewrite Hm in Hu. change (default (-1) (Some f)) with f in Hu. pose proof (frame_lt _ _ _ Hf).
    rewrite (proj2 (Z.eqb_neq f (-1))), Hf in Hu by lia. cbn [mbind res_bind] in Hu. destruct (write_page _ _ _) as [[] d]; [|done].
    injection Hu as <-. apply (frame_set_ne (upd_disk d b) f g); [done|lia].
  - intros q' Hne. rewrite !upd_ne by done. split_and!; [by apply page_of_view; auto|done..].
  - rewrite <- (rf_page _ _ Hrf). apply page_of_view; auto.
  - rewrite <- (rf_pins _ _ Hrf), (pins_at b q f p), (pins_at b' q f _) by done. done.
  - intros _ f1 p1 Hm1 Hf1 _ _. assert (f1 = f) as -> by congruence. assert (p1 = set_is_dirty p false) as -> by congruence.
    exists (data_ p). split_and!; [done..|]. apply Hr.
Qed.

(** a page brought into the frame [f], after evictions *)
Lemma installed_back x f b b1 b' p' : pins_kept b b1 → bpm_ok b' → mapping_ b' !! x = Some f → mapping_ b' = <[x := f]> (mapping_ b1) →
  (∀ g, frame b' g = frame (set_frame b1 f p') g) → 0 ≤ f → back x b b'.
Proof.
  intros [Hs Hk] Hok' Hm Hm' Hfr Hf q Hne (g&p&Hg&Hp&Hpos)%pins_pos.
  assert (g ≠ f) as Hgf. { intros ->. apply Hne. by eapply mapping_inj. }
  rewrite Hfr, frame_set_ne in Hp by done. rewrite Hm', lookup_insert_ne in Hg by done.
  destruct (Hk g p Hp) as (p0&Hp0&E). apply pins_pos. exists g, p0. split_and!; [|done|lia]. by eapply lookup_weaken.
Qed.

Lemma get_page_back q b b' f : get_page q b = Ok (Some f, b') → bpm_ok b → bpm_ok b' → mapping_ b' !! q = Some f → back q b b'.
Proof.
  unfold get_page, w_lock. intros H Hok Hok' Hm'. case_bool_decide; [done|]. rewrite (bo_latch _ _ Hok) in H. cbn [mbind res_bind] in H.
  change (mapping_ (upd_latch true b)) with (mapping_ b) in H. destruct (mapping_ b !! q) as [g|] eqn:Hm.
  - apply res_bind_Ok in H as (p&Hf&H). apply res_bind_Ok in H as (r&_&H). injection H as -> <-.
    apply (one_frame_back q f); [done..|]. intros g Hg. apply (frame_set_ne b f g); [done|]. apply (frame_lt _ _ _ Hf).
  - apply res_bind_Ok in H as (b1&He&H). apply ensure_free_kept in He. destruct (free_list_ b1) as [|f1 rest]; [done|].
    apply res_bind_Ok in H as (p&Hf&H). destruct (read_page _ _) as [[ok bs] d]. cbv zeta in H. destruct ok; [|done]. cbn [negb] in H.
    apply res_bind_Ok in H as (st&_&H). case_bool_decide; [done|]. apply res_bind_Ok in H as (p1&_&H). apply res_bind_Ok in H as (p2&_&H).
    injection H as -> <-. pose proof (frame_lt _ _ _ Hf) as Hlt. eapply (installed_back q f b b1 _ (add_pin_count (set_pin_count_zero p2))); [done|done|done| | |lia].
    + done.
    + intros g. unfold frame, set_frame, upd_free, upd_mapping, upd_pages, upd_disk, w_unlock, upd_latch. cbn [pages_]. by rewrite list_insert_insert_eq.
Qed.

Lemma get_refines q b s : refines b s → op_ok (OpGet q) s b →
  ∃ o b', exec_op (OpGet q) b = Ok (o, b') ∧ spec_out (OpGet q) s o ∧ refines b' (spec_op (OpGet q) o s).
Proof.
  intros Hrf (Hq&Hhas). pose proof (rf_ok _ _ Hrf) as Hok. pose proof (rf_owed _ _ Hrf q) as How. pose proof Hq as Hal.
  rewrite <- (rf_page _ _ Hrf) in Hal. apply page_of_Some in Hal; [|done].
  destruct (get_page_ok q b Hok Hal Hhas) as (f&b'&p&Hg&Hok'&Hm'&Hf'&Hpin&Hpv&Hal'&Hv&Hst&Hacc).
  cbn [exec_op]. rewrite Hg. cbn [mbind res_bind]. rewrite Hf'. cbn [mbind res_bind]. eexists _, b'. split; [done|].
  assert (page_of b q = Some (payload (data_ p))) as Hpg by (unfold page_of; by rewrite decide_True).
  split; [by cbn [spec_out]; rewrite <- (rf_page _ _ Hrf), Hpg|].
  apply (refines_step q b b' s); [done..| | | | |]; sp.
  - by eapply get_page_back.
  - intros q' Hne. rewrite !upd_ne by done. split_and!; [by apply page_of_view; auto|done..].
  - rewrite <- (rf_page _ _ Hrf). apply page_of_view; auto.
  - rewrite <- (rf_pins _ _ Hrf), (pins_at b' q f p) by done. destruct (mapping_ b !! q) as [g|] eqn:Hm.
    + destruct (bo_map _ _ Hok _ _ Hm) as [p0 Hr]. pose proof (re_frame _ _ _ _ Hr) as Hf0.
      destruct (ac_hit _ _ _ _ Hacc g p0 Hm Hf0) as [-> Hff]. rewrite (pins_at b q f p0) by done. assert (p = add_pin_count p0) as -> by congruence. done.
    + unfold pins. rewrite Hm. by apply (ac_miss _ _ _ _ Hacc).
  - intros Ho f1 p1 Hm1 Hf1 Hpos Hc. assert (f1 = f) as -> by congruence. assert (p1 = p) as -> by congruence.
    destruct (mapping_ b !! q) as [g|] eqn:Hm; [|apply (ac_clean _ _ _ _ Hacc); [done|by apply (ac_miss _ _ _ _ Hacc)|done]].
    destruct (bo_map _ _ Hok _ _ Hm) as [p0 Hr]. pose proof (re_frame _ _ _ _ Hr) as Hf0. pose proof (re_pin _ _ _ _ Hr).
    destruct (ac_hit _ _ _ _ Hacc g p0 Hm Hf0) as [-> Hff]. assert (p = add_pin_count p0) as -> by congruence.
    destruct (decide (pin_count_ p0 = 0)); [apply (ac_clean _ _ _ _ Hacc); [done| |done]; cbn; lia|].
    destruct (How Ho f p0 Hm Hf0) as (bs&?&?&?); [lia|done|]. exists bs. by rewrite (ac_hit_disk _ _ _ _ Hacc) by (by rewrite Hm).
Qed.

Lemma alloc_page_back flag b b' f p : BufferPool.alloc_page flag b = Ok (f, b') → bpm_ok b → bpm_ok b' → frame b' f = Ok p →
  mapping_ b' !! page_id_ p = Some f → page_id_ p ∉ alloced b → back (page_id_ p) b b'.
Proof.
  unfold BufferPool.alloc_page. intros H Hok Hok' Hf' Hm' Hnin. apply res_bind_Ok in H as ([id d]&_&H).
  apply res_bind_Ok in H as (b0&Hw&H). unfold w_lock in Hw. change (latch_ (upd_disk d b)) with (latch_ b) in Hw. rewrite (bo_latch _ _ Hok) in Hw. injection Hw as <-.
  apply res_bind_Ok in H as (b1&He&H). apply ensure_free_kept in He. destruct (free_list_ b1) as [|f1 rest]; [done|]. cbv zeta in H.
  apply res_bind_Ok in H as (p0&Hp0&H). apply res_bind_Ok in H as (p1&Hp1&H). apply res_bind_Ok in H as (p2&Hp2&H). apply res_bind_Ok in H as (p3&Hp3&H).
  injection H as -> <-. pose proof (frame_lt _ _ _ Hp0) as Hlt. rewrite frame_set_eq in Hf' by done. injection Hf' as ->.
  assert (page_id_ p = id) as Hid.
  { unfold set_status, set_page_id in Hp3, Hp2. apply res_bind_Ok in Hp3 as (?&_&Hp3). injection Hp3 as <-.
    apply res_bind_Ok in Hp2 as (?&_&Hp2). by injection Hp2 as <-. }
  rewrite Hid in *. assert (mapping_ b !! id = None) as Hnone.
  { apply eq_None_not_Some. intros [g Hg]. destruct (bo_map _ _ Hok _ _ Hg) as [? Hr]. by apply Hnin, Hr. }
  eapply (installed_back id f b b1 _ p); [exact He|done|done| |done|lia].
  cbn [mapping_ set_frame upd_pages w_unlock upd_latch upd_mapping upd_free].
  destruct (mapping_ b1 !! id) as [g|] eqn:Hg; [|done]. pose proof (lookup_weaken _ _ _ _ Hg (proj1 He)) as Hg'. change (mapping_ b !! id = Some g) in Hg'. congruence.
Qed.

Lemma new_refines flag b s : refines b s → op_ok (OpNew flag) s b →
  ∃ o b', exec_op (OpNew flag) b = Ok (o, b') ∧ spec_out (OpNew flag) s o ∧ refines b' (spec_op (OpNew flag) o s).
Proof.
  intros Hrf (Hhas&Hbd). pose proof (rf_ok _ _ Hrf) as Hok.
  destruct (alloc_page_ok flag b Hok Hhas Hbd) as (f&b'&p&Ha&Hok'&Hf'&Hm'&Hp1&Hdy&Hnin&Hal&Hv&Hst&_).
  cbn [exec_op]. rewrite Ha. cbn [mbind res_bind]. rewrite Hf'. cbn [mbind res_bind]. eexists _, b'. split; [done|].
  assert (page_id_ p ∈ alloced b') as Hin by (rewrite Hal; apply elem_of_oset_insert; by left).
  assert (∀ q, q ≠ page_id_ p → q ∈ alloced b' ↔ q ∈ alloced b) as Hal'.
  { intros q Hne. rewrite Hal, elem_of_oset_insert. naive_solver. }
  split.
  { eexists _, _. split; [done|]. rewrite <- (rf_page _ _ Hrf). unfold page_of. rewrite decide_False by done. split; [|done].
    apply (proj1 (do_part _ (bo_disk _ _ Hok') _) (or_intror Hin)). }
  apply (refines_step (page_id_ p) b b' s); [done..| | | | | |]; sp.
  - intros q g p' Hne Hg. apply Hst; [|done]. intros ->. destruct (bo_map _ _ Hok _ _ Hg) as [? Hr].
    pose proof (proj1 (do_part _ (bo_disk _ _ Hok) (-1)) (or_intror (re_alloced _ _ _ _ Hr))). lia.
  - by eapply alloc_page_back.
  - intros q Hne. rewrite !upd_ne by done. split_and!; [|done..]. unfold page_of. rewrite (decide_ext _ _ _ _ (Hal' q Hne)). case_decide; auto.
  - by apply (page_of_at b' _ f p).
  - by rewrite (pins_at b' _ f p).
  - intros _ f1 p1 Hm1 Hf1 _ Hc. assert (f1 = f) as -> by congruence. assert (p1 = p) as -> by congruence. congruence.
Qed.

Lemma free_page_ok q b : bpm_ok b → mapping_ b !! q = None → q < MAX_INT_PAGES →
  ∃ ok d, free_page q (disk_manager_ b) = Ok (ok, d) ∧ bpm_ok (upd_disk d b) ∧
    (∀ q', q' ∈ alloced (upd_disk d b) ↔ q' ∈ alloced b ∧ q' ≠ q) ∧
    ∀ q', q' ∈ alloced b → q' ≠ q → disk_page d q' = disk_page (disk_manager_ b) q'.
Proof.
  intros Hok Hm Hbd. destruct (decide (q ∈ alloced b)) as [Hq|Hq].
  - destruct (free_page_aux q (disk_manager_ b) (bo_disk _ _ Hok) Hq Hbd) as (d&Hf&Hdok&Hal&_&_&_&Hdk). exists true, d. split; [done|].
    assert (∀ q', q' ∈ alloced (upd_disk d b) ↔ q' ∈ alloced b ∧ q' ≠ q) as Hal'.
    { intros q'. unfold alloced. cbn [disk_manager_ upd_disk]. rewrite Hal, elem_of_oset_erase. naive_solver. }
    split; [|done]. destruct Hok as [Hla Hpg Hrep Hfree Hnd Hmap Hrin Hdk0 Hun]. constructor; try done.
    + intros q' f Hf'. destruct (Hmap _ _ Hf') as [p [F I P S A Re C]]. assert (q' ≠ q) by (intros ->; change (mapping_ b !! q = Some f) in Hf'; congruence).
      exists p. constructor; try done; [by apply Hal'|]. intros H1 H2. cbn [disk_manager_ upd_disk]. rewrite Hdk by done. auto.
    + intros q' [Hq' Hne]%Hal' Hx Hno. cbn [disk_manager_ upd_disk]. rewrite Hdk by done. auto.
  - unfold free_page. assert (oset_mem q (alloced_pgid_ (dm (disk_manager_ b))) = false) as -> by (by apply bool_decide_eq_false_2).
    assert (bpm_ok (upd_disk (disk_manager_ b) b)) by (by destruct b). assert (∀ q', q' ∈ alloced b ↔ q' ∈ alloced b ∧ q' ≠ q) by naive_solver.
    destruct (q <? 0); by eexists _, _.
Qed.

Lemma delete_refines q b s : refines b s → op_ok (OpDelete q) s b →
  ∃ o b', exec_op (OpDelete q) b = Ok (o, b') ∧ spec_out (OpDelete q) s o ∧ refines b' (spec_op (OpDelete q) o s).
Proof.
  intros Hrf Hop. pose proof (rf_ok _ _ Hrf) as Hok. cbn [exec_op spec_out op_ok] in *. unfold delete_page, w_lock. rewrite (bo_latch _ _ Hok). cbn [mbind res_bind].
  change (mapping_ (upd_latch true b)) with (mapping_ b). pose proof (rf_pins _ _ Hrf q) as Hpn.
  destruct Hop as [Hp|[Hm Hbd]].
  - rewrite <- Hpn in Hp |- *. pose proof Hp as (f&p&Hm&Hf&Hpp)%pins_pos. rewrite Hm. change (frame (upd_latch true b) f) with (frame b f). rewrite Hf. cbn [mbind res_bind].
    rewrite bool_decide_eq_true_2 by lia. cbn [mbind res_bind]. eexists _, _. split; [done|]. rewrite (proj2 (Z.eqb_neq (pins b q) 0)) by lia. split; [done|].
    by rewrite upd_latch_id by apply Hok.
  - rewrite Hm. cbv zeta. rewrite upd_latch_id by apply Hok. destruct (free_page_ok q b Hok Hm Hbd) as (ok&d&->&Hok'&Hal&Hdk). cbn [mbind res_bind].
    assert (pins b q = 0) as Hz by (unfold pins; by rewrite Hm). eexists _, _. split; [done|]. rewrite <- Hpn, Hz. split; [done|].
    apply (refines_step q b _ s); [done|done| |by intros q' _| | | |]; sp.
    + intros q' f p Hne Hm' Hf' _. split_and!; [done..|]. destruct (bo_map _ _ Hok _ _ Hm') as [? Hr]. by apply Hdk; [apply Hr|].
    + intros q' Hne. rewrite !upd_ne by done. split_and!; [|done..]. unfold page_of.
      assert (q' ∈ alloced (upd_disk d b) ↔ q' ∈ alloced b) as E by (rewrite Hal; naive_solver). rewrite (decide_ext _ _ _ _ E). case_decide; [|done].
      unfold view. cbn [mapping_ upd_disk disk_manager_]. by rewrite Hdk.
    + unfold page_of. rewrite decide_False; [done|]. rewrite Hal. naive_solver.
    + done.
    + intros _ f1 p1 Hm1. cbn [mapping_ upd_disk] in Hm1. congruence.
Qed.

Lemma flush_each_refines ids : ∀ b s, refines b s → Forall (λ q, mapping_ b !! q ≠ None) ids →
  ∃ b', flush_each ids true b = Ok (true, b') ∧ mapping_ b' = mapping_ b ∧
    refines b' (mkStore (s_page s) (s_pins s) (λ q, if decide (q ∈ ids) then false else s_owed s q)).
Proof.
  induction ids as [|q ids IH]; intros b s Hrf Hall; cbn [flush_each].
  - exists b. split_and!; [done..|]. destruct Hrf as [H1 H2 H3 H4]. by constructor.
  - apply Forall_cons in Hall as [Hq Hall]. destruct (mapping_ b !! q) as [f|] eqn:Hm; [|done].
    destruct (flush_refines q f b s Hrf Hm) as (b1&->&Hm1&Hrf1). cbn [mbind res_bind].
    destruct (IH b1 _ Hrf1) as (b'&->&Hm'&Hrf'); [by rewrite Hm1|]. exists b'. split_and!; [done|congruence|].
    destruct Hrf' as [H1 H2 H3 H4]. constructor; try done. intros q'. sp. specialize (H4 q'). sp.
    intros Hd. apply H4. destruct (decide (q' ∈ ids)) as [|E1]; [done|]. destruct (decide (q' = q)) as [->|E2]; [apply upd_eq|]. rewrite upd_ne by done. rewrite decide_False in Hd by (rewrite elem_of_cons; naive_solver). done.
Qed.

Lemma flush_all_refines b s : refines b s → ∃ b', flush_all b = Ok (true, b') ∧ refines b' (spec_op OpFlushAll (OutBool true) s).
Proof.
  intros Hrf. unfold flush_all, r_lock. rewrite (bo_latch _ _ (rf_ok _ _ Hrf)). cbn [mbind res_bind].
  destruct (flush_each_refines (fst <$> map_to_list (mapping_ b)) b s Hrf) as (b'&->&Hm&[H1 H2 H3 H4]).
  { apply Forall_forall. intros q ([q' f]&->&Hin)%list_elem_of_fmap. apply elem_of_map_to_list in Hin. intros E; cbn [fst] in E; congruence. }
  exists b'. split; [done|]. constructor; try done. sp. intros q _ f p Hmq. apply (H4 q); [|done].
  rewrite decide_True; [done|]. apply list_elem_of_fmap. exists (q, f). split; [done|]. apply elem_of_map_to_list. by rewrite <- Hm.
Qed.

Lemma exec_op_refines op b s : refines b s → op_ok op s b →
  ∃ o b', exec_op op b = Ok (o, b') ∧ spec_out op s o ∧ refines b' (spec_op op o s).
Proof.
  intros Hrf Hop. destruct op as [flag|q|q off bs|q dirty|q| |q].
  - by apply new_refines.
  - by apply get_refines.
  - destruct (write_refines q off bs b s Hrf Hop) as (b'&H&?). cbn [exec_op]. rewrite H. by eexists _, b'.
  - destruct (unpin_refines q dirty b s Hrf Hop) as (b'&H&?). cbn [exec_op]. rewrite H. by eexists _, b'.
  - cbn [exec_op spec_out]. destruct (mapping_ b !! q) as [f|] eqn:Hm.
    + destruct (flush_refines q f b s Hrf Hm) as (b'&->&_&?). eexists _, b'. split; [done|]. split; [by exists true|done].
    + unfold flush_page, r_lock, get_frame_id. rewrite (bo_latch _ _ (rf_ok _ _ Hrf)). cbn [mbind res_bind]. rewrite Hm. eexists _, b. split; [done|].
      split; [exists false; split; [done|]; rewrite <- (rf_pins _ _ Hrf); unfold pins; rewrite Hm; lia|].
      destruct Hrf as [H1 H2 H3 H4]. constructor; try done. sp. intros q'. unfold upd. case_decide as E; [|apply H4]. subst q'. intros _ f p Hm'. congruence.
  - destruct (flush_all_refines b s Hrf) as (b'&H&?). cbn [exec_op]. rewrite H. by eexists _, b'.
  - by apply delete_refines.
Qed.


(** ** Single operations *)

(** [get_page] on an allocated page, when it is resident or a frame can be
    had, returns a pinned frame with that page's current contents; no page
    changes, and every other pinned page stays in its frame untouched. *)
Theorem get_page_correct q b :
  bpm_ok b → q ∈ alloced b → (mapping_ b !! q = None → has_frame b) →
  ∃ f b' p, get_page q b = Ok (Some f, b') ∧ bpm_ok b' ∧ mapping_ b' !! q = Some f ∧
    frame b' f = Ok p ∧ 0 < pin_count_ p ∧ Some (payload (data_ p)) = view b q ∧
    alloced b' = alloced b ∧ (∀ q', q' ∈ alloced b → view b' q' = view b q') ∧ pinned_stay q b b'.
Proof. intros H1 H2 H3. destruct (get_page_ok q b H1 H2 H3) as (f&b'&p&?&?&?&?&?&?&?&?&?&_). by exists f, b', p. Qed.

(** [new_page] and [new_tmp_page] hand out a page id that was not in use,
    in a frame of its own with pin count 1 and marked dirty; existing pages keep
    their contents and pinned ones their frames. *)
Theorem new_page_correct flag b :
  bpm_ok b → has_frame b → 2 * max_ava_pgid_ (dm (disk_manager_ b)) ≤ MAX_INT_PAGES →
  ∃ f b' p, BufferPool.alloc_page flag b = Ok (f, b') ∧ bpm_ok b' ∧ frame b' f = Ok p ∧
    mapping_ b' !! page_id_ p = Some f ∧ pin_count_ p = 1 ∧ is_dirty_ p = true ∧
    (page_id_ p ∉ alloced b) ∧ alloced b' = oset_insert (page_id_ p) (alloced b) ∧
    (∀ q, q ∈ alloced b → view b' q = view b q) ∧ pinned_stay (-1) b b'.
Proof. intros H1 H2 H3. destruct (alloc_page_ok flag b H1 H2 H3) as (f&b'&p&?&?&?&?&?&?&?&?&?&?&_). by exists f, b', p. Qed.

(** [flush_page] makes a resident page durable: the file then holds the
    frame's bytes at the page's offset and the frame is clean; no other page
    changes in memory or on disk. *)
Theorem flush_page_correct q f p b :
  bpm_ok b → mapping_ b !! q = Some f → frame b f = Ok p →
  ∃ b', flush_page q b = Ok (true, b') ∧ bpm_ok b' ∧ mapping_ b' = mapping_ b ∧ alloced b' = alloced b ∧
    frame b' f = Ok (set_is_dirty p false) ∧ disk_page (disk_manager_ b') q = Ok (data_ p) ∧
    (∀ q', q' ∈ alloced b → q' ≠ q → disk_page (disk_manager_ b') q' = disk_page (disk_manager_ b) q') ∧
    (∀ q', q' ∈ alloced b → view b' q' = view b q') ∧ pinned_stay q b b'.
Proof. apply flush_page_ok. Qed.

(** when the disk read of [get_page] fails (a page id past the end of the
    file, a frame being free), the call returns the null pointer but keeps the
    pool's latch: every later [get_page], [unpin_page], [flush_page] or
    [delete_page] blocks for ever. *)
Theorem failed_read_keeps_latch q b c :
  bpm_ok b → 0 ≤ q → mapping_ b !! q = None → free_list_ b ≠ [] →
  db_file (disk_manager_ b) = Some c → zlen c < (q + 1) * PAGE_SIZE →
  ∃ b', get_page q b = Ok (None, b') ∧
    (∀ q', 0 ≤ q' → get_page q' b' = Err Blocked) ∧
    (∀ q' dirty, unpin_page q' dirty b' = Err Blocked) ∧
    (∀ q', flush_page q' b' = Err Blocked) ∧ (∀ q', delete_page q' b' = Err Blocked).
Proof.
  intros Hok Hq Hm Hfl Hc Hlen.
  destruct (free_list_ b) as [|f rest] eqn:Ef; [done|].
  destruct (bo_free _ _ Hok f) as [Hlt _]; [rewrite Ef; by left|].
  destruct (frame_ex b f Hlt) as [p Hp].
  destruct (short_read_aux _ _ _ Hc Hq Hlen) as (bs&w'&Hr&_).
  unfold get_page at 1. rewrite bool_decide_eq_false_2 by (unfold INVALID_PAGE_ID; lia).
  unfold w_lock. rewrite (bo_latch _ _ Hok). cbn [mbind res_bind].
  change (mapping_ (upd_latch true b)) with (mapping_ b). rewrite Hm.
  assert (ensure_free (ensure_fuel (upd_latch true b)) (upd_latch true b) = Ok (upd_latch true b)) as ->.
  { unfold ensure_fuel. cbn [ensure_free]. change (free_list_ (upd_latch true b)) with (free_list_ b).
    by rewrite Ef. }
  cbn [mbind res_bind]. change (free_list_ (upd_latch true b)) with (free_list_ b). rewrite Ef.
  change (frame (upd_latch true b) f) with (frame b f). rewrite Hp. cbn [mbind res_bind].
  change (disk_manager_ (upd_latch true b)) with (disk_manager_ b). rewrite Hr. cbn [negb].
  eexists. split; [done|]. split_and!; try done.
  intros q' Hq'. unfold get_page. by rewrite bool_decide_eq_false_2 by (unfold INVALID_PAGE_ID; lia).
Qed.

End PoolSpec.

(** ** Witnesses: a pool of three frames over the database "t" *)

Definition pool_t : BufferPoolManager ClockReplacer := BufferPoolManager_new disk_t 3.

Lemma pool_t_ok : bpm_ok pool_t ∧ alloced pool_t = [0] ∧ free_list_ pool_t = [0; 1; 2].
Proof.
  split; [|split; [apply (proj1 (proj2 disk_t_ok))|reflexivity]].
  apply BufferPoolManager_new_ok; [lia|apply (rs_ok _ _ (proj1 disk_t_ok))|].
  intros q Hq. rewrite (proj1 (proj2 disk_t_ok)) in Hq. apply list_elem_of_singleton in Hq as ->.
  exists (1 :: replicate 4095 0). split; vm_compute; reflexivity.
Qed.

(** the protocol as a test, for a pool that refines a store *)
Section Test.
Context {R : Type} `{RA : ReplacerAbstract R}.
Implicit Types (b : BufferPoolManager R) (s : store).

Definition has_frameb b : bool :=
  bool_decide (free_list_ b ≠ []) || existsb (λ '(q, _), pins b q =? 0) (map_to_list (mapping_ b)).
Definition op_okb (op : pool_op) s b : bool :=
  match op with
  | OpNew _ => has_frameb b && (2 * max_ava_pgid_ (dm (disk_manager_ b)) <=? MAX_INT_PAGES)
  | OpGet q => bool_decide (s_page s q ≠ None) && (bool_decide (mapping_ b !! q ≠ None) || has_frameb b)
  | OpWrite q off bs => (0 <? s_pins s q) && (HEADER_USED <=? off) && (off + zlen bs <=? PAGE_SIZE)
  | OpUnpin q dirty => (0 <? s_pins s q) && (dirty || negb (s_owed s q) || (1 <? s_pins s q))
  | OpFlush _ | OpFlushAll => true
  | OpDelete q => (0 <? s_pins s q) || (bool_decide (mapping_ b !! q = None) && (q <? MAX_INT_PAGES))
  end.
Fixpoint run_okb (ops : list pool_op) s b : bool :=
  match ops with
  | [] => true
  | op :: ops => op_okb op s b && match exec_op op b with Ok (o, b') => run_okb ops (spec_op op o s) b' | Err _ => true end
  end.

Lemma has_frameb_sound b : bpm_ok b → has_frameb b = true → has_frame b.
Proof.
  intros Hok [H|H]%orb_true_iff; [left; by apply bool_decide_eq_true_1 in H|right].
  apply existsb_exists in H as ([q f]&Hin%list_elem_of_In&Hp%Z.eqb_eq). apply elem_of_map_to_list in Hin.
  destruct (bo_map _ _ Hok _ _ Hin) as [p Hr]. exists (Z.to_nat f). apply (re_rep _ _ _ _ Hr).
  unfold pins in Hp. by rewrite Hin, (re_frame _ _ _ _ Hr) in Hp.
Qed.
Lemma op_okb_sound op s b : bpm_ok b → op_okb op s b = true → op_ok op s b.
Proof.
  intros Hok. pose proof (has_frameb_sound b Hok). destruct op; cbn [op_okb op_ok];
    rewrite ?andb_true_iff, ?orb_true_iff, ?andb_true_iff, ?bool_decide_eq_true, ?Z.leb_le, ?Z.ltb_lt, ?negb_true_iff; naive_solver.
Qed.
Lemma run_okb_sound ops : ∀ s b, refines b s → run_okb ops s b = true → run_ok ops s b.
Proof.
  induction ops as [|op ops IH]; intros s b Hrf; [done|]. cbn [run_okb run_ok]. intros [Hop%op_okb_sound Hr]%andb_true_iff; [|apply Hrf].
  split; [done|]. intros o b' E. rewrite E in Hr. apply IH; [|done].
  destruct (exec_op_refines op b s Hrf Hop) as (o1&b1&E1&_&Hrf1). rewrite E in E1. by injection E1 as -> ->.
Qed.
Lemma fresh_refines d n : bpm_ok (BufferPoolManager_new (R:=R) d n) →
  refines (BufferPoolManager_new (R:=R) d n) (mkStore (page_of (BufferPoolManager_new (R:=R) d n)) (λ _, 0) (λ _, false)).
Proof. by constructor. Qed.
End Test.

(** one frame for all pages: page 0 is changed, released, and pinned again by a reader who
    changes nothing; a new page evicts it; a pinned page is not deleted, an evicted one is *)
Definition pool_1 : BufferPoolManager ClockReplacer := BufferPoolManager_new disk_t 1.
Definition store_1 : store := mkStore (page_of pool_1) (λ _, 0) (λ _, false).
Definition ops_t : list pool_op :=
  [OpGet 0; OpWrite 0 100 [7]; OpUnpin 0 true; OpGet 0; OpUnpin 0 false; OpNew STATUS_EXIST; OpWrite 1 20 [5]; OpFlushAll; OpUnpin 1 false;
   OpGet 0; OpDelete 0; OpGet 0; OpWrite 0 30 [9]; OpUnpin 0 false; OpUnpin 0 true; OpGet 1; OpFlush 0; OpDelete 0; OpUnpin 1 false].


Lemma get_page_correct_witness :
  ∃ f b' p, get_page 0 pool_t = Ok (Some f, b') ∧ bpm_ok b' ∧ mapping_ b' !! 0 = Some f ∧
    frame b' f = Ok p ∧ 0 < pin_count_ p ∧ Some (payload (data_ p)) = view pool_t 0 ∧
    alloced b' = alloced pool_t ∧ (∀ q', q' ∈ alloced pool_t → view b' q' = view pool_t q') ∧
    pinned_stay 0 pool_t b'.
Proof.
  apply (get_page_correct 0 pool_t);
    [apply pool_t_ok|rewrite (proj1 (proj2 pool_t_ok)); apply list_elem_of_singleton; reflexivity|].
  intros _. left. rewrite (proj2 (proj2 pool_t_ok)). discriminate.
Defined.

Lemma new_page_correct_witness :
  ∃ f b' p, BufferPool.alloc_page STATUS_TMP pool_t = Ok (f, b') ∧ bpm_ok b' ∧ frame b' f = Ok p ∧
    mapping_ b' !! page_id_ p = Some f ∧ pin_count_ p = 1 ∧ is_dirty_ p = true ∧
    (page_id_ p ∉ alloced pool_t) ∧ alloced b' = oset_insert (page_id_ p) (alloced pool_t) ∧
    (∀ q, q ∈ alloced pool_t → view b' q = view pool_t q) ∧ pinned_stay (-1) pool_t b'.
Proof.
  apply (new_page_correct STATUS_TMP pool_t); [apply pool_t_ok| |vm_compute; discriminate].
  left. rewrite (proj2 (proj2 pool_t_ok)). discriminate.
Defined.

Lemma flush_page_correct_witness :
  ∃ b1 p b2, get_page 0 pool_t = Ok (Some 0, b1) ∧ frame b1 0 = Ok p ∧
    flush_page 0 b1 = Ok (true, b2) ∧ disk_page (disk_manager_ b2) 0 = Ok (data_ p).
Proof.
  destruct (get_page_ok 0 pool_t) as (f&b1&p&Hg&Hok&Hm&Hf&_);
    [apply pool_t_ok|rewrite (proj1 (proj2 pool_t_ok)); apply list_elem_of_singleton; reflexivity|
     intros _; left; rewrite (proj2 (proj2 pool_t_ok)); discriminate|].
  assert (f = 0) as ->.
  { assert ((fst <$> get_page 0 pool_t) = Ok (Some 0)) as E by (vm_compute; reflexivity).
    rewrite Hg in E. injection E as <-. reflexivity. }
  destruct (flush_page_correct 0 0 p b1 Hok Hm Hf) as (b2&Hfl&_&_&_&_&Hd&_).
  exists b1, p, b2. split_and!; assumption.
Defined.

Lemma failed_read_keeps_latch_witness :
  ∃ b', get_page 7 pool_t = Ok (None, b') ∧
    (∀ q', 0 ≤ q' → get_page q' b' = Err Blocked) ∧
    (∀ q' dirty, unpin_page q' dirty b' = Err Blocked) ∧
    (∀ q', flush_page q' b' = Err Blocked) ∧ (∀ q', delete_page q' b' = Err Blocked).
Proof.
  apply (failed_read_keeps_latch 7 pool_t (1 :: replicate 4095 0)); [apply pool_t_ok|lia|reflexivity| | |].
  - rewrite (proj2 (proj2 pool_t_ok)). discriminate.
  - vm_compute. reflexivity.
  - vm_compute. reflexivity.
Defined.

(** ** Deleting a page leaves its frame in the replacer *)

(** one frame: a page is created, released and deleted, a second page takes the
    frame and is still pinned when a third one is created *)
Definition delete_scenario : res (Z * Z * option Z * option Z) :=
  let* (f1, b) := new_page (BufferPoolManager_new (R:=ClockReplacer) disk_t 1) in
  b ← unpin_page 1 true b;
  let* (_, b) := delete_page 1 b in
  let* (f2, b) := new_page b in
  p ← frame b f2;
  let q2 := page_id_ p in
  let* (f3, b) := new_page b in
  p ← frame b f3;
  Ok (q2, page_id_ p, mapping_ b !! q2, mapping_ b !! page_id_ p).

(** after [delete_page] of an unpinned page the replacer still offers the
    page's frame, so the next page placed there can be evicted while it is
    pinned: in a pool of one frame, page 1 (just created and never released)
    loses its frame to page 2. *)
Theorem delete_page_evicts_pinned : delete_scenario = Ok (1, 2, None, Some 0).
Proof. vm_compute. reflexivity. Qed.
