(* ===== verification/Values.v ===== *)
(** Typed values ([src/include/data/types.h], [values.h], [boolean.h],
    [integer.h], [decimal.h], [char.h], [src/data/values.cpp] and [types.cpp]):
    the tagged union [Value] with its operators, and the virtual class [Type] as a
    record of operations with its four instances. *)
From Stdlib Require Import SpecFloat.
From S2P Require Import Prelude Config.

(** ** Enumerations *)

Inductive TypeId := kInvalid | kBoolean | kInteger | kDecimal | kChar.
Inductive CmpResult := kTrue | kFalse.
#[global] Instance TypeId_eq : EqDecision TypeId.
Proof. solve_decision. Defined.
#[global] Instance CmpResult_eq : EqDecision CmpResult.
Proof. solve_decision. Defined.

Definition TypeId_int (t : TypeId) : Z :=
  match t with kInvalid => -1 | kBoolean => 0 | kInteger => 1 | kDecimal => 2 | kChar => 3 end.
Definition type_to_string (t : TypeId) : string :=
  match t with
  | kInvalid => "kInvalid" | kBoolean => "kBoolean" | kInteger => "kInteger"
  | kDecimal => "kDecimal" | kChar => "kChar"
  end%string.
(** [Type::get_type_size] *)
Definition get_type_size (t : TypeId) : Z :=
  match t with
  | kBoolean => BOOLEAN_T_SIZE | kInteger => INTEGER_T_SIZE | kDecimal => DECIMAL_T_SIZE | _ => -1
  end.

(** ** The machine side: C strings and doubles *)

(** the bytes before the first NUL *)
Fixpoint until_nul (l : bytes) : option bytes :=
  match l with
  | [] => None
  | c :: l => if c =? 0 then Some [] else (c ::.) <$> until_nul l
  end.
(** the C string at offset [off]: reading past the object is a fault *)
Definition c_string (m : bytes) (off : Z) : res bytes :=
  if (0 <=? off) && (off <=? zlen m) then of_opt OutOfBounds (until_nul (drop (Z.to_nat off) m)) else Err OutOfBounds.

(** eight bytes, little-endian, unsigned *)
Definition enc64 (z : Z) : bytes := enc32 (z mod 4294967296) ++ enc32 (z / 4294967296).
Definition dec64 (bs : bytes) : Z :=
  dec32 (take 4 bs) mod 4294967296 + 4294967296 * (dec32 (drop 4 bs) mod 4294967296).

(** a [double] is its 64-bit pattern; its arithmetic is that of IEEE 754 binary64 *)
Definition b64_of_bits (z : Z) : spec_float :=
  let s := Z.testbit z 63 in
  let e := Z.land (Z.shiftr z 52) 2047 in
  let m := Z.land z (2 ^ 52 - 1) in
  if e =? 2047 then (if m =? 0 then S754_infinity s else S754_nan)
  else if e =? 0 then match m with Zpos p => S754_finite s p (-1074) | _ => S754_zero s end
  else match m + 2 ^ 52 with Zpos p => S754_finite s p (e - 1075) | _ => S754_nan end.
Definition bits_of_b64 (f : spec_float) : Z :=
  let sign (s : bool) := if s then 2 ^ 63 else 0 in
  match f with
  | S754_zero s => sign s
  | S754_infinity s => sign s + 2047 * 2 ^ 52
  | S754_nan => 4095 * 2 ^ 51
  | S754_finite s p e =>
      if Zpos p <? 2 ^ 52 then sign s + Zpos p
      else sign s + (e + 1075) * 2 ^ 52 + (Zpos p - 2 ^ 52)
  end.
Definition d_op (f : Z → Z → spec_float → spec_float → spec_float) (a b : Z) : Z :=
  bits_of_b64 (f 53 1024 (b64_of_bits a) (b64_of_bits b)).
Definition d_lt (a b : Z) : bool := SFltb (b64_of_bits a) (b64_of_bits b).
Definition d_le (a b : Z) : bool := SFleb (b64_of_bits a) (b64_of_bits b).
Definition d_eq (a b : Z) : bool := SFeqb (b64_of_bits a) (b64_of_bits b).
Definition d_one : Z := 1023 * 2 ^ 52.

(** ** [Value] *)

(** the union [value_]: the member last stored, [VChar] with the array [char_]
    points to *)
Inductive union :=
  | VNone
  | VBool (b : bool)
  | VInt (z : Z)
  | VDec (d : Z)
  | VChar (buf : bytes).
Record Value := mkValue { value_ : union; type_id_ : TypeId; str_len_ : Z }.
#[global] Instance union_eq : EqDecision union.
Proof. solve_decision. Defined.

(** the bytes of the union that its member occupies; a pointer has none *)
Definition union_bytes (u : union) : bytes :=
  match u with
  | VBool b => [Z.b2z b]
  | VInt z => enc32 z
  | VDec d => enc64 d
  | VNone | VChar _ => []
  end.

(** [get_value<T>()]: reading a member that was not stored is a fault *)
Definition get_boolean (v : Value) : res bool := match value_ v with VBool b => Ok b | _ => Err UninitRead end.
Definition get_integer (v : Value) : res Z := match value_ v with VInt z => Ok z | _ => Err UninitRead end.
Definition get_decimal (v : Value) : res Z := match value_ v with VDec d => Ok d | _ => Err UninitRead end.
Definition get_char (v : Value) : res bytes := match value_ v with VChar b => Ok b | _ => Err UninitRead end.

Definition Value_invalid : Value := mkValue VNone kInvalid (-1).
Definition Value_bool (b : bool) : Value := mkValue (VBool b) kBoolean (-1).
Definition Value_cmp (c : CmpResult) : Value := mkValue (VBool (bool_decide (c = kTrue))) kBoolean (-1).
Definition Value_int (z : Z) : Value := mkValue (VInt z) kInteger (-1).
Definition Value_dec (d : Z) : Value := mkValue (VDec d) kDecimal (-1).
(** [construct(val, size)]: [size] bytes of [val] and a NUL *)
Definition construct_char (val : bytes) (size : Z) : res Value :=
  buf ← mem_set (replicate (Z.to_nat (size + 1)) 0) 0 0 (size + 1);
  bs ← mem_read val 0 size;
  buf ← mem_write buf 0 bs;
  buf ← wr8 buf size 0;
  Ok (mkValue (VChar buf) kChar size).
(** [Value(const char *val)]: [val] is the array whose start the pointer is *)
Definition Value_cstr (val : bytes) : res Value := s ← c_string val 0; construct_char val (zlen s).
(** [Value(const string_t&)] *)
Definition Value_string (s : bytes) : Value := mkValue (VChar (s ++ [0])) kChar (zlen s).

(** ** The virtual class [Type] *)

Record Type_ := mkType {
  cmp_less : Value → Value → res CmpResult;
  cmp_less_and_eq : Value → Value → res CmpResult;
  cmp_eq : Value → Value → res CmpResult;
  cmp_not_eq : Value → Value → res CmpResult;
  cmp_greater_and_eq : Value → Value → res CmpResult;
  cmp_greater : Value → Value → res CmpResult;
  minus : Value → Value → res Value;
  add : Value → Value → res Value;
  multiply : Value → Value → res Value;
  divide : Value → Value → res Value;
  vmin : Value → Value → res Value;
  vmax : Value → Value → res Value;
  (* [serialize_to(dst, src)]: the buffer and offset of [dst], the union [src] is in *)
  t_serialize_to : bytes → Z → union → res bytes;
  (* [deserialize_from(dst, src)]: the union [dst] is in, the buffer and offset of [src] *)
  t_deserialize_from : union → bytes → Z → res union;
}.

Definition cmp_of (b : bool) : CmpResult := if b then kTrue else kFalse.

Definition Boolean : Type_ :=
  let no_cmp (_ _ : Value) : res CmpResult := Ok kFalse in
  let no_op (_ _ : Value) : res Value := Ok Value_invalid in
  {| cmp_less := no_cmp; cmp_less_and_eq := no_cmp;
     cmp_eq := λ l r, a ← get_boolean l; b ← get_boolean r; Ok (cmp_of (eqb a b));
     cmp_not_eq := λ l r, a ← get_boolean l; b ← get_boolean r; Ok (if eqb a b then kFalse else kTrue);
     cmp_greater_and_eq := no_cmp; cmp_greater := no_cmp;
     minus := no_op; add := no_op; multiply := no_op; divide := no_op; vmin := no_op; vmax := no_op;
     t_serialize_to := λ dst o u, bs ← mem_read (union_bytes u) 0 BOOLEAN_T_SIZE; mem_write dst o bs;
     t_deserialize_from := λ _ src o,
       b ← rd8 src o;
       (* a [bool] is 0 or 1, any other byte is an indeterminate value *)
       if b =? 0 then Ok (VBool false) else if b =? 1 then Ok (VBool true) else Err UninitRead |}.

Definition Integer : Type_ :=
  let cmp (f : Z → Z → bool) l r : res CmpResult := a ← get_integer l; b ← get_integer r; Ok (cmp_of (f a b)) in
  let op (f : Z → Z → res Z) l r : res Value := a ← get_integer l; b ← get_integer r; z ← f a b; Ok (Value_int z) in
  {| cmp_less := cmp Z.ltb; cmp_less_and_eq := cmp Z.leb; cmp_eq := cmp Z.eqb;
     cmp_not_eq := cmp (λ a b, negb (a =? b)); cmp_greater_and_eq := cmp Z.geb; cmp_greater := cmp Z.gtb;
     minus := op sub32; add := op add32; multiply := op mul32; divide := op div32;
     vmin := op (λ a b, Ok (Z.min a b)); vmax := op (λ a b, Ok (Z.max a b));
     t_serialize_to := λ dst o u, bs ← mem_read (union_bytes u) 0 INTEGER_T_SIZE; mem_write dst o bs;
     t_deserialize_from := λ _ src o, z ← rd32 src o; Ok (VInt z) |}.

Definition Decimal : Type_ :=
  let cmp (f : Z → Z → bool) l r : res CmpResult := a ← get_decimal l; b ← get_decimal r; Ok (cmp_of (f a b)) in
  let op (f : Z → Z → Z) l r : res Value := a ← get_decimal l; b ← get_decimal r; Ok (Value_dec (f a b)) in
  {| cmp_less := cmp d_lt; cmp_less_and_eq := cmp d_le; cmp_eq := cmp d_eq;
     cmp_not_eq := cmp (λ a b, negb (d_eq a b)); cmp_greater_and_eq := cmp (λ a b, d_le b a); cmp_greater := cmp (λ a b, d_lt b a);
     minus := op (d_op SFsub); add := op (d_op SFadd); multiply := op (d_op SFmul); divide := op (d_op SFdiv);
     (* [std::min] and [std::max] keep the first argument unless the second is smaller, larger *)
     vmin := op (λ a b, if d_lt b a then b else a); vmax := op (λ a b, if d_lt a b then b else a);
     t_serialize_to := λ dst o u, bs ← mem_read (union_bytes u) 0 DECIMAL_T_SIZE; mem_write dst o bs;
     t_deserialize_from := λ _ src o, bs ← mem_read src o DECIMAL_T_SIZE; Ok (VDec (dec64 bs)) |}.

Definition Char : Type_ :=
  let no_cmp (_ _ : Value) : res CmpResult := Ok kFalse in
  let no_op (_ _ : Value) : res Value := Ok Value_invalid in
  {| cmp_less := no_cmp; cmp_less_and_eq := no_cmp; cmp_eq := no_cmp; cmp_not_eq := no_cmp;
     cmp_greater_and_eq := no_cmp; cmp_greater := no_cmp;
     minus := no_op; add := no_op; multiply := no_op; divide := no_op; vmin := no_op; vmax := no_op;
     t_serialize_to := λ dst o u,
       match u with
       | VChar buf => s ← c_string buf 0; mem_write dst o (s ++ [0])
       | _ => Err UninitRead
       end;
     t_deserialize_from := λ u src o,
       match u with
       | VChar buf => s ← c_string src o; buf ← mem_write buf 0 (s ++ [0]); Ok (VChar buf)
       | _ => Err UninitRead
       end |}.

Definition singleton : list Type_ := [Boolean; Integer; Decimal; Char].
(** [singleton[(int)type_id]]; the index of [kInvalid] is -1 *)
Definition get_instance (t : TypeId) : res Type_ :=
  if TypeId_int t <? 0 then Err OutOfBounds else of_opt OutOfBounds (singleton !! Z.to_nat (TypeId_int t)).

Definition Value_serialize_to (v : Value) (storage : bytes) (o : Z) : res bytes :=
  T ← get_instance (type_id_ v); t_serialize_to T storage o (value_ v).
Definition Value_deserialize_from (v : Value) (src : bytes) (o : Z) : res Value :=
  T ← get_instance (type_id_ v);
  u ← t_deserialize_from T (value_ v) src o;
  Ok (mkValue u (type_id_ v) (str_len_ v)).
(** [Value(char *value, TypeId type_id, size_t_ str_size)] *)
Definition Value_from (src : bytes) (o : Z) (type_id : TypeId) (str_size : Z) : res Value :=
  u ← (if decide (type_id = kChar)
       then buf ← mem_set (replicate (Z.to_nat (str_size + 1)) 0) 0 0 (str_size + 1); Ok (VChar buf)
       else Ok VNone);
  Value_deserialize_from (mkValue u type_id str_size) src o.

(** ** Operators *)

(** [std::string::compare], by the unsigned bytes *)
Fixpoint str_lt (a b : bytes) : bool :=
  match a, b with
  | _, [] => false
  | [], _ :: _ => true
  | x :: a, y :: b => if x <? y then true else if x =? y then str_lt a b else false
  end.

Definition Value_eq (l r : Value) : res bool :=
  if decide (type_id_ l = type_id_ r) then
    match type_id_ r with
    | kInteger => a ← get_integer l; b ← get_integer r; Ok (a =? b)
    | kBoolean => a ← get_boolean l; b ← get_boolean r; Ok (eqb a b)
    | kDecimal => a ← get_decimal l; b ← get_decimal r; Ok (d_eq a b)
    | kChar => a ← get_char l; b ← get_char r; s ← c_string a 0; t ← c_string b 0; Ok (bool_decide (s = t))
    | kInvalid => Ok false
    end
  else Ok false.
Definition Value_ne (l r : Value) : res bool :=
  if decide (type_id_ l = type_id_ r) then
    match type_id_ r with
    | kInteger => a ← get_integer l; b ← get_integer r; Ok (negb (a =? b))
    | kBoolean => a ← get_boolean l; b ← get_boolean r; Ok (negb (eqb a b))
    | kDecimal => a ← get_decimal l; b ← get_decimal r; Ok (negb (d_eq a b))
    | kChar => a ← get_char l; b ← get_char r; s ← c_string a 0; t ← c_string b 0; Ok (negb (bool_decide (s = t)))
    | kInvalid => Ok false
    end
  else Ok false.
Definition Value_lt (l r : Value) : res bool :=
  if decide (type_id_ l = type_id_ r) then
    match type_id_ l with
    | kBoolean | kInvalid => Ok false
    | kInteger => a ← get_integer l; b ← get_integer r; Ok (a <? b)
    | kDecimal => a ← get_decimal l; b ← get_decimal r; Ok (d_lt a b)
    | kChar => a ← get_char l; b ← get_char r; s ← c_string a 0; t ← c_string b 0; Ok (str_lt s t)
    end
  else Ok false.
(** [operator++] *)
Definition Value_incr (v : Value) : res Value :=
  match type_id_ v with
  | kInteger => a ← get_integer v; z ← add32 a 1; Ok (mkValue (VInt z) kInteger (str_len_ v))
  | kDecimal => a ← get_decimal v; Ok (mkValue (VDec (d_op SFadd a d_one)) kDecimal (str_len_ v))
  | _ => Ok v
  end.
(** copying allocates a new array of [str_len_ + 1] bytes *)
Definition Value_copy (v : Value) : res Value :=
  if decide (type_id_ v = kChar) then
    b ← get_char v;
    buf ← mem_set (replicate (Z.to_nat (str_len_ v + 1)) 0) 0 0 (str_len_ v + 1);
    bs ← mem_read b 0 (str_len_ v + 1);
    buf ← mem_write buf 0 bs;
    Ok (mkValue (VChar buf) kChar (str_len_ v))
  else Ok v.
(** assignment frees what the target held and copies *)
Definition Value_assign (this v : Value) : res Value := Value_copy v.
Definition Value_swap (a b : Value) : Value * Value := (b, a).
(** the bytes [get_hash_value] hands to the hash function [do_hash] *)
Definition get_hash_value (do_hash : bytes → Z) (v : Value) : res Z :=
  match type_id_ v with
  | kBoolean => bs ← mem_read (union_bytes (value_ v)) 0 BOOLEAN_T_SIZE; Ok (do_hash bs)
  | kInteger => bs ← mem_read (union_bytes (value_ v)) 0 INTEGER_T_SIZE; Ok (do_hash bs)
  | kDecimal => bs ← mem_read (union_bytes (value_ v)) 0 DECIMAL_T_SIZE; Ok (do_hash bs)
  | kChar => b ← get_char v; bs ← mem_read b 0 (str_len_ v); Ok (do_hash bs)
  | kInvalid => Ok 0
  end.

(** ** Well-formed values *)

(** the member stored is the one the type names, and within its width *)
Definition value_ok (v : Value) : Prop :=
  match type_id_ v, value_ v with
  | kBoolean, VBool _ => True
  | kInteger, VInt z => in32 z
  | kDecimal, VDec d => 0 ≤ d < 18446744073709551616
  | kChar, VChar buf => is_Some (until_nul buf) ∧ zlen buf = str_len_ v + 1
  | _, _ => False
  end.

Lemma until_nul_Some l s : until_nul l = Some s ↔ ∃ k, l = s ++ 0 :: k ∧ Forall (λ c, c ≠ 0) s.
Proof.
  revert s. induction l as [|c l IH]; intros s; cbn [until_nul].
  - split; [done|]. intros (k&H&_). by destruct s.
  - destruct (Z.eqb_spec c 0) as [->|Hc].
    + split; [intros [= <-]; exists l; by split|]. intros (k&H&Hs). destruct s as [|x s]; [done|].
      injection H as <- _. apply Forall_cons in Hs as [? _]. done.
    + destruct s as [|x s].
      { split; [by destruct (until_nul l)|]. intros (k&[= ? _]&_). done. }
      transitivity (x = c ∧ until_nul l = Some s).
      { destruct (until_nul l); cbn; naive_solver. }
      rewrite IH. split.
      * intros (->&k&->&?). exists k. split; [done|by constructor].
      * intros (k&[= -> ->]&Hs). apply Forall_cons in Hs as [_ ?]. eauto.
Qed.

Lemma c_string_0 m : c_string m 0 = of_opt OutOfBounds (until_nul m).
Proof. unfold c_string. pose proof (zlen_nonneg m). by rewrite (proj2 (Z.leb_le 0 (zlen m))). Qed.

Lemma dec_enc64 z : 0 ≤ z < 18446744073709551616 → dec64 (enc64 z) = z.
Proof.
  intros H. unfold dec64, enc64.
  change (take 4 (enc32 (z mod 4294967296) ++ enc32 (z / 4294967296))) with (enc32 (z mod 4294967296)).
  change (drop 4 (enc32 (z mod 4294967296) ++ enc32 (z / 4294967296))) with (enc32 (z / 4294967296)).
  assert (∀ y, 0 ≤ y < 4294967296 → dec32 (enc32 y) mod 4294967296 = y) as E.
  { intros y Hy. rewrite dec_enc32. unfold swrap32. rewrite Zminus_mod_idemp_l.
    replace (y + 2147483648 - 2147483648) with y by lia. apply Z.mod_small. lia. }
  assert (0 ≤ z / 4294967296 < 4294967296) by (split; [apply Z.div_pos; lia|apply Z.div_lt_upper_bound; lia]).
  rewrite !E by (try apply Z.mod_pos_bound; lia). pose proof (Z.div_mod z 4294967296). lia.
Qed.

(** ** Order *)

Lemma str_lt_irrefl a : str_lt a a = false.
Proof. induction a as [|x a IH]; cbn; [done|]. by rewrite Z.ltb_irrefl, Z.eqb_refl. Qed.

Lemma str_lt_trans a b c : str_lt a b = true → str_lt b c = true → str_lt a c = true.
Proof.
  revert b c. induction a as [|x a IH]; intros [|y b] [|z c]; cbn; try done.
  destruct (Z.ltb_spec x y), (Z.ltb_spec y z), (Z.ltb_spec x z); try done; try lia;
    destruct (Z.eqb_spec x y), (Z.eqb_spec y z), (Z.eqb_spec x z); try done; try lia; eauto.
Qed.

Lemma str_trichotomy a b : a = b ∨ str_lt a b = true ∨ str_lt b a = true.
Proof.
  revert b. induction a as [|x a IH]; intros [|y b]; cbn; eauto.
  destruct (Z.ltb_spec x y), (Z.ltb_spec y x); eauto; try lia.
  assert (x = y) as -> by lia. rewrite Z.eqb_refl. destruct (IH b) as [->|]; eauto.
Qed.

(** exactly one of three tests holds *)
Definition one_of (a b c : bool) : bool := xorb (xorb a b) c && negb (a && b && c).

Lemma str_one_of a b : one_of (str_lt a b) (bool_decide (a = b)) (str_lt b a) = true.
Proof.
  destruct (str_trichotomy a b) as [->|H].
  - by rewrite str_lt_irrefl, bool_decide_true.
  - assert (a ≠ b) as Hn by (intros ->; rewrite str_lt_irrefl in H; naive_solver).
    rewrite bool_decide_false by done.
    destruct (str_lt a b) eqn:E1, (str_lt b a) eqn:E2; try done; [|naive_solver].
    pose proof (str_lt_trans _ _ _ E1 E2) as H3. by rewrite str_lt_irrefl in H3.
Qed.

Lemma int_one_of a b : one_of (a <? b) (a =? b) (b <? a) = true.
Proof. destruct (Z.ltb_spec a b), (Z.eqb_spec a b), (Z.ltb_spec b a); try done; lia. Qed.

Lemma int_value v : type_id_ v = kInteger → value_ok v → ∃ z, value_ v = VInt z ∧ in32 z.
Proof. unfold value_ok. intros ->. destruct (value_ v); naive_solver. Qed.

Lemma char_value v : type_id_ v = kChar → value_ok v →
  ∃ buf s, value_ v = VChar buf ∧ c_string buf 0 = Ok s ∧ until_nul buf = Some s ∧ zlen buf = str_len_ v + 1.
Proof.
  unfold value_ok. intros ->. destruct (value_ v) as [| | | |buf]; try done. intros [[s Hs] ?].
  exists buf, s. split_and!; try done. by rewrite c_string_0, Hs.
Qed.

Section order.
Context (a b c : Value).

Lemma lt_int x y : value_ a = VInt x → value_ b = VInt y → type_id_ a = kInteger → type_id_ b = kInteger →
  Value_lt a b = Ok (x <? y) ∧ Value_eq a b = Ok (x =? y) ∧ Value_ne a b = Ok (negb (x =? y)).
Proof. intros Ha Hb Ta Tb. unfold Value_lt, Value_eq, Value_ne, get_integer. by rewrite Ta, Tb, Ha, Hb. Qed.

Lemma lt_char x y s t : value_ a = VChar x → value_ b = VChar y → type_id_ a = kChar → type_id_ b = kChar →
  c_string x 0 = Ok s → c_string y 0 = Ok t →
  Value_lt a b = Ok (str_lt s t) ∧ Value_eq a b = Ok (bool_decide (s = t)) ∧ Value_ne a b = Ok (negb (bool_decide (s = t))).
Proof.
  intros Ha Hb Ta Tb Hs Ht. unfold Value_lt, Value_eq, Value_ne, get_char. rewrite Ta, Tb, Ha, Hb.
  cbn [mbind res_bind]. by rewrite Hs, Ht.
Qed.
End order.

(** The order of values: on well-formed integers, and on well-formed strings,
    the operators return, exactly one of a < b, a == b and b < a holds, != is the
    negation of ==, and < is transitive; for integers the six comparisons of the
    type interface give the same answers. *)
Theorem value_order_correct t a b c :
  t = kInteger ∨ t = kChar → type_id_ a = t → type_id_ b = t → type_id_ c = t →
  value_ok a → value_ok b → value_ok c →
  ∃ lt eq gt, Value_lt a b = Ok lt ∧ Value_eq a b = Ok eq ∧ Value_lt b a = Ok gt ∧
    Value_ne a b = Ok (negb eq) ∧ one_of lt eq gt = true ∧
    (Value_lt a b = Ok true → Value_lt b c = Ok true → Value_lt a c = Ok true) ∧
    (t = kInteger → ∃ T, get_instance t = Ok T ∧
      cmp_less T a b = Ok (cmp_of lt) ∧ cmp_eq T a b = Ok (cmp_of eq) ∧ cmp_greater T a b = Ok (cmp_of gt) ∧
      cmp_not_eq T a b = Ok (cmp_of (negb eq)) ∧ cmp_less_and_eq T a b = Ok (cmp_of (negb gt)) ∧
      cmp_greater_and_eq T a b = Ok (cmp_of (negb lt))).
Proof.
  intros [->| ->] Ta Tb Tc Ha Hb Hc.
  - destruct (int_value a Ta Ha) as (x&Vx&_), (int_value b Tb Hb) as (y&Vy&_), (int_value c Tc Hc) as (z&Vz&_).
    destruct (lt_int a b x y) as (->&->&->); [done..|]. destruct (lt_int b a y x) as (->&_&_); [done..|].
    destruct (lt_int b c y z) as (->&_&_); [done..|]. destruct (lt_int a c x z) as (->&_&_); [done..|].
    eexists _, _, _. split_and!; try done; [apply int_one_of|..].
    + intros [= H1] [= H2]. f_equal. rewrite !Z.ltb_lt in *. lia.
    + intros _. exists Integer. split; [done|]. cbn [Integer cmp_less cmp_eq cmp_greater cmp_not_eq cmp_less_and_eq cmp_greater_and_eq].
      unfold get_integer. rewrite Vx, Vy. cbn [mbind res_bind]. split_and!; try done; f_equal; f_equal.
      * by rewrite Z.gtb_ltb.
      * by rewrite Z.leb_antisym.
      * by rewrite Z.geb_leb, Z.leb_antisym.
  - destruct (char_value a Ta Ha) as (x&s&Vx&Sx&_), (char_value b Tb Hb) as (y&u&Vy&Sy&_), (char_value c Tc Hc) as (z&w&Vz&Sz&_).
    destruct (lt_char a b x y s u) as (->&->&->); [done..|]. destruct (lt_char b a y x u s) as (->&_&_); [done..|].
    destruct (lt_char b c y z u w) as (->&_&_); [done..|]. destruct (lt_char a c x z s w) as (->&_&_); [done..|].
    eexists _, _, _. split_and!; try done; [apply str_one_of|].
    intros [= H1] [= H2]. f_equal. by eapply str_lt_trans.
Qed.

(** "ab", "b" and "ba" *)
Lemma value_order_correct_witness :
  Value_lt (Value_string [97; 98]) (Value_string [98]) = Ok true ∧
  Value_lt (Value_string [97; 98]) (Value_string [98; 97]) = Ok true.
Proof.
  split; [reflexivity|].
  destruct (value_order_correct kChar (Value_string [97; 98]) (Value_string [98]) (Value_string [98; 97]))
    as (lt&eq&gt&H1&_&_&_&_&Htr&_); [right; reflexivity|reflexivity..| | | |].
  1-3: split; [eexists; reflexivity|reflexivity].
  apply Htr; reflexivity.
Defined.
