(* ===== verification/TablePage.v ===== *)
(** The slotted page that stores tuples ([src/include/storage/page/table_page.h],
    [src/storage/page/table_page.cpp], [src/include/table/rid.h] and the byte
    side of [src/include/table/tuple.h]): slot records grow from the front,
    tuple data from the back. All accesses are on the bytes of the page. *)
From S2P Require Import Prelude Config Page.

(** ** [RID] and [Tuple] *)

Record RID := mkRID { rid_page_id : Z; rid_slot_num : Z }.
Definition RID_default : RID := mkRID INVALID_PAGE_ID INVALID_SLOT_NUM.
#[global] Instance RID_eq : EqDecision RID.
Proof. solve_decision. Defined.

(** a tuple holds [size_] bytes once it is allocated *)
Record Tuple := mkTuple {
  t_allocated : bool;
  t_rid : RID;
  t_size : Z;
  t_data : bytes;
}.
Definition Tuple_default : Tuple := mkTuple false RID_default (-1) [].
(** [Tuple(rid, size)]: the contents of the new array are not set, here zero *)
Definition Tuple_new (rid : RID) (size : Z) : Tuple :=
  if 0 <? size then mkTuple true rid size (replicate (Z.to_nat size) 0) else mkTuple false rid size [].
Definition set_rid (t : Tuple) (rid : RID) : Tuple := mkTuple (t_allocated t) rid (t_size t) (t_data t).

(** [serialize_to] copies [size_] bytes of the tuple to offset [dst] of a buffer *)
Definition serialize_to (t : Tuple) (buf : bytes) (dst : Z) : res bytes :=
  if t_allocated t then
    bs ← mem_read (t_data t) 0 (t_size t); mem_write buf dst bs
  else Ok buf.
Definition deserialize_from (t : Tuple) (buf : bytes) (src : Z) : res Tuple :=
  if t_allocated t then
    bs ← mem_read buf src (t_size t);
    data ← mem_write (t_data t) 0 bs;
    Ok (mkTuple true (t_rid t) (t_size t) data)
  else Err ExitCalled.

(** ** Layout *)

Definition START_OFFSET : Z := COM_PG_HEADER_SZ.
Definition PREV_PGID_OFFSET : Z := START_OFFSET.
Definition NEXT_PGID_OFFSET : Z := PREV_PGID_OFFSET + PGID_T_SIZE.
Definition FREE_SPACE_PTR_OFFSET : Z := NEXT_PGID_OFFSET + PGID_T_SIZE.
Definition TUPLE_CNT_OFFSET : Z := FREE_SPACE_PTR_OFFSET + PGID_T_SIZE + TABLE_PAGE_RESERVED.
Definition FIRST_TUPLE_OFFSET : Z := TUPLE_CNT_OFFSET + SIZE_T_SIZE.
Definition INVALID_FREE_SPACE_PTR : Z := PAGE_SIZE.
Definition TUPLE_RECORD_SZ : Z := SIZE_T_SIZE + OFFSET_T_SIZE.
Definition LOAD_DATA_SPACE : Z :=
  PAGE_SIZE - COM_PG_HEADER_SZ - 2 * PGID_T_SIZE - OFFSET_T_SIZE - SIZE_T_SIZE - TABLE_PAGE_RESERVED.
Definition DELETE_MASK : Z := 2147483648.

Ltac tp := unfold LOAD_DATA_SPACE, TUPLE_RECORD_SZ, INVALID_FREE_SPACE_PTR, FIRST_TUPLE_OFFSET, TUPLE_CNT_OFFSET,
  FREE_SPACE_PTR_OFFSET, NEXT_PGID_OFFSET, PREV_PGID_OFFSET, START_OFFSET in *; cfg.
Ltac tp_lia := tp; lia.

(** the flag is the top bit of the size, an [int32_t] converted to unsigned *)
Definition is_deleted (tuple_size : Z) : bool := negb (Z.land (tuple_size mod 4294967296) DELETE_MASK =? 0).
Definition set_deleted_flag (tuple_size : Z) : Z := swrap32 (Z.lor (tuple_size mod 4294967296) DELETE_MASK).
Definition unset_deleted_flag (tuple_size : Z) : Z :=
  swrap32 (Z.land (tuple_size mod 4294967296) (4294967295 - DELETE_MASK)).

Definition get_tp_num_capacity (tp_size : Z) : Z := LOAD_DATA_SPACE / (tp_size + OFFSET_T_SIZE + SIZE_T_SIZE).

Section Accessors.
Implicit Types (d : bytes).
Definition get_next_page_id d : res Z := rd32 d NEXT_PGID_OFFSET.
Definition get_prev_page_id d : res Z := rd32 d PREV_PGID_OFFSET.
Definition set_prev_page_id d (page_id : Z) : res bytes := wr32 d PREV_PGID_OFFSET page_id.
Definition set_next_page_id d (page_id : Z) : res bytes := wr32 d NEXT_PGID_OFFSET page_id.
Definition get_tuple_count d : res Z := rd32 d TUPLE_CNT_OFFSET.
Definition set_tuple_count d (n : Z) : res bytes := wr32 d TUPLE_CNT_OFFSET n.
Definition get_free_space_pointer d : res Z := rd32 d FREE_SPACE_PTR_OFFSET.
Definition set_free_space_pointer d (o : Z) : res bytes := wr32 d FREE_SPACE_PTR_OFFSET o.
Definition get_tuple_offset d (slot_num : Z) : res Z := rd32 d (FIRST_TUPLE_OFFSET + slot_num * TUPLE_RECORD_SZ).
Definition set_tuple_offset d (slot_num offset : Z) : res bytes :=
  wr32 d (FIRST_TUPLE_OFFSET + slot_num * TUPLE_RECORD_SZ) offset.
Definition get_tuple_size d (slot_num : Z) : res Z :=
  rd32 d (FIRST_TUPLE_OFFSET + slot_num * TUPLE_RECORD_SZ + OFFSET_T_SIZE).
Definition set_tuple_size d (slot_num tuple_size : Z) : res bytes :=
  wr32 d (FIRST_TUPLE_OFFSET + slot_num * TUPLE_RECORD_SZ + OFFSET_T_SIZE) tuple_size.
Definition get_free_space d : res Z :=
  fsp ← get_free_space_pointer d; cnt ← get_tuple_count d;
  Ok (fsp - (FIRST_TUPLE_OFFSET + cnt * TUPLE_RECORD_SZ)).
Definition insert_tuple_record d (slot_num offset tuple_size : Z) : res bytes :=
  d ← set_tuple_offset d slot_num offset; set_tuple_size d slot_num tuple_size.
Definition delete_tuple_record d (slot_num : Z) : res bytes :=
  cnt ← get_tuple_count d;
  if slot_num >=? cnt then Ok d
  else mem_set d (FIRST_TUPLE_OFFSET + slot_num * TUPLE_RECORD_SZ) 0 TUPLE_RECORD_SZ.
End Accessors.

(** ** Operations *)

Definition init (prev_pgid next_pgid : Z) (p : Page) : res Page :=
  d ← mem_set (data_ p) START_OFFSET 0 (PAGE_SIZE - COM_PG_HEADER_SZ);
  d ← wr32 d PREV_PGID_OFFSET prev_pgid;
  d ← wr32 d NEXT_PGID_OFFSET next_pgid;
  d ← wr32 d TUPLE_CNT_OFFSET 0;
  d ← set_free_space_pointer d INVALID_FREE_SPACE_PTR;
  Ok (set_data p d).

(** the first of [n] slots from [slot_num] on whose offset passes the test *)
Fixpoint find_slot (f : Z → bool) (d : bytes) (slot_num : Z) (n : nat) : res (option Z) :=
  match n with
  | O => Ok None
  | S n =>
      offset ← get_tuple_offset d slot_num;
      if f offset then Ok (Some slot_num) else find_slot f d (slot_num + 1) n
  end.

Definition get_empty_slot (p : Page) : res (Z * Page) :=
  tuple_count ← get_tuple_count (data_ p);
  r ← find_slot (λ o, o =? 0) (data_ p) 0 (Z.to_nat tuple_count);
  match r with
  | Some slot_num => Ok (slot_num, p)
  | None =>
      free_space ← get_free_space (data_ p);
      if free_space <? TUPLE_RECORD_SZ then Ok (-1, p)
      else
        d ← set_tuple_count (data_ p) (tuple_count + 1);
        Ok (tuple_count, set_data p d)
  end.

(** the new record id, if the tuple was inserted *)
Definition insert_tuple (tuple : Tuple) (p : Page) : res (option RID * Page) :=
  let* (inserted_slot_num, p) := get_empty_slot p in
  free_space ← get_free_space (data_ p);
  let tuple_size := t_size tuple in
  if free_space <? tuple_size then Ok (None, p)
  else
    fsp ← get_free_space_pointer (data_ p);
    let fsp := fsp - tuple_size in
    d ← serialize_to tuple (data_ p) fsp;
    d ← set_free_space_pointer d fsp;
    let rid := mkRID (page_id_ p) inserted_slot_num in
    d ← insert_tuple_record d inserted_slot_num fsp tuple_size;
    Ok (Some rid, set_data p d).

Definition mark_delete (rid : RID) (p : Page) : res (bool * Page) :=
  let slot_num := rid_slot_num rid in
  offset ← get_tuple_offset (data_ p) slot_num;
  cnt ← get_tuple_count (data_ p);
  if (slot_num >=? cnt) || (offset =? 0) || negb (page_id_ p =? rid_page_id rid) then Ok (false, p)
  else
    tuple_size ← get_tuple_size (data_ p) slot_num;
    d ← set_tuple_size (data_ p) slot_num (set_deleted_flag tuple_size);
    Ok (true, set_data p d).

Definition rollback_delete (rid : RID) (p : Page) : res Page :=
  let slot_num := rid_slot_num rid in
  offset ← get_tuple_offset (data_ p) slot_num;
  cnt ← get_tuple_count (data_ p);
  if (slot_num >=? cnt) || (offset =? 0) then Ok p
  else
    tuple_size ← get_tuple_size (data_ p) slot_num;
    d ← set_tuple_size (data_ p) slot_num (unset_deleted_flag tuple_size);
    Ok (set_data p d).

(** the loop that moves the records of the tuples below the deleted one *)
Fixpoint shift_records (deleted_offset size : Z) (d : bytes) (slot_num : Z) (n : nat) : res bytes :=
  match n with
  | O => Ok d
  | S n =>
      o ← get_tuple_offset d slot_num;
      d ← (if negb (o =? 0) && (o <? deleted_offset) then set_tuple_offset d slot_num (o + size) else Ok d);
      shift_records deleted_offset size d (slot_num + 1) n
  end.

Definition apply_delete (rid : RID) (p : Page) : res Page :=
  let slot := rid_slot_num rid in
  deleted_offset ← get_tuple_offset (data_ p) slot;
  deleted_size ← get_tuple_size (data_ p) slot;
  cnt ← get_tuple_count (data_ p);
  if ((slot >=? cnt) || (deleted_offset =? 0)) && is_deleted deleted_size then Ok p
  else
    fsp ← get_free_space_pointer (data_ p);
    let deleted_size := unset_deleted_flag deleted_size in
    d ← delete_tuple_record (data_ p) slot;
    d ← mem_move d (fsp + deleted_size) fsp (deleted_offset - fsp);
    d ← set_free_space_pointer d (fsp + deleted_size);
    cnt ← get_tuple_count d;
    d ← shift_records deleted_offset deleted_size d 0 (Z.to_nat cnt);
    Ok (set_data p d).

Definition update_tuple (new_tuple : Tuple) (rid : RID) (p : Page) : res (bool * Page) :=
  let slot_num := rid_slot_num rid in
  tuple_offset ← get_tuple_offset (data_ p) slot_num;
  tuple_size ← get_tuple_size (data_ p) slot_num;
  cnt ← get_tuple_count (data_ p);
  if (slot_num >=? cnt) || (tuple_offset =? 0) || negb (tuple_size =? t_size new_tuple)
     || negb (rid_page_id rid =? page_id_ p) then Ok (false, p)
  else
    d ← serialize_to new_tuple (data_ p) tuple_offset;
    Ok (true, set_data p d).

(** the tuple read, if there is one *)
Definition get_tuple (rid : RID) (p : Page) : res (option Tuple) :=
  let slot_num := rid_slot_num rid in
  tuple_offset ← get_tuple_offset (data_ p) slot_num;
  tuple_size ← get_tuple_size (data_ p) slot_num;
  let tuple_size := if is_deleted tuple_size then unset_deleted_flag tuple_size else tuple_size in
  cnt ← get_tuple_count (data_ p);
  if (slot_num >=? cnt) || (tuple_offset =? 0) then Ok None
  else
    let t := mkTuple true rid tuple_size (replicate (Z.to_nat tuple_size) 0) in
    t ← deserialize_from t (data_ p) tuple_offset;
    Ok (Some t).

(** the result and the value left in [*next_rid] *)
Definition get_next_tuple_rid (cur_rid next_rid : RID) (p : Page) : res (bool * RID) :=
  cnt ← get_tuple_count (data_ p);
  if rid_page_id cur_rid =? INVALID_PAGE_ID then
    r ← find_slot (λ o, negb (o =? 0)) (data_ p) 0 (Z.to_nat cnt);
    Ok (match r with Some i => (true, mkRID (page_id_ p) i) | None => (false, next_rid) end)
  else
    let i := rid_slot_num cur_rid + 1 in
    r ← find_slot (λ o, negb (o =? 0)) (data_ p) i (Z.to_nat (cnt - i));
    Ok (match r with Some i => (true, mkRID (page_id_ p) i) | None => (false, mkRID INVALID_PAGE_ID (-1)) end).

Definition get_the_first_tuple (p : Page) : res (option Tuple) :=
  cnt ← get_tuple_count (data_ p);
  r ← find_slot (λ o, negb (o =? 0)) (data_ p) 0 (Z.to_nat cnt);
  match r with
  | None => Ok None
  | Some slot_num =>
      offset ← get_tuple_offset (data_ p) slot_num;
      size ← get_tuple_size (data_ p) slot_num;
      t ← deserialize_from (Tuple_new (mkRID (page_id_ p) slot_num) size) (data_ p) offset;
      Ok (Some t)
  end.

Fixpoint count_slots (d : bytes) (slot_num : Z) (n : nat) : res Z :=
  match n with
  | O => Ok 0
  | S n =>
      offset ← get_tuple_offset d slot_num;
      cnt ← count_slots d (slot_num + 1) n;
      Ok (if offset =? 0 then cnt else cnt + 1)
  end.
Definition get_stored_tuple_cnt (p : Page) : res Z :=
  cnt ← get_tuple_count (data_ p); count_slots (data_ p) 0 (Z.to_nat cnt).
