(* ===== verification/TablePageSpec.v ===== *)
(** What a table page promises: it is a list of slots, each empty or holding the
    bytes of a tuple and a deletion mark. Every operation of [TablePage] on the
    bytes of the page refines the operation on the slots. *)
From S2P Require Import Prelude Config Page TablePage.

(** ** Lemmas on page memory *)

(** a read inside what was just written *)
Lemma mem_read_inside m off bs m' o l :
  mem_write m off bs = Ok m' → off ≤ o → 0 ≤ l → o + l ≤ off + zlen bs →
  mem_read m' o l = mem_read bs (o - off) l.
Proof.
  intros W Ho Hl Hb. pose proof (mem_write_zlen _ _ _ _ W) as Hz. pose proof W as W'. apply mem_write_Ok in W' as (?&?&_).
  unfold mem_read. rewrite !(proj2 (Z.leb_le _ _)) by lia. cbn [andb]. f_equal. apply list_eq. intros i.
  destruct (decide (Z.of_nat i < l)).
  - rewrite !lookup_take_lt, !lookup_drop by lia. rewrite (mem_write_lookup _ _ _ _ _ W), decide_True by lia.
    f_equal. lia.
  - by rewrite !lookup_take_ge by lia.
Qed.

Lemma mem_read_sub m o l bs i k :
  mem_read m o l = Ok bs → 0 ≤ i → 0 ≤ k → i + k ≤ l → mem_read bs i k = mem_read m (o + i) k.
Proof.
  intros R Hi Hk Hl. pose proof (mem_read_zlen _ _ _ _ R) as Hz. apply mem_read_Ok in R as R'. destruct R' as (?&?&?&_).
  unfold mem_read at 1 2. rewrite !(proj2 (Z.leb_le _ _)) by lia. cbn [andb]. f_equal. apply list_eq. intros j.
  destruct (decide (Z.of_nat j < k)).
  - rewrite !lookup_take_lt, !lookup_drop by lia. rewrite (mem_read_lookup _ _ _ _ _ R) by lia. f_equal. lia.
  - by rewrite !lookup_take_ge by lia.
Qed.

Lemma mem_move_ex m dst src len :
  0 ≤ dst → 0 ≤ src → 0 ≤ len → dst + len ≤ zlen m → src + len ≤ zlen m →
  ∃ m', mem_move m dst src len = Ok m' ∧ zlen m' = zlen m ∧
    (∀ o l, 0 ≤ l → src ≤ o → o + l ≤ src + len → mem_read m' (o - src + dst) l = mem_read m o l) ∧
    (∀ o l, o + l ≤ dst ∨ dst + len ≤ o → mem_read m' o l = mem_read m o l).
Proof.
  intros. destruct (mem_read_ex m src len) as [bs R]; [lia..|]. pose proof (mem_read_zlen _ _ _ _ R) as Hz.
  destruct (mem_write_ex m dst bs) as (m'&W&L&_&D); [lia..|].
  exists m'. unfold mem_move. rewrite R. cbn [mbind res_bind]. split_and!; [done|done| |by rewrite <- Hz].
  intros o l Hl Ho Hb. rewrite (mem_read_inside _ _ _ _ _ _ W) by lia.
  replace (o - src + dst - dst) with (o - src) by lia. rewrite (mem_read_sub _ _ _ _ _ _ R) by lia. f_equal. lia.
Qed.

Lemma rd32_zero m off : mem_read m off 4 = Ok [0; 0; 0; 0] → rd32 m off = Ok 0.
Proof. unfold rd32. by intros ->. Qed.

Lemma mem_set0_ex m off len :
  0 ≤ off → 0 ≤ len → off + len ≤ zlen m →
  ∃ m', mem_set m off 0 len = Ok m' ∧ zlen m' = zlen m ∧
    (∀ o, off ≤ o → o + 4 ≤ off + len → rd32 m' o = Ok 0) ∧
    (∀ o l, o + l ≤ off ∨ off + len ≤ o → mem_read m' o l = mem_read m o l).
Proof.
  intros. unfold mem_set. rewrite (proj2 (Z.leb_le _ _)) by lia.
  assert (zlen (replicate (Z.to_nat len) 0) = len) as Hz by (rewrite zlen_replicate; lia).
  destruct (mem_write_ex m off (replicate (Z.to_nat len) 0)) as (m'&W&L&_&D); [lia..|].
  exists m'. split_and!; [done|done| |by rewrite <- Hz]. intros o Ho Hb.
  apply rd32_zero. rewrite (mem_read_inside _ _ _ _ _ _ W) by lia. apply mem_read_Ok. split_and!; [lia..|].
  rewrite drop_replicate, take_replicate. replace (Z.to_nat 4 `min` (Z.to_nat len - Z.to_nat (o - off)))%nat with 4%nat by lia. done.
Qed.

(** ** Sizes and marks *)

Definition enc_size (del : bool) (n : Z) : Z := if del then n - 2147483648 else n.

Lemma land_top n : 0 ≤ n < 2147483648 → Z.land n 2147483648 = 0 ∧ Z.lor n 2147483648 = n + 2147483648 ∧
  Z.land n 2147483647 = n ∧ Z.land (n + 2147483648) 2147483648 = 2147483648 ∧ Z.land (n + 2147483648) 2147483647 = n ∧
  Z.lor (n + 2147483648) 2147483648 = n + 2147483648.
Proof.
  intros Hn. assert (Z.land n 2147483648 = 0) as H0.
  { change 2147483648 with (2 ^ 31). apply Z.bits_inj'. intros k Hk. rewrite Z.land_spec, Z.bits_0.
    rewrite Z.pow2_bits_eqb by lia. destruct (Z.eqb_spec 31 k) as [<-|]; [|by rewrite andb_false_r].
    rewrite andb_true_r. apply Z.bits_above_log2; [lia|]. destruct (decide (n = 0)) as [->|]; [cbn; lia|].
    apply Z.log2_lt_pow2; [lia|]. change (2 ^ 31) with 2147483648. lia. }
  assert (Z.lor n 2147483648 = n + 2147483648) as Hor.
  { rewrite Z.add_nocarry_lxor by done. symmetry. by apply Z.lxor_lor. }
  assert (Z.land n 2147483647 = n) as H1.
  { change 2147483647 with (Z.ones 31). rewrite Z.land_ones by lia. apply Z.mod_small. change (2 ^ 31) with 2147483648. lia. }
  split_and!; [done|done|done|..]; rewrite <- Hor.
  - rewrite Z.land_lor_distr_l, H0. done.
  - rewrite Z.land_lor_distr_l, H1. change (Z.land 2147483648 2147483647) with 0. apply Z.lor_0_r.
  - rewrite <- Z.lor_assoc. by rewrite Z.lor_diag.
Qed.

Lemma enc_size_mod del n : 0 ≤ n < 2147483648 → enc_size del n mod 4294967296 = if del then n + 2147483648 else n.
Proof.
  intros. unfold enc_size. destruct del; [|apply Z.mod_small; lia].
  rewrite <- (Z_mod_plus_full _ 1), Z.mod_small by lia. lia.
Qed.

Lemma flags del n : 0 ≤ n < 2147483648 →
  is_deleted (enc_size del n) = del ∧ set_deleted_flag (enc_size del n) = enc_size true n ∧
  unset_deleted_flag (enc_size del n) = n.
Proof.
  intros Hn. unfold is_deleted, set_deleted_flag, unset_deleted_flag. rewrite enc_size_mod by done.
  unfold DELETE_MASK. change (4294967295 - 2147483648) with 2147483647.
  destruct (land_top n Hn) as (H1&H2&H3&H4&H5&H6).
  assert (swrap32 (n + 2147483648) = n - 2147483648) as Hs1.
  { unfold swrap32. replace (n + 2147483648 + 2147483648) with (n + 1 * 4294967296) by lia.
    rewrite Z_mod_plus_full, Z.mod_small by lia. lia. }
  assert (swrap32 n = n) as Hs2 by (apply swrap32_id; unfold in32, INT32_MIN, INT32_MAX; lia).
  destruct del; rewrite ?H1, ?H2, ?H3, ?H4, ?H5, ?H6, ?Hs1, ?Hs2; done.
Qed.

(** ** Slots *)

Notation slot := (option (bool * bytes)).
Implicit Types (sl : list slot).

Definition slot_bytes (s : slot) : Z := match s with Some (_, bs) => zlen bs | None => 0 end.
Definition used sl : Z := foldr (λ s n, slot_bytes s + n) 0 sl.
(** where the data of the tuples begins, and the bytes between it and the records *)
Definition fsp_of sl : Z := PAGE_SIZE - used sl.
Definition free_of sl : Z := fsp_of sl - (FIRST_TUPLE_OFFSET + zlen sl * TUPLE_RECORD_SZ).

Lemma used_cons s sl : used (s :: sl) = slot_bytes s + used sl.
Proof. done. Qed.
Lemma used_app sl k : used (sl ++ k) = used sl + used k.
Proof. induction sl as [|s sl IH]; [done|]. cbn [app]. rewrite !used_cons. lia. Qed.
Lemma used_insert sl i s s' : sl !! i = Some s → used (<[i := s']> sl) = used sl - slot_bytes s + slot_bytes s'.
Proof.
  intros Hi. apply list_elem_of_split_length in Hi as (l1&l2&->&->).
  rewrite insert_app_r_alt by lia. rewrite Nat.sub_diag. cbn [insert list_insert].
  rewrite !used_app, !used_cons. lia.
Qed.
Lemma used_nonneg sl : 0 ≤ used sl.
Proof.
  induction sl as [|s sl IH]; [done|]. rewrite used_cons. destruct s as [[? b]|]; cbn; [pose proof (zlen_nonneg b)|]; lia.
Qed.
Lemma used_ge sl i s : sl !! i = Some s → slot_bytes s ≤ used sl.
Proof.
  intros Hi. apply list_elem_of_split_length in Hi as (l1&l2&->&_). rewrite used_app, used_cons.
  pose proof (used_nonneg l1). pose proof (used_nonneg l2). lia.
Qed.

(** address of a record *)
Definition rec_at (i : nat) : Z := FIRST_TUPLE_OFFSET + Z.of_nat i * TUPLE_RECORD_SZ.

(** the page [d] stores the slots, the tuple of slot [i] at [offs i]; the record of
    the slot [h] may be anything *)
Record rep_but (h : option nat) (d : bytes) sl (offs : nat → Z) : Prop := {
  ra_len : zlen d = PAGE_SIZE;
  ra_cnt : rd32 d TUPLE_CNT_OFFSET = Ok (zlen sl);
  ra_fsp : rd32 d FREE_SPACE_PTR_OFFSET = Ok (fsp_of sl);
  ra_room : 0 ≤ free_of sl;
  ra_off : ∀ i s, h ≠ Some i → sl !! i = Some s →
    rd32 d (rec_at i) = Ok (match s with Some _ => offs i | None => 0 end);
  ra_some : ∀ i del bs, sl !! i = Some (Some (del, bs)) →
    rd32 d (rec_at i + OFFSET_T_SIZE) = Ok (enc_size del (zlen bs)) ∧
    0 < zlen bs ∧ fsp_of sl ≤ offs i ∧ offs i + zlen bs ≤ PAGE_SIZE ∧
    mem_read d (offs i) (zlen bs) = Ok bs;
  ra_disj : ∀ i j x y, sl !! i = Some (Some x) → sl !! j = Some (Some y) → i ≠ j →
    offs i + zlen x.2 ≤ offs j ∨ offs j + zlen y.2 ≤ offs i;
}.
Notation rep_at := (rep_but None).
Definition rep (p : Page) sl : Prop := ∃ offs, rep_at (data_ p) sl offs.

Lemma ra_bounds h d sl offs : rep_but h d sl offs →
  0 ≤ zlen sl ∧ FIRST_TUPLE_OFFSET + zlen sl * TUPLE_RECORD_SZ ≤ fsp_of sl ≤ PAGE_SIZE.
Proof.
  intros H. pose proof (ra_room _ _ _ _ H). pose proof (used_nonneg sl). pose proof (zlen_nonneg sl).
  unfold free_of in *. unfold fsp_of in *. lia.
Qed.
Lemma slot_lt sl i s : sl !! i = Some s → Z.of_nat i < zlen sl.
Proof. intros Hi%lookup_lt_Some. unfold zlen. lia. Qed.

Lemma rd32_frame d d' o : (∀ l, mem_read d' o l = mem_read d o l) → rd32 d' o = rd32 d o.
Proof. intros H. by apply rd32_ext. Qed.

(** an access to the record of any slot of a page *)
Definition slot_ok (i : Z) : Prop := 0 ≤ i < LOAD_DATA_SPACE / TUPLE_RECORD_SZ.

Lemma read_slot d sl offs i :
  rep_at d sl offs → slot_ok i →
  (∃ o, get_tuple_offset d i = Ok o) ∧ (∃ s, get_tuple_size d i = Ok s).
Proof.
  intros Hr [H1 H2]. pose proof (ra_len _ _ _ _ Hr). change (LOAD_DATA_SPACE / TUPLE_RECORD_SZ) with 494 in H2.
  unfold get_tuple_offset, get_tuple_size. split.
  - destruct (rd32_ex d (FIRST_TUPLE_OFFSET + i * TUPLE_RECORD_SZ)) as (o&?&_); [tp_lia..|]. by exists o.
  - destruct (rd32_ex d (FIRST_TUPLE_OFFSET + i * TUPLE_RECORD_SZ + OFFSET_T_SIZE)) as (o&?&_); [tp_lia..|]. by exists o.
Qed.

Lemma rec_at_of i : 0 ≤ i → FIRST_TUPLE_OFFSET + i * TUPLE_RECORD_SZ = rec_at (Z.to_nat i).
Proof. intros. unfold rec_at. by rewrite Z2Nat.id. Qed.

Lemma get_offset_rep d sl offs (i : nat) s :
  rep_at d sl offs → sl !! i = Some s →
  get_tuple_offset d (Z.of_nat i) = Ok (match s with Some _ => offs i | None => 0 end).
Proof. intros Hr Hi. unfold get_tuple_offset. rewrite rec_at_of, Nat2Z.id by lia. by apply (ra_off _ _ _ _ Hr). Qed.

(** a stored tuple never lies at offset 0 *)
Lemma offs_pos d sl offs i x : rep_at d sl offs → sl !! i = Some (Some x) → 0 < offs i ∧ offs i <= PAGE_SIZE.
Proof.
  intros Hr Hi. destruct x as [del bs]. destruct (ra_some _ _ _ _ Hr i del bs Hi) as (_&?&?&?&_).
  pose proof (ra_bounds _ _ _ _ Hr). tp_lia.
Qed.

(** the first slot from [k] on that passes a test *)
Definition is_full (s : slot) : bool := match s with Some _ => true | None => false end.
Fixpoint first_slot (f : slot → bool) sl (k : nat) : option nat :=
  match sl with
  | [] => None
  | s :: sl => if f s then Some k else first_slot f sl (S k)
  end.

Lemma find_slot_ok f g d sl offs k :
  rep_at d sl offs → (∀ i s, sl !! i = Some s → f (match s with Some _ => offs i | None => 0 end) = g s) →
  (k ≤ length sl)%nat →
  find_slot f d (Z.of_nat k) (length sl - k) = Ok (option_map Z.of_nat (first_slot g (drop k sl) k)).
Proof.
  intros Hr Hfg. remember (length sl - k)%nat as n eqn:Hn. revert k Hn. induction n as [|n IH]; intros k Hn Hk.
  { rewrite drop_ge by lia. done. }
  destruct (lookup_lt_is_Some_2 sl k) as [s Hs]; [lia|]. rewrite (drop_S _ _ _ Hs). cbn [find_slot first_slot].
  rewrite (get_offset_rep _ _ _ _ _ Hr Hs). cbn [mbind res_bind]. rewrite (Hfg k s Hs). destruct (g s); [done|].
  replace (Z.of_nat k + 1) with (Z.of_nat (S k)) by lia. apply IH; lia.
Qed.

Lemma empty_test d sl offs i s : rep_at d sl offs → sl !! i = Some s →
  ((match s with Some _ => offs i | None => 0 end) =? 0) = negb (is_full s).
Proof.
  intros Hr Hi. destruct s as [x|]; [|done]. destruct (offs_pos _ _ _ _ _ Hr Hi). apply Z.eqb_neq. lia.
Qed.

Lemma first_slot_spec f sl k : 
  match first_slot f sl k with
  | Some i => ∃ j s, i = (k + j)%nat ∧ sl !! j = Some s ∧ f s = true
  | None => ∀ i s, sl !! i = Some s → f s = false
  end.
Proof.
  revert k. induction sl as [|s sl IH]; intros k; cbn [first_slot]; [by intros i s|].
  destruct (f s) eqn:E; [exists 0%nat, s; split_and!; [lia|done|done]|].
  specialize (IH (S k)). destruct (first_slot f sl (S k)).
  - destruct IH as (j&s'&->&?&?). exists (S j), s'. split_and!; [lia|done|done].
  - intros [|i] s' Hi; cbn in Hi; [congruence|by eapply IH].
Qed.

(** ** Filling a slot *)

Definition put (d : bytes) (i : nat) (o : Z) (bs : bytes) : res bytes :=
  d ← mem_write d o bs;
  d ← set_free_space_pointer d o;
  insert_tuple_record d (Z.of_nat i) o (zlen bs).

Lemma put_tuple_ok d sl offs i bs :
  rep_but (Some i) d sl offs → sl !! i = Some None → 0 < zlen bs ≤ free_of sl →
  ∃ d', put d i (fsp_of sl - zlen bs) bs = Ok d' ∧
    rep_at d' (<[i := Some (false, bs)]> sl) (λ j, if decide (j = i) then fsp_of sl - zlen bs else offs j).
Proof.
  intros Hr Hi [Hpos Hfree]. pose proof (ra_bounds _ _ _ _ Hr) as [Hz [Hb1 Hb2]]. pose proof (ra_len _ _ _ _ Hr) as Hlen.
  pose proof (slot_lt _ _ _ Hi) as Hlt. set (o := fsp_of sl - zlen bs). unfold free_of in Hfree.
  assert (∀ j, sl !! j ≠ None → Z.of_nat j < zlen sl) as Hjlt.
  { intros j Hj. destruct (sl !! j) eqn:E; [by eapply slot_lt|done]. }
  assert (FIRST_TUPLE_OFFSET + zlen sl * TUPLE_RECORD_SZ ≤ o ∧ o + zlen bs = fsp_of sl) as [Ho Ho'] by (unfold o; lia).
  unfold put. destruct (mem_write_ex d o bs) as (d1&->&L1&R1&F1); [tp_lia..|]. cbn [mbind res_bind].
  unfold set_free_space_pointer. destruct (wr32_ex d1 FREE_SPACE_PTR_OFFSET o) as (d2&->&L2&R2&F2); [tp_lia..|]. cbn [mbind res_bind].
  unfold insert_tuple_record, set_tuple_offset, set_tuple_size. rewrite !rec_at_of, Nat2Z.id by lia.
  assert (FIRST_TUPLE_OFFSET ≤ rec_at i ∧ rec_at i + 8 ≤ o) as [Hri1 Hri2] by (unfold rec_at in *; tp_lia).
  destruct (wr32_ex d2 (rec_at i) o) as (d3&->&L3&R3&F3); [tp_lia..|]. cbn [mbind res_bind].
  destruct (wr32_ex d3 (rec_at i + OFFSET_T_SIZE) (zlen bs)) as (d4&->&L4&R4&F4); [tp_lia..|].
  exists d4. split; [done|].
  assert (∀ j, j ≠ i → Z.of_nat j < zlen sl → rec_at j + 8 ≤ o ∧ FIRST_TUPLE_OFFSET ≤ rec_at j ∧
    (rec_at j + 8 ≤ rec_at i ∨ rec_at i + 8 ≤ rec_at j)) as Hrec by (intros; unfold rec_at in *; tp_lia).
  assert (fsp_of (<[i := Some (false, bs)]> sl) = o) as Hfsp.
  { unfold fsp_of, o. rewrite (used_insert _ _ _ _ Hi). unfold fsp_of. cbn [slot_bytes]. lia. }
  assert (zlen (<[i := Some (false, bs)]> sl) = zlen sl) as Hzl by (unfold zlen; by rewrite length_insert).
  assert (∀ a, a + 4 ≤ rec_at i ∨ o + zlen bs ≤ a ∨ rec_at i + 8 ≤ a ∧ a + 4 ≤ o → a + 4 ≤ FREE_SPACE_PTR_OFFSET ∨ FREE_SPACE_PTR_OFFSET + 4 ≤ a →
    rd32 d4 a = rd32 d a) as Hrd.
  { intros a H1 H2. rewrite (rd32_ext d3 d4), (rd32_ext d2 d3), (rd32_ext d1 d2), (rd32_ext d d1); [done|..].
    - apply F1. lia.
    - apply F2. lia.
    - apply F3. lia.
    - apply F4. tp_lia. }
  constructor.
  - congruence.
  - rewrite Hzl, Hrd; [apply Hr|tp_lia|tp_lia].
  - rewrite Hfsp. rewrite (rd32_ext d3 d4), (rd32_ext d2 d3); [done|apply F3; tp_lia|apply F4; tp_lia].
  - unfold free_of. rewrite Hfsp, Hzl. lia.
  - intros j s _ Hj. destruct (decide (j = i)) as [->|Hji].
    + rewrite list_lookup_insert_eq in Hj by (by eapply lookup_lt_Some). injection Hj as <-.
      rewrite (rd32_ext d3 d4); [done|apply F4; tp_lia].
    + rewrite list_lookup_insert_ne in Hj by done. destruct (Hrec j Hji) as (?&?&?); [by eapply slot_lt|].
      rewrite Hrd; [|tp_lia|tp_lia]. apply Hr; [congruence|done].
  - intros j del b Hj. rewrite Hfsp. destruct (decide (j = i)) as [->|Hji].
    + rewrite list_lookup_insert_eq in Hj by (by eapply lookup_lt_Some). injection Hj as <- <-. cbn [enc_size].
      split_and!; [done|done|lia|lia|]. rewrite F4, F3, F2; [done|tp_lia|tp_lia|tp_lia].
    + rewrite list_lookup_insert_ne in Hj by done. destruct (Hrec j Hji) as (?&?&?); [by eapply slot_lt|].
      destruct (ra_some _ _ _ _ Hr j del b Hj) as (S1&S2&S3&S4&S5).
      split_and!; [|done|lia|done|].
      * rewrite Hrd; [done|tp_lia|tp_lia].
      * rewrite F4, F3, F2, F1; [done|tp_lia|tp_lia|tp_lia|tp_lia].
  - intros j k x y Hj Hk Hjk. destruct (decide (j = i)) as [->|Hji], (decide (k = i)) as [->|Hki]; [done|..].
    + rewrite list_lookup_insert_eq in Hj by (by eapply lookup_lt_Some). injection Hj as <-.
      rewrite list_lookup_insert_ne in Hk by done. destruct y as [dk bk].
      destruct (ra_some _ _ _ _ Hr k dk bk Hk) as (_&_&?&_). left. cbn. lia.
    + rewrite list_lookup_insert_eq in Hk by (by eapply lookup_lt_Some). injection Hk as <-.
      rewrite list_lookup_insert_ne in Hj by done. destruct x as [dj bj].
      destruct (ra_some _ _ _ _ Hr j dj bj Hj) as (_&_&?&_). right. cbn. lia.
    + rewrite list_lookup_insert_ne in Hj by done. rewrite list_lookup_insert_ne in Hk by done. by apply (ra_disj _ _ _ _ Hr).
Qed.

(** ** Insertion *)

(** a tuple with its bytes *)
Definition tuple_ok (t : Tuple) (bs : bytes) : Prop :=
  t_allocated t = true ∧ t_size t = zlen bs ∧ t_data t = bs ∧ 0 < zlen bs < 2147483648.

Lemma serialize_ok t bs d o : tuple_ok t bs → serialize_to t d o = mem_write d o bs.
Proof.
  intros (Ha&Hs&Hd&Hl). unfold serialize_to. rewrite Ha, Hs, Hd.
  assert (mem_read bs 0 (zlen bs) = Ok bs) as ->; [|done].
  apply mem_read_Ok. split_and!; [lia..|]. unfold zlen. rewrite drop_0. rewrite take_ge; [done|lia].
Qed.

Definition no_tuple (s : slot) : bool := negb (is_full s).
Definition spec_insert sl (bs : bytes) : list slot * option nat :=
  match first_slot no_tuple sl 0 with
  | Some i => if zlen bs <=? free_of sl then (<[i := Some (false, bs)]> sl, Some i) else (sl, None)
  | None =>
      if TUPLE_RECORD_SZ + zlen bs <=? free_of sl then (sl ++ [Some (false, bs)], Some (length sl)) else (sl, None)
  end.
(** with no empty slot: room for a record and the tuple, or for neither *)
Definition insert_pre sl (bs : bytes) : Prop :=
  first_slot no_tuple sl 0 = None →
  TUPLE_RECORD_SZ + zlen bs ≤ free_of sl ∨ (free_of sl < TUPLE_RECORD_SZ ∧ free_of sl < zlen bs).

Lemma get_free_ok h d sl offs : rep_but h d sl offs → get_free_space d = Ok (free_of sl).
Proof.
  intros Hr. unfold get_free_space, get_free_space_pointer, get_tuple_count.
  by rewrite (ra_fsp _ _ _ _ Hr), (ra_cnt _ _ _ _ Hr).
Qed.

Lemma rep_weaken d sl offs i : rep_at d sl offs → rep_but (Some i) d sl offs.
Proof. intros [????? ?]. constructor; try done. intros; auto. Qed.

(** one more slot, whose record is not written yet *)
Lemma count_grow_ok d sl offs :
  rep_at d sl offs → TUPLE_RECORD_SZ ≤ free_of sl →
  ∃ d', set_tuple_count d (zlen sl + 1) = Ok d' ∧ rep_but (Some (length sl)) d' (sl ++ [None]) offs.
Proof.
  intros Hr Hf. pose proof (ra_bounds _ _ _ _ Hr) as [Hz [Hb1 Hb2]]. pose proof (ra_len _ _ _ _ Hr) as Hlen.
  unfold set_tuple_count. unfold free_of in Hf.
  destruct (wr32_ex d TUPLE_CNT_OFFSET (zlen sl + 1)) as (d1&->&L1&R1&F1); [tp_lia..|]. exists d1. split; [done|].
  assert (zlen (sl ++ [None]) = zlen sl + 1) as Hzl by (by rewrite zlen_app).
  assert (fsp_of (sl ++ [None]) = fsp_of sl) as Hfsp by (unfold fsp_of; rewrite used_app; cbn; lia).
  assert (∀ i x, (sl ++ [None]) !! i = Some (Some x) → sl !! i = Some (Some x)) as Hsome.
  { intros i x [Hi|[_ Hi]]%lookup_app_Some; [done|]. by apply list_lookup_singleton_Some in Hi as [_ Hi]. }
  constructor.
  - congruence.
  - by rewrite Hzl.
  - rewrite Hfsp, (rd32_ext d d1); [apply Hr|apply F1; tp_lia].
  - unfold free_of. rewrite Hfsp, Hzl. lia.
  - intros i s Hne Hi. assert (sl !! i = Some s) as Hi'.
    { apply lookup_app_Some in Hi as [Hi|[Hge Hi]]; [done|]. apply list_lookup_singleton_Some in Hi as [Hi _].
      exfalso. apply Hne. f_equal. lia. }
    rewrite (rd32_ext d d1); [by apply Hr|]. apply F1. unfold rec_at. tp_lia.
  - intros i del b Hi%Hsome. rewrite Hfsp. destruct (ra_some _ _ _ _ Hr i del b Hi) as (S1&S2&S3&S4&S5).
    split_and!; [|done|done|done|]; [rewrite (rd32_ext d d1); [done|apply F1; unfold rec_at; tp_lia]|].
    rewrite F1; [done|tp_lia].
  - intros i j x y Hi%Hsome Hj%Hsome. by apply (ra_disj _ _ _ _ Hr).
Qed.

Lemma first_empty_ok p sl offs :
  rep_at (data_ p) sl offs →
  find_slot (λ o, o =? 0) (data_ p) 0 (Z.to_nat (zlen sl)) = Ok (option_map Z.of_nat (first_slot no_tuple sl 0)).
Proof.
  intros Hr. pose proof (find_slot_ok (λ o, o =? 0) no_tuple (data_ p) sl offs 0 Hr) as H.
  rewrite drop_0, Nat.sub_0_r in H. unfold zlen. rewrite Nat2Z.id. apply H; [|lia].
  intros i s Hi. by apply (empty_test _ _ _ _ _ Hr).
Qed.

Lemma insert_tuple_ok p sl t bs :
  rep p sl → tuple_ok t bs → insert_pre sl bs →
  ∃ p', insert_tuple t p = Ok (option_map (λ i, mkRID (page_id_ p) (Z.of_nat i)) (spec_insert sl bs).2, p') ∧
    rep p' (spec_insert sl bs).1 ∧ page_id_ p' = page_id_ p.
Proof.
  intros [offs Hr] Ht Hpre. pose proof (ra_bounds _ _ _ _ Hr) as [Hz [Hb1 Hb2]].
  unfold insert_tuple, get_empty_slot, get_tuple_count. rewrite (ra_cnt _ _ _ _ Hr). cbn [mbind res_bind].
  rewrite (first_empty_ok _ _ _ Hr). cbn [mbind res_bind]. pose proof Ht as (_&Hts&_&Hpos).
  unfold spec_insert, insert_pre in *. pose proof (first_slot_spec no_tuple sl 0) as Hfs.
  destruct (first_slot no_tuple sl 0) as [i|] eqn:Efs; cbn [option_map].
  - destruct Hfs as (j&s&->&Hj&Hs). destruct s; [done|]. cbn [Nat.add] in *.
    rewrite (get_free_ok _ _ _ _ Hr). cbn [mbind res_bind]. rewrite Hts.
    destruct (Z.ltb_spec (free_of sl) (zlen bs)) as [Hlt|Hge].
    { rewrite (proj2 (Z.leb_gt _ _)) by lia. exists p. split_and!; [done|by exists offs|done]. }
    rewrite (proj2 (Z.leb_le _ _)) by lia. unfold get_free_space_pointer. rewrite (ra_fsp _ _ _ _ Hr). cbn [mbind res_bind].
    rewrite (serialize_ok _ _ _ _ Ht).
    destruct (put_tuple_ok (data_ p) sl offs j bs (rep_weaken _ _ _ _ Hr) Hj) as (d'&Hput&Hr'); [lia|].
    unfold put in Hput. apply res_bind_Ok in Hput as (d1&->&Hput). cbn [mbind res_bind].
    apply res_bind_Ok in Hput as (d2&->&Hput). cbn [mbind res_bind]. rewrite Hput. cbn [mbind res_bind].
    eexists. split_and!; [done|by eexists|done].
  - rewrite (get_free_ok _ _ _ _ Hr). cbn [mbind res_bind]. specialize (Hpre eq_refl).
    destruct (Z.ltb_spec (free_of sl) TUPLE_RECORD_SZ) as [Hlt|Hge].
    { rewrite (get_free_ok _ _ _ _ Hr). cbn [mbind res_bind]. rewrite Hts, (proj2 (Z.ltb_lt _ _)) by lia.
      rewrite (proj2 (Z.leb_gt _ _)) by lia. exists p. split_and!; [done|by exists offs|done]. }
    destruct (count_grow_ok _ _ _ Hr Hge) as (d0&->&Hr0). cbn [mbind res_bind data_ set_data].
    rewrite (get_free_ok _ _ _ _ Hr0). cbn [mbind res_bind].
    assert (free_of (sl ++ [None]) = free_of sl - TUPLE_RECORD_SZ) as Hfr.
    { unfold free_of, fsp_of. rewrite used_app, zlen_app. cbn. change (zlen [@None (bool * bytes)]) with 1. lia. }
    rewrite Hts, (proj2 (Z.ltb_ge _ _)), (proj2 (Z.leb_le _ _)) by lia.
    unfold get_free_space_pointer. rewrite (ra_fsp _ _ _ _ Hr0). cbn [mbind res_bind].
    rewrite (serialize_ok _ _ _ _ Ht).
    destruct (put_tuple_ok d0 (sl ++ [None]) offs (length sl) bs Hr0) as (d'&Hput&Hr'); [by apply list_lookup_middle|lia|].
    unfold put in Hput. apply res_bind_Ok in Hput as (d1&->&Hput). cbn [mbind res_bind].
    apply res_bind_Ok in Hput as (d2&->&Hput). cbn [mbind res_bind]. change (zlen sl) with (Z.of_nat (length sl)). rewrite Hput. cbn [mbind res_bind fst snd option_map].
    eexists. split_and!; [done| |done]. eexists.
    replace (sl ++ [Some (false, bs)]) with (<[length sl := Some (false, bs)]> (sl ++ [None])); [exact Hr'|].
    rewrite insert_app_r_alt by lia. by rewrite Nat.sub_diag.
Qed.

(** ** Marks, updates and reads *)

Definition slot_of sl (k : Z) : slot := mjoin (sl !! Z.to_nat k).

(** the guard of the operations: is the slot in use? *)
Lemma guard_ok d sl offs k :
  rep_at d sl offs → slot_ok k →
  ∃ o, get_tuple_offset d k = Ok o ∧ ((k >=? zlen sl) || (o =? 0)) = negb (is_full (slot_of sl k)) ∧
    (is_full (slot_of sl k) = true → o = offs (Z.to_nat k)).
Proof.
  intros Hr Hk. destruct (read_slot _ _ _ _ Hr Hk) as [[o Ho] _]. destruct Hk as [Hk0 _]. exists o. split; [done|]. unfold slot_of.
  destruct (sl !! Z.to_nat k) as [s|] eqn:E.
  - pose proof (slot_lt _ _ _ E) as Hlt. pose proof (get_offset_rep _ _ _ _ _ Hr E) as Ho'. rewrite Z2Nat.id in * by done.
    rewrite Ho' in Ho. injection Ho as <-. rewrite (empty_test _ _ _ _ _ Hr E).
    assert ((k >=? zlen sl) = false) as -> by (rewrite Z.geb_leb; apply Z.leb_gt; lia). cbn. by destruct s.
  - apply lookup_ge_None in E. unfold zlen. assert ((k >=? Z.of_nat (length sl)) = true) as -> by (rewrite Z.geb_leb; apply Z.leb_le; lia).
    done.
Qed.

Lemma slot_of_Some sl k x : slot_of sl k = Some x → sl !! Z.to_nat k = Some (Some x).
Proof. unfold slot_of. destruct (sl !! Z.to_nat k) as [[y|]|]; naive_solver. Qed.

Lemma stored_small d sl offs i del bs : rep_at d sl offs → sl !! i = Some (Some (del, bs)) → 0 < zlen bs < 2147483648.
Proof.
  intros Hr Hi. destruct (ra_some _ _ _ _ Hr i del bs Hi) as (_&?&?&?&_). pose proof (ra_bounds _ _ _ _ Hr). tp_lia.
Qed.

Lemma get_size_rep d sl offs k del bs :
  rep_at d sl offs → 0 ≤ k → slot_of sl k = Some (del, bs) → get_tuple_size d k = Ok (enc_size del (zlen bs)).
Proof.
  intros Hr Hk Hs%slot_of_Some. unfold get_tuple_size. rewrite rec_at_of by done. by apply (ra_some _ _ _ _ Hr).
Qed.

(** a page with the same records and data outside one slot *)
Lemma rep_replace d d' sl offs i del bs del' bs' :
  rep_at d sl offs → sl !! i = Some (Some (del, bs)) → zlen bs' = zlen bs → zlen d' = zlen d →
  rd32 d' (rec_at i + OFFSET_T_SIZE) = Ok (enc_size del' (zlen bs)) → mem_read d' (offs i) (zlen bs) = Ok bs' →
  (∀ o, o + 4 ≤ rec_at i + OFFSET_T_SIZE ∨ rec_at i + OFFSET_T_SIZE + 4 ≤ o → o + 4 ≤ fsp_of sl → rd32 d' o = rd32 d o) →
  (∀ o l, fsp_of sl ≤ o → o + l ≤ offs i ∨ offs i + zlen bs ≤ o → mem_read d' o l = mem_read d o l) →
  rep_at d' (<[i := Some (del', bs')]> sl) offs.
Proof.
  intros Hr Hi Hzb Hzd Hsz Hdat Hrd Hmem. pose proof (ra_bounds _ _ _ _ Hr) as [Hz [Hb1 Hb2]]. pose proof (slot_lt _ _ _ Hi) as Hlt.
  assert (fsp_of (<[i := Some (del', bs')]> sl) = fsp_of sl) as Hfsp.
  { unfold fsp_of. rewrite (used_insert _ _ _ _ Hi). cbn. lia. }
  assert (zlen (<[i := Some (del', bs')]> sl) = zlen sl) as Hzl by (unfold zlen; by rewrite length_insert).
  assert (∀ j, (<[i := Some (del', bs')]> sl) !! j = if decide (j = i) then Some (Some (del', bs')) else sl !! j) as Hlk.
  { intros j. case_decide as Hj; [subst j; apply list_lookup_insert_eq; by eapply lookup_lt_Some|by rewrite list_lookup_insert_ne]. }
  assert (∀ j x, (<[i := Some (del', bs')]> sl) !! j = Some (Some x) → ∃ y, sl !! j = Some (Some y) ∧ zlen x.2 = zlen y.2) as Hsome.
  { intros j x. rewrite Hlk. case_decide as Hj; [|by eauto]. subst j. intros [= <-]. eauto. }
  constructor.
  - rewrite Hzd. apply Hr.
  - rewrite Hzl, Hrd; [apply Hr|unfold rec_at; tp_lia|tp_lia].
  - rewrite Hfsp, Hrd; [apply Hr|unfold rec_at; tp_lia|tp_lia].
  - unfold free_of. rewrite Hfsp, Hzl. apply Hr.
  - intros j s _. rewrite Hlk. case_decide as Hj.
    + subst j. intros [= <-]. rewrite Hrd; [|unfold rec_at; tp_lia|unfold rec_at; tp_lia].
      by rewrite (ra_off _ _ _ _ Hr i (Some (del, bs))).
    + intros Hs. pose proof (slot_lt _ _ _ Hs). rewrite Hrd; [by apply Hr|unfold rec_at; tp_lia|unfold rec_at; tp_lia].
  - intros j e b. rewrite Hlk, Hfsp. case_decide as Hj.
    + subst j. intros [= <- <-]. rewrite Hzb. destruct (ra_some _ _ _ _ Hr i del bs Hi) as (_&?&?&?&_). done.
    + intros Hs. pose proof (slot_lt _ _ _ Hs). destruct (ra_some _ _ _ _ Hr j e b Hs) as (S1&S2&S3&S4&S5).
      split_and!; [|done|done|done|].
      * rewrite Hrd; [done|unfold rec_at; tp_lia|unfold rec_at; tp_lia].
      * rewrite Hmem; [done|lia|]. pose proof (ra_disj _ _ _ _ Hr j i _ _ Hs Hi Hj) as Hd. cbn in Hd. lia.
  - intros j k x y Hj Hk Hjk. apply Hsome in Hj as (x'&Hj&->), Hk as (y'&Hk&->). by apply (ra_disj _ _ _ _ Hr).
Qed.

Lemma set_mark_ok d sl offs k del bs del' :
  rep_at d sl offs → 0 ≤ k → slot_of sl k = Some (del, bs) →
  ∃ d', set_tuple_size d k (enc_size del' (zlen bs)) = Ok d' ∧ rep_at d' (<[Z.to_nat k := Some (del', bs)]> sl) offs.
Proof.
  intros Hr Hk Hs%slot_of_Some. pose proof (ra_bounds _ _ _ _ Hr) as [Hz [Hb1 Hb2]]. pose proof (slot_lt _ _ _ Hs) as Hlt.
  pose proof (ra_len _ _ _ _ Hr) as Hlen. pose proof (stored_small _ _ _ _ _ _ Hr Hs). destruct (ra_some _ _ _ _ Hr _ _ _ Hs) as (S1&S2&S3&S4&S5).
  unfold set_tuple_size. rewrite rec_at_of by done.
  destruct (wr32_ex d (rec_at (Z.to_nat k) + OFFSET_T_SIZE) (enc_size del' (zlen bs))) as (d'&->&L&R&F).
  { unfold rec_at. tp_lia. } { unfold rec_at. tp_lia. } { unfold enc_size. destruct del'; tp_lia. }
  exists d'. split; [done|]. eapply rep_replace; [done|done|done|done|done|..].
  - rewrite F; [done|unfold rec_at; tp_lia].
  - intros o Ho _. apply rd32_ext, F. tp_lia.
  - intros o l Ho _. apply F. unfold rec_at. tp_lia.
Qed.

Lemma overwrite_ok d sl offs k del bs bs' :
  rep_at d sl offs → 0 ≤ k → slot_of sl k = Some (del, bs) → zlen bs' = zlen bs →
  ∃ d', mem_write d (offs (Z.to_nat k)) bs' = Ok d' ∧ rep_at d' (<[Z.to_nat k := Some (del, bs')]> sl) offs.
Proof.
  intros Hr Hk Hs%slot_of_Some Hl. pose proof (ra_bounds _ _ _ _ Hr) as [Hz [Hb1 Hb2]]. pose proof (slot_lt _ _ _ Hs) as Hlt.
  pose proof (ra_len _ _ _ _ Hr) as Hlen. destruct (ra_some _ _ _ _ Hr _ _ _ Hs) as (S1&S2&S3&S4&S5).
  destruct (mem_write_ex d (offs (Z.to_nat k)) bs') as (d'&->&L&R&F); [tp_lia..|].
  exists d'. split; [done|]. eapply rep_replace; [done|done|done|done|..].
  - rewrite (rd32_ext d d'); [done|apply F; unfold rec_at; tp_lia].
  - by rewrite <- Hl.
  - intros o _ Ho. apply rd32_ext, F. lia.
  - intros o l _ Ho. apply F. lia.
Qed.

Lemma mem_write_all bs n : zlen bs = n → mem_write (replicate (Z.to_nat n) 0) 0 bs = Ok bs.
Proof.
  intros <-. apply mem_write_Ok. rewrite zlen_replicate. pose proof (zlen_nonneg bs). split_and!; [lia|lia|].
  rewrite Z.add_0_l, drop_ge by (rewrite length_replicate; lia). cbn. by rewrite app_nil_r.
Qed.

Lemma deserialize_ok d sl offs i del bs t :
  rep_at d sl offs → sl !! i = Some (Some (del, bs)) → t_allocated t = true → t_size t = zlen bs →
  t_data t = replicate (Z.to_nat (zlen bs)) 0 →
  deserialize_from t d (offs i) = Ok (mkTuple true (t_rid t) (zlen bs) bs).
Proof.
  intros Hr Hi Ha Hs Hd. unfold deserialize_from. rewrite Ha, Hs, Hd.
  destruct (ra_some _ _ _ _ Hr _ _ _ Hi) as (_&_&_&_&->). cbn [mbind res_bind]. by rewrite mem_write_all.
Qed.

(** ** Deletion *)

Definition moved (del size o : Z) : Z := if negb (o =? 0) && (o <? del) then o + size else o.

Lemma shift_records_ok del size off n : ∀ k d,
  zlen d = PAGE_SIZE → rec_at (k + n) ≤ PAGE_SIZE →
  (∀ i, (k ≤ i < k + n)%nat → rd32 d (rec_at i) = Ok (off i) ∧ in32 (moved del size (off i))) →
  ∃ d', shift_records del size d (Z.of_nat k) n = Ok d' ∧ zlen d' = zlen d ∧
    (∀ i, (k ≤ i < k + n)%nat → rd32 d' (rec_at i) = Ok (moved del size (off i))) ∧
    (∀ o l, (∀ i, (k ≤ i < k + n)%nat → o + l ≤ rec_at i ∨ rec_at i + 4 ≤ o) → mem_read d' o l = mem_read d o l).
Proof.
  induction n as [|n IH]; intros k d Hl Hb Ho.
  { exists d. split_and!; [done|done|intros; lia|done]. }
  cbn [shift_records]. unfold get_tuple_offset, set_tuple_offset. rewrite rec_at_of, Nat2Z.id by lia.
  destruct (Ho k) as [-> Hin]; [lia|]. cbn [mbind res_bind].
  assert (∃ d1, (if negb (off k =? 0) && (off k <? del) then wr32 d (rec_at k) (off k + size) else Ok d) = Ok d1 ∧
    zlen d1 = zlen d ∧ rd32 d1 (rec_at k) = Ok (moved del size (off k)) ∧
    (∀ o l, o + l ≤ rec_at k ∨ rec_at k + 4 ≤ o → mem_read d1 o l = mem_read d o l)) as (d1&->&L1&R1&F1).
  { unfold moved in *. destruct (negb (off k =? 0) && (off k <? del)).
    - apply wr32_ex; [unfold rec_at in *; tp_lia..|done].
    - exists d. split_and!; [done|done|apply Ho; lia|done]. }
  cbn [mbind res_bind]. replace (Z.of_nat k + 1) with (Z.of_nat (S k)) by lia.
  destruct (IH (S k) d1) as (d2&->&L2&R2&F2).
  - congruence.
  - by replace (S k + n)%nat with (k + S n)%nat by lia.
  - intros i Hi. destruct (Ho i) as [Hoi ?]; [lia|]. split; [|done]. rewrite (rd32_ext d d1); [done|].
    apply F1. unfold rec_at. tp_lia.
  - exists d2. split_and!; [done|congruence| |].
    + intros i Hi. destruct (decide (i = k)) as [->|]; [|apply R2; lia].
      rewrite (rd32_ext d1 d2); [done|]. apply F2. intros j Hj. unfold rec_at. tp_lia.
    + intros o l Hol. rewrite F2, F1; [done|apply Hol; lia|]. intros; apply Hol; lia.
Qed.

Lemma apply_delete_ok p sl rid del bs :
  rep p sl → slot_ok (rid_slot_num rid) → slot_of sl (rid_slot_num rid) = Some (del, bs) →
  ∃ p', apply_delete rid p = Ok p' ∧ rep p' (<[Z.to_nat (rid_slot_num rid) := None]> sl) ∧ page_id_ p' = page_id_ p.
Proof.
  intros [offs Hr] Hk Hs. set (k := rid_slot_num rid) in *.
  pose proof (ra_bounds _ _ _ _ Hr) as [Hz [Hb1 Hb2]]. pose proof (ra_len _ _ _ _ Hr) as Hlen.
  unfold apply_delete. fold k. destruct (guard_ok _ _ _ _ Hr Hk) as (o&->&Hg&Ho). cbn [mbind res_bind].
  destruct Hk as [Hk0 _]. rewrite (get_size_rep _ _ _ _ _ _ Hr Hk0 Hs). cbn [mbind res_bind].
  unfold delete_tuple_record, get_tuple_count. rewrite (ra_cnt _ _ _ _ Hr). cbn [mbind res_bind]. rewrite Hg, Hs in *. cbn [is_full negb andb] in *.
  rewrite (Ho eq_refl). apply slot_of_Some in Hs as Hi. set (i := Z.to_nat k) in *. clear o Hg Ho.
  destruct (ra_some _ _ _ _ Hr i del bs Hi) as (_&S2&S3&S4&_). pose proof (stored_small _ _ _ _ _ _ Hr Hi) as Hsm.
  destruct (flags del (zlen bs)) as (_&_&->); [lia|]. pose proof (slot_lt _ _ _ Hi) as Hlt.
  unfold get_free_space_pointer. rewrite (ra_fsp _ _ _ _ Hr). cbn [mbind res_bind].
  assert ((k >=? zlen sl) = false) as -> by (rewrite Z.geb_leb; apply Z.leb_gt; unfold i in *; lia).
  rewrite rec_at_of by done. fold i.
  destruct (mem_set0_ex (data_ p) (rec_at i) TUPLE_RECORD_SZ) as (d1&->&L1&R1&F1); [unfold rec_at; tp_lia..|]. cbn [mbind res_bind].
  set (n := zlen bs) in *. set (fsp := fsp_of sl) in *.
  destruct (mem_move_ex d1 (fsp + n) fsp (offs i - fsp)) as (d2&->&L2&M2&F2); [tp_lia..|]. cbn [mbind res_bind].
  unfold set_free_space_pointer. destruct (wr32_ex d2 FREE_SPACE_PTR_OFFSET (fsp + n)) as (d3&->&L3&R3&F3); [tp_lia..|].
  cbn [mbind res_bind].
  rewrite (rd32_ext d2 d3), (rd32_ext d1 d2), (rd32_ext (data_ p) d1), (ra_cnt _ _ _ _ Hr);
    [|apply F1; unfold rec_at; tp_lia|apply F2; tp_lia|apply F3; tp_lia].
  cbn [mbind res_bind].
  set (old := λ j, match sl !! j with Some (Some _) => if decide (j = i) then 0 else offs j | _ => 0 end).
  assert (∀ j, (j < length sl)%nat → rd32 d3 (rec_at j) = Ok (old j)) as Hold.
  { intros j Hj. destruct (lookup_lt_is_Some_2 sl j Hj) as [s Hjs]. unfold old. rewrite Hjs.
    pose proof (slot_lt _ _ _ Hjs). rewrite (rd32_ext d2 d3), (rd32_ext d1 d2); [|apply F2; unfold rec_at; tp_lia|apply F3; unfold rec_at; tp_lia].
    destruct (decide (j = i)) as [->|Hji]; [rewrite R1 by (unfold rec_at; tp_lia); by destruct s|].
    rewrite (rd32_ext (data_ p) d1); [|apply F1; unfold rec_at; tp_lia]. rewrite (ra_off _ _ _ _ Hr j s) by done. by destruct s. }
  assert (∀ j x, sl !! j = Some (Some x) → j ≠ i → old j = offs j ∧
    moved (offs i) n (offs j) = (if offs j <? offs i then offs j + n else offs j)) as Hold2.
  { intros j x Hj Hji. unfold old, moved. rewrite Hj, decide_False by done. split; [done|].
    destruct (offs_pos _ _ _ _ _ Hr Hj). by rewrite (proj2 (Z.eqb_neq _ _)) by lia. }
  destruct (shift_records_ok (offs i) n old (Z.to_nat (zlen sl)) 0 d3) as (d4&Hd4&L4&R4&F4).
  { congruence. }
  { unfold rec_at. unfold zlen. rewrite Nat.add_0_l, Nat2Z.id. fold (zlen sl). tp_lia. }
  { intros j Hj. split; [apply Hold; unfold zlen in Hj; lia|]. unfold old, moved.
    destruct (sl !! j) as [[x|]|] eqn:E; [|cbn; tp_lia..]. case_decide; [cbn; tp_lia|].
    destruct (offs_pos _ _ _ _ _ Hr E). case_match; tp_lia. }
  change (Z.of_nat 0) with 0 in Hd4. rewrite Hd4. cbn [mbind res_bind]. eexists. split_and!; [done| |done].
  assert (Z.to_nat (zlen sl) = length sl) as Hnl by (unfold zlen; lia). rewrite Hnl in *.
  exists (λ j, if offs j <? offs i then offs j + n else offs j). cbn [data_ set_data].
  assert (fsp_of (<[i := None]> sl) = fsp + n) as Hfsp.
  { unfold fsp_of. rewrite (used_insert _ _ _ _ Hi). unfold fsp, fsp_of, n. cbn. lia. }
  assert (zlen (<[i := None]> sl) = zlen sl) as Hzl by (unfold zlen; by rewrite length_insert).
  assert (∀ j x, (<[i := None]> sl) !! j = Some (Some x) → sl !! j = Some (Some x) ∧ j ≠ i) as Hsome.
  { intros j x Hj. destruct (decide (j = i)) as [->|]; [|by rewrite list_lookup_insert_ne in Hj].
    by rewrite list_lookup_insert_eq in Hj by (by eapply lookup_lt_Some). }
  assert (∀ o l, o + l ≤ FIRST_TUPLE_OFFSET ∨ fsp ≤ o ∨ (∃ j, o = rec_at j + 4 ∧ l = 4) → mem_read d4 o l = mem_read d3 o l) as Hf4.
  { intros o l Hol. apply F4. intros j Hj. unfold rec_at in *. unfold zlen in Hb1. destruct Hol as [?|[?|(m&->&->)]]; tp_lia. }
  constructor.
  - congruence.
  - rewrite Hzl, (rd32_ext d3 d4), (rd32_ext d2 d3), (rd32_ext d1 d2), (rd32_ext (data_ p) d1); [apply Hr|..].
    { apply F1. unfold rec_at. tp_lia. } { apply F2. tp_lia. } { apply F3. tp_lia. } { apply Hf4. tp_lia. }
  - rewrite Hfsp, (rd32_ext d3 d4); [done|]. apply Hf4. tp_lia.
  - unfold free_of. rewrite Hfsp, Hzl. lia.
  - intros j s _ Hj. assert (j < length sl)%nat as Hjl by (apply lookup_lt_Some in Hj; by rewrite length_insert in Hj).
    rewrite R4 by lia. f_equal. destruct (decide (j = i)) as [->|Hji].
    + rewrite list_lookup_insert_eq in Hj by done. injection Hj as <-. unfold old. rewrite Hi, decide_True by done. done.
    + rewrite list_lookup_insert_ne in Hj by done. destruct s as [x|].
      * destruct (Hold2 j x Hj Hji) as [-> ->]. done.
      * unfold old. by rewrite Hj.
  - intros j e b Hj. apply Hsome in Hj as [Hj Hji]. destruct (ra_some _ _ _ _ Hr j e b Hj) as (T1&T2&T3&T4&T5).
    pose proof (slot_lt _ _ _ Hj). pose proof (ra_disj _ _ _ _ Hr j i _ _ Hj Hi Hji) as Hdj. cbn in Hdj. fold n in Hdj. rewrite Hfsp.
    split_and!; [|done|destruct (Z.ltb_spec (offs j) (offs i)); lia|destruct (Z.ltb_spec (offs j) (offs i)); lia|].
    + rewrite (rd32_ext d3 d4), (rd32_ext d2 d3), (rd32_ext d1 d2), (rd32_ext (data_ p) d1); [done|..].
      * apply F1. unfold rec_at. tp_lia.
      * apply F2. unfold rec_at. tp_lia.
      * apply F3. unfold rec_at. tp_lia.
      * apply Hf4. right. right. by exists j.
    + rewrite Hf4, F3 by (destruct (Z.ltb_spec (offs j) (offs i)); tp_lia).
      destruct (Z.ltb_spec (offs j) (offs i)).
      * replace (offs j + n) with (offs j - fsp + (fsp + n)) by lia. rewrite M2, F1; [done|unfold rec_at; tp_lia|lia..].
      * rewrite F2, F1; [done|unfold rec_at; tp_lia|lia].
  - intros j l x y Hj Hl Hjl. apply Hsome in Hj as [Hj Hji], Hl as [Hl Hli].
    destruct x as [ex x], y as [ey y]. destruct (ra_some _ _ _ _ Hr _ _ _ Hj) as (_&?&_), (ra_some _ _ _ _ Hr _ _ _ Hl) as (_&?&_).
    pose proof (ra_disj _ _ _ _ Hr j l _ _ Hj Hl Hjl) as D0. pose proof (ra_disj _ _ _ _ Hr j i _ _ Hj Hi Hji) as D1.
    pose proof (ra_disj _ _ _ _ Hr l i _ _ Hl Hi Hli) as D2. cbn [snd] in *. fold n in D1, D2.
    destruct (Z.ltb_spec (offs j) (offs i)), (Z.ltb_spec (offs l) (offs i)); lia.
Qed.

(** ** The abstract page and the refinement *)

Inductive page_op :=
  | OInsert (t : Tuple)
  | OMarkDelete (rid : RID)
  | ORollbackDelete (rid : RID)
  | OApplyDelete (rid : RID)
  | OUpdate (t : Tuple) (rid : RID)
  | OGet (rid : RID)
  | ONext (cur next : RID)
  | OFirst
  | OStored.
Inductive page_result :=
  | PRid (r : option RID)
  | PBool (b : bool)
  | PUnit
  | PTuple (t : option Tuple)
  | PNext (b : bool) (r : RID)
  | PCount (n : Z).

Definition exec_op (op : page_op) (p : Page) : res (page_result * Page) :=
  match op with
  | OInsert t => let* (r, p) := insert_tuple t p in Ok (PRid r, p)
  | OMarkDelete rid => let* (b, p) := mark_delete rid p in Ok (PBool b, p)
  | ORollbackDelete rid => p ← rollback_delete rid p; Ok (PUnit, p)
  | OApplyDelete rid => p ← apply_delete rid p; Ok (PUnit, p)
  | OUpdate t rid => let* (b, p) := update_tuple t rid p in Ok (PBool b, p)
  | OGet rid => t ← get_tuple rid p; Ok (PTuple t, p)
  | ONext cur next => let* (b, r) := get_next_tuple_rid cur next p in Ok (PNext b r, p)
  | OFirst => t ← get_the_first_tuple p; Ok (PTuple t, p)
  | OStored => n ← get_stored_tuple_cnt p; Ok (PCount n, p)
  end.

(** what the operations do on slots of the page [pg] *)
Definition spec_op (pg : Z) (op : page_op) sl : page_result * list slot :=
  match op with
  | OInsert t =>
      let '(sl, i) := spec_insert sl (t_data t) in
      (PRid (option_map (λ i, mkRID pg (Z.of_nat i)) i), sl)
  | OMarkDelete rid =>
      match slot_of sl (rid_slot_num rid) with
      | Some (_, bs) =>
          if pg =? rid_page_id rid then (PBool true, <[Z.to_nat (rid_slot_num rid) := Some (true, bs)]> sl) else (PBool false, sl)
      | None => (PBool false, sl)
      end
  | ORollbackDelete rid =>
      match slot_of sl (rid_slot_num rid) with
      | Some (_, bs) => (PUnit, <[Z.to_nat (rid_slot_num rid) := Some (false, bs)]> sl)
      | None => (PUnit, sl)
      end
  | OApplyDelete rid => (PUnit, <[Z.to_nat (rid_slot_num rid) := None]> sl)
  | OUpdate t rid =>
      match slot_of sl (rid_slot_num rid) with
      | Some (false, bs) =>
          if (zlen bs =? t_size t) && (rid_page_id rid =? pg)
          then (PBool true, <[Z.to_nat (rid_slot_num rid) := Some (false, t_data t)]> sl) else (PBool false, sl)
      | _ => (PBool false, sl)
      end
  | OGet rid =>
      (PTuple (option_map (λ x, mkTuple true rid (zlen x.2) x.2) (slot_of sl (rid_slot_num rid))), sl)
  | ONext cur next =>
      if rid_page_id cur =? INVALID_PAGE_ID then
        (match first_slot is_full sl 0 with
         | Some i => PNext true (mkRID pg (Z.of_nat i)) | None => PNext false next end, sl)
      else
        let k := Z.to_nat (rid_slot_num cur + 1) in
        (match first_slot is_full (drop k sl) k with
         | Some i => PNext true (mkRID pg (Z.of_nat i)) | None => PNext false (mkRID INVALID_PAGE_ID (-1)) end, sl)
  | OFirst =>
      (PTuple (i ← first_slot is_full sl 0; x ← mjoin (sl !! i);
               Some (mkTuple true (mkRID pg (Z.of_nat i)) (zlen x.2) x.2)), sl)
  | OStored => (PCount (zlen (filter (λ s, is_full s = true) sl)), sl)
  end.

(** what the operations rely on: slot numbers inside a page, whole tuples, a tuple
    in the slot that is deleted, no mark on the tuple the page is asked for first *)
Definition op_pre (op : page_op) sl : Prop :=
  match op with
  | OInsert t => tuple_ok t (t_data t) ∧ insert_pre sl (t_data t)
  | OMarkDelete rid | ORollbackDelete rid | OGet rid => slot_ok (rid_slot_num rid)
  | OApplyDelete rid => slot_ok (rid_slot_num rid) ∧ is_full (slot_of sl (rid_slot_num rid)) = true
  | OUpdate t rid => slot_ok (rid_slot_num rid) ∧ tuple_ok t (t_data t)
  | ONext cur next => rid_page_id cur = INVALID_PAGE_ID ∨ 0 ≤ rid_slot_num cur
  | OFirst => ∀ i x, first_slot is_full sl 0 = Some i → sl !! i = Some (Some x) → x.1 = false
  | OStored => True
  end.

Lemma update_tuple_ok p sl t rid :
  rep p sl → slot_ok (rid_slot_num rid) → tuple_ok t (t_data t) →
  ∃ r p', exec_op (OUpdate t rid) p = Ok (r, p') ∧ page_id_ p' = page_id_ p ∧
    r = (spec_op (page_id_ p) (OUpdate t rid) sl).1 ∧ rep p' (spec_op (page_id_ p) (OUpdate t rid) sl).2.
Proof.
  intros [offs Hr] Hk Ht. cbn [exec_op spec_op]. unfold update_tuple.
  destruct (guard_ok _ _ _ _ Hr Hk) as (o&->&Hg&Ho). cbn [mbind res_bind].
  destruct (read_slot _ _ _ _ Hr Hk) as [_ [sz Hsz]]. rewrite Hsz. cbn [mbind res_bind].
  unfold get_tuple_count. rewrite (ra_cnt _ _ _ _ Hr). cbn [mbind res_bind]. rewrite Hg. destruct Hk as [Hk0 _].
  destruct (slot_of sl (rid_slot_num rid)) as [[del bs]|] eqn:Es; cbn [is_full negb orb] in *;
    [|eexists _, p; split_and!; [done|done|done|by exists offs]].
  pose proof (get_size_rep _ _ _ _ _ _ Hr Hk0 Es) as Hsz'. rewrite Hsz in Hsz'. injection Hsz' as ->.
  pose proof (stored_small _ _ _ _ _ _ Hr (slot_of_Some _ _ _ Es)) as Hsm. pose proof Ht as (_&Hts&_&Htp).
  destruct del; cbn [enc_size].
  { rewrite (proj2 (Z.eqb_neq _ _)) by lia. eexists _, p. split_and!; [done|done|done|by exists offs]. }
  destruct (Z.eqb_spec (zlen bs) (t_size t)) as [E|E]; cbn [negb orb andb]; [|eexists _, p; split_and!; [done|done|done|by exists offs]].
  destruct (rid_page_id rid =? page_id_ p); cbn [negb]; [|eexists _, p; split_and!; [done|done|done|by exists offs]].
  rewrite (serialize_ok _ _ _ _ Ht), (Ho eq_refl).
  destruct (overwrite_ok _ _ _ _ _ _ (t_data t) Hr Hk0 Es) as (d'&->&Hr'); [lia|]. cbn [mbind res_bind].
  eexists _, _. split_and!; [done|done|done|by exists offs].
Qed.

Lemma delete_mark_ok p sl rid :
  rep p sl → slot_ok (rid_slot_num rid) →
  (∃ r p', exec_op (OMarkDelete rid) p = Ok (r, p') ∧ page_id_ p' = page_id_ p ∧
    r = (spec_op (page_id_ p) (OMarkDelete rid) sl).1 ∧ rep p' (spec_op (page_id_ p) (OMarkDelete rid) sl).2) ∧
  (∃ r p', exec_op (ORollbackDelete rid) p = Ok (r, p') ∧ page_id_ p' = page_id_ p ∧
    r = (spec_op (page_id_ p) (ORollbackDelete rid) sl).1 ∧ rep p' (spec_op (page_id_ p) (ORollbackDelete rid) sl).2).
Proof.
  intros [offs Hr] Hk. cbn [exec_op spec_op]. unfold mark_delete, rollback_delete.
  destruct (guard_ok _ _ _ _ Hr Hk) as (o&->&Hg&Ho). cbn [mbind res_bind].
  unfold get_tuple_count. rewrite (ra_cnt _ _ _ _ Hr). cbn [mbind res_bind]. rewrite Hg. destruct Hk as [Hk0 _].
  destruct (slot_of sl (rid_slot_num rid)) as [[del bs]|] eqn:Es; cbn [is_full negb orb];
    [|split; eexists _, p; (split_and!; [done|done|done|by exists offs])].
  rewrite (get_size_rep _ _ _ _ _ _ Hr Hk0 Es). cbn [mbind res_bind].
  pose proof (stored_small _ _ _ _ _ _ Hr (slot_of_Some _ _ _ Es)) as Hsm.
  destruct (flags del (zlen bs)) as (_&->&->); [lia|]. split.
  - destruct (page_id_ p =? rid_page_id rid); cbn [negb]; [|eexists _, p; split_and!; [done|done|done|by exists offs]].
    destruct (set_mark_ok _ _ _ _ _ _ true Hr Hk0 Es) as (d'&->&Hr'). cbn [mbind res_bind].
    eexists _, _. split_and!; [done|done|done|by exists offs].
  - destruct (set_mark_ok _ _ _ _ _ _ false Hr Hk0 Es) as (d'&Hd&Hr'). cbn [enc_size] in Hd. rewrite Hd. cbn [mbind res_bind].
    eexists _, _. split_and!; [done|done|done|by exists offs].
Qed.

Lemma get_tuple_ok p sl rid :
  rep p sl → slot_ok (rid_slot_num rid) →
  get_tuple rid p = Ok (option_map (λ x, mkTuple true rid (zlen x.2) x.2) (slot_of sl (rid_slot_num rid))).
Proof.
  intros [offs Hr] Hk. unfold get_tuple. destruct (guard_ok _ _ _ _ Hr Hk) as (o&->&Hg&Ho). cbn [mbind res_bind].
  destruct (read_slot _ _ _ _ Hr Hk) as [_ [sz Hsz]]. rewrite Hsz. cbn [mbind res_bind].
  unfold get_tuple_count. rewrite (ra_cnt _ _ _ _ Hr). cbn [mbind res_bind]. rewrite Hg. destruct Hk as [Hk0 _].
  destruct (slot_of sl (rid_slot_num rid)) as [[del bs]|] eqn:Es; cbn [is_full negb option_map] in *; [|done].
  pose proof (get_size_rep _ _ _ _ _ _ Hr Hk0 Es) as Hsz'. rewrite Hsz in Hsz'. injection Hsz' as ->.
  pose proof (stored_small _ _ _ _ _ _ Hr (slot_of_Some _ _ _ Es)) as Hsm.
  destruct (flags del (zlen bs)) as (->&_&->); [lia|]. rewrite (Ho eq_refl).
  assert ((if del then zlen bs else enc_size del (zlen bs)) = zlen bs) as -> by (by destruct del).
  by rewrite (deserialize_ok _ _ _ _ _ _ _ Hr (slot_of_Some _ _ _ Es)).
Qed.

Lemma full_from d sl offs k : rep_at d sl offs → (k ≤ length sl)%nat →
  find_slot (λ o, negb (o =? 0)) d (Z.of_nat k) (length sl - k) = Ok (option_map Z.of_nat (first_slot is_full (drop k sl) k)).
Proof.
  intros Hr Hk. apply (find_slot_ok _ _ _ _ offs); [done| |done].
  intros i s Hi. rewrite (empty_test _ _ _ _ _ Hr Hi). by rewrite negb_involutive.
Qed.

Lemma get_next_ok p sl cur next :
  rep p sl → rid_page_id cur = INVALID_PAGE_ID ∨ 0 ≤ rid_slot_num cur →
  exec_op (ONext cur next) p = Ok ((spec_op (page_id_ p) (ONext cur next) sl).1, p).
Proof.
  intros [offs Hr] Hpre. cbn [exec_op spec_op]. unfold get_next_tuple_rid, get_tuple_count. rewrite (ra_cnt _ _ _ _ Hr). cbn [mbind res_bind].
  destruct (Z.eqb_spec (rid_page_id cur) INVALID_PAGE_ID) as [E|E].
  - pose proof (full_from _ _ _ 0 Hr ltac:(lia)) as H. rewrite drop_0, Nat.sub_0_r in H. change (Z.of_nat 0) with 0 in H.
    unfold zlen. rewrite Nat2Z.id, H. cbn [mbind res_bind]. by destruct (first_slot is_full sl 0).
  - destruct Hpre as [?|Hpre]; [done|]. set (k := Z.to_nat (rid_slot_num cur + 1)). cbn [fst].
    replace (rid_slot_num cur + 1) with (Z.of_nat k) by lia. unfold zlen.
    replace (Z.to_nat (Z.of_nat (length sl) - Z.of_nat k)) with (length sl - k)%nat by lia.
    destruct (decide (k ≤ length sl)%nat) as [Hk|Hk].
    + rewrite (full_from _ _ _ k Hr Hk). cbn [mbind res_bind]. by destruct (first_slot is_full (drop k sl) k).
    + rewrite drop_ge by lia. replace (length sl - k)%nat with 0%nat by lia. done.
Qed.

Lemma get_first_ok p sl :
  rep p sl → op_pre OFirst sl →
  exec_op OFirst p = Ok ((spec_op (page_id_ p) OFirst sl).1, p).
Proof.
  intros [offs Hr] Hpre. cbn [exec_op spec_op op_pre fst] in *. unfold get_the_first_tuple, get_tuple_count. rewrite (ra_cnt _ _ _ _ Hr). cbn [mbind res_bind].
  pose proof (full_from _ _ _ 0 Hr ltac:(lia)) as H. rewrite drop_0, Nat.sub_0_r in H. change (Z.of_nat 0) with 0 in H.
  unfold zlen at 1. rewrite Nat2Z.id, H. cbn [mbind res_bind]. pose proof (first_slot_spec is_full sl 0) as Hfs.
  destruct (first_slot is_full sl 0) as [i|]; [|done]. destruct Hfs as (j&s&Hij&Hj&Hs). cbn [Nat.add] in Hij. subst j.
  destruct s as [[del bs]|]; [|done]. specialize (Hpre i _ eq_refl Hj). cbn in Hpre. subst del. cbn [option_map mbind res_bind option_bind].
  rewrite (get_offset_rep _ _ _ _ _ Hr Hj), Hj. cbn [mbind res_bind].
  assert (slot_of sl (Z.of_nat i) = Some (false, bs)) as Hsl by (unfold slot_of; by rewrite Nat2Z.id, Hj).
  rewrite (get_size_rep _ _ _ _ _ _ Hr (Nat2Z.is_nonneg i) Hsl). cbn [mbind res_bind enc_size].
  pose proof (stored_small _ _ _ _ _ _ Hr Hj) as Hsm. unfold Tuple_new. rewrite (proj2 (Z.ltb_lt _ _)) by lia.
  by rewrite (deserialize_ok _ _ _ _ _ _ _ Hr Hj).
Qed.

Lemma stored_ok p sl : rep p sl → get_stored_tuple_cnt p = Ok (zlen (filter (λ s, is_full s = true) sl)).
Proof.
  intros [offs Hr]. unfold get_stored_tuple_cnt, get_tuple_count. rewrite (ra_cnt _ _ _ _ Hr). cbn [mbind res_bind].
  assert (∀ n k, (k + n = length sl)%nat → count_slots (data_ p) (Z.of_nat k) n = Ok (zlen (filter (λ s, is_full s = true) (drop k sl)))) as H.
  { induction n as [|n IH]; intros k Hk; [rewrite drop_ge by lia; done|].
    destruct (lookup_lt_is_Some_2 sl k) as [s Hs]; [lia|]. rewrite (drop_S _ _ _ Hs). cbn [count_slots].
    rewrite (get_offset_rep _ _ _ _ _ Hr Hs). cbn [mbind res_bind]. replace (Z.of_nat k + 1) with (Z.of_nat (S k)) by lia.
    rewrite IH by lia. cbn [mbind res_bind]. rewrite (empty_test _ _ _ _ _ Hr Hs), filter_cons. f_equal.
    destruct s; cbn [is_full negb]; [rewrite decide_True by done; unfold zlen; cbn [length]; lia|by rewrite decide_False]. }
  specialize (H (length sl) 0%nat ltac:(lia)). rewrite drop_0 in H. change (Z.of_nat 0) with 0 in H. unfold zlen at 1. by rewrite Nat2Z.id.
Qed.

Lemma exec_op_ok op p sl :
  rep p sl → op_pre op sl →
  ∃ p', exec_op op p = Ok ((spec_op (page_id_ p) op sl).1, p') ∧ rep p' (spec_op (page_id_ p) op sl).2 ∧ page_id_ p' = page_id_ p.
Proof.
  intros Hr Hpre. destruct op as [t|rid|rid|rid|t rid|rid|cur next| |]; cbn [op_pre] in Hpre.
  - destruct Hpre as [Ht Hpre]. destruct (insert_tuple_ok p sl t (t_data t) Hr Ht Hpre) as (p'&H&Hr'&Hid).
    cbn [exec_op spec_op]. rewrite H. destruct (spec_insert sl (t_data t)) as [sl' i]. exists p'. done.
  - destruct (delete_mark_ok p sl rid Hr Hpre) as [(r&p'&->&?&->&?) _]. by exists p'.
  - destruct (delete_mark_ok p sl rid Hr Hpre) as [_ (r&p'&->&?&->&?)]. by exists p'.
  - destruct Hpre as [Hk Hf]. destruct (slot_of sl (rid_slot_num rid)) as [[del bs]|] eqn:Es; [|done].
    destruct (apply_delete_ok p sl rid del bs Hr Hk Es) as (p'&H&Hr'&Hid). cbn [exec_op spec_op]. rewrite H. by exists p'.
  - destruct Hpre as [Hk Ht]. destruct (update_tuple_ok p sl t rid Hr Hk Ht) as (r&p'&->&?&->&?). by exists p'.
  - cbn [exec_op spec_op]. rewrite (get_tuple_ok _ _ _ Hr Hpre). by exists p.
  - rewrite (get_next_ok _ _ _ _ Hr Hpre). exists p. split_and!; [done| |done]. cbn [spec_op]. by destruct (_ =? _).
  - rewrite (get_first_ok _ _ Hr Hpre). by exists p.
  - cbn [exec_op spec_op]. rewrite (stored_ok _ _ Hr). by exists p.
Qed.

Lemma init_ok prev next p : page_ok p → in32 prev → in32 next →
  ∃ p', init prev next p = Ok p' ∧ rep p' [] ∧ page_id_ p' = page_id_ p ∧
    get_prev_page_id (data_ p') = Ok prev ∧ get_next_page_id (data_ p') = Ok next.
Proof.
  unfold page_ok, init. intros Hl Hp Hn.
  destruct (mem_set0_ex (data_ p) START_OFFSET (PAGE_SIZE - COM_PG_HEADER_SZ)) as (d1&->&L1&_&_); [tp_lia..|]. cbn [mbind res_bind].
  destruct (wr32_ex d1 PREV_PGID_OFFSET prev) as (d2&->&L2&R2&_); [tp_lia|tp_lia|done|]. cbn [mbind res_bind].
  destruct (wr32_ex d2 NEXT_PGID_OFFSET next) as (d3&->&L3&R3&F3); [tp_lia|tp_lia|done|]. cbn [mbind res_bind].
  destruct (wr32_ex d3 TUPLE_CNT_OFFSET 0) as (d4&->&L4&R4&F4); [tp_lia..|]. cbn [mbind res_bind].
  unfold set_free_space_pointer.
  destruct (wr32_ex d4 FREE_SPACE_PTR_OFFSET INVALID_FREE_SPACE_PTR) as (d5&->&L5&R5&F5); [tp_lia..|]. cbn [mbind res_bind].
  eexists. split; [done|]. cbn [data_ set_data page_id_]. unfold get_prev_page_id, get_next_page_id. split_and!; [|done|..].
  - exists (λ _, 0). cbn [data_ set_data]. constructor; try done; [tp_lia|].
    rewrite (rd32_ext d4 d5); [done|apply F5; tp_lia].
  - rewrite (rd32_ext d4 d5), (rd32_ext d3 d4), (rd32_ext d2 d3); [done|apply F3|apply F4|apply F5]; tp_lia.
  - rewrite (rd32_ext d4 d5), (rd32_ext d3 d4); [done|apply F4|apply F5]; tp_lia.
Qed.

Fixpoint run_ops (ops : list page_op) (p : Page) : res (list page_result * Page) :=
  match ops with
  | [] => Ok ([], p)
  | op :: ops =>
      let* (r, p) := exec_op op p in
      let* (rs, p) := run_ops ops p in
      Ok (r :: rs, p)
  end.
Fixpoint spec_ops (pg : Z) (ops : list page_op) sl : list page_result * list slot :=
  match ops with
  | [] => ([], sl)
  | op :: ops =>
      let '(r, sl) := spec_op pg op sl in
      let '(rs, sl) := spec_ops pg ops sl in (r :: rs, sl)
  end.
Fixpoint ops_pre (pg : Z) (ops : list page_op) sl : Prop :=
  match ops with
  | [] => True
  | op :: ops => op_pre op sl ∧ ops_pre pg ops (spec_op pg op sl).2
  end.

(** C14: A table page is a list of slots: after formatting a page, a sequence of insertions,
    deletion marks, roll-backs, final deletions (with the compaction of the data they do),
    updates, reads and scans runs without leaving the page, returns what the same operations
    return on the slots, and ends in a page that stores exactly the resulting slots, under
    these conditions on each operation when it is run: the slot number is not negative and
    below the number of records a page can hold, and a tuple inserted or written is
    allocated and not empty; a final deletion is of a slot that holds a tuple, marked or not
    (a second deletion leaves the page, [apply_delete_twice_escapes]); an insertion finds an
    empty slot, or room for the tuple and a record, or room for neither (a tuple that fits
    only without its record gets slot -1, [small_insert_without_slot], and a record that
    fits only without its tuple stays, [failed_insert_adds_slot]); and the tuple that is
    first on the page is not marked when it is asked for ([marked_first_fails]). Marks,
    roll-backs, reads and updates may name slots that are empty, out of use or of another
    page. *)
Theorem table_page_refines p prev next ops :
  page_ok p → in32 prev → in32 next → ops_pre (page_id_ p) ops [] →
  ∃ p0 p', init prev next p = Ok p0 ∧ run_ops ops p0 = Ok ((spec_ops (page_id_ p) ops []).1, p') ∧
    rep p' (spec_ops (page_id_ p) ops []).2.
Proof.
  intros Hp H1 H2 Hpre. destruct (init_ok prev next p Hp H1 H2) as (p0&Hi&Hr&Hid&_). exists p0. rewrite <- Hid in *.
  assert (∀ sl q, page_id_ q = page_id_ p0 → rep q sl → ops_pre (page_id_ p0) ops sl →
    ∃ p', run_ops ops q = Ok ((spec_ops (page_id_ p0) ops sl).1, p') ∧ rep p' (spec_ops (page_id_ p0) ops sl).2) as Hgo.
  { clear. induction ops as [|op ops IH]; intros sl q Hq Hr Hpre; [by exists q|]. destruct Hpre as [Hop Hpre].
    cbn [run_ops spec_ops]. destruct (exec_op_ok op q sl Hr Hop) as (q'&He&Hr'&Hq'). rewrite He, Hq in *.
    destruct (spec_op (page_id_ p0) op sl) as [r sl']. cbn [fst snd] in *.
    destruct (IH sl' q') as (p'&->&Hr''); [congruence|done|done|]. destruct (spec_ops (page_id_ p0) ops sl') as [rs sl'']. by exists p'. }
  destruct (Hgo [] p0 eq_refl Hr Hpre) as (p'&?&?). by exists p'.
Qed.

(** a tuple of [n] bytes with the value [v] *)
Definition mk_tuple (n v : Z) : Tuple := mkTuple true RID_default n (replicate (Z.to_nat n) v).
Lemma mk_tuple_ok n v : 0 < n < 2147483648 → tuple_ok (mk_tuple n v) (t_data (mk_tuple n v)).
Proof. intros. unfold tuple_ok, mk_tuple. cbn [t_allocated t_size t_data]. rewrite zlen_replicate. split_and!; [done|lia|done|lia|lia]. Qed.

Definition demo_page : Page := mkPage (replicate (Z.to_nat PAGE_SIZE) 0) 7 1 false 0.

Lemma table_page_refines_witness :
  ∃ p0 p', init (-1) (-1) demo_page = Ok p0 ∧
    run_ops [OInsert (mk_tuple 12 1); OInsert (mk_tuple 12 2); OApplyDelete (mkRID 7 0); OGet (mkRID 7 1)] p0 =
      Ok ([PRid (Some (mkRID 7 0)); PRid (Some (mkRID 7 1)); PUnit; PTuple (Some (mkTuple true (mkRID 7 1) 12 (replicate 12 2)))], p') ∧
    rep p' [None; Some (false, replicate 12 2)].
Proof.
  refine (table_page_refines demo_page (-1) (-1)
    [OInsert (mk_tuple 12 1); OInsert (mk_tuple 12 2); OApplyDelete (mkRID 7 0); OGet (mkRID 7 1)] _ _ _ _).
  - vm_compute. reflexivity.
  - split; vm_compute; discriminate.
  - split; vm_compute; discriminate.
  - cbn [ops_pre op_pre]. split_and!.
    + apply mk_tuple_ok. lia.
    + intros _. left. vm_compute. discriminate.
    + apply mk_tuple_ok. lia.
    + intros _. left. vm_compute. discriminate.
    + split; vm_compute; [discriminate|reflexivity].
    + vm_compute. reflexivity.
    + split; vm_compute; [discriminate|reflexivity].
    + exact I.
Defined.

(** The advertised capacity is there: on a page of [k] unmarked tuples of one
    size, [k] below [get_tp_num_capacity], inserting another tuple of that size
    succeeds and puts it in slot [k]. *)
Theorem capacity_available p k v n t :
  rep p (replicate k (Some (false, replicate (Z.to_nat n) v))) → 0 < n < 2147483648 →
  tuple_ok t (t_data t) → t_size t = n → Z.of_nat k < get_tp_num_capacity n →
  ∃ p', insert_tuple t p = Ok (Some (mkRID (page_id_ p) (Z.of_nat k)), p').
Proof.
  set (sl := replicate k (Some (false, replicate (Z.to_nat n) v))). intros Hr Hn Ht Hts Hk.
  assert (zlen (t_data t) = n) as Hz by (destruct Ht as (_&<-&_); done).
  assert (used sl = Z.of_nat k * n) as Hu.
  { unfold sl. clear -Hn. induction k as [|k IH]; [done|]. cbn [replicate]. rewrite used_cons, IH. cbn [slot_bytes].
    rewrite zlen_replicate. lia. }
  assert (first_slot no_tuple sl 0 = None) as Hf.
  { pose proof (first_slot_spec no_tuple sl 0) as H. destruct (first_slot no_tuple sl 0) as [i|]; [|done].
    destruct H as (j&s&_&Hj&Hs). apply lookup_replicate in Hj as [-> _]. done. }
  assert (TUPLE_RECORD_SZ + n ≤ free_of sl) as Hfree.
  { unfold free_of, fsp_of. rewrite Hu. unfold sl. rewrite zlen_replicate. unfold get_tp_num_capacity in Hk.
    assert ((Z.of_nat k + 1) * (n + 8) ≤ LOAD_DATA_SPACE) as Hcap.
    { transitivity (LOAD_DATA_SPACE / (n + OFFSET_T_SIZE + SIZE_T_SIZE) * (n + OFFSET_T_SIZE + SIZE_T_SIZE)).
      - apply Z.mul_le_mono_nonneg; [lia|lia|cfg_lia|cfg_lia].
      - rewrite Z.mul_comm. apply Z.mul_div_le. cfg_lia. }
    tp. nia. }
  destruct (insert_tuple_ok p sl t (t_data t) Hr Ht) as (p'&Hi&_).
  { intros _. left. by rewrite Hz. }
  exists p'. rewrite Hi. unfold spec_insert. rewrite Hf, Hz, (proj2 (Z.leb_le _ _)) by done. cbn [snd option_map].
  unfold sl. by rewrite length_replicate.
Qed.

Lemma demo_init : ∃ p0, init (-1) (-1) demo_page = Ok p0 ∧ rep p0 [].
Proof.
  destruct (init_ok (-1) (-1) demo_page) as (p0&?&?&_); [vm_compute; reflexivity|split; vm_compute; discriminate..|].
  by exists p0.
Qed.

Lemma capacity_available_witness :
  ∃ p0 p', init (-1) (-1) demo_page = Ok p0 ∧ insert_tuple (mk_tuple 12 5) p0 = Ok (Some (mkRID (page_id_ p0) 0), p').
Proof.
  destruct demo_init as (p0&Hi&Hr). exists p0.
  destruct (capacity_available p0 0 5 12 (mk_tuple 12 5)) as (p'&Hp);
    [exact Hr|lia|apply mk_tuple_ok; lia|reflexivity|vm_compute; reflexivity|].
  by exists p'.
Defined.

(** the outcome of formatting the demonstration page and running [ops] on it *)
Definition demo_run (ops : list page_op) : res (list page_result * Page) :=
  let* p := init (-1) (-1) demo_page in run_ops ops p.
Definition demo_results (ops : list page_op) : res (list page_result) :=
  let* (rs, _) := demo_run ops in Ok rs.

(** Deleting a tuple twice leaves the page: [apply_delete] guards against a
    slot that is out of range or empty only when the delete flag is set too, so a
    second call on the same slot compacts an empty record, whose offset 0 makes the
    length it moves negative. *)
Theorem apply_delete_twice_escapes :
  demo_results [OInsert (mk_tuple 12 1); OApplyDelete (mkRID 7 0); OApplyDelete (mkRID 7 0)] = Err OutOfBounds.
Proof. vm_compute. reflexivity. Qed.

(** When fewer than eight bytes are left, inserting a tuple that fits in them
    reports success with the slot number -1: the room for the new record is not
    checked after [get_empty_slot] fails. *)
Theorem small_insert_without_slot :
  demo_results [OInsert (mk_tuple 3940 1); OInsert (mk_tuple 4 2)] = Ok [PRid (Some (mkRID 7 0)); PRid (Some (mkRID 7 (-1)))].
Proof. vm_compute. reflexivity. Qed.

(** An insertion that finds room for the record but not for the tuple fails, and the record
    it has added stays: what was in its bytes is taken for a tuple, counted, and read
    outside the page. *)
Theorem failed_insert_adds_slot :
  let ops := [OInsert (mk_tuple 3944 1); OApplyDelete (mkRID 7 0); OInsert (mk_tuple 3900 2); OInsert (mk_tuple 40 3)] in
  demo_results (ops ++ [OStored]) = Ok [PRid (Some (mkRID 7 0)); PUnit; PRid (Some (mkRID 7 0)); PRid None; PCount 2] ∧
  demo_results (ops ++ [OGet (mkRID 7 1)]) = Err OutOfBounds.
Proof. vm_compute. split; reflexivity. Qed.

(** The first tuple of a page is read with the delete mark in its size. *)
Theorem marked_first_fails :
  is_Ok (demo_results [OInsert (mk_tuple 12 1); OMarkDelete (mkRID 7 0); OFirst]) → False.
Proof. intros [x H]. vm_compute in H. discriminate. Qed.
