(* ===== verification/Schema.v ===== *)
(** Columns, schemas and tuples of values ([src/include/table/column.h],
    [src/include/table/schema.h], [src/table/schema.cpp], [src/table/tuple.cpp] and
    the rest of [src/include/table/tuple.h]): how a schema lays columns out in a
    tuple, and how values are stored in a tuple and read back. *)
From S2P Require Import Prelude Config Page Values TablePage.

(** ** Columns *)

Record Column := mkColumn {
  column_type_ : TypeId;
  column_name_ : bytes;
  offset_ : Z;
  fixed_length_ : Z;
  char_length_ : option Z;      (* [None]: not initialised *)
}.

(** the private [Column::get_type_size]: for [kChar] it reads [char_length_] *)
Definition column_type_size (t : TypeId) (char_length : option Z) : res Z :=
  match t with
  | kInvalid => Ok (-1)
  | kBoolean => Ok BOOLEAN_T_SIZE
  | kInteger => Ok INTEGER_T_SIZE
  | kChar => of_opt UninitRead char_length
  | kDecimal => Ok DECIMAL_T_SIZE
  end.
Definition Column_new (t : TypeId) (name : bytes) (offset : Z) : res Column :=
  fixed ← column_type_size t None; Ok (mkColumn t name offset fixed None).
Definition Column_char (name : bytes) (offset char_length : Z) : Column :=
  mkColumn kChar name offset PTR_SIZE (Some char_length).

Definition get_data_size (c : Column) : res Z :=
  if decide (column_type_ c = kChar) then of_opt UninitRead (char_length_ c) else Ok (fixed_length_ c).

Definition is_columns_equal (c1 c2 : Column) : res bool :=
  if negb (bool_decide (column_type_ c1 = column_type_ c2)) then Ok false
  else if negb (bool_decide (column_name_ c1 = column_name_ c2)) then Ok false
  else if negb (offset_ c1 =? offset_ c2) then Ok false
  else
    s1 ← get_data_size c1; s2 ← get_data_size c2;
    Ok (s1 =? s2).

(** ** Schemas *)

Record Schema := mkSchema { columns_ : list Column; length_ : Z; key_idx_ : Z }.

Fixpoint sum_sizes (cols : list Column) (acc : Z) : res Z :=
  match cols with
  | [] => Ok acc
  | c :: cols => n ← get_data_size c; acc ← add32 acc n; sum_sizes cols acc
  end.
Definition Schema_new (cols : list Column) : res Schema :=
  n ← sum_sizes cols 0; Ok (mkSchema cols n 0).

Definition get_tuple_size_ (s : Schema) : Z := length_ s.
Definition get_column_num (s : Schema) : Z := zlen (columns_ s).
Definition get_column (s : Schema) (index : Z) : res Column :=
  if index <? 0 then Err OutOfBounds else of_opt OutOfBounds (columns_ s !! Z.to_nat index).
Fixpoint column_idx (cols : list Column) (name : bytes) (i : Z) : Z :=
  match cols with
  | [] => -1
  | c :: cols => if decide (column_name_ c = name) then i else column_idx cols name (i + 1)
  end.
Definition get_column_idx (s : Schema) (name : bytes) : Z := column_idx (columns_ s) name 0.
Definition set_key_idx (s : Schema) (k : Z) : Schema := mkSchema (columns_ s) (length_ s) k.

(** the loop of [create_table_schema]; [char_len] is what is left from index [j] on *)
Fixpoint make_columns (types : list TypeId) (names : list bytes) (char_len : list Z) (offset : Z) : res (list Column) :=
  match types, names with
  | [], _ => Ok []
  | _ :: _, [] => Err OutOfBounds
  | t :: types, name :: names =>
      if decide (t = kChar) then
        match char_len with
        | [] => Err OutOfBounds
        | n :: char_len =>
            offset' ← add32 offset n;
            cols ← make_columns types names char_len offset';
            Ok (Column_char name offset n :: cols)
        end
      else
        c ← Column_new t name offset;
        offset' ← add32 offset (get_type_size t);
        cols ← make_columns types names char_len offset';
        Ok (c :: cols)
  end.
(** [None] is the null pointer *)
Definition create_table_schema (types : list TypeId) (names : list bytes) (char_len : list Z) : res (option Schema) :=
  if negb (length types =? length names)%nat then Ok None
  else cols ← make_columns types names char_len 0; s ← Schema_new cols; Ok (Some s).

Fixpoint columns_equal (cs1 cs2 : list Column) : res bool :=
  match cs1, cs2 with
  | [], _ => Ok true
  | _ :: _, [] => Err OutOfBounds
  | c1 :: cs1, c2 :: cs2 =>
      b ← is_columns_equal c1 c2;
      if (b : bool) then columns_equal cs1 cs2 else Ok false
  end.
Definition is_table_schemas_equal (s1 s2 : Schema) : res bool :=
  if negb (length (columns_ s1) =? length (columns_ s2))%nat then Ok false
  else if negb (length_ s1 =? length_ s2) then Ok false
  else columns_equal (columns_ s1) (columns_ s2).

(** ** Tuples of values *)

Definition get_value (t : Tuple) (s : Schema) (idx : Z) : res Value :=
  col ← get_column s idx;
  if decide (column_type_ col = kChar) then
    str_size ← get_data_size col;
    bs ← mem_read (t_data t) (offset_ col) str_size;
    tmp ← mem_write (replicate (Z.to_nat (str_size + 1)) 0) 0 bs;
    tmp ← wr8 tmp str_size 0;
    Value_from tmp 0 kChar str_size
  else Value_from (t_data t) (offset_ col) (column_type_ col) (-1).

(** a new array of [n] bytes that are not initialised: they are what [junk] says *)
Definition fresh_array (junk : bytes) (n : Z) : bytes := take (Z.to_nat n) (junk ++ replicate (Z.to_nat n) 0).

(** [set_value]; [junk] is what the array on the stack holds before it is written *)
Definition set_value (junk : bytes) (s : Schema) (v : Value) (idx : Z) (t : Tuple) : res Tuple :=
  col ← get_column s idx;
  if decide (column_type_ col = kChar) then
    str_size ← get_data_size col;
    tmp ← Value_serialize_to v (fresh_array junk (str_size + 1)) 0;
    bs ← mem_read tmp 0 str_size;
    d ← mem_write (t_data t) (offset_ col) bs;
    Ok (mkTuple (t_allocated t) (t_rid t) (t_size t) d)
  else
    d ← Value_serialize_to v (t_data t) (offset_ col);
    Ok (mkTuple (t_allocated t) (t_rid t) (t_size t) d).

(** the loop of [Tuple::init]: [n] columns from [i] on; [stack i] is what the
    stack holds at the [i]-th call of [set_value] *)
Fixpoint set_values (stack : Z → bytes) (s : Schema) (values : list Value) (i : Z) (n : nat) (t : Tuple) : res Tuple :=
  match n with
  | O => Ok t
  | S n =>
      v ← of_opt OutOfBounds (values !! Z.to_nat i);
      t ← set_value (stack i) s v i t;
      set_values stack s values (i + 1) n t
  end.
(** [heap] is what the new array holds before it is written *)
Definition Tuple_init (heap : bytes) (stack : Z → bytes) (rid : RID) (values : list Value) (s : Schema) : res Tuple :=
  set_values stack s values 0 (length (columns_ s)) (mkTuple true rid (length_ s) (fresh_array heap (length_ s))).

Definition Tuple_eq (a b : Tuple) : bool :=
  bool_decide (t_allocated a = t_allocated b) && (t_size a =? t_size b) &&
  (negb (t_allocated a) || bool_decide (t_data a = t_data b)).
Definition is_equal (a b : Tuple) : bool := Tuple_eq a b && bool_decide (t_rid a = t_rid b).

(** the deep copies: constructor and assignment *)
Definition Tuple_copy (t : Tuple) : res Tuple :=
  if t_allocated t then d ← mem_read (t_data t) 0 (t_size t); Ok (mkTuple true (t_rid t) (t_size t) d)
  else Ok (mkTuple false (t_rid t) (t_size t) []).
Definition reconstruct (heap : bytes) (stack : Z → bytes) (values : list Value) (s : Schema) (t : Tuple) : res Tuple :=
  Tuple_init heap stack (t_rid t) values s.

(** ** The layout of a schema *)

(** the sizes the columns take, if the types are valid and every [kChar] has a length *)
Fixpoint col_sizes (types : list TypeId) (char_len : list Z) : option (list Z) :=
  match types with
  | [] => Some []
  | kInvalid :: _ => None
  | kChar :: types => match char_len with [] => None | n :: char_len => (n ::.) <$> col_sizes types char_len end
  | t :: types => (get_type_size t ::.) <$> col_sizes types char_len
  end.
Fixpoint sumZ (l : list Z) : Z := match l with [] => 0 | x :: l => x + sumZ l end.

Lemma sumZ_nonneg l : Forall (λ x, 0 ≤ x) l → 0 ≤ sumZ l.
Proof. induction 1; cbn; lia. Qed.
Lemma sumZ_take_le l i : Forall (λ x, 0 ≤ x) l → 0 ≤ sumZ (take i l) ≤ sumZ l.
Proof.
  intros H. revert i. induction H as [|x l Hx H IH]; intros [|i]; cbn; try lia.
  - pose proof (sumZ_nonneg l H). lia.
  - specialize (IH i). lia.
Qed.
Lemma sumZ_take_S l i x : l !! i = Some x → sumZ (take (S i) l) = sumZ (take i l) + x.
Proof.
  revert i. induction l as [|y l IH]; intros [|i] H; try done.
  - injection H as ->. cbn [take sumZ]. rewrite take_0. cbn [sumZ]. lia.
  - cbn [take sumZ] in *. rewrite (IH i H). lia.
Qed.

(** column [c] has type [t], name [n], starts at [o] and takes [sz] bytes *)
Definition column_is (t : TypeId) (n : bytes) (o sz : Z) (c : Column) : Prop :=
  column_type_ c = t ∧ column_name_ c = n ∧ offset_ c = o ∧ get_data_size c = Ok sz ∧
  t ≠ kInvalid ∧ (t ≠ kChar → sz = get_type_size t).

Lemma col_sizes_cons t types char_len sizes : col_sizes (t :: types) char_len = Some sizes →
  ∃ sz rest cl, sizes = sz :: rest ∧ col_sizes types cl = Some rest ∧
    ∀ names name o, in32 (o + sz) →
      ∃ c, column_is t name o sz c ∧
        make_columns (t :: types) (name :: names) char_len o =
          (cols ← make_columns types names cl (o + sz); Ok (c :: cols)).
Proof.
  cbn [col_sizes make_columns]. intros H.
  assert (∀ sz rest, t ≠ kChar → t ≠ kInvalid → sz = get_type_size t → sizes = sz :: rest → col_sizes types char_len = Some rest →
    ∃ sz rest cl, sizes = sz :: rest ∧ col_sizes types cl = Some rest ∧
    ∀ names name o, in32 (o + sz) → ∃ c, column_is t name o sz c ∧
      (if decide (t = kChar) then match char_len with
        | [] => Err OutOfBounds
        | n :: char_len => offset' ← add32 o n; cols ← make_columns types names char_len offset'; Ok (Column_char name o n :: cols)
        end
      else c ← Column_new t name o; offset' ← add32 o (get_type_size t);
        cols ← make_columns types names char_len offset'; Ok (c :: cols)) = (cols ← make_columns types names cl (o + sz); Ok (c :: cols))) as Hfix.
  { intros sz rest H1 H2 -> H3 H4. exists (get_type_size t), rest, char_len. split_and!; [done..|]. intros names name o Ho.
    exists (mkColumn t name o (get_type_size t) None). split; [unfold column_is, get_data_size; cbn; rewrite decide_False by done; done|].
    rewrite decide_False by done. rewrite (add32_Ok _ _ Ho). by destruct t. }
  destruct t; try done.
  1,2,3: destruct (col_sizes types char_len) as [rest|] eqn:E; [|done]; injection H as <-; by eapply Hfix.
  destruct char_len as [|n cl]; [done|]. destruct (col_sizes types cl) as [rest|] eqn:E; [|done]. injection H as <-.
  exists n, rest, cl. split_and!; [done..|]. intros names name o Ho. exists (Column_char name o n).
  split; [done|]. by rewrite decide_True, (add32_Ok _ _ Ho) by done.
Qed.

Lemma make_columns_ok types : ∀ names char_len sizes o,
  length types = length names → col_sizes types char_len = Some sizes → Forall (λ x, 0 ≤ x) sizes →
  0 ≤ o → o + sumZ sizes ≤ INT32_MAX →
  ∃ cols, make_columns types names char_len o = Ok cols ∧ length cols = length types ∧ length sizes = length types ∧
    ∀ i c, cols !! i = Some c → ∃ t n sz, types !! i = Some t ∧ names !! i = Some n ∧ sizes !! i = Some sz ∧
      column_is t n (o + sumZ (take i sizes)) sz c.
Proof.
  induction types as [|t types IH]; intros names char_len sizes o Hl Hs Hp Ho Hb.
  { injection Hs as <-. exists []. by split_and!. }
  destruct names as [|name names]; [done|]. injection Hl as Hl.
  apply col_sizes_cons in Hs as (sz&rest&cl&->&Hs&Hm). apply Forall_cons in Hp as [Hsz Hp].
  cbn [sumZ] in Hb. pose proof (sumZ_nonneg _ Hp).
  destruct (Hm names name o) as (c&Hc&->); [cfg_lia|].
  destruct (IH names cl rest (o + sz) Hl Hs Hp) as (cols&->&L1&L2&Hi); [lia..|]. cbn [mbind res_bind].
  exists (c :: cols). split_and!; [done|cbn; lia|cbn; lia|]. intros [|i] c' Hc'.
  - injection Hc' as <-. exists t, name, sz. cbn [take sumZ]. by rewrite Z.add_0_r.
  - destruct (Hi i c' Hc') as (t'&n'&sz'&?&?&?&Hc''). exists t', n', sz'. split_and!; try done.
    cbn [take sumZ]. by replace (o + (sz + sumZ (take i rest))) with (o + sz + sumZ (take i rest)) by lia.
Qed.

Lemma sum_sizes_ok cols : ∀ sizes acc, length cols = length sizes →
  (∀ i c sz, cols !! i = Some c → sizes !! i = Some sz → get_data_size c = Ok sz) →
  Forall (λ x, 0 ≤ x) sizes → 0 ≤ acc → acc + sumZ sizes ≤ INT32_MAX → sum_sizes cols acc = Ok (acc + sumZ sizes).
Proof.
  induction cols as [|c cols IH]; intros [|sz sizes] acc Hl Hc Hp Ha Hb; try done; cbn [sum_sizes sumZ] in *.
  { by rewrite Z.add_0_r. }
  apply Forall_cons in Hp as [Hsz Hp]. pose proof (sumZ_nonneg _ Hp).
  rewrite (Hc 0%nat c sz eq_refl eq_refl). cbn [mbind res_bind]. rewrite add32_Ok by cfg_lia. cbn [mbind res_bind].
  rewrite (IH sizes); [f_equal; lia|by injection Hl|intros i; apply (Hc (S i))|done|lia|lia].
Qed.

(** the representation: column [i] of [s] is what the three lists say, at the sum of
    the sizes before it *)
Definition schema_is (types : list TypeId) (names : list bytes) (sizes : list Z) (s : Schema) : Prop :=
  length (columns_ s) = length types ∧ length sizes = length types ∧ length_ s = sumZ sizes ∧
  Forall (λ x, 0 ≤ x) sizes ∧ sumZ sizes ≤ INT32_MAX ∧
  ∀ i c, columns_ s !! i = Some c → ∃ t n sz, types !! i = Some t ∧ names !! i = Some n ∧ sizes !! i = Some sz ∧
    column_is t n (sumZ (take i sizes)) sz c.

Lemma create_schema_ok types names char_len sizes :
  length types = length names → col_sizes types char_len = Some sizes → Forall (λ x, 0 ≤ x) sizes → sumZ sizes ≤ INT32_MAX →
  ∃ s, create_table_schema types names char_len = Ok (Some s) ∧ schema_is types names sizes s.
Proof.
  intros Hl Hs Hp Hb. unfold create_table_schema. rewrite Hl, Nat.eqb_refl. cbn [negb].
  destruct (make_columns_ok types names char_len sizes 0) as (cols&->&L1&L2&Hi); [done..|lia|done|]. cbn [mbind res_bind].
  unfold Schema_new. rewrite (sum_sizes_ok cols sizes) by
    (first [lia|done|intros i c sz Hc Hsz; destruct (Hi i c Hc) as (?&?&sz'&?&?&?&(_&_&_&?&_)); congruence]).
  cbn [mbind res_bind]. eexists. split; [done|]. unfold schema_is. cbn [columns_ length_]. split_and!; try done.
Qed.

Lemma column_idx_first cols name i n :
  (∃ c, cols !! n = Some c ∧ column_name_ c = name) → (∀ m c, (m < n)%nat → cols !! m = Some c → column_name_ c ≠ name) →
  column_idx cols name i = i + Z.of_nat n.
Proof.
  revert i n. induction cols as [|c cols IH]; intros i n (c'&Hc&Hn) Hm; [done|]. cbn [column_idx].
  destruct n as [|n].
  - injection Hc as ->. rewrite decide_True by done. lia.
  - rewrite decide_False by (apply (Hm 0%nat); [lia|done]). rewrite (IH (i + 1) n); [lia|eauto|].
    intros m d Hlt Hd. apply (Hm (S m)); [lia|done].
Qed.

(** C40: The layout of a schema: from valid types, as many names and a length for
    every [kChar], [create_table_schema] builds the columns in order, each at the
    sum of the sizes before it, so that they fill the tuple from 0 to its size
    without gap or overlap; a column is found by the first position of its name. *)
Theorem schema_layout_correct types names char_len sizes :
  length types = length names → col_sizes types char_len = Some sizes → Forall (λ x, 0 ≤ x) sizes → sumZ sizes ≤ INT32_MAX →
  ∃ s, create_table_schema types names char_len = Ok (Some s) ∧
    get_column_num s = zlen types ∧ get_tuple_size_ s = sumZ sizes ∧
    (∀ i t n sz, types !! i = Some t → names !! i = Some n → sizes !! i = Some sz →
      (∃ c, get_column s (Z.of_nat i) = Ok c ∧ column_type_ c = t ∧ column_name_ c = n ∧
        offset_ c = sumZ (take i sizes) ∧ get_data_size c = Ok sz) ∧
      (n ∉ take i names → get_column_idx s n = Z.of_nat i)).
Proof.
  intros Hl Hs Hp Hb. destruct (create_schema_ok _ _ _ _ Hl Hs Hp Hb) as (s&Hc&(L1&L2&L3&_&_&Hi)). exists s.
  unfold get_column_num, get_tuple_size_, zlen. split_and!; [done|lia|done|]. intros i t n sz Ht Hn Hsz.
  assert (is_Some (columns_ s !! i)) as [c Hci].
  { apply lookup_lt_is_Some_2. rewrite L1. by eapply lookup_lt_Some. }
  destruct (Hi i c Hci) as (t'&n'&sz'&?&?&?&(?&?&?&?&_)). simplify_eq. split.
  - exists c. unfold get_column. rewrite (proj2 (Z.ltb_ge _ _)), Nat2Z.id, Hci by lia. by split_and!.
  - intros Hnin. unfold get_column_idx. rewrite (column_idx_first _ _ _ i); [lia|by exists c|].
    intros m d Hm Hd Heq. destruct (Hi m d Hd) as (?&n'&?&_&Hn'&_&(_&Hd'&_)). apply Hnin.
    apply (list_elem_of_lookup_2 _ m). rewrite lookup_take_lt by done. congruence.
Qed.

(** an integer, eight characters and a decimal, named "a", "b" and "c" *)
Lemma schema_layout_correct_witness :
  ∃ s, create_table_schema [kInteger; kChar; kDecimal] [[97]; [98]; [99]] [8] = Ok (Some s) ∧ get_tuple_size_ s = 20 ∧
    get_column_idx s [99] = 2.
Proof.
  destruct (schema_layout_correct [kInteger; kChar; kDecimal] [[97]; [98]; [99]] [8] [4; 8; 8]) as (s&Hs&_&Hsz&Hi);
    [reflexivity|reflexivity|repeat constructor; lia|vm_compute; discriminate|].
  exists s. split; [exact Hs|]. split; [exact Hsz|].
  destruct (Hi 2%nat kDecimal [99] 8 eq_refl eq_refl eq_refl) as [_ H]. apply H.
  set_solver.
Defined.

(** ** Storing values *)

(** [v] is stored in the bytes [bs] of a column *)
Definition stored (v : Value) (bs : bytes) : Prop :=
  match value_ v with
  | VChar buf => until_nul (bs ++ [0]) = until_nul buf ∧ is_Some (until_nul buf)
  | u => bs = union_bytes u
  end.
(** two values of one type with the same contents: strings up to their NUL *)
Definition same_content (w v : Value) : Prop :=
  type_id_ w = type_id_ v ∧
  match value_ w, value_ v with
  | VChar a, VChar b => ∃ s, c_string a 0 = Ok s ∧ c_string b 0 = Ok s
  | u, u' => u = u'
  end.
(** [v] can be stored in a column of type [t] and size [sz] *)
Definition fits (t : TypeId) (sz : Z) (v : Value) : Prop :=
  type_id_ v = t ∧ value_ok v ∧
  match value_ v with VChar buf => ∃ s, until_nul buf = Some s ∧ zlen s ≤ sz | _ => True end.

Lemma zlen_fresh junk n : 0 ≤ n → zlen (fresh_array junk n) = n.
Proof. intros. unfold fresh_array, zlen. rewrite length_take, length_app, length_replicate. lia. Qed.

Lemma mem_write_prefix m bs : zlen bs ≤ zlen m → mem_write m 0 bs = Ok (bs ++ drop (length bs) m).
Proof.
  intros H. apply mem_write_Ok. split_and!; [lia|lia|]. rewrite Z.add_0_l.
  unfold zlen. by rewrite Nat2Z.id.
Qed.
Lemma mem_read_prefix m n : 0 ≤ n ≤ zlen m → mem_read m 0 n = Ok (take (Z.to_nat n) m).
Proof. intros H. apply mem_read_Ok. split_and!; [lia|lia|lia|done]. Qed.

Lemma get_column_is types names sizes s i t n sz : schema_is types names sizes s →
  types !! i = Some t → names !! i = Some n → sizes !! i = Some sz →
  ∃ c, get_column s (Z.of_nat i) = Ok c ∧ column_is t n (sumZ (take i sizes)) sz c ∧
    0 ≤ sumZ (take i sizes) ∧ 0 ≤ sz ∧ sumZ (take i sizes) + sz ≤ length_ s.
Proof.
  intros (L1&L2&L3&Hp&_&Hi) Ht Hn Hsz.
  assert (is_Some (columns_ s !! i)) as [c Hci].
  { apply lookup_lt_is_Some_2. rewrite L1. by eapply lookup_lt_Some. }
  destruct (Hi i c Hci) as (t'&n'&sz'&?&?&?&Hc). simplify_eq. exists c. unfold get_column.
  rewrite (proj2 (Z.ltb_ge _ _)), Nat2Z.id, Hci by lia. rewrite Forall_lookup in Hp. pose proof (Hp i sz Hsz).
  pose proof (sumZ_take_S _ _ _ Hsz). rewrite <- Forall_lookup in Hp.
  pose proof (sumZ_take_le sizes (S i) Hp). pose proof (sumZ_take_le sizes i Hp). split_and!; try done; lia.
Qed.

Lemma until_nul_pad s k : Forall (λ c, c ≠ 0) s → until_nul (s ++ 0 :: k) = Some s.
Proof. intros H. apply until_nul_Some. eauto. Qed.

(** reading a column in which [v] is stored *)
Lemma get_value_stored t s i c tt n o sz bs v :
  get_column s i = Ok c → column_is tt n o sz c → 0 ≤ sz → mem_read (t_data t) o sz = Ok bs → fits tt sz v → stored v bs →
  ∃ w, get_value t s i = Ok w ∧ same_content w v.
Proof.
  intros Hc (T&_&O&D&Hinv&Hfix) Hsz Hr (Tv&Hok&Hfit) Hst. unfold get_value. rewrite Hc. cbn [mbind res_bind]. rewrite T, O.
  destruct (decide (tt = kChar)) as [->|Hne].
  - rewrite D. cbn [mbind res_bind]. rewrite Hr. cbn [mbind res_bind].
    destruct (char_value v Tv Hok) as (buf&str&Vb&Cs&Un&_). unfold stored in Hst. rewrite Vb, Un in Hst. destruct Hst as [Hbs _].
    pose proof (mem_read_zlen _ _ _ _ Hr) as Hz.
    rewrite mem_write_prefix by (rewrite zlen_replicate; lia). cbn [mbind res_bind]. unfold wr8.
    assert (length bs = Z.to_nat sz) as Hlb by (unfold zlen in Hz; lia).
    rewrite drop_replicate. replace (Z.to_nat (sz + 1) - length bs)%nat with 1%nat by lia. cbn [replicate].
    assert (mem_write (bs ++ [0]) sz [0] = Ok (bs ++ [0])) as ->.
    { apply mem_write_Ok. rewrite zlen_app. split_and!; [lia|unfold zlen; cbn; lia|].
      rewrite take_app_le by lia. rewrite take_ge by lia. rewrite drop_ge by (rewrite length_app; unfold zlen; cbn; lia). done. }
    cbn [mbind res_bind]. unfold Value_from. rewrite decide_True by done.
    unfold mem_set. rewrite (proj2 (Z.leb_le 0 (sz + 1))) by lia.
    rewrite mem_write_prefix by lia. cbn [mbind res_bind]. rewrite drop_ge, app_nil_r by (rewrite length_replicate; lia).
    unfold Value_deserialize_from. cbn [type_id_ value_ str_len_].
    change (get_instance kChar) with (Ok Char). cbn [mbind res_bind Char t_deserialize_from]. rewrite c_string_0, Hbs. cbn [of_opt mbind res_bind].
    pose proof Hbs as (k&Hk&Hnz)%until_nul_Some.
    assert (zlen str ≤ sz) as Hls.
    { apply (f_equal length) in Hk. rewrite !length_app in Hk. cbn in Hk. unfold zlen. lia. }
    rewrite mem_write_prefix by (rewrite zlen_app, zlen_replicate; unfold zlen in *; cbn; lia). cbn [mbind res_bind].
    eexists. split; [done|]. split; [done|]. cbn [value_]. rewrite Vb. exists str. rewrite c_string_0, <- app_assoc.
    cbn [app]. by rewrite until_nul_pad by done.
  - specialize (Hfix Hne). subst sz. unfold Value_from. rewrite decide_False by done. cbn [mbind res_bind].
    unfold Value_deserialize_from. cbn [type_id_ value_ str_len_]. unfold value_ok in Hok. unfold stored in Hst. rewrite Tv in Hok.
    destruct tt; try done; destruct (value_ v) as [|b|z|d|] eqn:Ev; try done; subst bs.
    + change (get_instance kBoolean) with (Ok Boolean). cbn [mbind res_bind Boolean t_deserialize_from].
      unfold rd8. change (get_type_size kBoolean) with 1 in Hr. rewrite Hr. cbn [union_bytes mbind res_bind].
      destruct b; cbn; eexists; (split; [done|]); split; cbn; by rewrite ?Tv, ?Ev.
    + change (get_instance kInteger) with (Ok Integer). cbn [mbind res_bind Integer t_deserialize_from].
      unfold rd32. change (get_type_size kInteger) with 4 in Hr. rewrite Hr. cbn [union_bytes fmap res_fmap].
      rewrite dec_enc32, swrap32_id by done. eexists. split; [done|]. split; cbn; by rewrite ?Tv, ?Ev.
    + change (get_instance kDecimal) with (Ok Decimal). cbn [mbind res_bind Decimal t_deserialize_from].
      change (get_type_size kDecimal) with DECIMAL_T_SIZE in Hr. rewrite Hr. cbn [union_bytes mbind res_bind].
      rewrite dec_enc64 by done. eexists. split; [done|]. split; cbn; by rewrite ?Tv, ?Ev.
Qed.

Lemma union_bytes_len t v : t ≠ kChar → type_id_ v = t → value_ok v → zlen (union_bytes (value_ v)) = get_type_size t.
Proof. unfold value_ok. intros Hn ->. destruct t, (value_ v); done. Qed.

(** serialising a value of a type other than [kChar] writes its bytes *)
Lemma serialize_fixed t v buf o : t ≠ kChar → type_id_ v = t → value_ok v →
  Value_serialize_to v buf o = mem_write buf o (union_bytes (value_ v)).
Proof.
  intros Hn Ht Hok. pose proof (union_bytes_len t v Hn Ht Hok) as Hz. unfold Value_serialize_to. rewrite Ht.
  unfold value_ok in Hok. rewrite Ht in Hok.
  destruct t; try done; destruct (value_ v) as [|b|z|d|] eqn:Ev; try done.
Qed.

Lemma set_value_ok types names sizes s i t n sz junk v tu : schema_is types names sizes s →
  types !! i = Some t → names !! i = Some n → sizes !! i = Some sz → fits t sz v → zlen (t_data tu) = length_ s →
  ∃ d bs, set_value junk s v (Z.of_nat i) tu = Ok (mkTuple (t_allocated tu) (t_rid tu) (t_size tu) d) ∧ zlen d = length_ s ∧
    mem_read d (sumZ (take i sizes)) sz = Ok bs ∧ stored v bs ∧
    ∀ o l, o + l ≤ sumZ (take i sizes) ∨ sumZ (take i sizes) + sz ≤ o → mem_read d o l = mem_read (t_data tu) o l.
Proof.
  intros Hs Ht Hn Hsz (Tv&Hok&Hfit) Hlen.
  destruct (get_column_is _ _ _ _ _ _ _ _ Hs Ht Hn Hsz) as (c&Hc&(T&_&O&D&Hinv&Hfix)&Ho&Hz&Hb).
  unfold set_value. rewrite Hc. cbn [mbind res_bind]. rewrite T, O. destruct (decide (t = kChar)) as [->|Hne].
  - rewrite D. cbn [mbind res_bind]. destruct (char_value v Tv Hok) as (buf&str&Vb&Cs&Un&_). rewrite Vb in Hfit.
    destruct Hfit as (str'&Hu&Hls). rewrite Un in Hu. injection Hu as <-.
    assert (zlen (fresh_array junk (sz + 1)) = sz + 1) as Hf by (apply zlen_fresh; lia).
    unfold Value_serialize_to. rewrite Tv. change (get_instance kChar) with (Ok Char).
    cbn [mbind res_bind Char t_serialize_to]. rewrite Vb, Cs. cbn [mbind res_bind].
    rewrite mem_write_prefix by (rewrite zlen_app; unfold zlen in *; cbn; lia). cbn [mbind res_bind].
    rewrite mem_read_prefix by (unfold zlen in *; rewrite !length_app, length_drop, ?length_app; cbn; lia).
    cbn [mbind res_bind]. set (bs := take (Z.to_nat sz) ((str ++ [0]) ++ drop (length (str ++ [0])) (fresh_array junk (sz + 1)))).
    assert (zlen bs = sz) as Hbz.
    { subst bs. unfold zlen in *. rewrite length_take, !length_app, length_drop, ?length_app. cbn. lia. }
    destruct (mem_write_ex (t_data tu) (sumZ (take i sizes)) bs) as (d&->&Hd&Hr&Hfr); [lia..|].
    exists d, bs. rewrite Hbz in *. split_and!; [done|lia|done| |done].
    unfold stored. rewrite Vb, Un. split; [|done].
    pose proof Un as (_&_&Hnz)%until_nul_Some. subst bs. rewrite <- app_assoc. cbn [app].
    destruct (decide (zlen str = sz)) as [E|E].
    + rewrite take_app_le by (unfold zlen in *; lia). rewrite take_ge by (unfold zlen in *; lia). by apply until_nul_pad.
    + rewrite take_app_ge by (unfold zlen in *; lia).
      destruct (Z.to_nat sz - length str)%nat as [|m] eqn:Em; [unfold zlen in *; lia|]. cbn [take app].
      rewrite <- app_assoc. cbn [app]. by apply until_nul_pad.
  - specialize (Hfix Hne). rewrite (serialize_fixed t) by done. pose proof (union_bytes_len t v Hne Tv Hok) as Hu.
    destruct (mem_write_ex (t_data tu) (sumZ (take i sizes)) (union_bytes (value_ v))) as (d&->&Hd&Hr&Hfr); [lia..|].
    exists d, (union_bytes (value_ v)). rewrite Hu, <- Hfix in *. split_and!; [done|lia|done| |done].
    unfold stored. destruct (value_ v) eqn:Ev; try done. unfold value_ok in Hok. rewrite Tv, Ev in Hok. by destruct t.
Qed.

(** the tuple [tu] holds the first [n] of [values] *)
Definition holds_upto (types : list TypeId) (sizes : list Z) (s : Schema) (values : list Value) (n : nat) (tu : Tuple) : Prop :=
  t_allocated tu = true ∧ t_size tu = length_ s ∧ zlen (t_data tu) = length_ s ∧
  ∀ i v sz, (i < n)%nat → values !! i = Some v → sizes !! i = Some sz →
    ∃ bs, mem_read (t_data tu) (sumZ (take i sizes)) sz = Ok bs ∧ stored v bs.

Section tuple.
Context (types : list TypeId) (names : list bytes) (sizes : list Z) (s : Schema).
Context (Hs : schema_is types names sizes s) (Hnames : length names = length types).

Lemma column_at i v (values : list Value) : length values = length types → values !! i = Some v →
  ∃ t n sz, types !! i = Some t ∧ names !! i = Some n ∧ sizes !! i = Some sz.
Proof.
  intros Hl Hv%lookup_lt_Some. destruct Hs as (_&L2&_).
  destruct (lookup_lt_is_Some_2 types i) as [t ?]; [lia|]. destruct (lookup_lt_is_Some_2 names i) as [n ?]; [lia|].
  destruct (lookup_lt_is_Some_2 sizes i) as [sz ?]; [lia|]. eauto 10.
Qed.

Lemma ranges_apart i j szi szj : sizes !! i = Some szi → sizes !! j = Some szj → i ≠ j →
  sumZ (take i sizes) + szi ≤ sumZ (take j sizes) ∨ sumZ (take j sizes) + szj ≤ sumZ (take i sizes).
Proof.
  intros Hi Hj Hne. destruct Hs as (_&_&_&Hp&_). rewrite <- (sumZ_take_S _ _ _ Hi), <- (sumZ_take_S _ _ _ Hj).
  assert (∀ a b, (a ≤ b)%nat → sumZ (take a sizes) ≤ sumZ (take b sizes)) as Hmono.
  { intros a b Hab. rewrite <- (Nat.min_l a b Hab), <- take_take at 1. apply sumZ_take_le. by apply Forall_take. }
  destruct (decide (i < j)%nat); [left|right]; apply Hmono; lia.
Qed.

(** [set_value] at [k]: the other columns keep what they hold *)
Lemma set_value_holds values n k v junk tu : length values = length types →
  holds_upto types sizes s values n tu → (k < length types)%nat →
  (∀ t sz, types !! k = Some t → sizes !! k = Some sz → fits t sz v) →
  ∃ tu', set_value junk s v (Z.of_nat k) tu = Ok tu' ∧ t_rid tu' = t_rid tu ∧
    holds_upto types sizes s (<[k:=v]> values) (if decide (k = n) then S n else n) tu'.
Proof.
  intros Hl (A&B&C&Hi) Hk Hf. destruct (lookup_lt_is_Some_2 values k) as [v0 Hv0]; [lia|].
  destruct (column_at k v0 values Hl Hv0) as (t&nm&sz&Ht&Hn&Hsz).
  destruct (set_value_ok _ _ _ _ _ _ _ _ junk v tu Hs Ht Hn Hsz (Hf _ _ Ht Hsz) C) as (d&bs&->&Hd&Hr&Hst&Hfr).
  eexists. split; [done|]. split; [done|]. unfold holds_upto. cbn [t_allocated t_size t_data]. split_and!; [done..|].
  intros i w szi Hin Hw Hszi. destruct (decide (i = k)) as [->|Hne].
  - rewrite list_lookup_insert_eq in Hw by lia. simplify_eq. eauto.
  - rewrite list_lookup_insert_ne in Hw by done. destruct (Hi i w szi) as (bs'&Hr'&?); [|done|done|].
    { destruct (decide (k = n)); lia. }
    exists bs'. split; [|done]. rewrite <- Hr'. apply Hfr. destruct (ranges_apart i k szi sz Hszi Hsz Hne); lia.
Qed.

Lemma set_values_holds stack values m : ∀ n tu, length values = length types →
  (∀ i t sz v, types !! i = Some t → sizes !! i = Some sz → values !! i = Some v → fits t sz v) →
  (n + m = length types)%nat → holds_upto types sizes s values n tu →
  ∃ tu', set_values stack s values (Z.of_nat n) m tu = Ok tu' ∧ t_rid tu' = t_rid tu ∧
    holds_upto types sizes s values (length types) tu'.
Proof.
  induction m as [|m IH]; intros n tu Hl Hf Hnm Hh; cbn [set_values].
  { exists tu. replace n with (length types) in Hh by lia. by split_and!. }
  destruct (lookup_lt_is_Some_2 values n) as [v Hv]; [lia|]. rewrite Nat2Z.id, Hv. cbn [of_opt mbind res_bind].
  destruct (set_value_holds values n n v (stack (Z.of_nat n)) tu Hl Hh) as (tu1&->&Hrid&Hh1); [lia|eauto|]. cbn [mbind res_bind].
  rewrite decide_True in Hh1 by done. rewrite list_insert_id in Hh1 by done.
  replace (Z.of_nat n + 1) with (Z.of_nat (S n)) by lia.
  destruct (IH (S n) tu1 Hl Hf) as (tu'&->&?&?); [lia|done|]. exists tu'. split_and!; [done|congruence|done].
Qed.

Lemma get_value_holds values tu i v : length values = length types → holds_upto types sizes s values (length types) tu →
  (∀ i t sz v, types !! i = Some t → sizes !! i = Some sz → values !! i = Some v → fits t sz v) →
  values !! i = Some v → ∃ w, get_value tu s (Z.of_nat i) = Ok w ∧ same_content w v.
Proof.
  intros Hl (_&_&_&Hi) Hf Hv. destruct (column_at i v values Hl Hv) as (t&n&sz&Ht&Hn&Hsz).
  destruct (get_column_is _ _ _ _ _ _ _ _ Hs Ht Hn Hsz) as (c&Hc&Hcol&?&?&?).
  destruct (Hi i v sz) as (bs&Hr&Hst); [apply lookup_lt_Some in Hv; lia|done|done|].
  eapply get_value_stored; eauto.
Qed.
End tuple.

(** every value can be stored in its column *)
Definition values_fit (types : list TypeId) (sizes : list Z) (values : list Value) : Prop :=
  length values = length types ∧
  ∀ i t sz v, types !! i = Some t → sizes !! i = Some sz → values !! i = Some v → fits t sz v.

Lemma values_fit_insert types sizes values k v : values_fit types sizes values →
  (∀ t sz, types !! k = Some t → sizes !! k = Some sz → fits t sz v) → values_fit types sizes (<[k:=v]> values).
Proof.
  intros [Hl Hf] Hv. split; [by rewrite length_insert|]. intros i t sz w Ht Hsz Hw.
  destruct (decide (i = k)) as [->|Hne].
  - apply list_lookup_insert_Some in Hw as [(_&->&_)|[? _]]; [eauto|done].
  - rewrite list_lookup_insert_ne in Hw by done. eauto.
Qed.

(** building a tuple from values that fit *)
Lemma Tuple_init_ok types names sizes s heap stack rid values :
  schema_is types names sizes s → length names = length types → values_fit types sizes values →
  ∃ tu, Tuple_init heap stack rid values s = Ok tu ∧ t_rid tu = rid ∧ holds_upto types sizes s values (length types) tu ∧
    ∀ i v, values !! i = Some v → ∃ w, get_value tu s (Z.of_nat i) = Ok w ∧ same_content w v.
Proof.
  intros Hs Hl [Hlv Hf]. assert (0 ≤ length_ s) by (destruct Hs as (_&_&->&?&_); by apply sumZ_nonneg).
  destruct (set_values_holds _ _ _ _ Hs Hl stack values (length types) 0
    (mkTuple true rid (length_ s) (fresh_array heap (length_ s)))) as (tu&Hi&Hrid&Hh); [done|done|done| |].
  { split_and!; [done|done|by apply zlen_fresh|lia]. }
  exists tu. unfold Tuple_init. replace (length (columns_ s)) with (length types) by (by destruct Hs as [-> _]).
  split_and!; [done..|]. intros i v Hv. by eapply get_value_holds.
Qed.

(** C26: Tuples keep their values: for values that fit the columns of a schema (a
    string may be as long as its column, without room for a NUL), building the
    tuple succeeds, it has the size of the schema, and every column reads back as
    the value stored; replacing one value afterwards changes that column alone.
    What the new arrays hold before they are written does not matter. *)
Theorem tuple_roundtrip types names char_len sizes heap stack rid values :
  length types = length names → col_sizes types char_len = Some sizes → Forall (λ x, 0 ≤ x) sizes → sumZ sizes ≤ INT32_MAX →
  values_fit types sizes values →
  ∃ s tu, create_table_schema types names char_len = Ok (Some s) ∧ Tuple_init heap stack rid values s = Ok tu ∧
    t_size tu = get_tuple_size_ s ∧ zlen (t_data tu) = t_size tu ∧ t_rid tu = rid ∧
    (∀ i v, values !! i = Some v → ∃ w, get_value tu s (Z.of_nat i) = Ok w ∧ same_content w v) ∧
    (∀ junk k v, (k < length types)%nat → (∀ t sz, types !! k = Some t → sizes !! k = Some sz → fits t sz v) →
      ∃ tu', set_value junk s v (Z.of_nat k) tu = Ok tu' ∧
        ∀ i u, <[k:=v]> values !! i = Some u → ∃ w, get_value tu' s (Z.of_nat i) = Ok w ∧ same_content w u).
Proof.
  intros Hl Hcs Hp Hb [Hlv Hf]. destruct (create_schema_ok _ _ _ _ Hl Hcs Hp Hb) as (s&Hc&Hs). exists s.
  symmetry in Hl. destruct (Tuple_init_ok _ _ _ _ heap stack rid values Hs Hl) as (tu&Hi&Hrid&Hh&Hg); [by split|].
  exists tu. pose proof Hh as (_&Hsz&Hz&_). split_and!; [done|done|done|lia|done|done|].
  intros junk k v Hk Hv. destruct (set_value_holds _ _ _ _ Hs Hl values (length types) k v junk tu) as (tu'&Hset&_&Hh'); [done..|].
  rewrite decide_False in Hh' by lia. exists tu'. split; [done|]. intros i u Hu.
  destruct (values_fit_insert types sizes values k v) as [Hl' Hf']; [by split|done|]. by eapply get_value_holds.
Qed.

(** the row (7, "abc", true): the string fills its column *)
Lemma tuple_roundtrip_witness :
  ∃ s tu, create_table_schema [kInteger; kChar; kBoolean] [[97]; [98]; [99]] [3] = Ok (Some s) ∧
    Tuple_init [] (λ _, []) RID_default [Value_int 7; Value_string [97; 98; 99]; Value_bool true] s = Ok tu ∧
    ∃ w, get_value tu s 1 = Ok w ∧ same_content w (Value_string [97; 98; 99]).
Proof.
  destruct (tuple_roundtrip [kInteger; kChar; kBoolean] [[97]; [98]; [99]] [3] [4; 3; 1] [] (λ _, []) RID_default
    [Value_int 7; Value_string [97; 98; 99]; Value_bool true]) as (s&tu&Hs&Ht&_&_&_&Hg&_);
    [reflexivity|reflexivity|repeat constructor; lia|vm_compute; discriminate| |].
  - split; [reflexivity|]. intros [|[|[|i]]] t sz v [= <-] [= <-] [= <-].
    + split; [reflexivity|]. split; [split; vm_compute; discriminate|exact I].
    + split; [reflexivity|]. split; [split; [eexists; reflexivity|reflexivity]|]. eexists. split; [reflexivity|vm_compute; discriminate].
    + split; [reflexivity|]. split; exact I.
  - exists s, tu. split; [exact Hs|]. split; [exact Ht|]. exact (Hg 1%nat _ eq_refl).
Defined.
