(* ===== verification/Expressions.v ===== *)
(** Expressions ([src/include/sql/expressions/*.h]) evaluated on tuples: columns,
    constants, comparisons and aggregates. An aggregate keeps its value from tuple
    to tuple, so evaluation returns the expression as it is afterwards. *)
From S2P Require Import Prelude Config Values TablePage Schema.

Inductive ComparisonType := kEqual | kNotEqual | kLessThan | kLessThanOrEqual | kGreaterThan | kGreaterThanOrEqual.
Inductive AggregationType := kCountAggregate | kSumAggregate | kMinAggregate | kMaxAggregate.

Inductive Expression :=
  | ColumnValueExpression (col_idx_ : Z)
  | ConstantExpression (val_ : Value)
  | ComparisonExpression (children_ : list Expression) (cmp_type_ : ComparisonType)
  | AggregateExpression (type_ : AggregationType) (agg_idx_ : Z) (val_ : Value).

(** the constructor of an aggregate: its value is an integer at first *)
Definition AggregateExpression_new (type_ : AggregationType) (agg_idx_ : Z) : Expression :=
  AggregateExpression type_ agg_idx_
    (match type_ with
     | kCountAggregate | kSumAggregate => Value_int 0
     | kMinAggregate => Value_int INT32_MAX
     | kMaxAggregate => Value_int INT32_MIN
     end).

Definition perform_cmp (cmp_type_ : ComparisonType) (lhs rhs : Value) : res CmpResult :=
  T ← get_instance (type_id_ lhs);
  match cmp_type_ with
  | kEqual => cmp_eq T lhs rhs
  | kNotEqual => cmp_not_eq T lhs rhs
  | kLessThan => cmp_less T lhs rhs
  | kLessThanOrEqual => cmp_less_and_eq T lhs rhs
  | kGreaterThan => cmp_greater T lhs rhs
  | kGreaterThanOrEqual => cmp_greater_and_eq T lhs rhs
  end.

(** the new value of an aggregate *)
Definition perform_aggregation (type_ : AggregationType) (agg_idx_ : Z) (tuple : Tuple) (schema : Schema) (val_ : Value) : res Value :=
  match type_ with
  | kCountAggregate => Value_incr val_
  | kSumAggregate =>
      v ← get_value tuple schema agg_idx_;
      T ← get_instance (type_id_ val_);
      r ← add T val_ v;
      Value_assign val_ r
  | kMinAggregate =>
      v ← get_value tuple schema agg_idx_;
      T ← get_instance (type_id_ val_);
      c ← cmp_less T v val_;
      if decide (c = kTrue) then Value_assign val_ v else Ok val_
  | kMaxAggregate =>
      v ← get_value tuple schema agg_idx_;
      T ← get_instance (type_id_ val_);
      c ← cmp_greater T v val_;
      if decide (c = kTrue) then Value_assign val_ v else Ok val_
  end.

Fixpoint evaluate (e : Expression) (tuple : Tuple) (schema : Schema) : res (Value * Expression) :=
  match e with
  | ColumnValueExpression col_idx_ => v ← get_value tuple schema col_idx_; Ok (v, e)
  | ConstantExpression val_ => v ← Value_copy val_; Ok (v, e)
  | ComparisonExpression (e0 :: e1 :: rest) cmp_type_ =>
      let* (lhs, e0) := evaluate e0 tuple schema in
      let* (rhs, e1) := evaluate e1 tuple schema in
      c ← perform_cmp cmp_type_ lhs rhs;
      Ok (Value_cmp c, ComparisonExpression (e0 :: e1 :: rest) cmp_type_)
  | ComparisonExpression _ _ => Err OutOfBounds
  | AggregateExpression type_ agg_idx_ val_ =>
      val_ ← perform_aggregation type_ agg_idx_ tuple schema val_;
      v ← Value_copy val_;
      Ok (v, AggregateExpression type_ agg_idx_ val_)
  end.

(** ** Expressions without aggregates *)

Fixpoint pure (e : Expression) : bool :=
  match e with
  | ColumnValueExpression _ | ConstantExpression _ => true
  | ComparisonExpression (e0 :: e1 :: _) _ => pure e0 && pure e1
  | ComparisonExpression _ _ => true
  | AggregateExpression _ _ _ => false
  end.

(** their evaluation does not change them *)
Lemma pure_evaluate e t s : ∀ v e', pure e = true → evaluate e t s = Ok (v, e') → e' = e.
Proof.
  revert e. fix IH 1. intros [i|c|[|e0 [|e1 rest]] ct|ty i c] v e' Hp He; cbn [pure evaluate] in *; try done.
  - destruct (get_value t s i); by simplify_eq/=.
  - destruct (Value_copy c); by simplify_eq/=.
  - apply andb_true_iff in Hp as [H0 H1].
    destruct (evaluate e0 t s) as [[v0 e0']|] eqn:E0; [|done]. cbn [mbind res_bind] in He.
    destruct (evaluate e1 t s) as [[v1 e1']|] eqn:E1; [|done]. cbn [mbind res_bind] in He.
    destruct (perform_cmp ct v0 v1); simplify_eq/=. by rewrite (IH e0 _ _ H0 E0), (IH e1 _ _ H1 E1).
Qed.

(** evaluation reads the bytes of the tuple only *)
Lemma get_value_same t t' s i : t_data t = t_data t' → get_value t s i = get_value t' s i.
Proof. intros E. unfold get_value. by rewrite E. Qed.
Lemma evaluate_data e t t' s : t_data t = t_data t' → evaluate e t s = evaluate e t' s.
Proof.
  intros E. revert e. fix IH 1. intros [i|c|[|e0 [|e1 rest]] ct|ty i c]; cbn [evaluate]; try done.
  - by rewrite (get_value_same t t').
  - by rewrite (IH e0), (IH e1).
  - destruct ty; cbn [perform_aggregation]; by rewrite ?(get_value_same t t' s i E).
Qed.
