(* ===== verification/LinkHash.v ===== *)
(** The link hash index ([src/index/link_hash.cpp],
    [src/include/storage/page/link_hash_page.h],
    [src/include/table/tb_common_op.h]): a directory of two levels of pages of page
    ids, below it lists of table pages, all of them pages of the buffer pool. A
    [Page*] is a frame of the pool. Page latches are not modelled: one call runs to
    its end. The hash function [do_hash] is a parameter. *)
From S2P Require Import Prelude Config Replacer Page FileSys DiskManager BufferPool Values TablePage Schema PoolClient.

(** ** [LinkHashPage] *)

Definition FIRST_SLOT_NUM_OFFSET : Z := COM_PG_HEADER_SZ.
Definition SLOT_SIZE : Z := PGID_T_SIZE.

Fixpoint init_slots (d : bytes) (i : Z) (n : nat) : res bytes :=
  match n with
  | O => Ok d
  | S n => d ← wr32 d (FIRST_SLOT_NUM_OFFSET + i * SLOT_SIZE) INVALID_PAGE_ID; init_slots d (i + 1) n
  end.
Definition LinkHashPage_init (d : bytes) : res bytes := init_slots d 0 (Z.to_nat LK_HA_PG_SLOT_NUM).
Definition get_pgid_in_slot (slot_num : Z) (d : bytes) : res Z :=
  if (slot_num <? 0) || (slot_num >=? LK_HA_PG_SLOT_NUM) then Ok INVALID_PAGE_ID
  else rd32 d (FIRST_SLOT_NUM_OFFSET + slot_num * SLOT_SIZE).
Definition set_pgid_in_slot (slot_num page_id : Z) (d : bytes) : res bytes :=
  if (slot_num <? 0) || (slot_num >=? LK_HA_PG_SLOT_NUM) then Ok d
  else wr32 d (FIRST_SLOT_NUM_OFFSET + slot_num * SLOT_SIZE) page_id.
(** the declaration in the loop assigns [page_id] to the slot before it has a value *)
Definition get_next_pgid_in_slot (start_slot : Z) (d : bytes) : res Z :=
  let slot_num := if start_slot =? INVALID_PAGE_ID then start_slot + 1 else 0 in
  if slot_num <? LK_HA_PG_SLOT_NUM then Err UninitRead else Ok INVALID_PAGE_ID.

(** the slot in the first level and the slot in the second *)
Definition hash_to_slot (hash_val : Z) : Z * Z :=
  let slot_num := hash_val mod Lk_HA_TOTAL_SLOT_NUM in
  (Z.quot slot_num LK_HA_PG_SLOT_NUM, Z.rem slot_num LK_HA_PG_SLOT_NUM).

Section LinkHash.
Context {R : Type} `{RA : ReplacerAbstract R}.
Context (do_hash : bytes → Z) (tb_schema : Schema).
Notation BPM := (BufferPoolManager R).
Implicit Types (b : BPM).

Definition page_ptr (q : Z) b : res (Z * BPM) :=
  let* (f, b) := get_page q b in f ← deref f; Ok (f, b).
Definition page_id_at (f : Z) b : res Z := reads f (λ p, Ok (page_id_ p)) b.

(** ** Looking a key up *)

(** the [do ... while] over the tuples of a page: the record id of the first tuple
    whose key equals [key_value]; [cmp_tuple] and [rid] are the loop's variables *)
Fixpoint scan_page (fuel : nat) (key_value : Value) (cmp_tuple : Tuple) (rid : RID) (p : Page) : res (option RID) :=
  match fuel with
  | O => Err OutOfFuel
  | S fuel =>
      t ← get_tuple rid p;
      let cmp_tuple := default cmp_tuple t in
      v ← get_value cmp_tuple tb_schema (key_idx_ tb_schema);
      e ← Value_eq key_value v;
      if (e : bool) then Ok (Some rid)
      else
        let* (more, rid) := get_next_tuple_rid (t_rid cmp_tuple) rid p in
        if (more : bool) then scan_page fuel key_value cmp_tuple rid p else Ok None
  end.
(** a page has fewer records than this *)
Definition scan_fuel : nat := Z.to_nat (PAGE_SIZE / TUPLE_RECORD_SZ).

(** the loop over the pages of a list *)
Fixpoint scan_list (fuel : nat) (key_value : Value) (third_level_page_id : Z) b : res (option RID * BPM) :=
  if third_level_page_id =? INVALID_PAGE_ID then Ok (None, b)
  else
    match fuel with
    | O => Err OutOfFuel
    | S fuel =>
        let* (f, b) := page_ptr third_level_page_id b in
        first ← reads f get_the_first_tuple b;
        match first with
        | None => b ← unpin_page third_level_page_id false b; Ok (None, b)
        | Some cmp_tuple =>
            r ← reads f (scan_page scan_fuel key_value cmp_tuple (t_rid cmp_tuple)) b;
            match r with
            | Some rid => b ← unpin_page third_level_page_id false b; Ok (Some rid, b)
            | None =>
                next ← reads f (λ p, get_next_page_id (data_ p)) b;
                id ← page_id_at f b;
                b ← unpin_page id false b;
                scan_list fuel key_value next b
            end
        end
    end.
(** a list without a cycle has at most as many pages as there are *)
Definition list_fuel b : nat := S (length (alloced b)).

(** [Some rid] is the result true with [*dup_rid = rid] *)
Definition lk_ha_check_duplicate_key (first_page_id : Z) (key_value : Value) b : res (option RID * BPM) :=
  hash_val ← get_hash_value do_hash key_value;
  let '(sec_pg_slot_num, tb_pg_slot_num) := hash_to_slot hash_val in
  let* (f1, b) := page_ptr first_page_id b in
  second_level_page_id ← reads f1 (λ p, get_pgid_in_slot sec_pg_slot_num (data_ p)) b;
  b ← unpin_page first_page_id false b;
  if second_level_page_id =? INVALID_PAGE_ID then Ok (None, b)
  else
    let* (f2, b) := page_ptr second_level_page_id b in
    third_level_page_id ← reads f2 (λ p, get_pgid_in_slot tb_pg_slot_num (data_ p)) b;
    b ← unpin_page second_level_page_id false b;
    scan_list (list_fuel b) key_value third_level_page_id b.

(** the result and the value left in [*tuple] *)
Definition lk_ha_get_tuple (first_page_id : Z) (key_value : Value) (tuple : Tuple) b : res (Z * Tuple * BPM) :=
  let* (r, b) := lk_ha_check_duplicate_key first_page_id key_value b in
  match r with
  | None => Ok (TUPLE_NOT_FOUND, tuple, b)
  | Some rid =>
      let* (f, b) := page_ptr (rid_page_id rid) b in
      t ← reads f (get_tuple rid) b;
      b ← unpin_page (rid_page_id rid) false b;
      match t with
      | Some tuple => Ok (OP_SUCCESS, tuple, b)
      | None => Ok (TUPLE_NOT_FOUND, tuple, b)
      end
  end.

(** ** Insertion *)

(** the loop that finds or makes a page with room: the page in the frame
    [third_level_page] whose id is [third_level_page_id]; the result is the new record
    id. [new_page] never returns null, so the branch of NEW_PG_FAIL is never taken. *)
Fixpoint insert_loop (fuel : nat) (tuple : Tuple) (third_level_page third_level_page_id : Z) b : res (RID * BPM) :=
  match fuel with
  | O => Err OutOfFuel
  | S fuel =>
      let* (r, b) := changes third_level_page (insert_tuple tuple) b in
      match r with
      | Some rid => b ← unpin_page third_level_page_id true b; Ok (rid, b)
      | None =>
          next ← reads third_level_page (λ p, get_next_page_id (data_ p)) b;
          if next =? INVALID_PAGE_ID then
            let* (new_page, b) := new_page b in
            new_id ← page_id_at new_page b;
            b ← changes_data third_level_page (λ d, set_next_page_id d new_id) b;
            old_id ← page_id_at third_level_page b;
            b ← changes_data new_page (λ d, set_prev_page_id d old_id) b;
            b ← unpin_page old_id true b;
            insert_loop fuel tuple new_page new_id b
          else
            let* (next_page, b) := page_ptr next b in
            old_id ← page_id_at third_level_page b;
            b ← unpin_page old_id false b;
            insert_loop fuel tuple next_page next b
      end
  end.

(** the result, and the tuple with its record id *)
Definition lk_ha_insert_tuple (first_page_id : Z) (tuple : Tuple) b : res (Z * Tuple * BPM) :=
  key_value ← get_value tuple tb_schema (key_idx_ tb_schema);
  let* (dup, b) := lk_ha_check_duplicate_key first_page_id key_value b in
  match dup with
  | Some _ => Ok (DUP_KEY, tuple, b)
  | None =>
      hash_val ← get_hash_value do_hash key_value;
      let '(sec_pg_slot_num, tb_pg_slot_num) := hash_to_slot hash_val in
      let* (f1, b) := page_ptr first_page_id b in
      second_level_page_id ← reads f1 (λ p, get_pgid_in_slot sec_pg_slot_num (data_ p)) b;
      let* (f2, second_level_page_id, first_level_pg_dirty, b) :=
        if second_level_page_id =? INVALID_PAGE_ID then
          let* (f2, b) := new_page b in
          id ← page_id_at f2 b;
          b ← changes_data f2 LinkHashPage_init b;
          b ← changes_data f1 (set_pgid_in_slot sec_pg_slot_num id) b;
          Ok (f2, id, true, b)
        else
          let* (f2, b) := page_ptr second_level_page_id b in
          Ok (f2, second_level_page_id, false, b) in
      b ← unpin_page first_page_id first_level_pg_dirty b;
      third_level_page_id ← reads f2 (λ p, get_pgid_in_slot tb_pg_slot_num (data_ p)) b;
      let* (f3, third_level_page_id, second_level_pg_dirty, b) :=
        if third_level_page_id =? INVALID_PAGE_ID then
          let* (f3, b) := new_page b in
          id ← page_id_at f3 b;
          b ← changes_ f3 (init INVALID_PAGE_ID INVALID_PAGE_ID) b;
          b ← changes_data f2 (set_pgid_in_slot tb_pg_slot_num id) b;
          Ok (f3, id, true, b)
        else
          let* (f3, b) := page_ptr third_level_page_id b in
          Ok (f3, third_level_page_id, false, b) in
      b ← unpin_page second_level_page_id second_level_pg_dirty b;
      let* (rid, b) := insert_loop (S (list_fuel b)) tuple f3 third_level_page_id b in
      Ok (OP_SUCCESS, set_rid tuple rid, b)
  end.

(** ** Update *)

Definition get_tuple_directly (rid : RID) (tuple : Tuple) b : res (Z * Tuple * BPM) :=
  let* (f, b) := get_page (rid_page_id rid) b in
  match f with
  | None => Ok (TUPLE_NOT_FOUND, tuple, b)
  | Some f =>
      t ← reads f (get_tuple rid) b;
      b ← unpin_page (rid_page_id rid) false b;
      match t with
      | Some tuple => Ok (OP_SUCCESS, tuple, b)
      | None => Ok (TUPLE_NOT_FOUND, tuple, b)
      end
  end.

(** the result and the tuple with its record id *)
Definition lk_ha_update_tuple (first_page_id : Z) (new_tuple : Tuple) (old_rid : RID) b : res (Z * Tuple * BPM) :=
  key_val ← get_value new_tuple tb_schema (key_idx_ tb_schema);
  let* (c, old_tuple, b) := get_tuple_directly old_rid Tuple_default b in
  if negb (c =? OP_SUCCESS) then Ok (TUPLE_NOT_FOUND, new_tuple, b)
  else
    let* (f, b) := page_ptr (rid_page_id old_rid) b in
    old_key ← get_value old_tuple tb_schema (key_idx_ tb_schema);
    e ← Value_eq key_val old_key;
    if (e : bool) then
      let* (_, b) := changes f (update_tuple new_tuple old_rid) b in
      b ← unpin_page (rid_page_id old_rid) true b;
      Ok (OP_SUCCESS, set_rid new_tuple old_rid, b)
    else
      let* (op_code, new_tuple, b) := lk_ha_insert_tuple first_page_id new_tuple b in
      if op_code =? DUP_KEY then Ok (DUP_KEY, new_tuple, b)
      else
        let* (ok, b) := changes f (mark_delete old_rid) b in
        if negb ok then
          b ← unpin_page (rid_page_id old_rid) false b;
          Ok (MARK_DELETE_FAIL, new_tuple, b)
        else
          b ← changes_ f (apply_delete old_rid) b;
          b ← unpin_page (rid_page_id old_rid) true b;
          Ok (OP_SUCCESS, new_tuple, b).

(** ** Deletion *)

(** the loop that collects the empty pages at the head of the list: their frames,
    the id of the first page that is not empty (-1 at the end) and its frame *)
Fixpoint collect_empty (fuel : nat) (checked_pgid checked_tb_page : Z) (empty_pages : list Z) b : res (list Z * Z * Z * BPM) :=
  match fuel with
  | O => Err OutOfFuel
  | S fuel =>
      cnt ← reads checked_tb_page get_stored_tuple_cnt b;
      if cnt =? 0 then
        let empty_pages := empty_pages ++ [checked_tb_page] in
        checked_pgid ← reads checked_tb_page (λ p, get_next_page_id (data_ p)) b;
        if checked_pgid =? INVALID_PAGE_ID then Ok (empty_pages, checked_pgid, checked_tb_page, b)
        else
          let* (checked_tb_page, b) := page_ptr checked_pgid b in
          collect_empty fuel checked_pgid checked_tb_page empty_pages b
      else Ok (empty_pages, checked_pgid, checked_tb_page, b)
  end.
(** unpin and delete them; a page someone else has pinned is waited for *)
Fixpoint delete_empty (empty_pages : list Z) b : res BPM :=
  match empty_pages with
  | [] => Ok b
  | f :: empty_pages =>
      id ← page_id_at f b;
      b ← unpin_page id false b;
      id ← page_id_at f b;
      let* (deleted, b) := delete_page id b in
      if (deleted : bool) then delete_empty empty_pages b else Err Blocked
  end.
Definition lk_ha_clear_empty_page (first_page_id sec_pg_slot_num tb_pg_slot_num : Z) b : res BPM :=
  let* (f1, b) := page_ptr first_page_id b in
  sec_level_pgid ← reads f1 (λ p, get_pgid_in_slot sec_pg_slot_num (data_ p)) b;
  b ← unpin_page first_page_id false b;
  let* (sec_level_pg, b) := page_ptr sec_level_pgid b in
  checked_pgid ← reads sec_level_pg (λ p, get_pgid_in_slot tb_pg_slot_num (data_ p)) b;
  let* (checked_tb_page, b) := page_ptr checked_pgid b in
  let* (empty_pages, checked_pgid, checked_tb_page, b) := collect_empty (list_fuel b) checked_pgid checked_tb_page [] b in
  b ← delete_empty empty_pages b;
  b ← changes_data sec_level_pg (set_pgid_in_slot tb_pg_slot_num checked_pgid) b;
  if checked_pgid =? INVALID_PAGE_ID then unpin_page sec_level_pgid true b
  else
    b ← changes_data checked_tb_page (λ d, set_prev_page_id d INVALID_PAGE_ID) b;
    b ← unpin_page checked_pgid true b;
    unpin_page sec_level_pgid true b.

(** the call of [lk_ha_get_tuple] is tested as if it returned true when it succeeds *)
Definition lk_ha_mark_delete (first_page_id : Z) (key_value : Value) b : res (Z * BPM) :=
  let* (c, tuple, b) := lk_ha_get_tuple first_page_id key_value Tuple_default b in
  if c =? 0 then Ok (0, b)
  else
    let page_id := rid_page_id (t_rid tuple) in
    let* (table_page, b) := page_ptr page_id b in
    let* (ok, b) := changes table_page (mark_delete (t_rid tuple)) b in
    b ← unpin_page page_id true b;
    Ok (if (ok : bool) then OP_SUCCESS else TUPLE_NOT_FOUND, b).

Definition lk_ha_apply_delete (first_page_id : Z) (key_value : Value) b : res BPM :=
  let* (c, tuple, b) := lk_ha_get_tuple first_page_id key_value Tuple_default b in
  if negb (c =? OP_SUCCESS) then Ok b
  else
    let page_id := rid_page_id (t_rid tuple) in
    let* (tb_page, b) := page_ptr page_id b in
    b ← changes_ tb_page (apply_delete (t_rid tuple)) b;
    tuple_cnt ← reads tb_page get_stored_tuple_cnt b;
    b ← unpin_page page_id true b;
    if tuple_cnt =? 0 then
      hash_val ← get_hash_value do_hash key_value;
      let '(sec_pg_slot_num, tb_pg_slot_num) := hash_to_slot hash_val in
      lk_ha_clear_empty_page first_page_id sec_pg_slot_num tb_pg_slot_num b
    else Ok b.

(** not implemented in the code either *)
Definition lk_ha_rollback_delete (first_page_id : Z) (key_value : Value) b : BPM := b.

End LinkHash.
