(* ===== verification/LinkHashSpec.v ===== *)
(** The link hash index is a finite map: a representation of its pages by the slots
    of its buckets, and what looking up, inserting and deleting do on it. Buckets
    are lists of one page here, see [room]. *)
From stdpp Require Import functions.
From S2P Require Import Prelude Config Replacer ClockReplacer Page FileSys DiskManager BufferPool PoolSpec Values TablePage TablePageSpec Schema PoolClient LinkHash.

(** ** Keys *)

(** the bytes of a value that are hashed *)
Definition key_bytes (v : Value) : bytes :=
  match value_ v with VChar buf => take (Z.to_nat (str_len_ v)) buf | u => union_bytes u end.

(** what the index relies on of the values it is given as keys: equal values hash
    the same bytes, different ones do not *)
Class KeyType (key_ok : Value → Prop) := {
  key_hash do_hash v : key_ok v → get_hash_value do_hash v = Ok (do_hash (key_bytes v));
  key_eq a b : key_ok a → key_ok b → Value_eq a b = Ok (bool_decide (key_bytes a = key_bytes b));
}.

Definition int_key (v : Value) : Prop := type_id_ v = kInteger ∧ value_ok v.
(** a string of a column of [n] bytes, padded with zeros *)
Definition char_key (n : Z) (v : Value) : Prop :=
  type_id_ v = kChar ∧ str_len_ v = n ∧
  ∃ s, value_ v = VChar (s ++ replicate (S (Z.to_nat n - length s)) 0) ∧ Forall (λ c, c ≠ 0) s ∧ zlen s ≤ n.

Lemma enc32_inj a b : in32 a → in32 b → enc32 a = enc32 b → a = b.
Proof. intros Ha Hb E%(f_equal dec32). rewrite !dec_enc32, !swrap32_id in E by done. done. Qed.

#[global] Instance int_KeyType : KeyType int_key.
Proof.
  constructor.
  - intros do_hash v [T Hv]. destruct (int_value v T Hv) as (z&V&_). unfold get_hash_value, key_bytes. by rewrite T, V.
  - intros a b [Ta Ha] [Tb Hb]. destruct (int_value a Ta Ha) as (x&Vx&Hx), (int_value b Tb Hb) as (y&Vy&Hy).
    destruct (lt_int a b x y) as (_&->&_); [done..|]. unfold key_bytes. rewrite Vx, Vy. cbn [union_bytes]. f_equal.
    destruct (Z.eqb_spec x y) as [->|Hne]; [by rewrite bool_decide_true|]. rewrite bool_decide_false; [done|].
    intros E. by apply Hne, enc32_inj.
Qed.

(** the string and its padding, without the NUL at the end *)
Lemma char_key_bytes n v : char_key n v → ∃ s, value_ v = VChar (s ++ replicate (S (Z.to_nat n - length s)) 0) ∧
  until_nul (s ++ replicate (S (Z.to_nat n - length s)) 0) = Some s ∧ key_bytes v = s ++ replicate (Z.to_nat n - length s) 0 ∧
  Forall (λ c, c ≠ 0) s ∧ zlen s ≤ n.
Proof.
  intros (T&L&s&V&Hs&Hn). exists s. split_and!; [done| | |done|done].
  - apply until_nul_pad. done.
  - unfold key_bytes. rewrite V, L. rewrite take_app_ge by (unfold zlen in *; lia). f_equal.
    rewrite take_replicate. f_equal. unfold zlen in *. lia.
Qed.

#[global] Instance char_KeyType n : KeyType (char_key n).
Proof.
  constructor.
  - intros do_hash v Hv. destruct (char_key_bytes n v Hv) as (s&V&_&_&_&Hn). destruct Hv as (T&L&_).
    unfold get_hash_value, key_bytes, get_char. rewrite T, V, L. cbn [mbind res_bind].
    rewrite mem_read_prefix; [done|]. pose proof (zlen_nonneg s). rewrite zlen_app, zlen_replicate; unfold zlen in *; lia.
  - intros a b Ha Hb. destruct (char_key_bytes n a Ha) as (s&Va&Ua&->&Hs&Ls), (char_key_bytes n b Hb) as (t&Vb&Ub&->&Ht&Lt).
    destruct Ha as (Ta&_), Hb as (Tb&_).
    destruct (lt_char a b _ _ s t Va Vb Ta Tb) as (_&->&_); [rewrite c_string_0; by rewrite ?Ua, ?Ub..|]. f_equal.
    apply bool_decide_ext. split; [by intros ->|]. intros E.
    assert (until_nul ((s ++ replicate (Z.to_nat n - length s) 0) ++ [0]) = until_nul ((t ++ replicate (Z.to_nat n - length t) 0) ++ [0])) as E2 by (by rewrite E).
    rewrite <- !app_assoc, <- !replicate_cons_app in E2. change (0 :: replicate ?k 0) with (replicate (S k) 0) in E2. congruence.
Qed.

(** ** Table pages keep their links and the reserved bytes *)

Definition low (d d' : bytes) : Prop :=
  zlen d' = zlen d ∧ ∀ o l, o + l ≤ FREE_SPACE_PTR_OFFSET ∨ (FREE_SPACE_PTR_OFFSET + 4 ≤ o ∧ o + l ≤ TUPLE_CNT_OFFSET) →
    mem_read d' o l = mem_read d o l.

Lemma low_refl d : low d d.
Proof. done. Qed.
Lemma low_trans d1 d2 d3 : low d1 d2 → low d2 d3 → low d1 d3.
Proof. intros [L1 R1] [L2 R2]. split; [congruence|]. intros o l H. by rewrite R2, R1. Qed.
Lemma low_write d o bs d' : mem_write d o bs = Ok d' → TUPLE_CNT_OFFSET ≤ o → low d d'.
Proof.
  intros W Ho. split; [by eapply mem_write_zlen|]. intros a l H. eapply mem_read_write_disj; [done|]. tp_lia.
Qed.
Lemma low_wr32 d o z d' : wr32 d o z = Ok d' → TUPLE_CNT_OFFSET ≤ o → low d d'.
Proof. apply low_write. Qed.
Lemma low_fsp d o d' : set_free_space_pointer d o = Ok d' → low d d'.
Proof.
  intros W. split; [by eapply mem_write_zlen|]. intros a l H. eapply mem_read_write_disj; [exact W|]. rewrite zlen_enc32. tp_lia.
Qed.

Lemma find_slot_ge f d k n i : find_slot f d k n = Ok (Some i) → k ≤ i.
Proof.
  revert k. induction n as [|n IH]; intros k; cbn [find_slot]; [done|].
  intros (o&_&H)%res_bind_Ok. destruct (f o); [injection H; lia|]. apply IH in H. lia.
Qed.

Lemma get_empty_slot_low p i p' cnt : zlen (data_ p) = PAGE_SIZE → rd32 (data_ p) TUPLE_CNT_OFFSET = Ok cnt →
  0 ≤ cnt ≤ PAGE_SIZE → get_empty_slot p = Ok (i, p') →
  -1 ≤ i ∧ ∃ d cnt', p' = set_data p d ∧ low (data_ p) d ∧ rd32 d TUPLE_CNT_OFFSET = Ok cnt' ∧ 0 ≤ cnt'.
Proof.
  intros Hl Hc Hp. unfold get_empty_slot, get_tuple_count. rewrite Hc. cbn [mbind res_bind].
  intros (r&Hr&H)%res_bind_Ok. assert (p = set_data p (data_ p)) as Hid by (by destruct p). destruct r as [k|].
  - injection H as <- <-. split; [apply find_slot_ge in Hr; lia|]. exists (data_ p), cnt. split_and!; [done|done|done|lia].
  - apply res_bind_Ok in H as (fr&_&H). destruct (fr <? TUPLE_RECORD_SZ).
    { injection H as <- <-. split; [lia|]. exists (data_ p), cnt. split_and!; [done|done|done|lia]. }
    apply res_bind_Ok in H as (d&Hd&H). injection H as <- <-. split; [lia|]. exists d, (cnt + 1).
    split_and!; [done|eapply low_wr32; [exact Hd|tp_lia]|eapply rd32_wr32; [exact Hd|tp_lia]|lia].
Qed.

Lemma insert_tuple_low p sl t bs rid p' : rep p sl → tuple_ok t bs → 0 ≤ rid_slot_num rid →
  insert_tuple t p = Ok (Some rid, p') → ∃ d, p' = set_data p d ∧ low (data_ p) d.
Proof.
  intros [offs Hr] Ht Hslot. pose proof (ra_bounds _ _ _ _ Hr) as [Hz [Hb1 Hb2]]. unfold insert_tuple.
  intros ([i p1]&H1&H)%res_bind_Ok.
  apply (get_empty_slot_low _ _ _ _ (ra_len _ _ _ _ Hr) (ra_cnt _ _ _ _ Hr)) in H1 as (Hi&d&cnt&->&Hl&Hc&Hcp); [|tp_lia].
  cbn [data_ set_data] in H. apply res_bind_Ok in H as (fr&Hfr&H). unfold get_free_space, get_free_space_pointer, get_tuple_count in Hfr.
  rewrite Hc in Hfr. apply res_bind_Ok in Hfr as (fsp&Hfsp&Hfr). cbn [mbind res_bind] in Hfr. injection Hfr as <-.
  pose proof Ht as (_&Hts&_&Hpos).
  destruct (Z.ltb_spec (fsp - (FIRST_TUPLE_OFFSET + cnt * TUPLE_RECORD_SZ)) (t_size t)) as [Hlt|Hge]; [done|].
  unfold get_free_space_pointer in H. rewrite Hfsp in H. cbn [mbind res_bind] in H.
  rewrite (serialize_ok _ _ _ _ Ht) in H. apply res_bind_Ok in H as (d1&W1&H).
  apply res_bind_Ok in H as (d2&W2&H). apply res_bind_Ok in H as (d3&W3&H). injection H as <- <-. cbn [rid_slot_num] in Hslot.
  exists d3. split; [done|]. unfold insert_tuple_record in W3. apply res_bind_Ok in W3 as (d4&W3&W4).
  eapply low_trans; [exact Hl|]. eapply low_trans; [eapply low_write; [exact W1|tp_lia]|].
  eapply low_trans; [eapply low_fsp; exact W2|]. eapply low_trans; [eapply low_wr32; [exact W3|tp_lia]|].
  eapply low_wr32; [exact W4|tp_lia].
Qed.

Lemma shift_records_low del size n : ∀ k d d', 0 ≤ k → shift_records del size d k n = Ok d' → low d d'.
Proof.
  induction n as [|n IH]; intros k d d' Hk; cbn [shift_records]; [intros [= <-]; apply low_refl|].
  intros (o&_&H)%res_bind_Ok. apply res_bind_Ok in H as (d1&H1&H). apply IH in H; [|lia].
  eapply low_trans; [|exact H]. destruct (_ && _); [eapply low_wr32; [exact H1|tp_lia]|injection H1 as <-; apply low_refl].
Qed.

Lemma apply_delete_low p sl rid del bs p' : rep p sl → 0 ≤ rid_slot_num rid → slot_of sl (rid_slot_num rid) = Some (del, bs) →
  apply_delete rid p = Ok p' → ∃ d, p' = set_data p d ∧ low (data_ p) d.
Proof.
  intros [offs Hr] Hk Hs. pose proof (ra_bounds _ _ _ _ Hr) as [Hz [Hb1 Hb2]]. pose proof (slot_of_Some _ _ _ Hs) as Hi.
  pose proof (stored_small _ _ _ _ _ _ Hr Hi) as Hsm. unfold apply_delete. intros (o&_&H)%res_bind_Ok.
  rewrite (get_size_rep _ _ _ _ _ _ Hr Hk Hs) in H. cbn [mbind res_bind] in H.
  destruct (flags del (zlen bs)) as (_&_&E); [lia|]. rewrite E in H.
  apply res_bind_Ok in H as (cnt&_&H). destruct (_ && _). { injection H as <-. exists (data_ p). by destruct p. }
  unfold get_free_space_pointer in H. rewrite (ra_fsp _ _ _ _ Hr) in H. cbn [mbind res_bind] in H.
  apply res_bind_Ok in H as (d1&W1&H). apply res_bind_Ok in H as (d2&W2&H). apply res_bind_Ok in H as (d3&W3&H).
  apply res_bind_Ok in H as (c2&_&H). apply res_bind_Ok in H as (d4&W4&H). injection H as <-. exists d4. split; [done|].
  unfold delete_tuple_record in W1. apply res_bind_Ok in W1 as (c1&_&W1). unfold mem_move in W2. apply res_bind_Ok in W2 as (mv&_&W2).
  apply low_trans with d1.
  { destruct (_ >=? c1); [injection W1 as <-; apply low_refl|]. unfold mem_set in W1. destruct (0 <=? _); [|done]. eapply low_write; [exact W1|tp_lia]. }
  eapply low_trans; [eapply low_write; [exact W2|tp_lia]|]. eapply low_trans; [eapply low_fsp; exact W3|].
  eapply shift_records_low; [|exact W4]. lia.
Qed.

(** the bytes a record number -1 would have *)
Definition GAP_OFFSET : Z := FIRST_TUPLE_OFFSET - TUPLE_RECORD_SZ.

Lemma init_header prev next p p' : page_ok p → init prev next p = Ok p' →
  ∃ d, p' = set_data p d ∧ rd8 d STATUS_OFFSET = rd8 (data_ p) STATUS_OFFSET ∧ rd32 d GAP_OFFSET = Ok 0.
Proof.
  intros Hp. unfold init. intros (d1&W1&H)%res_bind_Ok. apply res_bind_Ok in H as (d2&W2&H). apply res_bind_Ok in H as (d3&W3&H).
  apply res_bind_Ok in H as (d4&W4&H). apply res_bind_Ok in H as (d5&W5&H). injection H as <-. exists d5. split; [done|]. split.
  2: { destruct (mem_set0_ex (data_ p) START_OFFSET (PAGE_SIZE - COM_PG_HEADER_SZ)) as (d1'&W1'&L1&Rz&_); [unfold page_ok in Hp; tp_lia..|].
       assert (d1' = d1) as -> by congruence. unfold GAP_OFFSET.
       rewrite (rd32_ext d4 d5), (rd32_ext d3 d4), (rd32_ext d2 d3), (rd32_ext d1 d2);
         [|eapply mem_read_write_disj; [eassumption|rewrite zlen_enc32; tp_lia]..].
       apply Rz; tp_lia. }
  unfold mem_set in W1. destruct (0 <=? _); [|done]. unfold rd8.
  rewrite (mem_read_write_disj _ _ _ _ _ _ W5), (mem_read_write_disj _ _ _ _ _ _ W4), (mem_read_write_disj _ _ _ _ _ _ W3),
    (mem_read_write_disj _ _ _ _ _ _ W2), (mem_read_write_disj _ _ _ _ _ _ W1); [done|tp_lia..].
Qed.

(** ** Directory pages *)

Definition in_dir (i : Z) : Prop := 0 ≤ i < LK_HA_PG_SLOT_NUM.
Definition slot_at (i : Z) : Z := FIRST_SLOT_NUM_OFFSET + i * SLOT_SIZE.
Definition dir_rep (f : Z → Z) (d : bytes) : Prop := ∀ i, in_dir i → rd32 d (slot_at i) = Ok (f i).

Lemma dir_num : LK_HA_PG_SLOT_NUM = 1008.
Proof. done. Qed.
Ltac dir := unfold in_dir, slot_at, FIRST_SLOT_NUM_OFFSET, SLOT_SIZE in *; rewrite ?dir_num in *; cfg.

Lemma get_slot_ok f d i : dir_rep f d → in_dir i → get_pgid_in_slot i d = Ok (f i).
Proof.
  intros Hd Hi. unfold get_pgid_in_slot. destruct (Z.ltb_spec i 0); [dir; lia|].
  rewrite Z.geb_leb. destruct (Z.leb_spec LK_HA_PG_SLOT_NUM i); [dir; lia|]. by apply Hd.
Qed.

Lemma set_slot_ok f d i q : dir_rep f d → in_dir i → in32 q → zlen d = PAGE_SIZE →
  ∃ d', set_pgid_in_slot i q d = Ok d' ∧ zlen d' = PAGE_SIZE ∧ dir_rep (<[i := q]> f) d' ∧
    rd8 d' STATUS_OFFSET = rd8 d STATUS_OFFSET.
Proof.
  intros Hd Hi Hq Hl. unfold set_pgid_in_slot. destruct (Z.ltb_spec i 0); [dir; lia|].
  rewrite Z.geb_leb. destruct (Z.leb_spec LK_HA_PG_SLOT_NUM i); [dir; lia|]. cbn [orb].
  destruct (wr32_ex d (slot_at i) q) as (d'&W&L&Rd&D); [dir; lia|dir; lia|done|]. exists d'. split_and!; [done|congruence| |].
  - intros j Hj. destruct (decide (j = i)) as [->|Hne]; [by rewrite fn_lookup_insert|].
    rewrite fn_lookup_insert_ne by done. rewrite (rd32_ext d d'); [by apply Hd|]. apply D. dir. lia.
  - unfold rd8. rewrite D; [done|]. dir. lia.
Qed.

Lemma init_slots_ok n : ∀ i d, 0 ≤ i → i + Z.of_nat n ≤ LK_HA_PG_SLOT_NUM → zlen d = PAGE_SIZE →
  ∃ d', init_slots d i n = Ok d' ∧ zlen d' = PAGE_SIZE ∧
    (∀ j, i ≤ j < i + Z.of_nat n → rd32 d' (slot_at j) = Ok INVALID_PAGE_ID) ∧
    (∀ o l, o + l ≤ slot_at i → mem_read d' o l = mem_read d o l).
Proof.
  induction n as [|n IH]; intros i d Hi Hn Hl; cbn [init_slots]; [exists d; split_and!; [done..|lia|done]|].
  destruct (wr32_ex d (slot_at i) INVALID_PAGE_ID) as (d1&W&L&Rd&D); [dir; lia|dir; lia|dir; lia|].
  fold (slot_at i). rewrite W. cbn [mbind res_bind]. destruct (IH (i + 1) d1) as (d'&->&L'&R'&D'); [lia|lia|congruence|].
  exists d'. split_and!; [done|done| |].
  - intros j Hj. destruct (decide (j = i)) as [->|Hne]; [|apply R'; lia]. rewrite (rd32_ext d1 d'); [done|]. apply D'. dir. lia.
  - intros o l Ho. rewrite D', D; [done|left; lia|dir; lia].
Qed.

Lemma LinkHashPage_init_ok d : zlen d = PAGE_SIZE →
  ∃ d', LinkHashPage_init d = Ok d' ∧ zlen d' = PAGE_SIZE ∧ dir_rep (λ _, INVALID_PAGE_ID) d' ∧
    rd8 d' STATUS_OFFSET = rd8 d STATUS_OFFSET.
Proof.
  intros Hl. destruct (init_slots_ok (Z.to_nat LK_HA_PG_SLOT_NUM) 0 d) as (d'&H&L&Rd&D); [lia|rewrite dir_num; lia|done|].
  exists d'. split_and!; [done|done| |].
  - intros i Hi. apply Rd. dir. lia.
  - unfold rd8. rewrite D; [done|]. dir. lia.
Qed.

Lemma hash_to_slot_range h : in_dir (hash_to_slot h).1 ∧ in_dir (hash_to_slot h).2.
Proof.
  unfold hash_to_slot. cbn [fst snd]. change Lk_HA_TOTAL_SLOT_NUM with 1016064. unfold in_dir. rewrite !dir_num.
  pose proof (Z.mod_pos_bound h 1016064 ltac:(lia)). rewrite Z.quot_div_nonneg, Z.rem_mod_nonneg by lia.
  split; [|apply Z.mod_pos_bound; lia]. split; [apply Z.div_pos; lia|apply Z.div_lt_upper_bound; lia].
Qed.

(** ** Buckets *)

(** the slots after an insertion: one slot that was not in use holds the tuple *)
Lemma spec_insert_slots (sl : list slot) bs n : (spec_insert sl bs).2 = Some n →
  (∀ x, sl !! n ≠ Some (Some x)) ∧
  ∀ m x, (spec_insert sl bs).1 !! m = Some (Some x) ↔ (m = n ∧ x = (false, bs)) ∨ (m ≠ n ∧ sl !! m = Some (Some x)).
Proof.
  unfold spec_insert. pose proof (first_slot_spec no_tuple sl 0) as Hfs. destruct (first_slot no_tuple sl 0) as [i|].
  - destruct Hfs as (j&s&->&Hj&Hs). cbn [Nat.add]. destruct s; [done|]. destruct (_ <=? _); cbn [fst snd]; [|done]. intros [= <-].
    split; [congruence|]. intros m x. destruct (decide (m = j)) as [->|Hne].
    + rewrite list_lookup_insert_eq by (by eapply lookup_lt_Some). naive_solver.
    + rewrite list_lookup_insert_ne by done. naive_solver.
  - destruct (_ <=? _); cbn [fst snd]; [|done]. intros [= <-]. split; [intros x Hx%lookup_lt_Some; lia|]. intros m x.
    destruct (decide (m = length sl)) as [->|Hne].
    + rewrite list_lookup_middle by done. naive_solver.
    + destruct (decide (m < length sl)%nat); [rewrite lookup_app_l by done; naive_solver|].
      rewrite !lookup_ge_None_2 by (rewrite ?length_app; cbn; lia). naive_solver.
Qed.

Section Buckets.
Context (tb_schema : Schema) (key_ok : Value → Prop) `{KT : !KeyType key_ok}.
Implicit Types (sl : list slot).

Definition key_value_of (bs : bytes) : res Value := get_value (mkTuple true RID_default (zlen bs) bs) tb_schema (key_idx_ tb_schema).
(** the tuple [bs] has the key [k] *)
Definition has_key (k bs : bytes) : Prop := ∃ v, key_value_of bs = Ok v ∧ key_ok v ∧ key_bytes v = k.
Definition key_of (bs : bytes) : option bytes := match key_value_of bs with Ok v => Some (key_bytes v) | Err _ => None end.

Lemma get_value_data t bs : t_data t = bs → get_value t tb_schema (key_idx_ tb_schema) = key_value_of bs.
Proof. intros <-. done. Qed.
Lemma has_key_of k bs : has_key k bs → key_of bs = Some k.
Proof. intros (v&H&_&<-). unfold key_of. by rewrite H. Qed.

(** the slot of the tuple with the key [k], from slot [n] on *)
Fixpoint find_key (k : bytes) sl (n : nat) : option (nat * bytes) :=
  match sl with
  | [] => None
  | Some (_, bs) :: sl => if decide (key_of bs = Some k) then Some (n, bs) else find_key k sl (S n)
  | None :: sl => find_key k sl (S n)
  end.

(** every tuple has a key and is not marked; no two have the same key *)
Record bucket_ok sl : Prop := {
  bk_key : ∀ i x, sl !! i = Some (Some x) → x.1 = false ∧ ∃ k, has_key k x.2;
  bk_uniq : ∀ i j x y, sl !! i = Some (Some x) → sl !! j = Some (Some y) → key_of x.2 = key_of y.2 → i = j;
}.

Lemma find_key_Some k sl n i bs : find_key k sl n = Some (i, bs) →
  ∃ j del, i = (n + j)%nat ∧ sl !! j = Some (Some (del, bs)) ∧ key_of bs = Some k.
Proof.
  revert n. induction sl as [|[[del b]|] sl IH]; intros n; cbn [find_key]; [done| |].
  - case_decide; [intros [= <- <-]; exists 0%nat, del; split_and!; [lia|done|done]|].
    intros (j&del'&->&?&?)%IH. exists (S j), del'. split_and!; [lia|done|done].
  - intros (j&del'&->&?&?)%IH. exists (S j), del'. split_and!; [lia|done|done].
Qed.
Lemma find_key_None k sl n : find_key k sl n = None ↔ ∀ i x, sl !! i = Some (Some x) → key_of x.2 ≠ Some k.
Proof.
  revert n. induction sl as [|[[del b]|] sl IH]; intros n; cbn [find_key]; [naive_solver| |].
  - case_decide as E.
    + split; [done|]. intros H. exfalso. by apply (H 0%nat (del, b)).
    + rewrite IH. split; [intros H [|i] x Hx; cbn in Hx; [by injection Hx as <-|by eapply H]|]. intros H i x Hx. by apply (H (S i)).
  - rewrite IH. split; [intros H [|i] x Hx; cbn in Hx; [done|by eapply H]|]. intros H i x Hx. by apply (H (S i)).
Qed.
Lemma find_key_at k sl i del bs : bucket_ok sl → sl !! i = Some (Some (del, bs)) → key_of bs = Some k → find_key k sl 0 = Some (i, bs).
Proof.
  intros Hb Hi Hk. destruct (find_key k sl 0) as [[i' bs']|] eqn:E.
  - apply find_key_Some in E as (j&del'&->&Hj&Hk'). cbn [Nat.add]. assert (j = i) as -> by (eapply (bk_uniq _ Hb j i _ _ Hj Hi); cbn; congruence).
    congruence.
  - exfalso. rewrite find_key_None in E. by apply (E i (del, bs)).
Qed.

(** skipping the empty slots *)
Lemma find_key_skip k sl n : find_key k sl n =
  match first_slot is_full sl n with Some j => find_key k (drop (j - n) sl) j | None => None end.
Proof.
  revert n. induction sl as [|[[del b]|] sl IH]; intros n; cbn [find_key first_slot is_full]; [done|by rewrite Nat.sub_diag|].
  rewrite IH. pose proof (first_slot_spec is_full sl (S n)) as Hs. destruct (first_slot is_full sl (S n)) as [j|]; [|done].
  destruct Hs as (i&_&->&_&_). by replace (S n + i - n)%nat with (S (S n + i - S n)) by lia.
Qed.

Lemma rep_slots d sl offs : rep_at d sl offs → zlen sl ≤ LOAD_DATA_SPACE / TUPLE_RECORD_SZ.
Proof. intros Hr. pose proof (ra_bounds _ _ _ _ Hr) as [? [? ?]]. change (LOAD_DATA_SPACE / TUPLE_RECORD_SZ) with 494. tp_lia. Qed.

Lemma scan_page_ok v p sl fuel : ∀ i x cmp,
  rep p sl → bucket_ok sl → key_ok v → page_id_ p ≠ INVALID_PAGE_ID →
  sl !! i = Some (Some x) → (length sl < fuel + i)%nat →
  scan_page tb_schema fuel v cmp (mkRID (page_id_ p) (Z.of_nat i)) p =
    Ok (option_map (λ y, mkRID (page_id_ p) (Z.of_nat y.1)) (find_key (key_bytes v) (drop i sl) i)).
Proof.
  intros i x cmp Hr Hb Hv Hid. revert i x cmp. induction fuel as [|fuel IH]; intros i x cmp Hi Hf.
  { apply lookup_lt_Some in Hi. lia. }
  cbn [scan_page]. pose proof Hr as [offs Hr']. pose proof (rep_slots _ _ _ Hr') as Hn. pose proof (lookup_lt_Some _ _ _ Hi) as Hlt.
  assert (slot_of sl (Z.of_nat i) = Some x) as Hs by (unfold slot_of; by rewrite Nat2Z.id, Hi).
  rewrite (get_tuple_ok p sl _ Hr) by (cbn [rid_slot_num]; unfold slot_ok, zlen in *; lia).
  cbn [rid_slot_num mbind res_bind]. rewrite Hs. cbn [option_map default].
  destruct (bk_key _ Hb i x Hi) as (_&k&w&Hw&Hwk&Hk).
  rewrite (get_value_data _ x.2) by done. rewrite Hw. cbn [mbind res_bind]. rewrite (key_eq v w Hv Hwk). cbn [mbind res_bind].
  rewrite (drop_S _ _ _ Hi). destruct x as [del bs]. cbn [find_key snd] in *.
  assert (key_of bs = Some (key_bytes w)) as Hkb by (unfold key_of; by rewrite Hw).
  case_bool_decide as E.
  { rewrite decide_True by congruence. done. }
  rewrite decide_False by congruence. cbn [t_rid id].
  pose proof (get_next_ok p sl (mkRID (page_id_ p) (Z.of_nat i)) (mkRID (page_id_ p) (Z.of_nat i)) Hr) as Hnx.
  cbn [exec_op spec_op rid_page_id rid_slot_num fst] in Hnx. rewrite (proj2 (Z.eqb_neq _ _) Hid) in Hnx.
  replace (Z.to_nat (Z.of_nat i + 1)) with (S i) in Hnx by lia. specialize (Hnx (or_intror (Nat2Z.is_nonneg i))).
  rewrite find_key_skip. pose proof (first_slot_spec is_full (drop (S i) sl) (S i)) as Hfs.
  apply res_bind_Ok in Hnx as ([more rid]&->&Hnx). cbn [mbind res_bind].
  destruct (first_slot is_full (drop (S i) sl) (S i)) as [j|]; cbn [fst] in Hnx; injection Hnx as -> ->; [|done].
  destruct Hfs as (j'&s&->&Hj&Hsf). destruct s as [y|]; [|done]. rewrite lookup_drop in Hj.
  rewrite (IH _ y) by (done || lia). rewrite drop_drop. do 4 f_equal. lia.
Qed.
End Buckets.

(** ** The index *)

(** the pages of the index: the first level, the second, and the buckets *)
Inductive node := NFirst | NSec (i : Z) | NTab (i j : Z).
#[global] Instance node_eq_dec : EqDecision node.
Proof. solve_decision. Defined.
(** the page of every node that has one, and the slots of the buckets *)
Record ix := mkIx { pg : node → option Z; slots : Z → Z → list slot }.
Definition link (o : option Z) : Z := default INVALID_PAGE_ID o.

Definition node_rep (I : ix) (n : node) (d : bytes) : Prop :=
  match n with
  | NFirst => dir_rep (λ i, link (pg I (NSec i))) d
  | NSec i => dir_rep (λ j, link (pg I (NTab i j))) d
  | NTab i j => (∃ offs, rep_at d (slots I i j) offs) ∧ get_next_page_id d = Ok INVALID_PAGE_ID ∧ rd32 d GAP_OFFSET = Ok 0
  end.

(** a page is read by its bytes past the header the pool uses *)
Lemma node_rep_ext I n d d' : zlen d' = zlen d → payload d' = payload d → node_rep I n d → node_rep I n d'.
Proof.
  intros Hl Hp. assert (∀ o l, HEADER_USED ≤ o → mem_read d' o l = mem_read d o l) as E by (intros; by apply mem_read_payload).
  assert (∀ o, HEADER_USED ≤ o → rd32 d' o = rd32 d o) as E32 by (intros; by apply rd32_ext, E).
  change HEADER_USED with 9 in *. assert (∀ f, dir_rep f d → dir_rep f d') as Hdir.
  { intros f Hf i Hi. rewrite E32; [by apply Hf|]. dir. lia. }
  destruct n as [|i|i j]; cbn [node_rep]; [apply Hdir..|]. intros [[offs [L C F Ro O Sm Dj]] [Hn Hgap]]. split_and!.
  - exists offs. constructor; try done; [congruence|rewrite E32 by tp_lia; done|rewrite E32 by tp_lia; done| |].
    + intros k s Hk Hs. rewrite E32 by (unfold rec_at; tp_lia). by apply O.
    + intros k del bs Hk. destruct (Sm k del bs Hk) as (S1&S2&S3&S4&S5).
      rewrite E32 by (unfold rec_at; tp_lia). rewrite E; [done|]. unfold free_of, zlen in Ro. tp_lia.
  - unfold get_next_page_id. rewrite E32 by tp_lia. done.
  - unfold GAP_OFFSET in *. rewrite E32 by tp_lia. done.
Qed.

Section Index.
Context {R : Type} `{RA : ReplacerAbstract R}.
Context (do_hash : bytes → Z) (tb_schema : Schema) (key_ok : Value → Prop) `{KT : !KeyType key_ok}.
Notation BPM := (BufferPoolManager R).
Implicit Types (b : BPM) (I : ix).

(** the bucket of a key *)
Definition bucket (k : bytes) : Z * Z := hash_to_slot (do_hash k).

Record index b (first : Z) I : Prop := {
  ix_first : pg I NFirst = Some first;
  ix_inj : ∀ n m q, pg I n = Some q → pg I m = Some q → n = m;
  ix_sec : ∀ i j q, pg I (NTab i j) = Some q → is_Some (pg I (NSec i));
  ix_page : ∀ n q, pg I n = Some q →
    q ∈ alloced b ∧ ∃ d, view b q = Some (payload d) ∧ zlen d = PAGE_SIZE ∧ node_rep I n d;
  ix_bucket : ∀ i j, bucket_ok tb_schema key_ok (slots I i j);
  ix_hash : ∀ i j n x k, slots I i j !! n = Some (Some x) → key_of tb_schema x.2 = Some k → bucket k = (i, j);
  ix_none : ∀ i j, pg I (NTab i j) = None → slots I i j = [];
}.

(** the map the index stores: from the bytes of a key to the tuple with this key *)
Definition contents I (k : bytes) : option bytes :=
  snd <$> find_key tb_schema k (slots I (bucket k).1 (bucket k).2) 0.

(** no page changes *)
Definition same_pages b b' : Prop :=
  dm (disk_manager_ b') = dm (disk_manager_ b) ∧ ∀ q, q ∈ alloced b → view b' q = view b q.
Lemma same_pages_refl b : same_pages b b.
Proof. done. Qed.
Lemma same_pages_alloced b b' : same_pages b b' → alloced b' = alloced b.
Proof. intros [H _]. unfold alloced. by rewrite H. Qed.
Lemma same_pages_trans b1 b2 b3 : same_pages b1 b2 → same_pages b2 b3 → same_pages b1 b3.
Proof.
  intros S1 [D2 V2]. pose proof (same_pages_alloced _ _ S1) as A. destruct S1 as [D1 V1]. split; [congruence|].
  intros q Hq. rewrite V2, V1; [done|done|by rewrite A].
Qed.
Lemma index_same b b' first I : same_pages b b' → index b first I → index b' first I.
Proof.
  intros Hs [H1 H2 H3 H4 H5 H6 H7]. pose proof (same_pages_alloced _ _ Hs) as A. constructor; try done.
  intros n q Hq. destruct (H4 n q Hq) as (Ha&d&Hv&Hd). split; [by rewrite A|]. exists d. by rewrite (proj2 Hs).
Qed.

Lemma alloced_pos b q : bpm_ok b → q ∈ alloced b → 0 ≤ q < max_ava_pgid_ (dm (disk_manager_ b)).
Proof. intros Hok Hq. apply (do_part _ (bo_disk _ _ Hok)). by right. Qed.
Lemma link_some b first I n q : bpm_ok b → index b first I → pg I n = Some q → (link (pg I n) =? INVALID_PAGE_ID) = false.
Proof.
  intros Hok Hx Hq. rewrite Hq. change (link (Some q)) with q. destruct (ix_page _ _ _ Hx n q Hq) as [Ha _].
  pose proof (alloced_pos _ _ Hok Ha). apply Z.eqb_neq. cfg_lia.
Qed.

(** pinning a page of the index *)
Lemma open_node m b0 H b first I n q :
  session b0 H b → index b first I → pg I n = Some q → q ∉ h_page <$> H → frames m b0 → (length H < m)%nat →
  ∃ f b' p, page_ptr q b = Ok (f, b') ∧ session b0 (mkHold q f false :: H) b' ∧ same_pages b b' ∧
    frame b' f = Ok p ∧ page_id_ p = q ∧ zlen (data_ p) = PAGE_SIZE ∧ node_rep I n (data_ p) ∧
    (∀ h p, h ∈ H → frame b (h_frame h) = Ok p → frame b' (h_frame h) = Ok p).
Proof.
  intros Hs Hx Hq Hn Hfr Hlt. destruct (ix_page _ _ _ Hx n q Hq) as (Ha&d&Hv&Hl&Hd).
  destruct (session_get m b0 H b q) as (f&b'&p&Hg&Hs'&Hdm&Hf&Hpv&Hvs&Hfs); [done..|].
  exists f, b', p. unfold page_ptr. rewrite Hg. cbn [mbind res_bind deref of_opt].
  assert (zlen (data_ p) = PAGE_SIZE) as Hz by (apply (frame_page_ok b' f); [apply Hs'|done]).
  destruct (ss_held _ _ _ Hs' (mkHold q f false)) as [Hmap _]; [by left|].
  split_and!; [done..|eapply mapped_id; [apply Hs'|exact Hmap|done]|done| |done].
  rewrite Hv in Hpv. injection Hpv as Hpv. apply (node_rep_ext I n d); [congruence|done|done].
Qed.

(** unpinning the page pinned last *)
Lemma close b0 q f m H b dirty : session b0 (mkHold q f m :: H) b → (m = true → dirty = true) →
  ∃ b', unpin_page q dirty b = Ok b' ∧ session b0 H b' ∧ same_pages b b' ∧
    (∀ h p, h ∈ H → frame b (h_frame h) = Ok p → frame b' (h_frame h) = Ok p) ∧
    (∀ p, frame b f = Ok p → ∃ p', frame b' f = Ok p' ∧ payload (data_ p') = payload (data_ p)).
Proof.
  intros Hs Hd. destruct (session_unpin b0 [] q f m H b dirty Hs Hd) as (b'&?&?&?&?&?&?). by exists b'.
Qed.

(** ** Lookup *)

(** the record id of the tuple with the key [k] *)
Definition locate I (k : bytes) : option RID :=
  q ← pg I (NTab (bucket k).1 (bucket k).2);
  y ← find_key tb_schema k (slots I (bucket k).1 (bucket k).2) 0;
  Some (mkRID q (Z.of_nat y.1)).

Lemma reads_ok {A} f (g : Page → res A) b p : frame b f = Ok p → reads f g b = g p.
Proof. unfold reads. by intros ->. Qed.

(** the scan of a bucket of one page, from its first tuple on *)
Lemma scan_bucket_ok v p sl : rep p sl → bucket_ok tb_schema key_ok sl → key_ok v → page_id_ p ≠ INVALID_PAGE_ID →
  match first_slot is_full sl 0 with
  | None => get_the_first_tuple p = Ok None ∧ find_key tb_schema (key_bytes v) sl 0 = None
  | Some i => ∃ t, get_the_first_tuple p = Ok (Some t) ∧
      scan_page tb_schema scan_fuel v t (t_rid t) p =
        Ok (option_map (λ y, mkRID (page_id_ p) (Z.of_nat y.1)) (find_key tb_schema (key_bytes v) sl 0))
  end.
Proof.
  intros Hr Hb Hv Hid. pose proof (first_slot_spec is_full sl 0) as Hfs.
  assert (op_pre OFirst sl) as Hpre by (intros i x _ Hi; by apply (bk_key _ _ _ Hb i x)).
  pose proof (get_first_ok p sl Hr Hpre) as Hg. cbn [exec_op spec_op fst] in Hg. apply res_bind_Ok in Hg as (t&->&Hg). injection Hg as ->.
  rewrite find_key_skip. destruct (first_slot is_full sl 0) as [i|]; [|done].
  destruct Hfs as (j&s&E&Hj&Hs). cbn [Nat.add] in E. subst j. destruct s as [x|]; [|done].
  cbn [mbind option_bind]. rewrite Hj. cbn [mjoin option_join option_bind mbind]. eexists. split; [done|]. cbn [t_rid].
  pose proof Hr as [offs Hr']. pose proof (rep_slots _ _ _ Hr') as Hn. change (LOAD_DATA_SPACE / TUPLE_RECORD_SZ) with 494 in Hn.
  change scan_fuel with 512%nat. rewrite Nat.sub_0_r.
  apply (scan_page_ok tb_schema key_ok v p sl 512 i x); try done. unfold zlen in Hn. lia.
Qed.

Lemma scan_list_ok b0 b first I i j q v fuel :
  session b0 [] b → index b first I → pg I (NTab i j) = Some q → key_ok v → frames 1 b0 →
  ∃ b', scan_list tb_schema (S (S fuel)) v q b =
      Ok (option_map (λ y, mkRID q (Z.of_nat y.1)) (find_key tb_schema (key_bytes v) (slots I i j) 0), b') ∧
    session b0 [] b' ∧ same_pages b b'.
Proof.
  intros Hs Hx Hq Hv Hfr. pose proof (link_some _ _ _ _ _ (ss_ok _ _ _ Hs) Hx Hq) as Hne. rewrite Hq in Hne. change (link (Some q)) with q in Hne.
  destruct (open_node 1 b0 [] b first I (NTab i j) q) as (f&b1&p&Hg&Hs1&S1&Hf&Hid&_&(Hr&Hnx&_)&_); [done..|apply not_elem_of_nil|done|cbn; lia|].
  destruct (close b0 q f false [] b1 false Hs1) as (b2&Hu&Hs2&S2&_); [done|].
  pose proof (scan_bucket_ok v p (slots I i j) Hr (ix_bucket _ _ _ Hx i j) Hv) as Hsc. rewrite Hid in Hsc.
  specialize (Hsc ltac:(by apply Z.eqb_neq)). exists b2. split; [|split; [done|by eapply same_pages_trans]].
  remember (S fuel) as n eqn:En. cbn [scan_list]. rewrite Hne, Hg. cbn [mbind res_bind]. rewrite (reads_ok _ get_the_first_tuple _ _ Hf).
  destruct (first_slot is_full (slots I i j) 0) as [k|]; [destruct Hsc as (t&->&Hsc)|destruct Hsc as [-> ->]];
    cbn [mbind res_bind]; [|by rewrite Hu].
  rewrite (reads_ok _ (scan_page _ _ _ _ _) _ _ Hf), Hsc. cbn [mbind res_bind].
  destruct (find_key tb_schema (key_bytes v) (slots I i j) 0) as [y|]; cbn [option_map]; [by rewrite Hu|].
  rewrite (reads_ok _ (λ p, get_next_page_id (data_ p)) _ _ Hf), Hnx. cbn [mbind res_bind]. unfold page_id_at. rewrite (reads_ok _ _ _ _ Hf), Hid. cbn [mbind res_bind].
  rewrite Hu. cbn [mbind res_bind]. by rewrite En.
Qed.

Lemma check_duplicate_ok b first I v :
  bpm_ok b → index b first I → key_ok v → frames 1 b →
  ∃ b', lk_ha_check_duplicate_key do_hash tb_schema first v b = Ok (locate I (key_bytes v), b') ∧ session b [] b' ∧ same_pages b b'.
Proof.
  intros Hok Hx Hv Hfr. pose proof (session_start b Hok) as Hs. unfold lk_ha_check_duplicate_key, locate.
  rewrite (key_hash do_hash v Hv). cbn [mbind res_bind]. fold (bucket (key_bytes v)).
  destruct (hash_to_slot_range (do_hash (key_bytes v))) as [Ri Rj]. fold (bucket (key_bytes v)) in Ri, Rj.
  destruct (bucket (key_bytes v)) as [i j] eqn:Eb. cbn [fst snd] in *.
  destruct (open_node 1 b [] b first I NFirst first) as (f1&b1&p1&Hg1&Hs1&S1&Hf1&_&_&D1&_); [done|done|apply Hx|apply not_elem_of_nil|done|cbn; lia|].
  rewrite Hg1. cbn [mbind res_bind]. rewrite (reads_ok _ _ _ _ Hf1), (get_slot_ok _ _ _ D1 Ri). cbn [mbind res_bind].
  destruct (close b first f1 false [] b1 false Hs1) as (b2&Hu2&Hs2&S2&_); [done|]. rewrite Hu2. cbn [mbind res_bind].
  pose proof (same_pages_trans _ _ _ S1 S2) as S12. pose proof (index_same _ _ _ _ S12 Hx) as Hx2.
  destruct (pg I (NSec i)) as [q2|] eqn:E2.
  2: { exists b2. split; [|by split]. destruct (pg I (NTab i j)) as [q|] eqn:E3; [|done].
       apply (ix_sec _ _ _ Hx) in E3 as [? E3]. congruence. }
  pose proof (link_some _ _ _ _ _ (ss_ok _ _ _ Hs2) Hx2 E2) as Hn2. rewrite E2 in Hn2. rewrite Hn2. change (link (Some q2)) with q2.
  destruct (open_node 1 b [] b2 first I (NSec i) q2) as (f3&b3&p3&Hg3&Hs3&S3&Hf3&_&_&D3&_); [done..|apply not_elem_of_nil|done|cbn; lia|].
  rewrite Hg3. cbn [mbind res_bind]. rewrite (reads_ok _ _ _ _ Hf3), (get_slot_ok _ _ _ D3 Rj). cbn [mbind res_bind].
  destruct (close b q2 f3 false [] b3 false Hs3) as (b4&Hu4&Hs4&S4&_); [done|]. rewrite Hu4. cbn [mbind res_bind].
  pose proof (same_pages_trans _ _ _ S12 (same_pages_trans _ _ _ S3 S4)) as S14. pose proof (index_same _ _ _ _ S14 Hx) as Hx4.
  destruct (pg I (NTab i j)) as [q|] eqn:E3; [|by exists b4].
  change (link (Some q)) with q. assert (∃ m, list_fuel b4 = S (S m)) as [m Hm].
  { unfold list_fuel. destruct (ix_page _ _ _ Hx4 _ _ E3) as [Ha _]. destruct (alloced b4) as [|? l]; [by apply not_elem_of_nil in Ha|]. cbn. eauto. }
  rewrite Hm. destruct (scan_list_ok b b4 first I i j q v m Hs4 Hx4 E3 Hv Hfr) as (b5&->&Hs5&S5).
  exists b5. split_and!; [|done|by eapply same_pages_trans]. cbn [mbind option_bind]. by destruct (find_key _ _ _ _).
Qed.

(** Looking a key up in the index returns the tuple stored under the key, with its
    position, or reports that there is none; no page changes, and every frame
    that could be had before can be had after. *)
Lemma lk_ha_get_ok b first I v t0 :
  bpm_ok b → index b first I → key_ok v → frames 1 b →
  ∃ c t b', lk_ha_get_tuple do_hash tb_schema first v t0 b = Ok (c, t, b') ∧
    match contents I (key_bytes v) with
    | Some bs => c = OP_SUCCESS ∧ tuple_ok t bs ∧ locate I (key_bytes v) = Some (t_rid t)
    | None => c = TUPLE_NOT_FOUND ∧ t = t0
    end ∧
    bpm_ok b' ∧ same_pages b b' ∧ index b' first I ∧ (∀ g, avail b g → avail b' g).
Proof.
  intros Hok Hx Hv Hfr. destruct (check_duplicate_ok b first I v Hok Hx Hv Hfr) as (b1&Hc&Hs1&S1).
  unfold lk_ha_get_tuple. rewrite Hc. cbn [mbind res_bind]. unfold contents, locate in *.
  destruct (bucket (key_bytes v)) as [i j] eqn:Eb. cbn [fst snd] in *. pose proof (index_same _ _ _ _ S1 Hx) as Hx1.
  destruct (find_key tb_schema (key_bytes v) (slots I i j) 0) as [[k bs]|] eqn:Ek.
  2: { assert ((q ← pg I (NTab i j); y ← @None (nat * bytes); Some (mkRID q (Z.of_nat y.1))) = None) as -> by (by destruct (pg I (NTab i j))).
       destruct (session_end _ _ Hs1). by exists TUPLE_NOT_FOUND, t0, b1. }
  destruct (pg I (NTab i j)) as [q|] eqn:Eq.
  2: { by rewrite (ix_none _ _ _ Hx i j Eq) in Ek. }
  cbn [mbind option_bind fst snd fmap option_fmap option_map rid_page_id].
  destruct (open_node 1 b [] b1 first I (NTab i j) q) as (f&b2&p&Hg&Hs2&S2&Hf&Hid&_&[Hr _]&_); [done..|apply not_elem_of_nil|done|cbn; lia|].
  rewrite Hg. cbn [mbind res_bind]. rewrite (reads_ok _ _ _ _ Hf).
  apply find_key_Some in Ek as (k'&del&->&Hk&Hkey). cbn [Nat.add]. destruct Hr as [offs Hr]. pose proof (rep_slots _ _ _ Hr) as Hn.
  pose proof (lookup_lt_Some _ _ _ Hk) as Hlt. pose proof (stored_small _ _ _ _ _ _ Hr Hk) as Hsm.
  rewrite (get_tuple_ok p (slots I i j)); [|by exists offs|cbn [rid_slot_num]; unfold slot_ok, zlen in *; lia].
  cbn [rid_slot_num mbind res_bind]. unfold slot_of. rewrite Nat2Z.id, Hk. cbn [mjoin option_join option_map].
  destruct (close b q f false [] b2 false Hs2) as (b3&->&Hs3&S3&_); [done|]. cbn [mbind res_bind].
  pose proof (same_pages_trans _ _ _ S1 (same_pages_trans _ _ _ S2 S3)) as S13. destruct (session_end _ _ Hs3).
  eexists _, _, b3. split; [done|]. split_and!; try done. by eapply index_same.
Qed.

(** ** Insertion *)

Definition add_node I n q : ix := mkIx (<[n := Some q]> (pg I)) (slots I).
Definition set_bucket I i j sl : ix := mkIx (pg I) (<[i := <[j := sl]> (slots I i)]> (slots I)).
(** the nodes that have children, and the child at a slot *)
Definition child (n : node) (s : Z) : node :=
  match n with NFirst => NSec s | NSec i => NTab i s | NTab i j => NTab i j end.
Definition is_dir (n : node) : Prop := match n with NTab _ _ => False | _ => True end.

Lemma add_node_eq I n q : pg (add_node I n q) n = Some q.
Proof. apply fn_lookup_insert. Qed.
Lemma add_node_ne I n m q : m ≠ n → pg (add_node I n q) m = pg I m.
Proof. intros. by apply fn_lookup_insert_ne. Qed.

Lemma child_ne n s : is_dir n → child n s ≠ n.
Proof. by destruct n. Qed.
Lemma child_inj n m s u : is_dir n → is_dir m → child n s = child m u → n = m ∧ s = u.
Proof. destruct n, m; cbn; naive_solver. Qed.

(** a directory page is about its children only *)
Lemma dir_children I n d : is_dir n → node_rep I n d ↔ dir_rep (λ s, link (pg I (child n s))) d.
Proof. by destruct n. Qed.
Lemma dir_rep_ext f g d : (∀ i, f i = g i) → dir_rep f d → dir_rep g d.
Proof. intros E H i Hi. rewrite <- E. by apply H. Qed.
Lemma node_rep_add I np s q m d : is_dir np → m ≠ np → m ≠ child np s → node_rep I m d → node_rep (add_node I (child np s) q) m d.
Proof.
  intros Hd Hm Hm2. destruct m as [|i|i j]; [| |done].
  - intros H. eapply dir_rep_ext; [|exact H]. intros k. cbn beta. rewrite add_node_ne; [done|]. destruct np; cbn [child]; [congruence..|done].
  - intros H. eapply dir_rep_ext; [|exact H]. intros k. cbn beta. rewrite add_node_ne; [done|]. destruct np; cbn [child]; [congruence..|done].
Qed.
Lemma node_rep_link I np s q d : is_dir np → dir_rep (<[s := q]> (λ s, link (pg I (child np s)))) d →
  node_rep (add_node I (child np s) q) np d.
Proof.
  intros Hd H. apply dir_children; [done|]. eapply dir_rep_ext; [|exact H]. intros u. cbn beta. destruct (decide (u = s)) as [->|Hne].
  - by rewrite fn_lookup_insert, add_node_eq.
  - rewrite fn_lookup_insert_ne by done. rewrite add_node_ne; [done|]. intros E. by apply child_inj in E as [_ ?].
Qed.

(** the index with one more page, linked from the directory page of [np] *)
Lemma index_add b b' first I np s q qp dp dn :
  index b first I → is_dir np → pg I np = Some qp → pg I (child np s) = None →
  q ∉ alloced b → alloced b' = oset_insert q (alloced b) →
  (∀ q', q' ∈ alloced b → q' ≠ qp → view b' q' = view b q') →
  view b' qp = Some (payload dp) → zlen dp = PAGE_SIZE → node_rep (add_node I (child np s) q) np dp →
  view b' q = Some (payload dn) → zlen dn = PAGE_SIZE → node_rep (add_node I (child np s) q) (child np s) dn →
  index b' first (add_node I (child np s) q).
Proof.
  intros Hx Hd Hqp Hnew Hq Hal Hvs Hvp Hlp Hrp Hvn Hln Hrn. pose proof Hx as [H1 H2 H3 H4 H5 H6 H7].
  assert (∀ n q', pg (add_node I (child np s) q) n = Some q' → (n = child np s ∧ q' = q) ∨ (n ≠ child np s ∧ pg I n = Some q' ∧ q' ≠ q)) as Hpg.
  { intros n q'. destruct (decide (n = child np s)) as [->|Hne]; [rewrite add_node_eq; intros [= <-]; by left|].
    rewrite add_node_ne by done. intros Hn. right. split_and!; [done..|]. intros ->. by destruct (H4 _ _ Hn). }
  constructor; try done.
  - rewrite add_node_ne; [done|]. by destruct np.
  - intros n m q' [[-> ->]|(_&Hn&Hne)]%Hpg [[-> E]|(_&Hm&Hne')]%Hpg; try done. by eapply H2.
  - intros i j q' Hij. apply Hpg in Hij as [[E ->]|(_&Hij&_)].
    + destruct np as [|i'|]; [done| |done]. injection E as -> ->. rewrite add_node_ne by done. eauto.
    + destruct (decide (NSec i = child np s)) as [->|]; [rewrite add_node_eq; eauto|rewrite add_node_ne by done; eauto].
  - intros n q' [[-> ->]|(Hne&Hn&Hne')]%Hpg; rewrite Hal, elem_of_oset_insert; [split; [by left|eauto]|].
    destruct (H4 n q' Hn) as (Ha&d&Hv&Hl&Hr). split; [by right|]. destruct (decide (n = np)) as [->|Hnp].
    { assert (q' = qp) as -> by congruence. eauto. }
    exists d. rewrite Hvs; [|done|intros ->; apply Hnp; by eapply H2]. split_and!; [done..|]. by apply node_rep_add.
  - intros i j Hij. apply H7. destruct (decide (NTab i j = child np s)) as [E|Hne]; [by rewrite E, add_node_eq in Hij|by rewrite add_node_ne in Hij].
Qed.

(** the index with other slots in one bucket *)
Lemma index_bucket b b' first I i j q d sl :
  index b first I → pg I (NTab i j) = Some q → alloced b' = alloced b →
  (∀ q', q' ∈ alloced b → q' ≠ q → view b' q' = view b q') →
  view b' q = Some (payload d) → zlen d = PAGE_SIZE → (∃ offs, rep_at d sl offs) → get_next_page_id d = Ok INVALID_PAGE_ID → rd32 d GAP_OFFSET = Ok 0 →
  bucket_ok tb_schema key_ok sl → (∀ n x k, sl !! n = Some (Some x) → key_of tb_schema x.2 = Some k → bucket k = (i, j)) →
  index b' first (set_bucket I i j sl).
Proof.
  intros Hx Hq Hal Hvs Hv Hl Hr Hn Hgap Hb Hh. pose proof Hx as [H1 H2 H3 H4 H5 H6 H7].
  assert (∀ i' j', (i' = i ∧ j' = j ∧ slots (set_bucket I i j sl) i' j' = sl) ∨
    ((i', j') ≠ (i, j) ∧ slots (set_bucket I i j sl) i' j' = slots I i' j')) as Hsl.
  { intros i' j'. cbn [slots set_bucket]. destruct (decide (i' = i)) as [->|]; [|right; rewrite fn_lookup_insert_ne by done; split; [congruence|done]].
    rewrite fn_lookup_insert. destruct (decide (j' = j)) as [->|]; [left; by rewrite fn_lookup_insert|].
    right. rewrite fn_lookup_insert_ne by done. split; [congruence|done]. }
  constructor; try done.
  - intros n q' Hn'. cbn [pg set_bucket] in Hn'. rewrite Hal. destruct (H4 n q' Hn') as (Ha&d'&Hv'&Hl'&Hr'). split; [done|].
    destruct (decide (n = NTab i j)) as [->|Hne].
    + assert (q' = q) as -> by congruence. exists d. split_and!; [done..|]. cbn [node_rep].
      destruct (Hsl i j) as [(_&_&->)|[? _]]; [by split|done].
    + exists d'. rewrite Hvs; [|done|intros ->; apply Hne; by eapply H2]. split_and!; [done..|].
      destruct n as [| |i' j']; [done..|]. cbn [node_rep] in *. destruct (Hsl i' j') as [(->&->&_)|[_ ->]]; [done|done].
  - intros i' j'. by destruct (Hsl i' j') as [(->&->&->)|[_ ->]].
  - intros i' j' n x k. destruct (Hsl i' j') as [(->&->&->)|[_ ->]]; [apply Hh|apply H6].
  - intros i' j' Hn'. destruct (Hsl i' j') as [(->&->&_)|[_ ->]]; [cbn in Hn'; congruence|by apply H7].
Qed.

(** the step of the insertion that follows a link of a directory page in frame [f1],
    or makes the page it should lead to *)
Definition attach (f1 s lnk : Z) (g : Page → res Page) b : res (Z * Z * bool * BPM) :=
  if lnk =? INVALID_PAGE_ID then
    let* (f2, b) := new_page b in
    id ← page_id_at f2 b;
    b ← changes_ f2 g b;
    b ← changes_data f1 (set_pgid_in_slot s id) b;
    Ok (f2, id, true, b)
  else
    let* (f2, b) := page_ptr lnk b in
    Ok (f2, lnk, false, b).

Definition is_new I n : bool := match pg I n with Some _ => false | None => true end.

(** changing the page held first *)
Lemma put_first b0 q f m H b p d : session b0 (mkHold q f m :: H) b → frame b f = Ok p → zlen d = PAGE_SIZE →
  rd8 d STATUS_OFFSET = rd8 (data_ p) STATUS_OFFSET →
  session b0 (mkHold q f true :: H) (set_frame b f (set_data p d)) ∧
  alloced (set_frame b f (set_data p d)) = alloced b ∧ view (set_frame b f (set_data p d)) q = Some (payload d) ∧
  (∀ q', q' ∈ alloced b → q' ≠ q → view (set_frame b f (set_data p d)) q' = view b q') ∧
  frame (set_frame b f (set_data p d)) f = Ok (set_data p d) ∧
  (∀ h p', h ∈ H → frame b (h_frame h) = Ok p' → frame (set_frame b f (set_data p d)) (h_frame h) = Ok p').
Proof.
  intros Hs Hf Hl Hst. destruct (session_put b0 [] q f m H b p d Hs Hf Hl Hst) as (?&_&?&?&?&?). by split_and!.
Qed.

Lemma attach_ok np s f1 q1 m1 b0 b first I p1 g :
  session b0 [mkHold q1 f1 m1] b → index b first I → is_dir np → pg I np = Some q1 → in_dir s →
  frame b f1 = Ok p1 → node_rep I np (data_ p1) → frames 2 b0 →
  2 * max_ava_pgid_ (dm (disk_manager_ b)) ≤ MAX_INT_PAGES →
  (∀ p q, pg I (child np s) = None → page_ok p → ∃ d, g p = Ok (set_data p d) ∧ zlen d = PAGE_SIZE ∧
     rd8 d STATUS_OFFSET = rd8 (data_ p) STATUS_OFFSET ∧ node_rep (add_node I (child np s) q) (child np s) d) →
  ∃ f2 q2 b' p2 I', attach f1 s (link (pg I (child np s))) g b = Ok (f2, q2, is_new I (child np s), b') ∧
    session b0 [mkHold q2 f2 (is_new I (child np s)); mkHold q1 f1 (m1 || is_new I (child np s))] b' ∧
    index b' first I' ∧ pg I' (child np s) = Some q2 ∧ slots I' = slots I ∧ (∀ n, n ≠ child np s → pg I' n = pg I n) ∧
    frame b' f2 = Ok p2 ∧ page_id_ p2 = q2 ∧ node_rep I' (child np s) (data_ p2) ∧
    (∀ q, q ∈ alloced b → q ∈ alloced b' ∧ (q ≠ q1 → view b' q = view b q)) ∧
    (pg I (child np s) = Some q2 ∨ q2 ∉ alloced b) ∧
    max_ava_pgid_ (dm (disk_manager_ b')) ≤ 2 * max_ava_pgid_ (dm (disk_manager_ b)).
Proof.
  intros Hs Hx Hd Hnp Hsd Hf1 Hr1 Hfr Hmax Hg. unfold attach, is_new.
  assert (zlen (data_ p1) = PAGE_SIZE) as Hl1 by (apply (frame_page_ok b f1); [apply Hs|done]).
  pose proof (alloced_pos _ _ (ss_ok _ _ _ Hs) (proj1 (ix_page _ _ _ Hx _ _ Hnp))) as Hpos.
  destruct (pg I (child np s)) as [q2|] eqn:Ec.
  - pose proof (link_some _ _ _ _ _ (ss_ok _ _ _ Hs) Hx Ec) as Hne. rewrite Ec in Hne. rewrite Hne. change (link (Some q2)) with q2.
    destruct (open_node 2 b0 [mkHold q1 f1 m1] b first I (child np s) q2) as (f2&b'&p2&->&Hs2&S2&Hf2&Hid&_&Hr2&_); [done..| |done|cbn; lia|].
    { intros E%list_elem_of_singleton. cbn in E. subst q2. apply (child_ne np s Hd). by eapply (ix_inj _ _ _ Hx). }
    cbn [mbind res_bind]. exists f2, q2, b', p2, I. rewrite orb_false_r. split_and!; try done; [by eapply index_same| |by left|].
    { intros q Hq. rewrite (same_pages_alloced _ _ S2). split; [done|]. intros _. by apply S2. }
    destruct S2 as [-> _]. lia.
  - change (link None =? INVALID_PAGE_ID) with true. cbn iota.
    destruct (session_new 2 b0 _ b STATUS_EXIST Hs Hfr) as (f2&b1&p2&Hn&Hs1&Hf2&Hni&Ha1&Hv1&Hw1&Hmx&Hfs1); [cbn; lia|done|].
    unfold new_page. rewrite Hn. cbn [mbind res_bind]. unfold page_id_at. rewrite (reads_ok _ _ _ _ Hf2). cbn [mbind res_bind].
    set (q2 := page_id_ p2) in *. assert (q2 ≠ q1) as Hne by (intros E; apply Hni; rewrite E; apply (ix_page _ _ _ Hx _ _ Hnp)).
    assert (page_ok p2) as Hp2 by (apply (frame_page_ok b1 f2); [apply Hs1|done]).
    destruct (Hg p2 q2 eq_refl Hp2) as (d2&Hgd&Hl2&Hst2&Hr2).
    unfold changes_ at 1. rewrite Hf2. cbn [mbind res_bind]. rewrite Hgd. cbn [mbind res_bind].
    destruct (put_first _ _ _ _ _ _ _ d2 Hs1 Hf2 Hl2 Hst2) as (Hs2&Ha2&Hw2&Hv2&Hf2'&Hfs2). set (b2 := set_frame b1 f2 _) in *.
    assert (frame b2 f1 = Ok p1) as Hf1' by (apply (Hfs2 (mkHold q1 f1 m1)); [by left|]; apply (Hfs1 (mkHold q1 f1 m1)); [by left|done]).
    assert (in32 q2) as Hq2.
    { pose proof (alloced_pos b1 q2 (ss_ok _ _ _ Hs1)) as Hal. rewrite Ha1, elem_of_oset_insert in Hal. specialize (Hal (or_introl eq_refl)).
      unfold MAX_INT_PAGES in Hmax. cfg_lia. }
    destruct (set_slot_ok _ _ s q2 (proj1 (dir_children I np _ Hd) Hr1) Hsd Hq2 Hl1) as (d1&Hset&Hl1'&Hr1'&Hst1).
    unfold changes_data, changes_. rewrite Hf1'. cbn [mbind res_bind]. rewrite Hset. cbn [mbind res_bind].
    destruct (session_put b0 [mkHold q2 f2 true] q1 f1 m1 [] b2 p1 d1 Hs2 Hf1' Hl1' Hst1) as (Hs3&Hdm3&Hw3&Hv3&Hf3&Hfs3).
    set (b3 := set_frame b2 f1 _) in *. assert (alloced b3 = alloced b2) as Ha3 by (unfold alloced; by rewrite Hdm3).
    exists f2, q2, b3, (set_data p2 d2), (add_node I (child np s) q2). rewrite orb_true_r.
    assert (∀ q, q ∈ alloced b → q ∈ alloced b3 ∧ (q ≠ q1 → view b3 q = view b q)) as Hold.
    { intros q' Hq'. assert (q' ∈ alloced b1) by (rewrite Ha1, elem_of_oset_insert; by right). split; [congruence|]. intros Hq'1.
      rewrite Hv3, Hv2, Hv1; [done..|by intros ->|congruence|done]. }
    split_and!; try done; [|by rewrite add_node_eq|by intros; apply add_node_ne|by apply (Hfs3 (mkHold q2 f2 true)); [left|]|by right].
    apply (index_add b b3 first I np s q2 q1 d1 d2); try done.
    + intros q' Hq' Hq'1. by apply Hold.
    + by apply node_rep_link.
    + rewrite Hv3; [done| |done]. rewrite Ha2, Ha1, elem_of_oset_insert. by left.
Qed.

(** the insertion, with its two steps down the directory named *)
Definition link_page (p : Page) : res Page := d ← LinkHashPage_init (data_ p); Ok (set_data p d).
Lemma insert_unfold first t b : lk_ha_insert_tuple do_hash tb_schema first t b =
  (key_value ← get_value t tb_schema (key_idx_ tb_schema);
   let* (dup, b) := lk_ha_check_duplicate_key do_hash tb_schema first key_value b in
   match dup with
   | Some _ => Ok (DUP_KEY, t, b)
   | None =>
       hash_val ← get_hash_value do_hash key_value;
       let '(i, j) := hash_to_slot hash_val in
       let* (f1, b) := page_ptr first b in
       q2 ← reads f1 (λ p, get_pgid_in_slot i (data_ p)) b;
       let* (f2, q2, dirty1, b) := attach f1 i q2 link_page b in
       b ← unpin_page first dirty1 b;
       q3 ← reads f2 (λ p, get_pgid_in_slot j (data_ p)) b;
       let* (f3, q3, dirty2, b) := attach f2 j q3 (init INVALID_PAGE_ID INVALID_PAGE_ID) b in
       b ← unpin_page q2 dirty2 b;
       let* (rid, b) := insert_loop (S (list_fuel b)) t f3 q3 b in
       Ok (OP_SUCCESS, set_rid t rid, b)
   end).
Proof. reflexivity. Qed.

Lemma link_page_ok I i q p : pg I (NSec i) = None → (∀ j, pg I (NTab i j) = None) → page_ok p →
  ∃ d, link_page p = Ok (set_data p d) ∧ zlen d = PAGE_SIZE ∧ rd8 d STATUS_OFFSET = rd8 (data_ p) STATUS_OFFSET ∧
    node_rep (add_node I (NSec i) q) (NSec i) d.
Proof.
  intros _ Hn Hp. destruct (LinkHashPage_init_ok (data_ p) Hp) as (d&H&Hl&Hr&Hst). exists d. unfold link_page. rewrite H.
  split_and!; [done..|]. intros j Hj. rewrite add_node_ne, Hn by done. by apply Hr.
Qed.
Lemma bucket_page_ok I i j q p : slots I i j = [] → page_ok p →
  ∃ d, init INVALID_PAGE_ID INVALID_PAGE_ID p = Ok (set_data p d) ∧ zlen d = PAGE_SIZE ∧
    rd8 d STATUS_OFFSET = rd8 (data_ p) STATUS_OFFSET ∧ node_rep (add_node I (NTab i j) q) (NTab i j) d.
Proof.
  intros Hs Hp. destruct (init_ok INVALID_PAGE_ID INVALID_PAGE_ID p Hp) as (p'&H&[offs Hr]&_&_&Hn); [cfg_lia..|].
  destruct (init_header _ _ _ _ Hp H) as (d&->&Hst&Hgap). exists d. cbn [data_ set_data] in *. split_and!; try done.
  - apply Hr.
  - cbn [node_rep slots add_node]. rewrite Hs. eauto.
Qed.

(** the last step: the tuple goes into the page of its bucket, and the page is unpinned *)
Lemma insert_loop_ok b0 b first I i j q f m p t bs n fuel :
  session b0 [mkHold q f m] b → index b first I → pg I (NTab i j) = Some q → frame b f = Ok p → page_id_ p = q →
  node_rep I (NTab i j) (data_ p) → tuple_ok t bs → insert_pre (slots I i j) bs → (spec_insert (slots I i j) bs).2 = Some n →
  bucket_ok tb_schema key_ok (spec_insert (slots I i j) bs).1 →
  (∀ n x k, (spec_insert (slots I i j) bs).1 !! n = Some (Some x) → key_of tb_schema x.2 = Some k → bucket k = (i, j)) →
  ∃ b', insert_loop (S fuel) t f q b = Ok (mkRID q (Z.of_nat n), b') ∧ session b0 [] b' ∧
    index b' first (set_bucket I i j (spec_insert (slots I i j) bs).1) ∧ (∀ q', q' ∈ alloced b → q' ≠ q → view b' q' = view b q').
Proof.
  intros Hs Hx Hq Hf Hid (Hr&Hnx&Hgap) Ht Hpre Hn Hb Hh. destruct (insert_tuple_ok p (slots I i j) t bs Hr Ht Hpre) as (p'&Hi&Hr'&_).
  rewrite Hn, Hid in Hi. cbn [option_map] in Hi. destruct (insert_tuple_low p _ t bs (mkRID q (Z.of_nat n)) _ Hr Ht (Nat2Z.is_nonneg n) Hi) as (d&->&[Hl Hlow]).
  cbn [insert_loop]. unfold changes. rewrite Hf. cbn [mbind res_bind]. rewrite Hi. cbn [mbind res_bind].
  assert (zlen (data_ p) = PAGE_SIZE) as Hz by (apply (frame_page_ok b f); [apply Hs|done]).
  destruct (put_first b0 q f m [] b p d Hs Hf) as (Hs1&Ha1&Hw1&Hv1&_); [congruence|unfold rd8; rewrite Hlow; [done|tp_lia]|].
  destruct (close b0 q f true [] _ true Hs1) as (b2&->&Hs2&S2&_); [done|]. cbn [mbind res_bind]. exists b2. split_and!; [done|done| |].
  - apply (index_same _ _ _ _ S2). apply (index_bucket b _ first I i j q d); try done; [congruence|..].
    + unfold get_next_page_id. rewrite (rd32_ext (data_ p) d); [done|]. apply Hlow. tp_lia.
    + unfold GAP_OFFSET in *. rewrite (rd32_ext (data_ p) d); [done|]. apply Hlow. tp_lia.
  - intros q' Hq' Hne. rewrite (proj2 S2) by (by rewrite Ha1). by apply Hv1.
Qed.

Lemma find_key_agree k sl sl' : bucket_ok tb_schema key_ok sl → bucket_ok tb_schema key_ok sl' →
  (∀ m x, key_of tb_schema x.2 = Some k → sl !! m = Some (Some x) ↔ sl' !! m = Some (Some x)) →
  find_key tb_schema k sl' 0 = find_key tb_schema k sl 0.
Proof.
  intros Hb Hb' Hag. destruct (find_key tb_schema k sl 0) as [[m bs]|] eqn:E.
  - apply find_key_Some in E as (m'&del&->&Hm&Hk). eapply (find_key_at tb_schema key_ok k sl' m' del bs Hb'); [|done]. by apply Hag.
  - apply find_key_None. intros m x Hm Hk. rewrite find_key_None in E. apply (E m x); [|done]. by apply Hag.
Qed.

Lemma bucket_insert_ok sl k bs n : bucket_ok tb_schema key_ok sl → has_key tb_schema key_ok k bs →
  find_key tb_schema k sl 0 = None → (spec_insert sl bs).2 = Some n →
  bucket_ok tb_schema key_ok (spec_insert sl bs).1 ∧ find_key tb_schema k (spec_insert sl bs).1 0 = Some (n, bs) ∧
  ∀ k', k' ≠ k → find_key tb_schema k' (spec_insert sl bs).1 0 = find_key tb_schema k' sl 0.
Proof.
  intros Hb Hk Hf Hn. destruct (spec_insert_slots sl bs n Hn) as [Hfree Hsl]. pose proof (has_key_of _ _ _ _ Hk) as Hkb.
  rewrite find_key_None in Hf. assert (bucket_ok tb_schema key_ok (spec_insert sl bs).1) as Hb'.
  { constructor.
    - intros m x [[-> ->]|[_ Hm]]%Hsl; [split; [done|by exists k]|by apply (bk_key _ _ _ Hb m x)].
    - intros m m' x y [[-> ->]|[Hmn Hm]]%Hsl [[-> ->]|[Hmn' Hm']]%Hsl E; cbn [snd] in *; [done| | |by eapply (bk_uniq _ _ _ Hb)];
        exfalso; [apply (Hf m' y)|apply (Hf m x)]; congruence. }
  split_and!; [done| |].
  - apply (find_key_at tb_schema key_ok k _ n false bs Hb'); [|done]. apply Hsl. by left.
  - intros k' Hne. apply find_key_agree; [done..|]. intros m x Hx. rewrite Hsl. split; [|naive_solver congruence].
    intros Hm. right. split; [|done]. intros ->. by apply (Hfree x).
Qed.

(** there is room for the tuple in the page of its bucket *)
Definition room I (k bs : bytes) : Prop :=
  insert_pre (slots I (bucket k).1 (bucket k).2) bs ∧ is_Some (spec_insert (slots I (bucket k).1 (bucket k).2) bs).2.

Lemma contents_insert I I1 i j k bs n : slots I1 = slots I → bucket k = (i, j) → bucket_ok tb_schema key_ok (slots I i j) →
  has_key tb_schema key_ok k bs → find_key tb_schema k (slots I i j) 0 = None → (spec_insert (slots I i j) bs).2 = Some n →
  ∀ k', contents (set_bucket I1 i j (spec_insert (slots I i j) bs).1) k' = if decide (k' = k) then Some bs else contents I k'.
Proof.
  intros Hs Hbk Hb Hk Hf Hn k'. destruct (bucket_insert_ok _ k bs n Hb Hk Hf Hn) as (_&Hi&Ho). unfold contents. cbn [slots set_bucket].
  case_decide as E; [subst k'; rewrite Hbk; cbn [fst snd]; by rewrite !fn_lookup_insert, Hi|].
  destruct (bucket k') as [i' j'] eqn:Eb. cbn [fst snd]. rewrite Hs. destruct (decide (i' = i)) as [->|Hi']; [|by rewrite fn_lookup_insert_ne].
  rewrite fn_lookup_insert. destruct (decide (j' = j)) as [->|Hj']; [|by rewrite fn_lookup_insert_ne].
  rewrite fn_lookup_insert. by rewrite Ho.
Qed.

(** Inserting into the index: a tuple whose key is already there is refused and no
    page changes; otherwise, when the page of its bucket has room, the missing
    directory and bucket pages are made, the map stored is the old one with the
    tuple added under its key, the position returned is where the tuple is found,
    pages outside the index keep their contents and no frame is lost. *)
Lemma lk_ha_insert_ok b first I t k bs :
  bpm_ok b → index b first I → frames 2 b → 4 * max_ava_pgid_ (dm (disk_manager_ b)) ≤ MAX_INT_PAGES →
  tuple_ok t bs → has_key tb_schema key_ok k bs → (contents I k = None → room I k bs) →
  ∃ c rid b' I', lk_ha_insert_tuple do_hash tb_schema first t b = Ok (c, set_rid t rid, b') ∧
    bpm_ok b' ∧ index b' first I' ∧ (∀ g, avail b g → avail b' g) ∧
    match contents I k with
    | Some _ => c = DUP_KEY ∧ rid = t_rid t ∧ I' = I ∧ same_pages b b'
    | None => c = OP_SUCCESS ∧ locate I' k = Some rid ∧
        slots I' = slots (set_bucket I (bucket k).1 (bucket k).2 (spec_insert (slots I (bucket k).1 (bucket k).2) bs).1) ∧
        (∀ n, is_Some (pg I' n) ↔ is_Some (pg I n) ∨ n = NSec (bucket k).1 ∨ n = NTab (bucket k).1 (bucket k).2) ∧
        (∀ k', contents I' k' = if decide (k' = k) then Some bs else contents I k') ∧
        (∀ q, q ∈ alloced b → (∀ n, pg I n ≠ Some q) → view b' q = view b q)
    end.
Proof.
  intros Hok Hx Hfr Hmax Ht Hk Hroom. pose proof Hk as (v&Hv&Hvk&Hkb). pose proof (do_ava _ (bo_disk _ _ Hok)) as Hpos.
  assert (frames 1 b) as Hfr1 by (eapply (frames_less 2); [lia|done]).
  rewrite insert_unfold, (get_value_data _ _ bs) by apply Ht. rewrite Hv. cbn [mbind res_bind].
  destruct (check_duplicate_ok b first I v Hok Hx Hvk Hfr1) as (b1&->&Hs1&S1). cbn [mbind res_bind]. rewrite (key_hash do_hash v Hvk), Hkb.
  cbn [mbind res_bind]. fold (bucket k). destruct (hash_to_slot_range (do_hash k)) as [Ri Rj]. fold (bucket k) in Ri, Rj.
  unfold locate, contents, room in *. destruct (bucket k) as [i j] eqn:Eb. cbn [fst snd] in *. pose proof (index_same _ _ _ _ S1 Hx) as Hx1.
  destruct (find_key tb_schema k (slots I i j) 0) as [y|] eqn:Ef.
  { clear Hroom. destruct (pg I (NTab i j)) as [q|] eqn:Eq; [|by rewrite (ix_none _ _ _ Hx i j Eq) in Ef].
    cbn [mbind option_bind fmap option_fmap option_map]. destruct (session_end _ _ Hs1) as [? ?].
    exists DUP_KEY, (t_rid t), b1, I. split_and!; try done. by destruct t. }
  assert (∀ o : option Z, (q ← o; y ← @None (nat * bytes); Some (mkRID q (Z.of_nat y.1))) = None) as -> by (by intros []).
  cbn [fmap option_fmap option_map] in *. destruct (Hroom eq_refl) as [Hpre [n Hn]]. clear Hroom.
  destruct (bucket_insert_ok _ k bs n (ix_bucket _ _ _ Hx i j) Hk Ef Hn) as (Hb'&Hfi&_).
  destruct (open_node 2 b [] b1 first I NFirst first) as (f1&b2&p1&->&Hs2&S2&Hf1&_&_&D1&_); [done|done|apply Hx|apply not_elem_of_nil|done|cbn; lia|].
  cbn [mbind res_bind]. rewrite (reads_ok _ _ _ _ Hf1), (get_slot_ok _ _ _ D1 Ri). cbn [mbind res_bind].
  pose proof (same_pages_trans _ _ _ S1 S2) as S12. pose proof (index_same _ _ _ _ S12 Hx) as Hx2.
  destruct (attach_ok NFirst i f1 first false b b2 first I p1 link_page) as (f2&q2&b3&p2&I2&Hat&Hs3&Hx3&Hq2&Hsl3&Hpg3&Hf2&_&D2&Hold3&Hfresh3&Hmx3);
    [done..|apply Hx|done|done|done|done|destruct S12 as [-> _]; lia| |].
  { intros p q Hnone Hp. apply link_page_ok; [done| |done]. intros j'. destruct (pg I (NTab i j')) as [q'|] eqn:E'; [|done].
    apply (ix_sec _ _ _ Hx) in E' as [? E']. cbn [child] in Hnone. congruence. }
  cbn [child] in *. rewrite Hat. cbn [mbind res_bind].
  destruct (session_unpin b [mkHold q2 f2 (is_new I (NSec i))] first f1 _ [] b3 (is_new I (NSec i)) Hs3) as (b4&->&Hs4&Hdm4&Hv4&Hfs4&_); [done|].
  cbn [mbind res_bind]. assert (same_pages b3 b4) as S4 by done. pose proof (index_same _ _ _ _ S4 Hx3) as Hx4.
  assert (frame b4 f2 = Ok p2) as Hf2' by (apply (Hfs4 (mkHold q2 f2 (is_new I (NSec i)))); [by left|done]).
  rewrite (reads_ok _ _ _ _ Hf2'), (get_slot_ok _ _ _ D2 Rj). cbn [mbind res_bind].
  destruct (attach_ok (NSec i) j f2 q2 (is_new I (NSec i)) b b4 first I2 p2 (init INVALID_PAGE_ID INVALID_PAGE_ID))
    as (f3&q3&b5&p3&I3&Hat5&Hs5&Hx5&Hq3&Hsl5&Hpg5&Hf3&Hid3&D3&Hold5&Hfresh5&Hmx5); [done..|rewrite Hdm4; destruct S12 as [E _]; rewrite E in Hmx3; lia| |].
  { intros p q Hnone Hp. apply bucket_page_ok; [|done]. by apply (ix_none _ _ _ Hx4). }
  cbn [child] in *. rewrite Hat5. cbn [mbind res_bind].
  destruct (session_unpin b [mkHold q3 f3 (is_new I2 (NTab i j))] q2 f2 _ [] b5 (is_new I2 (NTab i j)) Hs5) as (b6&->&Hs6&Hdm6&Hv6&Hfs6&_).
  { unfold is_new. rewrite Hpg3 by done. destruct (pg I (NTab i j)) as [q|] eqn:E; [|by destruct (pg I (NSec i))].
    apply (ix_sec _ _ _ Hx) in E as [? ->]. done. }
  cbn [mbind res_bind]. assert (same_pages b5 b6) as S6 by done. pose proof (index_same _ _ _ _ S6 Hx5) as Hx6.
  assert (frame b6 f3 = Ok p3) as Hf3' by (apply (Hfs6 (mkHold q3 f3 (is_new I2 (NTab i j)))); [by left|done]).
  assert (slots I3 = slots I) as Hsl by congruence. rewrite <- Hsl in Hb', Hpre, Hn, Hfi, Ef |- *.
  destruct (insert_loop_ok b b6 first I3 i j q3 f3 (is_new I2 (NTab i j)) p3 t bs n (list_fuel b6)) as (b7&->&Hs7&Hx7&Hold7); try done.
  { intros m x k' Hm Hk'. apply (spec_insert_slots _ _ _ Hn) in Hm as [[-> ->]|[_ Hm]]; [|by eapply (ix_hash _ _ _ Hx6)].
    cbn [snd] in Hk'. rewrite (has_key_of _ _ _ _ Hk) in Hk'. injection Hk' as <-. done. }
  cbn [mbind res_bind]. destruct (session_end _ _ Hs7) as [? ?]. eexists OP_SUCCESS, _, b7, _. split; [done|]. split_and!; try done.
  - cbn [pg set_bucket slots]. rewrite Hq3, !fn_lookup_insert. cbn [mbind option_bind]. by rewrite Hfi.
  - cbn [slots set_bucket]. by rewrite Hsl.
  - intros n'. cbn [pg set_bucket]. destruct (decide (n' = NTab i j)) as [->|]; [rewrite Hq3; naive_solver|]. rewrite Hpg5 by done.
    destruct (decide (n' = NSec i)) as [->|]; [rewrite Hq2; naive_solver|]. rewrite Hpg3 by done. naive_solver.
  - apply (contents_insert I3 I3 i j k bs n); try done. apply Hx6.
  - intros q Hq Hnot. assert (q ∈ alloced b2) as H2 by (by rewrite (same_pages_alloced _ _ S12)).
    destruct (Hold3 q H2) as [H3 V3]. assert (q ∈ alloced b4) as H4 by (by rewrite (same_pages_alloced _ _ S4)).
    destruct (Hold5 q H4) as [H5 V5]. rewrite Hold7, Hv6, V5, Hv4, V3; try done; [by apply S12| | | |].
    + intros ->. by apply (Hnot NFirst), Hx.
    + intros ->. destruct Hfresh3 as [E|E]; [by apply (Hnot (NSec i))|done].
    + by rewrite (same_pages_alloced _ _ S6).
    + intros ->. destruct Hfresh5 as [E|E]; [rewrite Hpg3 in E by done; by apply (Hnot (NTab i j))|done].
Qed.

(** ** Deletion *)

Lemma bucket_delete_ok sl k n bs : bucket_ok tb_schema key_ok sl → find_key tb_schema k sl 0 = Some (n, bs) →
  bucket_ok tb_schema key_ok (<[n := None]> sl) ∧
  (∀ m x, <[n := None]> sl !! m = Some (Some x) ↔ m ≠ n ∧ sl !! m = Some (Some x)) ∧
  ∀ k', find_key tb_schema k' (<[n := None]> sl) 0 = if decide (k' = k) then None else find_key tb_schema k' sl 0.
Proof.
  intros Hb Hf. apply find_key_Some in Hf as (n'&del&->&Hn&Hk). cbn [Nat.add] in *.
  assert (∀ m x, <[n' := None]> sl !! m = Some (Some x) ↔ m ≠ n' ∧ sl !! m = Some (Some x)) as Hsl.
  { intros m x. destruct (decide (m = n')) as [->|Hne].
    - rewrite list_lookup_insert_eq by (by eapply lookup_lt_Some). naive_solver.
    - rewrite list_lookup_insert_ne by done. naive_solver. }
  assert (bucket_ok tb_schema key_ok (<[n' := None]> sl)) as Hb'.
  { constructor.
    - intros m x [_ Hm]%Hsl. by apply (bk_key _ _ _ Hb m x).
    - intros m m' x y [_ Hm]%Hsl [_ Hm']%Hsl. by apply (bk_uniq _ _ _ Hb). }
  split_and!; [done..|]. intros k'. case_decide as E.
  - subst k'. apply find_key_None. intros m x [Hne Hm]%Hsl Hx. apply Hne. eapply (bk_uniq _ _ _ Hb); [done..|]. cbn [snd]. congruence.
  - apply find_key_agree; [done..|]. intros m x Hx. rewrite Hsl. split; [|naive_solver]. intros Hm. split; [|done]. intros ->.
    rewrite Hn in Hm. injection Hm as <-. cbn [snd] in Hx. congruence.
Qed.

(** the index without the key *)
Definition remove I (k : bytes) : ix :=
  match find_key tb_schema k (slots I (bucket k).1 (bucket k).2) 0 with
  | Some (n, _) => set_bucket I (bucket k).1 (bucket k).2 (<[n := None]> (slots I (bucket k).1 (bucket k).2))
  | None => I
  end.
Lemma contents_remove b first I k k' : index b first I → contents (remove I k) k' = if decide (k' = k) then None else contents I k'.
Proof.
  intros Hx. unfold contents, remove. destruct (bucket k) as [i j] eqn:Eb. cbn [fst snd].
  destruct (find_key tb_schema k (slots I i j) 0) as [[n bs]|] eqn:Ef.
  2: { case_decide as E; [subst k'; by rewrite Eb; cbn [fst snd]; rewrite Ef|done]. }
  destruct (bucket_delete_ok _ _ _ _ (ix_bucket _ _ _ Hx i j) Ef) as (_&_&Hd). cbn [slots set_bucket].
  destruct (bucket k') as [i' j'] eqn:Eb'. cbn [fst snd].
  assert ((i', j') = (i, j) ∨ (i', j') ≠ (i, j)) as [E|Hne] by (destruct (decide ((i', j') = (i, j))); auto).
  - injection E as -> ->. rewrite !fn_lookup_insert, Hd. by case_decide.
  - rewrite decide_False by congruence. destruct (decide (i' = i)) as [->|]; [|by rewrite fn_lookup_insert_ne].
    rewrite fn_lookup_insert, fn_lookup_insert_ne; [done|]. intros <-. by apply Hne.
Qed.

Definition stored_count (sl : list slot) : Z := zlen (filter (λ s, is_full s = true) sl).
Lemma stored_count_delete (sl : list slot) n x : sl !! n = Some (Some x) → stored_count (<[n := None]> sl) = stored_count sl - 1.
Proof.
  intros Hn. unfold stored_count. apply list_elem_of_split_length in Hn as (l1&l2&->&->).
  rewrite insert_app_r_alt by lia. rewrite Nat.sub_diag. cbn [insert list_insert].
  rewrite !filter_app, !filter_cons. rewrite decide_False by done. rewrite decide_True by done. unfold zlen. rewrite !length_app. cbn [length]. lia.
Qed.

(** deleting a key that is not the last one of its bucket *)
Lemma lk_ha_delete_ok b first I v :
  bpm_ok b → index b first I → key_ok v → frames 1 b →
  stored_count (slots I (bucket (key_bytes v)).1 (bucket (key_bytes v)).2) ≠ 1 ∨ contents I (key_bytes v) = None →
  ∃ b', lk_ha_apply_delete do_hash tb_schema first v b = Ok b' ∧ bpm_ok b' ∧ index b' first (remove I (key_bytes v)) ∧
    (∀ g, avail b g → avail b' g) ∧ dm (disk_manager_ b') = dm (disk_manager_ b) ∧
    (∀ q, q ∈ alloced b → (∀ n, pg I n ≠ Some q) → view b' q = view b q).
Proof.
  intros Hok Hx Hv Hfr Hlast. destruct (lk_ha_get_ok b first I v Tuple_default Hok Hx Hv Hfr) as (c&t&b1&Hg&Hc&Hok1&S1&Hx1&Hav1).
  unfold lk_ha_apply_delete. rewrite Hg. cbn [mbind res_bind]. unfold contents, locate, remove in *.
  destruct (bucket (key_bytes v)) as [i j] eqn:Eb. cbn [fst snd] in *.
  destruct (find_key tb_schema (key_bytes v) (slots I i j) 0) as [[n bs]|] eqn:Ef; cbn [fmap option_fmap option_map snd] in Hc.
  2: { destruct Hc as [-> _]. exists b1. split_and!; try done; [apply S1|]. intros q Hq _. by apply S1. }
  destruct Hlast as [Hlast|?]; [|done]. destruct Hc as (->&Ht&Hl). change (negb (OP_SUCCESS =? OP_SUCCESS)) with false. cbn iota.
  destruct (pg I (NTab i j)) as [q|] eqn:Eq; [|done]. cbn [mbind option_bind fst] in Hl. injection Hl as Hl. rewrite <- Hl. cbn [rid_page_id].
  assert (frames 1 b1) as Hfr1 by (by eapply frames_keep).
  destruct (open_node 1 b1 [] b1 first I (NTab i j) q) as (f&b2&p&->&Hs2&S2&Hf&Hid&Hz&(Hr&Hnx&Hgap)&_);
    [by apply session_start|done|done|apply not_elem_of_nil|done|cbn; lia|].
  destruct (bucket_delete_ok _ _ _ _ (ix_bucket _ _ _ Hx i j) Ef) as (Hb'&Hsl'&_).
  apply find_key_Some in Ef as (n'&del&->&Hn&Hk). cbn [Nat.add] in *. pose proof Hr as [offs Hr0]. pose proof (rep_slots _ _ _ Hr0) as Hns.
  pose proof (lookup_lt_Some _ _ _ Hn) as Hlt. set (rid := mkRID q (Z.of_nat n')) in *.
  assert (slot_of (slots I i j) (rid_slot_num rid) = Some (del, bs)) as Hso by (unfold slot_of; cbn; by rewrite Nat2Z.id, Hn).
  destruct (apply_delete_ok p (slots I i j) rid del bs Hr) as (p'&Hap&Hr'&_); [cbn; unfold slot_ok, zlen in *; lia|done|].
  destruct (apply_delete_low p (slots I i j) rid del bs p' Hr) as (d&->&[Hl' Hlow]); [cbn; lia|done|done|].
  cbn [mbind res_bind]. unfold changes_. rewrite Hf. cbn [mbind res_bind]. rewrite Hap. cbn [mbind res_bind].
  destruct (put_first b1 q f false [] b2 p d Hs2 Hf) as (Hs3&Ha3&Hw3&Hv3&Hf3&_); [congruence|unfold rd8; rewrite Hlow; [done|tp_lia]|].
  rewrite (reads_ok _ _ _ _ Hf3), (stored_ok _ _ Hr'). cbn [mbind res_bind]. cbn [rid_slot_num rid]. rewrite Nat2Z.id.
  destruct (close b1 q f true [] _ true Hs3) as (b4&->&Hs4&S4&_); [done|]. cbn [mbind res_bind].
  fold (stored_count (<[n' := None]> (slots I i j))). rewrite (stored_count_delete _ _ _ Hn), (proj2 (Z.eqb_neq _ _)) by lia.
  destruct (session_end _ _ Hs4) as [Hok4 Hav4]. exists b4. split_and!; [done|done| |by auto| |].
  - apply (index_same _ _ _ _ S4). apply (index_bucket b1 _ first I i j q d); try done.
    + rewrite Ha3. by apply same_pages_alloced.
    + intros q' Hq' Hne. rewrite Hv3; [by apply S2|by rewrite (same_pages_alloced _ _ S2)|done].
    + congruence.
    + cbn [rid_slot_num rid] in Hr'. by rewrite Nat2Z.id in Hr'.
    + unfold get_next_page_id. rewrite (rd32_ext (data_ p) d); [done|]. apply Hlow. tp_lia.
    + unfold GAP_OFFSET in *. rewrite (rd32_ext (data_ p) d); [done|]. apply Hlow. tp_lia.
    + intros m x k' [_ Hm]%Hsl' Hk'. by eapply (ix_hash _ _ _ Hx).
  - destruct S1 as [<- _], S2 as [<- _], S4 as [-> _]. done.
  - intros q' Hq' Hnot. assert (q' ∈ alloced b1) by (by rewrite (same_pages_alloced _ _ S1)).
    assert (q' ∈ alloced b2) by (by rewrite (same_pages_alloced _ _ S2)).
    rewrite (proj2 S4) by (by rewrite Ha3). rewrite Hv3; [|done|intros ->; by apply (Hnot (NTab i j))].
    rewrite (proj2 S2) by done. by apply S1.
Qed.

(** marking for deletion: the key is looked up and nothing else happens *)
Lemma lk_ha_mark_delete_ok b first I v :
  bpm_ok b → index b first I → key_ok v → frames 1 b →
  match contents I (key_bytes v) with
  | Some _ => ∃ b', lk_ha_mark_delete do_hash tb_schema first v b = Ok (OP_SUCCESS, b') ∧ bpm_ok b' ∧ same_pages b b' ∧
      index b' first I ∧ (∀ g, avail b g → avail b' g)
  | None => lk_ha_mark_delete do_hash tb_schema first v b = Err NullDeref
  end.
Proof.
  intros Hok Hx Hv Hfr. destruct (lk_ha_get_ok b first I v Tuple_default Hok Hx Hv Hfr) as (c&t&b1&Hg&Hc&Hok1&S1&Hx1&Hav1).
  unfold lk_ha_mark_delete. rewrite Hg. cbn [mbind res_bind]. destruct (contents I (key_bytes v)).
  - destruct Hc as (->&_&_). by exists b1.
  - destruct Hc as [-> ->]. done.
Qed.
End Index.
