(* ===== verification/Table.v ===== *)
(** Tables and their iterators ([src/include/table/table.h], [src/table/table.cpp],
    [src/include/table/table_iterator.h], [src/table/table_iterator.cpp],
    [src/include/table/lk_ha_tb_iter.h], [src/table/lk_ha_tb_iter.cpp]): a table is
    the id of the first page of its index; its methods are the functions of the
    link hash index, or act on the page of a record id. The pool the table points to
    is passed along. Also the sequential scan over the iterator
    ([src/executors/seq_scan_executor.cpp]). *)
From S2P Require Import Prelude Config Replacer Page FileSys DiskManager BufferPool Values TablePage Schema PoolClient LinkHash.

Record Table := mkTable { first_table_page_id_ : Z }.

Section Table.
Context {R : Type} `{RA : ReplacerAbstract R}.
Context (do_hash : bytes → Z).
Notation BPM := (BufferPoolManager R).
Implicit Types (b : BPM) (tb : Table).

(** the constructor; from scratch, it formats the first page *)
Definition Table_new (first_table_page_id : Z) (from_scratch : bool) b : res (Table * BPM) :=
  let tb := mkTable first_table_page_id in
  if negb from_scratch then Ok (tb, b)
  else
    let* (page, b) := get_page first_table_page_id b in
    match page with
    | None => Err ExitCalled
    | Some f =>
        b ← changes_data f LinkHashPage_init b;
        b ← unpin_page first_table_page_id true b;
        Ok (tb, b)
    end.

(** the pages [delete_all_data] finds behind the first one; [None] is its early return *)
Fixpoint pages_behind (fuel : nat) (next_page_id : Z) (deleted_pages : list Z) b : res (option (list Z) * BPM) :=
  if next_page_id =? -1 then Ok (Some deleted_pages, b)
  else
    match fuel with
    | O => Err OutOfFuel
    | S fuel =>
        let deleted_pages := oset_insert next_page_id deleted_pages in
        let* (table_page, b) := get_page next_page_id b in
        match table_page with
        | None => Ok (None, b)
        | Some f =>
            b ← unpin_page next_page_id false b;
            next ← reads f (λ p, get_next_page_id (data_ p)) b;
            pages_behind fuel next deleted_pages b
        end
    end.
Fixpoint delete_pages (ids : list Z) b : res BPM :=
  match ids with
  | [] => Ok b
  | id :: ids => let* (_, b) := delete_page id b in delete_pages ids b
  end.
Definition delete_all_data tb b : res BPM :=
  let* (ids, b) := pages_behind (list_fuel b) (first_table_page_id_ tb) [] b in
  match ids with
  | None => Ok b
  | Some ids => delete_pages ids b
  end.

(** *** by key *)

Definition Table_mark_delete tb (key_value : Value) (tb_schema : Schema) b : res (bool * BPM) :=
  let* (c, b) := lk_ha_mark_delete do_hash tb_schema (first_table_page_id_ tb) key_value b in
  Ok (c =? OP_SUCCESS, b).
Definition Table_get_tuple tb (key_value : Value) (tuple : Tuple) (tb_schema : Schema) b : res (bool * Tuple * BPM) :=
  let* (c, tuple, b) := lk_ha_get_tuple do_hash tb_schema (first_table_page_id_ tb) key_value tuple b in
  Ok (c =? OP_SUCCESS, tuple, b).
Definition Table_apply_delete tb (key_value : Value) (tb_schema : Schema) b : res BPM :=
  let* (ok, _, b) := Table_get_tuple tb key_value Tuple_default tb_schema b in
  if negb ok then Ok b
  else lk_ha_apply_delete do_hash tb_schema (first_table_page_id_ tb) key_value b.
Definition Table_rollback_delete tb (key_value : Value) b : BPM :=
  lk_ha_rollback_delete (first_table_page_id_ tb) key_value b.
Definition Table_insert_tuple tb (tuple : Tuple) (tb_schema : Schema) b : res (bool * Tuple * BPM) :=
  let* (c, tuple, b) := lk_ha_insert_tuple do_hash tb_schema (first_table_page_id_ tb) tuple b in
  Ok (c =? OP_SUCCESS, tuple, b).
Definition Table_update_tuple tb (new_tuple : Tuple) (old_rid : RID) (tb_schema : Schema) b : res (bool * Tuple * BPM) :=
  let* (c, new_tuple, b) := lk_ha_update_tuple do_hash tb_schema (first_table_page_id_ tb) new_tuple old_rid b in
  Ok (c =? OP_SUCCESS, new_tuple, b).

(** *** by record id *)

Definition Table_mark_delete_rid (rid : RID) b : res (bool * BPM) :=
  let page_id := rid_page_id rid in
  if page_id <? 0 then Ok (false, b)
  else
    let* (table_page, b) := page_ptr page_id b in
    let* (ok, b) := changes table_page (mark_delete rid) b in
    b ← unpin_page page_id true b;
    Ok (ok, b).
Definition Table_apply_delete_rid (rid : RID) b : res BPM :=
  let page_id := rid_page_id rid in
  if page_id <? 0 then Ok b
  else
    let* (table_page, b) := get_page page_id b in
    match table_page with
    | None => Ok b
    | Some f => b ← changes_ f (apply_delete rid) b; unpin_page page_id true b
    end.
Definition Table_rollback_delete_rid (rid : RID) b : res BPM :=
  let page_id := rid_page_id rid in
  if page_id <? 0 then Ok b
  else
    let* (table_page, b) := page_ptr page_id b in
    b ← changes_ table_page (rollback_delete rid) b;
    unpin_page page_id true b.
Definition Table_get_tuple_rid (tuple : Tuple) (rid : RID) b : res (bool * Tuple * BPM) :=
  let* (c, tuple, b) := get_tuple_directly rid tuple b in
  Ok (c =? OP_SUCCESS, tuple, b).

(** ** [TableIterator]: along the list of a page *)

Definition TableIterator_new (rid : RID) b : res (Tuple * BPM) :=
  if rid_page_id rid =? INVALID_PAGE_ID then Ok (Tuple_default, b)
  else
    let* (ok, tuple, b) := Table_get_tuple_rid Tuple_default rid b in
    Ok (if (ok : bool) then tuple else set_rid tuple (mkRID INVALID_PAGE_ID INVALID_SLOT_NUM), b).

Fixpoint iter_step (fuel : nat) (tuple : Tuple) (cur_rid rid : RID) (table_page : Z) b : res (Tuple * BPM) :=
  match fuel with
  | O => Err OutOfFuel
  | S fuel =>
      let* (more, rid) := reads table_page (get_next_tuple_rid cur_rid rid) b in
      if (more : bool) then
        t ← reads table_page (get_tuple rid) b;
        id ← page_id_at table_page b;
        b ← unpin_page id false b;
        Ok (default tuple t, b)
      else
        next_page_id ← reads table_page (λ p, get_next_page_id (data_ p)) b;
        id ← page_id_at table_page b;
        b ← unpin_page id false b;
        if next_page_id =? INVALID_PAGE_ID then Ok (set_rid tuple (mkRID INVALID_PAGE_ID INVALID_SLOT_NUM), b)
        else
          let* (table_page, b) := page_ptr next_page_id b in
          id ← page_id_at table_page b;
          iter_step fuel tuple (mkRID id (-1)) rid table_page b
  end.
Definition TableIterator_incr (tuple : Tuple) b : res (Tuple * BPM) :=
  let* (table_page, b) := get_page (rid_page_id (t_rid tuple)) b in
  match table_page with
  | None => Ok (tuple, b)
  | Some f => iter_step (list_fuel b) tuple (t_rid tuple) RID_default f b
  end.

(** ** [LinkHashTableIter]: over all the tuples of an index *)

(** [it_slot2] is not set until a bucket was found *)
Record LinkHashTableIter := mkIter { it_tuple : Tuple; it_slot1 : Z; it_slot2 : Z }.
Definition no_rid : RID := mkRID INVALID_PAGE_ID INVALID_SLOT_NUM.
Definition slot_fuel : nat := S (Z.to_nat LK_HA_PG_SLOT_NUM).

(** [while (slot < LK_HA_PG_SLOT_NUM && id == INVALID_PAGE_ID) id = get_pgid_in_slot(++slot)] *)
Fixpoint seek_link (fuel : nat) (slot_num id : Z) (d : bytes) : res (Z * Z) :=
  if (slot_num <? LK_HA_PG_SLOT_NUM) && (id =? INVALID_PAGE_ID) then
    match fuel with
    | O => Err OutOfFuel
    | S fuel => id ← get_pgid_in_slot (slot_num + 1) d; seek_link fuel (slot_num + 1) id d
    end
  else Ok (slot_num, id).
(** the same as a [do ... while] *)
Definition next_link (slot_num : Z) (d : bytes) : res (Z * Z) :=
  id ← get_pgid_in_slot (slot_num + 1) d; seek_link slot_fuel (slot_num + 1) id d.

(** the [for] loop of the constructor over a page of the second level *)
Fixpoint first_link (n : nat) (slot_num : Z) (d : bytes) : res (Z * Z) :=
  match n with
  | O => Ok (slot_num, INVALID_PAGE_ID)
  | S n =>
      id ← get_pgid_in_slot slot_num d;
      if id =? INVALID_PAGE_ID then first_link n (slot_num + 1) d else Ok (slot_num, id)
  end.

(** the [while] loop of the constructor over the [n] slots of the first level from
    [slot1_num] on; the pages of both levels stay pinned *)
Fixpoint iter_begin (n : nat) (slot1_num level1_page : Z) b : res (LinkHashTableIter * BPM) :=
  match n with
  | O => Ok (mkIter (set_rid Tuple_default no_rid) INVALID_SLOT_NUM 0, b)
  | S n =>
      sec_page_id ← reads level1_page (λ p, get_pgid_in_slot slot1_num (data_ p)) b;
      if sec_page_id =? INVALID_PAGE_ID then iter_begin n (slot1_num + 1) level1_page b
      else
        let* (level2_page, b) := page_ptr sec_page_id b in
        let* (slot2_num, level3_page_id) := reads level2_page (λ p, first_link (Z.to_nat LK_HA_PG_SLOT_NUM) 0 (data_ p)) b in
        if level3_page_id =? INVALID_PAGE_ID then iter_begin n (slot1_num + 1) level1_page b
        else
          let* (level3_page, b) := page_ptr level3_page_id b in
          t ← reads level3_page get_the_first_tuple b;
          match t with
          | None => Err ExitCalled
          | Some tuple =>
              b ← unpin_page level3_page_id false b;
              Ok (mkIter tuple slot1_num slot2_num, b)
          end
  end.
Definition LinkHashTableIter_new (first_page_id : Z) b : res (LinkHashTableIter * BPM) :=
  let* (level1_page, b) := page_ptr first_page_id b in
  iter_begin (Z.to_nat LK_HA_PG_SLOT_NUM) 0 level1_page b.

(** the innermost loop of [operator++], along a list of table pages; true when the
    next tuple was found *)
Fixpoint walk_list (fuel : nat) (cur_rid : RID) (cur_tb_pgid : Z) (tuple : Tuple) b : res (bool * Tuple * BPM) :=
  match fuel with
  | O => Err OutOfFuel
  | S fuel =>
      let* (cur_tb_page, b) := page_ptr cur_tb_pgid b in
      id ← page_id_at cur_tb_page b;
      let* (ok, tuple) :=
        if rid_page_id cur_rid =? id then
          let* (ok, next_rid) := reads cur_tb_page (get_next_tuple_rid cur_rid RID_default) b in
          t ← reads cur_tb_page (get_tuple next_rid) b;
          Ok (ok, default tuple t)
        else
          t ← reads cur_tb_page get_the_first_tuple b;
          Ok (bool_decide (is_Some t), default tuple t) in
      b ← unpin_page cur_tb_pgid false b;
      if (ok : bool) then Ok (true, tuple, b)
      else
        cur_tb_pgid ← reads cur_tb_page (λ p, get_next_page_id (data_ p)) b;
        if cur_tb_pgid =? INVALID_PAGE_ID then Ok (false, tuple, b)
        else walk_list fuel cur_rid cur_tb_pgid tuple b
  end.
(** the loop over the slots of a page of the second level *)
Fixpoint walk_second (fuel : nat) (cur_rid : RID) (cur_tb_pgid cur_slot2_num level2_page : Z) (tuple : Tuple) b
    : res (bool * Tuple * Z * Z * BPM) :=
  match fuel with
  | O => Err OutOfFuel
  | S fuel =>
      if cur_tb_pgid =? INVALID_PAGE_ID then Ok (false, tuple, cur_tb_pgid, cur_slot2_num, b)
      else
        let* (ok, tuple, b) := walk_list (list_fuel b) cur_rid cur_tb_pgid tuple b in
        if (ok : bool) then Ok (true, tuple, cur_tb_pgid, cur_slot2_num, b)
        else
          let* (cur_slot2_num, cur_tb_pgid) := reads level2_page (λ p, next_link cur_slot2_num (data_ p)) b in
          if cur_slot2_num <? LK_HA_PG_SLOT_NUM
          then walk_second fuel cur_rid cur_tb_pgid cur_slot2_num level2_page tuple b
          else Ok (false, tuple, cur_tb_pgid, cur_slot2_num, b)
  end.
(** the loop over the slots of the first level *)
Fixpoint walk_first (fuel : nat) (first_page_id : Z) (cur_rid : RID) (cur_tb_pgid cur_level2_pgid cur_slot1_num cur_slot2_num level1_page : Z)
    (tuple : Tuple) b : res (LinkHashTableIter * BPM) :=
  match fuel with
  | O => Err OutOfFuel
  | S fuel =>
      let* (level2_page, b) := page_ptr cur_level2_pgid b in
      let* (cur_slot2_num, cur_tb_pgid) :=
        reads level2_page (λ p, seek_link slot_fuel cur_slot2_num cur_tb_pgid (data_ p)) b in
      let* (ok, tuple, cur_tb_pgid, cur_slot2_num, b) :=
        walk_second slot_fuel cur_rid cur_tb_pgid cur_slot2_num level2_page tuple b in
      id ← page_id_at level2_page b;
      b ← unpin_page id false b;
      if (ok : bool) then
        b ← unpin_page first_page_id false b;
        Ok (mkIter tuple cur_slot1_num cur_slot2_num, b)
      else
        let* (cur_slot1_num, cur_level2_pgid) := reads level1_page (λ p, next_link cur_slot1_num (data_ p)) b in
        if cur_slot1_num <? LK_HA_PG_SLOT_NUM
        then walk_first fuel first_page_id cur_rid cur_tb_pgid cur_level2_pgid cur_slot1_num (-1) level1_page tuple b
        else
          b ← unpin_page first_page_id false b;
          Ok (mkIter (set_rid tuple no_rid) INVALID_SLOT_NUM INVALID_SLOT_NUM, b)
  end.
Definition LinkHashTableIter_incr (first_page_id : Z) (it : LinkHashTableIter) b : res (LinkHashTableIter * BPM) :=
  let cur_rid := t_rid (it_tuple it) in
  let cur_tb_pgid := rid_page_id cur_rid in
  if cur_tb_pgid =? INVALID_PAGE_ID then Ok (mkIter (set_rid (it_tuple it) no_rid) (it_slot1 it) (it_slot2 it), b)
  else
    let* (level1_page, b) := page_ptr first_page_id b in
    cur_level2_pgid ← reads level1_page (λ p, get_pgid_in_slot (it_slot1 it) (data_ p)) b;
    walk_first slot_fuel first_page_id cur_rid cur_tb_pgid cur_level2_pgid (it_slot1 it) (it_slot2 it) level1_page (it_tuple it) b.

(** ** [SeqScanExecutor] *)

Record SeqScanExecutor := mkSeqScan { table_ : Table; tb_iter_ : option LinkHashTableIter }.
Definition SeqScan_new tb : SeqScanExecutor := mkSeqScan tb None.
Definition SeqScan_open (ex : SeqScanExecutor) b : res (SeqScanExecutor * BPM) :=
  let* (it, b) := LinkHashTableIter_new (first_table_page_id_ (table_ ex)) b in
  Ok (mkSeqScan (table_ ex) (Some it), b).
(** the result, the value left in [*tuple], the executor *)
Definition SeqScan_get_next (ex : SeqScanExecutor) (tuple : Tuple) b : res (bool * Tuple * SeqScanExecutor * BPM) :=
  it ← of_opt NullDeref (tb_iter_ ex);
  if rid_page_id (t_rid (it_tuple it)) =? INVALID_PAGE_ID then Ok (false, tuple, ex, b)
  else
    tuple ← Tuple_copy (it_tuple it);
    let* (it, b) := LinkHashTableIter_incr (first_table_page_id_ (table_ ex)) it b in
    Ok (true, tuple, mkSeqScan (table_ ex) (Some it), b).
Definition SeqScan_close (ex : SeqScanExecutor) : SeqScanExecutor := mkSeqScan (table_ ex) None.

End Table.
