(* ===== verification/TableSpec.v ===== *)
(** A table is a finite map from keys to tuples: creating one, and any sequence of
    lookups, insertions and deletions by key that keeps every bucket within its page. *)
From stdpp Require Import functions.
From S2P Require Import Prelude Config Replacer ClockReplacer Page FileSys DiskManager BufferPool PoolSpec Values TablePage TablePageSpec Schema PoolClient LinkHash LinkHashSpec Table.

(** the operations by key *)
Inductive table_op :=
  | TGet (v : Value)
  | TInsert (t : Tuple)
  | TDelete (v : Value).

Section TableSpec.
Context {R : Type} `{RA : ReplacerAbstract R}.
Context (do_hash : bytes → Z) (tb_schema : Schema) (key_ok : Value → Prop) `{KT : !KeyType key_ok}.
(** the size of the tuples *)
Context (sz : Z).
Notation BPM := (BufferPoolManager R).
Implicit Types (b : BPM) (I : ix) (m : gmap bytes bytes) (tb : Table).

Definition exec_table tb (op : table_op) b : res ((bool * bytes) * BPM) :=
  match op with
  | TGet v =>
      let* (ok, t, b) := Table_get_tuple do_hash tb v Tuple_default tb_schema b in
      Ok ((ok, if ok then t_data t else []), b)
  | TInsert t => let* (ok, _, b) := Table_insert_tuple do_hash tb t tb_schema b in Ok ((ok, []), b)
  | TDelete v => b ← Table_apply_delete do_hash tb v tb_schema b; Ok ((true, []), b)
  end.

(** the same on a map *)
Definition spec_table (op : table_op) m : (bool * bytes) * gmap bytes bytes :=
  match op with
  | TGet v => (match m !! key_bytes v with Some bs => (true, bs) | None => (false, []) end, m)
  | TInsert t =>
      match key_of tb_schema (t_data t) with
      | Some k => match m !! k with Some _ => ((false, []), m) | None => ((true, []), <[k := t_data t]> m) end
      | None => ((false, []), m)
      end
  | TDelete v => ((true, []), delete (key_bytes v) m)
  end.

(** the number of keys in the bucket of [k], at most the capacity of a page *)
Definition load m (k : bytes) : nat := base.size (filter (λ kv : bytes * bytes, bucket do_hash kv.1 = bucket do_hash k) m).
Definition op_fits (op : table_op) m : Prop :=
  match op with
  | TGet v => key_ok v
  | TInsert t => tuple_ok t (t_data t) ∧ t_size t = sz ∧
      ∃ k, has_key tb_schema key_ok k (t_data t) ∧ (m !! k = None → Z.of_nat (load m k) < get_tp_num_capacity sz)
  | TDelete v => key_ok v ∧ load m (key_bytes v) ≠ 1%nat
  end.

Fixpoint run_table tb (ops : list table_op) b : res (list (bool * bytes) * BPM) :=
  match ops with
  | [] => Ok ([], b)
  | op :: ops => let* (r, b) := exec_table tb op b in let* (rs, b) := run_table tb ops b in Ok (r :: rs, b)
  end.
Fixpoint spec_tables (ops : list table_op) m : list (bool * bytes) * gmap bytes bytes :=
  match ops with
  | [] => ([], m)
  | op :: ops => let '(r, m) := spec_table op m in let '(rs, m) := spec_tables ops m in (r :: rs, m)
  end.
(** every operation fits, and the file may still grow *)
Fixpoint ops_fit tb (ops : list table_op) b m : Prop :=
  match ops with
  | [] => True
  | op :: ops =>
      op_fits op m ∧ 4 * max_ava_pgid_ (dm (disk_manager_ b)) ≤ MAX_INT_PAGES ∧
      ∀ r b', exec_table tb op b = Ok (r, b') → ops_fit tb ops b' (spec_table op m).2
  end.

Record table_rep b tb I m : Prop := {
  tr_ok : bpm_ok b;
  tr_frames : frames 2 b;
  tr_index : index do_hash tb_schema key_ok b (first_table_page_id_ tb) I;
  tr_map : ∀ k, contents do_hash tb_schema I k = m !! k;
  tr_slots : ∀ i j, zlen (slots I i j) ≤ get_tp_num_capacity sz;
  tr_size : ∀ i j n x, slots I i j !! n = Some (Some x) → zlen x.2 = sz;
  tr_tuples : ∀ i j, is_Some (pg I (NTab i j)) → 0 < stored_count (slots I i j);
  tr_buckets : ∀ i, is_Some (pg I (NSec i)) → ∃ j, is_Some (pg I (NTab i j));
}.
Definition is_table b tb m : Prop := ∃ I, table_rep b tb I m.

(** ** Counting the tuples of a bucket *)

Definition slot_keys (sl : list slot) : list bytes := omap (λ s, x ← s; key_of tb_schema x.2) sl.

Lemma slot_keys_count sl : bucket_ok tb_schema key_ok sl → zlen (slot_keys sl) = stored_count sl.
Proof.
  intros Hb. assert (∀ i x, sl !! i = Some (Some x) → is_Some (key_of tb_schema x.2)) as Hk.
  { intros i x Hi. destruct (bk_key _ _ _ Hb i x Hi) as (_&k&Hk). apply has_key_of in Hk. eauto. }
  clear Hb. unfold stored_count. induction sl as [|[x|] sl IH]; [done| |].
  - unfold slot_keys in *. cbn [omap list_omap]. cbn [mbind option_bind]. destruct (Hk 0%nat x eq_refl) as [k ->].
    rewrite filter_cons, decide_True by done. unfold zlen in *. cbn [length]. rewrite !Nat2Z.inj_succ. f_equal. apply IH.
    intros i y Hi. by apply (Hk (S i)).
  - unfold slot_keys in *. cbn [omap list_omap]. cbn [mbind option_bind]. rewrite filter_cons, decide_False by done. apply IH.
    intros i y Hi. by apply (Hk (S i)).
Qed.

Lemma slot_keys_elem sl k : k ∈ slot_keys sl ↔ ∃ i x, sl !! i = Some (Some x) ∧ key_of tb_schema x.2 = Some k.
Proof.
  unfold slot_keys. rewrite list_elem_of_omap. split.
  - intros ([x|]&Hs&Hk); [|done]. apply list_elem_of_lookup in Hs as [i Hi]. eauto.
  - intros (i&x&Hi&Hk). exists (Some x). split; [by eapply list_elem_of_lookup_2|done].
Qed.

Lemma slot_keys_nodup sl : bucket_ok tb_schema key_ok sl → NoDup (slot_keys sl).
Proof.
  intros Hb. assert (∀ i j x y, sl !! i = Some (Some x) → sl !! j = Some (Some y) → key_of tb_schema x.2 = key_of tb_schema y.2 → i = j) as Hu by apply Hb.
  clear Hb. induction sl as [|[x|] sl IH]; [constructor| |].
  - unfold slot_keys in *. cbn [omap list_omap]. cbn [mbind option_bind].
    assert (NoDup (slot_keys sl)) as Hn by (apply IH; intros i j y z Hi Hj E; by injection (Hu (S i) (S j) y z Hi Hj E)).
    destruct (key_of tb_schema x.2) as [k|] eqn:Ek; [|done]. constructor; [|done]. fold (slot_keys sl). rewrite slot_keys_elem.
    intros (i&y&Hi&Hk). assert (0%nat = S i) as E; [|done]. apply (Hu 0%nat (S i) x y); [done|done|congruence].
  - unfold slot_keys in *. cbn [omap list_omap]. cbn [mbind option_bind]. apply IH. intros i j y z Hi Hj E. by injection (Hu (S i) (S j) y z Hi Hj E).
Qed.

Lemma load_count b tb I m k : table_rep b tb I m →
  stored_count (slots I (bucket do_hash k).1 (bucket do_hash k).2) = Z.of_nat (load m k).
Proof.
  intros Ht. destruct (bucket do_hash k) as [i j] eqn:Eb. cbn [fst snd]. pose proof (ix_bucket _ _ _ _ _ _ (tr_index _ _ _ _ Ht) i j) as Hb.
  rewrite <- (slot_keys_count _ Hb). unfold zlen, load. f_equal.
  rewrite <- (size_list_to_set (C := gset bytes) _ (slot_keys_nodup _ Hb)), <- size_dom. f_equal. apply set_eq. intros k'.
  rewrite elem_of_list_to_set, slot_keys_elem, elem_of_dom. unfold is_Some. setoid_rewrite map_lookup_filter_Some. cbn [fst].
  setoid_rewrite <- (tr_map _ _ _ _ Ht). unfold contents. rewrite Eb. split.
  - intros (n&[del bs]&Hn&Hk). pose proof (ix_hash _ _ _ _ _ _ (tr_index _ _ _ _ Ht) _ _ _ _ _ Hn Hk) as Hbk. exists bs. rewrite Hbk. cbn [fst snd].
    split; [|done]. by rewrite (find_key_at tb_schema key_ok k' _ n del bs Hb Hn Hk).
  - intros (bs&Hc&Hbk). rewrite Hbk in Hc. cbn [fst snd] in Hc. destruct (find_key tb_schema k' (slots I i j) 0) as [[n bs']|] eqn:Ef; [|done].
    apply find_key_Some in Ef as (n'&del&_&Hn&Hk). eauto.
Qed.

(** ** Room in a bucket *)

Lemma used_count (sl : list slot) : (∀ n x, sl !! n = Some (Some x) → zlen x.2 = sz) → used sl = stored_count sl * sz.
Proof.
  unfold stored_count. induction sl as [|s sl IH]; intros Hs; [done|]. rewrite used_cons, filter_cons, IH by (intros n x Hn; by apply (Hs (S n))).
  destruct s as [[del bs]|]; cbn [is_full slot_bytes].
  - rewrite decide_True by done. pose proof (Hs 0%nat _ eq_refl) as Hz. cbn [snd] in Hz. unfold zlen in *. cbn [length]. lia.
  - rewrite decide_False by done. lia.
Qed.
Lemma all_full_count (sl : list slot) : (∀ i s, sl !! i = Some s → no_tuple s = false) → stored_count sl = zlen sl.
Proof.
  unfold stored_count. induction sl as [|s sl IH]; intros H; [done|]. rewrite filter_cons. pose proof (H 0%nat s eq_refl) as E.
  unfold no_tuple in E. rewrite decide_True by (by destruct (is_full s)).
  assert (zlen (filter (λ s, is_full s = true) sl) = zlen sl) as IH' by (apply IH; intros i s' Hi; by apply (H (S i))).
  unfold zlen in *. cbn [length]. lia.
Qed.

(** a bucket with fewer tuples than the capacity of a page has room for one more *)
Lemma capacity_room sl bs : 0 < sz → zlen bs = sz → (∀ n x, sl !! n = Some (Some x) → zlen x.2 = sz) →
  zlen sl ≤ get_tp_num_capacity sz → stored_count sl < get_tp_num_capacity sz →
  insert_pre sl bs ∧ is_Some (spec_insert sl bs).2 ∧ zlen (spec_insert sl bs).1 ≤ get_tp_num_capacity sz.
Proof.
  intros Hsz Hbs Hs Hl Hc. unfold insert_pre, spec_insert. pose proof (first_slot_spec no_tuple sl 0) as Hfs.
  pose proof (used_count sl Hs) as Hu. unfold free_of, fsp_of. rewrite Hu, Hbs. set (F := stored_count sl) in *.
  assert (0 ≤ F) by apply zlen_nonneg. set (c := get_tp_num_capacity sz) in *.
  assert (c * (sz + 8) ≤ 3952) as Hcap.
  { unfold c, get_tp_num_capacity. change LOAD_DATA_SPACE with 3952. change (sz + OFFSET_T_SIZE + SIZE_T_SIZE) with (sz + 4 + 4).
    replace (sz + 8) with (sz + 4 + 4) by lia. rewrite Z.mul_comm. apply Z.mul_div_le. lia. }
  destruct (first_slot no_tuple sl 0) as [i|] eqn:Efs.
  - destruct Hfs as (j&s&->&Hj&_). rewrite (proj2 (Z.leb_le _ _)) by (tp; nia). cbn [fst snd]. split_and!; [done|eauto|].
    unfold zlen in *. by rewrite length_insert.
  - assert (F = zlen sl) as HF by (by apply all_full_count).
    rewrite (proj2 (Z.leb_le _ _)) by (tp; nia). cbn [fst snd]. split_and!; [intros _; left; tp; nia|eauto|]. rewrite zlen_app. change (zlen [_]) with 1. lia.
Qed.

(** ** The operations *)

Lemma get_step b tb m v : is_table b tb m → key_ok v →
  ∃ b', exec_table tb (TGet v) b = Ok ((spec_table (TGet v) m).1, b') ∧ is_table b' tb m.
Proof.
  intros [I [Hok Fr Ix Mp Sl Sz Tu Bu]] Hv.
  assert (frames 1 b) as Hfr1 by (by eapply frames_less; [|exact Fr]; lia).
  destruct (lk_ha_get_ok do_hash tb_schema key_ok b _ I v Tuple_default Hok Ix Hv Hfr1) as (c&t&b'&Hg&Hc&Hok'&S'&Hx'&Hav).
  exists b'. split; [|exists I; constructor; try done; by eapply frames_keep]. cbn [exec_table spec_table fst]. unfold Table_get_tuple. rewrite Hg. cbn [mbind res_bind].
  rewrite Mp in Hc. destruct (m !! key_bytes v) as [bs|]; [destruct Hc as (->&(_&_&->&_)&_)|destruct Hc as [-> _]]; done.
Qed.

Lemma remove_pg I k : pg (remove do_hash tb_schema I k) = pg I.
Proof. unfold remove. by destruct (find_key _ _ _ _) as [[? ?]|]. Qed.

Lemma delete_step b tb m v : is_table b tb m → key_ok v → load m (key_bytes v) ≠ 1%nat →
  ∃ b', exec_table tb (TDelete v) b = Ok ((spec_table (TDelete v) m).1, b') ∧ is_table b' tb (spec_table (TDelete v) m).2.
Proof.
  intros [I Ht] Hv Hld. pose proof (load_count _ _ _ _ (key_bytes v) Ht) as Hcnt. destruct Ht as [Hok Fr Ix Mp Sl Sz Tu Bu].
  assert (frames 1 b) as Hfr1 by (by eapply frames_less; [|exact Fr]; lia).
  destruct (lk_ha_get_ok do_hash tb_schema key_ok b _ I v Tuple_default Hok Ix Hv Hfr1) as (c&t&b1&Hg&Hc&Hok1&S1&Hx1&Hav1).
  cbn [exec_table spec_table fst snd]. unfold Table_apply_delete, Table_get_tuple. rewrite Hg. cbn [mbind res_bind]. rewrite Mp in Hc.
  assert (frames 1 b1 ∧ frames 2 b1) as [Hfr1' Hfr2'] by (by split; eapply frames_keep).
  destruct (m !! key_bytes v) as [bs|] eqn:Em.
  - destruct Hc as (->&_&_). change (negb (OP_SUCCESS =? OP_SUCCESS)) with false. cbn iota.
    destruct (lk_ha_delete_ok do_hash tb_schema key_ok b1 _ I v Hok1 Hx1 Hv Hfr1') as (b2&->&Hok2&Hx2&Hav2&_); [left; lia|].
    cbn [mbind res_bind]. exists b2. split; [done|]. exists (remove do_hash tb_schema I (key_bytes v)).
    assert (∀ i j n, slots (remove do_hash tb_schema I (key_bytes v)) i j !! n = slots I i j !! n ∨
      slots (remove do_hash tb_schema I (key_bytes v)) i j !! n = Some None) as Hrm.
    { intros i j n. unfold remove. destruct (find_key _ _ _ _) as [[n' ?]|]; [|by left]. cbn [slots set_bucket].
      destruct (decide (i = (bucket do_hash (key_bytes v)).1)) as [->|]; [rewrite fn_lookup_insert|left; by rewrite fn_lookup_insert_ne].
      destruct (decide (j = (bucket do_hash (key_bytes v)).2)) as [->|]; [rewrite fn_lookup_insert|left; by rewrite fn_lookup_insert_ne].
      rewrite list_lookup_insert. case_decide as E; [by right|by left]. }
    constructor; try done; [by eapply frames_keep|..].
    + intros k. rewrite (contents_remove do_hash tb_schema key_ok _ _ _ _ _ Ix). case_decide as E; [subst; by rewrite lookup_delete_eq|].
      rewrite lookup_delete_ne by done. apply Mp.
    + intros i j. unfold remove. destruct (find_key _ _ _ _) as [[n' ?]|]; [|by apply Sl]. cbn [slots set_bucket].
      destruct (decide (i = (bucket do_hash (key_bytes v)).1)) as [->|]; [rewrite fn_lookup_insert|rewrite fn_lookup_insert_ne by done; apply Sl].
      destruct (decide (j = (bucket do_hash (key_bytes v)).2)) as [->|]; [rewrite fn_lookup_insert|rewrite fn_lookup_insert_ne by done; apply Sl].
      unfold zlen. rewrite length_insert. apply Sl.
    + intros i j n x Hn. destruct (Hrm i j n) as [E|E]; rewrite E in Hn; [by eapply Sz|done].
    + intros i j Hij. assert (is_Some (pg I (NTab i j))) as Hij' by (by rewrite remove_pg in Hij). specialize (Tu i j Hij').
      unfold remove. destruct (find_key _ _ _ _) as [[n' ?]|] eqn:Ef; [|done]. cbn [slots set_bucket].
      apply find_key_Some in Ef as (n0&del&->&Hn&_). cbn [Nat.add].
      destruct (decide (i = (bucket do_hash (key_bytes v)).1)) as [->|]; [rewrite fn_lookup_insert|by rewrite fn_lookup_insert_ne].
      destruct (decide (j = (bucket do_hash (key_bytes v)).2)) as [->|]; [rewrite fn_lookup_insert|by rewrite fn_lookup_insert_ne].
      rewrite (stored_count_delete _ _ _ Hn). lia.
    + intros i. rewrite remove_pg. apply Bu.
  - destruct Hc as [-> _]. change (negb (TUPLE_NOT_FOUND =? OP_SUCCESS)) with true. cbn iota. exists b1. cbn [mbind res_bind]. split; [done|].
    exists I. rewrite delete_id by done. by constructor.
Qed.

Lemma stored_count_pos (sl : list slot) n x : sl !! n = Some (Some x) → 0 < stored_count sl.
Proof.
  intros Hn. unfold stored_count, zlen. assert (Some x ∈ filter (λ s, is_full s = true) sl) as Hin.
  { apply list_elem_of_filter. split; [done|]. by eapply list_elem_of_lookup_2. }
  destruct (filter _ sl); [by apply not_elem_of_nil in Hin|]. cbn [length]. lia.
Qed.
Lemma stored_insert_pos (sl : list slot) bs n : (spec_insert sl bs).2 = Some n → 0 < stored_count (spec_insert sl bs).1.
Proof. intros Hn. apply (stored_count_pos _ n (false, bs)). apply (spec_insert_slots _ _ _ Hn). by left. Qed.

Lemma insert_step b tb m t : 0 < sz → is_table b tb m → op_fits (TInsert t) m → 4 * max_ava_pgid_ (dm (disk_manager_ b)) ≤ MAX_INT_PAGES →
  ∃ b', exec_table tb (TInsert t) b = Ok ((spec_table (TInsert t) m).1, b') ∧ is_table b' tb (spec_table (TInsert t) m).2.
Proof.
  intros Hpos [I Ht] (Hto&Hsz&k&Hk&Hld) Hmax. pose proof (load_count _ _ _ _ k Ht) as Hcnt. destruct Ht as [Hok Fr Ix Mp Sl Sz Tu Bu].
  set (bs := t_data t) in *. assert (zlen bs = sz) as Hbs by (destruct Hto as (_&E&_); congruence).
  assert (contents do_hash tb_schema I k = None →
    insert_pre (slots I (bucket do_hash k).1 (bucket do_hash k).2) bs ∧ is_Some (spec_insert (slots I (bucket do_hash k).1 (bucket do_hash k).2) bs).2 ∧
    zlen (spec_insert (slots I (bucket do_hash k).1 (bucket do_hash k).2) bs).1 ≤ get_tp_num_capacity sz) as Hroom.
  { intros Hn. rewrite Mp in Hn. apply capacity_room; [done|done|apply Sz|apply Sl|]. specialize (Hld Hn). lia. }
  destruct (lk_ha_insert_ok do_hash tb_schema key_ok b _ I t k bs Hok Ix Fr Hmax Hto Hk) as (c&rid&b'&I'&Hi&Hok'&Hx'&Hav&Hc);
    [intros Hn; destruct (Hroom Hn) as (?&?&_); by split|].
  cbn [exec_table spec_table]. unfold Table_insert_tuple. rewrite Hi. cbn [mbind res_bind]. fold bs. rewrite (has_key_of _ _ _ _ Hk).
  rewrite Mp in Hroom, Hc. exists b'. assert (frames 2 b') by (by eapply frames_keep). destruct (m !! k) as [old|] eqn:Em; cbn [fst snd].
  - destruct Hc as (->&_&->&_). split; [done|]. by exists I.
  - destruct Hc as (->&_&Hsl&Hpg&Hct&_). split; [done|]. exists I'. destruct (Hroom eq_refl) as (_&[n Hn]&Hlen).
    assert (∀ i j, slots I' i j = slots I i j ∨ slots I' i j = (spec_insert (slots I (bucket do_hash k).1 (bucket do_hash k).2) bs).1 ∧
      (i, j) = bucket do_hash k) as Hcase.
    { intros i j. rewrite Hsl. cbn [slots set_bucket]. destruct (bucket do_hash k) as [i0 j0]. cbn [fst snd].
      destruct (decide (i = i0)) as [->|]; [|rewrite fn_lookup_insert_ne by done; by left]. rewrite fn_lookup_insert.
      destruct (decide (j = j0)) as [->|]; [rewrite fn_lookup_insert; by right|rewrite fn_lookup_insert_ne by done; by left]. }
    constructor; try done.
    + intros k'. rewrite Hct. case_decide as E; [subst; by rewrite lookup_insert_eq|]. rewrite lookup_insert_ne by done. apply Mp.
    + intros i j. destruct (Hcase i j) as [->|[-> _]]; [apply Sl|done].
    + intros i j n' x. destruct (Hcase i j) as [->|[-> _]]; [apply Sz|]. rewrite (proj2 (spec_insert_slots _ _ _ Hn)).
      intros [[_ ->]|[_ Hx]]; [done|by eapply Sz].
    + intros i j Hij. destruct (Hcase i j) as [E|[-> _]].
      * rewrite E. destruct (proj1 (Hpg _) Hij) as [H'|[?|H']]; [by apply Tu|done|]. injection H' as -> ->. rewrite <- E, Hsl. cbn [slots set_bucket].
        rewrite !fn_lookup_insert. by eapply stored_insert_pos.
      * by eapply stored_insert_pos.
    + intros i Hsec. apply Hpg in Hsec as [Hsec|[Hsec|?]]; [|injection Hsec as ->; exists (bucket do_hash k).2; apply Hpg; auto|done].
      destruct (Bu i Hsec) as [j Hj]. exists j. apply Hpg. auto.
Qed.

Lemma run_step tb op b m : 0 < sz → is_table b tb m → op_fits op m → 4 * max_ava_pgid_ (dm (disk_manager_ b)) ≤ MAX_INT_PAGES →
  ∃ b', exec_table tb op b = Ok ((spec_table op m).1, b') ∧ is_table b' tb (spec_table op m).2.
Proof.
  intros Hpos Ht Hf Hmax. destruct op as [v|t|v]; [by apply get_step|by apply insert_step|destruct Hf; by apply delete_step].
Qed.

(** creating a table on a page of its own, with other pages held *)
Lemma Table_new_session b0 H q b : session b0 H b → q ∈ alloced b → q ∉ h_page <$> H → has_frame b →
  ∃ b' d, Table_new q true b = Ok (mkTable q, b') ∧ session b0 H b' ∧ dm (disk_manager_ b') = dm (disk_manager_ b) ∧
    view b' q = Some (payload d) ∧ zlen d = PAGE_SIZE ∧ dir_rep (λ _, INVALID_PAGE_ID) d ∧
    (∀ q', q' ∈ alloced b → q' ≠ q → view b' q' = view b q') ∧
    (∀ h p, h ∈ H → frame b (h_frame h) = Ok p → frame b' (h_frame h) = Ok p).
Proof.
  intros Hs Hq Hn Hhas. unfold Table_new. cbn [negb].
  destruct (session_fetch b0 H b q) as (f&b1&p&->&Hs1&Hdm&Hf&_&Hvs&Hfs&_); [done..|].
  cbn [mbind res_bind]. assert (zlen (data_ p) = PAGE_SIZE) as Hz by (apply (frame_page_ok b1 f); [apply Hs1|done]).
  destruct (LinkHashPage_init_ok (data_ p) Hz) as (d&Hd&Hl&Hr&Hst). unfold changes_data, changes_. rewrite Hf. cbn [mbind res_bind].
  rewrite Hd. cbn [mbind res_bind]. destruct (put_first b0 q f false H b1 p d Hs1 Hf Hl Hst) as (Hs2&Ha2&Hw2&Hv2&_&Hf2).
  destruct (close b0 q f true H _ true Hs2) as (b3&->&Hs3&S3&Hf3&_); [done|]. cbn [mbind res_bind].
  assert (alloced b1 = alloced b) as Ha1 by (unfold alloced; by rewrite Hdm).
  exists b3, d. split_and!; [done|done|destruct S3 as [E _]; rewrite E; exact Hdm| |done|done| |].
  - rewrite (proj2 S3) by (by rewrite Ha2, Ha1). done.
  - intros q' Hq' Hne. rewrite (proj2 S3), Hv2, Hvs; [done|done|by rewrite Ha1|done|by rewrite Ha2, Ha1].
  - eauto.
Qed.

(** an empty directory is an empty table *)
Lemma fresh_table q d b : 0 < sz → bpm_ok b → frames 2 b → q ∈ alloced b → view b q = Some (payload d) → zlen d = PAGE_SIZE →
  dir_rep (λ _, INVALID_PAGE_ID) d → is_table b (mkTable q) ∅.
Proof.
  intros Hpos Hok Hfr Hq Hv Hl Hr. exists (mkIx (<[NFirst := Some q]> (λ _, None)) (λ _ _, [])).
  assert (∀ n q', <[NFirst := Some q]> (λ _, None) n = Some q' → n = NFirst ∧ q' = q) as Hpg.
  { intros n q'. destruct (decide (n = NFirst)) as [->|Hne]; [rewrite fn_lookup_insert; naive_solver|by rewrite fn_lookup_insert_ne]. }
  constructor; try done.
  - constructor; cbn [pg slots first_table_page_id_]; try done.
    + by intros n m' q' [-> ->]%Hpg [-> _]%Hpg.
    + intros n q' [-> ->]%Hpg. split; [done|]. exists d. split_and!; [done|done|]. cbn [node_rep]. eapply dir_rep_ext; [|exact Hr].
      intros i. cbn beta. cbn [pg]. by rewrite fn_lookup_insert_ne.
  - intros i j. cbn [slots]. unfold get_tp_num_capacity. change LOAD_DATA_SPACE with 3952.
    change (zlen []) with 0. change (sz + OFFSET_T_SIZE + SIZE_T_SIZE) with (sz + 4 + 4). apply Z.div_pos; lia.
  - intros i j [q' [? _]%Hpg]. done.
  - intros i [q' [? _]%Hpg]. done.
Qed.

Lemma Table_new_ok q b : 0 < sz → bpm_ok b → q ∈ alloced b → frames 2 b →
  ∃ b', Table_new q true b = Ok (mkTable q, b') ∧ is_table b' (mkTable q) ∅ ∧ dm (disk_manager_ b') = dm (disk_manager_ b).
Proof.
  intros Hpos Hok Hq Hfr. pose proof (session_start b Hok) as Hs.
  destruct (Table_new_session b [] q b Hs Hq) as (b'&d&He&Hs'&Hdm&Hv&Hl&Hr&_); [by apply not_elem_of_nil|eapply (session_has_frame 2); [done|done|cbn; lia]|].
  destruct (session_end _ _ Hs') as [Hok' Hav]. exists b'. split_and!; [done| |done].
  apply (fresh_table q d); [done|done|by eapply frames_keep|by unfold alloced; rewrite Hdm|done..].
Qed.

Lemma run_table_ok tb ops : 0 < sz → ∀ b m, is_table b tb m → ops_fit tb ops b m →
  ∃ b', run_table tb ops b = Ok ((spec_tables ops m).1, b') ∧ is_table b' tb (spec_tables ops m).2.
Proof.
  intros Hpos. induction ops as [|op ops IH]; intros b m Ht Hf; [by exists b|]. destruct Hf as (Hop&Hmax&Hf). cbn [run_table spec_tables].
  destruct (run_step tb op b m Hpos Ht Hop Hmax) as (b1&He&Ht1). specialize (Hf _ _ He). rewrite He. cbn [mbind res_bind].
  destruct (spec_table op m) as [r m1]. cbn [fst snd] in *. destruct (IH b1 m1 Ht1 Hf) as (b2&->&Ht2). cbn [mbind res_bind].
  destruct (spec_tables ops m1) as [rs m2]. by exists b2.
Qed.

(** C2: A table is a map from keys to tuples, for keys that are integers or strings given at
    the full length of their column, padded with zeros (a string value of another length is
    hashed over another number of bytes and is outside this theorem:
    [short_string_key_not_found]): a table created on an allocated page of any sound pool
    with two frames to spare is empty, and then any sequence of lookups, insertions and
    deletions by such keys, of tuples of one size, in which no bucket gets more tuples than
    a page has capacity for, none loses its last one and the file can grow, runs without a
    fault through directory, bucket pages, eviction and disk, returns what the same
    operations return on a finite map, and ends in a sound pool whose pages represent the
    resulting map. *)
Theorem table_refines_map q ops b :
  0 < sz → bpm_ok b → q ∈ alloced b → frames 2 b →
  (∀ b0, Table_new q true b = Ok (mkTable q, b0) → ops_fit (mkTable q) ops b0 ∅) →
  ∃ b0 b', Table_new q true b = Ok (mkTable q, b0) ∧
    run_table (mkTable q) ops b0 = Ok ((spec_tables ops ∅).1, b') ∧ is_table b' (mkTable q) (spec_tables ops ∅).2.
Proof.
  intros Hpos Hok Hq Hfr Hfit. destruct (Table_new_ok q b Hpos Hok Hq Hfr) as (b0&Hn&Ht&_).
  destruct (run_table_ok (mkTable q) ops Hpos b0 ∅ Ht (Hfit b0 Hn)) as (b'&?&?). by exists b0, b'.
Qed.

(** Marking a tuple of a table for deletion by its key never marks anything: for a
    key that is there the call reports success, no page changes and the table still
    holds the tuple; for a key that is not there it dereferences a null pointer. *)
Theorem mark_delete_never_marks b tb m v :
  is_table b tb m → key_ok v →
  match m !! key_bytes v with
  | Some _ => ∃ b', Table_mark_delete do_hash tb v tb_schema b = Ok (true, b') ∧ same_pages b b' ∧ is_table b' tb m
  | None => Table_mark_delete do_hash tb v tb_schema b = Err NullDeref
  end.
Proof.
  intros [I [Hok Fr Ix Mp Sl Sz Tu Bu]] Hv. unfold Table_mark_delete.
  assert (frames 1 b) as Hfr1 by (by eapply frames_less; [|exact Fr]; lia).
  pose proof (lk_ha_mark_delete_ok do_hash tb_schema key_ok b _ I v Hok Ix Hv Hfr1) as H. rewrite Mp in H.
  destruct (m !! key_bytes v); [|by rewrite H]. destruct H as (b'&->&?&?&?&?). exists b'. split_and!; [done|done|].
  exists I. constructor; try done. by eapply frames_keep.
Qed.
End TableSpec.

(** ** An executable form of the conditions *)

Section Checks.
Context {R : Type} `{RA : ReplacerAbstract R}.
Context (do_hash : bytes → Z) (tb_schema : Schema) (key_ok : Value → Prop) `{KT : !KeyType key_ok}.
Context (keyb : Value → bool) (keyb_sound : ∀ v, keyb v = true → key_ok v) (sz : Z).
Implicit Types (b : BufferPoolManager R) (m : gmap bytes bytes).

Definition op_fitsb (op : table_op) m : bool :=
  match op with
  | TGet v => keyb v
  | TInsert t =>
      t_allocated t && (t_size t =? zlen (t_data t)) && (0 <? t_size t) && (t_size t <? 2147483648) && (t_size t =? sz) &&
      match key_value_of tb_schema (t_data t) with
      | Ok v => keyb v && (bool_decide (is_Some (m !! key_bytes v)) || (Z.of_nat (load do_hash m (key_bytes v)) <? get_tp_num_capacity sz))
      | Err _ => false
      end
  | TDelete v => keyb v && negb (load do_hash m (key_bytes v) =? 1)%nat
  end.
Fixpoint ops_fitb (tb : Table) (ops : list table_op) b m : bool :=
  match ops with
  | [] => true
  | op :: ops =>
      op_fitsb op m && (4 * max_ava_pgid_ (dm (disk_manager_ b)) <=? MAX_INT_PAGES) &&
      match exec_table do_hash tb_schema tb op b with
      | Ok (_, b') => ops_fitb tb ops b' (spec_table tb_schema op m).2
      | Err _ => true
      end
  end.

Lemma op_fitsb_sound op m : op_fitsb op m = true → op_fits do_hash tb_schema key_ok sz op m.
Proof.
  destruct op as [v|t|v]; cbn [op_fitsb op_fits]; [apply keyb_sound| |].
  - rewrite !andb_true_iff, !Z.eqb_eq, !Z.ltb_lt. intros (((((Ha&Hs)&H0)&H1)&H2)&Hv). split_and!; [split_and!; [done..|lia|lia]|done|].
    destruct (key_value_of tb_schema (t_data t)) as [v|] eqn:E; [|done]. apply andb_true_iff in Hv as [Hk Hl]. exists (key_bytes v).
    split; [exists v; split_and!; auto|]. intros Hn. apply orb_true_iff in Hl as [Hl|Hl]; [|by apply Z.ltb_lt].
    apply bool_decide_eq_true_1 in Hl. rewrite Hn in Hl. by destruct Hl.
  - rewrite andb_true_iff, negb_true_iff, Nat.eqb_neq. intros [? ?]. auto.
Qed.
Lemma ops_fitb_sound tb ops : ∀ b m, ops_fitb tb ops b m = true → ops_fit do_hash tb_schema key_ok sz tb ops b m.
Proof.
  induction ops as [|op ops IH]; intros b m; cbn [ops_fitb ops_fit]; [done|]. rewrite !andb_true_iff, Z.leb_le. intros ((Ho&Hm)&Hr).
  split_and!; [by apply op_fitsb_sound|done|]. intros r b' E. rewrite E in Hr. by apply IH.
Qed.
End Checks.

Definition int_keyb (v : Value) : bool :=
  bool_decide (type_id_ v = kInteger) && match value_ v with VInt z => bool_decide (in32 z) | _ => false end.
Lemma int_keyb_sound v : int_keyb v = true → int_key v.
Proof.
  unfold int_keyb. rewrite andb_true_iff, bool_decide_eq_true. intros [T Hv]. split; [done|]. unfold value_ok. rewrite T.
  destruct (value_ v); try done. by apply bool_decide_eq_true in Hv.
Qed.

(** ** Witness: two integer columns, a pool of three frames, a hash with collisions *)

Definition hash_t (bs : bytes) : Z := match bs with x :: _ => x | [] => 0 end.
Definition schema_t : Schema :=
  mkSchema [mkColumn kInteger [105; 100] 0 4 None; mkColumn kInteger [118] 4 4 None] 8 0.
Definition tuple_t (key v : Z) : Tuple := mkTuple true RID_default 8 (enc32 key ++ enc32 v).
Definition ops_table_t : list table_op :=
  [TInsert (tuple_t 5 7); TInsert (tuple_t 6 8); TInsert (tuple_t 5 9); TInsert (tuple_t 261 10);
   TGet (Value_int 261); TDelete (Value_int 261); TGet (Value_int 261); TGet (Value_int 5); TInsert (tuple_t 517 11); TGet (Value_int 517)].

Lemma pool_t_frames : frames 2 pool_t.
Proof.
  exists [0; 1]. split_and!; [|done|].
  - repeat constructor; rewrite ?list_elem_of_singleton; [lia|apply not_elem_of_nil].
  - intros g Hg. left. rewrite (proj2 (proj2 pool_t_ok)). set_solver.
Qed.

Lemma table_refines_map_witness :
  ∃ b0 b', Table_new 0 true pool_t = Ok (mkTable 0, b0) ∧
    run_table hash_t schema_t (mkTable 0) ops_table_t b0 =
      Ok ([(true, []); (true, []); (false, []); (true, []); (true, enc32 261 ++ enc32 10); (true, []); (false, []);
           (true, enc32 5 ++ enc32 7); (true, []); (true, enc32 517 ++ enc32 11)], b').
Proof.
  destruct (table_refines_map hash_t schema_t int_key 8 0 ops_table_t pool_t) as (b0&b'&H1&H2&_).
  - lia.
  - apply pool_t_ok.
  - rewrite (proj1 (proj2 pool_t_ok)). apply list_elem_of_singleton. reflexivity.
  - apply pool_t_frames.
  - intros b0 H0. apply (ops_fitb_sound hash_t schema_t int_key int_keyb int_keyb_sound).
    assert (match Table_new 0 true pool_t with Ok (_, b) => ops_fitb hash_t schema_t int_keyb 8 (mkTable 0) ops_table_t b ∅ | Err _ => false end = true) as E
      by (vm_compute; reflexivity).
    rewrite H0 in E. exact E.
  - exists b0, b'. split; [exact H1|]. rewrite H2. f_equal.
Defined.

Lemma mark_delete_never_marks_witness :
  ∃ b0, Table_new 0 true pool_t = Ok (mkTable 0, b0) ∧
    Table_mark_delete hash_t (mkTable 0) (Value_int 5) schema_t b0 = Err NullDeref.
Proof.
  destruct (Table_new_ok hash_t schema_t int_key 8 0 pool_t) as (b0&H0&Ht&_).
  - lia.
  - apply pool_t_ok.
  - rewrite (proj1 (proj2 pool_t_ok)). apply list_elem_of_singleton. reflexivity.
  - apply pool_t_frames.
  - exists b0. split; [exact H0|].
    apply (mark_delete_never_marks hash_t schema_t int_key 8 b0 (mkTable 0) ∅ (Value_int 5) Ht). split; [reflexivity|]. vm_compute. split; discriminate.
Defined.

(** ** String keys *)

(** a column of four bytes as the key; the tuple with the key "ab" *)
Definition schema_str : Schema := mkSchema [mkColumn kChar [107] 0 8 (Some 4)] 4 0.
Definition tuple_str : Tuple := mkTuple true RID_default 4 [97; 98; 0; 0].
(** the tuple is inserted, then looked up by the string "ab" and by the value the tuple
    itself gives for its key *)
Definition string_lookup (do_hash : bytes → Z) (b : BufferPoolManager ClockReplacer) : res (bool * bool * bool) :=
  let* (tb, b) := Table_new 0 true b in
  let* (inserted, _, b) := Table_insert_tuple do_hash tb tuple_str schema_str b in
  let* (found1, _, b) := Table_get_tuple do_hash tb (Value_string [97; 98]) Tuple_default schema_str b in
  v ← get_value tuple_str schema_str 0;
  let* (found2, _, b) := Table_get_tuple do_hash tb v Tuple_default schema_str b in
  Ok (inserted, found1, found2).

(** The hash of a string key covers [str_len_] bytes, which for a value read from a
    tuple is the size of the column: a tuple is not found by its key given as a shorter
    string, although the two values are equal, when the hash function tells the two
    byte strings apart (here the hash is their length). *)
Theorem short_string_key_not_found :
  string_lookup zlen pool_t = Ok (true, false, true) ∧
  (v ← get_value tuple_str schema_str 0; Value_eq (Value_string [97; 98]) v) = Ok true.
Proof. split; vm_compute; reflexivity. Qed.
