(* ===== verification/Executors.v ===== *)
(** The executors ([src/include/executors/*.h], [src/executors/*.cpp]): the abstract
    executor as a class, selection, projection with aggregates, and the union
    executor, over the sequential scan of [Table]. The pool of the executor's context
    is passed along. [fuel] bounds the loops that ask a child until it has no more
    tuples. *)
From S2P Require Import Prelude Config Replacer Page FileSys DiskManager BufferPool Values TablePage Schema Expressions PoolClient LinkHash LinkHashSpec Table.

(** [ExecutorAbstract]: [ex_get_next] returns the value left in [*tuple] *)
Class ExecutorAbstract (R E : Type) := {
  ex_open : nat → E → BufferPoolManager R → res (E * BufferPoolManager R);
  ex_get_next : nat → E → Tuple → BufferPoolManager R → res (bool * Tuple * E * BufferPoolManager R);
  ex_close : E → BufferPoolManager R → res (E * BufferPoolManager R);
}.

#[export] Hint Mode ExecutorAbstract - ! : typeclass_instances.

Section SeqScan.
Context {R : Type} `{RA : ReplacerAbstract R}.
#[export] Instance SeqScan_executor : ExecutorAbstract R SeqScanExecutor := {|
  ex_open _ := SeqScan_open;
  ex_get_next _ := SeqScan_get_next;
  ex_close ex b := Ok (SeqScan_close ex, b);
|}.
End SeqScan.

(** ** [SelectionExecutor] *)

Record SelectionExecutor (E : Type) := mkSelection { sel_predicate : Expression; sel_child : E; sel_schema : Schema; sel_cmp : Value }.
Arguments mkSelection {E}.
Arguments sel_predicate {E}.
Arguments sel_child {E}.
Arguments sel_schema {E}.
Arguments sel_cmp {E}.
Definition SelectionExecutor_new {E} (predicate : Expression) (child : E) (schema : Schema) : SelectionExecutor E :=
  mkSelection predicate child schema (Value_bool true).

Section Selection.
Context {R E : Type} `{EA : ExecutorAbstract R E}.
Notation BPM := (BufferPoolManager R).
Implicit Types (b : BPM).

Definition Selection_open (fuel : nat) (ex : SelectionExecutor E) b : res (SelectionExecutor E * BPM) :=
  let* (c, b) := ex_open fuel (sel_child ex) b in
  Ok (mkSelection (sel_predicate ex) c (sel_schema ex) (sel_cmp ex), b).
Fixpoint selection_loop (turns fuel : nat) (ex : SelectionExecutor E) (tuple : Tuple) b : res (bool * Tuple * SelectionExecutor E * BPM) :=
  match turns with
  | O => Err OutOfFuel
  | S turns =>
      let* (more, tuple, c, b) := ex_get_next fuel (sel_child ex) tuple b in
      if (more : bool) then
        let* (v, e) := evaluate (sel_predicate ex) tuple (sel_schema ex) in
        ok ← Value_eq v (sel_cmp ex);
        let ex := mkSelection e c (sel_schema ex) (sel_cmp ex) in
        if (ok : bool) then Ok (true, tuple, ex, b) else selection_loop turns fuel ex tuple b
      else Ok (false, tuple, mkSelection (sel_predicate ex) c (sel_schema ex) (sel_cmp ex), b)
  end.
Definition Selection_get_next (fuel : nat) := selection_loop fuel fuel.
Definition Selection_close (ex : SelectionExecutor E) b : res (SelectionExecutor E * BPM) :=
  let* (c, b) := ex_close (sel_child ex) b in
  Ok (mkSelection (sel_predicate ex) c (sel_schema ex) (sel_cmp ex), b).

#[export] Instance Selection_executor : ExecutorAbstract R (SelectionExecutor E) := {|
  ex_open := Selection_open; ex_get_next := Selection_get_next; ex_close := Selection_close;
|}.
End Selection.

(** ** [ProjectionExecutor] *)

Record ProjectionExecutor (E : Type) := mkProjection {
  pr_child : E;
  pr_exprs : list Expression;
  pr_next_tuple : Tuple;
  pr_input_schema : Schema;
  pr_output_schema : Schema;
  pr_agg_exprs : list Expression;
  pr_is_aggregate : bool;
  pr_agg_vals : list Value;
  pr_agg_num : Z;
}.
Arguments mkProjection {E}.
Arguments pr_child {E}.
Arguments pr_exprs {E}.
Arguments pr_next_tuple {E}.
Arguments pr_input_schema {E}.
Arguments pr_output_schema {E}.
Arguments pr_agg_exprs {E}.
Arguments pr_is_aggregate {E}.
Arguments pr_agg_vals {E}.
Arguments pr_agg_num {E}.
Definition pr_upd {E} (c : E) (nt : Tuple) (ex : ProjectionExecutor E) : ProjectionExecutor E :=
  mkProjection c (pr_exprs ex) nt (pr_input_schema ex) (pr_output_schema ex) (pr_agg_exprs ex) (pr_is_aggregate ex) (pr_agg_vals ex) (pr_agg_num ex).
Definition pr_upd_exprs {E} (es : list Expression) (ex : ProjectionExecutor E) : ProjectionExecutor E :=
  mkProjection (pr_child ex) es (pr_next_tuple ex) (pr_input_schema ex) (pr_output_schema ex) (pr_agg_exprs ex) (pr_is_aggregate ex) (pr_agg_vals ex) (pr_agg_num ex).
Definition pr_upd_agg {E} (es : list Expression) (vs : list Value) (ex : ProjectionExecutor E) : ProjectionExecutor E :=
  mkProjection (pr_child ex) (pr_exprs ex) (pr_next_tuple ex) (pr_input_schema ex) (pr_output_schema ex) es (pr_is_aggregate ex) vs (pr_agg_num ex).

(** the values aggregates start from; those for [decimal_t] are the doubles of
    INT32_MAX and INT32_MIN *)
Definition init_agg_min_val (t : TypeId) : res Value :=
  match t with kInteger => Ok (Value_int INT32_MAX) | kDecimal => Ok (Value_dec 0x41DFFFFFFFC00000) | _ => Err ExitCalled end.
Definition init_agg_max_val (t : TypeId) : res Value :=
  match t with kInteger => Ok (Value_int INT32_MIN) | kDecimal => Ok (Value_dec 0xC1E0000000000000) | _ => Err ExitCalled end.
Definition init_agg_sum_val (t : TypeId) : res Value :=
  match t with kInteger => Ok (Value_int 0) | kDecimal => Ok (Value_dec 0) | _ => Err ExitCalled end.
Definition init_agg_cnt_val : Value := Value_int 0.

Definition ProjectionExecutor_new {E} (child : E) (exprs : list Expression) (input_schema output_schema : Schema) : ProjectionExecutor E :=
  mkProjection child exprs Tuple_default input_schema output_schema [] false [] 0.

(** the loop of the second constructor from column [idx] on *)
Fixpoint init_agg_vals (agg_type : list AggregationType) (idx : Z) (output_schema : Schema) : res (list Value) :=
  match agg_type with
  | [] => Ok []
  | a :: agg_type =>
      col ← get_column output_schema idx;
      let type_id := column_type_ col in
      v ← match a with
          | kCountAggregate => Ok init_agg_cnt_val
          | kSumAggregate => init_agg_sum_val type_id
          | kMinAggregate => init_agg_min_val type_id
          | kMaxAggregate => init_agg_max_val type_id
          end;
      vs ← init_agg_vals agg_type (idx + 1) output_schema;
      Ok (v :: vs)
  end.
Definition ProjectionExecutor_agg {E} (child : E) (exprs : list Expression) (agg_type : list AggregationType)
    (agg_exprs : list Expression) (input_schema output_schema : Schema) : res (ProjectionExecutor E) :=
  vs ← init_agg_vals agg_type (zlen exprs) output_schema;
  Ok (mkProjection child exprs Tuple_default input_schema output_schema agg_exprs true vs (zlen agg_type)).

(** the expressions of a projection in order: their values and what they are afterwards *)
Fixpoint evaluate_all (es : list Expression) (tuple : Tuple) (schema : Schema) : res (list Value * list Expression) :=
  match es with
  | [] => Ok ([], [])
  | e :: es =>
      let* (v, e) := evaluate e tuple schema in
      v ← Value_copy v;
      let* (vs, es) := evaluate_all es tuple schema in
      Ok (v :: vs, e :: es)
  end.
(** the loop [for (int i = 0; i < agg_num_; i++)] of [open]: [n] aggregates from [i] on *)
Fixpoint aggregate_all (n : nat) (i : Z) (es : list Expression) (vs : list Value) (tuple : Tuple) (schema : Schema)
    : res (list Expression * list Value) :=
  match n with
  | O => Ok (es, vs)
  | S n =>
      e ← of_opt OutOfBounds (es !! Z.to_nat i);
      v0 ← of_opt OutOfBounds (vs !! Z.to_nat i);
      let* (v, e) := evaluate e tuple schema in
      v ← Value_assign v0 v;
      aggregate_all n (i + 1) (<[Z.to_nat i := e]> es) (<[Z.to_nat i := v]> vs) tuple schema
  end.
(** the loop of [get_next] that appends the aggregates *)
Fixpoint push_aggs (n : nat) (i : Z) (agg_vals : list Value) (vals : list Value) : res (list Value) :=
  match n with
  | O => Ok vals
  | S n =>
      v ← of_opt OutOfBounds (agg_vals !! Z.to_nat i);
      v ← Value_copy v;
      push_aggs n (i + 1) agg_vals (vals ++ [v])
  end.

Section Projection.
Context {R E : Type} `{EA : ExecutorAbstract R E}.
(** what the arrays of a new tuple hold before they are written, for the tuple that
    is being projected *)
Context (heap : bytes → bytes) (stack : bytes → Z → bytes).
Notation BPM := (BufferPoolManager R).
Implicit Types (b : BPM).

Fixpoint agg_loop (turns fuel : nat) (ex : ProjectionExecutor E) b : res (ProjectionExecutor E * BPM) :=
  match turns with
  | O => Err OutOfFuel
  | S turns =>
      let* (more, nt, c, b) := ex_get_next fuel (pr_child ex) (pr_next_tuple ex) b in
      let ex := pr_upd c nt ex in
      if (more : bool) then
        let* (es, vs) := aggregate_all (Z.to_nat (pr_agg_num ex)) 0 (pr_agg_exprs ex) (pr_agg_vals ex) nt (pr_input_schema ex) in
        agg_loop turns fuel (pr_upd_agg es vs ex) b
      else Ok (ex, b)
  end.
Definition Projection_open (fuel : nat) (ex : ProjectionExecutor E) b : res (ProjectionExecutor E * BPM) :=
  let* (c, b) := ex_open fuel (pr_child ex) b in
  let ex := pr_upd c (pr_next_tuple ex) ex in
  if pr_is_aggregate ex then
    let* (ex, b) := agg_loop fuel fuel ex b in
    let* (c, b) := ex_close (pr_child ex) b in
    let* (c, b) := ex_open fuel c b in
    Ok (pr_upd c (pr_next_tuple ex) ex, b)
  else Ok (ex, b).
Definition Projection_get_next (fuel : nat) (ex : ProjectionExecutor E) (tuple : Tuple) b : res (bool * Tuple * ProjectionExecutor E * BPM) :=
  let* (more, nt, c, b) := ex_get_next fuel (pr_child ex) (pr_next_tuple ex) b in
  let ex := pr_upd c nt ex in
  if negb more then Ok (false, tuple, ex, b)
  else
    let* (vals, es) := evaluate_all (pr_exprs ex) nt (pr_input_schema ex) in
    let ex := pr_upd_exprs es ex in
    vals ← (if pr_is_aggregate ex then push_aggs (Z.to_nat (pr_agg_num ex)) 0 (pr_agg_vals ex) vals else Ok vals);
    tuple ← reconstruct (heap (t_data nt)) (stack (t_data nt)) vals (pr_output_schema ex) tuple;
    Ok (true, tuple, ex, b).
Definition Projection_close (ex : ProjectionExecutor E) b : res (ProjectionExecutor E * BPM) :=
  let* (c, b) := ex_close (pr_child ex) b in
  Ok (pr_upd c (pr_next_tuple ex) ex, b).

Definition Projection_executor : ExecutorAbstract R (ProjectionExecutor E) := {|
  ex_open := Projection_open; ex_get_next := Projection_get_next; ex_close := Projection_close;
|}.
End Projection.

(** ** What an executor promises *)

Section Contract.
Context {R E : Type} `{RA : ReplacerAbstract R} `{EA : ExecutorAbstract R E}.
Notation BPM := (BufferPoolManager R).
Implicit Types (b : BPM) (ex : E).

(** with [n] fuel, whatever it is handed, the open executor [ex] delivers tuples with
    the bytes [l], then reports the end, and is then [ex'] *)
Inductive runs (n : nat) : E → BPM → list bytes → E → BPM → Prop :=
  | runs_end ex b ex' b' :
      (∀ t, ∃ t', ∀ fuel, (n ≤ fuel)%nat → ex_get_next fuel ex t b = Ok (false, t', ex', b')) →
      runs n ex b [] ex' b'
  | runs_next ex b x l ex1 b1 ex' b' :
      (∀ t, ∃ t', t_data t' = x ∧ ∀ fuel, (n ≤ fuel)%nat → ex_get_next fuel ex t b = Ok (true, t', ex1, b1)) →
      runs n ex1 b1 l ex' b' → runs n ex b (x :: l) ex' b'.

(** a client that asks until there is no next tuple *)
Fixpoint drain (turns fuel : nat) ex (tuple : Tuple) b : res (list Tuple * E * BPM) :=
  match turns with
  | O => Err OutOfFuel
  | S turns =>
      let* (more, tuple, ex, b) := ex_get_next fuel ex tuple b in
      if (more : bool) then
        let* (l, ex, b) := drain turns fuel ex tuple b in Ok (tuple :: l, ex, b)
      else Ok ([], ex, b)
  end.
(** it gets what the executor delivers *)
Lemma runs_drain n ex b vs ex' b' : runs n ex b vs ex' b' → ∀ turns fuel t, (length vs < turns)%nat → (n ≤ fuel)%nat →
  ∃ l, drain turns fuel ex t b = Ok (l, ex', b') ∧ t_data <$> l = vs.
Proof.
  induction 1 as [ex b ex' b' H|ex b x vs ex1 b1 ex' b' H _ IH]; intros [|turns] fuel t Ht Hf; cbn [length] in *; try lia; cbn [drain].
  - destruct (H t) as [t' ->]; [|done]. cbn [mbind res_bind]. by exists [].
  - destruct (H t) as (t'&Hx&->); [|done]. cbn [mbind res_bind]. destruct (IH turns fuel t') as (l&->&Hl); [lia|done|]. cbn [mbind res_bind].
    exists (t' :: l). split; [done|]. by rewrite fmap_cons, Hx, Hl.
Qed.

Lemma runs_weaken n n' ex b l ex' b' : (n ≤ n')%nat → runs n ex b l ex' b' → runs n' ex b l ex' b'.
Proof.
  intros Hn. induction 1 as [ex b ex' b' H|ex b x l ex1 b1 ex' b' H _ IH].
  - constructor. intros t. destruct (H t) as [t' Ht]. exists t'. intros fuel Hf. apply Ht. lia.
  - econstructor; [|exact IH]. intros t. destruct (H t) as (t'&Hx&Ht). exists t'. split; [done|]. intros fuel Hf. apply Ht. lia.
Qed.

(** the executor can be opened, read to its end and closed [k] times; each time it
    delivers [l] in some order, and no page of the pool changes *)
Fixpoint delivers (n k : nat) ex b (l : list bytes) : Prop :=
  match k with
  | O => True
  | S k =>
      ∃ ex1 b1 l' ex2 b2 ex3 b3,
        (∀ fuel, (n ≤ fuel)%nat → ex_open fuel ex b = Ok (ex1, b1)) ∧
        runs n ex1 b1 l' ex2 b2 ∧ l' ≡ₚ l ∧
        ex_close ex2 b2 = Ok (ex3, b3) ∧ bpm_ok b3 ∧ same_pages b b3 ∧ delivers n k ex3 b3 l
  end.
End Contract.
