(* ===== verification/TableScan.v ===== *)
(** Scanning a table with [LinkHashTableIter]: the iterator visits the tuples in the
    order of their positions, bucket by bucket, and a scan from its first position to
    its end returns every tuple of the table exactly once. *)
From stdpp Require Import functions.
From S2P Require Import Prelude Config Replacer ClockReplacer Page FileSys DiskManager BufferPool PoolSpec Values TablePage TablePageSpec Schema PoolClient LinkHash LinkHashSpec Table TableSpec Executors.

(** ** Links *)

(** [s'] is the next slot after [s] with a link, 1008 when there is none *)
Definition next_in (f : Z → Z) (s s' : Z) : Prop :=
  s < s' ≤ LK_HA_PG_SLOT_NUM ∧ (∀ u, s < u < s' → f u = INVALID_PAGE_ID) ∧ (s' < LK_HA_PG_SLOT_NUM → f s' ≠ INVALID_PAGE_ID).
Definition link_at (f : Z → Z) (s : Z) : Z := if s <? LK_HA_PG_SLOT_NUM then f s else INVALID_PAGE_ID.

Lemma get_link f d s : dir_rep f d → 0 ≤ s → get_pgid_in_slot s d = Ok (link_at f s).
Proof.
  intros Hd Hs. unfold link_at. destruct (Z.ltb_spec s LK_HA_PG_SLOT_NUM) as [Hlt|Hge].
  - by apply get_slot_ok.
  - unfold get_pgid_in_slot. rewrite Z.geb_leb, (proj2 (Z.leb_le _ _)) by done. by rewrite orb_true_r.
Qed.

Lemma next_in_step f s s' : next_in f (s + 1) s' → s < LK_HA_PG_SLOT_NUM → f (s + 1) = INVALID_PAGE_ID → next_in f s s'.
Proof.
  intros (H1&H2&H3) Hs Hf. split_and!; [lia|lia| |done]. intros u Hu. destruct (decide (u = s + 1)) as [->|]; [done|]. apply H2. lia.
Qed.
Lemma next_in_here f s : s < LK_HA_PG_SLOT_NUM → link_at f (s + 1) ≠ INVALID_PAGE_ID → next_in f s (s + 1) ∧ s + 1 < LK_HA_PG_SLOT_NUM.
Proof.
  unfold link_at. intros Hs Hf. destruct (Z.ltb_spec (s + 1) LK_HA_PG_SLOT_NUM) as [Hlt|]; [|done].
  split; [|done]. split_and!; [lia|lia|lia|done].
Qed.

Lemma seek_link_ok f d fuel : ∀ s, dir_rep f d → -1 ≤ s < LK_HA_PG_SLOT_NUM → LK_HA_PG_SLOT_NUM - s ≤ Z.of_nat fuel →
  ∃ s', seek_link fuel s INVALID_PAGE_ID d = Ok (s', link_at f s') ∧ next_in f s s'.
Proof.
  induction fuel as [|fuel IH]; intros s Hd Hs Hf; [lia|]. cbn [seek_link].
  rewrite (proj2 (Z.ltb_lt _ _)) by lia. cbn [andb Z.eqb]. rewrite Z.eqb_refl. rewrite (get_link f d) by (done || lia). cbn [mbind res_bind].
  destruct (decide (link_at f (s + 1) = INVALID_PAGE_ID)) as [E|E].
  - rewrite E. destruct (decide (s + 1 < LK_HA_PG_SLOT_NUM)) as [Hlt|Hge].
    + destruct (IH (s + 1) Hd) as (s'&->&Hn); [lia|lia|]. exists s'. split; [done|]. apply next_in_step; [done|lia|].
      unfold link_at in E. by rewrite (proj2 (Z.ltb_lt _ _)) in E.
    + exists (s + 1). split; [|split_and!; [lia|lia|lia|lia]].
      destruct fuel; cbn [seek_link]; rewrite (proj2 (Z.ltb_ge _ _)) by lia; by rewrite E.
  - destruct (next_in_here f s) as [Hn Hlt]; [lia|done|]. exists (s + 1). split; [|done].
    destruct fuel; cbn [seek_link]; rewrite (proj2 (Z.eqb_neq _ _)), andb_false_r by done; done.
Qed.

Lemma next_link_ok f d s : dir_rep f d → -1 ≤ s < LK_HA_PG_SLOT_NUM → ∃ s', next_link s d = Ok (s', link_at f s') ∧ next_in f s s'.
Proof.
  intros Hd Hs. destruct (seek_link_ok f d (S slot_fuel) s Hd Hs) as (s'&H&Hn); [unfold slot_fuel; rewrite dir_num in *; lia|].
  exists s'. split; [|done]. rewrite <- H. unfold next_link. remember slot_fuel as n. cbn [seek_link]. by rewrite (proj2 (Z.ltb_lt _ _)) by lia.
Qed.

Lemma first_link_ok f d n : ∀ s, dir_rep f d → 0 ≤ s → s + Z.of_nat n = LK_HA_PG_SLOT_NUM →
  ∃ s', first_link n s d = Ok (s', link_at f s') ∧ next_in f (s - 1) s'.
Proof.
  induction n as [|n IH]; intros s Hd Hs Hn; cbn [first_link].
  - exists s. unfold link_at. rewrite (proj2 (Z.ltb_ge _ _)) by lia. split; [done|]. split_and!; lia.
  - rewrite (get_link f d) by done. cbn [mbind res_bind]. destruct (Z.eqb_spec (link_at f s) INVALID_PAGE_ID) as [E|E].
    + destruct (IH (s + 1) Hd) as (s'&->&Hx); [lia|lia|]. exists s'. split; [done|]. replace (s + 1 - 1) with (s - 1 + 1) in Hx by lia.
      apply next_in_step; [done|lia|]. unfold link_at in E. rewrite (proj2 (Z.ltb_lt _ _)) in E by lia. by replace (s - 1 + 1) with s by lia.
    + exists s. split; [done|]. replace s with (s - 1 + 1) at 2 by lia. apply next_in_here; [lia|]. by replace (s - 1 + 1) with s by lia.
Qed.

(** ** Positions *)

(** bucket and slot *)
Definition pos : Type := Z * Z * nat.
Definition plt (p p' : pos) : Prop :=
  let '(i, j, n) := p in let '(i', j', n') := p' in i < i' ∨ (i = i' ∧ (j < j' ∨ (j = j' ∧ (n < n')%nat))).
Definition occupied (I : ix) (p : pos) (x : bool * bytes) : Prop := let '(i, j, n) := p in slots I i j !! n = Some (Some x).
(** the least occupied position with the property [P], if there is one *)
Definition least (I : ix) (P : pos → Prop) (o : option pos) : Prop :=
  match o with
  | Some p => P p ∧ (∃ x, occupied I p x) ∧ ∀ p' x, P p' → occupied I p' x → p' = p ∨ plt p p'
  | None => ∀ p' x, P p' → ¬ occupied I p' x
  end.
Definition row (p : pos) : Z := p.1.1.

(** the first occupied slot of a bucket from [k] on *)
Lemma least_slot I i j k : least I (λ p, ∃ n, p = (i, j, n) ∧ (k ≤ n)%nat)
  ((λ n, (i, j, n)) <$> first_slot is_full (drop k (slots I i j)) k).
Proof.
  assert (∀ (sl : list slot) k, match first_slot is_full sl k with
    | Some n => (k ≤ n)%nat ∧ (∃ x, sl !! (n - k)%nat = Some (Some x)) ∧ ∀ m x, sl !! m = Some (Some x) → (n ≤ k + m)%nat
    | None => ∀ m x, sl !! m ≠ Some (Some x) end) as Hfs.
  { intros sl. induction sl as [|s sl IH]; intros k'; cbn [first_slot]; [done|]. destruct s as [x|]; cbn [is_full].
    - split_and!; [lia|exists x; by rewrite Nat.sub_diag|intros; lia].
    - specialize (IH (S k')). destruct (first_slot is_full sl (S k')) as [n|].
      + destruct IH as (H1&(x&Hx)&H2). split_and!; [lia| |].
        * exists x. by replace (n - k')%nat with (S (n - S k')) by lia.
        * intros [|m] y Hy; cbn in Hy; [done|]. specialize (H2 m y Hy). lia.
      + intros [|m] x Hx; cbn in Hx; [done|]. by eapply IH. }
  specialize (Hfs (drop k (slots I i j)) k). destruct (first_slot is_full (drop k (slots I i j)) k) as [n|]; cbn [fmap option_fmap option_map least].
  - destruct Hfs as (H1&(x&Hx)&H2). rewrite lookup_drop in Hx. split_and!; [eauto|exists x; cbn; by replace n with (k + (n - k))%nat by lia|].
    intros p' y (n'&->&Hn') Hy. cbn in Hy. assert (n ≤ n')%nat.
    { specialize (H2 (n' - k)%nat y). rewrite lookup_drop in H2. replace (k + (n' - k))%nat with n' in H2 by lia. specialize (H2 Hy). lia. }
    destruct (decide (n = n')) as [->|]; [by left|right]. cbn. lia.
  - intros p' y (n'&->&Hn') Hy. cbn in Hy. apply (Hfs (n' - k)%nat y). rewrite lookup_drop. by replace (k + (n' - k))%nat with n' by lia.
Qed.

Lemma least_ext I (P P' : pos → Prop) o : (∀ p x, occupied I p x → P p ↔ P' p) → least I P o → least I P' o.
Proof.
  intros E. destruct o as [p|]; cbn [least].
  - intros (Hp&(x&Hx)&Hl). split_and!; [by apply (E p x)|eauto|]. intros p' y Hp' Hy. apply (Hl p' y); [|done]. by apply (E p' y).
  - intros Hn p' x Hp' Hx. apply (Hn p' x); [|done]. by apply (E p' x).
Qed.
(** what comes first in a part of the positions that is before the other part *)
Lemma least_before I (P Q : pos → Prop) p : (∀ p p', P p → Q p' → plt p p') → least I P (Some p) → least I (λ p, P p ∨ Q p) (Some p).
Proof.
  intros Hpq (Hp&Hx&Hl). split; [by left|]. split; [done|]. intros p' x [Hp'|Hp'] Ho; [by eapply Hl|right; auto].
Qed.
Lemma least_orelse I (P Q : pos → Prop) o1 o2 : (∀ p p', P p → Q p' → plt p p') → least I P o1 → least I Q o2 →
  least I (λ p, P p ∨ Q p) (match o1 with Some p => Some p | None => o2 end).
Proof.
  intros Hpq H1 H2. destruct o1 as [p|]; [by apply least_before|].
  eapply least_ext; [|exact H2]. intros p x Ho. split; [by right|]. intros [Hp|]; [|done]. by destruct (H1 p x).
Qed.

Section Scan.
Context {R : Type} `{RA : ReplacerAbstract R}.
Context (do_hash : bytes → Z) (tb_schema : Schema) (key_ok : Value → Prop) `{KT : !KeyType key_ok}.
Notation BPM := (BufferPoolManager R).
Notation index := (index do_hash tb_schema key_ok).
Implicit Types (b : BPM) (I : ix).

Section Order.
Context (b : BPM) (first : Z) (I : ix) (Hok : bpm_ok b) (Hx : index b first I).
Context (Tu : ∀ i j, is_Some (pg I (NTab i j)) → 0 < stored_count (slots I i j)).
Context (Bu : ∀ i, is_Some (pg I (NSec i)) → ∃ j, is_Some (pg I (NTab i j))).

Lemma occupied_dir i j n x : occupied I (i, j, n) x → in_dir i ∧ in_dir j ∧ is_Some (pg I (NTab i j)) ∧ is_Some (pg I (NSec i)).
Proof.
  intros Ho. cbn in Ho. destruct (bk_key _ _ _ (ix_bucket _ _ _ _ _ _ Hx i j) n x Ho) as (_&k&Hk). apply has_key_of in Hk.
  pose proof (ix_hash _ _ _ _ _ _ Hx _ _ _ _ _ Ho Hk) as Hb. unfold bucket in Hb.
  destruct (hash_to_slot_range (do_hash k)) as [Hi Hj]. rewrite Hb in Hi, Hj.
  assert (is_Some (pg I (NTab i j))) as Hp.
  { destruct (pg I (NTab i j)) eqn:E; [by eexists|]. by rewrite (ix_none _ _ _ _ _ _ Hx i j E) in Ho. }
  split_and!; [done|done|done|]. destruct Hp as [q Hq]. by eapply (ix_sec _ _ _ _ _ _ Hx).
Qed.

Lemma link_ne n : link (pg I n) ≠ INVALID_PAGE_ID → is_Some (pg I n).
Proof. destruct (pg I n); [by eexists|done]. Qed.
Lemma link_is n q : pg I n = Some q → link (pg I n) = q ∧ q ≠ INVALID_PAGE_ID.
Proof.
  intros E. pose proof (link_some do_hash tb_schema key_ok b first I n q Hok Hx E) as H. rewrite E in *. split; [done|]. by apply Z.eqb_neq.
Qed.

(** the first tuple of a bucket *)
Definition head (i j : Z) : option pos := (λ n, (i, j, n)) <$> first_slot is_full (slots I i j) 0.
Lemma head_some i j : is_Some (pg I (NTab i j)) → is_Some (head i j).
Proof.
  intros Hp. specialize (Tu i j Hp). unfold head. pose proof (first_slot_spec is_full (slots I i j) 0) as Hfs.
  destruct (first_slot is_full (slots I i j) 0); [by eexists|]. exfalso. unfold stored_count in Tu.
  destruct (filter (λ s, is_full s = true) (slots I i j)) as [|s l] eqn:E; [done|].
  assert (s ∈ filter (λ s, is_full s = true) (slots I i j)) as Hin by (rewrite E; by left).
  apply list_elem_of_filter in Hin as [Hs Hin]. apply list_elem_of_lookup in Hin as [k Hk]. by rewrite (Hfs k s Hk) in Hs.
Qed.

(** in a row, after the bucket [s] *)
Lemma least_row i s s' : is_Some (pg I (NSec i)) → -1 ≤ s → next_in (λ j, link (pg I (NTab i j))) s s' →
  least I (λ p, row p = i ∧ s < p.1.2) (if s' <? LK_HA_PG_SLOT_NUM then head i s' else None) ∧
  (s' < LK_HA_PG_SLOT_NUM → is_Some (pg I (NTab i s')) ∧ is_Some (head i s')).
Proof.
  intros Hi Hs (H1&H2&H3).
  assert (∀ j n x, occupied I (i, j, n) x → s < j → s' ≤ j) as Hge.
  { intros j n x Ho Hj. destruct (decide (s' ≤ j)); [done|]. exfalso. destruct (occupied_dir i j n x Ho) as (_&_&[q Hq]&_).
    specialize (H2 j ltac:(lia)). cbn beta in H2. destruct (link_is _ _ Hq) as [E1 E2]. congruence. }
  destruct (Z.ltb_spec s' LK_HA_PG_SLOT_NUM) as [Hlt|Hnl].
  - specialize (H3 Hlt). apply link_ne in H3 as Hp. pose proof (head_some i s' Hp) as [p0 Hh]. split; [|by rewrite Hh].
    pose proof (least_slot I i s' 0) as Hl. rewrite drop_0 in Hl. fold (head i s') in Hl. rewrite Hh in *. destruct Hl as ((n0&->&_)&Hx0&Hl).
    split; [cbn; lia|]. split; [done|]. intros [[i' j'] n'] x [E Hj'] Ho. unfold row in E. cbn in E, Hj'. subst i'. specialize (Hge j' n' x Ho Hj').
    destruct (decide (j' = s')) as [->|]; [apply (Hl _ x); [eexists; split; [done|lia]|done]|]. right. cbn. lia.
  - split; [|lia]. intros [[i' j'] n'] x [E Hj'] Ho. unfold row in E. cbn in E, Hj'. subst i'. specialize (Hge j' n' x Ho Hj').
    destruct (occupied_dir i j' n' x Ho) as (_&[_ ?]&_). lia.
Qed.

(** the first bucket of a row *)
Lemma least_first_bucket i s : is_Some (pg I (NSec i)) → next_in (λ j, link (pg I (NTab i j))) (-1) s →
  s < LK_HA_PG_SLOT_NUM ∧ 0 ≤ s ∧ is_Some (pg I (NTab i s)) ∧ ∃ n x, head i s = Some (i, s, n) ∧ occupied I (i, s, n) x ∧
  least I (λ p, row p = i) (Some (i, s, n)).
Proof.
  intros Hi Hn. destruct (Bu i Hi) as [j Hj]. destruct (head_some i j Hj) as [p Hp].
  pose proof (least_slot I i j 0) as Hl. rewrite drop_0 in Hl. fold (head i j) in Hl. rewrite Hp in Hl. destruct Hl as ((n0&->&_)&(x0&Ho0)&_).
  destruct (least_row i (-1) s Hi ltac:(lia) Hn) as [Hlr Hs]. destruct (occupied_dir _ _ _ _ Ho0) as (_&[Hj0 _]&_).
  destruct (Z.ltb_spec s LK_HA_PG_SLOT_NUM) as [Hlt|Hge].
  - destruct (Hs Hlt) as [Hp' [p1 Hh]]. split_and!; [done|destruct Hn; lia|done|]. rewrite Hh in Hlr. unfold head in Hh.
    destruct (first_slot is_full (slots I i s) 0) as [n1|] eqn:E1; [|done]. cbn in Hh. injection Hh as <-.
    pose proof Hlr as (_&(x1&Ho1)&_). exists n1, x1. unfold head. rewrite E1. split_and!; [done|done|].
    eapply least_ext; [|exact Hlr]. intros [[i' j'] n'] y Ho. cbn. unfold row. cbn. destruct (occupied_dir _ _ _ _ Ho) as (_&[? _]&_). intuition lia.
  - exfalso. apply (Hlr (i, j, n0) x0); [|done]. cbn. split; [done|lia].
Qed.

(** after the row [i] *)
Lemma least_rows i i' : -1 ≤ i → next_in (λ i, link (pg I (NSec i))) i i' →
  match (if i' <? LK_HA_PG_SLOT_NUM then true else false) with
  | true => is_Some (pg I (NSec i')) ∧ ∀ o, least I (λ p, row p = i') o → is_Some o → least I (λ p, i < row p) o
  | false => least I (λ p, i < row p) None
  end.
Proof.
  intros Hi (H1&H2&H3).
  assert (∀ k j n x, occupied I (k, j, n) x → i < k → i' ≤ k) as Hge.
  { intros k j n x Ho Hk. destruct (decide (i' ≤ k)); [done|]. exfalso. destruct (occupied_dir k j n x Ho) as (_&_&_&[q Hq]).
    specialize (H2 k ltac:(lia)). cbn beta in H2. destruct (link_is _ _ Hq) as [E1 E2]. congruence. }
  destruct (Z.ltb_spec i' LK_HA_PG_SLOT_NUM) as [Hlt|Hnl].
  - specialize (H3 Hlt). apply link_ne in H3 as Hp. split; [done|]. intros [[[k j] n]|] Hl [p E]; [|done]. clear E.
    destruct Hl as (E&Ho&Hl). unfold row in E. cbn in E. subst k. split_and!; [unfold row; cbn; lia|done|].
    intros [[k' j'] n'] x Hk' Ho'. unfold row in Hk'. cbn in Hk'. specialize (Hge k' j' n' x Ho' Hk').
    destruct (decide (k' = i')) as [->|]; [by apply (Hl _ x)|]. right. cbn. lia.
  - intros [[k' j'] n'] x Hk' Ho'. unfold row in Hk'. cbn in Hk'. specialize (Hge k' j' n' x Ho' Hk').
    destruct (occupied_dir k' j' n' x Ho') as ([_ ?]&_). lia.
Qed.
End Order.

(** ** Along a bucket *)

Definition tuple_at (q : Z) (n : nat) (x : bool * bytes) : Tuple := mkTuple true (mkRID q (Z.of_nat n)) (zlen x.2) x.2.

(** reading the record number -1, as the iterator does at the end of a page *)
Lemma get_tuple_gap p sl x : rep p sl → rd32 (data_ p) GAP_OFFSET = Ok 0 → get_tuple (mkRID x (-1)) p = Ok None.
Proof.
  intros [offs Hr] Hg. unfold get_tuple, get_tuple_offset, get_tuple_size, get_tuple_count. cbn [rid_slot_num].
  change (FIRST_TUPLE_OFFSET + -1 * TUPLE_RECORD_SZ) with GAP_OFFSET. rewrite Hg. cbn [mbind res_bind].
  change (GAP_OFFSET + OFFSET_T_SIZE) with TUPLE_CNT_OFFSET. rewrite (ra_cnt _ _ _ _ Hr). cbn [mbind res_bind]. by rewrite orb_true_r.
Qed.

(** one page: the next tuple after the current one, or the first *)
Lemma walk_page_ok first b I i j p q cur t : index b first I → rep p (slots I i j) → rd32 (data_ p) GAP_OFFSET = Ok 0 →
  page_id_ p = q → q ≠ INVALID_PAGE_ID → 0 ≤ rid_slot_num cur →
  let k := if rid_page_id cur =? q then Z.to_nat (rid_slot_num cur + 1) else 0%nat in
  let o := first_slot is_full (drop k (slots I i j)) k in
  ∃ t', (if rid_page_id cur =? q then
      let* (ok, next_rid) := get_next_tuple_rid cur RID_default p in t0 ← get_tuple next_rid p; Ok (ok, default t t0)
    else t0 ← get_the_first_tuple p; Ok (bool_decide (is_Some t0), default t t0)) = Ok (bool_decide (is_Some o), t') ∧
    ∀ n x, o = Some n → occupied I (i, j, n) x → t' = tuple_at q n x.
Proof.
  intros Hx Hr Hgap Hid Hne Hcur k o. pose proof Hr as [offs Hr']. pose proof (rep_slots _ _ _ Hr') as Hn.
  destruct (Z.eqb_spec (rid_page_id cur) q) as [E|E].
  - pose proof (get_next_ok p (slots I i j) cur RID_default Hr (or_intror Hcur)) as Hnx. cbn [exec_op spec_op] in Hnx.
    rewrite E, (proj2 (Z.eqb_neq _ _) Hne) in Hnx. fold k in Hnx. fold o in Hnx. apply res_bind_Ok in Hnx as ([more rid]&->&Hnx). cbn [mbind res_bind].
    pose proof (first_slot_spec is_full (drop k (slots I i j)) k) as Hfs. fold o in Hfs.
    destruct o as [n|]; cbn [fst] in Hnx; injection Hnx as -> ->.
    + destruct Hfs as (n'&s&->&Hs&Hf). destruct s as [y|]; [|done]. rewrite lookup_drop in Hs. rewrite Hid.
      pose proof (lookup_lt_Some _ _ _ Hs) as Hlt.
      rewrite (get_tuple_ok p (slots I i j)) by (done || (cbn [rid_slot_num]; unfold slot_ok, zlen in *; lia)).
      cbn [rid_slot_num mbind res_bind]. unfold slot_of. rewrite Nat2Z.id, Hs. cbn [mjoin option_join option_map].
      eexists. split; [by rewrite bool_decide_true by (by eexists)|]. intros n x [= <-] Ho. cbn in Ho. rewrite Hs in Ho. by injection Ho as <-.
    + change (-1) with (-1) in *. rewrite (get_tuple_gap _ _ _ Hr Hgap). eexists. split; [by rewrite bool_decide_false by (by intros [? ?])|done].
  - assert (op_pre OFirst (slots I i j)) as Hpre by (intros n x _ Hi; by apply (bk_key _ _ _ (ix_bucket _ _ _ _ _ _ Hx i j) n x)).
    pose proof (get_first_ok p (slots I i j) Hr Hpre) as Hg. cbn [exec_op spec_op fst] in Hg. apply res_bind_Ok in Hg as (t0&->&Hg). injection Hg as ->.
    cbn [mbind res_bind]. subst k o. rewrite drop_0. pose proof (first_slot_spec is_full (slots I i j) 0) as Hfs.
    destruct (first_slot is_full (slots I i j) 0) as [n|]; [|eexists; split; [by rewrite !bool_decide_false by (by intros [? ?])|done]].
    destruct Hfs as (n'&s&->&Hs&Hf). destruct s as [y|]; [|done]. cbn [mbind option_bind Nat.add]. rewrite Hs. cbn [mjoin option_join option_bind mbind].
    eexists. split; [by rewrite !bool_decide_true by (by eexists)|]. intros n x [= <-] Ho. cbn in Ho. rewrite Hs in Ho. injection Ho as <-. by rewrite Hid.
Qed.

Lemma walk_list_ok m b0 H b first I i j q cur t fuel :
  session b0 H b → index b first I → pg I (NTab i j) = Some q → q ∉ h_page <$> H → frames m b0 → (length H < m)%nat →
  0 ≤ rid_slot_num cur →
  let k := if rid_page_id cur =? q then Z.to_nat (rid_slot_num cur + 1) else 0%nat in
  let o := first_slot is_full (drop k (slots I i j)) k in
  ∃ b' t', walk_list (S fuel) cur q t b = Ok (bool_decide (is_Some o), t', b') ∧ session b0 H b' ∧ same_pages b b' ∧
    (∀ h p, h ∈ H → frame b (h_frame h) = Ok p → frame b' (h_frame h) = Ok p) ∧
    (∀ n x, o = Some n → occupied I (i, j, n) x → t' = tuple_at q n x).
Proof.
  intros Hs Hx Hq Hn Hfr Hlt Hcur k o. destruct (link_is b first I (ss_ok _ _ _ Hs) Hx _ _ Hq) as [_ Hne].
  destruct (open_node do_hash tb_schema key_ok m b0 H b first I (NTab i j) q) as (f&b1&p&Hg&Hs1&S1&Hf&Hid&Hz&(Hr&Hnx&Hgap)&Hfs1); [done..|].
  destruct (close b0 q f false H b1 false Hs1) as (b2&Hu&Hs2&S2&Hfs2&Hf2); [done|]. destruct (Hf2 p Hf) as (p2&Hp2&Hpay).
  cbn [walk_list]. rewrite Hg. cbn [mbind res_bind]. unfold page_id_at. rewrite (reads_ok _ (λ p, Ok (page_id_ p)) _ _ Hf), Hid. cbn [mbind res_bind].
  destruct (walk_page_ok first b I i j p q cur t Hx Hr Hgap Hid Hne Hcur) as (t'&HR&Ht'). fold k o in HR, Ht'.
  assert ((if rid_page_id cur =? q then
      let* (ok, next_rid) := reads f (get_next_tuple_rid cur RID_default) b1 in t0 ← reads f (get_tuple next_rid) b1; Ok (ok, default t t0)
    else t0 ← reads f get_the_first_tuple b1; Ok (bool_decide (is_Some t0), default t t0)) = Ok (bool_decide (is_Some o), t')) as ->.
  { rewrite <- HR. unfold reads. rewrite Hf. cbn [mbind res_bind]. done. }
  cbn [mbind res_bind]. rewrite Hu. cbn [mbind res_bind]. exists b2, t'. split.
  - case_bool_decide; [done|]. rewrite (reads_ok _ (λ p, get_next_page_id (data_ p)) _ _ Hp2).
    assert (get_next_page_id (data_ p2) = Ok INVALID_PAGE_ID) as ->; [|done].
    rewrite <- Hnx. apply rd32_ext, mem_read_payload; [|done|tp; change HEADER_USED with 9; lia].
    rewrite Hz. apply (frame_page_ok b2 f); [apply Hs2|done].
  - split_and!; [done|by eapply same_pages_trans| |done]. intros h p' Hh Hp'. apply Hfs2, Hfs1; done.
Qed.

Lemma first_tuple_ok first b I i j p n : index b first I → rep p (slots I i j) → first_slot is_full (slots I i j) 0 = Some n →
  ∃ x, occupied I (i, j, n) x ∧ get_the_first_tuple p = Ok (Some (tuple_at (page_id_ p) n x)).
Proof.
  intros Hx Hr Hn.
  assert (op_pre OFirst (slots I i j)) as Hpre by (intros k x _ Hi; by apply (bk_key _ _ _ (ix_bucket _ _ _ _ _ _ Hx i j) k x)).
  pose proof (get_first_ok p (slots I i j) Hr Hpre) as Hg. cbn [exec_op spec_op fst] in Hg. apply res_bind_Ok in Hg as (t0&->&Hg). injection Hg as ->.
  pose proof (first_slot_spec is_full (slots I i j) 0) as Hfs. rewrite Hn in *. destruct Hfs as (n'&s&->&Hs&Hf). destruct s as [y|]; [|done].
  cbn [mbind option_bind Nat.add]. rewrite Hs. exists y. by split.
Qed.

(** ** Along a row *)

Definition held_same (H : list hold) b b' : Prop := ∀ h p, h ∈ H → frame b (h_frame h) = Ok p → frame b' (h_frame h) = Ok p.
Definition nonempty I : Prop :=
  (∀ i j, is_Some (pg I (NTab i j)) → 0 < stored_count (slots I i j)) ∧
  (∀ i, is_Some (pg I (NSec i)) → ∃ j, is_Some (pg I (NTab i j))).

(** the tuple found is the one at the position [p] *)
Definition tuple_of I (p : pos) (t : Tuple) : Prop :=
  let '(i, j, n) := p in ∃ q x, pg I (NTab i j) = Some q ∧ occupied I p x ∧ t = tuple_at q n x.

Lemma page_ne b first I i j n q q' : index b first I → pg I n = Some q → pg I (NTab i j) = Some q' → n ≠ NTab i j → q ≠ q'.
Proof. intros Hx Hn Hj Hne ->. apply Hne. by eapply (ix_inj _ _ _ _ _ _ Hx). Qed.

Section Row.
Context (b0 : BPM) (first : Z) (I : ix) (Hne : nonempty I) (i q2 f1 f2 : Z) (Hq2 : pg I (NSec i) = Some q2).
Notation H := [mkHold q2 f2 false; mkHold first f1 false].
Context (Hfr : frames 3 b0).

Lemma not_dir b j q : index b first I → pg I (NTab i j) = Some q → q ∉ h_page <$> H.
Proof.
  intros Hx Hq. cbn. rewrite elem_of_cons, list_elem_of_singleton. intros [->| ->].
  - by eapply (page_ne b first I i j (NSec i) q2 q2).
  - eapply (page_ne b first I i j NFirst first first); [done|apply Hx|done|done|done].
Qed.

(** a bucket the iterator comes to: its first tuple *)
Lemma walk_second_fresh b j q cur t fuel : session b0 H b → index b first I → pg I (NTab i j) = Some q →
  rid_page_id cur ≠ q → 0 ≤ rid_slot_num cur →
  ∃ b' t' p, walk_second (S fuel) cur q j f2 t b = Ok (true, t', q, j, b') ∧ session b0 H b' ∧ same_pages b b' ∧ held_same H b b' ∧
    head I i j = Some p ∧ tuple_of I p t'.
Proof.
  intros Hs Hx Hq Hc Hc0. destruct (link_is b first I (ss_ok _ _ _ Hs) Hx _ _ Hq) as [_ Hqn].
  pose proof (head_some I (proj1 Hne) i j ltac:(by eexists)) as [p Hp]. unfold head in Hp.
  pose proof (walk_list_ok 3 b0 H b first I i j q cur t (length (alloced b)) Hs Hx Hq (not_dir b j q Hx Hq) Hfr) as Hw.
  cbn [length] in Hw. specialize (Hw ltac:(lia) Hc0). cbv zeta in Hw. rewrite (proj2 (Z.eqb_neq _ _) Hc), drop_0 in Hw.
  destruct Hw as (b'&t'&Hw&Hs'&S'&Hf'&Ht'). pose proof (first_slot_spec is_full (slots I i j) 0) as Hfs.
  destruct (first_slot is_full (slots I i j) 0) as [n|] eqn:En; [|done]. cbn in Hp. injection Hp as <-.
  destruct Hfs as (n'&s&->&Hn&Hsf). destruct s as [x|]; [|done]. cbn [Nat.add] in *.
  exists b', t', (i, j, n'). split_and!; [|done|done|done|unfold head; by rewrite En|].
  - cbn [walk_second]. rewrite (proj2 (Z.eqb_neq _ _) Hqn). unfold list_fuel. rewrite Hw. cbn [mbind res_bind].
    by rewrite bool_decide_true by (by eexists).
  - exists q, x. split_and!; [done|done|]. by apply (Ht' n' x).
Qed.

(** from a tuple to the next one of its row *)
Lemma walk_second_next b j n q x p2 t fuel : session b0 H b → index b first I → pg I (NTab i j) = Some q → occupied I (i, j, n) x →
  frame b f2 = Ok p2 → node_rep I (NSec i) (data_ p2) →
  ∃ o b' t' tb' s', walk_second (S (S fuel)) (mkRID q (Z.of_nat n)) q j f2 t b = Ok (bool_decide (is_Some o), t', tb', s', b') ∧
    session b0 H b' ∧ same_pages b b' ∧ held_same H b b' ∧ least I (λ p, row p = i ∧ plt (i, j, n) p) o ∧
    match o with Some p => s' = p.1.2 ∧ tuple_of I p t' | None => tb' = INVALID_PAGE_ID end.
Proof.
  intros Hs Hx Hq Ho Hf2 Hd2. destruct (link_is b first I (ss_ok _ _ _ Hs) Hx _ _ Hq) as [_ Hqn].
  destruct (occupied_dir b first I Hx _ _ _ _ Ho) as (Di&Dj&_&_).
  pose proof (walk_list_ok 3 b0 H b first I i j q (mkRID q (Z.of_nat n)) t (length (alloced b)) Hs Hx Hq (not_dir b j q Hx Hq) Hfr) as Hw.
  cbn [length] in Hw. specialize (Hw ltac:(lia) (Nat2Z.is_nonneg n)). cbv zeta in Hw. cbn [rid_page_id rid_slot_num] in Hw.
  rewrite Z.eqb_refl in Hw. replace (Z.to_nat (Z.of_nat n + 1)) with (S n) in Hw by lia.
  destruct Hw as (b1&t1&Hw&Hs1&S1&Hf1&Ht1). pose proof (least_slot I i j (S n)) as Hl1.
  set (o1 := first_slot is_full (drop (S n) (slots I i j)) (S n)) in *.
  destruct (next_link_ok _ _ j Hd2 ltac:(destruct Dj; lia)) as (j'&Hnl&Hni).
  destruct (least_row b first I (ss_ok _ _ _ Hs) Hx (proj1 Hne) i j j') as [Hl2 Hj']; [by eexists|destruct Dj; lia|done|].
  assert (least I (λ p, row p = i ∧ plt (i, j, n) p) (match (λ n, (i, j, n)) <$> o1 with Some p => Some p | None => if j' <? LK_HA_PG_SLOT_NUM then head I i j' else None end)) as Hl.
  { eapply least_ext; [|eapply least_orelse; [|exact Hl1|exact Hl2]].
    - intros [[i3 j3] n3] y _. unfold row. cbn. split.
      + intros [(n4&[= -> -> ->]&?)|[-> ?]]; split; lia.
      + intros [-> [?|[_ [?|[-> ?]]]]]; [lia|by right|left]. eexists. split; [done|lia].
    - intros p p' (n3&->&_) [Hrow Hlt]. destruct p' as [[i3 j3] n3']. unfold row in Hrow. cbn in *. lia. }
  remember (S fuel) as fu eqn:Efu. cbn [walk_second]. rewrite (proj2 (Z.eqb_neq _ _) Hqn). unfold list_fuel. rewrite Hw. cbn [mbind res_bind].
  destruct o1 as [n1|]; cbn [fmap option_fmap option_map] in Hl.
  - rewrite bool_decide_true by (by eexists). exists (Some (i, j, n1)), b1, t1, q, j. rewrite bool_decide_true by (by eexists).
    split_and!; try done; [apply Hl..|]. pose proof Hl as (_&(y&Hy)&_). exists q, y. split_and!; [done|done|]. by apply (Ht1 n1 y).
  - rewrite bool_decide_false by (by intros [? ?]). pose proof (Hf1 (mkHold q2 f2 false) p2 ltac:(by left) Hf2) as Hf2'. cbn [h_frame] in Hf2'.
    rewrite (reads_ok _ (λ p, next_link j (data_ p)) _ _ Hf2'), Hnl. cbn [mbind res_bind]. unfold link_at.
    destruct (Z.ltb_spec j' LK_HA_PG_SLOT_NUM) as [Hlt|Hge].
    + destruct (Hj' Hlt) as [[q' Hq'] [p' Hp']]. pose proof (index_same _ _ _ _ _ _ _ S1 Hx) as Hx1.
      rewrite Hq'. change (link (Some q')) with q'. rewrite Hp' in Hl.
      destruct (walk_second_fresh b1 j' q' (mkRID q (Z.of_nat n)) t1 fuel Hs1 Hx1 Hq') as (b2&t2&p2'&Hw2&Hs2&S2&Hf3&Hh2&Ht2).
      { cbn [rid_page_id]. eapply (page_ne b first I i j' (NTab i j)); [done..|]. intros [= E]. destruct Hni. lia. }
      { cbn. lia. }
      rewrite Hp' in Hh2. injection Hh2 as <-. subst fu. rewrite Hw2. exists (Some p'), b2, t2, q', j'. rewrite bool_decide_true by (by eexists).
      split_and!; try done; [by eapply same_pages_trans|intros h p0 Hh Hp0; by apply Hf3, Hf1|apply Hl..|].
      unfold head in Hp'. destruct (first_slot is_full (slots I i j') 0); [|done]. cbn in Hp'. by injection Hp' as <-.
    + exists None, b1, t1, INVALID_PAGE_ID, j'. rewrite bool_decide_false by (by intros [? ?]). by split_and!.
Qed.
End Row.

(** ** The iterator *)

Definition iter_at I (it : LinkHashTableIter) (p : pos) : Prop :=
  it_slot1 it = p.1.1 ∧ it_slot2 it = p.1.2 ∧ tuple_of I p (it_tuple it).

Lemma page_id_at_ok b f p : frame b f = Ok p → page_id_at f b = Ok (page_id_ p).
Proof. intros Hf. unfold page_id_at. by rewrite (reads_ok _ _ _ _ Hf). Qed.
Lemma held_id b0 H b q f m p : session b0 H b → mkHold q f m ∈ H → frame b f = Ok p → page_id_ p = q.
Proof.
  intros Hs Hin Hf. destruct (ss_held _ _ _ Hs _ Hin) as [_ (p'&Hf'&Hid&_)]. cbn [h_frame h_page] in *. congruence.
Qed.

(** a row the iterator comes to: the first tuple of its first bucket *)
Lemma walk_first_fresh b0 b first I i j q i' q2 f1 n t fuel : nonempty I → frames 3 b0 →
  session b0 [mkHold first f1 false] b → index b first I → pg I (NTab i j) = Some q → i ≠ i' → pg I (NSec i') = Some q2 →
  ∃ it b' p, walk_first (S fuel) first (mkRID q (Z.of_nat n)) INVALID_PAGE_ID q2 i' (-1) f1 t b = Ok (it, b') ∧
    session b0 [] b' ∧ same_pages b b' ∧ least I (λ p, row p = i') (Some p) ∧ iter_at I it p.
Proof.
  intros Hne Hfr Hs Hx Hq Hi Hq2.
  destruct (open_node do_hash tb_schema key_ok 3 b0 [mkHold first f1 false] b first I (NSec i') q2) as (f2&b1&p2&Hg&Hs1&S1&Hf2&Hid2&_&Hd2&_);
    [done..| |done|cbn; lia|].
  { intros E%list_elem_of_singleton. cbn in E. subst q2. assert (NSec i' = NFirst); [|done]. eapply (ix_inj _ _ _ _ _ _ Hx); [done|apply Hx]. }
  pose proof (index_same _ _ _ _ _ _ _ S1 Hx) as Hx1.
  destruct (seek_link_ok _ _ slot_fuel (-1) Hd2) as (s&Hsk&Hni); [rewrite dir_num; lia|unfold slot_fuel; rewrite dir_num; lia|].
  destruct (least_first_bucket b first I (ss_ok _ _ _ Hs) Hx (proj1 Hne) (proj2 Hne) i' s) as (Hlt&Hs0&[q3 Hq3]&n3&x3&Hh3&Ho3&Hl3); [by eexists|done|].
  unfold link_at in Hsk. rewrite (proj2 (Z.ltb_lt _ _) Hlt), Hq3 in Hsk. change (link (Some q3)) with q3 in Hsk.
  destruct (walk_second_fresh b0 first I Hne i' q2 f1 f2 Hq2 Hfr b1 s q3 (mkRID q (Z.of_nat n)) t (Z.to_nat LK_HA_PG_SLOT_NUM) Hs1 Hx1 Hq3)
    as (b2&t2&p'&Hw&Hs2&S2&Hf2'&Hh&Ht2); [cbn [rid_page_id]; eapply (page_ne b first I i' s (NTab i j)); [done..|congruence]|cbn; lia|].
  rewrite Hh3 in Hh. injection Hh as <-. pose proof (Hf2' (mkHold q2 f2 false) p2 ltac:(by left) Hf2) as Hf2''. cbn [h_frame] in Hf2''.
  destruct (close b0 q2 f2 false _ b2 false Hs2) as (b3&Hu3&Hs3&S3&_); [done|].
  destruct (close b0 first f1 false _ b3 false Hs3) as (b4&Hu4&Hs4&S4&_); [done|].
  cbn [walk_first]. rewrite Hg. cbn [mbind res_bind].
  rewrite (reads_ok _ (λ p, seek_link slot_fuel (-1) INVALID_PAGE_ID (data_ p)) _ _ Hf2), Hsk. cbn [mbind res_bind].
  change slot_fuel with (S (Z.to_nat LK_HA_PG_SLOT_NUM)). rewrite Hw. cbn [mbind res_bind].
  rewrite (page_id_at_ok _ _ _ Hf2''), Hid2. cbn [mbind res_bind]. rewrite Hu3. cbn [mbind res_bind]. rewrite Hu4. cbn [mbind res_bind].
  eexists _, b4, _. split; [done|]. split; [done|]. split; [|split; [exact Hl3|by split]].
  eapply same_pages_trans; [exact S1|]. eapply same_pages_trans; [exact S2|]. by eapply same_pages_trans.
Qed.

Lemma incr_ok b first I it p : bpm_ok b → index b first I → nonempty I → frames 3 b → iter_at I it p →
  ∃ o it' b', LinkHashTableIter_incr first it b = Ok (it', b') ∧ session b [] b' ∧ same_pages b b' ∧ least I (plt p) o ∧
    match o with Some p' => iter_at I it' p' | None => t_rid (it_tuple it') = no_rid end.
Proof.
  intros Hok Hx Hne Hfr. destruct p as [[i j] n]. intros (E1&E2&(q&x&Hq&Ho&Et)). cbn [fst snd] in E1, E2.
  destruct (occupied_dir b first I Hx _ _ _ _ Ho) as (Di&Dj&_&[q2 Hq2]). destruct (link_is b first I Hok Hx _ _ Hq) as [_ Hqn].
  unfold LinkHashTableIter_incr. rewrite E1, E2, Et. cbn [tuple_at t_rid rid_page_id]. rewrite (proj2 (Z.eqb_neq _ _) Hqn).
  destruct (open_node do_hash tb_schema key_ok 3 b [] b first I NFirst first) as (f1&b1&p1&->&Hs1&S1&Hf1&_&_&D1&_);
    [by apply session_start|done|apply Hx|apply not_elem_of_nil|done|cbn; lia|].
  cbn [mbind res_bind]. rewrite (reads_ok _ (λ p, get_pgid_in_slot i (data_ p)) _ _ Hf1), (get_slot_ok _ _ _ D1 Di). cbn [mbind res_bind].
  rewrite Hq2. change (link (Some q2)) with q2. pose proof (index_same _ _ _ _ _ _ _ S1 Hx) as Hx1.
  destruct (open_node do_hash tb_schema key_ok 3 b [mkHold first f1 false] b1 first I (NSec i) q2) as (f2&b2&p2&Hg&Hs2&S2&Hf2&Hid2&_&D2&Hfs2);
    [done..| |done|cbn; lia|].
  { intros E%list_elem_of_singleton. cbn in E. subst q2. assert (NSec i = NFirst); [|done]. eapply (ix_inj _ _ _ _ _ _ Hx); [done|apply Hx]. }
  pose proof (index_same _ _ _ _ _ _ _ S2 Hx1) as Hx2.
  destruct (walk_second_next b first I Hne i q2 f1 f2 Hq2 Hfr b2 j n q x p2 (tuple_at q n x) 1007 Hs2 Hx2 Hq Ho Hf2 D2)
    as (o&b3&t3&tb3&s3&Hw&Hs3&S3&Hfs3&Hl&Hres).
  pose proof (Hfs3 (mkHold q2 f2 false) p2 ltac:(by left) Hf2) as Hf2'. cbn [h_frame] in Hf2'.
  pose proof (Hfs3 (mkHold first f1 false) p1 ltac:(right; by left) (Hfs2 (mkHold first f1 false) p1 ltac:(by left) Hf1)) as Hf1'. cbn [h_frame] in Hf1'.
  destruct (close b q2 f2 false _ b3 false Hs3) as (b4&Hu4&Hs4&S4&Hfs4&_); [done|].
  pose proof (Hfs4 (mkHold first f1 false) p1 ltac:(by left) Hf1') as Hf1''. cbn [h_frame] in Hf1''.
  destruct (close b first f1 false _ b4 false Hs4) as (b5&Hu5&Hs5&S5&_); [done|].
  assert (same_pages b b4) as S14 by (eapply same_pages_trans; [exact S1|]; eapply same_pages_trans; [exact S2|]; by eapply same_pages_trans).
  unfold slot_fuel at 1. remember (Z.to_nat LK_HA_PG_SLOT_NUM) as fu eqn:Efu. cbn [walk_first]. rewrite Hg. cbn [mbind res_bind].
  rewrite (reads_ok _ (λ p, seek_link slot_fuel j q (data_ p)) _ _ Hf2).
  assert (seek_link slot_fuel j q (data_ p2) = Ok (j, q)) as ->.
  { unfold slot_fuel. cbn [seek_link]. by rewrite (proj2 (Z.eqb_neq _ _) Hqn), andb_false_r. }
  cbn [mbind res_bind]. change slot_fuel with (S (S 1007)). rewrite Hw. cbn [mbind res_bind].
  rewrite (page_id_at_ok _ _ _ Hf2'), Hid2. cbn [mbind res_bind]. rewrite Hu4. cbn [mbind res_bind].
  destruct (next_link_ok _ _ i D1 ltac:(destruct Di; lia)) as (i'&Hnl&Hni).
  assert (∀ o2, least I (λ p, (row p = i ∧ plt (i, j, n) p) ∨ i < row p) o2 → least I (plt (i, j, n)) o2) as Hall.
  { intros o2 Hl2. eapply least_ext; [|exact Hl2]. intros [[i3 j3] n3] y _. unfold row. cbn. lia. }
  assert (∀ p p', row p = i ∧ plt (i, j, n) p → i < row p' → plt p p') as Hrel.
  { intros [[i3 j3] n3] [[i4 j4] n4]. unfold row. cbn. lia. }
  destruct o as [p'|].
  - rewrite bool_decide_true by (by eexists). rewrite Hu5. cbn [mbind res_bind]. exists (Some p'). eexists _, b5. split; [done|].
    split; [done|]. split; [by eapply same_pages_trans|]. destruct Hl as ((Hrow&Hplt)&Hox&Hmin).
    assert (iter_at I (mkIter t3 i s3) p') as Hat by (destruct Hres as [-> Ht]; split_and!; [by rewrite <- Hrow|done|done]).
    split; [|done]. apply Hall, least_before; [done|]. by split.
  - rewrite bool_decide_false by (by intros [? ?]). subst tb3.
    rewrite (reads_ok _ (λ p, next_link i (data_ p)) _ _ Hf1''), Hnl. cbn [mbind res_bind]. unfold link_at.
    pose proof (least_rows b first I Hok Hx i i' ltac:(destruct Di; lia) Hni) as Hrows.
    destruct (Z.ltb_spec i' LK_HA_PG_SLOT_NUM) as [Hlt|Hge].
    + destruct Hrows as [[q2' Hq2'] Hrows]. rewrite Hq2'. change (link (Some q2')) with q2'.
      pose proof (index_same _ _ _ _ _ _ _ S14 Hx) as Hx4. destruct fu as [|fu]; [done|].
      destruct (walk_first_fresh b b4 first I i j q i' q2' f1 n t3 fu Hne Hfr Hs4 Hx4 Hq) as (it'&b6&p'&->&Hs6&S6&Hl6&Hat); [destruct Hni; lia|done|].
      exists (Some p'), it', b6. split; [done|]. split; [done|]. split; [by eapply same_pages_trans|]. split; [|done].
      apply Hall, (least_orelse I _ _ None); [done|done|]. apply Hrows; [done|by eexists].
    + rewrite Hu5. cbn [mbind res_bind]. exists None. eexists _, b5. split; [done|]. split; [done|]. split; [by eapply same_pages_trans|].
      split; [|done]. by apply Hall, (least_orelse I _ _ None None).
Qed.

(** the constructor: the first tuple of all; two pages stay pinned *)
Lemma iter_begin_ok b0 first I f1 p1 n : nonempty I → frames 3 b0 → node_rep I NFirst (data_ p1) → ∀ s b,
  session b0 [mkHold first f1 false] b → index b first I → frame b f1 = Ok p1 → 0 ≤ s → s + Z.of_nat n = LK_HA_PG_SLOT_NUM →
  ∃ o it b' H', iter_begin n s f1 b = Ok (it, b') ∧ session b0 H' b' ∧ (length H' ≤ 2)%nat ∧ same_pages b b' ∧
    least I (λ p, s ≤ row p) o ∧ match o with Some p => iter_at I it p | None => t_rid (it_tuple it) = no_rid end.
Proof.
  intros Hne Hfr D1. induction n as [|n IH]; intros s b Hs Hx Hf1 Hs0 Hn; cbn [iter_begin].
  { eexists None, _, b, _. split; [done|]. split; [done|]. split; [cbn; lia|]. split; [done|]. split; [|done].
    intros [[i j] k] x Hrow Ho. unfold row in Hrow. cbn in Hrow. destruct (occupied_dir b first I Hx _ _ _ _ Ho) as ([_ ?]&_). lia. }
  assert (in_dir s) as Ds by (split; lia). pose proof (ss_ok _ _ _ Hs) as Hok.
  rewrite (reads_ok _ (λ p, get_pgid_in_slot s (data_ p)) _ _ Hf1), (get_slot_ok _ _ _ D1 Ds). cbn [mbind res_bind].
  destruct (pg I (NSec s)) as [q2|] eqn:E2.
  2: { destruct (IH (s + 1) b Hs Hx Hf1 ltac:(lia) ltac:(lia)) as (o&it&b'&H'&Hi&Hs'&Hl'&S'&Hlst&Hres). exists o, it, b', H'. split; [exact Hi|].
       split_and!; [done..| |done]. eapply least_ext; [|exact Hlst]. intros [[i j] k] x Ho. unfold row. cbn.
       destruct (occupied_dir b first I Hx _ _ _ _ Ho) as (_&_&_&[q Hq]). destruct (decide (i = s)) as [->|]; [congruence|lia]. }
  change (link (Some q2)) with q2. destruct (link_is b first I Hok Hx _ _ E2) as [_ Hn2]. rewrite (proj2 (Z.eqb_neq _ _) Hn2).
  destruct (open_node do_hash tb_schema key_ok 3 b0 [mkHold first f1 false] b first I (NSec s) q2) as (f2&b1&p2&->&Hs1&S1&Hf2&_&_&D2&_);
    [done..| |done|cbn; lia|].
  { intros E%list_elem_of_singleton. cbn in E. subst q2. assert (NSec s = NFirst); [|done]. eapply (ix_inj _ _ _ _ _ _ Hx); [done|apply Hx]. }
  cbn [mbind res_bind]. pose proof (index_same _ _ _ _ _ _ _ S1 Hx) as Hx1.
  destruct (first_link_ok _ _ (Z.to_nat LK_HA_PG_SLOT_NUM) 0 D2) as (j&Hfl&Hni); [lia|rewrite dir_num; lia|].
  destruct (least_first_bucket b first I Hok Hx (proj1 Hne) (proj2 Hne) s j) as (Hlt&Hj0&[q3 Hq3]&n3&x3&Hh3&Ho3&Hl3); [by eexists|done|].
  rewrite (reads_ok _ (λ p, first_link _ 0 (data_ p)) _ _ Hf2), Hfl. unfold link_at. rewrite (proj2 (Z.ltb_lt _ _) Hlt), Hq3.
  change (link (Some q3)) with q3. cbn [mbind res_bind]. destruct (link_is b first I Hok Hx _ _ Hq3) as [_ Hn3]. rewrite (proj2 (Z.eqb_neq _ _) Hn3).
  destruct (open_node do_hash tb_schema key_ok 3 b0 [mkHold q2 f2 false; mkHold first f1 false] b1 first I (NTab s j) q3)
    as (f3&b2&p3&->&Hs2&S2&Hf3&Hid3&_&(Hr3&_)&_); [done..|by eapply (not_dir first I s q2 f1 f2 E2 b1 j)|done|cbn; lia|].
  cbn [mbind res_bind]. unfold head in Hh3. destruct (first_slot is_full (slots I s j) 0) as [n4|] eqn:E4; [|done]. cbn in Hh3. injection Hh3 as ->.
  destruct (first_tuple_ok first b1 I s j p3 n3 Hx1 Hr3 E4) as (x4&Ho4&Hft). rewrite (reads_ok _ get_the_first_tuple _ _ Hf3), Hft, Hid3. cbn [mbind res_bind].
  destruct (close b0 q3 f3 false _ b2 false Hs2) as (b3&->&Hs3&S3&_); [done|]. cbn [mbind res_bind].
  eexists (Some (s, j, n3)), _, b3, _. split; [done|]. split; [done|]. split; [cbn; lia|].
  split; [eapply same_pages_trans; [exact S1|]; by eapply same_pages_trans|]. split; [|split_and!; [done|done|exists q3, x4; by split_and!]].
  eapply least_ext; [|apply (least_before I (λ p, row p = s) (λ p, s < row p)); [|exact Hl3]].
  - intros [[i4 j4] k4] y _. unfold row. cbn. lia.
  - intros [[i4 j4] k4] [[i5 j5] k5]. unfold row. cbn. lia.
Qed.

(** ** All positions *)

#[local] Instance plt_dec p p' : Decision (plt p p').
Proof. destruct p as [[i j] n], p' as [[i' j'] n']. unfold plt. apply _. Defined.
Lemma plt_irrefl p : ¬ plt p p.
Proof. destruct p as [[i j] n]. cbn. lia. Qed.
Lemma plt_trans p p' p'' : plt p p' → plt p' p'' → plt p p''.
Proof. destruct p as [[i j] n], p' as [[i' j'] n'], p'' as [[i2 j2] n2]. cbn. lia. Qed.

Definition pos_of I (k : bytes) : option pos :=
  y ← find_key tb_schema k (slots I (bucket do_hash k).1 (bucket do_hash k).2) 0;
  Some ((bucket do_hash k).1, (bucket do_hash k).2, y.1).
Definition all_pos I (m : gmap bytes bytes) : list pos := omap (pos_of I) (map_to_list m).*1.
(** the bytes at a position *)
Definition val I (p : pos) : bytes := let '(i, j, n) := p in match slots I i j !! n with Some (Some x) => x.2 | _ => [] end.

Lemma val_at I i j n x : slots I i j !! n = Some (Some x) → val I (i, j, n) = x.2.
Proof. intros H. unfold val. by rewrite H. Qed.

Lemma pos_of_occupied I k p : pos_of I k = Some p → ∃ x, occupied I p x ∧ key_of tb_schema x.2 = Some k ∧ val I p = x.2.
Proof.
  unfold pos_of. destruct (find_key _ _ _ _) as [[n bs]|] eqn:E; [|done]. cbn. intros [= <-].
  apply find_key_Some in E as (n'&del&->&Hn&Hk). cbn [Nat.add] in *. exists (del, bs). split_and!; [done|done|]. exact (val_at _ _ _ _ _ Hn).
Qed.
Lemma occupied_pos_of b first I p x : index b first I → occupied I p x →
  ∃ k, key_of tb_schema x.2 = Some k ∧ pos_of I k = Some p ∧ contents do_hash tb_schema I k = Some x.2.
Proof.
  intros Hx. destruct p as [[i j] n]. intros Ho. cbn in Ho. pose proof (ix_bucket _ _ _ _ _ _ Hx i j) as Hb.
  destruct (bk_key _ _ _ Hb n x Ho) as (_&k&Hk). apply has_key_of in Hk. exists k. split; [done|].
  pose proof (ix_hash _ _ _ _ _ _ Hx _ _ _ _ _ Ho Hk) as Hbk. unfold pos_of, contents. rewrite Hbk. cbn [fst snd].
  destruct x as [del bs]. by rewrite (find_key_at tb_schema key_ok k _ n del bs Hb Ho Hk).
Qed.

Section Positions.
Context (b : BPM) (first : Z) (I : ix) (m : gmap bytes bytes) (Hx : index b first I).
Context (Hm : ∀ k, contents do_hash tb_schema I k = m !! k).

Lemma all_pos_elem p : p ∈ all_pos I m ↔ ∃ x, occupied I p x.
Proof.
  unfold all_pos. rewrite list_elem_of_omap. split.
  - intros (k&_&Hk). destruct (pos_of_occupied I k p Hk) as (x&?&_). eauto.
  - intros [x Ho]. destruct (occupied_pos_of b first I p x Hx Ho) as (k&_&Hk&Hc). exists k. split; [|done].
    rewrite Hm in Hc. apply list_elem_of_fmap. exists (k, x.2). split; [done|]. by apply elem_of_map_to_list.
Qed.
Lemma all_pos_nodup : NoDup (all_pos I m).
Proof.
  unfold all_pos. pose proof (NoDup_fst_map_to_list m) as Hn. induction ((map_to_list m).*1) as [|k l IH]; [constructor|].
  apply NoDup_cons in Hn as [Hk Hn]. cbn [omap list_omap]. destruct (pos_of I k) as [p|] eqn:Ep; [|by apply IH]. constructor; [|by apply IH].
  rewrite list_elem_of_omap. intros (k'&Hk'&Ep'). destruct (pos_of_occupied I k p Ep) as (x&Ho&Hkx&_), (pos_of_occupied I k' p Ep') as (x'&Ho'&Hkx'&_).
  destruct p as [[i j] n]. cbn in Ho, Ho'. assert (x' = x) as -> by congruence. assert (k' = k) as -> by congruence. done.
Qed.
Lemma all_pos_vals : val I <$> all_pos I m = (map_to_list m).*2.
Proof.
  unfold all_pos. assert (∀ k bs, (k, bs) ∈ map_to_list m → ∃ p, pos_of I k = Some p ∧ val I p = bs) as Hall.
  { intros k bs Hk%elem_of_map_to_list. rewrite <- Hm in Hk. unfold contents in Hk.
    destruct (find_key tb_schema k (slots I (bucket do_hash k).1 (bucket do_hash k).2) 0) as [[n bs']|] eqn:Ef; [|done]. cbn in Hk. injection Hk as ->.
    exists ((bucket do_hash k).1, (bucket do_hash k).2, n). unfold pos_of. rewrite Ef. split; [done|].
    apply find_key_Some in Ef as (n'&del&->&Hn&_). cbn [Nat.add]. exact (val_at _ _ _ _ _ Hn). }
  induction (map_to_list m) as [|[k bs] l IH]; [done|]. destruct (Hall k bs) as (p&Hp&Hv); [by left|]. cbn [fmap list_fmap fst snd omap list_omap].
  rewrite Hp. cbn [fmap list_fmap]. rewrite Hv. f_equal. apply IH. intros k' bs' Hk'. apply Hall. by right.
Qed.

(** what is left after [p] is the next position and what is left after that *)
Lemma next_rest p p' : least I (plt p) (Some p') → filter (plt p) (all_pos I m) ≡ₚ p' :: filter (plt p') (all_pos I m).
Proof.
  intros (Hlt&Ho&Hl). apply NoDup_Permutation; [apply NoDup_filter, all_pos_nodup|constructor; [|apply NoDup_filter, all_pos_nodup]|].
  - rewrite list_elem_of_filter. intros [H _]. by apply plt_irrefl in H.
  - intros p0. rewrite elem_of_cons, !list_elem_of_filter, all_pos_elem. split.
    + intros [H1 [x H2]]. destruct (Hl p0 x H1 H2) as [->|]; [by left|right; eauto].
    + intros [->|[H1 H2]]; [by split|]. split; [by eapply plt_trans|done].
Qed.
Lemma next_none p : least I (plt p) None → filter (plt p) (all_pos I m) = [].
Proof.
  intros Hl. destruct (filter (plt p) (all_pos I m)) as [|p' l] eqn:E; [done|].
  assert (p' ∈ filter (plt p) (all_pos I m)) as [H1 H2]%list_elem_of_filter by (rewrite E; by left).
  apply all_pos_elem in H2 as [x Ho]. by destruct (Hl p' x).
Qed.
Lemma first_rest p : least I (λ p, 0 ≤ row p) (Some p) → all_pos I m ≡ₚ p :: filter (plt p) (all_pos I m).
Proof.
  intros (_&Ho&Hl). apply NoDup_Permutation; [apply all_pos_nodup|constructor; [|apply NoDup_filter, all_pos_nodup]|].
  - rewrite list_elem_of_filter. intros [H _]. by apply plt_irrefl in H.
  - intros p0. rewrite elem_of_cons, list_elem_of_filter, all_pos_elem. split.
    + intros [x H2]. destruct p0 as [[i j] n]. destruct (occupied_dir b first I Hx _ _ _ _ H2) as ([? _]&_).
      destruct (Hl (i, j, n) x) as [->|]; [unfold row; cbn; lia|done|by left|right; eauto].
    + intros [->|[H1 H2]]; [done|done].
Qed.
End Positions.

(** ** The scan *)

Lemma tuple_at_copy q n x : 0 ≤ zlen x.2 → Tuple_copy (tuple_at q n x) = Ok (tuple_at q n x).
Proof.
  intros Hz. unfold Tuple_copy, tuple_at. cbn [t_allocated t_data t_size t_rid]. rewrite mem_read_prefix by lia. cbn [mbind res_bind].
  rewrite take_ge; [done|]. unfold zlen. lia.
Qed.

Lemma scan_runs tb I m k : nonempty I → (∀ k, contents do_hash tb_schema I k = m !! k) → ∀ l b it p,
  bpm_ok b → index b (first_table_page_id_ tb) I → frames (3 + k) b → iter_at I it p → length (filter (plt p) (all_pos I m)) = l →
  ∃ vs it' b', runs 0 (mkSeqScan tb (Some it)) b vs (mkSeqScan tb (Some it')) b' ∧
    vs ≡ₚ val I <$> (p :: filter (plt p) (all_pos I m)) ∧ bpm_ok b' ∧ same_pages b b' ∧ frames (3 + k) b'.
Proof.
  intros Hne Hm. induction l as [|l IH]; intros b it p Hok Hx Hfr Hat Hf;
    (destruct (incr_ok b _ I it p Hok Hx Hne) as (o&it1&b1&Hi&Hs1&S1&Hl&Hres); [by eapply frames_less; [|exact Hfr]; lia|done|]);
    destruct (session_end _ _ Hs1) as [Hok1 Hav1]; pose proof (index_same _ _ _ _ _ _ _ S1 Hx) as Hx1;
    pose proof (frames_keep _ _ _ Hav1 Hfr) as Hfr1;
    destruct p as [[i j] n]; destruct Hat as (_&_&q&x&Hq&Ho&Et); destruct (link_is b _ I Hok Hx _ _ Hq) as [_ Hqn];
    pose proof (val_at I i j n x Ho) as Hv;
    (assert (∀ fuel t, ex_get_next fuel (mkSeqScan tb (Some it)) t b = Ok (true, tuple_at q n x, mkSeqScan tb (Some it1), b1)) as Hg;
     [intros fuel t; cbn [ex_get_next SeqScan_executor]; unfold SeqScan_get_next; cbn [tb_iter_ table_ of_opt]; cbn [mbind res_bind];
      rewrite Et; cbn [tuple_at t_rid rid_page_id]; rewrite (proj2 (Z.eqb_neq _ _) Hqn);
      change (mkTuple true (mkRID q (Z.of_nat n)) (zlen x.2) x.2) with (tuple_at q n x);
      rewrite tuple_at_copy by apply zlen_nonneg; cbn [mbind res_bind]; by rewrite Hi|]); destruct o as [p'|].
  - pose proof (Permutation_length (next_rest b _ I m Hx Hm _ _ Hl)) as Hlen. cbn [length] in Hlen. lia.
  - exists [x.2], it1, b1. rewrite (next_none b _ I m Hx Hm _ Hl), fmap_cons, Hv. split_and!; [|done..].
    eapply runs_next; [intros t; by exists (tuple_at q n x)|]. apply runs_end. intros t. exists t. intros fuel _.
    cbn [ex_get_next SeqScan_executor]. unfold SeqScan_get_next. cbn [tb_iter_ of_opt]. cbn [mbind res_bind]. by rewrite Hres.
  - pose proof (next_rest b _ I m Hx Hm _ _ Hl) as Hr. pose proof (Permutation_length Hr) as Hlen. cbn [length] in Hlen.
    destruct (IH b1 it1 p' Hok1 Hx1 Hfr1 Hres ltac:(lia)) as (vs&it2&b2&Hrun&Hp2&Hok2&S2&Hf2).
    exists (x.2 :: vs), it2, b2. split_and!; [|by rewrite fmap_cons, Hv, Hp2, Hr|done|by eapply same_pages_trans|done].
    eapply runs_next; [|exact Hrun]. intros t. by exists (tuple_at q n x).
  - pose proof (next_none b _ I m Hx Hm _ Hl) as E. rewrite E in Hf. done.
Qed.

(** opening the scan: at the first tuple, or at the end of an empty table *)
Lemma open_ok b tb m I sz k tbi : table_rep do_hash tb_schema key_ok sz b tb I m → frames (5 + k) b →
  ∃ o it b1, SeqScan_open (mkSeqScan tb tbi) b = Ok (mkSeqScan tb (Some it), b1) ∧ bpm_ok b1 ∧ frames (3 + k) b1 ∧ same_pages b b1 ∧
    least I (λ p, 0 ≤ row p) o ∧ match o with Some p => iter_at I it p | None => t_rid (it_tuple it) = no_rid end.
Proof.
  intros [Hok _ Hx _ _ _ Tu Bu] H5. set (first := first_table_page_id_ tb) in *.
  destruct (open_node do_hash tb_schema key_ok 3 b [] b first I NFirst first) as (f1&b1&p1&Hp&Hs1&S1&Hf1&_&_&D1&_);
    [by apply session_start|done|apply Hx|by apply not_elem_of_nil|by eapply frames_less; [|exact H5]; lia|cbn; lia|].
  destruct (iter_begin_ok b first I f1 p1 (Z.to_nat LK_HA_PG_SLOT_NUM)) with (s := 0) (b := b1)
    as (o&it&b'&H'&Hi&Hs'&Hl'&S'&Hl&Hres); [done|by eapply frames_less; [|exact H5]; lia|done|done|by eapply index_same|done|lia|rewrite dir_num; lia|].
  exists o, it, b'. unfold SeqScan_open, LinkHashTableIter_new. cbn [table_]. fold first. rewrite Hp. cbn [mbind res_bind].
  rewrite Hi. cbn [mbind res_bind]. split_and?; [done|apply Hs'| |by eapply same_pages_trans|done|done].
  eapply frames_leak; [exact Hs'|done|]. eapply frames_less; [|exact H5]. lia.
Qed.

(** one scan: opened and read to its end *)
Lemma scan_once b tb m sz k tbi : is_table do_hash tb_schema key_ok sz b tb m → frames (5 + k) b →
  ∃ it b1 vs it' b', SeqScan_open (mkSeqScan tb tbi) b = Ok (mkSeqScan tb (Some it), b1) ∧
    runs 0 (mkSeqScan tb (Some it)) b1 vs (mkSeqScan tb (Some it')) b' ∧ vs ≡ₚ (map_to_list m).*2 ∧
    same_pages b b' ∧ frames (3 + k) b' ∧ is_table do_hash tb_schema key_ok sz b' tb m.
Proof.
  intros [I Hr] H5. destruct (open_ok b tb m I sz k tbi Hr H5) as (o&it&b1&Ho&Hok1&Fr1&S1&Hl&Hres).
  destruct Hr as [Hok _ Hx Hm Sl Sz Tu Bu]. pose proof (index_same _ _ _ _ _ _ _ S1 Hx) as Hx1.
  pose proof (all_pos_vals I m Hm) as Hv. exists it, b1.
  assert (∀ b', bpm_ok b' → same_pages b b' → frames (3 + k) b' → is_table do_hash tb_schema key_ok sz b' tb m) as Hkeep.
  { intros b' ? HS ?. exists I. constructor; try done; [by eapply frames_less; [|done]; lia|by eapply index_same]. }
  destruct o as [p|].
  - pose proof (first_rest b _ I m Hx Hm p Hl) as Hp.
    destruct (scan_runs tb I m k ltac:(done) Hm _ b1 it p Hok1 Hx1 Fr1 Hres eq_refl) as (vs&it'&b'&Hd&Hpl&Hok'&S'&Hf').
    assert (same_pages b b') by (by eapply same_pages_trans).
    exists vs, it', b'. split_and!; [done|done| |done|done|by apply Hkeep]. rewrite Hpl, <- Hp. by rewrite Hv.
  - exists [], it, b1. split_and!; [done| | |done|done|by apply Hkeep].
    + apply runs_end. intros t. exists t. intros fuel _. cbn [ex_get_next SeqScan_executor]. unfold SeqScan_get_next.
      cbn [tb_iter_ of_opt]. cbn [mbind res_bind]. by rewrite Hres.
    + rewrite <- Hv. destruct (all_pos I m) as [|[[i j] n] l] eqn:E; [done|].
      assert ((i, j, n) ∈ all_pos I m) as [x Hpx]%(all_pos_elem b _ I m Hx Hm) by (rewrite E; by left).
      destruct (occupied_dir b _ I Hx _ _ _ _ Hpx) as ([? _]&_). by destruct (Hl (i, j, n) x).
Qed.

(** a scan of a table can be repeated; every time two frames stay pinned *)
Lemma scan_delivers tb m sz k : ∀ b tbi, is_table do_hash tb_schema key_ok sz b tb m → frames (3 + 2 * k) b →
  delivers 0 k (mkSeqScan tb tbi) b (map_to_list m).*2.
Proof.
  induction k as [|k IH]; intros b tbi Ht Hf; [done|].
  destruct (scan_once b tb m sz (2 * k) tbi Ht) as (it&b1&vs&it'&b'&Ho&Hr&Hp&HS&Hf'&Ht'); [by eapply frames_less; [|exact Hf]; lia|].
  exists (mkSeqScan tb (Some it)), b1, vs, (mkSeqScan tb (Some it')), b', (mkSeqScan tb None), b'. split_and!; try done.
  - by destruct Ht' as [I []].
  - by apply IH.
Qed.

(** C3: A sequential scan returns the whole table: on any represented table in a sound
    pool with five frames to spare, opening the executor and pulling tuples until it
    reports the end terminates within as many steps as the table has tuples plus
    two, yields every tuple of the table exactly once and no other, changes no page
    and leaves the pool sound. *)
Theorem seq_scan_complete b tb m sz :
  is_table do_hash tb_schema key_ok sz b tb m → frames 5 b →
  ∃ ex b1 l ex' b', SeqScan_open (SeqScan_new tb) b = Ok (ex, b1) ∧
    drain (base.size m + 2) 0 ex Tuple_default b1 = Ok (l, ex', b') ∧
    t_data <$> l ≡ₚ (map_to_list m).*2 ∧ bpm_ok b' ∧ same_pages b b'.
Proof.
  intros Ht H5. destruct (scan_once b tb m sz 0 None Ht H5) as (it&b1&vs&it'&b'&Ho&Hr&Hp&HS&_&[I []]).
  pose proof (Permutation_length Hp) as Hlen. rewrite length_fmap, length_map_to_list in Hlen.
  destruct (runs_drain _ _ _ _ _ _ Hr (base.size m + 2) 0 Tuple_default ltac:(lia) ltac:(lia)) as (l&Hd&Hl).
  exists (mkSeqScan tb (Some it)), b1, l, (mkSeqScan tb (Some it')), b'. by rewrite Hl.
Qed.
End Scan.

(** ** Witness: three tuples in two buckets, a pool of twelve frames *)

Definition pool_scan : BufferPoolManager ClockReplacer := BufferPoolManager_new disk_t 12.
Lemma pool_scan_ok : bpm_ok pool_scan ∧ alloced pool_scan = [0] ∧ frames 2 pool_scan.
Proof.
  split_and!; [|apply (proj1 (proj2 disk_t_ok))|].
  - apply BufferPoolManager_new_ok; [lia|apply (rs_ok _ _ (proj1 disk_t_ok))|].
    intros q Hq. rewrite (proj1 (proj2 disk_t_ok)) in Hq. apply list_elem_of_singleton in Hq as ->.
    exists (1 :: replicate 4095 0). split; vm_compute; reflexivity.
  - exists [0; 1]. split_and!; [apply (bool_decide_unpack _); vm_compute; exact I|reflexivity|]. intros g Hg. left.
    change (free_list_ pool_scan) with (seqZ 0 12). apply elem_of_seqZ. set_solver by lia.
Qed.

Definition ops_scan : list table_op := [TInsert (tuple_t 5 7); TInsert (tuple_t 6 8); TInsert (tuple_t 261 10)].
(** the pool after the insertions *)
Definition run_scan (b : BufferPoolManager ClockReplacer) : option (BufferPoolManager ClockReplacer) :=
  match run_table hash_t schema_t (mkTable 0) ops_scan b with Ok (_, b') => Some b' | Err _ => None end.
(** the table it holds *)
Definition map_scan : gmap bytes bytes := (spec_tables schema_t ops_scan ∅).2.

Lemma table_scan_t : ∃ b, is_table hash_t schema_t int_key 8 b (mkTable 0) map_scan ∧ frames 8 b.
Proof.
  destruct (Table_new_ok hash_t schema_t int_key 8 0 pool_scan) as (b0&H0&Ht&_);
    [lia|apply pool_scan_ok|rewrite (proj1 (proj2 pool_scan_ok)); apply list_elem_of_singleton; reflexivity|apply pool_scan_ok|].
  destruct (run_table_ok hash_t schema_t int_key 8 (mkTable 0) ops_scan) with (b := b0) (m := ∅ : gmap bytes bytes) as (b&Hr&Hb); [lia|exact Ht| |].
  { apply (ops_fitb_sound hash_t schema_t int_key int_keyb int_keyb_sound).
    assert (match Table_new 0 true pool_scan with Ok (_, b) => ops_fitb hash_t schema_t int_keyb 8 (mkTable 0) ops_scan b ∅ | Err _ => false end = true) as E
      by (vm_compute; reflexivity).
    rewrite H0 in E. exact E. }
  exists b. split; [exact Hb|].
  assert (match Table_new 0 true pool_scan with
          | Ok (_, b) => free_list_ <$> run_scan b | Err _ => None end = Some [4; 5; 6; 7; 8; 9; 10; 11]) as E by (vm_compute; reflexivity).
  rewrite H0 in E. unfold run_scan in E. rewrite Hr in E. injection E as E.
  exists [4; 5; 6; 7; 8; 9; 10; 11]. split; [apply (bool_decide_unpack _); vm_compute; exact I|]. split; [reflexivity|].
  intros g Hg. left. by rewrite E.
Qed.
Lemma map_scan_values : (map_to_list map_scan).*2 ≡ₚ [enc32 5 ++ enc32 7; enc32 6 ++ enc32 8; enc32 261 ++ enc32 10].
Proof. apply (bool_decide_unpack _). vm_compute. exact I. Qed.

Lemma seq_scan_complete_witness :
  ∃ b ex b1 l ex' b', SeqScan_open (SeqScan_new (mkTable 0)) b = Ok (ex, b1) ∧
    drain 5 0 ex Tuple_default b1 = Ok (l, ex', b') ∧
    t_data <$> l ≡ₚ [enc32 5 ++ enc32 7; enc32 6 ++ enc32 8; enc32 261 ++ enc32 10].
Proof.
  destruct table_scan_t as (b&Hb&Hf).
  destruct (seq_scan_complete hash_t schema_t int_key b (mkTable 0) map_scan 8 Hb) as (ex&b1&l&ex'&b'&H1&H2&H3&_).
  - apply (frames_less 8 5); [lia|exact Hf].
  - exists b, ex, b1, l, ex', b'. split; [exact H1|]. split; [exact H2|]. rewrite H3. exact map_scan_values.
Defined.
