(* ===== verification/ExecSpec.v ===== *)
(** What queries return: selections filter and projections map what their child
    delivers, aggregates fold it, and a query over a table returns what it means on
    the map the table represents. *)
From S2P Require Import Prelude Config Replacer ClockReplacer Page FileSys DiskManager BufferPool PoolSpec Values TablePage TablePageSpec Schema Expressions PoolClient LinkHash LinkHashSpec Table TableSpec Executors TableScan.

(** ** Selection *)

(** a tuple with the bytes [bs]; evaluation does not look at the rest *)
Definition tup (bs : bytes) : Tuple := mkTuple true RID_default (zlen bs) bs.
(** the predicate [e] on a tuple with the bytes [bs] *)
Definition sat (e : Expression) (s : Schema) (bs : bytes) : res bool :=
  let* (v, _) := evaluate e (tup bs) s in Value_eq v (Value_bool true).
(** what a comparison of an integer column with a constant means *)
Definition cmp_holds (c : ComparisonType) (x y : Z) : bool :=
  match c with
  | kEqual => x =? y
  | kNotEqual => negb (x =? y)
  | kLessThan => x <? y
  | kLessThanOrEqual => x <=? y
  | kGreaterThan => y <? x
  | kGreaterThanOrEqual => y <=? x
  end.
Lemma sat_int c i x y s bs : get_value (tup bs) s i = Ok (Value_int x) →
  sat (ComparisonExpression [ColumnValueExpression i; ConstantExpression (Value_int y)] c) s bs = Ok (cmp_holds c x y).
Proof.
  intros H. unfold sat. cbn [evaluate]. rewrite H. cbn [mbind res_bind]. unfold perform_cmp. change (get_instance _) with (Ok Integer). change (Value_copy _) with (Ok (Value_int y)).
  assert (∀ k : bool, Value_eq (Value_cmp (cmp_of k)) (Value_bool true) = Ok k) as Hk by (by intros []).
  destruct c; cbn [mbind res_bind Integer cmp_less cmp_less_and_eq cmp_eq cmp_not_eq cmp_greater cmp_greater_and_eq get_integer Value_int value_ cmp_holds];
    rewrite Hk; by rewrite ?Z.gtb_ltb, ?Z.geb_leb.
Qed.
Definition satb (e : Expression) (s : Schema) (bs : bytes) : bool := match sat e s bs with Ok r => r | Err _ => false end.
(** the tuples a selection keeps *)
Definition select (e : Expression) (s : Schema) (l : list bytes) : list bytes := filter (λ x, satb e s x = true) l.

Lemma select_cons e s x l r : sat e s x = Ok r → select e s (x :: l) = if r then x :: select e s l else select e s l.
Proof.
  intros Hx. assert (satb e s x = r) as Hr by (unfold satb; by rewrite Hx). unfold select. rewrite filter_cons.
  destruct r; [by rewrite decide_True|]. rewrite decide_False; [done|]. by rewrite Hr.
Qed.

Section Selection.
Context {R E : Type} `{RA : ReplacerAbstract R} `{EA : ExecutorAbstract R E}.
Context (pred : Expression) (schema : Schema) (Hpure : pure pred = true).
Implicit Types (b : BufferPoolManager R) (c : E).
Notation sel c := (SelectionExecutor_new pred c schema).

Lemma sat_evaluate t r : sat pred schema (t_data t) = Ok r →
  ∃ v, evaluate pred t schema = Ok (v, pred) ∧ Value_eq v (Value_bool true) = Ok r.
Proof.
  unfold sat. rewrite (evaluate_data pred (tup (t_data t)) t) by done. destruct (evaluate pred t schema) as [[v e]|] eqn:E1; [|done].
  cbn [mbind res_bind]. intros H. exists v. by rewrite (pure_evaluate _ _ _ _ _ Hpure E1).
Qed.

(** one call: it passes over the tuples that are not selected *)
Lemma selection_step n c b l c' b' : runs n c b l c' b' → (∀ x, x ∈ l → ∃ r, sat pred schema x = Ok r) →
  (select pred schema l = [] ∧
    ∀ t, ∃ t', ∀ turns fuel, (length l < turns)%nat → (n ≤ fuel)%nat → selection_loop turns fuel (sel c) t b = Ok (false, t', sel c', b')) ∨
  (∃ x l2 c2 b2, select pred schema l = x :: select pred schema l2 ∧ (length l2 < length l)%nat ∧ l2 ⊆ l ∧ runs n c2 b2 l2 c' b' ∧
    ∀ t, ∃ t', t_data t' = x ∧ ∀ turns fuel, (length l < turns)%nat → (n ≤ fuel)%nat →
      selection_loop turns fuel (sel c) t b = Ok (true, t', sel c2, b2)).
Proof.
  induction 1 as [c b c' b' H|c b x l c1 b1 c' b' H Hr IH]; intros Hsat.
  { left. split; [done|]. intros t. destruct (H t) as [t' Ht]. exists t'. intros [|turns] fuel Hturn Hfuel; [lia|].
    cbn [selection_loop SelectionExecutor_new sel_child]. by rewrite Ht by done. }
  destruct (Hsat x ltac:(by left)) as [r Hx].
  assert (∀ t', t_data t' = x → ∀ t turns fuel, (∀ fuel, (n ≤ fuel)%nat → ex_get_next fuel c t b = Ok (true, t', c1, b1)) → (n ≤ fuel)%nat →
    selection_loop (S turns) fuel (sel c) t b = if r then Ok (true, t', sel c1, b1) else selection_loop turns fuel (sel c1) t' b1) as Hstep.
  { intros t' Ht' t turns fuel Hg Hf. cbn [selection_loop SelectionExecutor_new sel_child sel_predicate sel_schema sel_cmp].
    rewrite (Hg fuel Hf). cbn [mbind res_bind]. rewrite <- Ht' in Hx. destruct (sat_evaluate _ _ Hx) as (v&->&Hv). cbn [mbind res_bind].
    rewrite Hv. by destruct r. }
  rewrite (select_cons _ _ x l r Hx). destruct r.
  - right. exists x, l, c1, b1. split_and!; [done|cbn; lia|set_solver|done|]. intros t.
    destruct (H t) as (t'&Ht'&Hg). exists t'. split; [done|]. intros [|turns] fuel Hturn Hfuel; [lia|]. by rewrite (Hstep t').
  - destruct IH as [[E0 Hend]|(y&l2&c2&b2&E0&Hlen&Hsub&Hr2&Hnext)]; [set_solver|left|right].
    + split; [done|]. intros t. destruct (H t) as (t'&Ht'&Hg). destruct (Hend t') as [t2 Ht2]. exists t2.
      intros [|turns] fuel Hturn Hfuel; [lia|]. rewrite (Hstep t') by done. apply Ht2; [cbn in Hturn; lia|done].
    + exists y, l2, c2, b2. split_and!; [done|cbn; lia|set_solver|done|]. intros t. destruct (H t) as (t'&Ht'&Hg).
      destruct (Hnext t') as (t2&Hy&Ht2). exists t2. split; [done|].
      intros [|turns] fuel Hturn Hfuel; [lia|]. rewrite (Hstep t') by done. apply Ht2; [cbn in Hturn; lia|done].
Qed.

Lemma selection_runs n m : ∀ l c b c' b', (length l ≤ m)%nat → runs n c b l c' b' → (∀ x, x ∈ l → ∃ r, sat pred schema x = Ok r) →
  runs (n + S m) (sel c) b (select pred schema l) (sel c') b'.
Proof.
  intros l. remember (length l) as k eqn:Ek. revert l Ek. induction (lt_wf k) as [k _ IH]. intros l -> c b c' b' Hm Hr Hsat.
  destruct (selection_step n c b l c' b' Hr Hsat) as [[-> Hend]|(x&l2&c2&b2&->&Hlen&Hsub&Hr2&Hnext)].
  - apply runs_end. intros t. destruct (Hend t) as [t' Ht']. exists t'. intros fuel Hf. apply Ht'; lia.
  - eapply runs_next; [|eapply (IH _ Hlen); [done|lia|done|set_solver]].
    intros t. destruct (Hnext t) as (t'&Hx&Ht'). exists t'. split; [done|]. intros fuel Hf. apply Ht'; lia.
Qed.

Lemma selection_delivers n k l : (∀ x, x ∈ l → ∃ r, sat pred schema x = Ok r) → ∀ c b,
  delivers n k c b l → delivers (n + S (length l)) k (sel c) b (select pred schema l).
Proof.
  intros Hsat. induction k as [|k IH]; intros c b; [done|]. intros (c1&b1&l'&c2&b2&c3&b3&Ho&Hr&Hp&Hc&Hok&HS&Hd).
  exists (sel c1), b1, (select pred schema l'), (sel c2), b2, (sel c3), b3. split_and!; try done.
  - intros fuel Hf. cbn [ex_open Selection_executor]. unfold Selection_open, SelectionExecutor_new. cbn [sel_child]. by rewrite Ho by lia.
  - apply selection_runs; [by rewrite Hp|done|]. intros x Hx. apply Hsat. by rewrite <- Hp.
  - unfold select. by rewrite Hp.
  - cbn [ex_close Selection_executor]. unfold Selection_close, SelectionExecutor_new. cbn [sel_child]. by rewrite Hc.
  - by apply IH.
Qed.
End Selection.

(** ** Projection *)

Lemma set_value_rid junk s v i a r r' sz d : ∀ t, set_value junk s v i (mkTuple a r sz d) = Ok t →
  ∃ d', t = mkTuple a r sz d' ∧ set_value junk s v i (mkTuple a r' sz d) = Ok (mkTuple a r' sz d').
Proof.
  intros t. unfold set_value. cbn [t_allocated t_rid t_size t_data]. destruct (get_column s i) as [c|]; [|done]. cbn [mbind res_bind].
  case_decide.
  - destruct (get_data_size c) as [n|]; [|done]. cbn [mbind res_bind]. destruct (Value_serialize_to v _ 0) as [tmp|]; [|done]. cbn [mbind res_bind].
    destruct (mem_read tmp 0 n) as [bs|]; [|done]. cbn [mbind res_bind]. destruct (mem_write d _ bs) as [d'|]; [|done]. cbn [mbind res_bind].
    intros [= <-]. eauto.
  - destruct (Value_serialize_to v d _) as [d'|]; [|done]. cbn [mbind res_bind]. intros [= <-]. eauto.
Qed.
Lemma set_values_rid stack s vs n r r' : ∀ i a sz d t, set_values stack s vs i n (mkTuple a r sz d) = Ok t →
  ∃ d', t = mkTuple a r sz d' ∧ set_values stack s vs i n (mkTuple a r' sz d) = Ok (mkTuple a r' sz d').
Proof.
  induction n as [|n IH]; intros i a sz d t; cbn [set_values]; [intros [= <-]; eauto|].
  destruct (vs !! Z.to_nat i) as [v|]; [|done]. cbn [of_opt mbind res_bind].
  destruct (set_value _ _ _ _ (mkTuple a r sz d)) as [t1|] eqn:E1; [|done]. cbn [mbind res_bind].
  destruct (set_value_rid _ _ _ _ _ r r' _ _ _ E1) as (d1&->&->). cbn [mbind res_bind]. apply IH.
Qed.

Lemma evaluate_all_data es t t' s : t_data t = t_data t' → evaluate_all es t s = evaluate_all es t' s.
Proof. intros Hd. induction es as [|e es IH]; cbn [evaluate_all]; [done|]. by rewrite (evaluate_data e t t'), IH. Qed.

(** appending the aggregates *)
Lemma push_aggs_ok vs n : ∀ i vals, (∀ v, v ∈ vs → Value_copy v = Ok v) → (i + n = length vs)%nat →
  push_aggs n (Z.of_nat i) vs vals = Ok (vals ++ drop i vs).
Proof.
  induction n as [|n IH]; intros i vals Hc Hi; cbn [push_aggs].
  { by rewrite drop_ge, app_nil_r by lia. }
  destruct (lookup_lt_is_Some_2 vs i) as [v Hv]; [lia|]. rewrite Nat2Z.id, Hv. cbn [of_opt mbind res_bind].
  rewrite Hc by (by eapply list_elem_of_lookup_2). cbn [mbind res_bind]. replace (Z.of_nat i + 1) with (Z.of_nat (S i)) by lia.
  rewrite IH by (done || lia). by rewrite <- app_assoc, (drop_S _ _ _ Hv).
Qed.

Section Projection.
Context {R E : Type} `{RA : ReplacerAbstract R} `{EA : ExecutorAbstract R E}.
Context (heap : bytes → bytes) (stack : bytes → Z → bytes).
Context (exprs : list Expression) (schema out : Schema).
Context (types : list TypeId) (names : list bytes) (sizes : list Z) (Hout : schema_is types names sizes out) (Hnames : length names = length types).
Implicit Types (b : BufferPoolManager R) (c : E).
#[local] Instance proj_ex : ExecutorAbstract R (ProjectionExecutor E) := Projection_executor heap stack.

(** the values projected from a tuple with the bytes [bs] *)
Definition row (bs : bytes) : list Value := match evaluate_all exprs (tup bs) schema with Ok (vs, _) => vs | Err _ => [] end.
(** they can be computed and, with the aggregates [aggs], stored *)
Definition row_ok (aggs : list Value) (bs : bytes) : Prop :=
  (∃ vs, evaluate_all exprs (tup bs) schema = Ok (vs, exprs)) ∧ values_fit types sizes (row bs ++ aggs).
(** the tuple that is built *)
Definition projected (aggs : list Value) (bs : bytes) : bytes :=
  match Tuple_init (heap bs) (stack bs) RID_default (row bs ++ aggs) out with Ok t => t_data t | Err _ => [] end.

Lemma projected_ok aggs bs rid : row_ok aggs bs →
  ∃ t, Tuple_init (heap bs) (stack bs) rid (row bs ++ aggs) out = Ok t ∧ t_data t = projected aggs bs.
Proof.
  intros [_ Hfit]. unfold projected.
  destruct (Tuple_init_ok _ _ _ _ (heap bs) (stack bs) RID_default _ Hout Hnames Hfit) as (t&Ht&_). rewrite Ht.
  unfold Tuple_init in *. destruct (set_values_rid _ _ _ _ RID_default rid _ _ _ _ _ Ht) as (d&->&->). by eexists.
Qed.
Lemma projected_values aggs bs t : row_ok aggs bs → t_data t = projected aggs bs →
  ∀ j v, (row bs ++ aggs) !! j = Some v → ∃ w, get_value t out (Z.of_nat j) = Ok w ∧ same_content w v.
Proof.
  intros [_ Hfit] Ht j v Hj. unfold projected in Ht.
  destruct (Tuple_init_ok _ _ _ _ (heap bs) (stack bs) RID_default _ Hout Hnames Hfit) as (t'&Ht'&_&_&Hg). rewrite Ht' in Ht.
  rewrite (get_value_same t t' _ _ Ht). by apply Hg.
Qed.

(** the executor with child [c]; [aggs] are its aggregates when it has any *)
Definition proj_at c (nt : Tuple) (aes : list Expression) (is_agg : bool) (avs : list Value) : ProjectionExecutor E :=
  mkProjection c exprs nt schema out aes is_agg avs (zlen avs).
Definition aggs_of (is_agg : bool) (avs : list Value) : list Value := if is_agg then avs else [].

Lemma projection_runs n aes is_agg avs : (∀ v, v ∈ avs → Value_copy v = Ok v) → ∀ c b l c' b', runs n c b l c' b' →
  (∀ x, x ∈ l → row_ok (aggs_of is_agg avs) x) → ∀ nt, ∃ nt',
  runs n (proj_at c nt aes is_agg avs) b (projected (aggs_of is_agg avs) <$> l) (proj_at c' nt' aes is_agg avs) b'.
Proof.
  intros Hcp. induction 1 as [c b c' b' H|c b x l c1 b1 c' b' H Hr IH]; intros Hrow nt.
  - destruct (H nt) as [nt' Ht]. exists nt'. apply runs_end. intros t. exists t. intros fuel Hf.
    cbn [ex_get_next proj_ex Projection_executor]. unfold Projection_get_next, proj_at. cbn [pr_child pr_next_tuple]. by rewrite Ht.
  - destruct (H nt) as (nt1&Hx&Ht). destruct (IH ltac:(set_solver) nt1) as [nt' Hr'].
    exists nt'. rewrite fmap_cons. eapply runs_next; [|exact Hr']. intros t.
    pose proof (Hrow x ltac:(by left)) as Hrx. destruct (projected_ok _ x (t_rid t) Hrx) as (t'&Ht'&Hd). exists t'. split; [done|]. intros fuel Hf.
    cbn [ex_get_next proj_ex Projection_executor]. unfold Projection_get_next, proj_at. cbn [pr_child pr_next_tuple]. rewrite Ht by done. cbn [mbind res_bind negb].
    destruct Hrx as [[vs Hvs] _]. cbn [pr_upd pr_exprs pr_input_schema].
    rewrite (evaluate_all_data exprs nt1 (tup x)) by done. rewrite Hvs. cbn [mbind res_bind pr_upd pr_upd_exprs pr_is_aggregate pr_agg_vals pr_agg_num pr_output_schema].
    assert (row x = vs) as Erow by (unfold row; by rewrite Hvs). rewrite Hx. unfold reconstruct.
    assert ((if is_agg then push_aggs (Z.to_nat (zlen avs)) 0 avs vs else Ok vs) = Ok (row x ++ aggs_of is_agg avs)) as ->.
    { rewrite Erow. destruct is_agg; cbn [aggs_of]; [|by rewrite app_nil_r].
      unfold zlen. rewrite Nat2Z.id. apply (push_aggs_ok avs (length avs) 0); [done|lia]. }
    cbn [mbind res_bind]. by rewrite Ht'.
Qed.

(** without aggregates *)
Lemma projection_delivers n k l : (∀ x, x ∈ l → row_ok [] x) → ∀ c b nt,
  delivers n k c b l → delivers n k (proj_at c nt [] false []) b (projected [] <$> l).
Proof.
  intros Hrow. induction k as [|k IH]; intros c b nt; [done|]. intros (c1&b1&l'&c2&b2&c3&b3&Ho&Hr&Hp&Hc&Hok&HS&Hd).
  destruct (projection_runs n [] false []) with (c := c1) (b := b1) (l := l') (c' := c2) (b' := b2) (nt := nt) as [nt' Hr'];
    [by intros v ?%not_elem_of_nil|done|intros x Hx; apply Hrow; by rewrite <- Hp|].
  eexists (proj_at c1 nt [] false []), b1, _, _, b2, (proj_at c3 nt' [] false []), b3. split_and!; [|exact Hr'|by rewrite Hp| |done|done|by apply IH].
  - intros fuel Hf. cbn [ex_open proj_ex Projection_executor]. unfold Projection_open, proj_at. cbn [pr_child]. by rewrite Ho by lia.
  - cbn [ex_close proj_ex Projection_executor]. unfold Projection_close, proj_at. cbn [pr_child]. by rewrite Hc.
Qed.
End Projection.

(** ** Aggregates *)

(** the aggregate of the integers [zs] *)
Definition agg_of (ty : AggregationType) (zs : list Z) : Z :=
  match ty with
  | kCountAggregate => zlen zs
  | kSumAggregate => sumZ zs
  | kMinAggregate => foldr Z.min INT32_MAX zs
  | kMaxAggregate => foldr Z.max INT32_MIN zs
  end.

#[export] Instance agg_of_proper ty : Proper ((≡ₚ) ==> (=)) (agg_of ty).
Proof. intros l l'. induction 1; destruct ty; cbn [agg_of sumZ foldr] in *; unfold zlen in *; cbn [length] in *; lia. Qed.

Lemma sumZ_app l l' : sumZ (l ++ l') = sumZ l + sumZ l'.
Proof. induction l as [|x l IH]; cbn [sumZ app]; [lia|]. rewrite IH. lia. Qed.

(** no sum of some of [zs] overflows, and they can be counted *)
Definition summable (zs : list Z) : Prop := sumZ (Z.abs <$> zs) ≤ INT32_MAX ∧ zlen zs ≤ INT32_MAX ∧ Forall in32 zs.

Lemma summable_perm zs zs' : zs ≡ₚ zs' → summable zs → summable zs'.
Proof.
  intros Hp (H1&H2&H3). split_and!; [|unfold zlen in *; by rewrite <- Hp|by rewrite <- Hp].
  pose proof (agg_of_proper kSumAggregate _ _ (fmap_Permutation Z.abs _ _ Hp)) as Hs. cbn [agg_of] in Hs. by rewrite <- Hs.
Qed.
Lemma summable_app zs zs' : summable (zs ++ zs') → summable zs.
Proof.
  intros (H1&H2&[H3 _]%Forall_app). rewrite fmap_app, sumZ_app in H1. rewrite zlen_app in H2.
  assert (0 ≤ sumZ (Z.abs <$> zs')) by (apply sumZ_nonneg, Forall_forall; intros ? (?&->&_)%list_elem_of_fmap; lia).
  pose proof (zlen_nonneg zs'). split_and!; [lia|lia|done].
Qed.
Lemma agg_of_in32 ty zs : summable zs → in32 (agg_of ty zs).
Proof.
  intros (H1&H2&H3). destruct ty; cbn [agg_of].
  - pose proof (zlen_nonneg zs). cfg_lia.
  - assert (Z.abs (sumZ zs) ≤ sumZ (Z.abs <$> zs)); [|cfg_lia]. clear. induction zs as [|z zs IH]; cbn; [lia|]. cbn in IH. lia.
  - clear H1 H2. induction H3; cbn; cfg_lia.
  - clear H1 H2. induction H3; cbn; cfg_lia.
Qed.
Lemma agg_of_snoc ty zs z : in32 z → agg_of ty (zs ++ [z]) =
  match ty with kCountAggregate => agg_of ty zs + 1 | kSumAggregate => agg_of ty zs + z
  | kMinAggregate => Z.min (agg_of ty zs) z | kMaxAggregate => Z.max (agg_of ty zs) z end.
Proof.
  intros Hz. destruct ty; cbn [agg_of].
  - rewrite zlen_app. done.
  - rewrite sumZ_app. cbn. lia.
  - rewrite foldr_app. cbn. induction zs; cbn; cfg_lia.
  - rewrite foldr_app. cbn. induction zs; cbn; cfg_lia.
Qed.

(** one more tuple *)
Lemma evaluate_aggregate ty i zs z t s : summable (zs ++ [z]) → (ty ≠ kCountAggregate → get_value t s i = Ok (Value_int z)) →
  evaluate (AggregateExpression ty i (Value_int (agg_of ty zs))) t s =
    Ok (Value_int (agg_of ty (zs ++ [z])), AggregateExpression ty i (Value_int (agg_of ty (zs ++ [z])))).
Proof.
  intros Hs Hv. pose proof (agg_of_in32 ty _ Hs) as Hin. pose proof Hs as (_&_&[_ [Hz _]%Forall_cons]%Forall_app).
  rewrite (agg_of_snoc _ _ _ Hz) in *. cbn [evaluate]. destruct ty; cbn [perform_aggregation]; [|rewrite Hv by done; cbn [mbind res_bind]..].
  - unfold Value_incr. cbn [type_id_ Value_int get_integer value_ mbind res_bind]. by rewrite add32_Ok.
  - change (get_instance _) with (Ok Integer). cbn [mbind res_bind Integer add Value_int get_integer value_]. by rewrite add32_Ok.
  - change (get_instance _) with (Ok Integer). cbn [mbind res_bind Integer cmp_less Value_int get_integer value_].
    destruct (Z.ltb_spec z (agg_of kMinAggregate zs)); cbn [cmp_of]; case_decide; try done; [by rewrite Z.min_r by lia|by rewrite Z.min_l by lia].
  - change (get_instance _) with (Ok Integer). cbn [mbind res_bind Integer cmp_greater Value_int get_integer value_].
    destruct (Z.gtb_spec z (agg_of kMaxAggregate zs)); cbn [cmp_of]; case_decide; try done; [by rewrite Z.max_r by lia|by rewrite Z.max_l by lia].
Qed.

(** the loop over the aggregates: those in [rest] are still to be done *)
Lemma aggregate_all_ok {A} (e e' : A → Expression) (v v' : A → Value) t s (rest : list A) : ∀ done : list A,
  (∀ a, a ∈ rest → evaluate (e a) t s = Ok (v' a, e' a) ∧ Value_copy (v' a) = Ok (v' a)) →
  aggregate_all (length rest) (Z.of_nat (length done)) ((e' <$> done) ++ (e <$> rest)) ((v' <$> done) ++ (v <$> rest)) t s =
    Ok (e' <$> (done ++ rest), v' <$> (done ++ rest)).
Proof.
  induction rest as [|a rest IH]; intros dn Ha; cbn [length aggregate_all].
  { by rewrite !app_nil_r. }
  destruct (Ha a ltac:(by left)) as [He Hc]. rewrite !Nat2Z.id, !fmap_cons.
  rewrite !lookup_app_r by (rewrite length_fmap; done). rewrite !length_fmap, Nat.sub_diag. cbn [lookup list_lookup of_opt mbind res_bind].
  rewrite He. cbn [mbind res_bind]. unfold Value_assign. rewrite Hc. cbn [mbind res_bind].
  rewrite !insert_app_r_alt by (rewrite length_fmap; done). rewrite !length_fmap, Nat.sub_diag. cbn [insert list_insert].
  pose proof (IH (dn ++ [a]) ltac:(set_solver)) as H. rewrite length_app, !fmap_app, <- !app_assoc in H. cbn [length fmap list_fmap app] in H.
  replace (Z.of_nat (length dn) + 1) with (Z.of_nat (length dn + 1)) by lia. rewrite H. by rewrite !fmap_app.
Qed.

Section Aggregation.
Context {R E : Type} `{RA : ReplacerAbstract R} `{EA : ExecutorAbstract R E}.
Context (heap : bytes → bytes) (stack : bytes → Z → bytes).
Context (exprs : list Expression) (schema out : Schema).
(** the aggregates: their types and columns; [col i x] is the integer in column [i] *)
Context (aggs : list (AggregationType * Z)) (col : Z → bytes → Z).
Implicit Types (b : BufferPoolManager R) (c : E) (l : list bytes).
#[local] Instance proj_agg : ExecutorAbstract R (ProjectionExecutor E) := Projection_executor heap stack.

Definition agg_val l (a : AggregationType * Z) : Value := Value_int (agg_of a.1 (col a.2 <$> l)).
Definition agg_expr l (a : AggregationType * Z) : Expression := AggregateExpression a.1 a.2 (agg_val l a).
(** the columns of the aggregates hold these integers, and they can be added up *)
Definition agg_ok l : Prop :=
  ∀ a, a ∈ aggs → summable (col a.2 <$> l) ∧ ∀ x, x ∈ l → a.1 ≠ kCountAggregate → get_value (tup x) schema a.2 = Ok (Value_int (col a.2 x)).
Notation agg_at c nt l := (proj_at exprs schema out c nt (agg_expr l <$> aggs) true (agg_val l <$> aggs)).

Lemma agg_ok_perm l l' : l ≡ₚ l' → agg_ok l → agg_ok l'.
Proof.
  intros Hp Hl a Ha. destruct (Hl a Ha) as [Hs Hv]. split; [by eapply summable_perm; [apply fmap_Permutation|]|].
  intros x Hx. apply Hv. by rewrite Hp.
Qed.
Lemma agg_val_perm l l' a : l ≡ₚ l' → agg_val l a = agg_val l' a.
Proof. intros Hp. unfold agg_val. by rewrite (agg_of_proper a.1 _ _ (fmap_Permutation (col a.2) _ _ Hp)). Qed.

(** the first pass over the child *)
Lemma agg_loop_ok n c b l c' b' : runs n c b l c' b' → ∀ l0 nt, agg_ok (l0 ++ l) →
  ∃ nt', ∀ turns fuel, (length l < turns)%nat → (n ≤ fuel)%nat → agg_loop turns fuel (agg_at c nt l0) b = Ok (agg_at c' nt' (l0 ++ l), b').
Proof.
  induction 1 as [c b c' b' H|c b x l c1 b1 c' b' H _ IH]; intros l0 nt Hok.
  - destruct (H nt) as [nt' Ht]. exists nt'. intros [|turns] fuel Hturn Hf; [lia|]. cbn [agg_loop]. unfold proj_at. cbn [pr_child pr_next_tuple].
    rewrite Ht by done. cbn [mbind res_bind]. by rewrite app_nil_r.
  - destruct (H nt) as (nt1&Hx&Ht). replace (l0 ++ x :: l) with ((l0 ++ [x]) ++ l) in * by (by rewrite <- app_assoc).
    destruct (IH (l0 ++ [x]) nt1 Hok) as [nt' Hn]. exists nt'. intros [|turns] fuel Hturn Hf; cbn [length] in *; [lia|].
    rewrite <- (Hn turns fuel) by lia. cbn [agg_loop]. unfold proj_at. cbn [pr_child pr_next_tuple]. rewrite Ht by done.
    cbn [mbind res_bind pr_upd pr_agg_num pr_agg_exprs pr_agg_vals pr_input_schema].
    assert (aggregate_all (Z.to_nat (zlen (agg_val l0 <$> aggs))) 0 (agg_expr l0 <$> aggs) (agg_val l0 <$> aggs) nt1 schema =
      Ok (agg_expr (l0 ++ [x]) <$> aggs, agg_val (l0 ++ [x]) <$> aggs)) as ->.
    { unfold zlen. rewrite Nat2Z.id, length_fmap. apply (aggregate_all_ok (agg_expr l0) _ (agg_val l0) _ nt1 schema aggs []).
      intros a Ha. split; [|done]. destruct (Hok a Ha) as [Hs Hv]. rewrite fmap_app in Hs. apply summable_app in Hs. rewrite fmap_app in Hs.
      unfold agg_expr, agg_val. rewrite fmap_app. apply (evaluate_aggregate a.1 a.2 (col a.2 <$> l0) (col a.2 x)); [done|].
      intros Hne. rewrite <- (Hv x) by set_solver. apply get_value_same. by rewrite Hx. }
    cbn [mbind res_bind]. unfold pr_upd_agg, pr_upd. unfold zlen. by rewrite !length_fmap.
Qed.

(** opening: the child is read twice, the aggregates are complete before the first row *)
Lemma aggregate_open n c b l nt : delivers n 2 c b l → agg_ok l →
  ∃ c1 b1 l1 nt' es c2 b2 c3 b3,
    (∀ fuel, (n + S (length l) ≤ fuel)%nat →
      Projection_open fuel (agg_at c nt []) b = Ok (proj_at exprs schema out c1 nt' es true (agg_val l <$> aggs), b1)) ∧
    runs n c1 b1 l1 c2 b2 ∧ l1 ≡ₚ l ∧ ex_close c2 b2 = Ok (c3, b3) ∧ bpm_ok b3 ∧ same_pages b b3.
Proof.
  intros (ca&ba&la&cb&bb&cc&bc&Ho&Hr&Hp&Hc&Hok&HS&(cd&bd&ld&ce&be&cf&bf&Ho2&Hr2&Hp2&Hc2&Hok2&HS2&_)) Hag.
  pose proof (agg_ok_perm _ _ (symmetry Hp) Hag) as Hag'. pose proof (Permutation_length Hp) as Hlen.
  destruct (agg_loop_ok n ca ba la cb bb Hr [] nt Hag') as [nt' Hloop].
  exists cd, bd, ld, nt', (agg_expr la <$> aggs), ce, be, cf, bf. split_and!; try done; [|by eapply same_pages_trans].
  intros fuel Hf. unfold Projection_open. unfold proj_at at 1. cbn [pr_child]. rewrite Ho by lia.
  cbn [mbind res_bind pr_upd pr_is_aggregate pr_next_tuple]. change (pr_upd ca _ _) with (agg_at ca nt []). rewrite Hloop by lia. cbn [mbind res_bind].
  unfold proj_at. cbn [pr_child]. rewrite Hc. cbn [mbind res_bind]. rewrite Ho2 by lia. cbn [mbind res_bind]. unfold pr_upd, proj_at. cbn.
  assert ((agg_val la <$> aggs) = agg_val l <$> aggs) as ->; [|done]. apply list_fmap_ext. intros i a _. by apply agg_val_perm.
Qed.
End Aggregation.

(** ** Queries over a table *)

(** [rows] are the tuples of the schema [out] whose columns hold [f x], for the [x] in [src] *)
Definition rows_of (out : Schema) (f : bytes → list Value) : list bytes → list Tuple → Prop :=
  Forall2 (λ x t, ∀ j v, f x !! j = Some v → ∃ w, get_value t out (Z.of_nat j) = Ok w ∧ same_content w v).

Lemma projected_rows heap stack exprs schema out types names sizes aggs src : schema_is types names sizes out → length names = length types →
  ∀ rows, t_data <$> rows = projected heap stack exprs schema out aggs <$> src → (∀ x, x ∈ src → row_ok exprs schema types sizes aggs x) →
  rows_of out (λ x, row exprs schema x ++ aggs) src rows.
Proof.
  intros Hs Hn. induction src as [|x src IH]; intros [|t rows] Hd Hok; try done; [constructor|].
  rewrite !fmap_cons in Hd. injection Hd as Ht Hd. constructor; [|apply IH; [done|set_solver]].
  intros j v. eapply projected_values; [done|done|apply Hok; by left|done].
Qed.

Lemma init_agg_vals_ok (aggs : list (AggregationType * Z)) out types names sizes : schema_is types names sizes out → length names = length types →
  ∀ k, (k + length aggs ≤ length types)%nat → (∀ j, (k ≤ j < k + length aggs)%nat → types !! j = Some kInteger) →
  init_agg_vals aggs.*1 (Z.of_nat k) out = Ok ((λ a, Value_int (agg_of a.1 [])) <$> aggs).
Proof.
  intros Hs Hn. induction aggs as [|a aggs IH]; intros k Hk Ht; cbn [fmap list_fmap init_agg_vals]; [done|]. cbn [length] in *.
  destruct (lookup_lt_is_Some_2 names k) as [nm Hnm]; [lia|]. destruct (lookup_lt_is_Some_2 sizes k) as [z Hz]; [destruct Hs as (_&->&_); lia|].
  destruct (get_column_is _ _ _ _ k kInteger nm z Hs (Ht k ltac:(lia)) Hnm Hz) as (c&->&(Hct&_)&_). cbn [mbind res_bind]. rewrite Hct.
  replace (Z.of_nat k + 1) with (Z.of_nat (S k)) by lia. rewrite IH by (lia || intros j Hj; apply Ht; lia). by destruct a as [[] ?].
Qed.

Lemma values_fit_app types sizes vs (zs : list Z) : values_fit types (take (length types) sizes) vs → Forall in32 zs →
  values_fit (types ++ replicate (length zs) kInteger) sizes (vs ++ (Value_int <$> zs)).
Proof.
  intros [Hl Hf] Hz. split; [by rewrite !length_app, length_fmap, length_replicate, Hl|]. intros i t sz v Ht Hsz Hv.
  destruct (decide (i < length types)%nat) as [Hi|Hi].
  - rewrite lookup_app_l in Ht by lia. rewrite lookup_app_l in Hv by lia. eapply Hf; [done| |done]. by rewrite lookup_take_lt.
  - rewrite lookup_app_r in Ht by lia. rewrite lookup_app_r in Hv by lia. apply lookup_replicate in Ht as [-> _].
    apply list_lookup_fmap_Some in Hv as (z&->&Hz2). split_and!; [done| |done]. rewrite Forall_lookup in Hz. by eapply Hz.
Qed.

Section Queries.
Context {R : Type} `{RA : ReplacerAbstract R}.
Context (do_hash : bytes → Z) (tb_schema : Schema) (key_ok : Value → Prop) `{KT : !KeyType key_ok} (sz : Z).
Context (heap : bytes → bytes) (stack : bytes → Z → bytes).
Implicit Types (b : BufferPoolManager R) (tb : Table) (m : gmap bytes bytes) (pred : Expression) (exprs : list Expression).
#[local] Instance proj_query {E} `{!ExecutorAbstract R E} : ExecutorAbstract R (ProjectionExecutor E) := Projection_executor heap stack.

(** the tuples of [m] a predicate selects *)
Definition selected pred m : list bytes := select pred tb_schema (map_to_list m).*2.
(** the predicate has a value on every tuple *)
Definition decides pred m : Prop := pure pred = true ∧ ∀ x, x ∈ (map_to_list m).*2 → ∃ r, sat pred tb_schema x = Ok r.
(** SELECT exprs FROM tb WHERE pred *)
Definition scan_where tb pred := SelectionExecutor_new pred (SeqScan_new tb) tb_schema.

Lemma where_delivers k b tb m pred : is_table do_hash tb_schema key_ok sz b tb m → frames (3 + 2 * k) b → decides pred m →
  delivers (S (base.size m)) k (scan_where tb pred) b (selected pred m).
Proof.
  intros Ht Hf [Hp Hs]. replace (S (base.size m)) with (0 + S (length (map_to_list m).*2))%nat by (by rewrite length_fmap, length_map_to_list).
  apply selection_delivers; [done|done|]. by eapply scan_delivers.
Qed.
Lemma selected_length pred m : (length (selected pred m) ≤ base.size m)%nat.
Proof. unfold selected, select. rewrite length_filter. by rewrite length_fmap, length_map_to_list. Qed.

(** C4: A query over a table returns what it means: selecting the tuples of a table by
    a predicate and projecting expressions from them, with the executors of the code
    over the hash index, the buffer pool and the disk, ends within as many steps as
    the table has tuples plus one, returns one row for each tuple of the represented
    map that satisfies the predicate, whose columns hold the values of the
    expressions on that tuple, and leaves every page as it was. When the predicate
    compares an integer column with a constant, these are the tuples for which the
    comparison of the two numbers holds. *)
Theorem select_query_correct b tb m pred exprs out types names sizes :
  is_table do_hash tb_schema key_ok sz b tb m → frames 5 b → decides pred m →
  schema_is types names sizes out → length names = length types →
  (∀ x, x ∈ selected pred m → row_ok exprs tb_schema types sizes [] x) →
  ∀ fuel, (base.size m < fuel)%nat → ∃ ex1 b1 src rows ex2 b2 ex3 b3,
    ex_open fuel (ProjectionExecutor_new (scan_where tb pred) exprs tb_schema out) b = Ok (ex1, b1) ∧
    drain fuel fuel ex1 Tuple_default b1 = Ok (rows, ex2, b2) ∧ ex_close ex2 b2 = Ok (ex3, b3) ∧
    src ≡ₚ selected pred m ∧ rows_of out (row exprs tb_schema) src rows ∧ bpm_ok b3 ∧ same_pages b b3 ∧
    (∀ c i y x z, pred = ComparisonExpression [ColumnValueExpression i; ConstantExpression (Value_int y)] c →
       x ∈ (map_to_list m).*2 → get_value (tup x) tb_schema i = Ok (Value_int z) → (x ∈ src ↔ cmp_holds c z y = true)).
Proof.
  intros Ht Hf Hdec Hs Hn Hrow fuel Hfuel.
  destruct (where_delivers 1 b tb m pred Ht Hf Hdec) as (c1&b1&l&c2&b2&c3&b3&Ho&Hr&Hp&Hc&Hok&HS&_).
  assert (∀ x, x ∈ l → row_ok exprs tb_schema types sizes [] x) as Hrow' by (intros x Hx; apply Hrow; by rewrite <- Hp).
  destruct (projection_runs (R := R) (E := SelectionExecutor SeqScanExecutor) heap stack exprs tb_schema out types names sizes Hs Hn (S (base.size m)) [] false []
    ltac:(by intros v ?%not_elem_of_nil) c1 b1 l c2 b2 Hr Hrow' Tuple_default) as [nt' Hr'].
  pose proof (Permutation_length Hp) as Hlen. pose proof (selected_length pred m) as Hsl.
  destruct (runs_drain (E := ProjectionExecutor _) _ _ _ _ _ _ Hr' fuel fuel Tuple_default) as (rows&Hd&Hrows); [rewrite length_fmap; lia|lia|].
  eexists _, b1, l, rows, _, b2, (proj_at exprs tb_schema out c3 nt' [] false []), b3. split_and!; [|exact Hd| |done| |done|done|].
  4: { intros c i y x z E Hx Hz. rewrite Hp. unfold selected, select. rewrite list_elem_of_filter. unfold satb. rewrite E, (sat_int c i z y) by done. naive_solver. }
  - cbn [ex_open proj_query Projection_executor]. unfold Projection_open, ProjectionExecutor_new. cbn [pr_child]. by rewrite Ho by lia.
  - cbn [ex_close proj_query Projection_executor]. unfold Projection_close, proj_at. cbn [pr_child]. by rewrite Hc.
  - pose proof (projected_rows heap stack exprs tb_schema out types names sizes [] l Hs Hn rows Hrows) as H. unfold rows_of in *.
    eapply Forall2_impl; [by apply H|]. intros x t Hx j v Hj. apply Hx. by rewrite app_nil_r.
Qed.

(** C5: A query with aggregates returns them with every row: for aggregates over
    integer columns whose values can be added without overflow, building the
    executor succeeds, opening it reads the selected tuples once to aggregate them and
    once more to deliver them, and every row holds the projected values followed by
    the count, sum, minimum or maximum of the column over all tuples that satisfy
    the predicate. *)
Theorem aggregate_query_correct b tb m pred exprs aggs col out types names sizes :
  let src := selected pred m in
  is_table do_hash tb_schema key_ok sz b tb m → frames 7 b → decides pred m →
  schema_is (types ++ replicate (length aggs) kInteger) names sizes out → length names = (length types + length aggs)%nat →
  length types = length exprs →
  (∀ x, x ∈ src → (∃ vs, evaluate_all exprs (tup x) tb_schema = Ok (vs, exprs)) ∧
    values_fit types (take (length types) sizes) (row exprs tb_schema x)) →
  agg_ok tb_schema aggs col src →
  ∃ ex, ProjectionExecutor_agg (scan_where tb pred) exprs aggs.*1 ((λ a, AggregateExpression_new a.1 a.2) <$> aggs) tb_schema out = Ok ex ∧
  ∀ fuel, (2 * base.size m + 2 ≤ fuel)%nat → ∃ ex1 b1 l rows ex2 b2 ex3 b3,
    ex_open fuel ex b = Ok (ex1, b1) ∧ drain fuel fuel ex1 Tuple_default b1 = Ok (rows, ex2, b2) ∧ ex_close ex2 b2 = Ok (ex3, b3) ∧
    l ≡ₚ src ∧ rows_of out (λ x, row exprs tb_schema x ++ ((λ a, Value_int (agg_of a.1 (col a.2 <$> src))) <$> aggs)) l rows ∧
    bpm_ok b3 ∧ same_pages b b3.
Proof.
  intros src Ht Hf Hdec Hs Hn Hl Hrow Hag. pose proof (selected_length pred m) as Hsl. fold src in Hsl.
  assert (length names = length (types ++ replicate (length aggs) kInteger)) as Hn' by (by rewrite length_app, length_replicate).
  assert (∀ x, x ∈ src → row_ok exprs tb_schema (types ++ replicate (length aggs) kInteger) sizes (agg_val col src <$> aggs) x) as Hrow'.
  { intros x Hx. destruct (Hrow x Hx) as [He Hfit]. split; [done|].
    assert ((agg_val col src <$> aggs) = Value_int <$> ((λ a, agg_of a.1 (col a.2 <$> src)) <$> aggs)) as -> by (by rewrite <- list_fmap_compose).
    pose proof (values_fit_app types sizes _ ((λ a, agg_of a.1 (col a.2 <$> src)) <$> aggs) Hfit) as H. rewrite length_fmap in H. apply H.
    apply Forall_forall. intros z (a&->&Ha)%list_elem_of_fmap. apply agg_of_in32. by apply Hag. }
  exists (proj_at exprs tb_schema out (scan_where tb pred) Tuple_default (agg_expr col [] <$> aggs) true (agg_val col [] <$> aggs)). split.
  { unfold ProjectionExecutor_agg. change (zlen exprs) with (Z.of_nat (length exprs)). rewrite (init_agg_vals_ok aggs out _ names sizes Hs Hn').
    - cbn [mbind res_bind]. unfold proj_at. f_equal. f_equal; [|unfold zlen; by rewrite !length_fmap].
      apply list_fmap_ext. intros i a _. unfold agg_expr, AggregateExpression_new, agg_val. by destruct a as [[] ?].
    - rewrite length_app, length_replicate. lia.
    - intros j Hj. rewrite lookup_app_r by lia. apply lookup_replicate. split; [done|lia]. }
  intros fuel Hfuel. pose proof (where_delivers 2 b tb m pred Ht Hf Hdec) as Hdel.
  destruct (aggregate_open exprs tb_schema out aggs col _ _ b src Tuple_default Hdel Hag) as (c1&b1&l&nt'&es&c2&b2&c3&b3&Ho&Hr&Hp&Hc&Hok&HS).
  destruct (projection_runs (R := R) (E := SelectionExecutor SeqScanExecutor) heap stack exprs tb_schema out _ names sizes Hs Hn' (S (base.size m)) es true
    (agg_val col src <$> aggs) ltac:(by intros v (?&->&_)%list_elem_of_fmap) c1 b1 l c2 b2 Hr ltac:(intros x Hx; apply Hrow'; by rewrite <- Hp) nt') as [nt2 Hr'].
  pose proof (Permutation_length Hp) as Hlen. cbn [aggs_of] in *.
  destruct (runs_drain (E := ProjectionExecutor _) _ _ _ _ _ _ Hr' fuel fuel Tuple_default) as (rows&Hd&Hrows); [rewrite length_fmap; lia|lia|].
  eexists _, b1, l, rows, _, b2, (proj_at exprs tb_schema out c3 nt2 es true (agg_val col src <$> aggs)), b3.
  split_and!; [by apply Ho; lia|exact Hd| |done| |done|done].
  - cbn [ex_close proj_query Projection_executor]. unfold Projection_close, proj_at. cbn [pr_child]. by rewrite Hc.
  - apply (projected_rows heap stack exprs tb_schema out _ names sizes (agg_val col src <$> aggs) l Hs Hn' rows Hrows).
    intros x Hx. apply Hrow'. by rewrite <- Hp.
Qed.
End Queries.

(** ** Witnesses: the values and aggregates of the tuples whose key is below 100 *)

Definition pred_t : Expression := ComparisonExpression [ColumnValueExpression 0; ConstantExpression (Value_int 100)] kLessThan.
Definition out_t (n : nat) : Schema := mkSchema ((λ i, mkColumn kInteger [97] (4 * Z.of_nat i) 4 None) <$> seq 0 n) (4 * Z.of_nat n) 0.
Definition col_t (i : Z) (bs : bytes) : Z := match get_value (tup bs) schema_t i with Ok v => default 0 (match value_ v with VInt z => Some z | _ => None end) | Err _ => 0 end.

Lemma selected_t : selected schema_t pred_t map_scan ≡ₚ [enc32 5 ++ enc32 7; enc32 6 ++ enc32 8].
Proof. unfold selected, select. rewrite map_scan_values. vm_compute. reflexivity. Qed.
Lemma decides_t : decides schema_t pred_t map_scan.
Proof.
  split; [reflexivity|]. intros x. rewrite map_scan_values. rewrite !elem_of_cons. intros [->|[->|[->|H]]]; [..|by apply not_elem_of_nil in H];
    eexists; vm_compute; reflexivity.
Qed.

Lemma select_query_correct_witness :
  ∃ b fuel ex1 b1 src rows ex2 b2,
    @ex_open _ _ (Projection_executor (λ _, []) (λ _ _, [])) fuel
      (ProjectionExecutor_new (scan_where schema_t (mkTable 0) pred_t) [ColumnValueExpression 1] schema_t (out_t 1)) b = Ok (ex1, b1) ∧
    @drain _ _ (Projection_executor (λ _, []) (λ _ _, [])) fuel fuel ex1 Tuple_default b1 = Ok (rows, ex2, b2) ∧
    src ≡ₚ [enc32 5 ++ enc32 7; enc32 6 ++ enc32 8] ∧ rows_of (out_t 1) (row [ColumnValueExpression 1] schema_t) src rows.
Proof.
  destruct table_scan_t as (b&Hb&Hf). exists b, 4%nat.
  destruct (select_query_correct hash_t schema_t int_key 8 (λ _, []) (λ _ _, []) b (mkTable 0) map_scan pred_t [ColumnValueExpression 1] (out_t 1)
    [kInteger] [[97]] [4] Hb) with (fuel := 4%nat) as (ex1&b1&src&rows&ex2&b2&ex3&b3&H1&H2&H3&H4&H5&_).
  - apply (frames_less 8 5); [lia|exact Hf].
  - exact decides_t.
  - split_and!; [reflexivity|reflexivity|reflexivity|repeat constructor; lia|vm_compute; discriminate|].
    intros [|i] c Hc; [|done]. injection Hc as <-. exists kInteger, [97], 4. split_and!; try reflexivity. repeat split; discriminate.
  - reflexivity.
  - intros x. rewrite selected_t, !elem_of_cons. intros [->|[->|H]]; [..|by apply not_elem_of_nil in H];
      (split; [eexists; vm_compute; reflexivity|]; split; [reflexivity|]; intros [|i] t z v Ht Hz Hv; [|done];
       injection Ht as <-; injection Hz as <-; vm_compute in Hv; injection Hv as <-; split_and!; [reflexivity|split; vm_compute; discriminate|exact I]).
  - vm_compute. lia.
  - exists ex1, b1, src, rows, ex2, b2. split; [exact H1|]. split; [exact H2|]. split; [|exact H5]. rewrite H4. exact selected_t.
Defined.

Definition aggs_t : list (AggregationType * Z) := [(kCountAggregate, 0); (kSumAggregate, 1); (kMinAggregate, 1); (kMaxAggregate, 1)].

(** the columns of [out_t] *)
Lemma out_t_is n sizes : sizes = replicate n 4 → 4 * Z.of_nat n ≤ INT32_MAX → schema_is (replicate n kInteger) (replicate n [97]) sizes (out_t n).
Proof.
  intros -> Hn. assert (∀ k, sumZ (replicate k 4) = 4 * Z.of_nat k) as Hsum by (intros k; induction k as [|k IH]; cbn [replicate sumZ]; lia).
  unfold schema_is, out_t. cbn [columns_ length_]. rewrite length_fmap, length_seq, !length_replicate, Hsum. split_and!; try done.
  - apply Forall_replicate. lia.
  - intros i c Hc. apply list_lookup_fmap_Some in Hc as (j&->&Hj). apply lookup_seq in Hj as [-> Hi]. exists kInteger, [97], 4.
    rewrite !lookup_replicate_2 by lia. rewrite take_replicate, Nat.min_l, Hsum by lia. by split_and!.
Qed.

Lemma aggregate_query_correct_witness :
  ∃ b ex fuel ex1 b1 l rows ex2 b2,
    ProjectionExecutor_agg (scan_where schema_t (mkTable 0) pred_t) [ColumnValueExpression 1] aggs_t.*1
      ((λ a, AggregateExpression_new a.1 a.2) <$> aggs_t) schema_t (out_t 5) = Ok ex ∧
    @ex_open _ _ (Projection_executor (λ _, []) (λ _ _, [])) fuel ex b = Ok (ex1, b1) ∧
    @drain _ _ (Projection_executor (λ _, []) (λ _ _, [])) fuel fuel ex1 Tuple_default b1 = Ok (rows, ex2, b2) ∧
    l ≡ₚ [enc32 5 ++ enc32 7; enc32 6 ++ enc32 8] ∧
    rows_of (out_t 5) (λ x, row [ColumnValueExpression 1] schema_t x ++ [Value_int 2; Value_int 15; Value_int 7; Value_int 8]) l rows.
Proof.
  destruct table_scan_t as (b&Hb&Hf). exists b.
  destruct (aggregate_query_correct hash_t schema_t int_key 8 (λ _, []) (λ _ _, []) b (mkTable 0) map_scan pred_t [ColumnValueExpression 1]
    aggs_t col_t (out_t 5) [kInteger] (replicate 5 [97]) (replicate 5 4) Hb) as (ex&He&Hq).
  - apply (frames_less 8 7); [lia|exact Hf].
  - exact decides_t.
  - apply (out_t_is 5); [reflexivity|vm_compute; discriminate].
  - reflexivity.
  - reflexivity.
  - intros x. rewrite selected_t, !elem_of_cons. intros [->|[->|H]]; [..|by apply not_elem_of_nil in H];
      (split; [eexists; vm_compute; reflexivity|]; split; [reflexivity|]; intros [|i] t z v Ht Hz Hv; [|done];
       injection Ht as <-; injection Hz as <-; vm_compute in Hv; injection Hv as <-; split_and!; [reflexivity|split; vm_compute; discriminate|exact I]).
  - eapply agg_ok_perm; [symmetry; apply selected_t|]. intros a Ha. split.
    + repeat (apply elem_of_cons in Ha as [->|Ha]); [..|by apply not_elem_of_nil in Ha];
        (split_and!; [vm_compute; discriminate|vm_compute; discriminate|repeat constructor; vm_compute; discriminate]).
    + intros x Hx Hne. repeat (apply elem_of_cons in Ha as [->|Ha]); [..|by apply not_elem_of_nil in Ha];
        (repeat (apply elem_of_cons in Hx as [->|Hx]); [..|by apply not_elem_of_nil in Hx]; [vm_compute; reflexivity..]).
  - exists ex, 8%nat. destruct (Hq 8%nat) as (ex1&b1&l&rows&ex2&b2&ex3&b3&H1&H2&H3&H4&H5&_); [vm_compute; lia|].
    exists ex1, b1, l, rows, ex2, b2. split; [exact He|]. split; [exact H1|]. split; [exact H2|]. split; [rewrite H4; exact selected_t|].
    assert (((λ a : AggregationType * Z, Value_int (agg_of a.1 (col_t a.2 <$> selected schema_t pred_t map_scan))) <$> aggs_t) =
      [Value_int 2; Value_int 15; Value_int 7; Value_int 8]) as E by (vm_compute; reflexivity).
    rewrite E in H5. exact H5.
Defined.
