(* ===== verification/UnionExecutor.v ===== *)
(** The union executor ([src/include/executors/union_executor.h],
    [src/executors/union_executor.cpp]): it copies its left child to temporary
    table pages and pairs their tuples with those of its right child. *)
From S2P Require Import Prelude Config Replacer ClockReplacer Page FileSys DiskManager BufferPool PoolSpec Values TablePage Schema Expressions PoolClient LinkHash LinkHashSpec Table Executors.

(** [un_threshold] and [un_output_schema] are not set before [open]; [un_in_mem] are
    frames of the pool *)
Record UnionExecutor (E1 E2 : Type) := mkUnion {
  un_left : E1;
  un_right : E2;
  un_schema0 : Schema;
  un_schema1 : Schema;
  un_output_schema : option Schema;
  un_threshold : option Z;
  un_avail : list Z;
  un_in_mem : list Z;
  un_idx : Z;
  un_left_tuple : Tuple;
  un_right_tuple : Tuple;
  un_pos : RID;
  un_next_pos : RID;
  un_inner_next : bool;
}.
Arguments mkUnion {E1 E2}.
Arguments un_left {E1 E2}.
Arguments un_right {E1 E2}.
Arguments un_schema0 {E1 E2}.
Arguments un_schema1 {E1 E2}.
Arguments un_output_schema {E1 E2}.
Arguments un_threshold {E1 E2}.
Arguments un_avail {E1 E2}.
Arguments un_in_mem {E1 E2}.
Arguments un_idx {E1 E2}.
Arguments un_left_tuple {E1 E2}.
Arguments un_right_tuple {E1 E2}.
Arguments un_pos {E1 E2}.
Arguments un_next_pos {E1 E2}.
Arguments un_inner_next {E1 E2}.

Section Union.
Context {R E1 E2 : Type} `{RA : ReplacerAbstract R} `{EA1 : ExecutorAbstract R E1} `{EA2 : ExecutorAbstract R E2}.
(** what the arrays of a new tuple hold before they are written *)
Context (heap : bytes) (stack : Z → bytes).
Notation BPM := (BufferPoolManager R).
Notation UE := (UnionExecutor E1 E2).
Implicit Types (b : BPM) (u : UE).

Definition UnionExecutor_new (left : E1) (right : E2) (schema0 schema1 : Schema) : UE :=
  mkUnion left right schema0 schema1 None None [] [] 0 Tuple_default Tuple_default RID_default RID_default true.

Definition un_upd_children (l : E1) (r : E2) u : UE :=
  mkUnion l r (un_schema0 u) (un_schema1 u) (un_output_schema u) (un_threshold u) (un_avail u) (un_in_mem u) (un_idx u) (un_left_tuple u)
    (un_right_tuple u) (un_pos u) (un_next_pos u) (un_inner_next u).
Definition un_upd_tuples (lt rt : Tuple) u : UE :=
  mkUnion (un_left u) (un_right u) (un_schema0 u) (un_schema1 u) (un_output_schema u) (un_threshold u) (un_avail u) (un_in_mem u) (un_idx u) lt rt
    (un_pos u) (un_next_pos u) (un_inner_next u).
Definition un_upd_schema (s : option Schema) (t : option Z) u : UE :=
  mkUnion (un_left u) (un_right u) (un_schema0 u) (un_schema1 u) s t (un_avail u) (un_in_mem u) (un_idx u) (un_left_tuple u) (un_right_tuple u)
    (un_pos u) (un_next_pos u) (un_inner_next u).
Definition un_upd_mem (avail in_mem : list Z) u : UE :=
  mkUnion (un_left u) (un_right u) (un_schema0 u) (un_schema1 u) (un_output_schema u) (un_threshold u) avail in_mem (un_idx u) (un_left_tuple u)
    (un_right_tuple u) (un_pos u) (un_next_pos u) (un_inner_next u).
Definition un_upd_pos (idx : Z) (pos next_pos : RID) (inner_next : bool) u : UE :=
  mkUnion (un_left u) (un_right u) (un_schema0 u) (un_schema1 u) (un_output_schema u) (un_threshold u) (un_avail u) (un_in_mem u) idx
    (un_left_tuple u) (un_right_tuple u) pos next_pos inner_next.

(** [(1/2) * threshold_pages_], a product of integers *)
Definition half_threshold u : res Z := t ← of_opt UninitRead (un_threshold u); Ok (Z.quot 1 2 * t).

(** the pages of [in_mem] are unpinned and become available *)
Fixpoint spill_loop (in_mem avail : list Z) (is_dirty : bool) b : res (list Z * BPM) :=
  match in_mem with
  | [] => Ok (avail, b)
  | f :: in_mem =>
      id ← page_id_at f b;
      b ← unpin_page id is_dirty b;
      id ← page_id_at f b;
      spill_loop in_mem (avail ++ [id]) is_dirty b
  end.
Definition spill_to_disk (is_dirty : bool) u b : res (UE * BPM) :=
  let* (avail, b) := spill_loop (un_in_mem u) (un_avail u) is_dirty b in
  Ok (un_upd_mem avail [] u, b).

(** the loop that finds or makes a page with room for the left tuple; the last page
    of [in_mem] is [left_tb_page] *)
Fixpoint place_tuple (turns : nat) (left_tb_page : Z) u b : res (Z * UE * BPM) :=
  match turns with
  | O => Err OutOfFuel
  | S turns =>
      let* (r, b) := changes left_tb_page (insert_tuple (un_left_tuple u)) b in
      match r with
      | Some _ => Ok (left_tb_page, u, b)
      | None =>
          half ← half_threshold u;
          let* (u, b) := if bool_decide (zlen (un_in_mem u) + 1 > half) then spill_to_disk true u b else Ok (u, b) in
          let* (f, b) := new_tmp_page b in
          place_tuple turns f (un_upd_mem (un_avail u) (un_in_mem u ++ [f]) u) b
      end
  end.
Fixpoint load_left (turns fuel : nat) (left_tb_page : Z) u b : res (UE * BPM) :=
  match turns with
  | O => Err OutOfFuel
  | S turns =>
      let* (more, lt, l, b) := ex_get_next fuel (un_left u) (un_left_tuple u) b in
      let u := un_upd_tuples lt (un_right_tuple u) (un_upd_children l (un_right u) u) in
      if (more : bool) then
        let* (f, u, b) := place_tuple fuel left_tb_page u b in
        load_left turns fuel f u b
      else Ok (u, b)
  end.
Definition initialize (fuel : nat) u b : res (UE * BPM) :=
  let* (f, b) := new_tmp_page b in
  load_left fuel fuel f (un_upd_mem (un_avail u) (un_in_mem u ++ [f]) u) b.

Definition Union_open (fuel : nat) u b : res (UE * BPM) :=
  t ← get_threshold_page b;
  s ← Schema_new (columns_ (un_schema0 u) ++ columns_ (un_schema1 u));
  initialize fuel (un_upd_schema (Some s) (Some t) u) b.

Fixpoint delete_in_mem (in_mem : list Z) b : res BPM :=
  match in_mem with
  | [] => Ok b
  | f :: in_mem => id ← page_id_at f b; let* (_, b) := delete_page id b in delete_in_mem in_mem b
  end.
Fixpoint fetch_pages (turns : nat) (half : Z) u b : res (UE * BPM) :=
  if zlen (un_in_mem u) <? half then
    match turns, un_avail u with
    | O, _ => Err OutOfFuel
    | _, [] => Err OutOfBounds
    | S turns, id :: avail =>
        let* (f, b) := page_ptr id b in
        fetch_pages turns half (un_upd_mem avail (un_in_mem u ++ [f]) u) b
    end
  else Ok (u, b).
Definition load_another_batch u b : res (bool * UE * BPM) :=
  b ← delete_in_mem (un_in_mem u) b;
  let u := un_upd_mem (un_avail u) [] u in
  half ← half_threshold u;
  let* (u, b) := fetch_pages (S (length (un_avail u))) half u b in
  if 0 <? zlen (un_in_mem u) then Ok (true, un_upd_pos 0 (un_pos u) (un_next_pos u) (un_inner_next u) u, b)
  else Ok (false, u, b).

(** the next right tuple; false when [get_next] returns *)
Fixpoint next_right (turns fuel : nat) u b : res (bool * UE * BPM) :=
  match turns with
  | O => Err OutOfFuel
  | S turns =>
      let* (more, rt, r, b) := ex_get_next fuel (un_right u) (un_right_tuple u) b in
      let u := un_upd_tuples (un_left_tuple u) rt (un_upd_children (un_left u) r u) in
      if (more : bool) then Ok (true, un_upd_pos (un_idx u) (un_pos u) (un_next_pos u) false u, b)
      else
        let* (r, b) := ex_close (un_right u) b in
        let* (r, b) := ex_open fuel r b in
        let u := un_upd_children (un_left u) r u in
        let* (ok, u, b) := load_another_batch u b in
        if (ok : bool) then next_right turns fuel u b else Ok (false, u, b)
  end.
(** the next left tuple in memory; false for the jump back to the next right tuple *)
Fixpoint next_left (turns : nat) u b : res (bool * Z * UE) :=
  match turns with
  | O => Err OutOfFuel
  | S turns =>
      f ← of_opt OutOfBounds (un_in_mem u !! Z.to_nat (un_idx u));
      let* (more, next_pos) := reads f (get_next_tuple_rid (un_pos u) (un_next_pos u)) b in
      if (more : bool) then Ok (true, f, un_upd_pos (un_idx u) (un_pos u) next_pos (un_inner_next u) u)
      else
        let u := un_upd_pos (un_idx u + 1) (mkRID INVALID_PAGE_ID INVALID_SLOT_NUM) next_pos (un_inner_next u) u in
        if un_idx u >=? zlen (un_in_mem u) then Ok (false, f, un_upd_pos 0 (un_pos u) (un_next_pos u) true u)
        else next_left turns u b
  end.
(** the values of the first [n] columns from [i] on *)
Fixpoint column_values (n : nat) (i : Z) (t : Tuple) (s : Schema) : res (list Value) :=
  match n with
  | O => Ok []
  | S n => v ← get_value t s i; v ← Value_copy v; vs ← column_values n (i + 1) t s; Ok (v :: vs)
  end.
Fixpoint Union_get_next_loop (turns fuel : nat) u (tuple : Tuple) b : res (bool * Tuple * UE * BPM) :=
  match turns with
  | O => Err OutOfFuel
  | S turns =>
      let* (ok, u, b) := if un_inner_next u then next_right fuel fuel u b else Ok (true, u, b) in
      if negb ok then Ok (false, tuple, u, b)
      else
        let* (found, f, u) := next_left (S (length (un_in_mem u))) u b in
        if negb found then Union_get_next_loop turns fuel u tuple b
        else
          t ← reads f (get_tuple (un_next_pos u)) b;
          match t with
          | None => Err ExitCalled
          | Some lt =>
              let u := un_upd_tuples lt (un_right_tuple u) u in
              vs0 ← column_values (length (columns_ (un_schema0 u))) 0 lt (un_schema0 u);
              vs1 ← column_values (length (columns_ (un_schema1 u))) 0 (un_right_tuple u) (un_schema1 u);
              s ← of_opt UninitRead (un_output_schema u);
              tuple ← reconstruct heap stack (vs0 ++ vs1) s tuple;
              Ok (true, tuple, u, b)
          end
  end.
Definition Union_get_next (fuel : nat) := Union_get_next_loop fuel fuel.

Definition Union_close u b : res (UE * BPM) :=
  t ← of_opt UninitRead (un_threshold u);
  b ← return_threshold_page t b;
  let u := un_upd_schema (un_output_schema u) (Some 0) u in
  let* (u, b) := spill_to_disk false u b in
  b ← delete_pages (un_avail u) b;
  let u := un_upd_mem [] (un_in_mem u) u in
  let u := un_upd_pos (un_idx u) (mkRID INVALID_PAGE_ID INVALID_SLOT_NUM) (un_next_pos u) (un_inner_next u) u in
  let* (l, b) := ex_close (un_left u) b in
  let* (r, b) := ex_close (un_right u) b in
  Ok (un_upd_schema None (un_threshold u) (un_upd_children l r u), b).

#[export] Instance Union_executor : ExecutorAbstract R (UnionExecutor E1 E2) := {|
  ex_open := Union_open; ex_get_next := Union_get_next; ex_close := Union_close;
|}.
End Union.

Section Faults.
Context {R : Type} `{RA : ReplacerAbstract R}.
Implicit Types (b : BufferPoolManager R).

(** [open] reads the left child without opening it: a union of scans, in any sound
    pool with a frame to spare, follows a null pointer. *)
Theorem union_of_scans_faults tb1 tb2 s1 s2 s fuel b :
  bpm_ok b → has_frame b → 2 * max_ava_pgid_ (dm (disk_manager_ b)) ≤ MAX_INT_PAGES →
  0 ≤ available_threshold_page_ b → allocated_threshold_pages_ b = 0 → Schema_new (columns_ s1 ++ columns_ s2) = Ok s →
  Union_open (S fuel) (UnionExecutor_new (SeqScan_new tb1) (SeqScan_new tb2) s1 s2) b = Err NullDeref.
Proof.
  intros Hok Hhas Hmax Hav Hal Hs. unfold Union_open, get_threshold_page, w_lock. rewrite (bo_latch _ _ Hok). cbn [mbind res_bind].
  assert (Z.quot (available_threshold_page_ b) 2 ≤ available_threshold_page_ b) by (apply Z.quot_le_upper_bound; lia).
  rewrite bool_decide_false by (unfold upd_latch; cbn [available_threshold_page_ allocated_threshold_pages_]; lia). cbn [mbind res_bind UnionExecutor_new un_schema0 un_schema1]. rewrite Hs. cbn [mbind res_bind].
  destruct (alloc_page_ok STATUS_TMP b Hok Hhas Hmax) as (f&b'&p&Ha&_). unfold initialize. change (new_tmp_page b) with (BufferPool.alloc_page STATUS_TMP b). by rewrite Ha.
Qed.
End Faults.
