(* ===== verification/MetaPages.v ===== *)
(** The bytes of the meta data pages: the columns of a table in the page of its
    [TableMetaData] ([src/meta/table_meta_data.cpp]) and the table names in the page
    of the [CatalogTable] ([src/meta/catalog_table.cpp]). What is written is read
    back, and the page of the catalog refines a list of names and ids. *)
From S2P Require Import Prelude Config Page FileSys DiskManager Values TablePage Schema.

(** ** The columns of a table *)

Definition FIRST_TABLE_PGID_OFFSET : Z := COM_PG_HEADER_SZ.
Definition INDEX_HEADER_PGID_OFFSET : Z := COM_PG_HEADER_SZ + 4.
Definition COLUMN_NUM_OFFSET : Z := COM_PG_HEADER_SZ + 2 * 4 + 64.
Definition FIRST_COLUMN_OFFSET : Z := COM_PG_HEADER_SZ + 2 * 4 + 64 + 4.
Definition FIXED_COLUMN_SIZE : Z := SIZE_T_SIZE + OFFSET_T_SIZE + ENUM_SIZE + SIZE_T_SIZE.

(** the loop of the constructor that writes the columns from [col_name_len_offset] on *)
Fixpoint write_columns (cols : list Column) (col_name_len_offset : Z) (d : bytes) : res bytes :=
  match cols with
  | [] => Ok d
  | col :: cols =>
      let col_name := column_name_ col in
      let name_len := zlen col_name in
      d ← wr32 d col_name_len_offset name_len;
      let name_offset := col_name_len_offset + SIZE_T_SIZE in
      let offset_offset := name_offset + name_len + 1 in
      d ← wr32 d offset_offset (offset_ col);
      let type_id_offset := offset_offset + OFFSET_T_SIZE in
      d ← wr32 d type_id_offset (TypeId_int (column_type_ col));
      let data_size_offset := type_id_offset + ENUM_SIZE in
      data_size ← get_data_size col;
      d ← wr32 d data_size_offset data_size;
      d ← put_name d name_offset col_name;
      write_columns cols (col_name_len_offset + (FIXED_COLUMN_SIZE + name_len + 1)) d
  end.

(** a stored type id; any value that is no enumerator has the size of [kInvalid] *)
Definition TypeId_of_int (z : Z) : TypeId :=
  if z =? 0 then kBoolean else if z =? 1 then kInteger else if z =? 2 then kDecimal else if z =? 3 then kChar else kInvalid.
(** the loop that reads [n] columns *)
Fixpoint read_columns (n : nat) (col_name_len_offset : Z) (d : bytes) : res (list Column) :=
  match n with
  | O => Ok []
  | S n =>
      col_name_len ← rd32 d col_name_len_offset;
      let col_size := FIXED_COLUMN_SIZE + col_name_len + 1 in
      let name_offset := col_name_len_offset + SIZE_T_SIZE in
      let offset_offset := name_offset + col_name_len + 1 in
      offset_in_tp ← rd32 d offset_offset;
      let type_id_offset := offset_offset + OFFSET_T_SIZE in
      t ← rd32 d type_id_offset;
      let type_id := TypeId_of_int t in
      let data_size_offset := type_id_offset + ENUM_SIZE in
      data_size ← rd32 d data_size_offset;
      name ← c_string d name_offset;
      col ← (if decide (type_id = kChar) then Ok (Column_char name offset_in_tp data_size) else Column_new type_id name offset_in_tp);
      cols ← read_columns n (col_name_len_offset + col_size) d;
      Ok (col :: cols)
  end.

(** a name that can be stored: no NUL in it *)
Definition name_ok (s : bytes) : Prop := Forall (λ c, c ≠ 0) s ∧ zlen s ≤ INT32_MAX.
(** a column as the constructors make it, within 32 bits *)
Definition column_ok (c : Column) : Prop :=
  name_ok (column_name_ c) ∧ in32 (offset_ c) ∧
  match column_type_ c with
  | kInvalid => False
  | kChar => ∃ n, in32 n ∧ c = Column_char (column_name_ c) (offset_ c) n
  | t => c = mkColumn t (column_name_ c) (offset_ c) (get_type_size t) None
  end.
(** the bytes a column takes in the page *)
Definition column_space (c : Column) : Z := FIXED_COLUMN_SIZE + zlen (column_name_ c) + 1.

Lemma c_string_read m off s : 0 ≤ off → Forall (λ c, c ≠ 0) s → mem_read m off (zlen s) = Ok s → mem_read m (off + zlen s) 1 = Ok [0] →
  c_string m off = Ok s.
Proof.
  intros Ho Hs (_&_&Hb&E1)%mem_read_Ok (_&_&Hb'&E2)%mem_read_Ok. unfold c_string.
  rewrite (proj2 (Z.leb_le 0 off)), (proj2 (Z.leb_le off (zlen m))) by (pose proof (zlen_nonneg s); lia). cbn [andb].
  assert (until_nul (drop (Z.to_nat off) m) = Some s) as ->; [|done]. apply until_nul_Some.
  exists (drop (Z.to_nat (off + zlen s) + 1) m). split; [|done]. pose proof (zlen_nonneg s).
  rewrite <- (take_drop (Z.to_nat (zlen s)) (drop (Z.to_nat off) m)), <- E1, drop_drop. f_equal.
  replace (Z.to_nat off + Z.to_nat (zlen s))%nat with (Z.to_nat (off + zlen s)) by lia.
  rewrite <- (take_drop 1 (drop (Z.to_nat (off + zlen s)) m)). change (Z.to_nat 1) with 1%nat in E2. rewrite <- E2, drop_drop. done.
Qed.

Lemma TypeId_of_to t : TypeId_of_int (TypeId_int t) = t.
Proof. by destruct t. Qed.

Lemma column_size_ok c : column_ok c → ∃ n, get_data_size c = Ok n ∧ in32 n ∧ column_type_ c ≠ kInvalid ∧
  (if decide (column_type_ c = kChar) then Ok (Column_char (column_name_ c) (offset_ c) n) else Column_new (column_type_ c) (column_name_ c) (offset_ c)) = Ok c.
Proof.
  intros (_&_&H). destruct c as [t nm o f cl]. cbn [column_type_ column_name_ offset_] in *.
  destruct t; [done|injection H as -> ->..|destruct H as (n&Hn&[= -> ->])]; eexists; by split_and!.
Qed.

(** where the columns are, from [o] on *)
Fixpoint columns_at (d : bytes) (o : Z) (cols : list Column) : Prop :=
  match cols with
  | [] => True
  | c :: cols =>
      let n := zlen (column_name_ c) in
      rd32 d o = Ok n ∧ rd32 d (o + 4 + n + 1) = Ok (offset_ c) ∧ rd32 d (o + 4 + n + 1 + 4) = Ok (TypeId_int (column_type_ c)) ∧
      (∃ dsz, get_data_size c = Ok dsz ∧ rd32 d (o + 4 + n + 1 + 4 + 4) = Ok dsz) ∧
      mem_read d (o + 4) n = Ok (column_name_ c) ∧ mem_read d (o + 4 + n) 1 = Ok [0] ∧
      columns_at d (o + column_space c) cols
  end.

Lemma column_space_pos c : 16 < column_space c.
Proof. unfold column_space, FIXED_COLUMN_SIZE. pose proof (zlen_nonneg (column_name_ c)). cfg_lia. Qed.
Lemma columns_space_nonneg cols : 0 ≤ sumZ (column_space <$> cols).
Proof. apply sumZ_nonneg, Forall_forall. intros z (c&->&_)%list_elem_of_fmap. pose proof (column_space_pos c). lia. Qed.

Lemma columns_at_frame d d' cols : ∀ o, 0 ≤ o → (∀ a l, o ≤ a → mem_read d' a l = mem_read d a l) → columns_at d o cols → columns_at d' o cols.
Proof.
  induction cols as [|c cols IH]; intros o Ho Hf; [done|]. intros (H1&H2&H3&(dsz&H4&H5)&H6&H7&H8). pose proof (zlen_nonneg (column_name_ c)).
  cbn [columns_at]. unfold rd32 in *. rewrite !Hf by lia. split_and!; try done; [by exists dsz|]. pose proof (column_space_pos c).
  apply IH; [lia| |done]. intros a l ?. apply Hf. lia.
Qed.

Lemma columns_read d cols : ∀ o, Forall column_ok cols → 0 ≤ o → columns_at d o cols → read_columns (length cols) o d = Ok cols.
Proof.
  induction cols as [|c cols IH]; intros o Hok Ho; [done|]. intros (H1&H2&H3&(dsz&H4&H5)&H6&H7&H8).
  apply Forall_cons in Hok as [Hc Hok]. pose proof Hc as ((Hnz&Hnl)&_). destruct (column_size_ok c Hc) as (n&Hd&_&_&Hcon).
  assert (n = dsz) as -> by congruence. cbn [length read_columns]. change SIZE_T_SIZE with 4. change OFFSET_T_SIZE with 4. change ENUM_SIZE with 4.
  rewrite H1. cbn [mbind res_bind]. rewrite H2. cbn [mbind res_bind]. rewrite H3. cbn [mbind res_bind]. rewrite H5. cbn [mbind res_bind].
  rewrite (c_string_read d (o + 4) (column_name_ c)) by first [lia|done]. cbn [mbind res_bind]. rewrite TypeId_of_to, Hcon. cbn [mbind res_bind].
  change (FIXED_COLUMN_SIZE + zlen (column_name_ c) + 1) with (column_space c). pose proof (column_space_pos c).
  by rewrite IH by (try done; lia).
Qed.

Lemma columns_written cols : ∀ o d, Forall column_ok cols → 0 ≤ o → o + sumZ (column_space <$> cols) ≤ zlen d →
  ∃ d', write_columns cols o d = Ok d' ∧ zlen d' = zlen d ∧ columns_at d' o cols ∧ ∀ a l, a + l ≤ o → mem_read d' a l = mem_read d a l.
Proof.
  induction cols as [|c cols IH]; intros o d Hok Ho Hb; [exists d; by split_and!|].
  apply Forall_cons in Hok as [Hc Hok]. pose proof Hc as ((Hnz&Hnl)&Ho32&_). rewrite fmap_cons in Hb. cbn [sumZ] in Hb.
  pose proof (columns_space_nonneg cols). cbn [write_columns columns_at]. change SIZE_T_SIZE with 4. change OFFSET_T_SIZE with 4. change ENUM_SIZE with 4.
  change (column_space c) with (16 + zlen (column_name_ c) + 1) in *. set (n := zlen (column_name_ c)) in *. assert (0 ≤ n) by apply zlen_nonneg.
  destruct (column_size_ok c Hc) as (dsz&Hd&Hd32&_).
  assert (in32 (TypeId_int (column_type_ c))) by (destruct (column_type_ c); split; vm_compute; discriminate).
  destruct (wr32_ex d o n) as (d1&->&L1&R1&F1); [lia|lia|unfold in32; cfg_lia|]. cbn [mbind res_bind].
  destruct (wr32_ex d1 (o + 4 + n + 1) (offset_ c)) as (d2&->&L2&R2&F2); [lia|lia|done|]. cbn [mbind res_bind].
  destruct (wr32_ex d2 (o + 4 + n + 1 + 4) (TypeId_int (column_type_ c))) as (d3&->&L3&R3&F3); [lia|lia|done|]. cbn [mbind res_bind].
  rewrite Hd. cbn [mbind res_bind].
  destruct (wr32_ex d3 (o + 4 + n + 1 + 4 + 4) dsz) as (d4&->&L4&R4&F4); [lia|lia|done|]. cbn [mbind res_bind].
  destruct (put_name_ex d4 (o + 4) (column_name_ c)) as (d5&->&L5&R5&R5'&F5); [lia|fold n; lia|]. cbn [mbind res_bind]. fold n in R5, R5', F5.
  change (FIXED_COLUMN_SIZE) with 16. destruct (IH (o + (16 + n + 1)) d5 Hok) as (d6&->&L6&R6&F6); [lia|lia|].
  assert (∀ a l, o ≤ a → a + l ≤ o + 4 ∨ o + 4 + n + 1 ≤ a → a + l ≤ o + 17 + n → mem_read d6 a l = mem_read d4 a l) as Hk.
  { intros a l ? ? ?. rewrite F6 by lia. apply F5. lia. }
  exists d6. split_and!; [done|lia| | | | | | |done|].
  - by rewrite (rd32_ext d1 d6 o) by (rewrite Hk, F4, F3, F2 by lia; done).
  - by rewrite (rd32_ext d2 d6 (o + 4 + n + 1)) by (rewrite Hk, F4, F3 by lia; done).
  - by rewrite (rd32_ext d3 d6 (o + 4 + n + 1 + 4)) by (rewrite Hk, F4 by lia; done).
  - exists dsz. split; [done|]. by rewrite (rd32_ext d4 d6 (o + 4 + n + 1 + 4 + 4)) by (rewrite Hk by lia; done).
  - by rewrite F6 by lia.
  - by rewrite F6 by lia.
  - intros a l ?. rewrite F6, F5, F4, F3, F2, F1 by lia. done.
Qed.

(** columns that fit into the page of a table's meta data *)
Definition columns_fit (cols : list Column) : Prop := Forall column_ok cols ∧ FIRST_COLUMN_OFFSET + sumZ (column_space <$> cols) ≤ PAGE_SIZE.
(** the columns in that page *)
Definition cols_at (d : bytes) (cols : list Column) : Prop :=
  zlen d = PAGE_SIZE ∧ rd32 d COLUMN_NUM_OFFSET = Ok (zlen cols) ∧ columns_at d FIRST_COLUMN_OFFSET cols.
(** all of it *)
Definition meta_at (d : bytes) (first index : Z) (cols : list Column) : Prop :=
  cols_at d cols ∧ rd32 d FIRST_TABLE_PGID_OFFSET = Ok first ∧ rd32 d INDEX_HEADER_PGID_OFFSET = Ok index.

Ltac meta_lia := unfold FIRST_TABLE_PGID_OFFSET, INDEX_HEADER_PGID_OFFSET, FIRST_COLUMN_OFFSET, COLUMN_NUM_OFFSET, HEADER_USED in *; cfg_lia.

Lemma columns_fit_num cols : columns_fit cols → in32 (zlen cols).
Proof.
  intros [_ H]. assert (zlen cols ≤ sumZ (column_space <$> cols)); [|unfold in32; pose proof (zlen_nonneg cols); meta_lia].
  clear H. induction cols as [|c cols IH]; [done|]. rewrite fmap_cons. unfold zlen in *. cbn [sumZ length]. pose proof (column_space_pos c). lia.
Qed.

Lemma cols_at_frame d d' cols : zlen d' = zlen d → (∀ a l, COLUMN_NUM_OFFSET ≤ a → mem_read d' a l = mem_read d a l) → cols_at d cols → cols_at d' cols.
Proof.
  intros Hl E (H1&H2&H3). unfold cols_at, rd32 in *. rewrite E by lia. split_and!; [congruence|done|].
  eapply columns_at_frame; [vm_compute; discriminate| |done]. intros a l ?. apply E. meta_lia.
Qed.
Lemma meta_at_ext d d' first index cols : zlen d' = zlen d → payload d' = payload d → meta_at d first index cols → meta_at d' first index cols.
Proof.
  intros Hl Hp (H1&H2&H3). assert (∀ o l, HEADER_USED ≤ o → mem_read d' o l = mem_read d o l) as E by (intros; by apply mem_read_payload).
  unfold meta_at, rd32 in *. rewrite !E by (vm_compute; discriminate). split_and!; try done.
  eapply cols_at_frame; [done| |done]. intros a l ?. apply E. meta_lia.
Qed.

(** writing the columns, then one of the two page ids in front of them *)
Lemma cols_written d cols : columns_fit cols → zlen d = PAGE_SIZE →
  ∃ d', (d ← wr32 d COLUMN_NUM_OFFSET (zlen cols); write_columns cols FIRST_COLUMN_OFFSET d) = Ok d' ∧ cols_at d' cols ∧
    ∀ a l, a + l ≤ COLUMN_NUM_OFFSET → mem_read d' a l = mem_read d a l.
Proof.
  intros Hfit Hl. pose proof (columns_fit_num cols Hfit) as Hn. destruct Hfit as [Hok Hsp]. pose proof (columns_space_nonneg cols).
  destruct (wr32_ex d COLUMN_NUM_OFFSET (zlen cols)) as (d1&->&L1&R1&F1); [meta_lia|meta_lia|done|]. cbn [mbind res_bind].
  destruct (columns_written cols FIRST_COLUMN_OFFSET d1 Hok) as (d2&->&L2&C2&F2); [meta_lia|meta_lia|].
  exists d2. split; [done|]. split; [|intros a l ?; rewrite F2, F1 by meta_lia; done]. split_and!; [lia| |done].
  rewrite (rd32_ext d1 d2); [done|]. apply F2. meta_lia.
Qed.
Lemma cols_put_id d cols o z : cols_at d cols → COM_PG_HEADER_SZ ≤ o → o + 4 ≤ COLUMN_NUM_OFFSET → in32 z →
  ∃ d', wr32 d o z = Ok d' ∧ cols_at d' cols ∧ rd32 d' o = Ok z ∧ ∀ a l, a + l ≤ o ∨ o + 4 ≤ a → mem_read d' a l = mem_read d a l.
Proof.
  intros Hc Ho Ho' Hz. pose proof Hc as (Hl&_). destruct (wr32_ex d o z) as (d1&W&L1&R1&F1); [meta_lia|meta_lia|done|].
  exists d1. split_and!; try done. eapply cols_at_frame; [exact L1| |done]. intros a l ?. apply F1. lia.
Qed.

(** ** The names of the tables *)

Definition TABLE_RECORD_SZ : Z := 4 + 4 + 4.
Definition TABLE_NUM_OFFSET : Z := COM_PG_HEADER_SZ.
(** the offset of record [i] *)
Definition record_at (i : Z) : Z := TABLE_NUM_OFFSET + SIZE_T_SIZE + i * TABLE_RECORD_SZ.

(** the string ends at the first NUL *)
Definition get_table_name (tb_name_offset size : Z) (d : bytes) : res bytes :=
  bs ← mem_read d tb_name_offset size; c_string (bs ++ [0]) 0.
(** the loop of the constructor from record [i] on: the ids and the names *)
Fixpoint load_tables (n : nat) (i : Z) (d : bytes) : res (list (Z * bytes)) :=
  match n with
  | O => Ok []
  | S n =>
      tb_name_offset ← rd32 d (record_at i);
      tb_name_sz ← rd32 d (record_at i + OFFSET_T_SIZE);
      tb_page_id ← rd32 d (record_at i + OFFSET_T_SIZE + SIZE_T_SIZE);
      tb_name ← get_table_name tb_name_offset tb_name_sz d;
      l ← load_tables n (i + 1) d;
      Ok ((tb_page_id, tb_name) :: l)
  end.
(** the free space pointer the constructor finds *)
Definition load_free_space (table_num : Z) (d : bytes) : res Z :=
  if negb (table_num =? 0) then rd32 d (record_at (table_num - 1)) else Ok PAGE_SIZE.

(** the test of [create_table] for room, with the offset the record will have *)
Definition room_for (table_name : bytes) (free_space_pointer : Z) (d : bytes) : res (bool * Z) :=
  tb_num ← rd32 d TABLE_NUM_OFFSET;
  let insert_offset := record_at tb_num in
  let available_space := free_space_pointer - insert_offset in
  Ok (negb (bool_decide (zlen table_name + TABLE_RECORD_SZ > available_space)), insert_offset).
(** what [create_table] writes: the new number of tables, the name and the record *)
Definition put_table (table_num insert_offset free_space_pointer : Z) (table_name : bytes) (id : Z) (d : bytes) : res bytes :=
  d ← wr32 d TABLE_NUM_OFFSET table_num;
  d ← put_name d free_space_pointer table_name;
  d ← wr32 d insert_offset free_space_pointer;
  d ← wr32 d (insert_offset + OFFSET_T_SIZE) (zlen table_name);
  wr32 d (insert_offset + OFFSET_T_SIZE + SIZE_T_SIZE) id.

(** the search of [delete_table] and [change_table_name] with [n] records left: the
    index and the offset of the record where it stops *)
Fixpoint find_table (n : nat) (i tb_offset table_id : Z) (d : bytes) : res (Z * Z) :=
  match n with
  | O => Ok (i, tb_offset)
  | S n =>
      let tb_offset := record_at i in
      tb_id ← rd32 d (tb_offset + OFFSET_T_SIZE + SIZE_T_SIZE);
      if table_id =? tb_id then Ok (i, tb_offset) else find_table n (i + 1) tb_offset table_id d
  end.
(** the loop of [delete_table] that moves the [n] records and names from [j] on *)
Fixpoint shift_tables (n : nat) (j deleted_name_size : Z) (d : bytes) : res bytes :=
  match n with
  | O => Ok d
  | S n =>
      let table_offset := record_at j in
      name_offset ← rd32 d table_offset;
      name_size ← rd32 d (table_offset + OFFSET_T_SIZE);
      d ← mem_move d (table_offset - TABLE_RECORD_SZ) table_offset TABLE_RECORD_SZ;
      d ← mem_move d (name_offset + deleted_name_size + 1) name_offset (name_size + 1);
      o ← rd32 d (table_offset - TABLE_RECORD_SZ);
      d ← wr32 d (table_offset - TABLE_RECORD_SZ) (o + (deleted_name_size + 1));
      shift_tables n (j + 1) deleted_name_size d
  end.
(** what [delete_table] does to the page: the bytes and the free space pointer
    afterwards, and the page of the table; [None] is the report of an inconsistency *)
Definition remove_table (table_id table_num free_space_pointer : Z) (d : bytes) : res (option (Z * Z) * bytes) :=
  let* (i, tb_offset) := find_table (Z.to_nat table_num) 0 (-1) table_id d in
  if tb_offset =? -1 then Ok (None, d)
  else
    deleted_name_size ← rd32 d (tb_offset + OFFSET_T_SIZE);
    deleted_page_id ← rd32 d (tb_offset + OFFSET_T_SIZE + SIZE_T_SIZE);
    d ← (if negb (i =? table_num - 1) then shift_tables (Z.to_nat (table_num - (i + 1))) (i + 1) deleted_name_size d else Ok d);
    d ← wr32 d TABLE_NUM_OFFSET (table_num - 1);
    Ok (Some (free_space_pointer + (deleted_name_size + 1), deleted_page_id), d).

(** the loop of [change_table_name] for a shorter name: [n] names from [j] on, of
    [table_num] *)
Fixpoint shrink_names (n : nat) (j table_num difference_abs : Z) (d : bytes) : res bytes :=
  match n with
  | O => Ok d
  | S n =>
      let next_table_offset := record_at j in
      next_name_offset ← rd32 d next_table_offset;
      next_name_size ← rd32 d (next_table_offset + OFFSET_T_SIZE);
      d ← mem_move d (next_name_offset + difference_abs) next_name_offset (next_name_size + 1);
      o ← rd32 d (next_table_offset - TABLE_RECORD_SZ);
      d ← wr32 d (next_table_offset - TABLE_RECORD_SZ) (o + difference_abs);
      d ← (if j =? table_num - 1 then o ← rd32 d next_table_offset; wr32 d next_table_offset (o + difference_abs) else Ok d);
      shrink_names n (j + 1) table_num difference_abs d
  end.
(** the one for a longer name: [n] names from [k] down *)
Fixpoint grow_names (n : nat) (k difference_abs : Z) (d : bytes) : res bytes :=
  match n with
  | O => Ok d
  | S n =>
      let previous_table_offset := record_at k in
      previous_name_offset ← rd32 d previous_table_offset;
      previous_name_size ← rd32 d (previous_table_offset + OFFSET_T_SIZE);
      d ← mem_move d (previous_name_offset - difference_abs) previous_name_offset (previous_name_size + 1);
      o ← rd32 d previous_table_offset;
      d ← wr32 d previous_table_offset (o - difference_abs);
      grow_names n (k - 1) difference_abs d
  end.
(** [check_space]: it leaves out the four bytes of the number of tables *)
Definition check_space (size_needed table_num free_space_pointer : Z) : bool :=
  let insert_offset := TABLE_NUM_OFFSET + table_num * TABLE_RECORD_SZ in
  negb (free_space_pointer - insert_offset <? size_needed).
(** what [change_table_name] does to the page and the free space pointer; [None]
    when it returns false *)
Definition rename_table (table_id : Z) (old_name new_name : bytes) (table_num free_space_pointer : Z) (d : bytes) : res (option Z * bytes) :=
  let* (i, tb_offset) := find_table (Z.to_nat table_num) 0 (-1) table_id d in
  if tb_offset =? -1 then Ok (None, d)
  else
    let difference := zlen new_name - zlen old_name in
    let difference_abs := Z.abs difference in
    let* (fsp, d) :=
      if difference <? 0 then
        d ← shrink_names (Z.to_nat (table_num - (i + 1))) (i + 1) table_num difference_abs d;
        Ok (Some (free_space_pointer + difference_abs), d)
      else if difference >? 0 then
        if negb (check_space difference_abs table_num free_space_pointer) then Ok (None, d)
        else
          d ← grow_names (Z.to_nat (table_num - i)) (table_num - 1) difference_abs d;
          Ok (Some (free_space_pointer - difference_abs), d)
      else Ok (Some free_space_pointer, d) in
    match fsp with
    | None => Ok (None, d)
    | Some fsp =>
        new_name_offset ← rd32 d tb_offset;
        d ← put_name d new_name_offset new_name;
        d ← wr32 d (tb_offset + OFFSET_T_SIZE) (zlen new_name);
        Ok (Some fsp, d)
    end.

(** ** The page of the catalog as a list of names and ids *)

Notation entry := (bytes * Z)%type.
(** the names lie from the end of the page down, the first one last; [name_off l k]
    is where the first [k] of them begin *)
Definition name_off (l : list entry) (k : nat) : Z := PAGE_SIZE - sumZ ((λ e : entry, zlen e.1 + 1) <$> take k l).
(** the record in [slot] and the name at [off] *)
Definition tbl_at (d : bytes) (slot off : Z) (e : entry) : Prop :=
  rd32 d (record_at slot) = Ok off ∧ rd32 d (record_at slot + 4) = Ok (zlen e.1) ∧ rd32 d (record_at slot + 4 + 4) = Ok e.2 ∧
  mem_read d off (zlen e.1) = Ok e.1 ∧ mem_read d (off + zlen e.1) 1 = Ok [0].
Definition entry_ok (e : entry) : Prop := name_ok e.1 ∧ in32 e.2.
Record cat_rep (d : bytes) (fsp : Z) (l : list entry) : Prop := {
  cr_len : zlen d = PAGE_SIZE;
  cr_num : rd32 d TABLE_NUM_OFFSET = Ok (zlen l);
  cr_fsp : fsp = name_off l (length l);
  cr_room : record_at (zlen l) ≤ fsp;
  cr_ok : Forall entry_ok l;
  cr_at : ∀ i e, l !! i = Some e → tbl_at d (Z.of_nat i) (name_off l (S i)) e;
}.

Lemma tbl_at_frame d d' slot off e : tbl_at d slot off e →
  (∀ a n, record_at slot ≤ a → a + n ≤ record_at slot + 12 → mem_read d' a n = mem_read d a n) →
  (∀ a n, off ≤ a → a + n ≤ off + zlen e.1 + 1 → mem_read d' a n = mem_read d a n) → tbl_at d' slot off e.
Proof.
  intros (H1&H2&H3&H4&H5) Hr Hn. pose proof (zlen_nonneg e.1). unfold tbl_at, rd32 in *.
  rewrite !Hr, !Hn by lia. by split_and!.
Qed.

Lemma name_off_S l i e : l !! i = Some e → name_off l (S i) = name_off l i - (zlen e.1 + 1).
Proof.
  intros H. unfold name_off. rewrite !fmap_take, (sumZ_take_S _ _ (zlen e.1 + 1)); [lia|]. by rewrite list_lookup_fmap, H.
Qed.
Lemma name_off_le l i j : (i ≤ j)%nat → name_off l j ≤ name_off l i ≤ PAGE_SIZE.
Proof.
  intros Hij. unfold name_off. rewrite !fmap_take. set (k := (λ e : entry, zlen e.1 + 1) <$> l).
  assert (Forall (λ x, 0 ≤ x) k) as Hk by (apply Forall_forall; intros z (e&->&_)%list_elem_of_fmap; pose proof (zlen_nonneg e.1); lia).
  assert (take i k = take i (take j k)) as -> by (rewrite take_take; f_equal; lia).
  pose proof (sumZ_take_le (take j k) i (Forall_take _ _ _ Hk)). lia.
Qed.
Lemma name_off_app l l' k : (k ≤ length l)%nat → name_off (l ++ l') k = name_off l k.
Proof. intros Hk. unfold name_off. by rewrite take_app_le. Qed.

(** loading the page gives the list *)
Lemma load_tables_ok d fsp l : cat_rep d fsp l → ∀ n i, (i + n = length l)%nat →
  load_tables n (Z.of_nat i) d = Ok ((λ e : entry, (e.2, e.1)) <$> drop i l).
Proof.
  intros H. induction n as [|n IH]; intros i Hi; cbn [load_tables].
  { by rewrite drop_ge by lia. }
  destruct (lookup_lt_is_Some_2 l i) as [e He]; [lia|]. destruct (cr_at _ _ _ H i e He) as (H1&H2&H3&H4&H5).
  change OFFSET_T_SIZE with 4. change SIZE_T_SIZE with 4. rewrite H1. cbn [mbind res_bind]. rewrite H2. cbn [mbind res_bind]. rewrite H3. cbn [mbind res_bind].
  unfold get_table_name. rewrite H4. cbn [mbind res_bind]. pose proof (proj1 (Forall_lookup _ _) (cr_ok _ _ _ H) i e He) as [[Hnz _] _].
  rewrite c_string_0, (until_nul_pad e.1 []) by done. cbn [of_opt mbind res_bind]. replace (Z.of_nat i + 1) with (Z.of_nat (S i)) by lia.
  rewrite IH by lia. cbn [mbind res_bind]. by rewrite (drop_S _ _ _ He).
Qed.
Lemma load_free_space_ok d fsp l : cat_rep d fsp l → load_free_space (zlen l) d = Ok fsp.
Proof.
  intros H. unfold load_free_space. destruct (Z.eqb_spec (zlen l) 0) as [E|E]; cbn [negb].
  - destruct l as [|e l]; [|unfold zlen in E; cbn in E; lia]. by rewrite (cr_fsp _ _ _ H).
  - destruct l as [|e l _] using rev_ind; [done|]. rewrite zlen_app. unfold zlen at 2. cbn [length]. replace (zlen l + Z.of_nat 1 - 1) with (zlen l) by lia.
    destruct (cr_at _ _ _ H (length l) e) as (E1&_); [by rewrite lookup_app_r, Nat.sub_diag by lia|].
    change (Z.of_nat (length l)) with (zlen l) in E1. rewrite E1, (cr_fsp _ _ _ H), length_app. cbn [length]. by rewrite Nat.add_1_r.
Qed.

Ltac cat_lia := unfold record_at, TABLE_NUM_OFFSET, TABLE_RECORD_SZ in *; cfg_lia.

(** adding a table that fits with its NUL *)
Lemma cat_rep_ext d d' fsp l : zlen d' = zlen d → payload d' = payload d → cat_rep d fsp l → cat_rep d' fsp l.
Proof.
  intros Hl Hp [H1 H2 H3 H4 H5 H6]. assert (∀ o n, HEADER_USED ≤ o → mem_read d' o n = mem_read d o n) as E by (intros; by apply mem_read_payload).
  constructor; [congruence| |done..|]; [unfold rd32 in *; by rewrite E by (vm_compute; discriminate)|].
  intros i e Hi. pose proof (name_off_le l (S i) (length l) ltac:(by apply lookup_lt_Some in Hi)) as [? _].
  eapply tbl_at_frame; [by apply H6| |]; intros a n ? ?; apply E; pose proof (zlen_nonneg l); unfold HEADER_USED; cat_lia.
Qed.
Lemma room_for_ok d fsp l nm : cat_rep d fsp l →
  room_for nm fsp d = Ok (bool_decide (record_at (zlen l + 1) + zlen nm ≤ fsp), record_at (zlen l)).
Proof.
  intros H. unfold room_for. rewrite (cr_num _ _ _ H). cbn [mbind res_bind]. do 2 f_equal.
  rewrite <- bool_decide_not. apply bool_decide_ext. cat_lia.
Qed.
Lemma put_table_ok d fsp l nm id : cat_rep d fsp l → entry_ok (nm, id) → record_at (zlen l + 1) + zlen nm + 1 ≤ fsp →
  ∃ d', put_table (zlen l + 1) (record_at (zlen l)) (fsp - (zlen nm + 1)) nm id d = Ok d' ∧
    cat_rep d' (fsp - (zlen nm + 1)) (l ++ [(nm, id)]) ∧ ∀ a n, a + n ≤ TABLE_NUM_OFFSET → mem_read d' a n = mem_read d a n.
Proof.
  intros H Hok Hroom. pose proof (cr_len _ _ _ H) as Hlen. pose proof (zlen_nonneg nm). pose proof (zlen_nonneg l).
  assert (fsp ≤ PAGE_SIZE) by (rewrite (cr_fsp _ _ _ H); by apply (name_off_le l (length l) (length l))).
  unfold put_table. destruct Hok as [[Hnz Hnl] Hid]. cbn [fst snd] in *.
  destruct (wr32_ex d TABLE_NUM_OFFSET (zlen l + 1)) as (d1&->&L1&R1&F1); [cat_lia|cat_lia|unfold in32; cat_lia|]. cbn [mbind res_bind].
  destruct (put_name_ex d1 (fsp - (zlen nm + 1)) nm) as (d2&->&L2&R2&R2'&F2); [cat_lia|cat_lia|]. cbn [mbind res_bind].
  destruct (wr32_ex d2 (record_at (zlen l)) (fsp - (zlen nm + 1))) as (d3&->&L3&R3&F3); [cat_lia|cat_lia|unfold in32; cat_lia|]. cbn [mbind res_bind].
  change OFFSET_T_SIZE with 4. change SIZE_T_SIZE with 4.
  destruct (wr32_ex d3 (record_at (zlen l) + 4) (zlen nm)) as (d4&->&L4&R4&F4); [cat_lia|cat_lia|unfold in32; cat_lia|]. cbn [mbind res_bind].
  destruct (wr32_ex d4 (record_at (zlen l) + 4 + 4) id) as (d5&->&L5&R5&F5); [cat_lia|cat_lia|done|].
  exists d5. split; [done|]. split; [|intros a n Ha; rewrite F5, F4, F3, F2, F1 by cat_lia; done].
  assert (name_off (l ++ [(nm, id)]) (length (l ++ [(nm, id)])) = fsp - (zlen nm + 1)) as Hoff.
  { rewrite length_app. cbn [length]. rewrite Nat.add_1_r, (name_off_S _ _ (nm, id)) by (by rewrite lookup_app_r, Nat.sub_diag by lia).
    rewrite name_off_app, <- (cr_fsp _ _ _ H) by done. done. }
  constructor; [lia| |done| | |].
  - rewrite (rd32_ext d1) by (rewrite F5, F4, F3, F2 by cat_lia; done). rewrite R1. by rewrite zlen_app.
  - rewrite zlen_app. change (zlen [(nm, id)]) with 1. cat_lia.
  - apply Forall_app. split; [apply H|]. by constructor.
  - intros i e He. destruct (decide (i < length l)%nat) as [Hi|Hi].
    + rewrite lookup_app_l in He by done. rewrite name_off_app by lia. pose proof (cr_at _ _ _ H i e He) as Hat.
      pose proof (name_off_le l (S i) (length l) ltac:(lia)) as Hle. rewrite <- (cr_fsp _ _ _ H) in Hle.
      assert (Z.of_nat i < zlen l) by (unfold zlen; lia).
      eapply tbl_at_frame; [exact Hat|intros a n Ha Hn; rewrite F5, F4, F3, F2, F1 by cat_lia; done|].
      intros a n Ha Hn. rewrite F5, F4, F3, F2, F1 by cat_lia. done.
    + assert (i = length l) as -> by (apply lookup_lt_Some in He; rewrite length_app in He; cbn in He; lia).
      rewrite lookup_app_r, Nat.sub_diag in He by lia. injection He as <-. rewrite length_app in Hoff. cbn [length] in Hoff. rewrite Nat.add_1_r in Hoff.
      rewrite Hoff. unfold tbl_at. cbn [fst snd]. change (Z.of_nat (length l)) with (zlen l).
      rewrite (rd32_ext d3 d5 (record_at (zlen l))) by (rewrite F5, F4 by cat_lia; done).
      rewrite (rd32_ext d4 d5 (record_at (zlen l) + 4)) by (rewrite F5 by cat_lia; done).
      rewrite !F5, !F4, !F3 by cat_lia. by split_and!.
Qed.

Lemma find_table_ok d fsp l i e : cat_rep d fsp l → NoDup l.*2 → l !! i = Some e → ∀ n k tb, (k + n = length l)%nat → (k ≤ i)%nat →
  find_table n (Z.of_nat k) tb e.2 d = Ok (Z.of_nat i, record_at (Z.of_nat i)).
Proof.
  intros H Hnd Hi. induction n as [|n IH]; intros k tb Hk Hki; cbn [find_table].
  { apply lookup_lt_Some in Hi. lia. }
  destruct (lookup_lt_is_Some_2 l k) as [e' He']; [lia|]. destruct (cr_at _ _ _ H k e' He') as (_&_&H3&_).
  change OFFSET_T_SIZE with 4. change SIZE_T_SIZE with 4. rewrite H3. cbn [mbind res_bind]. destruct (Z.eqb_spec e.2 e'.2) as [E|E].
  - assert (k = i) as ->; [|done]. eapply (NoDup_lookup _ k i e.2 Hnd); rewrite list_lookup_fmap; [by rewrite He', E|by rewrite Hi].
  - replace (Z.of_nat k + 1) with (Z.of_nat (S k)) by lia. apply IH; [lia|]. destruct (decide (k = i)) as [->|]; [congruence|lia].
Qed.

Section Shift.
Context (l : list entry) (i : nat) (ei : entry) (Hi : l !! i = Some ei) (Hroom : record_at (zlen l) ≤ name_off l (length l)) (Hent : Forall entry_ok l).
Notation D := (zlen ei.1 + 1).

(** the tables below [j], without [i], are where they will be, the others where they were *)
Definition shifted (d : bytes) (j : nat) : Prop :=
  zlen d = PAGE_SIZE ∧
  (∀ k e, l !! k = Some e → (k < i)%nat → tbl_at d (Z.of_nat k) (name_off l (S k)) e) ∧
  (∀ k e, l !! k = Some e → (i < k < j)%nat → tbl_at d (Z.of_nat k - 1) (name_off l (S k) + D) e) ∧
  (∀ k e, l !! k = Some e → (j ≤ k)%nat → tbl_at d (Z.of_nat k) (name_off l (S k)) e).

Lemma below_names k : (k < length l)%nat → record_at (Z.of_nat k) + 12 ≤ name_off l (length l).
Proof. intros Hk. assert (Z.of_nat k + 1 ≤ zlen l) by (unfold zlen; lia). cat_lia. Qed.

Lemma tbl_read d slot off e : tbl_at d slot off e → 0 ≤ off ∧ off + zlen e.1 + 1 ≤ zlen d ∧ mem_read d off (zlen e.1 + 1) = Ok (e.1 ++ [0]).
Proof.
  intros (_&_&_&H4&H5). pose proof (zlen_nonneg e.1). split_and!; [by apply mem_read_Ok in H4 as (?&_)|apply mem_read_Ok in H5 as (_&_&?&_); lia|].
  rewrite mem_read_app by lia. rewrite H4. cbn [mbind res_bind]. by rewrite H5.
Qed.

Lemma mem_move_write m dst src len bs : mem_read m src len = Ok bs → mem_move m dst src len = mem_write m dst bs.
Proof. intros H. unfold mem_move. by rewrite H. Qed.
Lemma mem_read_parts m off (a b : bytes) : mem_read m off (zlen a + zlen b) = Ok (a ++ b) →
  mem_read m off (zlen a) = Ok a ∧ mem_read m (off + zlen a) (zlen b) = Ok b.
Proof.
  rewrite mem_read_app by apply zlen_nonneg. destruct (mem_read m off (zlen a)) as [x|] eqn:Hx; [|done]. cbn [mbind res_bind].
  destruct (mem_read m (off + zlen a) (zlen b)) as [y|] eqn:Hy; [|done]. cbn [mbind res_bind]. intros E. injection E as E.
  apply app_inj_1 in E as [-> ->]; [done|]. apply mem_read_zlen in Hx. unfold zlen in Hx. lia.
Qed.

Lemma shift_step d j ej : l !! j = Some ej → (i < j)%nat → shifted d j →
  ∃ d', (name_offset ← rd32 d (record_at (Z.of_nat j));
         name_size ← rd32 d (record_at (Z.of_nat j) + OFFSET_T_SIZE);
         d ← mem_move d (record_at (Z.of_nat j) - TABLE_RECORD_SZ) (record_at (Z.of_nat j)) TABLE_RECORD_SZ;
         d ← mem_move d (name_offset + zlen ei.1 + 1) name_offset (name_size + 1);
         o ← rd32 d (record_at (Z.of_nat j) - TABLE_RECORD_SZ);
         wr32 d (record_at (Z.of_nat j) - TABLE_RECORD_SZ) (o + (zlen ei.1 + 1))) = Ok d' ∧
    shifted d' (S j) ∧ ∀ a n, a + n ≤ record_at 0 → mem_read d' a n = mem_read d a n.
Proof.
  intros Hj Hij (Hlen&Hlow&Hmid&Hhigh). pose proof (Hhigh j ej Hj ltac:(lia)) as Hat. pose proof Hat as (H1&H2&H3&H4&H5).
  destruct (tbl_read _ _ _ _ Hat) as (Ho&Hb&Hr). pose proof (zlen_nonneg ei.1). pose proof (zlen_nonneg ej.1). pose proof (lookup_lt_Some _ _ _ Hj) as Hjl.
  pose proof (below_names j Hjl) as Hbj. pose proof (name_off_le l (S j) (length l) ltac:(lia)) as [Hle _].
  pose proof (name_off_S l j ej Hj) as Hsj. pose proof (name_off_S l i ei Hi) as Hsi. pose proof (name_off_le l (S i) j ltac:(lia)) as [Hle2 _].
  pose proof (name_off_le l i i ltac:(lia)) as [_ Hle3].
  change OFFSET_T_SIZE with 4. change TABLE_RECORD_SZ with 12 in *. rewrite H1. cbn [mbind res_bind]. rewrite H2. cbn [mbind res_bind].
  set (r := record_at (Z.of_nat j)) in *. assert (record_at (Z.of_nat j - 1) = r - 12) as Hr1 by (unfold r; cat_lia).
  assert (68 ≤ r - 12) as Hr68 by (unfold r; cat_lia).
  destruct (mem_read_ex d r 12) as [rec Hrec]; [lia..|]. rewrite (mem_move_write _ _ _ _ _ Hrec).
  pose proof (mem_read_zlen _ _ _ _ Hrec) as Hrl.
  destruct (mem_write_ex d (r - 12) rec) as (d1&->&L1&R1&F1); [lia..|]. cbn [mbind res_bind]. rewrite Hrl in *.
  assert (∀ k, k = 0 ∨ k = 4 ∨ k = 8 → rd32 d1 (r - 12 + k) = rd32 d (r + k)) as Hmv.
  { intros k Hk. unfold rd32. f_equal.
    assert (∀ (m : bytes) a, mem_read m a 12 = Ok rec → mem_read m (a + k) 4 = mem_read rec k 4) as Hsub; [|by rewrite !Hsub].
    intros m a (?&_&?&Em)%mem_read_Ok. unfold mem_read. rewrite !(proj2 (Z.leb_le _ _)) by lia. cbn [andb]. f_equal. rewrite Em.
    rewrite skipn_firstn_comm, take_take, drop_drop. f_equal; [lia|]. f_equal. lia. }
  rewrite (mem_move_write d1 _ _ _ (ej.1 ++ [0])) by (by rewrite F1 by lia).
  assert (zlen (ej.1 ++ [0]) = zlen ej.1 + 1) as Hz by (by rewrite zlen_app).
  destruct (mem_write_ex d1 (name_off l (S j) + zlen ei.1 + 1) (ej.1 ++ [0])) as (d2&->&L2&R2&F2); [lia|lia|]. cbn [mbind res_bind]. rewrite Hz in *.
  rewrite (rd32_ext d1) by (rewrite F2 by lia; done). pose proof (Hmv 0 ltac:(lia)) as Hmv0. rewrite !Z.add_0_r in Hmv0. rewrite Hmv0, H1. cbn [mbind res_bind].
  destruct (wr32_ex d2 (r - 12) (name_off l (S j) + D)) as (d3&->&L3&R3&F3); [lia|lia|unfold in32; cfg_lia|].
  exists d3. split; [done|]. split; [|intros a n Ha; rewrite F3, F2, F1 by cat_lia; done].
  split_and!; [lia| | |].
  - intros k e Hk Hki. pose proof (below_names k ltac:(by eapply lookup_lt_Some)) as Hbk. pose proof (name_off_le l (S k) i ltac:(lia)) as [Hlek _].
    pose proof (zlen_nonneg e.1).
    assert (record_at (Z.of_nat k) + 12 ≤ r - 12) by (unfold r; cat_lia).
    eapply tbl_at_frame; [by apply Hlow| |]; intros a n Ha Hn; rewrite F3, F2, F1 by lia; done.
  - intros k e Hk Hkj. destruct (decide (k = j)) as [->|Hne].
    + rewrite Hj in Hk. injection Hk as <-. unfold tbl_at. rewrite Hr1, R3.
      rewrite (rd32_ext d1 d3 (r - 12 + 4)) by (rewrite F3, F2 by lia; done).
      rewrite (rd32_ext d1 d3 (r - 12 + 4 + 4)) by (rewrite F3, F2 by lia; done).
      rewrite <- Z.add_assoc, !Hmv by lia. change (4 + 4) with 8. replace (r + 8) with (r + 4 + 4) by lia.
      split_and!; [done|done|done| |].
      * rewrite F3 by lia. apply (mem_read_parts _ _ ej.1 [0]) in R2 as [R2 _]. by replace (name_off l (S j) + D) with (name_off l (S j) + zlen ei.1 + 1) by lia.
      * rewrite F3 by lia. apply (mem_read_parts _ _ ej.1 [0]) in R2 as [_ R2]. rewrite <- R2. f_equal. lia.
    + pose proof (below_names k ltac:(by eapply lookup_lt_Some)) as Hbk. pose proof (name_off_le l (S k) j ltac:(lia)) as [Hlek _].
      pose proof (zlen_nonneg e.1). pose proof (name_off_le l (S k) (length l) ltac:(apply lookup_lt_Some in Hk; lia)) as [Hlek2 _].
      assert (record_at (Z.of_nat k - 1) + 12 ≤ r - 12) by (unfold r; cat_lia).
      eapply tbl_at_frame; [apply Hmid; [done|lia]| |]; intros a n Ha Hn; rewrite F3, F2, F1 by lia; done.
  - intros k e Hk Hkj. pose proof (name_off_S l k e Hk) as Hsk. pose proof (name_off_le l (S j) k ltac:(lia)) as [Hlek _].
    pose proof (below_names k ltac:(by eapply lookup_lt_Some)) as Hbk. pose proof (zlen_nonneg e.1).
    pose proof (name_off_le l (S k) (length l) ltac:(apply lookup_lt_Some in Hk; lia)) as [Hlek2 _].
    assert (r ≤ record_at (Z.of_nat k) - 12) by (unfold r; cat_lia).
    eapply tbl_at_frame; [apply Hhigh; [done|lia]| |]; intros a n Ha Hn; rewrite F3, F2, F1 by lia; done.
Qed.
Lemma shift_tables_ok n : ∀ j d, (j + n = length l)%nat → (i < j)%nat → shifted d j →
  ∃ d', shift_tables n (Z.of_nat j) (zlen ei.1) d = Ok d' ∧ shifted d' (length l) ∧ ∀ a n, a + n ≤ record_at 0 → mem_read d' a n = mem_read d a n.
Proof.
  induction n as [|n IH]; intros j d Hj Hij Hs; cbn [shift_tables].
  { exists d. by replace j with (length l) in Hs by lia. }
  destruct (lookup_lt_is_Some_2 l j) as [ej Hej]; [lia|]. destruct (shift_step d j ej Hej Hij Hs) as (d1&H1&Hs1&F1).
  destruct (IH (S j) d1) as (d'&Hd'&Hs'&F'); [lia|lia|done|]. exists d'. split; [|split; [done|intros a m Ha; by rewrite F', F1]].
  rewrite <- Hd'. replace (Z.of_nat (S j)) with (Z.of_nat j + 1) by lia. clear -H1. revert H1.
  destruct (rd32 d (record_at (Z.of_nat j))) as [no|]; [|done]. cbn [mbind res_bind].
  destruct (rd32 d (record_at (Z.of_nat j) + OFFSET_T_SIZE)) as [ns|]; [|done]. cbn [mbind res_bind].
  destruct (mem_move d _ _ _) as [d2|]; [|done]. cbn [mbind res_bind]. destruct (mem_move d2 _ _ _) as [d3|]; [|done]. cbn [mbind res_bind].
  destruct (rd32 d3 _) as [o|]; [|done]. cbn [mbind res_bind]. by intros ->.
Qed.

Lemma name_off_delete k : (k ≤ length l)%nat →
  name_off (delete i l) k = if decide (k ≤ i)%nat then name_off l k else name_off l (S k) + D.
Proof.
  intros Hk. pose proof (lookup_lt_Some _ _ _ Hi) as Hil. unfold name_off. rewrite delete_take_drop. case_decide as Hki.
  - rewrite take_app_le by (rewrite length_take; lia). rewrite take_take, Nat.min_l by lia. done.
  - rewrite take_app_ge by (rewrite length_take; lia). rewrite length_take, Nat.min_l by lia.
    rewrite <- (take_drop_middle l i ei Hi) at 3. rewrite take_app_ge by (rewrite length_take; lia). rewrite length_take, Nat.min_l by lia.
    replace (S k - i)%nat with (S (k - i)) by lia. cbn [take]. rewrite !fmap_app, fmap_cons.
    assert (∀ a b, sumZ (a ++ b) = sumZ a + sumZ b) as Happ by (intros a b; induction a as [|x a IHa]; cbn [sumZ app]; lia).
    rewrite !Happ. cbn [sumZ]. lia.
Qed.
Lemma lookup_delete_entry k e : delete i l !! k = Some e → if decide (k < i)%nat then l !! k = Some e else l !! S k = Some e.
Proof. intros H. case_decide; [by rewrite list_lookup_delete_lt in H|by rewrite list_lookup_delete_ge in H by lia]. Qed.
End Shift.

(** removing a table *)
Lemma remove_table_ok d fsp l i e : cat_rep d fsp l → NoDup l.*2 → l !! i = Some e →
  ∃ d', remove_table e.2 (zlen l) fsp d = Ok (Some (fsp + (zlen e.1 + 1), e.2), d') ∧ cat_rep d' (fsp + (zlen e.1 + 1)) (delete i l) ∧
    ∀ a n, a + n ≤ TABLE_NUM_OFFSET → mem_read d' a n = mem_read d a n.
Proof.
  intros H Hnd Hi. pose proof (lookup_lt_Some _ _ _ Hi) as Hil. unfold remove_table.
  assert (Z.to_nat (zlen l) = length l) as -> by (unfold zlen; lia).
  pose proof (find_table_ok d fsp l i e H Hnd Hi (length l) 0 (-1) ltac:(lia) ltac:(lia)) as Hfind. change (Z.of_nat 0) with 0 in Hfind. rewrite Hfind. cbn [mbind res_bind].
  rewrite (proj2 (Z.eqb_neq _ _)) by cat_lia. destruct (cr_at _ _ _ H i e Hi) as (_&H2&H3&_).
  change OFFSET_T_SIZE with 4 in *. change SIZE_T_SIZE with 4 in *. rewrite H2. cbn [mbind res_bind]. rewrite H3. cbn [mbind res_bind].
  pose proof (cr_room _ _ _ H) as Hroom. rewrite (cr_fsp _ _ _ H) in Hroom. pose proof (cr_ok _ _ _ H) as Hent.
  assert (∃ d1, (if negb (Z.of_nat i =? zlen l - 1) then shift_tables (Z.to_nat (zlen l - (Z.of_nat i + 1))) (Z.of_nat i + 1) (zlen e.1) d else Ok d) = Ok d1 ∧
    shifted l i e d1 (length l) ∧ ∀ a n, a + n ≤ record_at 0 → mem_read d1 a n = mem_read d a n) as (d1&->&(Hlen&Hlow&Hmid&_)&F1).
  { assert (shifted l i e d (S i)) as Hs by (split_and!; [apply H|intros; by apply H|lia|intros; by apply H]).
    destruct (Z.eqb_spec (Z.of_nat i) (zlen l - 1)) as [E|E]; cbn [negb].
    - exists d. replace (length l) with (S i) by (unfold zlen in E; lia). done.
    - replace (Z.of_nat i + 1) with (Z.of_nat (S i)) by lia. apply shift_tables_ok; try done; unfold zlen in *; lia. }
  cbn [mbind res_bind]. destruct (wr32_ex d1 TABLE_NUM_OFFSET (zlen l - 1)) as (d2&->&L2&R2&F2); [cat_lia|cat_lia|pose proof (cr_room _ _ _ H); pose proof (name_off_le l (length l) (length l)); unfold in32; pose proof (zlen_nonneg l); cat_lia|].
  cbn [mbind res_bind]. exists d2. split; [done|]. split; [|intros a n Ha; rewrite F2, F1 by cat_lia; done].
  assert (length (delete i l) = length l - 1)%nat as Hdl by (by apply length_delete).
  assert (zlen (delete i l) = zlen l - 1) as Hzl by (unfold zlen; lia).
  assert (name_off (delete i l) (length (delete i l)) = fsp + (zlen e.1 + 1)) as Hoff.
  { rewrite (name_off_delete l i e Hi) by lia. rewrite (cr_fsp _ _ _ H), Hdl. case_decide as Hc.
    - replace (length l) with (S i) by lia. rewrite (name_off_S _ _ _ Hi). replace (S i - 1)%nat with i by lia. lia.
    - replace (S (length l - 1)) with (length l) by lia. done. }
  pose proof (zlen_nonneg e.1). pose proof (cr_fsp _ _ _ H).
  constructor; [lia|by rewrite R2, Hzl|done|rewrite Hzl; cat_lia|by apply Forall_delete|].
  intros k e' Hk. pose proof (lookup_lt_Some _ _ _ Hk) as Hkl. rewrite (name_off_delete l i e Hi) by lia. apply lookup_delete_entry in Hk.
  case_decide as Hc.
  - rewrite decide_True by lia. eapply tbl_at_frame; [by apply Hlow| |].
    + intros a n Ha Hn. apply F2. cat_lia.
    + pose proof (name_off_le l (S k) (length l) ltac:(lia)). intros a n Ha Hn. apply F2. pose proof (zlen_nonneg l). cat_lia.
  - rewrite decide_False by lia. pose proof (Hmid (S k) e' Hk ltac:(lia)) as Hat. replace (Z.of_nat (S k) - 1) with (Z.of_nat k) in Hat by lia.
    eapply tbl_at_frame; [exact Hat| |].
    + intros a n Ha Hn. apply F2. cat_lia.
    + pose proof (name_off_le l (S (S k)) (length l) ltac:(lia)). intros a n Ha Hn. apply F2. pose proof (zlen_nonneg l). cat_lia.
Qed.

(** an empty catalog *)
Lemma empty_catalog d : zlen d = PAGE_SIZE → ∃ d', wr32 d TABLE_NUM_OFFSET 0 = Ok d' ∧ cat_rep d' PAGE_SIZE [] ∧
  ∀ a n, a + n ≤ TABLE_NUM_OFFSET → mem_read d' a n = mem_read d a n.
Proof.
  intros Hd. destruct (wr32_ex d TABLE_NUM_OFFSET 0) as (d'&->&L&R1&F); [cat_lia|cat_lia|split; vm_compute; discriminate|]. exists d'. split; [done|].
  split; [|intros a n Ha; apply F; lia]. constructor; [lia|done|done|vm_compute; discriminate|constructor|done].
Qed.

(** ** Sequences of creations and removals *)

Inductive page_op :=
  | PCreate (name : bytes) (id : Z)
  | PDrop (id : Z).

(** the page with the number of tables and the free space pointer the object keeps *)
Definition exec_page (op : page_op) (st : Z * Z * bytes) : res (Z * Z * bytes) :=
  let '(num, fsp, d) := st in
  match op with
  | PCreate name id =>
      let* (room, off) := room_for name fsp d in
      if (room : bool) then d ← put_table (num + 1) off (fsp - (zlen name + 1)) name id d; Ok (num + 1, fsp - (zlen name + 1), d) else Ok st
  | PDrop id =>
      let* (r, d) := remove_table id num fsp d in
      Ok (match r with Some (fsp, _) => (num - 1, fsp, d) | None => (num, fsp, d) end)
  end.
Fixpoint run_page (ops : list page_op) (st : Z * Z * bytes) : res (Z * Z * bytes) :=
  match ops with
  | [] => Ok st
  | op :: ops => st ← exec_page op st; run_page ops st
  end.

(** the same on a list *)
Definition spec_page (op : page_op) (l : list entry) : list entry :=
  match op with
  | PCreate name id => if record_at (zlen l + 1) + zlen name <=? name_off l (length l) then l ++ [(name, id)] else l
  | PDrop id => filter (λ e : entry, e.2 ≠ id) l
  end.
Definition spec_pages (ops : list page_op) (l : list entry) : list entry := foldl (λ l op, spec_page op l) l ops.
(** a new id is given to a new table, and the space left is not just one byte short *)
Definition page_op_ok (op : page_op) (l : list entry) : Prop :=
  match op with
  | PCreate name id => entry_ok (name, id) ∧ (id ∉ l.*2) ∧ record_at (zlen l + 1) + zlen name ≠ name_off l (length l)
  | PDrop id => id ∈ l.*2
  end.
Fixpoint page_ops_ok (ops : list page_op) (l : list entry) : Prop :=
  match ops with
  | [] => True
  | op :: ops => page_op_ok op l ∧ page_ops_ok ops (spec_page op l)
  end.

Lemma delete_filter (l : list entry) i e : NoDup l.*2 → l !! i = Some e → delete i l = filter (λ e' : entry, e'.2 ≠ e.2) l.
Proof.
  revert i. induction l as [|x l IH]; intros i Hn Hi; [done|]. rewrite fmap_cons in Hn. apply NoDup_cons in Hn as [Hx Hn]. destruct i as [|i].
  - injection Hi as ->. rewrite filter_cons_False by naive_solver. cbn. symmetry. clear IH Hn. induction l as [|y l IHl]; [done|].
    rewrite fmap_cons, not_elem_of_cons in Hx. destruct Hx. rewrite filter_cons_True by congruence. f_equal. by apply IHl.
  - cbn in Hi. rewrite filter_cons_True; [change (x :: delete i l = x :: filter (λ e' : entry, e'.2 ≠ e.2) l); by rewrite (IH i)|]. intros E. apply Hx. rewrite E.
    apply list_elem_of_fmap_2. by eapply list_elem_of_lookup_2.
Qed.

(** the state represents the list *)
Definition page_state (st : Z * Z * bytes) (l : list entry) : Prop := st.1.1 = zlen l ∧ cat_rep st.2 st.1.2 l ∧ NoDup l.*2.

Lemma exec_page_ok op st l : page_state st l → page_op_ok op l → ∃ st', exec_page op st = Ok st' ∧ page_state st' (spec_page op l).
Proof.
  destruct st as [[num fsp] d]. intros (Hn&Hrep&Hnd) Hop. cbn [fst snd] in *. subst num. pose proof (cr_fsp _ _ _ Hrep) as Hf. destruct op as [name id|id]; cbn [exec_page spec_page page_op_ok] in *.
  - destruct Hop as (He&Hid&Hne). rewrite (room_for_ok _ _ _ _ Hrep). cbn [mbind res_bind]. rewrite <- Hf in *.
    destruct (Z.leb_spec (record_at (zlen l + 1) + zlen name) fsp) as [Hle|Hlt]; [rewrite bool_decide_true by done|rewrite bool_decide_false by lia; by eexists].
    destruct (put_table_ok d fsp l name id Hrep He) as (d'&->&Hrep'&_); [lia|]. eexists. split; [done|]. split_and!; [by rewrite zlen_app|done|].
    rewrite fmap_app. apply NoDup_app. split_and!; [done| |apply NoDup_singleton]. by intros x Hx ->%list_elem_of_singleton.
  - apply list_elem_of_fmap in Hop as (e&->&(i&Hi)%list_elem_of_lookup). destruct (remove_table_ok d fsp l i e Hrep Hnd Hi) as (d'&->&Hrep'&_).
    cbn [mbind res_bind]. eexists. split; [done|]. rewrite <- (delete_filter l i e Hnd Hi). split_and!; [|done|].
    + pose proof (lookup_lt_Some _ _ _ Hi). cbn [fst]. unfold zlen. rewrite length_delete by done. lia.
    + rewrite list_fmap_delete. eapply sublist_NoDup; [exact Hnd|apply sublist_delete].
Qed.

(** C27: The page of the catalog is a list of names and ids: from an empty page, whatever
    bytes were there, after any sequence of creations (with names without NULs and ids that
    are not in use) and removals of tables that are there, in which no name with its record
    fills the space that is left exactly (the test for room forgets the NUL:
    [full_page_loses_name]), reading the page back as the constructor does gives the list of
    the tables that are left, in the order of their creation, and the free space pointer the
    object has kept; a creation without room changes nothing. *)
Theorem catalog_page_refines ops d : zlen d = PAGE_SIZE → page_ops_ok ops [] →
  ∃ d0 num fsp d', wr32 d TABLE_NUM_OFFSET 0 = Ok d0 ∧ run_page ops (0, PAGE_SIZE, d0) = Ok (num, fsp, d') ∧
    rd32 d' TABLE_NUM_OFFSET = Ok num ∧ load_tables (Z.to_nat num) 0 d' = Ok ((λ e : entry, (e.2, e.1)) <$> spec_pages ops []) ∧ load_free_space num d' = Ok fsp.
Proof.
  intros Hd. assert (∀ st l, page_state st l → page_ops_ok ops l → ∃ st', run_page ops st = Ok st' ∧ page_state st' (spec_pages ops l)) as Hrun.
  { induction ops as [|op ops IH]; intros st l Hst Hok; [by exists st|]. destruct Hok as [Ho Hok]. destruct (exec_page_ok op st l Hst Ho) as (st1&H1&Hst1).
    cbn [run_page]. rewrite H1. cbn [mbind res_bind]. by apply IH. }
  intros Hok. destruct (empty_catalog d Hd) as (d0&H0&Hrep&_). destruct (Hrun (0, PAGE_SIZE, d0) []) as ([[num fsp] d']&H1&(Hn&Hr&_)); [split_and!; [done..|constructor]|done|].
  cbn [fst snd] in *. exists d0, num, fsp, d'. rewrite Hn. split_and!; [done|by rewrite H1, Hn|apply Hr| |by apply load_free_space_ok].
  assert (Z.to_nat (zlen (spec_pages ops [])) = length (spec_pages ops [])) as -> by (unfold zlen; lia).
  by apply (load_tables_ok _ _ _ Hr (length (spec_pages ops [])) 0).
Qed.

(** three tables, the second one removed, another one added *)
Definition ops_page_t : list page_op := [PCreate [97; 98] 5; PCreate [99] 6; PCreate [100; 101; 102] 9; PDrop 6; PCreate [103] 12].
Lemma catalog_page_refines_witness : ∃ d0 num fsp d', wr32 (replicate 4096 0) TABLE_NUM_OFFSET 0 = Ok d0 ∧ run_page ops_page_t (0, PAGE_SIZE, d0) = Ok (num, fsp, d') ∧
  load_tables (Z.to_nat num) 0 d' = Ok [(5, [97; 98]); (9, [100; 101; 102]); (12, [103])].
Proof.
  destruct (catalog_page_refines ops_page_t (replicate 4096 0)) as (d0&num&fsp&d'&H1&H2&_&H3&_).
  - reflexivity.
  - unfold ops_page_t. cbn [page_ops_ok page_op_ok]. repeat match goal with
      | |- _ ∧ _ => split
      | |- entry_ok _ => split; [split; [repeat constructor; lia|vm_compute; discriminate]|split; vm_compute; discriminate]
      | |- _ => apply (bool_decide_unpack _); vm_compute; exact I
      end.
  - exists d0, num, fsp, d'. split_and!; [exact H1|exact H2|exact H3].
Defined.

(** the page after some operations *)
Definition page_after (ops : list page_op) : res (Z * Z * bytes) :=
  d0 ← wr32 (replicate 4096 0) TABLE_NUM_OFFSET 0; run_page ops (0, PAGE_SIZE, d0).

(** The room test of [create_table] leaves out the NUL behind the name: when the name
    takes all the space that is left, the last byte of its record overwrites the
    first byte of the name, and the name that is read back is another one. *)
Definition create_then_load (name : bytes) (id : Z) : res (list (Z * bytes)) :=
  let* (num, _, d) := page_after [PCreate name id] in load_tables (Z.to_nat num) 0 d.
Theorem full_page_loses_name : create_then_load (replicate 4016 97) 5 = Ok [(5, [])].
Proof. vm_compute. reflexivity. Qed.

(** A shorter name for the last table moves the free space pointer but not the
    name: the next table that is created overwrites it. *)
Definition rename_then_create : res (list (Z * bytes)) :=
  let* (num, fsp, d) := page_after [PCreate [97; 98; 99; 100] 5] in
  let* (fsp, d) := rename_table 5 [97; 98; 99; 100] [120] num fsp d in
  let* (num, fsp, d) := run_page [PCreate [121; 122] 6] (num, default (-1) fsp, d) in
  load_tables (Z.to_nat num) 0 d.
Theorem shorter_name_is_overwritten : rename_then_create = Ok [(5, [121]); (6, [121; 122])].
Proof. vm_compute. reflexivity. Qed.
