(* ===== verification/Catalog.v ===== *)
(** The catalog ([src/meta/table_meta_data.cpp], [src/meta/catalog_table.cpp],
    [src/include/meta/*.h], [src/include/manager/db_manager.h]): the meta data of a
    table, the table of all tables, the catalog page and the manager of a database.
    The objects hold pages of the pool pinned while they live; the pool they point
    to is passed along. Their latches are taken and released within each call. *)
From S2P Require Import Prelude Config Replacer ClockReplacer Page FileSys DiskManager BufferPool PoolSpec Values TablePage Schema PoolClient LinkHash Table MetaPages.

(** ** [TableMetaData] *)

(** [tm_page] is the frame of the page; the table id is the id of the page *)
Record TableMetaData := mkMeta {
  tm_schema : Schema;
  tm_name : bytes;
  tm_table : Table;
  tm_first : Z;
  tm_index : Z;
  tm_self : Z;
  tm_page : Z;
}.

(** ** [CatalogTable] *)

(** the three unordered maps, the frame of the page and the free space pointer *)
Record CatalogTable := mkCatalogTable {
  ct_self : Z;
  ct_page : Z;
  ct_fsp : Z;
  ct_num : Z;
  ct_id_to_name : gmap Z bytes;
  ct_name_to_id : gmap bytes Z;
  ct_meta : gmap Z TableMetaData;
}.
Definition ct_upd (fsp num : Z) (i2n : gmap Z bytes) (n2i : gmap bytes Z) (meta : gmap Z TableMetaData) (ct : CatalogTable) : CatalogTable :=
  mkCatalogTable (ct_self ct) (ct_page ct) fsp num i2n n2i meta.
Definition ct_upd_meta (meta : gmap Z TableMetaData) (ct : CatalogTable) : CatalogTable :=
  ct_upd (ct_fsp ct) (ct_num ct) (ct_id_to_name ct) (ct_name_to_id ct) meta ct.

(** [insert] of an unordered map: a key that is there keeps its value *)
Definition map_insert {K A} `{Countable K} (k : K) (a : A) (m : gmap K A) : gmap K A :=
  match m !! k with Some _ => m | None => <[k := a]> m end.
(** [erase(find(k))]: erasing [end()] is a fault *)
Definition map_erase {K A} `{Countable K} (k : K) (m : gmap K A) : res (gmap K A) :=
  _ ← of_opt OutOfBounds (m !! k); Ok (base.delete k m).

Section Catalog.
Context {R : Type} `{RA : ReplacerAbstract R}.
Notation BPM := (BufferPoolManager R).
Implicit Types (b : BPM) (ct : CatalogTable).

Definition get_page_or_exit (q : Z) b : res (Z * BPM) :=
  let* (f, b) := get_page q b in f ← of_opt ExitCalled f; Ok (f, b).

(** from what was stored *)
Definition TableMetaData_load (table_name : bytes) (table_id : Z) b : res (TableMetaData * BPM) :=
  let* (f, b) := get_page_or_exit table_id b in
  first ← reads f (λ p, rd32 (data_ p) FIRST_TABLE_PGID_OFFSET) b;
  index ← reads f (λ p, rd32 (data_ p) INDEX_HEADER_PGID_OFFSET) b;
  column_num ← reads f (λ p, rd32 (data_ p) COLUMN_NUM_OFFSET) b;
  cols ← reads f (λ p, read_columns (Z.to_nat column_num) FIRST_COLUMN_OFFSET (data_ p)) b;
  schema ← Schema_new cols;
  let* (table, b) := Table_new first false b in
  Ok (mkMeta schema table_name table first index table_id f, b).

(** from scratch *)
Definition TableMetaData_new (table_name : bytes) (schema : Schema) (table_id : Z) b : res (TableMetaData * BPM) :=
  let* (f, b) := get_page_or_exit table_id b in
  b ← changes_data f (λ d, d ← wr32 d COLUMN_NUM_OFFSET (get_column_num schema); write_columns (columns_ schema) FIRST_COLUMN_OFFSET d) b;
  let* (_, b) := flush_page table_id b in
  let* (page, b) := new_page b in
  b ← changes_data page LinkHashPage_init b;
  first ← page_id_at page b;
  b ← unpin_page first true b;
  b ← changes_data f (λ d, wr32 d FIRST_TABLE_PGID_OFFSET first) b;
  let* (page, b) := new_page b in
  index ← page_id_at page b;
  b ← unpin_page index false b;
  b ← changes_data f (λ d, wr32 d INDEX_HEADER_PGID_OFFSET index) b;
  let* (table, b) := Table_new first true b in
  Ok (mkMeta schema table_name table first index table_id f, b).

(** the destructor *)
Definition TableMetaData_delete (tm : TableMetaData) b : res BPM := unpin_page (tm_self tm) true b.

Definition delete_table_data (tm : TableMetaData) b : res BPM := delete_all_data (tm_table tm) b.

(** *** the constructor *)

Definition add_names (l : list (Z * bytes)) : gmap Z bytes * gmap bytes Z :=
  foldl (λ '(i2n, n2i) '(id, name), (map_insert id name i2n, map_insert name id n2i)) (∅, ∅) l.
Definition CatalogTable_new (page_id : Z) (from_scratch : bool) b : res (CatalogTable * BPM) :=
  let* (f, b) := get_page_or_exit page_id b in
  b ← (if from_scratch then changes_data f (λ d, wr32 d TABLE_NUM_OFFSET 0) b else Ok b);
  num ← reads f (λ p, rd32 (data_ p) TABLE_NUM_OFFSET) b;
  l ← reads f (λ p, load_tables (Z.to_nat num) 0 (data_ p)) b;
  fsp ← reads f (λ p, load_free_space num (data_ p)) b;
  let '(i2n, n2i) := add_names l in
  Ok (mkCatalogTable page_id f fsp num i2n n2i ∅, b).

(** the destructor *)
Fixpoint delete_metas (l : list (Z * TableMetaData)) b : res BPM :=
  match l with
  | [] => Ok b
  | (_, tm) :: l => b ← TableMetaData_delete tm b; delete_metas l b
  end.
Definition CatalogTable_delete ct b : res BPM :=
  let* (_, b) := flush_page (ct_self ct) b in
  b ← unpin_page (ct_self ct) true b;
  delete_metas (map_to_list (ct_meta ct)) b.

(** *** operations *)

Definition create_table (table_name : bytes) (schema : Schema) ct b : res (bool * CatalogTable * BPM) :=
  match ct_name_to_id ct !! table_name with
  | Some _ => Ok (false, ct, b)
  | None =>
      let* (room, insert_offset) := reads (ct_page ct) (λ p, room_for table_name (ct_fsp ct) (data_ p)) b in
      if negb room then Ok (false, ct, b)
      else
        let* (page, b) := new_page b in
        id ← page_id_at page b;
        let* (tm, b) := TableMetaData_new table_name schema id b in
        let meta := map_insert id tm (ct_meta ct) in
        let i2n := map_insert id table_name (ct_id_to_name ct) in
        let n2i := map_insert table_name id (ct_name_to_id ct) in
        b ← unpin_page id false b;
        let num := ct_num ct + 1 in
        let fsp := ct_fsp ct - (zlen table_name + 1) in
        b ← changes_data (ct_page ct) (put_table num insert_offset fsp table_name id) b;
        let* (_, b) := flush_page (ct_self ct) b in
        Ok (true, ct_upd fsp num i2n n2i meta ct, b)
  end.

(** [delete_table_data] of the catalog *)
Definition ct_delete_table_data (table_id : Z) (table_name : bytes) ct b : res (CatalogTable * BPM) :=
  let* (tm, b) :=
    match ct_meta ct !! table_id with
    | Some tm => Ok (tm, b)
    | None => TableMetaData_load table_name table_id b
    end in
  b ← delete_table_data tm b;
  b ← TableMetaData_delete tm b;
  i2n ← map_erase table_id (ct_id_to_name ct);
  n2i ← map_erase table_name (ct_name_to_id ct);
  Ok (ct_upd (ct_fsp ct) (ct_num ct) i2n n2i (base.delete table_id (ct_meta ct)) ct, b).

Definition delete_table_id (table_id : Z) ct b : res (bool * CatalogTable * BPM) :=
  match ct_id_to_name ct !! table_id with
  | None => Ok (true, ct, b)
  | Some deleted_tb_name =>
      let* (r, b) := changes (ct_page ct) (λ p, let* (r, d) := remove_table table_id (ct_num ct) (ct_fsp ct) (data_ p) in Ok (r, set_data p d)) b in
      match r with
      | None => Ok (false, ct, b)
      | Some (fsp, deleted_page_id) =>
          let ct := ct_upd fsp (ct_num ct - 1) (ct_id_to_name ct) (ct_name_to_id ct) (ct_meta ct) ct in
          let* (ct, b) := ct_delete_table_data table_id deleted_tb_name ct b in
          let* (_, b) := delete_page deleted_page_id b in
          let* (_, b) := flush_page (ct_self ct) b in
          Ok (true, ct, b)
      end
  end.
Definition delete_table (table_name : bytes) ct b : res (bool * CatalogTable * BPM) :=
  match ct_name_to_id ct !! table_name with
  | None => Ok (true, ct, b)
  | Some id => delete_table_id id ct b
  end.

(** the test for the meta data is the wrong way round: meta data that is not in
    memory is followed, meta data that is there keeps the old name *)
Definition change_table_name (table_id : Z) (new_name : bytes) ct b : res (bool * CatalogTable * BPM) :=
  match ct_id_to_name ct !! table_id with
  | None => Ok (false, ct, b)
  | Some old_name =>
      let* (r, b) := changes (ct_page ct)
        (λ p, let* (r, d) := rename_table table_id old_name new_name (ct_num ct) (ct_fsp ct) (data_ p) in Ok (r, set_data p d)) b in
      match r with
      | None => Ok (false, ct, b)
      | Some fsp =>
          match ct_meta ct !! table_id with
          | None => Err OutOfBounds
          | Some _ =>
              i2n ← map_erase table_id (ct_id_to_name ct);
              n2i ← map_erase old_name (ct_name_to_id ct);
              let ct := ct_upd fsp (ct_num ct) (map_insert table_id new_name i2n) (map_insert new_name table_id n2i) (ct_meta ct) ct in
              let* (_, b) := flush_page (ct_self ct) b in
              Ok (true, ct, b)
          end
      end
  end.

(** [None] is the null pointer *)
Definition get_table_meta_data (table_id : Z) ct b : res (option TableMetaData * CatalogTable * BPM) :=
  match ct_meta ct !! table_id with
  | Some tm => Ok (Some tm, ct, b)
  | None =>
      match ct_id_to_name ct !! table_id with
      | None => Ok (None, ct, b)
      | Some name =>
          let* (tm, b) := TableMetaData_load name table_id b in
          Ok (Some tm, ct_upd_meta (map_insert table_id tm (ct_meta ct)) ct, b)
      end
  end.
Definition get_table_meta_data_name (table_name : bytes) ct b : res (option TableMetaData * CatalogTable * BPM) :=
  match ct_name_to_id ct !! table_name with
  | None => Ok (None, ct, b)
  | Some id => get_table_meta_data id ct b
  end.

Definition get_table_id (tb_name : bytes) ct : Z := default (-1) (ct_name_to_id ct !! tb_name).
Definition get_table_name_id (table_id : Z) ct : bytes := default [] (ct_id_to_name ct !! table_id).
Definition ct_get_free_space ct : Z :=
  ct_fsp ct - COM_PG_HEADER_SZ - 4 - Z.of_nat (base.size (ct_id_to_name ct)) * TABLE_RECORD_SZ.
(** the order of an unordered map is not specified; one of them *)
Definition get_all_table_name ct : list bytes := (map_to_list (ct_name_to_id ct)).*1.
Definition get_all_table_id ct : list Z := (map_to_list (ct_name_to_id ct)).*2.

(** ** [Catalog] *)

Record Catalog := mkCatalog { cg_self : Z; cg_page : Z; cg_table : CatalogTable }.
Definition CATALOG_TABLE_PGID_OFFSET : Z := COM_PG_HEADER_SZ.

Definition init_catalog (self_page_id page : Z) b : res BPM :=
  let* (p, b) := new_page b in
  id ← page_id_at p b;
  b ← changes_data page (λ d, wr32 d CATALOG_TABLE_PGID_OFFSET id) b;
  b ← unpin_page id true b;
  let* (_, b) := flush_page self_page_id b in
  Ok b.
Definition Catalog_new (self_page_id : Z) (from_scratch : bool) b : res (Catalog * BPM) :=
  let* (page, b) := get_page_or_exit self_page_id b in
  b ← (if from_scratch then init_catalog self_page_id page b else Ok b);
  catalog_table_page_id ← reads page (λ p, rd32 (data_ p) CATALOG_TABLE_PGID_OFFSET) b;
  let* (ct, b) := CatalogTable_new catalog_table_page_id from_scratch b in
  Ok (mkCatalog self_page_id page ct, b).
Definition Catalog_delete (cg : Catalog) b : res BPM := CatalogTable_delete (cg_table cg) b.
(** the table with this name, if there is one *)
Definition get_table (tb_name : bytes) (cg : Catalog) b : res (option Table * Catalog * BPM) :=
  let* (tm, ct, b) := get_table_meta_data_name tb_name (cg_table cg) b in
  Ok (tm_table <$> tm, mkCatalog (cg_self cg) (cg_page cg) ct, b).

End Catalog.

(** ** [DBManager] *)

Definition DEFAULT_POOL_SIZE : Z := 10240.
Record DBManager := mkDB { db_pool : BufferPoolManager ClockReplacer; db_catalog : Catalog }.
(** [None] is a manager whose status is false; [pool_size] is the default, which a
    program can set *)
Definition DBManager_new (garbage mb : bytes) (pool_size : Z) (meta_name : bytes) (from_scratch : bool) (f : FS) : res (option DBManager * FS) :=
  let* (w, f) := create_DiskManager garbage mb meta_name from_scratch f in
  match w with
  | None => Ok (None, f)
  | Some w =>
      let* (cg, b) := Catalog_new (catalog_page_id_ (dm w)) from_scratch (BufferPoolManager_new w pool_size) in
      Ok (Some (mkDB b cg), fs (disk_manager_ b))
  end.
(** the destructor; the disk manager shuts down, its files are what is left *)
Definition DBManager_delete (db : DBManager) : res FS :=
  let* (_, b) := flush_all (db_pool db) in
  b ← Catalog_delete (db_catalog db) b;
  w ← DiskManager.shutdown (disk_manager_ b);
  Ok (fs w).
