(* ===== verification/CatalogSpec.v ===== *)
(** The catalog: a table that is created is found again, with its schema and without
    tuples, and the catalog that is loaded from its page is the one that was stored. *)
From S2P Require Import Prelude Config Replacer ClockReplacer Page FileSys DiskManager BufferPool PoolSpec Values TablePage TablePageSpec Schema PoolClient LinkHash LinkHashSpec Table TableSpec MetaPages Catalog.

Section CatalogSpec.
Context {R : Type} `{RA : ReplacerAbstract R}.
Notation BPM := (BufferPoolManager R).
Implicit Types (b : BPM) (ct : CatalogTable) (K H : list hold).

(** changing the page held first through its frame *)
Lemma change_first b0 q f m H b p g d : session b0 (mkHold q f m :: H) b → frame b f = Ok p → g (data_ p) = Ok d → zlen d = PAGE_SIZE →
  rd8 d STATUS_OFFSET = rd8 (data_ p) STATUS_OFFSET →
  ∃ b', changes_data f g b = Ok b' ∧ session b0 (mkHold q f true :: H) b' ∧ dm (disk_manager_ b') = dm (disk_manager_ b) ∧ view b' q = Some (payload d) ∧
    (∀ q', q' ∈ alloced b → q' ≠ q → view b' q' = view b q') ∧ frame b' f = Ok (set_data p d) ∧
    (∀ h p', h ∈ H → frame b (h_frame h) = Ok p' → frame b' (h_frame h) = Ok p').
Proof.
  intros Hs Hf Hg Hl Hst. destruct (session_put b0 [] q f m H b p d Hs Hf Hl Hst) as (?&?&?&?&?&?).
  eexists. split; [|by split_and!]. unfold changes_data, changes_. rewrite Hf. cbn [mbind res_bind]. by rewrite Hg.
Qed.

(** the page a new table starts with *)
Definition empty_dir b (q : Z) : Prop := q ∈ alloced b ∧ ∃ d, view b q = Some (payload d) ∧ zlen d = PAGE_SIZE ∧ dir_rep (λ _, INVALID_PAGE_ID) d.

(** a page that was not there before; what was there stays, but for the page [x] *)
Record grown (x : Z) b b' (q : Z) : Prop := {
  gr_new : q ∉ alloced b;
  gr_alloced : alloced b' = oset_insert q (alloced b);
  gr_view : ∀ q', q' ∈ alloced b → q' ≠ x → view b' q' = view b q';
  gr_max : max_ava_pgid_ (dm (disk_manager_ b')) ≤ 2 * max_ava_pgid_ (dm (disk_manager_ b));
}.
Lemma grown_in x b b' q y : grown x b b' q → y ∈ alloced b' ↔ y = q ∨ y ∈ alloced b.
Proof. intros G. rewrite (gr_alloced _ _ _ _ G). apply elem_of_oset_insert. Qed.

(** a page that is allocated, perhaps initialised, and unpinned *)
Lemma fresh_page x K b0 b (init : bool) : session b0 K b → has_frame b → 2 * max_ava_pgid_ (dm (disk_manager_ b)) ≤ MAX_INT_PAGES →
  ∃ f b1 b2 q b3, new_page b = Ok (f, b1) ∧ (if init then changes_data f LinkHashPage_init b1 else Ok b1) = Ok b2 ∧ page_id_at f b2 = Ok q ∧
    unpin_page q init b2 = Ok b3 ∧ session b0 K b3 ∧ grown x b b3 q ∧
    (∀ h p, h ∈ K → frame b (h_frame h) = Ok p → frame b3 (h_frame h) = Ok p).
Proof.
  intros Hs Hhas Hmax. unfold new_page.
  destruct (session_alloc b0 K b STATUS_EXIST Hs Hhas Hmax) as (f&b1&p&->&Hs1&Hf&Hni&Hal&Hv&_&Hmx&Hfs).
  assert (zlen (data_ p) = PAGE_SIZE) as Hz by (apply (frame_page_ok b1 f); [apply Hs1|done]).
  assert (∀ q', q' ∈ alloced b → q' ∈ alloced b1) as Hsub by (intros; rewrite Hal; apply elem_of_oset_insert; by right).
  destruct (LinkHashPage_init_ok (data_ p) Hz) as (d&Hd&Hl&_&Hst).
  assert (∃ b2 p2, (if init then changes_data f LinkHashPage_init b1 else Ok b1) = Ok b2 ∧ session b0 (mkHold (page_id_ p) f init :: K) b2 ∧
    dm (disk_manager_ b2) = dm (disk_manager_ b1) ∧ frame b2 f = Ok p2 ∧ page_id_ p2 = page_id_ p ∧ (∀ q', q' ∈ alloced b → view b2 q' = view b1 q') ∧
    (∀ h p, h ∈ K → frame b1 (h_frame h) = Ok p → frame b2 (h_frame h) = Ok p)) as (b2&p2&He2&Hs2&Hdm2&Hf2&Hi2&Hv2&Hfs2).
  { destruct init; [|by exists b1, p].
    destruct (change_first b0 (page_id_ p) f false K b1 p _ d Hs1 Hf Hd Hl Hst) as (b2&?&?&?&_&Ho&?&?).
    exists b2, (set_data p d). split_and!; try done. intros q' Hq'. apply Ho; [by apply Hsub|]. by intros ->. }
  destruct (close b0 (page_id_ p) f init K b2 init Hs2) as (b3&He3&Hs3&S3&Hf3&_); [done|].
  assert (alloced b2 = alloced b1) as Ha2 by (unfold alloced; by rewrite Hdm2).
  exists f, b1, b2, (page_id_ p), b3. split_and!; try done.
  - unfold page_id_at, reads. rewrite Hf2. cbn [mbind res_bind]. by rewrite Hi2.
  - constructor; [done|by rewrite (same_pages_alloced _ _ S3), Ha2| |rewrite (proj1 S3), Hdm2; done].
    intros q' Hq' _. rewrite (proj2 S3), Hv2, Hv; [done|done|done|]. rewrite Ha2. by apply Hsub.
  - eauto.
Qed.

(** a new page whose id is stored in the page [id] of the meta data *)
Lemma add_page K b0 b id f p cols o (init : bool) : session b0 (mkHold id f true :: K) b → has_frame b → bpm_ok b →
  2 * max_ava_pgid_ (dm (disk_manager_ b)) ≤ MAX_INT_PAGES →
  frame b f = Ok p → cols_at (data_ p) cols → COM_PG_HEADER_SZ ≤ o → o + 4 ≤ COLUMN_NUM_OFFSET →
  ∃ g b1 b2 q b3 b4 d, new_page b = Ok (g, b1) ∧ (if init then changes_data g LinkHashPage_init b1 else Ok b1) = Ok b2 ∧ page_id_at g b2 = Ok q ∧
    unpin_page q init b2 = Ok b3 ∧ changes_data f (λ d, wr32 d o q) b3 = Ok b4 ∧
    session b0 (mkHold id f true :: K) b4 ∧ grown id b b4 q ∧ frame b4 f = Ok (set_data p d) ∧ cols_at d cols ∧ rd32 d o = Ok q ∧
    (∀ a l, a + l ≤ o ∨ o + 4 ≤ a → mem_read d a l = mem_read (data_ p) a l) ∧
    (∀ h p, h ∈ K → frame b (h_frame h) = Ok p → frame b4 (h_frame h) = Ok p).
Proof.
  intros Hs Hhas Hok Hmax Hf Hc Ho Ho'.
  destruct (fresh_page id _ b0 b init Hs Hhas Hmax) as (g&b1&b2&q&b3&H1&H2&H3&H4&Hs3&G3&Hfs3).
  assert (frame b3 f = Ok p) as Hf3 by (apply (Hfs3 (mkHold id f true)); [by left|done]).
  assert (q ∈ alloced b3) as Hq by (apply (grown_in _ _ _ _ _ G3); by left).
  assert (in32 q) as Hq32.
  { pose proof (alloced_pos b3 q (ss_ok _ _ _ Hs3) Hq). pose proof (gr_max _ _ _ _ G3). unfold in32, MAX_INT_PAGES in *. cfg_lia. }
  destruct (cols_put_id (data_ p) cols o q Hc Ho Ho' Hq32) as (d&Hd&Hc'&Hr&F).
  destruct (change_first b0 id f true K b3 p (λ d, wr32 d o q) d Hs3 Hf3 Hd) as (b4&H5&Hs4&Hdm4&_&Hv4&Hf4&Hfs4); [apply Hc'|unfold rd8; rewrite F by (left; meta_lia); done|].
  assert (alloced b4 = alloced b3) as Ha4 by (unfold alloced; by rewrite Hdm4).
  exists g, b1, b2, q, b3, b4, d. split_and!; try done.
  - constructor; [apply G3|rewrite Ha4; apply G3| |rewrite Hdm4; apply G3].
    intros q' Hq' Hne. rewrite Hv4; [by apply G3|apply (grown_in _ _ _ _ _ G3); by right|done].
  - intros h ph Hh Hph. apply Hfs4; [done|]. apply Hfs3; [by right|done].
Qed.

(** the meta data of a new table in the page [id], which its creator holds *)
Lemma TableMetaData_new_ok name s id f p1 K b :
  bpm_ok b → keeps K b → id ∉ h_page <$> K → mapping_ b !! id = Some f → frame b f = Ok p1 → 0 < pin_count_ p1 →
  columns_fit (columns_ s) → frames 1 b → 4 * max_ava_pgid_ (dm (disk_manager_ b)) ≤ MAX_INT_PAGES →
  ∃ first index b' p2, TableMetaData_new name s id b = Ok (mkMeta s name (mkTable first) first index id f, b') ∧
    session b (mkHold id f true :: K) b' ∧ frame b' f = Ok p2 ∧ pin_count_ p2 = pin_count_ p1 + 1 ∧ meta_at (data_ p2) first index (columns_ s) ∧
    (first ∉ alloced b) ∧ empty_dir b' first ∧ (∀ q, q ∈ alloced b → q ∈ alloced b' ∧ (q ≠ id → view b' q = view b q)) ∧
    (∀ h p, h ∈ K → frame b (h_frame h) = Ok p → frame b' (h_frame h) = Ok p) ∧ max_ava_pgid_ (dm (disk_manager_ b')) ≤ 4 * max_ava_pgid_ (dm (disk_manager_ b)).
Proof.
  intros Hok Hk Hid Hm Hf Hp Hfit Hfr Hmax. set (K1 := mkHold id f true :: K).
  assert (keeps K1 b) as Hk1.
  { split; [constructor; [done|apply Hk]|]. intros h [->|Hh]%elem_of_cons; [cbn; eauto|by apply Hk]. }
  pose proof (session_keeps K b Hok Hk) as Hs0. destruct (bo_map _ _ Hok _ _ Hm) as [p_ Hres]. pose proof (re_alloced _ _ _ _ Hres) as Hida. clear p_ Hres.
  pose proof (alloced_pos b id Hok Hida) as Hpos.
  assert (∀ b1, session b K1 b1 → has_frame b1) as Hroom by (intros b1 Hs; apply (session_room 1 K1 b [] b1); try done; cbn; lia).
  unfold TableMetaData_new, get_page_or_exit.
  destruct (session_fetch b K b id Hs0 Hida Hid) as (f'&b1&p&->&Hs1&Hdm1&Hf1&_&Hv1&Hfs1&Hhit).
  { apply (session_room 1 K b [] b); try done; cbn; lia. }
  destruct (Hhit f p1 Hm Hf) as [<- ->]. cbn [mbind res_bind of_opt]. set (pp := add_pin_count p1) in *.
  assert (zlen (data_ pp) = PAGE_SIZE) as Hz by (apply (frame_page_ok b1 f); [apply Hs1|done]).
  destruct (cols_written (data_ pp) (columns_ s) Hfit Hz) as (d1&Hd1&Hc1&F1).
  destruct (change_first b id f false K b1 pp (λ d, d ← wr32 d COLUMN_NUM_OFFSET (zlen (columns_ s)); write_columns (columns_ s) FIRST_COLUMN_OFFSET d) d1 Hs1 Hf1 Hd1)
    as (b2&He2&Hs2&Hdm2&_&Hv2&Hf2&Hfs2); [apply Hc1|unfold rd8; rewrite F1 by meta_lia; done|].
  unfold get_column_num. rewrite He2. cbn [mbind res_bind].
  destruct (session_flush b [] id f true true K b2 _ Hs2 Hf2) as (b3&->&Hs3&Hdm3&Hv3&Hf3&_&Hfs3). cbn [mbind res_bind]. cbn [app] in Hs3, Hfs3.
  assert (dm (disk_manager_ b3) = dm (disk_manager_ b)) as Hdm by congruence.
  destruct (add_page K b b3 id f (set_is_dirty (set_data pp d1) false) (columns_ s) FIRST_TABLE_PGID_OFFSET true Hs3 (Hroom _ Hs3) (ss_ok _ _ _ Hs3)) as
    (g&b4&b5&first&b6&b7&d7&->&He5&He6&He7&He8&Hs7&G7&Hf7&Hc7&R7&F7&Hfs7); [rewrite Hdm; lia|exact Hf3|exact Hc1|meta_lia|meta_lia|].
  cbn [mbind res_bind]. rewrite He5. cbn [mbind res_bind]. rewrite He6. cbn [mbind res_bind]. rewrite He7. cbn [mbind res_bind]. rewrite He8. cbn [mbind res_bind].
  pose proof (gr_max _ _ _ _ G7) as Hmx7. rewrite Hdm in Hmx7.
  destruct (add_page K b b7 id f (set_data (set_is_dirty (set_data pp d1) false) d7) (columns_ s) INDEX_HEADER_PGID_OFFSET false Hs7 (Hroom _ Hs7) (ss_ok _ _ _ Hs7)) as
    (g'&b8&b9&index&b10&b11&d11&->&[= <-]&He9&He10&He11&Hs11&G11&Hf11&Hc11&R11&F11&Hfs11); [lia|exact Hf7|exact Hc7|meta_lia|meta_lia|].
  cbn [mbind res_bind]. rewrite He9. cbn [mbind res_bind]. rewrite He10. cbn [mbind res_bind]. rewrite He11. cbn [mbind res_bind].
  assert (∀ q, q ∈ alloced b3 ↔ q ∈ alloced b) as Ha3 by (intros q; unfold alloced; by rewrite Hdm).
  assert (first ∈ alloced b11) as Hfa by (apply (grown_in _ _ _ _ _ G11); right; apply (grown_in _ _ _ _ _ G7); by left).
  assert (first ∉ alloced b) as Hfn by (rewrite <- Ha3; apply G7).
  destruct (Table_new_session b K1 first b11 Hs11 Hfa) as (b12&d&->&Hs12&Hdm12&Hv12&Hl12&Hr12&Hvo&Hfs12); [|by apply Hroom|].
  { intros (h&->&Hh)%list_elem_of_fmap. apply Hfn. destruct (proj2 Hk1 h Hh) as (_&Hmh&_). destruct (bo_map _ _ Hok _ _ Hmh) as [? Hres]. apply Hres. }
  assert (∀ q, q ∈ alloced b12 ↔ q ∈ alloced b11) as Ha12 by (intros q; unfold alloced; by rewrite Hdm12).
  exists first, index, b12, (set_data (set_data (set_is_dirty (set_data pp d1) false) d7) d11).
  split_and!; [done|done|by apply (Hfs12 (mkHold id f true)); [left|]|done| |done| | | |].
  - split_and!; [done| |done]. rewrite (rd32_ext d7); [done|]. apply F11. left. meta_lia.
  - split; [by apply Ha12|]. by exists d.
  - intros q Hq. assert (q ∈ alloced b7) as Hq7 by (apply (grown_in _ _ _ _ _ G7); right; by apply Ha3).
    assert (q ∈ alloced b11) as Hq11 by (apply (grown_in _ _ _ _ _ G11); by right). split; [by apply Ha12|]. intros Hne.
    rewrite Hvo, (gr_view _ _ _ _ G11), (gr_view _ _ _ _ G7), Hv3, Hv2, Hv1; try done; [unfold alloced; by rewrite Hdm1|unfold alloced; by rewrite Hdm2, Hdm1|by apply Ha3|].
    by intros ->.
  - intros h ph Hh Hph. apply Hfs12; [by right|]. eauto 10.
  - pose proof (gr_max _ _ _ _ G11). rewrite Hdm12. lia.
Qed.
(** ** The catalog and its list of tables *)

(** the meta data of a table that is in memory *)
Record meta_ok b (id : Z) (name : bytes) (tm : TableMetaData) : Prop := {
  mo_self : tm_self tm = id;
  mo_name : tm_name tm = name;
  mo_table : tm_table tm = mkTable (tm_first tm);
  mo_map : mapping_ b !! id = Some (tm_page tm);
  mo_page : ∃ p, frame b (tm_page tm) = Ok p ∧ 0 < pin_count_ p ∧ meta_at (data_ p) (tm_first tm) (tm_index tm) (columns_ (tm_schema tm));
}.
Record catalog_ok ct b (l : list entry) : Prop := {
  co_ok : bpm_ok b;
  co_map : mapping_ b !! ct_self ct = Some (ct_page ct);
  co_page : ∃ p, frame b (ct_page ct) = Ok p ∧ 0 < pin_count_ p ∧ cat_rep (data_ p) (ct_fsp ct) l;
  co_num : ct_num ct = zlen l;
  co_names : NoDup l.*1;
  co_ids : NoDup l.*2;
  co_n2i : ct_name_to_id ct = list_to_map l;
  co_i2n : ct_id_to_name ct = list_to_map (prod_swap <$> l);
  co_alloced : ∀ e, e ∈ l → e.2 ∈ alloced b ∧ e.2 ≠ ct_self ct;
  co_meta : ∀ id tm, ct_meta ct !! id = Some tm → ∃ name, (name, id) ∈ l ∧ meta_ok b id name tm;
}.

(** the pages it keeps pinned *)
Definition meta_holds (m : gmap Z TableMetaData) : list hold := (λ x : Z * TableMetaData, mkHold x.1 (tm_page x.2) true) <$> map_to_list m.
Definition catalog_holds ct : list hold := mkHold (ct_self ct) (ct_page ct) true :: meta_holds (ct_meta ct).

Lemma elem_of_meta_holds m h : h ∈ meta_holds m ↔ ∃ id tm, m !! id = Some tm ∧ h = mkHold id (tm_page tm) true.
Proof.
  unfold meta_holds. rewrite list_elem_of_fmap. split.
  - intros ([id tm]&->&Hx%elem_of_map_to_list). eauto.
  - intros (id&tm&Hx%elem_of_map_to_list&->). by exists (id, tm).
Qed.
Lemma meta_holds_pages m : h_page <$> meta_holds m = (map_to_list m).*1.
Proof. unfold meta_holds. rewrite <- list_fmap_compose. by apply list_fmap_ext. Qed.
Lemma swap_fst (l : list entry) : (prod_swap <$> l).*1 = l.*2.
Proof. rewrite <- list_fmap_compose. by apply list_fmap_ext; intros ? [??]. Qed.

Lemma catalog_keeps ct b l : catalog_ok ct b l → keeps (catalog_holds ct) b.
Proof.
  intros C. split.
  - unfold catalog_holds. rewrite fmap_cons, meta_holds_pages. constructor; [|apply NoDup_fst_map_to_list]. cbn [h_page].
    intros ([id tm]&E&Hin%elem_of_map_to_list)%list_elem_of_fmap. cbn in E. subst id.
    destruct (co_meta _ _ _ C _ _ Hin) as (nm&Hl&_). by destruct (co_alloced _ _ _ C _ Hl).
  - intros h [->|(id&tm&Hm&->)%elem_of_meta_holds]%elem_of_cons; cbn [h_page h_frame h_changed].
    + destruct (co_page _ _ _ C) as (p&?&?&_). split_and!; [done|apply C|eauto].
    + destruct (co_meta _ _ _ C id tm Hm) as (nm&_&M). destruct (mo_page _ _ _ _ M) as (p&?&?&_). split_and!; [done|apply M|eauto].
Qed.

(** meta data that is in memory stays as it is while its page does *)
Lemma meta_ok_stay b b' id name tm : meta_ok b id name tm → mapping_ b' !! id = Some (tm_page tm) →
  (∀ p, frame b (tm_page tm) = Ok p → frame b' (tm_page tm) = Ok p) → meta_ok b' id name tm.
Proof. intros [H1 H2 H3 H4 (p&H5&H6&H7)] Hm Hf. constructor; [done..|]. exists p. eauto. Qed.

Lemma catalog_lookup ct b l name id : catalog_ok ct b l → ct_name_to_id ct !! name = Some id ↔ (name, id) ∈ l.
Proof. intros C. rewrite (co_n2i _ _ _ C). symmetry. apply elem_of_list_to_map, C. Qed.
(** ** Creating a table *)

(** the pages that stay pinned, in another pool *)
Definition stay K b b' : Prop :=
  ∀ h, h ∈ K → mapping_ b' !! h_page h = Some (h_frame h) ∧ ∀ p, frame b (h_frame h) = Ok p → frame b' (h_frame h) = Ok p.

Lemma stay_keeps K b b' : keeps K b → stay K b b' → keeps K b'.
Proof. intros [Hn Hk] Hst. split; [done|]. intros h Hh. destruct (Hk h Hh) as (?&_&p&?&?), (Hst h Hh) as [? ?]. eauto 6. Qed.
Lemma stay_trans K b1 b2 b3 : stay K b1 b2 → stay K b2 b3 → stay K b1 b3.
Proof. intros H1 H2 h Hh. destruct (H1 h Hh) as [? ?], (H2 h Hh) as [? ?]. eauto. Qed.
Lemma stay_session b0 H K b b' : session b0 (H ++ K) b' → (∀ h p, h ∈ K → frame b (h_frame h) = Ok p → frame b' (h_frame h) = Ok p) → stay K b b'.
Proof. intros Hs Hf h Hh. split; [|by intros; apply Hf]. apply (ss_held _ _ _ Hs). apply elem_of_app. by right. Qed.

(** unpinning a page that is pinned twice *)
Lemma unpin_again id f p K b : bpm_ok b → keeps K b → id ∉ h_page <$> K → mapping_ b !! id = Some f → frame b f = Ok p → 1 < pin_count_ p →
  ∃ b' p', unpin_page id false b = Ok b' ∧ bpm_ok b' ∧ same_pages b b' ∧ stay K b b' ∧ mapping_ b' !! id = Some f ∧ frame b' f = Ok p' ∧
    0 < pin_count_ p' ∧ payload (data_ p') = payload (data_ p) ∧ ∀ g, avail b g → avail b' g.
Proof.
  intros Hok Hk Hid Hm Hf Hp. destruct (unpin_page_ok id false b f p Hok Hm Hf) as (b'&p'&He&Hok'&_&Hm'&Hf'&Hpc&_&_&Hv&Hst&Hav&Hdm); [lia|intros; lia|].
  exists b', p'. split_and!; try done; [|lia| |by intros g ?; apply Hav; left].
  - intros h Hh. destruct (proj2 Hk h Hh) as (_&Hmh&ph&Hfh&Hph). assert (h_page h ≠ id) as Hne by (intros <-; apply Hid; by apply list_elem_of_fmap_2).
    destruct (Hst _ _ _ Hne Hmh Hfh Hph) as (?&?&_). split; [done|]. intros p0 Hp0. assert (p0 = ph) as -> by congruence. done.
  - destruct (bo_map _ _ Hok _ _ Hm) as [? Hres]. pose proof (Hv id (re_alloced _ _ _ _ Hres)) as E. unfold view in E. rewrite Hm, Hm', Hf, Hf' in E. congruence.
Qed.

Lemma create_meta name s K b k : bpm_ok b → keeps K b → columns_fit (columns_ s) → frames (2 + k) b →
  8 * max_ava_pgid_ (dm (disk_manager_ b)) ≤ MAX_INT_PAGES →
  ∃ f b1 id tm b2 b3, new_page b = Ok (f, b1) ∧ page_id_at f b1 = Ok id ∧ TableMetaData_new name s id b1 = Ok (tm, b2) ∧ unpin_page id false b2 = Ok b3 ∧
    bpm_ok b3 ∧ frames (1 + k) b3 ∧ stay K b b3 ∧ in32 id ∧ (id ∉ alloced b) ∧ id ∈ alloced b3 ∧ meta_ok b3 id name tm ∧ tm_schema tm = s ∧
    (tm_first tm ∉ alloced b) ∧ empty_dir b3 (tm_first tm) ∧ (∀ q, q ∈ alloced b → q ∈ alloced b3 ∧ view b3 q = view b q) ∧
    max_ava_pgid_ (dm (disk_manager_ b3)) ≤ 8 * max_ava_pgid_ (dm (disk_manager_ b)).
Proof.
  intros Hok Hk Hfit Hfr Hmax. pose proof (session_keeps K b Hok Hk) as Hs0. unfold new_page.
  assert (0 ≤ max_ava_pgid_ (dm (disk_manager_ b))) as Hpos by (pose proof (do_ava _ (bo_disk _ _ Hok)); lia).
  destruct (session_alloc b K b STATUS_EXIST Hs0) as (f&b1&p1&H1&Hs1&Hf1&Hni&Hal&Hv1&_&Hmx&Hfs1); [|lia|].
  { apply (session_room (2 + k) K b [] b); try done. cbn. lia. }
  set (id := page_id_ p1) in *. pose proof (stay_session b [mkHold id f false] K b b1 Hs1 Hfs1) as Hst1. pose proof (stay_keeps _ _ _ Hk Hst1) as Hk1.
  pose proof (ss_ok _ _ _ Hs1) as Hok1. destruct (ss_held _ _ _ Hs1 (mkHold id f false)) as [Hm1 (p_&Hf_&_&Hp1&_)]; [by left|]. cbn [h_page h_frame] in *.
  assert (p_ = p1) as -> by congruence. assert (id ∉ h_page <$> K) as HidK by (pose proof (ss_pages _ _ _ Hs1) as Hn; by apply NoDup_cons in Hn as [? _]).
  assert (frames (1 + k) b1) as Hfr1 by (apply (frames_left (1 + k) K b [mkHold id f false] b1); try done).
  assert (∀ q, q ∈ alloced b1 ↔ q = id ∨ q ∈ alloced b) as Ha1 by (intros q; rewrite Hal; apply elem_of_oset_insert).
  assert (in32 id) as Hid32 by (pose proof (alloced_pos b1 id Hok1 (proj2 (Ha1 id) (or_introl eq_refl))); unfold in32, MAX_INT_PAGES in *; cfg_lia).
  destruct (TableMetaData_new_ok name s id f p1 K b1) as (first&index&b2&p2&H2&Hs2&Hf2&Hp2&Hmeta&Hfn&Hdir&Hv2&Hfs2&Hmx2); try done; [by eapply frames_less; [|exact Hfr1]; lia|lia|].
  pose proof (stay_session b1 [mkHold id f true] K b1 b2 Hs2 Hfs2) as Hst2. pose proof (stay_keeps _ _ _ Hk1 Hst2) as Hk2.
  destruct (ss_held _ _ _ Hs2 (mkHold id f true)) as [Hm2 _]; [by left|]. cbn [h_page h_frame] in *.
  destruct (unpin_again id f p2 K b2) as (b3&p3&H3&Hok3&S3&Hst3&Hm3&Hf3&Hp3&Hpl&Hav3); try done; [apply Hs2|lia|].
  exists f, b1, id, (mkMeta s name (mkTable first) first index id f), b2, b3. unfold in32 in Hid32. pose proof (same_pages_alloced _ _ S3) as Ha3. split_and!; try done.
  - unfold page_id_at, reads. by rewrite Hf1.
  - eapply frames_keep; [exact Hav3|]. apply (frames_left (1 + k) (mkHold id f true :: K) b1 [] b2); try done.
    split; [constructor; [done|apply Hk1]|]. intros h [->|Hh]%elem_of_cons; [cbn; eauto|by apply Hk1].
  - by do 2 (eapply stay_trans; [eassumption|]).
  - rewrite Ha3. apply Hv2, Ha1. by left.
  - constructor; try done. exists p3. split_and!; try done. cbn [tm_first tm_index tm_schema].
    apply (meta_at_ext (data_ p2)); [|done|done]. transitivity PAGE_SIZE; [apply (frame_page_ok b3 f); [apply Hok3|done]|]. symmetry. apply Hmeta.
  - cbn [tm_first]. intros Hf. apply Hfn, Ha1. by right.
  - destruct Hdir as (Hd&d&Hvd&?&?). split; [by rewrite Ha3|]. exists d. split_and!; try done. by rewrite (proj2 S3).
  - intros q Hq. destruct (Hv2 q) as [Hq2 E2]; [apply Ha1; by right|]. split; [by rewrite Ha3|]. rewrite (proj2 S3), E2, Hv1; try done. by intros ->.
  - rewrite (proj1 S3). lia.
Qed.
(** writing to the page of the catalog and flushing it; the other pages it keeps stay *)
Lemma store_catalog q f p g d K b : bpm_ok b → keeps (mkHold q f true :: K) b → frame b f = Ok p → g (data_ p) = Ok d → zlen d = PAGE_SIZE →
  (∀ a n, a + n ≤ TABLE_NUM_OFFSET → mem_read d a n = mem_read (data_ p) a n) →
  ∃ b1 b2 p', changes_data f g b = Ok b1 ∧ flush_page q b1 = Ok (true, b2) ∧ bpm_ok b2 ∧ (∀ g, avail b g → avail b2 g) ∧ stay K b b2 ∧
    mapping_ b2 !! q = Some f ∧ frame b2 f = Ok p' ∧ 0 < pin_count_ p' ∧ data_ p' = d ∧ disk_page (disk_manager_ b2) q = Ok d ∧
    alloced b2 = alloced b ∧ (∀ q', q' ∈ alloced b → q' ≠ q → view b2 q' = view b q') ∧ dm (disk_manager_ b2) = dm (disk_manager_ b).
Proof.
  intros Hok Hk Hf Hg Hl F. pose proof (session_keeps _ b Hok Hk) as Hs.
  destruct (change_first b q f true K b p g d Hs Hf Hg Hl) as (b1&H1&Hs1&Hdm1&_&Hv1&Hf1&Hfs1); [unfold rd8; rewrite F by cat_lia; done|].
  destruct (session_flush b [] q f true true K b1 _ Hs1 Hf1) as (b2&H2&Hs2&Hdm2&Hv2&Hf2&Hd2&Hfs2). cbn [app] in Hs2, Hfs2.
  assert (alloced b1 = alloced b) as Ha1 by (unfold alloced; by rewrite Hdm1).
  exists b1, b2, (set_is_dirty (set_data p d) false). split_and!; try done.
  - apply Hs2.
  - intros x Hx. apply (ss_avail _ _ _ Hs2); [|done]. intros (h&->&Hh)%list_elem_of_fmap. by apply (keeps_busy _ b h Hok Hk Hh).
  - eapply (stay_session b [mkHold q f true]); [exact Hs2|]. eauto.
  - apply (ss_held _ _ _ Hs2 (mkHold q f true)). by left.
  - destruct (proj2 Hk (mkHold q f true)) as (_&_&p0&Hp0&?); [by left|]. cbn [h_frame] in Hp0. assert (p0 = p) as -> by congruence. done.
  - unfold alloced. by rewrite Hdm2, Hdm1.
  - intros q' Hq' Hne. rewrite Hv2, Hv1; [done|done|done|by rewrite Ha1].
  - congruence.
Qed.

(** the catalog with one table more *)
Lemma catalog_add ct b l name id tm fsp b' p' : catalog_ok ct b l → name ∉ l.*1 → id ∉ alloced b → ct_self ct ∈ alloced b → bpm_ok b' →
  mapping_ b' !! ct_self ct = Some (ct_page ct) → frame b' (ct_page ct) = Ok p' → 0 < pin_count_ p' → cat_rep (data_ p') fsp (l ++ [(name, id)]) →
  stay (meta_holds (ct_meta ct)) b b' → meta_ok b' id name tm → id ∈ alloced b' → (∀ q, q ∈ alloced b → q ∈ alloced b') →
  catalog_ok (ct_upd fsp (ct_num ct + 1) (map_insert id name (ct_id_to_name ct)) (map_insert name id (ct_name_to_id ct)) (map_insert id tm (ct_meta ct)) ct) b' (l ++ [(name, id)]).
Proof.
  intros C Hnm Hid Hself Hok Hm Hf Hp Hrep Hst Hmo Hida Hsub.
  assert (id ∉ l.*2) as Hidl by (intros (e&->&He)%list_elem_of_fmap; by apply Hid, (co_alloced _ _ _ C e He)).
  assert (∀ A (m : gmap Z A) x, m !! id = None → map_insert id x m = <[id := x]> m) as Hins by (intros A m x E; unfold map_insert; by rewrite E).
  assert (ct_meta ct !! id = None) as Hmn.
  { destruct (ct_meta ct !! id) as [tm'|] eqn:E; [|done]. destruct (co_meta _ _ _ C _ _ E) as (nm&Hl&_). exfalso. apply Hidl. by apply (list_elem_of_fmap_2 snd) in Hl. }
  constructor; cbn [ct_self ct_page ct_fsp ct_num ct_id_to_name ct_name_to_id ct_meta ct_upd]; try done.
  - by exists p'.
  - rewrite (co_num _ _ _ C), zlen_app. done.
  - rewrite fmap_app. apply NoDup_app. split_and!; [apply C| |apply NoDup_singleton]. by intros x Hx ->%list_elem_of_singleton.
  - rewrite fmap_app. apply NoDup_app. split_and!; [apply C| |apply NoDup_singleton]. by intros x Hx ->%list_elem_of_singleton.
  - rewrite list_to_map_snoc by done. rewrite (co_n2i _ _ _ C). unfold map_insert. by rewrite not_elem_of_list_to_map_1.
  - rewrite fmap_app. change (prod_swap <$> [(name, id)]) with [(id, name)]. rewrite list_to_map_snoc by (by rewrite swap_fst). rewrite (co_i2n _ _ _ C).
    apply Hins, not_elem_of_list_to_map_1. by rewrite swap_fst.
  - intros e [He| ->%list_elem_of_singleton]%elem_of_app; [destruct (co_alloced _ _ _ C e He); auto|]. split; [done|]. cbn [snd]. congruence.
  - intros i x. rewrite Hins by done. intros [[<- <-]|[Hne Hx]]%lookup_insert_Some; [exists name; split; [apply elem_of_app; right; by left|done]|].
    destruct (co_meta _ _ _ C _ _ Hx) as (nm&Hl&Mo). exists nm. split; [apply elem_of_app; by left|].
    destruct (Hst (mkHold i (tm_page x) true)) as [? ?]; [apply elem_of_meta_holds; eauto|]. by eapply meta_ok_stay.
Qed.
Lemma create_table_ok ct b l name s k : catalog_ok ct b l → name ∉ l.*1 → name_ok name → record_at (zlen l + 1) + zlen name + 1 ≤ ct_fsp ct →
  columns_fit (columns_ s) → frames (2 + k) b → 8 * max_ava_pgid_ (dm (disk_manager_ b)) ≤ MAX_INT_PAGES →
  ∃ id tm ct' b' d, create_table name s ct b = Ok (true, ct', b') ∧ catalog_ok ct' b' (l ++ [(name, id)]) ∧ (id ∉ alloced b) ∧
    ct_meta ct' !! id = Some tm ∧ tm_schema tm = s ∧ empty_dir b' (tm_first tm) ∧ (tm_first tm ∉ alloced b) ∧ frames (1 + k) b' ∧
    (∀ q, q ∈ alloced b → q ≠ ct_self ct → view b' q = view b q) ∧
    disk_page (disk_manager_ b') (ct_self ct) = Ok d ∧ cat_rep d (ct_fsp ct') (l ++ [(name, id)]) ∧
    max_ava_pgid_ (dm (disk_manager_ b')) ≤ 8 * max_ava_pgid_ (dm (disk_manager_ b)).
Proof.
  intros C Hnm Hno Hroom Hfit Hfr Hmax. pose proof (co_ok _ _ _ C) as Hok. pose proof (catalog_keeps _ _ _ C) as Hk.
  destruct (co_page _ _ _ C) as (p&Hf&Hp&Hrep). destruct (bo_map _ _ Hok _ _ (co_map _ _ _ C)) as [? Hres]. pose proof (re_alloced _ _ _ _ Hres) as Hself.
  unfold create_table. assert (ct_name_to_id ct !! name = None) as -> by (by rewrite (co_n2i _ _ _ C), not_elem_of_list_to_map_1).
  rewrite (reads_ok _ _ _ _ Hf), (room_for_ok _ _ _ _ Hrep), bool_decide_true by lia. cbn [mbind res_bind negb].
  destruct (create_meta name s (catalog_holds ct) b k Hok Hk Hfit Hfr Hmax) as (f&b1&id&tm&b2&b3&->&H1&H2&H3&Hok3&Hfr3&Hst3&Hid32&Hid&Hid3&Hmo&Hsc&Hfi&Hdir&Hv3&Hmx3).
  cbn [mbind res_bind]. rewrite H1. cbn [mbind res_bind]. rewrite H2. cbn [mbind res_bind]. rewrite H3. cbn [mbind res_bind].
  assert (frame b3 (ct_page ct) = Ok p) as Hf3 by (apply (Hst3 (mkHold (ct_self ct) (ct_page ct) true)); [by left|done]).
  destruct (put_table_ok (data_ p) (ct_fsp ct) l name id Hrep) as (d&Hd&Hrep'&F); [done|done|].
  rewrite (co_num _ _ _ C).
  assert (keeps (mkHold (ct_self ct) (ct_page ct) true :: mkHold id (tm_page tm) true :: meta_holds (ct_meta ct)) b3) as Hk3.
  { pose proof (stay_keeps _ _ _ Hk Hst3) as [Hnd Hall]. unfold catalog_holds in Hnd. rewrite fmap_cons in Hnd. apply NoDup_cons in Hnd as [N1 N2]. cbn [h_page] in N1.
    assert (∀ h, h ∈ catalog_holds ct → h_page h ≠ id) as Hne.
    { intros h Hh <-. apply Hid. destruct (proj2 Hk h Hh) as (_&Hmh&_). destruct (bo_map _ _ Hok _ _ Hmh) as [? Hr]. apply Hr. }
    split.
    - rewrite !fmap_cons. cbn [h_page]. rewrite !NoDup_cons, not_elem_of_cons. split_and!; [|done| |done]; [by apply (Hne (mkHold (ct_self ct) (ct_page ct) true)); left|].
      intros (h&->&Hh)%list_elem_of_fmap. by apply (Hne h); [right|].
    - intros h [->|[->|Hh]%elem_of_cons]%elem_of_cons; [apply Hall; by left| |apply Hall; by right].
      destruct (mo_page _ _ _ _ Hmo) as (pm&?&?&_). cbn [h_page h_frame h_changed]. split_and!; [done|apply Hmo|eauto]. }
  destruct (store_catalog _ _ p _ d _ b3 Hok3 Hk3 Hf3 Hd) as (b4&b5&p'&->&H5&Hok5&Hav5&Hst5&Hm5&Hf5&Hp5&Hpd&Hdk&Ha5&Hv5&Hdm5); [apply Hrep'|done|].
  cbn [mbind res_bind]. rewrite H5. cbn [mbind res_bind].
  exists id, tm. do 3 eexists. split; [done|]. cbn [ct_meta ct_fsp ct_upd].
  assert (meta_ok b5 id name tm) as Hmo5.
  { destruct (Hst5 (mkHold id (tm_page tm) true)) as [? ?]; [by left|]. by eapply meta_ok_stay. }
  assert (stay (meta_holds (ct_meta ct)) b b5) as Hst.
  { intros h Hh. destruct (Hst3 h) as [_ E3]; [by right|]. destruct (Hst5 h) as [? E5]; [by right|]. eauto. }
  assert (∀ q, q ∈ alloced b → q ∈ alloced b5) as Hsub by (intros q Hq; rewrite Ha5; by apply Hv3). rewrite <- Hpd in *.
  split_and!; try done.
  - rewrite <- (co_num _ _ _ C). eapply (catalog_add ct b l name id tm _ b5 p'); try done. by rewrite Ha5.
  - unfold map_insert. destruct (ct_meta ct !! id) eqn:E; [|apply lookup_insert_eq]. destruct (co_meta _ _ _ C _ _ E) as (nm&Hl&_). by apply (co_alloced _ _ _ C) in Hl as [? _].
  - destruct Hdir as (Hd0&d0&Hv0&?&?). split; [by rewrite Ha5|]. exists d0. split_and!; try done. rewrite Hv5; [done|done|].
    intros E. by rewrite E in Hfi.
  - by eapply frames_keep.
  - intros q Hq Hne. destruct (Hv3 q Hq) as [Hq3 <-]. by apply Hv5.
  - by rewrite Hdm5.
Qed.
(** ** Loading *)

Lemma catalog_names_added (l : list entry) : NoDup l.*1 → NoDup l.*2 →
  add_names ((λ e : entry, (e.2, e.1)) <$> l) = (list_to_map (prod_swap <$> l), list_to_map l).
Proof.
  unfold add_names. induction l as [|[name id] l IH] using rev_ind; [done|]. intros H1 H2. rewrite fmap_app in H1. rewrite fmap_app in H2. apply NoDup_app in H1 as (H1&N1&_), H2 as (H2&N2&_). rewrite fmap_app, foldl_app, (IH H1 H2).
  assert (name ∉ l.*1) as Hn by (intros Hx; apply (N1 _ Hx); by left). assert (id ∉ l.*2) as Hi by (intros Hx; apply (N2 _ Hx); by left).
  rewrite fmap_app, list_to_map_snoc by done. change (prod_swap <$> [(name, id)]) with [(id, name)]. rewrite list_to_map_snoc by (by rewrite swap_fst).
  cbn [foldl fmap list_fmap fst snd]. unfold map_insert. by rewrite !not_elem_of_list_to_map_1 by (by rewrite ?swap_fst).
Qed.

(** a page that is read and kept *)
Lemma keep_page q K b d : bpm_ok b → keeps K b → q ∉ h_page <$> K → q ∈ alloced b → view b q = Some (payload d) → zlen d = PAGE_SIZE → frames 1 b →
  ∃ f b' p, get_page_or_exit q b = Ok (f, b') ∧ bpm_ok b' ∧ same_pages b b' ∧ stay K b b' ∧ mapping_ b' !! q = Some f ∧ frame b' f = Ok p ∧
    0 < pin_count_ p ∧ zlen (data_ p) = zlen d ∧ payload (data_ p) = payload d ∧ ∀ n, frames (1 + n) b → frames n b'.
Proof.
  intros Hok Hk Hq Hqa Hv Hz Hfr. pose proof (session_keeps K b Hok Hk) as Hs. unfold get_page_or_exit.
  destruct (session_fetch b K b q Hs Hqa Hq) as (f&b'&p&->&Hs'&Hdm&Hf&Hpv&Hvs&Hfs&_); [apply (session_room 1 K b [] b); try done; cbn; lia|].
  cbn [mbind res_bind of_opt]. exists f, b', p. destruct (ss_held _ _ _ Hs' (mkHold q f false)) as [Hm (p_&Hf_&_&Hp&_)]; [by left|]. cbn [h_page h_frame] in *.
  assert (p_ = p) as -> by congruence. split_and!; try done.
  - apply Hs'.
  - by eapply (stay_session b [mkHold q f false]).
  - rewrite Hz. apply (frame_page_ok b' f); [apply Hs'|done].
  - congruence.
  - intros n Hn. by apply (frames_left n K b [mkHold q f false] b').
Qed.

(** the meta data of a table, from its page *)
Lemma TableMetaData_load_ok name id K b d first index s : bpm_ok b → keeps K b → id ∉ h_page <$> K → id ∈ alloced b →
  view b id = Some (payload d) → meta_at d first index (columns_ s) → Forall column_ok (columns_ s) → Schema_new (columns_ s) = Ok s → frames 1 b →
  ∃ f b', TableMetaData_load name id b = Ok (mkMeta s name (mkTable first) first index id f, b') ∧ bpm_ok b' ∧ same_pages b b' ∧ stay K b b' ∧
    meta_ok b' id name (mkMeta s name (mkTable first) first index id f) ∧ ∀ n, frames (1 + n) b → frames n b'.
Proof.
  intros Hok Hk Hid Hida Hv Hm Hc Hsn Hfr. destruct (keep_page id K b d Hok Hk Hid Hida Hv) as (f&b'&p&He&Hok'&S&Hst&Hmp&Hf&Hp&Hl&Hpl&Hfr'); [apply Hm|done|].
  exists f, b'. assert (meta_at (data_ p) first index (columns_ s)) as Hm' by (by apply (meta_at_ext d)). unfold TableMetaData_load. rewrite He. cbn [mbind res_bind].
  pose proof Hm' as ((_&Hn&Hcs)&Hfi&Hix).
  rewrite (reads_ok f (λ p, rd32 (data_ p) FIRST_TABLE_PGID_OFFSET) b' p Hf), Hfi. cbn [mbind res_bind]. rewrite (reads_ok f (λ p, rd32 (data_ p) INDEX_HEADER_PGID_OFFSET) b' p Hf), Hix. cbn [mbind res_bind].
  rewrite (reads_ok f (λ p, rd32 (data_ p) COLUMN_NUM_OFFSET) b' p Hf), Hn. cbn [mbind res_bind]. rewrite (reads_ok f _ b' p Hf). unfold zlen. rewrite Nat2Z.id.
  rewrite columns_read; [|done|vm_compute; discriminate|done]. cbn [mbind res_bind]. rewrite Hsn. cbn [mbind res_bind Table_new negb].
  split_and!; try done. constructor; try done. by exists p.
Qed.

(** the catalog, from its page *)
Lemma CatalogTable_new_ok q b d fsp l : bpm_ok b → q ∈ alloced b → view b q = Some (payload d) → cat_rep d fsp l → NoDup l.*1 → NoDup l.*2 →
  (∀ e, e ∈ l → e.2 ∈ alloced b ∧ e.2 ≠ q) → frames 1 b →
  ∃ ct b', CatalogTable_new q false b = Ok (ct, b') ∧ catalog_ok ct b' l ∧ ct_self ct = q ∧ ct_fsp ct = fsp ∧ ct_meta ct = ∅ ∧ same_pages b b' ∧
    ∀ n, frames (1 + n) b → frames n b'.
Proof.
  intros Hok Hq Hv Hrep H1 H2 Hal Hfr. destruct (keep_page q [] b d Hok (keeps_nil b)) as (f&b'&p&He&Hok'&S&_&Hmp&Hf&Hp&Hl&Hpl&Hfr');
    [by apply not_elem_of_nil|done|done|apply Hrep|done|].
  assert (cat_rep (data_ p) fsp l) as Hrep' by (by apply (cat_rep_ext d)). unfold CatalogTable_new. rewrite He. cbn [mbind res_bind].
  rewrite (reads_ok f (λ p, rd32 (data_ p) TABLE_NUM_OFFSET) b' p Hf), (cr_num _ _ _ Hrep'). cbn [mbind res_bind]. rewrite (reads_ok f (λ p, load_tables _ _ (data_ p)) b' p Hf).
  assert (Z.to_nat (zlen l) = length l) as -> by (unfold zlen; lia). pose proof (load_tables_ok _ _ _ Hrep' (length l) 0 eq_refl) as Hload. change (Z.of_nat 0) with 0 in Hload. rewrite Hload. cbn [mbind res_bind]. rewrite (reads_ok f _ b' p Hf), (load_free_space_ok _ _ _ Hrep'). cbn [mbind res_bind].
  rewrite drop_0, catalog_names_added by done. eexists _, b'. split; [done|]. split_and!; try done.
  constructor; cbn [ct_self ct_page ct_fsp ct_num ct_id_to_name ct_name_to_id ct_meta]; try done.
  - by exists p.
  - intros e. rewrite (same_pages_alloced _ _ S). apply Hal.
Qed.

Lemma get_table_meta_data_ok ct b l name id d first index s : catalog_ok ct b l → (name, id) ∈ l → ct_meta ct !! id = None →
  view b id = Some (payload d) → meta_at d first index (columns_ s) → Forall column_ok (columns_ s) → Schema_new (columns_ s) = Ok s → frames 1 b →
  ∃ tm ct' b', get_table_meta_data_name name ct b = Ok (Some tm, ct', b') ∧ catalog_ok ct' b' l ∧ ct_meta ct' = <[id := tm]> (ct_meta ct) ∧
    tm_schema tm = s ∧ tm_table tm = mkTable first ∧ same_pages b b' ∧ ∀ n, frames (1 + n) b → frames n b'.
Proof.
  intros C Hin Hnone Hv Hm Hc Hsn Hfr. unfold get_table_meta_data_name. rewrite (proj2 (catalog_lookup _ _ _ name id C) Hin).
  unfold get_table_meta_data. rewrite Hnone. assert (ct_id_to_name ct !! id = Some name) as Hname.
  { rewrite (co_i2n _ _ _ C). apply elem_of_list_to_map_1; [rewrite swap_fst; apply C|]. change (id, name) with (prod_swap (name, id)). by apply list_elem_of_fmap_2. }
  rewrite Hname. destruct (co_alloced _ _ _ C _ Hin) as [Hida Hne]. pose proof (catalog_keeps _ _ _ C) as Hk.
  destruct (TableMetaData_load_ok name id (catalog_holds ct) b d first index s) as (f&b'&->&Hok'&S&Hst&Hmo&Hfr'); try done; [apply C| |].
  { intros (h&->&[->|(i&tm&E&->)%elem_of_meta_holds]%elem_of_cons)%list_elem_of_fmap; cbn in *; congruence. }
  cbn [mbind res_bind]. eexists _, _, b'. split; [done|]. assert (∀ tm, map_insert id tm (ct_meta ct) = <[id := tm]> (ct_meta ct)) as E by (intros; unfold map_insert; by rewrite Hnone).
  unfold ct_upd_meta. rewrite E. split_and!; try done. destruct (co_page _ _ _ C) as (p&?&?&?). destruct (Hst (mkHold (ct_self ct) (ct_page ct) true)) as [? Hfs]; [by left|].
  constructor; cbn [ct_self ct_page ct_fsp ct_num ct_id_to_name ct_name_to_id ct_meta ct_upd]; try done; try apply C; [exists p; eauto| |].
  - intros e. rewrite (same_pages_alloced _ _ S). apply C.
  - intros i x [[<- <-]|[_ Hx]]%lookup_insert_Some; [by exists name|]. destruct (co_meta _ _ _ C _ _ Hx) as (nm&Hl&Mo). exists nm. split; [done|].
    destruct (Hst (mkHold i (tm_page x) true)) as [? ?]; [right; apply elem_of_meta_holds; eauto|]. by eapply meta_ok_stay.
Qed.
(** a new catalog on a page *)
Lemma CatalogTable_scratch_ok q b d : bpm_ok b → q ∈ alloced b → view b q = Some (payload d) → zlen d = PAGE_SIZE → frames 1 b →
  ∃ ct b', CatalogTable_new q true b = Ok (ct, b') ∧ catalog_ok ct b' [] ∧ ct_self ct = q ∧ ct_fsp ct = PAGE_SIZE ∧
    dm (disk_manager_ b') = dm (disk_manager_ b) ∧ (∀ q', q' ∈ alloced b → q' ≠ q → view b' q' = view b q') ∧ ∀ n, frames (1 + n) b → frames n b'.
Proof.
  intros Hok Hq Hv Hz Hfr. destruct (keep_page q [] b d Hok (keeps_nil b)) as (f&b1&p&He&Hok1&S&_&Hmp&Hf&Hp&Hl&Hpl&Hfr');
    [by apply not_elem_of_nil|done|done|done|done|]. unfold CatalogTable_new. rewrite He. cbn [mbind res_bind].
  destruct (empty_catalog (data_ p)) as (d'&Hd&Hrep&F); [congruence|].
  assert (keeps [mkHold q f true] b1) as Hk by (split; [apply NoDup_singleton|]; intros h ->%list_elem_of_singleton; cbn; eauto).
  destruct (change_first b1 q f true [] b1 p (λ d, wr32 d TABLE_NUM_OFFSET 0) d' (session_keeps _ b1 Hok1 Hk) Hf Hd) as (b2&->&Hs2&Hdm2&_&Hv2&Hf2&_);
    [apply Hrep|unfold rd8; rewrite F by cat_lia; done|]. cbn [mbind res_bind].
  rewrite (reads_ok f (λ p, rd32 (data_ p) TABLE_NUM_OFFSET) b2 _ Hf2). cbn [data_ set_data]. rewrite (cr_num _ _ _ Hrep). cbn [mbind res_bind].
  rewrite (reads_ok f (λ p, load_tables _ _ (data_ p)) b2 _ Hf2). cbn [data_ set_data]. change (load_tables (Z.to_nat (zlen [])) 0 d') with (Ok (A:=list (Z * bytes)) []). cbn [mbind res_bind].
  rewrite (reads_ok f (λ p, load_free_space _ (data_ p)) b2 _ Hf2). cbn [data_ set_data]. rewrite (load_free_space_ok _ _ _ Hrep). cbn [mbind res_bind].
  eexists _, b2. split; [done|]. pose proof (same_pages_alloced _ _ S) as Ha. split_and!; try done.
  - constructor; cbn [ct_self ct_page ct_fsp ct_num ct_id_to_name ct_name_to_id ct_meta]; try done; try (by constructor); try (by intros ? ?%not_elem_of_nil).
    + apply Hs2.
    + apply (ss_held _ _ _ Hs2 (mkHold q f true)). by left.
    + by exists (set_data p d').
  - rewrite Hdm2. apply S.
  - intros q' Hq' Hne. rewrite Hv2, (proj2 S); [done|done|by rewrite Ha|done].
  - intros n Hn. apply (frames_left n [mkHold q f true] b1 [] b2); [done|done|done|]. by apply Hfr'.
Qed.

(** ** The theorems *)

(** a schema as its columns give it, with the key in the first column *)
Definition schema_stored (s : Schema) : Prop := columns_fit (columns_ s) ∧ Schema_new (columns_ s) = Ok s.

(** C6: Creating a table, with a name without NULs, columns that fit on a page, three frames
    to spare and page ids left. When the name is taken, or the space left on the page of the
    catalog is smaller than the name and its record, nothing changes and the call reports
    failure. When the name is new and there is space for it, its record and the NUL behind
    it, the call reports success and the catalog has one entry more, with an id that was not
    in use; asking for the name gives meta data with the schema and a table without tuples;
    every other page of the database is as it was; and the page of the catalog on disk holds
    the entry. (Left out is the one length in between, the name and its record filling the
    space exactly: the code's test forgets the NUL, and the name is damaged; see
    [full_page_loses_name].) *)
Theorem create_table_correct do_hash key_ok `{KT : !KeyType key_ok} sz ct b l name s :
  0 < sz → catalog_ok ct b l → frames 3 b → 8 * max_ava_pgid_ (dm (disk_manager_ b)) ≤ MAX_INT_PAGES → columns_fit (columns_ s) → name_ok name →
  (name ∈ l.*1 ∨ ct_fsp ct < record_at (zlen l + 1) + zlen name → create_table name s ct b = Ok (false, ct, b)) ∧
  (name ∉ l.*1 → record_at (zlen l + 1) + zlen name < ct_fsp ct →
   ∃ id tm ct' b' d, create_table name s ct b = Ok (true, ct', b') ∧ catalog_ok ct' b' (l ++ [(name, id)]) ∧ (id ∉ alloced b) ∧
     get_table_meta_data_name name ct' b' = Ok (Some tm, ct', b') ∧ tm_schema tm = s ∧ is_table do_hash s key_ok sz b' (tm_table tm) ∅ ∧
     (∀ q, q ∈ alloced b → q ≠ ct_self ct → view b' q = view b q) ∧
     disk_page (disk_manager_ b') (ct_self ct) = Ok d ∧ cat_rep d (ct_fsp ct') (l ++ [(name, id)])).
Proof.
  intros Hsz C Hfr Hmax Hfit Hno. split.
  - intros Hwhy. unfold create_table. destruct (ct_name_to_id ct !! name) as [i|] eqn:E; [done|].
    destruct Hwhy as [((nm&i)&->&Hin)%list_elem_of_fmap|Hroom]; [cbn [fst] in E; by rewrite (proj2 (catalog_lookup _ _ _ _ i C) Hin) in E|].
    destruct (co_page _ _ _ C) as (p&Hf&_&Hrep). rewrite (reads_ok _ _ _ _ Hf), (room_for_ok _ _ _ _ Hrep), bool_decide_false by lia. done.
  - intros Hnm Hroom. destruct (create_table_ok ct b l name s 1 C Hnm Hno ltac:(lia) Hfit Hfr Hmax) as (id&tm&ct'&b'&d&He&C'&Hid&Hmeta&Hsc&Hdir&_&Hfr'&Hv&Hdk&Hrep&_).
    destruct (co_meta _ _ _ C' _ _ Hmeta) as (nm&_&Mo). destruct Hdir as (Hd&dd&Hvd&Hz&Hdr).
    exists id, tm, ct', b', d. split_and!; try done.
    + unfold get_table_meta_data_name. rewrite (proj2 (catalog_lookup _ _ _ name id C')) by (apply elem_of_app; right; by left).
      unfold get_table_meta_data. by rewrite Hmeta.
    + rewrite (mo_table _ _ _ _ Mo). apply (fresh_table do_hash s key_ok sz (tm_first tm) dd); try done. apply C'.
Qed.

(** C16: Opening the catalog again. On any sound pool with two frames to spare whose pages
    read as those of the catalog do (the same one, or one after a restart), the catalog
    loaded from its page knows the same tables and has as much room, and a name that is not
    in it gives a null pointer. For each table whose meta data the old catalog object had in
    memory (one it created or was asked for) and whose schema
    has its key in the first column and columns that fit on a page, the new one hands out that schema and a table that begins at the same page. (The
    index of another key column is not read back.) No page changes. *)
Theorem catalog_reload ct b l b0 : catalog_ok ct b l → bpm_ok b0 → frames 2 b0 →
  (∀ q, q ∈ alloced b → q ∈ alloced b0 ∧ view b0 q = view b q) →
  ∃ ct1 b1, CatalogTable_new (ct_self ct) false b0 = Ok (ct1, b1) ∧ catalog_ok ct1 b1 l ∧ ct_fsp ct1 = ct_fsp ct ∧ same_pages b0 b1 ∧
    (∀ name, name ∉ l.*1 → get_table_meta_data_name name ct1 b1 = Ok (None, ct1, b1)) ∧
    (∀ name id tm, (name, id) ∈ l → ct_meta ct !! id = Some tm → schema_stored (tm_schema tm) →
       ∃ tm2 ct2 b2, get_table_meta_data_name name ct1 b1 = Ok (Some tm2, ct2, b2) ∧ tm_schema tm2 = tm_schema tm ∧ tm_table tm2 = tm_table tm ∧
         catalog_ok ct2 b2 l ∧ same_pages b0 b2).
Proof.
  intros C Hok Hfr Hsame. destruct (co_page _ _ _ C) as (p&Hf&_&Hrep). destruct (bo_map _ _ (co_ok _ _ _ C) _ _ (co_map _ _ _ C)) as [? Hres].
  destruct (Hsame (ct_self ct) (re_alloced _ _ _ _ Hres)) as [Hq Hv].
  destruct (CatalogTable_new_ok (ct_self ct) b0 (data_ p) (ct_fsp ct) l) as (ct1&b1&He&C1&_&Hfsp&Hmt&S1&Hfr1); try done; try apply C.
  { rewrite Hv. unfold view. by rewrite (co_map _ _ _ C), Hf. }
  { intros e He. destruct (co_alloced _ _ _ C e He) as [Ha ?]. by destruct (Hsame _ Ha). }
  { by eapply frames_less; [|exact Hfr]; lia. }
  exists ct1, b1. split_and!; try done.
  - intros name Hn. unfold get_table_meta_data_name. rewrite (co_n2i _ _ _ C1), not_elem_of_list_to_map_1 by done. done.
  - intros name id tm Hin Hm [[Hco _] Hsn]. destruct (co_meta _ _ _ C _ _ Hm) as (nm&_&Mo). destruct (mo_page _ _ _ _ Mo) as (pm&Hfm&_&Hmp).
    destruct (co_alloced _ _ _ C _ Hin) as [Hida _]. destruct (Hsame _ Hida) as [Hid0 Hvid]. cbn [snd] in *.
    destruct (get_table_meta_data_ok ct1 b1 l name id (data_ pm) (tm_first tm) (tm_index tm) (tm_schema tm)) as (tm2&ct2&b2&H2&C2&_&Hsc&Htb&S2&_); try done.
    + by rewrite Hmt.
    + rewrite (proj2 S1), Hvid by done. unfold view. by rewrite (mo_map _ _ _ _ Mo), Hfm.
    + by apply Hfr1.
    + exists tm2, ct2, b2. split_and!; try done; [by rewrite Htb, (mo_table _ _ _ _ Mo)|by eapply same_pages_trans; [exact S1|]].
Qed.
End CatalogSpec.

(** ** Witnesses: a catalog on page 0 of the database "t", a pool of six frames *)

Definition pool_cat : BufferPoolManager ClockReplacer := BufferPoolManager_new disk_t 6.
Definition page_cat : bytes := 1 :: replicate 4095 0.
Definition name_cat : bytes := [117; 115; 101; 114; 115].

Lemma pool_cat_ok : bpm_ok pool_cat ∧ alloced pool_cat = [0] ∧ view pool_cat 0 = Some (payload page_cat) ∧ frames 4 pool_cat.
Proof.
  split_and!; [|apply (proj1 (proj2 disk_t_ok))|vm_compute; reflexivity|].
  - apply BufferPoolManager_new_ok; [lia|apply (rs_ok _ _ (proj1 disk_t_ok))|].
    intros q Hq. rewrite (proj1 (proj2 disk_t_ok)) in Hq. apply list_elem_of_singleton in Hq as ->. exists page_cat. split; vm_compute; reflexivity.
  - exists [0; 1; 2; 3]. split_and!; [|done|].
    + apply (bool_decide_unpack _); vm_compute; exact I.
    + intros g Hg. left. change (free_list_ pool_cat) with (seqZ 0 6). apply elem_of_seqZ. set_solver by lia.
Qed.
Lemma schema_t_stored : schema_stored schema_t.
Proof.
  split; [|reflexivity]. split; [|vm_compute; discriminate].
  repeat constructor; vm_compute; try discriminate; try lia; repeat constructor; lia.
Qed.
Lemma name_cat_ok : name_ok name_cat.
Proof. split; [|vm_compute; discriminate]. repeat constructor; lia. Qed.
Lemma catalog_t : ∃ ct b, CatalogTable_new 0 true pool_cat = Ok (ct, b) ∧ catalog_ok ct b [] ∧ ct_fsp ct = PAGE_SIZE ∧ frames 3 b ∧ 8 * max_ava_pgid_ (dm (disk_manager_ b)) ≤ MAX_INT_PAGES.
Proof.
  destruct pool_cat_ok as (Hok&Ha&Hv&Hfr).
  destruct (CatalogTable_scratch_ok 0 pool_cat page_cat Hok) as (ct&b&?&?&_&?&Hdm&_&Hf); [rewrite Ha; by left|done|done|by eapply frames_less; [|exact Hfr]; lia|].
  exists ct, b. split_and!; [assumption..|apply Hf, Hfr|]. rewrite Hdm. change (disk_manager_ pool_cat) with disk_t. rewrite (proj2 (proj2 disk_t_ok)). vm_compute. discriminate.
Qed.

Lemma create_table_correct_witness : ∃ ct b id tm ct' b', CatalogTable_new 0 true pool_cat = Ok (ct, b) ∧
  create_table name_cat schema_t ct b = Ok (true, ct', b') ∧ catalog_ok ct' b' [(name_cat, id)] ∧ get_table_meta_data_name name_cat ct' b' = Ok (Some tm, ct', b') ∧
  is_table hash_t schema_t int_key 8 b' (tm_table tm) ∅.
Proof.
  destruct catalog_t as (ct&b&H&C&Hfsp&Hfr&Hmax).
  destruct (create_table_correct hash_t int_key 8 ct b [] name_cat schema_t ltac:(lia) C Hfr Hmax (proj1 schema_t_stored) name_cat_ok) as [_ Hc].
  destruct Hc as (id&tm&ct'&b'&d&?&?&_&?&_&?&_).
  - apply not_elem_of_nil.
  - rewrite Hfsp. vm_compute. reflexivity.
  - exists ct, b, id, tm, ct', b'. split_and!; assumption.
Defined.

Lemma catalog_reload_witness : ∃ ct b ct' b' ct1 b1 tm2 ct2 b2, CatalogTable_new 0 true pool_cat = Ok (ct, b) ∧ create_table name_cat schema_t ct b = Ok (true, ct', b') ∧
  CatalogTable_new (ct_self ct') false b' = Ok (ct1, b1) ∧ get_table_meta_data_name name_cat ct1 b1 = Ok (Some tm2, ct2, b2) ∧ tm_schema tm2 = schema_t.
Proof.
  destruct catalog_t as (ct&b&H&C&Hfsp&Hfr&Hmax).
  destruct (create_table_ok ct b [] name_cat schema_t 1 C) as (id&tm&ct'&b'&d&He&C'&_&Hm&Hs&_&_&Hfr'&_);
    [apply not_elem_of_nil|apply name_cat_ok|rewrite Hfsp; vm_compute; discriminate|apply schema_t_stored|exact Hfr|exact Hmax|].
  destruct (catalog_reload ct' b' [(name_cat, id)] b' C' (co_ok _ _ _ C') Hfr') as (ct1&b1&H1&_&_&_&_&Hget); [auto|].
  destruct (Hget name_cat id tm) as (tm2&ct2&b2&H2&Hs2&_); [by left|exact Hm|rewrite Hs; apply schema_t_stored|].
  exists ct, b, ct', b', ct1, b1, tm2, ct2, b2. split_and!; try assumption. by rewrite Hs2.
Defined.
