(* ===== verification/Threads.v ===== *)
(** What the models of the concurrent components share: threads are a list of
    program counters, condition variables act on that list, and measures on
    executions bound their length. *)
From S2P Require Import Prelude.

(** ** Sums and counts over threads *)

Definition b2n (b : bool) : nat := if b then 1%nat else 0%nat.
Definition cnt {A} (f : A → bool) (l : list A) : nat := sum_list_with (λ a, b2n (f a)) l.

Lemma sum_insert {A} (w : A → nat) l i p q :
  l !! i = Some p → (sum_list_with w (<[i := q]> l) + w p = sum_list_with w l + w q)%nat.
Proof.
  revert i. induction l as [|a l IH]; intros [|i] H; [done|done| |].
  - injection H as ->. change (<[0%nat := q]> (p :: l)) with (q :: l). cbn [sum_list_with]. lia.
  - change (<[S i := q]> (a :: l)) with (a :: <[i := q]> l). cbn [sum_list_with]. specialize (IH i H). lia.
Qed.
Lemma cnt_insert {A} (f : A → bool) l i p q :
  l !! i = Some p → (cnt f (<[i := q]> l) + b2n (f p) = cnt f l + b2n (f q))%nat.
Proof. exact (sum_insert (λ a, b2n (f a)) l i p q). Qed.
Lemma cnt_fmap {A} (f : A → bool) g l : (∀ a, f (g a) = f a) → cnt f (g <$> l) = cnt f l.
Proof. intros H. unfold cnt. induction l as [|a l IH]; [done|]. cbn [fmap list_fmap sum_list_with]. by rewrite H, <- IH. Qed.
Lemma sum_fmap_le {A} (w : A → nat) g l : (∀ a, (w (g a) ≤ w a + 1)%nat) → (sum_list_with w (g <$> l) ≤ sum_list_with w l + length l)%nat.
Proof.
  intros H. induction l as [|a l IH]; [done|]. change (g <$> a :: l) with (g a :: (g <$> l)). cbn [sum_list_with length]. specialize (H a). lia.
Qed.
Lemma cnt_pos {A} (f : A → bool) l i p : l !! i = Some p → f p = true → (0 < cnt f l)%nat.
Proof. intros H Hf. pose proof (cnt_insert f l i p p H) as E. rewrite Hf in E. rewrite list_insert_id in E by done.
  revert i H E. unfold cnt. induction l as [|a l IH]; intros [|i] H E; [done|done| |].
  - injection H as ->. cbn [sum_list_with]. rewrite Hf. cbn [b2n]. lia.
  - cbn [sum_list_with] in *. specialize (IH i H eq_refl). lia.
Qed.
Lemma cnt_zero {A} (f : A → bool) l i p : cnt f l = 0%nat → l !! i = Some p → f p = false.
Proof. intros H Hi. destruct (f p) eqn:E; [|done]. pose proof (cnt_pos f l i p Hi E). lia. Qed.
Lemma cnt_ex {A} (f : A → bool) l : (0 < cnt f l)%nat → ∃ i p, l !! i = Some p ∧ f p = true.
Proof.
  unfold cnt. induction l as [|a l IH]; cbn [sum_list_with]; [lia|]. destruct (f a) eqn:E; [by exists 0%nat, a|].
  cbn [b2n]. intros H. destruct IH as (i&p&?&?); [lia|]. by exists (S i), p.
Qed.
Lemma cnt_unique {A} (f : A → bool) l i j p q : (cnt f l ≤ 1)%nat → l !! i = Some p → l !! j = Some q → f p = true → f q = true → i = j.
Proof.
  revert i j. unfold cnt. induction l as [|a l IH]; intros [|i] [|j] H Hi Hj Hp Hq; try done; cbn [sum_list_with] in H.
  - injection Hi as ->. pose proof (cnt_pos f l j q Hj Hq) as Hc. unfold cnt in Hc. rewrite Hp in H. cbn [b2n] in H. lia.
  - injection Hj as ->. pose proof (cnt_pos f l i p Hi Hp) as Hc. unfold cnt in Hc. rewrite Hq in H. cbn [b2n] in H. lia.
  - f_equal. eapply IH; try done. lia.
Qed.
Lemma cnt_le {A} (f : A → bool) l : (cnt f l ≤ length l)%nat.
Proof. unfold cnt. induction l as [|a l IH]; cbn [sum_list_with length]; [lia|]. destruct (f a); cbn [b2n]; lia. Qed.

(** ** Condition variables *)

Section CondVar.
Context {P : Type} (asleep : P → bool) (wake : P → P).

(** [notify_all]; [notify_one], where [k] is the thread that is woken if one waits *)
Definition notify_all (l : list P) : list P := (λ p, if asleep p then wake p else p) <$> l.
Definition notify_one (k : nat) (l : list P) : option (list P) :=
  if existsb asleep l then
    p ← l !! k;
    if asleep p then Some (<[k := wake p]> l) else None
  else Some l.

Lemma notify_one_inv k l l' : notify_one k l = Some l' →
  (l' = l ∧ ∀ i p, l !! i = Some p → asleep p = false) ∨ (∃ p, l !! k = Some p ∧ asleep p = true ∧ l' = <[k := wake p]> l).
Proof.
  unfold notify_one. destruct (existsb asleep l) eqn:E.
  - destruct (l !! k) as [p|] eqn:Ek; cbn [mbind option_bind]; [|done]. destruct (asleep p) eqn:Ep; [|done]. intros [= <-]. right. eauto.
  - intros [= <-]. left. split; [done|]. intros i p Hi. destruct (asleep p) eqn:Ep; [|done].
    assert (existsb asleep l = true) as E'; [|congruence]. apply existsb_exists. exists p. split; [|done].
    apply list_elem_of_In. by eapply list_elem_of_lookup_2.
Qed.
Lemma notify_one_ex l : ∃ k l', notify_one k l = Some l'.
Proof.
  unfold notify_one. destruct (existsb asleep l) eqn:E; [|by exists 0%nat, l].
  apply existsb_exists in E as (p&Hp&Ha). apply list_elem_of_In, list_elem_of_lookup in Hp as (k&Hk).
  exists k. rewrite Hk. cbn [mbind option_bind]. rewrite Ha. by eexists.
Qed.
Lemma notify_all_lookup l i : notify_all l !! i = (λ p, if asleep p then wake p else p) <$> l !! i.
Proof. apply list_lookup_fmap. Qed.
End CondVar.

(** ** Executions *)

(** a measure that every step decreases bounds the length of executions *)
Lemma nsteps_measure {A} (R : A → A → Prop) (I : A → Prop) (m : A → nat) :
  (∀ a b, I a → R a b → I b ∧ (m b < m a)%nat) →
  ∀ k a b, I a → nsteps R k a b → I b ∧ (k + m b ≤ m a)%nat.
Proof.
  intros H k a b Ha Hs. revert Ha. induction Hs as [a|k a b c Hab _ IH]; intros Ha; [split; [done|lia]|].
  destruct (H a b Ha Hab) as [Hb Hm]. destruct (IH Hb) as [Hc Hk]. split; [done|lia].
Qed.
(** an invariant of a step relation holds in what it reaches *)
Lemma rtc_invariant {A} (R : A → A → Prop) (I : A → Prop) : (∀ a b, I a → R a b → I b) → ∀ a b, I a → rtc R a b → I b.
Proof. intros H a b Ha Hs. induction Hs; eauto. Qed.

(** what the threads hold, when one of them moves *)
Definition olist {A} (o : option A) : list A := match o with Some a => [a] | None => [] end.
Lemma omap_insert {A B} (f : A → option B) l i p q :
  l !! i = Some p → omap f (<[i := q]> l) ++ olist (f p) ≡ₚ omap f l ++ olist (f q).
Proof.
  intros Hi. pose proof (lookup_lt_Some _ _ _ Hi) as Hlt. rewrite insert_take_drop by done. rewrite <- (take_drop_middle l i p Hi) at 3.
  rewrite !omap_app. cbn [omap list_omap]. destruct (f p), (f q); cbn [olist]; rewrite ?app_nil_r; solve_Permutation.
Qed.
Lemma omap_fmap_same {A B} (f : A → option B) g (l : list A) : (∀ a, f (g a) = f a) → omap f (g <$> l) = omap f l.
Proof. intros H. induction l as [|a l IH]; [done|]. cbn [fmap list_fmap omap list_omap]. by rewrite H, <- IH. Qed.
