(* ===== verification/RwLatch.v ===== *)
(** The reader-writer latch ([include/util/rwlatch.h]) under every interleaving of
    its threads. What a thread does between taking the internal mutex and waiting or
    returning is one step; waiting threads can also wake up without a reason, as the
    language allows. *)
From S2P Require Import Prelude Threads.

(** ** State *)

(** where a thread is: outside, about to take the mutex in [r_lock] or in one of the
    two loops of [w_lock], waiting in one of them, or holding the latch *)
Inductive pc :=
  | Idle | RCheck | RSleep | WCheck1 | WSleep1 | WCheck2 | WSleep2 | Reading | Writing.
#[global] Instance pc_eq : EqDecision pc.
Proof. solve_decision. Defined.

Definition MAX_READERS : Z := 4294967295.
Record latch := mkLatch { threads : list pc; reader_count_ : Z; writer_entered_ : bool }.
Definition set_pc (i : nat) (p : pc) (l : latch) : latch :=
  mkLatch (<[i := p]> (threads l)) (reader_count_ l) (writer_entered_ l).

(** the two condition variables *)
Definition on_reader (p : pc) : bool := bool_decide (p = RSleep) || bool_decide (p = WSleep1).
Definition on_writer (p : pc) : bool := bool_decide (p = WSleep2).
Definition wake (p : pc) : pc :=
  match p with RSleep => RCheck | WSleep1 => WCheck1 | WSleep2 => WCheck2 | p => p end.

(** ** Operations: what thread [i] does while it has the mutex *)

Definition r_lock (i : nat) (l : latch) : latch :=
  if writer_entered_ l || (reader_count_ l =? MAX_READERS) then set_pc i RSleep l
  else mkLatch (<[i := Reading]> (threads l)) ((reader_count_ l + 1) mod 4294967296) (writer_entered_ l).

(** the second loop of [w_lock] *)
Definition w_drain (i : nat) (l : latch) : latch :=
  if 0 <? reader_count_ l then set_pc i WSleep2 l else set_pc i Writing l.
Definition w_lock (i : nat) (l : latch) : latch :=
  if writer_entered_ l then set_pc i WSleep1 l
  else w_drain i (mkLatch (threads l) (reader_count_ l) true).

Definition w_unlock (i : nat) (l : latch) : latch :=
  mkLatch (notify_all on_reader wake (<[i := Idle]> (threads l))) (reader_count_ l) false.

(** [k] is the thread that [notify_one] wakes *)
Definition r_unlock (i k : nat) (l : latch) : option latch :=
  let l := mkLatch (<[i := Idle]> (threads l)) ((reader_count_ l - 1) mod 4294967296) (writer_entered_ l) in
  if writer_entered_ l then
    if reader_count_ l =? 0
    then ts ← notify_one on_writer wake k (threads l); Some (mkLatch ts (reader_count_ l) (writer_entered_ l))
    else Some l
  else
    if reader_count_ l =? MAX_READERS - 1
    then ts ← notify_one on_reader wake k (threads l); Some (mkLatch ts (reader_count_ l) (writer_entered_ l))
    else Some l.

(** the next step of thread [i]: it tries again after a wait, or releases what it holds *)
Definition run (i k : nat) (l : latch) : option latch :=
  match threads l !! i with
  | Some RCheck => Some (r_lock i l)
  | Some WCheck1 => Some (w_lock i l)
  | Some WCheck2 => Some (w_drain i l)
  | Some Reading => r_unlock i k l
  | Some Writing => Some (w_unlock i l)
  | _ => None
  end.
Definition runs (l l' : latch) : Prop := ∃ i k, run i k l = Some l'.

Inductive step (l : latch) : latch → Prop :=
  | step_r_lock i : threads l !! i = Some Idle → step l (set_pc i RCheck l)
  | step_w_lock i : threads l !! i = Some Idle → step l (set_pc i WCheck1 l)
  | step_run l' : runs l l' → step l l'
  | step_spurious i p : threads l !! i = Some p → step l (set_pc i (wake p) l).

Definition new_latch (n : nat) : latch := mkLatch (replicate n Idle) 0 false.
Definition reachable (n : nat) (l : latch) : Prop := rtc step (new_latch n) l.

(** ** The invariant *)

Definition is_reading (p : pc) : bool := bool_decide (p = Reading).
(** the one thread that has set [writer_entered_] *)
Definition is_entered (p : pc) : bool := bool_decide (p = WCheck2) || bool_decide (p = WSleep2) || bool_decide (p = Writing).

Record core_ok (n : nat) (l : latch) : Prop := {
  ok_len : length (threads l) = n;
  ok_count : reader_count_ l = Z.of_nat (cnt is_reading (threads l));
  ok_entered : cnt is_entered (threads l) = b2n (writer_entered_ l);
  ok_writing : ∀ i, threads l !! i = Some Writing → reader_count_ l = 0;
}.
(** nobody waits without a reason that someone else will remove *)
Record latch_ok (n : nat) (l : latch) : Prop := {
  ok_core : core_ok n l;
  ok_sleep2 : ∀ i, threads l !! i = Some WSleep2 → 0 < reader_count_ l;
  ok_sleep1 : ∀ i p, threads l !! i = Some p → on_reader p = true → writer_entered_ l = true;
}.

(** arithmetic on the counts of concrete program counters *)
Ltac count_lia :=
  repeat match goal with
    | |- context [b2n ?b] =>
        let v := eval vm_compute in (b2n b) in
        match v with O => change (b2n b) with 0%nat | S O => change (b2n b) with 1%nat end
    end; lia.
Lemma lookup_set (ts : list pc) i j q r : <[i := q]> ts !! j = Some r → (i = j ∧ r = q) ∨ (i ≠ j ∧ ts !! j = Some r).
Proof.
  destruct (decide (i = j)) as [->|Hne]; [|rewrite list_lookup_insert_ne by done; by right].
  intros H. left. split; [done|]. destruct (decide (j < length ts)%nat).
  - rewrite list_lookup_insert_eq in H by done. congruence.
  - rewrite list_insert_ge in H by lia. apply lookup_lt_Some in H. lia.
Qed.
(** a step of one thread: the counters follow its program counter *)
Lemma core_upd n l i p q c e :
  core_ok n l → threads l !! i = Some p →
  c = reader_count_ l + Z.of_nat (b2n (is_reading q)) - Z.of_nat (b2n (is_reading p)) →
  (b2n e + b2n (is_entered p) = b2n (writer_entered_ l) + b2n (is_entered q))%nat →
  (q = Writing → c = 0) → (c = reader_count_ l ∨ c < reader_count_ l ∨ writer_entered_ l = false) →
  core_ok n (mkLatch (<[i := q]> (threads l)) c e).
Proof.
  intros [H1 H2 H3 H4] Hi Hc He Hq Hmono. pose proof (cnt_insert is_reading _ _ _ q Hi) as C1.
  pose proof (cnt_insert is_entered _ _ _ q Hi) as C2.
  constructor; cbn [threads reader_count_ writer_entered_]; [by rewrite length_insert|lia|lia|].
  intros j Hj. apply lookup_set in Hj as [[-> <-]|[Hne Hj]]; [auto|]. specialize (H4 j Hj).
  assert (0 ≤ c) by lia. destruct Hmono as [->|[Hlt|Hf]]; [done|lia|]. rewrite Hf in H3.
  by pose proof (cnt_zero _ _ _ _ H3 Hj) as E.
Qed.
Lemma count_bound n l : core_ok n l → 0 ≤ reader_count_ l ≤ Z.of_nat n.
Proof. intros [<- -> _ _]. pose proof (cnt_le is_reading (threads l)). lia. Qed.

(** ** Every step keeps it *)

Section Latch.
Context (n : nat) (Hn : Z.of_nat n < MAX_READERS).

Lemma set_pc_ok l i p q :
  latch_ok n l → threads l !! i = Some p → is_reading p = is_reading q → is_entered p = is_entered q →
  (q = Writing → reader_count_ l = 0) → (q = WSleep2 → 0 < reader_count_ l) → (on_reader q = true → writer_entered_ l = true) →
  latch_ok n (set_pc i q l).
Proof.
  intros [Hc H2 H1] Hi Hr He Hw Hs2 Hs1. constructor; unfold set_pc; cbn [threads reader_count_ writer_entered_].
  - eapply core_upd; [done..|rewrite Hr; lia|rewrite He; lia|done|by left].
  - intros j Hj. apply lookup_set in Hj as [[-> E]|[_ Hj]]; [by apply Hs2|by eapply H2].
  - intros j r Hj Hr'. apply lookup_set in Hj as [[-> ->]|[_ Hj]]; [by apply Hs1|by eapply H1].
Qed.
Lemma r_lock_ok l i : latch_ok n l → threads l !! i = Some RCheck → latch_ok n (r_lock i l).
Proof.
  intros Hok Hi. pose proof (count_bound _ _ (ok_core _ _ Hok)) as Hb. unfold r_lock.
  rewrite (proj2 (Z.eqb_neq _ _)) by (unfold MAX_READERS in *; lia). rewrite orb_false_r. destruct (writer_entered_ l) eqn:E.
  { by eapply set_pc_ok. }
  destruct Hok as [Hc H2 H1]. rewrite Z.mod_small by (unfold MAX_READERS in *; lia).
  constructor; cbn [threads reader_count_ writer_entered_].
  - eapply core_upd; [done..|count_lia|rewrite E; count_lia|done|by right; right].
  - intros j _. lia.
  - intros j r Hj Hr'. apply lookup_set in Hj as [[-> ->]|[_ Hj]]; [done|]. specialize (H1 j r Hj Hr'). congruence.
Qed.
Lemma w_drain_ok l i p :
  latch_ok n l → threads l !! i = Some p → is_reading p = false → is_entered p = true → latch_ok n (w_drain i l).
Proof.
  intros Hok Hi Hr He. pose proof (count_bound _ _ (ok_core _ _ Hok)). unfold w_drain.
  destruct (Z.ltb_spec 0 (reader_count_ l)); (eapply set_pc_ok; [done..|try done| |]); try done; lia.
Qed.
Lemma w_lock_ok l i : latch_ok n l → threads l !! i = Some WCheck1 → latch_ok n (w_lock i l).
Proof.
  intros Hok Hi. unfold w_lock. destruct (writer_entered_ l) eqn:E; [by eapply set_pc_ok|].
  pose proof (count_bound _ _ (ok_core _ _ Hok)) as Hb. destruct Hok as [Hc H2 H1]. unfold w_drain. cbn [reader_count_].
  assert (∀ q, is_reading q = false → is_entered q = true → (q = Writing → reader_count_ l = 0) → (q = WSleep2 → 0 < reader_count_ l) →
    on_reader q = false → latch_ok n (mkLatch (<[i := q]> (threads l)) (reader_count_ l) true)) as H.
  { intros q Hr He Hw Hs Ho. constructor; cbn [threads reader_count_ writer_entered_].
    - eapply core_upd; [done..|rewrite Hr; count_lia|rewrite He, E; count_lia|done|by left].
    - intros j Hj. apply lookup_set in Hj as [[-> Eq]|[_ Hj]]; [by apply Hs|by eapply H2].
    - done. }
  destruct (Z.ltb_spec 0 (reader_count_ l)); apply H; try done; lia.
Qed.
Lemma w_unlock_ok l i : latch_ok n l → threads l !! i = Some Writing → latch_ok n (w_unlock i l).
Proof.
  intros [Hc H2 H1] Hi. assert (writer_entered_ l = true) as E.
  { pose proof (ok_entered _ _ Hc) as He. pose proof (cnt_pos is_entered _ _ _ Hi eq_refl). destruct (writer_entered_ l); [done|cbn in He; lia]. }
  pose proof (core_upd n l i Writing Idle (reader_count_ l) false Hc Hi ltac:(count_lia) ltac:(rewrite E; count_lia) ltac:(done) ltac:(by left)) as [C1 C2 C3 C4].
  cbn [threads reader_count_ writer_entered_] in *. unfold w_unlock. set (ts := <[i := Idle]> (threads l)) in *.
  constructor; [constructor|..]; cbn [threads reader_count_ writer_entered_].
  - unfold notify_all. by rewrite length_fmap.
  - unfold notify_all. rewrite cnt_fmap; [done|by intros []].
  - unfold notify_all. rewrite cnt_fmap; [done|by intros []].
  - intros j Hj. rewrite notify_all_lookup in Hj. apply fmap_Some in Hj as (q&Hq&E2). apply (C4 j). by destruct q.
  - intros j Hj. rewrite notify_all_lookup in Hj. apply fmap_Some in Hj as (q&Hq&E2). destruct q; try done.
    apply lookup_set in Hq as [[-> ?]|[_ Hq]]; [done|]. by eapply H2.
  - intros j r Hj Hr. rewrite notify_all_lookup in Hj. apply fmap_Some in Hj as (q&Hq&E2). by destruct q; subst r.
Qed.
Lemma r_unlock_ok l i k l' : latch_ok n l → threads l !! i = Some Reading → r_unlock i k l = Some l' → latch_ok n l'.
Proof.
  intros [Hc H2 H1] Hi. pose proof (count_bound _ _ Hc) as Hb. pose proof (cnt_pos is_reading _ _ _ Hi eq_refl) as Hp.
  pose proof (ok_count _ _ Hc) as Hcnt. unfold r_unlock. rewrite Z.mod_small by (unfold MAX_READERS in *; lia).
  pose proof (core_upd n l i Reading Idle (reader_count_ l - 1) (writer_entered_ l) Hc Hi ltac:(count_lia) ltac:(count_lia) ltac:(done) ltac:(right; left; lia)) as Hc'.
  cbn [threads reader_count_ writer_entered_]. set (ts := <[i := Idle]> (threads l)) in *.
  assert (∀ j r, ts !! j = Some r → on_reader r = true → writer_entered_ l = true) as H1'.
  { intros j r Hj Hr. apply lookup_set in Hj as [[-> ->]|[_ Hj]]; [done|]. by eapply H1. }
  assert (∀ j, ts !! j = Some WSleep2 → writer_entered_ l = true) as Hw.
  { intros j Hj. pose proof (cnt_pos is_entered _ _ _ Hj eq_refl). pose proof (ok_entered _ _ Hc') as E. cbn [threads writer_entered_] in E.
    destruct (writer_entered_ l); [done|]. cbn in E. lia. }
  rewrite (proj2 (Z.eqb_neq _ (MAX_READERS - 1))) by (unfold MAX_READERS in *; lia).
  destruct (writer_entered_ l) eqn:E; [destruct (Z.eqb_spec (reader_count_ l - 1) 0) as [Hz|Hz]|].
  - destruct (notify_one on_writer wake k ts) as [ts'|] eqn:En; cbn [mbind option_bind]; [|done]. intros [= <-].
    apply notify_one_inv in En as [[-> Hno]|(p&Hk&Ha&->)].
    + constructor; [done|..]; cbn [threads reader_count_ writer_entered_]; [|done].
      intros j Hj. by pose proof (Hno j _ Hj).
    + assert (p = WSleep2) as -> by by destruct p.
      constructor; cbn [threads reader_count_ writer_entered_ wake]; [|intros j Hj|done].
      * eapply (core_upd n _ k WSleep2 WCheck2 _ true Hc' Hk); cbn [reader_count_ writer_entered_]; [count_lia|count_lia|done|by left].
      * apply lookup_set in Hj as [[_ ?]|[Hne Hj]]; [done|]. destruct Hne.
        eapply (cnt_unique is_entered ts); [|exact Hk|exact Hj|done|done].
        pose proof (ok_entered _ _ Hc') as E'. cbn [threads writer_entered_] in E'. rewrite E'. done.
  - intros [= <-]. constructor; [done|..]; cbn [threads reader_count_ writer_entered_]; [lia|done].
  - intros [= <-]. constructor; [done|..]; cbn [threads reader_count_ writer_entered_]; [|done].
    intros j Hj. by pose proof (Hw j Hj).
Qed.

Lemma latch_run_ok l i k l' : latch_ok n l → run i k l = Some l' → latch_ok n l'.
Proof.
  intros Hok. unfold run. destruct (threads l !! i) as [p|] eqn:Hi; [|done].
  destruct p; try done; try (intros [= <-]).
  - by apply r_lock_ok.
  - by apply w_lock_ok.
  - by eapply w_drain_ok.
  - by apply r_unlock_ok.
  - by apply w_unlock_ok.
Qed.
Lemma step_ok l l' : latch_ok n l → step l l' → latch_ok n l'.
Proof.
  intros Hok [i Hi|i Hi|l'' (i&k&Hr)|i p Hi]; [by eapply set_pc_ok|by eapply set_pc_ok|by eapply latch_run_ok|].
  eapply set_pc_ok; [done|done|by destruct p|by destruct p| | |].
  - intros E. eapply (ok_writing _ _ (ok_core _ _ Hok) i). by destruct p.
  - intros E. by destruct p.
  - intros E. eapply (ok_sleep1 _ _ Hok); [done|]. by destruct p.
Qed.
Lemma new_latch_ok : latch_ok n (new_latch n).
Proof.
  assert (∀ f, f Idle = false → cnt f (replicate n Idle) = 0%nat) as Hz.
  { intros f Hf. clear Hn. induction n as [|m IH]; [done|]. unfold cnt in *. cbn [replicate sum_list_with]. by rewrite Hf, IH. }
  constructor; [constructor|..]; cbn [new_latch threads reader_count_ writer_entered_].
  - apply length_replicate.
  - by rewrite Hz.
  - by rewrite Hz.
  - done.
  - intros i Hi. by apply lookup_replicate in Hi as [? _].
  - intros i p Hi. by apply lookup_replicate in Hi as [-> _].
Qed.
Lemma reachable_ok l : reachable n l → latch_ok n l.
Proof. apply (rtc_invariant step (latch_ok n) step_ok), new_latch_ok. Qed.
End Latch.

(** ** Progress *)

(** how far a thread is from being done, and how many more tests it can make
    before someone else has to move *)
Definition stage (p : pc) : nat :=
  match p with
  | Idle => 0 | Reading | Writing => 1 | WCheck2 | WSleep2 => 2 | RCheck | RSleep | WCheck1 | WSleep1 => 3
  end.
Definition awake (p : pc) : nat := match p with RCheck | WCheck1 | WCheck2 => 1 | _ => 0 end.
Definition effort (n : nat) (l : latch) : nat :=
  (S n * sum_list_with stage (threads l) + sum_list_with awake (threads l))%nat.

Lemma effort_less n l l' :
  (sum_list_with stage (threads l') < sum_list_with stage (threads l))%nat ∧
    (sum_list_with awake (threads l') ≤ sum_list_with awake (threads l) + n)%nat ∨
  sum_list_with stage (threads l') = sum_list_with stage (threads l) ∧
    (sum_list_with awake (threads l') < sum_list_with awake (threads l))%nat →
  (effort n l' < effort n l)%nat.
Proof. unfold effort. intros [[H1 H2]|[-> H]]; [nia|lia]. Qed.
(** one thread moves on *)
Lemma effort_set n l i p q c e : (0 < n)%nat → threads l !! i = Some p →
  (stage q < stage p)%nat ∨ stage q = stage p ∧ (awake q < awake p)%nat →
  (effort n (mkLatch (<[i := q]> (threads l)) c e) < effort n l)%nat.
Proof.
  intros Hn Hi H. pose proof (sum_insert stage _ _ _ q Hi). pose proof (sum_insert awake _ _ _ q Hi).
  assert (awake q ≤ 1)%nat by (destruct q; cbn; lia). apply effort_less. cbn [threads]. lia.
Qed.
Lemma notify_one_effort cv k ts ts' :
  (∀ p, cv p = true → on_reader p || on_writer p = true) → notify_one cv wake k ts = Some ts' →
  sum_list_with stage ts' = sum_list_with stage ts ∧ (sum_list_with awake ts' ≤ sum_list_with awake ts + 1)%nat.
Proof.
  intros Hcv H. apply notify_one_inv in H as [[-> _]|(p&Hk&Hp&->)]; [lia|].
  pose proof (sum_insert stage _ _ _ (wake p) Hk). pose proof (sum_insert awake _ _ _ (wake p) Hk).
  assert (stage (wake p) = stage p) by (by destruct p). assert (awake (wake p) ≤ 1)%nat by (destruct p; cbn; lia). lia.
Qed.
Lemma r_unlock_effort n l i k l' : (0 < n)%nat → threads l !! i = Some Reading → r_unlock i k l = Some l' → (effort n l' < effort n l)%nat.
Proof.
  intros Hn Hi. unfold r_unlock. cbn [threads reader_count_ writer_entered_].
  pose proof (sum_insert stage _ _ _ Idle Hi) as Hs. pose proof (sum_insert awake _ _ _ Idle Hi) as Ha. cbn [stage awake] in Hs, Ha.
  set (ts := <[i := Idle]> (threads l)) in *. set (c := _ mod _).
  assert (∀ cv ts', (∀ p, cv p = true → on_reader p || on_writer p = true) → notify_one cv wake k ts = Some ts' →
    (effort n (mkLatch ts' c (writer_entered_ l)) < effort n l)%nat) as H.
  { intros cv ts' Hcv Hone. apply (notify_one_effort cv) in Hone as [H1 H2]; [|done]. apply effort_less. cbn [threads]. lia. }
  assert (effort n (mkLatch ts c (writer_entered_ l)) < effort n l)%nat as H0 by (apply effort_less; cbn [threads]; lia).
  destruct (writer_entered_ l); case_match; try (intros [= <-]; done);
    (destruct (notify_one _ wake k ts) as [ts'|] eqn:E; cbn [mbind option_bind]; [|done]); intros [= <-]; (eapply H; [|exact E]);
    intros p ->; by rewrite ?orb_true_r.
Qed.
Lemma w_unlock_effort n l i : length (threads l) = n → threads l !! i = Some Writing → (effort n (w_unlock i l) < effort n l)%nat.
Proof.
  intros Hl Hi. pose proof (sum_insert stage _ _ _ Idle Hi) as Hs. pose proof (sum_insert awake _ _ _ Idle Hi) as Ha. cbn [stage awake] in Hs, Ha.
  apply effort_less. left. unfold w_unlock, notify_all. cbn [threads]. set (ts := <[i := Idle]> (threads l)) in *.
  assert (sum_list_with stage ((λ p, if on_reader p then wake p else p) <$> ts) = sum_list_with stage ts) as ->.
  { clear. induction ts as [|p ts IH]; [done|]. change (?f <$> p :: ?l) with (f p :: (f <$> l)). cbn [sum_list_with]. rewrite IH. f_equal. by destruct p. }
  pose proof (sum_fmap_le awake (λ p, if on_reader p then wake p else p) ts ltac:(intros []; vm_compute; lia)) as Hf.
  assert (length ts = n) as Hts by (subst ts; by rewrite length_insert). lia.
Qed.

Section Live.
Context (n : nat) (Hn : Z.of_nat n < MAX_READERS).

Lemma run_effort l i k l' : latch_ok n l → run i k l = Some l' → (effort n l' < effort n l)%nat.
Proof.
  intros Hok. pose proof (ok_len _ _ (ok_core _ _ Hok)) as Hl. unfold run. destruct (threads l !! i) as [p|] eqn:Hi; [|done].
  assert (0 < n)%nat as Hpos by (apply lookup_lt_Some in Hi; lia).
  destruct p; try done; try (intros [= <-]).
  - unfold r_lock, set_pc. case_match; (eapply effort_set; [done|exact Hi|cbn; lia]).
  - unfold w_lock, w_drain, set_pc. cbn [threads reader_count_ writer_entered_].
    repeat case_match; (eapply effort_set; [done|exact Hi|cbn; lia]).
  - unfold w_drain, set_pc. case_match; (eapply effort_set; [done|exact Hi|cbn; lia]).
  - by apply r_unlock_effort.
  - by apply w_unlock_effort.
Qed.
(** a thread that is not waiting can make its step *)
Lemma run_enabled l i p : threads l !! i = Some p → p ≠ Idle → on_reader p = false → on_writer p = false → ∃ l', runs l l'.
Proof.
  intros Hi Hp H1 H2. unfold runs, run. destruct p; try done; try (eexists _, i, 0%nat; by rewrite Hi).
  assert (∃ k l', r_unlock i k l = Some l') as (k&l'&Hr).
  { unfold r_unlock. cbn [threads reader_count_ writer_entered_]. set (ts := <[i := Idle]> _).
    destruct (notify_one_ex on_writer wake ts) as (k1&ts1&E1). destruct (notify_one_ex on_reader wake ts) as (k2&ts2&E2).
    destruct (writer_entered_ l).
    - exists k1. case_match; [rewrite E1|]; by eexists.
    - exists k2. case_match; [rewrite E2|]; by eexists. }
  eexists l', i, k. by rewrite Hi.
Qed.
(** when no thread can move, nobody is waiting *)
Lemma stuck_idle l : latch_ok n l → (∀ l', ¬ runs l l') → ∀ i p, threads l !! i = Some p → p = Idle.
Proof.
  intros [Hc H2 H1] Hstuck.
  assert (∀ i p, threads l !! i = Some p → p = Idle ∨ on_reader p = true ∨ on_writer p = true) as Hall.
  { intros i p Hi. destruct (decide (p = Idle)); [by left|right]. destruct (on_reader p) eqn:E1; [by left|]. right.
    destruct (on_writer p) eqn:E2; [done|]. destruct (run_enabled l i p) as [l' Hr]; [done..|]. by destruct (Hstuck l'). }
  assert (cnt is_reading (threads l) = 0%nat) as Hz.
  { destruct (decide (0 < cnt is_reading (threads l))%nat) as [Hlt|]; [|lia]. apply cnt_ex in Hlt as (i&p&Hi&Hp).
    specialize (Hall i p Hi). destruct p; naive_solver. }
  assert (∀ i, threads l !! i ≠ Some WSleep2) as Hno.
  { intros i Hi. pose proof (H2 i Hi). rewrite (ok_count _ _ Hc), Hz in *. lia. }
  assert (cnt is_entered (threads l) = 0%nat) as He.
  { destruct (decide (0 < cnt is_entered (threads l))%nat) as [Hlt|]; [|lia]. apply cnt_ex in Hlt as (i&p&Hi&Hp).
    specialize (Hall i p Hi). specialize (Hno i). destruct p; naive_solver. }
  rewrite (ok_entered _ _ Hc) in He. intros i p Hi. destruct (Hall i p Hi) as [?|[Hr|Hw]]; [done|..].
  - pose proof (H1 i p Hi Hr) as E. by rewrite E in He.
  - destruct p; try done. by destruct (Hno i).
Qed.
End Live.

(** C29: mutual exclusion of the reader-writer latch: with fewer than [MAX_READERS]
    threads, whatever the interleaving and however threads wake up, a thread that holds
    the latch for writing is the only one that holds it, and [reader_count_] is the
    number of threads that hold it for reading (so it neither wraps around nor meets the
    limit). *)
Theorem rwlatch_exclusion n l :
  Z.of_nat n < MAX_READERS → reachable n l →
  (∀ i j p, threads l !! i = Some Writing → threads l !! j = Some p → p = Reading ∨ p = Writing → i = j) ∧
  reader_count_ l = Z.of_nat (cnt is_reading (threads l)) ∧ 0 ≤ reader_count_ l < MAX_READERS.
Proof.
  intros Hn Hr. destruct (reachable_ok n Hn l Hr) as [Hc _ _]. pose proof (count_bound _ _ Hc). split_and!; [|apply Hc|lia|lia].
  intros i j p Hi Hj [->| ->].
  - pose proof (ok_writing _ _ Hc i Hi). pose proof (ok_count _ _ Hc). pose proof (cnt_pos is_reading _ _ _ Hj eq_refl). lia.
  - eapply (cnt_unique is_entered (threads l)); [|exact Hi|exact Hj|done|done].
    rewrite (ok_entered _ _ Hc). destruct (writer_entered_ l); cbn [b2n]; lia.
Qed.
Lemma rwlatch_exclusion_witness :
  Z.of_nat 2 < MAX_READERS ∧ reachable 2 (mkLatch [Writing; RSleep] 0 true) ∧
  ∀ j p, [Writing; RSleep] !! j = Some p → p = Reading ∨ p = Writing → 0%nat = j.
Proof.
  assert (reachable 2 (mkLatch [Writing; RSleep] 0 true)) as Hr.
  { eapply rtc_l; [apply (step_w_lock _ 0); reflexivity|]. eapply rtc_l; [apply step_run; exists 0%nat, 0%nat; reflexivity|].
    eapply rtc_l; [apply (step_r_lock _ 1); reflexivity|]. eapply rtc_l; [apply step_run; exists 1%nat, 0%nat; reflexivity|].
    apply rtc_refl. }
  split; [reflexivity|]. split; [exact Hr|]. intros j p Hj Hp.
  destruct (rwlatch_exclusion 2 _ ltac:(reflexivity) Hr) as [H _]. by apply (H 0%nat j p).
Defined.

(** C30: the latch neither deadlocks nor livelocks nor loses a wake-up: from every
    reachable state, if no further call is made and threads release what they hold,
    then whatever the schedule there are at most [effort] more steps, even without
    spurious wake-ups, and when no thread can move any more all threads are outside:
    every [r_lock] and [w_lock] that was called has returned. *)
Theorem rwlatch_live n l :
  Z.of_nat n < MAX_READERS → reachable n l →
  (∀ k l', nsteps runs k l l' → (k ≤ effort n l)%nat) ∧
  (∀ l', rtc runs l l' → (∀ l'', ¬ runs l' l'') → ∀ i p, threads l' !! i = Some p → p = Idle).
Proof.
  intros Hn Hr. pose proof (reachable_ok n Hn l Hr) as Hok.
  assert (∀ a b, latch_ok n a → runs a b → latch_ok n b ∧ (effort n b < effort n a)%nat) as Hdec.
  { intros a b Ha (i&k&Hrun). split; [by eapply latch_run_ok|by eapply run_effort]. }
  split.
  - intros k l' Hs. destruct (nsteps_measure runs (latch_ok n) (effort n) Hdec k l l' Hok Hs). lia.
  - intros l' Hs Hstuck. eapply stuck_idle; [|done]. eapply (rtc_invariant runs); [|exact Hok|exact Hs]. intros a b Ha Hab. by apply (Hdec a b).
Qed.
Lemma rwlatch_live_witness :
  let l := mkLatch [Reading; WSleep2] 1 true in
  Z.of_nat 2 < MAX_READERS ∧ reachable 2 l ∧ ∀ k l', nsteps runs k l l' → (k ≤ 9)%nat.
Proof.
  cbv zeta. assert (reachable 2 (mkLatch [Reading; WSleep2] 1 true)) as Hr.
  { eapply rtc_l; [apply (step_r_lock _ 0); reflexivity|]. eapply rtc_l; [apply step_run; exists 0%nat, 0%nat; reflexivity|].
    eapply rtc_l; [apply (step_w_lock _ 1); reflexivity|]. eapply rtc_l; [apply step_run; exists 1%nat, 0%nat; reflexivity|].
    apply rtc_refl. }
  split; [reflexivity|]. split; [exact Hr|]. exact (proj1 (rwlatch_live 2 _ ltac:(reflexivity) Hr)).
Defined.
