(* ===== verification/WorkPool.v ===== *)
(** The worker pool ([util/work_pool.cpp], [include/util/work_pool.h]) under every
    interleaving of the workers, the clients and the owner. What a thread does while
    it has the mutex is one step; the notifications that are sent after the mutex is
    released are steps of their own. *)
From S2P Require Import Prelude Threads.

Section Pool.
Context {Task : Type} (thread_num_ : nat).

(** ** State *)

(** a worker: waiting on [task_cv_], about to take the mutex, with a task it runs,
    done with it, about to notify [finish_cv_], or returned *)
Inductive wpc := Wait | Check_ | Got (t : Task) | Ran | Notify | Exited.
(** a client in [wait_until_all_finished] *)
Inductive cpc := CCheck | CWait | CDone.
(** the thread that starts and stops the pool: [start_up] has [k] threads to add,
    [shutdown] has cleared [is_running_], or has notified and joins the workers *)
Inductive owner := Fresh | Starting (k : nat) | Up | Stopping | Joining | Down.

Record pool := mkPool {
  workers : list wpc;                 (* [threads_] *)
  waiters : list cpc;
  phase : owner;
  notifies : nat;                     (* calls of [add_task] that have yet to notify *)
  busy_num_ : Z;
  tasks_ : list Task;
  is_running_ : bool;
  added : list Task;                  (* the tasks handed in, *)
  taken : list Task;                  (* those taken from the queue *)
  done_ : list Task;                  (* and those whose [run] has returned, so far *)
}.
Implicit Types (s : pool).
Definition upd_workers ws s : pool :=
  mkPool ws (waiters s) (phase s) (notifies s) (busy_num_ s) (tasks_ s) (is_running_ s) (added s) (taken s) (done_ s).
Definition upd_waiters cs s : pool :=
  mkPool (workers s) cs (phase s) (notifies s) (busy_num_ s) (tasks_ s) (is_running_ s) (added s) (taken s) (done_ s).
Definition upd_phase o s : pool :=
  mkPool (workers s) (waiters s) o (notifies s) (busy_num_ s) (tasks_ s) (is_running_ s) (added s) (taken s) (done_ s).
Definition upd_notifies n s : pool :=
  mkPool (workers s) (waiters s) (phase s) n (busy_num_ s) (tasks_ s) (is_running_ s) (added s) (taken s) (done_ s).
Definition upd_busy b s : pool :=
  mkPool (workers s) (waiters s) (phase s) (notifies s) b (tasks_ s) (is_running_ s) (added s) (taken s) (done_ s).
Definition upd_running r s : pool :=
  mkPool (workers s) (waiters s) (phase s) (notifies s) (busy_num_ s) (tasks_ s) r (added s) (taken s) (done_ s).
Definition upd_queue q a t s : pool :=
  mkPool (workers s) (waiters s) (phase s) (notifies s) (busy_num_ s) q (is_running_ s) a t (done_ s).
Definition upd_done d s : pool :=
  mkPool (workers s) (waiters s) (phase s) (notifies s) (busy_num_ s) (tasks_ s) (is_running_ s) (added s) (taken s) d.

Definition WorkPool_new : pool := mkPool [] [] Fresh 0 0 [] false [] [] [].

(** the condition variables *)
Definition on_task (p : wpc) : bool := match p with Wait => true | _ => false end.
Definition wake_worker (p : wpc) : wpc := match p with Wait => Check_ | p => p end.
Definition on_finish (c : cpc) : bool := match c with CWait => true | _ => false end.
Definition wake_client (c : cpc) : cpc := match c with CWait => CCheck | c => c end.

(** ** Clients *)

(** [add_task]: the push, then the notification of worker [k] *)
Definition add_task (t : Task) s : pool := upd_notifies (S (notifies s)) (upd_queue (tasks_ s ++ [t]) (added s ++ [t]) (taken s) s).
Definition add_task_notify (k : nat) s : option pool :=
  match notifies s with
  | O => None
  | S n => ws ← notify_one on_task wake_worker k (workers s); Some (upd_notifies n (upd_workers ws s))
  end.

(** [wait_until_all_finished]: the call, and the test each time client [j] has the mutex *)
Definition wait_until_all_finished s : pool := upd_waiters (waiters s ++ [CCheck]) s.
Definition wait_test (j : nat) s : option pool :=
  match waiters s !! j with
  | Some CCheck =>
      let finished := (busy_num_ s =? 0) && match tasks_ s with [] => true | _ => false end in
      Some (upd_waiters (<[j := if finished then CDone else CWait]> (waiters s)) s)
  | _ => None
  end.

(** ** Workers: the loop body of [add_thread] *)

Definition set_worker (i : nat) (p : wpc) s : pool := upd_workers (<[i := p]> (workers s)) s.
Definition worker (i k : nat) s : option pool :=
  match workers s !! i with
  | Some Check_ =>
      match is_running_ s, tasks_ s with
      | false, _ => Some (set_worker i Exited s)
      | true, [] => Some (set_worker i Wait s)
      | true, t :: q =>
          Some (upd_busy ((busy_num_ s + 1) mod 4294967296) (upd_queue q (added s) (taken s ++ [t]) (set_worker i (Got t) s)))
      end
  | Some (Got t) => Some (upd_done (done_ s ++ [t]) (set_worker i Ran s))
  | Some Ran => Some (upd_busy ((busy_num_ s - 1) mod 4294967296) (set_worker i Notify s))
  | Some Notify =>
      cs ← notify_one on_finish wake_client k (waiters s);
      Some (upd_waiters cs (set_worker i Check_ s))
  | _ => None
  end.

(** ** The owner *)

Definition start_up s : pool := upd_phase (Starting thread_num_) (upd_running true s).
Definition shutdown s : pool := upd_phase Stopping (upd_running false s).
Definition all_exited s : bool := forallb (λ p, match p with Exited => true | _ => false end) (workers s).
(** the loop of [start_up], and the rest of [shutdown] *)
Definition owner_step s : option pool :=
  match phase s with
  | Starting (S k) => Some (upd_phase (Starting k) (upd_workers (workers s ++ [Check_]) s))
  | Starting O => Some (upd_phase Up s)
  | Stopping => Some (upd_phase Joining (upd_workers (notify_all on_task wake_worker (workers s)) s))
  | Joining => if all_exited s then Some (upd_phase Down (upd_workers [] s)) else None
  | _ => None
  end.

(** ** Steps *)

(** the steps that complete calls already made *)
Inductive internal s : pool → Prop :=
  | i_notify k s' : add_task_notify k s = Some s' → internal s s'
  | i_worker i k s' : worker i k s = Some s' → internal s s'
  | i_wait j s' : wait_test j s = Some s' → internal s s'
  | i_owner s' : owner_step s = Some s' → internal s s'.
Definition waiting (c : cpc) : bool := match c with CDone => false | _ => true end.
(** all steps, where at most [maxw] clients are in [wait_until_all_finished] at a time *)
Inductive pstep (maxw : nat) s : pool → Prop :=
  | p_internal s' : internal s s' → pstep maxw s s'
  | p_add t : pstep maxw s (add_task t s)
  | p_wait : (cnt waiting (waiters s) < maxw)%nat → pstep maxw s (wait_until_all_finished s)
  | p_start : phase s = Fresh ∨ phase s = Down → pstep maxw s (start_up s)
  | p_stop : phase s = Fresh ∨ phase s = Up ∨ phase s = Down → pstep maxw s (shutdown s)
  | p_spurious i p : workers s !! i = Some p → pstep maxw s (set_worker i (wake_worker p) s)
  | p_spurious_client j c : waiters s !! j = Some c → pstep maxw s (upd_waiters (<[j := wake_client c]> (waiters s)) s).
Definition pool_reachable (maxw : nat) s : Prop := rtc (pstep maxw) WorkPool_new s.

(** ** The invariant *)

Definition got (p : wpc) : option Task := match p with Got t => Some t | _ => None end.
Definition is_busy (p : wpc) : bool := match p with Got _ | Ran => true | _ => false end.
Definition is_active (p : wpc) : bool := negb (on_task p).
Definition is_notify (p : wpc) : bool := match p with Notify => true | _ => false end.
Definition running_phase (o : owner) : bool := match o with Starting _ | Up => true | _ => false end.
Definition size_ok (o : owner) (n : nat) : Prop :=
  match o with
  | Fresh | Down => n = 0%nat
  | Starting k => (n + k = thread_num_)%nat
  | Up => n = thread_num_
  | Stopping | Joining => (n ≤ thread_num_)%nat
  end.
Record pool_ok (maxw : nat) s : Prop := {
  k_size : size_ok (phase s) (length (workers s));
  k_busy : busy_num_ s = Z.of_nat (cnt is_busy (workers s));
  k_fifo : taken s ++ tasks_ s = added s;
  k_done : taken s ≡ₚ done_ s ++ omap got (workers s);
  k_running : is_running_ s = running_phase (phase s);
  k_exited : ∀ i, workers s !! i = Some Exited → is_running_ s = false;
  k_joining : phase s = Joining → ∀ i, workers s !! i ≠ Some Wait;
  (* a task in the queue will be noticed *)
  k_wake : tasks_ s ≠ [] → (0 < notifies s)%nat ∨ workers s = [] ∨ (0 < cnt is_active (workers s))%nat;
  k_waiters : (cnt waiting (waiters s) ≤ maxw)%nat;
  (* a single client that waits will be woken *)
  k_client : maxw = 1%nat → ∀ j, waiters s !! j = Some CWait →
    busy_num_ s ≠ 0 ∨ tasks_ s ≠ [] ∨ (0 < cnt is_notify (workers s))%nat;
}.

Context (Hth : Z.of_nat thread_num_ < 4294967296).
Lemma size_le maxw s : pool_ok maxw s → (length (workers s) ≤ thread_num_)%nat.
Proof. intros H. pose proof (k_size _ _ H) as Hs. destruct (phase s); cbn [size_ok] in Hs; lia. Qed.
Lemma busy_bound maxw s : pool_ok maxw s → 0 ≤ busy_num_ s < 4294967296.
Proof. intros H. rewrite (k_busy _ _ H). pose proof (cnt_le is_busy (workers s)). pose proof (size_le _ _ H). lia. Qed.

Lemma new_ok maxw : pool_ok maxw WorkPool_new.
Proof. constructor; cbn; try done; lia. Qed.

(** the fields of an updated pool *)
Ltac pool_cbn :=
  cbn [upd_workers upd_waiters upd_phase upd_notifies upd_busy upd_running upd_queue upd_done set_worker
    workers waiters phase notifies busy_num_ tasks_ is_running_ added taken done_] in *.
(** the counts of the workers when worker [i] goes from [p] to [q] *)
Ltac worker_counts Hi q :=
  pose proof (cnt_insert is_busy _ _ _ q Hi); pose proof (cnt_insert is_active _ _ _ q Hi);
  pose proof (cnt_insert is_notify _ _ _ q Hi); pose proof (omap_insert got _ _ _ q Hi);
  cbn [is_busy is_active is_notify on_task got olist negb b2n] in *; rewrite ?app_nil_r in *.
Lemma lookup_set_worker (ws : list wpc) i j q r : <[i := q]> ws !! j = Some r → r = q ∨ ws !! j = Some r.
Proof.
  destruct (decide (i = j)) as [->|Hne]; [|rewrite list_lookup_insert_ne by done; by right].
  intros H. left. apply list_lookup_insert_Some in H. naive_solver.
Qed.

Lemma add_task_ok maxw t s : pool_ok maxw s → pool_ok maxw (add_task t s).
Proof.
  intros [H1 H2 H3 H4 H5 H6 H7 H8 H9 H10]. unfold add_task. constructor; pool_cbn; try done.
  - by rewrite <- H3, app_assoc.
  - intros _. left. lia.
  - intros Hm j Hj. right. left. by destruct (tasks_ s).
Qed.
Lemma wake_one_ok k s ws : notify_one on_task wake_worker k (workers s) = Some ws →
  length ws = length (workers s) ∧ cnt is_busy ws = cnt is_busy (workers s) ∧ cnt is_notify ws = cnt is_notify (workers s) ∧
  omap got ws ≡ₚ omap got (workers s) ∧ (∀ i, ws !! i = Some Exited → workers s !! i = Some Exited) ∧
  (∀ i, ws !! i = Some Wait → workers s !! i = Some Wait) ∧
  (workers s = [] ∨ (0 < cnt is_active ws)%nat).
Proof.
  intros H. apply notify_one_inv in H as [[-> Hno]|(p&Hk&Hp&->)].
  - split_and!; try done. destruct (workers s) as [|p ws] eqn:E; [by left|right].
    apply (cnt_pos _ _ 0%nat p); [done|]. unfold is_active. by rewrite (Hno 0%nat p).
  - destruct p; try done. cbn [wake_worker]. worker_counts Hk Check_. rewrite length_insert.
    split_and!; try done; try lia; (intros i Hi; apply lookup_set_worker in Hi as [?|?]; done).
Qed.
Lemma add_task_notify_ok maxw k s s' : pool_ok maxw s → add_task_notify k s = Some s' → pool_ok maxw s'.
Proof.
  intros Hok. unfold add_task_notify. destruct (notifies s) as [|n]; [done|].
  destruct (notify_one on_task wake_worker k (workers s)) as [ws|] eqn:E; cbn [mbind option_bind]; [|done]. intros [= <-].
  destruct (wake_one_ok k s ws E) as (W1&W2&W3&W4&W5&W6&W7).
  destruct Hok as [H1 H2 H3 H4 H5 H6 H7 H8 H9 H10]. constructor; pool_cbn; try done.
  - by rewrite W1.
  - by rewrite W2.
  - by rewrite W4.
  - eauto.
  - intros Hp i Hi. eapply H7; eauto.
  - intros _. right. destruct W7 as [E0|?]; [left|by right]. apply nil_length_inv. by rewrite W1, E0.
  - by rewrite W3.
Qed.
Lemma wait_ok maxw s : (cnt waiting (waiters s) < maxw)%nat → pool_ok maxw s → pool_ok maxw (wait_until_all_finished s).
Proof.
  intros Hw [H1 H2 H3 H4 H5 H6 H7 H8 H9 H10]. unfold wait_until_all_finished. constructor; pool_cbn; try done.
  - unfold cnt in *. rewrite sum_list_with_app. cbn [sum_list_with waiting b2n]. lia.
  - intros Hm j Hj. apply lookup_app_Some in Hj as [Hj|[_ Hj]]; [by eapply H10|]. by apply list_lookup_singleton_Some in Hj as [_ ?].
Qed.
Lemma wait_test_ok maxw j s s' : pool_ok maxw s → wait_test j s = Some s' → pool_ok maxw s'.
Proof.
  intros Hok. unfold wait_test. destruct (waiters s !! j) as [[]|] eqn:Hj; try done. intros [= <-].
  destruct Hok as [H1 H2 H3 H4 H5 H6 H7 H8 H9 H10]. set (c := if (busy_num_ s =? 0) && _ then CDone else CWait). constructor; pool_cbn; try done.
  - pose proof (cnt_insert waiting _ _ _ c Hj) as E. cbn [waiting b2n] in E. destruct (waiting c); cbn [b2n] in E; lia.
  - intros Hm i Hi. destruct (decide (j = i)) as [->|Hne]; [|rewrite list_lookup_insert_ne in Hi by done; by eapply H10].
    rewrite list_lookup_insert_eq in Hi by by eapply lookup_lt_Some. injection Hi as Hc. subst c.
    destruct (Z.eqb_spec (busy_num_ s) 0); [|by left]. destruct (tasks_ s); [done|]. right. by left.
Qed.

(** a worker that only moves its program counter *)
Lemma set_worker_ok maxw i p q s :
  pool_ok maxw s → workers s !! i = Some p →
  is_busy q = is_busy p → got q = got p → (b2n (is_notify p) ≤ b2n (is_notify q))%nat →
  (q = Exited → is_running_ s = false) → (q = Wait → is_running_ s = true) →
  (tasks_ s ≠ [] → is_active q = true) →
  pool_ok maxw (set_worker i q s).
Proof.
  intros [H1 H2 H3 H4 H5 H6 H7 H8 H9 H10] Hi Hb Hg Hnt He Hw Ha. worker_counts Hi q. rewrite Hb in *. rewrite Hg in *.
  constructor; pool_cbn; try done.
  - by rewrite length_insert.
  - lia.
  - rewrite H4. f_equiv. apply (Permutation_app_inv_r (olist (got p))). by symmetry.
  - intros j Hj. apply lookup_set_worker in Hj as [Hj|Hj]; [by apply He|by eapply H6].
  - intros Hp j Hj. apply lookup_set_worker in Hj as [Hj|Hj]; [|by eapply H7].
    rewrite H5, Hp in Hw. by specialize (Hw (eq_sym Hj)).
  - intros Ht. right. right. specialize (Ha Ht). rewrite Ha in *. cbn [b2n] in *.
    apply (cnt_pos _ _ i q); [|done]. apply list_lookup_insert_eq. by eapply lookup_lt_Some.
  - intros Hm j Hj. destruct (H10 Hm j Hj) as [?|[?|?]]; [by left|by right; left|right; right; lia].
Qed.
Lemma take_task_ok maxw i t q s :
  pool_ok maxw s → workers s !! i = Some Check_ → is_running_ s = true → tasks_ s = t :: q →
  pool_ok maxw (upd_busy ((busy_num_ s + 1) mod 4294967296) (upd_queue q (added s) (taken s ++ [t]) (set_worker i (Got t) s))).
Proof.
  intros Hok Hi Hr Ht. pose proof (size_le _ _ Hok) as Hsz. destruct Hok as [H1 H2 H3 H4 H5 H6 H7 H8 H9 H10].
  worker_counts Hi (Got t). pose proof (cnt_le is_busy (<[i := Got t]> (workers s))) as Hle. rewrite length_insert in Hle.
  assert ((busy_num_ s + 1) mod 4294967296 = busy_num_ s + 1) as Hmod by (apply Z.mod_small; lia).
  constructor; pool_cbn; try done; rewrite ?Hmod.
  - by rewrite length_insert.
  - lia.
  - rewrite <- H3, Ht. by rewrite <- app_assoc.
  - rewrite H4. rewrite <- app_assoc. f_equiv. by symmetry.
  - intros j Hj. apply lookup_set_worker in Hj as [Hj|Hj]; [done|by eapply H6].
  - intros Hp. rewrite H5, Hp in Hr. done.
  - intros _. right. right. apply (cnt_pos _ _ i (Got t)); [|done]. apply list_lookup_insert_eq. by eapply lookup_lt_Some.
  - intros _ j _. left. lia.
Qed.
Lemma run_task_ok maxw i t s :
  pool_ok maxw s → workers s !! i = Some (Got t) → pool_ok maxw (upd_done (done_ s ++ [t]) (set_worker i Ran s)).
Proof.
  intros [H1 H2 H3 H4 H5 H6 H7 H8 H9 H10] Hi. worker_counts Hi Ran.
  constructor; pool_cbn; try done.
  - by rewrite length_insert.
  - lia.
  - rewrite H4, <- app_assoc. f_equiv. change ([t] ++ omap got (<[i := Ran]> (workers s))) with (t :: omap got (<[i := Ran]> (workers s))).
    rewrite Permutation_cons_append. by symmetry.
  - intros j Hj. apply lookup_set_worker in Hj as [Hj|Hj]; [done|by eapply H6].
  - intros Hp j Hj. apply lookup_set_worker in Hj as [Hj|Hj]; [done|by eapply H7].
  - intros _. right. right. apply (cnt_pos _ _ i Ran); [|done]. apply list_lookup_insert_eq. by eapply lookup_lt_Some.
  - intros Hm j Hj. pose proof (cnt_pos is_busy _ _ _ Hi eq_refl). left. lia.
Qed.
Lemma finish_ok maxw i s :
  pool_ok maxw s → workers s !! i = Some Ran → pool_ok maxw (upd_busy ((busy_num_ s - 1) mod 4294967296) (set_worker i Notify s)).
Proof.
  intros Hok Hi. pose proof (busy_bound _ _ Hok) as Hb. destruct Hok as [H1 H2 H3 H4 H5 H6 H7 H8 H9 H10]. worker_counts Hi Notify.
  assert ((busy_num_ s - 1) mod 4294967296 = busy_num_ s - 1) as Hmod by (apply Z.mod_small; lia).
  constructor; pool_cbn; try done; rewrite ?Hmod.
  - by rewrite length_insert.
  - lia.
  - rewrite H4. f_equiv. by symmetry.
  - intros j Hj. apply lookup_set_worker in Hj as [Hj|Hj]; [done|by eapply H6].
  - intros Hp j Hj. apply lookup_set_worker in Hj as [Hj|Hj]; [done|by eapply H7].
  - intros _. right. right. apply (cnt_pos _ _ i Notify); [|done]. apply list_lookup_insert_eq. by eapply lookup_lt_Some.
  - intros Hm j Hj. right. right. lia.
Qed.
Lemma finish_notify_ok maxw i k cs s :
  pool_ok maxw s → workers s !! i = Some Notify → notify_one on_finish wake_client k (waiters s) = Some cs →
  pool_ok maxw (upd_waiters cs (set_worker i Check_ s)).
Proof.
  intros [H1 H2 H3 H4 H5 H6 H7 H8 H9 H10] Hi Hk. worker_counts Hi Check_.
  assert (cnt waiting cs = cnt waiting (waiters s)) as Hcw.
  { apply notify_one_inv in Hk as [[-> _]|(c&Hc&Ha&->)]; [done|].
    pose proof (cnt_insert waiting _ _ _ (wake_client c) Hc) as E. destruct c; try done. change (cnt waiting (<[k := CCheck]> (waiters s)) + 1 = cnt waiting (waiters s) + 1)%nat in E. cbn [wake_client]. lia. }
  constructor; pool_cbn; try done.
  - by rewrite length_insert.
  - lia.
  - rewrite H4. f_equiv. by symmetry.
  - intros j Hj. apply lookup_set_worker in Hj as [Hj|Hj]; [done|by eapply H6].
  - intros Hp j Hj. apply lookup_set_worker in Hj as [Hj|Hj]; [done|by eapply H7].
  - intros _. right. right. apply (cnt_pos _ _ i Check_); [|done]. apply list_lookup_insert_eq. by eapply lookup_lt_Some.
  - by rewrite Hcw.
  - intros Hm j Hj. exfalso. apply notify_one_inv in Hk as [[-> Hno]|(c&Hc&Ha&->)]; [by pose proof (Hno j _ Hj)|].
    destruct (decide (k = j)) as [->|Hne].
    + rewrite list_lookup_insert_eq in Hj by by eapply lookup_lt_Some. by destruct c.
    + rewrite list_lookup_insert_ne in Hj by done. destruct Hne. destruct c; try done.
      eapply (cnt_unique waiting (waiters s)); [lia|exact Hc|exact Hj|done|done].
Qed.
Lemma worker_ok maxw i k s s' : pool_ok maxw s → worker i k s = Some s' → pool_ok maxw s'.
Proof.
  intros Hok. unfold worker. destruct (workers s !! i) as [[| |t| | |]|] eqn:Hi; try done.
  - destruct (is_running_ s) eqn:Hr; [destruct (tasks_ s) as [|t q] eqn:Ht|]; intros [= <-].
    + by eapply set_worker_ok; rewrite ?Ht.
    + by apply take_task_ok.
    + by eapply set_worker_ok.
  - intros [= <-]. by apply run_task_ok.
  - intros [= <-]. by apply finish_ok.
  - destruct (notify_one on_finish wake_client k (waiters s)) as [cs|] eqn:E; cbn [mbind option_bind]; [|done].
    intros [= <-]. by eapply finish_notify_ok.
Qed.

Lemma all_exited_inv s : all_exited s = true → ∀ i p, workers s !! i = Some p → p = Exited.
Proof.
  unfold all_exited. rewrite forallb_forall. intros H i p Hi. specialize (H p). destruct p; try done;
    (discriminate H; apply list_elem_of_In; by eapply list_elem_of_lookup_2).
Qed.
Lemma exited_counts (ws : list wpc) : (∀ i p, ws !! i = Some p → p = Exited) → cnt is_busy ws = 0%nat ∧ cnt is_notify ws = 0%nat ∧ omap got ws = [].
Proof.
  induction ws as [|p ws IH]; intros H; [done|]. rewrite (H 0%nat p eq_refl). destruct IH as (I1&I2&I3); [intros i; apply (H (S i))|].
  unfold cnt in *. cbn [sum_list_with is_busy is_notify b2n omap list_omap got]. by rewrite I1, I2, I3.
Qed.
Lemma owner_ok maxw s s' : pool_ok maxw s → owner_step s = Some s' → pool_ok maxw s'.
Proof.
  intros Hok. pose proof (size_le _ _ Hok) as Hle. destruct Hok as [H1 H2 H3 H4 H5 H6 H7 H8 H9 H10]. unfold owner_step.
  destruct (phase s) as [|[|k]| | | |] eqn:Hp; try done; cbn [size_ok running_phase] in *.
  - intros [= <-]. constructor; pool_cbn; try done. cbn [size_ok]. lia.
  - intros [= <-]. constructor; pool_cbn; try done.
    + cbn [size_ok]. rewrite length_app. cbn [length]. lia.
    + unfold cnt in *. rewrite sum_list_with_app. cbn [sum_list_with is_busy b2n]. lia.
    + rewrite omap_app. cbn [omap list_omap got]. by rewrite app_nil_r.
    + intros i Hi. apply lookup_app_Some in Hi as [Hi|[_ Hi]]; [by eapply H6|]. by apply list_lookup_singleton_Some in Hi as [_ ?].
    + intros _. right. right. unfold cnt. rewrite sum_list_with_app. cbn [sum_list_with is_active on_task negb b2n]. lia.
    + intros Hm j Hj. destruct (H10 Hm j Hj) as [?|[?|?]]; [by left|by right; left|right; right].
      unfold cnt in *. rewrite sum_list_with_app. lia.
  - intros [= <-]. unfold notify_all. constructor; pool_cbn; try done; cbn [size_ok].
    + by rewrite length_fmap.
    + rewrite cnt_fmap; [done|by intros []].
    + rewrite H4. rewrite omap_fmap_same; [done|by intros []].
    + intros _ i Hi. rewrite list_lookup_fmap in Hi. apply fmap_Some in Hi as (p&_&Hi). by destruct p.
    + intros Ht. right. destruct (workers s) as [|p ws]; [by left|right]. apply (cnt_pos _ _ 0%nat (if on_task p then wake_worker p else p)); [done|by destruct p].
    + intros Hm j Hj. rewrite cnt_fmap; [by eapply H10|by intros []].
  - destruct (all_exited s) eqn:Ha; [|done]. intros [= <-]. pose proof (all_exited_inv s Ha) as Hall.
    destruct (exited_counts (workers s) Hall) as (E1&E2&E3).
    constructor; pool_cbn; try done; [by rewrite H2, E1|by rewrite H4, E3|by intros _; right; left|].
    intros Hm j Hj. destruct (H10 Hm j Hj) as [?|[?|?]]; [by left|by right; left|lia].
Qed.
Lemma internal_ok maxw s s' : pool_ok maxw s → internal s s' → pool_ok maxw s'.
Proof.
  intros Hok [k s1 H|i k s1 H|j s1 H|s1 H];
    [by eapply add_task_notify_ok|by eapply worker_ok|by eapply wait_test_ok|by eapply owner_ok].
Qed.
Lemma start_ok maxw s : pool_ok maxw s → phase s = Fresh ∨ phase s = Down → pool_ok maxw (start_up s).
Proof.
  intros [H1 H2 H3 H4 H5 H6 H7 H8 H9 H10] Hp. assert (workers s = []) as E by (apply nil_length_inv; destruct Hp as [Hp|Hp]; by rewrite Hp in H1).
  unfold start_up. constructor; pool_cbn; try done; [by rewrite E|]. intros i. by rewrite E.
Qed.
Lemma stop_ok maxw s : pool_ok maxw s → phase s = Fresh ∨ phase s = Up ∨ phase s = Down → pool_ok maxw (shutdown s).
Proof.
  intros Hok Hp. pose proof (size_le _ _ Hok). destruct Hok as [H1 H2 H3 H4 H5 H6 H7 H8 H9 H10].
  unfold shutdown. constructor; pool_cbn; done.
Qed.
Lemma pstep_ok maxw s s' : pool_ok maxw s → pstep maxw s s' → pool_ok maxw s'.
Proof.
  intros Hok [s1 H|t|Hw|Hp|Hp|i p Hi|j c Hj];
    [by eapply internal_ok|by apply add_task_ok|by apply wait_ok|by apply start_ok|by apply stop_ok|..].
  - destruct p; cbn [wake_worker]; try (unfold set_worker, upd_workers; rewrite list_insert_id by done; by destruct s).
    eapply set_worker_ok; [done|exact Hi|try done..].
  - assert (∀ c', waiting c' = waiting c → (c' = CWait → c = CWait) → pool_ok maxw (upd_waiters (<[j := c']> (waiters s)) s)) as H;
      [|destruct c; by apply H].
    intros c' Hc Hcw. destruct Hok as [H1 H2 H3 H4 H5 H6 H7 H8 H9 H10]. constructor; pool_cbn; try done.
    + pose proof (cnt_insert waiting _ _ _ c' Hj) as E. rewrite Hc in E. lia.
    + intros Hm i Hi. apply list_lookup_insert_Some in Hi as [(->&Hc'&_)|[_ Hi]]; [|by eapply H10].
      eapply (H10 Hm i). by rewrite Hj, Hcw.
Qed.
Lemma pool_reachable_ok maxw s : pool_reachable maxw s → pool_ok maxw s.
Proof. apply (rtc_invariant (pstep maxw) (pool_ok maxw) (pstep_ok maxw)), new_ok. Qed.

(** ** Progress *)

Definition work (p : wpc) : nat := match p with Wait | Exited => 0 | Check_ => 1 | Notify => 3 | Ran => 4 | Got _ => 5 end.
Definition testing (c : cpc) : nat := match c with CCheck => 1 | _ => 0 end.
Definition phase_work (o : owner) (n : nat) : nat :=
  match o with Fresh | Up | Down => 0 | Starting k => 2 * k + 1 | Stopping => n + 2 | Joining => 1 end.
(** how many steps are left before calls have to come from outside *)
Definition pool_effort s : nat :=
  (sum_list_with work (workers s) + 5 * length (tasks_ s) + sum_list_with testing (waiters s) + 2 * notifies s +
   phase_work (phase s) (length (workers s)))%nat.

Lemma worker_effort i k s s' : worker i k s = Some s' → (pool_effort s' < pool_effort s)%nat.
Proof.
  unfold worker, pool_effort. destruct (workers s !! i) as [[| |t| | |]|] eqn:Hi; try done.
  - pose proof (λ q, sum_insert work _ _ _ q Hi) as Hs.
    destruct (is_running_ s); [destruct (tasks_ s) as [|t q] eqn:Et|]; intros [= <-]; pool_cbn; rewrite ?Et, length_insert; cbn [length];
      [specialize (Hs Wait)|specialize (Hs (Got t))|specialize (Hs Exited)]; cbn [work] in Hs; lia.
  - pose proof (sum_insert work _ _ _ Ran Hi) as Hs. intros [= <-]. pool_cbn. rewrite length_insert. cbn [work] in Hs. lia.
  - pose proof (sum_insert work _ _ _ Notify Hi) as Hs. intros [= <-]. pool_cbn. rewrite length_insert. cbn [work] in Hs. lia.
  - destruct (notify_one on_finish wake_client k (waiters s)) as [cs|] eqn:E; cbn [mbind option_bind]; [|done]. intros [= <-]. pool_cbn.
    pose proof (sum_insert work _ _ _ Check_ Hi) as Hs. rewrite length_insert. cbn [work] in Hs.
    assert (sum_list_with testing cs ≤ sum_list_with testing (waiters s) + 1)%nat; [|lia].
    apply notify_one_inv in E as [[-> _]|(c&Hc&_&->)]; [lia|]. pose proof (sum_insert testing _ _ _ (wake_client c) Hc).
    assert (testing (wake_client c) ≤ 1)%nat by (destruct c; cbn; lia). lia.
Qed.
Lemma internal_effort s s' : internal s s' → (pool_effort s' < pool_effort s)%nat.
Proof.
  intros [k s1 H|i k s1 H|j s1 H|s1 H].
  - unfold add_task_notify in H. destruct (notifies s) as [|n] eqn:En; [done|].
    destruct (notify_one on_task wake_worker k (workers s)) as [ws|] eqn:E; cbn [mbind option_bind] in H; [|done]. injection H as <-.
    unfold pool_effort. pool_cbn. rewrite En.
    destruct (wake_one_ok k s ws E) as (->&_). apply notify_one_inv in E as [[-> _]|(p&Hp&Ha&->)]; [lia|].
    pose proof (sum_insert work _ _ _ (wake_worker p) Hp) as Hs. destruct p; try done. cbn [wake_worker work] in *. lia.
  - by eapply worker_effort.
  - unfold wait_test in H. destruct (waiters s !! j) as [[]|] eqn:Hj; try done. injection H as <-. unfold pool_effort. pool_cbn.
    match goal with |- context [<[j := ?c]> _] => pose proof (sum_insert testing _ _ _ c Hj) as Hs; assert (testing c = 0%nat) as Hz by by case_match end.
    cbn [testing] in Hs. lia.
  - unfold owner_step in H. destruct (phase s) as [|[|n]| | | |] eqn:Hp; try done; [..|destruct (all_exited s) eqn:Ha; [|done]]; injection H as <-;
      unfold pool_effort; pool_cbn; rewrite Hp; cbn [phase_work].
    + lia.
    + rewrite sum_list_with_app. cbn [sum_list_with work]. lia.
    + pose proof (sum_fmap_le work (λ p, if on_task p then wake_worker p else p) (workers s) ltac:(intros []; cbn; lia)).
      unfold notify_all. lia.
    + cbn [sum_list_with]. lia.
Qed.

Lemma internal_added s s' : internal s s' → added s' = added s.
Proof.
  intros [k s1 H|i k s1 H|j s1 H|s1 H].
  - unfold add_task_notify in H. destruct (notifies s); [done|]. destruct (notify_one _ _ _ _); cbn [mbind option_bind] in H; [|done]. by injection H as <-.
  - unfold worker in H. destruct (workers s !! i) as [[| |t| | |]|]; try done.
    + destruct (is_running_ s); [destruct (tasks_ s)|]; by injection H as <-.
    + by injection H as <-.
    + by injection H as <-.
    + destruct (notify_one _ _ _ _); cbn [mbind option_bind] in H; [|done]. by injection H as <-.
  - unfold wait_test in H. destruct (waiters s !! j) as [[]|]; try done. by injection H as <-.
  - unfold owner_step in H. destruct (phase s) as [|[|n]| | | |]; try done; [..|destruct (all_exited s); [|done]]; by injection H as <-.
Qed.
(** a worker that neither waits nor has returned can make its step *)
Lemma worker_enabled i p s : workers s !! i = Some p → p = Wait ∨ p = Exited ∨ ∃ s', internal s s'.
Proof.
  intros Hi. destruct p as [| |t| | |]; [by left|..|by right; left]; right; right.
  - destruct (is_running_ s) eqn:Hr; [destruct (tasks_ s) as [|t q] eqn:Ht|]; eexists; eapply (i_worker _ i 0%nat); unfold worker; by rewrite Hi, Hr, ?Ht.
  - eexists. eapply (i_worker _ i 0%nat). unfold worker. by rewrite Hi.
  - eexists. eapply (i_worker _ i 0%nat). unfold worker. by rewrite Hi.
  - destruct (notify_one_ex on_finish wake_client (waiters s)) as (k&cs&E). eexists. eapply (i_worker _ i k). unfold worker. by rewrite Hi, E.
Qed.
Lemma stuck_phase s : pool_ok 1 s → (∀ s', ¬ internal s s') → phase s = Fresh ∨ phase s = Up ∨ phase s = Down.
Proof.
  intros Hok Hst. assert (∀ s', owner_step s ≠ Some s') as Ho by (intros s' H; by eapply Hst, i_owner).
  unfold owner_step in Ho. destruct (phase s) as [|[|k]| | | |] eqn:Hp; try (by eauto); try by destruct (Ho _ eq_refl).
  destruct (all_exited s) eqn:Ha; [by destruct (Ho _ eq_refl)|]. exfalso. apply not_true_iff_false in Ha. apply Ha.
  apply forallb_forall. intros p Hin. apply list_elem_of_In, list_elem_of_lookup in Hin as [i Hi].
  destruct (worker_enabled i p s Hi) as [->|[->|[s' H]]]; [|done|by destruct (Hst s')].
  by destruct (k_joining _ _ Hok Hp i).
Qed.
Lemma stuck_up s : (0 < thread_num_)%nat → pool_ok 1 s → (∀ s', ¬ internal s s') → phase s = Up →
  done_ s ≡ₚ added s ∧ ∀ j c, waiters s !! j = Some c → c = CDone.
Proof.
  intros Hpos [H1 H2 H3 H4 H5 H6 H7 H8 H9 H10] Hst Hp. rewrite Hp in H1, H5. cbn [size_ok running_phase] in H1, H5.
  assert (∀ i p, workers s !! i = Some p → p = Wait) as Hall.
  { intros i p Hi. destruct (worker_enabled i p s Hi) as [->|[->|[s' H]]]; [done| |by destruct (Hst s')]. specialize (H6 i Hi). congruence. }
  assert (∀ f, f Wait = false → cnt f (workers s) = 0%nat) as Hcnt.
  { intros f Hf. destruct (decide (0 < cnt f (workers s))%nat) as [Hlt|]; [|lia]. apply cnt_ex in Hlt as (i&p&Hi&Hp').
    rewrite (Hall i p Hi) in Hp'. congruence. }
  assert (notifies s = 0%nat) as Hn.
  { destruct (notifies s) as [|n] eqn:E; [done|]. destruct (notify_one_ex on_task wake_worker (workers s)) as (k&ws&Ek).
    exfalso. eapply Hst, (i_notify _ k). unfold add_task_notify. by rewrite E, Ek. }
  assert (tasks_ s = []) as Ht.
  { destruct (tasks_ s) as [|t q] eqn:E; [done|]. destruct H8 as [?|[E'|?]]; [done|lia|rewrite E' in H1; cbn in H1; lia|].
    rewrite (Hcnt is_active eq_refl) in *. lia. }
  assert (omap got (workers s) = []) as Hg.
  { clear -Hall. induction (workers s) as [|p ws IH]; [done|]. cbn [omap list_omap]. rewrite (Hall 0%nat p eq_refl). cbn [got].
    apply IH. intros i. apply (Hall (S i)). }
  split; [by rewrite <- H3, Ht, app_nil_r, H4, Hg, app_nil_r|].
  intros j c Hj. destruct c; [| |done]; exfalso.
  - eapply Hst, (i_wait _ j). unfold wait_test. by rewrite Hj.
  - destruct (H10 eq_refl j Hj) as [H|[H|H]]; [|done|rewrite (Hcnt is_notify eq_refl) in H; lia].
    rewrite (Hcnt is_busy eq_refl) in H2. done.
Qed.

(** C32: the worker pool, whatever the interleaving: tasks leave the queue in the order
    in which they were handed in, every task is queued, running or done and is never
    duplicated or dropped, [busy_num_] counts the workers that have a task, and
    [wait_until_all_finished] returns only when every task handed in so far has been
    run. *)
Theorem work_pool_safe maxw s :
  pool_reachable maxw s →
  taken s ++ tasks_ s = added s ∧ added s ≡ₚ done_ s ++ omap got (workers s) ++ tasks_ s ∧
  busy_num_ s = Z.of_nat (cnt is_busy (workers s)) ∧
  (∀ j s', wait_test j s = Some s' → waiters s' !! j = Some CDone → done_ s ≡ₚ added s).
Proof.
  intros Hr. destruct (pool_reachable_ok maxw s Hr) as [H1 H2 H3 H4 H5 H6 H7 H8 H9 H10]. split_and!; [done| |done|].
  - by rewrite <- H3, H4, app_assoc.
  - intros j s'. unfold wait_test. destruct (waiters s !! j) as [[]|] eqn:Hj; try done. intros [= <-] Hd. pool_cbn.
    rewrite list_lookup_insert_eq in Hd by by eapply lookup_lt_Some.
    destruct (Z.eqb_spec (busy_num_ s) 0) as [Hz|]; [|done]. destruct (tasks_ s); [|done]. rewrite <- H3, app_nil_r, H4.
    assert (omap got (workers s) = []) as ->; [|by rewrite app_nil_r].
    rewrite H2 in Hz. assert (cnt is_busy (workers s) = 0%nat) as Hc by lia. clear -Hc.
    induction (workers s) as [|p ws IH]; [done|]. unfold cnt in Hc. cbn [sum_list_with omap list_omap] in *.
    destruct p; cbn [is_busy b2n got] in *; try lia; apply IH; exact Hc.
Qed.

(** C28: the worker pool is live: with at least one worker and at most one client in
    [wait_until_all_finished] at a time, from every reachable state the calls already
    made need at most [pool_effort] more steps, whatever the schedule; when no step is
    left, [start_up] and [shutdown] have returned (no notification was lost), and if the
    pool is up then every task handed in has been run and every
    [wait_until_all_finished] has returned. *)
Theorem work_pool_live s :
  (0 < thread_num_)%nat → pool_reachable 1 s →
  (∀ k s', nsteps internal k s s' → (k ≤ pool_effort s)%nat) ∧
  (∀ s', rtc internal s s' → (∀ s'', ¬ internal s' s'') →
    (phase s' = Fresh ∨ phase s' = Up ∨ phase s' = Down) ∧
    (phase s' = Up → done_ s' ≡ₚ added s ∧ ∀ j c, waiters s' !! j = Some c → c = CDone)).
Proof.
  intros Hpos Hr. pose proof (pool_reachable_ok 1 s Hr) as Hok.
  assert (∀ a b, pool_ok 1 a → internal a b → pool_ok 1 b ∧ (pool_effort b < pool_effort a)%nat) as Hdec.
  { intros a b Ha Hab. split; [by eapply internal_ok|by eapply internal_effort]. }
  split.
  - intros k s' Hs. destruct (nsteps_measure internal (pool_ok 1) pool_effort Hdec k s s' Hok Hs). lia.
  - intros s' Hs Hst. assert (added s' = added s) as Ha by (clear -Hs; induction Hs; [done|]; by rewrite IHHs, (internal_added x)).
    assert (pool_ok 1 s') as Hok' by (eapply (rtc_invariant internal); [|exact Hok|exact Hs]; intros a b Hoa Hab; by apply (Hdec a b)).
    split; [by apply stuck_phase|]. intros Hp. rewrite <- Ha. by apply stuck_up.
Qed.
End Pool.

(** ** Examples: one worker, tasks are numbers *)

(** started, and one task handed in *)
Definition ex_pool : pool (Task := nat) := mkPool [Check_] [] Up 1 0 [7%nat] true [7%nat] [] [].
Lemma ex_pool_reachable maxw : pool_reachable 1 maxw ex_pool.
Proof.
  eapply rtc_l; [apply p_start; by left|]. eapply rtc_l; [apply p_internal, i_owner; reflexivity|].
  eapply rtc_l; [apply p_internal, i_owner; reflexivity|]. eapply rtc_l; [apply (p_add _ _ _ 7%nat)|]. apply rtc_refl.
Qed.
Lemma work_pool_safe_witness : pool_reachable 1 1 ex_pool ∧ added ex_pool ≡ₚ done_ ex_pool ++ omap got (workers ex_pool) ++ tasks_ ex_pool.
Proof.
  split; [apply ex_pool_reachable|]. exact (proj1 (proj2 (work_pool_safe 1 ltac:(lia) 1 ex_pool (ex_pool_reachable 1)))).
Defined.
Lemma work_pool_live_witness :
  (0 < 1)%nat ∧ pool_reachable 1 1 ex_pool ∧ ∀ k s', nsteps internal k ex_pool s' → (k ≤ 8)%nat.
Proof.
  split; [lia|]. split; [apply ex_pool_reachable|].
  exact (proj1 (work_pool_live 1 ltac:(lia) ex_pool ltac:(lia) (ex_pool_reachable 1))).
Defined.

(** [finish_cv_.notify_one] wakes one client only: with two clients in
    [wait_until_all_finished] there is an execution after which the task is done, no
    worker is busy, no step is left, and one of the two clients still waits. *)
Theorem second_waiter_never_woken :
  ∃ s : pool (Task := nat), pool_reachable 1 2 s ∧ done_ s = added s ∧ busy_num_ s = 0 ∧ tasks_ s = [] ∧
    waiters s = [CDone; CWait] ∧ ∀ s', ¬ internal s s'.
Proof.
  exists (mkPool [Wait] [CDone; CWait] Up 0 0 [] true [7%nat] [7%nat] [7%nat]). split_and!; try done.
  - unfold pool_reachable. etransitivity; [apply (ex_pool_reachable 2)|].
    eapply rtc_l; [apply p_wait; vm_compute; lia|]. eapply rtc_l; [apply p_wait; vm_compute; lia|].
    eapply rtc_l; [apply p_internal, (i_wait _ 0%nat); vm_compute; reflexivity|]. eapply rtc_l; [apply p_internal, (i_wait _ 1%nat); vm_compute; reflexivity|].
    eapply rtc_l; [apply p_internal, (i_notify _ 0%nat); vm_compute; reflexivity|].
    do 4 (eapply rtc_l; [apply p_internal, (i_worker _ 0%nat 0%nat); vm_compute; reflexivity|]).
    eapply rtc_l; [apply p_internal, (i_worker _ 0%nat 0%nat); vm_compute; reflexivity|].
    eapply rtc_l; [apply p_internal, (i_wait _ 0%nat); vm_compute; reflexivity|]. apply rtc_refl.
  - intros s' [k s1 H|i k s1 H|j s1 H|s1 H]; [done| | |done].
    + by destruct i as [|[|i]].
    + by destruct j as [|[|[|j]]].
Qed.
