(* ===== verification/Lexer.v ===== *)
(** The scanner of SQL text ([sql/lex.cpp], [include/sql/lex.h]): what each call of
    [next_token] does to the position, the scratch buffer and the token it fills in. *)
From Stdlib Require Import Ascii String SpecFloat.
From S2P Require Import Prelude Values.

(** characters are their codes *)
Definition code (c : ascii) : Z := Z.of_N (N_of_ascii c).
Arguments code _%_char_scope.
Definition str (s : string) : bytes := code <$> list_ascii_of_string s.
Arguments str _%_string_scope.

(** ** Tokens *)

(** the token codes that the grammar declares, with the prefix [TOKEN_] *)
Inductive token_type :=
  | TOKEN_CREATE | TOKEN_TABLE | TOKEN_PRIMARY_KEY | TOKEN_CHAR | TOKEN_INT | TOKEN_DECIMAL | TOKEN_BOOLEAN
  | TOKEN_DROP | TOKEN_INSERT | TOKEN_INTO | TOKEN_VALUES | TOKEN_DELETE | TOKEN_FROM | TOKEN_WHERE | TOKEN_SELECT
  | TOKEN_TRUE | TOKEN_FALSE | TOKEN_NATURAL | TOKEN_JOIN | TOKEN_OR | TOKEN_NOT | TOKEN_AND
  | TOKEN_LEFT_PARENTHESES | TOKEN_RIGHT_PARENTHESES | TOKEN_SEMICOLON | TOKEN_COMMA | TOKEN_LE_EQ | TOKEN_LESS_SIGN
  | TOKEN_GT_EQ | TOKEN_GREATER_SIGN | TOKEN_STAR | TOKEN_EQUAL | TOKEN_STRING | TOKEN_ID | TOKEN_INT_NUM | TOKEN_DECIMAL_NUM.
#[global] Instance token_type_eq : EqDecision token_type.
Proof. solve_decision. Defined.

(** the union [val_]: the member last stored; a string is the array it points to *)
Inductive token_val := TVInt (z : Z) | TVDec (bits : Z) | TVStr (s : bytes) | TVNone.
(** [type_] is not initialised: [None] is any code but those above *)
Record Token := mkToken { type_ : option token_type; val_ : token_val }.
Definition set_type (t : token_type) (tk : Token) : Token := mkToken (Some t) (val_ tk).

Definition key_words : list (bytes * token_type) :=
  [(str "create", TOKEN_CREATE); (str "CREATE", TOKEN_CREATE); (str "table", TOKEN_TABLE); (str "TABLE", TOKEN_TABLE);
   (str "primary key", TOKEN_PRIMARY_KEY); (str "PRIMARY KEY", TOKEN_PRIMARY_KEY); (str "char", TOKEN_CHAR); (str "CHAR", TOKEN_CHAR);
   (str "int", TOKEN_INT); (str "INT", TOKEN_INT); (str "decimal", TOKEN_DECIMAL); (str "DECIMAL", TOKEN_DECIMAL);
   (str "boolean", TOKEN_BOOLEAN); (str "BOOLEAN", TOKEN_BOOLEAN); (str "drop", TOKEN_DROP); (str "DROP", TOKEN_DROP);
   (str "insert", TOKEN_INSERT); (str "INSERT", TOKEN_INSERT); (str "into", TOKEN_INTO); (str "INTO", TOKEN_INTO);
   (str "values", TOKEN_VALUES); (str "VALUES", TOKEN_VALUES); (str "delete", TOKEN_DELETE); (str "DELETE", TOKEN_DELETE);
   (str "from", TOKEN_FROM); (str "FROM", TOKEN_FROM); (str "where", TOKEN_WHERE); (str "WHERE", TOKEN_WHERE);
   (str "select", TOKEN_SELECT); (str "SELECT", TOKEN_SELECT); (str "true", TOKEN_TRUE); (str "TRUE", TOKEN_TRUE);
   (str "false", TOKEN_FALSE); (str "FALSE", TOKEN_FALSE); (str "natural", TOKEN_NATURAL); (str "NATURAL", TOKEN_NATURAL);
   (str "join", TOKEN_JOIN); (str "JOIN", TOKEN_JOIN); (str "or", TOKEN_OR); (str "OR", TOKEN_OR);
   (str "not", TOKEN_NOT); (str "NOT", TOKEN_NOT); (str "and", TOKEN_AND); (str "AND", TOKEN_AND)].
Definition key_words_prefix : list bytes := [str "primary"; str "PRIMARY"].

(** [std::map::find] *)
Fixpoint find_word (l : list (bytes * token_type)) (w : bytes) : option token_type :=
  match l with
  | [] => None
  | (k, t) :: l => if decide (k = w) then Some t else find_word l w
  end.

(** ** The scanner *)

Record Lex := mkLex { sql_ : bytes; pos_ : Z; buf_ : bytes }.
Definition Lex_new (sql : bytes) : Lex := mkLex sql (-1) [].
Implicit Types (l : Lex) (tk : Token).
Definition upd_buf b l : Lex := mkLex (sql_ l) (pos_ l) b.
Definition push (c : Z) l : Lex := upd_buf (buf_ l ++ [c]) l.
Definition back l : Lex := mkLex (sql_ l) (pos_ l - 1) (buf_ l).
(** [std::string::at] throws outside the string *)
Definition char_at l (i : Z) : res Z := if 0 <=? i then of_opt OutOfBounds (sql_ l !! Z.to_nat i) else Err OutOfBounds.
Definition get_char_ l : res Z := char_at l (pos_ l).
Definition next_char l : res (Z * Lex) :=
  if zlen (sql_ l) <=? pos_ l + 1 then Ok (0, l)
  else c ← char_at l (pos_ l + 1); Ok (c, mkLex (sql_ l) (pos_ l + 1) (buf_ l)).
Definition peek_next l : res Z := if zlen (sql_ l) <=? pos_ l + 1 then Ok 0 else char_at l (pos_ l + 1).

Definition in_range (a b : ascii) (c : Z) : bool := (code a <=? c) && (c <=? code b).
Definition is_digit (c : Z) : bool := in_range "0" "9" c.
Definition is_letter (c : Z) : bool := in_range "a" "z" c || in_range "A" "Z" c || (c =? code "_").
Definition is_word (c : Z) : bool := is_letter c || is_digit c.
Definition is_quote (c : Z) : bool := (c =? 34) || (c =? code "'").

(** [build_str]: the array gets all of the buffer *)
Definition build_str (b : bytes) tk : Token := mkToken (type_ tk) (TVStr b).

Definition is_key_word l tk : res (bool * Token) :=
  w ← c_string (buf_ l) 0;
  match find_word key_words w with
  | Some t => Ok (true, set_type t tk)
  | None => Ok (false, tk)
  end.
(** the terminating zero stays in the buffer when there is no match *)
Definition check_special_key_word_prefix l : res (bool * Lex) :=
  let l1 := push 0 l in
  w ← c_string (buf_ l1) 0;
  if decide (w ∈ key_words_prefix) then Ok (true, l) else Ok (false, l1).

(** the characters of a word go to the buffer; the one that ends it is given back *)
Fixpoint read_word (fuel : nat) l : res Lex :=
  match fuel with
  | O => Err OutOfFuel
  | S fuel =>
      let* (c, l) := next_char l in
      if is_word c then read_word fuel (push c l) else Ok (back l)
  end.
Fixpoint skip_spaces (fuel : nat) (blank : Z → bool) l : res (Z * Lex) :=
  match fuel with
  | O => Err OutOfFuel
  | S fuel =>
      let* (c, l) := next_char l in
      if blank c then skip_spaces fuel blank l else Ok (c, l)
  end.
(** how many characters can be read, and one more *)
Definition loop_fuel l : nat := S (S (length (sql_ l))).

Definition is_special_key_word l tk : res (bool * Token * Lex) :=
  let* (c, l) := skip_spaces (loop_fuel l) (λ c, c =? code " ") l in
  l ← read_word (loop_fuel l) (push c (push (code " ") l));
  let l := push 0 l in
  let* (b, tk) := is_key_word l tk in
  Ok (b, tk, l).

Fixpoint string_loop (fuel : nat) (c : Z) l tk : res (bool * Token * Lex) :=
  match fuel with
  | O => Err OutOfFuel
  | S fuel =>
      if c =? 0 then Ok (false, tk, l)
      else if is_quote c then
        let l := push 0 l in
        Ok (true, build_str (buf_ l) (set_type TOKEN_STRING tk), l)
      else
        let* (c, l) := if c =? 92 then next_char l else Ok (c, l) in
        let l := push c l in
        let* (c, l) := next_char l in
        string_loop fuel c l tk
  end.
Definition read_string l tk : res (bool * Token * Lex) :=
  let* (c, l) := next_char (upd_buf [] l) in
  string_loop (loop_fuel l) c l tk.

(** the loop of [read_id]: whether it ended at a prefix of a special key word *)
Fixpoint id_loop (fuel : nat) l : res (bool * Lex) :=
  match fuel with
  | O => Err OutOfFuel
  | S fuel =>
      let* (c, l) := next_char l in
      if is_word c then id_loop fuel (push c l)
      else if c =? code " " then
        let* (special, l) := check_special_key_word_prefix l in
        if (special : bool) then Ok (true, l) else Ok (false, back l)
      else Ok (false, back l)
  end.
Definition read_id l tk : res (bool * Token * Lex) :=
  c ← get_char_ l;
  let* (special, l) := id_loop (loop_fuel l) (upd_buf [c] l) in
  if (special : bool) then is_special_key_word l tk
  else
    let l := push 0 l in
    let* (b, tk) := is_key_word l tk in
    if (b : bool) then Ok (true, tk, l)
    else Ok (true, build_str (buf_ l) (set_type TOKEN_ID tk), l).

(** [atof] on digits, with or without a fraction: the nearest double *)
Definition digits_val (ds : bytes) : Z := foldl (λ a c, a * 10 + (c - code "0")) 0 ds.
Fixpoint split_point (ds : bytes) : bytes * bytes :=
  match ds with
  | [] => ([], [])
  | c :: ds => if c =? code "." then ([], ds) else let '(a, b) := split_point ds in (c :: a, b)
  end.
Definition atof (s : bytes) : Z :=
  let '(ip, fp) := split_point s in
  match digits_val (ip ++ fp), 10 ^ zlen fp with
  | Zpos m, Zpos d =>
      let '(mz, ez, lz) := SFdiv_core_binary 53 1024 (Zpos m) 0 (Zpos d) 0 in
      bits_of_b64 (binary_round_aux 53 1024 false mz ez lz)
  | _, _ => 0
  end.
(** the conversion of [atof] to [int]: a double holds every integer of 32 bits, and the
    behaviour is undefined beyond *)
Definition atof_int (s : bytes) : res Z := if in32b (digits_val s) then Ok (digits_val s) else Err SignedOverflow.

Fixpoint digit_loop (fuel : nat) l : res (Z * Lex) :=
  match fuel with
  | O => Err OutOfFuel
  | S fuel =>
      let* (c, l) := next_char l in
      if is_digit c then digit_loop fuel (push c l) else Ok (c, l)
  end.
Definition read_decimal l tk : res (bool * Token * Lex) :=
  let* (_, l) := digit_loop (loop_fuel l) l in
  let l := push 0 (back l) in
  s ← c_string (buf_ l) 0;
  Ok (true, mkToken (Some TOKEN_DECIMAL_NUM) (TVDec (atof s)), l).
Definition read_number l tk : res (bool * Token * Lex) :=
  c ← get_char_ l;
  let* (c, l) := digit_loop (loop_fuel l) (upd_buf [c] l) in
  if c =? code "." then
    next_c ← peek_next l;
    if is_digit next_c then read_decimal (push (code ".") l) tk else Ok (false, tk, l)
  else
    let l := push 0 (back l) in
    s ← c_string (buf_ l) 0;
    n ← atof_int s;
    let t := if decide (type_ tk = Some TOKEN_DECIMAL) then type_ tk else Some TOKEN_INT_NUM in
    Ok (true, mkToken t (TVInt n), l).

(** the comparison operators of one or two characters *)
Definition read_op (two one : token_type) l tk : res (bool * Token * Lex) :=
  let* (next_c, l) := next_char l in
  if next_c =? code "=" then Ok (true, set_type two tk, l) else Ok (true, set_type one tk, back l).

Definition next_token l tk : res (bool * Token * Lex) :=
  let* (c, l) := skip_spaces (loop_fuel l) (λ c, (c =? code " ") || (c =? 10)) l in
  if c =? 0 then Ok (false, tk, l)
  else if c =? code "(" then Ok (true, set_type TOKEN_LEFT_PARENTHESES tk, l)
  else if c =? code ")" then Ok (true, set_type TOKEN_RIGHT_PARENTHESES tk, l)
  else if c =? code ";" then Ok (true, set_type TOKEN_SEMICOLON tk, l)
  else if c =? code "," then Ok (true, set_type TOKEN_COMMA tk, l)
  else if c =? code "<" then read_op TOKEN_LE_EQ TOKEN_LESS_SIGN l tk
  else if c =? code ">" then read_op TOKEN_GT_EQ TOKEN_GREATER_SIGN l tk
  else if c =? code "*" then Ok (true, set_type TOKEN_STAR tk, l)
  else if c =? code "=" then Ok (true, set_type TOKEN_EQUAL tk, l)
  else if is_quote c then read_string l tk
  else if is_letter c then read_id l tk
  else if is_digit c then read_number l tk
  else Ok (false, tk, l).

(** the loop of [sql_execute]: one token structure is used for all calls *)
Fixpoint tokens (fuel : nat) l tk : res (list Token * Lex) :=
  match fuel with
  | O => Err OutOfFuel
  | S fuel =>
      let* (b, tk, l) := next_token l tk in
      if (b : bool) then let* (tks, l) := tokens fuel l tk in Ok (tk :: tks, l)
      else Ok ([], l)
  end.

(** ** Where the scanner is: what it has read and what is left *)

(** replaces the codes of character constants by numbers *)
Ltac codes :=
  repeat match goal with
    | |- context [code ?c] => let v := eval vm_compute in (code c) in change (code c) with v
    | H : context [code ?c] |- _ => let v := eval vm_compute in (code c) in change (code c) with v in H
    end.

Definition lx (pre rest b : bytes) : Lex := mkLex (pre ++ rest) (zlen pre - 1) b.
Lemma next_char_lx pre c rest b : next_char (lx pre (c :: rest) b) = Ok (c, lx (pre ++ [c]) rest b).
Proof.
  unfold next_char, char_at, lx. cbn [sql_ pos_ buf_]. rewrite zlen_app. pose proof (zlen_nonneg pre). pose proof (zlen_nonneg rest).
  assert (zlen (c :: rest) = zlen rest + 1) as -> by (unfold zlen; cbn [length]; lia).
  rewrite (proj2 (Z.leb_gt _ _)) by lia. rewrite (proj2 (Z.leb_le _ _)) by lia.
  replace (Z.to_nat (zlen pre - 1 + 1)) with (length pre) by (unfold zlen; lia).
  rewrite list_lookup_middle by done. cbn [of_opt mbind res_bind]. rewrite <- app_assoc. do 3 f_equal.
  rewrite zlen_app. unfold zlen. cbn [length]. lia.
Qed.
Lemma next_char_end pre b : next_char (lx pre [] b) = Ok (0, lx pre [] b).
Proof. unfold next_char, lx. cbn [sql_ pos_ buf_]. by rewrite app_nil_r, (proj2 (Z.leb_le _ _)) by lia. Qed.
Lemma peek_next_lx pre c rest b : peek_next (lx pre (c :: rest) b) = Ok c.
Proof.
  unfold peek_next, char_at, lx. cbn [sql_ pos_]. rewrite zlen_app. pose proof (zlen_nonneg pre). pose proof (zlen_nonneg rest).
  assert (zlen (c :: rest) = zlen rest + 1) as -> by (unfold zlen; cbn [length]; lia).
  rewrite (proj2 (Z.leb_gt _ _)) by lia. rewrite (proj2 (Z.leb_le _ _)) by lia.
  replace (Z.to_nat (zlen pre - 1 + 1)) with (length pre) by (unfold zlen; lia). by rewrite list_lookup_middle.
Qed.
Lemma back_lx pre c rest b : back (lx (pre ++ [c]) rest b) = lx pre (c :: rest) b.
Proof. unfold back, lx. cbn [sql_ pos_ buf_]. rewrite <- app_assoc. f_equal. rewrite zlen_app. unfold zlen. cbn [length]. lia. Qed.
Lemma get_char_lx pre c rest b : get_char_ (lx (pre ++ [c]) rest b) = Ok c.
Proof.
  unfold get_char_, char_at, lx. cbn [sql_ pos_]. rewrite zlen_app. pose proof (zlen_nonneg pre).
  change (zlen [c]) with 1. rewrite (proj2 (Z.leb_le _ _)) by lia. replace (Z.to_nat (zlen pre + 1 - 1)) with (length pre) by (unfold zlen; lia).
  rewrite <- app_assoc. change ([c] ++ rest) with (c :: rest). by rewrite list_lookup_middle.
Qed.
Lemma push_lx c pre rest b : push c (lx pre rest b) = lx pre rest (b ++ [c]).
Proof. done. Qed.
Lemma upd_buf_lx b' pre rest b : upd_buf b' (lx pre rest b) = lx pre rest b'.
Proof. done. Qed.
Lemma loop_fuel_lx pre rest b : loop_fuel (lx pre rest b) = S (S (length pre + length rest)).
Proof. unfold loop_fuel, lx. cbn [sql_]. by rewrite length_app. Qed.

(** the loops read a maximal run *)
Lemma id_loop_run f w pre rest b : forallb is_word w = true → (length w ≤ f)%nat →
  id_loop f (lx pre (w ++ rest) b) = id_loop (f - length w) (lx (pre ++ w) rest (b ++ w)).
Proof.
  revert f pre b. induction w as [|c w IH]; intros f pre b Hw Hf; [by rewrite !app_nil_r, Nat.sub_0_r|].
  cbn [forallb] in Hw. apply andb_prop in Hw as [Hc Hw]. destruct f as [|f]; cbn [length] in *; [lia|].
  cbn [id_loop app]. rewrite next_char_lx, Hc, push_lx, IH by (done || lia). by rewrite <- !app_assoc.
Qed.
Lemma read_word_run f w pre c rest b : forallb is_word w = true → is_word c = false → (length w < f)%nat →
  read_word f (lx pre (w ++ c :: rest) b) = Ok (lx (pre ++ w) (c :: rest) (b ++ w)).
Proof.
  revert f pre b. induction w as [|d w IH]; intros f pre b Hw Hc Hf.
  - destruct f as [|f]; [cbn in Hf; lia|]. cbn [read_word app]. by rewrite next_char_lx, Hc, back_lx, !app_nil_r.
  - cbn [forallb] in Hw. apply andb_prop in Hw as [Hd Hw]. destruct f as [|f]; cbn [length] in *; [lia|].
    cbn [read_word app]. rewrite next_char_lx, Hd, push_lx, IH by (done || lia). by rewrite <- !app_assoc.
Qed.
Lemma digit_loop_run f w pre c rest b : forallb is_digit w = true → is_digit c = false → (length w < f)%nat →
  digit_loop f (lx pre (w ++ c :: rest) b) = Ok (c, lx (pre ++ w ++ [c]) rest (b ++ w)).
Proof.
  revert f pre b. induction w as [|d w IH]; intros f pre b Hw Hc Hf.
  - destruct f as [|f]; [cbn in Hf; lia|]. cbn [digit_loop app]. by rewrite next_char_lx, Hc, !app_nil_r.
  - cbn [forallb] in Hw. apply andb_prop in Hw as [Hd Hw]. destruct f as [|f]; cbn [length] in *; [lia|].
    cbn [digit_loop app]. rewrite next_char_lx, Hd, push_lx, IH by (done || lia). by rewrite <- !app_assoc.
Qed.
(** the text of a string between its quotes *)
Fixpoint escape (s : bytes) : bytes :=
  match s with
  | [] => []
  | c :: s => if is_quote c || (c =? 92) then 92 :: c :: escape s else c :: escape s
  end.
Definition string_read (fuel : nat) l tk : res (bool * Token * Lex) := let* (c, l) := next_char l in string_loop fuel c l tk.
Lemma string_read_run f s pre rest b tk : Forall (λ c, c ≠ 0) s → (length s < f)%nat →
  string_read f (lx pre (escape s ++ 34 :: rest) b) tk =
  Ok (true, mkToken (Some TOKEN_STRING) (TVStr (b ++ s ++ [0])), lx (pre ++ escape s ++ [34]) rest (b ++ s ++ [0])).
Proof.
  revert f pre b. induction s as [|c s IH]; intros f pre b Hs Hf; destruct f as [|f]; cbn [length] in Hf; try lia.
  - unfold string_read. cbn [escape app]. rewrite next_char_lx. reflexivity.
  - apply Forall_cons in Hs as [Hc Hs]. unfold string_read in *. cbn [escape].
    destruct (is_quote c || (c =? 92)) eqn:E; cbn [app]; rewrite next_char_lx; cbn [string_loop].
    + change (92 =? 0) with false. change (is_quote 92) with false. change (92 =? 92) with true. cbn match.
      rewrite next_char_lx, push_lx. rewrite IH by (done || lia). by rewrite <- !app_assoc.
    + apply orb_false_elim in E as [E1 E2]. rewrite (proj2 (Z.eqb_neq c 0)) by done. rewrite E1, E2, push_lx. cbn match.
      rewrite IH by (done || lia). by rewrite <- !app_assoc.
Qed.

(** buffers as C strings *)
Lemma until_nul_app w r : Forall (λ c, c ≠ 0) w → until_nul (w ++ 0 :: r) = Some w.
Proof.
  induction w as [|c w IH]; intros Hw; [done|]. apply Forall_cons in Hw as [Hc Hw]. cbn [app until_nul].
  rewrite (proj2 (Z.eqb_neq c 0)) by done. by rewrite IH.
Qed.
Lemma c_string_app w r : Forall (λ c, c ≠ 0) w → c_string (w ++ 0 :: r) 0 = Ok w.
Proof.
  intros Hw. unfold c_string. pose proof (zlen_nonneg (w ++ 0 :: r)). rewrite (proj2 (Z.leb_le 0 (zlen _))) by done.
  cbn [Z.leb andb]. change (drop (Z.to_nat 0) (w ++ 0 :: r)) with (w ++ 0 :: r). by rewrite until_nul_app.
Qed.
Lemma word_nonzero (f : Z → bool) w : (∀ c, f c = true → c ≠ 0) → forallb f w = true → Forall (λ c, c ≠ 0) w.
Proof. intros Hf Hw. rewrite forallb_forall in Hw. apply Forall_forall. intros c Hc. apply Hf, Hw. by apply list_elem_of_In. Qed.

(** ** Lexemes and their text *)

Inductive lexeme :=
  | XKey (w : bytes) (t : token_type)
  | XPrimaryKey (upper : bool)
  | XId (w : bytes)
  | XNum (ds : bytes)
  | XDec (ip fp : bytes)
  | XStr (s : bytes)
  | XSym (w : bytes) (t : token_type).
Definition symbols : list (bytes * token_type) :=
  [(str "(", TOKEN_LEFT_PARENTHESES); (str ")", TOKEN_RIGHT_PARENTHESES); (str ";", TOKEN_SEMICOLON); (str ",", TOKEN_COMMA);
   (str "<=", TOKEN_LE_EQ); (str "<", TOKEN_LESS_SIGN); (str ">=", TOKEN_GT_EQ); (str ">", TOKEN_GREATER_SIGN);
   (str "*", TOKEN_STAR); (str "=", TOKEN_EQUAL)].
Definition text (x : lexeme) : bytes :=
  match x with
  | XKey w _ => w
  | XPrimaryKey u => if u then str "PRIMARY KEY" else str "primary key"
  | XId w => w
  | XNum ds => ds
  | XDec ip fp => ip ++ code "." :: fp
  | XStr s => 34 :: escape s ++ [34]
  | XSym w _ => w
  end.
(** what the structure of the caller holds afterwards, given what it held before: key
    words and symbols set the type only, and an integer keeps the type of the key word
    [decimal] before it *)
Definition int_type tk : token_type := if decide (type_ tk = Some TOKEN_DECIMAL) then TOKEN_DECIMAL else TOKEN_INT_NUM.
Definition token_of (x : lexeme) tk : Token :=
  match x with
  | XKey _ t | XSym _ t => set_type t tk
  | XPrimaryKey _ => set_type TOKEN_PRIMARY_KEY tk
  | XId w => mkToken (Some TOKEN_ID) (TVStr (w ++ [0; 0]))
  | XNum ds => mkToken (Some (int_type tk)) (TVInt (digits_val ds))
  | XDec ip fp => mkToken (Some TOKEN_DECIMAL_NUM) (TVDec (atof (ip ++ code "." :: fp)))
  | XStr s => mkToken (Some TOKEN_STRING) (TVStr (s ++ [0]))
  end.
Definition is_ident (w : bytes) : bool := match w with c :: w => is_letter c && forallb is_word w | [] => false end.
Definition wf (x : lexeme) : Prop :=
  match x with
  | XKey w t => is_ident w = true ∧ (w, t) ∈ key_words
  | XPrimaryKey _ => True
  | XId w => is_ident w = true ∧ find_word key_words w = None ∧ w ∉ key_words_prefix
  | XNum ds => ds ≠ [] ∧ forallb is_digit ds = true ∧ digits_val ds ≤ INT32_MAX
  | XDec ip fp => ip ≠ [] ∧ fp ≠ [] ∧ forallb is_digit (ip ++ fp) = true
  | XStr s => Forall (λ c, c ≠ 0) s
  | XSym w t => (w, t) ∈ symbols
  end.
(** the tokens of a sequence, where each lexeme meets the token its predecessor left *)
Fixpoint tokens_of (xs : list lexeme) tk : list Token :=
  match xs with [] => [] | x :: xs => token_of x tk :: tokens_of xs (token_of x tk) end.
Definition print (xs : list lexeme) : bytes := concat ((λ x, text x ++ [code " "]) <$> xs).
(** a text of these lexemes: blanks and newlines anywhere between them, and a blank right
    behind words, numbers and the operators that could go on *)
Definition blank (c : Z) : bool := (c =? code " ") || (c =? 10).
Definition closed (x : lexeme) : bool :=
  match x with XStr _ => true | XSym w _ => bool_decide (w ≠ str "<" ∧ w ≠ str ">") | _ => false end.
Fixpoint spaced (xs : list lexeme) (sql : bytes) : Prop :=
  match xs with
  | [] => forallb blank sql = true
  | x :: xs => ∃ sp rest, forallb blank sp = true ∧ sql = sp ++ text x ++ rest ∧ (closed x = true ∨ ∃ r, rest = code " " :: r) ∧ spaced xs rest
  end.
Lemma spaced_print xs : spaced xs (print xs).
Proof.
  enough (∀ sp, forallb blank sp = true → spaced xs (sp ++ print xs)) as H by (by apply (H [])).
  induction xs as [|x xs IH]; intros sp Hsp; cbn [spaced]; [by rewrite app_nil_r|].
  exists sp, (code " " :: print xs). split_and!; [done|cbn; by rewrite <- app_assoc|by right; eexists|by apply (IH [code " "])].
Qed.

Lemma is_letter_bounds c : is_letter c = true → 65 ≤ c ≤ 90 ∨ c = 95 ∨ 97 ≤ c ≤ 122.
Proof. unfold is_letter, in_range. codes. lia. Qed.
Lemma is_digit_bounds c : is_digit c = true → 48 ≤ c ≤ 57.
Proof. unfold is_digit, in_range. codes. lia. Qed.
Lemma is_word_nonzero c : is_word c = true → c ≠ 0.
Proof. unfold is_word. intros [H|H]%orb_prop; [apply is_letter_bounds in H|apply is_digit_bounds in H]; lia. Qed.
Lemma is_digit_nonzero c : is_digit c = true → c ≠ 0.
Proof. intros H%is_digit_bounds. lia. Qed.
Lemma find_word_lookup w t : (w, t) ∈ key_words → find_word key_words w = Some t.
Proof.
  assert (Forall (λ p, find_word key_words p.1 = Some p.2) key_words) as H.
  { apply (bool_decide_eq_true_1 _). vm_compute. reflexivity. }
  intros Hin. rewrite Forall_forall in H. exact (H _ Hin).
Qed.
(** no key word or prefix is another's prefix *)
Lemma key_not_prefix w t : (w, t) ∈ key_words → is_ident w = true → w ∉ key_words_prefix.
Proof.
  assert (Forall (λ p, p.1 ∉ key_words_prefix) key_words) as H.
  { apply (bool_decide_eq_true_1 _). vm_compute. reflexivity. }
  intros Hin _. rewrite Forall_forall in H. exact (H _ Hin).
Qed.

(** blanks before a lexeme are skipped *)
Lemma skip_spaces_lx (blank : Z → bool) f sp pre c rest b : forallb blank sp = true → blank c = false → (length sp < f)%nat →
  skip_spaces f blank (lx pre (sp ++ c :: rest) b) = Ok (c, lx (pre ++ sp ++ [c]) rest b).
Proof.
  revert f pre. induction sp as [|d sp IH]; intros f pre Hs Hc Hf.
  - destruct f as [|f]; [cbn in Hf; lia|]. cbn [skip_spaces app]. by rewrite next_char_lx, Hc.
  - cbn [forallb] in Hs. apply andb_prop in Hs as [Hd Hs]. destruct f as [|f]; cbn [length] in *; [lia|].
    cbn [skip_spaces app]. rewrite next_char_lx, Hd, IH by (done || lia). by rewrite <- !app_assoc.
Qed.
(** an identifier or key word that a blank follows *)
Lemma read_id_lx c w pre rest b tk : is_letter c = true → forallb is_word w = true → c :: w ∉ key_words_prefix →
  read_id (lx (pre ++ [c]) (w ++ 32 :: rest) b) tk =
  Ok (true, match find_word key_words (c :: w) with Some t => set_type t tk | None => mkToken (Some TOKEN_ID) (TVStr (c :: w ++ [0; 0])) end,
    lx (pre ++ c :: w) (32 :: rest) (c :: w ++ [0; 0])).
Proof.
  intros Hc Hw Hp. unfold read_id. rewrite get_char_lx. cbn [mbind res_bind]. rewrite upd_buf_lx.
  assert (Forall (λ c, c ≠ 0) (c :: w)) as Hnz.
  { constructor; [apply is_word_nonzero; unfold is_word; by rewrite Hc|]. by apply (word_nonzero is_word); [apply is_word_nonzero|]. }
  rewrite id_loop_run by (done || rewrite loop_fuel_lx, !length_app; lia).
  destruct (loop_fuel _ - length w)%nat as [|f] eqn:Ef; [rewrite loop_fuel_lx, !length_app in Ef; lia|].
  cbn [id_loop]. rewrite next_char_lx. change (is_word 32) with false. change (32 =? code " ") with true. cbn match.
  unfold check_special_key_word_prefix. rewrite push_lx. change ([c] ++ w) with (c :: w).
  change (buf_ (lx ((pre ++ [c]) ++ w ++ [32]) rest ((c :: w) ++ [0]))) with ((c :: w) ++ 0 :: []).
  rewrite <- app_assoc. cbn [buf_ lx]. rewrite c_string_app by done. cbn [mbind res_bind]. rewrite decide_False by done.
  rewrite app_assoc, back_lx, push_lx. unfold is_key_word. cbn [buf_ lx].
  replace (((c :: w) ++ [0]) ++ [0]) with ((c :: w) ++ 0 :: [0]) by (by rewrite <- app_assoc).
  rewrite c_string_app by done. cbn [mbind res_bind].
  assert (lx ((pre ++ [c]) ++ w) (32 :: rest) ((c :: w) ++ 0 :: [0]) = lx (pre ++ c :: w) (32 :: rest) (c :: w ++ [0; 0])) as ->
    by (by rewrite <- app_assoc).
  by destruct (find_word key_words (c :: w)).
Qed.
Lemma digits_val_nonneg ds : forallb is_digit ds = true → 0 ≤ digits_val ds.
Proof.
  unfold digits_val. assert (∀ a, 0 ≤ a → forallb is_digit ds = true → 0 ≤ foldl (λ a c, a * 10 + (c - code "0")) a ds) as H; [|by apply H].
  induction ds as [|d ds IH]; intros a Ha Hd; [done|]. cbn [forallb foldl] in *. apply andb_prop in Hd as [Hd Hds].
  apply is_digit_bounds in Hd. apply IH; [codes; lia|done].
Qed.
Lemma read_number_lx d ds pre rest b tk : is_digit d = true → forallb is_digit ds = true → digits_val (d :: ds) ≤ INT32_MAX →
  read_number (lx (pre ++ [d]) (ds ++ 32 :: rest) b) tk =
  Ok (true, mkToken (Some (int_type tk)) (TVInt (digits_val (d :: ds))), lx (pre ++ d :: ds) (32 :: rest) (d :: ds ++ [0])).
Proof.
  intros Hd Hds Hv. unfold read_number. rewrite get_char_lx. cbn [mbind res_bind]. rewrite upd_buf_lx.
  rewrite digit_loop_run by (done || rewrite loop_fuel_lx, !length_app; lia). change (32 =? code ".") with false. cbn match.
  rewrite (app_assoc (pre ++ [d])), back_lx, push_lx. change (([d] ++ ds) ++ [0]) with ((d :: ds) ++ 0 :: []). cbn [buf_ lx].
  assert (forallb is_digit (d :: ds) = true) as Hall by (cbn [forallb]; by rewrite Hd).
  rewrite c_string_app by (eapply word_nonzero; [apply is_digit_nonzero|done]). cbn [mbind res_bind].
  pose proof (digits_val_nonneg _ Hall). unfold atof_int. rewrite (proj2 (in32b_spec _)) by (unfold in32, INT32_MIN; lia).
  cbn [mbind res_bind]. rewrite <- app_assoc. unfold int_type. case_decide as Ht; [by rewrite Ht|done].
Qed.
Lemma read_decimal_lx d ds f fs pre rest b tk :
  is_digit d = true → forallb is_digit ds = true → is_digit f = true → forallb is_digit fs = true →
  read_number (lx (pre ++ [d]) (ds ++ 46 :: f :: fs ++ 32 :: rest) b) tk =
  Ok (true, mkToken (Some TOKEN_DECIMAL_NUM) (TVDec (atof ((d :: ds) ++ 46 :: f :: fs))),
    lx (pre ++ (d :: ds) ++ 46 :: f :: fs) (32 :: rest) (((d :: ds) ++ 46 :: f :: fs) ++ [0])).
Proof.
  intros Hd Hds Hf Hfs. unfold read_number. rewrite get_char_lx. cbn [mbind res_bind]. rewrite upd_buf_lx.
  rewrite digit_loop_run by (done || rewrite loop_fuel_lx, !length_app; lia). change (46 =? code ".") with true. cbn match.
  rewrite peek_next_lx. cbn [mbind res_bind]. rewrite Hf, push_lx. unfold read_decimal. change (f :: fs ++ 32 :: rest) with ((f :: fs) ++ 32 :: rest).
  assert (forallb is_digit (f :: fs) = true) as Hall by (cbn [forallb]; by rewrite Hf).
  rewrite digit_loop_run by (done || (rewrite loop_fuel_lx, !length_app; lia)).
  rewrite (app_assoc _ (f :: fs) [32]), back_lx, push_lx. cbn [buf_ lx].
  assert (((([d] ++ ds) ++ [code "."]) ++ f :: fs) ++ [0] = ((d :: ds) ++ 46 :: f :: fs) ++ 0 :: []) as -> by (by rewrite <- !app_assoc).
  rewrite c_string_app.
  2: { apply Forall_app. split; [|constructor; [done|]]; (eapply (word_nonzero is_digit); [apply is_digit_nonzero|]); [cbn [forallb]; by rewrite Hd|done]. }
  cbn [mbind res_bind]. by rewrite <- !app_assoc.
Qed.
Lemma read_string_lx s pre rest b tk : Forall (λ c, c ≠ 0) s →
  read_string (lx (pre ++ [34]) (escape s ++ 34 :: rest) b) tk =
  Ok (true, mkToken (Some TOKEN_STRING) (TVStr (s ++ [0])), lx (pre ++ 34 :: escape s ++ [34]) rest (s ++ [0])).
Proof.
  intros Hs. unfold read_string. rewrite upd_buf_lx.
  pose proof (string_read_run (loop_fuel (lx (pre ++ [34]) (escape s ++ 34 :: rest) [])) s (pre ++ [34]) rest [] tk Hs) as H.
  assert (length s ≤ length (escape s))%nat as Hle.
  { clear. induction s as [|c s IH]; [done|]. cbn [escape]. case_match; cbn [length]; lia. }
  rewrite loop_fuel_lx, !length_app in H. unfold string_read in H.
  destruct (escape s ++ 34 :: rest) as [|c r] eqn:E; [by destruct (escape s)|]. rewrite next_char_lx in *.
  rewrite loop_fuel_lx. assert (length (pre ++ [34%Z; c]) + length r = length pre + length [34%Z] + (length (escape s) + length (34%Z :: rest)))%nat as Hlen.
  { rewrite <- (length_app (escape s)), E, length_app. cbn [length]. lia. }
  rewrite <- app_assoc. change ([34] ++ [c]) with [34; c]. rewrite Hlen. rewrite <- app_assoc in H. change ([34] ++ [c]) with [34; c] in H.
  rewrite H by lia. by rewrite <- app_assoc.
Qed.

(** ** One call of [next_token] *)

(** decides tests of a character whose range is known *)
Ltac chars c :=
  repeat match goal with
    | |- context [c =? ?d] => rewrite (proj2 (Z.eqb_neq c d)) by (codes; lia)
    end.
Lemma blank_letter c : 33 ≤ c → blank c = false.
Proof. intros H. unfold blank. chars c. done. Qed.
Section Next.
Context (sp pre rest b : bytes) (tk : Token) (Hsp : forallb blank sp = true).

Lemma next_token_word c : is_letter c = true → next_token (lx pre (sp ++ c :: rest) b) tk = read_id (lx ((pre ++ sp) ++ [c]) rest b) tk.
Proof.
  intros Hc. pose proof (is_letter_bounds c Hc) as Hb. unfold next_token. change (λ c, (c =? code " ") || (c =? 10)) with blank.
  rewrite skip_spaces_lx by (done || (apply blank_letter; lia) || (rewrite loop_fuel_lx, length_app; lia)).
  unfold is_quote. chars c. rewrite Hc. cbn match. by rewrite app_assoc.
Qed.
Lemma next_token_digit c : is_digit c = true → next_token (lx pre (sp ++ c :: rest) b) tk = read_number (lx ((pre ++ sp) ++ [c]) rest b) tk.
Proof.
  intros Hc. pose proof (is_digit_bounds c Hc) as Hb. unfold next_token. change (λ c, (c =? code " ") || (c =? 10)) with blank.
  rewrite skip_spaces_lx by (done || (apply blank_letter; lia) || (rewrite loop_fuel_lx, length_app; lia)).
  assert (is_letter c = false) as Hl by (destruct (is_letter c) eqn:E; [apply is_letter_bounds in E; lia|done]).
  unfold is_quote. chars c. rewrite Hc, Hl. cbn match. by rewrite app_assoc.
Qed.
Lemma next_token_char c : blank c = false → is_letter c = false → is_digit c = false →
  next_token (lx pre (sp ++ c :: rest) b) tk =
  let l := lx ((pre ++ sp) ++ [c]) rest b in
  if c =? 0 then Ok (false, tk, l)
  else if c =? code "(" then Ok (true, set_type TOKEN_LEFT_PARENTHESES tk, l)
  else if c =? code ")" then Ok (true, set_type TOKEN_RIGHT_PARENTHESES tk, l)
  else if c =? code ";" then Ok (true, set_type TOKEN_SEMICOLON tk, l)
  else if c =? code "," then Ok (true, set_type TOKEN_COMMA tk, l)
  else if c =? code "<" then read_op TOKEN_LE_EQ TOKEN_LESS_SIGN l tk
  else if c =? code ">" then read_op TOKEN_GT_EQ TOKEN_GREATER_SIGN l tk
  else if c =? code "*" then Ok (true, set_type TOKEN_STAR tk, l)
  else if c =? code "=" then Ok (true, set_type TOKEN_EQUAL tk, l)
  else if is_quote c then read_string l tk
  else Ok (false, tk, l).
Proof.
  intros Hb Hl Hd. unfold next_token. change (λ c, (c =? code " ") || (c =? 10)) with blank.
  rewrite skip_spaces_lx by (done || (rewrite loop_fuel_lx, length_app; lia)). rewrite Hl, Hd. by rewrite app_assoc.
Qed.
End Next.

Lemma symbol_cases w t : (w, t) ∈ symbols → ∃ c w', w = c :: w' ∧ blank c = false ∧ is_letter c = false ∧ is_digit c = false.
Proof.
  intros H. unfold symbols in H. rewrite !elem_of_cons in H.
  destruct_or! H; try (injection H as -> ->; eexists _, _; split; [reflexivity|]; vm_compute; intuition congruence). set_solver.
Qed.
Lemma next_token_symbol w t sp pre rest b tk : (w, t) ∈ symbols → forallb blank sp = true →
  closed (XSym w t) = true ∨ (∃ r, rest = 32 :: r) →
  next_token (lx pre (sp ++ w ++ rest) b) tk = Ok (true, set_type t tk, lx (pre ++ sp ++ w) rest b).
Proof.
  intros H Hsp Hr. destruct (symbol_cases w t H) as (c&w'&->&H1&H3&H4). cbn [app].
  rewrite next_token_char by done. cbv zeta. unfold symbols in H. rewrite !elem_of_cons in H.
  destruct_or! H; [..|set_solver]; injection H as -> -> ->; codes; cbn [Z.eqb Pos.eqb app]; rewrite ?app_assoc; try done;
    unfold read_op; (try (destruct Hr as [Hr|[r ->]]; [by vm_compute in Hr|])); rewrite next_char_lx; codes; cbn [Z.eqb Pos.eqb]; rewrite ?back_lx; by rewrite <- ?app_assoc.
Qed.
Lemma next_token_special u sp pre rest b tk : forallb blank sp = true →
  ∃ b', next_token (lx pre (sp ++ text (XPrimaryKey u) ++ 32 :: rest) b) tk =
    Ok (true, set_type TOKEN_PRIMARY_KEY tk, lx (pre ++ sp ++ text (XPrimaryKey u)) (32 :: rest) b').
Proof.
  intros Hsp. set (c := if u then code "P" else code "p"). set (w := if u then str "RIMARY" else str "rimary").
  set (k := if u then code "K" else code "k"). set (e := if u then str "EY" else str "ey").
  assert (text (XPrimaryKey u) = c :: w ++ 32 :: k :: e) as Htxt by by destruct u.
  assert (forallb is_word w = true) as Hw by by destruct u. assert (forallb is_word e = true) as He by by destruct u.
  rewrite Htxt. cbn [app]. rewrite next_token_word by (done || by destruct u). unfold read_id. rewrite get_char_lx. cbn [mbind res_bind].
  rewrite upd_buf_lx, <- (app_assoc w). rewrite (id_loop_run _ w) by (done || rewrite loop_fuel_lx, !length_app; lia).
  destruct (loop_fuel _ - length w)%nat as [|f] eqn:Ef; [rewrite loop_fuel_lx, !length_app in Ef; lia|].
  cbn [id_loop app]. rewrite next_char_lx. change (is_word 32) with false. change (32 =? code " ") with true. cbn match.
  unfold check_special_key_word_prefix. rewrite push_lx. cbn [buf_ lx].
  assert (c_string (((c :: w) ++ [0])) 0 = Ok (c :: w)) as -> by by destruct u. cbn [mbind res_bind].
  rewrite decide_True by (destruct u; vm_compute; set_solver).
  unfold is_special_key_word. rewrite loop_fuel_lx.
  pose proof (skip_spaces_lx (λ c, c =? code " ") (S (S (length ((((pre ++ sp) ++ [c]) ++ w) ++ [32%Z]) + length (k :: e ++ 32%Z :: rest))))
    [] ((((pre ++ sp) ++ [c]) ++ w) ++ [32]) k (e ++ 32 :: rest) (c :: w) eq_refl ltac:(by destruct u) ltac:(cbn [length]; lia)) as Hskip.
  cbn [app] in Hskip. rewrite Hskip. clear Hskip. rewrite !push_lx.
  rewrite read_word_run by (done || rewrite loop_fuel_lx, !length_app; lia). cbn [mbind res_bind]. rewrite push_lx. unfold is_key_word. cbn [buf_ lx].
  match goal with |- context [c_string ?x 0] => assert (c_string x 0 = Ok (c :: w ++ 32 :: k :: e)) as -> by by destruct u end.
  cbn [mbind res_bind]. assert (find_word key_words (c :: w ++ 32 :: k :: e) = Some TOKEN_PRIMARY_KEY) as -> by by destruct u.
  eexists. do 2 f_equal. refine (f_equal (λ p, lx p (32 :: rest) _) _). by rewrite <- !app_assoc.
Qed.

Lemma next_token_lexeme x tk sp pre rest b : wf x → forallb blank sp = true → closed x = true ∨ (∃ r, rest = code " " :: r) →
  ∃ b', next_token (lx pre (sp ++ text x ++ rest) b) tk = Ok (true, token_of x tk, lx (pre ++ sp ++ text x) rest b').
Proof.
  intros Hx Hsp Hr. rewrite (app_assoc pre). destruct x as [w t|u|w|ds|ip fp|s|w t]; cbn [wf token_of] in *; cbn [text].
  1-5: destruct Hr as [|[r ->]]; [done|]; change (code " ") with 32.
  - destruct Hx as [Hi Hk]. pose proof (key_not_prefix w t Hk Hi) as Hp. destruct w as [|c w]; [done|]. apply andb_prop in Hi as [Hc Hw].
    cbn [app]. eexists. rewrite next_token_word, read_id_lx by done. by rewrite (find_word_lookup (c :: w) t).
  - destruct (next_token_special u sp pre r b tk Hsp) as [b' H]. cbn [text] in H. exists b'. by rewrite H, app_assoc.
  - destruct Hx as (Hi&Hf&Hp). destruct w as [|c w]; [done|]. apply andb_prop in Hi as [Hc Hw].
    cbn [app]. eexists. rewrite next_token_word, read_id_lx by done. by rewrite Hf.
  - destruct Hx as (Hne&Hd&Hv). destruct ds as [|d ds]; [done|]. cbn [forallb app] in *. apply andb_prop in Hd as [Hd Hds].
    eexists. by rewrite next_token_digit, read_number_lx.
  - destruct Hx as (Hni&Hnf&Hd). destruct ip as [|d ip]; [done|]. destruct fp as [|f fp]; [done|]. rewrite forallb_app in Hd.
    apply andb_prop in Hd as [Hd Hf]. cbn [forallb] in Hd, Hf. apply andb_prop in Hd as [Hd Hds]. apply andb_prop in Hf as [Hf Hfs].
    change (code ".") with 46. rewrite <- app_assoc. cbn [app]. eexists. rewrite next_token_digit by done.
    by rewrite read_decimal_lx.
  - cbn [app]. rewrite <- (app_assoc (escape s) [34] rest). cbn [app]. eexists. rewrite next_token_char by done. cbv zeta. codes. cbn [Z.eqb Pos.eqb is_quote].
    change (is_quote 34) with true. cbn match. by rewrite read_string_lx.
  - eexists. rewrite (next_token_symbol w t) by done. by rewrite app_assoc.
Qed.
Lemma next_token_end pre sp b tk : forallb blank sp = true → next_token (lx pre sp b) tk = Ok (false, tk, lx (pre ++ sp) [] b).
Proof.
  intros Hsp. unfold next_token. change (λ c, (c =? code " ") || (c =? 10)) with blank.
  assert (∀ f, (length sp < f)%nat → skip_spaces f blank (lx pre sp b) = Ok (0, lx (pre ++ sp) [] b)) as H.
  { revert pre Hsp. induction sp as [|d sp IH]; intros pre Hsp [|f] Hf; cbn [length] in Hf; try lia; cbn [skip_spaces].
    - by rewrite next_char_end, app_nil_r.
    - cbn [forallb] in Hsp. apply andb_prop in Hsp as [Hd Hsp]. rewrite next_char_lx, Hd, IH by (done || lia). by rewrite <- app_assoc. }
  rewrite H by (rewrite loop_fuel_lx; lia). done.
Qed.
Lemma tokens_S f l tk : tokens (S f) l tk =
  let* (b, tk, l) := next_token l tk in
  if (b : bool) then let* (tks, l) := tokens f l tk in Ok (tk :: tks, l) else Ok ([], l).
Proof. done. Qed.
Lemma tokens_spaced xs : ∀ sp pre sql b tk, Forall wf xs → spaced xs sql → forallb blank sp = true →
  ∃ l', tokens (S (length xs)) (lx pre (sp ++ sql) b) tk = Ok (tokens_of xs tk, l').
Proof.
  induction xs as [|x xs IH]; intros sp pre sql b tk Hx Hs Hsp; cbn [length]; rewrite tokens_S; cbn [spaced] in Hs.
  - rewrite next_token_end by (by rewrite forallb_app, Hsp). by eexists.
  - apply Forall_cons in Hx as [Hx Hxs]. destruct Hs as (sp1&rest&Hsp1&->&Hr&Hs). rewrite (app_assoc sp).
    destruct (next_token_lexeme x tk (sp ++ sp1) pre rest b Hx) as [b' H]; [by rewrite forallb_app, Hsp|done|]. rewrite H.
    destruct (IH [] (pre ++ (sp ++ sp1) ++ text x) rest b' (token_of x tk) Hxs Hs eq_refl) as [l' H']. cbn [app] in H'. rewrite H'. by eexists.
Qed.

(** C31: scanning inverts writing: in any text made of key words, identifiers (other than
    [primary], the first word of a key word of two), integers from 0 to 2147483647, decimals
    with digits on both sides of their point, strings without NUL (with their quotes and
    backslashes escaped) and operators, with blanks and newlines anywhere between them and a
    blank right behind each word, number, [<] and [>], the loop of [sql_execute] gets
    exactly their tokens, in order and with their values, and then stops. The token of an
    integer right behind the key word [decimal] is of the type of that key word, as the code
    leaves it ([token_of]). *)
Theorem lex_roundtrip xs sql tk :
  Forall wf xs → spaced xs sql → ∃ l', tokens (S (length xs)) (Lex_new sql) tk = Ok (tokens_of xs tk, l').
Proof. intros Hx Hs. exact (tokens_spaced xs [] [] sql [] tk Hx Hs eq_refl). Qed.
Definition ex_sql : list lexeme :=
  [XKey (str "select") TOKEN_SELECT; XId (str "t_1"); XSym (str "<=") TOKEN_LE_EQ; XDec (str "3") (str "25");
   XStr (str "it's"); XSym (str ",") TOKEN_COMMA; XKey (str "decimal") TOKEN_DECIMAL; XNum (str "42"); XPrimaryKey false; XSym (str ";") TOKEN_SEMICOLON].
Lemma lex_roundtrip_witness :
  ∃ l', tokens 11 (Lex_new (str "select t_1  <=3.25 " ++ 34 :: str "it\'s" ++ 34 :: str ",decimal 42 " ++ 10 :: str " primary key ;")) (mkToken None TVNone) =
    Ok (tokens_of ex_sql (mkToken None TVNone), l').
Proof.
  apply (lex_roundtrip ex_sql).
  - repeat constructor; try done; try (vm_compute; congruence); try (apply (bool_decide_eq_true_1 _); vm_compute; reflexivity).
  - exists [], (str " t_1  <=3.25 " ++ 34 :: str "it\'s" ++ 34 :: str ",decimal 42 " ++ 10 :: str " primary key ;"). split_and!; [done|done|right; by eexists|].
    exists (str " "), (str "  <=3.25 " ++ 34 :: str "it\'s" ++ 34 :: str ",decimal 42 " ++ 10 :: str " primary key ;"). split_and!; [done|done|right; by eexists|].
    exists (str "  "), (str "3.25 " ++ 34 :: str "it\'s" ++ 34 :: str ",decimal 42 " ++ 10 :: str " primary key ;"). split_and!; [done|done|by left|].
    exists [], (str " " ++ 34 :: str "it\'s" ++ 34 :: str ",decimal 42 " ++ 10 :: str " primary key ;"). split_and!; [done|done|right; by eexists|].
    exists (str " "), (str ",decimal 42 " ++ 10 :: str " primary key ;"). split_and!; [done|done|by left|].
    exists [], (str "decimal 42 " ++ 10 :: str " primary key ;"). split_and!; [done|done|by left|].
    exists [], (str " 42 " ++ 10 :: str " primary key ;"). split_and!; [done|done|right; by eexists|].
    exists (str " "), (str " " ++ 10 :: str " primary key ;"). split_and!; [done|done|right; by eexists|].
    exists (32 :: 10 :: str " "), (str " ;"). split_and!; [done|done|right; by eexists|].
    exists (str " "), []. split_and!; [done|done|by left|done].
Defined.

(** ** Every text *)

Definition in_text (sql : bytes) (low : Z) l : Prop := sql_ l = sql ∧ low ≤ pos_ l < zlen sql ∨ sql_ l = sql ∧ pos_ l = low ∧ low = -1.
Definition left_ l : nat := Z.to_nat (zlen (sql_ l) - 1 - pos_ l).
Section Total.
Context (sql : bytes).
Notation inside := (in_text sql 0).
Notation around := (in_text sql (-1)).

Lemma around_inside l : inside l → around l.
Proof. unfold in_text. intuition lia. Qed.
Lemma inside_back l : inside l → around (back l).
Proof. unfold in_text, back. cbn [sql_ pos_]. intuition lia. Qed.
Lemma next_char_total l : around l →
  ∃ c l', next_char l = Ok (c, l') ∧ around l' ∧ (inside l → inside l') ∧ (c ≠ 0 → inside l' ∧ (left_ l' < left_ l)%nat) ∧ (left_ l' ≤ left_ l)%nat.
Proof.
  intros Hl. unfold next_char, char_at. assert (sql_ l = sql) as Hs by (unfold in_text in Hl; naive_solver).
  assert (-1 ≤ pos_ l) as Hp by (unfold in_text in Hl; lia). rewrite Hs. destruct (Z.leb_spec (zlen sql) (pos_ l + 1)).
  - eexists _, _. split; [done|]. split_and!; done.
  - rewrite (proj2 (Z.leb_le _ _)) by lia. destruct (lookup_lt_is_Some_2 sql (Z.to_nat (pos_ l + 1))) as [c Hc]; [unfold zlen in *; lia|].
    rewrite Hc. cbn [of_opt mbind res_bind]. eexists _, _. split; [done|]. unfold in_text, left_. cbn [sql_ pos_]. rewrite ?Hs.
    split_and!; intros; intuition lia.
Qed.
Lemma push_in c low l : in_text sql low (push c l) ↔ in_text sql low l.
Proof. done. Qed.
Lemma left_push c l : left_ (push c l) = left_ l.
Proof. done. Qed.
Lemma left_fuel l : around l → (left_ l < loop_fuel l)%nat.
Proof. unfold in_text, left_, loop_fuel, zlen. lia. Qed.
Lemma c_string_push b : ∃ w, c_string (b ++ [0]) 0 = Ok w.
Proof.
  unfold c_string. pose proof (zlen_nonneg (b ++ [0])). rewrite (proj2 (Z.leb_le 0 (zlen _))) by done. cbn [Z.leb andb].
  change (drop (Z.to_nat 0) (b ++ [0])) with (b ++ [0]). assert (∃ w, until_nul (b ++ [0]) = Some w) as [w ->]; [|by exists w].
  clear H. induction b as [|c b [w IH]]; [by exists []|]. cbn [app until_nul]. case_match; [by eexists|]. rewrite IH. by eexists.
Qed.

Lemma read_word_total f l : inside l → (left_ l < f)%nat → ∃ l', read_word f l = Ok l' ∧ around l'.
Proof.
  revert l. induction f as [|f IH]; intros l Hl Hf; [lia|]. cbn [read_word].
  destruct (next_char_total l (around_inside l Hl)) as (c&l1&->&_&H1&H2&_). destruct (is_word c) eqn:E.
  - destruct (H2 (is_word_nonzero c E)) as [H3 H4]. apply IH; [done|rewrite left_push; lia].
  - eexists. split; [done|]. by apply inside_back, H1.
Qed.
Lemma digit_loop_total f l : inside l → (left_ l < f)%nat → ∃ c l', digit_loop f l = Ok (c, l') ∧ inside l'.
Proof.
  revert l. induction f as [|f IH]; intros l Hl Hf; [lia|]. cbn [digit_loop].
  destruct (next_char_total l (around_inside l Hl)) as (c&l1&->&_&H1&H2&_). destruct (is_digit c) eqn:E; [|eauto].
  destruct (H2 (is_digit_nonzero c E)) as [H3 H4]. apply IH; [done|rewrite left_push; lia].
Qed.
Lemma skip_spaces_total (bl : Z → bool) f l : bl 0 = false → around l → (left_ l < f)%nat →
  ∃ c l', skip_spaces f bl l = Ok (c, l') ∧ around l' ∧ (inside l ∨ c ≠ 0 → inside l').
Proof.
  intros Hb. revert l. induction f as [|f IH]; intros l Hl Hf; [lia|]. cbn [skip_spaces].
  destruct (next_char_total l Hl) as (c&l1&->&H0&H1&H2&_). destruct (bl c) eqn:E.
  - destruct H2 as [H3 H4]; [congruence|]. destruct (IH l1 H0) as (d&l2&->&I1&I2); [lia|]. eexists _, _. split; [done|]. split; [done|]. eauto.
  - eexists _, _. split; [done|]. split; [done|]. intros [?|?]; [auto|]. by apply H2.
Qed.
Lemma is_key_word_total l tk : ∃ b tk', is_key_word (push 0 l) tk = Ok (b, tk').
Proof. unfold is_key_word. destruct (c_string_push (buf_ l)) as [w Hw]. cbn [push upd_buf buf_]. rewrite Hw. cbn [mbind res_bind]. case_match; eauto. Qed.
Lemma is_special_total l tk : inside l → ∃ b tk' l', is_special_key_word l tk = Ok (b, tk', l') ∧ around l'.
Proof.
  intros Hl. unfold is_special_key_word.
  destruct (skip_spaces_total (λ c, c =? code " ") (loop_fuel l) l eq_refl (around_inside _ Hl) (left_fuel _ (around_inside _ Hl))) as (c&l1&->&H1&H2).
  specialize (H2 (or_introl Hl)). destruct (read_word_total (loop_fuel l1) (push c (push (code " ") l1))) as (l2&->&H3).
  { done. } { rewrite !left_push. by apply left_fuel. }
  cbn [mbind res_bind]. destruct (is_key_word_total l2 tk) as (b&tk'&->). eauto.
Qed.
Lemma id_loop_total f l : inside l → (left_ l < f)%nat → ∃ b l', id_loop f l = Ok (b, l') ∧ around l' ∧ (b = true → inside l').
Proof.
  revert l. induction f as [|f IH]; intros l Hl Hf; [lia|]. cbn [id_loop].
  destruct (next_char_total l (around_inside l Hl)) as (c&l1&->&_&H1&H2&_). destruct (is_word c) eqn:E.
  { destruct (H2 (is_word_nonzero c E)) as [H3 H4]. apply IH; [done|rewrite left_push; lia]. }
  specialize (H1 Hl). destruct (c =? code " "); [|eexists _, _; split; [done|]; split; [by apply inside_back|done]].
  unfold check_special_key_word_prefix. destruct (c_string_push (buf_ l1)) as [w Hw]. cbn [push upd_buf buf_]. rewrite Hw. cbn [mbind res_bind].
  case_decide; (eexists _, _; split; [done|]; split; [|done]); [by apply around_inside|by apply (inside_back (push 0 l1))].
Qed.
Lemma string_loop_total f c l tk : inside l → (left_ l + 1 < f)%nat ∨ c = 0 ∧ (0 < f)%nat →
  ∃ b tk' l', string_loop f c l tk = Ok (b, tk', l') ∧ inside l'.
Proof.
  revert c l. induction f as [|f IH]; intros c l Hl Hf; [lia|]. cbn [string_loop].
  destruct (Z.eqb_spec c 0); [eauto|]. destruct (is_quote c); [eauto 6|].
  assert (∃ c1 l1, (if c =? 92 then next_char l else Ok (c, l)) = Ok (c1, l1) ∧ inside l1 ∧ (left_ l1 ≤ left_ l)%nat) as (c1&l1&->&H1&H2).
  { destruct (c =? 92); [|eauto]. destruct (next_char_total l (around_inside l Hl)) as (c1&l1&->&_&H1&_&H2). eauto 6. }
  destruct (next_char_total (push c1 l1) (around_inside l1 H1)) as (c2&l2&->&_&H3&H4&_). specialize (H3 H1). rewrite left_push in H4.
  apply IH; [done|]. destruct (decide (c2 = 0)); [right; split; [done|lia]|]. destruct H4 as [_ ?]; [done|]. lia.
Qed.

Definition scanned (r : res (bool * Token * Lex)) : Prop := (∃ b tk' l', r = Ok (b, tk', l') ∧ around l') ∨ r = Err SignedOverflow.
Lemma read_string_total l tk : inside l → scanned (read_string l tk).
Proof.
  intros Hl. left. unfold read_string. destruct (next_char_total (upd_buf [] l) (around_inside l Hl)) as (c&l1&->&_&H1&_).
  destruct (string_loop_total (loop_fuel l1) c l1 tk (H1 Hl)) as (b&tk'&l2&->&H2).
  { left. pose proof (H1 Hl) as H. unfold in_text, left_, loop_fuel, zlen in *. intuition lia. }
  eexists _, _, _. split; [done|]. by apply around_inside.
Qed.
Lemma read_id_total l tk c : inside l → get_char_ l = Ok c → scanned (read_id l tk).
Proof.
  intros Hl Hc. left. unfold read_id. rewrite Hc. cbn [mbind res_bind].
  destruct (id_loop_total (loop_fuel l) (upd_buf [c] l) Hl (left_fuel _ (around_inside _ Hl))) as (b&l1&->&H1&H2).
  destruct b; [by apply is_special_total, H2|]. destruct (is_key_word_total l1 tk) as (b&tk'&->). destruct b; eauto 6.
Qed.
Lemma read_number_total l tk c : inside l → get_char_ l = Ok c → scanned (read_number l tk).
Proof.
  intros Hl Hc. unfold read_number. rewrite Hc. cbn [mbind res_bind].
  destruct (digit_loop_total (loop_fuel l) (upd_buf [c] l) Hl (left_fuel _ (around_inside _ Hl))) as (d&l1&->&H1).
  destruct (d =? code ".").
  - left. assert (∃ e, peek_next l1 = Ok e) as [e ->].
    { unfold peek_next, char_at. case_match eqn:E; [eauto|]. apply Z.leb_gt in E. unfold in_text in H1.
      rewrite (proj2 (Z.leb_le _ _)) by lia. destruct (lookup_lt_is_Some_2 (sql_ l1) (Z.to_nat (pos_ l1 + 1))) as [e ->]; [unfold zlen in *; lia|]. by eexists. }
    cbn [mbind res_bind]. destruct (is_digit e); [|by eexists _, _, _; split; [done|apply around_inside]]. unfold read_decimal.
    destruct (digit_loop_total (loop_fuel (push (code ".") l1)) (push (code ".") l1)) as (d'&l2&->&H2); [done|by apply (left_fuel (push (code ".") l1)), around_inside|].
    destruct (c_string_push (buf_ (back l2))) as [w Hw]. cbn [push upd_buf buf_]. rewrite Hw. cbn [mbind res_bind].
    eexists _, _, _. split; [done|]. by apply inside_back.
  - destruct (c_string_push (buf_ (back l1))) as [w Hw]. cbn [push upd_buf buf_]. rewrite Hw. cbn [mbind res_bind]. unfold atof_int.
    destruct (in32b (digits_val w)); cbn [mbind res_bind]; [left|by right]. eexists _, _, _. split; [done|]. by apply inside_back.
Qed.
Lemma read_op_total two one l tk : inside l → scanned (read_op two one l tk).
Proof.
  intros Hl. left. unfold read_op. destruct (next_char_total l (around_inside l Hl)) as (c&l1&->&H0&H1&_). specialize (H1 Hl).
  case_match; (eexists _, _, _; split; [done|]); [done|by apply inside_back].
Qed.
Lemma next_token_total l tk : around l → scanned (next_token l tk).
Proof.
  intros Hl. unfold next_token.
  destruct (skip_spaces_total (λ c, (c =? code " ") || (c =? 10)) (loop_fuel l) l eq_refl Hl (left_fuel _ Hl)) as (c&l1&->&H1&H2).
  destruct (Z.eqb_spec c 0) as [->|Hc]; [by left; eauto 6|]. specialize (H2 (or_intror Hc)).
  assert (∃ d, get_char_ l1 = Ok d) as [d Hd].
  { unfold get_char_, char_at. unfold in_text in H2. rewrite (proj2 (Z.leb_le _ _)) by lia.
    destruct (lookup_lt_is_Some_2 (sql_ l1) (Z.to_nat (pos_ l1))) as [d ->]; [|by eexists]. destruct H2 as [[-> ?]|]; [unfold zlen in *; lia|lia]. }
  repeat case_match; try (left; by eauto 6); try by apply read_op_total.
  - by apply read_string_total.
  - by eapply read_id_total.
  - by eapply read_number_total.
Qed.
End Total.

(** the scanner on every text: from every position it can be in, [next_token]
    terminates, does not access the text or its buffer out of bounds, and leaves a
    position it can go on from, unless it meets an integer that 32 bits cannot hold. *)
Theorem next_token_safe sql pos b tk :
  -1 ≤ pos → pos = -1 ∨ pos < zlen sql →
  (∃ ok tk' l', next_token (mkLex sql pos b) tk = Ok (ok, tk', l') ∧ sql_ l' = sql ∧ -1 ≤ pos_ l' ∧ (pos_ l' = -1 ∨ pos_ l' < zlen sql)) ∨
  next_token (mkLex sql pos b) tk = Err SignedOverflow.
Proof.
  intros H1 H2. destruct (next_token_total sql (mkLex sql pos b) tk) as [(ok&tk'&l'&->&Hl)|H]; [|left|by right].
  - unfold in_text. cbn [sql_ pos_]. intuition lia.
  - eexists _, _, _. split; [done|]. unfold in_text in Hl. intuition lia.
Qed.
Lemma next_token_safe_witness :
  (∃ ok tk' l', next_token (mkLex (str "12345678901") (-1) []) (mkToken None TVNone) = Ok (ok, tk', l') ∧ sql_ l' = str "12345678901" ∧
    -1 ≤ pos_ l' ∧ (pos_ l' = -1 ∨ pos_ l' < zlen (str "12345678901"))) ∨
  next_token (mkLex (str "12345678901") (-1) []) (mkToken None TVNone) = Err SignedOverflow.
Proof. apply (next_token_safe (str "12345678901") (-1) [] (mkToken None TVNone)); [lia|by left]. Defined.

(** ** The end of the text *)

(** at the end [next_char] does not move on, but [back] goes back *)
Lemma read_id_end c w pre b tk : is_letter c = true → forallb is_word w = true →
  ∃ tk' b', read_id (lx (pre ++ [c]) w b) tk = Ok (true, tk', back (lx (pre ++ c :: w) [] b')).
Proof.
  intros Hc Hw. unfold read_id. rewrite get_char_lx. cbn [mbind res_bind]. rewrite upd_buf_lx.
  pose proof (id_loop_run (loop_fuel (lx (pre ++ [c]) w b)) w (pre ++ [c]) [] [c] Hw) as H. rewrite app_nil_r in H.
  rewrite H by (rewrite loop_fuel_lx, length_app; lia). clear H.
  destruct (loop_fuel _ - length w)%nat as [|f] eqn:Ef; [rewrite loop_fuel_lx, !length_app in Ef; lia|].
  cbn [id_loop]. rewrite next_char_end. change (is_word 0) with false. change (0 =? code " ") with false. cbn match.
  destruct (is_key_word_total (back (lx ((pre ++ [c]) ++ w) [] ([c] ++ w))) tk) as (k&tk'&->).
  assert (∀ b', push 0 (back (lx ((pre ++ [c]) ++ w) [] b')) = back (lx (pre ++ c :: w) [] (b' ++ [0]))) as E by (intros; by rewrite <- app_assoc).
  rewrite E. destruct k; eauto.
Qed.
Lemma read_number_end c pre b tk : is_digit c = true → ∃ tk' b', read_number (lx (pre ++ [c]) [] b) tk = Ok (true, tk', back (lx (pre ++ [c]) [] b')).
Proof.
  intros Hc. unfold read_number. rewrite get_char_lx. cbn [mbind res_bind]. rewrite upd_buf_lx, loop_fuel_lx.
  cbn [digit_loop]. rewrite next_char_end. change (is_digit 0) with false. change (0 =? code ".") with false. cbn match.
  cbn [push upd_buf buf_ back lx]. pose proof (is_digit_bounds c Hc). change (([c] ++ [0])) with ([c] ++ 0 :: []).
  rewrite c_string_app by (constructor; [lia|constructor]). cbn [mbind res_bind]. unfold atof_int. unfold digits_val at 1.
  cbn [foldl]. rewrite (proj2 (in32b_spec _)) by (unfold in32, INT32_MIN, INT32_MAX; codes; lia). cbn [mbind res_bind].
  eexists _, _. done.
Qed.
(** the last character of a word is scanned again *)
Lemma next_token_last c s b tk : is_word c = true → ∃ tk' b', next_token (lx s [c] b) tk = Ok (true, tk', lx s [c] b').
Proof.
  intros Hc. unfold is_word in Hc. destruct (is_letter c) eqn:El.
  - pose proof (next_token_word [] s [] b tk eq_refl c El) as Hn. cbn [app] in Hn. rewrite Hn, app_nil_r. destruct (read_id_end c [] s b tk El eq_refl) as (tk'&b'&H).
    exists tk', b'. by rewrite H, back_lx.
  - pose proof (next_token_digit [] s [] b tk eq_refl c Hc) as Hn. cbn [app] in Hn. rewrite Hn, app_nil_r. destruct (read_number_end c s b tk Hc) as (tk'&b'&H).
    exists tk', b'. by rewrite H, back_lx.
Qed.
Lemma tokens_last n c s : ∀ b tk, is_word c = true → tokens n (lx s [c] b) tk = Err OutOfFuel.
Proof.
  induction n as [|n IH]; intros b tk Hc; [done|]. rewrite tokens_S. destruct (next_token_last c s b tk Hc) as (tk'&b'&->). by rewrite IH.
Qed.
Lemma tokens_ident n sp w pre b tk : forallb blank sp = true → is_ident w = true → tokens n (lx pre (sp ++ w) b) tk = Err OutOfFuel.
Proof.
  intros Hsp Hw. destruct w as [|c w]; [done|]. apply andb_prop in Hw as [Hc Hw]. destruct n as [|n]; [done|]. rewrite tokens_S.
  rewrite next_token_word by done. destruct (read_id_end c w (pre ++ sp) b tk Hc Hw) as (tk'&b'&->).
  assert (∃ i z, c :: w = i ++ [z] ∧ is_word z = true) as (i&z&E&Hz).
  { destruct (exists_last (l := c :: w)) as (i&z&E); [done|]. exists i, z. split; [done|].
    assert (forallb is_word (c :: w) = true) as Hall by (cbn [forallb]; unfold is_word at 1; by rewrite Hc).
    rewrite E, forallb_app in Hall. apply andb_prop in Hall as [_ Hz]. cbn [forallb] in Hz. by rewrite andb_true_r in Hz. }
  rewrite E, app_assoc, back_lx. by rewrite tokens_last.
Qed.
Lemma tokens_ident_seq xs w : ∀ n sp pre b tk, Forall wf xs → forallb blank sp = true → is_ident w = true →
  tokens n (lx pre (sp ++ print xs ++ w) b) tk = Err OutOfFuel.
Proof.
  induction xs as [|x xs IH]; intros n sp pre b tk Hx Hsp Hw; [by apply tokens_ident|].
  destruct n as [|n]; [done|]. rewrite tokens_S. apply Forall_cons in Hx as [Hx Hxs].
  change (print (x :: xs)) with ((text x ++ [32]) ++ print xs). rewrite <- !app_assoc. change ([32] ++ print xs ++ w) with (32 :: print xs ++ w).
  destruct (next_token_lexeme x tk sp pre (32 :: print xs ++ w) b Hx Hsp) as [b' ->]; [right; by eexists|].
  pose proof (IH n [32] (pre ++ sp ++ text x) b' (token_of x tk) Hxs eq_refl Hw) as H. cbn [app] in H. by rewrite H.
Qed.

(** C38: a text that ends with an identifier or key word is scanned for ever: at the end
    [next_char] does not advance while [back] steps back, so the last character is
    delivered again and again and no number of calls reaches the end of the tokens. *)
Theorem last_word_repeats xs w tk n :
  Forall wf xs → is_ident w = true → tokens n (Lex_new (print xs ++ w)) tk = Err OutOfFuel.
Proof. intros Hx Hw. exact (tokens_ident_seq xs w n [] [] [] tk Hx eq_refl Hw). Qed.
Lemma last_word_repeats_witness : tokens 1000 (Lex_new (str "select a")) (mkToken None TVNone) = Err OutOfFuel.
Proof.
  apply (last_word_repeats [XKey (str "select") TOKEN_SELECT] (str "a")); [|reflexivity].
  constructor; [|constructor]. split; [reflexivity|]. apply (bool_decide_eq_true_1 _). vm_compute. reflexivity.
Defined.
