(* ===== verification/Ast.v ===== *)
(** The syntax tree of SQL statements ([src/include/ast/node.h], [ddl.h], [dml.h] and
    [src/ast/dml.cpp]): nodes with children, the constructors the grammar calls, and the
    methods that read a tree, which cast a child to the class they expect and assert that
    the cast succeeds. *)
From S2P Require Import Prelude Config Values Schema.

(** ** Nodes *)

Inductive CreateDefNodeType := kColumn | kPrimaryKey.
Inductive SimpleExprType := kLiteral | kIdentifier.
Inductive BitExprType := kPlus | kMinus | kMultiply | kDivide | kSimpleExpr.
Inductive ComparisonOprType := kEqual | kGreater | kLess | kGreaterEq | kLessEq | kNotEqual.
Inductive ExprType := kOR | kAND | kNOT | kBooleanPrimary.
Inductive TableRefType := kTableFactor | kJoinTable.
Inductive SelectExprType := kColName | kStar.
(** the type tag of a literal with its member of the union; a string has its buffer and
    its length *)
Inductive literal := LInt (z : Z) | LBool (b : bool) | LDec (d : Z) | LStr (s : bytes) (len : Z).

(** the class of a node with its own fields; [comparison_] is not initialised by the
    constructor *)
Inductive node_class :=
  | IdentifierNode (id : bytes)
  | DataTypeNode (type : TypeId) (char_len : Z)
  | StmtListNode (err : bool)
  | EmptyStmt
  | ColumnDefNode
  | CreateDefNode (type : CreateDefNodeType)
  | CreateDefListNode
  | CreateNode
  | DropNode
  | LiteralNode (l : literal)
  | ValueNode
  | ValueListNode
  | InsertNode
  | SimpleExprNode (type : SimpleExprType)
  | BitExprNode (type : BitExprType)
  | PredicateNode
  | ComparisonOprNode (type : ComparisonOprType)
  | BooleanPrimaryNode (recursive : bool) (comparison : option bool)
  | ExprNode (type : ExprType)
  | TableFactorNode
  | TableRefNode (type : TableRefType)
  | TableRefsNode
  | SelectExprNode (type : SelectExprType)
  | SelectExprListNode (is_star : bool)
  | DeleteNode.
(** a statement [SELECT] points to its parts instead of having them as children *)
Inductive node :=
  | Node (c : node_class) (children : list node)
  | SelectNode (select_expr_list tb_refs where_cond : option node).
Implicit Types (n : node).

Definition get_children n : list node := match n with Node _ l => l | SelectNode _ _ _ => [] end.
Definition add_child n (child : node) : node := match n with Node c l => Node c (l ++ [child]) | SelectNode _ _ _ => n end.
Definition at_ n (idx : nat) : res node := of_opt OutOfBounds (get_children n !! idx).
Definition get_child_num n : nat := length (get_children n).
(** [dynamic_cast] to a class, with the assertion behind it *)
Definition cast {A} (f : node_class → option A) n : res A :=
  match n with Node c _ => of_opt ExitCalled (f c) | SelectNode _ _ _ => Err ExitCalled end.
Definition as_identifier (c : node_class) : option bytes := match c with IdentifierNode id => Some id | _ => None end.
Definition identifier_at n (idx : nat) : res bytes := child ← at_ n idx; cast as_identifier child.

(** ** Definition of tables *)

Definition get_data_type_node n : res (TypeId * Z) :=
  child ← at_ n 0; cast (λ c, match c with DataTypeNode t len => Some (t, len) | _ => None end) child.
Definition column_data_type n : res TypeId := p ← get_data_type_node n; Ok p.1.
Definition column_char_len n : res Z := p ← get_data_type_node n; Ok (if decide (p.1 = kChar) then p.2 else -1).
Definition column_def_at n (idx : nat) : res node :=
  child ← at_ n idx; _ ← cast (λ c, match c with ColumnDefNode => Some tt | _ => None end) child; Ok child.
Definition def_col_name n : res bytes := identifier_at n 0.
Definition def_col_type n : res TypeId := c ← column_def_at n 1; column_data_type c.
Definition def_char_len n : res Z := c ← column_def_at n 1; column_char_len c.

(** the fields of a [CreateDefListNode] that are filled in when they are needed *)
Record def_cache := mkCache { initialized_ : bool; primary_key_ : bytes; col_names_ : list bytes; col_types_ : list TypeId; char_lens_ : list Z }.
Definition cache0 : def_cache := mkCache false [] [] [] [].
Fixpoint collect (l : list node) (c : def_cache) : res def_cache :=
  match l with
  | [] => Ok c
  | child :: l =>
      type ← cast (λ c, match c with CreateDefNode t => Some t | _ => None end) child;
      match type with
      | kPrimaryKey => collect l c
      | kColumn =>
          name ← def_col_name child;
          t ← def_col_type child;
          lens ← (if decide (t = kChar) then len ← def_char_len child; Ok (char_lens_ c ++ [len]) else Ok (char_lens_ c));
          collect l (mkCache true (primary_key_ c) (col_names_ c ++ [name]) (col_types_ c ++ [t]) lens)
      end
  end.
Definition initialize n (c : def_cache) : res def_cache :=
  if initialized_ c then Ok c
  else collect (get_children n) (mkCache true (primary_key_ c) (col_names_ c) (col_types_ c) (char_lens_ c)).

(** a statement [CREATE TABLE]; what the list has collected so far is passed along *)
Definition create_tb_name n : res bytes := identifier_at n 0.
Definition get_create_def_list n : res node :=
  child ← at_ n 1; _ ← cast (λ c, match c with CreateDefListNode => Some tt | _ => None end) child; Ok child.
Definition create_get {A} (f : def_cache → A) n (c : def_cache) : res (A * def_cache) :=
  l ← get_create_def_list n; c ← initialize l c; Ok (f c, c).
Definition get_col_name := create_get col_names_.
Definition get_col_type := create_get col_types_.
Definition get_char_len := create_get char_lens_.
Definition get_primary_key := create_get primary_key_.
Definition drop_tb_name n : res bytes := identifier_at n 0.

(** ** Values to insert *)

Definition literal_value (l : literal) : res Value :=
  match l with
  | LInt z => Ok (Value_int z)
  | LDec d => Ok (Value_dec d)
  | LBool b => Ok (Value_bool b)
  | LStr s len => construct_char s len
  end.
Definition value_of n : res Value :=
  child ← at_ n 0; l ← cast (λ c, match c with LiteralNode l => Some l | _ => None end) child; literal_value l.
Fixpoint values_of (l : list node) : res (list Value) :=
  match l with
  | [] => Ok []
  | child :: l =>
      _ ← cast (λ c, match c with ValueNode => Some tt | _ => None end) child;
      v ← value_of child; vs ← values_of l; Ok (v :: vs)
  end.
Definition insert_tb_name n : res bytes := identifier_at n 0.
Definition get_values n : res (list Value) :=
  child ← at_ n 1; _ ← cast (λ c, match c with ValueListNode => Some tt | _ => None end) child;
  values_of (get_children child).

(** ** Conditions *)

Definition as_class (f : node_class → bool) n : res unit := cast (λ c, if f c then Some tt else None) n.
Implicit Types (c : node_class).
Definition child_as (f : node_class → bool) n (idx : nat) : res node := child ← at_ n idx; _ ← as_class f child; Ok child.
Definition is_bit c := match c with BitExprNode _ => true | _ => false end.
Definition is_predicate c := match c with PredicateNode => true | _ => false end.
Definition is_boolean c := match c with BooleanPrimaryNode _ _ => true | _ => false end.
Definition is_comparison c := match c with ComparisonOprNode _ => true | _ => false end.
Definition is_expr c := match c with ExprNode _ => true | _ => false end.

(** [SimpleExprNode::get_child] *)
Definition simple_child n : res node := at_ n 0.
Definition get_the_first_bit n : res node := child_as is_bit n 0.
Definition boolean_fields n : res (bool * option bool) := cast (λ c, match c with BooleanPrimaryNode r k => Some (r, k) | _ => None end) n.
Definition set_recursive n (recursive : bool) : node :=
  match n with Node (BooleanPrimaryNode _ k) l => Node (BooleanPrimaryNode recursive k) l | _ => n end.
Definition set_comparison_opr n (comparison : bool) : node :=
  match n with Node (BooleanPrimaryNode r _) l => Node (BooleanPrimaryNode r (Some comparison)) l | _ => n end.
Definition is_recursive n : res bool := p ← boolean_fields n; Ok p.1.
Definition get_predicate n : res node := p ← boolean_fields n; child_as is_predicate n (if (p.1 : bool) then 2 else 0)%nat.
Definition get_boolean_primary n : res (option node) :=
  p ← boolean_fields n; if (p.1 : bool) then child ← child_as is_boolean n 0; Ok (Some child) else Ok None.
Definition get_comparison_opr n : res (option node) :=
  p ← boolean_fields n; comparison ← of_opt UninitRead p.2;
  if (comparison : bool) then child ← child_as is_comparison n 1; Ok (Some child) else Ok None.
Definition expr_type n : res ExprType := cast (λ c, match c with ExprNode t => Some t | _ => None end) n.
Definition expr_boolean_primary n : res (option node) :=
  t ← expr_type n;
  match t with kBooleanPrimary => child ← child_as is_boolean n 0; Ok (Some child) | _ => Ok None end.
Definition get_expr n (idx : nat) : res node := child_as is_expr n idx.
Definition get_exprs n : res (list node) :=
  t ← expr_type n;
  match t with
  | kBooleanPrimary => Ok []
  | kNOT => e ← get_expr n 1; Ok [e]
  | kOR | kAND => a ← get_expr n 0; b ← get_expr n 1; Ok [a; b]
  end.

(** ** Tables and columns to select *)

Definition factor_tb_name n : res bytes := identifier_at n 0.
Definition ref_tb_name n : res (list bytes) :=
  t ← cast (λ c, match c with TableRefNode t => Some t | _ => None end) n;
  match t with
  | kTableFactor => child ← child_as (λ c, match c with TableFactorNode => true | _ => false end) n 0; name ← factor_tb_name child; Ok [name]
  | kJoinTable => Ok []
  end.
Fixpoint map_nodes {A} (f : node → res A) (l : list node) : res (list A) :=
  match l with [] => Ok [] | x :: l => a ← f x; k ← map_nodes f l; Ok (a :: k) end.
Definition get_table_reference_nodes n : res (list node) :=
  map_nodes (λ child, _ ← as_class (λ c, match c with TableRefNode _ => true | _ => false end) child; Ok child) (get_children n).
Definition get_tb_name n : res (list bytes) := refs ← get_table_reference_nodes n; names ← map_nodes ref_tb_name refs; Ok (concat names).
Definition select_expr_type n : res SelectExprType := cast (λ c, match c with SelectExprNode t => Some t | _ => None end) n.
Definition select_col_name n : res bytes :=
  t ← select_expr_type n; match t with kColName => identifier_at n 0 | kStar => Ok [] end.
Definition is_star n : res bool := cast (λ c, match c with SelectExprListNode s => Some s | _ => None end) n.
Definition set_star n (star : bool) : node := match n with Node (SelectExprListNode _) l => Node (SelectExprListNode star) l | _ => n end.
Fixpoint select_names (l : list node) : res (list bytes) :=
  match l with
  | [] => Ok []
  | child :: l =>
      t ← select_expr_type child;
      match t with
      | kColName => name ← select_col_name child; k ← select_names l; Ok (name :: k)
      | kStar => select_names l
      end
  end.
Definition get_col_names n : res (list bytes) := star ← is_star n; if (star : bool) then Ok [] else select_names (get_children n).
Definition check_projection_need n : res bool := star ← is_star n; Ok (negb star).
Definition build_exprs n (input_schema : Schema) : res (list Z) :=
  names ← (get_col_names n : res (list bytes)); Ok ((get_column_idx input_schema) <$> (names : list bytes)).

(** ** Trees as the grammar builds them *)

(** a column with its type, and the length of a string type; or a primary key *)
Inductive def_spec := DColumn (name : bytes) (type : TypeId) (len : Z) | DKey (name : bytes).
Definition ident (name : bytes) : node := Node (IdentifierNode name) [].
Definition ColumnDefNode_new (data_type : node) : node := Node ColumnDefNode [data_type].
Definition CreateDefNode_column (col_name col_type : node) : node := Node (CreateDefNode kColumn) [col_name; col_type].
Definition CreateDefNode_key (primary_key : node) : node := Node (CreateDefNode kPrimaryKey) [primary_key].
Definition CreateNode_new (id_node create_def_list : node) : node := Node CreateNode [id_node; create_def_list].
Definition DropNode_new (id_node : node) : node := Node DropNode [id_node].
Definition ValueNode_new (n : node) : node := Node ValueNode [n].
Definition InsertNode_new (tb_name value_list : node) : node := Node InsertNode [tb_name; value_list].

Definition def_node (d : def_spec) : node :=
  match d with
  | DColumn name type len => CreateDefNode_column (ident name) (ColumnDefNode_new (Node (DataTypeNode type len) []))
  | DKey name => CreateDefNode_key (ident name)
  end.
(** [A = new CreateDefListNode(); A->add_child(B)] and then [B->add_child(C)] for each further one *)
Definition list_node (c : node_class) (l : list node) : node := foldl add_child (Node c []) l.
Definition create_tree (name : bytes) (defs : list def_spec) : node := CreateNode_new (ident name) (list_node CreateDefListNode (def_node <$> defs)).
Definition insert_tree (name : bytes) (values : list literal) : node :=
  InsertNode_new (ident name) (list_node ValueListNode ((λ l, ValueNode_new (Node (LiteralNode l) [])) <$> values)).

Definition columns_of (defs : list def_spec) : list (bytes * TypeId * Z) :=
  omap (λ d, match d with DColumn name type len => Some (name, type, len) | DKey _ => None end) defs.
Definition names_of (defs : list def_spec) : list bytes := (λ p, p.1.1) <$> columns_of defs.
Definition types_of (defs : list def_spec) : list TypeId := (λ p, p.1.2) <$> columns_of defs.
Definition lens_of (defs : list def_spec) : list Z := snd <$> filter (λ p, p.1.2 = kChar) (columns_of defs).

Lemma list_node_children c l k : foldl add_child (Node c k) l = Node c (k ++ l).
Proof. revert k. induction l as [|x l IH]; intros k; [by rewrite app_nil_r|]. cbn [foldl add_child]. by rewrite IH, <- app_assoc. Qed.
Lemma lens_of_cons name type len defs :
  lens_of (DColumn name type len :: defs) = (if decide (type = kChar) then [len] else []) ++ lens_of defs.
Proof.
  unfold lens_of. change (columns_of (DColumn name type len :: defs)) with ((name, type, len) :: columns_of defs). rewrite filter_cons. cbn [fst snd].
  by destruct (decide (type = kChar)).
Qed.
Lemma collect_ok defs (c : def_cache) :
  initialized_ c = true →
  collect (def_node <$> defs) c =
  Ok (mkCache true (primary_key_ c) (col_names_ c ++ names_of defs) (col_types_ c ++ types_of defs) (char_lens_ c ++ lens_of defs)).
Proof.
  revert c. induction defs as [|[name type len|name] defs IH]; intros c Hc.
  - destruct c. cbn in Hc. subst. cbn. by rewrite !app_nil_r.
  - change (def_node <$> DColumn name type len :: defs) with (def_node (DColumn name type len) :: (def_node <$> defs)). cbn [collect]. rewrite lens_of_cons.
    change (names_of (DColumn name type len :: defs)) with (name :: names_of defs). change (types_of (DColumn name type len :: defs)) with (type :: types_of defs).
    change (def_col_name (def_node (DColumn name type len))) with (Ok name : res bytes). change (def_col_type (def_node (DColumn name type len))) with (Ok type : res TypeId).
    change (def_char_len (def_node (DColumn name type len))) with (Ok (if decide (type = kChar) then len else -1) : res Z).
    cbn [def_node CreateDefNode_column cast of_opt mbind res_bind].
    destruct (decide (type = kChar)); cbn [mbind res_bind]; rewrite IH by done; cbn [initialized_ primary_key_ col_names_ col_types_ char_lens_]; by rewrite <- !app_assoc.
  - by apply IH.
Qed.

(** what is collected for the columns of a statement *)
Definition full_cache (defs : list def_spec) : def_cache := mkCache true [] (names_of defs) (types_of defs) (lens_of defs).
Lemma def_list_ok defs (c : def_cache) : c = cache0 ∨ c = full_cache defs → initialize (list_node CreateDefListNode (def_node <$> defs)) c = Ok (full_cache defs).
Proof.
  intros [->| ->]; [|done]. unfold initialize, list_node. cbn [initialized_ cache0]. rewrite list_node_children. cbn [get_children app].
  by rewrite collect_ok.
Qed.
Lemma create_get_ok {A} (f : def_cache → A) name defs (c : def_cache) :
  c = cache0 ∨ c = full_cache defs → create_get f (create_tree name defs) c = Ok (f (full_cache defs), full_cache defs).
Proof.
  intros Hc. unfold create_get, get_create_def_list, create_tree, CreateNode_new. cbn [at_ get_children of_opt mbind res_bind lookup list_lookup].
  pose proof (def_list_ok defs c Hc) as Hi. unfold list_node in *. rewrite list_node_children in *. cbn [cast of_opt mbind res_bind]. rewrite Hi. done.
Qed.

(** ** What is read of a tree *)

(** the trees of conditions, as the grammar builds them *)
Definition expr_tree (t : ExprType) (l : list node) : node := list_node (ExprNode t) l.
Definition predicate_tree (bit : node) : node := add_child (Node PredicateNode []) bit.
Definition BooleanPrimaryNode_new : node := Node (BooleanPrimaryNode false None) [].
Definition comparison_tree (a opr p : node) : node :=
  foldl add_child (set_comparison_opr (set_recursive BooleanPrimaryNode_new true) true) [a; opr; p].
Definition boolean_tree (p : node) : node := add_child BooleanPrimaryNode_new p.

(** the statements of the grammar are read back as they were written: the name of the
    table, the columns in their order with their types and the lengths of the strings,
    however often they are asked for, and the values in their order. A primary key is
    never recorded. *)
Theorem statements_roundtrip name defs lits values (c : def_cache) :
  c = cache0 ∨ c = full_cache defs → Forall2 (λ l v, literal_value l = Ok v) lits values →
  create_tb_name (create_tree name defs) = Ok name ∧ get_col_name (create_tree name defs) c = Ok (names_of defs, full_cache defs) ∧
  get_col_type (create_tree name defs) c = Ok (types_of defs, full_cache defs) ∧ get_char_len (create_tree name defs) c = Ok (lens_of defs, full_cache defs) ∧
  get_primary_key (create_tree name defs) c = Ok ([], full_cache defs) ∧ drop_tb_name (DropNode_new (ident name)) = Ok name ∧
  insert_tb_name (insert_tree name lits) = Ok name ∧ get_values (insert_tree name lits) = Ok values.
Proof.
  intros Hc Hv. split_and!; try done; try (by apply create_get_ok).
  unfold get_values, insert_tree, InsertNode_new, list_node. rewrite list_node_children. cbn [at_ get_children of_opt mbind res_bind lookup list_lookup cast app].
  induction Hv as [|l v lits values Hl _ IH]; [done|]. rewrite fmap_cons. cbn [values_of]. rewrite IH.
  change (value_of (ValueNode_new (Node (LiteralNode l) []))) with (literal_value l). by rewrite Hl.
Qed.
(** the parts of a condition are found where the grammar puts them *)
Theorem conditions_read (t : ExprType) (a b p opr : node) : as_class is_expr a = Ok tt → as_class is_expr b = Ok tt → as_class is_predicate p = Ok tt →
  as_class is_comparison opr = Ok tt →
  (t = kAND ∨ t = kOR → get_exprs (expr_tree t [a; b]) = Ok [a; b]) ∧
  expr_boolean_primary (expr_tree kBooleanPrimary [boolean_tree p]) = Ok (Some (boolean_tree p)) ∧
  get_predicate (boolean_tree p) = Ok p ∧ get_boolean_primary (boolean_tree p) = Ok None ∧
  get_boolean_primary (comparison_tree (boolean_tree p) opr p) = Ok (Some (boolean_tree p)) ∧
  get_comparison_opr (comparison_tree (boolean_tree p) opr p) = Ok (Some opr) ∧ get_predicate (comparison_tree (boolean_tree p) opr p) = Ok p.
Proof.
  intros Ha Hb Hp Ho. unfold get_exprs, get_expr, expr_boolean_primary, get_boolean_primary, get_comparison_opr, get_predicate, child_as, boolean_tree, comparison_tree, expr_tree, list_node.
  cbn. rewrite Ha, Hb, Hp, Ho. split_and!; try done. by intros [->| ->].
Qed.
(** the operand of NOT is the only child, but the second one is read *)
Theorem not_operand_missed (a : node) : get_exprs (expr_tree kNOT [a]) = Err OutOfBounds.
Proof. done. Qed.
(** whether a condition without a comparison has an operator depends on a field that was never set *)
Theorem comparison_flag_unset (p : node) : get_comparison_opr (boolean_tree p) = Err UninitRead.
Proof. done. Qed.
