(* ===== verification/SqlExec.v ===== *)
(** Executing statements ([src/sql/sql_parse.cpp], [src/include/server/message.h]): the
    response to a client, the statements that create and drop a table and insert a row,
    and the loop that feeds the tokens to the parser and runs what it has built. The
    parser is generated at build time: it is an argument. The catalog and the pool behind
    [db_manager] are passed along. *)
From S2P Require Import Prelude Config Replacer ClockReplacer Page FileSys DiskManager BufferPool Values TablePage Schema LinkHash Table Catalog Lexer Ast.

(** ** The response *)

Inductive MsgType := Unparsed | SqlInsert | SqlSelect | SqlCreateTb | SqlDropTb | SqlDelete.
Record ResponseMsg := mkResponse { rm_type : MsgType; rm_prefix : bytes; rm_msg : bytes; rm_success : bool }.
Implicit Types (r : ResponseMsg).
(** a type without a text of its own keeps the prefix that is there *)
Definition set_prefix r : ResponseMsg :=
  let prefix :=
    match rm_type r with
    | SqlDelete => str "Delete"
    | SqlInsert => str "Insert"
    | SqlCreateTb => str "Create Table"
    | SqlDropTb => str "Drop Table"
    | Unparsed => str "Sql is invalid."
    | SqlSelect => rm_prefix r
    end in
  mkResponse (rm_type r) prefix (rm_msg r) (rm_success r).
Definition ResponseMsg_new (type : MsgType) : ResponseMsg := set_prefix (mkResponse type [] [] false).
Definition resp_set_type (type : MsgType) r : ResponseMsg := set_prefix (mkResponse type (rm_prefix r) (rm_msg r) (rm_success r)).
Definition append_msg (msg : bytes) r : ResponseMsg := mkResponse (rm_type r) (rm_prefix r) (rm_msg r ++ msg) (rm_success r).
Definition set_status (success : bool) r : ResponseMsg :=
  mkResponse (rm_type r) (rm_prefix r ++ (if success then str " OK." else str " FAIL.")) (rm_msg r) success.
Definition get_response_msg r : bytes := rm_prefix r ++ rm_msg r.

Section SqlExec.
Context {R : Type} `{RA : ReplacerAbstract R}.
(** the hash of keys, and what new arrays hold before they are written *)
Context (do_hash : bytes → Z) (heap : bytes) (stack : Z → bytes).
(** the generated parser: its state, [dawn_parseAlloc] and [dawn_parse] with the type of
    the token ([None] is 0, the end of the input), the token and the root of the tree *)
Context {P : Type} (dawn_parseAlloc : P) (dawn_parse : P → option token_type → Token → Ast.node → res (P * Ast.node)).
Notation BPM := (BufferPoolManager R).
Implicit Types (b : BPM) (ct : CatalogTable) (n : Ast.node).

(** ** Statements *)

Definition sql_create_table n ct b : res (bool * CatalogTable * BPM) :=
  tb_name ← create_tb_name n;
  if negb (get_table_id tb_name ct =? -1) then Ok (false, ct, b)
  else
    let* (col_types, c) := get_col_type n cache0 in
    let* (col_names, c) := get_col_name n c in
    let* (char_len, _) := get_char_len n c in
    schema ← create_table_schema col_types col_names char_len;
    schema ← of_opt NullDeref schema;
    let* (ok, ct, b) := create_table tb_name schema ct b in
    if (ok : bool) then Ok (true, ct, b) else Err ExitCalled.

Definition sql_drop_table n ct b : res (bool * CatalogTable * BPM) :=
  tb_name ← drop_tb_name n;
  delete_table tb_name ct b.

Definition insert_data n ct b : res (bool * CatalogTable * BPM) :=
  tb_name ← insert_tb_name n;
  let* (table_meta, ct, b) := get_table_meta_data_name tb_name ct b in
  match table_meta with
  | None => Ok (false, ct, b)
  | Some tm =>
      values ← get_values n;
      tuple ← Tuple_init heap stack RID_default values (tm_schema tm);
      let* (ok, _, b) := Table_insert_tuple do_hash (tm_table tm) tuple (tm_schema tm) b in
      Ok (ok, ct, b)
  end.

(** the body of the loop over the statements; what is neither a creation, a removal nor an
    insertion ends in [assert(0)] *)
Definition execute_stmt n r (success : bool) ct b : res (ResponseMsg * bool * CatalogTable * BPM) :=
  match n with
  | Node EmptyStmt _ => Ok (r, success, ct, b)
  | Node CreateNode _ => let* (success, ct, b) := sql_create_table n ct b in Ok (resp_set_type SqlCreateTb r, success, ct, b)
  | Node DropNode _ => let* (success, ct, b) := sql_drop_table n ct b in Ok (resp_set_type SqlDropTb r, success, ct, b)
  | Node InsertNode _ => let* (success, ct, b) := insert_data n ct b in Ok (resp_set_type SqlInsert r, success, ct, b)
  | _ => Err ExitCalled
  end.
Fixpoint execute_stmts (l : list Ast.node) r (success : bool) ct b : res (ResponseMsg * bool * CatalogTable * BPM) :=
  match l with
  | [] => Ok (r, success, ct, b)
  | n :: l => let* (r, success, ct, b) := execute_stmt n r success ct b in execute_stmts l r success ct b
  end.

(** ** A text of statements *)

(** [while (lex.next_token(&tk)) dawn_parse(...)] *)
Fixpoint parse_tokens (fuel : nat) (lex : Lex) (tk : Token) (p : P) (root : Ast.node) : res (Token * P * Ast.node) :=
  match fuel with
  | O => Err OutOfFuel
  | S fuel =>
      let* (more, tk, lex) := next_token lex tk in
      if negb more then Ok (tk, p, root)
      else
        type ← of_opt UninitRead (type_ tk);
        let* (p, root) := dawn_parse p (Some type) tk root in
        parse_tokens fuel lex tk p root
  end.
Definition is_error n : res bool := cast (λ c, match c with StmtListNode err => Some err | _ => None end) n.
Definition StmtListNode_new : Ast.node := Node (StmtListNode false) [].

Definition sql_execute (fuel : nat) (lex : Lex) ct b : res (ResponseMsg * CatalogTable * BPM) :=
  let r := ResponseMsg_new Unparsed in
  let* (tk, p, root) := parse_tokens fuel lex (mkToken None TVNone) dawn_parseAlloc StmtListNode_new in
  let* (_, root) := dawn_parse p None tk root in
  err ← is_error root;
  if (err : bool) then Ok (r, ct, b)
  else
    let* (r, success, ct, b) := execute_stmts (get_children root) r false ct b in
    Ok (set_status success r, ct, b).
End SqlExec.
