(* ===== verification/SqlSpec.v ===== *)
(** Statements on a database: a text that creates a table and inserts a row leaves a
    table in the catalog that has the columns of the statement and holds the row. *)
From S2P Require Import Prelude Config Replacer ClockReplacer Page FileSys DiskManager BufferPool PoolSpec Values TablePage TablePageSpec Schema PoolClient LinkHash LinkHashSpec Table TableSpec MetaPages Catalog CatalogSpec Lexer Ast SqlExec.

(** ** The columns of a statement *)

Lemma defs_length defs : length (types_of defs) = length (names_of defs).
Proof. unfold types_of, names_of. by rewrite !length_fmap. Qed.
Lemma col_sizes_valid types : ∀ lens sizes, col_sizes types lens = Some sizes → Forall (λ t, t ≠ kInvalid) types.
Proof.
  induction types as [|t types IH]; intros lens sizes Hs; [constructor|].
  apply col_sizes_cons in Hs as Hs'. destruct Hs' as (sz&rest&cl&_&Hr&_). constructor; [by intros ->|by eapply IH].
Qed.
Lemma make_columns_fit types : ∀ names lens o cols, make_columns types names lens o = Ok cols → in32 o →
  Forall (λ t, t ≠ kInvalid) types → Forall name_ok names → Forall in32 lens → length types = length names →
  Forall column_ok cols ∧ column_name_ <$> cols = names.
Proof.
  induction types as [|t types IH]; intros [|name names] lens o cols Hm Ho Ht Hn Hl Hlen; try done.
  { injection Hm as <-. by split. }
  apply Forall_cons in Ht as [Ht Hts], Hn as [Hn Hns]. injection Hlen as Hlen. cbn [make_columns] in Hm.
  assert (∀ c a lens' o', column_ok c → column_name_ c = name → add32 o a = Ok o' → Forall in32 lens' →
    (cols ← make_columns types names lens' o'; Ok (c :: cols)) = Ok cols → Forall column_ok cols ∧ column_name_ <$> cols = name :: names) as Hcons.
  { intros c a lens' o' Hc <- Ha Hl' H. unfold add32 in Ha. case_match; [|done]. simplify_eq.
    apply res_bind_Ok in H as (cs&Hcs&[= <-]). destruct (IH _ _ _ _ Hcs) as [? ?]; try done; [by apply in32b_spec|].
    rewrite fmap_cons. split; [by constructor|by f_equal]. }
  destruct (decide (t = kChar)) as [->|Hne].
  - destruct lens as [|len lens]; [done|]. apply Forall_cons in Hl as [Hlen1 Hl]. apply res_bind_Ok in Hm as (o'&Ha&Hm).
    eapply (Hcons (Column_char name o len)); [|done|exact Ha|exact Hl|exact Hm]. split; [done|]. split; [done|]. by exists len.
  - apply res_bind_Ok in Hm as (c&Hc&Hm). apply res_bind_Ok in Hm as (o'&Ha&Hm).
    assert (c = mkColumn t name o (get_type_size t) None) as ->.
    { unfold Column_new in Hc. destruct t; try done; by injection Hc as <-. }
    eapply (Hcons (mkColumn t name o (get_type_size t) None)); [|done|exact Ha|exact Hl|exact Hm]. split; [done|]. split; [done|]. cbn [column_type_ column_name_ offset_]. by destruct t.
Qed.
(** the bytes the columns take in the page of the table's meta data *)
Definition names_space (names : list bytes) : Z := sumZ ((λ n, FIXED_COLUMN_SIZE + zlen n + 1) <$> names).
Lemma created_schema types names lens sizes : length types = length names → col_sizes types lens = Some sizes → Forall (λ x, 0 ≤ x) sizes →
  sumZ sizes ≤ INT32_MAX → Forall name_ok names → Forall in32 lens → FIRST_COLUMN_OFFSET + names_space names ≤ PAGE_SIZE →
  ∃ s, create_table_schema types names lens = Ok (Some s) ∧ schema_is types names sizes s ∧ columns_fit (columns_ s) ∧ key_idx_ s = 0.
Proof.
  intros Hlen Hs Hp Hb Hn Hl Hsp. destruct (create_schema_ok types names lens sizes Hlen Hs Hp Hb) as (s&Hc&Hi). exists s. split; [done|]. split; [done|].
  unfold create_table_schema in Hc. rewrite Hlen, Nat.eqb_refl in Hc. cbn [negb] in Hc. apply res_bind_Ok in Hc as (cols&Hm&Hc).
  apply res_bind_Ok in Hc as (s'&Hs'&[= ->]). unfold Schema_new in Hs'. apply res_bind_Ok in Hs' as (n&_&[= <-]). cbn [columns_ key_idx_].
  destruct (make_columns_fit types names lens 0 cols Hm) as [Hok Hnm]; try done; [by eapply col_sizes_valid|]. split; [|done].
  split; [done|]. unfold names_space in Hsp. rewrite <- Hnm, <- list_fmap_compose in Hsp. exact Hsp.
Qed.

(** ** The row of a statement *)

(** an integer in the first column is the key *)
Lemma row_key s tu v w : key_idx_ s = 0 → get_value tu s 0 = Ok w → same_content w v → int_key v → has_key s int_key (key_bytes v) (t_data tu).
Proof.
  intros Hk Hg [Ht Hc] [Hi Hv]. exists w. unfold key_value_of. rewrite Hk. split; [exact Hg|].
  unfold value_ok in Hv. rewrite Hi in *. unfold int_key, value_ok, key_bytes. rewrite Ht.
  destruct (value_ v) eqn:Ev; try done. destruct (value_ w) eqn:Ew; try done; by injection Hc as ->.
Qed.

(** a list of columns that a table can have: the first one is an integer, the names can be
    stored, and a row fits into a page *)
Record defs_ok (defs : list def_spec) (sizes : list Z) : Prop := {
  df_key : head (types_of defs) = Some kInteger;
  df_sizes : col_sizes (types_of defs) (lens_of defs) = Some sizes;
  df_pos : Forall (λ x, 0 ≤ x) sizes;
  df_row : 0 < get_tp_num_capacity (sumZ sizes);
  df_names : Forall name_ok (names_of defs);
  df_lens : Forall in32 (lens_of defs);
  df_space : FIRST_COLUMN_OFFSET + names_space (names_of defs) ≤ PAGE_SIZE;
}.
Lemma defs_size defs sizes : defs_ok defs sizes → 0 < sumZ sizes ≤ INT32_MAX.
Proof.
  intros [Hk Hs Hp Hr _ _ _]. destruct (types_of defs) as [|t types] eqn:E; [done|]. injection Hk as ->. split.
  - cbn [col_sizes] in Hs. destruct (col_sizes types (lens_of defs)) as [rest|]; [|done]. injection Hs as <-.
    apply Forall_cons in Hp as [_ Hp]. pose proof (sumZ_nonneg _ Hp). cbn [sumZ get_type_size]. cfg_lia.
  - pose proof (sumZ_nonneg _ Hp). destruct (decide (sumZ sizes ≤ INT32_MAX)) as [|Hgt]; [done|]. unfold get_tp_num_capacity in Hr.
    rewrite Z.div_small in Hr; [lia|]. change LOAD_DATA_SPACE with 3952. unfold INT32_MAX in *. change OFFSET_T_SIZE with 4. change SIZE_T_SIZE with 4. lia.
Qed.
Lemma defs_first defs sizes values v : defs_ok defs sizes → values_fit (types_of defs) sizes values → head values = Some v → int_key v.
Proof.
  intros [Hk Hs _ _ _ _ _] [Hl Hf] Hv. destruct (types_of defs) as [|t types]; [done|]. injection Hk as ->.
  cbn [col_sizes] in Hs. destruct (col_sizes types (lens_of defs)) as [rest|]; [|done]. injection Hs as <-. destruct values as [|v' values]; [done|]. injection Hv as ->.
  destruct (Hf 0%nat kInteger _ v eq_refl eq_refl eq_refl) as (Ht&Hok&_). by split.
Qed.

Section Statements.
Context {R : Type} `{RA : ReplacerAbstract R}.
Context (do_hash : bytes → Z) (heap : bytes) (stack : Z → bytes).
Context {P : Type} (dawn_parseAlloc : P) (dawn_parse : P → option token_type → Token → Ast.node → res (P * Ast.node)).
Notation BPM := (BufferPoolManager R).
Implicit Types (b : BPM) (ct : CatalogTable) (m : gmap bytes bytes).

(** a name that is not taken gets to the catalog with the schema of its columns *)
Lemma sql_create_schema ct b l name defs sizes : catalog_ok ct b l → name ∉ l.*1 → defs_ok defs sizes →
  ∃ s, schema_is (types_of defs) (names_of defs) sizes s ∧ columns_fit (columns_ s) ∧ key_idx_ s = 0 ∧ ct_name_to_id ct !! name = None ∧
    sql_create_table (create_tree name defs) ct b = (let* (ok, ct, b) := create_table name s ct b in if (ok : bool) then Ok (true, ct, b) else Err ExitCalled).
Proof.
  intros C Hnm Hd. pose proof (defs_size _ _ Hd) as [Hs0 Hs1].
  destruct (created_schema (types_of defs) (names_of defs) (lens_of defs) sizes) as (s&Hs&Hi&Hfit&Hk); try apply Hd; [apply defs_length|done|].
  destruct (statements_roundtrip name defs [] [] cache0) as (_&_&Ht&_), (statements_roundtrip name defs [] [] (full_cache defs)) as (_&Hn&_&Hl&_); auto.
  assert (ct_name_to_id ct !! name = None) as Hno by (by rewrite (co_n2i _ _ _ C), not_elem_of_list_to_map_1).
  exists s. split; [done|]. split; [done|]. split; [done|]. split; [done|]. unfold sql_create_table. change (create_tb_name (create_tree name defs)) with (Ok name : res bytes). cbn [mbind res_bind].
  unfold get_table_id. rewrite Hno. cbn [from_option default negb Z.eqb Pos.eqb]. rewrite Ht. cbn [mbind res_bind]. rewrite Hn. cbn [mbind res_bind]. rewrite Hl. cbn [mbind res_bind].
  by rewrite Hs.
Qed.
(** a statement that creates a table *)
Lemma sql_create_ok ct b l name defs sizes : catalog_ok ct b l → frames 3 b → 8 * max_ava_pgid_ (dm (disk_manager_ b)) ≤ MAX_INT_PAGES →
  name_ok name → name ∉ l.*1 → record_at (zlen l + 1) + zlen name < ct_fsp ct → defs_ok defs sizes →
  ∃ id tm ct' b', sql_create_table (create_tree name defs) ct b = Ok (true, ct', b') ∧ catalog_ok ct' b' (l ++ [(name, id)]) ∧
    (∀ b0, get_table_meta_data_name name ct' b0 = Ok (Some tm, ct', b0)) ∧ schema_is (types_of defs) (names_of defs) sizes (tm_schema tm) ∧ key_idx_ (tm_schema tm) = 0 ∧
    is_table do_hash (tm_schema tm) int_key (sumZ sizes) b' (tm_table tm) ∅ ∧
    max_ava_pgid_ (dm (disk_manager_ b')) ≤ 8 * max_ava_pgid_ (dm (disk_manager_ b)).
Proof.
  intros C Hfr Hmax Hno Hnm Hroom Hd. pose proof (defs_size _ _ Hd) as [Hs0 Hs1].
  destruct (sql_create_schema ct b l name defs sizes C Hnm Hd) as (s&Hi&Hfit&Hk&_&->).
  destruct (create_table_ok ct b l name s 1 C Hnm Hno ltac:(lia) Hfit Hfr Hmax) as (id&tm&ct'&b'&d&->&C'&_&Hmeta&Hsc&Hdir&_&Hfr'&_&_&_&Hmx).
  cbn [mbind res_bind]. destruct (co_meta _ _ _ C' _ _ Hmeta) as (nm&_&Mo). destruct Hdir as (Hda&dd&Hvd&Hz&Hdr).
  exists id, tm, ct', b'. rewrite Hsc. split; [done|]. split; [done|]. split; [|split; [done|split; [done|split; [|done]]]].
  - intros b0. unfold get_table_meta_data_name. rewrite (proj2 (catalog_lookup _ _ _ name id C')) by (apply elem_of_app; right; by left).
    unfold get_table_meta_data. by rewrite Hmeta.
  - rewrite (mo_table _ _ _ _ Mo). apply (fresh_table do_hash s int_key (sumZ sizes) (tm_first tm) dd); try done. apply C'.
Qed.

(** the tuple of a row *)
Definition row_of (s : Schema) (values : list Value) (tu : Tuple) : Prop :=
  Tuple_init heap stack RID_default values s = Ok tu ∧ ∀ i v, values !! i = Some v → ∃ w, get_value tu s (Z.of_nat i) = Ok w ∧ same_content w v.

(** a statement that inserts a row: it fails when the key is there, and changes nothing then *)
Lemma insert_data_ok ct b name defs sizes tm m lits values v :
  (∀ b0, get_table_meta_data_name name ct b0 = Ok (Some tm, ct, b0)) → schema_is (types_of defs) (names_of defs) sizes (tm_schema tm) → key_idx_ (tm_schema tm) = 0 →
  defs_ok defs sizes → is_table do_hash (tm_schema tm) int_key (sumZ sizes) b (tm_table tm) m → 4 * max_ava_pgid_ (dm (disk_manager_ b)) ≤ MAX_INT_PAGES →
  Forall2 (λ l v, literal_value l = Ok v) lits values → values_fit (types_of defs) sizes values → head values = Some v →
  Z.of_nat (load do_hash m (key_bytes v)) < get_tp_num_capacity (sumZ sizes) →
  ∃ tu b', insert_data do_hash heap stack (insert_tree name lits) ct b = Ok (bool_decide (m !! key_bytes v = None), ct, b') ∧ row_of (tm_schema tm) values tu ∧
    is_table do_hash (tm_schema tm) int_key (sumZ sizes) b' (tm_table tm) (if m !! key_bytes v is Some _ then m else <[key_bytes v := t_data tu]> m).
Proof.
  intros Hget Hs Hk Hd Ht Hmax Hl Hv Hh Hload. pose proof (defs_size _ _ Hd) as [Hs0 Hs1].
  destruct (Tuple_init_ok _ _ _ _ heap stack RID_default values Hs) as (tu&Htu&_&Hhold&Hg); [by rewrite defs_length|done|].
  assert (values !! 0%nat = Some v) as Hv0 by (destruct values; [done|by injection Hh as ->]).
  destruct (Hg 0%nat v Hv0) as (w&Hw&Hsame). pose proof (row_key _ _ v w Hk Hw Hsame (defs_first _ _ _ _ Hd Hv Hh)) as Hkey.
  destruct Hhold as (Ha&Hsz&Hz&_). assert (length_ (tm_schema tm) = sumZ sizes) as Hlen by apply Hs.
  unfold insert_data. change (insert_tb_name (insert_tree name lits)) with (Ok name : res bytes). cbn [mbind res_bind]. rewrite Hget. cbn [mbind res_bind].
  destruct (statements_roundtrip name [] lits values cache0 (or_introl eq_refl) Hl) as (_&_&_&_&_&_&_&Hvals). rewrite Hvals. cbn [mbind res_bind]. rewrite Htu. cbn [mbind res_bind].
  destruct (insert_step do_hash (tm_schema tm) int_key (sumZ sizes) b (tm_table tm) m tu Hs0 Ht) as (b'&He&Ht'); [|done|].
  { split; [split_and!; [done|lia|done|unfold INT32_MAX in *; lia..]|]. split; [congruence|]. exists (key_bytes v). auto. }
  exists tu, b'. cbn [exec_table spec_table] in He, Ht'. rewrite (has_key_of _ _ _ _ Hkey) in He, Ht'.
  apply res_bind_Ok in He as ([[ok t'] b1]&Hi&[= E1 E2]). rewrite Hi. cbn [mbind res_bind]. subst b1.
  destruct (m !! key_bytes v) eqn:Em; cbn [fst snd] in *; simplify_eq; (split; [done|]); split; done.
Qed.

(** what the parser makes of a text: a list of statements and no error *)
Definition parses (fuel : nat) (lex : Lex) (stmts : list Ast.node) : Prop :=
  ∃ tk p root p', parse_tokens dawn_parse fuel lex (mkToken None TVNone) dawn_parseAlloc StmtListNode_new = Ok (tk, p, root) ∧
    dawn_parse p None tk root = Ok (p', Node (StmtListNode false) stmts).

(** a text that parses is run statement by statement *)
Lemma sql_execute_parsed fuel lex stmts ct b : parses fuel lex stmts →
  sql_execute do_hash heap stack dawn_parseAlloc dawn_parse fuel lex ct b =
  (let* (r, success, ct, b) := execute_stmts do_hash heap stack stmts (ResponseMsg_new Unparsed) false ct b in Ok (set_status success r, ct, b)).
Proof. intros (tk&p&root&p'&H1&H2). unfold sql_execute. rewrite H1. cbn [mbind res_bind]. rewrite H2. done. Qed.

(** empty statements change nothing *)
Lemma execute_empties k r success ct b : execute_stmts do_hash heap stack (replicate k (Node EmptyStmt [])) r success ct b = Ok (r, success, ct, b).
Proof. by induction k. Qed.

(** a text that the parser turns into the creation of a table and the insertion of a row *)
Lemma create_and_insert_parsed fuel text k ct b l name defs sizes lits values v :
  parses fuel (Lex_new text) (create_tree name defs :: insert_tree name lits :: replicate k (Node EmptyStmt [])) →
  catalog_ok ct b l → frames 3 b → 32 * max_ava_pgid_ (dm (disk_manager_ b)) ≤ MAX_INT_PAGES →
  name_ok name → name ∉ l.*1 → record_at (zlen l + 1) + zlen name < ct_fsp ct → defs_ok defs sizes →
  Forall2 (λ l v, literal_value l = Ok v) lits values → values_fit (types_of defs) sizes values → head values = Some v →
  ∃ r id tm tu ct' b', sql_execute do_hash heap stack dawn_parseAlloc dawn_parse fuel (Lex_new text) ct b = Ok (r, ct', b') ∧ get_response_msg r = str "Insert OK." ∧
    ct_name_to_id ct' = list_to_map (l ++ [(name, id)]) ∧ get_table_meta_data_name name ct' b' = Ok (Some tm, ct', b') ∧
    schema_is (types_of defs) (names_of defs) sizes (tm_schema tm) ∧
    (∀ i u, values !! i = Some u → ∃ w, get_value tu (tm_schema tm) (Z.of_nat i) = Ok w ∧ same_content w u) ∧
    is_table do_hash (tm_schema tm) int_key (sumZ sizes) b' (tm_table tm) {[ key_bytes v := t_data tu ]} ∧
    ∃ t b'', Table_get_tuple do_hash (tm_table tm) v Tuple_default (tm_schema tm) b' = Ok (true, t, b'') ∧ t_data t = t_data tu.
Proof.
  intros Hp C Hfr Hmax Hno Hnm Hroom Hd Hl Hv Hh. rewrite (sql_execute_parsed _ _ _ ct b Hp). cbn [execute_stmts].
  pose proof (do_ava _ (bo_disk _ _ (co_ok _ _ _ C))) as Hpos.
  destruct (sql_create_ok ct b l name defs sizes C Hfr ltac:(lia) Hno Hnm Hroom Hd) as (id&tm&ct'&b1&He&C1&Hget&Hs&Hk&Ht&Hmx).
  change (execute_stmt do_hash heap stack (create_tree name defs) (ResponseMsg_new Unparsed) false ct b) with
    (let* (success, ct, b) := sql_create_table (create_tree name defs) ct b in Ok (resp_set_type SqlCreateTb (ResponseMsg_new Unparsed), success, ct, b)).
  rewrite He. cbn [mbind res_bind].
  destruct (insert_data_ok ct' b1 name defs sizes tm ∅ lits values v) as (tu&b2&Hi&[_ Hrow]&Ht2); try done; [lia|unfold load; rewrite map_filter_empty, map_size_empty; apply Hd|].
  change (execute_stmt do_hash heap stack (insert_tree name lits) (resp_set_type SqlCreateTb (ResponseMsg_new Unparsed)) true ct' b1) with
    (let* (success, ct, b) := insert_data do_hash heap stack (insert_tree name lits) ct' b1 in
     Ok (resp_set_type SqlInsert (resp_set_type SqlCreateTb (ResponseMsg_new Unparsed)), success, ct, b)).
  rewrite Hi. cbn [mbind res_bind]. rewrite execute_empties. cbn [mbind res_bind]. rewrite lookup_empty in Ht2 |- *.
  pose proof (defs_first _ _ _ _ Hd Hv Hh) as Hkey.
  destruct (get_step do_hash (tm_schema tm) int_key (sumZ sizes) b2 (tm_table tm) _ v Ht2 Hkey) as (b3&Hg&_).
  cbn [exec_table spec_table fst] in Hg. rewrite lookup_insert_eq in Hg. apply res_bind_Ok in Hg as ([[ok t] b4]&Hg&[= -> E ->]).
  eexists _, id, tm, tu, ct', b2. split; [done|]. split; [done|]. split; [apply C1|]. split; [apply Hget|]. split; [done|]. split; [done|]. split; [done|].
  exists t, b3. done.
Qed.

(** the answer depends on the last statement alone, whatever came before *)
Theorem last_statement_answers n r1 r2 (s1 s2 : bool) ct b r s ct' b' : n ≠ Node EmptyStmt (get_children n) → rm_msg r1 = rm_msg r2 →
  execute_stmt do_hash heap stack n r1 s1 ct b = Ok (r, s, ct', b') →
  ∃ r', execute_stmt do_hash heap stack n r2 s2 ct b = Ok (r', s, ct', b') ∧ get_response_msg (set_status s r') = get_response_msg (set_status s r).
Proof.
  intros Hne Hm. destruct n as [[]|]; try done; cbn [execute_stmt]; intros ([[? ?] ?]&->&[= <- <- <- <-])%res_bind_Ok;
    eexists; (split; [done|]); unfold get_response_msg; cbn [rm_msg rm_prefix set_status resp_set_type set_prefix rm_type rm_success]; by rewrite Hm.
Qed.
(** a statement SELECT or DELETE stops the program *)
Theorem select_stops r (s : bool) ct b (sel refs cond : option Ast.node) l :
  execute_stmt do_hash heap stack (SelectNode sel refs cond) r s ct b = Err ExitCalled ∧ execute_stmt do_hash heap stack (Node DeleteNode l) r s ct b = Err ExitCalled.
Proof. done. Qed.
(** so does the creation of a table for which the catalog has no room *)
Theorem full_catalog_stops ct b l name defs sizes : catalog_ok ct b l → name ∉ l.*1 → ct_fsp ct < record_at (zlen l + 1) + zlen name → defs_ok defs sizes →
  sql_create_table (create_tree name defs) ct b = Err ExitCalled.
Proof.
  intros C Hnm Hroom Hd. destruct (sql_create_schema ct b l name defs sizes C Hnm Hd) as (s&_&_&_&Hno&->).
  unfold create_table. rewrite Hno.
  destruct (co_page _ _ _ C) as (p&Hf&_&Hrep). by rewrite (reads_ok _ _ _ _ Hf), (room_for_ok _ _ _ _ Hrep), bool_decide_false by lia.
Qed.
End Statements.

(** a row with fewer values than columns, or with a value larger than its column, makes the
    tuple read or write outside its arrays *)
Theorem row_not_checked heap stack : ∃ s1 s2, create_table_schema [kInteger; kInteger] [str "a"; str "b"] [] = Ok (Some s1) ∧
  create_table_schema [kInteger] [str "a"] [] = Ok (Some s2) ∧ Tuple_init heap stack RID_default [Value_int 1] s1 = Err OutOfBounds ∧
  Tuple_init heap stack RID_default [Value_dec 0] s2 = Err OutOfBounds.
Proof.
  eexists _, _. split; [vm_compute; reflexivity|]. split; [vm_compute; reflexivity|].
  split; unfold Tuple_init, fresh_array; cbn [columns_ length_ length set_values].
  all: try (destruct heap as [|? [|? [|? [|? [|? [|? [|? [|? heap]]]]]]]]; vm_compute; reflexivity).
Qed.
