(* ===== verification/Server.v ===== *)
(** The server ([src/server/task.cpp], [src/server/server.cpp], [src/include/server/task.h],
    [server.h]): the task of a connection, which cuts the bytes it receives into texts of
    statements, and the table of connections with the queue of tasks. What the sockets
    deliver and how much of a message they take are arguments. *)
From S2P Require Import Prelude Config Values Lexer SqlExec.

(** ** The task of a connection *)

Definition RECV_BUFFER_SIZE : Z := 32.
Definition SEMICOLON : Z := 59.
(** how a run of calls of [recv] ends *)
Inductive recv_end := RAgain | RClosed | RFailed.

Section Task.
(** [sql_execute] on the database, and what [write] returns for the [i]-th message: the number
    of bytes the connection takes, or -1 *)
Context {S : Type} (sql_execute : Lex → S → res (ResponseMsg * S)) (write : nat → bytes → Z).

(** [tmp_] and [finish_]; [sent] is what the connection took of each message *)
Record Task := mkTask { tmp_ : bytes; finish_ : bool; sent : list bytes }.
Definition Task_new : Task := mkTask [] false [].
Implicit Types (t : Task) (s : S).

(** the buffer after [memset] and [recv] *)
Definition recv_buffer (data : bytes) : bytes := data ++ replicate (Z.to_nat RECV_BUFFER_SIZE - length data) 0.
Fixpoint search_from (buffer : bytes) (i : Z) (n : nat) : res Z :=
  match n with
  | O => Ok (-1)
  | Datatypes.S n =>
      c ← of_opt OutOfBounds (buffer !! Z.to_nat i);
      if c =? SEMICOLON then Ok i else search_from buffer (i + 1) n
  end.
Definition search_semicolon (buffer : bytes) : res Z := search_from buffer 0 (Z.to_nat (RECV_BUFFER_SIZE - 1)).

(** the string ends at the first NUL; a message that is not taken whole is logged and not
    written again *)
Definition handle_sql t s : res (Task * S) :=
  let tmp := tmp_ t ++ [0] in
  sql ← c_string tmp 0;
  let* (resp_msg, s) := sql_execute (Lex_new sql) s in
  let msg := get_response_msg resp_msg in
  let ret := write (length (sent t)) msg in
  Ok (mkTask tmp (finish_ t) (sent t ++ [take (Z.to_nat ret) msg]), s).

(** one round of the loop, with the [ret] bytes that were received *)
Definition receive (data : bytes) t s : res (Task * S) :=
  let buffer := recv_buffer data in
  let ret := length data in
  semi_pos ← search_semicolon buffer;
  let push_num := if semi_pos =? -1 then ret else Z.to_nat (semi_pos + 1) in
  let t := mkTask (tmp_ t ++ take push_num buffer) (finish_ t) (sent t) in
  if semi_pos =? -1 then Ok (t, s)
  else
    let* (t, s) := handle_sql t s in
    Ok (mkTask (take (ret - push_num) (drop push_num buffer)) (finish_ t) (sent t), s).
Fixpoint task_run (packets : list bytes) (last : recv_end) t s : res (Task * S) :=
  match packets with
  | [] => Ok (match last with RAgain => t | RClosed | RFailed => mkTask (tmp_ t) true (sent t) end, s)
  | data :: packets => let* (t, s) := receive data t s in task_run packets last t s
  end.

(** ** What is executed *)

(** up to the first NUL *)
Fixpoint to_nul (l : bytes) : bytes :=
  match l with [] => [] | c :: l => if c =? 0 then [] else c :: to_nul l end.
Lemma c_string_to_nul l : c_string (l ++ [0]) 0 = Ok (to_nul l).
Proof.
  unfold c_string. pose proof (zlen_nonneg (l ++ [0])). rewrite (proj2 (Z.leb_le 0 (zlen _))) by done. cbn [Z.leb andb].
  change (drop (Z.to_nat 0) (l ++ [0])) with (l ++ [0]). assert (until_nul (l ++ [0]) = Some (to_nul l)) as ->; [|done].
  clear. induction l as [|c l IH]; [done|]. cbn [app until_nul to_nul]. destruct (c =? 0); [done|]. by rewrite IH.
Qed.
Lemma to_nul_id l : Forall (λ c, c ≠ 0) l → to_nul l = l.
Proof. induction 1 as [|c l Hc Hl IH]; [done|]. cbn [to_nul]. rewrite (proj2 (Z.eqb_neq _ _)) by done. by f_equal. Qed.
(** the texts one after the other, and their messages *)
Fixpoint run_texts (texts : list bytes) s : res (list bytes * S) :=
  match texts with
  | [] => Ok ([], s)
  | sql :: texts =>
      let* (r, s) := sql_execute (Lex_new (to_nul sql)) s in
      let* (msgs, s) := run_texts texts s in
      Ok (get_response_msg r :: msgs, s)
  end.
(** what the connection takes of the messages, the first of which is the [i]-th *)
Definition taken (i : nat) (msgs : list bytes) : list bytes := imap (λ k m, take (Z.to_nat (write (i + k) m)) m) msgs.
Lemma taken_cons i m msgs : taken i (m :: msgs) = take (Z.to_nat (write i m)) m :: taken (Datatypes.S i) msgs.
Proof. unfold taken. cbn [imap]. rewrite Nat.add_0_r. f_equal. apply imap_ext. intros k x _. cbn. by rewrite Nat.add_succ_r. Qed.
(** a packet as [recv] delivers it: one byte of the buffer is left *)
Definition packet_ok (data : bytes) : Prop := (0 < length data < 32)%nat.
(** up to the first semicolon, and what is behind it *)
Fixpoint cut (data : bytes) : option (bytes * bytes) :=
  match data with
  | [] => None
  | c :: data => if c =? SEMICOLON then Some ([c], data) else '(a, b) ← cut data; Some (c :: a, b)
  end.
Fixpoint texts_of (tmp : bytes) (packets : list bytes) : list bytes * bytes :=
  match packets with
  | [] => ([], tmp)
  | data :: packets =>
      match cut data with
      | None => texts_of (tmp ++ data) packets
      | Some (a, rest) => let '(l, tmp') := texts_of rest packets in ((tmp ++ a) :: l, tmp')
      end
  end.

Lemma cut_spec data : match cut data with
  | None => SEMICOLON ∉ data
  | Some (a, rest) => data = a ++ rest ∧ ∃ w, a = w ++ [SEMICOLON] ∧ SEMICOLON ∉ w
  end.
Proof.
  induction data as [|c data IH]; [apply not_elem_of_nil|]. cbn [cut]. destruct (Z.eqb_spec c SEMICOLON) as [->|Hne].
  - split; [done|]. exists []. split; [done|apply not_elem_of_nil].
  - destruct (cut data) as [[a rest]|]; cbn [mbind option_bind].
    + destruct IH as (->&w&->&Hw). split; [done|]. exists (c :: w). split; [done|]. by apply not_elem_of_cons.
    + by apply not_elem_of_cons.
Qed.
Lemma search_hit w rest n : ∀ pre, SEMICOLON ∉ w → (length w < n)%nat →
  search_from (pre ++ w ++ SEMICOLON :: rest) (zlen pre) n = Ok (zlen pre + zlen w).
Proof.
  revert n. induction w as [|x w IH]; intros [|n] pre Hw Hn; cbn [length] in Hn; try lia; cbn [search_from app]; unfold zlen;
    rewrite Nat2Z.id, lookup_app_r, Nat.sub_diag by done; cbn [lookup list_lookup of_opt mbind res_bind].
  - cbn. f_equal. lia.
  - apply not_elem_of_cons in Hw as [Hx Hw]. rewrite (proj2 (Z.eqb_neq _ _)) by done. specialize (IH n (pre ++ [x]) Hw ltac:(lia)).
    rewrite <- app_assoc in IH. unfold zlen in IH. rewrite length_app in IH. cbn [app length] in *.
    replace (Z.of_nat (length pre) + 1) with (Z.of_nat (length pre + 1)) by lia. rewrite IH. f_equal. lia.
Qed.
Lemma search_miss w rest : ∀ pre, SEMICOLON ∉ w → search_from (pre ++ w ++ rest) (zlen pre) (length w) = Ok (-1).
Proof.
  induction w as [|x w IH]; intros pre Hw; [done|]. apply not_elem_of_cons in Hw as [Hx Hw]. cbn [length search_from app]. unfold zlen.
  rewrite Nat2Z.id, lookup_app_r, Nat.sub_diag by done. cbn [lookup list_lookup of_opt mbind res_bind]. rewrite (proj2 (Z.eqb_neq _ _)) by done.
  specialize (IH (pre ++ [x]) Hw). rewrite <- app_assoc in IH. unfold zlen in IH. rewrite length_app in IH. cbn [app length] in IH.
  by replace (Z.of_nat (length pre) + 1) with (Z.of_nat (length pre + 1)) by lia.
Qed.
Lemma search_ok data : packet_ok data → search_semicolon (recv_buffer data) = Ok (match cut data with Some (a, _) => zlen a - 1 | None => -1 end).
Proof.
  intros Hl. unfold packet_ok in Hl. pose proof (cut_spec data) as Hc. unfold search_semicolon, recv_buffer. change (Z.to_nat (RECV_BUFFER_SIZE - 1)) with 31%nat. change (Z.to_nat RECV_BUFFER_SIZE) with 32%nat.
  destruct (cut data) as [[a rest]|].
  - destruct Hc as (->&w&->&Hw). rewrite !length_app in Hl. cbn [length] in Hl. pose proof (search_hit w (rest ++ replicate (32 - length ((w ++ [SEMICOLON]) ++ rest)) 0) 31 [] Hw ltac:(lia)) as Hs.
    cbn [app] in Hs. rewrite <- !app_assoc. cbn [app]. change (zlen []) with 0 in Hs. rewrite <- !app_assoc in Hs. cbn [app] in Hs. rewrite Hs. unfold zlen. rewrite length_app. cbn [length]. f_equal. lia.
  - pose proof (search_miss (data ++ replicate (31 - length data) 0) [0] []) as Hs. rewrite length_app, length_replicate in Hs.
    replace (length data + (31 - length data))%nat with 31%nat in Hs by lia. cbn [app] in Hs. change (zlen []) with 0 in Hs. rewrite <- app_assoc, <- replicate_S_end in Hs.
    replace (Datatypes.S (31 - length data)) with (32 - length data)%nat in Hs by lia. apply Hs. rewrite elem_of_app. intros [?|[? _]%elem_of_replicate]; done.
Qed.

Lemma receive_ok data t s : packet_ok data →
  receive data t s = match cut data with
    | None => Ok (mkTask (tmp_ t ++ data) (finish_ t) (sent t), s)
    | Some (a, rest) =>
        let* (r, s) := sql_execute (Lex_new (to_nul (tmp_ t ++ a))) s in
        Ok (mkTask rest (finish_ t) (sent t ++ taken (length (sent t)) [get_response_msg r]), s)
    end.
Proof.
  intros Hp. pose proof (cut_spec data) as Hc. unfold receive. rewrite (search_ok data Hp). cbn [mbind res_bind].
  destruct (cut data) as [[a rest]|].
  - destruct Hc as (->&w&->&Hw). assert (zlen (w ++ [SEMICOLON]) - 1 = zlen w) as -> by (rewrite zlen_app; change (zlen [SEMICOLON]) with 1; lia).
    pose proof (zlen_nonneg w). rewrite (proj2 (Z.eqb_neq _ _)) by lia.
    assert (Z.to_nat (zlen w + 1) = length (w ++ [SEMICOLON])) as -> by (unfold zlen; rewrite length_app; cbn [length]; lia).
    unfold recv_buffer, handle_sql. cbn [tmp_ finish_ sent]. set (z := replicate _ _).
    rewrite <- (app_assoc _ rest z), take_app_length, drop_app_length, c_string_to_nul. cbn [mbind res_bind].
    destruct (sql_execute _ s) as [[r s']|]; [|done]. cbn [mbind res_bind]. cbn [finish_ sent]. rewrite taken_cons. repeat f_equal.
    replace (length ((w ++ [SEMICOLON]) ++ rest) - length (w ++ [SEMICOLON]))%nat with (length rest) by (rewrite length_app; lia). by rewrite take_app_length.
  - cbn [Z.eqb Pos.eqb]. unfold recv_buffer. by rewrite take_app_length.
Qed.

(** the run of a task is the run of its texts *)
Lemma task_run_texts last packets : ∀ t s, Forall packet_ok packets →
  task_run packets last t s =
  (let* (msgs, s) := run_texts (texts_of (tmp_ t) packets).1 s in
   Ok (mkTask (texts_of (tmp_ t) packets).2 (match last with RAgain => finish_ t | _ => true end) (sent t ++ taken (length (sent t)) msgs), s)).
Proof.
  induction packets as [|data packets IH]; intros t s Hp; cbn [task_run texts_of].
  - cbn [fst snd run_texts mbind res_bind]. change (taken _ []) with (@nil bytes). rewrite app_nil_r. destruct t, last; done.
  - apply Forall_cons in Hp as [Hd Hp]. rewrite (receive_ok data t s Hd).
    destruct (cut data) as [[a rest]|]; cbn [mbind res_bind].
    + destruct (texts_of rest packets) as [l tmp'] eqn:E. cbn [fst snd run_texts].
      destruct (sql_execute (Lex_new (to_nul (tmp_ t ++ a))) s) as [[r s1]|]; [|done]. cbn [mbind res_bind]. rewrite IH by done. cbn [tmp_ finish_ sent].
      rewrite E. cbn [fst snd]. destruct (run_texts l s1) as [[msgs s2]|]; [|done]. cbn [mbind res_bind].
      rewrite !taken_cons, <- app_assoc, length_app. cbn [length]. rewrite Nat.add_1_r. done.
    + by rewrite IH.
Qed.
(** how often a semicolon occurs *)
Definition semicolons (l : bytes) : nat := length (filter (λ c, c = SEMICOLON) l).
Lemma semicolons_app a b : semicolons (a ++ b) = (semicolons a + semicolons b)%nat.
Proof. unfold semicolons. by rewrite filter_app, length_app. Qed.
Lemma semicolons_none l : SEMICOLON ∉ l → semicolons l = 0%nat.
Proof.
  intros H. unfold semicolons. induction l as [|c l IH]; [done|]. apply not_elem_of_cons in H as [Hc Hl]. rewrite filter_cons_False by done. by apply IH.
Qed.
Lemma texts_of_stream packets : ∀ tmp, let '(l, tmp') := texts_of tmp packets in
  concat l ++ tmp' = tmp ++ concat packets ∧ Forall (λ x, last x = Some SEMICOLON) l ∧ length l = length (filter (λ x, SEMICOLON ∈ x) packets) ∧
  (semicolons tmp = 0%nat → Forall (λ x, cut x = None ∨ ∃ a, cut x = Some (a, [])) packets → Forall (λ x, semicolons x = 1%nat) l ∧ semicolons tmp' = 0%nat).
Proof.
  induction packets as [|data packets IH]; intros tmp; cbn [texts_of].
  { split_and!; [cbn; by rewrite app_nil_r|constructor|done|]. intros Ht _. by split. }
  pose proof (cut_spec data) as Hc. destruct (cut data) as [[a rest]|] eqn:E.
  - destruct Hc as (->&w&->&Hw). specialize (IH rest). destruct (texts_of rest packets) as [l tmp']. destruct IH as (H1&H2&H3&H4). split_and!.
    + cbn [concat]. rewrite <- app_assoc, H1. by rewrite <- !app_assoc.
    + constructor; [|done]. by rewrite app_assoc, last_snoc.
    + rewrite filter_cons_True by (apply elem_of_app; left; apply elem_of_app; right; by left). cbn [length]. by rewrite H3.
    + intros Ht Hf. apply Forall_cons in Hf as [[Hf|[a Hf]] Hfs]; [congruence|]. assert (rest = []) as -> by congruence. destruct (H4 eq_refl Hfs) as [? ?]. split; [|done].
      constructor; [|done]. rewrite !semicolons_app, Ht, (semicolons_none w Hw). done.
  - specialize (IH (tmp ++ data)). destruct (texts_of (tmp ++ data) packets) as [l tmp']. destruct IH as (H1&H2&H3&H4). rewrite filter_cons_False by done. split_and!; try done.
    + cbn [concat]. by rewrite H1, <- app_assoc.
    + intros Ht Hf. apply Forall_cons in Hf as [_ Hfs]. apply H4; [|done]. by rewrite semicolons_app, Ht, (semicolons_none data Hc).
Qed.

(** C20: The task of a connection loses and repeats nothing: whatever the bytes of a client
    are and whatever the pieces of at most 31 in which they arrive, the task forms texts
    that end with a semicolon, one for each piece that has one, and these texts with what
    the task keeps for later are the bytes received, in order. Each text is executed, in
    order, up to its first NUL byte, if it has one, and of each answer the client gets the
    part that its connection takes: what a short or failed write leaves is not sent again.
    When no piece has anything behind its first semicolon, each text has one semicolon, its
    last byte, and no semicolon is kept back; otherwise a text can have several
    ([second_statement_waits]). A semicolon in a string ends a text like any other
    ([string_cut]). *)
Theorem task_stream packets last t s :
  Forall packet_ok packets →
  ∃ texts tmp', concat texts ++ tmp' = tmp_ t ++ concat packets ∧ Forall (λ x, list.last x = Some SEMICOLON) texts ∧
    length texts = length (filter (λ x, SEMICOLON ∈ x) packets) ∧
    (semicolons (tmp_ t) = 0%nat → Forall (λ x, cut x = None ∨ ∃ a, cut x = Some (a, [])) packets → Forall (λ x, semicolons x = 1%nat) texts ∧ semicolons tmp' = 0%nat) ∧
    task_run packets last t s =
      (let* (msgs, s) := run_texts texts s in
       Ok (mkTask tmp' (match last with RAgain => finish_ t | _ => true end) (sent t ++ taken (length (sent t)) msgs), s)).
Proof.
  intros Hp. pose proof (texts_of_stream packets (tmp_ t)) as H. rewrite (task_run_texts last packets t s Hp).
  destruct (texts_of (tmp_ t) packets) as [l tmp']. destruct H as (H1&H2&H3&H4). by exists l, tmp'.
Qed.
End Task.

(** the pieces "drop ", "table a;" and "drop table b;" *)
Definition execute_w (lex : Lex) (n : nat) : res (ResponseMsg * nat) := Ok (set_status true (resp_set_type SqlDropTb (ResponseMsg_new Unparsed)), Datatypes.S n).
(** every message is taken whole *)
Definition write_w (_ : nat) (m : bytes) : Z := zlen m.
Definition packets_w : list bytes := [str "drop "; str "table a;"; str "drop table b;"].
Lemma task_stream_witness : ∃ texts, concat texts = str "drop table a;drop table b;" ∧ length texts = 2%nat ∧ Forall (λ x, semicolons x = 1%nat) texts.
Proof.
  destruct (task_stream execute_w write_w packets_w RClosed Task_new 0%nat) as (texts&tmp'&H1&_&H3&H4&_).
  - repeat constructor; vm_compute; (lia || discriminate).
  - destruct H4 as [H4 H5]; [reflexivity| |].
    + constructor; [left; reflexivity|]. constructor; [right; eexists; vm_compute; reflexivity|]. constructor; [right; eexists; vm_compute; reflexivity|constructor].
    + exists texts. assert (tmp' = []) as ->.
      { assert (list.last (concat texts ++ tmp') = Some SEMICOLON) as Hl by (rewrite H1; reflexivity).
        destruct tmp' as [|c tmp' _] using rev_ind; [done|]. rewrite app_assoc, last_snoc in Hl. injection Hl as ->.
        rewrite semicolons_app in H5. change (semicolons [SEMICOLON]) with 1%nat in H5. lia. }
      rewrite app_nil_r in H1. split; [exact H1|]. split; [exact H3|exact H4].
Defined.

(** two statements that arrive together: the second one stays in the buffer, and is executed
    together with the next one, which alone is answered *)
Theorem second_statement_waits :
  task_run execute_w write_w [str "drop table a;drop table b;"] RAgain Task_new 0%nat = Ok (mkTask (str "drop table b;") false [str "Drop Table OK."], 1%nat) ∧
  (texts_of [] [str "drop table a;drop table b;"; str "drop table c;"]).1 = [str "drop table a;"; str "drop table b;drop table c;"].
Proof. split; vm_compute; reflexivity. Qed.
(** a semicolon within a string cuts the statement *)
Theorem string_cut : (texts_of [] [str "insert into t values('a;b');"]).1 = [str "insert into t values('a;"].
Proof. vm_compute; reflexivity. Qed.
(** what is behind a NUL byte is not executed, and the rest of a message that the connection
    does not take at once is lost *)
Theorem nul_cuts : to_nul (str "drop" ++ [0] ++ str " table a;") = str "drop".
Proof. vm_compute; reflexivity. Qed.
Theorem short_write_lost :
  task_run execute_w (λ _ _, 4) [str "drop table a;"] RAgain Task_new 0%nat = Ok (mkTask [] false [str "Drop"], 1%nat) ∧
  task_run execute_w (λ _ _, -1) [str "drop table a;"] RAgain Task_new 0%nat = Ok (mkTask [] false [[]], 1%nat).
Proof. split; vm_compute; reflexivity. Qed.

(** ** The connections *)

(** [events[i]]; [accepted] is what [accept] returns when the event is on the listening socket *)
Record event := mkEvent { ev_fd : Z; ev_in : bool; accepted : Z }.
(** the connections, the tasks that exist with their flag [finish_], the number of tasks
    created so far, the tasks handed to the worker pool, and the flag [shutdown_] *)
Record Server := mkServer { conn_ : gmap Z nat; live : gmap nat bool; created : nat; queued : list nat; shutdown_ : bool }.

Section Server.
(** the reading end of the pipe and the listening socket *)
Context (pipe_fd listen_fd : Z).
Implicit Types (sv : Server).
Definition Server_new : Server := mkServer ∅ ∅ 0 [] false.

(** a round of [process_epoll]; [insert] keeps the entry of a descriptor that is there *)
Definition process_event (e : event) sv : res (bool * Server) :=
  if ev_fd e =? pipe_fd then Ok (false, mkServer (conn_ sv) (live sv) (created sv) (queued sv) true)
  else if ev_fd e =? listen_fd then
    let t := created sv in
    Ok (true, mkServer (match conn_ sv !! accepted e with Some _ => conn_ sv | None => <[accepted e := t]> (conn_ sv) end)
      (<[t := false]> (live sv)) (Datatypes.S t) (queued sv) (shutdown_ sv))
  else if ev_in e then
    t ← of_opt ExitCalled (conn_ sv !! ev_fd e);
    Ok (true, mkServer (conn_ sv) (live sv) (created sv) (queued sv ++ [t]) (shutdown_ sv))
  else Ok (true, sv).
Fixpoint process_epoll (events : list event) sv : res (bool * Server) :=
  match events with
  | [] => Ok (true, sv)
  | e :: events => let* (go, sv) := process_event e sv in if (go : bool) then process_epoll events sv else Ok (false, sv)
  end.

(** a pass of the thread that deletes the tasks that have finished; using a task that was
    deleted is a fault *)
Fixpoint sweep (l : list (Z * nat)) sv : res Server :=
  match l with
  | [] => Ok sv
  | (fd, t) :: l =>
      finish ← of_opt OutOfBounds (live sv !! t);
      sweep l (if (finish : bool) then mkServer (base.delete fd (conn_ sv)) (base.delete t (live sv)) (created sv) (queued sv) (shutdown_ sv) else sv)
  end.
Definition collect_finished sv : res Server := sweep (map_to_list (conn_ sv)) sv.
(** a worker runs the next task, which finds the connection closed or not *)
Definition work (closed : bool) sv : res Server :=
  match queued sv with
  | [] => Ok sv
  | t :: q =>
      finish ← of_opt OutOfBounds (live sv !! t);
      Ok (mkServer (conn_ sv) (<[t := finish || closed]> (live sv)) (created sv) q (shutdown_ sv))
  end.

Inductive server_op := OEvents (events : list event) | OCollect | OWork (closed : bool).
Definition server_step (o : server_op) sv : res Server :=
  match o with
  | OEvents events => let* (_, sv) := process_epoll events sv in Ok sv
  | OCollect => collect_finished sv
  | OWork closed => work closed sv
  end.
Fixpoint server_run (ops : list server_op) sv : res Server :=
  match ops with [] => Ok sv | o :: ops => sv ← server_step o sv; server_run ops sv end.

(** every connection has a task of its own that exists *)
Record server_ok sv : Prop := {
  so_live : ∀ fd t, conn_ sv !! fd = Some t → is_Some (live sv !! t);
  so_own : ∀ fd fd' t, conn_ sv !! fd = Some t → conn_ sv !! fd' = Some t → fd = fd';
  so_created : ∀ t, is_Some (live sv !! t) → (t < created sv)%nat;
}.
Lemma Server_new_ok : server_ok Server_new.
Proof. split; cbn; intros *; rewrite lookup_empty; [done|done|]. by intros []. Qed.
Lemma process_event_ok e sv : server_ok sv → process_event e sv = Err ExitCalled ∨ ∃ go sv', process_event e sv = Ok (go, sv') ∧ server_ok sv'.
Proof.
  intros [L O C]. unfold process_event. destruct (ev_fd e =? pipe_fd); [right; eexists _, _; split; [done|by split]|].
  destruct (ev_fd e =? listen_fd).
  - right. eexists _, _. split; [done|]. assert (live sv !! created sv = None) as Hn.
    { destruct (live sv !! created sv) eqn:E; [|done]. specialize (C (created sv)). rewrite E in C. specialize (C (mk_is_Some _ _ eq_refl)). lia. }
    assert (∀ fd, conn_ sv !! fd ≠ Some (created sv)) as Hc by (intros fd Hfd; destruct (L _ _ Hfd); congruence).
    split; cbn [conn_ live created].
    + intros fd t Hf. destruct (decide (t = created sv)) as [->|Hne]; [rewrite lookup_insert_eq; eauto|]. rewrite lookup_insert_ne by done.
      destruct (conn_ sv !! accepted e); [eauto|]. apply lookup_insert_Some in Hf as [[_ ?]|[_ Hf]]; [done|eauto].
    + intros fd fd' t. destruct (conn_ sv !! accepted e); [eauto|]. rewrite !lookup_insert_Some. intros [[<- <-]|[? H1]] [[<- E]|[? H2]]; try done; subst; [by destruct (Hc fd')|by destruct (Hc fd)|eauto].
    + intros t [<-|[_ Ht]]%lookup_insert_is_Some; [lia|]. specialize (C t Ht). lia.
  - destruct (ev_in e); [|right; eexists _, _; split; [done|by split]].
    destruct (conn_ sv !! ev_fd e); [right; eexists _, _; split; [done|by split]|by left].
Qed.
Lemma process_epoll_ok events : ∀ sv, server_ok sv → process_epoll events sv = Err ExitCalled ∨ ∃ go sv', process_epoll events sv = Ok (go, sv') ∧ server_ok sv'.
Proof.
  induction events as [|e events IH]; intros sv Hs; [right; eauto|]. cbn [process_epoll].
  destruct (process_event_ok e sv Hs) as [->|(go&sv1&->&H1)]; [by left|]. cbn [mbind res_bind]. destruct go; [by apply IH|right; eauto].
Qed.
Lemma sweep_ok l : ∀ sv, server_ok sv → NoDup l.*1 → (∀ p, p ∈ l → conn_ sv !! p.1 = Some p.2) → ∃ sv', sweep l sv = Ok sv' ∧ server_ok sv'.
Proof.
  induction l as [|[fd t] l IH]; intros sv Hs Hn Hl; [by exists sv|]. cbn [sweep]. rewrite fmap_cons in Hn. apply NoDup_cons in Hn as [Hfd Hn].
  pose proof (Hl (fd, t) (list_elem_of_here _ _)) as Hc. cbn [fst snd] in Hc. destruct Hs as [L O C]. destruct (L fd t Hc) as [f Hf]. rewrite Hf. cbn [of_opt mbind res_bind].
  assert (∀ p, p ∈ l → p.1 ≠ fd) as Hne by (intros p Hp E; apply Hfd; cbn [fst]; rewrite <- E; by apply (list_elem_of_fmap_2 fst)).
  destruct f; [|apply IH; [by split|done|]; intros p Hp; apply Hl; by right]. apply IH; [|done|].
  - split; cbn [conn_ live created].
    + intros fd' t' [Hd H']%lookup_delete_Some. rewrite lookup_delete_ne; [eauto|]. intros ->. by apply Hd, (O _ _ t').
    + intros fd1 fd2 t' [_ H1]%lookup_delete_Some [_ H2]%lookup_delete_Some. eauto.
    + intros t' [x [_ H']%lookup_delete_Some]. eauto.
  - intros p Hp. cbn [conn_]. rewrite lookup_delete_ne by (apply not_eq_sym; auto). apply Hl. by right.
Qed.

(** whatever happens, a connection has a task of its own that has not been deleted: the events
    and the thread that deletes tasks never use a task that is gone *)
Theorem connections_live ops : ∀ sv, server_ok sv → match server_run ops sv with Ok sv' => server_ok sv' | Err e => e = ExitCalled ∨ ∃ c, OWork c ∈ ops end.
Proof.
  induction ops as [|o ops IH]; intros sv Hs; [done|]. cbn [server_run].
  assert (server_step o sv = Err ExitCalled ∨ (∃ sv', server_step o sv = Ok sv' ∧ server_ok sv') ∨ ∃ c e, o = OWork c ∧ server_step o sv = Err e) as Ho.
  { destruct o as [events| |closed]; cbn [server_step].
    - destruct (process_epoll_ok events sv Hs) as [->|(go&sv1&->&H1)]; [by left|right; left; by exists sv1].
    - right. left. apply sweep_ok; [done|apply NoDup_fst_map_to_list|]. intros [fd t] Hp. by apply elem_of_map_to_list in Hp.
    - unfold work. destruct (queued sv) as [|t q]; [right; left; by exists sv|]. destruct (live sv !! t) as [f|] eqn:E; [|right; right; by eexists _, _].
      right. left. eexists. split; [done|]. destruct Hs as [L O C]. split; cbn [conn_ live created]; [|done|].
      + intros fd t' Hf. destruct (decide (t' = t)) as [->|Hne]; [rewrite lookup_insert_eq; eauto|]. rewrite lookup_insert_ne by done. eauto.
      + intros t' [<-|[_ Ht]]%lookup_insert_is_Some; apply C; eauto. }
  destruct Ho as [->|[(sv'&->&H')|(c&e&->&->)]]; cbn [mbind res_bind]; [by left| |right; exists c; by left].
  specialize (IH sv' H'). destruct (server_run ops sv'); [done|]. destruct IH as [?|[c ?]]; [by left|right; exists c; by right].
Qed.
End Server.

(** but a worker does: a connection with two events queued is closed when the first is run, its
    task is deleted, and the second one runs a task that is gone *)
Theorem deleted_task_runs :
  server_run 3 4 [OEvents [mkEvent 4 true 7]; OEvents [mkEvent 7 true 0]; OEvents [mkEvent 7 true 0]; OWork true; OCollect; OWork false] Server_new = Err OutOfBounds.
Proof. vm_compute; reflexivity. Qed.
