(* ===== verification/ActTab.v ===== *)
(** The [acttab] module of the parser generator ([src/sql/lemon.c]): it packs the
    actions of all states into the one array [yy_action], each state at an
    offset of its own. Memory is assumed to be available; a read or write
    outside [aAction] is an [OutOfBounds] fault. *)
From S2P Require Import Prelude.

Record lookahead_action := mkLA { la_lookahead : Z; la_action : Z }.

Definition la_empty : lookahead_action := mkLA (-1) (-1).

(** [aAction] has [nActionAlloc] slots; [aLookahead] is the transaction set, the
    first [nLookahead] of [nLookaheadAlloc] slots *)
Record acttab := mkActtab {
  nAction : Z;
  aAction : list lookahead_action;
  aLookahead : list lookahead_action;
  mnLookahead : Z;
  mnAction : Z;
  mxLookahead : Z;
  nLookaheadAlloc : Z;
  nterminal : Z;
  nsymbol : Z;
}.
Definition nActionAlloc (p : acttab) : Z := zlen (aAction p).
Definition nLookahead (p : acttab) : Z := zlen (aLookahead p).

Definition acttab_alloc (nsymbol nterminal : Z) : acttab :=
  {| nAction := 0; aAction := []; aLookahead := []; mnLookahead := 0; mnAction := 0;
     mxLookahead := 0; nLookaheadAlloc := 0; nterminal := nterminal; nsymbol := nsymbol |}.

Definition acttab_action (p : acttab) (lookahead action : Z) : acttab :=
  let alloc := if nLookahead p >=? nLookaheadAlloc p then nLookaheadAlloc p + 25 else nLookaheadAlloc p in
  let '(mx, mn, mna) :=
    if nLookahead p =? 0 then (lookahead, lookahead, action)
    else
      let mx := if mxLookahead p <? lookahead then lookahead else mxLookahead p in
      if mnLookahead p >? lookahead then (mx, lookahead, action)
      else (mx, mnLookahead p, mnAction p) in
  {| nAction := nAction p; aAction := aAction p;
     aLookahead := aLookahead p ++ [mkLA lookahead action];
     mnLookahead := mn; mnAction := mna; mxLookahead := mx; nLookaheadAlloc := alloc;
     nterminal := nterminal p; nsymbol := nsymbol p |}.

Definition upd_aAction (p : acttab) (n : Z) (a : list lookahead_action) : acttab :=
  {| nAction := n; aAction := a; aLookahead := aLookahead p; mnLookahead := mnLookahead p;
     mnAction := mnAction p; mxLookahead := mxLookahead p; nLookaheadAlloc := nLookaheadAlloc p;
     nterminal := nterminal p; nsymbol := nsymbol p |}.

(** room for the transaction set in the worst case *)
Definition acttab_grow (p : acttab) : acttab :=
  let n := nsymbol p + 1 in
  if nAction p + n >=? nActionAlloc p
  then upd_aAction p (nAction p)
         (aAction p ++ replicate (Z.to_nat (nAction p + n + 20)) la_empty)
  else p.

(** [p->aAction[i]] *)
Definition act_at (a : list lookahead_action) (i : Z) : res lookahead_action :=
  if 0 <=? i then of_opt OutOfBounds (a !! Z.to_nat i) else Err OutOfBounds.

(** do all entries of the transaction already stand at [i]? *)
Fixpoint dup_matches (p : acttab) (i : Z) (tx : list lookahead_action) : res bool :=
  match tx with
  | [] => Ok true
  | t :: tx =>
      let k := la_lookahead t - mnLookahead p + i in
      if (k <? 0) || (k >=? nAction p) then Ok false
      else
        e ← act_at (aAction p) k;
        if negb (la_lookahead t =? la_lookahead e) then Ok false
        else if negb (la_action t =? la_action e) then Ok false
        else dup_matches p i tx
  end.

(** how many entries [j .. j+n-1] belong to the offset [-d] *)
Fixpoint count_offset (p : acttab) (d j : Z) (n : nat) : res Z :=
  match n with
  | O => Ok 0
  | S n =>
      e ← act_at (aAction p) j;
      c ← count_offset p d (j + 1) n;
      Ok (if la_lookahead e <? 0 then c else if la_lookahead e =? j + d then c + 1 else c)
  end.

(** the scan for a duplicate, from [i = end + n - 1] down to [end] *)
Fixpoint find_dup (p : acttab) (end_ : Z) (n : nat) : res (option Z) :=
  match n with
  | O => Ok None
  | S n =>
      let i := end_ + Z.of_nat n in
      e ← act_at (aAction p) i;
      if la_lookahead e =? mnLookahead p then
        if negb (la_action e =? mnAction p) then find_dup p end_ n
        else
          all ← dup_matches p i (aLookahead p);
          if negb all then find_dup p end_ n
          else
            c ← count_offset p (mnLookahead p - i) 0 (Z.to_nat (nAction p));
            if c =? nLookahead p then Ok (Some i) else find_dup p end_ n
      else find_dup p end_ n
  end.

(** are all slots of the transaction empty at [i]? *)
Fixpoint hole_fits (p : acttab) (i : Z) (tx : list lookahead_action) : res bool :=
  match tx with
  | [] => Ok true
  | t :: tx =>
      let k := la_lookahead t - mnLookahead p + i in
      if k <? 0 then Ok false
      else
        e ← act_at (aAction p) k;
        if la_lookahead e >=? 0 then Ok false else hole_fits p i tx
  end.

(** does no entry [j .. j+n-1] have the lookahead it would have at offset [-d]? *)
Fixpoint no_conflict (p : acttab) (d j : Z) (n : nat) : res bool :=
  match n with
  | O => Ok true
  | S n =>
      e ← act_at (aAction p) j;
      if la_lookahead e =? j + d then Ok false else no_conflict p d (j + 1) n
  end.

(** the scan for a hole, [n] candidates from [i] on *)
Fixpoint find_hole (p : acttab) (n : nat) (i : Z) : res Z :=
  match n with
  | O => Ok i
  | S n =>
      e ← act_at (aAction p) i;
      if la_lookahead e <? 0 then
        fits ← hole_fits p i (aLookahead p);
        if negb fits then find_hole p n (i + 1)
        else
          free ← no_conflict p (mnLookahead p - i) 0 (Z.to_nat (nAction p));
          if (free : bool) then Ok i else find_hole p n (i + 1)
      else find_hole p n (i + 1)
  end.

(** [p->aAction[k] = e] *)
Definition act_put (a : list lookahead_action) (k : Z) (e : lookahead_action)
    : res (list lookahead_action) :=
  if (0 <=? k) && (k <? zlen a) then Ok (<[Z.to_nat k := e]> a) else Err OutOfBounds.

(** the insertion at [i]; returns [nAction] and the array *)
Fixpoint put_all (i mn : Z) (tx : list lookahead_action) (nact : Z) (a : list lookahead_action)
    : res (Z * list lookahead_action) :=
  match tx with
  | [] => Ok (nact, a)
  | t :: tx =>
      let k := la_lookahead t - mn + i in
      a ← act_put a k t;
      put_all i mn tx (if k >=? nact then k + 1 else nact) a
  end.

Definition acttab_insert (p : acttab) (makeItSafe : bool) : res (Z * acttab) :=
  if nLookahead p =? 0 then Err ExitCalled                        (* assert *)
  else
    let p := acttab_grow p in
    let end_ := if makeItSafe then mnLookahead p else 0 in
    dup ← find_dup p end_ (Z.to_nat (nAction p - end_));
    i ← match dup with
        | Some i => Ok i
        | None => find_hole p (Z.to_nat (nActionAlloc p - mxLookahead p - end_)) end_
        end;
    let* (nact, a) := put_all i (mnLookahead p) (aLookahead p) (nAction p) (aAction p) in
    let nact := if makeItSafe && (i + nterminal p >=? nact) then i + nterminal p + 1 else nact in
    Ok (i - mnLookahead p,
        {| nAction := nact; aAction := a; aLookahead := []; mnLookahead := mnLookahead p;
           mnAction := mnAction p; mxLookahead := mxLookahead p;
           nLookaheadAlloc := nLookaheadAlloc p; nterminal := nterminal p; nsymbol := nsymbol p |}).

(** the size of the table without the trailing empty entries *)
Fixpoint action_size (a : list lookahead_action) (n : nat) : res Z :=
  match n with
  | O => Ok 0
  | S n' =>
      e ← act_at a (Z.of_nat n');
      if la_lookahead e <? 0 then action_size a n' else Ok (Z.of_nat n)
  end.
Definition acttab_action_size (p : acttab) : res Z := action_size (aAction p) (Z.to_nat (nAction p)).

(** one state's actions, as [ReportTable] enters them *)
Definition acttab_add (p : acttab) (makeItSafe : bool) (tx : list (Z * Z)) : res (Z * acttab) :=
  acttab_insert (foldl (λ p t, acttab_action p t.1 t.2) p tx) makeItSafe.

(** all states in order; the offsets are returned in the same order *)
Fixpoint acttab_build (p : acttab) (txs : list (bool * list (Z * Z))) : res (list Z * acttab) :=
  match txs with
  | [] => Ok ([], p)
  | (safe, tx) :: txs =>
      let* (o, p) := acttab_add p safe tx in
      let* (os, p) := acttab_build p txs in
      Ok (o :: os, p)
  end.

(** the lookup the generated parser makes *)
Definition acttab_lookup (p : acttab) (ofst l : Z) : option Z :=
  match act_at (aAction p) (ofst + l) with
  | Ok e => if la_lookahead e =? l then Some (la_action e) else None
  | Err _ => None
  end.

(** ** Reading and writing the array *)

Lemma act_at_Ok a i e : act_at a i = Ok e ↔ 0 ≤ i ∧ a !! Z.to_nat i = Some e.
Proof.
  unfold act_at. destruct (Z.leb_spec 0 i); [|split; [done|lia]].
  rewrite of_opt_Ok. naive_solver.
Qed.

Lemma act_at_ex a i : 0 ≤ i < zlen a → ∃ e, act_at a i = Ok e.
Proof.
  intros ?. destruct (lookup_lt_is_Some_2 a (Z.to_nat i)) as [e He]; [unfold zlen in *; lia|].
  exists e. apply act_at_Ok. split; [lia|done].
Qed.

Lemma act_at_lt a i e : act_at a i = Ok e → 0 ≤ i < zlen a.
Proof. intros [H0 H%lookup_lt_Some]%act_at_Ok. unfold zlen. lia. Qed.

Lemma put_all_spec i mn tx n a :
  NoDup (la_lookahead <$> tx) →
  (∀ t, t ∈ tx → 0 ≤ la_lookahead t - mn + i < zlen a) →
  ∃ n' a', put_all i mn tx n a = Ok (n', a') ∧ length a' = length a ∧ n ≤ n' ∧
    (∀ t, t ∈ tx → act_at a' (la_lookahead t - mn + i) = Ok t ∧ la_lookahead t - mn + i < n') ∧
    (∀ j, (∀ t, t ∈ tx → j ≠ la_lookahead t - mn + i) → act_at a' j = act_at a j) ∧
    (n' = n ∨ ∃ t, t ∈ tx ∧ n' = la_lookahead t - mn + i + 1).
Proof.
  revert n a. induction tx as [|t tx IH]; intros n a Hnd Hb; cbn [put_all].
  - exists n, a. split_and!; [done|done|lia|by intros ? ?%elem_of_nil|done|by left].
  - cbn in Hnd. apply NoDup_cons in Hnd as [Hnin Hnd].
    pose proof (Hb t ltac:(by left)) as Hk. set (k := la_lookahead t - mn + i) in *.
    unfold act_put. rewrite (proj2 (Z.leb_le 0 k)), (proj2 (Z.ltb_lt k (zlen a))) by lia.
    cbn [andb mbind res_bind].
    set (n1 := if k >=? n then k + 1 else n).
    assert (n ≤ n1 ∧ k < n1 ∧ (n1 = n ∨ n1 = k + 1)) as (Hn1&Hn2&Hn3)
      by (unfold n1; destruct (Z.geb_spec k n); lia).
    destruct (IH n1 (<[Z.to_nat k := t]> a) Hnd) as (n'&a'&Hp&Hl&Hle&Hin&Hout&Hmax).
    { intros t' Ht'. unfold zlen. rewrite length_insert. apply Hb. by right. }
    exists n', a'. rewrite length_insert in Hl. split_and!; [done|done|lia| | |].
    + intros t' [->|Ht']%elem_of_cons; [|by apply Hin]. split; [|lia]. rewrite Hout.
      * apply act_at_Ok. split; [lia|]. apply list_lookup_insert_eq. unfold zlen in *. lia.
      * intros t' Ht' Hkk. apply Hnin, list_elem_of_fmap. exists t'. split; [lia|done].
    + intros j Hj. rewrite Hout by (intros; apply Hj; by right). unfold act_at.
      destruct (Z.leb_spec 0 j); [|done]. rewrite list_lookup_insert_ne; [done|].
      intros ?. apply (Hj t); [by left|lia].
    + destruct Hmax as [->|(t'&?&?)]; [|right; exists t'; split; [by right|done]].
      destruct Hn3 as [->| ->]; [by left|right; exists t; split; [by left|done]].
Qed.

(** ** The scans *)

Section Scan.
Context (p : acttab).
Notation mn := (mnLookahead p).
Notation entry := (act_at (aAction p)).

Lemma dup_matches_spec i tx :
  nAction p ≤ nActionAlloc p →
  ∃ b, dup_matches p i tx = Ok b ∧
    (b = true → ∀ t, t ∈ tx → entry (la_lookahead t - mn + i) = Ok t ∧ la_lookahead t - mn + i < nAction p).
Proof.
  intros Hal. induction tx as [|t tx (b&IH&Hb)]; cbn [dup_matches].
  { exists true. split; [done|]. by intros _ ? ?%elem_of_nil. }
  set (k := la_lookahead t - mn + i). unfold nActionAlloc in Hal.
  destruct (Z.ltb_spec k 0); [by exists false|]. destruct (Z.geb_spec k (nAction p)); [by exists false|].
  cbn [orb]. destruct (act_at_ex (aAction p) k) as [e He]; [lia|]. rewrite He. cbn [mbind res_bind].
  destruct (Z.eqb_spec (la_lookahead t) (la_lookahead e)); [|by exists false].
  destruct (Z.eqb_spec (la_action t) (la_action e)); [|by exists false]. cbn [negb].
  exists b. split; [done|]. intros Hb'. intros t' [->|Ht']%elem_of_cons; [|by apply Hb].
  fold k. rewrite He. split; [|lia]. destruct e, t. cbn in *. by subst.
Qed.

(** the positions [count_offset] counts *)
Definition counted (d j : Z) : Prop :=
  match entry j with Ok e => 0 ≤ la_lookahead e ∧ la_lookahead e = j + d | Err _ => False end.
#[global] Instance counted_dec d j : Decision (counted d j).
Proof. unfold counted. destruct (entry j); apply _. Defined.

Lemma count_offset_spec d j n :
  0 ≤ j → j + Z.of_nat n ≤ nActionAlloc p →
  count_offset p d j n = Ok (zlen (filter (counted d) (seqZ j (Z.of_nat n)))).
Proof.
  revert j. induction n as [|n IH]; intros j Hj Hb; cbn [count_offset]; [done|].
  destruct (act_at_ex (aAction p) j) as [e He]; [unfold nActionAlloc in Hb; lia|].
  rewrite He. cbn [mbind res_bind]. rewrite IH by lia. cbn [mbind res_bind].
  rewrite (seqZ_cons j) by lia. rewrite filter_cons.
  replace (Z.succ j) with (j + 1) by lia. replace (Z.pred (Z.of_nat (S n))) with (Z.of_nat n) by lia.
  f_equal. destruct (decide (counted d j)) as [Hc|Hc]; unfold counted in Hc; rewrite He in Hc.
  - rewrite (proj2 (Z.ltb_ge _ _)), (proj2 (Z.eqb_eq _ _)) by lia. unfold zlen. cbn [length]. lia.
  - destruct (Z.ltb_spec (la_lookahead e) 0); [done|].
    by rewrite (proj2 (Z.eqb_neq _ _)) by lia.
Qed.

(** a full count leaves no room for others *)
Lemma count_exact i tx n :
  NoDup (la_lookahead <$> tx) →
  (∀ t, t ∈ tx → 0 ≤ la_lookahead t ∧ entry (la_lookahead t - mn + i) = Ok t ∧ la_lookahead t - mn + i < n) →
  zlen (filter (counted (mn - i)) (seqZ 0 n)) = zlen tx →
  ∀ j e, 0 ≤ j < n → entry j = Ok e → 0 ≤ la_lookahead e → la_lookahead e = j + (mn - i) → e ∈ tx.
Proof.
  intros Hnd Hin Hc j e Hj He He0 Hl.
  set (ks := (λ t, la_lookahead t - mn + i) <$> tx).
  assert (ks ⊆+ filter (counted (mn - i)) (seqZ 0 n)) as Hsub.
  { apply NoDup_submseteq.
    - assert (ks = (λ l, l - mn + i) <$> (la_lookahead <$> tx)) as -> by (by rewrite <- list_fmap_compose).
      apply NoDup_fmap_2; [|done]. intros x y ?. lia.
    - intros k (t&->&Ht)%list_elem_of_fmap. destruct (Hin t Ht) as (?&Ht'&?). apply list_elem_of_filter.
      split; [|apply elem_of_seqZ; pose proof (act_at_lt _ _ _ Ht'); lia].
      unfold counted. rewrite Ht'. lia. }
  assert (ks ≡ₚ filter (counted (mn - i)) (seqZ 0 n)) as Hp.
  { apply submseteq_length_Permutation; [done|]. unfold ks. rewrite length_fmap. unfold zlen in Hc. lia. }
  assert (j ∈ ks) as (t&Hk&Ht)%list_elem_of_fmap.
  { rewrite Hp. apply list_elem_of_filter. split; [|apply elem_of_seqZ; lia].
    unfold counted. by rewrite He. }
  destruct (Hin t Ht) as (_&Ht'&_). rewrite <- Hk in Ht'. congruence.
Qed.

Lemma find_dup_spec end_ n :
  0 ≤ end_ → end_ + Z.of_nat n ≤ nAction p → nAction p ≤ nActionAlloc p →
  find_dup p end_ n = Ok None ∨
  ∃ i, find_dup p end_ n = Ok (Some i) ∧ end_ ≤ i < nAction p ∧
    (∀ t, t ∈ aLookahead p → entry (la_lookahead t - mn + i) = Ok t ∧ la_lookahead t - mn + i < nAction p) ∧
    zlen (filter (counted (mn - i)) (seqZ 0 (nAction p))) = nLookahead p.
Proof.
  intros He Hn Hal. induction n as [|n IH]; cbn [find_dup]; [by left|].
  specialize (IH ltac:(lia)). destruct (act_at_ex (aAction p) (end_ + Z.of_nat n)) as [e Hee];
    [unfold nActionAlloc in Hal; lia|].
  rewrite Hee. cbn [mbind res_bind]. destruct (_ =? mn); [|done].
  destruct (negb _); [done|].
  destruct (dup_matches_spec (end_ + Z.of_nat n) (aLookahead p) Hal) as (b&Hb&Hb'). rewrite Hb.
  cbn [mbind res_bind]. destruct b; cbn [negb]; [|done].
  rewrite count_offset_spec by lia. rewrite Z2Nat.id by lia. cbn [mbind res_bind].
  destruct (Z.eqb_spec (zlen (filter (counted (mn - (end_ + Z.of_nat n))) (seqZ 0 (nAction p)))) (nLookahead p));
    [|done].
  right. eexists. split; [done|]. split_and!; [lia|lia|by apply Hb'|done].
Qed.

Lemma hole_fits_spec i tx :
  (∀ t, t ∈ tx → la_lookahead t - mn + i < nActionAlloc p) →
  ∃ b, hole_fits p i tx = Ok b ∧
    (b = true ↔ ∀ t, t ∈ tx → ∃ e, entry (la_lookahead t - mn + i) = Ok e ∧ la_lookahead e < 0).
Proof.
  intros Hb. induction tx as [|t tx IH]; cbn [hole_fits].
  { exists true. split; [done|]. split; [by intros _ ? ?%elem_of_nil|done]. }
  destruct IH as (b&IH&Hiff). { intros. apply Hb. by right. }
  pose proof (Hb t ltac:(by left)) as Hk. unfold nActionAlloc in Hk.
  destruct (Z.ltb_spec (la_lookahead t - mn + i) 0).
  { exists false. split; [done|]. split; [done|]. intros H'. destruct (H' t) as (e&He&_); [by left|].
    apply act_at_lt in He. lia. }
  destruct (act_at_ex (aAction p) (la_lookahead t - mn + i)) as [e He]; [lia|].
  rewrite He. cbn [mbind res_bind]. destruct (Z.geb_spec (la_lookahead e) 0).
  { exists false. split; [done|]. split; [done|]. intros H'. destruct (H' t) as (e'&He'&?); [by left|].
    rewrite He in He'. simplify_eq. lia. }
  exists b. split; [done|]. rewrite Hiff. split.
  - intros H' t' [->|Ht']%elem_of_cons; [eauto|by apply H'].
  - intros H' t' Ht'. apply H'. by right.
Qed.

Lemma no_conflict_spec d j n :
  0 ≤ j → j + Z.of_nat n ≤ nActionAlloc p →
  ∃ b, no_conflict p d j n = Ok b ∧
    (b = true ↔ ∀ k e, j ≤ k < j + Z.of_nat n → entry k = Ok e → la_lookahead e ≠ k + d).
Proof.
  revert j. induction n as [|n IH]; intros j Hj Hb; cbn [no_conflict].
  { exists true. split; [done|]. split; [lia|done]. }
  destruct (act_at_ex (aAction p) j) as [e He]; [unfold nActionAlloc in Hb; lia|].
  rewrite He. cbn [mbind res_bind]. destruct (Z.eqb_spec (la_lookahead e) (j + d)) as [Heq|Hne].
  { exists false. split; [done|]. split; [done|]. intros H'. destruct (H' j e); [lia|done|done]. }
  destruct (IH (j + 1)) as (b&Hb1&Hiff); [lia..|]. exists b. split; [done|]. rewrite Hiff. split.
  - intros H' k e' Hk He'. destruct (decide (k = j)) as [->|]; [congruence|]. apply H'; [lia|done].
  - intros H' k e' Hk He'. apply H'; [lia|done].
Qed.

(** a place where the transaction can go *)
Definition good_hole (i : Z) : Prop :=
  (∃ e, entry i = Ok e ∧ la_lookahead e < 0) ∧
  (∀ t, t ∈ aLookahead p → ∃ e, entry (la_lookahead t - mn + i) = Ok e ∧ la_lookahead e < 0) ∧
  ∀ k e, 0 ≤ k < nAction p → entry k = Ok e → la_lookahead e ≠ k + (mn - i).

Lemma find_hole_spec n i :
  0 ≤ i → 0 ≤ nAction p ≤ nActionAlloc p →
  (∀ i' t, t ∈ aLookahead p → i ≤ i' < i + Z.of_nat n →
     i' < nActionAlloc p ∧ la_lookahead t - mn + i' < nActionAlloc p) →
  aLookahead p ≠ [] →
  ∃ i', find_hole p n i = Ok i' ∧ i ≤ i' ≤ i + Z.of_nat n ∧ (i' < i + Z.of_nat n → good_hole i') ∧
    (∀ i'', i ≤ i'' < i' → ¬ good_hole i'').
Proof.
  revert i. induction n as [|n IH]; intros i Hi Hal Hb Hne; cbn [find_hole].
  { exists i. split_and!; [done|lia..]. }
  assert (∃ t, t ∈ aLookahead p) as [t0 Ht0].
  { destruct (aLookahead p) as [|t tx]; [done|]. exists t. by left. }
  destruct (act_at_ex (aAction p) i) as [e He]; [unfold nActionAlloc in *; pose proof (Hb i t0 Ht0); lia|].
  destruct (IH (i + 1)) as (i'&Hf&Hr&Hg&Hn); [lia|done|intros; apply Hb; [done|lia]|done|].
  assert (∀ P : Prop, (good_hole i → False) → P = P →
     ∃ i', find_hole p n (i + 1) = Ok i' ∧ i ≤ i' ≤ i + Z.of_nat (S n) ∧ (i' < i + Z.of_nat (S n) → good_hole i') ∧
       (∀ i'', i ≤ i'' < i' → ¬ good_hole i'')) as Hnext.
  { intros _ Hbad _. exists i'. split_and!; [done|lia|lia|intros; apply Hg; lia|].
    intros i'' Hi''. destruct (decide (i'' = i)) as [->|]; [done|]. apply Hn. lia. }
  rewrite He. cbn [mbind res_bind]. destruct (Z.ltb_spec (la_lookahead e) 0); cycle 1.
  { apply (Hnext True); [|done]. intros [(e'&He'&?) _]. rewrite He in He'. simplify_eq. lia. }
  destruct (hole_fits_spec i (aLookahead p)) as (b&Hfit&Hbi); [intros t Ht; apply (Hb i t Ht); lia|].
  rewrite Hfit. cbn [mbind res_bind]. destruct b; cbn [negb]; cycle 1.
  { apply (Hnext True); [|done]. intros (_&Hx&_). apply Hbi in Hx. done. }
  destruct (no_conflict_spec (mn - i) 0 (Z.to_nat (nAction p))) as (c&Hc&Hci); [lia..|].
  rewrite Hc. cbn [mbind res_bind]. rewrite Z2Nat.id in Hci by lia. rewrite Z.add_0_l in Hci.
  destruct c; cycle 1.
  { apply (Hnext True); [|done]. intros (_&_&Hx). apply Hci in Hx. done. }
  exists i. split_and!; [done|lia|lia| |lia]. intros _. split_and!; [eauto|by apply Hbi|by apply Hci].
Qed.

End Scan.

(** ** The invariant *)

(** what the caller enters for one state: lookaheads that differ, terminals with
    [makeItSafe] and non-terminals without *)
Definition tx_ok (nt N : Z) (safe : bool) (tx : list lookahead_action) : Prop :=
  tx ≠ [] ∧ NoDup (la_lookahead <$> tx) ∧
  ∀ t, t ∈ tx → if safe then 0 ≤ la_lookahead t < nt else nt ≤ la_lookahead t < N.

(** the states entered so far with their offsets *)
Notation placed := (list (bool * Z * list lookahead_action)).

Record tab_ok (p : acttab) (G : placed) : Prop := {
  t_syms : 0 ≤ nterminal p < nsymbol p;
  t_n : 0 ≤ nAction p;
  t_tail : ∀ k e, act_at (aAction p) k = Ok e → nAction p ≤ k → la_lookahead e < 0;
  t_neg : ∀ k e, act_at (aAction p) k = Ok e → -1 ≤ la_lookahead e;
  t_wf : ∀ s o tx, (s, o, tx) ∈ G → tx_ok (nterminal p) (nsymbol p) s tx;
  t_in : ∀ s o tx t, (s, o, tx) ∈ G → t ∈ tx →
    act_at (aAction p) (o + la_lookahead t) = Ok t ∧ o + la_lookahead t < nAction p;
  t_own : ∀ j e, act_at (aAction p) j = Ok e → 0 ≤ la_lookahead e →
    ∃ s tx, (s, j - la_lookahead e, tx) ∈ G ∧ e ∈ tx;
  t_safe : ∀ o tx, (true, o, tx) ∈ G → 0 ≤ o ∧ o + nterminal p < nAction p ∧
    ∀ l e, 0 ≤ l < nterminal p → act_at (aAction p) (o + l) = Ok e → la_lookahead e = l → e ∈ tx;
}.

(** the transaction set and its summary *)
Record pending (p : acttab) (tx : list lookahead_action) : Prop := {
  pe_tx : aLookahead p = tx;
  pe_mn : ∀ t, t ∈ tx → mnLookahead p ≤ la_lookahead t;
  pe_mx : ∀ t, t ∈ tx → la_lookahead t ≤ mxLookahead p;
  pe_mn_in : tx ≠ [] → ∃ t, t ∈ tx ∧ la_lookahead t = mnLookahead p;
  pe_mx_in : tx ≠ [] → ∃ t, t ∈ tx ∧ la_lookahead t = mxLookahead p;
}.

Lemma acttab_action_pending p tx l a :
  pending p tx → pending (acttab_action p l a) (tx ++ [mkLA l a]).
Proof.
  intros [Htx Hmn Hmx Hmni Hmxi]. unfold acttab_action.
  destruct (Z.eqb_spec (nLookahead p) 0) as [H0|H0]; cbn.
  - assert (tx = []) as Hnil by (unfold nLookahead, zlen in H0; subst tx; destruct (aLookahead p); [done|cbn in *; lia]).
    rewrite Hnil in *. constructor; cbn; [by rewrite Htx|..].
    1,2: intros t ->%list_elem_of_singleton; cbn; lia.
    all: intros _; exists (mkLA l a); split; [by left|done].
  - assert (tx ≠ []) as Hne by (intros E; rewrite E in Htx; unfold nLookahead in H0; by rewrite Htx in H0).
    destruct (Hmni Hne) as (tm&Htm&Em), (Hmxi Hne) as (tM&HtM&EM).
    destruct (Z.gtb_spec (mnLookahead p) l), (Z.ltb_spec (mxLookahead p) l);
      constructor; cbn; try (by rewrite Htx); intros t;
      try (intros [Ht| ->%list_elem_of_singleton]%elem_of_app; cbn;
           [pose proof (Hmn t Ht); pose proof (Hmx t Ht); lia|lia]).
    all: first
      [ exists (mkLA l a); split; [apply elem_of_app; right; by left|done]
      | exists tm; split; [apply elem_of_app; by left|done]
      | exists tM; split; [apply elem_of_app; by left|done] ].
Qed.

Lemma acttab_action_frame p l a :
  nAction (acttab_action p l a) = nAction p ∧ aAction (acttab_action p l a) = aAction p ∧
  nterminal (acttab_action p l a) = nterminal p ∧ nsymbol (acttab_action p l a) = nsymbol p.
Proof. unfold acttab_action. repeat case_match; done. Qed.

Lemma tab_ok_ext p p' G :
  nAction p' = nAction p → aAction p' = aAction p → nterminal p' = nterminal p → nsymbol p' = nsymbol p →
  tab_ok p G → tab_ok p' G.
Proof. intros H1 H2 H3 H4 []. constructor; by rewrite ?H1, ?H2, ?H3, ?H4. Qed.

Lemma acttab_actions_ok p G tx0 tx :
  tab_ok p G → pending p tx0 →
  let p' := foldl (λ p t, acttab_action p t.1 t.2) p tx in
  tab_ok p' G ∧ pending p' (tx0 ++ ((λ t, mkLA t.1 t.2) <$> tx)) ∧
  nterminal p' = nterminal p ∧ nsymbol p' = nsymbol p.
Proof.
  revert p tx0. induction tx as [|[l a] tx IH]; intros p tx0 Hok Hp; cbn [foldl fmap list_fmap fst snd].
  - by rewrite app_nil_r.
  - destruct (acttab_action_frame p l a) as (F1&F2&F3&F4).
    destruct (IH (acttab_action p l a) (tx0 ++ [mkLA l a])) as (?&?&?&?).
    + by apply (tab_ok_ext p).
    + by apply acttab_action_pending.
    + rewrite cons_middle, app_assoc. split_and!; [done|done|congruence|congruence].
Qed.

Lemma acttab_grow_ok p G tx :
  tab_ok p G → pending p tx →
  tab_ok (acttab_grow p) G ∧ pending (acttab_grow p) tx ∧
  nAction (acttab_grow p) + nsymbol p + 1 < nActionAlloc (acttab_grow p) ∧
  nAction (acttab_grow p) = nAction p ∧ nterminal (acttab_grow p) = nterminal p ∧
  nsymbol (acttab_grow p) = nsymbol p.
Proof.
  intros Hok Hp. unfold acttab_grow. destruct (Z.geb_spec (nAction p + (nsymbol p + 1)) (nActionAlloc p)) as [Hg|Hg];
    [|split_and!; [done|done|lia|done..]].
  pose proof Hok as [Hs Hn Ht Hng Hw Hi Ho Hsf]. pose proof (zlen_nonneg (aAction p)) as Hz.
  split_and!; [|by destruct Hp| |done..].
  - assert (∀ k e, act_at (aAction p ++ replicate (Z.to_nat (nAction p + (nsymbol p + 1) + 20)) la_empty) k = Ok e →
       act_at (aAction p) k = Ok e ∨ e = la_empty) as Hx.
    { intros k e [Hk [H|[_ H]]%lookup_app_Some]%act_at_Ok; [left; by apply act_at_Ok|].
      apply lookup_replicate in H as [-> _]. by right. }
    assert (∀ k e, act_at (aAction p) k = Ok e →
       act_at (aAction p ++ replicate (Z.to_nat (nAction p + (nsymbol p + 1) + 20)) la_empty) k = Ok e) as Hy.
    { intros k e [Hk H]%act_at_Ok. apply act_at_Ok. split; [done|]. by apply lookup_app_l_Some. }
    constructor; cbn; [done|done| | |done| | |].
    + intros k e [H| ->]%Hx ?; [by eapply Ht|cbn; lia].
    + intros k e [H| ->]%Hx; [by eapply Hng|cbn; lia].
    + intros s o tx' t HG Ht'. destruct (Hi _ _ _ _ HG Ht'). split; [by apply Hy|done].
    + intros j e [H| ->]%Hx He; [by apply Ho|cbn in He; lia].
    + intros o tx' HG. destruct (Hsf _ _ HG) as (?&?&Hl). split_and!; [done..|].
      intros l e Hl' [Hq| ->]%Hx E; [by eapply Hl|cbn in E; lia].
  - unfold nActionAlloc, zlen in *. cbn. rewrite length_app, length_replicate. lia.
Qed.

(** ** One insertion *)

(** where the two scans may put the transaction *)
Definition place (p : acttab) (i : Z) : Prop :=
  (∀ t, t ∈ aLookahead p → ∃ e, act_at (aAction p) (la_lookahead t - mnLookahead p + i) = Ok e ∧
     la_lookahead e < 0) ∧
  (nAction p ≤ i ∨ ∀ k e, 0 ≤ k < nAction p → act_at (aAction p) k = Ok e →
     la_lookahead e ≠ k + (mnLookahead p - i)).

Lemma find_hole_place p G tx end_ :
  tab_ok p G → pending p tx → tx ≠ [] → nAction p + nsymbol p + 1 < nActionAlloc p →
  0 ≤ mnLookahead p → mxLookahead p < nsymbol p → (end_ = 0 ∨ end_ = mnLookahead p) →
  ∃ i, find_hole p (Z.to_nat (nActionAlloc p - mxLookahead p - end_)) end_ = Ok i ∧ end_ ≤ i ∧ place p i.
Proof.
  intros Hok Hp Hne Hal Hmn Hmx Hend. pose proof (t_n _ _ Hok) as Hn.
  assert (mnLookahead p ≤ mxLookahead p) as Hmm.
  { destruct (pe_mn_in _ _ Hp Hne) as (t&Ht&<-). by apply (pe_mx _ _ Hp). }
  assert (∀ t, t ∈ aLookahead p → mnLookahead p ≤ la_lookahead t ≤ mxLookahead p) as Hrange.
  { intros t Ht. rewrite (pe_tx _ _ Hp) in Ht. split; [by apply (pe_mn _ _ Hp)|by apply (pe_mx _ _ Hp)]. }
  assert (∀ k, nAction p ≤ k < nActionAlloc p → ∃ e, act_at (aAction p) k = Ok e ∧ la_lookahead e < 0) as Hempty.
  { intros k Hk. destruct (act_at_ex (aAction p) k) as [e He]; [unfold nActionAlloc in Hk; lia|].
    exists e. split; [done|]. eapply (t_tail _ _ Hok); [done|lia]. }
  destruct (find_hole_spec p (Z.to_nat (nActionAlloc p - mxLookahead p - end_)) end_) as (i&Hf&Hr&Hg&Hb).
  { lia. } { lia. }
  { intros i' t Ht Hi'. pose proof (Hrange t Ht). lia. }
  { by rewrite (pe_tx _ _ Hp). }
  exists i. split; [done|]. split; [lia|].
  destruct (decide (i < end_ + Z.of_nat (Z.to_nat (nActionAlloc p - mxLookahead p - end_)))) as [Hlt|Hge].
  { destruct (Hg Hlt) as (_&?&?). split; [done|by right]. }
  assert (nAction p + 3 ≤ i) as Hi by lia.
  split; [|by left; lia]. intros t Ht. pose proof (Hrange t Ht). apply Hempty.
  split; [lia|]. destruct (decide (mnLookahead p = 0)) as [Hz|Hz]; [|lia].
  (* with lookahead 0 in the set, a hole is found after the used part *)
  exfalso. apply (Hb (nAction p + 1)); [lia|]. split_and!.
  - apply Hempty. lia.
  - intros t' Ht'. pose proof (Hrange t' Ht'). apply Hempty. lia.
  - intros k e Hk He. rewrite Hz. intros E. assert (la_lookahead e < -1) by lia.
    pose proof (t_neg _ _ Hok _ _ He). lia.
Qed.

(** the table after a transaction has been put at offset [o] *)
Lemma put_ok p G tx safe i n a n' p' :
  tab_ok p G → pending p tx → tx_ok (nterminal p) (nsymbol p) safe tx →
  (safe = true → mnLookahead p ≤ i) →
  put_all i (mnLookahead p) tx (nAction p) (aAction p) = Ok (n, a) →
  (∀ t, t ∈ tx → act_at a (la_lookahead t - mnLookahead p + i) = Ok t ∧ la_lookahead t - mnLookahead p + i < n) →
  (∀ j, (∀ t, t ∈ tx → j ≠ la_lookahead t - mnLookahead p + i) → act_at a j = act_at (aAction p) j) →
  nAction p ≤ n → (n = nAction p ∨ ∃ t, t ∈ tx ∧ n = la_lookahead t - mnLookahead p + i + 1) →
  n ≤ n' → (safe = true → i + nterminal p < n') →
  (* an overwritten entry is not an entry, or the same *)
  (∀ t e, t ∈ tx → act_at (aAction p) (la_lookahead t - mnLookahead p + i) = Ok e → 0 ≤ la_lookahead e → e = t) →
  (* terminals of the new offset are those of the transaction *)
  (safe = true → ∀ l e, 0 ≤ l < nterminal p → act_at (aAction p) (i - mnLookahead p + l) = Ok e →
     la_lookahead e = l → e ∈ tx) →
  (* the new entries are not terminals of another offset *)
  (safe = true → ∀ o tx' t, (true, o, tx') ∈ G → t ∈ tx → o = i - mnLookahead p → t ∈ tx') →
  nAction p' = n' → aAction p' = a → nterminal p' = nterminal p → nsymbol p' = nsymbol p →
  tab_ok p' ((safe, i - mnLookahead p, tx) :: G).
Proof.
  intros Hok Hp Htx Hi Hput Hin Hout Hle Hmax Hn' Hsafe Hov Hnew Hold E1 E2 E3 E4.
  pose proof Hok as [Hs Hn Ht Hng Hw HG Ho Hsf]. set (m := mnLookahead p) in *.
  assert (∀ j e, act_at a j = Ok e → e ∈ tx ∧ j = la_lookahead e - m + i ∨
     (∀ t, t ∈ tx → j ≠ la_lookahead t - m + i) ∧ act_at (aAction p) j = Ok e) as Hcase.
  { intros j e He. destruct (decide (Exists (λ t, j = la_lookahead t - m + i) tx)) as [(t&Ht'&->)%Exists_exists|Hno].
    - left. destruct (Hin t Ht') as [Hat _]. rewrite Hat in He. injection He as <-. done.
    - right. assert (∀ t, t ∈ tx → j ≠ la_lookahead t - m + i) as Hj.
      { intros t Ht' ->. apply Hno, Exists_exists. by exists t. }
      split; [done|]. by rewrite <- Hout. }
  assert (∀ t, t ∈ tx → 0 ≤ la_lookahead t < nsymbol p) as Hpos.
  { intros t Ht'. pose proof (proj2 (proj2 Htx) t Ht'). destruct safe; lia. }
  assert (0 ≤ m) as Hm0.
  { destruct (pe_mn_in _ _ Hp (proj1 Htx)) as (t&Ht'&E). fold m in E. pose proof (Hpos t Ht'). lia. }
  constructor; rewrite ?E1, ?E2, ?E3, ?E4.
  - done.
  - lia.
  - intros k e He Hk. destruct (Hcase k e He) as [[He' ->]|[_ He']].
    + destruct (Hin e He'). lia.
    + eapply Ht; [done|lia].
  - intros k e He. destruct (Hcase k e He) as [[He' ->]|[_ He']]; [pose proof (Hpos e He'); lia|by eapply Hng].
  - intros s o tx' [[= -> -> ->]|H]%elem_of_cons; [done|by eapply Hw].
  - intros s o tx' t [[= -> -> ->]|H]%elem_of_cons Ht'.
    + destruct (Hin t Ht'). replace (i - m + la_lookahead t) with (la_lookahead t - m + i) by lia. split; [done|lia].
    + destruct (HG _ _ _ _ H Ht') as [Hat Hlt]. split; [|lia].
      destruct (decide (Exists (λ t', o + la_lookahead t = la_lookahead t' - m + i) tx))
        as [(t'&Ht''&Heq)%Exists_exists|Hno].
      * rewrite Heq in *. assert (t = t') as -> by (apply (Hov t' t); [done|done|]; 
          pose proof (Hw _ _ _ H) as (_&_&Hr); pose proof (Hr t Ht'); destruct s; lia).
        by apply Hin.
      * rewrite Hout; [done|]. intros t' Ht'' Heq. apply Hno, Exists_exists. by exists t'.
  - intros j e He He0. destruct (Hcase j e He) as [[He' ->]|[_ He']].
    + exists safe, tx. split; [|done]. replace (_ - _ + i - _) with (i - m) by lia. by left.
    + destruct (Ho j e He' He0) as (s&tx'&?&?). exists s, tx'. split; [by right|done].
  - intros o tx' [[= <- -> ->]|H]%elem_of_cons.
    + split_and!; [specialize (Hi eq_refl); lia|specialize (Hsafe eq_refl); lia|].
      intros l e Hl He Hle'. destruct (Hcase _ e He) as [[He' _]|[_ He']]; [done|]. by eapply Hnew.
    + destruct (Hsf _ _ H) as (?&?&Hl). split_and!; [done|lia|]. intros l e Hl' He Hle'.
      destruct (Hcase _ e He) as [[He' Heq]|[_ He']]; [|by eapply Hl].
      destruct safe.
      * eapply Hold; [done|done|done|lia].
      * pose proof (proj2 (proj2 Htx) e He') as Hr. cbn in Hr. lia.
Qed.

Lemma acttab_insert_ok p G tx safe :
  tab_ok p G → pending p tx → tx_ok (nterminal p) (nsymbol p) safe tx →
  ∃ o p', acttab_insert p safe = Ok (o, p') ∧ tab_ok p' ((safe, o, tx) :: G) ∧ pending p' [] ∧
    nterminal p' = nterminal p ∧ nsymbol p' = nsymbol p.
Proof.
  intros Hok0 Hp0 Htx0. pose proof Htx0 as (Hne&Hnd&Hr). unfold acttab_insert.
  destruct (acttab_grow_ok p G tx Hok0 Hp0) as (Hok&Hp&Hal&Hn&Hnt&Hns).
  assert ((nLookahead p =? 0) = false) as ->.
  { apply Z.eqb_neq. unfold nLookahead. rewrite (pe_tx _ _ Hp0). destruct tx; [done|]. unfold zlen. cbn. lia. }
  rewrite <- Hns in Hal. rewrite <- Hnt, <- Hns in Htx0, Hr.
  rewrite <- Hnt, <- Hns. clear Hn Hnt Hns Hok0 Hp0. cbv zeta. set (q := acttab_grow p) in *. clearbody q. clear p.
  assert (∀ t, t ∈ tx → 0 ≤ la_lookahead t < nsymbol q) as Hpos.
  { intros t Ht. pose proof (Hr t Ht). pose proof (t_syms _ _ Hok). destruct safe; lia. }
  destruct (pe_mn_in _ _ Hp Hne) as (tm&Htm&Em), (pe_mx_in _ _ Hp Hne) as (tM&HtM&EM).
  pose proof (Hpos tm Htm). pose proof (Hpos tM HtM). pose proof (t_n _ _ Hok).
  set (end_ := if safe then mnLookahead q else 0).
  assert (0 ≤ end_ ∧ (end_ = 0 ∨ end_ = mnLookahead q) ∧ (safe = true → end_ = mnLookahead q)) as (He0&He1&He2)
    by (unfold end_; destruct safe; split_and!; auto; lia).
  assert (∃ d i, find_dup q end_ (Z.to_nat (nAction q - end_)) = Ok d ∧
     match d with
     | Some i => Ok i
     | None => find_hole q (Z.to_nat (nActionAlloc q - mxLookahead q - end_)) end_
     end = Ok i ∧ end_ ≤ i ∧
     (place q i ∨ (d = Some i ∧ i < nAction q ∧
       (∀ t, t ∈ tx → act_at (aAction q) (la_lookahead t - mnLookahead q + i) = Ok t ∧
           la_lookahead t - mnLookahead q + i < nAction q) ∧
       zlen (filter (counted q (mnLookahead q - i)) (seqZ 0 (nAction q))) = zlen tx)))
    as (d&i&Hd&Hi&Hei&Hpl).
  { assert (find_dup q end_ (Z.to_nat (nAction q - end_)) = Ok None ∨
       ∃ i, find_dup q end_ (Z.to_nat (nAction q - end_)) = Ok (Some i) ∧ end_ ≤ i < nAction q ∧
       (∀ t, t ∈ aLookahead q → act_at (aAction q) (la_lookahead t - mnLookahead q + i) = Ok t ∧
           la_lookahead t - mnLookahead q + i < nAction q) ∧
       zlen (filter (counted q (mnLookahead q - i)) (seqZ 0 (nAction q))) = nLookahead q) as Hfd.
    { destruct (decide (end_ ≤ nAction q)); [apply find_dup_spec; lia|].
      left. by replace (Z.to_nat (nAction q - end_)) with 0%nat by lia. }
    destruct Hfd as [Hd|(i&Hd&?&Hm&Hc)].
    - destruct (find_hole_place q G tx end_) as (i&?&?&?); [done..|lia|lia|done|].
      exists None, i. split_and!; [done|done|done|by left].
    - exists (Some i), i. split_and!; [done|done|lia|]. right. rewrite <- (pe_tx _ _ Hp).
      split_and!; [done|lia|done|done]. }
  rewrite Hd. cbn [mbind res_bind]. rewrite Hi. cbn [mbind res_bind]. rewrite (pe_tx _ _ Hp).
  destruct (put_all_spec i (mnLookahead q) tx (nAction q) (aAction q)) as (n&a&Hput&_&Hle&Hin&Hout&Hmax); [done| |].
  { intros t Ht. destruct Hpl as [[Hpl _]|(_&_&Hpl&_)].
    - rewrite (pe_tx _ _ Hp) in Hpl. destruct (Hpl t Ht) as (e&He&_). by eapply act_at_lt.
    - destruct (Hpl t Ht) as [He _]. by eapply act_at_lt. }
  rewrite Hput. eexists _, _. split; [done|]. split; [|split; [|done]].
  - set (n' := if safe && (i + nterminal q >=? n) then i + nterminal q + 1 else n).
    assert (n ≤ n' ∧ (safe = true → i + nterminal q < n')) as [Hn1 Hn2].
    { unfold n'. destruct safe; cbn [andb]; [|split; [lia|done]].
      destruct (Z.geb_spec (i + nterminal q) n); (split; [lia|intros _; lia]). }
    eapply (put_ok q G tx safe i n a n'); try done.
    + intros Hs. rewrite <- (He2 Hs). done.
    + intros t e Ht He He'. destruct Hpl as [[Hpl _]|(_&_&Hpl&_)].
      * rewrite (pe_tx _ _ Hp) in Hpl. destruct (Hpl t Ht) as (e'&He1'&?). rewrite He in He1'. simplify_eq. lia.
      * destruct (Hpl t Ht). congruence.
    + intros Hs l e Hl He Hel. pose proof (He2 Hs) as Hend.
      destruct Hpl as [[_ [Hge|Hnc]]|(_&_&Hm&Hc)].
      * destruct (t_own _ _ Hok _ _ He) as (s&tx'&HG&Hetx); [lia|].
        pose proof (proj2 (t_in _ _ Hok _ _ _ _ HG Hetx)).
        assert (i - mnLookahead q + l - la_lookahead e = i - mnLookahead q) as Ho by lia.
        rewrite Ho in HG. pose proof (t_wf _ _ Hok _ _ _ HG) as (_&_&Hw).
        pose proof (Hr tm Htm) as Htmr. rewrite Hs in Htmr.
        destruct s; [destruct (t_safe _ _ Hok _ _ HG) as (_&?&_); lia|].
        pose proof (Hw e Hetx) as Hwe. cbn in Hwe. lia.
      * exfalso. pose proof (act_at_lt _ _ _ He). apply (Hnc (i - mnLookahead q + l) e); [|done|lia].
        split; [lia|]. apply Z.lt_nge. intros Hx. pose proof (t_tail _ _ Hok _ _ He Hx). lia.
      * pose proof (act_at_lt _ _ _ He). eapply (count_exact q i tx (nAction q)); [done| |done| |done|lia|lia].
        -- intros t Ht. destruct (Hm t Ht). pose proof (Hpos t Ht). split_and!; [lia|done..].
        -- split; [lia|]. apply Z.lt_nge. intros Hx. pose proof (t_tail _ _ Hok _ _ He Hx). lia.
    + intros Hs o tx' t HG Ht ->. pose proof (t_wf _ _ Hok _ _ _ HG) as (Hne'&_&Hw').
      pose proof (Hr t Ht) as Htr. rewrite Hs in Htr.
      destruct Hpl as [[Hpl [Hge|Hnc]]|(_&_&Hm&Hc)].
      * destruct (t_safe _ _ Hok _ _ HG) as (_&?&_). pose proof (Hr tm Htm) as Htmr. rewrite Hs in Htmr. lia.
      * exfalso. destruct tx' as [|t' tx']; [done|]. destruct (t_in _ _ Hok _ _ _ t' HG) as [Hat ?]; [by left|].
        pose proof (act_at_lt _ _ _ Hat). apply (Hnc (i - mnLookahead q + la_lookahead t') t'); [lia|done|lia].
      * destruct (Hm t Ht) as [Hat _]. destruct (t_safe _ _ Hok _ _ HG) as (_&_&Hx).
        apply (Hx (la_lookahead t) t); [done| |done].
        replace (i - mnLookahead q + la_lookahead t) with (la_lookahead t - mnLookahead q + i) by lia. done.
  - constructor; cbn; [done| | |done|done]; by intros ? ?%elem_of_nil.
Qed.

(** ** The whole table *)

Definition to_la (tx : list (Z * Z)) : list lookahead_action := (λ t, mkLA t.1 t.2) <$> tx.

(** a state's actions as [ReportTable] enters them *)
Definition state_tx_ok (nt N : Z) (t : bool * list (Z * Z)) : Prop :=
  t.2 ≠ [] ∧ NoDup (t.2).*1 ∧
  ∀ l a, (l, a) ∈ t.2 → if t.1 then 0 ≤ l < nt else nt ≤ l < N.

Lemma state_tx_la nt N s tx : state_tx_ok nt N (s, tx) → tx_ok nt N s (to_la tx).
Proof.
  intros (Hne&Hnd&Hr). cbn in *. unfold to_la. split_and!.
  - by destruct tx.
  - by rewrite <- list_fmap_compose.
  - intros t ([l a]&->&Ht)%list_elem_of_fmap. by apply (Hr l a).
Qed.

Lemma acttab_build_ok txs p G :
  tab_ok p G → pending p [] → Forall (state_tx_ok (nterminal p) (nsymbol p)) txs →
  ∃ os p' G', acttab_build p txs = Ok (os, p') ∧ tab_ok p' G' ∧ nterminal p' = nterminal p ∧
    (∀ x, x ∈ G → x ∈ G') ∧
    Forall2 (λ t o, (t.1, o, to_la t.2) ∈ G') txs os.
Proof.
  revert p G. induction txs as [|[s tx] txs IH]; intros p G Hok Hp Hall; cbn [acttab_build].
  - exists [], p, G. split_and!; done.
  - apply Forall_cons in Hall as [Htx Hall]. unfold acttab_add.
    destruct (acttab_actions_ok p G [] tx Hok Hp) as (Hok1&Hp1&Hnt1&Hns1).
    set (p1 := foldl _ p tx) in *. change (pending p1 (to_la tx)) in Hp1.
    destruct (acttab_insert_ok p1 G (to_la tx) s) as (o&p2&Hi&Hok2&Hp2&Hnt2&Hns2);
      [done|done|rewrite Hnt1, Hns1; by apply state_tx_la|].
    rewrite Hi. destruct (IH p2 ((s, o, to_la tx) :: G)) as (os&p'&G'&Hb&Hok'&Hnt'&Hsub&HF); [done|done| |].
    { by rewrite Hnt2, Hns2, Hnt1, Hns1. }
    rewrite Hb. exists (o :: os), p', G'. split_and!; [done|done|congruence|intros; apply Hsub; by right|].
    constructor; [apply Hsub; by left|done].
Qed.

Lemma acttab_alloc_ok N nt : 0 ≤ nt < N → tab_ok (acttab_alloc N nt) [] ∧ pending (acttab_alloc N nt) [].
Proof.
  intros ?. split.
  - constructor; cbn; try done.
    + intros k e H'. apply act_at_lt in H'. unfold zlen in H'. cbn in H'. lia.
    + intros k e H'. apply act_at_lt in H'. unfold zlen in H'. cbn in H'. lia.
    + by intros ? ? ? ?%elem_of_nil.
    + by intros ? ? ? ? ?%elem_of_nil.
    + intros k e H'. apply act_at_lt in H'. unfold zlen in H'. cbn in H'. lia.
    + by intros ? ? ?%elem_of_nil.
  - constructor; cbn; [done| | |done|done]; by intros ? ?%elem_of_nil.
Qed.

(** C13: Packing the actions of any number of states into one table keeps them
    all: no step faults, every action entered for a state is found again at the
    state's offset, and for a state entered with [makeItSafe] (the terminals) a
    lookahead without an action finds nothing, its offset is not negative and no
    terminal reads past the end of [yy_lookahead]. *)
Theorem acttab_build_correct N nt txs :
  0 ≤ nt < N → Forall (state_tx_ok nt N) txs →
  ∃ os p, acttab_build (acttab_alloc N nt) txs = Ok (os, p) ∧
    Forall2 (λ t o,
      (∀ l a, (l, a) ∈ t.2 → acttab_lookup p o l = Some a) ∧
      (t.1 = true → 0 ≤ o ∧ o + nt < nAction p ∧
         ∀ l, 0 ≤ l < nt → l ∉ (t.2).*1 → acttab_lookup p o l = None)) txs os.
Proof.
  intros Hnt Hall. destruct (acttab_alloc_ok N nt Hnt) as [Hok Hp].
  destruct (acttab_build_ok txs _ _ Hok Hp Hall) as (os&p&G&Hb&Hok'&Hn&_&HF). cbn in Hn.
  exists os, p. split; [done|]. eapply Forall2_impl; [done|]. intros [s tx] o HG. cbn in *. split.
  - intros l a Hla. assert (mkLA l a ∈ to_la tx) as Hin.
    { apply list_elem_of_fmap. by exists (l, a). }
    destruct (t_in _ _ Hok' _ _ _ _ HG Hin) as [Hat _]. cbn in Hat.
    unfold acttab_lookup. rewrite Hat. cbn. by rewrite Z.eqb_refl.
  - intros ->. destruct (t_safe _ _ Hok' _ _ HG) as (?&?&Hex). rewrite Hn in *. split_and!; [done..|].
    intros l Hl Hnin. unfold acttab_lookup. destruct (act_at (aAction p) (o + l)) as [e|] eqn:He; [|done].
    destruct (Z.eqb_spec (la_lookahead e) l) as [Hel|]; [|done]. exfalso.
    pose proof (Hex l e Hl He Hel) as ([l' a']&->&Ht)%list_elem_of_fmap. cbn in Hel. subst l'.
    apply Hnin, list_elem_of_fmap. by exists (l, a').
Qed.

(** five states of a grammar with seven terminals and one non-terminal *)
Definition ex_txs : list (bool * list (Z * Z)) :=
  [(true, [(6, 1)]); (true, [(2, 2)]); (true, [(0, 3); (6, 3)]); (false, [(7, 4)]); (true, [(5, 5); (6, 5)])].

Lemma acttab_build_correct_witness :
  ∃ os p, acttab_build (acttab_alloc 8 7) ex_txs = Ok (os, p) ∧
    Forall2 (λ t o,
      (∀ l a, (l, a) ∈ t.2 → acttab_lookup p o l = Some a) ∧
      (t.1 = true → 0 ≤ o ∧ o + 7 < nAction p ∧
         ∀ l, 0 ≤ l < 7 → l ∉ (t.2).*1 → acttab_lookup p o l = None)) ex_txs os.
Proof.
  apply (acttab_build_correct 8 7 ex_txs); [lia|].
  repeat (apply Forall_cons; split; [split; [discriminate|split;
    [cbn; apply (bool_decide_unpack _); vm_compute; exact I|]]|]); [..|apply Forall_nil; exact I].
  all: cbn; intros l a H; repeat (apply elem_of_cons in H as [H|H]; [injection H; intros; lia|]);
    apply elem_of_nil in H; destruct H.
Defined.

(** [acttab_insert] can leave [nAction] above the number of allocated slots:
    the padding that makes terminals safe is not part of the space reserved. For
    the five states above, [acttab_action_size] then reads past the end of
    [aAction]. *)
Theorem acttab_size_overread :
  match acttab_build (acttab_alloc 8 7) ex_txs with
  | Ok (os, p) => nActionAlloc p < nAction p ∧ acttab_action_size p = Err OutOfBounds
  | Err _ => False
  end.
Proof. vm_compute. done. Qed.
