(* ===== verification/Lempar.v ===== *)
(** The parser driver that lemon instantiates ([src/sql/lempar.c]): a stack
    machine that runs on the generated tables. The tables, the constants of the
    [%%] sections and the grammar's own code (reduce actions, destructors and the
    [%syntax_error], [%parse_accept], [%parse_failure], [%stack_overflow]
    sections) are generated text, so they are parameters. A failing [assert] is
    the fault [ExitCalled]; trace output is left out. *)
From S2P Require Import Prelude.

(** the generated constants and tables *)
Record yytables := mkTables {
  YYSTACKDEPTH : Z;
  YYNSTATE : Z;
  YYNTOKEN : Z;
  YYNOCODE : Z;
  YYWILDCARD : option Z;
  YYERRORSYMBOL : option Z;
  YYNOERRORRECOVERY : bool;
  YYTRACKMAXSTACKDEPTH : bool;
  YY_MAX_SHIFT : Z;
  YY_MIN_SHIFTREDUCE : Z;
  YY_MAX_SHIFTREDUCE : Z;
  YY_ERROR_ACTION : Z;
  YY_ACCEPT_ACTION : Z;
  YY_MIN_REDUCE : Z;
  YY_SHIFT_COUNT : Z;
  YY_REDUCE_COUNT : Z;
  YY_ACTTAB_COUNT : Z;
  yy_action : list Z;
  yy_lookahead : list Z;
  yy_shift_ofst : list Z;
  yy_reduce_ofst : list Z;
  yy_default : list Z;
  yyFallback : option (list Z);
  yyRuleInfoLhs : list Z;
  yyRuleInfoNRhs : list Z;
}.

(** the code sections of the grammar, over the token type [T], the type [M] of
    semantic values and the state [U] that the code reads and writes *)
Record yycode (T M U : Type) := mkCode {
  yy0 : T → M;
  destructor_code : Z → M → U → U;
  reduce_code : Z → list M → Z → T → U → M * U;
  overflow_code : U → U;
  failure_code : U → U;
  syntax_error_code : Z → T → U → U;
  accept_code : U → U;
}.
Arguments yy0 {T M U}. Arguments destructor_code {T M U}. Arguments reduce_code {T M U}.
Arguments overflow_code {T M U}. Arguments failure_code {T M U}.
Arguments syntax_error_code {T M U}. Arguments accept_code {T M U}.

(** [a[i]] of a generated array *)
Definition tab (a : list Z) (i : Z) : res Z :=
  if 0 <=? i then of_opt OutOfBounds (a !! Z.to_nat i) else Err OutOfBounds.

Lemma tab_Ok a i x : tab a i = Ok x ↔ 0 ≤ i ∧ a !! Z.to_nat i = Some x.
Proof.
  unfold tab. destruct (Z.leb_spec 0 i); [|split; [done|lia]].
  rewrite of_opt_Ok. naive_solver.
Qed.

Definition assert (b : bool) : res unit := if b then Ok tt else Err ExitCalled.

Record yyStackEntry (M : Type) := mkEntry { stateno : Z; major : Z; minor : M }.
Arguments mkEntry {M}. Arguments stateno {M}. Arguments major {M}. Arguments minor {M}.

(** the stack has its top first: [yytos] is its head, [yytos - yystack] is
    [depth]; [yystksz] is the capacity of a stack that grows *)
Record yyParser (M U : Type) := mkParser {
  yystack : list (yyStackEntry M);
  yystksz : Z;
  yyhwm : Z;
  yyerrcnt : Z;
  yyuser : U;
}.
Arguments mkParser {M U}. Arguments yystack {M U}. Arguments yystksz {M U}.
Arguments yyhwm {M U}. Arguments yyerrcnt {M U}. Arguments yyuser {M U}.

(** how a call of [Parse] ended *)
Inductive yyresult := RShift | RAccept | RError | ROverflow.

Section Driver.
Context (Y : yytables) {T M U : Type} (C : yycode T M U).
(** [malloc_ok n]: does an allocation of [n] stack entries succeed? *)
Context (malloc_ok : Z → bool).
Notation parser := (yyParser M U).
Notation entry := (yyStackEntry M).
Implicit Types (p : parser) (k : list entry) (u : U).

Definition depth p : Z := zlen (yystack p) - 1.
Definition upd_stack p k : parser := mkParser k (yystksz p) (yyhwm p) (yyerrcnt p) (yyuser p).
Definition upd_user p u : parser := mkParser (yystack p) (yystksz p) (yyhwm p) (yyerrcnt p) u.
Definition upd_errcnt p n : parser := mkParser (yystack p) (yystksz p) (yyhwm p) n (yyuser p).
Definition upd_hwm p n : parser := mkParser (yystack p) (yystksz p) n (yyerrcnt p) (yyuser p).
Definition upd_stksz p n : parser := mkParser (yystack p) n (yyhwm p) (yyerrcnt p) (yyuser p).

(** the number of errors and the parser *)
Definition yyGrowStack p : Z * parser :=
  let newSize := yystksz p * 2 + 100 in
  if malloc_ok newSize then (0, upd_stksz p newSize) else (1, p).

Definition ParseInit (m0 : M) u : parser :=
  let p := mkParser [mkEntry 0 0 m0] 0 0 (-1) u in
  if YYSTACKDEPTH Y <=? 0 then
    let '(err, p) := yyGrowStack p in
    if err =? 0 then p else upd_stksz p 1
  else p.

Definition ParseAlloc (alloc_ok : bool) (m0 : M) u : option parser :=
  if alloc_ok then Some (ParseInit m0 u) else None.

Definition yy_destructor (yymajor : Z) (yypminor : M) p : parser :=
  upd_user p (destructor_code C yymajor yypminor (yyuser p)).

Definition yy_pop_parser_stack p : res parser :=
  match yystack p with
  | tos :: (_ :: _) as k => Ok (yy_destructor (major tos) (minor tos) (upd_stack p k))
  | _ => Err ExitCalled
  end.

(** [while( yytos>yystack ) yy_pop_parser_stack] *)
Fixpoint pop_all (k : list entry) u : list entry * U :=
  match k with
  | tos :: (_ :: _) as k' => pop_all k' (destructor_code C (major tos) (minor tos) u)
  | _ => (k, u)
  end.
Definition ParseFinalize p : parser :=
  let '(k, u) := pop_all (yystack p) (yyuser p) in upd_user (upd_stack p k) u.
Definition ParseFree (p : option parser) : option parser :=
  match p with None => None | Some p => Some (ParseFinalize p) end.

Definition ParseStackPeak p : Z := yyhwm p.

Fixpoint yy_find_shift_action_loop (fuel : nat) (iLookAhead stateno : Z) : res Z :=
  match fuel with
  | O => Err OutOfFuel
  | S fuel =>
      i ← tab (yy_shift_ofst Y) stateno;
      _ ← assert (0 <=? i);
      _ ← assert (i <=? YY_ACTTAB_COUNT Y);
      _ ← assert (i + YYNTOKEN Y <=? zlen (yy_lookahead Y));
      _ ← assert (negb (iLookAhead =? YYNOCODE Y));
      _ ← assert (iLookAhead <? YYNTOKEN Y);
      let i := i + iLookAhead in
      la ← tab (yy_lookahead Y) i;
      if la =? iLookAhead then tab (yy_action Y) i
      else
        let wildcard_or_default :=
          match YYWILDCARD Y with
          | Some w =>
              let j := i - iLookAhead + w in
              lj ← tab (yy_lookahead Y) j;
              if (lj =? w) && (0 <? iLookAhead) then tab (yy_action Y) j
              else tab (yy_default Y) stateno
          | None => tab (yy_default Y) stateno
          end in
        match yyFallback Y with
        | Some fb =>
            iFallback ← tab fb iLookAhead;
            if negb (iFallback =? 0) then
              ff ← tab fb iFallback;
              _ ← assert (ff =? 0);
              yy_find_shift_action_loop fuel iFallback stateno
            else wildcard_or_default
        | None => wildcard_or_default
        end
  end.
(** a fallback token has no fallback, so the loop body runs at most twice *)
Definition yy_find_shift_action (iLookAhead stateno : Z) : res Z :=
  if stateno >? YY_MAX_SHIFT Y then Ok stateno
  else
    _ ← assert (stateno <=? YY_SHIFT_COUNT Y);
    yy_find_shift_action_loop 2 iLookAhead stateno.

Definition yy_find_reduce_action (stateno iLookAhead : Z) : res Z :=
  match YYERRORSYMBOL Y with
  | Some _ =>
      if stateno >? YY_REDUCE_COUNT Y then tab (yy_default Y) stateno
      else
        i ← tab (yy_reduce_ofst Y) stateno;
        _ ← assert (negb (iLookAhead =? YYNOCODE Y));
        let i := i + iLookAhead in
        if (i <? 0) || (i >=? YY_ACTTAB_COUNT Y) then tab (yy_default Y) stateno
        else
          la ← tab (yy_lookahead Y) i;
          if negb (la =? iLookAhead) then tab (yy_default Y) stateno else tab (yy_action Y) i
  | None =>
      _ ← assert (stateno <=? YY_REDUCE_COUNT Y);
      i ← tab (yy_reduce_ofst Y) stateno;
      _ ← assert (negb (iLookAhead =? YYNOCODE Y));
      let i := i + iLookAhead in
      _ ← assert ((0 <=? i) && (i <? YY_ACTTAB_COUNT Y));
      la ← tab (yy_lookahead Y) i;
      _ ← assert (la =? iLookAhead);
      tab (yy_action Y) i
  end.

Definition yyStackOverflow p : parser :=
  let p := ParseFinalize p in upd_user p (overflow_code C (yyuser p)).

(** the high-water mark, when the stack pointer is at [d] *)
Definition track_depth p (d : Z) : res parser :=
  if YYTRACKMAXSTACKDEPTH Y then
    if d >? yyhwm p then
      _ ← assert (yyhwm p + 1 =? d); Ok (upd_hwm p (yyhwm p + 1))
    else Ok p
  else Ok p.

(** the boolean says that the stack overflowed *)
Definition yy_shift p (yyNewState yyMajor : Z) (yyMinor : T) : res (bool * parser) :=
  p ← track_depth p (depth p + 1);
  let '(full, p) :=
    if YYSTACKDEPTH Y >? 0 then (depth p + 1 >? YYSTACKDEPTH Y - 1, p)
    else if depth p + 1 >=? yystksz p then
      let '(err, p) := yyGrowStack p in (negb (err =? 0), p)
    else (false, p) in
  if (full : bool) then Ok (true, yyStackOverflow p)
  else
    let yyNewState := if yyNewState >? YY_MAX_SHIFT Y
                      then yyNewState + (YY_MIN_REDUCE Y - YY_MIN_SHIFTREDUCE Y) else yyNewState in
    Ok (false, upd_stack p (mkEntry yyNewState yyMajor (yy0 C yyMinor) :: yystack p)).

Definition yy_reduce p (yyruleno yyLookahead : Z) (yyLookaheadToken : T) : res (Z * parser) :=
  yygoto ← tab (yyRuleInfoLhs Y) yyruleno;
  yysize ← tab (yyRuleInfoNRhs Y) yyruleno;
  if 0 <? yysize then Err UninitRead else          (* entries above the top of the stack *)
  let n := Z.to_nat (- yysize) in
  let k := drop n (yystack p) in
  let '(m, u) := reduce_code C yyruleno (minor <$> reverse (take n (yystack p)))
                   yyLookahead yyLookaheadToken (yyuser p) in
  match k with
  | [] => Err OutOfBounds
  | e :: _ =>
      yyact ← yy_find_reduce_action (stateno e) yygoto;
      _ ← assert (negb ((yyact >? YY_MAX_SHIFT Y) && (yyact <=? YY_MAX_SHIFTREDUCE Y)));
      _ ← assert (negb (yyact =? YY_ERROR_ACTION Y));
      Ok (yyact, upd_user (upd_stack p (mkEntry yyact yygoto m :: k)) u)
  end.

Definition yy_parse_failed p : parser :=
  let p := ParseFinalize p in upd_user p (failure_code C (yyuser p)).

Definition yy_syntax_error p (yymajor : Z) (yyminor : T) : parser :=
  upd_user p (syntax_error_code C yymajor yyminor (yyuser p)).

Definition yy_accept p : res parser :=
  let p := upd_errcnt p (-1) in
  _ ← assert (depth p =? 0);
  Ok (upd_user p (accept_code C (yyuser p))).

(** room for one more entry before a rule with an empty right-hand side *)
Definition check_room p : res (bool * parser) :=
  p ← track_depth p (depth p);
  if YYSTACKDEPTH Y >? 0 then Ok (negb (depth p >=? YYSTACKDEPTH Y - 1), p)
  else if depth p >=? yystksz p - 1 then
    let '(err, p) := yyGrowStack p in Ok (err =? 0, p)
  else Ok (true, p).

(** popping to a state that can shift the error symbol; its action, if any *)
Fixpoint pop_to_error (fuel : nat) (errsym yyact : Z) p : res (Z * parser) :=
  if depth p <=? 0 then Ok (yyact, p)
  else
    match fuel, yystack p with
    | S fuel, e :: _ =>
        yyact ← yy_find_reduce_action (stateno e) errsym;
        if yyact <=? YY_MAX_SHIFTREDUCE Y then Ok (yyact, p)
        else p ← yy_pop_parser_stack p; pop_to_error fuel errsym yyact p
    | _, _ => Err OutOfFuel
    end.

(** the error branch: the next token to process ([None] when it is used up) with
    the action to continue with, and the parser *)
Definition parse_error p (yymajor : Z) (yyminor : T) (yyact : Z) (yyerrorhit : bool)
    : res (option (Z * Z) * parser) :=
  match YYERRORSYMBOL Y with
  | Some errsym =>
      let p := if yyerrcnt p <? 0 then yy_syntax_error p yymajor yyminor else p in
      match yystack p with
      | [] => Err OutOfBounds
      | tos :: _ =>
          let yymx := major tos in
          r ← (if (yymx =? errsym) || yyerrorhit then
                 Ok (YYNOCODE Y, yy_destructor yymajor (yy0 C yyminor) p)
               else
                 let* (yyact, p) := pop_to_error (length (yystack p)) errsym yyact p in
                 if (depth p <=? 0) || (yymajor =? 0) then
                   let p := yy_parse_failed (yy_destructor yymajor (yy0 C yyminor) p) in
                   Ok (YYNOCODE Y, if YYNOERRORRECOVERY Y then p else upd_errcnt p (-1))
                 else if negb (yymx =? errsym) then
                   let* (_, p) := yy_shift p yyact errsym yyminor in Ok (yymajor, p)
                 else Ok (yymajor, p));
          let '(yymajor, p) := r in
          let p := upd_errcnt p 3 in
          if yymajor =? YYNOCODE Y then Ok (None, p)
          else match yystack p with
               | [] => Err OutOfBounds
               | tos :: _ => Ok (Some (yymajor, stateno tos), p)
               end
      end
  | None =>
      if YYNOERRORRECOVERY Y then
        Ok (None, yy_destructor yymajor (yy0 C yyminor) (yy_syntax_error p yymajor yyminor))
      else
        let p := if yyerrcnt p <=? 0 then yy_syntax_error p yymajor yyminor else p in
        let p := upd_errcnt p 3 in
        let p := yy_destructor yymajor (yy0 C yyminor) p in
        Ok (None, if yymajor =? 0 then upd_errcnt (yy_parse_failed p) (-1) else p)
  end.

(** the loop of [Parse]; [hit] records that this token met an error *)
Fixpoint Parse_loop (fuel : nat) p (yymajor : Z) (yyminor : T) (yyact : Z) (hit : bool)
    : res (yyresult * parser) :=
  match fuel with
  | O => Err OutOfFuel
  | S fuel =>
      yyact ← yy_find_shift_action yymajor yyact;
      if yyact >=? YY_MIN_REDUCE Y then
        let yyruleno := yyact - YY_MIN_REDUCE Y in
        nrhs ← tab (yyRuleInfoNRhs Y) yyruleno;
        let* (room, p) := (if nrhs =? 0 then check_room p else Ok (true, p)) in
        if negb room then Ok (ROverflow, yyStackOverflow p)
        else
          let* (yyact, p) := yy_reduce p yyruleno yymajor yyminor in
          Parse_loop fuel p yymajor yyminor yyact hit
      else if yyact <=? YY_MAX_SHIFTREDUCE Y then
        let* (overflow, p) := yy_shift p yyact yymajor yyminor in
        Ok (if overflow then ROverflow else if hit then RError else RShift,
            if YYNOERRORRECOVERY Y then p else upd_errcnt p (yyerrcnt p - 1))
      else if yyact =? YY_ACCEPT_ACTION Y then
        match yystack p with
        | _ :: (_ :: _) as k => p ← yy_accept (upd_stack p k); Ok (if hit then RError else RAccept, p)
        | _ => Err OutOfBounds
        end
      else
        _ ← assert (yyact =? YY_ERROR_ACTION Y);
        let* (next, p) := parse_error p yymajor yyminor yyact hit in
        match next with
        | None => Ok (RError, p)
        | Some (yymajor, yyact) => Parse_loop fuel p yymajor yyminor yyact true
        end
  end.

Definition Parse (fuel : nat) p (yymajor : Z) (yyminor : T) : res (yyresult * parser) :=
  match yystack p with
  | [] => Err ExitCalled
  | tos :: _ => Parse_loop fuel p yymajor yyminor (stateno tos) false
  end.

Definition ParseFallback (iToken : Z) : res Z :=
  match yyFallback Y with Some fb => tab fb iToken | None => Ok 0 end.

(** the caller's loop: token after token until the parser accepts *)
Fixpoint parse_tokens (fuel : nat) p (ts : list (Z * T)) : res (bool * parser) :=
  match ts with
  | [] => Ok (false, p)
  | (t, v) :: ts =>
      let* (r, p) := Parse fuel p t v in
      match r with
      | RShift => parse_tokens fuel p ts
      | RAccept => Ok (bool_decide (ts = []), p)
      | _ => Ok (false, p)
      end
  end.

(** ** The stack stays inside its array *)

Definition bounded p : Prop := 0 ≤ depth p < YYSTACKDEPTH Y.

Hypothesis depth_pos : 0 < YYSTACKDEPTH Y.
Hypothesis nrhs_neg : Forall (λ n, n ≤ 0) (yyRuleInfoNRhs Y).

Lemma pop_all_bottom k u : k ≠ [] → length (pop_all k u).1 = 1%nat.
Proof.
  revert u. induction k as [|e k IH]; [done|]. intros u _. destruct k as [|e' k]; [done|].
  cbn [pop_all]. by apply IH.
Qed.

Lemma ParseFinalize_depth p : 0 ≤ depth p → depth (ParseFinalize p) = 0.
Proof.
  unfold depth, zlen. intros H. unfold ParseFinalize.
  pose proof (pop_all_bottom (yystack p) (yyuser p)) as Hl.
  destruct (pop_all _ _) as [k u] eqn:Ek. cbn in *. rewrite Hl; [done|]. intros Hnil. rewrite Hnil in H. cbn in H. lia.
Qed.

Lemma track_depth_depth p d p' : track_depth p d = Ok p' → depth p' = depth p.
Proof.
  unfold track_depth. destruct (YYTRACKMAXSTACKDEPTH Y); [|by intros [= <-]].
  destruct (d >? yyhwm p); [|by intros [= <-]]. intros H. res_inv H. by injection H as <-.
Qed.

Lemma depth_cons p e k : depth (upd_stack p (e :: k)) = zlen k.
Proof. unfold depth, zlen. cbn [yystack upd_stack length]. lia. Qed.

Lemma yy_shift_bounded p a t v ov p' :
  bounded p → yy_shift p a t v = Ok (ov, p') → bounded p'.
Proof.
  unfold bounded, yy_shift. intros Hb H. res_inv H. pose proof (track_depth_depth _ _ _ E) as Hd.
  destruct (Z.gtb_spec (YYSTACKDEPTH Y) 0); [|lia].
  destruct (Z.gtb_spec (depth v0 + 1) (YYSTACKDEPTH Y - 1)).
  - injection H as _ <-. change (depth (yyStackOverflow v0)) with (depth (ParseFinalize v0)).
    rewrite ParseFinalize_depth by lia. lia.
  - injection H as _ <-. rewrite depth_cons. unfold depth in *. lia.
Qed.

Lemma check_room_bounded p room p' :
  bounded p → check_room p = Ok (room, p') → depth p' = depth p ∧ (room = true → depth p < YYSTACKDEPTH Y - 1).
Proof.
  unfold bounded, check_room. intros Hb H. res_inv H. pose proof (track_depth_depth _ _ _ E) as Hd.
  destruct (Z.gtb_spec (YYSTACKDEPTH Y) 0); [|lia]. injection H as <- <-. split; [done|].
  destruct (Z.geb_spec (depth v) (YYSTACKDEPTH Y - 1)); [done|]. lia.
Qed.

Lemma yy_reduce_bounded p r la v act p' n :
  bounded p → tab (yyRuleInfoNRhs Y) r = Ok n → (n = 0 → depth p < YYSTACKDEPTH Y - 1) →
  yy_reduce p r la v = Ok (act, p') → bounded p'.
Proof.
  unfold bounded, yy_reduce. intros Hb Hn H0 H. res_inv H. rewrite Hn in E0. injection E0 as <-.
  assert (n ≤ 0) as Hneg.
  { unfold tab in Hn. destruct (0 <=? r); [|done]. apply of_opt_Ok in Hn.
    by eapply Forall_lookup_1 in Hn; [|exact nrhs_neg]. }
  destruct (Z.ltb_spec 0 n); [done|]. destruct (reduce_code _ _ _ _ _ _) as [m u].
  destruct (drop (Z.to_nat (- n)) (yystack p)) as [|e k] eqn:Ek; [done|]. res_inv H. injection H as _ <-.
  change (depth (upd_user ?x ?y)) with (depth x). rewrite depth_cons.
  assert (zlen (e :: k) = zlen (yystack p) - (- n)) as Hl.
  { rewrite <- Ek. unfold zlen. rewrite length_drop. apply (f_equal length) in Ek. rewrite length_drop in Ek.
    cbn [length] in Ek. lia. }
  pose proof (zlen_nonneg (e :: k)). unfold depth in *.
  destruct (decide (n = 0)); [specialize (H0 e0)|]; lia.
Qed.

Lemma pop_to_error_bounded fuel s a p a' p' :
  bounded p → pop_to_error fuel s a p = Ok (a', p') → bounded p'.
Proof.
  revert a p. induction fuel as [|fuel IH]; intros a p Hb H; cbn [pop_to_error] in H;
    (destruct (depth p <=? 0); [by injection H as _ <-|]); [done|].
  destruct (yystack p) as [|e k] eqn:Ek; [done|]. res_inv H.
  destruct (_ <=? _) in H; [by injection H as _ <-|]. res_inv H. apply (IH _ _) in H; [done|].
  unfold yy_pop_parser_stack in E0. rewrite Ek in E0. destruct k as [|e' k]; [done|]. injection E0 as <-.
  unfold bounded, depth in *. rewrite Ek in Hb. cbn [yystack yy_destructor upd_user upd_stack].
  unfold zlen in *. cbn [length] in *. lia.
Qed.

Lemma parse_error_bounded p t v a hit nx p' :
  bounded p → parse_error p t v a hit = Ok (nx, p') → bounded p'.
Proof.
  intros Hb. unfold parse_error. assert (∀ x, depth x = depth p → depth (ParseFinalize x) = 0) as Hfin.
  { intros x Hx. apply ParseFinalize_depth. rewrite Hx. apply Hb. }
  destruct (YYERRORSYMBOL Y) as [es|].
  - assert (bounded (if yyerrcnt p <? 0 then yy_syntax_error p t v else p)) as Hb0 by (by destruct (_ <? 0)).
    revert Hb0. generalize (if yyerrcnt p <? 0 then yy_syntax_error p t v else p) as p0. intros p0 Hb0.
    destruct (yystack p0) as [|tos k]; [done|]. intros H. res_inv H. destruct v0 as [mj p1].
    assert (bounded p1) as Hb1.
    { destruct (_ || _) in E; [by injection E as _ <-|].
      destruct (pop_to_error _ _ _ _) as [[a1 p2]|] eqn:Ep; [|done].
      assert (bounded p2) as Hb2 by (by eapply pop_to_error_bounded).
      destruct (_ || _) in E.
      - injection E as _ <-. set (p3 := yy_parse_failed _).
        assert (bounded p3) as Hb3.
        { unfold bounded, p3, yy_parse_failed. change (depth (upd_user ?x ?y)) with (depth x).
          rewrite ParseFinalize_depth by apply Hb2. lia. }
        by destruct (YYNOERRORRECOVERY Y).
      - destruct (negb _); [|by injection E as _ <-].
        destruct (yy_shift _ _ _ _) as [[ov p3]|] eqn:Es; [|done]. injection E as _ <-.
        by eapply yy_shift_bounded. }
    destruct (_ =? YYNOCODE Y); [by injection H as _ <-|].
    destruct (yystack (upd_errcnt p1 3)); [done|]. by injection H as _ <-.
  - destruct (YYNOERRORRECOVERY Y); [by intros [= _ <-]|]. intros [= _ <-].
    assert (∀ x y, bounded x → bounded (upd_errcnt (yy_parse_failed x) y)) as Hpf.
    { intros x y Hx. unfold bounded, yy_parse_failed. change (depth (upd_errcnt (upd_user ?z ?u) ?w)) with (depth z).
      rewrite ParseFinalize_depth by apply Hx. lia. }
    destruct (_ =? 0); [apply Hpf|]; by destruct (_ <=? 0).
Qed.

(** The stack fits its array of [YYSTACKDEPTH] entries after every call of [Parse] that
    ends, on any tables, if it did before. *)
Lemma stack_stays_bounded fuel p t v r p' :
  bounded p → Parse fuel p t v = Ok (r, p') → bounded p'.
Proof.
  unfold Parse. intros Hb H. destruct (yystack p) as [|tos k]; [done|]. revert H.
  generalize (stateno tos) as act, false as hit. clear tos k. revert p t Hb.
  induction fuel as [|fuel IH]; intros p t Hb act hit H; [done|]. cbn [Parse_loop] in H. res_inv H.
  destruct (_ >=? _) in H.
  - res_inv H. destruct (if v1 =? 0 then _ else _) as [[room p1]|] eqn:Er; [|done].
    assert (depth p1 = depth p ∧ (v1 = 0 → room = true → depth p < YYSTACKDEPTH Y - 1)) as [Hd Hr].
    { destruct (Z.eqb_spec v1 0); [|by injection Er as _ <-]. destruct (check_room_bounded _ _ _ Hb Er). auto. }
    destruct room; cbn [negb] in H.
    + destruct (yy_reduce _ _ _ _) as [[a2 p2]|] eqn:Ered; [|done].
      eapply (IH p2); [|exact H]. eapply (yy_reduce_bounded p1); [|exact E0| |exact Ered].
      * unfold bounded. by rewrite Hd.
      * intros Hz. rewrite Hd. by apply Hr.
    + injection H as _ <-. unfold bounded, yyStackOverflow. change (depth (upd_user ?x ?y)) with (depth x).
      rewrite ParseFinalize_depth; [lia|]. rewrite Hd. apply Hb.
  - destruct (_ <=? _) in H.
    + destruct (yy_shift _ _ _ _) as [[ov p1]|] eqn:Es; [|done]. injection H as _ <-.
      pose proof (yy_shift_bounded _ _ _ _ _ _ Hb Es). by destruct (YYNOERRORRECOVERY Y).
    + destruct (_ =? _) in H.
      * destruct (yystack p) as [|e [|e' k]] eqn:Ek; [done..|]. res_inv H. injection H as _ <-.
        unfold yy_accept in E0. res_inv E0. injection E0 as <-. unfold bounded, depth in *.
        rewrite Ek in Hb. cbn [yystack upd_user upd_errcnt upd_stack]. unfold zlen in *. cbn [length] in *. lia.
      * res_inv H. destruct (parse_error _ _ _ _ _) as [[[[t1 a1]|] p1]|] eqn:Ep; [| |done].
        -- eapply IH; [|exact H]. by eapply parse_error_bounded.
        -- injection H as _ <-. by eapply parse_error_bounded.
Qed.

End Driver.
