(* ===== verification/LemparSound.v ===== *)
(** Soundness of the parser driver: when the tables are consistent with a
    grammar, a run that accepts has found a derivation of its input. The
    consistency conditions speak about single table entries, so they can be
    checked by computation for concrete tables. *)
From S2P Require Import Prelude ActTab Lempar.

Section Sound.
Context (Y : yytables).
(** the grammar: the right-hand side of each rule and the start symbol *)
Context (rhs : Z → list Z) (start : Z).
(** for each state the symbols known to be on top of the stack (top first) *)
Context (past : Z → list Z).

(** ** Derivations *)

(** a token may stand for itself, for its fallback, or for the wildcard *)
Definition fallback_of (t : Z) : option Z :=
  match yyFallback Y with
  | Some fb => match tab fb t with Ok f => if f =? 0 then None else Some f | Err _ => None end
  | None => None
  end.
Definition acts_as (t y : Z) : Prop :=
  t = y ∨ fallback_of t = Some y ∨ YYWILDCARD Y = Some y.

Inductive derives : Z → list Z → Prop :=
  | derives_token t y : acts_as t y → y < YYNTOKEN Y → derives y [t]
  | derives_rule r A w : tab (yyRuleInfoLhs Y) r = Ok A → derives_all (rhs r) w → derives A w
with derives_all : list Z → list Z → Prop :=
  | derives_nil : derives_all [] []
  | derives_cons y ys w1 w2 : derives y w1 → derives_all ys w2 → derives_all (y :: ys) (w1 ++ w2).

Lemma derives_all_app ys1 ys2 w1 w2 :
  derives_all ys1 w1 → derives_all ys2 w2 → derives_all (ys1 ++ ys2) (w1 ++ w2).
Proof. induction 1; intros; [done|]. rewrite <- app_assoc. cbn. constructor; auto. Qed.

(** ** Consistent tables *)

(** rule [r] can be reduced when the stack's symbols begin with [ys] *)
Definition can_reduce (r : Z) (ys : list Z) : Prop := reverse (rhs r) `prefix_of` ys.

Record tables_ok : Prop := {
  v_consts : 0 ≤ YY_MAX_SHIFT Y ∧ YY_MAX_SHIFT Y < YY_MIN_SHIFTREDUCE Y ∧
    YY_MAX_SHIFT Y ≤ YY_MAX_SHIFTREDUCE Y ∧ YY_MAX_SHIFTREDUCE Y < YY_ACCEPT_ACTION Y < YY_MIN_REDUCE Y;
  v_start : past 0 = [];
  v_wild : ∀ w, YYWILDCARD Y = Some w → w < YYNTOKEN Y;
  v_rules : ∀ r n, tab (yyRuleInfoNRhs Y) r = Ok n → n = - zlen (rhs r);
  v_shift : ∀ s o y a, s ≤ YY_MAX_SHIFT Y → tab (yy_shift_ofst Y) s = Ok o → y < YYNTOKEN Y →
    tab (yy_lookahead Y) (o + y) = Ok y → tab (yy_action Y) (o + y) = Ok a →
    a ≠ YY_ACCEPT_ACTION Y ∧
    (a ≤ YY_MAX_SHIFT Y → past a `prefix_of` y :: past s) ∧
    (YY_MAX_SHIFT Y < a ≤ YY_MAX_SHIFTREDUCE Y → YY_MIN_SHIFTREDUCE Y ≤ a ∧
       rhs (a - YY_MIN_SHIFTREDUCE Y) ≠ [] ∧ can_reduce (a - YY_MIN_SHIFTREDUCE Y) (y :: past s)) ∧
    (YY_MIN_REDUCE Y ≤ a → can_reduce (a - YY_MIN_REDUCE Y) (past s));
  v_default : ∀ s a, s ≤ YY_MAX_SHIFT Y → tab (yy_default Y) s = Ok a →
    YY_MAX_SHIFTREDUCE Y < a ∧ a ≠ YY_ACCEPT_ACTION Y ∧
    (YY_MIN_REDUCE Y ≤ a → can_reduce (a - YY_MIN_REDUCE Y) (past s));
  v_goto : ∀ s r A a, s ≤ YY_MAX_SHIFT Y → tab (yyRuleInfoLhs Y) r = Ok A →
    yy_find_reduce_action Y s A = Ok a →
    (a ≤ YY_MAX_SHIFT Y → past a `prefix_of` A :: past s) ∧
    (YY_MIN_REDUCE Y ≤ a → rhs (a - YY_MIN_REDUCE Y) ≠ [] ∧ can_reduce (a - YY_MIN_REDUCE Y) (A :: past s)) ∧
    (YY_MAX_SHIFTREDUCE Y < a < YY_MIN_REDUCE Y → a ≠ YY_ERROR_ACTION Y →
       a = YY_ACCEPT_ACTION Y ∧ A = start);
}.

(** *** The check *)

#[global] Instance can_reduce_dec r ys : Decision (can_reduce r ys).
Proof. unfold can_reduce. apply _. Defined.

Definition shift_entry_ok (s y a : Z) : Prop :=
  a ≠ YY_ACCEPT_ACTION Y ∧
  (a ≤ YY_MAX_SHIFT Y → past a `prefix_of` y :: past s) ∧
  (YY_MAX_SHIFT Y < a ≤ YY_MAX_SHIFTREDUCE Y → YY_MIN_SHIFTREDUCE Y ≤ a ∧
     rhs (a - YY_MIN_SHIFTREDUCE Y) ≠ [] ∧ can_reduce (a - YY_MIN_SHIFTREDUCE Y) (y :: past s)) ∧
  (YY_MIN_REDUCE Y ≤ a → can_reduce (a - YY_MIN_REDUCE Y) (past s)).
Definition default_ok (s a : Z) : Prop :=
  YY_MAX_SHIFTREDUCE Y < a ∧ a ≠ YY_ACCEPT_ACTION Y ∧
  (YY_MIN_REDUCE Y ≤ a → can_reduce (a - YY_MIN_REDUCE Y) (past s)).
Definition goto_ok (s A a : Z) : Prop :=
  (a ≤ YY_MAX_SHIFT Y → past a `prefix_of` A :: past s) ∧
  (YY_MIN_REDUCE Y ≤ a → rhs (a - YY_MIN_REDUCE Y) ≠ [] ∧ can_reduce (a - YY_MIN_REDUCE Y) (A :: past s)) ∧
  (YY_MAX_SHIFTREDUCE Y < a < YY_MIN_REDUCE Y → a ≠ YY_ERROR_ACTION Y →
     a = YY_ACCEPT_ACTION Y ∧ A = start).

Definition all_upto (n : Z) (f : Z → bool) : bool := forallb f (seqZ 0 n).
Definition on_Ok (r : res Z) (f : Z → bool) : bool := match r with Ok a => f a | Err _ => true end.

(** a computable check that implies [tables_ok] *)
Definition tables_okb : bool :=
  bool_decide (0 ≤ YY_MAX_SHIFT Y) && bool_decide (YY_MAX_SHIFT Y < YY_MIN_SHIFTREDUCE Y) &&
  bool_decide (YY_MAX_SHIFT Y ≤ YY_MAX_SHIFTREDUCE Y) &&
  bool_decide (YY_MAX_SHIFTREDUCE Y < YY_ACCEPT_ACTION Y) && bool_decide (YY_ACCEPT_ACTION Y < YY_MIN_REDUCE Y) &&
  bool_decide (past 0 = []) &&
  match YYWILDCARD Y with Some w => w <? YYNTOKEN Y | None => true end &&
  all_upto (zlen (yyRuleInfoNRhs Y)) (λ r, on_Ok (tab (yyRuleInfoNRhs Y) r) (λ n, n =? - zlen (rhs r))) &&
  forallb (λ y, 0 <=? y) (yy_lookahead Y) &&
  all_upto (YY_MAX_SHIFT Y + 1) (λ s,
    on_Ok (tab (yy_shift_ofst Y) s) (λ o, all_upto (YYNTOKEN Y) (λ y,
      on_Ok (tab (yy_lookahead Y) (o + y)) (λ y', if y' =? y
        then on_Ok (tab (yy_action Y) (o + y)) (λ a, bool_decide (shift_entry_ok s y a)) else true))) &&
    on_Ok (tab (yy_default Y) s) (λ a, bool_decide (default_ok s a)) &&
    forallb (λ A, on_Ok (yy_find_reduce_action Y s A) (λ a, bool_decide (goto_ok s A a))) (yyRuleInfoLhs Y)).


Lemma tab_lt a i x : tab a i = Ok x → 0 ≤ i < zlen a.
Proof. intros [H0 H%lookup_lt_Some]%tab_Ok. unfold zlen. lia. Qed.

Lemma forallb_elim {A} (f : A → bool) l x : forallb f l = true → x ∈ l → f x = true.
Proof. rewrite forallb_forall. intros H Hx. by apply H, list_elem_of_In. Qed.

Lemma all_upto_elim n f i : all_upto n f = true → 0 ≤ i < n → f i = true.
Proof. intros H ?. apply (forallb_elim _ _ _ H), elem_of_seqZ. lia. Qed.

Lemma tables_okb_sound : tables_okb = true → tables_ok.
Proof.
  unfold tables_okb. rewrite !andb_true_iff, !bool_decide_eq_true.
  intros (((((((((C1&C2)&C3)&C4)&C5)&Hp)&Hw)&Hr)&Hl)&Hs).
  assert (∀ s, 0 ≤ s ≤ YY_MAX_SHIFT Y → _) as Hs' by (intros s Hs'; exact (all_upto_elim _ _ s Hs ltac:(lia))).
  cbn beta in Hs'. constructor.
  - done.
  - done.
  - intros w Ew. rewrite Ew in Hw. by apply Z.ltb_lt.
  - intros r n Hn. pose proof (all_upto_elim _ _ r Hr (tab_lt _ _ _ Hn)) as H. cbn beta in H. rewrite Hn in H. by apply Z.eqb_eq.
  - intros s o y a Hsm Ho Hy Hla Ha. pose proof (tab_lt _ _ _ Ho).
    pose proof (Hs' s ltac:(lia)) as [[H1 _]%andb_true_iff _]%andb_true_iff. rewrite Ho in H1. cbn [on_Ok] in H1.
    assert (0 ≤ y) as Hy0.
    { apply Z.leb_le, (forallb_elim _ _ _ Hl). apply tab_Ok in Hla as [_ Hla]. by eapply list_elem_of_lookup_2. }
    pose proof (all_upto_elim _ _ y H1 ltac:(lia)) as H2. cbn beta in H2. rewrite Hla in H2. cbn [on_Ok] in H2.
    rewrite Z.eqb_refl, Ha in H2. by apply bool_decide_eq_true_1 in H2.
  - intros s a Hsm Ha. pose proof (tab_lt _ _ _ Ha).
    pose proof (Hs' s ltac:(lia)) as [[_ H1]%andb_true_iff _]%andb_true_iff. rewrite Ha in H1.
    by apply bool_decide_eq_true_1 in H1.
  - intros s r A a Hsm HA Ha. assert (0 ≤ s) as Hs0.
    { unfold yy_find_reduce_action in Ha. destruct (YYERRORSYMBOL Y); [destruct (_ >? _)|]; res_inv Ha;
        match goal with H : tab _ s = Ok _ |- _ => apply tab_lt in H; lia end. }
    pose proof (Hs' s ltac:(lia)) as [_ H1]%andb_true_iff. apply tab_Ok in HA as [_ HA].
    pose proof (forallb_elim _ _ A H1 (list_elem_of_lookup_2 _ _ _ HA)) as H2. cbn beta in H2. rewrite Ha in H2.
    by apply bool_decide_eq_true_1 in H2.
Qed.

Context {T M U : Type} (C : yycode T M U) (malloc_ok : Z → bool).
Hypothesis HY : tables_ok.

Notation parser := (yyParser M U).
Notation entry := (yyStackEntry M).
Implicit Types (p : parser) (k : list entry) (g : list (Z * list Z)).

(** what the lookup for a token returns *)
Lemma find_shift_inv t s a :
  s ≤ YY_MAX_SHIFT Y → yy_find_shift_action Y t s = Ok a →
  (∃ o y, acts_as t y ∧ y < YYNTOKEN Y ∧ tab (yy_shift_ofst Y) s = Ok o ∧
     tab (yy_lookahead Y) (o + y) = Ok y ∧ tab (yy_action Y) (o + y) = Ok a) ∨
  tab (yy_default Y) s = Ok a.
Proof.
  intros Hs. unfold yy_find_shift_action. destruct (Z.gtb_spec s (YY_MAX_SHIFT Y)) as [Hgt|Hgt]; [lia|].
  intros H. res_inv H. clear E v.
  assert (∀ n x, (x = t ∨ fallback_of t = Some x) → (n = 2%nat → x = t) → (n ≤ 2)%nat →
    yy_find_shift_action_loop Y n x s = Ok a →
    (∃ o y, acts_as t y ∧ y < YYNTOKEN Y ∧ tab (yy_shift_ofst Y) s = Ok o ∧
       tab (yy_lookahead Y) (o + y) = Ok y ∧ tab (yy_action Y) (o + y) = Ok a) ∨
    tab (yy_default Y) s = Ok a) as Hloop; [|by apply (Hloop 2%nat t); auto].
  clear H. induction n as [|n IH]; intros x Hx Hn2 Hle H; [done|].
  cbn [yy_find_shift_action_loop] in H. res_inv H.
  assert (x < YYNTOKEN Y) as Hxt.
  { match goal with E : assert (x <? _) = Ok _ |- _ => unfold assert in E; destruct (Z.ltb_spec x (YYNTOKEN Y)) end;
      [done|discriminate]. }
  destruct (Z.eqb_spec v5 x) as [->|Hne].
  { left. exists v, x. split_and!; try done. destruct Hx as [->|?]; [by left|by right; left]. }
  assert (∀ m, (match YYWILDCARD Y with
     | Some w => lj ← tab (yy_lookahead Y) (v + x - x + w);
         if (lj =? w) && (0 <? x) then tab (yy_action Y) (v + x - x + w) else tab (yy_default Y) s
     | None => tab (yy_default Y) s
     end) = Ok m → m = a →
    (∃ o y, acts_as t y ∧ y < YYNTOKEN Y ∧ tab (yy_shift_ofst Y) s = Ok o ∧
       tab (yy_lookahead Y) (o + y) = Ok y ∧ tab (yy_action Y) (o + y) = Ok a) ∨
    tab (yy_default Y) s = Ok a) as Hwild.
  { intros m Hm ->. destruct (YYWILDCARD Y) as [w|] eqn:Ew; [|by right].
    replace (v + x - x + w) with (v + w) in Hm by lia. res_inv Hm.
    destruct (Z.eqb_spec v6 w) as [->|]; [|by right]. destruct (0 <? x); [|by right]. cbn in Hm.
    left. exists v, w. split_and!; try done; [by right; right|by apply (v_wild HY)]. }
  destruct (yyFallback Y) as [fb|] eqn:Efb; [|by eapply Hwild].
  res_inv H. destruct (Z.eqb_spec v6 0) as [->|Hv6]; cbn [negb] in H; [by eapply Hwild|].
  res_inv H. apply (IH v6); [|lia|lia|done]. right. unfold fallback_of. rewrite Efb.
  assert (x = t) as -> by (destruct n as [|[|n]]; [|by apply Hn2|lia]; cbn in H; discriminate).
  rewrite E6. by destruct (Z.eqb_spec v6 0).
Qed.
(** ** The stack invariant *)

(** what the state number of an entry promises about the symbols [ys] from that
    entry down *)
Definition top_ok (s : Z) (ys : list Z) : Prop :=
  (s ≤ YY_MAX_SHIFT Y ∧ past s `prefix_of` ys) ∨
  (YY_MIN_REDUCE Y ≤ s ∧ rhs (s - YY_MIN_REDUCE Y) ≠ [] ∧ can_reduce (s - YY_MIN_REDUCE Y) ys) ∨
  (s = YY_ACCEPT_ACTION Y ∧ ∃ ys', ys = start :: ys').

(** [g] pairs the symbol of every entry but the bottom one with the tokens it
    stands for *)
Inductive stack_ok : list entry → list (Z * list Z) → Prop :=
  | stack_bottom e : stateno e = 0 → stack_ok [e] []
  | stack_push e e' k y w g :
      stack_ok (e' :: k) g → stateno e' ≤ YY_MAX_SHIFT Y → derives y w →
      top_ok (stateno e) (y :: g.*1) → stack_ok (e :: e' :: k) ((y, w) :: g).

(** the tokens read so far *)
Definition consumed g : list Z := concat (reverse g.*2).

Lemma stack_ok_top k g :
  stack_ok k g → ∃ e k', k = e :: k' ∧ top_ok (stateno e) g.*1.
Proof.
  destruct 1 as [e He|]; [|by eexists _, _].
  exists e, []. split; [done|]. left. rewrite He, (v_start HY). split; [|apply prefix_nil].
  pose proof (v_consts HY). lia.
Qed.

Lemma consumed_cons y w g : consumed ((y, w) :: g) = consumed g ++ w.
Proof.
  unfold consumed. rewrite fmap_cons. cbn [snd]. rewrite reverse_cons, concat_app. cbn [concat].
  by rewrite app_nil_r.
Qed.

(** the part of the stack that a reduction removes derives what is on it *)
Lemma stack_ok_drop k g ys :
  stack_ok k g → ys `prefix_of` g.*1 →
  ∃ g', stack_ok (drop (length ys) k) g' ∧ (ys ≠ [] → ∃ e k', drop (length ys) k = e :: k' ∧ stateno e ≤ YY_MAX_SHIFT Y) ∧
    (ys = [] → g' = g) ∧
    ∃ w, derives_all (reverse ys) w ∧ consumed g = consumed g' ++ w.
Proof.
  revert k g. induction ys as [|y ys IH]; intros k g Hk Hpre.
  - exists g. split_and!; [done|done|done|]. exists []. split; [constructor|by rewrite app_nil_r].
  - destruct Hk as [|e e' k y' w g Hk Hs Hd Ht]; [by apply prefix_nil_inv in Hpre|].
    cbn in Hpre. pose proof (prefix_cons_inv_1 _ _ _ _ Hpre) as <-.
    apply prefix_cons_inv_2 in Hpre. destruct (IH _ _ Hk Hpre) as (g'&Hk'&Htop&Hnil&w'&Hd'&Hc).
    exists g'. cbn [length drop]. split_and!; [done| |done|].
    + intros _. destruct ys as [|y' ys]; [by exists e', k|by apply Htop].
    + exists (w' ++ w). split.
      * rewrite reverse_cons. apply derives_all_app; [done|].
        rewrite <- (app_nil_r w). constructor; [done|constructor].
      * rewrite consumed_cons, Hc. by rewrite app_assoc.
Qed.

(** ** One call of [Parse] *)

Lemma yy_reduce_sound p g r la v act p' :
  stack_ok (yystack p) g → can_reduce r g.*1 → (rhs r = [] → ∀ e, head (yystack p) = Some e → stateno e ≤ YY_MAX_SHIFT Y) →
  yy_reduce Y C p r la v = Ok (act, p') →
  ∃ g' e k, stack_ok (yystack p') g' ∧ consumed g' = consumed g ∧ yystack p' = e :: k ∧ stateno e = act.
Proof.
  intros Hk Hr Htop. unfold yy_reduce. intros H. res_inv H.
  rewrite (v_rules HY _ _ E0) in H. pose proof (zlen_nonneg (rhs r)). destruct (Z.ltb_spec 0 (- zlen (rhs r))); [done|]. rewrite Z.opp_involutive in H. unfold zlen in H. rewrite Nat2Z.id in H.
  destruct (stack_ok_drop _ _ _ Hk Hr) as (g'&Hk'&Hst&Hnil&w&Hd&Hc).
  rewrite length_reverse in Hk', Hst. rewrite reverse_involutive in Hd.
  destruct (reduce_code C r _ la v (yyuser p)) as [m u].
  destruct (drop (length (rhs r)) (yystack p)) as [|e k] eqn:Ek; [done|].
  res_inv H. injection H as <- <-.
  assert (stateno e ≤ YY_MAX_SHIFT Y) as Hse.
  { destruct (decide (rhs r = [])) as [Hn|Hn].
    - apply Htop; [done|]. rewrite Hn in Ek. cbn [length] in Ek. rewrite drop_0 in Ek. by rewrite Ek.
    - destruct Hst as (e'&k'&[= <- <-]&?); [|done]. intros Hx. apply (f_equal reverse) in Hx. by rewrite reverse_involutive in Hx. }
  destruct (v_goto HY _ _ _ _ Hse E E1) as (G1&G2&G3).
  destruct (stack_ok_top _ _ Hk') as (e_&k_&[= <- <-]&Hte).
  assert (past (stateno e) `prefix_of` g'.*1) as Hpe.
  { pose proof (v_consts HY). destruct Hte as [[_ ?]|[[? _]|[? _]]]; [done|lia|lia]. }
  exists ((v0, w) :: g'), (mkEntry v2 v0 m), (e :: k). cbn [yystack upd_user upd_stack]. split_and!; [|..].
  - constructor; [done|done|by eapply derives_rule|]. cbn [stateno].
    destruct (Z.le_gt_cases v2 (YY_MAX_SHIFT Y)) as [Hle|Hgt].
    + left. split; [done|]. etrans; [by apply G1|]. by apply prefix_cons.
    + assert (¬ (YY_MAX_SHIFT Y < v2 ≤ YY_MAX_SHIFTREDUCE Y)) as Hnsr.
      { intros [? ?]. unfold assert in E2. destruct (Z.gtb_spec v2 (YY_MAX_SHIFT Y)); [|lia].
        destruct (Z.leb_spec v2 (YY_MAX_SHIFTREDUCE Y)); [done|lia]. }
      destruct (Z.le_gt_cases (YY_MIN_REDUCE Y) v2) as [Hge|Hlt].
      * right; left. destruct (G2 Hge). split_and!; [done..|]. unfold can_reduce in *.
        etrans; [done|]. by apply prefix_cons.
      * (* between the shift-reduce and the reduce actions only accept is left *)
        right; right. destruct G3 as [-> ->]; [lia| |split; [done|by eexists]].
        unfold assert in E3. destruct (Z.eqb_spec v2 (YY_ERROR_ACTION Y)); [done|done].
  - by rewrite consumed_cons.
  - done.
  - done.
Qed.

Lemma track_depth_stack p d p' : track_depth Y p d = Ok p' → yystack p' = yystack p.
Proof.
  unfold track_depth. destruct (YYTRACKMAXSTACKDEPTH Y); [|by intros [= <-]].
  destruct (d >? yyhwm p); [|by intros [= <-]]. intros H. res_inv H. by injection H as <-.
Qed.

Lemma yy_shift_sound p g t v y a p' :
  stack_ok (yystack p) g → (∀ e, head (yystack p) = Some e → stateno e ≤ YY_MAX_SHIFT Y) →
  acts_as t y → y < YYNTOKEN Y → a ≤ YY_MAX_SHIFTREDUCE Y →
  (a ≤ YY_MAX_SHIFT Y → past a `prefix_of` y :: g.*1) →
  (YY_MAX_SHIFT Y < a → YY_MIN_SHIFTREDUCE Y ≤ a ∧ rhs (a - YY_MIN_SHIFTREDUCE Y) ≠ [] ∧
     can_reduce (a - YY_MIN_SHIFTREDUCE Y) (y :: g.*1)) →
  yy_shift Y C malloc_ok p a t v = Ok (false, p') →
  stack_ok (yystack p') ((y, [t]) :: g).
Proof.
  intros Hk Htop Ht Hy Ha H1 H2. unfold yy_shift. intros H. res_inv H.
  assert (yystack v0 = yystack p) as Hv0.
  { by eapply track_depth_stack. }
  assert (∃ p1, yystack p1 = yystack p ∧
    p' = upd_stack p1 (mkEntry (if a >? YY_MAX_SHIFT Y then a + (YY_MIN_REDUCE Y - YY_MIN_SHIFTREDUCE Y) else a) t
           (yy0 C v) :: yystack p1)) as (p1&Hp1&->).
  { unfold yyGrowStack in H. destruct (YYSTACKDEPTH Y >? 0).
    { destruct (_ >? _) in H; [done|]. injection H as <-. by exists v0. }
    destruct (_ >=? _) in H; [|injection H as <-; by exists v0].
    destruct (malloc_ok _); [|done]. injection H as <-. by exists (upd_stksz v0 (yystksz v0 * 2 + 100)). }
  cbn [yystack upd_stack]. rewrite Hp1. destruct (stack_ok_top _ _ Hk) as (e&k&Hek&_). rewrite Hek in *.
  constructor; [done|by apply Htop|by constructor|]. cbn [stateno].
  pose proof (v_consts HY). destruct (Z.gtb_spec a (YY_MAX_SHIFT Y)).
  - right; left. replace (a + _ - YY_MIN_REDUCE Y) with (a - YY_MIN_SHIFTREDUCE Y) by lia.
    destruct H2 as (?&?&?); [done|]. split_and!; [lia|done..].
  - left. split; [done|by apply H1].
Qed.

(** once a token has met an error, its call never ends as a plain shift or accept *)
Lemma Parse_loop_hit fuel p t v act r p' :
  Parse_loop Y C malloc_ok fuel p t v act true = Ok (r, p') → r ≠ RShift ∧ r ≠ RAccept.
Proof.
  revert p t act. induction fuel as [|fuel IH]; intros p t act H; [done|]. cbn [Parse_loop] in H.
  res_inv H. repeat (case_match || (progress simplify_eq/=) || (progress res_inv H)); try done; eauto.
Qed.

Definition result_ok (g : list (Z * list Z)) (t : Z) (r : yyresult) p : Prop :=
  match r with
  | RShift => ∃ g', stack_ok (yystack p) g' ∧ consumed g' = consumed g ++ [t]
  | RAccept => derives start (consumed g)
  | _ => True
  end.

Lemma Parse_loop_sound fuel p g t v e k r p' :
  stack_ok (yystack p) g → yystack p = e :: k →
  Parse_loop Y C malloc_ok fuel p t v (stateno e) false = Ok (r, p') → result_ok g t r p'.
Proof.
  revert p g e k. induction fuel as [|fuel IH]; intros p g e k Hk He H; [done|]. cbn [Parse_loop] in H.
  res_inv H. destruct (stack_ok_top _ _ Hk) as (e_&k_&Hek&Htop). rewrite He in Hek. injection Hek as <- <-.
  pose proof (v_consts HY) as Hc.
  (* the action and what it may rely on *)
  assert ((YY_MIN_REDUCE Y ≤ v0 ∧ can_reduce (v0 - YY_MIN_REDUCE Y) g.*1 ∧
             (rhs (v0 - YY_MIN_REDUCE Y) = [] → stateno e ≤ YY_MAX_SHIFT Y)) ∨
          (v0 ≤ YY_MAX_SHIFTREDUCE Y ∧ stateno e ≤ YY_MAX_SHIFT Y ∧ ∃ y, acts_as t y ∧ y < YYNTOKEN Y ∧
             (v0 ≤ YY_MAX_SHIFT Y → past v0 `prefix_of` y :: g.*1) ∧
             (YY_MAX_SHIFT Y < v0 → YY_MIN_SHIFTREDUCE Y ≤ v0 ∧ rhs (v0 - YY_MIN_SHIFTREDUCE Y) ≠ [] ∧
                can_reduce (v0 - YY_MIN_SHIFTREDUCE Y) (y :: g.*1))) ∨
          (YY_MAX_SHIFTREDUCE Y < v0 < YY_MIN_REDUCE Y ∧
             (v0 = YY_ACCEPT_ACTION Y → ∃ ys, g.*1 = start :: ys))) as Hact.
  { destruct Htop as [[Hs Hp]|[(Hs&Hne&Hr)|[Hs Hst]]].
    - assert (∀ ys ys', ys `prefix_of` past (stateno e) → ys' = ys → ys' `prefix_of` g.*1) as Htr
        by (intros ys ? ? ->; by etrans).
      destruct (find_shift_inv _ _ _ Hs E) as [(o&y&Hy&Hyt&Ho&Hl&Ha)|Hd].
      + destruct (v_shift HY _ _ _ _ Hs Ho Hyt Hl Ha) as (N1&N2&N3&N4).
        destruct (Z.le_gt_cases (YY_MIN_REDUCE Y) v0) as [Hge|Hlt].
        * left. unfold can_reduce in *. split_and!; [done|by etrans; [apply N4|]|done].
        * destruct (Z.le_gt_cases v0 (YY_MAX_SHIFTREDUCE Y)) as [Hle|Hgt]; [|right; right; split; [lia|done]].
          right; left. split_and!; [done|done|]. exists y. split_and!; [done|done| |].
          -- intros H1. etrans; [by apply N2|]. by apply prefix_cons.
          -- intros H1. destruct N3 as (?&?&?); [lia|]. split_and!; [done|done|]. unfold can_reduce in *. etrans; [done|]. by apply prefix_cons.
      + destruct (v_default HY _ _ Hs Hd) as (N1&N2&N3).
        destruct (Z.le_gt_cases (YY_MIN_REDUCE Y) v0) as [Hge|Hlt]; [left|right; right; split; [lia|done]].
        unfold can_reduce in *. split_and!; [done|by etrans; [apply N3|]|done].
    - unfold yy_find_shift_action in E. destruct (Z.gtb_spec (stateno e) (YY_MAX_SHIFT Y)); [|lia].
      injection E as <-. left. split_and!; [done|done|done].
    - unfold yy_find_shift_action in E. destruct (Z.gtb_spec (stateno e) (YY_MAX_SHIFT Y)); [|lia].
      injection E as <-. right; right. split; [lia|]. intros _. destruct Hst as [ys Hys]. by exists ys. }
  destruct (Z.geb_spec v0 (YY_MIN_REDUCE Y)) as [Hge|Hlt].
  - destruct Hact as [(_&Hr&Hemp)|[(?&_)|(?&_)]]; [|lia..]. res_inv H.
    set (nr := v1) in *. clearbody nr.
    assert (∀ room p1, (if nr =? 0 then check_room Y malloc_ok p else Ok (true, p)) = Ok (room, p1) →
      yystack p1 = yystack p) as Hroom.
    { intros room p1. destruct (nr =? 0); [|by intros [= _ <-]]. unfold check_room, yyGrowStack.
      intros Hx. res_inv Hx. pose proof (track_depth_stack _ _ _ E1) as Hts.
      destruct (YYSTACKDEPTH Y >? 0); [by injection Hx as _ <-|].
      destruct (_ >=? _) in Hx; [|by injection Hx as _ <-].
      by destruct (malloc_ok _) in Hx; injection Hx as _ <-. }
    destruct (if nr =? 0 then _ else _) as [[room p1]|]; [|done]. specialize (Hroom room p1 eq_refl).
    destruct room; cbn [negb] in H; [|by injection H as <- _].
    destruct (yy_reduce Y C p1 _ t v) as [[act p2]|] eqn:Er; [|done].
    destruct (yy_reduce_sound p1 g (v0 - YY_MIN_REDUCE Y) t v act p2) as (g'&e2&k2&Hk2&Hcons&He2&Hst); try done.
    { by rewrite Hroom. }
    { intros Hnil e1. rewrite Hroom, He. intros [= <-]. by apply Hemp. }
    rewrite <- Hst in H. pose proof (IH _ _ _ _ Hk2 He2 H) as Hres.
    unfold result_ok in *. by rewrite Hcons in Hres.
  - destruct (Z.leb_spec v0 (YY_MAX_SHIFTREDUCE Y)) as [Hle|Hgt].
    + destruct Hact as [(?&_)|[(_&Hse&y&Hy&Hyt&H1&H2)|(?&_)]]; [lia| |lia].
      destruct (yy_shift Y C malloc_ok p v0 t v) as [[ov p1]|] eqn:Es; [|done].
      injection H as <- <-. destruct ov; [done|].
      assert (stack_ok (yystack p1) ((y, [t]) :: g)) as Hk1.
      { eapply yy_shift_sound; try done. intros e1. rewrite He. by intros [= <-]. }
      exists ((y, [t]) :: g). split; [by destruct (YYNOERRORRECOVERY Y)|by rewrite consumed_cons].
    + destruct Hact as [(?&_)|[(?&_)|(_&Hacc)]]; [lia|lia|].
      destruct (Z.eqb_spec v0 (YY_ACCEPT_ACTION Y)) as [Heq|Hne].
      * rewrite He in *. destruct k as [|e1 k]; [done|]. res_inv H. injection H as <- _.
        destruct (Hacc Heq) as [ys Hys]. inversion Hk as [|? ? ? y w g0 Hk0 Hs0 Hd Ht0]; subst.
        cbn in Hys. injection Hys as -> _. cbn [result_ok]. rewrite consumed_cons.
        unfold yy_accept in E0. res_inv E0. unfold depth in E1. cbn [yystack upd_errcnt upd_stack] in E1.
        destruct k as [|e3 k3]; [|unfold assert in E1; destruct (Z.eqb_spec (zlen (e1 :: e3 :: k3) - 1) 0);
          [unfold zlen in *; cbn [length] in *; lia|done]].
        inversion Hk0; subst. done.
      * res_inv H. destruct (parse_error _ _ _ _ _ _ _ _) as [[[[t1 a1]|] p1]|]; [|by injection H as <- _|done].
        by apply Parse_loop_hit in H as [? ?]; destruct r.
Qed.

(** Soundness of the generated parser: if the tables are consistent with the
    grammar (a condition on single table entries) and the parser, started fresh,
    accepts on the last token of [ts] without having met an error, then the start
    symbol derives the tokens before it, where a token may stand for itself, its
    [%fallback] or the [%wildcard]. *)
Theorem parser_sound fuel m0 u ts p :
  parse_tokens Y C malloc_ok fuel (ParseInit Y malloc_ok m0 u) ts = Ok (true, p) →
  ∃ ts' last, ts = ts' ++ [last] ∧ derives start ts'.*1.
Proof.
  assert (stack_ok (yystack (ParseInit Y malloc_ok m0 u)) []) as Hinit.
  { unfold ParseInit, yyGrowStack. destruct (_ <=? 0); [destruct (malloc_ok _)|]; by constructor. }
  intros H. change ts with ([] ++ ts). assert (consumed [] = ([] : list (Z * T)).*1) as Hc0 by done.
  revert Hinit Hc0 H. generalize ([] : list (Z * T)) at 2 3 as ts0. generalize (@nil (Z * list Z)) as g.
  generalize (ParseInit Y malloc_ok m0 u) as q.
  induction ts as [|[t v] ts IH]; intros q g ts0 Hk Hc H; cbn [parse_tokens] in H; [done|].
  unfold Parse in H. destruct (yystack q) as [|e k] eqn:He; [done|].
  destruct (Parse_loop _ _ _ _ _ _ _ _ _) as [[r q']|] eqn:El; [|done].
  pose proof (Parse_loop_sound fuel q g t v e k r q') as Hres. rewrite He in Hres. specialize (Hres Hk eq_refl El).
  destruct r; try done.
  - destruct Hres as (g'&Hk'&Hc'). rewrite cons_middle, app_assoc. apply (IH q' g'); [done| |done].
    rewrite Hc', Hc, fmap_app. done.
  - injection H as Hnil _. apply bool_decide_eq_true_1 in Hnil as ->. exists ts0, (t, v). split; [done|].
    rewrite <- Hc. done.
Qed.

End Sound.

(** ** A small parser *)

(** [input ::= e.  e ::= LP e RP.  e ::= NUM.  e ::= .] with the symbols $, LP, RP,
    NUM, input and e; the states are: start, after LP, after LP e, after e. The
    action table is packed by [acttab_build]. *)
Definition demo_rhs (r : Z) : list Z :=
  if r =? 0 then [5] else if r =? 1 then [1; 5; 2] else if r =? 2 then [3] else [].
Definition demo_past (s : Z) : list Z :=
  if s =? 1 then [1] else if s =? 2 then [5; 1] else if s =? 3 then [5] else [].
Definition demo_txs : list (bool * list (Z * Z)) :=
  [(true, [(0, 16); (1, 1); (3, 8)]); (true, [(1, 1); (2, 16); (3, 8)]); (true, [(2, 7)]); (true, [(0, 13)]);
   (false, [(5, 3); (4, 11)]); (false, [(5, 2)])].
Definition demo_tables (track : bool) : yytables :=
  match acttab_build (acttab_alloc 6 4) demo_txs with
  | Err _ => mkTables 0 0 0 0 None None false false 0 0 0 0 0 0 0 0 0 [] [] [] [] [] None [] []
  | Ok (os, p) =>
      {| YYSTACKDEPTH := 100; YYNSTATE := 6; YYNTOKEN := 4; YYNOCODE := 7; YYWILDCARD := None;
         YYERRORSYMBOL := None; YYNOERRORRECOVERY := false; YYTRACKMAXSTACKDEPTH := track;
         YY_MAX_SHIFT := 3; YY_MIN_SHIFTREDUCE := 6; YY_MAX_SHIFTREDUCE := 9; YY_ERROR_ACTION := 10;
         YY_ACCEPT_ACTION := 11; YY_MIN_REDUCE := 13; YY_SHIFT_COUNT := 3; YY_REDUCE_COUNT := 1;
         YY_ACTTAB_COUNT := nAction p;
         yy_action := (λ e, if la_action e <? 0 then 12 else la_action e) <$> aAction p;
         yy_lookahead := (λ e, if la_lookahead e <? 0 then 6 else la_lookahead e) <$> aAction p;
         yy_shift_ofst := take 4 os; yy_reduce_ofst := drop 4 os;
         yy_default := [10; 10; 10; 10]; yyFallback := None;
         yyRuleInfoLhs := [4; 5; 5; 5]; yyRuleInfoNRhs := [-1; -3; -1; 0] |}
  end.
Definition demo_code : yycode unit unit unit :=
  mkCode _ _ _ (λ _, tt) (λ _ _ u, u) (λ _ _ _ _ u, (tt, u)) (λ u, u) (λ u, u) (λ _ _ u, u) (λ u, u).
Definition demo_run (track : bool) (ts : list Z) : res bool :=
  let* (b, _) := parse_tokens (demo_tables track) demo_code (λ _, true) 20
                   (ParseInit (demo_tables track) (λ _, true) tt tt) ((λ t, (t, tt)) <$> ts) in Ok b.

(** LP LP NUM RP RP $ *)
Definition demo_tokens : list (Z * unit) := (λ t, (t, tt)) <$> [1; 1; 3; 2; 2; 0].

Lemma parser_sound_witness :
  ∃ ts' last, demo_tokens = ts' ++ [last] ∧ derives (demo_tables false) demo_rhs 4 ts'.*1.
Proof.
  assert (tables_ok (demo_tables false) demo_rhs 4 demo_past) as Hok
    by (apply tables_okb_sound; vm_compute; reflexivity).
  destruct (parse_tokens (demo_tables false) demo_code (λ _, true) 20
    (ParseInit (demo_tables false) (λ _, true) tt tt) demo_tokens) as [[b p]|] eqn:E;
    [|exfalso; revert E; vm_compute; discriminate].
  assert (b = true) as Hb by (revert E; vm_compute; intros Hx; injection Hx; intros; symmetry; assumption).
  rewrite Hb in E.
  exact (parser_sound (demo_tables false) demo_rhs 4 demo_past demo_code (λ _, true) Hok 20 tt tt demo_tokens p E).
Defined.

(** With [YYTRACKMAXSTACKDEPTH] the high-water mark misses the entry that a
    rule with an empty right-hand side pushes, so the next shift above it fails
    the assertion [yyhwm == yytos-yystack]: the small parser, which accepts
    "LP RP", aborts on it when the stack depth is tracked. *)
Theorem hwm_assert_fails : demo_run false [1; 2; 0] = Ok true ∧ demo_run true [1; 2; 0] = Err ExitCalled.
Proof. split; vm_compute; reflexivity. Qed.
