(* ===== verification/LemparSafe.v ===== *)
(** Safety of the parser driver: on tables that pass a check of their entries, no call of
    [Parse] ever leaves an array, fails an assertion or reads above or below the parser
    stack, for any token, whatever the tokens before it were. *)
From S2P Require Import Prelude ActTab Lempar.

Section Safe.
Context (Y : yytables).
(** for each state the states that may be right below it on the stack *)
Context (preds : Z → list Z).

(** the states that may be [n] entries below a state *)
Fixpoint below (n : nat) (s : Z) : list Z :=
  match n with O => [s] | S n => remove_dups (mjoin (preds <$> below n s)) end.

(** ** What the tables must satisfy *)

Definition in_range (lo hi x : Z) : Prop := lo ≤ x ≤ hi.
#[local] Instance in_range_dec lo hi x : Decision (in_range lo hi x).
Proof. unfold in_range. apply _. Defined.

(** a state an entry may have: one that shifts, one that stands for a reduction by a rule
    that is not empty, or the one that accepts *)
Definition state_okb (s : Z) : bool :=
  bool_decide (in_range 0 (YY_MAX_SHIFT Y) s) || bool_decide (s = YY_ACCEPT_ACTION Y) ||
  (bool_decide (YY_MIN_REDUCE Y ≤ s) && match tab (yyRuleInfoNRhs Y) (s - YY_MIN_REDUCE Y) with Ok n => n <? 0 | Err _ => false end).
(** the state [q], uncovered by a reduction, goes on with [A] *)
Definition goto_okb (q A : Z) : bool :=
  bool_decide (in_range 0 (YY_MAX_SHIFT Y) q) &&
  match yy_find_reduce_action Y q A with
  | Ok b => negb ((b >? YY_MAX_SHIFT Y) && (b <=? YY_MAX_SHIFTREDUCE Y)) && negb (b =? YY_ERROR_ACTION Y) && state_okb b && bool_decide (q ∈ preds b)
  | Err _ => false
  end.
(** rule [r] can be reduced on top of state [s]: the stack has its right-hand side *)
Definition reduce_okb (s r : Z) : bool :=
  match tab (yyRuleInfoLhs Y) r, tab (yyRuleInfoNRhs Y) r with
  | Ok A, Ok n =>
      (n <=? 0) && forallb (λ k, bool_decide (0 ∉ below k s)) (seq 0 (Z.to_nat (- n))) && forallb (λ q, goto_okb q A) (below (Z.to_nat (- n)) s)
  | _, _ => false
  end.
Definition action_okb (s a : Z) : bool :=
  if a >=? YY_MIN_REDUCE Y then reduce_okb s (a - YY_MIN_REDUCE Y)
  else if a <=? YY_MAX_SHIFT Y then state_okb a && bool_decide (s ∈ preds a)
  else if a <=? YY_MAX_SHIFTREDUCE Y then
    let s' := a + (YY_MIN_REDUCE Y - YY_MIN_SHIFTREDUCE Y) in state_okb s' && bool_decide (s ∈ preds s')
  else bool_decide (a = YY_ERROR_ACTION Y) && bool_decide (a ≠ YY_ACCEPT_ACTION Y).

Definition upto (n : Z) (f : Z → bool) : bool := forallb f (seqZ 0 n).
Definition consts_okb : bool :=
  bool_decide (0 ≤ YY_MAX_SHIFT Y ≤ YY_MAX_SHIFTREDUCE Y) && bool_decide (YY_MAX_SHIFT Y < YY_ACCEPT_ACTION Y) &&
  bool_decide (YY_MAX_SHIFTREDUCE Y < YY_ACCEPT_ACTION Y < YY_MIN_REDUCE Y) && bool_decide (0 < YYSTACKDEPTH Y).
Definition tables_safeb : bool :=
  consts_okb && bool_decide (YYERRORSYMBOL Y = None) && negb (YYTRACKMAXSTACKDEPTH Y) &&
  bool_decide (preds 0 = []) && bool_decide (preds (YY_ACCEPT_ACTION Y) = [0]) &&
  forallb (λ n, n <=? 0) (yyRuleInfoNRhs Y) &&
  upto (YY_MAX_SHIFT Y + 1) (λ s, upto (YYNTOKEN Y) (λ t, match yy_find_shift_action Y t s with Ok a => action_okb s a | Err _ => false end)) &&
  upto (zlen (yyRuleInfoNRhs Y)) (λ r, match tab (yyRuleInfoNRhs Y) r with Ok n => (n =? 0) || reduce_okb (YY_MIN_REDUCE Y + r) r | Err _ => true end).

(** ** Stacks *)

Context {T M U : Type} (C : yycode T M U) (malloc_ok : Z → bool).
Notation parser := (yyParser M U).
Notation entry := (yyStackEntry M).
Implicit Types (p : parser) (k : list entry).

(** from the top down to the bottom entry of state 0, each state above one that leads to it *)
Fixpoint path k : Prop :=
  match k with
  | [] => False
  | e :: k' =>
      match k' with
      | [] => stateno e = 0
      | e' :: _ => stateno e' ∈ preds (stateno e) ∧ state_okb (stateno e) = true ∧ path k'
      end
  end.

Context (Hsafe : tables_safeb = true).
Lemma safe_parts : (0 ≤ YY_MAX_SHIFT Y ≤ YY_MAX_SHIFTREDUCE Y ∧ YY_MAX_SHIFTREDUCE Y < YY_ACCEPT_ACTION Y < YY_MIN_REDUCE Y ∧ 0 < YYSTACKDEPTH Y) ∧
  YYERRORSYMBOL Y = None ∧ YYTRACKMAXSTACKDEPTH Y = false ∧ preds 0 = [] ∧ preds (YY_ACCEPT_ACTION Y) = [0] ∧ Forall (λ n, n ≤ 0) (yyRuleInfoNRhs Y) ∧
  (∀ s t, 0 ≤ s ≤ YY_MAX_SHIFT Y → 0 ≤ t < YYNTOKEN Y → ∃ a, yy_find_shift_action Y t s = Ok a ∧ action_okb s a = true) ∧
  (∀ r n, tab (yyRuleInfoNRhs Y) r = Ok n → n < 0 → reduce_okb (YY_MIN_REDUCE Y + r) r = true).
Proof.
  pose proof Hsafe as H. unfold tables_safeb, consts_okb in H. rewrite !andb_true_iff, !bool_decide_eq_true, negb_true_iff in H.
  destruct H as [[[[[[[[[[? ?] ?] ?] ?] ?] ?] ?] Hn] Hs] Hr]. split_and!; try done; try lia.
  - apply Forall_forall. intros n Hin. rewrite forallb_forall in Hn. apply Z.leb_le, Hn. by apply list_elem_of_In.
  - intros s t Hss Ht. unfold upto in Hs. rewrite forallb_forall in Hs. specialize (Hs s). rewrite <- list_elem_of_In, elem_of_seqZ in Hs. specialize (Hs ltac:(lia)).
    rewrite forallb_forall in Hs. specialize (Hs t). rewrite <- list_elem_of_In, elem_of_seqZ in Hs. specialize (Hs ltac:(lia)).
    destruct (yy_find_shift_action Y t s) as [a|]; [by exists a|done].
  - intros r n Hn' Hlt. pose proof Hn' as [Hr0 Hlk]%tab_Ok. apply lookup_lt_Some in Hlk. unfold upto in Hr. rewrite forallb_forall in Hr. specialize (Hr r).
    rewrite <- list_elem_of_In, elem_of_seqZ, Hn' in Hr. unfold zlen in Hr. specialize (Hr ltac:(lia)).
    rewrite (proj2 (Z.eqb_neq n 0)) in Hr by lia. done.
Qed.

Lemma path_tail e e' k : path (e :: e' :: k) → stateno e' ∈ preds (stateno e) ∧ path (e' :: k).
Proof. intros (?&_&?). done. Qed.
Lemma path_top e k : path (e :: k) → state_okb (stateno e) = true.
Proof.
  destruct safe_parts as ((?&_)&_). destruct k as [|e' k]; [|by intros (_&?&_)]. intros ->. unfold state_okb.
  by rewrite bool_decide_eq_true_2 by (unfold in_range; lia).
Qed.
(** what a reduction uncovers *)
Lemma path_drop n e k : path (e :: k) → (∀ j, (j < n)%nat → 0 ∉ below j (stateno e)) →
  ∃ q k', drop n (e :: k) = q :: k' ∧ stateno q ∈ below n (stateno e) ∧ path (q :: k').
Proof.
  intros Hp. induction n as [|n IH]; intros Hb; [exists e, k; split_and!; [done|cbn; by left|done]|].
  destruct IH as (q&k'&Hd&Hq&Hp'); [intros j Hj; apply Hb; lia|].
  destruct k' as [|q' k']; [cbn [path] in Hp'; rewrite Hp' in Hq; by destruct (Hb n ltac:(lia))|].
  apply path_tail in Hp' as [Hin Hp']. exists q', k'. split_and!; [|cbn [below]|done].
  - replace (S n) with (n + 1)%nat by lia. by rewrite <- drop_drop, Hd.
  - apply elem_of_remove_dups, list_elem_of_join. exists (preds (stateno q)). split; [done|]. by apply list_elem_of_fmap_2.
Qed.

Lemma pop_all_path k u : path k → path (pop_all C k u).1.
Proof.
  revert u. induction k as [|e k IH]; [done|]. intros u Hp. destruct k as [|e' k]; [done|]. cbn [pop_all]. apply IH. by apply path_tail in Hp as [_ Hp].
Qed.
Lemma finalize_path p : path (yystack p) → path (yystack (ParseFinalize C p)).
Proof.
  intros Hp. unfold ParseFinalize. pose proof (pop_all_path (yystack p) (yyuser p) Hp) as H. by destruct (pop_all C (yystack p) (yyuser p)).
Qed.

(** ** The steps *)

(** an outcome: a parser whose stack is a path, or a loop that goes on *)
Definition fine {A} (f : A → Prop) (r : res A) : Prop := match r with Ok a => f a | Err e => e = OutOfFuel end.

Lemma track_none p d : track_depth Y p d = Ok p.
Proof. unfold track_depth. destruct safe_parts as (_&_&->&_). done. Qed.
Lemma shift_path p a t v : path (yystack p) → (∀ e k, yystack p = e :: k → action_okb (stateno e) a = true) → a ≤ YY_MAX_SHIFTREDUCE Y →
  ∃ ov p', yy_shift Y C malloc_ok p a t v = Ok (ov, p') ∧ path (yystack p').
Proof.
  intros Hp Ha Hle. destruct safe_parts as ((H1&H2&H3)&_). unfold yy_shift. rewrite track_none. cbn [mbind res_bind].
  destruct (Z.gtb_spec (YYSTACKDEPTH Y) 0); [|lia]. destruct (depth p + 1 >? YYSTACKDEPTH Y - 1).
  - eexists _, _. split; [done|]. by apply finalize_path.
  - eexists _, _. split; [done|]. cbn [yystack upd_stack]. destruct (yystack p) as [|e k] eqn:Ek; [done|]. specialize (Ha e k eq_refl).
    unfold action_okb in Ha. destruct (Z.geb_spec a (YY_MIN_REDUCE Y)); [lia|]. cbn [path stateno].
    destruct (Z.leb_spec a (YY_MAX_SHIFT Y)), (Z.gtb_spec a (YY_MAX_SHIFT Y)); try lia.
    + apply andb_true_iff in Ha as [? ?%bool_decide_eq_true_1]. done.
    + destruct (Z.leb_spec a (YY_MAX_SHIFTREDUCE Y)); [|lia]. apply andb_true_iff in Ha as [? ?%bool_decide_eq_true_1]. done.
Qed.
Lemma reduce_path p r la v e k : path (yystack p) → yystack p = e :: k → reduce_okb (stateno e) r = true →
  ∃ a p', yy_reduce Y C p r la v = Ok (a, p') ∧ path (yystack p') ∧ ∃ e' k', yystack p' = e' :: k' ∧ stateno e' = a.
Proof.
  intros Hp He Hr. unfold reduce_okb in Hr. unfold yy_reduce. destruct (tab (yyRuleInfoLhs Y) r) as [A|]; [|done].
  destruct (tab (yyRuleInfoNRhs Y) r) as [n|]; [|done]. cbn [mbind res_bind]. rewrite !andb_true_iff, Z.leb_le in Hr. destruct Hr as [[Hn Hb] Hg].
  destruct (Z.ltb_spec 0 n); [lia|]. cbv zeta. rewrite He in *. destruct (path_drop (Z.to_nat (- n)) e k Hp) as (q&k'&Hd&Hq&Hp').
  { intros j Hj. rewrite forallb_forall in Hb. specialize (Hb j). rewrite in_seq in Hb. specialize (Hb ltac:(lia)). by apply bool_decide_eq_true_1 in Hb. }
  destruct (reduce_code _ _ _ _ _ _) as [m u]. rewrite Hd.
  rewrite forallb_forall in Hg. specialize (Hg (stateno q) (proj1 (list_elem_of_In _ _) Hq)). unfold goto_okb in Hg. apply andb_true_iff in Hg as [_ Hg].
  destruct (yy_find_reduce_action Y (stateno q) A) as [b|]; [|done]. cbn [mbind res_bind]. rewrite !andb_true_iff in Hg.
  destruct Hg as [[[E1 E2] Hs] Hin%bool_decide_eq_true_1]. unfold assert. rewrite E1, E2. cbn [mbind res_bind]. eexists b, _. split; [done|].
  cbn [yystack upd_user upd_stack path stateno]. split_and!; [done..|by eexists _, _].
Qed.

Lemma error_path p t v a hit : path (yystack p) → ∃ p', parse_error Y C malloc_ok p t v a hit = Ok (None, p') ∧ path (yystack p').
Proof.
  intros Hp. unfold parse_error. destruct safe_parts as (_&->&_). destruct (YYNOERRORRECOVERY Y); [by eexists|]. eexists. split; [done|].
  set (p1 := if yyerrcnt p <=? 0 then _ else _). assert (path (yystack p1)) by (unfold p1; by destruct (_ <=? _)).
  destruct (t =? 0); [|done]. by apply (finalize_path (yy_destructor C t (yy0 C v) (upd_errcnt p1 3))).
Qed.
Lemma room_path p : ∃ room, check_room Y malloc_ok p = Ok (room, p).
Proof.
  unfold check_room. rewrite track_none. cbn [mbind res_bind]. destruct safe_parts as ((_&_&?)&_).
  destruct (Z.gtb_spec (YYSTACKDEPTH Y) 0); [by eexists|lia].
Qed.
Lemma accept_path e k : path (e :: k) → stateno e = YY_ACCEPT_ACTION Y → ∃ e', k = [e'] ∧ stateno e' = 0.
Proof.
  intros Hp Hs. destruct safe_parts as ((?&?&_)&_&_&H0&Hacc&_). destruct k as [|e' k]; [cbn in Hp; lia|]. apply path_tail in Hp as [Hin Hp].
  rewrite Hs, Hacc in Hin. apply list_elem_of_singleton in Hin. exists e'. split; [|done]. f_equal. destruct k as [|e2 k]; [done|].
  apply path_tail in Hp as [Hin2 _]. rewrite Hin, H0 in Hin2. by apply not_elem_of_nil in Hin2.
Qed.

Lemma loop_path fuel : ∀ p t v e k hit, path (yystack p) → yystack p = e :: k → 0 ≤ t < YYNTOKEN Y →
  fine (λ '(_, p'), path (yystack p')) (Parse_loop Y C malloc_ok fuel p t v (stateno e) hit).
Proof.
  induction fuel as [|fuel IH]; intros p t v e k hit Hp He Ht; [done|]. cbn [Parse_loop].
  destruct safe_parts as ((H1&H2&H3)&_&_&_&_&_&Hfind&Hred).
  assert (∃ a, yy_find_shift_action Y t (stateno e) = Ok a ∧ (a = YY_ACCEPT_ACTION Y ∧ stateno e = a ∨ a ≠ YY_ACCEPT_ACTION Y ∧ action_okb (stateno e) a = true)) as (a&->&Ha).
  { pose proof Hp as Ht'. rewrite He in Ht'. apply path_top in Ht'. unfold state_okb in Ht'. rewrite !orb_true_iff, andb_true_iff, !bool_decide_eq_true in Ht'.
    destruct Ht' as [[Hs|Hs]|[Hs Hn]].
    - destruct (Hfind (stateno e) t Hs Ht) as (a&Ha&Hok). exists a. split; [done|]. right. split; [|done]. intros ->. unfold action_okb in Hok.
      destruct (Z.geb_spec (YY_ACCEPT_ACTION Y) (YY_MIN_REDUCE Y)); [lia|]. destruct (Z.leb_spec (YY_ACCEPT_ACTION Y) (YY_MAX_SHIFT Y)); [lia|].
      destruct (Z.leb_spec (YY_ACCEPT_ACTION Y) (YY_MAX_SHIFTREDUCE Y)); [lia|]. apply andb_true_iff in Hok as [_ Hne]. by apply bool_decide_eq_true_1 in Hne.
    - exists (stateno e). unfold yy_find_shift_action. destruct (Z.gtb_spec (stateno e) (YY_MAX_SHIFT Y)); [|lia]. split; [done|]. by left.
    - exists (stateno e). unfold yy_find_shift_action. destruct (Z.gtb_spec (stateno e) (YY_MAX_SHIFT Y)); [|lia]. split; [done|]. right. split; [lia|].
      destruct (tab (yyRuleInfoNRhs Y) (stateno e - YY_MIN_REDUCE Y)) as [n|] eqn:En; [|done]. apply Z.ltb_lt in Hn. unfold action_okb.
      destruct (Z.geb_spec (stateno e) (YY_MIN_REDUCE Y)); [|lia]. pose proof (Hred _ _ En Hn) as Hr. by replace (YY_MIN_REDUCE Y + _) with (stateno e) in Hr by lia. }
  cbn [mbind res_bind]. destruct (Z.geb_spec a (YY_MIN_REDUCE Y)) as [Hge|Hlt].
  - destruct Ha as [[-> _]|[_ Ha]]; [lia|]. unfold action_okb in Ha. destruct (Z.geb_spec a (YY_MIN_REDUCE Y)); [|lia].
    pose proof Ha as Hr. unfold reduce_okb in Ha. destruct (tab (yyRuleInfoLhs Y) _); [|done]. cbv zeta. destruct (tab (yyRuleInfoNRhs Y) _) as [n|]; [|done]. cbn [mbind res_bind].
    assert (∃ room, (if n =? 0 then check_room Y malloc_ok p else Ok (true, p)) = Ok (room, p)) as [room ->] by (destruct (n =? 0); [apply room_path|by eexists]).
    destruct room; cbn [negb]; [|by apply finalize_path].
    destruct (reduce_path p _ t v e k Hp He Hr) as (b&p'&->&Hp'&e'&k'&He'&<-). cbn [mbind res_bind]. by apply (IH p' t v e' k').
  - destruct (Z.leb_spec a (YY_MAX_SHIFTREDUCE Y)) as [Hle|Hgt].
    + destruct Ha as [[-> _]|[_ Ha]]; [lia|]. destruct (shift_path p a t v Hp) as (ov&p'&->&Hp'); [by rewrite He; intros ? ? [= <- <-]|done|].
      cbn. by destruct (YYNOERRORRECOVERY Y).
    + destruct (Z.eqb_spec a (YY_ACCEPT_ACTION Y)) as [Heq|Hne].
      * destruct Ha as [[_ Hs]|[? _]]; [|done]. rewrite He in Hp. rewrite Heq in Hs. destruct (accept_path e k Hp Hs) as (e'&->&H0). rewrite He.
        done.
      * destruct Ha as [[? _]|[_ Ha]]; [done|]. unfold action_okb in Ha. destruct (Z.geb_spec a (YY_MIN_REDUCE Y)); [lia|].
        destruct (Z.leb_spec a (YY_MAX_SHIFT Y)); [lia|]. destruct (Z.leb_spec a (YY_MAX_SHIFTREDUCE Y)); [lia|].
        apply andb_true_iff in Ha as [->%bool_decide_eq_true_1 _]. unfold assert. rewrite Z.eqb_refl. cbn [mbind res_bind].
        destruct (error_path p t v (YY_ERROR_ACTION Y) hit Hp) as (p'&->&Hp'). done.
Qed.

(** C36: The driver stays inside its arrays. Let the tables pass the check [tables_safeb] of
    their entries, as Dawn's do ([dawn_safe]): a fixed stack size, no error symbol, no
    tracking of the stack depth (whose assertion is wrong, see [hwm_assert_fails]), and
    actions that agree with the states that can be on the stack. The stack of a fresh parser
    fits its array of [YYSTACKDEPTH] entries and leads from state 0 to its top along the
    tables; and from any such stack, every call of [Parse] on any token of the grammar, for
    any number of steps of its loop, either ends (by shift, accept, error or overflow) with
    such a stack again, or has not ended yet: no table is read out of range, nothing above
    or below the stack is read or written, and no assertion fails. *)
Theorem parse_stack_safe (m0 : M) (u : U) :
  (path (yystack (ParseInit Y malloc_ok m0 u)) ∧ bounded Y (ParseInit Y malloc_ok m0 u)) ∧
  ∀ fuel p t v, path (yystack p) → bounded Y p → 0 ≤ t < YYNTOKEN Y →
    match Parse Y C malloc_ok fuel p t v with
    | Ok (_, p') => path (yystack p') ∧ bounded Y p'
    | Err e => e = OutOfFuel
    end.
Proof.
  destruct safe_parts as ((_&_&Hd)&_&_&_&_&Hn&_). split.
  { unfold ParseInit. destruct (Z.leb_spec (YYSTACKDEPTH Y) 0); [lia|]. split; [done|]. unfold bounded, depth, zlen. cbn [yystack length]. lia. }
  intros fuel p t v Hp Hb Ht. assert (fine (λ '(_, p'), path (yystack p')) (Parse Y C malloc_ok fuel p t v)) as Hf.
  { unfold Parse. destruct (yystack p) as [|e k] eqn:He; [done|]. rewrite <- He in Hp. by eapply loop_path. }
  destruct (Parse Y C malloc_ok fuel p t v) as [[r p']|] eqn:E; [|done]. split; [done|]. by eapply stack_stays_bounded.
Qed.
End Safe.

(** the states below each state, read off the tables *)
Definition add_pred (q s : Z) (m : gmap Z (list Z)) : gmap Z (list Z) := <[s := remove_dups (q :: default [] (m !! s))]> m.
Definition pred_map (Y : yytables) : gmap Z (list Z) :=
  foldl (λ m q,
    let m := foldl (λ m t, match yy_find_shift_action Y t q with
      | Ok a => if a <=? YY_MAX_SHIFT Y then add_pred q a m else if a <=? YY_MAX_SHIFTREDUCE Y then add_pred q (a + (YY_MIN_REDUCE Y - YY_MIN_SHIFTREDUCE Y)) m else m
      | Err _ => m end) m (seqZ 0 (YYNTOKEN Y)) in
    foldl (λ m A, match yy_find_reduce_action Y q A with Ok a => if a =? YY_ERROR_ACTION Y then m else add_pred q a m | Err _ => m end) m (remove_dups (yyRuleInfoLhs Y)))
    ∅ (seqZ 0 (YY_MAX_SHIFT Y + 1)).
Definition preds_in (m : gmap Z (list Z)) (s : Z) : list Z := default [] (m !! s).
