(* ===== verification/LemonTable.v ===== *)
(** The associative arrays of the parser generator ([src/sql/lemon.c], from
    "table.c"). The arrays x1 (strings), x2 (symbols), x3 (states) and x4
    (configurations) are four copies of one generated text, so the text is
    modelled once over the entry type, the key of an entry, the hash and the
    comparison, and used four times below. A node pointer is its position in
    [tbl]; the [from] links are written but never read and have no field. *)
From S2P Require Import Prelude.

Definition UINT : Z := 2 ^ 32.

Record xnode (E : Type) := mkNode { xn_data : E; xn_next : option nat }.
Arguments mkNode {E}. Arguments xn_data {E}. Arguments xn_next {E}.

(** [count] is the length of [tbl], its used part *)
Record xtable (E : Type) := mkTable {
  xsize : Z;
  tbl : list (xnode E);
  ht : list (option nat);
}.
Arguments mkTable {E}. Arguments xsize {E}. Arguments tbl {E}. Arguments ht {E}.

Section Table.
Context {E K : Type} (ekey : E → K) (hash : K → Z) (cmp : K → K → Z).
(** does an allocation of [n] slots succeed? *)
Context (calloc_ok : Z → bool).
Implicit Types (x : xtable E).

Definition x_count x : Z := zlen (tbl x).

Definition x_init (n : Z) : option (xtable E) :=
  if calloc_ok n then Some (mkTable n [] (replicate (Z.to_nat n) None)) else None.

(** the loop along one chain: the first node whose key compares equal *)
Fixpoint x_walk (fuel : nat) (nodes : list (xnode E)) (np : option nat) (key : K) : res (option nat) :=
  match np with
  | None => Ok None
  | Some i =>
      match fuel with
      | O => Err OutOfFuel
      | S fuel =>
          nd ← of_opt OutOfBounds (nodes !! i);
          if cmp (ekey (xn_data nd)) key =? 0 then Ok (Some i)
          else x_walk fuel nodes (xn_next nd) key
      end
  end.

Definition x_slot (size : Z) (key : K) : Z := Z.land (hash key) (size - 1).

Definition x_find_node x (key : K) : res (option nat) :=
  np ← of_opt OutOfBounds (ht x !! Z.to_nat (x_slot (xsize x) key));
  x_walk (length (tbl x)) (tbl x) np key.
Definition x_find x (key : K) : res (option E) :=
  np ← x_find_node x key;
  match np with
  | None => Ok None
  | Some i => nd ← of_opt OutOfBounds (tbl x !! i); Ok (Some (xn_data nd))
  end.

(** appending a node and making it the head of its chain *)
Definition x_push x (e : E) : res (xtable E) :=
  let h := Z.to_nat (x_slot (xsize x) (ekey e)) in
  head ← of_opt OutOfBounds (ht x !! h);
  Ok (mkTable (xsize x) (tbl x ++ [mkNode e head]) (<[h := Some (length (tbl x))]> (ht x))).

(** the loop that copies the old nodes into a table of twice the size *)
Fixpoint x_rehash (es : list E) x : res (xtable E) :=
  match es with
  | [] => Ok x
  | e :: es => x ← x_push x e; x_rehash es x
  end.

(** the boolean is the C result: false when the key exists or memory is short *)
Definition x_insert x (e : E) : res (bool * xtable E) :=
  np ← x_find_node x (ekey e);
  match np with
  | Some _ => Ok (false, x)
  | None =>
      if x_count x >=? xsize x then
        let arrSize := xsize x * 2 in
        if calloc_ok arrSize then
          x ← x_rehash (xn_data <$> tbl x)
                (mkTable arrSize [] (replicate (Z.to_nat arrSize) None));
          x ← x_push x e; Ok (true, x)
        else Ok (false, x)
      else x ← x_push x e; Ok (true, x)
  end.

(** all data in insertion order *)
Definition x_arrayof x : list E := xn_data <$> tbl x.
Definition x_Nth x (n : Z) : option E :=
  if (0 <? n) && (n <=? x_count x) then xn_data <$> (tbl x !! Z.to_nat (n - 1)) else None.
Definition x_clear x : xtable E :=
  if x_count x =? 0 then x else mkTable (xsize x) [] (replicate (length (ht x)) None).

(** ** The chains *)

(** the last of the first [n] nodes that lies in slot [h] *)
Fixpoint last_in (size : Z) (nodes : list (xnode E)) (n : nat) (h : Z) : option nat :=
  match n with
  | O => None
  | S n =>
      match nodes !! n with
      | Some nd => if x_slot size (ekey (xn_data nd)) =? h then Some n else last_in size nodes n h
      | None => last_in size nodes n h
      end
  end.

Record table_ok x : Prop := {
  x_pow : ∃ k, 0 ≤ k ∧ xsize x = 2 ^ k;
  x_ht : ∀ h, 0 ≤ h < xsize x → ht x !! Z.to_nat h = Some (last_in (xsize x) (tbl x) (length (tbl x)) h);
  x_next : ∀ i nd, tbl x !! i = Some nd →
    xn_next nd = last_in (xsize x) (tbl x) i (x_slot (xsize x) (ekey (xn_data nd)));
  x_uniq : ∀ i j a b, tbl x !! i = Some a → tbl x !! j = Some b →
    cmp (ekey (xn_data a)) (ekey (xn_data b)) = 0 → i = j;
}.

Hypothesis hash_range : ∀ k, 0 ≤ hash k.
(** the comparison is an equivalence that the hash respects *)
Hypothesis cmp_refl : ∀ k, cmp k k = 0.
Hypothesis cmp_sym : ∀ k1 k2, cmp k1 k2 = 0 → cmp k2 k1 = 0.
Hypothesis cmp_trans : ∀ k1 k2 k3, cmp k1 k2 = 0 → cmp k2 k3 = 0 → cmp k1 k3 = 0.
Hypothesis cmp_hash : ∀ k1 k2, cmp k1 k2 = 0 → hash k1 = hash k2.

Lemma x_slot_range size key k : 0 ≤ k → size = 2 ^ k → 0 ≤ x_slot size key < size.
Proof.
  intros Hk ->. unfold x_slot. replace (2 ^ k - 1) with (Z.ones k) by (rewrite Z.ones_equiv; lia).
  rewrite Z.land_ones by done. apply Z.mod_pos_bound. lia.
Qed.

Lemma last_in_app size nodes nd n h : (n ≤ length nodes)%nat →
  last_in size (nodes ++ nd) n h = last_in size nodes n h.
Proof.
  induction n as [|n IH]; intros Hn; [done|]. cbn. rewrite lookup_app_l by lia.
  rewrite IH by lia. done.
Qed.

(** the walk visits the chain from the back and finds the node with the key *)
Lemma x_walk_spec size nodes key n fuel :
  (∀ i nd, nodes !! i = Some nd →
     xn_next nd = last_in size nodes i (x_slot size (ekey (xn_data nd)))) →
  (n ≤ fuel)%nat → (n ≤ length nodes)%nat →
  ∃ r, x_walk fuel nodes (last_in size nodes n (x_slot size key)) key = Ok r ∧
    match r with
    | Some i => (i < n)%nat ∧ ∃ nd, nodes !! i = Some nd ∧ cmp (ekey (xn_data nd)) key = 0
    | None => ∀ i nd, (i < n)%nat → nodes !! i = Some nd → cmp (ekey (xn_data nd)) key ≠ 0
    end.
Proof.
  intros Hnext. revert fuel. induction n as [|n IH]; intros fuel Hf Hn; cbn [last_in].
  { exists None. split; [by destruct fuel|]. intros; lia. }
  destruct (lookup_lt_is_Some_2 nodes n) as [nd Hnd]; [lia|]. rewrite Hnd.
  destruct (Z.eqb_spec (x_slot size (ekey (xn_data nd))) (x_slot size key)) as [Hs|Hs].
  - destruct fuel as [|fuel]; [lia|]. cbn [x_walk]. rewrite Hnd. cbn [of_opt mbind res_bind].
    destruct (Z.eqb_spec (cmp (ekey (xn_data nd)) key) 0) as [Hc|Hc].
    + exists (Some n). split; [done|]. split; [lia|]. by exists nd.
    + rewrite (Hnext _ _ Hnd), Hs. destruct (IH fuel) as (r&Hr&Hp); [lia..|]. exists r. split; [done|].
      destruct r as [i|]; [destruct Hp as (?&?&?&?); split; [lia|eauto]|].
      intros i nd' Hi Hnd'. destruct (decide (i = n)) as [->|]; [congruence|]. apply (Hp i); [lia|done].
  - destruct (IH fuel) as (r&Hr&Hp); [lia..|]. exists r. split; [done|].
    destruct r as [i|]; [destruct Hp as (?&?&?&?); split; [lia|eauto]|].
    intros i nd' Hi Hnd'. destruct (decide (i = n)) as [->|]; [|apply (Hp i); [lia|done]].
    rewrite Hnd in Hnd'. injection Hnd' as <-. intros Hc. apply Hs. unfold x_slot. by rewrite (cmp_hash _ _ Hc).
Qed.

Lemma x_find_node_spec x key :
  table_ok x →
  ∃ r, x_find_node x key = Ok r ∧
    match r with
    | Some i => ∃ nd, tbl x !! i = Some nd ∧ cmp (ekey (xn_data nd)) key = 0
    | None => ∀ e, e ∈ x_arrayof x → cmp (ekey e) key ≠ 0
    end.
Proof.
  intros [(k&Hk&Hsz) Hht Hnext _]. unfold x_find_node.
  pose proof (x_slot_range (xsize x) key k Hk Hsz) as Hr. rewrite Hht by done. cbn [of_opt mbind res_bind].
  destruct (x_walk_spec (xsize x) (tbl x) key (length (tbl x)) (length (tbl x))) as (r&Hw&Hp); [done|done|done|].
  exists r. split; [done|]. destruct r as [i|]; [naive_solver|].
  intros e (nd&->&Hnd)%list_elem_of_fmap. apply list_elem_of_lookup in Hnd as [i Hi].
  apply (Hp i); [by eapply lookup_lt_Some|done].
Qed.

Lemma x_push_ok x e :
  table_ok x → (∀ e', e' ∈ x_arrayof x → cmp (ekey e') (ekey e) ≠ 0) →
  ∃ x', x_push x e = Ok x' ∧ table_ok x' ∧ x_arrayof x' = x_arrayof x ++ [e] ∧ xsize x' = xsize x.
Proof.
  intros [(k&Hk&Hsz) Hht Hnext Hu] Hnew. unfold x_push.
  pose proof (x_slot_range (xsize x) (ekey e) k Hk Hsz) as Hr. rewrite Hht by done. cbn [of_opt mbind res_bind].
  eexists. split; [done|]. split; [|split; [|done]].
  - constructor; cbn [xsize tbl ht].
    + by exists k.
    + intros h Hh. rewrite length_app. cbn [length]. replace (length (tbl x) + 1)%nat with (S (length (tbl x))) by lia.
      cbn [last_in]. rewrite list_lookup_middle by done. cbn [xn_data].
      destruct (Z.eqb_spec (x_slot (xsize x) (ekey e)) h) as [->|Hne].
      * apply list_lookup_insert_eq. pose proof (lookup_lt_Some _ _ _ (Hht h Hh)). lia.
      * rewrite list_lookup_insert_ne by lia. rewrite last_in_app by done. by apply Hht.
    + intros i nd Hi. apply lookup_snoc_Some in Hi as [[Hlt Hi]|[-> <-]].
      * rewrite last_in_app by lia. by apply Hnext.
      * cbn [xn_next xn_data]. by rewrite last_in_app by lia.
    + assert (∀ i a, tbl x !! i = Some a → xn_data a ∈ x_arrayof x) as Hin.
      { intros i a Ha. apply list_elem_of_fmap. exists a. split; [done|]. by eapply list_elem_of_lookup_2. }
      intros i j a b Ha Hb Hc. apply lookup_snoc_Some in Ha as [[Hla Ha]|[-> <-]];
        apply lookup_snoc_Some in Hb as [[Hlb Hb]|[-> <-]]; cbn [xn_data] in Hc.
      * by eapply Hu.
      * exfalso. by apply (Hnew (xn_data a)); [eapply Hin|].
      * exfalso. apply (Hnew (xn_data b)); [by eapply Hin|]. by apply cmp_sym.
      * done.
  - unfold x_arrayof. cbn [tbl]. by rewrite fmap_app.
Qed.

Lemma x_empty_ok n k : 0 ≤ k → n = 2 ^ k → table_ok (mkTable n [] (replicate (Z.to_nat n) None)).
Proof.
  intros Hk Hn. constructor; cbn [xsize tbl ht]; [by exists k| |done|done].
  intros h Hh. cbn. apply lookup_replicate. split; [done|lia].
Qed.

Lemma x_rehash_ok es x :
  table_ok x →
  (∀ i j a b, (x_arrayof x ++ es) !! i = Some a → (x_arrayof x ++ es) !! j = Some b →
     cmp (ekey a) (ekey b) = 0 → i = j) →
  ∃ x', x_rehash es x = Ok x' ∧ table_ok x' ∧ x_arrayof x' = x_arrayof x ++ es ∧ xsize x' = xsize x.
Proof.
  revert x. induction es as [|e es IH]; intros x Hok Hu; cbn [x_rehash].
  { exists x. by rewrite app_nil_r. }
  destruct (x_push_ok x e Hok) as (x1&Hp&Hok1&Ha1&Hs1).
  { intros e' (i&Hi)%list_elem_of_lookup Hc. pose proof (lookup_lt_Some _ _ _ Hi) as Hlt.
    assert (i = length (x_arrayof x)) as ->; [|lia].
    eapply Hu; [|apply list_lookup_middle; reflexivity|exact Hc]. by rewrite lookup_app_l. }
  rewrite Hp. cbn [mbind res_bind]. rewrite cons_middle, app_assoc, <- Ha1 in Hu.
  destruct (IH x1 Hok1 Hu) as (x'&?&?&Ha'&?). exists x'. split_and!; [done|done| |congruence].
  rewrite Ha', Ha1. by rewrite <- app_assoc.
Qed.

Lemma x_insert_ok x e :
  table_ok x →
  (∃ e', x_insert x e = Ok (false, x) ∧ e' ∈ x_arrayof x ∧ cmp (ekey e') (ekey e) = 0) ∨
  ((∀ e', e' ∈ x_arrayof x → cmp (ekey e') (ekey e) ≠ 0) ∧
   ((∃ x', x_insert x e = Ok (true, x') ∧ table_ok x' ∧ x_arrayof x' = x_arrayof x ++ [e]) ∨
    (x_insert x e = Ok (false, x) ∧ calloc_ok (xsize x * 2) = false))).
Proof.
  intros Hok. unfold x_insert. destruct (x_find_node_spec x (ekey e) Hok) as (r&Hf&Hr).
  rewrite Hf. cbn [mbind res_bind]. destruct r as [i|].
  { left. destruct Hr as (nd&Hnd&Hc). exists (xn_data nd). split_and!; [done| |done].
    apply list_elem_of_fmap. exists nd. split; [done|]. by eapply list_elem_of_lookup_2. }
  right. split; [done|]. destruct (x_count x >=? xsize x); cycle 1.
  { left. destruct (x_push_ok x e Hok Hr) as (x'&Hp&?&?&_). rewrite Hp. by exists x'. }
  destruct (calloc_ok (xsize x * 2)) eqn:Ec; [left|by right].
  destruct (x_pow _ Hok) as (k&Hk&Hsz).
  destruct (x_rehash_ok (xn_data <$> tbl x) (mkTable (xsize x * 2) [] (replicate (Z.to_nat (xsize x * 2)) None)))
    as (x1&Hre&Hok1&Ha1&_).
  { apply (x_empty_ok _ (k + 1)); [lia|]. rewrite Hsz, Z.pow_add_r by lia. lia. }
  { cbn. intros i j a b Ha Hb. apply list_lookup_fmap_Some in Ha as (na&->&Ha), Hb as (nb&->&Hb).
    intros Hc. by eapply (x_uniq _ Hok). }
  rewrite Hre. cbn [mbind res_bind]. change (x_arrayof x1 = x_arrayof x) in Ha1.
  destruct (x_push_ok x1 e Hok1) as (x'&Hp&?&Ha'&_); [by rewrite Ha1|].
  rewrite Hp. exists x'. split_and!; [done|done|congruence].
Qed.

(** a lookup returns the entry with the key *)
Lemma x_find_ok x key :
  table_ok x →
  ∃ r, x_find x key = Ok r ∧
    (∀ e, r = Some e ↔ e ∈ x_arrayof x ∧ cmp (ekey e) key = 0).
Proof.
  intros Hok. unfold x_find. destruct (x_find_node_spec x key Hok) as (r&Hf&Hr).
  rewrite Hf. cbn [mbind res_bind]. destruct r as [i|].
  - destruct Hr as (nd&Hnd&Hc). rewrite Hnd. cbn [of_opt mbind res_bind]. eexists. split; [done|].
    intros e. split.
    + intros [= <-]. split; [|done]. apply list_elem_of_fmap. exists nd. split; [done|]. by eapply list_elem_of_lookup_2.
    + intros [(nd'&->&(j&Hj)%list_elem_of_lookup)%list_elem_of_fmap Hc'].
      assert (j = i) as -> by (eapply (x_uniq _ Hok); [done|done|]; eauto). congruence.
  - exists None. split; [done|]. intros e. split; [done|]. intros [He Hc]. by destruct (Hr e He).
Qed.

End Table.

(** ** x1: strings *)

(** a string is the list of its characters, without the terminating zero *)
Definition strhash (s : list Z) : Z := foldl (λ h c, (h * 13 + c) mod UINT) 0 s.

(** the difference at the first mismatch; the end counts as character 0 *)
Fixpoint strcmp (a b : list Z) : Z :=
  match a, b with
  | [], [] => 0
  | [], y :: _ => - y
  | x :: _, [] => x
  | x :: a, y :: b => if x =? y then strcmp a b else x - y
  end.

(** no character is the terminator *)
Definition cstring (s : list Z) : Prop := Forall (λ c, c ≠ 0) s.

Lemma strcmp_refl s : strcmp s s = 0.
Proof. induction s as [|c s IH]; [done|]. cbn. by rewrite Z.eqb_refl. Qed.

Lemma strcmp_eq a b : cstring a → cstring b → strcmp a b = 0 → a = b.
Proof.
  revert b. induction a as [|x a IH]; intros [|y b] Ha Hb H; cbn in H; [done|..].
  - apply Forall_cons in Hb as [? _]. lia.
  - apply Forall_cons in Ha as [? _]. lia.
  - apply Forall_cons in Ha as [? Ha], Hb as [? Hb]. destruct (Z.eqb_spec x y); [|lia].
    subst. f_equal. by apply IH.
Qed.

Lemma strhash_nonneg s : 0 ≤ strhash s.
Proof.
  unfold strhash. assert (∀ h, 0 ≤ h → 0 ≤ foldl (λ h c, (h * 13 + c) mod UINT) h s) as H; [|by apply H].
  induction s as [|c s IH]; intros h Hh; [done|]. cbn. apply IH. apply Z.mod_pos_bound. done.
Qed.

(** a C string as a key: the comparison of keys decides equality *)
Definition cstr : Type := { s : list Z | bool_decide (cstring s) }.
Definition cs (s : cstr) : list Z := `s.
Definition cs_hash (s : cstr) : Z := strhash (cs s).
Definition cs_cmp (a b : cstr) : Z := strcmp (cs a) (cs b).

Lemma cs_cmp_eq (a b : cstr) : cs_cmp a b = 0 ↔ a = b.
Proof.
  split; [|intros ->; apply strcmp_refl]. unfold cs_cmp. intros H. apply (sig_eq_pi _). apply strcmp_eq.
  - apply (bool_decide_unpack _), (proj2_sig a).
  - apply (bool_decide_unpack _), (proj2_sig b).
  - done.
Qed.

Section Strsafe.
Context (calloc_ok : Z → bool).

(** the saved copies have addresses; [sa_next] is the next [malloc] returns *)
Record strsafe := mkStrsafe { sa_next : Z; x1a : xtable (Z * cstr) }.
Implicit Types (st : strsafe).

Definition Strsafe_init : option strsafe := mkStrsafe 1 <$> x_init calloc_ok 1024.
Definition Strsafe_insert st (data : Z * cstr) : res (bool * strsafe) :=
  let* (ok, x) := x_insert snd cs_hash cs_cmp calloc_ok (x1a st) data in
  Ok (ok, mkStrsafe (sa_next st) x).
Definition Strsafe_find st (key : cstr) : res (option (Z * cstr)) :=
  x_find snd cs_hash cs_cmp (x1a st) key.

(** the address of the saved copy; the result of the insertion is not looked at *)
Definition Strsafe (malloc_ok : bool) (y : cstr) st : res (Z * strsafe) :=
  z ← Strsafe_find st y;
  match z with
  | Some (p, _) => Ok (p, st)
  | None =>
      if malloc_ok then
        let p := sa_next st in
        let* (_, st) := Strsafe_insert (mkStrsafe (p + 1) (x1a st)) (p, y) in Ok (p, st)
      else Err ExitCalled
  end.

Definition saved st : list (Z * cstr) := x_arrayof (x1a st).

Record strsafe_ok st : Prop := {
  ss_table : table_ok snd cs_hash cs_cmp (x1a st);
  ss_addr : ∀ p y, (p, y) ∈ saved st → p < sa_next st;
  ss_inj : ∀ p y y', (p, y) ∈ saved st → (p, y') ∈ saved st → y = y';
}.

Lemma Strsafe_find_ok st y :
  strsafe_ok st → ∃ r, Strsafe_find st y = Ok r ∧
    (∀ p y', r = Some (p, y') ↔ (p, y') ∈ saved st ∧ y' = y).
Proof.
  intros Hok. destruct (x_find_ok (snd : Z * cstr → cstr) cs_hash cs_cmp) with (x := x1a st) (key := y) as (r&Hr&Hi).
  - intros ? ? ->%cs_cmp_eq. by apply cs_cmp_eq.
  - intros ? ? ? ->%cs_cmp_eq ->%cs_cmp_eq. by apply cs_cmp_eq.
  - by intros ? ? ->%cs_cmp_eq.
  - apply Hok.
  - exists r. split; [done|]. intros p y'. rewrite Hi. by rewrite cs_cmp_eq.
Qed.

Lemma Strsafe_ok y st :
  strsafe_ok st → (∀ n, calloc_ok n = true) →
  ∃ p st', Strsafe true y st = Ok (p, st') ∧ strsafe_ok st' ∧ (p, y) ∈ saved st' ∧
    saved st `prefix_of` saved st' ∧
    (∀ p' y', (p', y') ∈ saved st' → p' = p ↔ y' = y) ∧
    Strsafe true y st' = Ok (p, st').
Proof.
  intros Hok Hcal. unfold Strsafe.
  destruct (Strsafe_find_ok st y Hok) as (r&Hr&Hi). rewrite Hr. cbn [mbind res_bind].
  assert (∀ st' p, strsafe_ok st' → (p, y) ∈ saved st' → ∀ p' y', (p', y') ∈ saved st' → p' = p ↔ y' = y) as Huniq.
  { intros st' p Hok' Hin p' y' Hin'. split; [intros ->; by eapply ss_inj|]. intros ->.
    destruct (Strsafe_find_ok st' y Hok') as (r'&_&Hr').
    pose proof (proj2 (Hr' p y) (conj Hin eq_refl)). pose proof (proj2 (Hr' p' y) (conj Hin' eq_refl)). congruence. }
  destruct r as [[p y0]|].
  - destruct (proj1 (Hi p y0) eq_refl) as [Hin ->]. exists p, st. rewrite Hr.
    split_and!; [done|done|done|done|by apply Huniq|done].
  - unfold Strsafe_insert. cbn [x1a].
    destruct (x_insert_ok (snd : Z * cstr → cstr) cs_hash cs_cmp calloc_ok) with (x := x1a st) (e := (sa_next st, y))
      as [(e'&_&He&Hc)|(Hno&[(x'&Hx&Hok'&Harr)|(_&Hf)])].
    + intros ? ? ->%cs_cmp_eq. by apply cs_cmp_eq.
    + by intros ? ? ->%cs_cmp_eq.
    + apply Hok.
    + destruct e' as [p' y']. cbn in Hc. apply cs_cmp_eq in Hc as ->.
      by pose proof (proj2 (Hi p' y) (conj He eq_refl)).
    + rewrite Hx. set (st' := mkStrsafe (sa_next st + 1) x').
      assert (saved st' = saved st ++ [(sa_next st, y)]) as Hsv by done.
      assert ((sa_next st, y) ∈ saved st') as Hin.
      { rewrite Hsv. apply elem_of_app. right. by left. }
      assert (strsafe_ok st') as Hst'.
      { constructor; [done|..].
        - intros p y'. rewrite Hsv. intros [Hp|[= -> ->]%list_elem_of_singleton]%elem_of_app; cbn [sa_next st'];
            [pose proof (ss_addr _ Hok _ _ Hp); lia|lia].
        - intros p y1 y2. rewrite Hsv. intros [H1|[= -> ->]%list_elem_of_singleton]%elem_of_app
            [H2|E%list_elem_of_singleton]%elem_of_app.
          + by eapply (ss_inj _ Hok).
          + injection E as -> ->. pose proof (ss_addr _ Hok _ _ H1). lia.
          + pose proof (ss_addr _ Hok _ _ H2). lia.
          + by injection E as ->. }
      exists (sa_next st), st'. split_and!; [done|done|done| |by apply Huniq|].
      * rewrite Hsv. by apply prefix_app_r.
      * destruct (Strsafe_find_ok st' y Hst') as (r'&Hr'&Hi'). rewrite Hr'. cbn [mbind res_bind].
        by rewrite (proj2 (Hi' (sa_next st) y) (conj Hin eq_refl)).
    + by rewrite Hcal in Hf.
Qed.

(** [Strsafe] interns: with memory at hand it always returns an address
    whose copy is the string, equal strings get the same address and different
    strings different ones, and all copies saved before stay; the hash chains,
    the growth of the table and the duplicate check work together for this. *)
Theorem Strsafe_interns y st :
  strsafe_ok st → (∀ n, calloc_ok n = true) →
  ∃ p st', Strsafe true y st = Ok (p, st') ∧ strsafe_ok st' ∧ (p, y) ∈ saved st' ∧
    saved st `prefix_of` saved st' ∧
    (∀ p' y', (p', y') ∈ saved st' → p' = p ↔ y' = y) ∧
    Strsafe true y st' = Ok (p, st').
Proof. apply Strsafe_ok. Qed.

Lemma Strsafe_init_ok st : Strsafe_init = Some st → strsafe_ok st ∧ saved st = [].
Proof.
  unfold Strsafe_init, x_init. destruct (calloc_ok 1024); [|done]. intros [= <-]. split; [|done].
  constructor; cbn.
  - apply (x_empty_ok _ _ _ 1024 10); done.
  - by intros ? ? ?%elem_of_nil.
  - by intros ? ? ? ?%elem_of_nil.
Qed.

End Strsafe.

Lemma Strsafe_interns_witness :
  ∃ p st', Strsafe (λ _, true) true ([101; 120] ↾ I) (mkStrsafe 1 (mkTable 1024 [] (replicate (Z.to_nat 1024) None))) = Ok (p, st') ∧
    (p, ([101; 120] ↾ I : cstr)) ∈ saved st'.
Proof.
  destruct (Strsafe_interns (λ _, true) ([101; 120] ↾ I) (mkStrsafe 1 (mkTable 1024 [] (replicate (Z.to_nat 1024) None))))
    as (p&st'&H1&_&H2&_);
    [apply (Strsafe_init_ok (λ _, true)); reflexivity|reflexivity|exists p, st'; split; assumption].
Defined.

(** ** x3 and x4: states and configurations *)

(** a configuration as a key: the index of its rule and its dot; a state: the
    keys of its basis *)
Definition Configcmp (a b : Z * Z) : Z :=
  let x := a.1 - b.1 in if x =? 0 then a.2 - b.2 else x.
Definition confighash (a : Z * Z) : Z := (a.1 * 37 + a.2) mod UINT.

Fixpoint statecmp (a b : list (Z * Z)) : Z :=
  match a, b with
  | x :: a', y :: b' =>
      let rc := Configcmp x y in
      if rc =? 0 then statecmp a' b' else rc
  | [], [] => 0
  | _ :: _, [] => 1
  | [], _ :: _ => -1
  end.
Definition statehash (a : list (Z * Z)) : Z := foldl (λ h c, (h * 571 + c.1 * 37 + c.2) mod UINT) 0 a.

Lemma Configcmp_eq a b : Configcmp a b = 0 ↔ a = b.
Proof.
  unfold Configcmp. destruct a as [r1 d1], b as [r2 d2]. cbn.
  destruct (Z.eqb_spec (r1 - r2) 0); split; intros H; try (injection H as ?); try lia; f_equal; lia.
Qed.

Lemma statecmp_eq a b : statecmp a b = 0 ↔ a = b.
Proof.
  revert b. induction a as [|x a IH]; intros [|y b]; cbn; try (split; [lia|done]); [done|].
  destruct (Z.eqb_spec (Configcmp x y) 0) as [E|E].
  - rewrite IH. apply Configcmp_eq in E as ->. split; [by intros ->|by intros [= ->]].
  - split; [done|]. intros [= -> ->]. by destruct E; apply Configcmp_eq.
Qed.

Section Instances.
Context {St Cf : Type} (calloc_ok : Z → bool).
(** the data of a state entry is the state, its key the basis; the data of a
    configuration entry is the configuration itself *)
Context (config_key : Cf → Z * Z).

Definition State_init : option (xtable (St * list (Z * Z))) := x_init calloc_ok 128.
Definition State_insert := x_insert (E:=St * list (Z * Z)) snd statehash statecmp calloc_ok.
Definition State_find (x : xtable (St * list (Z * Z))) (key : list (Z * Z)) : res (option St) :=
  match x_find (snd : St * list (Z * Z) → list (Z * Z)) statehash statecmp x key with
  | Ok r => Ok (option_map fst r)
  | Err e => Err e
  end.
Definition State_arrayof (x : xtable (St * list (Z * Z))) : list St := fst <$> x_arrayof x.

Definition Configtable_init : option (xtable Cf) := x_init calloc_ok 64.
Definition Configtable_insert := x_insert (E:=Cf) config_key confighash Configcmp calloc_ok.
Definition Configtable_find := x_find (E:=Cf) config_key confighash Configcmp.
Definition Configtable_clear : xtable Cf → xtable Cf := x_clear.

(** The state table is a map on bases: after a state has been inserted under
    a basis that was not in the table, looking the basis up yields it, every
    other basis yields what it did before, and states keep their insertion
    order; an insertion under a basis in use changes nothing. *)
Theorem State_insert_find x s key :
  table_ok (snd : St * list (Z * Z) → list (Z * Z)) statehash statecmp x → (∀ n, calloc_ok n = true) →
  ∃ b x', State_insert x (s, key) = Ok (b, x') ∧ table_ok (snd : St * list (Z * Z) → list (Z * Z)) statehash statecmp x' ∧
    (b = true → State_arrayof x' = State_arrayof x ++ [s] ∧ State_find x' key = Ok (Some s) ∧
       ∀ key', key' ≠ key → State_find x' key' = State_find x key') ∧
    (b = false → x' = x ∧ ∃ s', State_find x key = Ok (Some s')).
Proof.
  intros Hok Hcal. unfold State_insert.
  assert (∀ y k, table_ok (snd : St * list (Z * Z) → list (Z * Z)) statehash statecmp y → ∃ r, x_find (snd : St * list (Z * Z) → list (Z * Z)) statehash statecmp y k = Ok r ∧
    (∀ e, r = Some e ↔ e ∈ x_arrayof y ∧ e.2 = k)) as Hfind.
  { intros y k Hy. destruct (x_find_ok (snd : St * list (Z * Z) → list (Z * Z)) statehash statecmp) with (x := y) (key := k) as (r&Hr&Hi).
    - intros ? ? ->%statecmp_eq. by apply statecmp_eq.
    - intros ? ? ? ->%statecmp_eq ->%statecmp_eq. by apply statecmp_eq.
    - by intros ? ? ->%statecmp_eq.
    - done.
    - exists r. split; [done|]. intros e. rewrite Hi. by rewrite statecmp_eq. }
  destruct (x_insert_ok (snd : St * list (Z * Z) → list (Z * Z)) statehash statecmp calloc_ok) with (x := x) (e := (s, key))
    as [(e'&Hi&He&Hc)|(Hno&[(x'&Hx&Hok'&Harr)|(_&Hf)])]; [|by intros ? ? ->%statecmp_eq|done|..].
  - intros ? ? ->%statecmp_eq. by apply statecmp_eq.
  - exists false, x. split_and!; [done|done|done|]. intros _. split; [done|].
    destruct (Hfind x key Hok) as (r&Hr&Hri). unfold State_find. rewrite Hr.
    apply statecmp_eq in Hc. cbn in Hc. rewrite (proj2 (Hri e') (conj He Hc)). by eexists.
  - exists true, x'. split_and!; [done|done| |done]. intros _. split_and!.
    + unfold State_arrayof. by rewrite Harr, fmap_app.
    + destruct (Hfind x' key Hok') as (r&Hr&Hri). unfold State_find. rewrite Hr.
      rewrite (proj2 (Hri (s, key))); [done|]. split; [|done]. rewrite Harr. apply elem_of_app. right. by left.
    + intros key' Hne. destruct (Hfind x' key' Hok') as (r'&Hr'&Hri'), (Hfind x key' Hok) as (r&Hr&Hri).
      unfold State_find. rewrite Hr', Hr. do 2 f_equal. apply option_eq. intros e.
      rewrite Hri', Hri, Harr, elem_of_app, list_elem_of_singleton. split; [|by intros [? ?]; auto].
      intros [[He| ->] Hk]; [done|]. cbn in Hk. by subst key'.
  - by rewrite Hcal in Hf.
Qed.
End Instances.

Lemma State_insert_find_witness :
  ∃ b x', State_insert (St:=Z) (λ _, true) (mkTable 128 [] (replicate (Z.to_nat 128) None)) (7, [(1, 0); (2, 1)]) = Ok (b, x') ∧
    (b = true → State_find x' [(1, 0); (2, 1)] = Ok (Some 7)).
Proof.
  destruct (State_insert_find (St:=Z) (λ _, true) (mkTable 128 [] (replicate (Z.to_nat 128) None)) 7 [(1, 0); (2, 1)])
    as (b&x'&H1&_&H2&_);
    [apply (x_empty_ok _ _ _ 128 7); [lia|reflexivity]|reflexivity|].
  exists b, x'. split; [exact H1|]. intros Hb. exact (proj1 (proj2 (H2 Hb))).
Defined.
