(* ===== verification/LemonPrintf.v ===== *)
(** Formatted printing of the parser generator ([src/sql/lemon.c]): [lemon_addtext],
    [lemon_vsprintf] and the string copies, on a buffer of bytes; a write outside the
    buffer is a fault. A C string is the list of its characters before the NUL. *)
From S2P Require Import Prelude LemonTable.

Definition ISDIGIT (c : Z) : bool := (48 <=? c) && (c <=? 57).

(** ** Adding text *)

(** [while( .. ) zBuf[( *pnUsed)++] = ' '], [n] times *)
Fixpoint pad (n : nat) (zBuf : bytes) (nUsed : Z) : res (bytes * Z) :=
  match n with
  | O => Ok (zBuf, nUsed)
  | S n => zBuf ← wr8 zBuf nUsed 32; pad n zBuf (nUsed + 1)
  end.
(** the buffer and [*pnUsed] *)
Definition lemon_addtext (zBuf : bytes) (nUsed : Z) (zIn : bytes) (nIn iWidth : Z) : res (bytes * Z) :=
  let nIn := if nIn <? 0 then zlen zIn else nIn in
  let* (zBuf, nUsed) := pad (Z.to_nat (iWidth - nIn)) zBuf nUsed in
  let iWidth := Z.min iWidth nIn in
  if nIn =? 0 then Ok (zBuf, nUsed)
  else
    text ← mem_read (zIn ++ [0]) 0 nIn;
    zBuf ← mem_write zBuf nUsed text;
    let* (zBuf, nUsed) := pad (Z.to_nat (- iWidth - nIn)) zBuf (nUsed + nIn) in
    zBuf ← wr8 zBuf nUsed 0;
    Ok (zBuf, nUsed).

(** ** Conversions *)

Inductive arg := ArgInt (v : Z) | ArgStr (z : cstr).
(** an argument of another type than the one that is there *)
Definition va_int (ap : list arg) : res (Z * list arg) :=
  match ap with ArgInt v :: ap => Ok (v, ap) | _ => Err UninitRead end.
Definition va_str (ap : list arg) : res (cstr * list arg) :=
  match ap with ArgStr z :: ap => Ok (z, ap) | _ => Err UninitRead end.

(** the digits of a positive number, put into [zTemp] from its end *)
Fixpoint dec_digits (fuel : nat) (v : Z) (zTemp : bytes) : bytes :=
  match fuel with
  | O => zTemp
  | S fuel => if 0 <? v then dec_digits fuel (v / 10) (v mod 10 + 48 :: zTemp) else zTemp
  end.
Definition digits (v : Z) : bytes := dec_digits 50 v [].
(** [while( ISDIGIT(zFormat[i]) ) iWidth = iWidth*10 + zFormat[i++] - '0'] *)
Fixpoint read_width (f : bytes) (iWidth : Z) : Z * bytes :=
  match f with
  | c :: f' => if ISDIGIT c then read_width f' (iWidth * 10 + c - 48) else (iWidth, f)
  | [] => (iWidth, [])
  end.
(** the width behind a percent sign and what follows it *)
Definition field_width (f : bytes) : Z * bytes :=
  let c := hd 0 f in
  if ISDIGIT c || ((c =? 45) && ISDIGIT (hd 0 (tail f))) then
    let '(w, f) := read_width (if c =? 45 then tail f else f) 0 in
    (if c =? 45 then - w else w, f)
  else (0, f).

(** one conversion: the buffer, [nUsed], the arguments left and the format behind it *)
Definition convert (f : bytes) (ap : list arg) (str : bytes) (nUsed : Z) : res (bytes * Z * list arg * bytes) :=
  let '(iWidth, f) := field_width f in
  match f with
  | [] => Err ExitCalled
  | c :: f =>
      if c =? 100 then
        let* (v, ap) := va_int ap in
        let* (str, nUsed, v) :=
          if v <? 0 then
            let* (str, nUsed) := lemon_addtext str nUsed [45] 1 iWidth in
            if v =? INT32_MIN then Err SignedOverflow else Ok (str, nUsed, - v)
          else if v =? 0 then let* (str, nUsed) := lemon_addtext str nUsed [48] 1 iWidth in Ok (str, nUsed, v)
          else Ok (str, nUsed, v) in
        let* (str, nUsed) := lemon_addtext str nUsed (digits v) (zlen (digits v)) iWidth in
        Ok (str, nUsed, ap, f)
      else if c =? 115 then
        let* (z, ap) := va_str ap in
        let* (str, nUsed) := lemon_addtext str nUsed (cs z) (-1) iWidth in
        Ok (str, nUsed, ap, f)
      else if (c =? 46) && (hd 0 f =? 42) && (hd 0 (tail f) =? 115) then
        let* (k, ap) := va_int ap in
        let* (z, ap) := va_str ap in
        let* (str, nUsed) := lemon_addtext str nUsed (cs z) k iWidth in
        Ok (str, nUsed, ap, tail (tail f))
      else if c =? 37 then
        let* (str, nUsed) := lemon_addtext str nUsed [37] 1 0 in
        Ok (str, nUsed, ap, f)
      else Err ExitCalled
  end.
(** [seg] is the text from [j] on *)
Fixpoint format_loop (fuel : nat) (f : bytes) (seg : bytes) (ap : list arg) (str : bytes) (nUsed : Z) : res (bytes * Z) :=
  match fuel with
  | O => Err OutOfFuel
  | S fuel =>
      match f with
      | [] => lemon_addtext str nUsed seg (zlen seg) 0
      | c :: f =>
          if c =? 37 then
            let* (str, nUsed) := lemon_addtext str nUsed seg (zlen seg) 0 in
            let* (str, nUsed, ap, f) := convert f ap str nUsed in
            format_loop fuel f [] ap str nUsed
          else format_loop fuel f (seg ++ [c]) ap str nUsed
      end
  end.
(** the buffer and the result *)
Definition lemon_vsprintf (str : bytes) (zFormat : cstr) (ap : list arg) : res (bytes * Z) :=
  str ← wr8 str 0 0;
  format_loop (S (length (cs zFormat))) (cs zFormat) [] ap str 0.

(** [dest] holds a C string from [off] on *)
Definition lemon_strcpy (dest : bytes) (off : Z) (src : cstr) : res bytes := mem_write dest off (cs src ++ [0]).
Fixpoint string_length (m : bytes) : option Z :=
  match m with
  | [] => None
  | c :: m => if c =? 0 then Some 0 else (λ n, n + 1) <$> string_length m
  end.
Definition lemon_strcat (dest : bytes) (src : cstr) : res bytes :=
  n ← of_opt OutOfBounds (string_length dest); lemon_strcpy dest n src.

(** ** The buffer *)

(** the text [s] and a byte after it are in the buffer, the rest is as it was *)
Definition store (buf : bytes) (s : bytes) (z : Z) : bytes := s ++ z :: drop (S (length s)) buf.

Lemma mem_write_mid (a x b bs : bytes) : length x = length bs → mem_write (a ++ x ++ b) (zlen a) bs = Ok (a ++ bs ++ b).
Proof.
  intros Hl. apply mem_write_Ok. pose proof (zlen_nonneg a). rewrite !zlen_app. unfold zlen in *. split; [lia|]. split; [lia|].
  rewrite Nat2Z.id, take_app_length. f_equal. f_equal.
  replace (Z.to_nat (Z.of_nat (length a) + Z.of_nat (length bs))) with (length a + length bs)%nat by lia.
  rewrite drop_app_add'; [|done]. by rewrite <- Hl, drop_app_length.
Qed.
Lemma store_write buf s t z :
  (length (s ++ t) < length buf)%nat →
  ∃ z', mem_write (store buf s z) (zlen s) t = Ok (store buf (s ++ t) z') ∧ (t = [] → z' = z).
Proof.
  intros Hl. destruct t as [|c t]; [exists z; rewrite app_nil_r; split; [|done]; apply (mem_write_mid s [] _ []); done|].
  rewrite length_app in Hl. cbn [length] in Hl.
  assert (∃ z', drop (length s + S (length t)) buf = z' :: drop (S (length s + S (length t))) buf) as [z' Hz'].
  { destruct (drop (length s + S (length t)) buf) as [|z' r] eqn:E.
    - apply (f_equal length) in E. rewrite length_drop in E. cbn in E. lia.
    - exists z'. f_equal. apply (f_equal (drop 1)) in E. rewrite drop_drop in E. change (drop 1 (z' :: r)) with r in E. rewrite <- E. f_equal. lia. }
  exists z'. split; [|done]. unfold store. rewrite length_app. cbn [length]. rewrite <- Hz'.
  assert (z :: drop (S (length s)) buf = (z :: take (length t) (drop (S (length s)) buf)) ++ drop (length s + S (length t)) buf) as ->.
  { cbn. f_equal. rewrite <- (take_drop (length t) (drop (S (length s)) buf)) at 1. f_equal. rewrite drop_drop. f_equal. lia. }
  rewrite (mem_write_mid s); [by rewrite <- app_assoc|]. cbn [length]. rewrite length_take, length_drop. lia.
Qed.
Lemma store_byte buf s z c : wr8 (store buf s z) (zlen s) c = Ok (store buf s c).
Proof. apply (mem_write_mid s [z] _ [c]). done. Qed.
Lemma pad_store n buf s z :
  (length s + n < length buf)%nat →
  ∃ z', pad n (store buf s z) (zlen s) = Ok (store buf (s ++ replicate n 32) z', zlen s + Z.of_nat n) ∧ (n = O → z' = z).
Proof.
  revert s z. induction n as [|n IH]; intros s z Hl; cbn [pad].
  - exists z. rewrite app_nil_r. split; [|done]. do 2 f_equal. lia.
  - destruct (store_write buf s [32] z) as (z1&H1&_); [rewrite length_app; cbn; lia|]. unfold wr8. rewrite H1. cbn [mbind res_bind].
    destruct (IH (s ++ [32]) z1) as (z2&H2&_); [rewrite length_app; cbn; lia|].
    rewrite zlen_app in H2. change (zlen [32]) with 1 in H2. rewrite H2. exists z2. split; [|done].
    rewrite <- app_assoc. do 2 f_equal. lia.
Qed.

(** text in a field: to the right, to the left when the width is negative *)
Definition justify (t : bytes) (w : Z) : bytes :=
  replicate (Z.to_nat (w - zlen t)) 32 ++ t ++ replicate (Z.to_nat (- w - zlen t)) 32.

Lemma addtext_store buf s t rest n w :
  n = zlen t ∨ n < 0 ∧ rest = [] → t ≠ [] → (length (s ++ justify t w) < length buf)%nat → ∀ z,
  lemon_addtext (store buf s z) (zlen s) (t ++ rest) n w = Ok (store buf (s ++ justify t w) 0, zlen (s ++ justify t w)).
Proof.
  intros Hn Ht Hl z. unfold lemon_addtext.
  assert ((if n <? 0 then zlen (t ++ rest) else n) = zlen t) as ->.
  { pose proof (zlen_nonneg t). destruct Hn as [->|[Hn ->]]; [destruct (Z.ltb_spec (zlen t) 0); [lia|done]|].
    rewrite (proj2 (Z.ltb_lt _ _)) by done. by rewrite app_nil_r. }
  assert (0 < zlen t) as Ht0 by (destruct t; [done|]; unfold zlen; cbn; lia).
  unfold justify in *. rewrite !length_app, !length_replicate in Hl.
  destruct (pad_store (Z.to_nat (w - zlen t)) buf s z) as (z1&->&_); [lia|].
  rewrite (proj2 (Z.eqb_neq _ _)) by lia.
  assert (mem_read ((t ++ rest) ++ [0]) 0 (zlen t) = Ok t) as ->.
  { apply mem_read_Ok. rewrite !zlen_app. pose proof (zlen_nonneg rest). split_and!; [lia|lia|unfold zlen in *; cbn; lia|].
    unfold zlen. rewrite Nat2Z.id, <- app_assoc. change (Z.to_nat 0) with 0%nat. by rewrite drop_0, take_app_length. }
  cbn [mbind res_bind].
  destruct (store_write buf (s ++ replicate (Z.to_nat (w - zlen t)) 32) t z1) as (z2&H2&_); [rewrite !length_app, length_replicate; lia|].
  assert (zlen s + Z.of_nat (Z.to_nat (w - zlen t)) = zlen (s ++ replicate (Z.to_nat (w - zlen t)) 32)) as -> by (rewrite zlen_app, zlen_replicate; lia).
  rewrite H2. cbn [mbind res_bind].
  replace (- Z.min w (zlen t) - zlen t) with (if w <? 0 then - w - zlen t else - Z.min w (zlen t) - zlen t) by (destruct (Z.ltb_spec w 0); lia).
  assert (Z.to_nat (if w <? 0 then - w - zlen t else - Z.min w (zlen t) - zlen t) = Z.to_nat (- w - zlen t)) as -> by (destruct (Z.ltb_spec w 0); lia).
  rewrite <- zlen_app.
  destruct (pad_store (Z.to_nat (- w - zlen t)) buf ((s ++ replicate (Z.to_nat (w - zlen t)) 32) ++ t) z2) as (z3&->&_);
    [rewrite !length_app, length_replicate; lia|].
  rewrite <- (zlen_replicate _ 32), <- zlen_app. rewrite store_byte. cbn [mbind res_bind]. by rewrite <- !app_assoc.
Qed.
Lemma addtext_nil str n : lemon_addtext str n [] 0 0 = Ok (str, n).
Proof. reflexivity. Qed.
(** without a width *)
Lemma justify_0 t : justify t 0 = t.
Proof.
  unfold justify. pose proof (zlen_nonneg t). replace (Z.to_nat (0 - zlen t)) with 0%nat by lia.
  replace (Z.to_nat (- 0 - zlen t)) with 0%nat by lia. cbn. by rewrite app_nil_r.
Qed.
Lemma addtext_plain buf s t :
  (length (s ++ t) < length buf)%nat → lemon_addtext (store buf s 0) (zlen s) t (zlen t) 0 = Ok (store buf (s ++ t) 0, zlen (s ++ t)).
Proof.
  intros Hl. destruct t as [|c t]; [rewrite app_nil_r; apply addtext_nil|].
  pose proof (addtext_store buf s (c :: t) [] (zlen (c :: t)) 0) as H. rewrite justify_0, app_nil_r in H. apply H; [by left|done|done].
Qed.

(** ** Numbers *)

Lemma dec_digits_app fuel v t : dec_digits fuel v t = dec_digits fuel v [] ++ t.
Proof.
  revert v t. induction fuel as [|fuel IH]; intros v t; cbn [dec_digits]; [done|]. destruct (0 <? v); [|done].
  rewrite IH, (IH _ [_]), <- app_assoc. done.
Qed.
Lemma dec_digits_S fuel v : 0 < v → dec_digits (S fuel) v [] = dec_digits fuel (v / 10) [] ++ [v mod 10 + 48].
Proof. intros Hv. cbn [dec_digits]. rewrite (proj2 (Z.ltb_lt 0 v)) by done. apply dec_digits_app. Qed.
Lemma dec_digits_digit fuel v : Forall (λ c, ISDIGIT c = true) (dec_digits fuel v []).
Proof.
  revert v. induction fuel as [|fuel IH]; intros v; cbn [dec_digits]; [constructor|]. destruct (0 <? v); [|constructor].
  rewrite dec_digits_app. apply Forall_app. split; [apply IH|]. constructor; [|constructor]. unfold ISDIGIT.
  pose proof (Z.mod_pos_bound v 10 ltac:(lia)). lia.
Qed.
Definition dec_value (ds : bytes) (acc : Z) : Z := foldl (λ a c, a * 10 + c - 48) acc ds.
Lemma dec_digits_value fuel v : 0 ≤ v < 10 ^ Z.of_nat fuel → dec_value (dec_digits fuel v []) 0 = v.
Proof.
  revert v. induction fuel as [|fuel IH]; intros v Hv; cbn [dec_digits]; [cbn in *; lia|].
  destruct (Z.ltb_spec 0 v); [|cbn; lia]. rewrite dec_digits_app. unfold dec_value. rewrite foldl_app. fold (dec_value (dec_digits fuel (v / 10) []) 0).
  rewrite IH; [cbn; pose proof (Z.div_mod v 10); lia|]. rewrite Nat2Z.inj_succ, Z.pow_succ_r in Hv by lia.
  split; [apply Z.div_pos; lia|]. apply Z.div_lt_upper_bound; lia.
Qed.
Lemma read_width_app ds rest acc :
  Forall (λ c, ISDIGIT c = true) ds → ISDIGIT (hd 0 rest) = false → read_width (ds ++ rest) acc = (dec_value ds acc, rest).
Proof.
  intros Hds Hr. revert acc. induction Hds as [|c ds Hc Hds IH]; intros acc; cbn [app read_width].
  - destruct rest as [|c rest]; [done|]. cbn in *. by rewrite Hr.
  - by rewrite Hc, IH.
Qed.
Lemma digits_pos v : 0 < v → ∃ c ds, digits v = c :: ds ∧ ISDIGIT c = true.
Proof.
  intros Hv. pose proof (dec_digits_digit 50 v) as Hd. unfold digits in *. rewrite (dec_digits_S 49) in * by done.
  destruct (dec_digits 49 (v / 10) [] ++ _) as [|c ds] eqn:E.
  - exfalso. by apply app_eq_nil in E as [_ ?].
  - exists c, ds. split; [done|]. by inversion Hd.
Qed.

(** ** Formats *)

Inductive piece := PText (t : bytes) | PInt (w v : Z) | PStr (w : Z) (z : cstr) | PPart (k : Z) (z : cstr) | PPercent.
Definition piece_ok (p : piece) : Prop :=
  match p with
  | PText t => 37 ∉ t
  | PInt w v => in32 w ∧ in32 v ∧ (0 < v ∨ w = 0 ∧ v ≠ INT32_MIN)
  | PStr w z => in32 w ∧ (w = 0 ∨ cs z ≠ [])
  | PPart k z => 0 ≤ k ≤ zlen (cs z)
  | PPercent => True
  end.
Definition print_width (w : Z) : bytes := if w <? 0 then 45 :: digits (- w) else digits w.
Definition piece_format (p : piece) : bytes :=
  match p with
  | PText t => t
  | PInt w v => 37 :: print_width w ++ [100]
  | PStr w z => 37 :: print_width w ++ [115]
  | PPart k z => [37; 46; 42; 115]
  | PPercent => [37; 37]
  end.
Definition piece_args (p : piece) : list arg :=
  match p with PInt w v => [ArgInt v] | PStr w z => [ArgStr z] | PPart k z => [ArgInt k; ArgStr z] | _ => [] end.
(** what is printed *)
Definition render (p : piece) : bytes :=
  match p with
  | PText t => t
  | PInt w v => if v <? 0 then 45 :: digits (- v) else if v =? 0 then [48] else justify (digits v) w
  | PStr w z => justify (cs z) w
  | PPart k z => take (Z.to_nat k) (cs z)
  | PPercent => [37]
  end.

Lemma field_width_print w c f : in32 w → ISDIGIT c = false → c ≠ 45 → field_width (print_width w ++ c :: f) = (w, c :: f).
Proof.
  intros Hw Hc H45. assert (10 ^ 50 > INT32_MAX ∧ 10 ^ 50 > - INT32_MIN) as Hbig by (unfold INT32_MAX, INT32_MIN; lia).
  assert (∀ v, 0 ≤ v → v < 10 ^ 50 → read_width (digits v ++ c :: f) 0 = (v, c :: f)) as Hread.
  { intros v H0 H1. rewrite read_width_app; [|apply dec_digits_digit|done]. f_equal. apply dec_digits_value. done. }
  unfold in32 in Hw. unfold print_width. destruct (Z.ltb_spec w 0).
  - destruct (digits_pos (- w)) as (d&ds&Hd&Hdig); [lia|]. unfold field_width. cbn [hd app tail]. change (ISDIGIT 45) with false. change (45 =? 45) with true.
    assert (ISDIGIT (hd 0 (digits (- w) ++ c :: f)) = true) as -> by (by rewrite Hd). cbn [orb andb]. rewrite Hread by lia. f_equal. lia.
  - destruct (decide (w = 0)) as [->|Hne].
    + cbn. unfold field_width. cbn [hd]. rewrite Hc, (proj2 (Z.eqb_neq c 45)) by done. done.
    + destruct (digits_pos w) as (d&ds&Hd&Hdig); [lia|]. unfold field_width.
      assert (hd 0 (digits w ++ c :: f) = d) as -> by (by rewrite Hd). rewrite Hdig. cbn [orb].
      assert ((d =? 45) = false) as -> by (apply Z.eqb_neq; by intros ->). by rewrite Hread by lia.
Qed.

Lemma addtext_field buf s t n w :
  n = zlen t ∨ n < 0 → t ≠ [] ∨ w = 0 → (length (s ++ justify t w) < length buf)%nat →
  lemon_addtext (store buf s 0) (zlen s) t n w = Ok (store buf (s ++ justify t w) 0, zlen (s ++ justify t w)).
Proof.
  intros Hn Ht Hl. destruct t as [|c t].
  - destruct Ht as [?| ->]; [done|]. rewrite justify_0, app_nil_r. unfold lemon_addtext. assert ((if n <? 0 then zlen [] else n) = 0) as ->; [|done].
    destruct Hn as [->|Hn]; [done|]. by rewrite (proj2 (Z.ltb_lt _ _)).
  - pose proof (addtext_store buf s (c :: t) [] n w) as H. rewrite app_nil_r in H. apply H; [naive_solver|done|done].
Qed.
Lemma convert_piece p f ap buf s :
  piece_ok p → (∀ t, p ≠ PText t) → (length (s ++ render p) < length buf)%nat →
  convert (tail (piece_format p) ++ f) (piece_args p ++ ap) (store buf s 0) (zlen s) = Ok (store buf (s ++ render p) 0, zlen (s ++ render p), ap, f).
Proof.
  intros Hp Hnt Hl. destruct p as [t|w v|w z|k z|]; cbn [piece_ok piece_format piece_args tail app] in *; [by destruct (Hnt t)|..]; unfold convert.
  - destruct Hp as (Hw&Hv&Hvw). rewrite <- (app_assoc (print_width w)). change ([100] ++ f) with (100 :: f). rewrite field_width_print by done. cbn [app va_int]. change (100 =? 100) with true. cbn match.
    unfold render in *. destruct (Z.ltb_spec v 0) as [Hneg|Hpos].
    + destruct Hvw as [|[-> Hmin]]; [lia|]. rewrite (addtext_field buf s [45] 1 0); [|by left|by left|rewrite justify_0; rewrite length_app in *; cbn [length] in *; lia].
      rewrite (proj2 (Z.eqb_neq _ _)) by done. rewrite justify_0.
      rewrite addtext_plain; [by rewrite <- app_assoc|]. rewrite <- app_assoc. done.
    + destruct (Z.eqb_spec v 0) as [->|Hne].
      * destruct Hvw as [|[-> _]]; [lia|]. rewrite (addtext_field buf s [48] 1 0); rewrite ?justify_0; [|by left|by left|done].
        change (digits 0) with (@nil Z). by rewrite addtext_nil.
      * rewrite addtext_field; [done|by left| |done]. left. destruct (digits_pos v) as (c&ds&->&_); [lia|done].
  - destruct Hp as (Hw&Hz). rewrite <- (app_assoc (print_width w)). change ([115] ++ f) with (115 :: f). rewrite field_width_print by done. cbn [app va_str]. change (115 =? 100) with false. change (115 =? 115) with true. cbn match.
    rewrite addtext_field; [done|by right|naive_solver|done].
  - change (field_width (46 :: 42 :: 115 :: f)) with (0, 46 :: 42 :: 115 :: f). cbn match. cbn [hd tail va_int va_str].
    change (46 =? 100) with false. change (46 =? 115) with false. change ((46 =? 46) && (42 =? 42) && (115 =? 115)) with true. cbn match.
    cbn [render] in Hl. rewrite <- (take_drop (Z.to_nat k) (cs z)) at 1. set (t := take (Z.to_nat k) (cs z)) in *. cbn [render]. fold t.
    assert (k = zlen t) as Hk by (subst t; unfold zlen in *; rewrite length_take; lia).
    clearbody t. rewrite Hk. clear Hk Hp.
    destruct (decide (t = [])) as [Et|Ht].
    + rewrite Et in *. rewrite app_nil_r in *. cbn [app]. unfold lemon_addtext. change (zlen [] <? 0) with false. cbn match. reflexivity.
    + rewrite addtext_store; rewrite ?justify_0; [done|by left|done|done].
  - change (field_width (37 :: f)) with (0, 37 :: f). cbn match. change (37 =? 100) with false. change (37 =? 115) with false. change (37 =? 46) with false.
    change (37 =? 37) with true. cbn [andb]. cbn match. change 1 with (zlen [37]). by rewrite (addtext_plain buf s [37]).
Qed.

Lemma piece_cases p : (∃ t, p = PText t) ∨ (∀ t, p ≠ PText t) ∧ piece_format p = 37 :: tail (piece_format p).
Proof. destruct p; [left; by eexists|right; by split..]. Qed.
Lemma format_text t f fuel seg ap str n :
  37 ∉ t → (length t < fuel)%nat → format_loop fuel (t ++ f) seg ap str n = format_loop (fuel - length t) f (seg ++ t) ap str n.
Proof.
  revert fuel seg. induction t as [|c t IH]; intros fuel seg Ht Hf; [by rewrite app_nil_r, Nat.sub_0_r|].
  destruct fuel as [|fuel]; [lia|]. cbn [app format_loop length]. rewrite (proj2 (Z.eqb_neq c 37)) by (intros ->; apply Ht; left).
  cbn [length] in Hf. rewrite IH; [by rewrite <- app_assoc|set_solver|lia].
Qed.

(** C39: Formatted printing: for a format made of text, %d, %s, %.*s and %%, the two
    former with or without a width, and arguments that match it, [lemon_vsprintf]
    returns the length of the text that the conversions stand for and leaves this text
    and a NUL in the buffer and the rest of the buffer as it was, whenever the buffer is
    larger than the text. (A number printed with a width is positive and a string
    printed with one is not empty: elsewhere the width is applied twice or the NUL is
    missing.) *)
Theorem lemon_vsprintf_correct ps fmt buf :
  Forall piece_ok ps → cs fmt = concat (piece_format <$> ps) → (length (concat (render <$> ps)) < length buf)%nat →
  let out := concat (render <$> ps) in
  lemon_vsprintf buf fmt (concat (piece_args <$> ps)) = Ok (out ++ 0 :: drop (S (length out)) buf, zlen out).
Proof.
  intros Hps Hfmt Hl. cbv zeta. unfold lemon_vsprintf.
  assert (wr8 buf 0 0 = Ok (store buf [] 0)) as ->.
  { destruct buf as [|b buf]; [cbn in Hl; lia|]. apply (mem_write_mid [] [b] buf [0]). done. }
  cbn [mbind res_bind]. rewrite Hfmt.
  assert (∀ ps fuel seg s, Forall piece_ok ps → (length (concat (piece_format <$> ps)) < fuel)%nat →
    (length (s ++ seg ++ concat (render <$> ps)) < length buf)%nat →
    format_loop fuel (concat (piece_format <$> ps)) seg (concat (piece_args <$> ps)) (store buf s 0) (zlen s) =
    Ok (store buf (s ++ seg ++ concat (render <$> ps)) 0, zlen (s ++ seg ++ concat (render <$> ps)))) as Hloop.
  2: { rewrite (Hloop ps _ [] []); [done|done|lia|done]. }
  clear. induction ps as [|p ps IH]; intros fuel seg s Hps Hf Hl.
  - destruct fuel; [cbn in Hf; lia|]. cbn. rewrite app_nil_r in *. by apply addtext_plain.
  - apply Forall_cons in Hps as [Hp Hps]. rewrite !fmap_cons in *. cbn [concat] in *.
    destruct (piece_cases p) as [[t ->]|[Hnt H37]]; cbn [piece_format piece_args render] in *.
    + rewrite format_text by (done || (rewrite length_app in Hf; lia)). rewrite length_app in Hf. rewrite IH; [by rewrite <- (app_assoc seg)|done|lia|by rewrite <- (app_assoc seg)].
    + rewrite H37 in *. cbn [app length] in Hf. destruct fuel as [|fuel]; [lia|]. cbn [app format_loop]. change (37 =? 37) with true. cbn match.
      rewrite !length_app in *. rewrite addtext_plain by (rewrite length_app; lia).
      replace (tail (piece_format p)) with (tail (37 :: tail (piece_format p))) at 1 by done. rewrite <- H37.
      rewrite convert_piece by (done || (rewrite !length_app; lia)). rewrite IH; [cbn [app]; by rewrite <- !app_assoc|done|lia|rewrite !length_app; cbn [length]; lia].
Qed.

(** "%s%-4d: %d%%" with "id", 17 and -5 *)
Lemma lemon_vsprintf_correct_witness :
  lemon_vsprintf (replicate 20 1) ([37; 115; 37; 45; 52; 100; 58; 32; 37; 100; 37; 37] ↾ I) [ArgStr ([105; 100] ↾ I); ArgInt 17; ArgInt (-5)] =
  Ok ([105; 100; 49; 55; 32; 32; 58; 32; 45; 53; 37] ++ 0 :: replicate 8 1, 11).
Proof.
  apply (lemon_vsprintf_correct [PStr 0 ([105; 100] ↾ I); PInt (-4) 17; PText [58; 32]; PInt 0 (-5); PPercent]).
  - assert (∀ w, -10 ≤ w ≤ 20 → in32 w) as H32 by (unfold in32, INT32_MIN, INT32_MAX; lia).
    repeat apply Forall_cons_2; cbn [piece_ok].
    + split; [apply H32; lia|by left].
    + split; [apply H32; lia|]. split; [apply H32; lia|by left].
    + set_solver.
    + split; [apply H32; lia|]. split; [apply H32; lia|]. right. split; [reflexivity|discriminate].
    + exact I.
    + apply Forall_nil_2.
  - vm_compute. reflexivity.
  - vm_compute. lia.
Defined.

(** A zero printed with a width gets the width twice, and no NUL follows: "%3d" of 0 in
    a buffer of ones is "  0   " and the ones after it. *)
Theorem zero_padded_twice :
  lemon_vsprintf (replicate 9 1) ([37; 51; 100] ↾ I) [ArgInt 0] = Ok ([32; 32; 48; 32; 32; 32; 1; 1; 1], 6).
Proof. vm_compute. reflexivity. Qed.
