(* ===== verification/LemonData.v ===== *)
(** The data structures of the parser generator ([src/sql/lemon.c], "struct.h"),
    its sets ("set.c") and its sorts ("msort.c" and [Rule_sort]). A pointer to a
    symbol, rule, configuration or state is its position in the list of all
    objects of that kind; linked lists are lists of pointers. *)
From S2P Require Import Prelude LemonTable.

Notation str := (list Z).

Inductive symbol_type := TERMINAL | NONTERMINAL | MULTITERMINAL.
Inductive e_assoc := LEFT | RIGHT | NONE | UNK.
#[global] Instance symbol_type_eq : EqDecision symbol_type.
Proof. solve_decision. Defined.
#[global] Instance e_assoc_eq : EqDecision e_assoc.
Proof. solve_decision. Defined.

Record symbol := mkSymbol {
  sp_name : str;
  sp_index : Z;
  sp_type : symbol_type;
  sp_rule : list nat;            (* the rules with this left-hand side, along [nextlhs] *)
  sp_fallback : option nat;
  sp_prec : Z;
  sp_assoc : e_assoc;
  sp_firstset : option (list bool);
  sp_lambda : bool;
  sp_useCnt : Z;
  sp_destructor : option str;
  sp_destLineno : Z;
  sp_datatype : option str;
  sp_dtnum : Z;
  sp_bContent : bool;
  sp_subsym : list nat;          (* [nsubsym] is its length *)
}.

Record rule := mkRule {
  rp_lhs : nat;
  rp_lhsalias : option str;
  rp_lhsStart : bool;
  rp_ruleline : Z;
  rp_rhs : list nat;             (* [nrhs] is its length *)
  rp_rhsalias : list (option str);
  rp_line : Z;
  rp_code : option str;
  rp_codePrefix : option str;
  rp_codeSuffix : option str;
  rp_precsym : option nat;
  rp_index : Z;
  rp_iRule : Z;
  rp_noCode : bool;
  rp_codeEmitted : bool;
  rp_canReduce : bool;
  rp_doesReduce : bool;
  rp_neverReduce : bool;
}.

Inductive cfgstatus := COMPLETE | INCOMPLETE.
#[global] Instance cfgstatus_eq : EqDecision cfgstatus.
Proof. solve_decision. Defined.

(** the [next] and [bp] links are the lists of a state *)
Record config := mkConfig {
  cfp_rp : nat;
  cfp_dot : Z;
  cfp_fws : list bool;
  cfp_fplp : list nat;
  cfp_bplp : list nat;
  cfp_stp : option nat;
  cfp_status : cfgstatus;
}.

Inductive e_action :=
  | SHIFT | ACCEPT | REDUCE | ERROR | SSCONFLICT | SRCONFLICT | RRCONFLICT
  | SH_RESOLVED | RD_RESOLVED | NOT_USED | SHIFTREDUCE.
#[global] Instance e_action_eq : EqDecision e_action.
Proof. solve_decision. Defined.
Definition action_ord (a : e_action) : Z :=
  match a with
  | SHIFT => 0 | ACCEPT => 1 | REDUCE => 2 | ERROR => 3 | SSCONFLICT => 4 | SRCONFLICT => 5
  | RRCONFLICT => 6 | SH_RESOLVED => 7 | RD_RESOLVED => 8 | NOT_USED => 9 | SHIFTREDUCE => 10
  end.

(** the union [x]: a state for a shift, a rule for a reduce; [ap_addr] is the
    address, which [actioncmp] falls back to *)
Inductive action_arg := XState (stp : nat) | XRule (rp : nat) | XNull.
Record action := mkAction {
  ap_addr : Z;
  ap_sp : nat;
  ap_type : e_action;
  ap_x : action_arg;
  ap_spOpt : option nat;
}.

Record state := mkState {
  stp_bp : list nat;
  stp_cfp : list nat;
  stp_statenum : Z;
  stp_ap : list action;
  stp_nTknAct : Z;
  stp_nNtAct : Z;
  stp_iTknOfst : Z;
  stp_iNtOfst : Z;
  stp_iDfltReduce : Z;
  stp_pDfltReduce : option nat;
  stp_autoReduce : bool;
}.
Definition NO_OFFSET : Z := -2147483647.

(** The objects a run of the generator has made, and the fields of [struct lemon]
    that the passes over the grammar use (those that hold text for the generated
    file, or count its size, are left out); [nstate] is the length of [sorted]. *)
Record heap := mkHeap {
  h_syms : list symbol;
  h_rules : list rule;
  h_cfgs : list config;
  h_states : list state;
}.
Record lemon := mkLemon {
  lem_sorted : list nat;
  lem_rule : list nat;
  lem_startRule : option nat;
  lem_nxstate : Z;
  lem_nsymbol : Z;
  lem_nterminal : Z;
  lem_minShiftReduce : Z;
  lem_errAction : Z;
  lem_accAction : Z;
  lem_noAction : Z;
  lem_minReduce : Z;
  lem_maxAction : Z;
  lem_symbols : list nat;
  lem_errorcnt : Z;
  lem_errsym : option nat;
  lem_wildcard : option nat;
  lem_start : option cstr;
  lem_nconflict : Z;
}.

(** ** Sets: an array of [size] flags *)

(** [SetSize(n)] makes room for the elements [0..n] *)
Definition SetSize (n : Z) : Z := n + 1.
Definition SetNew (size : Z) : list bool := replicate (Z.to_nat size) false.

(** the boolean says that the element was added *)
Definition SetAdd (s : list bool) (e : Z) : res (bool * list bool) :=
  if (0 <=? e) && (e <? zlen s) then
    rv ← of_opt OutOfBounds (s !! Z.to_nat e);
    Ok (negb rv, <[Z.to_nat e := true]> s)
  else Err ExitCalled.

Fixpoint SetUnion (s1 s2 : list bool) : bool * list bool :=
  match s1, s2 with
  | b1 :: s1, b2 :: s2 =>
      let '(progress, s) := SetUnion s1 s2 in
      if b2 then if b1 then (progress, b1 :: s) else (true, true :: s)
      else (progress, b1 :: s)
  | _, _ => (false, s1)
  end.

Definition SetFind (s : list bool) (i : Z) : bool :=
  if 0 <=? i then default false (s !! Z.to_nat i) else false.

Lemma SetFind_true s i : SetFind s i = true ↔ 0 ≤ i ∧ s !! Z.to_nat i = Some true.
Proof.
  unfold SetFind. destruct (Z.leb_spec 0 i); [|split; [done|lia]].
  destruct (s !! Z.to_nat i) as [[]|]; cbn; naive_solver.
Qed.

Lemma SetAdd_spec s e :
  0 ≤ e < zlen s →
  ∃ s', SetAdd s e = Ok (negb (SetFind s e), s') ∧ length s' = length s ∧
    (∀ i, SetFind s' i = true ↔ SetFind s i = true ∨ i = e).
Proof.
  intros He. unfold SetAdd. rewrite (proj2 (Z.leb_le _ _)), (proj2 (Z.ltb_lt _ _)) by lia. cbn [andb].
  destruct (lookup_lt_is_Some_2 s (Z.to_nat e)) as [b Hb]; [unfold zlen in He; lia|].
  rewrite Hb. cbn [of_opt mbind res_bind]. eexists. split.
  { unfold SetFind. rewrite (proj2 (Z.leb_le _ _)) by lia. by rewrite Hb. }
  rewrite length_insert. split; [done|]. intros i. rewrite !SetFind_true.
  destruct (decide (i = e)) as [->|Hne].
  - rewrite list_lookup_insert_eq by (unfold zlen in He; lia). intuition lia.
  - split; [intros [? H]|intros [[? H]| ->]; [|done]].
    + rewrite list_lookup_insert_ne in H by lia. by left.
    + split; [done|]. by rewrite list_lookup_insert_ne by lia.
Qed.

Lemma SetUnion_spec s1 s2 :
  length s1 = length s2 →
  length (SetUnion s1 s2).2 = length s1 ∧
  (∀ i, SetFind (SetUnion s1 s2).2 i = true ↔ SetFind s1 i = true ∨ SetFind s2 i = true) ∧
  ((SetUnion s1 s2).1 = false ↔ (SetUnion s1 s2).2 = s1).
Proof.
  assert (∀ n : nat, length s1 = length s2 → length (SetUnion s1 s2).2 = length s1 ∧
    ((SetUnion s1 s2).2 !! n = Some true ↔ s1 !! n = Some true ∨ s2 !! n = Some true) ∧
    ((SetUnion s1 s2).1 = false ↔ (SetUnion s1 s2).2 = s1)) as H.
  { revert s2. induction s1 as [|b1 s1 IH]; intros [|b2 s2] n Hl; try done.
    - cbn. split_and!; [done|naive_solver|done].
    - cbn in Hl. cbn [SetUnion]. destruct (IH s2 0%nat ltac:(lia)) as (H1&_&H3).
      assert (∀ m, (SetUnion s1 s2).2 !! m = Some true ↔ s1 !! m = Some true ∨ s2 !! m = Some true) as H2
        by (intros m; destruct (IH s2 m ltac:(lia)) as (_&?&_); done).
      destruct (SetUnion s1 s2) as [p s] eqn:E. cbn in *.
      destruct b2, b1; cbn; (split; [lia|]); (split; [destruct n; cbn; [naive_solver|by rewrite H2]|]);
        split; intros; try congruence; try (f_equal; by apply H3); by apply H3; congruence. }
  intros Hl. split_and!; [apply (H 0%nat Hl)| |apply (H 0%nat Hl)].
  intros i. rewrite !SetFind_true. destruct (H (Z.to_nat i) Hl) as (_&Hi&_). rewrite Hi. tauto.
Qed.
