(* ===== verification/LemonSort.v ===== *)
(** The two merge sorts of the parser generator ([src/sql/lemon.c]): [msort],
    which sorts linked lists with a comparison function ("msort.c"), and
    [Rule_sort]. A linked list is the list of its elements. *)
From S2P Require Import Prelude LemonData.

(** ** The bins: lists of growing size, merged like a binary counter *)

Section Bins.
Context {A : Type} (mrg : list A → list A → list A).

(** carrying a list into the bins; the last bin is overwritten *)
Fixpoint bins_add (ep : list A) (bins : list (list A)) : list (list A) :=
  match bins with
  | [] => []
  | [_] => [ep]
  | [] :: bins => ep :: bins
  | s :: bins => [] :: bins_add (mrg ep s) bins
  end.
Definition bins_fill (l : list A) (bins : list (list A)) : list (list A) :=
  foldl (λ bins x, bins_add [x] bins) bins l.

Hypothesis mrg_perm : ∀ a b, mrg a b ≡ₚ a ++ b.

(** bin [i] is empty or holds [2^(k+i)] elements; the last holds any number *)
Fixpoint bins_ok (k : nat) (bins : list (list A)) : Prop :=
  match bins with
  | [] => True
  | [s] => s = [] ∨ length s = (2 ^ k)%nat
  | s :: bins => (s = [] ∨ length s = (2 ^ k)%nat) ∧ bins_ok (S k) bins
  end.

Lemma bins_ok_cons k s bins : bins_ok k (s :: bins) ↔ (s = [] ∨ length s = (2 ^ k)%nat) ∧ bins_ok (S k) bins.
Proof. destruct bins; cbn; tauto. Qed.

(** nothing is lost while the total stays below the capacity of the bins *)
Lemma bins_add_ok k ep bins :
  bins ≠ [] → bins_ok k bins → length ep = (2 ^ k)%nat →
  (length ep + length (concat bins) < 2 ^ (k + length bins))%nat →
  bins_ok k (bins_add ep bins) ∧ concat (bins_add ep bins) ≡ₚ ep ++ concat bins ∧
  length (bins_add ep bins) = length bins.
Proof.
  revert k ep. induction bins as [|s bins IH]; intros k ep Hne Hok Hl Hc; [done|].
  destruct bins as [|s' bins].
  - cbn in *. destruct Hok as [->|Hs].
    + cbn. rewrite !app_nil_r. split_and!; [by right|done|done].
    + exfalso. rewrite app_nil_r in Hc. replace (k + 1)%nat with (S k) in Hc by lia. cbn in Hc. lia.
  - apply bins_ok_cons in Hok as [Hs Hok]. destruct s as [|x s].
    + cbn [bins_add concat app]. split_and!; [|done|done]. apply bins_ok_cons. split; [by right|done].
    + destruct Hs as [Hs|Hs]; [done|].
      change (bins_add ep ((x :: s) :: s' :: bins)) with ([] :: bins_add (mrg ep (x :: s)) (s' :: bins)).
      assert (length (mrg ep (x :: s)) = (2 ^ S k)%nat) as Hm.
      { rewrite mrg_perm, length_app, Hl, Hs. cbn. lia. }
      destruct (IH (S k) (mrg ep (x :: s))) as (Ho&Hp&Hlen); [done|done|done| |].
      { rewrite Hm, (Nat.pow_succ_r' 2 k). change (concat ((x :: s) :: s' :: bins)) with ((x :: s) ++ concat (s' :: bins)) in Hc.
        rewrite length_app, Hs, Hl in Hc.
        replace (k + length ((x :: s) :: s' :: bins))%nat with (S k + length (s' :: bins))%nat in Hc by (cbn [length]; lia).
        lia. }
      split_and!.
      * apply bins_ok_cons. split; [by left|done].
      * change (concat ([] :: bins_add (mrg ep (x :: s)) (s' :: bins))) with (concat (bins_add (mrg ep (x :: s)) (s' :: bins))).
        rewrite Hp, mrg_perm. by rewrite <- app_assoc.
      * cbn [length] in *. lia.
Qed.

Lemma bins_fill_ok l bins :
  bins ≠ [] → bins_ok 0 bins → (length l + length (concat bins) < 2 ^ length bins)%nat →
  bins_ok 0 (bins_fill l bins) ∧ concat (bins_fill l bins) ≡ₚ l ++ concat bins ∧
  length (bins_fill l bins) = length bins.
Proof.
  unfold bins_fill. revert bins. induction l as [|x l IH]; intros bins Hne Hok Hc; [done|].
  cbn [foldl]. cbn [length] in Hc.
  destruct (bins_add_ok 0 [x] bins Hne Hok eq_refl) as (Ho&Hp&Hl); [cbn; lia|].
  destruct (IH (bins_add [x] bins)) as (Ho'&Hp'&Hl').
  - intros E. rewrite E in Hl. by destruct bins.
  - done.
  - rewrite Hl, Hp. cbn. lia.
  - split_and!; [done| |congruence]. rewrite Hp', Hp. symmetry. apply Permutation_middle.
Qed.

(** bins of sorted lists stay sorted *)
Context (R : relation A).
Hypothesis mrg_sorted : ∀ a b, StronglySorted R a → StronglySorted R b → StronglySorted R (mrg a b).

Lemma bins_add_sorted ep bins :
  StronglySorted R ep → Forall (StronglySorted R) bins → Forall (StronglySorted R) (bins_add ep bins).
Proof.
  revert ep. induction bins as [|s bins IH]; intros ep He Hb; [done|].
  apply Forall_cons in Hb as [Hs Hb]. destruct bins as [|s' bins]; [by destruct s; apply Forall_singleton|].
  destruct s as [|x s]; [by apply Forall_cons|].
  change (bins_add ep ((x :: s) :: s' :: bins)) with ([] :: bins_add (mrg ep (x :: s)) (s' :: bins)).
  constructor; [constructor|].
  apply IH; [by apply mrg_sorted|done].
Qed.

Lemma bins_fill_sorted l bins :
  Forall (StronglySorted R) bins → Forall (StronglySorted R) (bins_fill l bins).
Proof.
  unfold bins_fill. revert bins. induction l as [|x l IH]; intros bins Hb; [done|]. cbn. apply IH.
  apply bins_add_sorted; [repeat constructor|done].
Qed.
End Bins.

Lemma concat_replicate_nil {A} n : concat (replicate n (@nil A)) = [].
Proof. induction n; [done|]. cbn. done. Qed.

Lemma bins_ok_nil {A} k n : bins_ok k (replicate n (@nil A)).
Proof.
  revert k. induction n as [|n IH]; intros k; [done|]. cbn [replicate].
  apply bins_ok_cons. split; [by left|apply IH].
Qed.

(** ** [msort] *)

Section Msort.
Context {A : Type} (cmp : A → A → Z).

(** the [while( a && b )] loop of [merge], on the lists *)
Fixpoint merge (a : list A) : list A → list A :=
  match a with
  | [] => λ b, b
  | x :: a' =>
      fix merge_b (b : list A) : list A :=
        match b with
        | [] => x :: a'
        | y :: b' => if cmp x y <=? 0 then x :: merge a' b else y :: merge_b b'
        end
  end.

Definition LISTSIZE : nat := 30.
(** the last loop: [if( set[i] ) ep = merge(set[i],ep,cmp,offset)] *)
Definition collect (sets : list (list A)) : list A :=
  foldl (λ ep s, match s with [] => ep | _ => merge s ep end) [] sets.
Definition msort (l : list A) : list A := collect (bins_fill merge l (replicate LISTSIZE [])).

Lemma merge_perm a b : merge a b ≡ₚ a ++ b.
Proof.
  revert b. induction a as [|x a IH]; intros b; [done|]. induction b as [|y b IHb]; [by rewrite app_nil_r|].
  cbn [merge]. destruct (cmp x y <=? 0).
  - rewrite IH. done.
  - fold merge in *. change ((fix merge_b (b0 : list A) : list A := match b0 with [] => x :: a | y0 :: b' =>
      if cmp x y0 <=? 0 then x :: merge a b0 else y0 :: merge_b b' end) b) with (merge (x :: a) b).
    rewrite IHb. apply (Permutation_middle (x :: a) b y).
Qed.

Definition cle (x y : A) : Prop := cmp x y ≤ 0.
Hypothesis cle_total : ∀ x y, cle x y ∨ cle y x.
Hypothesis cle_trans : ∀ x y z, cle x y → cle y z → cle x z.

Lemma merge_sorted a b : StronglySorted cle a → StronglySorted cle b → StronglySorted cle (merge a b).
Proof.
  intros Ha. revert b. induction Ha as [|x a Ha IH Hx]; intros b Hb; [done|].
  induction Hb as [|y b Hb IHb Hy]; [by constructor|].
  cbn [merge]. destruct (Z.leb_spec (cmp x y) 0) as [Hle|Hgt].
  - constructor; [apply IH; by constructor|]. rewrite merge_perm. apply Forall_app. split; [done|].
    constructor; [done|]. eapply Forall_impl; [exact Hy|]. intros z ?. by eapply cle_trans.
  - change ((fix merge_b (b0 : list A) : list A := match b0 with [] => x :: a | y0 :: b' =>
      if cmp x y0 <=? 0 then x :: merge a b0 else y0 :: merge_b b' end) b) with (merge (x :: a) b).
    constructor; [done|]. rewrite merge_perm. cbn.
    assert (cle y x) as Hyx by (destruct (cle_total x y) as [H|H]; [unfold cle in H; lia|done]).
    constructor; [done|]. apply Forall_app. split; [|done].
    eapply Forall_impl; [exact Hx|]. intros z ?. by eapply cle_trans.
Qed.

Lemma collect_perm sets : ∀ acc, foldl (λ ep s, match s with [] => ep | _ => merge s ep end) acc sets ≡ₚ acc ++ concat sets.
Proof.
  induction sets as [|s sets IH]; intros acc; [by rewrite app_nil_r|]. cbn [foldl concat].
  rewrite IH. destruct s as [|x s]; [done|]. rewrite merge_perm. rewrite app_assoc. f_equiv. by rewrite Permutation_app_comm.
Qed.

Lemma collect_sorted sets : Forall (StronglySorted cle) sets → ∀ acc, StronglySorted cle acc →
  StronglySorted cle (foldl (λ ep s, match s with [] => ep | _ => merge s ep end) acc sets).
Proof.
  induction 1 as [|s sets Hs Hss IH]; intros acc Hacc; [done|]. cbn [foldl]. apply IH.
  destruct s; [done|]. by apply merge_sorted.
Qed.

Lemma msort_ok l :
  (length l < 2 ^ LISTSIZE)%nat → StronglySorted cle (msort l) ∧ msort l ≡ₚ l.
Proof.
  intros Hl. unfold msort, collect. split.
  - apply collect_sorted; [|constructor]. apply bins_fill_sorted; [apply merge_sorted|].
    apply Forall_replicate. constructor.
  - rewrite collect_perm. cbn [app].
    destruct (bins_fill_ok merge merge_perm l (replicate LISTSIZE [])) as (_&Hp&_).
    + done.
    + apply bins_ok_nil.
    + rewrite concat_replicate_nil, length_replicate. rewrite Nat.add_0_r. exact Hl.
    + rewrite Hp, concat_replicate_nil. by rewrite app_nil_r.
Qed.

(** [msort] sorts: for any total, transitive comparison and any list of fewer
    than 2^30 elements (the capacity of its 30 bins, beyond which the last bin is
    overwritten) the result is ordered and holds exactly the same elements. *)
Theorem msort_correct l :
  (length l < 2 ^ LISTSIZE)%nat → StronglySorted cle (msort l) ∧ msort l ≡ₚ l.
Proof. by apply msort_ok. Qed.
End Msort.

(** a list of numbers, sorted by their difference *)
Lemma msort_correct_witness :
  StronglySorted (cle Z.sub) (msort Z.sub [3; 1; 2]) ∧ msort Z.sub [3; 1; 2] ≡ₚ [3; 1; 2].
Proof.
  apply (msort_correct Z.sub); [unfold cle; intros; lia|unfold cle; intros; lia|].
  cbn [length]. apply (Nat.lt_le_trans 3 (2 ^ 2)); [cbn; lia|]. apply Nat.pow_le_mono_r; [lia|].
  unfold LISTSIZE. lia.
Defined.

(** ** [Rule_sort] *)

Section RuleSort.
Context (iRule : nat → Z).

(** on a tie the second list goes first *)
Fixpoint Rule_merge (pA : list nat) : list nat → list nat :=
  match pA with
  | [] => λ pB, pB
  | a :: pA' =>
      fix merge_b (pB : list nat) : list nat :=
        match pB with
        | [] => a :: pA'
        | b :: pB' => if iRule a <? iRule b then a :: Rule_merge pA' pB else b :: merge_b pB'
        end
  end.

(** 32 bins, filled with [Rule_merge(x[i], rp)], then merged in order *)
Definition Rule_sort (rp : list nat) : list nat :=
  foldl (λ rp x, Rule_merge x rp) [] (bins_fill (λ rp x, Rule_merge x rp) rp (replicate 32 [])).

Definition rle (a b : nat) : Prop := iRule a ≤ iRule b.

Lemma Rule_merge_perm a b : Rule_merge a b ≡ₚ a ++ b.
Proof.
  revert b. induction a as [|x a IH]; intros b; [done|]. induction b as [|y b IHb]; [by rewrite app_nil_r|].
  cbn [Rule_merge]. destruct (iRule x <? iRule y).
  - rewrite IH. done.
  - change ((fix merge_b (pB : list nat) : list nat := match pB with [] => x :: a | b0 :: pB' =>
      if iRule x <? iRule b0 then x :: Rule_merge a pB else b0 :: merge_b pB' end) b) with (Rule_merge (x :: a) b).
    rewrite IHb. apply (Permutation_middle (x :: a) b y).
Qed.

Lemma Rule_merge_sorted a b : StronglySorted rle a → StronglySorted rle b → StronglySorted rle (Rule_merge a b).
Proof.
  intros Ha. revert b. induction Ha as [|x a Ha IH Hx]; intros b Hb; [done|].
  induction Hb as [|y b Hb IHb Hy]; [by constructor|].
  cbn [Rule_merge]. destruct (Z.ltb_spec (iRule x) (iRule y)) as [Hle|Hgt].
  - constructor; [apply IH; by constructor|]. rewrite Rule_merge_perm. apply Forall_app. split; [done|].
    constructor; [unfold rle; lia|]. eapply Forall_impl; [exact Hy|]. unfold rle. intros; lia.
  - change ((fix merge_b (pB : list nat) : list nat := match pB with [] => x :: a | b0 :: pB' =>
      if iRule x <? iRule b0 then x :: Rule_merge a pB else b0 :: merge_b pB' end) b) with (Rule_merge (x :: a) b).
    constructor; [done|]. rewrite Rule_merge_perm. constructor; [done|]. apply Forall_app. split; [|done].
    eapply Forall_impl; [exact Hx|]. unfold rle. intros; lia.
Qed.

Lemma Rule_collect bins : ∀ acc, Forall (StronglySorted rle) bins → StronglySorted rle acc →
  StronglySorted rle (foldl (λ rp x, Rule_merge x rp) acc bins) ∧
  foldl (λ rp x, Rule_merge x rp) acc bins ≡ₚ acc ++ concat bins.
Proof.
  induction bins as [|s bins IH]; intros acc Hb Ha; [by rewrite app_nil_r|].
  apply Forall_cons in Hb as [Hs Hb]. cbn [foldl concat].
  destruct (IH (Rule_merge s acc)) as [? Hp]; [done|by apply Rule_merge_sorted|]. split; [done|].
  rewrite Hp, Rule_merge_perm, app_assoc. f_equiv. by rewrite Permutation_app_comm.
Qed.

Lemma Rule_sort_ok rp :
  (length rp < 2 ^ 32)%nat → StronglySorted rle (Rule_sort rp) ∧ Rule_sort rp ≡ₚ rp.
Proof.
  intros Hl. unfold Rule_sort.
  assert (∀ a b, (λ rp x, Rule_merge x rp) a b ≡ₚ a ++ b) as Hperm
    by (intros a b; rewrite Rule_merge_perm; apply Permutation_app_comm).
  destruct (bins_fill_ok _ Hperm rp (replicate 32 [])) as (_&Hp&_); [done|apply bins_ok_nil| |].
  { rewrite concat_replicate_nil, length_replicate, Nat.add_0_r. exact Hl. }
  destruct (Rule_collect (bins_fill (λ rp x, Rule_merge x rp) rp (replicate 32 [])) []) as [Hs Hc].
  - apply bins_fill_sorted; [intros; by apply Rule_merge_sorted|]. apply Forall_replicate. constructor.
  - constructor.
  - split; [done|]. rewrite Hc. cbn [app]. rewrite Hp, concat_replicate_nil. by rewrite app_nil_r.
Qed.

(** [Rule_sort] orders the rule list by [iRule] and keeps exactly its rules,
    for any list of fewer than 2^32 rules. *)
Theorem Rule_sort_correct rp :
  (length rp < 2 ^ 32)%nat → StronglySorted rle (Rule_sort rp) ∧ Rule_sort rp ≡ₚ rp.
Proof. apply Rule_sort_ok. Qed.
End RuleSort.

Lemma Rule_sort_correct_witness :
  StronglySorted (rle (λ i, 10 - Z.of_nat i)) (Rule_sort (λ i, 10 - Z.of_nat i) [1; 2; 3]%nat) ∧
  Rule_sort (λ i, 10 - Z.of_nat i) [1; 2; 3]%nat ≡ₚ [1; 2; 3]%nat.
Proof.
  apply (Rule_sort_correct (λ i, 10 - Z.of_nat i) [1; 2; 3]%nat).
  cbn [length]. apply (Nat.lt_le_trans 3 (2 ^ 2)); [cbn; lia|]. apply Nat.pow_le_mono_r; lia.
Defined.

(** ** [qsort] of the C library, for comparisons that tell distinct elements apart:
    its result is the only ordered arrangement *)

Section Qsort.
Context {A : Type} (cmp : A → A → Z).

Fixpoint qs_insert (x : A) (l : list A) : list A :=
  match l with
  | [] => [x]
  | y :: k => if cmp x y <? 0 then x :: l else y :: qs_insert x k
  end.
Definition qsort (l : list A) : list A := foldr qs_insert [] l.

Lemma qs_insert_perm x l : qs_insert x l ≡ₚ x :: l.
Proof.
  induction l as [|y l IH]; [done|]. cbn [qs_insert]. destruct (cmp x y <? 0); [done|].
  rewrite IH. apply Permutation_swap.
Qed.
Lemma qsort_perm l : qsort l ≡ₚ l.
Proof. induction l as [|x l IH]; [done|]. cbn [qsort foldr]. rewrite qs_insert_perm. by f_equiv. Qed.

(** the comparison orders the elements of one list *)
Lemma qsort_sorted l :
  (∀ x y, x ∈ l → y ∈ l → 0 ≤ cmp x y → cmp y x ≤ 0) →
  (∀ x y z, x ∈ l → y ∈ l → z ∈ l → cmp x y ≤ 0 → cmp y z ≤ 0 → cmp x z ≤ 0) →
  StronglySorted (cle cmp) (qsort l).
Proof.
  intros Htot Htr. induction l as [|x l IH]; [constructor|]. cbn [qsort foldr].
  assert (StronglySorted (cle cmp) (qsort l)) as Hs by (apply IH; intros; [apply Htot|eapply Htr]; eauto; set_solver).
  assert (∀ y, y ∈ qsort l → y ∈ l) as Hin by (intros y; by rewrite qsort_perm).
  fold (qsort l). clear IH. revert Hs Hin. generalize (qsort l). intros k Hs Hin.
  induction Hs as [|y k Hs IH Hy]; cbn [qs_insert]; [repeat constructor|].
  destruct (Z.ltb_spec (cmp x y) 0) as [Hlt|Hge].
  - constructor; [by constructor|]. constructor; [unfold cle; lia|].
    apply Forall_forall. intros z Hz. eapply Forall_forall in Hy; [|done].
    eapply (Htr x y z); [set_solver..|lia|done].
  - constructor; [apply IH; set_solver|]. apply Forall_forall. intros z Hz. rewrite qs_insert_perm in Hz.
    apply elem_of_cons in Hz as [->|Hz]; [apply Htot; [set_solver..|done]|].
    by eapply Forall_forall in Hy.
Qed.
End Qsort.
