(* ===== verification/LemonFirst.v ===== *)
(** The first passes over a grammar ([src/sql/lemon.c], "build.c"): the precedence
    symbol of every rule ([FindRulePrecedences]), and the nullable symbols and
    FIRST sets ([FindFirstSets]). *)
From S2P Require Import Prelude LemonData.

Definition symbol0 : symbol :=
  mkSymbol [] 0 TERMINAL [] None (-1) UNK None false 0 None 0 None 0 false [].
Definition sym (ss : list symbol) (i : nat) : symbol := default symbol0 (ss !! i).

Definition upd_lambda (b : bool) (s : symbol) : symbol :=
  mkSymbol (sp_name s) (sp_index s) (sp_type s) (sp_rule s) (sp_fallback s) (sp_prec s) (sp_assoc s)
    (sp_firstset s) b (sp_useCnt s) (sp_destructor s) (sp_destLineno s) (sp_datatype s) (sp_dtnum s)
    (sp_bContent s) (sp_subsym s).
Definition upd_firstset (f : option (list bool)) (s : symbol) : symbol :=
  mkSymbol (sp_name s) (sp_index s) (sp_type s) (sp_rule s) (sp_fallback s) (sp_prec s) (sp_assoc s)
    f (sp_lambda s) (sp_useCnt s) (sp_destructor s) (sp_destLineno s) (sp_datatype s) (sp_dtnum s)
    (sp_bContent s) (sp_subsym s).
Definition upd_precsym (p : option nat) (r : rule) : rule :=
  mkRule (rp_lhs r) (rp_lhsalias r) (rp_lhsStart r) (rp_ruleline r) (rp_rhs r) (rp_rhsalias r) (rp_line r)
    (rp_code r) (rp_codePrefix r) (rp_codeSuffix r) p (rp_index r) (rp_iRule r) (rp_noCode r)
    (rp_codeEmitted r) (rp_canReduce r) (rp_doesReduce r) (rp_neverReduce r).

(** ** [FindRulePrecedences] *)

(** the constituent of a token class that has a precedence *)
Fixpoint sub_prec (ss : list symbol) (subs : list nat) : option nat :=
  match subs with
  | [] => None
  | j :: subs => if 0 <=? sp_prec (sym ss j) then Some j else sub_prec ss subs
  end.
Fixpoint rhs_prec (ss : list symbol) (rhs : list nat) : option nat :=
  match rhs with
  | [] => None
  | i :: rhs =>
      let sp := sym ss i in
      let p := if decide (sp_type sp = MULTITERMINAL) then sub_prec ss (sp_subsym sp)
               else if 0 <=? sp_prec sp then Some i else None in
      match p with Some _ => p | None => rhs_prec ss rhs end
  end.
Definition FindRulePrecedences (ss : list symbol) (rules : list rule) : list rule :=
  (λ r, match rp_precsym r with Some _ => r | None => upd_precsym (rhs_prec ss (rp_rhs r)) r end) <$> rules.

(** ** [FindFirstSets] *)

(** one rule of the pass for the nullable symbols: the loop over its right-hand side reaches
    the end, with an assertion for each symbol *)
Fixpoint all_lambda (rhs : list nat) (ss : list symbol) : res bool :=
  match rhs with
  | [] => Ok true
  | i :: rhs =>
      let sp := sym ss i in
      if bool_decide (sp_type sp = NONTERMINAL) || negb (sp_lambda sp)
      then if sp_lambda sp then all_lambda rhs ss else Ok false
      else Err ExitCalled
  end.
Definition lambda_rule (r : rule) (ss : list symbol) : res (bool * list symbol) :=
  if sp_lambda (sym ss (rp_lhs r)) then Ok (false, ss)
  else
    all ← all_lambda (rp_rhs r) ss;
    Ok (if (all : bool) then (true, alter (upd_lambda true) (rp_lhs r) ss) else (false, ss)).
Fixpoint lambda_pass (rules : list rule) (ss : list symbol) : res (bool * list symbol) :=
  match rules with
  | [] => Ok (false, ss)
  | r :: rules =>
      let* (p, ss) := lambda_rule r ss in
      let* (p', ss) := lambda_pass rules ss in Ok (p || p', ss)
  end.
Fixpoint lambda_loop (fuel : nat) (rules : list rule) (ss : list symbol) : res (list symbol) :=
  match fuel with
  | O => Err OutOfFuel
  | S fuel =>
      let* (progress, ss) := lambda_pass rules ss in
      if (progress : bool) then lambda_loop fuel rules ss else Ok ss
  end.

Definition firstset (ss : list symbol) (i : nat) : res (list bool) :=
  of_opt NullDeref (sp_firstset (sym ss i)).
Definition add_first (s1 : nat) (e : Z) (ss : list symbol) : res (Z * list symbol) :=
  f ← firstset ss s1;
  let* (added, f) := SetAdd f e in
  Ok (if added then 1 else 0, alter (upd_firstset (Some f)) s1 ss).
Fixpoint add_firsts (s1 : nat) (es : list Z) (ss : list symbol) : res (Z * list symbol) :=
  match es with
  | [] => Ok (0, ss)
  | e :: es =>
      let* (p, ss) := add_first s1 e ss in
      let* (p', ss) := add_firsts s1 es ss in Ok (p + p', ss)
  end.
Definition union_first (s1 s2 : nat) (ss : list symbol) : res (Z * list symbol) :=
  f1 ← firstset ss s1;
  f2 ← firstset ss s2;
  let '(progress, f) := SetUnion f1 f2 in
  Ok (if (progress : bool) then 1 else 0, alter (upd_firstset (Some f)) s1 ss).

(** the loop over a right-hand side *)
Fixpoint first_rhs (s1 : nat) (rhs : list nat) (ss : list symbol) : res (Z * list symbol) :=
  match rhs with
  | [] => Ok (0, ss)
  | s2 :: rhs =>
      match sp_type (sym ss s2) with
      | TERMINAL => add_first s1 (sp_index (sym ss s2)) ss
      | MULTITERMINAL => add_firsts s1 ((λ j, sp_index (sym ss j)) <$> sp_subsym (sym ss s2)) ss
      | NONTERMINAL =>
          if decide (s1 = s2) then
            if sp_lambda (sym ss s1) then first_rhs s1 rhs ss else Ok (0, ss)
          else
            let* (p, ss) := union_first s1 s2 ss in
            if sp_lambda (sym ss s2)
            then let* (p', ss) := first_rhs s1 rhs ss in Ok (p + p', ss)
            else Ok (p, ss)
      end
  end.
Fixpoint first_pass (rules : list rule) (ss : list symbol) : res (Z * list symbol) :=
  match rules with
  | [] => Ok (0, ss)
  | r :: rules =>
      let* (p, ss) := first_rhs (rp_lhs r) (rp_rhs r) ss in
      let* (p', ss) := first_pass rules ss in Ok (p + p', ss)
  end.
Fixpoint first_loop (fuel : nat) (rules : list rule) (ss : list symbol) : res (list symbol) :=
  match fuel with
  | O => Err OutOfFuel
  | S fuel =>
      let* (progress, ss) := first_pass rules ss in
      if progress =? 0 then Ok ss else first_loop fuel rules ss
  end.

(** [symbols] is the sorted array, terminals first *)
Definition FindFirstSets (symbols : list nat) (nterminal nsymbol setsize : Z) (rules : list rule)
    (ss : list symbol) : res (list symbol) :=
  let ss := foldl (λ ss i, alter (upd_lambda false) i ss) ss (take (Z.to_nat nsymbol) symbols) in
  let nts := drop (Z.to_nat nterminal) (take (Z.to_nat nsymbol) symbols) in
  let ss := foldl (λ ss i, alter (upd_firstset (Some (SetNew setsize))) i ss) ss nts in
  ss ← lambda_loop (S (length ss)) rules ss;
  first_loop (S (length ss * Z.to_nat setsize)) rules ss.

(** ** What the sets mean *)

Section Spec.
Context (ss0 : list symbol) (rules : list rule).

(** the symbol derives the empty string *)
Inductive nullable : nat → Prop :=
  | nullable_rule r : r ∈ rules → nullable_all (rp_rhs r) → nullable (rp_lhs r)
with nullable_all : list nat → Prop :=
  | nullable_nil : nullable_all []
  | nullable_cons i rhs : nullable i → nullable_all rhs → nullable_all (i :: rhs).

(** a string that begins with terminal [t] can be derived from the symbol *)
Inductive first_of : nat → Z → Prop :=
  | first_rule r pre i post t :
      r ∈ rules → rp_rhs r = pre ++ i :: post → nullable_all pre → starts i t → first_of (rp_lhs r) t
with starts : nat → Z → Prop :=
  | starts_terminal i : sp_type (sym ss0 i) = TERMINAL → starts i (sp_index (sym ss0 i))
  | starts_multi i j : sp_type (sym ss0 i) = MULTITERMINAL → j ∈ sp_subsym (sym ss0 i) →
      starts i (sp_index (sym ss0 j))
  | starts_nonterminal i t : sp_type (sym ss0 i) = NONTERMINAL → first_of i t → starts i t.

Scheme nullable_ind2 := Induction for nullable Sort Prop
  with nullable_all_ind2 := Induction for nullable_all Sort Prop.
Scheme first_ind2 := Induction for first_of Sort Prop
  with starts_ind2 := Induction for starts Sort Prop.
End Spec.

(** ** Frames *)

(** what the passes leave alone *)
Definition same_sym (s s' : symbol) : Prop :=
  sp_type s' = sp_type s ∧ sp_index s' = sp_index s ∧ sp_subsym s' = sp_subsym s.
Definition frame (ss ss' : list symbol) : Prop :=
  length ss' = length ss ∧ ∀ i, same_sym (sym ss i) (sym ss' i).

Lemma frame_type a b i : frame a b → sp_type (sym b i) = sp_type (sym a i).
Proof. intros [_ H]. apply (H i). Qed.
Lemma frame_refl ss : frame ss ss.
Proof. done. Qed.
Lemma frame_trans a b c : frame a b → frame b c → frame a c.
Proof.
  intros [L1 F1] [L2 F2]. split; [congruence|]. intros i.
  destruct (F1 i) as (?&?&?), (F2 i) as (?&?&?). split_and!; congruence.
Qed.
#[global] Instance frame_preorder : PreOrder frame.
Proof. split; [exact frame_refl|exact frame_trans]. Qed.

Lemma sym_alter f i j ss :
  sym (alter f i ss) j = if decide (i = j ∧ (i < length ss)%nat) then f (sym ss j) else sym ss j.
Proof.
  unfold sym. case_decide as H.
  - destruct H as [<- Hl]. rewrite list_lookup_alter_eq.
    destruct (lookup_lt_is_Some_2 ss i Hl) as [s ->]. done.
  - destruct (decide (i = j)) as [->|Hne]; [|by rewrite list_lookup_alter_ne].
    rewrite list_lookup_alter_eq. destruct (ss !! j) eqn:E; [|done].
    apply lookup_lt_Some in E. naive_solver.
Qed.

Lemma frame_alter f i ss : (∀ s, same_sym s (f s)) → frame ss (alter f i ss).
Proof.
  intros Hf. split; [apply length_alter|]. intros j. rewrite sym_alter. case_decide; [apply Hf|done].
Qed.

(** ** Nullable symbols *)

Definition lam (ss : list symbol) (i : nat) : Prop := sp_lambda (sym ss i) = true.

(** how many symbols are not known to be nullable *)
Definition nlam (ss : list symbol) : nat := length (filter (λ s, sp_lambda s = false) ss).

Lemma nlam_alter i ss :
  (i < length ss)%nat → ¬ lam ss i → S (nlam (alter (upd_lambda true) i ss)) = nlam ss.
Proof.
  unfold nlam, lam. revert i. induction ss as [|s ss IH]; intros i Hi Hl; [cbn in Hi; lia|].
  destruct i as [|i].
  - change (alter (upd_lambda true) 0%nat (s :: ss)) with (upd_lambda true s :: ss).
    change (sym (s :: ss) 0) with s in Hl. rewrite !filter_cons.
    rewrite (decide_False (P := sp_lambda (upd_lambda true s) = false)) by done.
    rewrite (decide_True (P := sp_lambda s = false)) by (by destruct (sp_lambda s)). done.
  - change (alter (upd_lambda true) (S i) (s :: ss)) with (s :: alter (upd_lambda true) i ss).
    change (sym (s :: ss) (S i)) with (sym ss i) in Hl. rewrite !filter_cons.
    specialize (IH i ltac:(cbn in Hi; lia) Hl). case_decide; cbn [length]; lia.
Qed.

Lemma nlam_le ss : (nlam ss ≤ length ss)%nat.
Proof. apply length_filter. Qed.

Section Lambda.
Context (R : list rule).

(** only nonterminals are marked, so the assertion holds *)
Definition lam_nt (ss : list symbol) : Prop := ∀ i, lam ss i → sp_type (sym ss i) = NONTERMINAL.
Lemma all_lambda_ok rhs ss : lam_nt ss → all_lambda rhs ss = Ok (forallb (λ i, sp_lambda (sym ss i)) rhs).
Proof.
  intros Hnt. induction rhs as [|i rhs IH]; [done|]. cbn [all_lambda forallb]. destruct (sp_lambda (sym ss i)) eqn:El.
  - rewrite bool_decide_true by (by apply Hnt). done.
  - by rewrite orb_true_r.
Qed.

Record lam_step (ss ss' : list symbol) : Prop := {
  ls_frame : frame ss ss';
  ls_first : ∀ i, sp_firstset (sym ss' i) = sp_firstset (sym ss i);
  ls_mono : ∀ i, lam ss i → lam ss' i;
  ls_nt : lam_nt ss → lam_nt ss';
  ls_sound : (∀ i, lam ss i → nullable R i) → ∀ i, lam ss' i → nullable R i;
}.

Lemma lam_step_refl ss : lam_step ss ss.
Proof. by constructor. Qed.
Lemma lam_step_trans a b c : lam_step a b → lam_step b c → lam_step a c.
Proof.
  intros [F1 I1 M1 N1 S1] [F2 I2 M2 N2 S2]. constructor; [by etrans|..].
  - intros i. by rewrite I2, I1.
  - auto.
  - auto.
  - auto.
Qed.

Lemma nullable_all_lam ss rhs :
  (∀ i, lam ss i → nullable R i) → forallb (λ i, sp_lambda (sym ss i)) rhs = true → nullable_all R rhs.
Proof.
  intros Hs. induction rhs as [|i rhs IH]; [constructor|]. cbn [forallb]. intros [? ?]%andb_true_iff.
  constructor; [by apply Hs|by apply IH].
Qed.

Lemma lambda_pass_ok rules ss :
  rules ⊆ R → (∀ r, r ∈ rules → (rp_lhs r < length ss)%nat ∧ sp_type (sym ss (rp_lhs r)) = NONTERMINAL) → lam_nt ss →
  ∃ p ss', lambda_pass rules ss = Ok (p, ss') ∧ lam_step ss ss' ∧ (nlam ss' ≤ nlam ss)%nat ∧
  (p = false → ss' = ss ∧ ∀ r, r ∈ rules → forallb (λ i, sp_lambda (sym ss i)) (rp_rhs r) = true → lam ss (rp_lhs r)) ∧
  (p = true → (nlam ss' < nlam ss)%nat).
Proof.
  revert ss. induction rules as [|r rules IH]; intros ss Hsub Hlhs Hnt; cbn [lambda_pass].
  { eexists _, _. split_and!; [done|apply lam_step_refl|lia| |done]. intros _. split; [done|]. by intros ? ?%elem_of_nil. }
  assert (∃ p1 ss1, lambda_rule r ss = Ok (p1, ss1) ∧ lam_step ss ss1 ∧
    (p1 = false → ss1 = ss ∧ (forallb (λ i, sp_lambda (sym ss i)) (rp_rhs r) = true → lam ss (rp_lhs r))) ∧
    (nlam ss1 ≤ nlam ss)%nat ∧ (p1 = true → (nlam ss1 < nlam ss)%nat)) as (p1&ss1&->&Hst&Hno&Hle&Hlt).
  { unfold lambda_rule. destruct (sp_lambda (sym ss (rp_lhs r))) eqn:El.
    { eexists _, _. split_and!; [done|apply lam_step_refl|done|lia|done]. }
    rewrite all_lambda_ok by done. cbn [mbind res_bind]. destruct (forallb _ (rp_rhs r)) eqn:Ef; cycle 1.
    { eexists _, _. split_and!; [done|apply lam_step_refl|done|lia|done]. }
    destruct (Hlhs r ltac:(by left)) as [Hv Hty].
    assert (S (nlam (alter (upd_lambda true) (rp_lhs r) ss)) = nlam ss) as Hn
      by (apply nlam_alter; [done|unfold lam; congruence]).
    eexists _, _. split_and!; [done| |done|lia|lia]. constructor.
    - by apply frame_alter.
    - intros i. rewrite sym_alter. by case_decide.
    - intros i. unfold lam. rewrite sym_alter. by case_decide.
    - intros _ i. unfold lam. rewrite sym_alter. case_decide as Hd; [by destruct Hd as [<- _]|apply Hnt].
    - intros Hs i. unfold lam. rewrite sym_alter. case_decide as Hd; [|by apply Hs].
      destruct Hd as [<- _]. intros _. constructor; [apply Hsub; by left|by eapply nullable_all_lam]. }
  cbn [mbind res_bind]. destruct (IH ss1) as (p2&ss2&->&Hst2&Hle2&Hno2&Hlt2).
  { intros x Hx. apply Hsub. by right. }
  { intros x Hx. rewrite (proj1 (ls_frame _ _ Hst)), (frame_type _ _ _ (ls_frame _ _ Hst)). apply Hlhs. by right. }
  { by apply (ls_nt _ _ Hst). }
  cbn [mbind res_bind]. eexists _, _. split_and!; [done|by eapply lam_step_trans|lia| |].
  - intros [-> ->]%orb_false_iff. destruct (Hno eq_refl) as [-> H1], (Hno2 eq_refl) as [-> H2].
    split; [done|]. intros r' [->|Hr']%elem_of_cons; [done|by apply H2].
  - intros [->| ->]%orb_true_iff; [specialize (Hlt eq_refl)|specialize (Hlt2 eq_refl)]; lia.
Qed.

Lemma lambda_loop_ok fuel ss :
  (∀ r, r ∈ R → (rp_lhs r < length ss)%nat ∧ sp_type (sym ss (rp_lhs r)) = NONTERMINAL) → (nlam ss < fuel)%nat → (∀ i, ¬ lam ss i) →
  ∃ ss', lambda_loop fuel R ss = Ok ss' ∧ frame ss ss' ∧
    (∀ i, sp_firstset (sym ss' i) = sp_firstset (sym ss i)) ∧ ∀ i, lam ss' i ↔ nullable R i.
Proof.
  intros Hlhs Hf Hno.
  assert (∃ ss', lambda_loop fuel R ss = Ok ss' ∧ lam_step ss ss' ∧
    ∀ r, r ∈ R → forallb (λ i, sp_lambda (sym ss' i)) (rp_rhs r) = true → lam ss' (rp_lhs r)) as (ss'&Hl&Hst&Hcl).
  { assert (lam_nt ss) as Hnt by (intros i Hi; by destruct (Hno i)).
    clear Hno. revert ss Hlhs Hf Hnt. induction fuel as [|fuel IH]; intros ss Hlhs Hf Hnt; [lia|]. cbn [lambda_loop].
    destruct (lambda_pass_ok R ss (reflexivity R) Hlhs Hnt) as (p&ss1&->&Hst&Hle&Hn&Hlt). cbn [mbind res_bind]. destruct p.
    - specialize (Hlt eq_refl). destruct (IH ss1) as (ss'&?&?&?).
      { intros. rewrite (proj1 (ls_frame _ _ Hst)), (frame_type _ _ _ (ls_frame _ _ Hst)). by apply Hlhs. }
      { lia. }
      { by apply (ls_nt _ _ Hst). }
      exists ss'. split_and!; [done|by eapply lam_step_trans|done].
    - destruct (Hn eq_refl) as [-> Hcl]. exists ss. split_and!; [done|apply lam_step_refl|done]. }
  exists ss'. split_and!; [done|apply Hst|apply Hst|]. intros i. split.
  - apply (ls_sound _ _ Hst). intros j Hj. by destruct (Hno j).
  - revert i. apply (nullable_ind2 R (λ i _, lam ss' i)
      (λ rhs _, forallb (λ i, sp_lambda (sym ss' i)) rhs = true)); [|done|].
    + intros r Hr _ Hall. by apply Hcl.
    + intros i rhs _ Hi _ Hall. cbn [forallb]. by rewrite Hi, Hall.
Qed.
End Lambda.

(** ** FIRST sets *)

Definition ones (f : list bool) : nat := length (filter (λ b, b = true) f).
Definition weight (s : symbol) : nat := match sp_firstset s with Some f => ones f | None => 0 end.
(** the number of elements in all first sets *)
Definition total (ss : list symbol) : nat := sum_list_with weight ss.

Lemma ones_le f f' :
  length f' = length f → (∀ t, SetFind f t = true → SetFind f' t = true) →
  (ones f ≤ ones f')%nat ∧ (f' ≠ f → (ones f < ones f')%nat).
Proof.
  intros Hl Hi. assert (∀ i : nat, f !! i = Some true → f' !! i = Some true) as Hn.
  { intros i H. pose proof (Hi (Z.of_nat i)) as Hx. rewrite !SetFind_true, Nat2Z.id in Hx. apply Hx.
    split; [lia|done]. }
  clear Hi. revert f' Hl Hn. unfold ones. induction f as [|b f IH]; intros [|b' f'] Hl Hn; try done.
  cbn in Hl. destruct (IH f') as [H1 H2]; [lia|intros i; apply (Hn (S i))|].
  pose proof (Hn 0%nat) as H0. cbn in H0. rewrite !filter_cons.
  destruct b, b'; repeat (case_decide; [|done || idtac]); try done; cbn [length].
  - split; [lia|]. intros Hne. assert (f' ≠ f) as Hff by congruence. specialize (H2 Hff). lia.
  - by specialize (H0 eq_refl).
  - split; [lia|]. intros _. lia.
  - split; [lia|]. intros Hne. assert (f' ≠ f) as Hff by congruence. specialize (H2 Hff). lia.
Qed.

Lemma ones_bound f : (ones f ≤ length f)%nat.
Proof. apply length_filter. Qed.

Lemma total_alter i f ss :
  (i < length ss)%nat → (total (alter (upd_firstset (Some f)) i ss) + weight (sym ss i) = total ss + ones f)%nat.
Proof.
  unfold total. revert i. induction ss as [|s ss IH]; intros i Hi; [cbn in Hi; lia|]. destruct i as [|i].
  - change (alter _ 0%nat (s :: ss)) with (upd_firstset (Some f) s :: ss).
    change (sym (s :: ss) 0) with s. cbn [sum_list_with]. change (weight (upd_firstset (Some f) s)) with (ones f). lia.
  - change (alter (upd_firstset (Some f)) (S i) (s :: ss)) with (s :: alter (upd_firstset (Some f)) i ss).
    change (sym (s :: ss) (S i)) with (sym ss i). cbn [sum_list_with].
    specialize (IH i ltac:(cbn in Hi; lia)). lia.
Qed.

Section First.
Context (ss0 : list symbol) (R : list rule) (n : nat).

Definition has_set (ss : list symbol) (i : nat) : Prop :=
  (i < length ss)%nat ∧ ∃ f, sp_firstset (sym ss i) = Some f ∧ length f = n.
Definition in_first (ss : list symbol) (i : nat) (t : Z) : Prop :=
  ∃ f, sp_firstset (sym ss i) = Some f ∧ SetFind f t = true.

Record first_step (ss ss' : list symbol) : Prop := {
  fs_frame : frame ss ss';
  fs_lam : ∀ i, sp_lambda (sym ss' i) = sp_lambda (sym ss i);
  fs_set : ∀ i, has_set ss i → has_set ss' i;
  fs_len : (∀ i f, sp_firstset (sym ss i) = Some f → length f = n) →
    ∀ i f, sp_firstset (sym ss' i) = Some f → length f = n;
  fs_mono : ∀ i t, in_first ss i t → in_first ss' i t;
  fs_sound : (∀ i t, in_first ss i t → first_of ss0 R i t) → ∀ i t, in_first ss' i t → first_of ss0 R i t;
}.
Lemma first_step_refl ss : first_step ss ss.
Proof. by constructor. Qed.
Lemma first_step_trans a b c : first_step a b → first_step b c → first_step a c.
Proof.
  intros [F1 L1 S1 N1 M1 O1] [F2 L2 S2 N2 M2 O2]. constructor; [by etrans|..].
  - intros i. by rewrite L2, L1.
  - intros i H. by apply S2, S1.
  - intros H. by apply N2, N1.
  - intros i t H. by apply M2, M1.
  - intros H. by apply O2, O1.
Qed.

(** an operation of the pass: it grows the sets, and counts only real changes *)
Record op_ok (ss : list symbol) (p : Z) (ss' : list symbol) : Prop := {
  op_step : first_step ss ss';
  op_nonneg : 0 ≤ p;
  op_zero : p = 0 → ss' = ss;
  op_total : (total ss ≤ total ss')%nat;
  op_pos : 0 < p → (total ss < total ss')%nat;
}.
Lemma op_ok_refl ss : op_ok ss 0 ss.
Proof. constructor; [apply first_step_refl|lia|done|lia|lia]. Qed.
Lemma op_ok_trans a p b q c : op_ok a p b → op_ok b q c → op_ok a (p + q) c.
Proof.
  intros [S1 N1 Z1 T1 P1] [S2 N2 Z2 T2 P2]. constructor; [by eapply first_step_trans|lia| |lia|].
  - intros ?. rewrite Z2, Z1 by lia. done.
  - intros ?. destruct (decide (0 < p)); [specialize (P1 l)|specialize (P2 ltac:(lia))]; lia.
Qed.

Lemma alter_id_sym f i (ss : list symbol) : f (sym ss i) = sym ss i → alter f i ss = ss.
Proof.
  intros H. apply list_eq. intros j. destruct (decide (i = j)) as [->|]; [|by rewrite list_lookup_alter_ne].
  rewrite list_lookup_alter_eq. unfold sym in H. destruct (ss !! j) as [s|]; [|done]. cbn in *. by rewrite H.
Qed.

(** replacing a set by a larger one with sound elements *)
Lemma grow_ok ss i f f' (b : bool) :
  (i < length ss)%nat → sp_firstset (sym ss i) = Some f → length f' = length f → length f = n →
  (∀ t, SetFind f t = true → SetFind f' t = true) → (b = false ↔ f' = f) →
  ((∀ i t, in_first ss i t → first_of ss0 R i t) → ∀ t, SetFind f' t = true → first_of ss0 R i t) →
  op_ok ss (if b then 1 else 0) (alter (upd_firstset (Some f')) i ss).
Proof.
  intros Hi Hf Hl Hn Hmono Hb Hsound.
  assert (∀ j, sp_firstset (sym (alter (upd_firstset (Some f')) i ss) j) =
    if decide (i = j) then Some f' else sp_firstset (sym ss j)) as Hfs.
  { intros j. rewrite sym_alter. destruct (decide (i = j)) as [->|].
    - by rewrite decide_True by done.
    - by rewrite decide_False by naive_solver. }
  destruct (ones_le f f' Hl Hmono) as [Ho1 Ho2]. pose proof (total_alter i f' ss Hi) as Ht.
  unfold weight in Ht. rewrite Hf in Ht. constructor.
  - constructor.
    + by apply frame_alter.
    + intros j. rewrite sym_alter. by case_decide.
    + intros j [Hj (g&Hg&Hgl)]. split; [by rewrite length_alter|]. rewrite Hfs.
      case_decide; [exists f'|exists g]; split; [done|congruence|done|done].
    + intros Hall j g. rewrite Hfs. case_decide; [intros [= <-]; congruence|apply Hall].
    + intros j t (g&Hg&Ht'). unfold in_first. rewrite Hfs. case_decide as E; [|by exists g].
      subst j. exists f'. split; [done|]. apply Hmono. congruence.
    + intros Hs j t (g&Hg&Ht'). rewrite Hfs in Hg. case_decide as E; [|apply Hs; by exists g].
      subst j. injection Hg as <-. by apply Hsound.
  - destruct b; lia.
  - destruct b; [lia|]. intros _. rewrite (proj1 Hb eq_refl). apply alter_id_sym.
    destruct (sym ss i) eqn:E. cbn in *. by rewrite <- Hf.
  - lia.
  - destruct b; [|lia]. intros _. assert (f' ≠ f) as Hne by (intros E; apply Hb in E; done).
    specialize (Ho2 Hne). lia.
Qed.

Lemma add_first_ok s1 e ss :
  has_set ss s1 → 0 ≤ e < Z.of_nat n → first_of ss0 R s1 e →
  ∃ p ss', add_first s1 e ss = Ok (p, ss') ∧ op_ok ss p ss' ∧ in_first ss' s1 e.
Proof.
  intros (Hlt&f&Hf&Hl) He Hfo. unfold add_first, firstset. rewrite Hf. cbn [of_opt mbind res_bind].
  destruct (SetAdd_spec f e) as (f'&Ha&Hl'&Hi); [unfold zlen; lia|]. rewrite Ha.
  eexists _, _. split; [done|]. split.
  - apply (grow_ok ss s1 f f' (negb (SetFind f e))); try done.
    + intros t Ht. apply Hi. by left.
    + split.
      * intros Hb%negb_false_iff. unfold SetAdd in Ha.
        rewrite (proj2 (Z.leb_le _ _)), (proj2 (Z.ltb_lt _ _)) in Ha by (unfold zlen; lia). cbn [andb] in Ha.
        res_inv Ha. injection Ha as _ <-. apply list_insert_id. by apply SetFind_true in Hb as [_ ?].
      * intros ->. apply negb_false_iff. apply Hi. by right.
    + intros Hs t [Ht| ->]%Hi; [|done]. apply Hs. by exists f.
  - exists f'. split; [|apply Hi; by right]. rewrite sym_alter. by rewrite decide_True by done.
Qed.

Lemma add_firsts_ok s1 es ss :
  has_set ss s1 → (∀ e, e ∈ es → 0 ≤ e < Z.of_nat n ∧ first_of ss0 R s1 e) →
  ∃ p ss', add_firsts s1 es ss = Ok (p, ss') ∧ op_ok ss p ss' ∧ ∀ e, e ∈ es → in_first ss' s1 e.
Proof.
  revert ss. induction es as [|e es IH]; intros ss Hs He; cbn [add_firsts].
  { eexists _, _. split; [done|]. split; [apply op_ok_refl|]. by intros ? ?%elem_of_nil. }
  destruct (He e) as [Hr Hfo]; [by left|].
  destruct (add_first_ok s1 e ss Hs Hr Hfo) as (p&ss1&->&Hop&Hin).
  destruct (IH ss1) as (p'&ss2&->&Hop'&Hin').
  { by apply (fs_set _ _ (op_step _ _ _ Hop)). } { intros; apply He; by right. }
  eexists _, _. split; [done|]. split; [by eapply op_ok_trans|].
  intros e' [->|H]%elem_of_cons; [|by apply Hin']. by apply (fs_mono _ _ (op_step _ _ _ Hop')).
Qed.

Lemma union_first_ok s1 s2 ss :
  has_set ss s1 → has_set ss s2 →
  ((∀ i t, in_first ss i t → first_of ss0 R i t) → ∀ t, in_first ss s2 t → first_of ss0 R s1 t) →
  ∃ p ss', union_first s1 s2 ss = Ok (p, ss') ∧ op_ok ss p ss' ∧ ∀ t, in_first ss s2 t → in_first ss' s1 t.
Proof.
  intros (Hlt&f1&Hf1&Hl1) (_&f2&Hf2&Hl2) Hfo. unfold union_first, firstset. rewrite Hf1, Hf2.
  cbn [of_opt mbind res_bind]. destruct (SetUnion_spec f1 f2) as (Hl&Hi&Hz); [congruence|].
  destruct (SetUnion f1 f2) as [b f] eqn:Eu. cbn [fst snd] in *. eexists _, _. split; [done|]. split.
  - apply (grow_ok ss s1 f1 f b); try done.
    + intros t Ht. apply Hi. by left.
    + intros Hs t [Ht|Ht]%Hi; [apply Hs; by exists f1|]. apply Hfo; [done|]. by exists f2.
  - intros t (g&Hg&Ht). exists f. split; [rewrite sym_alter; by rewrite decide_True by done|].
    apply Hi. right. congruence.
Qed.

(** what a symbol of a right-hand side contributes, by the current sets *)
Definition starts_in (ss : list symbol) (i : nat) (t : Z) : Prop :=
  (sp_type (sym ss0 i) = TERMINAL ∧ t = sp_index (sym ss0 i)) ∨
  (sp_type (sym ss0 i) = MULTITERMINAL ∧ ∃ j, j ∈ sp_subsym (sym ss0 i) ∧ t = sp_index (sym ss0 j)) ∨
  (sp_type (sym ss0 i) = NONTERMINAL ∧ in_first ss i t).

(** the symbols of right-hand sides are what they should be *)
Definition rhs_ok (ss : list symbol) (i : nat) : Prop :=
  match sp_type (sym ss0 i) with
  | TERMINAL => 0 ≤ sp_index (sym ss0 i) < Z.of_nat n
  | MULTITERMINAL => ∀ j, j ∈ sp_subsym (sym ss0 i) → 0 ≤ sp_index (sym ss0 j) < Z.of_nat n
  | NONTERMINAL => has_set ss i
  end.

Record good (ss : list symbol) : Prop := {
  g_frame : frame ss0 ss;
  g_lam : ∀ i, lam ss i ↔ nullable R i;
  g_lhs : ∀ r, r ∈ R → has_set ss (rp_lhs r);
  g_rhs : ∀ r i, r ∈ R → i ∈ rp_rhs r → rhs_ok ss i;
}.
Lemma good_step ss ss' : good ss → first_step ss ss' → good ss'.
Proof.
  intros [F L H1 H2] [F' L' S' _ _ _]. constructor.
  - by etrans.
  - intros i. unfold lam. rewrite L'. apply L.
  - auto.
  - intros r i Hr Hi. specialize (H2 r i Hr Hi). unfold rhs_ok in *. destruct (sp_type (sym ss0 i)); auto.
Qed.

Definition closed (s1 : nat) (rhs : list nat) (ss : list symbol) : Prop :=
  ∀ pre i post t, rhs = pre ++ i :: post → nullable_all R pre → starts_in ss i t → in_first ss s1 t.

Lemma nullable_all_app a b : nullable_all R a → nullable_all R b → nullable_all R (a ++ b).
Proof. induction 1; [done|]. intros. cbn. constructor; auto. Qed.

Lemma closed_stop s1 i rhs ss :
  (∀ t, starts_in ss i t → in_first ss s1 t) → ¬ nullable R i → closed s1 (i :: rhs) ss.
Proof.
  intros Hi Hn [|j pre] i' post t; cbn; intros [= ? ?]; subst; [intros _; apply Hi|].
  intros Ha. inversion Ha; subst. done.
Qed.
Lemma closed_next s1 i rhs ss :
  (∀ t, starts_in ss i t → in_first ss s1 t) → closed s1 rhs ss → closed s1 (i :: rhs) ss.
Proof.
  intros Hi Hc [|j pre] i' post t; cbn; intros [= ? ?]; subst; [intros _; apply Hi|].
  intros Ha. inversion Ha; subst. by eapply Hc.
Qed.

Hypothesis lhs_nt : ∀ r, r ∈ R → sp_type (sym ss0 (rp_lhs r)) = NONTERMINAL.

Lemma nullable_nt i : nullable R i → sp_type (sym ss0 i) = NONTERMINAL.
Proof. destruct 1. by apply lhs_nt. Qed.

Lemma first_rhs_ok r pre rest ss :
  good ss → r ∈ R → rp_rhs r = pre ++ rest → nullable_all R pre →
  ∃ p ss', first_rhs (rp_lhs r) rest ss = Ok (p, ss') ∧ op_ok ss p ss' ∧ (p = 0 → closed (rp_lhs r) rest ss).
Proof.
  intros Hg Hr. revert pre ss Hg. induction rest as [|i rest IH]; intros pre ss Hg Hrhs Hpre; cbn [first_rhs].
  { eexists _, _. split; [done|]. split; [apply op_ok_refl|]. intros _ pre' i post t H. by destruct pre'. }
  pose proof (g_lhs _ Hg r Hr) as Hset.
  assert (rhs_ok ss i) as Hi. { eapply (g_rhs _ Hg); [done|]. rewrite Hrhs. apply elem_of_app. right. by left. }
  destruct (proj2 (g_frame _ Hg) i) as (Hty&Hix&Hsub). rewrite Hty.
  assert (∀ t, starts ss0 R i t → first_of ss0 R (rp_lhs r) t) as Hfo by (intros; by eapply first_rule).
  unfold rhs_ok in Hi. destruct (sp_type (sym ss0 i)) eqn:Ety.
  - rewrite Hix. destruct (add_first_ok (rp_lhs r) (sp_index (sym ss0 i)) ss) as (p&ss'&->&Hop&Hin);
      [done|done|by apply Hfo, starts_terminal|].
    eexists _, _. split; [done|]. split; [done|]. intros Hz. rewrite (op_zero _ _ _ Hop Hz) in Hin.
    apply closed_stop.
    + intros t [[_ ->]|[[? _]|[? _]]]; [done|congruence..].
    + intros Hnu%nullable_nt. congruence.
  - (* a non-terminal *)
    assert (¬ lam ss i → ¬ nullable R i) as Hnl by (intros H H'%(g_lam _ Hg); done).
    destruct (decide (rp_lhs r = i)) as [Heq|Hne].
    + assert (∀ t, starts_in ss i t → in_first ss (rp_lhs r) t) as Hst.
      { intros t [[? _]|[[? _]|[_ H]]]; [congruence..|]. by rewrite Heq. }
      destruct (sp_lambda (sym ss (rp_lhs r))) eqn:El.
      * destruct (IH (pre ++ [i]) ss Hg) as (p&ss'&->&Hop&Hcl).
        { by rewrite <- app_assoc. }
        { apply nullable_all_app; [done|]. constructor; [|constructor]. apply (g_lam _ Hg). by rewrite <- Heq. }
        eexists _, _. split; [done|]. split; [done|]. intros Hz. apply closed_next; [done|by apply Hcl].
      * eexists _, _. split; [done|]. split; [apply op_ok_refl|]. intros _. apply closed_stop; [done|].
        apply Hnl. unfold lam. rewrite <- Heq, El. done.
    + destruct (union_first_ok (rp_lhs r) i ss) as (p&ss1&->&Hop&Hin); [done|done| |].
      { intros Hs t Ht. apply Hfo, starts_nonterminal; [done|by apply Hs]. }
      assert (p = 0 → ∀ t, starts_in ss i t → in_first ss (rp_lhs r) t) as Hst.
      { intros Hz t [[? _]|[[? _]|[_ H]]]; [congruence..|]. apply Hin in H.
        by rewrite (op_zero _ _ _ Hop Hz) in H. }
      rewrite (fs_lam _ _ (op_step _ _ _ Hop)). destruct (sp_lambda (sym ss i)) eqn:El.
      * destruct (IH (pre ++ [i]) ss1) as (p'&ss'&->&Hop'&Hcl).
        { eapply good_step; [done|apply Hop]. } { by rewrite <- app_assoc. }
        { apply nullable_all_app; [done|]. constructor; [|constructor]. by apply (g_lam _ Hg). }
        eexists _, _. split; [done|]. split; [by eapply op_ok_trans|]. intros Hz.
        pose proof (op_nonneg _ _ _ Hop). pose proof (op_nonneg _ _ _ Hop').
        apply closed_next; [apply Hst; lia|]. rewrite <- (op_zero _ _ _ Hop) by lia. apply Hcl. lia.
      * eexists _, _. split; [done|]. split; [done|]. intros Hz. apply closed_stop; [by apply Hst|].
        apply Hnl. unfold lam. rewrite El. done.
  - rewrite Hsub. destruct (add_firsts_ok (rp_lhs r) ((λ j, sp_index (sym ss j)) <$> sp_subsym (sym ss0 i)) ss)
      as (p&ss'&->&Hop&Hin); [done| |].
    { intros e (j&->&Hj)%list_elem_of_fmap. destruct (proj2 (g_frame _ Hg) j) as (_&->&_).
      split; [by apply Hi|]. apply Hfo. by apply starts_multi. }
    eexists _, _. split; [done|]. split; [done|]. intros Hz. rewrite (op_zero _ _ _ Hop Hz) in Hin.
    apply closed_stop.
    + intros t [[? _]|[[_ (j&Hj&->)]|[? _]]]; [congruence| |congruence].
      apply Hin, list_elem_of_fmap. exists j. split; [|done]. by destruct (proj2 (g_frame _ Hg) j) as (_&->&_).
    + intros Hnu%nullable_nt. congruence.
Qed.

Lemma first_pass_ok rules ss :
  good ss → rules ⊆ R →
  ∃ p ss', first_pass rules ss = Ok (p, ss') ∧ op_ok ss p ss' ∧
    (p = 0 → ∀ r, r ∈ rules → closed (rp_lhs r) (rp_rhs r) ss).
Proof.
  revert ss. induction rules as [|r rules IH]; intros ss Hg Hsub; cbn [first_pass].
  { eexists _, _. split; [done|]. split; [apply op_ok_refl|]. by intros _ ? ?%elem_of_nil. }
  destruct (first_rhs_ok r [] (rp_rhs r) ss) as (p&ss1&->&Hop&Hcl); [done|apply Hsub; by left|done|constructor|].
  destruct (IH ss1) as (p'&ss2&->&Hop'&Hcl').
  { eapply good_step; [done|apply Hop]. } { intros x Hx. apply Hsub. by right. }
  eexists _, _. split; [done|]. split; [by eapply op_ok_trans|]. intros Hz.
  pose proof (op_nonneg _ _ _ Hop). pose proof (op_nonneg _ _ _ Hop').
  intros r' [->|Hr']%elem_of_cons; [apply Hcl; lia|]. rewrite <- (op_zero _ _ _ Hop) by lia. apply Hcl'; [lia|done].
Qed.

Lemma total_bound ss :
  (∀ i f, sp_firstset (sym ss i) = Some f → length f = n) → (total ss ≤ length ss * n)%nat.
Proof.
  unfold total. induction ss as [|s ss IH]; intros H; [done|]. cbn [sum_list_with length].
  specialize (IH (λ i f, H (S i) f)). assert (weight s ≤ n)%nat; [|lia].
  unfold weight. destruct (sp_firstset s) as [f|] eqn:E; [|lia].
  rewrite <- (H 0%nat f E). apply ones_bound.
Qed.

Lemma first_loop_ok fuel ss :
  good ss → (∀ i f, sp_firstset (sym ss i) = Some f → length f = n) →
  (length ss * n < fuel + total ss)%nat → (∀ i t, ¬ in_first ss i t) →
  ∃ ss', first_loop fuel R ss = Ok ss' ∧ good ss' ∧ (∀ i, has_set ss i → has_set ss' i) ∧
    ∀ i t, in_first ss' i t ↔ first_of ss0 R i t.
Proof.
  intros Hg Hlen Hfuel Hno.
  assert (∃ ss', first_loop fuel R ss = Ok ss' ∧ first_step ss ss' ∧ good ss' ∧
    ∀ r, r ∈ R → closed (rp_lhs r) (rp_rhs r) ss') as (ss'&Hl&Hst&Hg'&Hcl).
  { clear Hno. revert ss Hg Hlen Hfuel. induction fuel as [|fuel IH]; intros ss Hg Hlen Hfuel.
    { pose proof (total_bound ss Hlen). lia. }
    cbn [first_loop]. destruct (first_pass_ok R ss Hg (reflexivity R)) as (p&ss1&->&Hop&Hcl).
    destruct (Z.eqb_spec p 0) as [Hz|Hz].
    - specialize (Hcl Hz). rewrite (op_zero _ _ _ Hop Hz). exists ss. split_and!; [done|apply first_step_refl|done|done].
    - pose proof (op_nonneg _ _ _ Hop). pose proof (op_pos _ _ _ Hop ltac:(lia)) as Hpos.
      pose proof (op_step _ _ _ Hop) as Hs1. destruct (IH ss1) as (ss'&?&?&?&?).
      + by eapply good_step.
      + by apply (fs_len _ _ Hs1).
      + rewrite (proj1 (fs_frame _ _ Hs1)). lia.
      + exists ss'. split_and!; [done|by eapply first_step_trans|done|done]. }
  exists ss'. split_and!; [done|done|apply Hst|]. intros i t. split.
  - apply (fs_sound _ _ Hst). intros j t' Hj. by destruct (Hno j t').
  - revert i t. apply (first_ind2 ss0 R (λ i t _, in_first ss' i t) (λ i t _, starts_in ss' i t)).
    + intros r pre i post t Hr Hrhs Hpre _ Hs. by eapply Hcl.
    + intros i Hi. by left.
    + intros i j Hi Hj. right; left. split; [done|]. by exists j.
    + intros i t Hi _ Hin. right; right. done.
Qed.
End First.

(** ** The whole pass *)

(** the state in which [main] calls [FindFirstSets]: valid pointers, left-hand
    sides among the non-terminals of the array, terminals with an index that fits
    the sets, and fresh symbols *)
Record grammar_ok (symbols : list nat) (nterminal nsymbol setsize : Z) (R : list rule) (ss : list symbol) : Prop := {
  gr_valid : ∀ i, i ∈ symbols → (i < length ss)%nat;
  gr_lhs : ∀ r, r ∈ R → sp_type (sym ss (rp_lhs r)) = NONTERMINAL ∧
    rp_lhs r ∈ drop (Z.to_nat nterminal) (take (Z.to_nat nsymbol) symbols);
  gr_rhs : ∀ r i, r ∈ R → i ∈ rp_rhs r →
    match sp_type (sym ss i) with
    | TERMINAL => 0 ≤ sp_index (sym ss i) < setsize
    | MULTITERMINAL => ∀ j, j ∈ sp_subsym (sym ss i) → 0 ≤ sp_index (sym ss j) < setsize
    | NONTERMINAL => i ∈ drop (Z.to_nat nterminal) (take (Z.to_nat nsymbol) symbols)
    end;
  gr_lambda : ∀ i, i ∉ take (Z.to_nat nsymbol) symbols → sp_lambda (sym ss i) = false;
  gr_firstset : ∀ i, sp_firstset (sym ss i) = None;
}.

(** initialising a field of all symbols in a list *)
Lemma fold_alter f l ss :
  (∀ s, f (f s) = f s) → (∀ s, same_sym s (f s)) → (∀ i, i ∈ l → (i < length ss)%nat) →
  frame ss (foldl (λ ss i, alter f i ss) ss l) ∧
  ∀ i, sym (foldl (λ ss i, alter f i ss) ss l) i = if decide (i ∈ l) then f (sym ss i) else sym ss i.
Proof.
  intros Hidem Hsame. revert ss. induction l as [|x l IH]; intros ss Hv; cbn [foldl].
  { split; [done|]. intros i. rewrite decide_False by apply not_elem_of_nil. done. }
  destruct (IH (alter f x ss)) as [Hfr Hs].
  { intros i Hi. rewrite length_alter. apply Hv. by right. }
  split; [etrans; [by apply (frame_alter f x)|done]|]. intros i. rewrite Hs, sym_alter.
  assert (x < length ss)%nat as Hx by (apply Hv; by left).
  destruct (decide (x = i)) as [->|Hne].
  - rewrite (decide_True (P := i ∈ i :: l)) by (by left). rewrite (decide_True (P := i = i ∧ _)) by done.
    case_decide; [apply Hidem|done].
  - rewrite (decide_False (P := x = i ∧ _)) by naive_solver.
    destruct (decide (i ∈ l)); [rewrite decide_True by (by right)|rewrite decide_False by set_solver]; done.
Qed.

(** C17: [FindFirstSets] computes exactly what its comment says. Its two loops end,
    a non-terminal is marked [lambda] if and only if it derives the empty string,
    and its first set holds exactly the terminals that can begin a string derived
    from it (by the inductive definitions [nullable] and [first_of]). *)
Theorem FindFirstSets_correct symbols nterminal nsymbol setsize R ss :
  0 ≤ setsize → grammar_ok symbols nterminal nsymbol setsize R ss →
  ∃ ss', FindFirstSets symbols nterminal nsymbol setsize R ss = Ok ss' ∧
    ∀ i, i ∈ drop (Z.to_nat nterminal) (take (Z.to_nat nsymbol) symbols) →
      (sp_lambda (sym ss' i) = true ↔ nullable R i) ∧
      ∃ f, sp_firstset (sym ss' i) = Some f ∧ ∀ t, SetFind f t = true ↔ first_of ss R i t.
Proof.
  intros Hsz [Hv Hlhs Hrhs Hlam Hfs]. unfold FindFirstSets.
  set (syms := take (Z.to_nat nsymbol) symbols) in *. set (nts := drop (Z.to_nat nterminal) syms) in *.
  assert (∀ i, i ∈ syms → (i < length ss)%nat) as Hv1.
  { intros i Hi. apply Hv. rewrite <- (take_drop (Z.to_nat nsymbol) symbols). apply elem_of_app. by left. }
  assert (∀ i, i ∈ nts → i ∈ syms) as Hns.
  { intros i Hi. rewrite <- (take_drop (Z.to_nat nterminal) syms). apply elem_of_app. by right. }
  destruct (fold_alter (upd_lambda false) syms ss) as [F1 S1]; [done|done|done|].
  set (ss1 := foldl (λ ss i, alter (upd_lambda false) i ss) ss syms) in *.
  destruct (fold_alter (upd_firstset (Some (SetNew setsize))) nts ss1) as [F2 S2]; [done|done| |].
  { intros i Hi. rewrite (proj1 F1). by apply Hv1, Hns. }
  set (ss2 := foldl (λ ss i, alter (upd_firstset (Some (SetNew setsize))) i ss) ss1 nts) in *.
  assert (frame ss ss2) as F by (by etrans).
  assert (∀ i, sp_lambda (sym ss2 i) = false) as Hl2.
  { intros i. rewrite S2. assert (sp_lambda (sym ss1 i) = false) as H1.
    { rewrite S1. case_decide; [done|by apply Hlam]. }
    by case_decide. }
  assert (∀ i, sp_firstset (sym ss2 i) = if decide (i ∈ nts) then Some (SetNew setsize) else None) as Hf2.
  { intros i. rewrite S2. case_decide; [done|]. rewrite S1. case_decide; apply Hfs. }
  destruct (lambda_loop_ok R (S (length ss2)) ss2) as (ss3&Hl3&F3&Hf3&Hn3).
  { intros r Hr. rewrite (proj1 F), (frame_type _ _ _ F). split; [apply Hv1, Hns; by apply Hlhs|by apply Hlhs]. }
  { pose proof (nlam_le ss2). lia. }
  { intros i. unfold lam. by rewrite Hl2. }
  rewrite Hl3. cbn [mbind res_bind].
  assert (∀ i, i ∈ nts → has_set (Z.to_nat setsize) ss3 i) as Hhs.
  { intros i Hi. split; [rewrite (proj1 F3), (proj1 F); by apply Hv1, Hns|]. exists (SetNew setsize).
    rewrite Hf3, Hf2, decide_True by done. split; [done|]. unfold SetNew. by rewrite length_replicate. }
  destruct (first_loop_ok ss R (Z.to_nat setsize)) with (ss := ss3) (fuel := S (length ss3 * Z.to_nat setsize))
    as (ss'&Hl'&Hg'&Hset&Hin).
  - intros r Hr. by apply Hlhs.
  - constructor; [by etrans|done|intros r Hr; by apply Hhs, Hlhs|].
    intros r i Hr Hi. specialize (Hrhs r i Hr Hi). unfold rhs_ok.
    destruct (sp_type (sym ss i)); [lia|by apply Hhs|intros j Hj; specialize (Hrhs j Hj); lia].
  - intros i f. rewrite Hf3, Hf2. case_decide; [|done]. intros [= <-]. unfold SetNew. by rewrite length_replicate.
  - lia.
  - intros i t (f&Hf&Ht). rewrite Hf3, Hf2 in Hf. case_decide; [|done]. injection Hf as <-.
    apply SetFind_true in Ht as [_ Ht]. apply lookup_replicate in Ht as [? _]. done.
  - exists ss'. split; [done|]. intros i Hi. split; [apply (g_lam _ _ _ _ Hg')|].
    destruct (Hset i (Hhs i Hi)) as (_&f&Hf&_). exists f. split; [done|]. intros t. rewrite <- Hin. split.
    + intros Ht. by exists f.
    + intros (g&Hg&Ht). congruence.
Qed.

(** the grammar [s ::= a B.  a ::= A a.  a ::= .] with the symbols $, A, B, s, a *)
Definition mk_sym (name : str) (i : Z) (t : symbol_type) : symbol :=
  mkSymbol name i t [] None (-1) UNK None false 0 None 0 None 0 false [].
Definition mk_rule (lhs : nat) (rhs : list nat) (i : Z) : rule :=
  mkRule lhs None false 0 rhs [] 0 None None None None i i true false false false false.
Definition ex_syms : list symbol :=
  [mk_sym [36] 0 TERMINAL; mk_sym [65] 1 TERMINAL; mk_sym [66] 2 TERMINAL;
   mk_sym [115] 3 NONTERMINAL; mk_sym [97] 4 NONTERMINAL].
Definition ex_rules : list rule := [mk_rule 3 [4; 2]%nat 0; mk_rule 4 [1; 4]%nat 1; mk_rule 4 [] 2].

Lemma FindFirstSets_correct_witness :
  ∃ ss', FindFirstSets [0; 1; 2; 3; 4]%nat 3 5 (SetSize 4) ex_rules ex_syms = Ok ss' ∧
    ∀ i, i ∈ [3; 4]%nat →
      (sp_lambda (sym ss' i) = true ↔ nullable ex_rules i) ∧
      ∃ f, sp_firstset (sym ss' i) = Some f ∧ ∀ t, SetFind f t = true ↔ first_of ex_syms ex_rules i t.
Proof.
  apply (FindFirstSets_correct [0; 1; 2; 3; 4]%nat 3 5 (SetSize 4) ex_rules ex_syms); [unfold SetSize; lia|].
  constructor.
  - intros i Hi. repeat (apply elem_of_cons in Hi as [->|Hi]; [cbn; lia|]). by apply elem_of_nil in Hi.
  - intros r Hr. repeat (apply elem_of_cons in Hr as [->|Hr];
      [split; [reflexivity|apply (bool_decide_unpack _); vm_compute; exact I]|]). by apply elem_of_nil in Hr.
  - intros r i Hr. repeat (apply elem_of_cons in Hr as [->|Hr];
      [intros Hi; repeat (apply elem_of_cons in Hi as [->|Hi];
         [cbn; first [unfold SetSize; lia|apply (bool_decide_unpack _); vm_compute; exact I]|]);
       by apply elem_of_nil in Hi|]). by apply elem_of_nil in Hr.
  - intros i _. unfold sym. do 5 (destruct i as [|i]; [reflexivity|]). reflexivity.
  - intros i. unfold sym. do 5 (destruct i as [|i]; [reflexivity|]). reflexivity.
Defined.
