(* ===== verification/LemonSymbol.v ===== *)
(** The symbol table of the parser generator ([src/sql/lemon.c]): the associative
    array x2 with [Symbol_new], and the numbering of symbols and rules that
    [main] does after the grammar has been read. A symbol pointer is the
    position of the symbol in the heap of all symbols. *)
From stdpp Require Import sorting.
From S2P Require Import Prelude LemonData LemonTable LemonSort LemonFirst.

Definition upd_index (i : Z) (s : symbol) : symbol :=
  mkSymbol (sp_name s) i (sp_type s) (sp_rule s) (sp_fallback s) (sp_prec s) (sp_assoc s)
    (sp_firstset s) (sp_lambda s) (sp_useCnt s) (sp_destructor s) (sp_destLineno s) (sp_datatype s) (sp_dtnum s)
    (sp_bContent s) (sp_subsym s).
Definition upd_useCnt (i : Z) (s : symbol) : symbol :=
  mkSymbol (sp_name s) (sp_index s) (sp_type s) (sp_rule s) (sp_fallback s) (sp_prec s) (sp_assoc s)
    (sp_firstset s) (sp_lambda s) i (sp_destructor s) (sp_destLineno s) (sp_datatype s) (sp_dtnum s)
    (sp_bContent s) (sp_subsym s).

Definition ISUPPER (c : Z) : bool := (65 <=? c) && (c <=? 90).
Definition ISLOWER (c : Z) : bool := (97 <=? c) && (c <=? 122).

(** ** The table *)

Record symtab := mkSymtab {
  sy_heap : list symbol;
  x2a : xtable (nat * cstr);
  sy_str : strsafe;
}.

Section Symtab.
Context (calloc_ok : Z → bool).
Implicit Types (t : symtab).

Definition Symbol_init : option (xtable (nat * cstr)) := x_init calloc_ok 128.
Definition Symbol_insert := x_insert (E:=nat * cstr) snd cs_hash cs_cmp calloc_ok.
Definition Symbol_find t (key : cstr) : res (option nat) :=
  match x_find (snd : nat * cstr → cstr) cs_hash cs_cmp (x2a t) key with
  | Ok r => Ok (option_map fst r)
  | Err e => Err e
  end.
Definition Symbol_Nth t (n : Z) : option nat := option_map fst (x_Nth (x2a t) n).
Definition Symbol_count t : Z := x_count (x2a t).
Definition Symbol_arrayof t : list nat := fst <$> x_arrayof (x2a t).

(** the fields of a symbol seen for the first time; [x[0]] of an empty name is 0 *)
Definition new_symbol (x : cstr) : symbol :=
  mkSymbol (cs x) 0 (if ISUPPER (hd 0 (cs x)) then TERMINAL else NONTERMINAL) [] None (-1) UNK None false 0
    None 0 None 0 false [].

Definition Symbol_new (malloc_ok : bool) (x : cstr) t : res (nat * symtab) :=
  found ← Symbol_find t x;
  let* (sp, t) :=
    match found with
    | Some sp => Ok (sp, t)
    | None =>
        if malloc_ok then
          let* (_, ss) := Strsafe calloc_ok malloc_ok x (sy_str t) in
          let sp := length (sy_heap t) in
          let* (_, x2) := Symbol_insert (x2a t) (sp, x) in
          Ok (sp, mkSymtab (sy_heap t ++ [new_symbol x]) x2 ss)
        else Err ExitCalled
    end in
  let h := sy_heap t in
  Ok (sp, mkSymtab (alter (λ s, upd_useCnt (sp_useCnt s + 1) s) sp h) (x2a t) (sy_str t)).

(** the table points into the heap, and the key of an entry is the name of its symbol *)
Record symtab_wf t : Prop := {
  sy_table : table_ok (snd : nat * cstr → cstr) cs_hash cs_cmp (x2a t);
  sy_strs : strsafe_ok (sy_str t);
  sy_lt : ∀ i k, (i, k) ∈ x_arrayof (x2a t) → (i < length (sy_heap t))%nat;
  sy_names : ∀ i k, (i, k) ∈ x_arrayof (x2a t) → sp_name (sym (sy_heap t) i) = cs k;
}.
(** the pointers of the table are the heap, in order of creation *)
Record symtab_ok t : Prop := {
  sy_wf : symtab_wf t;
  sy_ptrs : Symbol_arrayof t = seq 0 (length (sy_heap t));
}.

Lemma sym_lookup h i s : h !! i = Some s → sym h i = s.
Proof. unfold sym. by intros ->. Qed.

Lemma Symbol_find_ok t y :
  symtab_wf t → ∃ r, Symbol_find t y = Ok r ∧
    (∀ i, r = Some i ↔ (i, y) ∈ x_arrayof (x2a t)).
Proof.
  intros Hok. destruct (x_find_ok (snd : nat * cstr → cstr) cs_hash cs_cmp) with (x := x2a t) (key := y) as (r&Hr&Hi).
  - intros ? ? ->%cs_cmp_eq. by apply cs_cmp_eq.
  - intros ? ? ? ->%cs_cmp_eq ->%cs_cmp_eq. by apply cs_cmp_eq.
  - by intros ? ? ->%cs_cmp_eq.
  - apply Hok.
  - unfold Symbol_find. rewrite Hr. eexists. split; [done|]. intros i. destruct r as [[j k]|]; cbn.
    + destruct (proj1 (Hi (j, k)) eq_refl) as [Hin Hk%cs_cmp_eq]. cbn in Hk. subst k. split; [by intros [= ->]|].
      intros Hin'. assert (Some (j, y) = Some (i, y)) as [= ->] by (apply Hi; split; [done|by apply cs_cmp_eq]). done.
    + split; [done|]. intros Hin. assert (None = Some (i, y)); [|done]. apply Hi. split; [done|by apply cs_cmp_eq].
Qed.

Lemma symtab_sym_alter f p h i :
  sym (alter f p h) i = if decide (i = p ∧ (p < length h)%nat) then f (sym h p) else sym h i.
Proof.
  unfold sym. destruct (decide (i = p)) as [->|Hne].
  - rewrite list_lookup_alter_eq. destruct (h !! p) as [s|] eqn:E.
    + rewrite decide_True; [done|]. split; [done|]. by eapply lookup_lt_Some.
    + rewrite decide_False; [done|]. intros [_ ?%lookup_lt_is_Some_2]. rewrite E in *. by destruct H.
  - rewrite list_lookup_alter_ne by done. rewrite decide_False; [done|]. naive_solver.
Qed.

(** a pass over the heap that keeps names keeps the table *)
Lemma symtab_wf_alter t p f :
  (∀ s, sp_name (f s) = sp_name s) → symtab_wf t →
  symtab_wf (mkSymtab (alter f p (sy_heap t)) (x2a t) (sy_str t)).
Proof.
  intros Hf [H1 H2 H3 H4]. constructor; cbn; [done|done|by rewrite length_alter|].
  intros i k Hin. rewrite symtab_sym_alter. case_decide as Hd; [|by apply H4].
  destruct Hd as [-> _]. rewrite Hf. by apply H4.
Qed.

Lemma symtab_ok_alter t p f :
  (∀ s, sp_name (f s) = sp_name s) → symtab_ok t →
  symtab_ok (mkSymtab (alter f p (sy_heap t)) (x2a t) (sy_str t)).
Proof. intros Hf [Hw Hp]. constructor; [by apply symtab_wf_alter|]. cbn [sy_heap]. rewrite length_alter. exact Hp. Qed.

Lemma Symbol_new_wf t x :
  symtab_wf t → (∀ n, calloc_ok n = true) →
  ∃ sp t', Symbol_new true x t = Ok (sp, t') ∧ symtab_wf t' ∧
    sp_name (sym (sy_heap t') sp) = cs x ∧ Symbol_find t' x = Ok (Some sp) ∧
    (∀ y, y ≠ x → Symbol_find t' y = Symbol_find t y) ∧
    match Symbol_find t x with
    | Ok (Some p) => sp = p ∧ Symbol_arrayof t' = Symbol_arrayof t ∧ sy_heap t' = alter (λ s, upd_useCnt (sp_useCnt s + 1) s) sp (sy_heap t)
    | _ => sp = length (sy_heap t) ∧ Symbol_arrayof t' = Symbol_arrayof t ++ [sp] ∧ sy_heap t' = sy_heap t ++ [upd_useCnt 1 (new_symbol x)]
    end.
Proof.
  intros Hok Hcal. unfold Symbol_new. destruct (Symbol_find_ok t x Hok) as (r&Hr&Hi). rewrite Hr. cbn [mbind res_bind].
  set (bump := λ s, upd_useCnt (sp_useCnt s + 1) s). assert (∀ s, sp_name (bump s) = sp_name s) as Hb by done.
  destruct r as [p|].
  - pose proof (proj1 (Hi p) eq_refl) as Hin.
    exists p, (mkSymtab (alter bump p (sy_heap t)) (x2a t) (sy_str t)).
    split_and!; [done|by apply symtab_wf_alter| |done..].
    apply (sy_names _ (symtab_wf_alter t p bump Hb Hok)). done.
  - destruct (Strsafe_ok calloc_ok x (sy_str t)) as (a&ss&Hs&Hss&_); [apply Hok|done|]. rewrite Hs.
    destruct (x_insert_ok (snd : nat * cstr → cstr) cs_hash cs_cmp calloc_ok) with (x := x2a t) (e := (length (sy_heap t), x))
      as [([i k]&_&He&Hc)|(Hno&[(x'&Hx&Hok'&Harr)|(_&Hf)])].
    + intros ? ? ->%cs_cmp_eq. by apply cs_cmp_eq.
    + by intros ? ? ->%cs_cmp_eq.
    + apply Hok.
    + cbn in Hc. apply cs_cmp_eq in Hc as ->. by pose proof (proj2 (Hi i) He).
    + unfold Symbol_insert. rewrite Hx. cbn [sy_heap x2a sy_str].
      set (t1 := mkSymtab (sy_heap t ++ [new_symbol x]) x' ss).
      assert (symtab_wf t1) as Ht1.
      { constructor; cbn; [done|done|..].
        - intros i k. rewrite Harr, length_app. intros [Hin%(sy_lt _ Hok)|[= -> ->]%list_elem_of_singleton]%elem_of_app; cbn; lia.
        - intros i k. rewrite Harr. intros [Hin|[= -> ->]%list_elem_of_singleton]%elem_of_app.
          + rewrite <- (sy_names _ Hok _ _ Hin). unfold sym. rewrite lookup_app_l; [done|]. by eapply (sy_lt _ Hok).
          + unfold sym. rewrite list_lookup_middle by done. done. }
      assert ((length (sy_heap t), x) ∈ x_arrayof (x2a t1)) as Hin.
      { cbn. rewrite Harr. apply elem_of_app. right. by left. }
      exists (length (sy_heap t)), (mkSymtab (alter bump (length (sy_heap t)) (sy_heap t1)) (x2a t1) (sy_str t1)).
      pose proof (symtab_wf_alter t1 (length (sy_heap t)) bump Hb Ht1) as Hok2.
      assert (∀ y, Symbol_find (mkSymtab (alter bump (length (sy_heap t)) (sy_heap t1)) (x2a t1) (sy_str t1)) y
        = Symbol_find t1 y) as Hsame by done.
      split_and!; [done|done|by apply (sy_names _ Hok2)| | |done| |].
      * rewrite Hsame. destruct (Symbol_find_ok t1 x Ht1) as (r'&->&Hi'). by rewrite (proj2 (Hi' _) Hin).
      * intros y Hy. rewrite Hsame. destruct (Symbol_find_ok t1 y Ht1) as (r1&->&H1), (Symbol_find_ok t y Hok) as (r0&->&H0).
        f_equal. apply option_eq. intros i. rewrite H1, H0. cbn. rewrite Harr, elem_of_app, list_elem_of_singleton. naive_solver.
      * unfold Symbol_arrayof. cbn. by rewrite Harr, fmap_app.
      * cbn [sy_heap t1]. apply list_eq. intros i. destruct (decide (i = length (sy_heap t))) as [->|Hne].
        { rewrite list_lookup_alter_eq, !list_lookup_middle by done. done. }
        rewrite list_lookup_alter_ne by done.
        destruct (decide (i < length (sy_heap t))%nat); [by rewrite !lookup_app_l by done|].
        rewrite !lookup_ge_None_2; [done|rewrite length_app; cbn; lia..].
    + by rewrite Hcal in Hf.
Qed.

Lemma Symbol_new_ok t x :
  symtab_ok t → (∀ n, calloc_ok n = true) →
  ∃ sp t', Symbol_new true x t = Ok (sp, t') ∧ symtab_ok t' ∧
    sp_name (sym (sy_heap t') sp) = cs x ∧ Symbol_find t' x = Ok (Some sp) ∧
    (∀ y, y ≠ x → Symbol_find t' y = Symbol_find t y) ∧
    match Symbol_find t x with
    | Ok (Some p) => sp = p ∧ sy_heap t' = alter (λ s, upd_useCnt (sp_useCnt s + 1) s) sp (sy_heap t)
    | _ => sp = length (sy_heap t) ∧ sy_heap t' = sy_heap t ++ [upd_useCnt 1 (new_symbol x)]
    end.
Proof.
  intros [Hwf Hp] Hcal. destruct (Symbol_new_wf t x Hwf Hcal) as (sp&t'&He&Hwf'&Hn&Hf&Hne&Hm). exists sp, t'.
  destruct (Symbol_find_ok t x Hwf) as (r&Hr&_). rewrite Hr in *. destruct r as [q|]; destruct Hm as (->&Ha&Hh).
  - split_and!; try done. constructor; [done|]. by rewrite Ha, Hh, length_alter.
  - split_and!; try done. constructor; [done|]. by rewrite Ha, Hh, length_app, seq_app, Hp.
Qed.

(** [Symbol_new] finds or creates: with memory at hand it returns the pointer
    of a symbol that bears the name; when the name was in the table the heap
    keeps its symbols and only the use count of this one grows by one, otherwise
    one fresh symbol with use count one is appended whose type follows the case
    of the first letter; the name is then found under this pointer, every other
    name under the one it had, and the table stays well formed. *)
Theorem Symbol_new_correct t x :
  symtab_ok t → (∀ n, calloc_ok n = true) →
  ∃ sp t', Symbol_new true x t = Ok (sp, t') ∧ symtab_ok t' ∧
    sp_name (sym (sy_heap t') sp) = cs x ∧ Symbol_find t' x = Ok (Some sp) ∧
    (∀ y, y ≠ x → Symbol_find t' y = Symbol_find t y) ∧
    match Symbol_find t x with
    | Ok (Some p) => sp = p ∧ sy_heap t' = alter (λ s, upd_useCnt (sp_useCnt s + 1) s) sp (sy_heap t)
    | _ => sp = length (sy_heap t) ∧ sy_heap t' = sy_heap t ++ [upd_useCnt 1 (new_symbol x)]
    end.
Proof. apply Symbol_new_ok. Qed.
End Symtab.

Definition symtab0 : symtab :=
  mkSymtab [] (mkTable 128 [] (replicate (Z.to_nat 128) None))
    (mkStrsafe 1 (mkTable 1024 [] (replicate (Z.to_nat 1024) None))).
Lemma symtab0_ok : symtab_ok symtab0.
Proof.
  constructor; [constructor; cbn [symtab0 x2a sy_str sy_heap]|reflexivity].
  - apply (x_empty_ok _ _ _ 128 7); [lia|reflexivity].
  - apply (Strsafe_init_ok (λ _, true)). reflexivity.
  - by intros ? ? ?%elem_of_nil.
  - by intros ? ? ?%elem_of_nil.
Qed.

Lemma Symbol_new_correct_witness :
  ∃ sp t', Symbol_new (λ _, true) true ([36] ↾ I) symtab0 = Ok (sp, t') ∧ Symbol_find t' ([36] ↾ I) = Ok (Some sp).
Proof.
  destruct (Symbol_new_correct (λ _, true) symtab0 ([36] ↾ I)) as (sp&t'&H1&_&_&H2&_);
    [exact symtab0_ok|reflexivity|exists sp, t'; split; assumption].
Defined.

(** ** Numbering the symbols: [main] after [Parse] *)

Section Numbering.
Implicit Types (h : list symbol).

(** [a->name[0]>'Z'] compares a signed [char] *)
Definition sym_class (s : symbol) : Z :=
  if decide (sp_type s = MULTITERMINAL) then 3 else if 90 <? swrap 8 (hd 0 (sp_name s)) then 2 else 1.
Definition Symbolcmpp h (a b : nat) : Z :=
  let i1 := sym_class (sym h a) in
  let i2 := sym_class (sym h b) in
  if i1 =? i2 then sp_index (sym h a) - sp_index (sym h b) else i1 - i2.

(** [for(i=0; i<n; i++) symbols[i]->index = i] *)
Fixpoint set_index (i : Z) (symbols : list nat) h : list symbol :=
  match symbols with
  | [] => h
  | p :: symbols => set_index (i + 1) symbols (alter (upd_index i) p h)
  end.

(** [while( symbols[i-1]->type==MULTITERMINAL ){ i--; }] *)
Fixpoint skip_multi h (symbols : list nat) (i : nat) : res nat :=
  match i with
  | O => Err OutOfBounds
  | S k =>
      p ← of_opt OutOfBounds (symbols !! k);
      if decide (sp_type (sym h p) = MULTITERMINAL) then skip_multi h symbols k else Ok i
  end.
(** [for(i=1; ISUPPER(symbols[i]->name[0]); i++)], from position [i] on *)
Fixpoint scan_upper h (symbols : list nat) (i : Z) : res Z :=
  match symbols with
  | [] => Err OutOfBounds
  | p :: symbols => if ISUPPER (hd 0 (sp_name (sym h p))) then scan_upper h symbols (i + 1) else Ok i
  end.

Definition default_name : str := [123; 100; 101; 102; 97; 117; 108; 116; 125].

(** the heap, [symbols], [nsymbol] and [nterminal] *)
Definition index_symbols (t : symtab) : res (list symbol * list nat * Z * Z) :=
  let symbols := Symbol_arrayof t in
  let h := set_index 0 symbols (sy_heap t) in
  let symbols := qsort (Symbolcmpp h) symbols in
  let h := set_index 0 symbols h in
  i ← skip_multi h symbols (length symbols);
  p ← of_opt OutOfBounds (symbols !! (i - 1)%nat);
  if decide (strcmp (sp_name (sym h p)) default_name = 0) then
    let nsymbol := Z.of_nat i - 1 in
    nterminal ← scan_upper h (drop 1 symbols) 1;
    Ok (h, symbols, nsymbol, nterminal)
  else Err ExitCalled.

Lemma set_index_length i ptrs h : length (set_index i ptrs h) = length h.
Proof. revert i h. induction ptrs as [|p ptrs IH]; intros i h; [done|]. cbn. by rewrite IH, length_alter. Qed.

(** only the [index] of the listed symbols changes *)
Lemma set_index_sym i ptrs h q :
  NoDup ptrs → (∀ p, p ∈ ptrs → (p < length h)%nat) →
  (q ∉ ptrs → sym (set_index i ptrs h) q = sym h q) ∧
  (∀ k, ptrs !! k = Some q → sym (set_index i ptrs h) q = upd_index (i + Z.of_nat k) (sym h q)).
Proof.
  revert i h. induction ptrs as [|p ptrs IH]; intros i h Hnd Hlt; [done|].
  apply NoDup_cons in Hnd as [Hp Hnd]. cbn [set_index].
  destruct (IH (i + 1) (alter (upd_index i) p h) Hnd) as [IH1 IH2].
  { intros p' Hp'. rewrite length_alter. apply Hlt. by right. }
  split.
  - intros [Hq Hq']%not_elem_of_cons. rewrite (IH1 Hq'), symtab_sym_alter. by rewrite decide_False by naive_solver.
  - intros [|k] Hk; cbn in Hk.
    + injection Hk as ->. rewrite (IH1 Hp), symtab_sym_alter, decide_True by (split; [done|apply Hlt; by left]).
      f_equal. lia.
    + rewrite (IH2 k Hk), symtab_sym_alter. rewrite decide_False; [f_equal; lia|].
      intros [-> _]. apply Hp. by eapply list_elem_of_lookup_2.
Qed.

Lemma set_index_keeps i ptrs h q : sym_class (sym (set_index i ptrs h) q) = sym_class (sym h q) ∧
  sp_name (sym (set_index i ptrs h) q) = sp_name (sym h q) ∧ sp_type (sym (set_index i ptrs h) q) = sp_type (sym h q).
Proof.
  revert i h. induction ptrs as [|p ptrs IH]; intros i h; [done|]. cbn [set_index].
  destruct (IH (i + 1) (alter (upd_index i) p h)) as (->&->&->). rewrite symtab_sym_alter. case_decide as Hd; [|done].
  by destruct Hd as [-> _].
Qed.

(** the names that reach [main]: "$" first, "{default}" last, letters between,
    and token classes in lower case *)
Record grammar_names h : Prop := {
  gn_dollar : ∃ s, h !! 0%nat = Some s ∧ sp_name s = [36] ∧ sp_type s ≠ MULTITERMINAL;
  gn_default : ∃ s, h !! (length h - 1)%nat = Some s ∧ sp_name s = default_name ∧ sp_type s ≠ MULTITERMINAL;
  gn_other : ∀ i s, (0 < i < length h - 1)%nat → h !! i = Some s →
    (ISUPPER (hd 0 (sp_name s)) = true ∧ sp_type s ≠ MULTITERMINAL) ∨ ISLOWER (hd 0 (sp_name s)) = true;
}.

(** the symbols of one class, in order of creation, "{default}" left out *)
Definition of_class h (c : Z) : list nat := filter (λ p, sym_class (sym h p) = c) (seq 0 (length h - 1)).

Lemma sym_class_range s : sym_class s = 1 ∨ sym_class s = 2 ∨ sym_class s = 3.
Proof. unfold sym_class. repeat case_match; auto. Qed.

Lemma elem_of_class h c p : p ∈ of_class h c ↔ sym_class (sym h p) = c ∧ (p < length h - 1)%nat.
Proof. unfold of_class. rewrite list_elem_of_filter, elem_of_seq. lia. Qed.

Lemma sorted_filter_seq (P : nat → Prop) `{∀ x, Decision (P x)} a n : StronglySorted lt (filter P (seq a n)).
Proof.
  revert a. induction n as [|n IH]; intros a; cbn [seq]; [constructor|]. rewrite filter_cons. case_decide; [|apply IH].
  constructor; [apply IH|]. apply Forall_forall. intros x [_ Hx%elem_of_seq]%list_elem_of_filter. lia.
Qed.

Lemma StronglySorted_impl {A} (R R' : relation A) l :
  (∀ x y, x ∈ l → y ∈ l → R x y → R' x y) → StronglySorted R l → StronglySorted R' l.
Proof.
  intros HR. induction 1 as [|x l Hs IH Hx]; constructor.
  - apply IH. intros. apply HR; [by right..|done].
  - rewrite Forall_forall in *. intros y Hy. apply HR; [by left|by right|by apply Hx].
Qed.

Lemma StronglySorted_of_lookup {A} (R : relation A) (l : list A) :
  (∀ i j x y, (i < j)%nat → l !! i = Some x → l !! j = Some y → R x y) → StronglySorted R l.
Proof.
  induction l as [|x l IH]; intros HR; constructor.
  - apply IH. intros i j y z Hij Hi Hj. by apply (HR (S i) (S j)); [lia|..].
  - apply Forall_forall. intros y [j Hj]%list_elem_of_lookup. by apply (HR 0%nat (S j)); [lia|..].
Qed.

Lemma skip_multi_app h l d ms :
  sp_type (sym h d) ≠ MULTITERMINAL → (∀ p, p ∈ ms → sp_type (sym h p) = MULTITERMINAL) →
  skip_multi h (l ++ d :: ms) (length (l ++ d :: ms)) = Ok (S (length l)).
Proof.
  intros Hd. induction ms as [|m ms IH] using rev_ind; intros Hm.
  - rewrite length_app, Nat.add_1_r. cbn [skip_multi]. rewrite list_lookup_middle by done. cbn [of_opt mbind res_bind].
    by rewrite decide_False.
  - replace (l ++ d :: ms ++ [m]) with ((l ++ d :: ms) ++ [m]) by by rewrite <- app_assoc.
    rewrite length_app, Nat.add_1_r. cbn [skip_multi]. rewrite list_lookup_middle by done. cbn [of_opt mbind res_bind].
    rewrite decide_True by (apply Hm; set_solver).
    rewrite <- IH by (intros; apply Hm; set_solver).
    assert (∀ n k l' : list nat, ∀ i, (i ≤ length n)%nat → skip_multi h (n ++ k) i = skip_multi h n i) as Hpre; [|by apply Hpre].
    intros n k _ i. induction i as [|i IHi]; intros Hi; [done|]. cbn [skip_multi].
    rewrite lookup_app_l by lia. by rewrite IHi by lia.
Qed.

Lemma scan_upper_app h us d l i :
  (∀ p, p ∈ us → ISUPPER (hd 0 (sp_name (sym h p))) = true) → ISUPPER (hd 0 (sp_name (sym h d))) = false →
  scan_upper h (us ++ d :: l) i = Ok (i + zlen us).
Proof.
  revert i. induction us as [|u us IH]; intros i Hu Hd; cbn [app scan_upper].
  - rewrite Hd. f_equal. unfold zlen. cbn. lia.
  - rewrite (Hu u) by by left. rewrite IH by (done || (intros; apply Hu; by right)). f_equal. unfold zlen. cbn [length]. lia.
Qed.

Lemma Symbolcmpp_created h p q :
  (p < length h)%nat → (q < length h)%nat →
  Symbolcmpp (set_index 0 (seq 0 (length h)) h) p q =
    if sym_class (sym h p) =? sym_class (sym h q) then Z.of_nat p - Z.of_nat q
    else sym_class (sym h p) - sym_class (sym h q).
Proof.
  intros Hp Hq. unfold Symbolcmpp.
  assert (∀ r, (r < length h)%nat → sym (set_index 0 (seq 0 (length h)) h) r = upd_index (Z.of_nat r) (sym h r)) as Hr.
  { intros r Hr. rewrite (proj2 (set_index_sym 0 (seq 0 (length h)) h r (NoDup_seq _ _)
      ltac:(intros ? ?%elem_of_seq; lia)) r); [done|]. by apply lookup_seq. }
  by rewrite !Hr.
Qed.

(** the order the sort produces: the tokens, the nonterminals, "{default}", the
    token classes *)
Lemma symbols_sorted h :
  grammar_names h →
  qsort (Symbolcmpp (set_index 0 (seq 0 (length h)) h)) (seq 0 (length h)) =
    of_class h 1 ++ of_class h 2 ++ (length h - 1)%nat :: of_class h 3.
Proof.
  intros Hg. set (cmp := Symbolcmpp (set_index 0 (seq 0 (length h)) h)).
  destruct (gn_default _ Hg) as (d&Hd&Hdn&Hdt).
  pose proof (lookup_lt_Some _ _ _ Hd) as Hlen.
  assert (sym_class (sym h (length h - 1)) = 2) as Hdc.
  { rewrite (sym_lookup _ _ _ Hd). unfold sym_class. rewrite decide_False by done. by rewrite Hdn. }
  pose proof (Symbolcmpp_created h : ∀ p q, (p < length h)%nat → (q < length h)%nat → cmp p q = _) as Hcmp.
  assert (∀ p, p ∈ seq 0 (length h) → (p < length h)%nat) as Hin by (intros p ?%elem_of_seq; lia).
  assert (of_class h 1 ++ of_class h 2 ++ (length h - 1)%nat :: of_class h 3 ≡ₚ seq 0 (length h)) as Hperm.
  { apply NoDup_Permutation.
    - rewrite NoDup_app, NoDup_app, NoDup_cons. setoid_rewrite elem_of_cons. setoid_rewrite elem_of_app.
      setoid_rewrite elem_of_cons. setoid_rewrite elem_of_class. unfold of_class.
      split_and!; try (apply NoDup_filter, NoDup_seq); intros; lia || (rewrite ?Hdc; naive_solver lia).
    - apply NoDup_seq.
    - intros p. rewrite elem_of_seq, !elem_of_app, elem_of_cons, !elem_of_class.
      pose proof (sym_class_range (sym h p)). split; [lia|]. intros [_ Hp].
      destruct (decide (p = length h - 1)%nat); [naive_solver|]. destruct_or!; [left|right;left|right;right]; lia. }
  apply (StronglySorted_unique_strong (cle cmp)).
  - intros p q Hp Hq. rewrite qsort_perm in Hp. rewrite Hperm in Hq. unfold cle. rewrite !Hcmp by auto.
    repeat case_match; lia.
  - apply qsort_sorted.
    + intros p q Hp Hq. rewrite !Hcmp by auto. repeat case_match; lia.
    + intros p q r Hp Hq Hr. rewrite !Hcmp by auto. repeat case_match; lia.
  - assert (∀ c, StronglySorted (cle cmp) (of_class h c)) as Hs.
    { intros c. eapply StronglySorted_impl, sorted_filter_seq. intros p q [Hpc Hp]%elem_of_class [Hqc Hq]%elem_of_class Hlt.
      unfold cle. rewrite Hcmp by lia. rewrite Hpc, Hqc, Z.eqb_refl. lia. }
    apply StronglySorted_app_2; [|apply Hs|apply StronglySorted_app_2; [|apply Hs|constructor; [apply Hs|]]].
    + intros p q [Hpc Hp]%elem_of_class Hq. unfold cle. 
      rewrite elem_of_app, elem_of_cons, !elem_of_class in Hq. destruct Hq as [[Hqc Hq]|[->|[Hqc Hq]]];
      (rewrite Hcmp by lia; rewrite Hpc, ?Hqc, ?Hdc; done).
    + intros p q [Hpc Hp]%elem_of_class Hq. unfold cle.
      rewrite elem_of_cons, !elem_of_class in Hq. destruct Hq as [->|[Hqc Hq]];
      (rewrite Hcmp by lia; rewrite Hpc, ?Hqc, ?Hdc); [rewrite Z.eqb_refl; lia|done].
    + apply Forall_forall. intros q [Hqc Hq]%elem_of_class. unfold cle. rewrite Hcmp by lia. by rewrite Hqc, Hdc.
  - by rewrite qsort_perm, Hperm.
Qed.

(** a letter decides the class of a name *)
Lemma upper_class h p :
  grammar_names h → (0 < p < length h - 1)%nat →
  (ISUPPER (hd 0 (sp_name (sym h p))) = true ↔ sym_class (sym h p) = 1).
Proof.
  intros Hg Hp'. destruct (lookup_lt_is_Some_2 h p) as [s Hs]; [lia|]. rewrite (sym_lookup _ _ _ Hs).
  unfold sym_class, ISUPPER. destruct (gn_other _ Hg p s Hp' Hs) as [[Hu Ht]|Hlo].
  - rewrite decide_False by done. unfold ISUPPER in Hu. rewrite Hu.
    apply andb_true_iff in Hu as [?%Z.leb_le ?%Z.leb_le].
    unfold swrap. rewrite Z.mod_small by (cbn; lia).
    destruct (Z.ltb_spec 90 (hd 0 (sp_name s) + 2 ^ (8 - 1) - 2 ^ (8 - 1))); [lia|done].
  - unfold ISLOWER in Hlo. apply andb_true_iff in Hlo as [?%Z.leb_le ?%Z.leb_le].
    unfold swrap. rewrite Z.mod_small by (cbn; lia). split.
    + intros [?%Z.leb_le ?%Z.leb_le]%andb_true_iff. lia.
    + repeat case_match; try done; lia.
Qed.

(** "$" leads the tokens, the other tokens are upper case, and what follows is not *)
Lemma first_classes h :
  grammar_names h →
  ∃ us e l, of_class h 1 = 0%nat :: us ∧ of_class h 2 ++ (length h - 1)%nat :: of_class h 3 = e :: l ∧
    (∀ p, p ∈ us → ISUPPER (hd 0 (sp_name (sym h p))) = true) ∧ ISUPPER (hd 0 (sp_name (sym h e))) = false.
Proof.
  intros Hg. destruct (gn_default _ Hg) as (d&Hd&Hdn&Hdt). pose proof (sym_lookup _ _ _ Hd) as Hds.
  destruct (gn_dollar _ Hg) as (z&Hz&Hzn&Hzt). pose proof (sym_lookup _ _ _ Hz) as Hzs.
  assert (1 < length h)%nat as Hlen.
  { pose proof (lookup_lt_Some _ _ _ Hd). destruct (decide (length h - 1 = 0)%nat) as [E|]; [|lia].
    rewrite E, Hz in Hd. injection Hd as ->. by rewrite Hzn in Hdn. }
  assert (of_class h 1 = 0%nat :: filter (λ p, sym_class (sym h p) = 1) (seq 1 (length h - 2))) as H1.
  { unfold of_class. replace (length h - 1)%nat with (S (length h - 2)) by lia. cbn [seq]. rewrite filter_cons, decide_True; [done|].
    rewrite Hzs. unfold sym_class. rewrite decide_False by done. by rewrite Hzn. }
  assert (∃ e l, of_class h 2 ++ (length h - 1)%nat :: of_class h 3 = e :: l ∧
    ISUPPER (hd 0 (sp_name (sym h e))) = false) as (e&l&Hel&He).
  { destruct (of_class h 2) as [|e l'] eqn:E2.
    - exists (length h - 1)%nat, (of_class h 3). split; [done|]. by rewrite Hds, Hdn.
    - exists e, (l' ++ (length h - 1)%nat :: of_class h 3). split; [done|].
      assert (e ∈ of_class h 2) as [Hec Hel]%elem_of_class by (rewrite E2; by left).
      apply not_true_is_false. intros Hue. destruct (decide (e = 0)%nat) as [->|].
      + rewrite Hzs, Hzn in Hue. done.
      + apply upper_class in Hue; [lia|done|lia]. }
  eexists _, e, l. split_and!; [exact H1|done| |done].
  intros p [Hpc Hps%elem_of_seq]%list_elem_of_filter. apply upper_class; [done|lia|done].
Qed.

(** C35: The numbering of the symbols: for a table with the names a grammar can
    have, the sorted array lists the tokens ("$" first), then the nonterminals,
    then "{default}", then the token classes, each group in order of creation;
    [nterminal] and [nsymbol] are the ends of the first two groups, the assertion
    on "{default}" holds, and the [index] of every symbol is its position. *)
Theorem index_symbols_correct t :
  symtab_ok t → grammar_names (sy_heap t) →
  let h := sy_heap t in
  let symbols := of_class h 1 ++ of_class h 2 ++ (length h - 1)%nat :: of_class h 3 in
  ∃ h', index_symbols t = Ok (h', symbols, zlen (of_class h 1) + zlen (of_class h 2), zlen (of_class h 1)) ∧
    length h' = length h ∧ symbols ≡ₚ seq 0 (length h) ∧
    (∀ i p, symbols !! i = Some p → sym h' p = upd_index (Z.of_nat i) (sym h p)).
Proof.
  intros Hok Hg. cbn zeta. unfold index_symbols. rewrite (sy_ptrs _ Hok). set (h := sy_heap t) in *.
  assert (qsort (Symbolcmpp (set_index 0 (seq 0 (length h)) h)) (seq 0 (length h)) ≡ₚ seq 0 (length h)) as Hp by apply qsort_perm.
  rewrite (symbols_sorted h Hg) in *. set (symbols := of_class h 1 ++ of_class h 2 ++ (length h - 1)%nat :: of_class h 3) in *.
  set (h1 := set_index 0 (seq 0 (length h)) h). set (h2 := set_index 0 symbols h1).
  assert (∀ q, sym_class (sym h2 q) = sym_class (sym h q) ∧ sp_name (sym h2 q) = sp_name (sym h q) ∧
    sp_type (sym h2 q) = sp_type (sym h q)) as Hk.
  { intros q. unfold h2, h1. destruct (set_index_keeps 0 symbols (set_index 0 (seq 0 (length h)) h) q) as (->&->&->).
    apply set_index_keeps. }
  destruct (gn_default _ Hg) as (d&Hd&Hdn&Hdt). pose proof (sym_lookup _ _ _ Hd) as Hds.
  exists h2. assert (length h2 = length h) as Hl2 by (unfold h2, h1; by rewrite !set_index_length).
  assert (symbols = (of_class h 1 ++ of_class h 2) ++ (length h - 1)%nat :: of_class h 3) as Hsym
    by (unfold symbols; by rewrite app_assoc).
  assert (skip_multi h2 symbols (length symbols) = Ok (S (length (of_class h 1 ++ of_class h 2)))) as ->.
  { rewrite Hsym. apply skip_multi_app.
    - destruct (Hk (length h - 1)%nat) as (_&_&->). rewrite Hds. done.
    - intros p [Hpc _]%elem_of_class. destruct (Hk p) as (_&_&->). unfold sym_class in Hpc. repeat case_match; done. }
  cbn [mbind res_bind].
  assert (symbols !! (S (length (of_class h 1 ++ of_class h 2)) - 1)%nat = Some (length h - 1)%nat) as ->
    by (rewrite Hsym, Nat.sub_1_r; by apply list_lookup_middle).
  cbn [of_opt mbind res_bind]. destruct (Hk (length h - 1)%nat) as (_&->&_).
  rewrite Hds, Hdn, decide_True by reflexivity.
  destruct (first_classes h Hg) as (us&e&l'&H1&Hel&Hus&He).
  assert (scan_upper h2 (drop 1 symbols) 1 = Ok (zlen (of_class h 1))) as ->.
  { unfold symbols. rewrite Hel, H1. change (drop 1 ((0%nat :: us) ++ e :: l')) with (us ++ e :: l').
    rewrite scan_upper_app.
    - f_equal. unfold zlen. cbn [length]. lia.
    - intros p Hp'. destruct (Hk p) as (_&->&_). by apply Hus.
    - by destruct (Hk e) as (_&->&_). }
  cbn [mbind res_bind]. split_and!; [|done|done|].
  - do 3 f_equal. rewrite length_app. unfold zlen. lia.
  - intros i p Hi. assert (p ∈ seq 0 (length h)) as Hps%elem_of_seq by (rewrite <- Hp; by eapply list_elem_of_lookup_2).
    unfold h2. rewrite (proj2 (set_index_sym 0 symbols h1 p ltac:(rewrite Hp; apply NoDup_seq)
      ltac:(unfold h1; rewrite set_index_length; intros ?; rewrite Hp; intros ?%elem_of_seq; lia)) i Hi).
    unfold h1. rewrite (proj2 (set_index_sym 0 (seq 0 (length h)) h p ltac:(apply NoDup_seq)
      ltac:(intros ? ?%elem_of_seq; lia)) p); [done|]. apply lookup_seq. lia.
Qed.
End Numbering.

(** "$", "expr", a token class "any", "ID" and "{default}", as [main] would have read them *)
Definition add_names (names : list cstr) (t : symtab) : res symtab :=
  foldl (λ r x, let* t := r in let* (_, t) := Symbol_new (λ _, true) true x t in Ok t) (Ok t) names.
Lemma add_names_ok names t : symtab_ok t → ∃ t', add_names names t = Ok t' ∧ symtab_ok t'.
Proof.
  unfold add_names. revert t. induction names as [|x names IH]; intros t Ht; [by exists t|]. cbn [foldl].
  destruct (Symbol_new_ok (λ _, true) t x Ht) as (sp&t'&->&Ht'&_); [done|]. by apply IH.
Qed.
Definition symtab5 : symtab :=
  match add_names [[36] ↾ I; [101; 120; 112; 114] ↾ I; [97; 110; 121] ↾ I; [73; 68] ↾ I; default_name ↾ I] symtab0 with
  | Ok t =>
      mkSymtab (alter (λ s, mkSymbol (sp_name s) (sp_index s) MULTITERMINAL (sp_rule s) (sp_fallback s) (sp_prec s)
        (sp_assoc s) (sp_firstset s) (sp_lambda s) (sp_useCnt s) (sp_destructor s) (sp_destLineno s) (sp_datatype s)
        (sp_dtnum s) (sp_bContent s) [3%nat]) 2%nat (sy_heap t)) (x2a t) (sy_str t)
  | Err _ => symtab0
  end.
Lemma symtab5_ok : symtab_ok symtab5.
Proof.
  unfold symtab5. destruct (add_names_ok [[36] ↾ I; [101; 120; 112; 114] ↾ I; [97; 110; 121] ↾ I; [73; 68] ↾ I; default_name ↾ I] symtab0)
    as (t&->&Ht); [apply symtab0_ok|]. by apply symtab_ok_alter.
Qed.

Lemma index_symbols_correct_witness :
  grammar_names (sy_heap symtab5) ∧ ∃ h, index_symbols symtab5 = Ok (h, [0; 3; 1; 4; 2]%nat, 3, 2).
Proof.
  assert (grammar_names (sy_heap symtab5)) as Hg.
  { constructor.
    - eexists. split; [vm_compute; reflexivity|]. split; [reflexivity|discriminate].
    - eexists. split; [vm_compute; reflexivity|]. split; [reflexivity|discriminate].
    - intros i s Hi. change (length (sy_heap symtab5) - 1)%nat with 4%nat in Hi.
      destruct i as [|[|[|[|i]]]]; try lia; vm_compute; intros [= <-]; auto.
      left. split; [reflexivity|discriminate]. }
  split; [exact Hg|]. destruct (index_symbols_correct symtab5 symtab5_ok Hg) as (h&H&_).
  exists h. rewrite H. vm_compute. reflexivity.
Defined.

(** ** Numbering the rules *)

Definition rule0 : rule :=
  mkRule 0 None false 0 [] [] 0 None None None None 0 0 false false false false false.
Definition rul (rs : list rule) (i : nat) : rule := default rule0 (rs !! i).
Definition upd_iRule (i : Z) (r : rule) : rule :=
  mkRule (rp_lhs r) (rp_lhsalias r) (rp_lhsStart r) (rp_ruleline r) (rp_rhs r) (rp_rhsalias r) (rp_line r)
    (rp_code r) (rp_codePrefix r) (rp_codeSuffix r) (rp_precsym r) (rp_index r) i (rp_noCode r)
    (rp_codeEmitted r) (rp_canReduce r) (rp_doesReduce r) (rp_neverReduce r).

Section Rules.
Implicit Types (rs : list rule) (l : list nat).

(** [rp->iRule = rp->code ? i++ : -1] along the list of rules *)
Fixpoint number_coded (i : Z) l rs : Z * list rule :=
  match l with
  | [] => (i, rs)
  | p :: l =>
      match rp_code (rul rs p) with
      | Some _ => number_coded (i + 1) l (alter (upd_iRule i) p rs)
      | None => number_coded i l (alter (upd_iRule (-1)) p rs)
      end
  end.
(** [if( rp->iRule<0 ) rp->iRule = i++] *)
Fixpoint number_rest (i : Z) l rs : list rule :=
  match l with
  | [] => rs
  | p :: l =>
      if rp_iRule (rul rs p) <? 0 then number_rest (i + 1) l (alter (upd_iRule i) p rs)
      else number_rest i l rs
  end.
(** the rules, [nruleWithAction] and the sorted list *)
Definition number_rules l rs : list rule * Z * list nat :=
  let '(i, rs) := number_coded 0 l rs in
  let rs := number_rest i l rs in
  (rs, i, Rule_sort (λ p, rp_iRule (rul rs p)) l).

Lemma rul_alter f p rs i :
  rul (alter f p rs) i = if decide (i = p ∧ (p < length rs)%nat) then f (rul rs p) else rul rs i.
Proof.
  unfold rul. destruct (decide (i = p)) as [->|Hne].
  - rewrite list_lookup_alter_eq. destruct (rs !! p) as [s|] eqn:E.
    + rewrite decide_True; [done|]. split; [done|]. by eapply lookup_lt_Some.
    + rewrite decide_False; [done|]. intros [_ [? Hs]%lookup_lt_is_Some_2]. congruence.
  - rewrite list_lookup_alter_ne by done. rewrite decide_False; [done|]. naive_solver.
Qed.

Notation coded rs := (λ p, is_Some (rp_code (rul rs p))).
Notation negative rs := (λ p, rp_iRule (rul rs p) < 0).

Lemma filter_cons_ext {A} (P Q : A → Prop) `{∀ x, Decision (P x), ∀ x, Decision (Q x)} (l : list A) :
  (∀ x, x ∈ l → P x ↔ Q x) → filter P l = filter Q l.
Proof.
  induction l as [|x l IH]; intros HPQ; [done|]. rewrite !filter_cons.
  pose proof (HPQ x ltac:(by left)). rewrite IH by (intros; apply HPQ; by right).
  repeat case_decide; tauto.
Qed.

Lemma number_coded_cons i p l rs :
  number_coded i (p :: l) rs =
    if decide (is_Some (rp_code (rul rs p))) then number_coded (i + 1) l (alter (upd_iRule i) p rs)
    else number_coded i l (alter (upd_iRule (-1)) p rs).
Proof.
  cbn [number_coded]. case_decide as Hd; [by destruct Hd as [c ->]|].
  destruct (rp_code (rul rs p)); [|done]. by destruct Hd.
Qed.

Lemma number_coded_spec i l rs :
  NoDup l → (∀ p, p ∈ l → (p < length rs)%nat) →
  ∃ rs', number_coded i l rs = (i + zlen (filter (coded rs) l), rs') ∧ length rs' = length rs ∧
    (∀ p, ∃ n, rul rs' p = upd_iRule n (rul rs p)) ∧ (∀ p, p ∉ l → rul rs' p = rul rs p) ∧
    (∀ p, p ∈ l → ¬ coded rs p → rp_iRule (rul rs' p) = -1) ∧
    (∀ k p, filter (coded rs) l !! k = Some p → rp_iRule (rul rs' p) = i + Z.of_nat k).
Proof.
  revert i rs. induction l as [|p l IH]; intros i rs Hnd Hlt.
  { exists rs. rewrite filter_nil. split_and!; [by rewrite Z.add_0_r|done| |done|..].
    - intros p. exists (rp_iRule (rul rs p)). by destruct (rul rs p).
    - by intros p ?%elem_of_nil.
    - done. }
  apply NoDup_cons in Hnd as [Hp Hnd]. rewrite number_coded_cons.
  assert (∀ v, ∃ rs', number_coded (if decide (coded rs p) then i + 1 else i) l (alter (upd_iRule v) p rs) =
     ((if decide (coded rs p) then i + 1 else i) + zlen (filter (coded rs) l), rs') ∧ length rs' = length rs ∧
    (∀ q, ∃ n, rul rs' q = upd_iRule n (rul rs q)) ∧ (∀ q, q ∉ l → rul rs' q = rul (alter (upd_iRule v) p rs) q) ∧
    (∀ q, q ∈ l → ¬ coded rs q → rp_iRule (rul rs' q) = -1) ∧
    (∀ k q, filter (coded rs) l !! k = Some q → rp_iRule (rul rs' q) = (if decide (coded rs p) then i + 1 else i) + Z.of_nat k)) as Hgo.
  { intros v. set (j := if decide (coded rs p) then i + 1 else i).
    destruct (IH j (alter (upd_iRule v) p rs) Hnd) as (rs'&Hn&Hl&Hsame&Hout&Hunc&Hco).
    { intros q Hq. rewrite length_alter. apply Hlt. by right. }
    assert (∀ q, rp_code (rul (alter (upd_iRule v) p rs) q) = rp_code (rul rs q)) as Hc.
    { intros q. rewrite rul_alter. case_decide as Hd; [by destruct Hd as [-> _]|done]. }
    assert (filter (coded (alter (upd_iRule v) p rs)) l = filter (coded rs) l) as Hf
      by (apply filter_cons_ext; intros; by rewrite Hc).
    rewrite Hf in *. exists rs'. split_and!; [done|by rewrite Hl, length_alter| |done|..].
    - intros q. destruct (Hsame q) as [n Hq]. rewrite Hq, rul_alter. case_decide as Hd; [destruct Hd as [-> _]|]; by exists n.
    - intros q Hq Hnc. apply Hunc; [done|]. by rewrite Hc.
    - done. }
  assert (rul (alter (upd_iRule (-1)) p rs) p = upd_iRule (-1) (rul rs p) ∧
          rul (alter (upd_iRule i) p rs) p = upd_iRule i (rul rs p)) as [Hpm Hpi].
  { split; rewrite rul_alter, decide_True; (split; [done|apply Hlt; by left]) || done. }
  rewrite filter_cons. destruct (decide (is_Some (rp_code (rul rs p)))) as [His|Hno].
  - destruct (Hgo i) as (rs'&Hn&Hl&Hsame&Hout&Hunc&Hco). exists rs'. split_and!; [|done|done|..].
    + rewrite Hn. f_equal. unfold zlen. cbn [length]. lia.
    + intros q [Hq Hq']%not_elem_of_cons. rewrite (Hout q Hq'), rul_alter, decide_False; [done|]. naive_solver.
    + intros q [->|Hq]%elem_of_cons Hnc; [done|by apply Hunc].
    + intros [|k] q Hk; cbn in Hk; [|rewrite (Hco k q Hk); lia]. injection Hk as ->. rewrite (Hout q Hp), Hpi. cbn. lia.
  - destruct (Hgo (-1)) as (rs'&Hn&Hl&Hsame&Hout&Hunc&Hco). exists rs'. split_and!; [done|done|done|..].
    + intros q [Hq Hq']%not_elem_of_cons. rewrite (Hout q Hq'), rul_alter, decide_False; [done|]. naive_solver.
    + intros q [->|Hq]%elem_of_cons Hnc; [by rewrite (Hout p Hp), Hpm|by apply Hunc].
    + done.
Qed.

Lemma number_rest_spec i l rs :
  NoDup l → (∀ p, p ∈ l → (p < length rs)%nat) →
  (∀ p, ∃ n, rul (number_rest i l rs) p = upd_iRule n (rul rs p)) ∧
  (∀ p, p ∉ l ∨ ¬ negative rs p → rul (number_rest i l rs) p = rul rs p) ∧
  (∀ k p, filter (negative rs) l !! k = Some p → rp_iRule (rul (number_rest i l rs) p) = i + Z.of_nat k).
Proof.
  revert i rs. induction l as [|p l IH]; intros i rs Hnd Hlt.
  { split_and!; [|done|done]. intros p. exists (rp_iRule (rul rs p)). cbn. by destruct (rul rs p). }
  apply NoDup_cons in Hnd as [Hp Hnd]. cbn [number_rest]. rewrite filter_cons.
  destruct (Z.ltb_spec (rp_iRule (rul rs p)) 0) as [Hneg|Hpos].
  - rewrite decide_True by done. set (rs1 := alter (upd_iRule i) p rs).
    destruct (IH (i + 1) rs1 Hnd) as (H1&H2&H3).
    { intros q Hq. unfold rs1. rewrite length_alter. apply Hlt. by right. }
    assert (∀ q, q ≠ p → rul rs1 q = rul rs q) as Hq1.
    { intros q Hq. unfold rs1. rewrite rul_alter, decide_False; [done|]. naive_solver. }
    assert (rul rs1 p = upd_iRule i (rul rs p)) as Hp1.
    { unfold rs1. rewrite rul_alter, decide_True; [done|]. split; [done|]. apply Hlt. by left. }
    assert (filter (negative rs1) l = filter (negative rs) l) as Hf.
    { apply filter_cons_ext. intros q Hq. rewrite Hq1; [done|]. by intros ->. }
    rewrite Hf in H3. split_and!.
    + intros q. destruct (H1 q) as [n ->]. destruct (decide (q = p)) as [->|Hq]; [rewrite Hp1|rewrite Hq1 by done]; by exists n.
    + intros q Hq. assert (q ≠ p) as Hqp by (intros ->; destruct Hq as [Hq|Hq]; [apply Hq; by left|lia]).
      rewrite <- (Hq1 q Hqp). apply H2. rewrite (Hq1 q Hqp). destruct Hq as [Hq|Hq]; [left; set_solver|by right].
    + intros [|k] q Hk; cbn in Hk; [|rewrite (H3 k q Hk); lia]. injection Hk as <-.
      rewrite (H2 p) by (by left). rewrite Hp1. cbn. lia.
  - rewrite decide_False by lia. destruct (IH i rs Hnd) as (H1&H2&H3); [intros; apply Hlt; by right|].
    split_and!; [done| |done]. intros q [Hq|Hq]; apply H2; [left; set_solver|by right].
Qed.

(** The numbering of the rules: the rules with C code get the numbers from 0
    to [nruleWithAction]-1 and the others the numbers after those, both in the
    order of the grammar; nothing else of a rule changes; and the sorted list
    holds every rule at the position that is its number. *)
Theorem number_rules_correct l rs :
  NoDup l → (∀ p, p ∈ l → (p < length rs)%nat) → (length l < 2 ^ 32)%nat →
  ∃ rs' l', number_rules l rs = (rs', zlen (filter (coded rs) l), l') ∧
    l' = filter (coded rs) l ++ filter (λ p, ¬ is_Some (rp_code (rul rs p))) l ∧
    (∀ k p, l' !! k = Some p → rp_iRule (rul rs' p) = Z.of_nat k) ∧
    (∀ p, ∃ n, rul rs' p = upd_iRule n (rul rs p)).
Proof.
  intros Hnd Hlt Hlen. unfold number_rules.
  destruct (number_coded_spec 0 l rs Hnd Hlt) as (rs1&->&Hl1&Hs1&_&Hu1&Hc1). rewrite Z.add_0_l.
  destruct (number_rest_spec (zlen (filter (coded rs) l)) l rs1 Hnd) as (Hs2&Ho2&Hn2); [by rewrite Hl1|].
  set (n := zlen (filter (coded rs) l)) in *. set (rs2 := number_rest n l rs1) in *.
  set (l' := filter (coded rs) l ++ filter (λ p, ¬ is_Some (rp_code (rul rs p))) l).
  assert (∀ p, p ∈ l → coded rs p → ¬ negative rs1 p) as Hcn.
  { intros p Hp Hc. assert (p ∈ filter (coded rs) l) as [k Hk]%list_elem_of_lookup by (by apply list_elem_of_filter).
    rewrite (Hc1 k p Hk). lia. }
  assert (filter (negative rs1) l = filter (λ p, ¬ is_Some (rp_code (rul rs p))) l) as Hf.
  { apply filter_cons_ext. intros p Hp. split; [intros ? ?; by apply (Hcn p)|]. intros Hnc. rewrite Hu1 by done. lia. }
  assert (∀ k p, l' !! k = Some p → rp_iRule (rul rs2 p) = Z.of_nat k) as Hnum.
  { intros k p [Hk|[Hge Hk]]%lookup_app_Some.
    - rewrite Ho2, (Hc1 k p Hk); [lia|]. right. apply list_elem_of_lookup_2, list_elem_of_filter in Hk as [? ?]. by apply Hcn.
    - rewrite <- Hf in Hk. rewrite (Hn2 _ _ Hk). unfold n, zlen. lia. }
  exists rs2, l'. split_and!; [|done|done|].
  - f_equal. destruct (Rule_sort_ok (λ p, rp_iRule (rul rs2 p)) l Hlen) as [Hsort Hperm].
    assert (l' ≡ₚ l) as Hpl' by apply filter_app_complement.
    apply (StronglySorted_unique_strong (rle (λ p, rp_iRule (rul rs2 p)))); [|done| |by rewrite Hpl'].
    + intros x y Hx Hy. rewrite Hperm, <- Hpl' in Hx. unfold rle.
      apply list_elem_of_lookup in Hx as [i Hi], Hy as [j Hj]. rewrite (Hnum _ _ Hi), (Hnum _ _ Hj). intros.
      assert (i = j) as -> by lia. congruence.
    + revert Hnum. generalize l'. intros k Hk. apply StronglySorted_of_lookup. intros i j x y Hij Hi Hj.
      unfold rle. rewrite (Hk _ _ Hi), (Hk _ _ Hj). lia.
  - intros p. destruct (Hs2 p) as [a ->], (Hs1 p) as [b ->]. by exists a.
Qed.
End Rules.

Lemma number_rules_correct_witness :
  ∃ rs', number_rules [0; 1; 2]%nat [upd_iRule 9 rule0; upd_iRule 8 rule0;
    mkRule 0 None false 0 [] [] 0 (Some [123; 125]) None None None 0 0 false false false false false]
    = (rs', 1, [2; 0; 1]%nat) ∧ rp_iRule (rul rs' 2) = 0.
Proof.
  destruct (number_rules_correct [0; 1; 2]%nat [upd_iRule 9 rule0; upd_iRule 8 rule0;
    mkRule 0 None false 0 [] [] 0 (Some [123; 125]) None None None 0 0 false false false false false])
    as (rs'&l'&H1&H2&H3&_).
  - apply (bool_decide_unpack _). vm_compute. exact I.
  - intros p Hp. cbn [length]. rewrite !elem_of_cons in Hp. destruct Hp as [->|[->|[->|Hp]]]; [lia..|by apply elem_of_nil in Hp].
  - cbn [length]. apply (Nat.lt_le_trans 3 (2 ^ 2)); [cbn; lia|]. apply Nat.pow_le_mono_r; lia.
  - exists rs'. vm_compute in H2. subst l'. split; [exact H1|]. apply (H3 0%nat 2%nat). reflexivity.
Defined.
