(* ===== verification/LemonActions.v ===== *)
(** Parser actions in the generator ([src/sql/lemon.c]): allocation, order and
    sorting ("action.c"), the reduce actions and the resolution of conflicts
    ([FindActions], [resolve_conflict]), the numbers actions get in the tables
    ([compute_action]). *)
From stdpp Require Import sorting.
From S2P Require Import Prelude LemonData LemonTable LemonSort LemonFirst LemonSymbol.

Definition upd_type (t : e_action) (a : action) : action :=
  mkAction (ap_addr a) (ap_sp a) t (ap_x a) (ap_spOpt a).
Definition upd_ap (l : list action) (s : state) : state :=
  mkState (stp_bp s) (stp_cfp s) (stp_statenum s) l (stp_nTknAct s) (stp_nNtAct s) (stp_iTknOfst s)
    (stp_iNtOfst s) (stp_iDfltReduce s) (stp_pDfltReduce s) (stp_autoReduce s).
Definition state0 : state := mkState [] [] 0 [] 0 0 0 0 0 None false.
Definition stt (ss : list state) (i : nat) : state := default state0 (ss !! i).

(** ** Allocation: blocks of 100 actions, cut into a free list *)

Section Alloc.
(** the address the [n]-th [calloc] returns, if it succeeds *)
Context (calloc : nat → option Z).

Record apool := mkApool { ap_blocks : nat; actionfreelist : list Z }.

Definition Action_new (st : apool) : res (Z * apool) :=
  match actionfreelist st with
  | a :: l => Ok (a, mkApool (ap_blocks st) l)
  | [] =>
      match calloc (ap_blocks st) with
      | None => Err ExitCalled
      | Some base =>
          Ok (base, mkApool (S (ap_blocks st)) ((λ i : nat, base + Z.of_nat i) <$> seq 1 99))
      end
  end.

Definition Action_add (app : list action) (type : e_action) (sp : nat) (arg : action_arg) (st : apool) :
    res (list action * apool) :=
  let* (newaction, st) := Action_new st in
  Ok (mkAction newaction sp type arg None :: app, st).
End Alloc.

(** ** Order *)

Section Order.
Context (ss : list symbol) (rs : list rule).

(** [ap->x.rp->index]; a reduce action carries a rule *)
Definition x_rule_index (x : action_arg) : Z :=
  match x with XRule rp => rp_index (rul rs rp) | _ => 0 end.

(** [ap2 - ap1] compares addresses *)
Definition actioncmp (ap1 ap2 : action) : Z :=
  let rc := sp_index (sym ss (ap_sp ap1)) - sp_index (sym ss (ap_sp ap2)) in
  let rc := if rc =? 0 then action_ord (ap_type ap1) - action_ord (ap_type ap2) else rc in
  let rc := if (rc =? 0) && bool_decide (ap_type ap1 = REDUCE ∨ ap_type ap1 = SHIFTREDUCE)
            then x_rule_index (ap_x ap1) - x_rule_index (ap_x ap2) else rc in
  if rc =? 0 then ap_addr ap2 - ap_addr ap1 else rc.

Definition Action_sort (l : list action) : list action := msort actioncmp l.

(** ** Conflicts *)

Definition is_resolved (t : e_action) : bool :=
  bool_decide (t ∈ [SH_RESOLVED; RD_RESOLVED; SSCONFLICT; SRCONFLICT; RRCONFLICT]).

(** the precedence symbol of the rule of a reduce action *)
Definition x_precsym (x : action_arg) : option symbol :=
  match x with XRule rp => sym ss <$> rp_precsym (rul rs rp) | _ => None end.

(** the number of conflicts and the two actions *)
Definition resolve_conflict (apx apy : action) : res (Z * action * action) :=
  if decide (ap_sp apx = ap_sp apy) then
    let '(errcnt, apy) :=
      if decide (ap_type apx = SHIFT ∧ ap_type apy = SHIFT) then (1, upd_type SSCONFLICT apy) else (0, apy) in
    if decide (ap_type apx = SHIFT ∧ ap_type apy = REDUCE) then
      let spx := sym ss (ap_sp apx) in
      match x_precsym (ap_x apy) with
      | None => Ok (errcnt + 1, apx, upd_type SRCONFLICT apy)
      | Some spy =>
          if (sp_prec spx <? 0) || (sp_prec spy <? 0) then Ok (errcnt + 1, apx, upd_type SRCONFLICT apy)
          else if sp_prec spx >? sp_prec spy then Ok (errcnt, apx, upd_type RD_RESOLVED apy)
          else if sp_prec spx <? sp_prec spy then Ok (errcnt, upd_type SH_RESOLVED apx, apy)
          else if decide (sp_assoc spx = RIGHT) then Ok (errcnt, apx, upd_type RD_RESOLVED apy)
          else if decide (sp_assoc spx = LEFT) then Ok (errcnt, upd_type SH_RESOLVED apx, apy)
          else if decide (sp_assoc spx = NONE) then Ok (errcnt, upd_type ERROR apx, apy)
          else Err ExitCalled
      end
    else if decide (ap_type apx = REDUCE ∧ ap_type apy = REDUCE) then
      match x_precsym (ap_x apx), x_precsym (ap_x apy) with
      | Some spx, Some spy =>
          if (sp_prec spx <? 0) || (sp_prec spy <? 0) || (sp_prec spx =? sp_prec spy)
          then Ok (errcnt + 1, apx, upd_type RRCONFLICT apy)
          else if sp_prec spx >? sp_prec spy then Ok (errcnt, apx, upd_type RD_RESOLVED apy)
          else Ok (errcnt, upd_type RD_RESOLVED apx, apy)
      | _, _ => Ok (errcnt + 1, apx, upd_type RRCONFLICT apy)
      end
    else if is_resolved (ap_type apx) || is_resolved (ap_type apy) then Ok (errcnt, apx, apy)
    else Err ExitCalled
  else Err ExitCalled.

(** the inner loop: [ap] against the actions after it with the same lookahead *)
Fixpoint resolve_row (ap : action) (l : list action) : res (Z * action * list action) :=
  match l with
  | [] => Ok (0, ap, [])
  | nap :: l' =>
      if decide (ap_sp nap = ap_sp ap) then
        let* (n, ap, nap) := resolve_conflict ap nap in
        let* (m, ap, l') := resolve_row ap l' in
        Ok (n + m, ap, nap :: l')
      else Ok (0, ap, l)
  end.
(** the outer loop, one step per action of the list *)
Fixpoint resolve_rows (k : nat) (l : list action) : res (Z * list action) :=
  match k, l with
  | S k, ap :: l =>
      let* (n, ap, l) := resolve_row ap l in
      let* (m, l) := resolve_rows k l in
      Ok (n + m, ap :: l)
  | _, _ => Ok (0, l)
  end.
Definition resolve_state (l : list action) : res (Z * list action) :=
  let l := Action_sort l in resolve_rows (length l) l.
End Order.

(** ** [FindActions] *)

Section FindActions.
Context (calloc : nat → option Z).

(** a reduce action for every lookahead of a follow set *)
Fixpoint add_row (symbols : list nat) (fws : list bool) (rp : nat) (js : list nat) (app : list action) (st : apool) :
    res (list action * apool) :=
  match js with
  | [] => Ok (app, st)
  | j :: js =>
      if SetFind fws (Z.of_nat j) then
        sp ← of_opt OutOfBounds (symbols !! j);
        let* (app, st) := Action_add calloc app REDUCE sp (XRule rp) st in
        add_row symbols fws rp js app st
      else add_row symbols fws rp js app st
  end.
Fixpoint add_reduces (lem : lemon) (h : heap) (cfps : list nat) (app : list action) (st : apool) :
    res (list action * apool) :=
  match cfps with
  | [] => Ok (app, st)
  | c :: cfps =>
      cfp ← of_opt NullDeref (h_cfgs h !! c);
      let* (app, st) :=
        if decide (zlen (rp_rhs (rul (h_rules h) (cfp_rp cfp))) = cfp_dot cfp)
        then add_row (lem_symbols lem) (cfp_fws cfp) (cfp_rp cfp) (seq 0 (Z.to_nat (lem_nterminal lem))) app st
        else Ok (app, st) in
      add_reduces lem h cfps app st
  end.

Definition upd_states (f : list state → list state) (h : heap) : heap :=
  mkHeap (h_syms h) (h_rules h) (h_cfgs h) (f (h_states h)).
Definition upd_rules (f : list rule → list rule) (h : heap) : heap :=
  mkHeap (h_syms h) (f (h_rules h)) (h_cfgs h) (h_states h).
Definition upd_canReduce (b : bool) (r : rule) : rule :=
  mkRule (rp_lhs r) (rp_lhsalias r) (rp_lhsStart r) (rp_ruleline r) (rp_rhs r) (rp_rhsalias r) (rp_line r)
    (rp_code r) (rp_codePrefix r) (rp_codeSuffix r) (rp_precsym r) (rp_index r) (rp_iRule r) (rp_noCode r)
    (rp_codeEmitted r) b (rp_doesReduce r) (rp_neverReduce r).
Definition upd_counts (errorcnt nconflict : Z) (l : lemon) : lemon :=
  mkLemon (lem_sorted l) (lem_rule l) (lem_startRule l) (lem_nxstate l) (lem_nsymbol l) (lem_nterminal l)
    (lem_minShiftReduce l) (lem_errAction l) (lem_accAction l) (lem_noAction l) (lem_minReduce l) (lem_maxAction l)
    (lem_symbols l) errorcnt (lem_errsym l) (lem_wildcard l) (lem_start l) nconflict.

(** the three loops over the states *)
Fixpoint reduces_states (lem : lemon) (sts : list nat) (h : heap) (st : apool) : res (heap * apool) :=
  match sts with
  | [] => Ok (h, st)
  | i :: sts =>
      let s := stt (h_states h) i in
      let* (app, st) := add_reduces lem h (stp_cfp s) (stp_ap s) st in
      reduces_states lem sts (upd_states (alter (upd_ap app) i) h) st
  end.
Fixpoint resolve_states (sts : list nat) (h : heap) : res (Z * heap) :=
  match sts with
  | [] => Ok (0, h)
  | i :: sts =>
      let* (n, l) := resolve_state (h_syms h) (h_rules h) (stp_ap (stt (h_states h) i)) in
      let* (m, h) := resolve_states sts (upd_states (alter (upd_ap l) i) h) in
      Ok (n + m, h)
  end.
Definition mark_reduced (l : list action) (rs : list rule) : list rule :=
  foldl (λ rs a, match ap_type a, ap_x a with
                 | REDUCE, XRule rp => alter (upd_canReduce true) rp rs
                 | _, _ => rs
                 end) rs l.

(** the symbol the accepting action is on *)
Definition accept_symbol (t : symtab) (lem : lemon) (h : heap) : res nat :=
  let start_lhs :=
    rp ← of_opt NullDeref (lem_startRule lem); Ok (rp_lhs (rul (h_rules h) rp)) in
  match lem_start lem with
  | Some name =>
      sp ← Symbol_find t name;
      match sp with
      | Some sp => Ok sp
      | None => match lem_startRule lem with None => Err ExitCalled | Some _ => start_lhs end
      end
  | None => start_lhs
  end.

Definition FindActions (t : symtab) (lem : lemon) (h : heap) (st : apool) : res (lemon * heap * apool) :=
  let* (h, st) := reduces_states lem (lem_sorted lem) h st in
  sp ← accept_symbol t lem h;
  s0 ← of_opt NullDeref (lem_sorted lem !! 0%nat);
  let* (app, st) := Action_add calloc (stp_ap (stt (h_states h) s0)) ACCEPT sp XNull st in
  let h := upd_states (alter (upd_ap app) s0) h in
  let* (n, h) := resolve_states (lem_sorted lem) h in
  let rs := foldl (λ rs rp, alter (upd_canReduce false) rp rs) (h_rules h) (lem_rule lem) in
  let rs := foldl (λ rs i, mark_reduced (stp_ap (stt (h_states h) i)) rs) rs (lem_sorted lem) in
  let errors := zlen (filter (λ rp, rp_canReduce (rul rs rp) = false) (lem_rule lem)) in
  Ok (upd_counts (lem_errorcnt lem + errors) (lem_nconflict lem + n) lem, upd_rules (λ _, rs) h, st).
End FindActions.

(** ** [compute_action] *)

Definition compute_action (lem : lemon) (h : heap) (ap : action) : res Z :=
  let sp_idx := sp_index (sym (h_syms h) (ap_sp ap)) in
  let iRule := match ap_x ap with XRule rp => Ok (rp_iRule (rul (h_rules h) rp)) | _ => Err NullDeref end in
  match ap_type ap with
  | SHIFT => match ap_x ap with XState s => Ok (stp_statenum (stt (h_states h) s)) | _ => Err NullDeref end
  | SHIFTREDUCE =>
      i ← iRule;
      if (sp_idx >=? lem_nterminal lem) &&
         match lem_errsym lem with
         | None => true
         | Some e => negb (sp_idx =? sp_index (sym (h_syms h) e))
         end
      then Ok (lem_minReduce lem + i) else Ok (lem_minShiftReduce lem + i)
  | REDUCE => i ← iRule; Ok (lem_minReduce lem + i)
  | ERROR => Ok (lem_errAction lem)
  | ACCEPT => Ok (lem_accAction lem)
  | _ => Ok (-1)
  end.

(** ** Conflict resolution leaves one action per lookahead *)

Section Resolve.
Context (ss : list symbol) (rs : list rule).

Notation idx a := (sp_index (sym ss (ap_sp a))).
Definition ridx (a : action) : Z :=
  if bool_decide (ap_type a = REDUCE ∨ ap_type a = SHIFTREDUCE) then x_rule_index rs (ap_x a) else 0.

Lemma action_ord_inj t u : action_ord t = action_ord u → t = u.
Proof. by destruct t, u. Qed.

(** the comparison is a lexicographic order *)
Lemma actioncmp_le x y :
  cle (actioncmp ss rs) x y ↔
    idx x < idx y ∨ idx x = idx y ∧ (action_ord (ap_type x) < action_ord (ap_type y) ∨
      action_ord (ap_type x) = action_ord (ap_type y) ∧ (ridx x < ridx y ∨ ridx x = ridx y ∧ ap_addr y ≤ ap_addr x)).
Proof.
  unfold cle, actioncmp, ridx. generalize (idx x), (idx y). intros i j.
  destruct (Z.eqb_spec (i - j) 0).
  - destruct (Z.eqb_spec (action_ord (ap_type x) - action_ord (ap_type y)) 0) as [E|E].
    + assert (ap_type x = ap_type y) as -> by (apply action_ord_inj; lia). cbn [andb].
      repeat case_match; lia.
    + cbn [andb]. rewrite (proj2 (Z.eqb_neq _ 0)) by done. lia.
  - rewrite (proj2 (Z.eqb_neq (i - j) 0)) by done. cbn [andb]. rewrite (proj2 (Z.eqb_neq (i - j) 0)) by done. lia.
Qed.

Lemma Action_sort_ok l :
  (length l < 2 ^ LISTSIZE)%nat →
  StronglySorted (cle (actioncmp ss rs)) (Action_sort ss rs l) ∧ Action_sort ss rs l ≡ₚ l.
Proof.
  apply msort_ok.
  - intros x y. rewrite !actioncmp_le. lia.
  - intros x y z. rewrite !actioncmp_le. lia.
Qed.

(** the actions a parser can take; the kinds a conflict leaves *)
Definition is_live (t : e_action) : Prop := t = SHIFT ∨ t = ACCEPT ∨ t = REDUCE.
Definition is_conflict (t : e_action) : Prop := t = SSCONFLICT ∨ t = SRCONFLICT ∨ t = RRCONFLICT.
#[local] Instance is_conflict_dec t : Decision (is_conflict t) := ltac:(unfold is_conflict; apply _).
Definition nconf (l : list action) : Z := zlen (filter (λ a, is_conflict (ap_type a)) l).

(** a symbol with a precedence and no side to prefer *)
Definition nonassoc (sp : nat) : Prop :=
  0 ≤ sp_prec (sym ss sp) ∧ sp_assoc (sym ss sp) ≠ LEFT ∧ sp_assoc (sym ss sp) ≠ RIGHT.

(** what a later and an earlier action go through *)
Definition tstep (a a' : action) : Prop :=
  a' = a ∨ ∃ t, a' = upd_type t a ∧ (ap_type a = SHIFT ∨ ap_type a = REDUCE) ∧ is_resolved t = true.
Definition hstep (a a' : action) : Prop :=
  a' = a ∨ ∃ t, a' = upd_type t a ∧ (ap_type a = SHIFT ∨ ap_type a = REDUCE) ∧
    (t = SH_RESOLVED ∨ t = RD_RESOLVED ∨ t = ERROR).
Definition astep (a a' : action) : Prop :=
  a' = a ∨ ∃ t, a' = upd_type t a ∧ (ap_type a = SHIFT ∨ ap_type a = REDUCE) ∧ (is_resolved t = true ∨ t = ERROR).

Definition undecided (a : action) : Prop :=
  ap_type a = SHIFT ∨ ap_type a = REDUCE ∨ is_resolved (ap_type a) = true.
Definition tailok (a : action) : Prop := undecided a ∨ ap_type a = ACCEPT.
(** two actions on one lookahead, the first before the second *)
Definition compat (a b : action) : Prop :=
  ap_sp a = ap_sp b → ap_type a ≠ ACCEPT ∧ ap_type b ≠ ACCEPT ∧
    (ap_type a = REDUCE → ap_type b ≠ SHIFT ∧ (nonassoc (ap_sp a) → ap_type b ≠ REDUCE)).
Definition excl (a b : action) : Prop := ap_sp a = ap_sp b → ¬ (is_live (ap_type a) ∧ is_live (ap_type b)).

Lemma resolved_dead t : is_resolved t = true → ¬ is_live t ∧ t ≠ ERROR.
Proof. unfold is_live. destruct t; vm_compute; naive_solver. Qed.

Lemma nconf_cons a l : nconf (a :: l) = nconf [a] + nconf l.
Proof. unfold nconf. rewrite !filter_cons, filter_nil. case_decide; unfold zlen; cbn [length]; lia. Qed.

(** two actions the routine leaves as they are *)
Lemma resolve_done x y :
  ap_sp x = ap_sp y → is_resolved (ap_type x) = true ∨ is_resolved (ap_type y) = true →
  resolve_conflict ss rs x y = Ok (0, x, y).
Proof.
  intros Hsp Hr. unfold resolve_conflict. rewrite decide_True by done.
  assert (∀ t, is_resolved t = true → t ≠ SHIFT ∧ t ≠ REDUCE) as Hne by (intros []; vm_compute; naive_solver).
  rewrite !decide_False by (destruct Hr as [Hr|Hr]; apply Hne in Hr; tauto).
  destruct Hr as [-> | ->]; [done|by rewrite orb_true_r].
Qed.

Ltac pair_leaf := eexists _, _, _; split; [reflexivity|];
  split; [first [by left | right; eexists; split; [reflexivity|]; split; [by auto|by auto]]|];
  split; [first [by left | right; eexists; split; [reflexivity|]; split; [by auto|by auto]]|];
  split; [unfold excl, is_live; cbn; naive_solver|]; split; [reflexivity|];
  split; [unfold is_live; cbn; by auto 4|].

Lemma resolve_pair x y :
  ap_sp x = ap_sp y → compat x y →
  (0 ≤ sp_prec (sym ss (ap_sp x)) → sp_assoc (sym ss (ap_sp x)) ≠ UNK) →
  undecided y → undecided x ∨ ap_type x = ERROR ∧ is_resolved (ap_type y) = true →
  ∃ n x' y', resolve_conflict ss rs x y = Ok (n, x', y') ∧ hstep x x' ∧ tstep y y' ∧ excl x' y' ∧
    nconf [y'] = nconf [y] + n ∧
    (is_live (ap_type x) ∨ is_live (ap_type y) → is_live (ap_type x') ∨ is_live (ap_type y')) ∧
    (ap_type x' = ERROR → ap_type x = ERROR ∨ ap_type y = REDUCE ∧ nonassoc (ap_sp y)).
Proof.
  intros Hsp Hc Hunk Hy Hx.
  destruct (decide (is_resolved (ap_type x) = true ∨ is_resolved (ap_type y) = true)) as [Hr|Hr].
  { rewrite resolve_done by done. exists 0, x, y. split_and!; [done|by left|by left| |lia|done|by left].
    intros _ [? ?]. destruct Hr as [Hr|Hr]; by apply resolved_dead in Hr as [? _]. }
  assert (ap_type x = SHIFT ∨ ap_type x = REDUCE) as Hx' by (unfold undecided in Hx; tauto).
  assert (ap_type y = SHIFT ∨ ap_type y = REDUCE) as Hy' by (unfold undecided in Hy; tauto).
  unfold resolve_conflict. rewrite decide_True by done.
  destruct (Hc Hsp) as (_&_&Hc'). clear Hc Hx Hy Hr.
  destruct x as [xa xs xt xx xo], y as [ya ys yt yx yo]. cbn [ap_type ap_sp ap_x] in *. subst ys.
  destruct Hx' as [->| ->], Hy' as [->| ->]; cbn [ap_type ap_sp ap_x upd_type].
  - pair_leaf. done.
  - rewrite decide_False by naive_solver. rewrite decide_True by done. cbn [ap_x ap_sp].
    destruct (x_precsym ss rs yx) as [spy|]; [|pair_leaf; done].
    destruct (Z.ltb_spec (sp_prec (sym ss xs)) 0); [pair_leaf; done|].
    destruct (Z.ltb_spec (sp_prec spy) 0); [pair_leaf; done|]. cbn [orb].
    destruct (sp_prec (sym ss xs) >? sp_prec spy); [pair_leaf; done|].
    destruct (sp_prec (sym ss xs) <? sp_prec spy); [pair_leaf; done|].
    specialize (Hunk ltac:(lia)).
    destruct (sp_assoc (sym ss xs)) eqn:Ea; cbn; try done; try (pair_leaf; done).
    pair_leaf. intros _. right. split; [done|]. unfold nonassoc. rewrite Ea. done.
  - by destruct (Hc' eq_refl).
  - rewrite !decide_False by naive_solver. rewrite decide_True by done. cbn [ap_x ap_sp].
    destruct (x_precsym ss rs xx) as [spx|]; [|pair_leaf; done].
    destruct (x_precsym ss rs yx) as [spy|]; [|pair_leaf; done].
    destruct (_ || _); [pair_leaf; done|]. destruct (_ >? _); pair_leaf; done.
Qed.

(** steps keep everything but the type, and a type only becomes inactive *)
Lemma tstep_astep a b : tstep a b → astep a b.
Proof. intros [->|(t&->&?&?)]; [by left|right; eauto]. Qed.
Lemma hstep_astep a b : hstep a b → astep a b.
Proof. intros [->|(t&->&?&Ht)]; [by left|right; exists t; split_and!; [done..|]]. destruct Ht as [->|[->| ->]]; auto. Qed.
Lemma astep_sp a b : astep a b → ap_sp b = ap_sp a.
Proof. by intros [->|(t&->&_)]. Qed.
Lemma astep_live a b : astep a b → is_live (ap_type b) → is_live (ap_type a) ∧ ap_type b = ap_type a.
Proof.
  intros [->|(t&->&_&Ht)] Hl; [done|]. cbn in Hl. destruct Ht as [Ht| ->]; [by apply resolved_dead in Ht as [? _]|].
  unfold is_live in Hl. naive_solver.
Qed.
Lemma astep_trans a b c : astep a b → astep b c → astep a c.
Proof.
  intros [->|(t&->&Ht&Hd)]; [done|]. intros [->|(u&->&Hu&_)]; [right; eauto|]. cbn in Hu.
  destruct Hd as [Hd| ->]; [|naive_solver]. apply resolved_dead in Hd as [Hd _]. unfold is_live in Hd. naive_solver.
Qed.
Lemma hstep_trans a b c : hstep a b → hstep b c → hstep a c.
Proof.
  intros [->|(t&->&Ht&Hd)]; [done|]. intros [->|(u&->&Hu&_)]; [right; eauto|]. cbn in Hu. naive_solver.
Qed.

Lemma excl_astep a b a' b' : excl a b → astep a a' → astep b b' → excl a' b'.
Proof.
  unfold excl. intros He Ha Hb Hsp [H1 H2]. rewrite (astep_sp _ _ Ha), (astep_sp _ _ Hb) in Hsp.
  apply (He Hsp). split; [by apply (astep_live _ _ Ha)|by apply (astep_live _ _ Hb)].
Qed.
Lemma astep_type a b t : astep a b → ap_type b = t → is_live t → ap_type a = t.
Proof. intros Hs Ht Hl. subst t. by destruct (astep_live _ _ Hs Hl) as [_ ->]. Qed.
Lemma compat_astep a b a' b' : compat a b → astep a a' → astep b b' → compat a' b'.
Proof.
  unfold compat. intros Hc Ha Hb Hsp. rewrite (astep_sp _ _ Ha), (astep_sp _ _ Hb) in Hsp.
  destruct (Hc Hsp) as (H1&H2&H3). rewrite (astep_sp _ _ Ha). unfold is_live in *.
  pose proof (λ t, astep_type _ _ t Ha) as Ta. pose proof (λ t, astep_type _ _ t Hb) as Tb. unfold is_live in Ta, Tb.
  split_and!; [naive_solver..|]. intros HR. destruct H3 as [H3 H4]; [naive_solver|]. split; naive_solver.
Qed.
Lemma tailok_tstep a b : tailok a → tstep a b → tailok b.
Proof. intros Ha [->|(t&->&_&Ht)]; [done|]. left. unfold undecided. auto. Qed.

(** the actions with the lookahead of the first one come first *)
Fixpoint grouped (l : list action) : Prop :=
  match l with
  | [] => True
  | a :: k => match k with
              | b :: _ => (ap_sp b ≠ ap_sp a → Forall (λ c, ap_sp c ≠ ap_sp a) k) ∧ grouped k
              | [] => True
              end
  end.
Lemma grouped_skip a b l : ap_sp b = ap_sp a → grouped (a :: b :: l) → grouped (a :: l).
Proof.
  intros Hab [_ Hg]. destruct l as [|c l]; [done|]. destruct Hg as [H1 H2]. split; [|done]. rewrite <- Hab.
  intros Hc. specialize (H1 Hc). done.
Qed.
Lemma grouped_step l k : Forall2 (λ a b, ap_sp b = ap_sp a) l k → grouped l → grouped k.
Proof.
  induction 1 as [|a b l k Hab Hlk IH]; [done|]. destruct Hlk as [|c d l k Hcd Hlk]; [done|]. intros [H1 H2].
  split; [|by apply IH]. rewrite Hab, Hcd. intros Hne. specialize (H1 Hne).
  assert (Forall2 (λ a b, ap_sp b = ap_sp a) (c :: l) (d :: k)) as Hall by (by constructor).
  revert H1 Hall. generalize (c :: l), (d :: k). intros l1 l2 Hf H2'. induction H2' as [|u v l1 l2 Huv _ IH2]; [done|].
  apply Forall_cons in Hf as [? ?]. constructor; [congruence|auto].
Qed.
Lemma grouped_head a a' l : ap_sp a' = ap_sp a → grouped (a :: l) → grouped (a' :: l).
Proof. intros Ha Hg. eapply grouped_step; [|exact Hg]. constructor; [done|]. by apply Forall_Forall2_diag, Forall_true. Qed.

Hypothesis no_unk : ∀ sp, 0 ≤ sp_prec (sym ss sp) → sp_assoc (sym ss sp) ≠ UNK.

Definition has_live (sp : nat) (l : list action) : Prop := Exists (λ a, ap_sp a = sp ∧ is_live (ap_type a)) l.

Lemma resolve_row_ok l : ∀ x,
  grouped (x :: l) → Forall tailok l → StronglySorted compat (x :: l) →
  tailok x ∨ ap_type x = ERROR ∧ Forall (λ b, ap_sp b = ap_sp x → is_resolved (ap_type b) = true) l →
  ∃ n x' l', resolve_row ss rs x l = Ok (n, x', l') ∧ hstep x x' ∧ Forall2 tstep l l' ∧
    Forall (excl x') l' ∧ nconf l' = nconf l + n ∧ (∀ sp, has_live sp (x :: l) → has_live sp (x' :: l')).
Proof.
  induction l as [|y l IH]; intros x Hg Hok Hs Hx.
  { exists 0, x, []. split_and!; [done|by left|constructor|constructor|done|done]. }
  apply Forall_cons in Hok as [Hy Hok]. apply StronglySorted_inv in Hs as [Hs Hcx].
  pose proof (Forall_inv Hcx) as Hcxy. apply Forall_inv_tail in Hcx.
  apply StronglySorted_inv in Hs as [Hs Hcy]. cbn [resolve_row]. case_decide as Hsp; cycle 1.
  { exists 0, x, (y :: l). split_and!; [done|by left|..].
    - apply Forall2_same_length_lookup_2; [done|]. intros i a b Ha Hb. left. congruence.
    - destruct Hg as [Hg _]. eapply Forall_impl; [by apply Hg|]. intros b Hb E. congruence.
    - lia.
    - done. }
  destruct (Hcxy (eq_sym Hsp)) as (Hax&Hay&_).
  destruct (resolve_pair x y) as (n&x1&y1&Hr&Hhx&Hty&He&Hn&Hlv&Herr); [done|done|apply no_unk|..].
  { destruct Hy as [Hy|Hy]; [done|by destruct Hay]. }
  { destruct Hx as [[Hx|Hx]|[Hx Hf]]; [by left|by destruct Hax|]. right. split; [done|]. by apply (Forall_inv Hf). }
  rewrite Hr. pose proof (astep_sp _ _ (hstep_astep _ _ Hhx)) as Hsx.
  destruct (IH x1) as (m&x2&l2&Hr2&Hh2&Ht2&He2&Hn2&Hl2).
  - eapply grouped_head; [exact Hsx|]. eapply grouped_skip; [|exact Hg]. done.
  - done.
  - constructor; [done|]. eapply Forall_impl; [exact Hcx|]. intros b Hb.
    eapply compat_astep; [exact Hb|by apply hstep_astep|by left].
  - destruct (decide (ap_type x1 = ERROR)) as [E|E].
    + right. split; [done|]. rewrite Hsx. destruct (Herr E) as [Hxe|[Hyr Hna]].
      * destruct Hx as [[Hx|Hx]|[_ Hf]]; [|congruence|by apply Forall_inv_tail in Hf].
        exfalso. unfold undecided in Hx. rewrite Hxe in Hx. naive_solver.
      * rewrite Forall_forall in Hcy, Hok |- *. intros b Hb Hbx. destruct (Hcy b Hb) as (_&Hb1&Hb2); [congruence|].
        destruct (Hb2 Hyr) as [Hb3 Hb4]. specialize (Hb4 Hna). destruct (Hok b Hb) as [[Hu|[Hu|Hu]]|Hu]; done.
    + left. destruct Hhx as [->|(t&->&_&Ht)]; [by destruct Hx as [|[? _]]|]. left. cbn in *. unfold undecided. cbn.
      destruct Ht as [->|[->| ->]]; auto.
  - rewrite Hr2. exists (n + m), x2, (y1 :: l2). split_and!; [done|by eapply hstep_trans|by constructor| | |].
    + constructor; [|done]. eapply excl_astep; [exact He|by apply hstep_astep|by left].
    + rewrite nconf_cons, (nconf_cons y l). lia.
    + intros sp Hl. pose proof (astep_sp _ _ (tstep_astep _ _ Hty)) as Hsy. specialize (Hl2 sp). unfold has_live in *.
      rewrite !Exists_cons in Hl, Hl2 |- *.
      rewrite Hsx in Hl2. rewrite Hsy. clear -Hl Hl2 Hlv Hsp.
      destruct Hl as [[E L]|[[E L]|L]]; [specialize (Hlv (or_introl L))|specialize (Hlv (or_intror L))|tauto];
        rewrite ?Hsp in *; tauto.
Qed.

Lemma nconf_hstep x x' : hstep x x' → nconf [x'] = nconf [x].
Proof.
  intros [->|(t&->&Hx&Ht)]; [done|]. unfold nconf. rewrite !filter_cons, !filter_nil. cbn [ap_type upd_type].
  rewrite !decide_False; [done|..].
  - by destruct Hx as [->| ->]; intros [|[|]].
  - by destruct Ht as [->|[->| ->]]; intros [|[|]].
Qed.

Lemma resolve_rows_ok k : ∀ l,
  length l = k → grouped l → Forall tailok l → StronglySorted compat l →
  ∃ n l', resolve_rows ss rs k l = Ok (n, l') ∧ Forall2 astep l l' ∧ StronglySorted excl l' ∧
    nconf l' = nconf l + n ∧ (∀ sp, has_live sp l → has_live sp l').
Proof.
  induction k as [|k IH]; intros l Hk Hg Hok Hs.
  { destruct l; [|done]. exists 0, []. split_and!; [done|constructor|constructor|done|done]. }
  destruct l as [|x l]; [done|]. injection Hk as Hk. apply Forall_cons in Hok as [Hx Hok]. cbn [resolve_rows].
  destruct (resolve_row_ok l x Hg Hok Hs (or_introl Hx)) as (n&x'&l1&Hr&Hh&Ht&He&Hn&Hl). rewrite Hr.
  apply StronglySorted_inv in Hs as [Hs _].
  assert (Forall2 astep l l1) as Ha by (eapply Forall2_impl; [exact Ht|apply tstep_astep]).
  destruct (IH l1) as (m&l2&Hr2&Ha2&Hs2&Hn2&Hl2).
  - by rewrite <- (Forall2_length _ _ _ Ht).
  - eapply grouped_step; [eapply Forall2_impl; [exact Ha|apply astep_sp]|]. destruct l; [done|apply Hg].
  - eapply Forall2_Forall_r; [exact Ht|]. eapply Forall_impl; [exact Hok|]. intros a Hta b Hb. by eapply tailok_tstep.
  - clear -Hs Ha. induction Ha as [|a b l l1 Hab Ha IH]; [constructor|]. apply StronglySorted_inv in Hs as [Hs Hf].
    constructor; [by apply IH|]. eapply Forall2_Forall_r; [exact Ha|]. eapply Forall_impl; [exact Hf|].
    intros c Hc d Hcd. by eapply compat_astep.
  - rewrite Hr2. exists (n + m), (x' :: l2). split_and!; [done| | | |].
    + constructor; [by apply hstep_astep|]. eapply Forall2_trans; [|exact Ha|exact Ha2]. intros; by eapply astep_trans.
    + constructor; [done|]. eapply Forall2_Forall_r; [exact Ha2|]. eapply Forall_impl; [exact He|].
      intros a Hea b Hab. eapply excl_astep; [exact Hea|by left|done].
    + rewrite nconf_cons, (nconf_cons x l), (nconf_hstep _ _ Hh). lia.
    + intros sp Hsp. apply Hl in Hsp. specialize (Hl2 sp). unfold has_live in *. rewrite !Exists_cons in *. tauto.
Qed.

(** Actions as the generator produces them: shifts, reduces and at most one accept,
    the accept alone on its symbol, and no two reduces on a nonassociative token. *)
Record resolvable (l : list action) : Prop := {
  rv_types : Forall (λ a, is_live (ap_type a)) l;
  rv_index : ∀ a b, a ∈ l → b ∈ l → idx a = idx b → ap_sp a = ap_sp b;
  rv_pairs : ∀ a b k, l ≡ₚ a :: b :: k → ap_sp a = ap_sp b →
    ap_type a ≠ ACCEPT ∧ (ap_type a = REDUCE → ap_type b = REDUCE → ¬ nonassoc (ap_sp a));
}.

Lemma sorted_grouped l :
  (∀ a b, a ∈ l → b ∈ l → idx a = idx b → ap_sp a = ap_sp b) →
  StronglySorted (cle (actioncmp ss rs)) l → grouped l.
Proof.
  induction l as [|a l IH]; intros Hi Hs; [done|]. apply StronglySorted_inv in Hs as [Hs Ha].
  destruct l as [|b l]; [done|]. split; [|apply IH; [set_solver|done]].
  intros Hne. apply StronglySorted_inv in Hs as [_ Hb]. rewrite Forall_forall in Ha, Hb. apply Forall_forall. intros c Hc.
  pose proof (Ha b ltac:(by left)) as Hab. rewrite actioncmp_le in Hab.
  assert (idx a ≠ idx b) by (intros E; apply Hne; symmetry; apply Hi; [set_solver..|done]).
  apply elem_of_cons in Hc as [->|Hc]; [done|]. specialize (Hb c Hc). rewrite actioncmp_le in Hb.
  intros E. rewrite E in Hb. lia.
Qed.

Lemma sorted_compat l :
  resolvable l → StronglySorted (cle (actioncmp ss rs)) l → StronglySorted compat l.
Proof.
  intros [Ht Hi Hp] Hs. apply StronglySorted_of_lookup. intros i j a b Hij Ha Hb Hsp.
  assert (∃ k, l ≡ₚ a :: b :: k) as [k Hk].
  { apply list_elem_of_split_length in Ha as (l1&l2&->&->). rewrite lookup_app_r in Hb by lia.
    destruct (j - length l1)%nat as [|m] eqn:E; [lia|]. cbn in Hb.
    apply list_elem_of_split_length in Hb as (l3&l4&->&->). exists (l1 ++ l3 ++ l4).
    rewrite <- Permutation_middle. f_equiv. rewrite app_assoc, <- Permutation_middle. by rewrite app_assoc. }
  destruct (Hp a b k Hk Hsp) as [H1 H2].
  destruct (Hp b a k) as [H3 _]; [rewrite Hk; apply Permutation_swap|done|].
  split_and!; [done|done|]. intros HR. split; [|naive_solver]. intros HS.
  assert (cle (actioncmp ss rs) a b) as Hle.
  { clear -Hs Hij Ha Hb. revert i j Hij Ha Hb. induction Hs as [|x l Hs IH Hf]; intros i j Hij Ha Hb; [done|].
    destruct j as [|j]; [lia|]. destruct i as [|i]; cbn in *.
    - injection Ha as ->. rewrite Forall_forall in Hf. apply Hf. by eapply list_elem_of_lookup_2.
    - eapply IH; [|done|done]. lia. }
  rewrite actioncmp_le, HR, HS, Hsp in Hle. cbn in Hle. lia.
Qed.

(** C34: Conflict resolution: for every list of shifts, reduces and an accept (the
    accept alone on its symbol, at most one reduce on a nonassociative token)
    sorting and resolving finishes without a failed assertion; the result is the
    same actions with only types changed, and every change deactivates a shift
    or reduce; each lookahead that had an action keeps exactly one; and the
    number returned is the number of actions marked as unresolved conflicts. *)
Theorem resolve_state_correct l :
  (length l < 2 ^ LISTSIZE)%nat → resolvable l →
  ∃ n l', resolve_state ss rs l = Ok (n, l') ∧
    (∃ k, k ≡ₚ l ∧ Forall2 astep k l') ∧
    (∀ i j a b, i ≠ j → l' !! i = Some a → l' !! j = Some b → ap_sp a = ap_sp b →
       ¬ (is_live (ap_type a) ∧ is_live (ap_type b))) ∧
    (∀ a, a ∈ l → ∃ b, b ∈ l' ∧ ap_sp b = ap_sp a ∧ is_live (ap_type b)) ∧
    n = nconf l'.
Proof.
  intros Hlen Hrv. unfold resolve_state. destruct (Action_sort_ok l Hlen) as [Hs Hp].
  set (k := Action_sort ss rs l) in *.
  assert (resolvable k) as Hrk.
  { destruct Hrv as [H1 H2 H3]. constructor; [by rewrite Hp| |].
    - intros a b. rewrite !Hp. apply H2.
    - intros a b m Hm. apply (H3 a b m). by rewrite <- Hp. }
  destruct (resolve_rows_ok (length k) k) as (n&l'&Hr&Ha&He&Hn&Hlv); [done|..].
  - apply sorted_grouped; [apply Hrk|done].
  - eapply Forall_impl; [apply Hrk|]. intros a Hl. unfold tailok, undecided. unfold is_live in Hl. tauto.
  - by apply sorted_compat.
  - assert (nconf k = 0) as Hk0.
    { unfold nconf. destruct (filter (λ a, is_conflict (ap_type a)) k) as [|a m] eqn:E; [done|exfalso].
      assert (a ∈ filter (λ a, is_conflict (ap_type a)) k) as [Hc Hin]%list_elem_of_filter by (rewrite E; by left).
      pose proof (rv_types _ Hrk) as Hf. rewrite Forall_forall in Hf. specialize (Hf a Hin). cbn in Hf.
      clear -Hf Hc. destruct Hf as [E'|[E'|E']]; rewrite E' in Hc; by destruct Hc as [|[|]]. }
    exists n, l'. split_and!; [done|by exists k| | |lia].
    + assert (∀ i j a b, (i < j)%nat → l' !! i = Some a → l' !! j = Some b → excl a b) as Hex.
      { clear -He. induction He as [|x l' Hs IH Hf]; intros i j a b Hij Hi Hj; [done|].
        destruct j as [|j]; [lia|]. destruct i as [|i]; cbn in *; [|by eapply IH; [|done|done]; lia].
        injection Hi as ->. rewrite Forall_forall in Hf. apply Hf. by eapply list_elem_of_lookup_2. }
      intros i j a b Hij Hi Hj Hsp [L1 L2]. destruct (decide (i < j)%nat).
      * by apply (Hex i j a b).
      * apply (Hex j i b a); [lia|done|done|done|done].
    + intros a Hin. specialize (Hlv (ap_sp a)). unfold has_live in Hlv. rewrite !Exists_exists in Hlv.
      destruct Hlv as (b&?&?&?); [|by exists b]. exists a. split_and!; [by rewrite Hp|done|].
      pose proof (rv_types _ Hrv) as Hf. rewrite Forall_forall in Hf. by apply Hf.
Qed.
End Resolve.

(** a left-associative operator: the shift gives way to the reduce *)
Definition op_syms : list symbol :=
  [symbol0; mkSymbol [80] 1 TERMINAL [] None 0 LEFT None false 1 None 0 None 0 false []].
Definition op_rules : list rule :=
  [mkRule 2 None false 1 [2; 1; 2]%nat [] 1 None None None (Some 1%nat) 0 0 true false false false false].
Definition op_actions : list action :=
  [mkAction 0 1 REDUCE (XRule 0) None; mkAction 1 1 SHIFT (XState 5) None].

Lemma resolve_state_correct_witness :
  resolvable op_syms op_actions ∧
  ∃ l', resolve_state op_syms op_rules op_actions = Ok (0, l') ∧ ap_type <$> l' = [SH_RESOLVED; REDUCE].
Proof.
  assert (resolvable op_syms op_actions) as Hr.
  { constructor.
    - unfold is_live, op_actions. rewrite !Forall_cons. cbn. auto 10.
    - intros a b Ha Hb _. unfold op_actions in *. rewrite !elem_of_cons in Ha, Hb.
      destruct Ha as [->|[->|Ha%elem_of_nil]], Hb as [->|[->|Hb%elem_of_nil]]; done.
    - intros a b k Hp _. pose proof (Permutation_length Hp) as Hl. destruct k; [|cbn in Hl; lia].
      apply Permutation_length_2_inv in Hp as [[= -> ->]|[= -> ->]]; (split; [done|intros; done]). }
  split; [exact Hr|].
  destruct (resolve_state_correct op_syms op_rules) with (l := op_actions) as (n&l'&H&_); [|..|exact Hr|].
  - intros [|[|sp]] Hsp; [vm_compute in Hsp; by destruct Hsp|discriminate|vm_compute in Hsp; by destruct Hsp].
  - cbn [length op_actions]. apply (Nat.lt_le_trans 2 (2 ^ 2)); [cbn; lia|]. apply Nat.pow_le_mono_r; [lia|]. unfold LISTSIZE. lia.
  - exists l'. assert (resolve_state op_syms op_rules op_actions = Ok (0, [mkAction 1 1 SH_RESOLVED (XState 5) None;
      mkAction 0 1 REDUCE (XRule 0) None])) as E by (vm_compute; reflexivity).
    rewrite H in E. injection E as -> ->. split; [exact H|reflexivity].
Defined.

(** ** A grammar that trips the assertion *)

(** a nonassociative token 1 with precedence 0, two rules that end with it *)
Definition na_syms : list symbol :=
  [symbol0; mkSymbol [76; 84] 1 TERMINAL [] None 0 NONE None false 1 None 0 None 0 false []].
Definition na_rules : list rule :=
  [mkRule 2 None false 1 [3; 1; 3]%nat [] 1 None None None (Some 1%nat) 0 0 true false false false false;
   mkRule 4 None false 2 [3; 1; 3]%nat [] 2 None None None (Some 1%nat) 1 1 true false false false false].
Definition na_actions : list action :=
  [mkAction 0 1 SHIFT (XState 5) None; mkAction 1 1 REDUCE (XRule 0) None; mkAction 2 1 REDUCE (XRule 1) None].

(** A shift on a nonassociative token against two reduces: the first reduce
    turns the shift into ERROR, a type the assertion at the end of
    [resolve_conflict] does not list, so the second reduce stops the generator. *)
Theorem nonassoc_trips_assertion : resolve_state na_syms na_rules na_actions = Err ExitCalled.
Proof. vm_compute. reflexivity. Qed.
