(* ===== verification/LemonStates.v ===== *)
(** The construction of the LR automaton in the generator ([src/sql/lemon.c]):
    propagation links ("plink.c"), configuration lists and their closure
    ("configlist.c"), and the mutual recursion of [getstate] and [buildshifts]
    that [FindStates] starts ("build.c"). *)
From S2P Require Import Prelude LemonTable LemonData LemonSort LemonFirst LemonSymbol LemonActions.

Notation key := (Z * Z)%type.

Definition config0 : config := mkConfig 0 0 [] [] [] None COMPLETE.
Definition cfg (cs : list config) (c : nat) : config := default config0 (cs !! c).
Definition upd_fws (s : list bool) (c : config) : config :=
  mkConfig (cfp_rp c) (cfp_dot c) s (cfp_fplp c) (cfp_bplp c) (cfp_stp c) (cfp_status c).
Definition upd_fplp (l : list nat) (c : config) : config :=
  mkConfig (cfp_rp c) (cfp_dot c) (cfp_fws c) l (cfp_bplp c) (cfp_stp c) (cfp_status c).
Definition upd_bplp (l : list nat) (c : config) : config :=
  mkConfig (cfp_rp c) (cfp_dot c) (cfp_fws c) (cfp_fplp c) l (cfp_stp c) (cfp_status c).
Definition upd_stp (s : option nat) (c : config) : config :=
  mkConfig (cfp_rp c) (cfp_dot c) (cfp_fws c) (cfp_fplp c) (cfp_bplp c) s (cfp_status c).
Definition upd_status (s : cfgstatus) (c : config) : config :=
  mkConfig (cfp_rp c) (cfp_dot c) (cfp_fws c) (cfp_fplp c) (cfp_bplp c) (cfp_stp c) s.
Definition upd_lhsStart (b : bool) (r : rule) : rule :=
  mkRule (rp_lhs r) (rp_lhsalias r) b (rp_ruleline r) (rp_rhs r) (rp_rhsalias r) (rp_line r) (rp_code r)
    (rp_codePrefix r) (rp_codeSuffix r) (rp_precsym r) (rp_index r) (rp_iRule r) (rp_noCode r) (rp_codeEmitted r)
    (rp_canReduce r) (rp_doesReduce r) (rp_neverReduce r).

(** ** Propagation links: a list of links is the list of the configurations they
    point to; the pool of free links is not modelled *)

Definition Plink_add (plp : list nat) (c : nat) : list nat := c :: plp.
(** the links of [from] move to the front of [to] one by one *)
Fixpoint Plink_copy (to from : list nat) : list nat :=
  match from with [] => to | c :: from => Plink_copy (c :: to) from end.

(** ** The builder: the globals of "configlist.c", the two tables, and what
    [getstate] makes *)

Record gen := mkGen {
  g_cfgs : list config;                      (* all configurations made *)
  g_freelist : list nat;
  g_current : list nat;                      (* along [next] *)
  g_currentend : bool;                       (* [currentend != 0] *)
  g_basis : list nat;                        (* along [bp] *)
  g_basisend : bool;
  g_x4 : xtable (nat * key);                 (* a configuration and its rule index and dot *)
  g_x3 : xtable (nat * list key);            (* a state and the keys of its basis *)
  g_states : list state;                     (* [nstate] is its length *)
  g_pool : apool;
  g_errorcnt : Z;
}.
Definition upd_cfgs (cs : list config) (g : gen) : gen :=
  mkGen cs (g_freelist g) (g_current g) (g_currentend g) (g_basis g) (g_basisend g) (g_x4 g) (g_x3 g) (g_states g) (g_pool g) (g_errorcnt g).
Definition upd_freelist (l : list nat) (g : gen) : gen :=
  mkGen (g_cfgs g) l (g_current g) (g_currentend g) (g_basis g) (g_basisend g) (g_x4 g) (g_x3 g) (g_states g) (g_pool g) (g_errorcnt g).
Definition upd_current (l : list nat) (e : bool) (g : gen) : gen :=
  mkGen (g_cfgs g) (g_freelist g) l e (g_basis g) (g_basisend g) (g_x4 g) (g_x3 g) (g_states g) (g_pool g) (g_errorcnt g).
Definition upd_basis (l : list nat) (e : bool) (g : gen) : gen :=
  mkGen (g_cfgs g) (g_freelist g) (g_current g) (g_currentend g) l e (g_x4 g) (g_x3 g) (g_states g) (g_pool g) (g_errorcnt g).
Definition upd_x4 (x : xtable (nat * key)) (g : gen) : gen :=
  mkGen (g_cfgs g) (g_freelist g) (g_current g) (g_currentend g) (g_basis g) (g_basisend g) x (g_x3 g) (g_states g) (g_pool g) (g_errorcnt g).
Definition upd_x3 (x : xtable (nat * list key)) (g : gen) : gen :=
  mkGen (g_cfgs g) (g_freelist g) (g_current g) (g_currentend g) (g_basis g) (g_basisend g) (g_x4 g) x (g_states g) (g_pool g) (g_errorcnt g).
Definition upd_states (l : list state) (g : gen) : gen :=
  mkGen (g_cfgs g) (g_freelist g) (g_current g) (g_currentend g) (g_basis g) (g_basisend g) (g_x4 g) (g_x3 g) l (g_pool g) (g_errorcnt g).
Definition upd_pool (p : apool) (g : gen) : gen :=
  mkGen (g_cfgs g) (g_freelist g) (g_current g) (g_currentend g) (g_basis g) (g_basisend g) (g_x4 g) (g_x3 g) (g_states g) p (g_errorcnt g).
Definition upd_errorcnt (n : Z) (g : gen) : gen :=
  mkGen (g_cfgs g) (g_freelist g) (g_current g) (g_currentend g) (g_basis g) (g_basisend g) (g_x4 g) (g_x3 g) (g_states g) (g_pool g) n.

(** the list of pointers of which [c] is the head, when [l] is what its link
    field threads: [c] alone when it is not on [l] *)
Fixpoint list_from (c : nat) (l : list nat) : list nat :=
  match l with
  | [] => [c]
  | d :: l' => if decide (d = c) then l else list_from c l'
  end.

Section Build.
Context (ss : list symbol) (rs : list rule) (errsym : option nat) (size : Z).
(** which allocations succeed: hash slots by their number, the blocks of actions,
    configurations and states by how many there are *)
Context (calloc_ok : Z → bool) (calloc : nat → option Z) (malloc : nat → bool).
Implicit Types (g : gen).

Definition cfg_item (cs : list config) (c : nat) : nat * Z := (cfp_rp (cfg cs c), cfp_dot (cfg cs c)).
(** the fields [Configcmp], [confighash] and [statehash] look at *)
Definition item_key (it : nat * Z) : key := (rp_index (rul rs it.1), it.2).
Definition cfg_key (cs : list config) (c : nat) : key := item_key (cfg_item cs c).

(** a dereferenced configuration pointer *)
Definition cfg_at g (c : nat) : res config := of_opt NullDeref (g_cfgs g !! c).
Definition upd_cfg (f : config → config) (c : nat) g : gen := upd_cfgs (alter f c (g_cfgs g)) g.

Definition Configlist_init g : res gen :=
  let g := upd_basis [] true (upd_current [] true g) in
  x ← of_opt NullDeref (x_init calloc_ok 64);
  Ok (upd_x4 x g).
Definition Configlist_reset g : gen :=
  let g := upd_basis [] true (upd_current [] true g) in
  upd_x4 (Configtable_clear (g_x4 g)) g.

Definition newconfig (rp : nat) (dot : Z) g : res (nat * gen) :=
  if malloc (length (g_cfgs g))
  then Ok (length (g_cfgs g), upd_cfgs (g_cfgs g ++ [mkConfig rp dot (SetNew size) [] [] None COMPLETE]) g)
  else Err NullDeref.
Definition deleteconfig (old : nat) g : gen := upd_freelist (old :: g_freelist g) g.

Definition Configtable_find_item (it : nat * Z) g : res (option nat) :=
  let* r := Configtable_find (snd : nat * key → key) (g_x4 g) (item_key it) in
  Ok (option_map fst r).
Definition Configtable_insert_cfg (c : nat) g : res gen :=
  let* (_, x) := Configtable_insert calloc_ok (snd : nat * key → key) (g_x4 g) (c, cfg_key (g_cfgs g) c) in
  Ok (upd_x4 x g).

Definition Configlist_add (rp : nat) (dot : Z) g : res (nat * gen) :=
  if negb (g_currentend g) then Err ExitCalled
  else
    r ← Configtable_find_item (rp, dot) g;
    match r with
    | Some c => Ok (c, g)
    | None =>
        let* (c, g) := newconfig rp dot g in
        let g := upd_current (g_current g ++ [c]) true g in
        g ← Configtable_insert_cfg c g;
        Ok (c, g)
    end.

Definition Configlist_addbasis (rp : nat) (dot : Z) g : res (nat * gen) :=
  if negb (g_basisend g) || negb (g_currentend g) then Err ExitCalled
  else
    r ← Configtable_find_item (rp, dot) g;
    match r with
    | Some c => Ok (c, g)
    | None =>
        let* (c, g) := newconfig rp dot g in
        let g := upd_current (g_current g ++ [c]) true g in
        let g := upd_basis (g_basis g ++ [c]) true g in
        g ← Configtable_insert_cfg c g;
        Ok (c, g)
    end.

(** the symbols after the nonterminal: what they can begin with goes to the follow
    set of [newcfp]; the result says that all of them can be empty *)
Fixpoint add_tokens (newcfp : nat) (subs : list nat) g : res gen :=
  match subs with
  | [] => Ok g
  | j :: subs =>
      c ← cfg_at g newcfp;
      let* (_, s) := SetAdd (cfp_fws c) (sp_index (sym ss j)) in
      add_tokens newcfp subs (upd_cfg (upd_fws s) newcfp g)
  end.
Fixpoint closure_follow (newcfp : nat) (rest : list nat) g : res (bool * gen) :=
  match rest with
  | [] => Ok (true, g)
  | x :: rest =>
      let xsp := sym ss x in
      match sp_type xsp with
      | TERMINAL => g ← add_tokens newcfp [x] g; Ok (false, g)
      | MULTITERMINAL => g ← add_tokens newcfp (sp_subsym xsp) g; Ok (false, g)
      | NONTERMINAL =>
          c ← cfg_at g newcfp;
          f ← of_opt NullDeref (sp_firstset xsp);
          let g := upd_cfg (upd_fws (SetUnion (cfp_fws c) f).2) newcfp g in
          if sp_lambda xsp then closure_follow newcfp rest g else Ok (false, g)
      end
  end.
(** one rule of the nonterminal after the dot of [c] *)
Definition closure_rule (c : nat) (rest : list nat) (newrp : nat) g : res gen :=
  let* (newcfp, g) := Configlist_add newrp 0 g in
  let* (empty, g) := closure_follow newcfp rest g in
  if (empty : bool) then Ok (upd_cfg (λ cf, upd_fplp (Plink_add (cfp_fplp cf) newcfp) cf) c g) else Ok g.
Fixpoint closure_rules (c : nat) (rest : list nat) (rules : list nat) g : res gen :=
  match rules with
  | [] => Ok g
  | newrp :: rules => g ← closure_rule c rest newrp g; closure_rules c rest rules g
  end.
Definition closure_one (c : nat) g : res gen :=
  cf ← cfg_at g c;
  match rp_rhs (rul rs (cfp_rp cf)) !! Z.to_nat (cfp_dot cf) with
  | None => Ok g                              (* the dot is at the end *)
  | Some s =>
      let sp := sym ss s in
      if decide (sp_type sp = NONTERMINAL) then
        let g := if bool_decide (sp_rule sp = []) && negb (bool_decide (errsym = Some s))
                 then upd_errorcnt (g_errorcnt g + 1) g else g in
        closure_rules c (drop (S (Z.to_nat (cfp_dot cf))) (rp_rhs (rul rs (cfp_rp cf)))) (sp_rule sp) g
      else Ok g
  end.
(** the loop along [next], which also visits what it appends *)
Fixpoint closure_loop (fuel : nat) (k : nat) g : res gen :=
  match g_current g !! k with
  | None => Ok g
  | Some c =>
      match fuel with
      | O => Err OutOfFuel
      | S fuel => g ← closure_one c g; closure_loop fuel (S k) g
      end
  end.
(** how many configurations the grammar has *)
Definition nitems : nat := sum_list_with (λ r, S (length (rp_rhs r))) rs.
Definition Configlist_closure g : res gen :=
  if negb (g_currentend g) then Err ExitCalled else closure_loop nitems 0 g.

Definition cfg_cmp (cs : list config) (a b : nat) : Z := Configcmp (cfg_key cs a) (cfg_key cs b).
Definition Configlist_sort g : gen := upd_current (msort (cfg_cmp (g_cfgs g)) (g_current g)) false g.
(** the list that is sorted is the one the [bp] fields thread from [current] on *)
Definition Configlist_sortbasis g : gen :=
  let l := match g_current g with [] => [] | c :: _ => list_from c (g_basis g) end in
  upd_basis (msort (cfg_cmp (g_cfgs g)) l) false g.
Definition Configlist_return g : list nat * gen := (g_current g, upd_current [] false g).
Definition Configlist_basis g : list nat * gen := (g_basis g, upd_basis [] false g).
Fixpoint Configlist_eat (l : list nat) g : res gen :=
  match l with
  | [] => Ok g
  | c :: l =>
      cf ← cfg_at g c;
      if negb (bool_decide (cfp_fplp cf = [])) || negb (bool_decide (cfp_bplp cf = [])) then Err ExitCalled
      else Configlist_eat l (deleteconfig c g)
  end.

(** the back links of the configurations [xs] go to those of the existing state *)
Fixpoint copy_links (xs ys : list nat) g : gen :=
  match xs, ys with
  | x :: xs, y :: ys =>
      let g := upd_cfg (λ cf, upd_bplp (Plink_copy (cfp_bplp cf) (cfp_bplp (cfg (g_cfgs g) x))) cf) y g in
      let g := upd_cfg (λ cf, upd_bplp [] (upd_fplp [] cf)) x g in
      copy_links xs ys g
  | _, _ => g
  end.

Definition same_symbol (a b : nat) : bool :=
  bool_decide (a = b) ||
  (bool_decide (sp_type (sym ss a) = MULTITERMINAL) && bool_decide (sp_type (sym ss b) = MULTITERMINAL) &&
   bool_decide (sp_subsym (sym ss a) = sp_subsym (sym ss b))).

(** ** [getstate] and [buildshifts] *)

(** the symbol after the dot *)
Definition after (it : nat * Z) : option nat := rp_rhs (rul rs it.1) !! Z.to_nat it.2.

(** the inner loop: the configurations before [sp], advanced, become the new basis *)
Fixpoint collect_shifts (sp : nat) (l : list nat) g : res gen :=
  match l with
  | [] => Ok g
  | b :: l =>
      bc ← cfg_at g b;
      if decide (cfp_status bc = COMPLETE) then collect_shifts sp l g
      else
        match after (cfp_rp bc, cfp_dot bc) with
        | None => collect_shifts sp l g
        | Some bsp =>
            if negb (same_symbol bsp sp) then collect_shifts sp l g
            else
              let g := upd_cfg (upd_status COMPLETE) b g in
              let* (n, g) := Configlist_addbasis (cfp_rp bc) (cfp_dot bc + 1) g in
              collect_shifts sp l (upd_cfg (λ cf, upd_bplp (Plink_add (cfp_bplp cf) b) cf) n g)
        end
  end.

(** the shift actions of state [stp] on the tokens of [sp] *)
Fixpoint add_shifts (stp newstp : nat) (toks : list nat) g : res gen :=
  match toks with
  | [] => Ok g
  | sp :: toks =>
      let* (ap, pool) := Action_add calloc (stp_ap (stt (g_states g) stp)) SHIFT sp (XState newstp) (g_pool g) in
      add_shifts stp newstp toks (upd_pool pool (upd_states (alter (upd_ap ap) stp (g_states g)) g))
  end.
Definition shift_tokens (sp : nat) : list nat :=
  if decide (sp_type (sym ss sp) = MULTITERMINAL) then sp_subsym (sym ss sp) else [sp].

Section Rec.
(** the call of [getstate] *)
Context (getstate : gen → res (nat * gen)).

Fixpoint shift_loop (stp : nat) (l : list nat) g : res gen :=
  match l with
  | [] => Ok g
  | c :: l' =>
      cf ← cfg_at g c;
      if decide (cfp_status cf = COMPLETE) then shift_loop stp l' g
      else
        match after (cfp_rp cf, cfp_dot cf) with
        | None => shift_loop stp l' g
        | Some sp =>
            let g := Configlist_reset g in
            g ← collect_shifts sp l g;
            let* (newstp, g) := getstate g in
            g ← add_shifts stp newstp (shift_tokens sp) g;
            shift_loop stp l' g
        end
  end.
Definition buildshifts (stp : nat) g : res gen :=
  let l := stp_cfp (stt (g_states g) stp) in
  shift_loop stp l (upd_cfgs (foldr (alter (upd_status INCOMPLETE)) (g_cfgs g) l) g).
End Rec.

Fixpoint getstate (fuel : nat) g : res (nat * gen) :=
  match fuel with
  | O => Err OutOfFuel
  | S fuel =>
      let g := Configlist_sortbasis g in
      let '(bp, g) := Configlist_basis g in
      r ← State_find (g_x3 g) (cfg_key (g_cfgs g) <$> bp);
      match r with
      | Some stp =>
          let g := copy_links bp (stp_bp (stt (g_states g) stp)) g in
          let '(cfp, g) := Configlist_return g in
          g ← Configlist_eat cfp g;
          Ok (stp, g)
      | None =>
          g ← Configlist_closure g;
          let g := Configlist_sort g in
          let '(cfp, g) := Configlist_return g in
          if negb (malloc (length (g_states g))) then Err ExitCalled
          else
            let stp := length (g_states g) in
            let st := mkState bp cfp (Z.of_nat stp) [] 0 0 0 0 0 None false in
            let g := upd_states (g_states g ++ [st]) g in
            let* (_, x) := State_insert calloc_ok (g_x3 g) (stp, cfg_key (g_cfgs g) <$> bp) in
            g ← buildshifts (getstate fuel) stp (upd_x3 x g);
            Ok (stp, g)
      end
  end.

(** ** [FindStates] *)

(** the rules of the start symbol become the basis of the first state; "$", the
    symbol with index 0, may follow them *)
Fixpoint start_basis (rules : list nat) g : res gen :=
  match rules with
  | [] => Ok g
  | rp :: rules =>
      let* (c, g) := Configlist_addbasis rp 0 g in
      cf ← cfg_at g c;
      let* (_, s) := SetAdd (cfp_fws cf) 0 in
      start_basis rules (upd_cfg (upd_fws s) c g)
  end.
(** an error for every time the start symbol is used on a right-hand side *)
Definition start_uses (sp : nat) (rules : list nat) : Z :=
  foldr (λ rp n, zlen (filter (λ s, s = sp) (rp_rhs (rul rs rp))) + n) 0 rules.

(** the start symbol: the one of [%start], or the left-hand side of the first rule;
    with the number of errors found *)
Definition start_symbol (tab : symtab) (start : option cstr) (startRule : option nat) : res (nat * Z) :=
  match start, startRule with
  | Some name, _ =>
      r ← Symbol_find tab name;
      match r with
      | Some sp => Ok (sp, 0)
      | None => rp ← of_opt NullDeref startRule; Ok (rp_lhs (rul rs rp), 1)
      end
  | None, Some rp => Ok (rp_lhs (rul rs rp), 0)
  | None, None => Err ExitCalled
  end.

(** The flag [lhsStart] of the rules of the start symbol is
    set; nothing in the construction reads it. *)
Definition FindStates (fuel : nat) (tab : symtab) (lem : lemon) g : res (list rule * gen) :=
  g ← Configlist_init g;
  let* (sp, err) := start_symbol tab (lem_start lem) (lem_startRule lem) in
  let g := upd_errorcnt (g_errorcnt g + err + start_uses sp (lem_rule lem)) g in
  g ← start_basis (sp_rule (sym ss sp)) g;
  let* (_, g) := getstate fuel g in
  Ok (foldr (alter (upd_lhsStart true)) rs (sp_rule (sym ss sp)), g).
End Build.
