(* ===== verification/LemonLR0.v ===== *)
(** The automaton that [FindStates] builds is the LR(0) automaton of the grammar:
    specification and proof for the construction of [LemonStates]. Items are pairs
    of a rule and a dot; a state is known by the items of its basis. *)
From S2P Require Import Prelude LemonTable LemonData LemonSort LemonFirst LemonSymbol LemonActions LemonStates.

(** computing the fields of an updated builder *)
Ltac gsimp := cbn [g_cfgs g_freelist g_current g_currentend g_basis g_basisend g_x4 g_x3 g_states g_pool g_errorcnt
  upd_cfgs upd_freelist upd_current upd_basis upd_x4 upd_x3 upd_states upd_pool upd_errorcnt upd_cfg Configlist_sort].
Tactic Notation "gsimp" "in" hyp(H) := cbn [g_cfgs g_freelist g_current g_currentend g_basis g_basisend g_x4 g_x3 g_states g_pool g_errorcnt
  upd_cfgs upd_freelist upd_current upd_basis upd_x4 upd_x3 upd_states upd_pool upd_errorcnt upd_cfg Configlist_sort] in H.

(** ** Lists of keys *)

Definition key_lt (a b : key) : Prop := a.1 < b.1 ∨ a.1 = b.1 ∧ a.2 < b.2.
Definition key_le (a b : key) : Prop := Configcmp a b ≤ 0.

Lemma key_le_lt a b : key_le a b ↔ key_lt a b ∨ a = b.
Proof.
  unfold key_le, key_lt, Configcmp. destruct a as [r1 d1], b as [r2 d2]. cbn.
  destruct (Z.eqb_spec (r1 - r2) 0); split.
  - intros H. destruct (decide (d1 = d2)); [right; f_equal; lia|left; right; lia].
  - intros [[?|?]|[= -> ->]]; lia.
  - intros H. left. left. lia.
  - intros [[?|?]|[= -> ->]]; lia.
Qed.
Lemma key_lt_irrefl a : ¬ key_lt a a.
Proof. unfold key_lt. lia. Qed.
Lemma key_lt_trans a b c : key_lt a b → key_lt b c → key_lt a c.
Proof. unfold key_lt. lia. Qed.
Lemma key_lt_total a b : key_lt a b ∨ a = b ∨ key_lt b a.
Proof.
  unfold key_lt. destruct a as [r1 d1], b as [r2 d2]. cbn.
  destruct (decide (r1 = r2)) as [->|]; [|lia]. destruct (decide (d1 = d2)) as [->|]; [auto|lia].
Qed.

Lemma key_le_total a b : key_le a b ∨ key_le b a.
Proof. rewrite !key_le_lt. destruct (key_lt_total a b) as [?|[?|?]]; auto. Qed.
Lemma key_le_trans a b c : key_le a b → key_le b c → key_le a c.
Proof. rewrite !key_le_lt. intros [H1| ->] [H2| ->]; eauto using key_lt_trans. Qed.

(** a list ordered by [Configcmp] without duplicate keys is strictly ordered *)
Lemma sorted_strict (l : list key) : StronglySorted key_le l → NoDup l → StronglySorted key_lt l.
Proof.
  induction 1 as [|x l Hs IH Hx]; intros Hn; [constructor|]. apply NoDup_cons in Hn as [Hnin Hn].
  constructor; [by apply IH|]. rewrite Forall_forall in *. intros y Hy. specialize (Hx y Hy).
  apply key_le_lt in Hx as [?| ->]; done.
Qed.

Lemma strict_NoDup (l : list key) : StronglySorted key_lt l → NoDup l.
Proof.
  induction 1 as [|x l Hs IH Hx]; constructor; [|done]. intros Hin. rewrite Forall_forall in Hx.
  by apply (key_lt_irrefl x), Hx.
Qed.

(** strictly ordered lists with the same elements are equal *)
Lemma strict_ext (l k : list key) : StronglySorted key_lt l → StronglySorted key_lt k →
  (∀ x, x ∈ l ↔ x ∈ k) → l = k.
Proof.
  intros Hl. revert k. induction Hl as [|x l Hs IH Hx]; intros k Hk He.
  - destruct k as [|y k]; [done|]. exfalso. apply (not_elem_of_nil y), He. by left.
  - destruct Hk as [|y k Hks Hy]; [exfalso; apply (not_elem_of_nil x), He; by left|].
    rewrite Forall_forall in Hx, Hy.
    assert (x = y) as ->.
    { assert (x ∈ y :: k) as [?|Hxk]%elem_of_cons by (apply He; by left); [done|].
      assert (y ∈ x :: l) as [?|Hyl]%elem_of_cons by (apply He; by left); [done|].
      exfalso. apply (key_lt_irrefl x). eapply key_lt_trans; [by apply Hx|by apply Hy]. }
    f_equal. apply IH; [done|]. intros z. specialize (He z). rewrite !elem_of_cons in He. split; intros Hz.
    + destruct (proj1 He (or_intror Hz)) as [->|?]; [|done]. by destruct (key_lt_irrefl y); apply Hx.
    + destruct (proj2 He (or_intror Hz)) as [->|?]; [|done]. by destruct (key_lt_irrefl y); apply Hy.
Qed.

(** all sublists *)
Fixpoint sublists {A} (l : list A) : list (list A) :=
  match l with [] => [[]] | x :: l => ((x ::.) <$> sublists l) ++ sublists l end.
Lemma length_sublists {A} (l : list A) : length (sublists l) = (2 ^ length l)%nat.
Proof. induction l as [|x l IH]; [done|]. cbn [sublists]. rewrite length_app, length_fmap, IH. cbn. lia. Qed.
Lemma nil_sublists {A} (l : list A) : [] ∈ sublists l.
Proof. induction l; cbn; [by left|]. apply elem_of_app. by right. Qed.

Lemma strict_sublist (u k : list key) : StronglySorted key_lt u → StronglySorted key_lt k →
  (∀ x, x ∈ k → x ∈ u) → k ∈ sublists u.
Proof.
  intros Hu. revert k. induction Hu as [|x u Hs IH Hx]; intros k Hk Hi.
  - destruct k as [|y k]; [by left|]. destruct (not_elem_of_nil y). apply Hi. by left.
  - rewrite Forall_forall in Hx. cbn [sublists]. apply elem_of_app. destruct Hk as [|y k Hks Hy].
    + right. apply nil_sublists.
    + rewrite Forall_forall in Hy. assert (y ∈ x :: u) as [->|Hyu]%elem_of_cons by (apply Hi; by left).
      * left. apply list_elem_of_fmap. exists k. split; [done|]. apply IH; [done|]. intros z Hz.
        assert (z ∈ x :: u) as [->|?]%elem_of_cons by (apply Hi; by right); [|done].
        by destruct (key_lt_irrefl x); apply Hy.
      * right. apply IH; [by constructor; [|rewrite Forall_forall]|]. intros z Hz.
        assert (z ∈ x :: u) as [->|?]%elem_of_cons by (by apply Hi); [|done].
        apply elem_of_cons in Hz as [->|Hz]; [done|].
        destruct (key_lt_irrefl x). eapply key_lt_trans; [by apply Hx|by apply Hy].
Qed.

Lemma NoDup_length_le {A} (l k : list A) : NoDup l → (∀ x, x ∈ l → x ∈ k) → (length l ≤ length k)%nat.
Proof. intros Hn Hi. by apply submseteq_length, NoDup_submseteq. Qed.

(** ** The grammar *)

Notation item := (nat * Z)%type.

Section LR0.
Context (ss : list symbol) (rs : list rule) (errsym : option nat) (size : Z).

Definition valid_item (it : item) : Prop :=
  (it.1 < length rs)%nat ∧ 0 ≤ it.2 ≤ zlen (rp_rhs (rul rs it.1)).

Record grammar_ok : Prop := {
  gr_index : ∀ i j, (i < length rs)%nat → (j < length rs)%nat → rp_index (rul rs i) = rp_index (rul rs j) → i = j;
  gr_rules : ∀ s r, r ∈ sp_rule (sym ss s) → (r < length rs)%nat;
  gr_tokens : ∀ s, sp_type (sym ss s) = TERMINAL → s ∈ concat (rp_rhs <$> rs) → 0 ≤ sp_index (sym ss s) < size;
  gr_multi : ∀ s j, sp_type (sym ss s) = MULTITERMINAL → j ∈ sp_subsym (sym ss s) → 0 ≤ sp_index (sym ss j) < size;
  gr_first : ∀ s, sp_type (sym ss s) = NONTERMINAL → s ∈ concat (rp_rhs <$> rs) →
    ∃ f, sp_firstset (sym ss s) = Some f ∧ zlen f = size;
  gr_size : 0 < size;
  gr_small : (nitems rs < 2 ^ LISTSIZE)%nat;
}.

(** *** The items of the grammar *)

Definition all_items : list item :=
  concat (imap (λ i r, (λ d, (i, Z.of_nat d)) <$> seq 0 (S (length (rp_rhs r)))) rs).

Lemma length_all_items : length all_items = nitems rs.
Proof.
  unfold all_items, nitems. generalize rs. intros l.
  assert (∀ f : nat → nat, length (concat (imap (λ i r, (λ d, (f i, Z.of_nat d)) <$> seq 0 (S (length (rp_rhs r)))) l)) =
    sum_list_with (λ r, S (length (rp_rhs r))) l) as H; [|apply (H id)].
  induction l as [|r l IH]; intros f; [done|]. rewrite imap_cons. cbn [concat sum_list_with].
  rewrite length_app, length_fmap, length_seq. f_equal. apply (IH (f ∘ S)).
Qed.

Lemma elem_of_all_items it : it ∈ all_items ↔ valid_item it.
Proof.
  unfold all_items, valid_item, zlen. destruct it as [i d]. cbn [fst snd]. rewrite list_elem_of_In, in_concat. split.
  - intros (l&Hl&Hin). apply list_elem_of_In, list_elem_of_lookup in Hl as [k Hk].
    rewrite list_lookup_imap in Hk. destruct (rs !! k) as [r|] eqn:Er; [|done]. apply (inj Some) in Hk. subst l.
    apply list_elem_of_In, list_elem_of_fmap in Hin as (n&[= -> ->]&Hn). apply elem_of_seq in Hn.
    unfold rul. rewrite Er. cbn. pose proof (lookup_lt_Some _ _ _ Er). lia.
  - intros [Hi Hd]. destruct (lookup_lt_is_Some_2 rs i Hi) as [r Er]. unfold rul in Hd. rewrite Er in Hd. cbn in Hd.
    exists ((λ d, (i, Z.of_nat d)) <$> seq 0 (S (length (rp_rhs r)))). split.
    + apply list_elem_of_In, (list_elem_of_lookup_2 _ i). by rewrite list_lookup_imap, Er.
    + apply list_elem_of_In, list_elem_of_fmap. exists (Z.to_nat d). split; [f_equal; lia|]. apply elem_of_seq. lia.
Qed.

Lemma items_le_nitems (l : list item) : NoDup l → (∀ it, it ∈ l → valid_item it) → (length l ≤ nitems rs)%nat.
Proof.
  intros Hn Hv. rewrite <- length_all_items. apply NoDup_length_le; [done|]. intros it Hit. by apply elem_of_all_items, Hv.
Qed.

Context (Hgr : grammar_ok).

Lemma item_key_inj it it' : valid_item it → valid_item it' → item_key rs it = item_key rs it' → it = it'.
Proof.
  destruct it as [i d], it' as [j e]. intros [Hi _] [Hj _] [= Hr Hd]. cbn in *. f_equal; [|done]. by apply (gr_index Hgr).
Qed.

(** the keys of all items in order; a strictly ordered list of keys of items is one
    of its sublists *)
Definition all_keys : list key := msort Configcmp (remove_dups (item_key rs <$> all_items)).

Lemma msort_keys (l : list key) : (length l < 2 ^ LISTSIZE)%nat →
  StronglySorted key_le (msort Configcmp l) ∧ msort Configcmp l ≡ₚ l.
Proof.
  intros Hl. apply msort_ok; [exact key_le_total|exact key_le_trans|done].
Qed.

Lemma remove_dups_le {A} `{EqDecision A} (l : list A) : (length (remove_dups l) ≤ length l)%nat.
Proof. induction l as [|x l IH]; cbn; [done|]. case_decide; cbn; lia. Qed.

Lemma all_keys_small : (length (remove_dups (item_key rs <$> all_items)) < 2 ^ LISTSIZE)%nat.
Proof.
  pose proof (gr_small Hgr) as Hs. pose proof (remove_dups_le (item_key rs <$> all_items)) as Hd.
  rewrite length_fmap, length_all_items in Hd. eapply Nat.le_lt_trans; [exact Hd|exact Hs].
Qed.

Lemma all_keys_strict : StronglySorted key_lt all_keys.
Proof.
  destruct (msort_keys _ all_keys_small) as [H1 H2]. apply sorted_strict; [done|]. unfold all_keys. rewrite H2. apply NoDup_remove_dups.
Qed.
Lemma elem_of_all_keys it : valid_item it → item_key rs it ∈ all_keys.
Proof.
  intros Hv. destruct (msort_keys _ all_keys_small) as [_ H2]. unfold all_keys. rewrite H2, elem_of_remove_dups.
  apply list_elem_of_fmap. exists it. split; [done|]. by apply elem_of_all_items.
Qed.
Lemma length_all_keys : (length all_keys ≤ nitems rs)%nat.
Proof.
  destruct (msort_keys _ all_keys_small) as [_ H2]. unfold all_keys. rewrite H2.
  pose proof (remove_dups_le (item_key rs <$> all_items)) as Hd. by rewrite length_fmap, length_all_items in Hd.
Qed.

(** *** Closure and successors *)

Inductive closure (K : item → Prop) : item → Prop :=
  | cl_basis it : K it → closure K it
  | cl_rule it s r : closure K it → after rs it = Some s → sp_type (sym ss s) = NONTERMINAL →
      r ∈ sp_rule (sym ss s) → closure K (r, 0).

(** the items after shifting a symbol that is the same as [s] *)
Definition goto (C : item → Prop) (s : nat) (it : item) : Prop :=
  ∃ it0 s', C it0 ∧ after rs it0 = Some s' ∧ same_symbol ss s' s = true ∧ it = (it0.1, it0.2 + 1).

Lemma after_valid it s : valid_item it → after rs it = Some s → valid_item (it.1, it.2 + 1).
Proof.
  intros [H1 H2] Ha%lookup_lt_Some. split; [done|]. cbn [fst snd]. unfold zlen in *. lia.
Qed.
Lemma rule_valid s r : r ∈ sp_rule (sym ss s) → valid_item (r, 0).
Proof. intros Hr. split; [by eapply (gr_rules Hgr)|]. cbn. pose proof (zlen_nonneg (rp_rhs (rul rs r))). lia. Qed.
Lemma after_in it s : valid_item it → after rs it = Some s → s ∈ concat (rp_rhs <$> rs).
Proof.
  intros [H1 _] Ha. destruct (lookup_lt_is_Some_2 rs it.1 H1) as [r Hr]. unfold after, rul in Ha. rewrite Hr in Ha. cbn in Ha.
  apply list_elem_of_In, in_concat. exists (rp_rhs r). split; apply list_elem_of_In; [|by eapply list_elem_of_lookup_2].
  apply list_elem_of_fmap. exists r. split; [done|]. by eapply list_elem_of_lookup_2.
Qed.

Lemma same_symbol_spec a b : same_symbol ss a b = true ↔
  a = b ∨ sp_type (sym ss a) = MULTITERMINAL ∧ sp_type (sym ss b) = MULTITERMINAL ∧ sp_subsym (sym ss a) = sp_subsym (sym ss b).
Proof.
  unfold same_symbol. rewrite orb_true_iff, !andb_true_iff, !bool_decide_eq_true. tauto.
Qed.
Lemma same_symbol_refl a : same_symbol ss a a = true.
Proof. apply same_symbol_spec. by left. Qed.
Lemma same_symbol_sym a b : same_symbol ss a b = true → same_symbol ss b a = true.
Proof. rewrite !same_symbol_spec. intros [->|(?&?&?)]; [by left|right; by split_and!]. Qed.
Lemma same_symbol_trans a b c : same_symbol ss a b = true → same_symbol ss b c = true → same_symbol ss a c = true.
Proof. rewrite !same_symbol_spec. intros [->|(?&?&?)] [->|(?&?&?)]; auto. right. split_and!; congruence. Qed.
Lemma same_symbol_tokens a b : same_symbol ss a b = true → shift_tokens ss a = shift_tokens ss b.
Proof.
  rewrite same_symbol_spec. intros [->|(H1&H2&H3)]; [done|]. unfold shift_tokens. by rewrite !decide_True by done.
Qed.
Lemma goto_same C a b it : same_symbol ss a b = true → goto C a it ↔ goto C b it.
Proof.
  intros Hab. split; intros (it0&s'&H1&H2&H3&->); exists it0, s'; split_and!; try done.
  - by eapply same_symbol_trans.
  - eapply same_symbol_trans; [exact H3|]. by apply same_symbol_sym.
Qed.

(** ** The builder *)

Context (calloc_ok : Z → bool) (calloc : nat → option Z) (malloc : nat → bool).
Context (Hcalloc_ok : ∀ n, calloc_ok n = true) (Hcalloc : ∀ n, is_Some (calloc n)) (Hmalloc : ∀ n, malloc n = true).
Implicit Types (g : gen) (cs : list config).

Definition items cs (l : list nat) : list item := cfg_item cs <$> l.
Definition cfgs_ok cs : Prop := ∀ c cf, cs !! c = Some cf → zlen (cfp_fws cf) = size ∧ valid_item (cfp_rp cf, cfp_dot cf).

(** configurations are added, and keep their rule and dot; those that satisfy [P]
    keep their status *)
Definition cext (P : nat → Prop) cs cs' : Prop :=
  (length cs ≤ length cs')%nat ∧
  ∀ c, (c < length cs)%nat → cfg_item cs' c = cfg_item cs c ∧ (P c → cfp_status (cfg cs' c) = cfp_status (cfg cs c)).
Notation cext_all := (cext (λ _, True)).

Lemma cext_refl P cs : cext P cs cs.
Proof. split; [done|]. by intros. Qed.
Lemma cext_trans (P Q R : nat → Prop) cs1 cs2 cs3 : (∀ c, (c < length cs1)%nat → R c → P c ∧ Q c) →
  cext P cs1 cs2 → cext Q cs2 cs3 → cext R cs1 cs3.
Proof.
  intros HR [L1 H1] [L2 H2]. split; [lia|]. intros c Hc. destruct (H1 c Hc) as [I1 S1], (H2 c ltac:(lia)) as [I2 S2].
  split; [congruence|]. intros Hr. destruct (HR c Hc Hr). rewrite S2, S1; done.
Qed.
Lemma cext_all_trans cs1 cs2 cs3 : cext_all cs1 cs2 → cext_all cs2 cs3 → cext_all cs1 cs3.
Proof. apply cext_trans. done. Qed.
Lemma cext_weaken (P Q : nat → Prop) cs cs' : (∀ c, Q c → P c) → cext P cs cs' → cext Q cs cs'.
Proof. intros HQ [L H]. split; [done|]. intros c Hc. destruct (H c Hc). auto. Qed.

Lemma cext_status P cs cs' c : cext P cs cs' → (c < length cs)%nat → P c → cfp_status (cfg cs' c) = cfp_status (cfg cs c).
Proof. intros [_ H] Hc Hp. by apply H. Qed.
Lemma cext_key P cs cs' c : cext P cs cs' → (c < length cs)%nat → cfg_key rs cs' c = cfg_key rs cs c.
Proof. intros [_ H] Hc. unfold cfg_key. by destruct (H c Hc) as [-> _]. Qed.
Lemma cext_items P cs cs' l : cext P cs cs' → Forall (λ c, (c < length cs)%nat) l → items cs' l = items cs l.
Proof.
  intros [_ H] Hl. unfold items. apply list_fmap_ext. intros i c Hc. apply H. rewrite Forall_lookup in Hl. eauto.
Qed.
Lemma cext_keys P cs cs' l : cext P cs cs' → Forall (λ c, (c < length cs)%nat) l → cfg_key rs cs' <$> l = cfg_key rs cs <$> l.
Proof.
  intros H Hl. apply list_fmap_ext. intros i c Hc. eapply cext_key; [done|]. rewrite Forall_lookup in Hl. eauto.
Qed.

Lemma cfg_at_lt g c : (c < length (g_cfgs g))%nat → cfg_at g c = Ok (cfg (g_cfgs g) c) ∧ g_cfgs g !! c = Some (cfg (g_cfgs g) c).
Proof.
  intros Hc. destruct (lookup_lt_is_Some_2 _ _ Hc) as [cf Hcf]. unfold cfg_at, cfg. by rewrite Hcf.
Qed.
Lemma cfg_ok cs c : cfgs_ok cs → (c < length cs)%nat → zlen (cfp_fws (cfg cs c)) = size ∧ valid_item (cfg_item cs c).
Proof.
  intros H Hc. destruct (lookup_lt_is_Some_2 _ _ Hc) as [cf Hcf]. unfold cfg_item, cfg. rewrite Hcf. cbn. by apply (H c).
Qed.

Record bld g : Prop := {
  b_x4 : table_ok (snd : nat * key → key) confighash Configcmp (g_x4 g);
  b_arr : x_arrayof (g_x4 g) = (λ c, (c, cfg_key rs (g_cfgs g) c)) <$> g_current g;
  b_end : g_currentend g = true;
  b_lt : Forall (λ c, (c < length (g_cfgs g))%nat) (g_current g);
  b_nodup : NoDup (items (g_cfgs g) (g_current g));
  b_cfgs : cfgs_ok (g_cfgs g);
}.

(** what no operation of the builder touches *)
Definition outer g : xtable (nat * list key) * list state * apool := (g_x3 g, g_states g, g_pool g).

(** a step that only changes fields of configurations other than rule, dot, status *)
Record quiet g g' : Prop := {
  q_cext : cext_all (g_cfgs g) (g_cfgs g');
  q_len : length (g_cfgs g') = length (g_cfgs g);
  q_cur : (g_current g', g_currentend g', g_basis g', g_basisend g', g_x4 g') =
          (g_current g, g_currentend g, g_basis g, g_basisend g, g_x4 g);
  q_outer : outer g' = outer g;
}.
Lemma quiet_refl g : quiet g g.
Proof. by constructor; try apply cext_refl. Qed.
Lemma quiet_trans g1 g2 g3 : quiet g1 g2 → quiet g2 g3 → quiet g1 g3.
Proof. intros [A1 B1 C1 D1] [A2 B2 C2 D2]. constructor; try congruence. by eapply cext_all_trans. Qed.

Lemma bld_quiet g g' : bld g → quiet g g' → cfgs_ok (g_cfgs g') → bld g'.
Proof.
  intros [H1 H2 H3 H4 H5 H6] [Q1 Q2 Q3 Q4] Hok. injection Q3 as Hc He _ _ Hx. constructor; try congruence.
  - rewrite Hx, H2, Hc. apply list_fmap_ext. intros i c Hi. f_equal. symmetry. eapply cext_key; [done|].
    rewrite Forall_lookup in H4. eauto.
  - rewrite Hc, Q2. done.
  - rewrite Hc, (cext_items _ _ _ _ Q1 H4). done.
  - done.
Qed.

(** changing one configuration *)
Lemma upd_cfg_cext (P : nat → Prop) f c g : (∀ cf, cfp_rp (f cf) = cfp_rp cf ∧ cfp_dot (f cf) = cfp_dot cf) →
  (P c → ∀ cf, cfp_status (f cf) = cfp_status cf) → cext P (g_cfgs g) (g_cfgs (upd_cfg f c g)).
Proof.
  intros Hf Hs. cbn [upd_cfg upd_cfgs g_cfgs]. split; [by rewrite length_alter|]. intros d Hd.
  destruct (lookup_lt_is_Some_2 _ _ Hd) as [cf Hcf]. unfold cfg_item, cfg.
  destruct (decide (c = d)) as [->|Hne].
  - rewrite list_lookup_alter_eq, Hcf. cbn. destruct (Hf cf) as [-> ->]. split; [done|]. intros Hp. by apply Hs.
  - by rewrite list_lookup_alter_ne by done.
Qed.
Lemma upd_cfg_ok f c g : (∀ cf, cfp_rp (f cf) = cfp_rp cf ∧ cfp_dot (f cf) = cfp_dot cf) →
  (∀ cf, g_cfgs g !! c = Some cf → zlen (cfp_fws (f cf)) = zlen (cfp_fws cf)) → cfgs_ok (g_cfgs g) → cfgs_ok (g_cfgs (upd_cfg f c g)).
Proof.
  intros Hf Hl Hok d cf Hd. cbn [upd_cfg upd_cfgs g_cfgs] in Hd. destruct (decide (c = d)) as [->|Hne].
  - rewrite list_lookup_alter_eq in Hd. destruct (g_cfgs g !! d) as [cf0|] eqn:E; [|done]. injection Hd as <-.
    rewrite (Hl cf0) by done. destruct (Hf cf0) as [-> ->]. by apply (Hok d).
  - rewrite list_lookup_alter_ne in Hd by done. by apply (Hok d).
Qed.
Lemma upd_cfg_quiet f c g : (∀ cf, cfp_rp (f cf) = cfp_rp cf ∧ cfp_dot (f cf) = cfp_dot cf) →
  (∀ cf, cfp_status (f cf) = cfp_status cf) → quiet g (upd_cfg f c g).
Proof. intros Hf Hs. constructor; try done; [by apply upd_cfg_cext|]. cbn. by rewrite length_alter. Qed.

Lemma key_table_find (x : xtable (nat * key)) (k : key) :
  table_ok (snd : nat * key → key) confighash Configcmp x →
  ∃ r, Configtable_find (snd : nat * key → key) x k = Ok r ∧ ∀ e, r = Some e ↔ e ∈ x_arrayof x ∧ e.2 = k.
Proof.
  intros Hx. destruct (x_find_ok (snd : nat * key → key) confighash Configcmp) with (x := x) (key := k) as (r&Hr&Hi).
  - intros ? ? ->%Configcmp_eq. by apply Configcmp_eq.
  - intros ? ? ? ->%Configcmp_eq ->%Configcmp_eq. by apply Configcmp_eq.
  - by intros ? ? ->%Configcmp_eq.
  - done.
  - exists r. split; [exact Hr|]. intros e. rewrite Hi. by rewrite Configcmp_eq.
Qed.

Lemma find_item_ok it g : bld g → valid_item it →
  ∃ r, Configtable_find_item rs it g = Ok r ∧ ∀ c, r = Some c ↔ c ∈ g_current g ∧ cfg_item (g_cfgs g) c = it.
Proof.
  intros [H1 H2 H3 H4 H5 H6] Hv. destruct (key_table_find (g_x4 g) (item_key rs it) H1) as (r&Hr&Hi).
  unfold Configtable_find_item. rewrite Hr. eexists. split; [done|]. intros c.
  assert (∀ d, (d, item_key rs it) ∈ x_arrayof (g_x4 g) ↔ d ∈ g_current g ∧ cfg_item (g_cfgs g) d = it) as Harr.
  { intros d. rewrite H2, list_elem_of_fmap. split.
    - intros (d'&He&Hd). assert (d = d') as <- by congruence. split; [done|]. rewrite Forall_forall in H4.
      apply item_key_inj; [by apply cfg_ok, H4|done|]. symmetry. by apply (f_equal snd) in He.
    - intros [Hd <-]. by exists d. }
  destruct r as [[d k]|]; cbn [option_map].
  - destruct (proj1 (Hi (d, k)) eq_refl) as [He Hk]. cbn in Hk. subst k. apply Harr in He as [Hd He]. split.
    + intros [= <-]. done.
    + intros [Hc Hce]. f_equal. cbn. assert (Some (d, item_key rs it) = Some (c, item_key rs it)) as E.
      { apply Hi. split; [|done]. by apply Harr. }
      congruence.
  - split; [done|]. intros Hc. apply Harr in Hc. by pose proof (proj2 (Hi (c, item_key rs it)) (conj Hc eq_refl)).
Qed.

(** the builder grows: configurations are appended to [current] *)
Record grow g g' : Prop := {
  w_cext : cext_all (g_cfgs g) (g_cfgs g');
  w_outer : outer g' = outer g;
  w_cur : g_current g `prefix_of` g_current g';
  w_new : ∀ c, c ∈ g_current g' → c ∈ g_current g ∨ (length (g_cfgs g) ≤ c)%nat;
}.
Lemma grow_quiet g g' : quiet g g' → grow g g'.
Proof. intros [H1 _ H2 H3]. injection H2 as H2 _ _ _ _. constructor; [done|done|by rewrite H2|rewrite H2; auto]. Qed.
Lemma grow_trans g1 g2 g3 : grow g1 g2 → grow g2 g3 → grow g1 g3.
Proof.
  intros [A1 B1 C1 D1] [A2 B2 C2 D2]. constructor; [by eapply cext_all_trans|congruence|by trans (g_current g2)|].
  intros c Hc. destruct (D2 c Hc) as [Hc2|Hc2]; [auto|]. right. destruct A1. lia.
Qed.
Lemma grow_refl g : grow g g.
Proof. apply grow_quiet, quiet_refl. Qed.

Lemma grow_items g g' : grow g g' → bld g →
  ∃ l, items (g_cfgs g') (g_current g') = items (g_cfgs g) (g_current g) ++ l.
Proof.
  intros [H1 _ [l Hl] _] Hb. exists (items (g_cfgs g') l). rewrite Hl. unfold items. rewrite fmap_app. f_equal.
  apply (cext_items _ _ _ _ H1). apply (b_lt _ Hb).
Qed.

Lemma cext_snoc cs cf : cext_all cs (cs ++ [cf]).
Proof.
  split; [rewrite length_app; lia|]. intros c Hc. unfold cfg_item, cfg. by rewrite lookup_app_l.
Qed.

(** the configuration of a new item *)
Definition with_new (rp : nat) (dot : Z) (l : list nat) (e : bool) g : gen :=
  upd_basis l e (upd_current (g_current g ++ [length (g_cfgs g)]) true
    (upd_cfgs (g_cfgs g ++ [mkConfig rp dot (SetNew size) [] [] None COMPLETE]) g)).

Lemma insert_new rp dot l e g : bld g → valid_item (rp, dot) → (rp, dot) ∉ items (g_cfgs g) (g_current g) →
  ∃ g', Configtable_insert_cfg rs calloc_ok (length (g_cfgs g)) (with_new rp dot l e g) = Ok g' ∧ bld g' ∧ grow g g' ∧
    g_current g' = g_current g ++ [length (g_cfgs g)] ∧ g_basis g' = l ∧ g_basisend g' = e ∧
    cfg_item (g_cfgs g') (length (g_cfgs g)) = (rp, dot) ∧ length (g_cfgs g') = S (length (g_cfgs g)).
Proof.
  intros Hb Hv Hnew. set (c := length (g_cfgs g)). set (cs' := g_cfgs g ++ [mkConfig rp dot (SetNew size) [] [] None COMPLETE]).
  pose proof (cext_snoc (g_cfgs g) (mkConfig rp dot (SetNew size) [] [] None COMPLETE) : cext_all (g_cfgs g) cs') as Hx.
  assert (cfg_item cs' c = (rp, dot)) as Hit by (unfold cfg_item, cfg, cs', c; by rewrite list_lookup_middle).
  destruct Hb as [H1 H2 H3 H4 H5 H6].
  assert ((λ d, (d, cfg_key rs cs' d)) <$> g_current g = (λ d, (d, cfg_key rs (g_cfgs g) d)) <$> g_current g) as Hkeys.
  { apply list_fmap_ext. intros i d Hd. f_equal. eapply cext_key; [done|]. rewrite Forall_lookup in H4. eauto. }
  unfold Configtable_insert_cfg, with_new. cbn [g_x4 g_cfgs upd_basis upd_current upd_cfgs].
  destruct (x_insert_ok (snd : nat * key → key) confighash Configcmp calloc_ok) with (x := g_x4 g) (e := (c, cfg_key rs cs' c))
    as [(e'&_&He&Hc)|(_&[(x'&Hi&Hok&Harr)|(_&Hf)])]; [|by intros ? ? ->%Configcmp_eq|done|..].
  - intros ? ? ->%Configcmp_eq. by apply Configcmp_eq.
  - exfalso. apply Configcmp_eq in Hc. rewrite H2 in He. apply list_elem_of_fmap in He as (d&->&Hd). cbn [snd] in Hc.
    apply Hnew. apply list_elem_of_fmap. exists d. split; [|done]. rewrite Forall_forall in H4.
    apply item_key_inj; [done|by apply cfg_ok, H4|]. unfold cfg_key in Hc. rewrite Hit in Hc. done.
  - unfold Configtable_insert. fold c. fold cs'. rewrite Hi. eexists. split; [done|].
    gsimp. split_and!; try done.
    + constructor; gsimp; [done| |done| | |].
      * rewrite Harr, fmap_app, H2, Hkeys. done.
      * unfold cs'. rewrite length_app. apply Forall_app. split; [eapply Forall_impl; [exact H4|]; cbn; lia|].
        constructor; [unfold c; cbn; lia|done].
      * unfold items. rewrite fmap_app. apply NoDup_app. fold (items cs' (g_current g)). rewrite (cext_items _ _ _ _ Hx H4).
        split_and!; [done| |apply NoDup_singleton]. intros it Hin Hs. apply list_elem_of_singleton in Hs as ->.
        by rewrite Hit in Hin.
      * intros d cf Hd. apply lookup_snoc_Some in Hd as [[_ Hd]|[_ <-]]; [by apply (H6 d)|]. cbn. split; [|done].
        unfold SetNew. rewrite zlen_replicate. pose proof (gr_size Hgr). lia.
    + constructor; [done|done|by exists [c]|]. gsimp. intros d [?| ->%list_elem_of_singleton]%elem_of_app; [by left|by right].
    + unfold cs'. rewrite length_app. cbn. lia.
  - by rewrite Hcalloc_ok in Hf.
Qed.

(** what adding an item to the builder does *)
Definition added (it : item) (c : nat) g g' : Prop :=
  bld g' ∧ grow g g' ∧ c ∈ g_current g' ∧ cfg_item (g_cfgs g') c = it ∧
  (g_current g' = g_current g ∧ g_cfgs g' = g_cfgs g ∨ g_current g' = g_current g ++ [c] ∧ c = length (g_cfgs g)).

Lemma Configlist_add_ok rp dot g : bld g → valid_item (rp, dot) →
  ∃ c g', Configlist_add rs size calloc_ok malloc rp dot g = Ok (c, g') ∧ added (rp, dot) c g g' ∧
    g_basis g' = g_basis g ∧ g_basisend g' = g_basisend g.
Proof.
  intros Hb Hv. unfold Configlist_add. rewrite (b_end _ Hb). cbn [negb].
  destruct (find_item_ok (rp, dot) g Hb Hv) as (r&->&Hi). cbn [mbind res_bind]. destruct r as [c|].
  - destruct (proj1 (Hi c) eq_refl). exists c, g. split; [done|]. split; [|done].
    split_and!; [done|apply grow_refl|done|done|]. by left.
  - assert ((rp, dot) ∉ items (g_cfgs g) (g_current g)) as Hnew.
    { intros (c&Hc&Hin)%list_elem_of_fmap. by pose proof (proj2 (Hi c) (conj Hin (eq_sym Hc))). }
    destruct (insert_new rp dot (g_basis g) (g_basisend g) g Hb Hv Hnew) as (g'&Hins&Hb'&Hw&Hcur&Hbas&Hbe&Hit&Hlen).
    unfold newconfig. rewrite Hmalloc.
    change (upd_current (g_current (upd_cfgs (g_cfgs g ++ [mkConfig rp dot (SetNew size) [] [] None COMPLETE]) g) ++ [length (g_cfgs g)]) true
      (upd_cfgs (g_cfgs g ++ [mkConfig rp dot (SetNew size) [] [] None COMPLETE]) g)) with (with_new rp dot (g_basis g) (g_basisend g) g).
    rewrite Hins. cbn [mbind res_bind]. exists (length (g_cfgs g)), g'. split; [done|]. split; [|done].
    split_and!; [done|done| |done|by right]. rewrite Hcur. apply elem_of_app. right. by left.
Qed.

Lemma Configlist_addbasis_ok rp dot g : bld g → valid_item (rp, dot) → g_basisend g = true → g_basis g = g_current g →
  ∃ c g', Configlist_addbasis rs size calloc_ok malloc rp dot g = Ok (c, g') ∧ added (rp, dot) c g g' ∧
    g_basis g' = g_current g' ∧ g_basisend g' = true.
Proof.
  intros Hb Hv Hbe Hbc. unfold Configlist_addbasis. rewrite (b_end _ Hb), Hbe. cbn [negb orb].
  destruct (find_item_ok (rp, dot) g Hb Hv) as (r&->&Hi). cbn [mbind res_bind]. destruct r as [c|].
  - destruct (proj1 (Hi c) eq_refl). exists c, g. split; [done|]. split; [|done].
    split_and!; [done|apply grow_refl|done|done|]. by left.
  - assert ((rp, dot) ∉ items (g_cfgs g) (g_current g)) as Hnew.
    { intros (c&Hc&Hin)%list_elem_of_fmap. by pose proof (proj2 (Hi c) (conj Hin (eq_sym Hc))). }
    destruct (insert_new rp dot (g_basis g ++ [length (g_cfgs g)]) true g Hb Hv Hnew) as (g'&Hins&Hb'&Hw&Hcur&Hbas&Hbe'&Hit&Hlen).
    unfold newconfig. rewrite Hmalloc.
    match goal with |- context [Configtable_insert_cfg _ _ ?c ?x] => change x with (with_new rp dot (g_basis g ++ [length (g_cfgs g)]) true g) end.
    rewrite Hins. cbn [mbind res_bind]. exists (length (g_cfgs g)), g'. split; [done|].
    split; [split_and!; [done|done| |done|by right]|split; [congruence|done]].
    rewrite Hcur. apply elem_of_app. right. by left.
Qed.

(** ** The closure *)

Lemma cfgs_lookup_len g c cf : g_cfgs g !! c = Some cf → (c < length (g_cfgs g))%nat.
Proof. apply lookup_lt_Some. Qed.

(** replacing the follow set of a configuration by one of the same size *)
Lemma upd_fws_ok n s g : bld g → zlen s = size → bld (upd_cfg (upd_fws s) n g) ∧ quiet g (upd_cfg (upd_fws s) n g).
Proof.
  intros Hb Hs. assert (quiet g (upd_cfg (upd_fws s) n g)) as Hq by (by apply upd_cfg_quiet).
  split; [|done]. eapply bld_quiet; [done|done|]. apply upd_cfg_ok; [done| |apply (b_cfgs _ Hb)].
  intros cf Hcf. cbn. by destruct (b_cfgs _ Hb _ _ Hcf) as [-> _].
Qed.

Lemma add_tokens_ok n subs : ∀ g, bld g → (n < length (g_cfgs g))%nat →
  (∀ j, j ∈ subs → 0 ≤ sp_index (sym ss j) < size) → ∃ g', add_tokens ss n subs g = Ok g' ∧ bld g' ∧ quiet g g'.
Proof.
  induction subs as [|j subs IH]; intros g Hb Hn Hj; cbn [add_tokens].
  { exists g. split_and!; [done|done|apply quiet_refl]. }
  destruct (cfg_at_lt g n Hn) as [-> Hcf]. cbn [mbind res_bind]. destruct (b_cfgs _ Hb _ _ Hcf) as [Hz _].
  destruct (SetAdd_spec (cfp_fws (cfg (g_cfgs g) n)) (sp_index (sym ss j))) as (s&->&Hl&_); [rewrite Hz; apply Hj; by left|].
  destruct (upd_fws_ok n s g Hb) as [Hb' Hq]; [unfold zlen in *; lia|].
  destruct (IH _ Hb') as (g'&->&?&?); [by rewrite (q_len _ _ Hq)|intros k Hk; apply Hj; by right|].
  exists g'. split_and!; [done|done|by eapply quiet_trans].
Qed.

Lemma closure_follow_ok n rest : ∀ g, bld g → (n < length (g_cfgs g))%nat → (∀ s, s ∈ rest → s ∈ concat (rp_rhs <$> rs)) →
  ∃ b g', closure_follow ss n rest g = Ok (b, g') ∧ bld g' ∧ quiet g g'.
Proof.
  induction rest as [|x rest IH]; intros g Hb Hn Hr; cbn [closure_follow].
  { exists true, g. split_and!; [done|done|apply quiet_refl]. }
  assert (x ∈ concat (rp_rhs <$> rs)) as Hx by (apply Hr; by left).
  destruct (sp_type (sym ss x)) eqn:Et.
  - destruct (add_tokens_ok n [x] g Hb Hn) as (g'&->&?&?).
    { intros j ->%list_elem_of_singleton. by apply (gr_tokens Hgr). }
    cbn [mbind res_bind]. eauto.
  - destruct (cfg_at_lt g n Hn) as [-> Hcf]. cbn [mbind res_bind]. destruct (b_cfgs _ Hb _ _ Hcf) as [Hz _].
    destruct (gr_first Hgr x Et Hx) as (f&->&Hf). cbn [of_opt mbind res_bind].
    destruct (SetUnion_spec (cfp_fws (cfg (g_cfgs g) n)) f) as (Hl&_&_); [unfold zlen in *; lia|].
    destruct (upd_fws_ok n (SetUnion (cfp_fws (cfg (g_cfgs g) n)) f).2 g Hb) as [Hb' Hq]; [unfold zlen in *; lia|].
    destruct (sp_lambda (sym ss x)); [|eauto].
    destruct (IH _ Hb') as (b&g'&->&?&?); [by rewrite (q_len _ _ Hq)|intros k Hk; apply Hr; by right|].
    exists b, g'. split_and!; [done|done|by eapply quiet_trans].
  - destruct (add_tokens_ok n (sp_subsym (sym ss x)) g Hb Hn) as (g'&->&?&?).
    { intros j Hj. by apply (gr_multi Hgr x). }
    cbn [mbind res_bind]. eauto.
Qed.

Definition basis_of g : list nat * bool := (g_basis g, g_basisend g).
Lemma quiet_basis g g' : quiet g g' → basis_of g' = basis_of g ∧ g_current g' = g_current g.
Proof. intros [_ _ H _]. unfold basis_of. by injection H as -> _ -> -> _. Qed.

(** a step of the closure: the builder grows by items of rules in [rules] *)
Definition cstep (rules : list nat) g g' : Prop :=
  bld g' ∧ grow g g' ∧ basis_of g' = basis_of g ∧
  (∀ r, r ∈ rules → (r, 0) ∈ items (g_cfgs g') (g_current g')) ∧
  (∀ it, it ∈ items (g_cfgs g') (g_current g') → it ∈ items (g_cfgs g) (g_current g) ∨ ∃ r, r ∈ rules ∧ it = (r, 0)).

Lemma closure_rule_ok c rest r g : bld g → (r < length rs)%nat → (∀ s, s ∈ rest → s ∈ concat (rp_rhs <$> rs)) →
  ∃ g', closure_rule ss rs size calloc_ok malloc c rest r g = Ok g' ∧ cstep [r] g g'.
Proof.
  intros Hb Hr Hrest. unfold closure_rule.
  assert (valid_item (r, 0)) as Hv by (split; [done|]; cbn; pose proof (zlen_nonneg (rp_rhs (rul rs r))); lia).
  destruct (Configlist_add_ok r 0 g Hb Hv) as (n&g1&->&(Hb1&Hw1&Hn1&Hit1&Hcase)&Hbas1&Hbe1).
  assert (n < length (g_cfgs g1))%nat as Hn by (pose proof (b_lt _ Hb1) as H; rewrite Forall_forall in H; by apply H).
  destruct (closure_follow_ok n rest g1 Hb1 Hn Hrest) as (b&g2&->&Hb2&Hq2).
  assert (∃ g', (if b then Ok (upd_cfg (λ cf, upd_fplp (Plink_add (cfp_fplp cf) n) cf) c g2) else Ok g2) = Ok g' ∧ bld g' ∧ quiet g2 g') as (g'&->&Hb'&Hq').
  { destruct b; [|exists g2; split_and!; [done|done|apply quiet_refl]]. eexists. split; [done|].
    assert (quiet g2 (upd_cfg (λ cf, upd_fplp (Plink_add (cfp_fplp cf) n) cf) c g2)) as Hq by (by apply upd_cfg_quiet).
    split; [|done]. eapply bld_quiet; [done|done|]. apply upd_cfg_ok; [done|done|apply (b_cfgs _ Hb2)]. }
  exists g'. split; [done|]. pose proof (quiet_trans _ _ _ Hq2 Hq') as Hq. destruct (quiet_basis _ _ Hq) as [Hbas Hcur].
  assert (items (g_cfgs g') (g_current g') = items (g_cfgs g1) (g_current g1)) as Hits.
  { rewrite Hcur. eapply cext_items; [apply (q_cext _ _ Hq)|apply (b_lt _ Hb1)]. }
  split; [done|]. split; [eapply grow_trans; [done|by apply grow_quiet]|]. split; [unfold basis_of in *; congruence|].
  rewrite Hits. split.
  - intros r' ->%list_elem_of_singleton. apply list_elem_of_fmap. by exists n.
  - intros it Hin. destruct Hcase as [[Hc Hcs]|[Hc1 ->]]; [left; by rewrite Hc, Hcs in Hin|].
    rewrite Hc1 in Hin. unfold items in Hin. rewrite fmap_app in Hin. apply elem_of_app in Hin as [Hin|Hin].
    + left. fold (items (g_cfgs g1) (g_current g)) in Hin. by rewrite (cext_items _ _ _ _ (w_cext _ _ Hw1) (b_lt _ Hb)) in Hin.
    + right. exists r. split; [by left|]. apply list_elem_of_singleton in Hin. congruence.
Qed.

Lemma cstep_trans l1 l2 g1 g2 g3 : bld g2 → cstep l1 g1 g2 → cstep l2 g2 g3 → cstep (l1 ++ l2) g1 g3.
Proof.
  intros Hb2 (_&Hw1&B1&I1&S1) (Hb3&Hw2&B2&I2&S2). split; [done|]. split; [by eapply grow_trans|]. split; [congruence|].
  destruct (grow_items _ _ Hw2 Hb2) as [l Hl]. split.
  - intros r [Hr|Hr]%elem_of_app; [|by apply I2]. rewrite Hl. apply elem_of_app. left. by apply I1.
  - intros it Hin. destruct (S2 it Hin) as [Hin'|(r&Hr&->)].
    + destruct (S1 it Hin') as [?|(r&Hr&->)]; [by left|right]. exists r. split; [|done]. apply elem_of_app. by left.
    + right. exists r. split; [|done]. apply elem_of_app. by right.
Qed.
Lemma cstep_refl g : bld g → cstep [] g g.
Proof. intros Hb. split_and!; [done|apply grow_refl|done|by intros r ?%elem_of_nil|by left]. Qed.

Lemma closure_rules_ok c rest rules : ∀ g, bld g → (∀ r, r ∈ rules → (r < length rs)%nat) →
  (∀ s, s ∈ rest → s ∈ concat (rp_rhs <$> rs)) →
  ∃ g', closure_rules ss rs size calloc_ok malloc c rest rules g = Ok g' ∧ cstep rules g g'.
Proof.
  induction rules as [|r rules IH]; intros g Hb Hr Hrest; cbn [closure_rules].
  { exists g. split; [done|]. by apply cstep_refl. }
  destruct (closure_rule_ok c rest r g Hb) as (g1&->&H1); [apply Hr; by left|done|]. cbn [mbind res_bind].
  destruct (IH g1) as (g'&->&H2); [apply H1|intros r' Hr'; apply Hr; by right|done|].
  exists g'. split; [done|]. apply (cstep_trans [r] rules _ g1); [apply H1|done|done].
Qed.

(** the rules an item brings in *)
Definition expands (it : item) : list nat :=
  match after rs it with
  | Some s => if decide (sp_type (sym ss s) = NONTERMINAL) then sp_rule (sym ss s) else []
  | None => []
  end.

Lemma closure_one_ok c g : bld g → (c < length (g_cfgs g))%nat →
  ∃ g', closure_one ss rs errsym size calloc_ok malloc c g = Ok g' ∧ cstep (expands (cfg_item (g_cfgs g) c)) g g'.
Proof.
  intros Hb Hc. unfold closure_one. destruct (cfg_at_lt g c Hc) as [-> Hcf]. cbn [mbind res_bind].
  destruct (cfg_ok _ c (b_cfgs _ Hb) Hc) as [_ Hv]. unfold expands, after. cbn [cfg_item fst snd].
  destruct (rp_rhs _ !! Z.to_nat (cfp_dot (cfg (g_cfgs g) c))) as [s|] eqn:Ea; [|exists g; split; [done|by apply cstep_refl]].
  case_decide as Et; [|exists g; split; [done|by apply cstep_refl]].
  match goal with |- context [closure_rules _ _ _ _ _ _ _ _ ?x] => set (g1 := x) end. assert (bld g1 ∧ quiet g g1) as [Hb1 Hq1].
  { subst g1. destruct (_ && _); [|split; [done|apply quiet_refl]].
    assert (quiet g (upd_errorcnt (g_errorcnt g + 1) g)) as Hq by (constructor; try done; apply cext_refl).
    split; [|done]. eapply bld_quiet; [done|done|apply (b_cfgs _ Hb)]. }
  destruct (closure_rules_ok c (drop (S (Z.to_nat (cfp_dot (cfg (g_cfgs g) c)))) (rp_rhs (rul rs (cfp_rp (cfg (g_cfgs g) c)))))
    (sp_rule (sym ss s)) g1 Hb1) as (g'&->&Hs).
  - intros r Hr. by apply (gr_rules Hgr s).
  - intros x Hx. apply list_elem_of_lookup in Hx as [i Hx]. rewrite lookup_drop in Hx.
    apply (after_in ((cfg_item (g_cfgs g) c).1, Z.of_nat (S (Z.to_nat (cfp_dot (cfg (g_cfgs g) c))) + i))).
    + split; [apply Hv|]. cbn [fst snd]. apply lookup_lt_Some in Hx. unfold zlen, cfg_item. cbn [fst]. lia.
    + unfold after. cbn [fst snd]. rewrite Nat2Z.id. done.
  - exists g'. split; [done|]. apply (cstep_trans [] (sp_rule (sym ss s)) _ g1); [done| |done].
    destruct (quiet_basis _ _ Hq1) as [Hbas Hcur]. split_and!; [done|by apply grow_quiet|done|by intros r ?%elem_of_nil|].
    intros it Hin. left. rewrite Hcur in Hin. by rewrite (cext_items _ _ _ _ (q_cext _ _ Hq1) (b_lt _ Hb)) in Hin.
Qed.

Lemma current_small g : bld g → (length (g_current g) ≤ nitems rs)%nat.
Proof.
  intros Hb. rewrite <- (length_fmap (cfg_item (g_cfgs g))). apply items_le_nitems; [apply (b_nodup _ Hb)|].
  intros it (c&->&Hc)%list_elem_of_fmap. pose proof (b_lt _ Hb) as Hl. rewrite Forall_forall in Hl.
  by apply cfg_ok; [apply (b_cfgs _ Hb)|apply Hl].
Qed.

Lemma expands_spec it r : r ∈ expands it ↔
  ∃ s, after rs it = Some s ∧ sp_type (sym ss s) = NONTERMINAL ∧ r ∈ sp_rule (sym ss s).
Proof.
  unfold expands. destruct (after rs it) as [s|]; [|rewrite elem_of_nil; naive_solver].
  case_decide; [naive_solver|]. rewrite elem_of_nil. naive_solver.
Qed.

Lemma closure_loop_ok K fuel : ∀ k g, bld g → (nitems rs ≤ k + fuel)%nat →
  (∀ it, it ∈ items (g_cfgs g) (g_current g) → closure K it) →
  (∀ j c r, (j < k)%nat → g_current g !! j = Some c → r ∈ expands (cfg_item (g_cfgs g) c) → (r, 0) ∈ items (g_cfgs g) (g_current g)) →
  ∃ g', closure_loop ss rs errsym size calloc_ok malloc fuel k g = Ok g' ∧ bld g' ∧ grow g g' ∧ basis_of g' = basis_of g ∧
    (∀ it, it ∈ items (g_cfgs g') (g_current g') → closure K it) ∧
    (∀ it r, it ∈ items (g_cfgs g') (g_current g') → r ∈ expands it → (r, 0) ∈ items (g_cfgs g') (g_current g')).
Proof.
  induction fuel as [|fuel IH]; intros k g Hb Hf HK Hdone; cbn [closure_loop]; destruct (g_current g !! k) as [c|] eqn:Ec.
  - apply lookup_lt_Some in Ec. pose proof (current_small g Hb). lia.
  - exists g. split_and!; [done|done|apply grow_refl|done|done|]. intros it r (d&->&(j&Hj)%list_elem_of_lookup)%list_elem_of_fmap Hr.
    apply (Hdone j d); [|done|done]. apply lookup_lt_Some in Hj. apply lookup_ge_None in Ec. lia.
  - assert (c < length (g_cfgs g))%nat as Hc by (pose proof (b_lt _ Hb) as Hl; rewrite Forall_lookup in Hl; eauto).
    destruct (closure_one_ok c g Hb Hc) as (g1&->&(Hb1&Hw1&B1&I1&S1)). cbn [mbind res_bind].
    destruct (w_cur _ _ Hw1) as [l Hl]. destruct (grow_items _ _ Hw1 Hb) as [li Hli].
    assert (∀ j d, g_current g1 !! j = Some d → (j < length (g_current g))%nat →
      g_current g !! j = Some d ∧ cfg_item (g_cfgs g1) d = cfg_item (g_cfgs g) d) as Hold.
    { intros j d Hj Hlt. rewrite Hl, lookup_app_l in Hj by done. split; [done|]. destruct (w_cext _ _ Hw1) as [_ H].
      pose proof (b_lt _ Hb) as Hlt'. rewrite Forall_lookup in Hlt'. by apply H, (Hlt' j). }
    destruct (IH (S k) g1) as (g'&->&Hb'&Hw'&B'&K'&C'); [done|lia| | |].
    + intros it Hin. destruct (S1 it Hin) as [?|(r&Hr&->)]; [by apply HK|]. apply expands_spec in Hr as (s&Ha&Ht&Hr).
      apply (cl_rule _ (cfg_item (g_cfgs g) c) s); try done. apply HK, list_elem_of_fmap. exists c. split; [done|].
      by eapply list_elem_of_lookup_2.
    + intros j d r Hj Hd Hr. pose proof (lookup_lt_Some _ _ _ Ec). destruct (Hold j d Hd) as [Hd0 Hit]; [lia|]. rewrite Hit in Hr.
      destruct (decide (j = k)) as [->|Hne].
      * apply I1. by replace c with d by congruence.
      * rewrite Hli. apply elem_of_app. left. apply (Hdone j d); [lia|done|done].
    + exists g'. split_and!; [done|done|by eapply grow_trans|congruence|done|done].
  - exists g. split_and!; [done|done|apply grow_refl|done|done|]. intros it r (d&->&(j&Hj)%list_elem_of_lookup)%list_elem_of_fmap Hr.
    apply (Hdone j d); [|done|done]. apply lookup_lt_Some in Hj. apply lookup_ge_None in Ec. lia.
Qed.

(** the closure of the items in the builder *)
Lemma Configlist_closure_ok g : bld g →
  ∃ g', Configlist_closure ss rs errsym size calloc_ok malloc g = Ok g' ∧ bld g' ∧ grow g g' ∧ basis_of g' = basis_of g ∧
    ∀ it, it ∈ items (g_cfgs g') (g_current g') ↔ closure (λ i, i ∈ items (g_cfgs g) (g_current g)) it.
Proof.
  intros Hb. unfold Configlist_closure. rewrite (b_end _ Hb). cbn [negb].
  destruct (closure_loop_ok (λ i, i ∈ items (g_cfgs g) (g_current g)) (nitems rs) 0 g Hb) as (g'&->&Hb'&Hw&B&HK&HC).
  - lia.
  - intros it Hin. by apply cl_basis.
  - lia.
  - exists g'. split_and!; [done|done|done|done|]. intros it. split; [apply HK|].
    destruct (grow_items _ _ Hw Hb) as [l Hl].
    induction 1 as [it Hin|it s r Hc IH Ha Ht Hr]; [rewrite Hl; apply elem_of_app; by left|].
    apply (HC it); [done|]. apply expands_spec. eauto.
Qed.

(** *** Sorting *)

Lemma msort_cfgs cs l : (length l < 2 ^ LISTSIZE)%nat →
  msort (cfg_cmp rs cs) l ≡ₚ l ∧ StronglySorted key_le (cfg_key rs cs <$> msort (cfg_cmp rs cs) l).
Proof.
  intros Hl. destruct (msort_ok (cfg_cmp rs cs)) with (l := l) as [H1 H2].
  - intros a b. exact (key_le_total (cfg_key rs cs a) (cfg_key rs cs b)).
  - intros a b c. exact (key_le_trans (cfg_key rs cs a) (cfg_key rs cs b) (cfg_key rs cs c)).
  - done.
  - split; [done|]. revert H1. generalize (msort (cfg_cmp rs cs) l). induction 1 as [|x k Hs IH Hx]; [constructor|].
    cbn. constructor; [done|]. apply Forall_fmap. exact Hx.
Qed.

Lemma small_list n : (n ≤ nitems rs)%nat → (n < 2 ^ LISTSIZE)%nat.
Proof. intros Hn. eapply Nat.le_lt_trans; [exact Hn|]. apply (gr_small Hgr). Qed.

Lemma items_keys cs l : cfgs_ok cs → Forall (λ c, (c < length cs)%nat) l → NoDup (items cs l) → NoDup (cfg_key rs cs <$> l).
Proof.
  intros Hok Hl Hn. unfold items in Hn. rewrite <- (list_fmap_id (cfg_key rs cs <$> l)) in *.
  assert (cfg_key rs cs <$> l = item_key rs <$> items cs l) as E by (unfold items; by rewrite <- list_fmap_compose).
  rewrite list_fmap_id, E. apply NoDup_fmap_2_strong; [|done]. intros x y (c&->&Hc)%list_elem_of_fmap (d&->&Hd)%list_elem_of_fmap Hk.
  rewrite Forall_forall in Hl. apply item_key_inj; [by apply cfg_ok, Hl|by apply cfg_ok, Hl|done].
Qed.

(** ** The states *)

Definition kernel g (t : nat) (it : item) : Prop := it ∈ items (g_cfgs g) (stp_bp (stt (g_states g) t)).
Definition citems g (t : nat) (it : item) : Prop := it ∈ items (g_cfgs g) (stp_cfp (stt (g_states g) t)).

Notation state_table_ok := (table_ok (snd : nat * list key → list key) statehash statecmp).

(** one finished state: its lists point to configurations, its basis is in order,
    its configurations are the closure of the basis *)
Record state_ok cs (j : nat) (s : state) : Prop := {
  s_bp : Forall (λ c, (c < length cs)%nat) (stp_bp s);
  s_cfp : Forall (λ c, (c < length cs)%nat) (stp_cfp s);
  s_sorted : StronglySorted key_lt (cfg_key rs cs <$> stp_bp s);
  s_nodup : NoDup (stp_cfp s);
  s_closed : ∀ it, it ∈ items cs (stp_cfp s) ↔ closure (λ i, i ∈ items cs (stp_bp s)) it;
  s_num : stp_statenum s = Z.of_nat j;
}.
Record ginv g : Prop := {
  i_cfgs : cfgs_ok (g_cfgs g);
  i_x4 : table_ok (snd : nat * key → key) confighash Configcmp (g_x4 g);
  i_x3 : state_table_ok (g_x3 g);
  i_arr : x_arrayof (g_x3 g) = imap (λ j s, (j, cfg_key rs (g_cfgs g) <$> stp_bp s)) (g_states g);
  i_states : ∀ j s, g_states g !! j = Some s → state_ok (g_cfgs g) j s;
}.

(** the construction proceeds: states are added and keep their lists; those with
    [Q] keep their actions too *)
Record ext (P Q : nat → Prop) g g' : Prop := {
  e_cext : cext P (g_cfgs g) (g_cfgs g');
  e_states : ∀ j s, g_states g !! j = Some s → ∃ s', g_states g' !! j = Some s' ∧
    stp_bp s' = stp_bp s ∧ stp_cfp s' = stp_cfp s ∧ stp_statenum s' = stp_statenum s ∧ (Q j → s' = s);
}.

Lemma ext_len P Q g g' : ext P Q g g' → (length (g_states g) ≤ length (g_states g'))%nat.
Proof.
  intros [_ H]. destruct (decide (length (g_states g) ≤ length (g_states g'))%nat) as [|Hn]; [done|].
  destruct (lookup_lt_is_Some_2 (g_states g) (length (g_states g'))) as [s Hs]; [lia|].
  destruct (H _ _ Hs) as (s'&Hs'%lookup_lt_Some&_). lia.
Qed.
Lemma ext_trans P1 Q1 P2 Q2 (P Q : nat → Prop) g1 g2 g3 :
  (∀ c, (c < length (g_cfgs g1))%nat → P c → P1 c ∧ P2 c) → (∀ j, (j < length (g_states g1))%nat → Q j → Q1 j ∧ Q2 j) →
  ext P1 Q1 g1 g2 → ext P2 Q2 g2 g3 → ext P Q g1 g3.
Proof.
  intros HP HQ [A1 B1] [A2 B2]. constructor; [by eapply cext_trans|]. intros j s Hs.
  destruct (B1 j s Hs) as (s1&Hs1&?&?&?&E1), (B2 j s1 Hs1) as (s2&Hs2&?&?&?&E2).
  exists s2. split_and!; try congruence. intros Hq. destruct (HQ j) as [? ?]; [by eapply lookup_lt_Some|done|].
  rewrite E2, E1; done.
Qed.
Lemma ext_outer P Q g g' : cext P (g_cfgs g) (g_cfgs g') → g_states g' = g_states g → ext P Q g g'.
Proof. intros H1 H2. constructor; [done|]. intros j s Hs. exists s. by rewrite H2. Qed.
Lemma ext_weaken (P Q P' Q' : nat → Prop) g g' : (∀ c, P' c → P c) → (∀ j, Q' j → Q j) → ext P Q g g' → ext P' Q' g g'.
Proof.
  intros HP HQ [A B]. constructor; [by eapply cext_weaken|]. intros j s Hs. destruct (B j s Hs) as (s'&?&?&?&?&?).
  exists s'. split_and!; auto.
Qed.

Lemma stt_Some (l : list state) j : (j < length l)%nat → l !! j = Some (stt l j).
Proof. intros Hj. destruct (lookup_lt_is_Some_2 _ _ Hj) as [s Hs]. unfold stt. by rewrite Hs. Qed.

Lemma kernel_ext P Q g g' t it : ginv g → ext P Q g g' → (t < length (g_states g))%nat →
  (kernel g' t it ↔ kernel g t it) ∧ (citems g' t it ↔ citems g t it).
Proof.
  intros Hi He Ht. pose proof (stt_Some _ _ Ht) as Hs. destruct (e_states _ _ _ _ He _ _ Hs) as (s'&Hs'&Hb&Hc&_).
  unfold kernel, citems. assert (stt (g_states g') t = s') as -> by (unfold stt; by rewrite Hs').
  destruct (i_states _ Hi _ _ Hs) as [L1 L2 _ _ _ _]. rewrite Hb, Hc.
  by rewrite (cext_items _ _ _ _ (e_cext _ _ _ _ He) L1), (cext_items _ _ _ _ (e_cext _ _ _ _ He) L2).
Qed.

(** state [t] is where a shift of [X] from state [j] leads *)
Definition edge g (j X t : nat) : Prop :=
  (t < length (g_states g))%nat ∧ ∀ it, kernel g t it ↔ goto (citems g j) X it.
Definition shift_on g (j tok t : nat) : Prop :=
  ∃ a, a ∈ stp_ap (stt (g_states g) j) ∧ ap_type a = SHIFT ∧ ap_sp a = tok ∧ ap_x a = XState t.
(** [X] comes after the dot in state [j] *)
Definition shiftable g (j X : nat) : Prop := ∃ it, citems g j it ∧ after rs it = Some X.

(** the transitions of state [j], as far as the symbols [Ps] are concerned *)
Record trans_ok g (j : nat) (Ps : nat → Prop) : Prop := {
  tr_shift : ∀ X, Ps X → shiftable g j X ∧ ∃ t, edge g j X t ∧ ∀ tok, tok ∈ shift_tokens ss X → shift_on g j tok t;
  tr_only : ∀ a, a ∈ stp_ap (stt (g_states g) j) →
    ∃ X t, Ps X ∧ edge g j X t ∧ ap_sp a ∈ shift_tokens ss X ∧ ap_type a = SHIFT ∧ ap_x a = XState t;
}.
Definition complete g (j : nat) : Prop := trans_ok g j (shiftable g j).

Inductive reach g (i : nat) : nat → Prop :=
  | reach_refl : reach g i i
  | reach_step j X k : reach g i j → shiftable g j X → edge g j X k → (j < length (g_states g))%nat → reach g i k.

Lemma goto_ext (C D : item → Prop) X it : (∀ i, C i ↔ D i) → goto C X it ↔ goto D X it.
Proof. intros H. unfold goto. split; intros (i&s&?&?&?&?); exists i, s; split_and!; try done; by apply H. Qed.

Lemma edge_ext P Q g g' j X t : ginv g → ext P Q g g' → (j < length (g_states g))%nat → edge g j X t → edge g' j X t.
Proof.
  intros Hi He Hj [Ht H]. pose proof (ext_len _ _ _ _ He). split; [lia|]. intros it.
  destruct (kernel_ext _ _ g g' t it Hi He Ht) as [-> _]. rewrite H. apply goto_ext. intros i.
  by destruct (kernel_ext _ _ g g' j i Hi He Hj) as [_ ->].
Qed.
Lemma shiftable_ext P Q g g' j X : ginv g → ext P Q g g' → (j < length (g_states g))%nat → shiftable g' j X ↔ shiftable g j X.
Proof.
  intros Hi He Hj. split; intros (it&H1&H2); exists it; (split; [|done]); by apply (kernel_ext P Q g g' j it).
Qed.
Lemma shift_on_same g g' j tok t : stt (g_states g') j = stt (g_states g) j → shift_on g j tok t → shift_on g' j tok t.
Proof. unfold shift_on. by intros ->. Qed.

Lemma trans_ok_ext P Q g g' j Ps : ginv g → ext P Q g g' → Q j → (j < length (g_states g))%nat → trans_ok g j Ps → trans_ok g' j Ps.
Proof.
  intros Hi He Hq Hj [H1 H2]. assert (stt (g_states g') j = stt (g_states g) j) as Hst.
  { destruct (e_states _ _ _ _ He _ _ (stt_Some _ _ Hj)) as (s'&Hs'&_&_&_&E). unfold stt at 1. rewrite Hs'. by apply E. }
  constructor.
  - intros X HX. destruct (H1 X HX) as (Hs&t&Ht&Htok). split; [by apply (shiftable_ext P Q g g')|].
    exists t. split; [by eapply edge_ext|]. intros tok Hin. eapply shift_on_same; [done|by apply Htok].
  - rewrite Hst. intros a Ha. destruct (H2 a Ha) as (X&t&?&?&?&?&?). exists X, t. split_and!; try done. by eapply edge_ext.
Qed.
Lemma complete_ext P Q g g' j : ginv g → ext P Q g g' → Q j → (j < length (g_states g))%nat → complete g j → complete g' j.
Proof.
  intros Hi He Hq Hj Hc. apply (trans_ok_ext P Q g g' j _ Hi He Hq Hj) in Hc. destruct Hc as [H1 H2].
  constructor.
  - intros X HX. apply H1. by apply (shiftable_ext P Q g g').
  - intros a Ha. destruct (H2 a Ha) as (X&t&?&?&?&?&?). exists X, t. split_and!; try done. by apply (shiftable_ext P Q g g').
Qed.
Lemma reach_ext P Q g g' i k : ginv g → ext P Q g g' → reach g i k → reach g' i k.
Proof.
  intros Hi He. induction 1 as [|j X k Hr IH Hs Hed Hj]; [constructor|]. eapply reach_step; [done|..].
  - by apply (shiftable_ext P Q g g').
  - by eapply edge_ext.
  - pose proof (ext_len _ _ _ _ He). lia.
Qed.
Lemma reach_trans g i j k : reach g i j → reach g j k → reach g i k.
Proof. intros Hij. induction 1; [done|]. by eapply reach_step. Qed.

(** ** One round of [buildshifts] *)

Lemma bld_upd f c g : (∀ cf, cfp_rp (f cf) = cfp_rp cf ∧ cfp_dot (f cf) = cfp_dot cf ∧ zlen (cfp_fws (f cf)) = zlen (cfp_fws cf)) →
  bld g → bld (upd_cfg f c g).
Proof.
  intros Hf [H1 H2 H3 H4 H5 H6].
  assert (cext (λ _, False) (g_cfgs g) (g_cfgs (upd_cfg f c g))) as Hx by (apply upd_cfg_cext; [intros cf; by destruct (Hf cf) as (?&?&_)|done]).
  constructor; gsimp; try done.
  - rewrite H2. apply list_fmap_ext. intros i d Hd. f_equal. symmetry. eapply cext_key; [exact Hx|]. rewrite Forall_lookup in H4. eauto.
  - by rewrite length_alter.
  - pose proof (cext_items _ _ _ _ Hx H4) as E. gsimp in E. by rewrite E.
  - apply (upd_cfg_ok f c g); [intros cf; by destruct (Hf cf) as (?&?&_)|intros cf _; by destruct (Hf cf) as (_&_&?)|done].
Qed.

(** [b] is still to be shifted over [sp] *)
Definition sel cs (sp b : nat) : Prop :=
  cfp_status (cfg cs b) = INCOMPLETE ∧ ∃ s, after rs (cfg_item cs b) = Some s ∧ same_symbol ss s sp = true.
Definition advance (it : item) : item := (it.1, it.2 + 1).

Lemma sel_dec cs sp b : {sel cs sp b} + {¬ sel cs sp b}.
Proof.
  unfold sel. destruct (cfp_status (cfg cs b)); [right; by intros [? _]|].
  destruct (after rs (cfg_item cs b)) as [s|]; [|right; by intros (_&s&?&_)].
  destruct (same_symbol ss s sp) eqn:E; [left; eauto|right]. intros (_&s'&[= <-]&?). congruence.
Qed.

Lemma sel_ext P cs cs' sp b : cext P cs cs' → P b → (b < length cs)%nat → sel cs' sp b ↔ sel cs sp b.
Proof. intros [_ H] Hp Hb. destruct (H b Hb) as [Hi Hs]. unfold sel. by rewrite Hi, Hs. Qed.

Lemma collect_skip sp b l g : (b < length (g_cfgs g))%nat → ¬ sel (g_cfgs g) sp b →
  collect_shifts ss rs size calloc_ok malloc sp (b :: l) g = collect_shifts ss rs size calloc_ok malloc sp l g.
Proof.
  intros Hb Hs. cbn [collect_shifts]. destruct (cfg_at_lt g b Hb) as [-> _]. cbn [mbind res_bind].
  case_decide as Hst; [done|]. change (cfp_rp (cfg (g_cfgs g) b), cfp_dot (cfg (g_cfgs g) b)) with (cfg_item (g_cfgs g) b).
  destruct (after rs (cfg_item (g_cfgs g) b)) as [s|] eqn:Ea; [|done]. destruct (same_symbol ss s sp) eqn:Em; [|done].
  destruct Hs. split; [by destruct (cfp_status _)|eauto].
Qed.

Record collected (N0 : nat) (sp : nat) (l : list nat) g g' : Prop := {
  k_bld : bld g';
  k_basis : g_basis g' = g_current g';
  k_end : g_basisend g' = true;
  k_outer : outer g' = outer g;
  k_new : Forall (λ c, (N0 ≤ c)%nat) (g_current g');
  k_cext : cext (λ c, ¬ (c ∈ l ∧ sel (g_cfgs g) sp c)) (g_cfgs g) (g_cfgs g');
  k_done : ∀ c, c ∈ l → sel (g_cfgs g) sp c → cfp_status (cfg (g_cfgs g') c) = COMPLETE;
  k_items : ∀ it, it ∈ items (g_cfgs g') (g_current g') ↔ it ∈ items (g_cfgs g) (g_current g) ∨
    ∃ b, b ∈ l ∧ sel (g_cfgs g) sp b ∧ it = advance (cfg_item (g_cfgs g) b);
}.

Lemma collect_step sp b l g : (b < length (g_cfgs g))%nat → sel (g_cfgs g) sp b →
  collect_shifts ss rs size calloc_ok malloc sp (b :: l) g =
    (let* (n, g1) := Configlist_addbasis rs size calloc_ok malloc (cfg_item (g_cfgs g) b).1 ((cfg_item (g_cfgs g) b).2 + 1)
       (upd_cfg (upd_status COMPLETE) b g) in
     collect_shifts ss rs size calloc_ok malloc sp l (upd_cfg (λ cf, upd_bplp (Plink_add (cfp_bplp cf) b) cf) n g1)).
Proof.
  intros Hb (Hst&s&Ha&Hm). cbn [collect_shifts]. destruct (cfg_at_lt g b Hb) as [-> _]. cbn [mbind res_bind].
  rewrite decide_False by (by rewrite Hst).
  change (cfp_rp (cfg (g_cfgs g) b), cfp_dot (cfg (g_cfgs g) b)) with (cfg_item (g_cfgs g) b). by rewrite Ha, Hm.
Qed.

Lemma items_added it c g g' : bld g → added it c g g' →
  ∀ i, i ∈ items (g_cfgs g') (g_current g') ↔ i ∈ items (g_cfgs g) (g_current g) ∨ i = it.
Proof.
  intros Hb (Hb'&Hw&Hc&Hit&Hcase) i. destruct (grow_items _ _ Hw Hb) as [l Hl].
  destruct Hcase as [[E1 E2]|[E1 E2]].
  - rewrite E1, E2 in *. split; [by left|]. intros [?| ->]; [done|]. apply list_elem_of_fmap. by exists c.
  - rewrite E1. unfold items. rewrite fmap_app, elem_of_app. cbn. rewrite list_elem_of_singleton, Hit.
    fold (items (g_cfgs g') (g_current g)). by rewrite (cext_items _ _ _ _ (w_cext _ _ Hw) (b_lt _ Hb)).
Qed.

Lemma collect_shifts_ok N0 sp l : ∀ g, bld g → g_basis g = g_current g → g_basisend g = true →
  Forall (λ c, (c < N0)%nat) l → (N0 ≤ length (g_cfgs g))%nat → Forall (λ c, (N0 ≤ c)%nat) (g_current g) → NoDup l →
  ∃ g', collect_shifts ss rs size calloc_ok malloc sp l g = Ok g' ∧ collected N0 sp l g g'.
Proof.
  induction l as [|b l IH]; intros g Hb Hbas Hbe Hl HN Hcur Hnd.
  { exists g. split; [done|]. constructor; try done; [by intros c ?%elem_of_nil|].
    intros it. split; [by left|]. intros [?|(b&?%elem_of_nil&_)]; done. }
  apply Forall_cons in Hl as [Hbl Hl]. apply NoDup_cons in Hnd as [Hnin Hnd].
  assert (b < length (g_cfgs g))%nat as Hlt by lia. destruct (sel_dec (g_cfgs g) sp b) as [Hsel|Hsel]; cycle 1.
  { rewrite collect_skip by done. destruct (IH g) as (g'&->&[K1 K2 K3 K4 K5 K6 K7 K8]); [done..|]. exists g'. split; [done|].
    constructor; try done.
    - eapply cext_weaken; [|exact K6]. cbn. intros c Hc [Hin Hs]. apply Hc. split; [by right|done].
    - intros c [->|Hin]%elem_of_cons Hs; [done|by apply K7].
    - intros it. rewrite K8. split; (intros [?|(d&Hd&Hs&->)]; [by left|right]).
      + exists d. split_and!; [by right|done|done].
      + apply elem_of_cons in Hd as [->|Hd]; [done|]. by exists d. }
  rewrite collect_step by done. set (g1 := upd_cfg (upd_status COMPLETE) b g).
  assert (bld g1) as Hb1 by (by apply bld_upd).
  assert (cext (λ c, c ≠ b) (g_cfgs g) (g_cfgs g1)) as X1 by (by apply upd_cfg_cext).
  destruct (cfg_ok _ b (b_cfgs _ Hb) Hlt) as [_ Hv]. pose proof Hsel as (_&s&Ha&_).
  destruct (Configlist_addbasis_ok (cfg_item (g_cfgs g) b).1 ((cfg_item (g_cfgs g) b).2 + 1) g1 Hb1) as (n&g2&->&Hadd&Hbas2&Hbe2);
    [by apply (after_valid _ s)|done|done|].
  pose proof Hadd as (Hb2&Hw2&Hn2&_&Hcase). set (g3 := upd_cfg (λ cf, upd_bplp (Plink_add (cfp_bplp cf) b) cf) n g2).
  assert (bld g3) as Hb3 by (by apply bld_upd).
  assert (quiet g2 g3) as Hq3 by (by apply upd_cfg_quiet).
  assert (cext (λ c, c ≠ b) (g_cfgs g) (g_cfgs g3)) as X3.
  { eapply (cext_trans _ _ _ _ (g_cfgs g1)); [|exact X1|eapply cext_all_trans; [apply (w_cext _ _ Hw2)|apply (q_cext _ _ Hq3)]]. done. }
  assert (Forall (λ c, (N0 ≤ c)%nat) (g_current g3)) as Hcur3.
  { change (g_current g3) with (g_current g2). destruct Hcase as [[-> _]|[-> ->]]; [done|].
    apply Forall_app. split; [done|]. constructor; [unfold g1; gsimp; rewrite length_alter; lia|done]. }
  assert (length (g_cfgs g) ≤ length (g_cfgs g3))%nat as Hlen by apply X3.
  destruct (IH g3) as (g'&->&[K1 K2 K3 K4 K5 K6 K7 K8]); [done|done|done|done|lia|done|done|]. exists g'. split; [done|].
  assert (∀ c, c ∈ l → c ≠ b ∧ (c < length (g_cfgs g))%nat) as Hin.
  { intros c Hc. split; [intros ->; done|]. rewrite Forall_forall in Hl. specialize (Hl c Hc). cbn in Hl. lia. }
  assert (∀ c, c ∈ l → sel (g_cfgs g3) sp c ↔ sel (g_cfgs g) sp c) as Hsl.
  { intros c Hc. destruct (Hin c Hc). by apply (sel_ext (λ c, c ≠ b)). }
  assert (∀ it, it ∈ items (g_cfgs g3) (g_current g3) ↔ it ∈ items (g_cfgs g) (g_current g) ∨ it = advance (cfg_item (g_cfgs g) b)) as Hits.
  { intros it. change (g_current g3) with (g_current g2). rewrite (cext_items _ _ _ _ (q_cext _ _ Hq3) (b_lt _ Hb2)).
    rewrite (items_added _ _ _ _ Hb1 Hadd). change (g_current g1) with (g_current g).
    rewrite (cext_items _ _ _ _ X1 (b_lt _ Hb)). done. }
  constructor; try done.
  - rewrite K4. change (outer g3) with (outer g2). by rewrite (w_outer _ _ Hw2).
  - eapply cext_trans; [|exact X3|exact K6]. cbn. intros c Hc Hns. split.
    + intros ->. apply Hns. split; [by left|done].
    + intros [Hcl Hs]. apply Hns. split; [by right|]. by apply Hsl.
  - intros c [->|Hc]%elem_of_cons Hs; [|apply K7; [done|by apply Hsl]].
    assert (b < length (g_cfgs g1))%nat as Hb1' by (unfold g1; gsimp; by rewrite length_alter).
    rewrite (cext_status _ _ _ b K6) by (lia || by intros [? _]).
    rewrite (cext_status _ _ _ b (q_cext _ _ Hq3)) by (done || (pose proof (proj1 (w_cext _ _ Hw2)); lia)).
    rewrite (cext_status _ _ _ b (w_cext _ _ Hw2)) by done.
    unfold g1. gsimp. unfold cfg. rewrite list_lookup_alter_eq. destruct (cfg_at_lt g b Hlt) as [_ ->]. done.
  - intros it. rewrite K8, Hits. assert (∀ c, c ∈ l → cfg_item (g_cfgs g3) c = cfg_item (g_cfgs g) c) as Hci.
    { intros c Hc. destruct X3 as [_ X3]. apply X3. by destruct (Hin c Hc). }
    split.
    + intros [[?| ->]|(d&Hd&Hs&->)]; [by left| |]; right.
      * exists b. split_and!; [by left|done|done].
      * exists d. split_and!; [by right|by apply Hsl|by rewrite Hci].
    + intros [?|(d&[->|Hd]%elem_of_cons&Hs&->)]; [by left; left|by left; right|]. right. exists d.
      split_and!; [done|by apply Hsl|by rewrite Hci].
Qed.

Lemma Action_add_ok app t sp x st : ∃ addr st', Action_add calloc app t sp x st = Ok (mkAction addr sp t x None :: app, st').
Proof.
  unfold Action_add, Action_new. destruct (actionfreelist st) as [|a l]; [|eauto].
  destruct (Hcalloc (ap_blocks st)) as [base ->]. eauto.
Qed.

(** the actions of state [stp] grow by shifts to [newstp] on the tokens *)
Lemma add_shifts_ok stp newstp toks : ∀ g, (stp < length (g_states g))%nat →
  ∃ g' new, add_shifts calloc stp newstp toks g = Ok g' ∧
    g_cfgs g' = g_cfgs g ∧ g_x3 g' = g_x3 g ∧ g_x4 g' = g_x4 g ∧
    g_states g' = alter (λ s, upd_ap (new ++ stp_ap s) s) stp (g_states g) ∧
    (∀ a, a ∈ new → ap_type a = SHIFT ∧ ap_x a = XState newstp ∧ ap_sp a ∈ toks) ∧
    (∀ tok, tok ∈ toks → ∃ a, a ∈ new ∧ ap_sp a = tok).
Proof.
  induction toks as [|tok toks IH]; intros g Hs; cbn [add_shifts].
  { exists g, []. split_and!; try done; [|by intros a ?%elem_of_nil|by intros a ?%elem_of_nil].
    symmetry. apply list_alter_id. intros s. by destruct s. }
  destruct (Action_add_ok (stp_ap (stt (g_states g) stp)) SHIFT tok (XState newstp) (g_pool g)) as (addr&st'&->).
  match goal with |- context [add_shifts _ _ _ _ ?x] => set (g1 := x) end.
  destruct (IH g1) as (g'&new&->&E1&E2&E3&E4&N1&N2); [unfold g1; gsimp; by rewrite length_alter|].
  exists g', (new ++ [mkAction addr tok SHIFT (XState newstp) None]). split_and!; try done.
  - rewrite E4. unfold g1. gsimp. apply list_eq. intros j. destruct (decide (j = stp)) as [->|Hne].
    + rewrite !list_lookup_alter_eq, (stt_Some _ _ Hs). cbn. by rewrite <- app_assoc.
    + by rewrite !list_lookup_alter_ne by done.
  - intros a [Ha| ->%list_elem_of_singleton]%elem_of_app; [|by split_and!; [..|left]].
    destruct (N1 a Ha) as (?&?&?). split_and!; [done|done|by right].
  - intros t [->|Ht]%elem_of_cons.
    + exists (mkAction addr tok SHIFT (XState newstp) None). split; [|done]. apply elem_of_app. right. by left.
    + destruct (N2 t Ht) as (a&?&?). exists a. split; [|done]. apply elem_of_app. by left.
Qed.

(** ** A state with a known basis *)

Definition cleared g (c : nat) : Prop := cfp_fplp (cfg (g_cfgs g) c) = [] ∧ cfp_bplp (cfg (g_cfgs g) c) = [].

Lemma cfg_upd f c d g : cfg (g_cfgs (upd_cfg f c g)) d =
  if decide (c = d ∧ (d < length (g_cfgs g))%nat) then f (cfg (g_cfgs g) d) else cfg (g_cfgs g) d.
Proof.
  unfold cfg. gsimp. case_decide as H.
  - destruct H as [-> H]. rewrite list_lookup_alter_eq. by destruct (lookup_lt_is_Some_2 _ _ H) as [cf ->].
  - destruct (decide (c = d)) as [->|]; [|by rewrite list_lookup_alter_ne].
    rewrite list_lookup_alter_eq. by rewrite (lookup_ge_None_2 (g_cfgs g) d) by lia.
Qed.

Lemma copy_links_ok xs : ∀ ys g, cfgs_ok (g_cfgs g) →
  quiet g (copy_links xs ys g) ∧ cfgs_ok (g_cfgs (copy_links xs ys g)) ∧
  (∀ c, cleared g c → c ∉ ys → cleared (copy_links xs ys g) c).
Proof.
  induction xs as [|x xs IH]; intros [|y ys] g Hok; cbn [copy_links]; try (split_and!; [apply quiet_refl|done|done]).
  set (g1 := upd_cfg _ y g). set (g2 := upd_cfg _ x g1).
  assert (quiet g g1) as Q1 by (by apply upd_cfg_quiet). assert (quiet g1 g2) as Q2 by (by apply upd_cfg_quiet).
  destruct (IH ys g2) as (Q&Ho&Hcl).
  { apply upd_cfg_ok; [done|done|]. by apply upd_cfg_ok. }
  split_and!; [eapply quiet_trans; [by eapply quiet_trans|done]|done|]. intros c [Hf Hbp] Hny. apply not_elem_of_cons in Hny as [Hne Hny].
  apply Hcl; [|done]. unfold cleared, g2. rewrite !cfg_upd. case_decide; [by split|].
  unfold g1. rewrite !cfg_upd, !decide_False by naive_solver. by split.
Qed.

Lemma copy_links_clears xs : ∀ ys g, cfgs_ok (g_cfgs g) → (length xs ≤ length ys)%nat → (∀ c, c ∈ xs → c ∉ ys) →
  (∀ c, c ∈ xs → (c < length (g_cfgs g))%nat) → ∀ c, c ∈ xs → cleared (copy_links xs ys g) c.
Proof.
  induction xs as [|x xs IH]; intros [|y ys] g Hok Hlen Hd Hlt c Hc; [by apply elem_of_nil in Hc|by apply elem_of_nil in Hc|cbn in Hlen; lia|].
  cbn [copy_links]. set (g1 := upd_cfg _ y g). set (g2 := upd_cfg _ x g1).
  assert (cfgs_ok (g_cfgs g2)) as Hok2 by (apply upd_cfg_ok; [done|done|]; by apply upd_cfg_ok).
  assert (length (g_cfgs g2) = length (g_cfgs g)) as Hl2 by (unfold g2, g1; gsimp; by rewrite !length_alter).
  cbn in Hlen. apply elem_of_cons in Hc as [->|Hc].
  - destruct (copy_links_ok xs ys g2 Hok2) as (_&_&H). apply H.
    + unfold cleared, g2. rewrite !cfg_upd, !decide_True; [done|..]; (split; [done|]); unfold g1; gsimp; rewrite length_alter; apply Hlt; by left.
    + intros Hin. apply (Hd x); [by left|by right].
  - apply IH; [done|lia| |intros d Hdx; rewrite Hl2; apply Hlt; by right|done].
    intros d Hdx Hin. apply (Hd d); by right.
Qed.

Lemma Configlist_eat_ok l : ∀ g, (∀ c, c ∈ l → (c < length (g_cfgs g))%nat ∧ cleared g c) →
  ∃ fl, Configlist_eat l g = Ok (upd_freelist fl g).
Proof.
  induction l as [|c l IH]; intros g Hl; cbn [Configlist_eat].
  { exists (g_freelist g). f_equal. by destruct g. }
  destruct (Hl c) as [Hc [H1 H2]]; [by left|]. destruct (cfg_at_lt g c Hc) as [-> _]. cbn [mbind res_bind].
  rewrite H1, H2, !bool_decide_true by done. cbn [negb orb]. unfold deleteconfig.
  destruct (IH (upd_freelist (c :: g_freelist g) g)) as [fl ->]; [|by exists fl].
  intros d Hd. apply (Hl d). by right.
Qed.

Lemma ginv_cfgs P g g' : ginv g → cext P (g_cfgs g) (g_cfgs g') → cfgs_ok (g_cfgs g') → g_x3 g' = g_x3 g →
  g_states g' = g_states g → table_ok (snd : nat * key → key) confighash Configcmp (g_x4 g') → ginv g'.
Proof.
  intros [H1 H2 H3 H4 H5] Hx Hok E3 Es Ht. constructor; [done|done|by rewrite E3| |].
  - rewrite E3, H4, Es. apply imap_ext. intros j s Hs. f_equal. symmetry. eapply cext_keys; [done|]. apply (H5 _ _ Hs).
  - rewrite Es. intros j s Hs. destruct (H5 j s Hs) as [A B C D E F]. destruct Hx as [Hl Hx]. constructor; try done.
    + eapply Forall_impl; [exact A|]. cbn. lia.
    + eapply Forall_impl; [exact B|]. cbn. lia.
    + by rewrite (cext_keys P _ _ _ (conj Hl Hx) A).
    + intros it. rewrite (cext_items P _ _ _ (conj Hl Hx) B), E.
      by rewrite (cext_items P _ _ _ (conj Hl Hx) A).
Qed.

(** ** How many states there can be *)

Lemma state_keys_lookup g j s : ginv g → g_states g !! j = Some s → (j, cfg_key rs (g_cfgs g) <$> stp_bp s) ∈ x_arrayof (g_x3 g).
Proof. intros Hi Hs. rewrite (i_arr _ Hi). apply (list_elem_of_lookup_2 _ j). by rewrite list_lookup_imap, Hs. Qed.
Lemma state_keys_inv g j k : ginv g → (j, k) ∈ x_arrayof (g_x3 g) →
  ∃ s, g_states g !! j = Some s ∧ k = cfg_key rs (g_cfgs g) <$> stp_bp s.
Proof.
  intros Hi. rewrite (i_arr _ Hi). intros (i&H)%list_elem_of_lookup. rewrite list_lookup_imap in H.
  destruct (g_states g !! i) as [s|] eqn:Es; [|done]. apply (inj Some) in H. injection H as <- <-. eauto.
Qed.

(** no two states have the same basis *)
Lemma state_keys_distinct g i j s t : ginv g → g_states g !! i = Some s → g_states g !! j = Some t →
  cfg_key rs (g_cfgs g) <$> stp_bp s = cfg_key rs (g_cfgs g) <$> stp_bp t → i = j.
Proof.
  intros Hi Hs Ht Hk. pose proof (x_uniq _ _ _ _ (i_x3 _ Hi)) as Hu. pose proof (i_arr _ Hi) as Ha.
  assert (∀ n u, g_states g !! n = Some u → ∃ nd, tbl (g_x3 g) !! n = Some nd ∧ xn_data nd = (n, cfg_key rs (g_cfgs g) <$> stp_bp u)) as Hnode.
  { intros n u Hn. assert (x_arrayof (g_x3 g) !! n = Some (n, cfg_key rs (g_cfgs g) <$> stp_bp u)) as H by (by rewrite Ha, list_lookup_imap, Hn).
    unfold x_arrayof in H. apply list_lookup_fmap_Some in H as (nd&?&?). eauto. }
  destruct (Hnode i s Hs) as (a&Ha1&Ea), (Hnode j t Ht) as (b&Hb1&Eb). apply (Hu i j a b Ha1 Hb1).
  rewrite Ea, Eb. cbn [snd]. rewrite Hk. by apply statecmp_eq.
Qed.

Lemma keys_sublist g l : cfgs_ok (g_cfgs g) → Forall (λ c, (c < length (g_cfgs g))%nat) l →
  StronglySorted key_lt (cfg_key rs (g_cfgs g) <$> l) → cfg_key rs (g_cfgs g) <$> l ∈ sublists all_keys.
Proof.
  intros Hok Hl Hs. apply strict_sublist; [apply all_keys_strict|done|]. intros k (c&->&Hc)%list_elem_of_fmap.
  apply elem_of_all_keys. rewrite Forall_forall in Hl. by apply cfg_ok, Hl.
Qed.

Lemma states_bound g : ginv g → (length (g_states g) ≤ 2 ^ nitems rs)%nat.
Proof.
  intros Hi. transitivity (length (sublists all_keys)).
  - rewrite <- (length_fmap (λ s, cfg_key rs (g_cfgs g) <$> stp_bp s)). apply NoDup_length_le.
    + apply NoDup_alt. intros i j k H1 H2. apply list_lookup_fmap_Some in H1 as (s&->&Hs), H2 as (t&Hk&Ht).
      by eapply state_keys_distinct.
    + intros k (s&->&(j&Hs)%list_elem_of_lookup)%list_elem_of_fmap. destruct (i_states _ Hi _ _ Hs) as [A _ B _ _ _].
      apply keys_sublist; [apply (i_cfgs _ Hi)|done|done].
  - rewrite length_sublists. apply Nat.pow_le_mono_r; [done|]. apply length_all_keys.
Qed.

Lemma state_find_ok g k : state_table_ok (g_x3 g) →
  ∃ r, State_find (g_x3 g) k = Ok r ∧ ∀ j, r = Some j ↔ (j, k) ∈ x_arrayof (g_x3 g).
Proof.
  intros Hx. destruct (x_find_ok (snd : nat * list key → list key) statehash statecmp) with (x := g_x3 g) (key := k) as (r&Hr&Hi).
  - intros ? ? ->%statecmp_eq. by apply statecmp_eq.
  - intros ? ? ? ->%statecmp_eq ->%statecmp_eq. by apply statecmp_eq.
  - by intros ? ? ->%statecmp_eq.
  - done.
  - unfold State_find. rewrite Hr. eexists. split; [done|]. intros j. destruct r as [[i k']|]; cbn [option_map].
    + destruct (proj1 (Hi (i, k')) eq_refl) as [He Hk]. apply statecmp_eq in Hk. cbn in Hk. subst k'. split.
      * intros [= <-]. done.
      * intros Hj. assert (Some (i, k) = Some (j, k)) as E by (apply Hi; split; [done|by apply statecmp_eq]). cbn. congruence.
    + split; [done|]. intros Hj. by pose proof (proj2 (Hi (j, k)) (conj Hj (proj2 (statecmp_eq k k) eq_refl))).
Qed.
Lemma state_insert_ok (x : xtable (nat * list key)) j k : state_table_ok x → (∀ i, (i, k) ∉ x_arrayof x) →
  ∃ x', State_insert calloc_ok x (j, k) = Ok (true, x') ∧ state_table_ok x' ∧ x_arrayof x' = x_arrayof x ++ [(j, k)].
Proof.
  intros Hx Hnew. unfold State_insert.
  destruct (x_insert_ok (snd : nat * list key → list key) statehash statecmp calloc_ok) with (x := x) (e := (j, k))
    as [(e'&_&He&Hc)|(_&[(x'&Hi&Hok&Harr)|(_&Hf)])]; [|by intros ? ? ->%statecmp_eq|done|..].
  - intros ? ? ->%statecmp_eq. by apply statecmp_eq.
  - exfalso. apply statecmp_eq in Hc. destruct e' as [i k']. cbn in Hc. subst k'. by apply (Hnew i).
  - eauto.
  - by rewrite Hcalloc_ok in Hf.
Qed.

Lemma x_clear_ok (x : xtable (nat * key)) : table_ok (snd : nat * key → key) confighash Configcmp x →
  table_ok (snd : nat * key → key) confighash Configcmp (x_clear x) ∧ x_arrayof (x_clear x) = [].
Proof.
  intros Hx. unfold x_clear. destruct (Z.eqb_spec (x_count x) 0) as [E|E].
  - split; [done|]. unfold x_count, zlen in E. unfold x_arrayof. destruct (tbl x); [done|cbn in E; lia].
  - split; [|done]. destruct Hx as [(k&Hk&Hsz) Hht _ _]. constructor; cbn [xsize tbl ht]; [by exists k| |done|done].
    intros h Hh. cbn. apply lookup_replicate. split; [done|]. by eapply lookup_lt_Some, Hht.
Qed.

Lemma reset_ok g : ginv g → bld (Configlist_reset g).
Proof.
  intros Hi. destruct (x_clear_ok _ (i_x4 _ Hi)) as [H1 H2]. unfold Configlist_reset, Configtable_clear. constructor; gsimp; try done.
  - constructor.
  - apply (i_cfgs _ Hi).
Qed.

(** what a call of [getstate] needs and gives; [fuel] bounds the nesting *)
Definition ready (N0 : nat) g : Prop :=
  ginv g ∧ bld g ∧ g_basis g = g_current g ∧ g_basisend g = true ∧ Forall (λ c, (N0 ≤ c)%nat) (g_current g) ∧
  ∀ j s, g_states g !! j = Some s → Forall (λ c, (c < N0)%nat) (stp_bp s).
Definition built g (stp : nat) g' : Prop :=
  ginv g' ∧ ext (λ c, c ∉ g_current g) (λ _, True) g g' ∧ (stp < length (g_states g'))%nat ∧
  (∀ it, kernel g' stp it ↔ it ∈ items (g_cfgs g) (g_current g)) ∧
  ∀ j, (length (g_states g) ≤ j < length (g_states g'))%nat → complete g' j ∧ reach g' stp j.
Definition builds (fuel : nat) (rec : gen → res (nat * gen)) : Prop :=
  ∀ N0 g, ready N0 g → (2 ^ nitems rs < fuel + length (g_states g))%nat → ∃ stp g', rec g = Ok (stp, g') ∧ built g stp g'.

(** adding actions to a state *)
Lemma upd_ap_inv stp new g g' : ginv g → g_cfgs g' = g_cfgs g → g_x3 g' = g_x3 g → g_x4 g' = g_x4 g →
  g_states g' = alter (λ s, upd_ap (new ++ stp_ap s) s) stp (g_states g) →
  ginv g' ∧ ext (λ _, True) (λ j, j ≠ stp) g g' ∧ length (g_states g') = length (g_states g).
Proof.
  intros [H1 H2 H3 H4 H5] C X3 X4 S.
  assert (∀ j s', g_states g' !! j = Some s' → ∃ s, g_states g !! j = Some s ∧ stp_bp s' = stp_bp s ∧ stp_cfp s' = stp_cfp s ∧
    stp_statenum s' = stp_statenum s ∧ (j ≠ stp → s' = s)) as Hback.
  { intros j s' Hj. rewrite S in Hj. destruct (decide (j = stp)) as [->|Hne].
    - rewrite list_lookup_alter_eq in Hj. destruct (g_states g !! stp) as [s|]; [|done]. injection Hj as <-. by exists s.
    - rewrite list_lookup_alter_ne in Hj by done. by exists s'. }
  assert (length (g_states g') = length (g_states g)) as Hlen by (by rewrite S, length_alter).
  split_and!; [| |done].
  - constructor; [by rewrite C|by rewrite X4|by rewrite X3| |].
    + rewrite X3, H4, C. apply list_eq. intros j. rewrite !list_lookup_imap.
      destruct (decide (j < length (g_states g))%nat) as [Hj|Hj].
      * rewrite (stt_Some _ _ Hj). rewrite <- Hlen in Hj. rewrite (stt_Some _ _ Hj).
        destruct (Hback _ _ (stt_Some _ _ Hj)) as (s&Hs&Hb&_). rewrite Hlen in Hj. rewrite (stt_Some _ _ Hj) in Hs.
        injection Hs as <-. cbn. by rewrite Hb.
      * by rewrite !lookup_ge_None_2 by lia.
    + intros j s' Hj. destruct (Hback j s' Hj) as (s&Hs&Hb&Hc&Hn&_). destruct (H5 j s Hs) as [A B D E F G].
      constructor; rewrite ?C, ?Hb, ?Hc, ?Hn; done.
  - constructor; [rewrite C; apply cext_refl|]. intros j s Hj.
    destruct (lookup_lt_is_Some_2 (g_states g') j) as [s' Hs']; [rewrite Hlen; by eapply lookup_lt_Some|].
    destruct (Hback j s' Hs') as (s0&Hs0&?&?&?&?). assert (s0 = s) as -> by congruence. eauto 10.
Qed.

Section ShiftLoop.
Context (fuel : nat) (rec : gen → res (nat * gen)) (Hrec : builds fuel rec) (stp : nat).

(** the loop has dealt with the configurations [pre], and with the symbols [Ps] *)
Record shifting (pre l : list nat) (Ps : list nat) g : Prop := {
  h_inv : ginv g;
  h_stp : (stp < length (g_states g))%nat;
  h_cfp : stp_cfp (stt (g_states g) stp) = pre ++ l;
  h_status : ∀ c, c ∈ pre ++ l → cfp_status (cfg (g_cfgs g) c) = COMPLETE ↔
    ∃ X Y, after rs (cfg_item (g_cfgs g) c) = Some X ∧ Y ∈ Ps ∧ same_symbol ss X Y = true;
  h_pre : ∀ c X, c ∈ pre → after rs (cfg_item (g_cfgs g) c) = Some X → ∃ Y, Y ∈ Ps ∧ same_symbol ss X Y = true;
  h_trans : trans_ok g stp (λ X, X ∈ Ps);
  h_fuel : (2 ^ nitems rs < fuel + length (g_states g))%nat;
}.

Lemma shifting_lt pre l Ps g c : shifting pre l Ps g → c ∈ pre ++ l → (c < length (g_cfgs g))%nat.
Proof.
  intros H Hc. pose proof (i_states _ (h_inv _ _ _ _ H) _ _ (stt_Some _ _ (h_stp _ _ _ _ H))) as Hs.
  pose proof (s_cfp _ _ _ Hs) as Hl. rewrite (h_cfp _ _ _ _ H), Forall_forall in Hl. by apply Hl.
Qed.
Lemma shifting_citems pre l Ps g it : shifting pre l Ps g → citems g stp it ↔ ∃ c, c ∈ pre ++ l ∧ it = cfg_item (g_cfgs g) c.
Proof.
  intros H. unfold citems, items. rewrite (h_cfp _ _ _ _ H), list_elem_of_fmap. naive_solver.
Qed.

(** what the new basis is: everything the state can shift over the symbol *)
Lemma collected_goto pre c l Ps g g1 sp : shifting pre (c :: l) Ps g → cfp_status (cfg (g_cfgs g) c) = INCOMPLETE →
  after rs (cfg_item (g_cfgs g) c) = Some sp → collected (length (g_cfgs g)) sp (c :: l) (Configlist_reset g) g1 →
  ∀ it, it ∈ items (g_cfgs g1) (g_current g1) ↔ goto (citems g stp) sp it.
Proof.
  intros H Hst Ha Hk it. rewrite (k_items _ _ _ _ _ Hk). change (g_cfgs (Configlist_reset g)) with (g_cfgs g).
  change (g_current (Configlist_reset g)) with (@nil nat). split.
  - intros [?%elem_of_nil|(b&Hb&(_&s&Hs&Hm)&->)]; [done|]. exists (cfg_item (g_cfgs g) b), s. split_and!; try done.
    apply (shifting_citems _ _ _ _ _ H). exists b. split; [|done]. apply elem_of_app. by right.
  - intros (it0&s&(b&Hb&->)%(shifting_citems _ _ _ _ _ H)&Hs&Hm&->). right.
    assert (¬ ∃ Y, Y ∈ Ps ∧ same_symbol ss sp Y = true) as Hnew.
    { intros (Y&HY&Hsame). assert (cfp_status (cfg (g_cfgs g) c) = COMPLETE) as E; [|congruence].
      apply (h_status _ _ _ _ H); [apply elem_of_app; right; by left|]. eauto. }
    assert (∀ Y, Y ∈ Ps → same_symbol ss s Y = true → False) as Hno.
    { intros Y HY Hsame. apply Hnew. exists Y. split; [done|]. eapply same_symbol_trans; [by apply same_symbol_sym|done]. }
    exists b. split_and!; [| |done].
    + apply elem_of_app in Hb as [Hb|Hb]; [|done]. destruct (h_pre _ _ _ _ H b s Hb Hs) as (Y&HY&Hsame). by destruct (Hno Y).
    + split; [|eauto]. destruct (cfp_status (cfg (g_cfgs g) b)) eqn:E; [|done].
      apply (h_status _ _ _ _ H) in E as (X&Y&HX&HY&Hsame); [|done]. assert (X = s) as -> by congruence. by destruct (Hno Y).
Qed.

(** the transitions after one more symbol *)
Lemma shift_trans Ps sp newstp new g g2 g3 P : ginv g → (stp < length (g_states g))%nat → trans_ok g stp (λ X, X ∈ Ps) →
  ext P (λ _, True) g g2 → ginv g2 → ext (λ _, True) (λ j, j ≠ stp) g2 g3 →
  g_states g3 = alter (λ s, upd_ap (new ++ stp_ap s) s) stp (g_states g2) →
  (∀ a, a ∈ new → ap_type a = SHIFT ∧ ap_x a = XState newstp ∧ ap_sp a ∈ shift_tokens ss sp) →
  (∀ tok, tok ∈ shift_tokens ss sp → ∃ a, a ∈ new ∧ ap_sp a = tok) →
  shiftable g3 stp sp → edge g3 stp sp newstp → trans_ok g3 stp (λ X, X ∈ sp :: Ps).
Proof.
  intros Hi Hstp Ht He02 Hi2 He23 S3 N1 N2 Hsh Hedge. pose proof (ext_len _ _ _ _ He02) as Hl.
  apply (trans_ok_ext _ _ _ _ _ _ Hi He02 I Hstp) in Ht. destruct Ht as [T1 T2].
  assert (stp_ap (stt (g_states g3) stp) = new ++ stp_ap (stt (g_states g2) stp)) as Hap.
  { unfold stt at 1. rewrite S3, list_lookup_alter_eq, (stt_Some (g_states g2) stp) by lia. done. }
  constructor.
  - intros X [->|HX]%elem_of_cons.
    + split; [done|]. exists newstp. split; [done|]. intros tok Htok. destruct (N2 tok Htok) as (a&Ha&<-).
      destruct (N1 a Ha) as (?&?&_). exists a. rewrite Hap. split_and!; try done. apply elem_of_app. by left.
    + destruct (T1 X HX) as (Hs&t&Hed&Htok). split; [by apply (shiftable_ext _ _ g2 g3 stp X Hi2 He23); [lia|]|].
      exists t. split; [eapply edge_ext; [exact Hi2|exact He23|lia|done]|]. intros tok Hin. destruct (Htok tok Hin) as (a&Ha&?&?&?).
      exists a. rewrite Hap. split_and!; try done. apply elem_of_app. by right.
  - rewrite Hap. intros a [Ha|Ha]%elem_of_app.
    + destruct (N1 a Ha) as (?&?&?). exists sp, newstp. split_and!; try done. by left.
    + destruct (T2 a Ha) as (X&t&HX&Hed&?&?&?). exists X, t. split_and!; try done; [by right|].
      eapply edge_ext; [exact Hi2|exact He23|lia|done].
Qed.

(** one round: the new basis, its state, and the actions that lead there *)
Lemma shift_round pre c l Ps g sp : shifting pre (c :: l) Ps g → cfp_status (cfg (g_cfgs g) c) = INCOMPLETE →
  after rs (cfg_item (g_cfgs g) c) = Some sp →
  ∃ g1 newstp g2 g3, collect_shifts ss rs size calloc_ok malloc sp (c :: l) (Configlist_reset g) = Ok g1 ∧ rec g1 = Ok (newstp, g2) ∧
    add_shifts calloc stp newstp (shift_tokens ss sp) g2 = Ok g3 ∧ shifting (pre ++ [c]) l (sp :: Ps) g3 ∧
    ext (λ c, c ∉ stp_cfp (stt (g_states g) stp)) (λ j, j ≠ stp) g g3 ∧
    ∀ j, (length (g_states g) ≤ j < length (g_states g3))%nat → complete g3 j ∧ reach g3 stp j.
Proof.
  intros H Hst Ha. pose proof (h_inv _ _ _ _ H) as Hi. pose proof (h_stp _ _ _ _ H) as Hstp.
  pose proof (i_states _ Hi _ _ (stt_Some _ _ Hstp)) as Hs. pose proof (reset_ok g Hi) as Hb0.
  assert (Forall (λ d, (d < length (g_cfgs g))%nat) (c :: l)) as Hcl.
  { apply Forall_forall. intros d Hd. apply (shifting_lt _ _ _ _ _ H). apply elem_of_app. by right. }
  assert (NoDup (c :: l)) as Hnd.
  { pose proof (s_nodup _ _ _ Hs) as Hn. rewrite (h_cfp _ _ _ _ H) in Hn. by apply NoDup_app in Hn as (_&_&?). }
  destruct (collect_shifts_ok (length (g_cfgs g)) sp (c :: l) (Configlist_reset g) Hb0) as (g1&Hg1&Hk); [done|done|done|done|constructor|done|].
  pose proof Hk as [K1 K2 K3 K4 K5 K6 K7 K8]. pose proof (collected_goto _ _ _ _ _ _ _ H Hst Ha Hk) as Hgoto.
  change (outer g1 = outer g) in K4. injection K4 as E3 Es Ep. change (g_cfgs (Configlist_reset g)) with (g_cfgs g) in *.
  assert (ginv g1) as Hi1 by (eapply ginv_cfgs; [exact Hi|exact K6|apply (b_cfgs _ K1)|done|done|apply (b_x4 _ K1)]).
  destruct (Hrec (length (g_cfgs g)) g1) as (newstp&g2&Hg2&(Hi2&He2&Hn2&Hker&Hnew)).
  { split_and!; try done. intros j s Hj. rewrite Es in Hj. apply (i_states _ Hi _ _ Hj). }
  { rewrite Es. apply (h_fuel _ _ _ _ H). }
  assert (ext (λ d, ¬ (d ∈ c :: l ∧ sel (g_cfgs g) sp d)) (λ _, True) g g2) as He02.
  { eapply (ext_trans _ (λ _, True) _ (λ _, True)); [| |apply ext_outer; [exact K6|exact Es]|exact He2]; [|by intros]. cbn. intros d Hd Hns. split; [done|].
    intros Hcur. rewrite Forall_forall in K5. specialize (K5 d Hcur). cbn in K5. lia. }
  pose proof (ext_len _ _ _ _ He02) as Hl2.
  destruct (add_shifts_ok stp newstp (shift_tokens ss sp) g2) as (g3&new&Hg3&C3&X3&X4&S3&N1&N2); [lia|].
  destruct (upd_ap_inv stp new g2 g3 Hi2 C3 X3 X4 S3) as (Hi3&He23&Hlen3).
  assert (ext (λ d, ¬ (d ∈ c :: l ∧ sel (g_cfgs g) sp d)) (λ j, j ≠ stp) g g3) as He03.
  { eapply ext_trans; [| |exact He02|exact He23]; cbn; by intros. }
  assert (edge g3 stp sp newstp) as Hedge.
  { apply (edge_ext (λ _, True) (λ j, j ≠ stp) g2 g3); [done|done|lia|]. split; [lia|]. intros it. rewrite Hker, Hgoto.
    apply goto_ext. intros i. symmetry. by destruct (kernel_ext _ _ g g2 stp i Hi He02 Hstp) as [_ ?]. }
  assert (shiftable g3 stp sp) as Hsh.
  { apply (shiftable_ext _ _ g g3 stp sp Hi He03 Hstp). exists (cfg_item (g_cfgs g) c). split; [|done].
    apply (shifting_citems _ _ _ _ _ H). exists c. split; [|done]. apply elem_of_app. right. by left. }
  assert (∀ d, (d < length (g_cfgs g))%nat → cfg_item (g_cfgs g3) d = cfg_item (g_cfgs g) d) as Hitem.
  { intros d Hd. destruct (e_cext _ _ _ _ He03) as [_ He]. by apply He. }
  assert (∀ d, d ∈ pre ++ c :: l → cfp_status (cfg (g_cfgs g3) d) = COMPLETE ↔
    cfp_status (cfg (g_cfgs g) d) = COMPLETE ∨ d ∈ c :: l ∧ sel (g_cfgs g) sp d) as Hstatus.
  { intros d Hd. pose proof (shifting_lt _ _ _ _ _ H Hd) as Hlt. destruct (sel_dec (g_cfgs g) sp d) as [Hsel|Hsel]; cycle 1.
    { rewrite (cext_status _ _ _ d (e_cext _ _ _ _ He03)) by naive_solver. naive_solver. }
    destruct (decide (d ∈ c :: l)) as [Hin|Hin]; cycle 1.
    { rewrite (cext_status _ _ _ d (e_cext _ _ _ _ He03)) by naive_solver. naive_solver. }
    split; [by right|]. intros _. rewrite C3. rewrite (cext_status _ _ _ d (e_cext _ _ _ _ He2)); [by apply K7|destruct K6; lia|].
    intros Hcur. rewrite Forall_forall in K5. specialize (K5 d Hcur). cbn in K5. lia. }
  exists g1, newstp, g2, g3. split_and!; [done|done|done| | |].
  - constructor; [done|lia| | | | |].
    + rewrite <- app_assoc. cbn [app]. rewrite <- (h_cfp _ _ _ _ H).
      destruct (e_states _ _ _ _ He03 _ _ (stt_Some _ _ Hstp)) as (s'&Hs'&_&Hc&_). unfold stt at 1. by rewrite Hs'.
    + rewrite <- app_assoc. cbn [app]. intros d Hd. pose proof (shifting_lt _ _ _ _ _ H Hd) as Hlt.
      rewrite (Hitem d Hlt), (Hstatus d Hd), (h_status _ _ _ _ H d Hd). split.
      * intros [(X&Y&?&?&?)|(_&_&s&?&?)]; [exists X, Y|exists s, sp]; split_and!; try done; set_solver.
      * intros (X&Y&HX&[->|HY]%elem_of_cons&Hsame); [|left; eauto].
        destruct (cfp_status (cfg (g_cfgs g) d)) eqn:E; [left; by apply (h_status _ _ _ _ H)|].
        apply elem_of_app in Hd as [Hd|Hd]; [left|right; split; [done|]; split; eauto].
        destruct (h_pre _ _ _ _ H d X Hd HX) as (Y&?&?). eauto.
    + intros d X Hd HX. assert (d ∈ pre ++ c :: l) as Hd' by set_solver. rewrite (Hitem d (shifting_lt _ _ _ _ _ H Hd')) in HX.
      apply elem_of_app in Hd as [Hd| ->%list_elem_of_singleton].
      * destruct (h_pre _ _ _ _ H d X Hd HX) as (Y&?&?). exists Y. split; [by right|done].
      * exists sp. split; [by left|]. assert (X = sp) as -> by congruence. apply same_symbol_refl.
    + eapply (shift_trans Ps sp newstp new g g2 g3); try done. apply (h_trans _ _ _ _ H).
    + rewrite Hlen3. pose proof (h_fuel _ _ _ _ H). lia.
  - eapply ext_weaken; [|intros j Hj; exact Hj|exact He03]. cbn. rewrite (h_cfp _ _ _ _ H). intros d Hd [Hin _]. apply Hd, elem_of_app. by right.
  - intros j Hj. destruct (Hnew j) as [Hc Hr]; [rewrite Es; lia|]. split.
    + apply (complete_ext (λ _, True) (λ j, j ≠ stp) g2 g3); [done|done|lia|lia|done].
    + eapply reach_trans; [eapply reach_step; [constructor|exact Hsh|exact Hedge|lia]|]. by apply (reach_ext (λ _, True) (λ j, j ≠ stp) g2 g3).
Qed.

Lemma shift_skip pre c l Ps g : shifting pre (c :: l) Ps g →
  (cfp_status (cfg (g_cfgs g) c) = COMPLETE ∨ after rs (cfg_item (g_cfgs g) c) = None) → shifting (pre ++ [c]) l Ps g.
Proof.
  intros [H1 H2 H3 H4 H5 H6 H7] Hc. assert ((pre ++ [c]) ++ l = pre ++ c :: l) as E by (by rewrite <- app_assoc).
  constructor; rewrite ?E; try done. intros d X [Hd| ->%list_elem_of_singleton]%elem_of_app HX; [eauto|].
  destruct Hc as [Hc|Hc]; [|congruence]. apply H4 in Hc as (X'&Y&?&?&?); [|apply elem_of_app; right; by left].
  exists Y. split; [done|]. by replace X with X' by congruence.
Qed.

Lemma shift_loop_ok l : ∀ pre Ps g, shifting pre l Ps g →
  ∃ g', shift_loop ss rs size calloc_ok calloc malloc rec stp l g = Ok g' ∧ ginv g' ∧ complete g' stp ∧
    ext (λ c, c ∉ stp_cfp (stt (g_states g) stp)) (λ j, j ≠ stp) g g' ∧
    ∀ j, (length (g_states g) ≤ j < length (g_states g'))%nat → complete g' j ∧ reach g' stp j.
Proof.
  induction l as [|c l IH]; intros pre Ps g H; cbn [shift_loop].
  - exists g. split_and!; [done|apply (h_inv _ _ _ _ H)| |by apply ext_outer; [apply cext_refl|]|lia].
    destruct (h_trans _ _ _ _ H) as [T1 T2]. constructor.
    + intros X (it&Hit&Ha). split; [by exists it|]. apply (shifting_citems _ _ _ _ _ H) in Hit as (d&Hd&->). rewrite app_nil_r in Hd.
      destruct (h_pre _ _ _ _ H d X Hd Ha) as (Y&HY&Hsame). destruct (T1 Y HY) as (_&t&[Ht Hed]&Htok). exists t. split.
      * split; [done|]. intros i. rewrite Hed. symmetry. by apply goto_same.
      * by rewrite (same_symbol_tokens _ _ Hsame).
    + intros a Ha. destruct (T2 a Ha) as (X&t&HX&?&?&?&?). exists X, t. split_and!; try done. by destruct (T1 X HX).
  - assert (c < length (g_cfgs g))%nat as Hlt by (apply (shifting_lt _ _ _ _ _ H); apply elem_of_app; right; by left).
    destruct (cfg_at_lt g c Hlt) as [-> _]. cbn [mbind res_bind].
    change (cfp_rp (cfg (g_cfgs g) c), cfp_dot (cfg (g_cfgs g) c)) with (cfg_item (g_cfgs g) c).
    case_decide as Hst; [apply (IH (pre ++ [c]) Ps); apply shift_skip; auto|].
    destruct (after rs (cfg_item (g_cfgs g) c)) as [sp|] eqn:Ha; [|apply (IH (pre ++ [c]) Ps); apply shift_skip; auto].
    destruct (shift_round pre c l Ps g sp H) as (g1&newstp&g2&g3&Hg1&Hg2&Hg3&H3&He&Hnew); [by destruct (cfp_status _)|done|].
    rewrite Hg1. cbn [mbind res_bind]. rewrite Hg2, Hg3. cbn [mbind res_bind].
    destruct (IH (pre ++ [c]) (sp :: Ps) g3 H3) as (g'&->&Hi'&Hc'&He'&Hnew'). exists g'.
    pose proof (h_stp _ _ _ _ H) as Hstp. pose proof (ext_len _ _ _ _ He). pose proof (ext_len _ _ _ _ He').
    assert (stp_cfp (stt (g_states g3) stp) = stp_cfp (stt (g_states g) stp)) as Hcfp.
    { destruct (e_states _ _ _ _ He _ _ (stt_Some _ _ Hstp)) as (s'&Hs'&_&Hc&_). unfold stt at 1. by rewrite Hs'. }
    split_and!; [done|done|done| |].
    + rewrite Hcfp in He'. eapply ext_trans; [| |exact He|exact He']; by intros.
    + intros j Hj. destruct (decide (j < length (g_states g3))%nat) as [Hlt3|Hge]; [|apply Hnew'; lia].
      destruct (Hnew j) as [Hcj Hrj]; [lia|]. split.
      * eapply complete_ext; [apply (h_inv _ _ _ _ H3)|exact He'|cbn; lia|done|done].
      * eapply reach_ext; [apply (h_inv _ _ _ _ H3)|exact He'|done].
Qed.
End ShiftLoop.

(** ** [getstate] *)

Lemma sortbasis_ok g : g_basis g = g_current g →
  g_basis (Configlist_sortbasis rs g) = msort (cfg_cmp rs (g_cfgs g)) (g_current g).
Proof.
  intros Hb. unfold Configlist_sortbasis. gsimp. destruct (g_current g) as [|c l]; [done|]. rewrite Hb. cbn [list_from].
  by rewrite decide_True.
Qed.

(** the sorted basis: the same configurations, strictly in order *)
Lemma basis_sorted g : bld g → let bp := msort (cfg_cmp rs (g_cfgs g)) (g_current g) in
  bp ≡ₚ g_current g ∧ StronglySorted key_lt (cfg_key rs (g_cfgs g) <$> bp) ∧
  Forall (λ c, (c < length (g_cfgs g))%nat) bp ∧ NoDup bp ∧ ∀ it, it ∈ items (g_cfgs g) bp ↔ it ∈ items (g_cfgs g) (g_current g).
Proof.
  intros Hb bp. destruct (msort_cfgs (g_cfgs g) (g_current g) (small_list _ (current_small g Hb))) as [Hp Hs].
  assert (Forall (λ c, (c < length (g_cfgs g))%nat) bp) as Hl by (subst bp; rewrite Hp; apply (b_lt _ Hb)).
  assert (NoDup (items (g_cfgs g) bp)) as Hn by (subst bp; unfold items; rewrite Hp; apply (b_nodup _ Hb)).
  split_and!; [done| |done|by eapply NoDup_fmap_1|].
  - apply sorted_strict; [done|]. apply items_keys; [apply (b_cfgs _ Hb)|done|done].
  - intros it. subst bp. unfold items. by rewrite Hp.
Qed.

Lemma closure_ext (K K' : item → Prop) it : (∀ i, K i ↔ K' i) → closure K it ↔ closure K' it.
Proof.
  intros H. split; (induction 1 as [i Hi|i s r Hc IH Ha Ht Hr]; [apply cl_basis; by apply H|by eapply cl_rule]).
Qed.

(** an existing state with the basis *)
Lemma getstate_found N0 g stp bp : ready N0 g → bp = msort (cfg_cmp rs (g_cfgs g)) (g_current g) →
  (stp, cfg_key rs (g_cfgs g) <$> bp) ∈ x_arrayof (g_x3 g) → ∀ g0, g0 = upd_basis [] false (Configlist_sortbasis rs g) →
  ∃ g', Configlist_eat (g_current g0) (upd_current [] false (copy_links bp (stp_bp (stt (g_states g0) stp)) g0)) = Ok g' ∧ built g stp g'.
Proof.
  intros (Hi&Hb&_&_&HN&Hold) Hbp Hin g0 Hg0. destruct (basis_sorted g Hb) as (Hp&_&Hl&_&Hit). rewrite <- Hbp in Hp, Hl, Hit.
  destruct (state_keys_inv g stp _ Hi Hin) as (s&Hs&Hk). assert (g_cfgs g0 = g_cfgs g ∧ g_current g0 = g_current g ∧ g_states g0 = g_states g) as (Ec&Eu&Est) by (by subst g0).
  assert (stt (g_states g0) stp = s) as -> by (unfold stt; by rewrite Est, Hs).
  destruct (copy_links_ok bp (stp_bp s) g0) as (Hq&Hok&_); [rewrite Ec; apply (i_cfgs _ Hi)|].
  assert (∀ c, c ∈ g_current g → (c < length (g_cfgs g))%nat) as Hlt.
  { pose proof (b_lt _ Hb) as H. rewrite Forall_forall in H. exact H. }
  pose proof (copy_links_clears bp (stp_bp s) g0) as Hcl. set (g1 := copy_links bp (stp_bp s) g0) in *.
  destruct (Configlist_eat_ok (g_current g0) (upd_current [] false g1)) as [fl ->].
  { intros c Hc. rewrite Eu in Hc. split; [gsimp; rewrite (q_len _ _ Hq), Ec; by apply Hlt|].
    apply (Hcl); [rewrite Ec; apply (i_cfgs _ Hi)| | |rewrite Ec; intros d; rewrite Hp; apply Hlt|by rewrite Hp].
    - apply (f_equal length) in Hk. rewrite !length_fmap in Hk. lia.
    - intros d Hd Hd'. rewrite Hp in Hd. rewrite Forall_forall in HN. specialize (HN d Hd). cbn in HN.
      specialize (Hold _ _ Hs). rewrite Forall_forall in Hold. specialize (Hold d Hd'). cbn in Hold. lia. }
  eexists. split; [done|]. pose proof (q_cext _ _ Hq) as Hx. rewrite Ec in Hx. pose proof (q_outer _ _ Hq) as Ho.
  assert (outer g0 = outer g) as Ho' by (by subst g0). rewrite Ho' in Ho. injection Ho as E3 Es _.
  pose proof (q_cur _ _ Hq) as Hqc. injection Hqc as _ _ _ _ E4.
  assert (ginv (upd_freelist fl (upd_current [] false g1))) as Hi'.
  { eapply ginv_cfgs; [exact Hi|exact Hx|exact Hok|exact E3|exact Es|]. gsimp. rewrite E4. subst g0. apply (i_x4 _ Hi). }
  split_and!; [done| |gsimp; rewrite Es; by eapply lookup_lt_Some| |].
  - apply ext_outer; [eapply cext_weaken; [|exact Hx]; done|exact Es].
  - intros it. unfold kernel. gsimp. rewrite Es. unfold stt. rewrite Hs. cbn [default].
    destruct (i_states _ Hi _ _ Hs) as [A _ _ _ _ _]. cbn. rewrite (cext_items _ _ _ _ Hx A), <- Hit.
    split; intros (c&->&Hc)%list_elem_of_fmap.
    + assert (cfg_key rs (g_cfgs g) c ∈ cfg_key rs (g_cfgs g) <$> bp) as Hkc by (rewrite Hk; apply list_elem_of_fmap; eauto).
      apply list_elem_of_fmap in Hkc as (d&Hkd&Hd). apply list_elem_of_fmap. exists d. split; [|done].
      rewrite Forall_forall in A, Hl. apply item_key_inj; [by apply cfg_ok; [apply (i_cfgs _ Hi)|apply A]|by apply cfg_ok; [apply (i_cfgs _ Hi)|apply Hl]|done].
    + assert (cfg_key rs (g_cfgs g) c ∈ cfg_key rs (g_cfgs g) <$> stp_bp s) as Hkc by (rewrite <- Hk; apply list_elem_of_fmap; eauto).
      apply list_elem_of_fmap in Hkc as (d&Hkd&Hd). apply list_elem_of_fmap. exists d. split; [|done].
      rewrite Forall_forall in A, Hl. apply item_key_inj; [by apply cfg_ok; [apply (i_cfgs _ Hi)|apply Hl]|by apply cfg_ok; [apply (i_cfgs _ Hi)|apply A]|done].
  - gsimp. rewrite Es. lia.
Qed.

Lemma mark_ok cs l : cfgs_ok cs → let cs' := foldr (alter (upd_status INCOMPLETE)) cs l in
  cext (λ c, c ∉ l) cs cs' ∧ cfgs_ok cs' ∧ ∀ c, c ∈ l → (c < length cs)%nat → cfp_status (cfg cs' c) = INCOMPLETE.
Proof.
  intros Hok cs'. subst cs'. induction l as [|d l (IH1&IH2&IH3)]; cbn [foldr].
  { split_and!; [apply cext_refl|done|by intros c ?%elem_of_nil]. }
  set (cs1 := foldr _ _ l) in *. set (ge := mkGen cs1 [] [] false [] false (mkTable 0 [] []) (mkTable 0 [] []) [] (mkApool 0 []) 0).
  pose proof (upd_cfg_cext (λ c, c ≠ d) (upd_status INCOMPLETE) d ge) as Hx. change (g_cfgs ge) with cs1 in Hx. gsimp in Hx. change (g_cfgs ge) with cs1 in Hx. split_and!.
  - eapply cext_trans; [|exact IH1|apply Hx; done]. cbn. intros c _ Hc%not_elem_of_cons. naive_solver.
  - by apply (upd_cfg_ok (upd_status INCOMPLETE) d ge).
  - intros c Hc Hlt. pose proof (cfg_upd (upd_status INCOMPLETE) d c ge) as E. gsimp in E. change (g_cfgs ge) with cs1 in E. rewrite E. case_decide as Hd; [done|].
    apply IH3; [|done]. apply elem_of_cons in Hc as [->|?]; [|done]. destruct Hd. split; [done|]. destruct IH1. lia.
Qed.

(** a new state for the basis *)
Lemma getstate_new N0 fuel rec g bp : ready N0 g → builds fuel rec → (2 ^ nitems rs < S fuel + length (g_states g))%nat →
  bp = msort (cfg_cmp rs (g_cfgs g)) (g_current g) →
  (∀ i, (i, cfg_key rs (g_cfgs g) <$> bp) ∉ x_arrayof (g_x3 g)) → ∀ g0, g0 = upd_basis [] false (Configlist_sortbasis rs g) →
  ∃ g1 x g', Configlist_closure ss rs errsym size calloc_ok malloc g0 = Ok g1 ∧
    let cfp := msort (cfg_cmp rs (g_cfgs g1)) (g_current g1) in
    let stp := length (g_states g) in
    let g2 := upd_current [] false (Configlist_sort rs g1) in
    let st := mkState bp cfp (Z.of_nat stp) [] 0 0 0 0 0 None false in
    let g3 := upd_states (g_states g2 ++ [st]) g2 in
    State_insert calloc_ok (g_x3 g3) (stp, cfg_key rs (g_cfgs g3) <$> bp) = Ok (true, x) ∧
    buildshifts ss rs size calloc_ok calloc malloc rec stp (upd_x3 x g3) = Ok g' ∧ built g stp g'.
Proof.
  intros (Hi&Hb&_&_&HN&Hold) Hrec Hfuel Hbp Hnew g0 Hg0.
  destruct (basis_sorted g Hb) as (Hp&Hstr&Hl&_&Hit). rewrite <- Hbp in Hp, Hl, Hit, Hstr.
  assert (bld g0) as Hb0 by (subst g0; by destruct Hb). assert (outer g0 = outer g) as Ho0 by (by subst g0).
  assert (g_cfgs g0 = g_cfgs g ∧ g_current g0 = g_current g) as (Ec&Eu) by (by subst g0).
  destruct (Configlist_closure_ok g0 Hb0) as (g1&Hcl&Hb1&Hw1&_&Hclos). rewrite Ec, Eu in Hclos. clear Hg0.
  pose proof (w_cext _ _ Hw1) as Hx1. rewrite Ec in Hx1. pose proof (w_outer _ _ Hw1) as Ho1. rewrite Ho0 in Ho1. injection Ho1 as E3 Es _.
  destruct (basis_sorted g1 Hb1) as (Hp1&_&Hl1&Hnd1&Hit1). set (cfp := msort (cfg_cmp rs (g_cfgs g1)) (g_current g1)) in *.
  destruct (state_insert_ok (g_x3 g1) (length (g_states g)) (cfg_key rs (g_cfgs g1) <$> bp)) as (x&Hins&Hx3&Harr).
  { rewrite E3. apply (i_x3 _ Hi). }
  { rewrite E3, (cext_keys _ _ _ _ Hx1 Hl). done. }
  set (st := mkState bp cfp (Z.of_nat (length (g_states g))) [] 0 0 0 0 0 None false).
  set (g3 := upd_x3 x (upd_states (g_states g1 ++ [st]) (upd_current [] false (Configlist_sort rs g1)))).
  assert (ginv g3) as Hi3.
  { constructor; unfold g3; gsimp; [apply (b_cfgs _ Hb1)|apply (b_x4 _ Hb1)|done| |].
    - rewrite Harr, E3, (i_arr _ Hi), Es, imap_app. f_equal.
      + apply imap_ext. intros j s Hs. f_equal. symmetry. eapply cext_keys; [exact Hx1|]. apply (i_states _ Hi _ _ Hs).
      + cbn. by rewrite Nat.add_0_r.
    - rewrite Es. intros j s Hs. apply lookup_snoc_Some in Hs as [[Hj Hs]|[-> <-]].
      + assert (ginv (upd_states (g_states g) (upd_x3 (g_x3 g) g1))) as Hig.
        { eapply ginv_cfgs; [exact Hi|exact Hx1|apply (b_cfgs _ Hb1)|done|done|apply (b_x4 _ Hb1)]. }
        by apply (i_states _ Hig).
      + constructor; cbn [stp_bp stp_cfp stp_statenum st]; try done.
        * eapply Forall_impl; [exact Hl|]. cbn. destruct Hx1. lia.
        * by rewrite (cext_keys _ _ _ _ Hx1 Hl).
        * intros it. rewrite Hit1, Hclos. apply closure_ext. intros i. by rewrite (cext_items _ _ _ _ Hx1 Hl), Hit. }
  assert (ext (λ _, True) (λ _, True) g g3) as He03.
  { constructor; [exact Hx1|]. intros j s Hs. exists s. split_and!; try done. unfold g3. gsimp. rewrite Es.
    rewrite lookup_app_l; [done|by eapply lookup_lt_Some]. }
  assert (stt (g_states g3) (length (g_states g)) = st) as Hst.
  { unfold g3, stt. gsimp. rewrite Es, list_lookup_middle by done. done. }
  assert (length (g_states g3) = S (length (g_states g))) as Hlen by (unfold g3; gsimp; rewrite Es, length_app; cbn; lia).
  destruct (mark_ok (g_cfgs g3) cfp (i_cfgs _ Hi3)) as (Hxm&Hokm&Hinc).
  set (g4 := upd_cfgs (foldr (alter (upd_status INCOMPLETE)) (g_cfgs g3) cfp) g3).
  assert (ginv g4) as Hi4 by (eapply ginv_cfgs; [exact Hi3|exact Hxm|exact Hokm|done|done|apply (i_x4 _ Hi3)]).
  destruct (shift_loop_ok fuel rec Hrec (length (g_states g)) cfp [] [] g4) as (g'&Hsl&Hi'&Hc'&He'&Hn').
  { constructor; [done|change (g_states g4) with (g_states g3); lia|change (g_states g4) with (g_states g3); by rewrite Hst| | | |].
    - intros c Hc. cbn [app] in Hc. rewrite Hinc; [split; [done|by intros (?&?&_&?%elem_of_nil&_)]|done|].
      rewrite Forall_forall in Hl1. by apply Hl1.
    - by intros c X ?%elem_of_nil.
    - constructor; [by intros X ?%elem_of_nil|]. change (g_states g4) with (g_states g3). rewrite Hst. by intros a ?%elem_of_nil.
    - change (g_states g4) with (g_states g3). lia. }
  exists g1, x, g'. split; [done|]. cbn zeta. split; [exact Hins|]. split.
  { unfold buildshifts. fold st. fold cfp. change (upd_x3 x _) with g3. rewrite Hst. cbn [stp_cfp st]. exact Hsl. }
  assert (ext (λ c, c ∉ cfp) (λ j, j ≠ length (g_states g)) g3 g') as He3'.
  { change (g_states g4) with (g_states g3) in He'. rewrite Hst in He'. cbn [stp_cfp st] in He'.
    assert (ext (λ c, c ∉ cfp) (λ _, True) g3 g4) as He34 by (apply ext_outer; [exact Hxm|reflexivity]).
    eapply ext_trans; [| |exact He34|exact He']; by intros. }
  pose proof (ext_len _ _ _ _ He3') as Hlen'. split_and!; [done| |lia| |].
  - assert (∀ c, c ∈ cfp → (c < length (g_cfgs g))%nat → c ∈ g_current g) as Hcfp.
    { intros c Hc Hlt. rewrite Hp1 in Hc. destruct (w_new _ _ Hw1 c Hc) as [H|H]; [by rewrite Eu in H|rewrite Ec in H; lia]. }
    eapply ext_trans; [| |exact He03|exact He3']; cbn; [intros c Hc Hn; split; [done|naive_solver]|intros j Hj _; split; [done|lia]].
  - intros it. destruct (kernel_ext _ _ g3 g' (length (g_states g)) it Hi3 He3') as [-> _]; [lia|].
    unfold kernel. rewrite Hst. cbn [stp_bp st]. change (g_cfgs g3) with (g_cfgs g1). by rewrite (cext_items _ _ _ _ Hx1 Hl), Hit.
  - intros j Hj. destruct (decide (j = length (g_states g))) as [->|Hne]; [split; [done|constructor]|].
    apply Hn'. change (g_states g4) with (g_states g3). lia.
Qed.

Lemma getstate_ok fuel : builds fuel (getstate ss rs errsym size calloc_ok calloc malloc fuel).
Proof.
  induction fuel as [|fuel IH]; intros N0 g Hr Hfuel; pose proof Hr as (Hi&Hb&Hbas&_).
  { pose proof (states_bound g Hi). lia. }
  cbn [getstate]. set (bp := msort (cfg_cmp rs (g_cfgs g)) (g_current g)).
  unfold Configlist_basis. rewrite (sortbasis_ok g Hbas). fold bp. set (g0 := upd_basis [] false (Configlist_sortbasis rs g)).
  destruct (state_find_ok g0 (cfg_key rs (g_cfgs g0) <$> bp)) as (r&->&Hf); [apply (i_x3 _ Hi)|]. cbn [mbind res_bind].
  destruct r as [stp|].
  - destruct (getstate_found N0 g stp bp Hr eq_refl) with (g0 := g0) as (g'&He&Hbu); [by apply (Hf stp)|done|].
    unfold Configlist_return. assert (g_current (copy_links bp (stp_bp (stt (g_states g0) stp)) g0) = g_current g0) as ->.
    { destruct (copy_links_ok bp (stp_bp (stt (g_states g0) stp)) g0) as (Hq&_&_); [apply (i_cfgs _ Hi)|]. by destruct (quiet_basis _ _ Hq). }
    rewrite He. cbn [mbind res_bind]. eauto.
  - destruct (getstate_new N0 fuel (getstate ss rs errsym size calloc_ok calloc malloc fuel) g bp Hr IH) with (g0 := g0)
      as (g1&x&g'&Hcl&Hins&Hbs&Hbu); [lia|done| |done|].
    { intros i Hin. by pose proof (proj2 (Hf i) Hin). }
    rewrite Hcl. cbn [mbind res_bind]. unfold Configlist_return. rewrite Hmalloc. cbn [negb].
    assert (g_states g1 = g_states g) as Es.
    { destruct (Configlist_closure_ok g0) as (g1'&Hcl'&_&Hw&_); [by destruct Hb|]. rewrite Hcl in Hcl'. injection Hcl' as <-.
      pose proof (w_outer _ _ Hw) as Ho. injection Ho as _ Ho _. exact Ho. }
    change (g_current (Configlist_sort rs g1)) with (msort (cfg_cmp rs (g_cfgs g1)) (g_current g1)).
    change (g_states (upd_current [] false (Configlist_sort rs g1))) with (g_states g1) in *. rewrite Es in *.
    rewrite Hins, Hbs. cbn [mbind res_bind]. eauto.
Qed.

Lemma getstate_first N0 fuel g stp g' : ready N0 g → g_states g = [] →
  getstate ss rs errsym size calloc_ok calloc malloc fuel g = Ok (stp, g') → stp = 0%nat.
Proof.
  intros (Hi&Hb&Hbas&_) Hs. destruct fuel as [|fuel]; [done|]. cbn [getstate]. unfold Configlist_basis.
  rewrite (sortbasis_ok g Hbas). set (bp := msort _ _). set (g0 := upd_basis [] false _).
  destruct (state_find_ok g0 (cfg_key rs (g_cfgs g0) <$> bp)) as (r&->&Hf); [apply (i_x3 _ Hi)|]. cbn [mbind res_bind].
  destruct r as [i|].
  { destruct (state_keys_inv g i (cfg_key rs (g_cfgs g0) <$> bp) Hi) as (s&Hsi&_); [by apply (Hf i)|]. by rewrite Hs in Hsi. }
  destruct (Configlist_closure_ok g0) as (g1&->&_&Hw&_); [by destruct Hb|]. cbn [mbind res_bind]. unfold Configlist_return.
  pose proof (w_outer _ _ Hw) as Ho. injection Ho as _ Ho _. change (g_states g1 = g_states g) in Ho.
  rewrite Hmalloc. cbn [negb]. change (g_states (upd_current [] false (Configlist_sort rs g1))) with (g_states g1). rewrite Ho, Hs.
  destruct (State_insert _ _ _) as [[b x]|e]; [|done]. cbn [length]. intros H. apply res_bind_Ok in H as (g2&_&H). by injection H as <- _.
Qed.

(** ** [FindStates] *)

(** the generator before [FindStates]: empty tables *)
Definition gen0 (pool : apool) (errorcnt : Z) : gen :=
  mkGen [] [] [] false [] false (mkTable 64 [] []) (mkTable 128 [] (replicate 128 None)) [] pool errorcnt.

Lemma start_basis_ok rules : ∀ g, bld g → g_basis g = g_current g → g_basisend g = true → (∀ r, r ∈ rules → (r < length rs)%nat) →
  ∃ g', start_basis rs size calloc_ok malloc rules g = Ok g' ∧ bld g' ∧ g_basis g' = g_current g' ∧ g_basisend g' = true ∧
    outer g' = outer g ∧
    ∀ it, it ∈ items (g_cfgs g') (g_current g') ↔ it ∈ items (g_cfgs g) (g_current g) ∨ ∃ r, r ∈ rules ∧ it = (r, 0).
Proof.
  induction rules as [|r rules IH]; intros g Hb Hbas Hbe Hr; cbn [start_basis].
  { exists g. split_and!; try done. intros it. split; [by left|]. intros [?|(r&?%elem_of_nil&_)]; done. }
  assert (valid_item (r, 0)) as Hv by (split; [apply Hr; by left|]; cbn; pose proof (zlen_nonneg (rp_rhs (rul rs r))); lia).
  destruct (Configlist_addbasis_ok r 0 g Hb Hv Hbe Hbas) as (c&g1&->&Hadd&Hbas1&Hbe1). pose proof Hadd as (Hb1&Hw1&Hc1&_&_).
  assert (c < length (g_cfgs g1))%nat as Hlt by (pose proof (b_lt _ Hb1) as H; rewrite Forall_forall in H; by apply H).
  destruct (cfg_at_lt g1 c Hlt) as [-> Hcf]. cbn [mbind res_bind]. destruct (b_cfgs _ Hb1 _ _ Hcf) as [Hz _].
  destruct (SetAdd_spec (cfp_fws (cfg (g_cfgs g1) c)) 0) as (s&->&Hl&_); [rewrite Hz; pose proof (gr_size Hgr); lia|].
  destruct (upd_fws_ok c s g1 Hb1) as [Hb2 Hq2]; [unfold zlen in *; lia|].
  destruct (IH _ Hb2) as (g'&->&?&?&?&Ho&Hit); [done|done|intros r' Hr'; apply Hr; by right|].
  exists g'. split_and!; try done.
  - rewrite Ho. change (outer (upd_cfg (upd_fws s) c g1)) with (outer g1). apply (w_outer _ _ Hw1).
  - intros it. rewrite Hit. change (g_current (upd_cfg (upd_fws s) c g1)) with (g_current g1).
    rewrite (cext_items _ _ _ _ (q_cext _ _ Hq2) (b_lt _ Hb1)), (items_added _ _ _ _ Hb Hadd). set_solver.
Qed.

Lemma FindStates_ok tab lem sp err fuel pool n :
  start_symbol rs tab (lem_start lem) (lem_startRule lem) = Ok (sp, err) → (2 ^ nitems rs < fuel)%nat →
  ∃ rs' g, FindStates ss rs errsym size calloc_ok calloc malloc fuel tab lem (gen0 pool n) = Ok (rs', g) ∧ ginv g ∧
    (0 < length (g_states g))%nat ∧ (∀ it, kernel g 0 it ↔ ∃ r, r ∈ sp_rule (sym ss sp) ∧ it = (r, 0)) ∧
    ∀ j, (j < length (g_states g))%nat → complete g j ∧ reach g 0 j.
Proof.
  intros Hsp Hfuel. unfold FindStates, Configlist_init, x_init. rewrite Hcalloc_ok. cbn [of_opt mbind res_bind]. rewrite Hsp.
  match goal with |- context [start_basis _ _ _ _ _ ?x] => set (g0 := x) end.
  assert (bld g0) as Hb0.
  { constructor; try done; [by apply (x_empty_ok _ _ _ 64 6)|constructor]. }
  destruct (start_basis_ok (sp_rule (sym ss sp)) g0 Hb0) as (g1&->&Hb1&Hbas1&Hbe1&Ho1&Hit1); [done|done|intros r Hr; by eapply (gr_rules Hgr)|].
  cbn [mbind res_bind]. injection Ho1 as E3 Es Ep.
  assert (ready 0 g1) as Hr1.
  { split_and!; try done; [|apply Forall_forall; lia|by rewrite Es].
    constructor; [apply (b_cfgs _ Hb1)|apply (b_x4 _ Hb1)|rewrite E3; by apply (x_empty_ok _ _ _ 128 7)|by rewrite E3, Es|by rewrite Es]. }
  destruct (getstate_ok fuel 0%nat g1 Hr1) as (stp&g'&Hg&(Hi'&_&Hstp&Hker&Hnew)); [rewrite Es; lia|].
  pose proof (getstate_first 0%nat fuel g1 stp g' Hr1 Es Hg) as ->. rewrite Hg. eexists _, g'. split_and!; [done|done|done| |].
  - intros it. rewrite Hker, Hit1. split; [intros [?%elem_of_nil|?]; done|by right].
  - intros j Hj. apply Hnew. rewrite Es. cbn. lia.
Qed.

(** two states whose bases hold the same items are one *)
Lemma kernel_inj g i j : ginv g → (i < length (g_states g))%nat → (j < length (g_states g))%nat →
  (∀ it, kernel g i it ↔ kernel g j it) → i = j.
Proof.
  intros Hi Hli Hlj Hk. pose proof (stt_Some _ _ Hli) as Hs. pose proof (stt_Some _ _ Hlj) as Ht.
  eapply (state_keys_distinct g); [done|exact Hs|exact Ht|]. pose proof (i_states _ Hi _ _ Hs) as Si. pose proof (i_states _ Hi _ _ Ht) as Sj.
  apply strict_ext; [apply (s_sorted _ _ _ Si)|apply (s_sorted _ _ _ Sj)|]. intros k.
  assert (∀ t, k ∈ cfg_key rs (g_cfgs g) <$> stp_bp (stt (g_states g) t) ↔ ∃ it, kernel g t it ∧ k = item_key rs it) as H.
  { intros t. unfold kernel, items. setoid_rewrite list_elem_of_fmap. unfold cfg_key. naive_solver. }
  rewrite !H. split; intros (it&?&->); exists it; (split; [by apply Hk|done]).
Qed.

(** C21: [FindStates] builds the LR(0) automaton. For a well-formed grammar it ends
    (the recursion nests at most as deep as there are sets of items), without a
    failed assertion; state 0 has the rules of the start symbol as its basis; the
    configurations of a state are the closure of its basis; no two states have the
    same basis; a state shifts exactly the symbols that come after a dot in it, on
    each to the state whose basis is the items with the dot moved over the symbol;
    and every state is reached from state 0. *)
Theorem FindStates_correct tab lem sp err fuel pool n :
  start_symbol rs tab (lem_start lem) (lem_startRule lem) = Ok (sp, err) → (2 ^ nitems rs < fuel)%nat →
  ∃ rs' g, FindStates ss rs errsym size calloc_ok calloc malloc fuel tab lem (gen0 pool n) = Ok (rs', g) ∧
    (0 < length (g_states g) ≤ 2 ^ nitems rs)%nat ∧
    (∀ it, kernel g 0 it ↔ ∃ r, r ∈ sp_rule (sym ss sp) ∧ it = (r, 0)) ∧
    (∀ j, (j < length (g_states g))%nat →
      stp_statenum (stt (g_states g) j) = Z.of_nat j ∧ (∀ it, citems g j it ↔ closure (kernel g j) it) ∧
      complete g j ∧ reach g 0 j) ∧
    (∀ i j, (i < length (g_states g))%nat → (j < length (g_states g))%nat → (∀ it, kernel g i it ↔ kernel g j it) → i = j).
Proof.
  intros Hsp Hfuel. destruct (FindStates_ok tab lem sp err fuel pool n Hsp Hfuel) as (rs'&g&Hf&Hi&H0&Hk&Hall).
  exists rs', g. split_and!; [done|done|by apply states_bound|done| |intros i j; by apply kernel_inj].
  intros j Hj. destruct (Hall j Hj) as [Hc Hr]. destruct (i_states _ Hi _ _ (stt_Some _ _ Hj)) as [_ _ _ _ Hcl Hnum].
  split_and!; [done|exact Hcl|done|done].
Qed.
End LR0.

(** ** An example: S ::= A; A ::= a A; A ::= (empty) *)

Definition ex_token (i : Z) : symbol := mkSymbol [] i TERMINAL [] None (-1) UNK None false 1 None 0 None 0 false [].
Definition ex_nonterm (i : Z) (rules : list nat) (first : list bool) : symbol :=
  mkSymbol [] i NONTERMINAL rules None (-1) UNK (Some first) true 1 None 0 None 0 false [].
Definition ex_rule (lhs : nat) (rhs : list nat) (i : Z) : rule :=
  mkRule lhs None false 0 rhs [] 0 None None None None i i false false false false false.
(** "$", "a", S, A *)
Definition ex_syms : list symbol :=
  [ex_token 0; ex_token 1; ex_nonterm 2 [0%nat] [false; true; false; false]; ex_nonterm 3 [1%nat; 2%nat] [false; true; false; false]].
Definition ex_rules : list rule := [ex_rule 2 [3%nat] 0; ex_rule 3 [1%nat; 3%nat] 1; ex_rule 3 [] 2].
Definition ex_lemon : lemon := mkLemon [] [0%nat; 1%nat; 2%nat] (Some 0%nat) 0 4 2 0 0 0 0 0 0 [] 0 None None None 0.
Definition ex_tab : symtab :=
  mkSymtab ex_syms (mkTable 128 [] (replicate 128 None)) (mkStrsafe 0 (mkTable 128 [] (replicate 128 None))).

Lemma ex_grammar_ok : grammar_ok ex_syms ex_rules 4.
Proof.
  constructor; [..|lia|apply (Nat.lt_trans _ LISTSIZE); [unfold LISTSIZE; change (nitems ex_rules) with 6%nat; lia|apply Nat.pow_gt_lin_r; lia]].
  - intros [|[|[|i]]] [|[|[|j]]] Hi Hj H; cbn in *; try lia; done.
  - intros [|[|[|[|s]]]] r Hr; cbn in Hr; rewrite ?elem_of_cons, ?elem_of_nil in Hr; cbn; try lia; naive_solver lia.
  - intros [|[|[|[|s]]]] Ht Hin; cbn in *; try lia; done.
  - intros [|[|[|[|s]]]] j Ht Hj; cbn in *; done.
  - intros [|[|[|[|s]]]] Ht Hin; cbn in *; try done; [by eexists..|]. set_solver.
Qed.

Lemma FindStates_correct_witness :
  ∃ rs' g, FindStates ex_syms ex_rules None 4 (λ _, true) (λ n, Some (Z.of_nat n * 100)) (λ _, true) 65 ex_tab ex_lemon
      (gen0 (mkApool 0 []) 0) = Ok (rs', g) ∧
    (∀ it, kernel g 0 it ↔ ∃ r, r ∈ [0%nat] ∧ it = (r, 0)).
Proof.
  destruct (FindStates_correct ex_syms ex_rules None 4 ex_grammar_ok (λ _, true) (λ n, Some (Z.of_nat n * 100)) (λ _, true)
    (λ _, eq_refl) (λ n, mk_is_Some _ _ eq_refl) (λ _, eq_refl) ex_tab ex_lemon 2 0 65 (mkApool 0 []) 0) as (rs'&g&Hf&_&Hk&_).
  - reflexivity.
  - vm_compute. lia.
  - exists rs', g. split; [exact Hf|exact Hk].
Defined.
