(* ===== verification/LemonFollow.v ===== *)
(** Lookaheads in the generator ([src/sql/lemon.c], "build.c"): [FindLinks], which
    turns the backward propagation links of the configurations into forward ones,
    and [FindFollowSets], which spreads the follow sets along them. *)
From S2P Require Import Prelude LemonTable LemonData LemonSort LemonFirst LemonSymbol LemonActions LemonStates.

Section Follow.
Context (sts : list state) (sorted : list nat).
Implicit Types (cs : list config).

(** the configurations of all states, in the order of the two nested loops *)
Definition all_cfgs : list nat := concat ((λ i, stp_cfp (stt sts i)) <$> sorted).

(** [FindLinks]: the state of every configuration, then the forward links *)
Definition set_stps cs : list config :=
  foldl (λ cs i, foldl (λ cs c, alter (upd_stp (Some i)) c cs) cs (stp_cfp (stt sts i))) cs sorted.
Definition add_flink (c : nat) cs (other : nat) : list config :=
  alter (λ o, upd_fplp (Plink_add (cfp_fplp o) c) o) other cs.
Definition add_flinks cs (c : nat) : list config := foldl (add_flink c) cs (cfp_bplp (cfg cs c)).
Definition FindLinks cs : list config := foldl add_flinks (set_stps cs) all_cfgs.

(** [FindFollowSets] *)
Definition mark_incomplete cs : list config := foldl (λ cs c, alter (upd_status INCOMPLETE) c cs) cs all_cfgs.
(** the loop over the forward links of [c] *)
Fixpoint spread (c : nat) (links : list nat) cs : bool * list config :=
  match links with
  | [] => (false, cs)
  | d :: links =>
      let '(change, s) := SetUnion (cfp_fws (cfg cs d)) (cfp_fws (cfg cs c)) in
      let cs := if change then alter (λ o, upd_status INCOMPLETE (upd_fws s o)) d cs else cs in
      let '(p, cs) := spread c links cs in
      (change || p, cs)
  end.
Definition spread_one (c : nat) cs : bool * list config :=
  if decide (cfp_status (cfg cs c) = COMPLETE) then (false, cs)
  else
    let '(p, cs) := spread c (cfp_fplp (cfg cs c)) cs in
    (p, alter (upd_status COMPLETE) c cs).
Fixpoint follow_pass (l : list nat) cs : bool * list config :=
  match l with
  | [] => (false, cs)
  | c :: l =>
      let '(p, cs) := spread_one c cs in
      let '(p', cs) := follow_pass l cs in
      (p || p', cs)
  end.
Fixpoint follow_loop (fuel : nat) cs : res (list config) :=
  match fuel with
  | O => Err OutOfFuel
  | S fuel =>
      let '(progress, cs) := follow_pass all_cfgs cs in
      if progress then follow_loop fuel cs else Ok cs
  end.
(** every pass but the last one adds an element to a set *)
Definition FindFollowSets (size : Z) cs : res (list config) :=
  follow_loop (S (length cs * Z.to_nat size)) (mark_incomplete cs).

(** ** What the sets become *)

(** reached along forward links *)
Definition linked cs : nat → nat → Prop := rtc (λ c d, d ∈ cfp_fplp (cfg cs c)).
Definition in_fws cs (c : nat) (t : Z) : Prop := SetFind (cfp_fws (cfg cs c)) t = true.

Record links_ok (n : nat) cs : Prop := {
  lk_lt : ∀ c, c ∈ all_cfgs → (c < length cs)%nat;
  lk_in : ∀ c d, c ∈ all_cfgs → d ∈ cfp_fplp (cfg cs c) → d ∈ all_cfgs;
  lk_len : ∀ c cf, cs !! c = Some cf → length (cfp_fws cf) = n;
}.

Lemma cfg_alter f c d cs : cfg (alter f c cs) d = if decide (c = d ∧ (d < length cs)%nat) then f (cfg cs d) else cfg cs d.
Proof.
  unfold cfg. case_decide as H.
  - destruct H as [-> H]. rewrite list_lookup_alter_eq. by destruct (lookup_lt_is_Some_2 _ _ H) as [cf ->].
  - destruct (decide (c = d)) as [->|]; [|by rewrite list_lookup_alter_ne].
    rewrite list_lookup_alter_eq. by rewrite (lookup_ge_None_2 cs d) by lia.
Qed.

(** a step of the computation: only status and follow set change, and the follow
    set only by elements that come along links *)
Definition same_but cf cf' : Prop :=
  (cfp_rp cf', cfp_dot cf', cfp_fplp cf', cfp_bplp cf', cfp_stp cf') = (cfp_rp cf, cfp_dot cf, cfp_fplp cf, cfp_bplp cf, cfp_stp cf) ∧
  length (cfp_fws cf') = length (cfp_fws cf).
Definition weigh cs : nat := sum_list_with (λ cf, ones (cfp_fws cf)) cs.
Record fstep cs cs' : Prop := {
  f_len : length cs' = length cs;
  f_same : ∀ c, same_but (cfg cs c) (cfg cs' c);
  f_mono : ∀ c t, in_fws cs c t → in_fws cs' c t;
  f_sound : ∀ c t, in_fws cs' c t → ∃ d, (d = c ∨ d ∈ all_cfgs) ∧ linked cs d c ∧ in_fws cs d t;
  f_weigh : (weigh cs ≤ weigh cs')%nat;
}.
(** a configuration that is complete has passed its set on *)
Definition passed cs (c : nat) : Prop := ∀ d t, d ∈ cfp_fplp (cfg cs c) → in_fws cs c t → in_fws cs d t.
Definition settled cs : Prop := ∀ c, c ∈ all_cfgs → cfp_status (cfg cs c) = COMPLETE → passed cs c.

Lemma fplp_same cs cs' c : same_but (cfg cs c) (cfg cs' c) → cfp_fplp (cfg cs' c) = cfp_fplp (cfg cs c).
Proof. intros [H _]. by injection H. Qed.
Lemma linked_same cs cs' a b : (∀ c, same_but (cfg cs c) (cfg cs' c)) → linked cs' a b ↔ linked cs a b.
Proof.
  intros H. unfold linked. split; (induction 1 as [|x y z Hxy _ IH]; [done|]; eapply rtc_l; [|exact IH]).
  - by rewrite <- (fplp_same cs cs' x).
  - by rewrite (fplp_same cs cs' x).
Qed.
Lemma same_but_refl cf : same_but cf cf.
Proof. done. Qed.
Lemma same_but_trans a b c : same_but a b → same_but b c → same_but a c.
Proof. unfold same_but. intros [A1 B1] [A2 B2]. split; congruence. Qed.

Lemma fstep_refl cs : fstep cs cs.
Proof. constructor; try done. intros c t Hc. exists c. split_and!; [by left|apply rtc_refl|done]. Qed.
Lemma fstep_trans cs1 cs2 cs3 : fstep cs1 cs2 → fstep cs2 cs3 → fstep cs1 cs3.
Proof.
  intros [A1 B1 C1 D1 E1] [A2 B2 C2 D2 E2]. constructor; [congruence| |auto| |lia].
  - intros c. by eapply same_but_trans.
  - intros c t Hc. destruct (D2 c t Hc) as (d&Hdc&Hd&Ht). destruct (D1 d t Ht) as (e&Hed&He&Hte). exists e.
    split_and!; [naive_solver| |done].
    unfold linked in *. etransitivity; [exact He|]. by apply (linked_same cs1 cs2).
Qed.
Lemma links_ok_step n cs cs' : links_ok n cs → fstep cs cs' → links_ok n cs'.
Proof.
  intros [H1 H2 H3] [A B _ _ _]. constructor.
  - intros c Hc. rewrite A. by apply H1.
  - intros c d Hc Hd. rewrite (fplp_same cs cs' c (B c)) in Hd. by eapply H2.
  - intros c cf Hcf. pose proof (lookup_lt_Some _ _ _ Hcf) as Hlt. rewrite A in Hlt.
    destruct (lookup_lt_is_Some_2 _ _ Hlt) as [cf0 Hcf0]. destruct (B c) as [_ Hl]. unfold cfg in Hl. rewrite Hcf, Hcf0 in Hl. cbn in Hl.
    rewrite Hl. by eapply H3.
Qed.

Lemma weigh_alter f c cs : (c < length cs)%nat →
  (weigh (alter f c cs) + ones (cfp_fws (cfg cs c)) = weigh cs + ones (cfp_fws (f (cfg cs c))))%nat.
Proof.
  unfold weigh, cfg. revert c. induction cs as [|cf cs IH]; intros [|c] Hc; cbn [length] in Hc; [lia|lia| |].
  - change (alter f 0%nat (cf :: cs)) with (f cf :: cs). cbn [sum_list_with]. change (default config0 ((cf :: cs) !! 0%nat)) with cf. lia.
  - assert (c < length cs)%nat as Hlt by lia. specialize (IH c Hlt). change (alter f (S c) (cf :: cs)) with (cf :: alter f c cs).
    cbn [sum_list_with]. change ((cf :: cs) !! S c) with (cs !! c). lia.
Qed.

(** changing a status only *)
Lemma status_step st c cs : fstep cs (alter (upd_status st) c cs) ∧ weigh (alter (upd_status st) c cs) = weigh cs.
Proof.
  assert (∀ d, cfp_fws (cfg (alter (upd_status st) c cs) d) = cfp_fws (cfg cs d)) as Hf by (intros d; rewrite cfg_alter; by case_decide).
  assert (weigh (alter (upd_status st) c cs) = weigh cs) as Hw.
  { destruct (decide (c < length cs)%nat) as [Hc|Hc]; [pose proof (weigh_alter (upd_status st) c cs Hc) as H; change (cfp_fws (upd_status st (cfg cs c))) with (cfp_fws (cfg cs c)) in H; lia|].
    unfold weigh. f_equal. apply list_eq. intros i. destruct (decide (c = i)) as [->|]; [|by rewrite list_lookup_alter_ne].
    rewrite list_lookup_alter_eq. by rewrite lookup_ge_None_2 by lia. }
  split; [|done]. constructor; [by rewrite length_alter| | | |by rewrite Hw].
  - intros d. rewrite cfg_alter. by case_decide.
  - intros d t. unfold in_fws. by rewrite Hf.
  - intros d t. unfold in_fws. rewrite Hf. intros Ht. exists d. split_and!; [by left|apply rtc_refl|done].
Qed.

Lemma in_fws_len n cs c : links_ok n cs → c ∈ all_cfgs → length (cfp_fws (cfg cs c)) = n.
Proof.
  intros [H1 _ H3] Hc. destruct (lookup_lt_is_Some_2 _ _ (H1 c Hc)) as [cf Hcf]. unfold cfg. rewrite Hcf. by eapply H3.
Qed.

(** one propagation, along the link from [c] to [d] *)
Lemma union_step n c d cs : links_ok n cs → c ∈ all_cfgs → d ∈ cfp_fplp (cfg cs c) →
  let u := SetUnion (cfp_fws (cfg cs d)) (cfp_fws (cfg cs c)) in
  let cs' := if u.1 then alter (λ o, upd_status INCOMPLETE (upd_fws u.2 o)) d cs else cs in
  fstep cs cs' ∧ (∀ t, in_fws cs c t → in_fws cs' d t) ∧ (u.1 = true → (weigh cs < weigh cs')%nat) ∧
  (∀ e, cfp_status (cfg cs' e) = COMPLETE → cfg cs' e = cfg cs e) ∧ cfp_fws (cfg cs' c) = cfp_fws (cfg cs c).
Proof.
  intros Hk Hc Hd u cs'. pose proof (lk_in _ _ Hk c d Hc Hd) as Hdi. pose proof (lk_lt _ _ Hk d Hdi) as Hlt.
  destruct (SetUnion_spec (cfp_fws (cfg cs d)) (cfp_fws (cfg cs c))) as (Hl&Hi&Hz).
  { by rewrite !(in_fws_len n). }
  fold u in Hl, Hi, Hz. destruct (u.1) eqn:Eu; subst cs'.
  2: { split_and!; [apply fstep_refl| |done|done|done]. intros t Ht. unfold in_fws. rewrite <- (proj1 Hz eq_refl). apply Hi. by right. }
  set (f := λ o, upd_status INCOMPLETE (upd_fws u.2 o)).
  assert (∀ e, cfg (alter f d cs) e = if decide (d = e) then f (cfg cs e) else cfg cs e) as Hcfg.
  { intros e. rewrite cfg_alter. destruct (decide (d = e)) as [->|]; [by rewrite decide_True|by rewrite decide_False by naive_solver]. }
  assert (u.2 ≠ cfp_fws (cfg cs d)) as Hne by (intros E; apply Hz in E; congruence).
  destruct (ones_le (cfp_fws (cfg cs d)) u.2) as [_ Ho]; [done|intros t Ht; apply Hi; by left|].
  pose proof (weigh_alter f d cs Hlt) as Hw. change (cfp_fws (f (cfg cs d))) with (u.2) in Hw. specialize (Ho Hne).
  split_and!; [constructor| |lia| |].
  - by rewrite length_alter.
  - intros e. rewrite Hcfg. case_decide as E; [subst e|apply same_but_refl]. split; [done|exact Hl].
  - intros e t Ht. unfold in_fws. rewrite Hcfg. case_decide as E; [subst e|done]. apply Hi. by left.
  - intros e t. unfold in_fws. rewrite Hcfg. case_decide as E; [subst e|intros Ht; exists e; split_and!; [by left|apply rtc_refl|done]].
    intros Ht. apply Hi in Ht as [Ht|Ht]; [by exists d; split_and!; [left|apply rtc_refl|]|].
    exists c. split_and!; [by right|by apply rtc_once|done].
  - lia.
  - intros t Ht. unfold in_fws. rewrite Hcfg, decide_True by done. apply Hi. by right.
  - intros e. rewrite Hcfg. by case_decide.
  - rewrite Hcfg. case_decide as E; [subst d|done]. exfalso. apply Hne.
    assert (∀ s, SetUnion s s = (false, s)) as Hs by (induction s as [|[] s IH]; cbn [SetUnion]; [done|by rewrite IH|by rewrite IH]).
    subst u. by rewrite Hs.
Qed.

Record spread_ok (c : nat) (links : list nat) cs (p : bool) cs' : Prop := {
  s_step : fstep cs cs';
  s_pass : ∀ d t, d ∈ links → in_fws cs c t → in_fws cs' d t;
  s_grow : p = true → (weigh cs < weigh cs')%nat;
  s_none : p = false → cs' = cs;
  s_compl : ∀ e, cfp_status (cfg cs' e) = COMPLETE → cfg cs' e = cfg cs e;
  s_self : cfp_fws (cfg cs' c) = cfp_fws (cfg cs c);
}.
Lemma spread_correct n c links cs : links_ok n cs → c ∈ all_cfgs → (∀ d, d ∈ links → d ∈ cfp_fplp (cfg cs c)) →
  ∃ p cs', spread c links cs = (p, cs') ∧ spread_ok c links cs p cs'.
Proof.
  revert cs. induction links as [|d links IH]; intros cs Hk Hc Hl; cbn [spread].
  { eexists _, _. split; [done|]. constructor; try done; [apply fstep_refl|set_solver]. }
  destruct (union_step n c d cs Hk Hc) as (H1&H2&H3&H4&H5); [apply Hl; set_solver|].
  destruct (SetUnion (cfp_fws (cfg cs d)) (cfp_fws (cfg cs c))) as [change s] eqn:Eu. cbn [fst snd] in *.
  set (cs1 := if change then _ else cs) in *. destruct (IH cs1) as (p&cs2&->&Hs).
  { by eapply links_ok_step. }
  { done. }
  { intros e He. rewrite (fplp_same cs cs1 c (f_same _ _ H1 c)). apply Hl. set_solver. }
  destruct Hs as [S1 S2 S3 S4 S5 S6]. eexists _, _. split; [done|]. constructor.
  - by eapply fstep_trans.
  - intros e t He Ht. apply elem_of_cons in He as [->|He]; [apply (f_mono _ _ S1); auto|].
    apply S2; [done|]. by apply (f_mono _ _ H1).
  - pose proof (f_weigh _ _ S1). pose proof (f_weigh _ _ H1). destruct change; cbn [orb]; intros Hp.
    + specialize (H3 eq_refl). lia.
    + specialize (S3 Hp). lia.
  - destruct change; cbn [orb]; [done|]. intros Hp. by rewrite (S4 Hp).
  - intros e He. rewrite (S5 e He) in He |- *. by apply H4.
  - by rewrite S6.
Qed.

(** one configuration of a pass *)
Record pass_ok (l : list nat) cs (p : bool) cs' : Prop := {
  p_step : fstep cs cs';
  p_grow : p = true → (weigh cs < weigh cs')%nat;
  p_settled : settled cs → settled cs';
  p_done : p = false → (∀ e, cfp_status (cfg cs e) = COMPLETE ∨ e ∈ l → cfp_status (cfg cs' e) = COMPLETE);
}.
Lemma settled_spread c links cs p cs' : spread_ok c links cs p cs' → settled cs → settled cs'.
Proof.
  intros [S1 S2 S3 S4 S5 S6] Hs e He Hst d t Hd Ht. pose proof (S5 e Hst) as E. unfold in_fws in Ht. rewrite E in Hd, Ht, Hst.
  apply (f_mono _ _ S1). by eapply Hs.
Qed.
Lemma settled_complete c cs : settled cs → passed cs c → settled (alter (upd_status COMPLETE) c cs).
Proof.
  intros Hs Hp e He. assert (∀ d, cfp_fws (cfg (alter (upd_status COMPLETE) c cs) d) = cfp_fws (cfg cs d) ∧
    cfp_fplp (cfg (alter (upd_status COMPLETE) c cs) d) = cfp_fplp (cfg cs d)) as Hf by (intros d; rewrite cfg_alter; by case_decide).
  intros Hst d t Hd Ht. unfold in_fws in *. rewrite (proj1 (Hf e)) in Ht. rewrite (proj2 (Hf e)) in Hd. rewrite (proj1 (Hf d)).
  rewrite cfg_alter in Hst. case_decide as E; [destruct E as [-> _]; by apply Hp|]. by eapply Hs.
Qed.
Lemma spread_one_correct n c cs : links_ok n cs → c ∈ all_cfgs →
  ∃ p cs', spread_one c cs = (p, cs') ∧ pass_ok [c] cs p cs'.
Proof.
  intros Hk Hc. unfold spread_one. case_decide as Hst.
  { eexists _, _. split; [done|]. constructor; try done; [apply fstep_refl|]. intros _ e [He|He]; [done|]. set_solver. }
  destruct (spread_correct n c (cfp_fplp (cfg cs c)) cs Hk Hc) as (p&cs1&->&Hs); [done|].
  eexists _, _. split; [done|]. destruct (status_step COMPLETE c cs1) as [Hst1 Hw]. constructor.
  - eapply fstep_trans; [apply Hs|done].
  - rewrite Hw. apply Hs.
  - intros Hse. apply settled_complete; [by eapply settled_spread|].
    intros d t Hd Ht. rewrite (fplp_same cs cs1 c (f_same _ _ (s_step _ _ _ _ _ Hs) c)) in Hd.
    eapply s_pass; [done..|]. unfold in_fws in *. by rewrite (s_self _ _ _ _ _ Hs) in Ht.
  - intros Hp. rewrite (s_none _ _ _ _ _ Hs Hp). intros e He. rewrite cfg_alter. case_decide as E; [done|].
    destruct He as [He|He]; [done|]. apply list_elem_of_singleton in He as ->. destruct E. split; [done|]. by eapply lk_lt.
Qed.
Lemma follow_pass_correct n l cs : links_ok n cs → (∀ c, c ∈ l → c ∈ all_cfgs) →
  ∃ p cs', follow_pass l cs = (p, cs') ∧ pass_ok l cs p cs'.
Proof.
  revert cs. induction l as [|c l IH]; intros cs Hk Hl; cbn [follow_pass].
  { eexists _, _. split; [done|]. constructor; try done; [apply fstep_refl|]. intros _ e [He|He]; [done|]. set_solver. }
  destruct (spread_one_correct n c cs Hk) as (p&cs1&->&Hp); [set_solver|].
  destruct (IH cs1) as (p'&cs2&->&Hp'); [eapply links_ok_step; [done|apply Hp]|set_solver|].
  eexists _, _. split; [done|]. destruct Hp as [A1 A2 A3 A4], Hp' as [B1 B2 B3 B4]. constructor.
  - by eapply fstep_trans.
  - pose proof (f_weigh _ _ A1). pose proof (f_weigh _ _ B1). destruct p; cbn [orb]; intros Hq.
    + specialize (A2 eq_refl). lia.
    + specialize (B2 Hq). lia.
  - auto.
  - destruct p; cbn [orb]; [done|]. intros -> e He. apply B4; [done|]. specialize (A4 eq_refl).
    destruct He as [He|He]; [left; auto|]. apply elem_of_cons in He as [->|He]; [left; apply A4; set_solver|by right].
Qed.

Lemma weigh_bound n cs : (∀ c cf, cs !! c = Some cf → length (cfp_fws cf) = n) → (weigh cs ≤ length cs * n)%nat.
Proof.
  unfold weigh. induction cs as [|cf cs IH]; intros H; cbn [sum_list_with length]; [lia|].
  pose proof (H 0%nat cf eq_refl) as Hl. pose proof (ones_bound (cfp_fws cf)).
  specialize (IH (λ c cf Hc, H (S c) cf Hc)). lia.
Qed.
Lemma follow_loop_correct n fuel cs : links_ok n cs → settled cs → (length cs * n < fuel + weigh cs)%nat →
  ∃ cs', follow_loop fuel cs = Ok cs' ∧ fstep cs cs' ∧ settled cs' ∧ ∀ c, c ∈ all_cfgs → cfp_status (cfg cs' c) = COMPLETE.
Proof.
  revert cs. induction fuel as [|fuel IH]; intros cs Hk Hs Hf.
  { pose proof (weigh_bound n cs (lk_len _ _ Hk)). lia. }
  cbn [follow_loop]. destruct (follow_pass_correct n all_cfgs cs Hk) as (p&cs1&->&[A1 A2 A3 A4]); [done|].
  destruct p.
  - destruct (IH cs1) as (cs2&->&B1&B2&B3); [by eapply links_ok_step|auto|rewrite (f_len _ _ A1); specialize (A2 eq_refl); lia|].
    exists cs2. split_and!; [done|by eapply fstep_trans|done|done].
  - exists cs1. split_and!; [done|done|auto|]. intros c Hc. apply A4; [done|by right].
Qed.

(** ** The links *)

(** every field but [fplp] and [stp] *)
Definition same_fields cf cf' : Prop :=
  (cfp_rp cf', cfp_dot cf', cfp_fws cf', cfp_bplp cf', cfp_status cf') = (cfp_rp cf, cfp_dot cf, cfp_fws cf, cfp_bplp cf, cfp_status cf).
Record linking (more : nat → nat → Prop) cs cs' : Prop := {
  l_len : length cs' = length cs;
  l_same : ∀ e, same_fields (cfg cs e) (cfg cs' e);
  l_stp : ∀ e, cfp_stp (cfg cs' e) = cfp_stp (cfg cs e);
  l_link : ∀ e x, x ∈ cfp_fplp (cfg cs' e) ↔ x ∈ cfp_fplp (cfg cs e) ∨ more e x;
}.
Lemma linking_trans P Q cs1 cs2 cs3 : linking P cs1 cs2 → linking Q cs2 cs3 → linking (λ e x, P e x ∨ Q e x) cs1 cs3.
Proof.
  intros [A1 A2 A3 A4] [B1 B2 B3 B4]. constructor; [congruence| |congruence|].
  - intros e. specialize (A2 e). specialize (B2 e). unfold same_fields in *. congruence.
  - intros e x. rewrite B4, A4. tauto.
Qed.
Lemma linking_iff P Q cs cs' : (∀ e x, P e x ↔ Q e x) → linking P cs cs' → linking Q cs cs'.
Proof. intros H [A1 A2 A3 A4]. constructor; [done..|]. intros e x. by rewrite A4, H. Qed.
Lemma linking_refl cs : linking (λ _ _, False) cs cs.
Proof. constructor; try done. intros e x. tauto. Qed.
Lemma add_flink_ok c cs other : (other < length cs)%nat → linking (λ e x, x = c ∧ e = other) cs (add_flink c cs other).
Proof.
  intros Ho. unfold add_flink. constructor; [by rewrite length_alter|intros e; rewrite cfg_alter; by case_decide..|].
  intros e x. rewrite cfg_alter. case_decide as E.
  - destruct E as [-> _]. unfold Plink_add. cbn [upd_fplp cfp_fplp]. rewrite elem_of_cons. tauto.
  - split; [by left|]. intros [?|[-> ->]]; [done|]. by destruct E.
Qed.
Lemma fold_flink_ok c links cs : (∀ o, o ∈ links → (o < length cs)%nat) →
  linking (λ e x, x = c ∧ e ∈ links) cs (foldl (add_flink c) cs links).
Proof.
  revert cs. induction links as [|o links IH]; intros cs Hl; cbn [foldl].
  { eapply linking_iff; [|apply linking_refl]. set_solver. }
  pose proof (add_flink_ok c cs o ltac:(set_solver)) as H1.
  pose proof (IH (add_flink c cs o) ltac:(intros x Hx; rewrite (l_len _ _ _ H1); set_solver)) as H2.
  eapply linking_iff; [|eapply linking_trans; [exact H1|exact H2]]. set_solver.
Qed.
Lemma fold_flinks_ok l cs : (∀ c o, c ∈ l → o ∈ cfp_bplp (cfg cs c) → (o < length cs)%nat) →
  linking (λ e x, x ∈ l ∧ e ∈ cfp_bplp (cfg cs x)) cs (foldl add_flinks cs l).
Proof.
  revert cs. induction l as [|c l IH]; intros cs Hl; cbn [foldl].
  { eapply linking_iff; [|apply linking_refl]. set_solver. }
  pose proof (fold_flink_ok c (cfp_bplp (cfg cs c)) cs ltac:(intros o; apply Hl; set_solver)) as H1.
  fold (add_flinks cs c) in H1. assert (∀ x, cfp_bplp (cfg (add_flinks cs c) x) = cfp_bplp (cfg cs x)) as Hb.
  { intros x. pose proof (l_same _ _ _ H1 x) as E. unfold same_fields in E. congruence. }
  assert (∀ x o, x ∈ l → o ∈ cfp_bplp (cfg (add_flinks cs c) x) → (o < length (add_flinks cs c))%nat) as H2.
  { intros x o Hx. rewrite Hb, (l_len _ _ _ H1). apply Hl. set_solver. }
  eapply linking_iff; [|eapply linking_trans; [exact H1|exact (IH _ H2)]].
  intros e x. cbv beta. rewrite Hb, elem_of_cons. split; [intros [[-> ?]|?]; tauto|intros [[->|?] ?]; tauto].
Qed.

(** the housekeeping loop: every configuration points back to a state it is in *)
Definition owner (i c : nat) : Prop := c ∈ stp_cfp (stt sts i).
Record owning (l : list (nat * nat)) cs cs' : Prop := {
  o_len : length cs' = length cs;
  o_same : ∀ e, same_fields (cfg cs e) (cfg cs' e) ∧ cfp_fplp (cfg cs' e) = cfp_fplp (cfg cs e);
  o_stp : ∀ e i, (i, e) ∈ l → (e < length cs)%nat → ∃ j, (j, e) ∈ l ∧ cfp_stp (cfg cs' e) = Some j;
}.
Lemma foldl_concat {A B C} (f : A → B → C → A) (g : B → list C) a l :
  foldl (λ a b, foldl (λ a c, f a b c) a (g b)) a l = foldl (λ a p, f a p.1 p.2) a (concat ((λ b, pair b <$> g b) <$> l)).
Proof.
  revert a. induction l as [|b l IH]; intros a; [done|]. cbn [foldl fmap list_fmap concat]. rewrite foldl_app, <- IH. f_equal.
  generalize (g b). intros m. revert a. induction m as [|c m IHm]; intros a; [done|]. cbn [foldl fmap list_fmap fst snd]. by rewrite <- IHm.
Qed.
Lemma set_stps_ok l cs : owning l cs (foldl (λ cs p, alter (upd_stp (Some p.1)) p.2 cs) cs l).
Proof.
  induction l as [|[i c] l IH] using rev_ind; [constructor; try done; set_solver|]. rewrite foldl_snoc. cbn [fst snd].
  set (cs1 := foldl _ cs l) in *. destruct IH as [A1 A2 A3]. constructor; [by rewrite length_alter| |].
  - intros e. rewrite cfg_alter. case_decide; [|done]. by apply A2.
  - intros e j Hj He. rewrite cfg_alter. case_decide as E.
    { destruct E as [-> _]. exists i. split; [set_solver|done]. }
    apply elem_of_app in Hj as [Hj|Hj]; [destruct (A3 e j Hj He) as (k&?&?); exists k; set_solver|].
    apply list_elem_of_singleton in Hj as [= -> ->]. destruct E. split; [done|]. by rewrite A1.
Qed.
Lemma elem_of_pairs i c : (i, c) ∈ concat ((λ i, pair i <$> stp_cfp (stt sts i)) <$> sorted) ↔ i ∈ sorted ∧ owner i c.
Proof.
  unfold owner. induction sorted as [|j l IH]; cbn [fmap list_fmap concat]; [set_solver|].
  rewrite elem_of_app, IH, list_elem_of_fmap. set_solver.
Qed.
Lemma all_cfgs_pairs c : c ∈ all_cfgs ↔ ∃ i, i ∈ sorted ∧ owner i c.
Proof.
  unfold all_cfgs, owner. induction sorted as [|j l IH]; cbn [fmap list_fmap concat]; [set_solver|].
  rewrite elem_of_app, IH. set_solver.
Qed.

Record cfgs_ok (n : nat) cs : Prop := {
  ck_lt : ∀ c, c ∈ all_cfgs → (c < length cs)%nat;
  ck_f : ∀ c d, c ∈ all_cfgs → d ∈ cfp_fplp (cfg cs c) → d ∈ all_cfgs;
  ck_b : ∀ c d, c ∈ all_cfgs → d ∈ cfp_bplp (cfg cs c) → d ∈ all_cfgs;
  ck_len : ∀ c cf, cs !! c = Some cf → length (cfp_fws cf) = n;
}.
(** lookaheads flow along a forward link or against a backward one *)
Definition flows cs (a b : nat) : Prop := b ∈ cfp_fplp (cfg cs a) ∨ b ∈ all_cfgs ∧ a ∈ cfp_bplp (cfg cs b).

Lemma FindLinks_ok n cs : cfgs_ok n cs →
  length (FindLinks cs) = length cs ∧
  (∀ e, same_fields (cfg cs e) (cfg (FindLinks cs) e)) ∧
  (∀ c d, d ∈ cfp_fplp (cfg (FindLinks cs) c) ↔ flows cs c d) ∧
  (∀ c, c ∈ all_cfgs → ∃ i, i ∈ sorted ∧ owner i c ∧ cfp_stp (cfg (FindLinks cs) c) = Some i).
Proof.
  intros [K1 K2 K3 K4]. unfold FindLinks, set_stps. rewrite (foldl_concat (λ cs i c, alter (upd_stp (Some i)) c cs)).
  set (prs := concat _). destruct (set_stps_ok prs cs) as [A1 A2 A3]. set (cs1 := foldl _ cs prs) in *.
  assert (∀ x, cfp_bplp (cfg cs1 x) = cfp_bplp (cfg cs x)) as Hb by (intros x; destruct (A2 x) as [E _]; unfold same_fields in E; congruence).
  assert (∀ c o, c ∈ all_cfgs → o ∈ cfp_bplp (cfg cs1 c) → (o < length cs1)%nat) as Hlt.
  { intros c o Hc. rewrite Hb, A1. eauto. }
  destruct (fold_flinks_ok all_cfgs cs1 Hlt) as [B1 B2 B3 B4]. split_and!; [congruence| | |].
  - intros e. destruct (A2 e) as [E _]. specialize (B2 e). unfold same_fields in *. congruence.
  - intros c d. rewrite B4, Hb. destruct (A2 c) as [_ ->]. done.
  - intros c Hc. pose proof Hc as Hp. apply all_cfgs_pairs in Hp as [i Hi]. apply elem_of_pairs in Hi.
    destruct (A3 c i Hi (K1 c Hc)) as (j&Hj&Hs). exists j. rewrite B3. apply elem_of_pairs in Hj as [? ?]. done.
Qed.
Lemma mark_all l cs : (∀ c, c ∈ l → (c < length cs)%nat) →
  let cs' := foldl (λ cs c, alter (upd_status INCOMPLETE) c cs) cs l in
  fstep cs cs' ∧ ∀ c, c ∈ l → cfp_status (cfg cs' c) = INCOMPLETE.
Proof.
  cbv zeta. induction l as [|c l IH] using rev_ind; intros Hl; [split; [apply fstep_refl|set_solver]|]. rewrite foldl_snoc.
  destruct IH as [H1 H2]; [set_solver|]. destruct (status_step INCOMPLETE c (foldl (λ cs c, alter (upd_status INCOMPLETE) c cs) cs l)) as [H3 _].
  split; [by eapply fstep_trans|]. intros e He. rewrite cfg_alter. case_decide as E; [done|].
  apply elem_of_app in He as [He|He]; [by apply H2|]. apply list_elem_of_singleton in He as ->. destruct E. split; [done|].
  rewrite (f_len _ _ H1). apply Hl. set_solver.
Qed.
Lemma mark_incomplete_ok cs : (∀ c, c ∈ all_cfgs → (c < length cs)%nat) → fstep cs (mark_incomplete cs) ∧ settled (mark_incomplete cs).
Proof.
  intros Hl. destruct (mark_all all_cfgs cs Hl) as [H1 H2]. split; [done|].
  intros c Hc Hst. unfold mark_incomplete in Hst. by rewrite H2 in Hst.
Qed.
(** complete sets are closed under the links *)
Lemma closed_linked cs : settled cs → (∀ c, c ∈ all_cfgs → cfp_status (cfg cs c) = COMPLETE) →
  (∀ c d, c ∈ all_cfgs → d ∈ cfp_fplp (cfg cs c) → d ∈ all_cfgs) →
  ∀ a b t, linked cs a b → a ∈ all_cfgs → in_fws cs a t → in_fws cs b t.
Proof.
  intros Hs Hc Hin a b t. induction 1 as [|x y z Hxy _ IH]; intros Ha Ht; [done|].
  apply IH; [by eapply Hin|]. by eapply Hs; [|apply Hc| |].
Qed.
Lemma follow_sets n cs : links_ok n cs →
  ∃ cs', FindFollowSets (Z.of_nat n) cs = Ok cs' ∧ fstep cs cs' ∧
    ∀ c d t, d ∈ all_cfgs → linked cs d c → in_fws cs d t → in_fws cs' c t.
Proof.
  intros Hk. destruct (mark_incomplete_ok cs (lk_lt _ _ Hk)) as [H1 H2]. pose proof (links_ok_step _ _ _ Hk H1) as Hk1.
  unfold FindFollowSets. rewrite Nat2Z.id.
  destruct (follow_loop_correct n (S (length cs * n)) _ Hk1 H2) as (cs'&->&F1&F2&F3); [rewrite (f_len _ _ H1); lia|].
  pose proof (fstep_trans _ _ _ H1 F1) as F. exists cs'. split_and!; [done|done|]. intros c d t Hd Hl Ht.
  apply (closed_linked cs' F2 F3 (lk_in _ _ (links_ok_step _ _ _ Hk F)) d); [by apply (linked_same cs cs'); [apply F|]|done|by apply F].
Qed.

(** C22: the lookaheads: [FindLinks] and [FindFollowSets] terminate (the fixpoint loop
    within one pass per possible set element, plus one), and a terminal is then in the
    follow set of a configuration exactly if it was in the follow set of some
    configuration from which propagation links lead to it (a forward link of the
    closure, or a backward link from a shift taken the other way round); rules, dots
    and backward links are as before, and every configuration points back to a state
    whose list it is in. *)
Theorem FindFollowSets_correct n cs :
  cfgs_ok n cs →
  ∃ cs', FindFollowSets (Z.of_nat n) (FindLinks cs) = Ok cs' ∧ length cs' = length cs ∧
    (∀ c, c ∈ all_cfgs → cfg_item cs' c = cfg_item cs c ∧ cfp_bplp (cfg cs' c) = cfp_bplp (cfg cs c) ∧
       (∃ i, i ∈ sorted ∧ owner i c ∧ cfp_stp (cfg cs' c) = Some i) ∧
       ∀ t, in_fws cs' c t ↔ ∃ d, d ∈ all_cfgs ∧ rtc (flows cs) d c ∧ in_fws cs d t).
Proof.
  intros Hk. destruct (FindLinks_ok n cs Hk) as (L1&L2&L3&L4). destruct Hk as [K1 K2 K3 K4].
  assert (links_ok n (FindLinks cs)) as Hlk.
  { constructor; [intros c; rewrite L1; apply K1| |].
    - intros c d Hc Hd. apply L3 in Hd as [Hd|[Hd _]]; [by eapply K2|done].
    - intros c cf Hcf. pose proof (lookup_lt_Some _ _ _ Hcf) as Hlt. rewrite L1 in Hlt.
      destruct (lookup_lt_is_Some_2 _ _ Hlt) as [cf0 H0]. specialize (L2 c). unfold cfg, same_fields in L2.
      rewrite Hcf, H0 in L2. cbn [default] in L2. rewrite <- (K4 _ _ H0). unfold id in L2. congruence. }
  destruct (follow_sets n _ Hlk) as (cs'&->&F&Fc). exists cs'. split; [done|].
  split; [by rewrite (f_len _ _ F)|]. intros c Hc. destruct (f_same _ _ F c) as [E _]. pose proof (L2 c) as E2.
  unfold same_fields in E2. unfold cfg_item. split_and!; [congruence|congruence| |].
  { destruct (L4 c Hc) as (i&?&?&?). exists i. split_and!; [done|done|congruence]. }
  assert (∀ a b, linked (FindLinks cs) a b ↔ rtc (flows cs) a b) as Hlf.
  { intros a b. unfold linked. split; (induction 1; [done|]; eapply rtc_l; [|done]); by apply L3. }
  assert (∀ a t, in_fws (FindLinks cs) a t ↔ in_fws cs a t) as Hif.
  { intros a t. specialize (L2 a). unfold same_fields, in_fws in *. split; intros; congruence. }
  intros t. split.
  - intros Ht. destruct (f_sound _ _ F c t Ht) as (d&Hdc&Hd&Hdt). exists d. apply Hlf in Hd. apply Hif in Hdt.
    split_and!; [naive_solver|done|done].
  - intros (d&Hd&Hr&Ht). eapply Fc; [done|by apply Hlf|by apply Hif].
Qed.
End Follow.

(** ** An example: configuration 1 is added by the closure of 0, and 2 follows 0 by a shift *)

Definition ex_cfgs : list config :=
  [mkConfig 0 0 [true; false] [1%nat] [] None COMPLETE; mkConfig 1 0 [false; true] [] [] None COMPLETE;
   mkConfig 0 1 [false; false] [] [0%nat] None COMPLETE].
Definition ex_states : list state :=
  [mkState [0%nat] [0%nat; 1%nat] 0 [] 0 0 0 0 0 None false; mkState [2%nat] [2%nat] 1 [] 0 0 0 0 0 None false].
Lemma ex_cfgs_ok : cfgs_ok ex_states [0%nat; 1%nat] 2 ex_cfgs.
Proof.
  assert (all_cfgs ex_states [0%nat; 1%nat] = [0%nat; 1%nat; 2%nat]) as Ha by reflexivity.
  constructor; rewrite ?Ha.
  - intros c Hc. rewrite !elem_of_cons, elem_of_nil in Hc. change (length ex_cfgs) with 3%nat. lia.
  - intros [|[|[|c]]] d Hc; cbn; set_solver.
  - intros [|[|[|c]]] d Hc; cbn; set_solver.
  - intros [|[|[|c]]] cf; cbn; intros [= <-]; done.
Qed.
Lemma FindFollowSets_correct_witness :
  ∃ cs', FindFollowSets ex_states [0%nat; 1%nat] 2 (FindLinks ex_states [0%nat; 1%nat] ex_cfgs) = Ok cs' ∧
    in_fws cs' 2 0 ∧ in_fws cs' 1 0 ∧ ∀ t, in_fws cs' 0 t → ∃ d, rtc (flows ex_states [0%nat; 1%nat] ex_cfgs) d 0%nat ∧ in_fws ex_cfgs d t.
Proof.
  destruct (FindFollowSets_correct ex_states [0%nat; 1%nat] 2 ex_cfgs ex_cfgs_ok) as (cs'&Hf&_&H).
  exists cs'. split; [exact Hf|]. split; [|split].
  - vm_compute in Hf. injection Hf as <-. reflexivity.
  - vm_compute in Hf. injection Hf as <-. reflexivity.
  - intros t Ht. destruct (H 0%nat ltac:(change (all_cfgs ex_states [0%nat; 1%nat]) with [0%nat; 1%nat; 2%nat]; set_solver)) as (_&_&_&Ht').
    apply Ht' in Ht as (d&_&?&?). eauto.
Defined.
