(* ===== verification/LemonCompress.v ===== *)
(** Smaller tables ([src/sql/lemon.c]): default reductions and combined shift-reduce
    actions ([CompressTables]), and the final order of the states
    ([stateResortCompare], [ResortStates]). *)
From stdpp Require Import sorting.
From S2P Require Import Prelude LemonData LemonTable LemonSort LemonFirst LemonSymbol LemonActions.

#[global] Instance action_arg_eq : EqDecision action_arg.
Proof. solve_decision. Defined.

Definition upd_sp (sp : nat) (a : action) : action :=
  mkAction (ap_addr a) sp (ap_type a) (ap_x a) (ap_spOpt a).
Definition upd_auto (b : bool) (d : option nat) (s : state) : state :=
  mkState (stp_bp s) (stp_cfp s) (stp_statenum s) (stp_ap s) (stp_nTknAct s) (stp_nNtAct s) (stp_iTknOfst s)
    (stp_iNtOfst s) (stp_iDfltReduce s) d b.

(** ** The default of one state *)

Section State.
Context (rs : list rule) (wildcard : option nat).

(** a reduce action by the rule *)
Definition reduces (rp : nat) (a : action) : bool :=
  bool_decide (ap_type a = REDUCE) && bool_decide (ap_x a = XRule rp).

(** the loop that picks the rule: [nbest], [rbest] and [usesWildcard] *)
Fixpoint pick_best (l : list action) (nbest : Z) (rbest : option nat) (usesWildcard : bool) : Z * option nat * bool :=
  match l with
  | [] => (nbest, rbest, usesWildcard)
  | ap :: l =>
      let usesWildcard := usesWildcard || bool_decide (ap_type ap = SHIFT ∧ Some (ap_sp ap) = wildcard) in
      match ap_type ap, ap_x ap with
      | REDUCE, XRule rp =>
          if rp_lhsStart (rul rs rp) then pick_best l nbest rbest usesWildcard
          else if decide (Some rp = rbest) then pick_best l nbest rbest usesWildcard
          else
            let n := 1 + zlen (filter (λ a, reduces rp a = true) l) in
            if n >? nbest then pick_best l n (Some rp) usesWildcard
            else pick_best l nbest rbest usesWildcard
      | _, _ => pick_best l nbest rbest usesWildcard
      end
  end.

(** the later reduces by the rule go out of use *)
Definition drop_reduces (rbest : nat) (l : list action) : list action :=
  (λ a, if reduces rbest a then upd_type NOT_USED a else a) <$> l.
(** the first one moves to "{default}" *)
Fixpoint make_default (dflt rbest : nat) (l : list action) : res (list action) :=
  match l with
  | [] => Err ExitCalled
  | ap :: l =>
      if reduces rbest ap then Ok (upd_sp dflt ap :: drop_reduces rbest l)
      else l ← make_default dflt rbest l; Ok (ap :: l)
  end.
(** no shift, and no reduce by another rule *)
Definition auto_reduce (rbest : nat) (l : list action) : bool :=
  forallb (λ a, negb (bool_decide (ap_type a = SHIFT)) &&
                (negb (bool_decide (ap_type a = REDUCE)) || bool_decide (ap_x a = XRule rbest))) l.

(** the action list of a state, and its default rule when all it does is reduce *)
Definition compress_actions (ss : list symbol) (dflt rbest : nat) (l : list action) : res (list action * option nat) :=
  l ← make_default dflt rbest l;
  let l := Action_sort ss rs l in
  Ok (l, if auto_reduce rbest l then Some rbest else None).
End State.

(** ** [CompressTables] *)

Definition default_cstr : cstr := default_name ↾ I.

Section Compress.
Context (calloc_ok : Z → bool) (malloc_ok : bool).

Definition with_syms (t : symtab) (h : heap) : symtab := mkSymtab (h_syms h) (x2a t) (sy_str t).
Definition upd_syms (ss : list symbol) (h : heap) : heap := mkHeap ss (h_rules h) (h_cfgs h) (h_states h).

(** the first pass; the symbol "{default}" counts one more use per state *)
Fixpoint compress_states (t : symtab) (lem : lemon) (sts : list nat) (h : heap) : res (symtab * heap) :=
  match sts with
  | [] => Ok (t, h)
  | i :: sts =>
      let s := stt (h_states h) i in
      match pick_best (h_rules h) (lem_wildcard lem) (stp_ap s) 0 None false with
      | (nbest, Some rbest, usesWildcard) =>
          if (nbest <? 1) || usesWildcard then compress_states t lem sts h
          else
            let* (dflt, t) := Symbol_new calloc_ok malloc_ok default_cstr (with_syms t h) in
            let h := upd_syms (sy_heap t) h in
            let* (l, auto) := compress_actions (h_rules h) (h_syms h) dflt rbest (stp_ap s) in
            let upd s := match auto with
                         | Some r => upd_auto true (Some r) (upd_ap l s)
                         | None => upd_ap l s
                         end in
            compress_states t lem sts (upd_states (alter upd i) h)
      | _ => compress_states t lem sts h
      end
  end.

(** the second pass: a shift to a state that only reduces *)
Definition shift_reduce (states : list state) (a : action) : action :=
  match ap_type a, ap_x a with
  | SHIFT, XState s =>
      let next := stt states s in
      match stp_autoReduce next, stp_pDfltReduce next with
      | true, Some r => mkAction (ap_addr a) (ap_sp a) SHIFTREDUCE (XRule r) (ap_spOpt a)
      | _, _ => a
      end
  | _, _ => a
  end.
Definition shift_reduce_states (sts : list nat) (h : heap) : heap :=
  foldl (λ h i, upd_states (alter (λ s, upd_ap (shift_reduce (h_states h) <$> stp_ap s) s) i) h) h sts.

(** the third pass: a combined action whose rule renames one nonterminal and has
    no code becomes the action of the new name, as often as it applies *)
Fixpoint unit_skip (fuel : nat) (lem : lemon) (h : heap) (l : list action) (k : nat) : res (list action) :=
  match fuel with
  | O => Err OutOfFuel
  | S fuel =>
      ap ← of_opt NullDeref (l !! k);
      match ap_type ap, ap_x ap with
      | SHIFTREDUCE, XRule rp =>
          let r := rul (h_rules h) rp in
          if negb (rp_noCode r) then Ok l
          else if negb (zlen (rp_rhs r) =? 1) then Ok l
          else if sp_index (sym (h_syms h) (ap_sp ap)) <? lem_nterminal lem then Ok l
          else
            match list_find (λ p : nat * action, p.1 ≠ k ∧ ap_sp p.2 = rp_lhs r) (imap (λ i a, (i, a)) l) with
            | None => Err ExitCalled
            | Some (_, (_, ap2)) =>
                unit_skip fuel lem h
                  (<[k := mkAction (ap_addr ap) (ap_sp ap) (ap_type ap2) (ap_x ap2) (Some (ap_sp ap2))]> l) k
            end
      | _, _ => Ok l
      end
  end.
Fixpoint unit_skips (fuel : nat) (lem : lemon) (h : heap) (ks : list nat) (l : list action) : res (list action) :=
  match ks with
  | [] => Ok l
  | k :: ks => l ← unit_skip fuel lem h l k; unit_skips fuel lem h ks l
  end.
Fixpoint unit_states (fuel : nat) (lem : lemon) (sts : list nat) (h : heap) : res heap :=
  match sts with
  | [] => Ok h
  | i :: sts =>
      let s := stt (h_states h) i in
      l ← unit_skips fuel lem h (seq 0 (length (stp_ap s))) (stp_ap s);
      unit_states fuel lem sts (upd_states (alter (upd_ap l) i) h)
  end.

Definition CompressTables (fuel : nat) (t : symtab) (lem : lemon) (h : heap) : res (symtab * heap) :=
  let* (t, h) := compress_states t lem (lem_sorted lem) h in
  let h := shift_reduce_states (lem_sorted lem) h in
  h ← unit_states fuel lem (lem_sorted lem) h;
  Ok (t, h).
End Compress.

(** ** [ResortStates] *)

Definition upd_counts_state (nTkn nNt iDflt : Z) (s : state) : state :=
  mkState (stp_bp s) (stp_cfp s) (stp_statenum s) (stp_ap s) nTkn nNt NO_OFFSET NO_OFFSET iDflt
    (stp_pDfltReduce s) (stp_autoReduce s).
Definition upd_statenum (n : Z) (s : state) : state :=
  mkState (stp_bp s) (stp_cfp s) n (stp_ap s) (stp_nTknAct s) (stp_nNtAct s) (stp_iTknOfst s) (stp_iNtOfst s)
    (stp_iDfltReduce s) (stp_pDfltReduce s) (stp_autoReduce s).
Definition upd_sorted (l : list nat) (nx : Z) (m : lemon) : lemon :=
  mkLemon l (lem_rule m) (lem_startRule m) nx (lem_nsymbol m) (lem_nterminal m)
    (lem_minShiftReduce m) (lem_errAction m) (lem_accAction m) (lem_noAction m) (lem_minReduce m) (lem_maxAction m)
    (lem_symbols m) (lem_errorcnt m) (lem_errsym m) (lem_wildcard m) (lem_start m) (lem_nconflict m).

(** the counts of token and nonterminal actions and the default of one state *)
Fixpoint count_actions (lem : lemon) (h : heap) (s : state) (l : list action) (nTkn nNt iDflt : Z) : res (Z * Z * Z) :=
  match l with
  | [] => Ok (nTkn, nNt, iDflt)
  | ap :: l =>
      iAction ← compute_action lem h ap;
      if 0 <=? iAction then
        let i := sp_index (sym (h_syms h) (ap_sp ap)) in
        if i <? lem_nterminal lem then count_actions lem h s l (nTkn + 1) nNt iDflt
        else if i <? lem_nsymbol lem then count_actions lem h s l nTkn (nNt + 1) iDflt
        else if negb (stp_autoReduce s) || bool_decide (XRule <$> stp_pDfltReduce s = Some (ap_x ap))
        then count_actions lem h s l nTkn nNt iAction
        else Err ExitCalled
      else count_actions lem h s l nTkn nNt iDflt
  end.
Fixpoint count_states (lem : lemon) (sts : list nat) (h : heap) : res heap :=
  match sts with
  | [] => Ok h
  | i :: sts =>
      let s := stt (h_states h) i in
      let* (nt, nn, d) := count_actions lem h s (stp_ap s) 0 0 (-1) in
      count_states lem sts (upd_states (alter (upd_counts_state nt nn d) i) h)
  end.

Definition stateResortCompare (states : list state) (a b : nat) : Z :=
  let pA := stt states a in
  let pB := stt states b in
  let n := stp_nNtAct pB - stp_nNtAct pA in
  if n =? 0 then
    let n := stp_nTknAct pB - stp_nTknAct pA in
    if n =? 0 then stp_statenum pB - stp_statenum pA else n
  else n.

(** the assertion that no two states compare equal: a sort compares all neighbours
    of its result *)
Fixpoint no_ties {A} (cmp : A → A → Z) (l : list A) : bool :=
  match l with
  | a :: ((b :: _) as k) => negb (cmp a b =? 0) && no_ties cmp k
  | _ => true
  end.

(** [sorted[i]->statenum = i] *)
Fixpoint number_states (i : Z) (sts : list nat) (states : list state) : list state :=
  match sts with
  | [] => states
  | s :: sts => number_states (i + 1) sts (alter (upd_statenum i) s states)
  end.
(** [while( nxstate>1 && sorted[nxstate-1]->autoReduce ) nxstate--] *)
Fixpoint trim_auto (states : list state) (sts : list nat) (n : nat) : nat :=
  match n with
  | S (S _ as n') =>
      match sts !! n' with
      | Some s => if stp_autoReduce (stt states s) then trim_auto states sts n' else n
      | None => n
      end
  | _ => n
  end.

Definition ResortStates (lem : lemon) (h : heap) : res (lemon * heap) :=
  h ← count_states lem (lem_sorted lem) h;
  match lem_sorted lem with
  | [] => Ok (upd_sorted [] 0 lem, h)
  | s0 :: rest =>
      let cmp := stateResortCompare (h_states h) in
      if no_ties cmp (qsort cmp rest) then
      let sorted := s0 :: qsort cmp rest in
      let h := upd_states (number_states 0 sorted) h in
      Ok (upd_sorted sorted (Z.of_nat (trim_auto (h_states h) sorted (length sorted))) lem, h)
      else Err ExitCalled
  end.

(** ** The default is the most frequent rule, and no lookup changes *)

Definition uses (rp : nat) (l : list action) : Z := zlen (filter (λ a, reduces rp a = true) l).

Lemma uses_app rp l k : uses rp (l ++ k) = uses rp l + uses rp k.
Proof. unfold uses. by rewrite filter_app, zlen_app. Qed.
Lemma uses_cons rp a l : uses rp (a :: l) = (if reduces rp a then 1 else 0) + uses rp l.
Proof.
  unfold uses. rewrite filter_cons. case_decide as E; [rewrite E|rewrite (not_true_is_false _ E)];
    unfold zlen; cbn [length]; lia.
Qed.
Lemma uses_nonneg rp l : 0 ≤ uses rp l.
Proof. apply zlen_nonneg. Qed.
Lemma reduces_spec rp a : reduces rp a = true ↔ ap_type a = REDUCE ∧ ap_x a = XRule rp.
Proof. unfold reduces. by rewrite andb_true_iff, !bool_decide_eq_true. Qed.

Section Best.
Context (rs : list rule) (wildcard : option nat).
Notation plain rp := (rp_lhsStart (rul rs rp) = false).

Record best_inv (pre l : list action) (nbest : Z) (rbest : option nat) : Prop := {
  bi_max : ∀ rp, plain rp → 0 < uses rp pre → uses rp (pre ++ l) ≤ nbest;
  bi_some : ∀ r, rbest = Some r → plain r ∧ nbest = uses r (pre ++ l) ∧ 0 < uses r pre;
  bi_none : rbest = None → nbest = 0;
}.

Definition on_wildcard (a : action) : Prop := ap_type a = SHIFT ∧ Some (ap_sp a) = wildcard.

Lemma pick_best_inv l : ∀ pre nbest rbest w n r w',
  best_inv pre l nbest rbest → pick_best rs wildcard l nbest rbest w = (n, r, w') →
  best_inv (pre ++ l) [] n r ∧ (w' = true ↔ w = true ∨ Exists on_wildcard l).
Proof.
  induction l as [|ap l IH]; intros pre nbest rbest w n r w' Hi.
  { intros [= <- <- <-]. rewrite app_nil_r. split; [done|]. rewrite Exists_nil. tauto. }
  cbn [pick_best]. set (w1 := w || _).
  assert (w1 = true ↔ w = true ∨ on_wildcard ap) as Hw1.
  { unfold w1, on_wildcard. by rewrite orb_true_iff, bool_decide_eq_true. }
  assert (∀ nb rb, best_inv (pre ++ [ap]) l nb rb → pick_best rs wildcard l nb rb w1 = (n, r, w') →
    best_inv (pre ++ ap :: l) [] n r ∧ (w' = true ↔ w = true ∨ Exists on_wildcard (ap :: l))) as Hgo.
  { intros nb rb Hb E. destruct (IH _ _ _ _ _ _ _ Hb E) as [H1 H2]. rewrite <- app_assoc in H1. split; [done|].
    rewrite H2, Hw1, Exists_cons. tauto. }
  clear IH. destruct Hi as [Hm Hs Hn].
  assert ((∀ rp, plain rp → reduces rp ap = true → uses rp (pre ++ ap :: l) ≤ nbest) →
    best_inv (pre ++ [ap]) l nbest rbest) as Hkeep.
  { intros Hap. constructor; [| |done].
    - intros rp Hp. rewrite <- app_assoc. cbn [app]. rewrite (uses_app rp pre [ap]), (uses_cons rp ap []).
      destruct (reduces rp ap) eqn:E; [by intros _; apply Hap|]. change (uses rp []) with 0. intros ?. apply Hm; [done|lia].
    - intros r' ->. destruct (Hs r' eq_refl) as (?&?&?). rewrite <- app_assoc. cbn [app]. split_and!; [done|done|].
      rewrite uses_app. pose proof (uses_nonneg r' [ap]). lia. }
  destruct (ap_type ap) eqn:Et; try (apply Hgo, Hkeep; intros rp _ Hr%reduces_spec; rewrite Et in Hr; naive_solver).
  destruct (ap_x ap) as [s|rp|] eqn:Ex;
    try (apply Hgo, Hkeep; intros rp _ Hr%reduces_spec; rewrite Ex in Hr; naive_solver).
  assert (∀ rp', reduces rp' ap = true → rp' = rp) as Hu by (intros rp' Hr%reduces_spec; rewrite Ex in Hr; naive_solver).
  assert (reduces rp ap = true) as Hrp by (by apply reduces_spec).
  destruct (rp_lhsStart (rul rs rp)) eqn:El.
  { apply Hgo, Hkeep. intros rp' Hp' ->%Hu. congruence. }
  case_decide as Er.
  { apply Hgo, Hkeep. intros rp' Hp' ->%Hu. destruct (Hs rp) as (_&->&_); [done|lia]. }
  assert (1 + zlen (filter (λ a, reduces rp a = true) l) = uses rp (ap :: l)) as -> by (rewrite uses_cons, Hrp; done).
  destruct (uses rp (ap :: l) >? nbest) eqn:Egt; cycle 1.
  { apply Hgo, Hkeep. intros rp' Hp' ->%Hu. destruct (decide (0 < uses rp pre)); [by apply Hm|].
    rewrite uses_app. pose proof (uses_nonneg rp pre). lia. }
  apply Hgo. assert (uses rp pre = 0) as Hp0.
  { destruct (decide (0 < uses rp pre)) as [Hpos|]; [|pose proof (uses_nonneg rp pre); lia].
    specialize (Hm rp El Hpos). rewrite uses_app in Hm. lia. }
  constructor; [..|done].
  - intros rp' Hp' Hpos. rewrite <- app_assoc. cbn [app]. rewrite uses_app in Hpos.
    destruct (decide (rp' = rp)) as [->|Hne]; [rewrite uses_app; lia|].
    assert (uses rp' [ap] = 0) as H0.
    { rewrite uses_cons. destruct (reduces rp' ap) eqn:E; [by apply Hu in E|done]. }
    rewrite H0 in Hpos. specialize (Hm rp' Hp' ltac:(lia)). lia.
  - intros r' [= <-]. rewrite <- app_assoc. cbn [app]. rewrite !uses_app, Hp0. split_and!; [done|lia|].
    rewrite uses_cons, Hrp. pose proof (uses_nonneg rp []). lia.
Qed.
End Best.

Lemma make_default_spec dflt rbest l :
  0 < uses rbest l →
  ∃ l1 a l2, l = l1 ++ a :: l2 ∧ reduces rbest a = true ∧ Forall (λ b, reduces rbest b = false) l1 ∧
    make_default dflt rbest l = Ok (l1 ++ upd_sp dflt a :: drop_reduces rbest l2).
Proof.
  induction l as [|a l IH]; intros Hu; [unfold uses, zlen in Hu; cbn in Hu; lia|]. cbn [make_default].
  destruct (reduces rbest a) eqn:E.
  - exists [], a, l. split_and!; [done|done|constructor|done].
  - rewrite uses_cons, E in Hu. destruct (IH Hu) as (l1&b&l2&->&?&?&->). exists (a :: l1), b, l2.
    split_and!; [done|done|by constructor|done].
Qed.

(** what is at a lookahead, unused entries apart *)
Definition has_action (l : list action) (sp : nat) (t : e_action) (x : action_arg) : Prop :=
  ∃ a, a ∈ l ∧ ap_sp a = sp ∧ ap_type a = t ∧ ap_x a = x.

Lemma has_action_app l k sp t x : has_action (l ++ k) sp t x ↔ has_action l sp t x ∨ has_action k sp t x.
Proof. unfold has_action. setoid_rewrite elem_of_app. naive_solver. Qed.
Lemma has_action_cons a k sp t x :
  has_action (a :: k) sp t x ↔ (ap_sp a = sp ∧ ap_type a = t ∧ ap_x a = x) ∨ has_action k sp t x.
Proof. unfold has_action. setoid_rewrite elem_of_cons. naive_solver. Qed.
#[global] Instance has_action_perm : Proper ((≡ₚ) ==> eq ==> eq ==> eq ==> iff) has_action.
Proof. intros l k Hp sp ? <- t ? <- x ? <-. unfold has_action. by setoid_rewrite Hp. Qed.

Lemma has_action_drop rbest l sp t x :
  t ≠ NOT_USED →
  has_action (drop_reduces rbest l) sp t x ↔ has_action l sp t x ∧ ¬ (t = REDUCE ∧ x = XRule rbest).
Proof.
  intros Ht. induction l as [|a l IH].
  - unfold has_action. setoid_rewrite elem_of_nil. naive_solver.
  - cbn [drop_reduces fmap list_fmap]. fold (drop_reduces rbest l). rewrite !has_action_cons, IH.
    destruct (reduces rbest a) eqn:E.
    + apply reduces_spec in E as [E1 E2]. cbn. split; [naive_solver|]. intros [[(?&?&?)|?] Hn]; [|naive_solver].
      exfalso. apply Hn. split; congruence.
    + split; [|tauto]. intros [(?&?&?)|?]; [|tauto]. split; [naive_solver|]. intros [-> ->].
      assert (reduces rbest a = true) by (by apply reduces_spec). congruence.
Qed.

Lemma auto_reduce_spec rbest l :
  auto_reduce rbest l = true ↔ ∀ a, a ∈ l → ap_type a ≠ SHIFT ∧ (ap_type a = REDUCE → ap_x a = XRule rbest).
Proof.
  unfold auto_reduce. rewrite forallb_forall. setoid_rewrite <- list_elem_of_In.
  setoid_rewrite andb_true_iff. setoid_rewrite orb_true_iff. setoid_rewrite negb_true_iff.
  setoid_rewrite bool_decide_eq_false. setoid_rewrite bool_decide_eq_true. split.
  - intros H a Ha. destruct (H a Ha). split; [done|]. tauto.
  - intros H a Ha. destruct (H a Ha). split; [done|]. destruct (decide (ap_type a = REDUCE)); tauto.
Qed.

(** C33: The default of a state: the rule the pass picks is one that most reduce
    actions of the state use (rules of the start symbol excepted) and the
    wildcard flag says whether the wildcard can be shifted. Making it the
    default never fails: the new list is sorted, "{default}" reduces by the
    rule, and on every other symbol exactly the actions remain that did not
    reduce by it, so a lookup that falls back to the default finds what it found
    before; the state is marked as one that only reduces exactly when it shifts
    nothing and reduces by no other rule. *)
Theorem default_reduce_correct rs wildcard ss dflt l nbest rbest w :
  (length l < 2 ^ LISTSIZE)%nat → (∀ a, a ∈ l → ap_sp a ≠ dflt) →
  pick_best rs wildcard l 0 None false = (nbest, Some rbest, w) →
  (rp_lhsStart (rul rs rbest) = false ∧ nbest = uses rbest l ∧ 1 ≤ nbest ∧
    (∀ rp, rp_lhsStart (rul rs rp) = false → uses rp l ≤ nbest) ∧
    (w = true ↔ Exists (on_wildcard wildcard) l)) ∧
  ∃ l' auto, compress_actions rs ss dflt rbest l = Ok (l', auto) ∧
    StronglySorted (cle (actioncmp ss rs)) l' ∧ length l' = length l ∧
    (∀ t x, t ≠ NOT_USED → has_action l' dflt t x ↔ t = REDUCE ∧ x = XRule rbest) ∧
    (∀ sp t x, sp ≠ dflt → t ≠ NOT_USED →
       has_action l' sp t x ↔ has_action l sp t x ∧ ¬ (t = REDUCE ∧ x = XRule rbest)) ∧
    (auto = Some rbest ↔ ∀ a, a ∈ l → ap_type a ≠ SHIFT ∧ (ap_type a = REDUCE → ap_x a = XRule rbest)).
Proof.
  intros Hlen Hd Hp.
  assert (∀ k, length k = length l → StronglySorted (cle (actioncmp ss rs)) (Action_sort ss rs k) ∧
    Action_sort ss rs k ≡ₚ k) as Hso by (intros k E; apply Action_sort_ok; rewrite E; exact Hlen).
  clear Hlen. destruct (pick_best_inv rs wildcard l [] 0 None false nbest (Some rbest) w) as [[Hm Hs _] Hw]; [|done|].
  { constructor; [|done|done]. intros rp _ Hu. unfold uses, zlen in Hu. cbn in Hu. lia. }
  rewrite app_nil_l, app_nil_r in *. destruct (Hs rbest eq_refl) as (Hst&Hn&Hpos). split.
  { split_and!; [done|done|lia| |rewrite Hw; naive_solver].
    intros rp Hrp. destruct (decide (0 < uses rp l)); [by apply Hm|lia]. }
  destruct (make_default_spec dflt rbest l Hpos) as (l1&a&l2&->&Ha&Hl1&Hmk).
  set (k := l1 ++ upd_sp dflt a :: drop_reduces rbest l2) in *.
  assert (length k = length (l1 ++ a :: l2)) as Hlk.
  { unfold k, drop_reduces. rewrite !length_app. cbn [length]. by rewrite length_fmap. }
  unfold compress_actions. rewrite Hmk. cbn [mbind res_bind].
  destruct (Hso k Hlk) as [Hsort Hperm].
  eexists _, _. split; [reflexivity|]. split; [done|]. split; [by rewrite Hperm|].
  apply reduces_spec in Ha as [Hat Hax].
  assert (∀ b, b ∈ l1 → ap_sp b ≠ dflt) as Hd1 by (intros; apply Hd; set_solver).
  assert (∀ b, b ∈ l2 → ap_sp b ≠ dflt) as Hd2 by (intros; apply Hd; set_solver).
  split_and!.
  - intros t x Ht. rewrite Hperm. unfold k. rewrite has_action_app, has_action_cons, has_action_drop by done.
    cbn [upd_sp ap_sp ap_type ap_x]. rewrite Hat, Hax. unfold has_action.
    split; [intros [(b&?&?&_)|[(_&<-&<-)|((b&?&?&_)&_)]]; naive_solver|naive_solver].
  - intros sp t x Hsp Ht. rewrite Hperm. unfold k. rewrite !has_action_app, !has_action_cons, has_action_drop by done.
    cbn [upd_sp ap_sp ap_type ap_x]. rewrite Hat, Hax.
    assert (has_action l1 sp t x → ¬ (t = REDUCE ∧ x = XRule rbest)) as H1.
    { intros (b&Hb&?&<-&<-) Hr%reduces_spec. rewrite Forall_forall in Hl1. specialize (Hl1 b Hb). cbn in Hl1. congruence. }
    naive_solver.
  - assert (auto_reduce rbest (Action_sort ss rs k) = auto_reduce rbest k) as ->.
    { apply eq_true_iff_eq. rewrite !auto_reduce_spec. by setoid_rewrite Hperm. }
    rewrite <- auto_reduce_spec. assert (auto_reduce rbest k = auto_reduce rbest (l1 ++ a :: l2)) as ->;
      [|destruct (auto_reduce _ _); naive_solver].
    apply eq_true_iff_eq. unfold auto_reduce, k, drop_reduces. rewrite !forallb_app. cbn [forallb].
    cbn [upd_sp ap_type ap_x]. do 3 f_equiv. clear. induction l2 as [|b l2 IH]; [done|]. cbn [fmap list_fmap forallb].
    rewrite IH. f_equal. destruct (reduces rbest b) eqn:E; [|done]. apply reduces_spec in E as [-> ->].
    rewrite (bool_decide_eq_true_2 (XRule rbest = XRule rbest)) by done. reflexivity.
Qed.

(** a state that reduces by rule 0 on three tokens and by rule 1 on one *)
Definition df_actions : list action :=
  [mkAction 0 0 REDUCE (XRule 0) None; mkAction 1 1 REDUCE (XRule 1) None; mkAction 2 2 REDUCE (XRule 0) None;
   mkAction 3 3 REDUCE (XRule 0) None].
Lemma default_reduce_correct_witness :
  pick_best [rule0; rule0] None df_actions 0 None false = (3, Some 0%nat, false) ∧
  ∃ l', compress_actions [rule0; rule0] [] 9 0 df_actions = Ok (l', None) ∧ has_action l' 9 REDUCE (XRule 0).
Proof.
  assert (pick_best [rule0; rule0] None df_actions 0 None false = (3, Some 0%nat, false)) as Hp by (vm_compute; reflexivity).
  split; [exact Hp|].
  destruct (default_reduce_correct [rule0; rule0] None [] 9 df_actions 3 0 false) as (_&l'&auto&H1&_&_&H2&_&H3); [| |exact Hp|].
  - cbn [length df_actions]. apply (Nat.lt_le_trans 4 (2 ^ 3)); [cbn; lia|]. apply Nat.pow_le_mono_r; [lia|]. unfold LISTSIZE. lia.
  - intros a Ha. unfold df_actions in Ha. rewrite !elem_of_cons in Ha.
    destruct Ha as [->|[->|[->|[->|Ha%elem_of_nil]]]]; done.
  - exists l'. split; [|apply H2; [discriminate|split; reflexivity]].
    rewrite H1. vm_compute in H1. injection H1 as _ <-. reflexivity.
Defined.

(** ** An error action does not stop the shortcut *)

(** "$", the nonassociative LT, "ID", "e" and "{default}"; the rule e ::= e LT e;
    state 0 shifts e to state 1, which has read e LT e *)
Definition nl_symtab : symtab :=
  match add_names [[36] ↾ I; [76; 84] ↾ I; [73; 68] ↾ I; [101] ↾ I; default_cstr] symtab0 with
  | Ok t =>
      mkSymtab (alter (λ s, mkSymbol (sp_name s) (sp_index s) (sp_type s) (sp_rule s) (sp_fallback s) 0 NONE
        (sp_firstset s) (sp_lambda s) (sp_useCnt s) (sp_destructor s) (sp_destLineno s) (sp_datatype s)
        (sp_dtnum s) (sp_bContent s) (sp_subsym s)) 1%nat (sy_heap t)) (x2a t) (sy_str t)
  | Err _ => symtab0
  end.
Definition nl_syms : list symbol := match index_symbols nl_symtab with Ok (h, _, _, _) => h | Err _ => [] end.
Definition nl_rules : list rule :=
  [mkRule 3 None false 1 [3; 1; 3]%nat [] 1 None None None (Some 1%nat) 0 0 true false false false false].
Definition nl_heap : heap :=
  mkHeap nl_syms nl_rules []
    [upd_ap [mkAction 0 3 SHIFT (XState 1) None] state0;
     upd_ap [mkAction 1 0 REDUCE (XRule 0) None; mkAction 2 1 SHIFT (XState 2) None; mkAction 3 1 REDUCE (XRule 0) None]
       (upd_statenum 1 state0)].
Definition nl_lemon : lemon :=
  mkLemon [0; 1]%nat [0]%nat (Some 0%nat) 0 4 3 0 0 0 0 0 0 [0; 1; 2; 3; 4]%nat 0 None None None 0.

(** A nonassociative operator is not enforced after compression: in the state
    that has read e LT e, conflict resolution turns the shift of a second LT
    into ERROR; the test for states that only reduce looks for shifts and other
    reduces but not for errors, so the shift into that state becomes a combined
    shift-reduce and LT is never looked at. *)
Theorem nonassoc_error_lost :
  match resolve_states (lem_sorted nl_lemon) nl_heap with
  | Ok (n, h1) =>
      n = 0 ∧ has_action (stp_ap (stt (h_states h1) 1)) 1 ERROR (XState 2) ∧
      match CompressTables (λ _, true) true 10 nl_symtab nl_lemon h1 with
      | Ok (_, h2) => has_action (stp_ap (stt (h_states h2) 0)) 3 SHIFTREDUCE (XRule 0)
      | Err _ => False
      end
  | Err _ => False
  end.
Proof.
  vm_compute. split; [reflexivity|]. split.
  - eexists. split; [right; left|]. split_and!; reflexivity.
  - eexists. split; [left|]. split_and!; reflexivity.
Qed.

(** ** The final order of the states *)

Section Resort.
Context (lem : lemon).

Definition emitted (h : heap) (a : action) : bool :=
  match compute_action lem h a with Ok v => 0 <=? v | Err _ => false end.
Notation aidx h a := (sp_index (sym (h_syms h) (ap_sp a))).
Definition tkn_actions (h : heap) (l : list action) : Z :=
  zlen (filter (λ a, emitted h a = true ∧ aidx h a < lem_nterminal lem) l).
Definition nt_actions (h : heap) (l : list action) : Z :=
  zlen (filter (λ a, emitted h a = true ∧ lem_nterminal lem ≤ aidx h a < lem_nsymbol lem) l).

(** every action has a number, and the default of a state that only reduces is its rule *)
Definition actions_ok (h : heap) (s : state) : Prop :=
  ∀ a, a ∈ stp_ap s → is_Ok (compute_action lem h a) ∧
    (stp_autoReduce s = true → lem_nterminal lem ≤ aidx h a → lem_nsymbol lem ≤ aidx h a → emitted h a = true →
       XRule <$> stp_pDfltReduce s = Some (ap_x a)).

Lemma zlen_filter_cons {A} (P : A → Prop) `{∀ x, Decision (P x)} a l :
  zlen (filter P (a :: l)) = (if decide (P a) then 1 else 0) + zlen (filter P l).
Proof. rewrite filter_cons. case_decide; unfold zlen; cbn [length]; lia. Qed.

Lemma count_actions_spec h s l nt nn d :
  (∀ a, a ∈ l → a ∈ stp_ap s) → actions_ok h s →
  ∃ d', count_actions lem h s l nt nn d = Ok (nt + tkn_actions h l, nn + nt_actions h l, d').
Proof.
  unfold tkn_actions, nt_actions. intros Hl Hok. revert nt nn d. induction l as [|a l IH]; intros nt nn d.
  { exists d. rewrite !filter_nil. cbn. by rewrite !Z.add_0_r. }
  specialize (IH ltac:(intros; apply Hl; by right)). cbn [count_actions].
  destruct (Hok a ltac:(apply Hl; by left)) as [[v Hv] Hauto]. rewrite !zlen_filter_cons.
  assert (emitted h a = (0 <=? v)) as He by (unfold emitted; by rewrite Hv).
  rewrite Hv, He in *. cbn [mbind res_bind]. destruct (0 <=? v); cycle 1.
  { rewrite !decide_False by naive_solver. rewrite !Z.add_0_l. apply IH. }
  destruct (Z.ltb_spec (aidx h a) (lem_nterminal lem)).
  { rewrite decide_True by done. rewrite decide_False by lia.
    destruct (IH (nt + 1) nn d) as [d' ->]. exists d'. do 3 f_equal; lia. }
  rewrite (decide_False (P := true = true ∧ _ < _)) by lia.
  destruct (Z.ltb_spec (aidx h a) (lem_nsymbol lem)).
  { rewrite decide_True by (split; [done|lia]).
    destruct (IH nt (nn + 1) d) as [d' ->]. exists d'. do 3 f_equal; lia. }
  rewrite decide_False by lia. rewrite !Z.add_0_l.
  destruct (stp_autoReduce s); cbn [negb orb]; [|apply IH].
  rewrite bool_decide_eq_true_2 by auto. apply IH.
Qed.

Lemma stt_alter f p rs i :
  stt (alter f p rs) i = if decide (i = p ∧ (p < length rs)%nat) then f (stt rs p) else stt rs i.
Proof.
  unfold stt. destruct (decide (i = p)) as [->|Hne].
  - rewrite list_lookup_alter_eq. destruct (rs !! p) as [s|] eqn:E.
    + rewrite decide_True; [done|]. split; [done|]. by eapply lookup_lt_Some.
    + rewrite decide_False; [done|]. intros [_ [? Hs]%lookup_lt_is_Some_2]. congruence.
  - rewrite list_lookup_alter_ne by done. rewrite decide_False; [done|]. naive_solver.
Qed.

(** the number of an action depends on symbols, rules and state numbers only *)
Definition same_numbers (h h' : heap) : Prop :=
  h_syms h' = h_syms h ∧ h_rules h' = h_rules h ∧
  ∀ i, stp_statenum (stt (h_states h') i) = stp_statenum (stt (h_states h) i).
Lemma compute_action_same h h' a : same_numbers h h' → compute_action lem h' a = compute_action lem h a.
Proof.
  intros (Hs&Hr&Hn). unfold compute_action. rewrite Hs, Hr. destruct (ap_type a); try done. destruct (ap_x a); try done.
  by rewrite Hn.
Qed.
Lemma counts_same h h' l : same_numbers h h' → tkn_actions h' l = tkn_actions h l ∧ nt_actions h' l = nt_actions h l.
Proof.
  intros Hs. pose proof (compute_action_same h h') as Hc. destruct Hs as (Hy&Hr&Hn).
  unfold tkn_actions, nt_actions, emitted. rewrite Hy.
  split; f_equal; apply filter_cons_ext; intros a _; by rewrite Hc.
Qed.
Lemma actions_ok_same h h' s : same_numbers h h' → actions_ok h s → actions_ok h' s.
Proof.
  intros Hs Hok a Ha. destruct (Hok a Ha) as [H1 H2]. rewrite (compute_action_same h h') by done.
  destruct (Hs) as (Hy&_&_). rewrite Hy. unfold emitted in *. by rewrite (compute_action_same h h').
Qed.

Lemma count_states_spec sts : ∀ h,
  NoDup sts → (∀ i, i ∈ sts → (i < length (h_states h))%nat) → (∀ i, i ∈ sts → actions_ok h (stt (h_states h) i)) →
  ∃ h', count_states lem sts h = Ok h' ∧ same_numbers h h' ∧ length (h_states h') = length (h_states h) ∧
    (∀ i, i ∉ sts → stt (h_states h') i = stt (h_states h) i) ∧
    (∀ i, i ∈ sts → ∃ d, stt (h_states h') i =
       upd_counts_state (tkn_actions h (stp_ap (stt (h_states h) i))) (nt_actions h (stp_ap (stt (h_states h) i))) d
         (stt (h_states h) i)).
Proof.
  induction sts as [|i sts IH]; intros h Hnd Hlt Hok.
  { exists h. split_and!; [done|done|done|done|]. by intros i ?%elem_of_nil. }
  apply NoDup_cons in Hnd as [Hi Hnd]. cbn [count_states].
  destruct (count_actions_spec h (stt (h_states h) i) (stp_ap (stt (h_states h) i)) 0 0 (-1)) as [d Hd]; [done|apply Hok; by left|].
  rewrite Hd, !Z.add_0_l. set (f := upd_counts_state _ _ d). set (h1 := upd_states (alter f i) h).
  assert (same_numbers h h1) as Hsame.
  { split_and!; [done|done|]. intros j. cbn. rewrite stt_alter. case_decide as Hj; [by destruct Hj as [-> _]|done]. }
  assert (∀ j, j ≠ i → stt (h_states h1) j = stt (h_states h) j) as Hother.
  { intros j Hj. cbn. rewrite stt_alter, decide_False; [done|]. naive_solver. }
  destruct (IH h1 Hnd) as (h'&Hc&Hsame'&Hlen&Hout&Hin).
  - intros j Hj. cbn. rewrite length_alter. apply Hlt. by right.
  - intros j Hj. rewrite Hother by (by intros ->). eapply actions_ok_same; [done|]. apply Hok. by right.
  - exists h'. split_and!; [done| | | |].
    + destruct Hsame as (?&?&E1), Hsame' as (?&?&E2). split_and!; [congruence..|]. intros j. by rewrite E2, E1.
    + rewrite Hlen. cbn. by rewrite length_alter.
    + intros j [Hj1 Hj2]%not_elem_of_cons. by rewrite Hout, Hother.
    + intros j [->|Hj]%elem_of_cons.
      * exists d. rewrite Hout by done. cbn. rewrite stt_alter, decide_True; [done|]. split; [done|]. apply Hlt. by left.
      * destruct (Hin j Hj) as [d' ->]. exists d'. rewrite Hother by (by intros ->).
        by destruct (counts_same h h1 (stp_ap (stt (h_states h) j)) Hsame) as [-> ->].
Qed.

Lemma number_states_spec i sts : ∀ states,
  NoDup sts → (∀ p, p ∈ sts → (p < length states)%nat) →
  length (number_states i sts states) = length states ∧
  (∀ p, p ∉ sts → stt (number_states i sts states) p = stt states p) ∧
  (∀ k p, sts !! k = Some p → stt (number_states i sts states) p = upd_statenum (i + Z.of_nat k) (stt states p)).
Proof.
  revert i. induction sts as [|q sts IH]; intros i states Hnd Hlt; [done|].
  apply NoDup_cons in Hnd as [Hq Hnd]. cbn [number_states].
  destruct (IH (i + 1) (alter (upd_statenum i) q states) Hnd) as (H0&H1&H2).
  { intros p Hp. rewrite length_alter. apply Hlt. by right. }
  split_and!; [by rewrite H0, length_alter|..].
  - intros p [Hp Hp']%not_elem_of_cons. rewrite H1, stt_alter, decide_False by naive_solver. done.
  - intros [|k] p Hk; cbn in Hk.
    + injection Hk as ->. rewrite H1, stt_alter, decide_True by (done || (split; [done|]; apply Hlt; by left)). f_equal. lia.
    + rewrite (H2 k p Hk), stt_alter, decide_False; [f_equal; lia|]. intros [-> _].
      apply Hq. by eapply list_elem_of_lookup_2.
Qed.

Lemma trim_auto_SS states sts n :
  trim_auto states sts (S (S n)) =
    match sts !! S n with
    | Some s => if stp_autoReduce (stt states s) then trim_auto states sts (S n) else S (S n)
    | None => S (S n)
    end.
Proof. reflexivity. Qed.

Lemma trim_auto_spec states sts n :
  (0 < n ≤ length sts)%nat →
  (1 ≤ trim_auto states sts n ≤ n)%nat ∧
  (∀ k s, (trim_auto states sts n ≤ k < n)%nat → sts !! k = Some s → stp_autoReduce (stt states s) = true) ∧
  (∀ s, (1 < trim_auto states sts n)%nat → sts !! (trim_auto states sts n - 1)%nat = Some s →
     stp_autoReduce (stt states s) = false).
Proof.
  induction n as [|n IH]; intros Hn; [lia|]. destruct n as [|n].
  { cbn [trim_auto]. split_and!; [lia|lia|intros; lia|intros; lia]. }
  rewrite trim_auto_SS. destruct (lookup_lt_is_Some_2 sts (S n)) as [s Hs]; [lia|]. rewrite Hs.
  destruct (stp_autoReduce (stt states s)) eqn:E.
  - destruct IH as (H1&H2&H3); [lia|]. split_and!; [lia|lia| |done].
    intros k s' Hk Hs'. destruct (decide (k = S n)) as [->|]; [congruence|]. apply (H2 k s'); [lia|done].
  - split_and!; [lia|lia|intros; lia|]. intros s' _. replace (S (S n) - 1)%nat with (S n) by lia. congruence.
Qed.

Lemma no_ties_ok {A} (cmp : A → A → Z) (l : list A) : NoDup l → (∀ a b, a ∈ l → b ∈ l → a ≠ b → cmp a b ≠ 0) → no_ties cmp l = true.
Proof.
  induction l as [|a l IH]; intros Hnd Hc; [done|]. apply NoDup_cons in Hnd as [Ha Hnd].
  destruct l as [|b l]; [done|]. cbn [no_ties]. apply andb_true_iff. split.
  - apply negb_true_iff, Z.eqb_neq, Hc; [set_solver..|]. intros ->. apply Ha. by left.
  - apply IH; [done|]. intros. apply Hc; [by right..|done].
Qed.

(** what [ResortStates] starts from *)
Record resort_pre (h : heap) : Prop := {
  rp_ne : lem_sorted lem ≠ [];
  rp_nodup : NoDup (lem_sorted lem);
  rp_range : ∀ i, i ∈ lem_sorted lem → (i < length (h_states h))%nat;
  rp_nums : ∀ i j, i ∈ lem_sorted lem → j ∈ lem_sorted lem →
    stp_statenum (stt (h_states h) i) = stp_statenum (stt (h_states h) j) → i = j;
  rp_acts : ∀ i, i ∈ lem_sorted lem → actions_ok h (stt (h_states h) i);
}.

(** more nonterminal actions first, then more token actions *)
Definition before (states : list state) (a b : nat) : Prop :=
  stp_nNtAct (stt states b) < stp_nNtAct (stt states a) ∨
  stp_nNtAct (stt states b) = stp_nNtAct (stt states a) ∧ stp_nTknAct (stt states b) ≤ stp_nTknAct (stt states a).

(** The final order of the states: the pass finishes without a failed
    assertion; the states are the same, the start state stays first and the rest
    are ordered by how many nonterminal, then token actions they have; these
    counts are right and the action lists untouched; every state is numbered by
    its position; and [nxstate] cuts off only states that do nothing but reduce,
    as many as there are at the end, never the start state. *)
Theorem ResortStates_correct h :
  resort_pre h →
  ∃ lem' h', ResortStates lem h = Ok (lem', h') ∧
    lem_sorted lem' ≡ₚ lem_sorted lem ∧ head (lem_sorted lem') = head (lem_sorted lem) ∧
    StronglySorted (before (h_states h')) (tail (lem_sorted lem')) ∧
    (∀ i, i ∈ lem_sorted lem → stp_ap (stt (h_states h') i) = stp_ap (stt (h_states h) i) ∧
       stp_nTknAct (stt (h_states h') i) = tkn_actions h (stp_ap (stt (h_states h) i)) ∧
       stp_nNtAct (stt (h_states h') i) = nt_actions h (stp_ap (stt (h_states h) i))) ∧
    (∀ k i, lem_sorted lem' !! k = Some i → stp_statenum (stt (h_states h') i) = Z.of_nat k) ∧
    1 ≤ lem_nxstate lem' ≤ zlen (lem_sorted lem) ∧
    (∀ k i, lem_nxstate lem' ≤ Z.of_nat k → lem_sorted lem' !! k = Some i → stp_autoReduce (stt (h_states h) i) = true) ∧
    (∀ i, 1 < lem_nxstate lem' → lem_sorted lem' !! Z.to_nat (lem_nxstate lem' - 1) = Some i →
       stp_autoReduce (stt (h_states h) i) = false).
Proof.
  intros [Hne Hnd Hlt Hnum Hact]. unfold ResortStates.
  destruct (count_states_spec (lem_sorted lem) h Hnd Hlt Hact) as (h1&->&Hsame&Hlen&_&Hcnt).
  cbn [mbind res_bind]. destruct (lem_sorted lem) as [|s0 rest] eqn:Esort; [done|].
  set (cmp := stateResortCompare (h_states h1)).
  assert (no_ties cmp (qsort cmp rest) = true) as ->.
  { apply NoDup_cons in Hnd as [_ Hnd]. apply no_ties_ok; [by rewrite qsort_perm|].
    intros a b. rewrite !qsort_perm. intros Ha Hb Hab. unfold cmp, stateResortCompare. destruct Hsame as (_&_&Hsn).
    rewrite !Hsn. assert (stp_statenum (stt (h_states h) a) ≠ stp_statenum (stt (h_states h) b))
      by (intros E; apply Hab, Hnum; [by right..|done]).
    repeat case_match; lia. }
  set (sorted := s0 :: qsort cmp rest).
  assert (sorted ≡ₚ s0 :: rest) as Hperm by (unfold sorted; by rewrite qsort_perm).
  assert (NoDup sorted) as Hnds by (by rewrite Hperm).
  destruct (number_states_spec 0 sorted (h_states h1) Hnds) as (_&_&Hns).
  { intros p. rewrite Hperm, Hlen. apply Hlt. }
  assert (∀ i, i ∈ s0 :: rest → ∃ k d, sorted !! k = Some i ∧ stt (number_states 0 sorted (h_states h1)) i =
    upd_statenum (Z.of_nat k) (upd_counts_state (tkn_actions h (stp_ap (stt (h_states h) i)))
      (nt_actions h (stp_ap (stt (h_states h) i))) d (stt (h_states h) i))) as Hst.
  { intros i Hi. destruct (Hcnt i Hi) as [d Hd]. rewrite <- Hperm in Hi. apply list_elem_of_lookup in Hi as [k Hk].
    exists k, d. split; [done|]. by rewrite (Hns k i Hk), Hd. }
  set (states := number_states 0 sorted (h_states h1)) in *.
  destruct (trim_auto_spec states sorted (length sorted)) as (Hx1&Hx2&Hx3); [unfold sorted; cbn [length]; lia|].
  assert (length sorted = length (s0 :: rest)) as Hls by (by rewrite Hperm).
  assert (∀ i k, sorted !! k = Some i → stp_autoReduce (stt states i) = stp_autoReduce (stt (h_states h) i)) as Hauto.
  { intros i k Hk. destruct (Hst i) as (?&?&_&->); [|done]. rewrite <- Hperm. by eapply list_elem_of_lookup_2. }
  eexists _, _. split; [reflexivity|]. cbn [upd_sorted lem_sorted lem_nxstate upd_states h_states].
  fold states. split_and!; [done|done|..].
  - cbn [tail sorted]. assert (StronglySorted (cle cmp) (qsort cmp rest)) as Hs.
    { apply qsort_sorted; unfold cmp, stateResortCompare; intros; repeat case_match; lia. }
    eapply StronglySorted_impl; [|exact Hs]. intros a b Ha Hb.
    assert (∀ c, c ∈ qsort cmp rest → c ∈ s0 :: rest) as Hin by (intros c; rewrite qsort_perm; by right).
    destruct (Hst a (Hin a Ha)) as (ka&da&_&Ea), (Hst b (Hin b Hb)) as (kb&db&_&Eb).
    destruct (Hcnt a (Hin a Ha)) as [da' Ea'], (Hcnt b (Hin b Hb)) as [db' Eb'].
    unfold before, cle, cmp, stateResortCompare. rewrite Ea, Eb, Ea', Eb'. cbn. repeat case_match; lia.
  - intros i Hi. destruct (Hst i Hi) as (k&d&_&->). done.
  - intros k i Hk. rewrite (Hns k i Hk). done.
  - lia.
  - unfold zlen. lia.
  - intros k i Hk Hi. rewrite <- (Hauto i k Hi). apply (Hx2 k i); [|done]. split; [lia|]. by eapply lookup_lt_Some.
  - intros i Hk Hi. rewrite <- (Hauto i _ Hi). apply Hx3; [lia|].
    by replace (trim_auto states sorted (length sorted) - 1)%nat
      with (Z.to_nat (Z.of_nat (trim_auto states sorted (length sorted)) - 1)) by lia.
Qed.
End Resort.

(** a token, a nonterminal and "{default}"; state 1 only reduces *)
Definition rz_heap : heap :=
  mkHeap [symbol0; upd_index 1 symbol0; upd_index 2 symbol0] [rule0] []
    [upd_ap [mkAction 0 0 SHIFT (XState 1) None] state0;
     upd_auto true (Some 0%nat) (upd_ap [mkAction 1 2 REDUCE (XRule 0) None] (upd_statenum 1 state0));
     upd_ap [mkAction 2 1 SHIFT (XState 1) None] (upd_statenum 2 state0)].
Definition rz_lemon : lemon :=
  mkLemon [0; 1; 2]%nat [0]%nat (Some 0%nat) 0 2 1 0 0 0 0 0 0 [0; 1; 2]%nat 0 None None None 0.
Lemma rz_pre : resort_pre rz_lemon rz_heap.
Proof.
  assert (∀ i, i ∈ lem_sorted rz_lemon → i = 0%nat ∨ i = 1%nat ∨ i = 2%nat) as Hi.
  { intros i. cbn [lem_sorted rz_lemon]. rewrite !elem_of_cons. intros [|[|[|?%elem_of_nil]]]; auto; done. }
  constructor.
  - done.
  - apply (bool_decide_unpack _). vm_compute. exact I.
  - intros i [->|[->| ->]]%Hi; cbn; lia.
  - intros i j [->|[->| ->]]%Hi [->|[->| ->]]%Hi; vm_compute; congruence.
  - intros i [->|[->| ->]]%Hi a Ha; apply list_elem_of_singleton in Ha as ->; (split; [eexists; vm_compute; reflexivity|]); vm_compute; done.
Qed.
Lemma ResortStates_correct_witness :
  resort_pre rz_lemon rz_heap ∧
  ∃ lem' h', ResortStates rz_lemon rz_heap = Ok (lem', h') ∧ lem_sorted lem' = [0; 2; 1]%nat ∧ lem_nxstate lem' = 2 ∧
    stp_statenum (stt (h_states h') 1) = 2.
Proof.
  split; [exact rz_pre|].
  destruct (ResortStates_correct rz_lemon rz_heap rz_pre) as (lem'&h'&H&_&_&_&_&Hn&_).
  exists lem', h'. assert (lem_sorted lem' = [0; 2; 1]%nat ∧ lem_nxstate lem' = 2) as [E1 E2].
  { vm_compute in H. injection H as <- _. split; reflexivity. }
  split_and!; [exact H|exact E1|exact E2|]. apply (Hn 2%nat 1%nat). rewrite E1. reflexivity.
Defined.
