(* ===== verification/LemonPreproc.v ===== *)
(** The preprocessor of the grammar file ([src/sql/lemon.c]): the macros of the
    command line ([handle_D_option]), boolean expressions
    ([eval_preprocessor_boolean]) and the conditional directives
    ([preprocess_input]). A text is the list of its characters, which are not
    NUL; reading at its end yields NUL. *)
From S2P Require Import Prelude LemonData LemonSymbol.

Definition ISSPACE (c : Z) : bool := (c =? 32) || ((9 <=? c) && (c <=? 13)).
Definition ISALPHA (c : Z) : bool := ISUPPER c || ISLOWER c.
Definition ISALNUM (c : Z) : bool := ISALPHA c || ((48 <=? c) && (c <=? 57)).
Definition id_char (c : Z) : bool := ISALNUM c || (c =? 95).

(** [handle_D_option]: the name up to an equals sign; [azDefine] grows at its end *)
Fixpoint macro_name (z : str) : str :=
  match z with
  | [] => []
  | c :: z => if c =? 61 then [] else c :: macro_name z
  end.
Definition handle_D_option (azDefine : list str) (z : str) : list str := azDefine ++ [macro_name z].

(** ** Boolean expressions *)

Section Eval.
Context (azDefine : list str).

(** [for(k=i+1; ISALNUM(z[k]) || z[k]=='_'; k++)]: the name and what follows it *)
Fixpoint span_name (z : str) : str * str :=
  match z with
  | c :: z' => if id_char c then let '(a, b) := span_name z' in (c :: a, b) else ([], z)
  | [] => ([], [])
  end.
(** the text up to the matching parenthesis and the text after it *)
Fixpoint find_close (n : nat) (z : str) : option (str * str) :=
  match z with
  | [] => None
  | c :: z' =>
      if c =? 41 then
        match n with
        | S (S _ as n') => (λ p, (c :: p.1, p.2)) <$> find_close n' z'
        | _ => Some ([], z')
        end
      else (λ p, (c :: p.1, p.2)) <$> find_close (if c =? 40 then S n else n) z'
  end.

(** the loop of [eval_preprocessor_boolean] at the text [z] of position [i]; a
    syntax error at [i] is the result [-(i+1)] *)
Fixpoint eval_loop (fuel : nat) (z : str) (i : Z) (neg : bool) (r : Z) (okTerm : bool) : res Z :=
  match fuel with
  | O => Err OutOfFuel
  | S fuel =>
      let err i := Ok (- (i + 1)) in
      let term neg r := if (neg : bool) then (if r =? 0 then 1 else 0) else r in
      match z with
      | [] => Ok r
      | c :: z' =>
          if ISSPACE c then eval_loop fuel z' (i + 1) neg r okTerm
          else if c =? 33 then
            if okTerm then eval_loop fuel z' (i + 1) (negb neg) r okTerm else err i
          else if (c =? 124) && (hd 0 z' =? 124) then
            if okTerm then err i
            else if negb (r =? 0) then Ok 1
            else eval_loop fuel (tl z') (i + 2) neg r true
          else if (c =? 38) && (hd 0 z' =? 38) then
            if okTerm then err i
            else if r =? 0 then Ok 0
            else eval_loop fuel (tl z') (i + 2) neg r true
          else if c =? 40 then
            if okTerm then
              match find_close 1 z' with
              | Some (inner, after) =>
                  r ← eval_loop fuel inner 0 false 0 true;
                  if r <? 0 then err (i - r)
                  else eval_loop fuel after (i + 2 + zlen inner) false (term neg r) false
              | None => eval_loop fuel z' (i + 1) false (term neg r) false
              end
            else err i
          else if ISALPHA c then
            if okTerm then
              let '(name, after) := span_name z' in
              let r := if bool_decide (c :: name ∈ azDefine) then 1 else 0 in
              eval_loop fuel after (i + 1 + zlen name) false (term neg r) false
            else err i
          else err i
      end
  end.

Definition eval_preprocessor_boolean (z : str) (lineno : Z) : res Z :=
  r ← eval_loop (S (length z)) z 0 false 0 true;
  if (r <? 0) && (0 <? lineno) then Err ExitCalled else Ok r.

(** *** Enough fuel *)

Lemma span_name_length z : (length (span_name z).1 + length (span_name z).2 = length z)%nat.
Proof. induction z as [|c z IH]; [done|]. cbn. destruct (id_char c); [|done]. destruct (span_name z). cbn in *. lia. Qed.
Lemma find_close_length z : ∀ n a b, find_close n z = Some (a, b) → (length a + length b < length z)%nat.
Proof.
  induction z as [|c z IH]; intros n a b H; [done|]. cbn [find_close] in H.
  assert (∀ m, (λ p, (c :: p.1, p.2)) <$> find_close m z = Some (a, b) → (length a + length b < length (c :: z))%nat) as Hgo.
  { intros m Hm. apply fmap_Some in Hm as ([x y]&Hm&[= -> ->]). apply IH in Hm. cbn. lia. }
  destruct (c =? 41); [|by eapply Hgo]. destruct n as [|[|n]]; [..|by eapply Hgo]; injection H as <- <-; cbn; lia.
Qed.

Lemma eval_loop_fuel f : ∀ f' z i neg r ok,
  (length z < f)%nat → (length z < f')%nat → eval_loop f z i neg r ok = eval_loop f' z i neg r ok.
Proof.
  induction f as [|f IH]; intros [|f'] z i neg r ok Hf Hf'; [lia..|]. cbn [eval_loop].
  destruct z as [|c z]; [done|]. cbn [length] in *.
  assert (length (tl z) ≤ length z)%nat by (destruct z; cbn; lia).
  repeat match goal with |- (if ?b then _ else _) = _ => destruct b; try done end; try (apply IH; lia).
  - destruct (find_close 1 z) as [[a b]|] eqn:E; [|apply IH; lia]. apply find_close_length in E.
    rewrite (IH f' a) by lia. destruct (eval_loop f' a _ _ _ _) as [v|]; [|done]. cbn. destruct (v <? 0); [done|]. apply IH; lia.
  - pose proof (span_name_length z). destruct (span_name z) as [a b]. cbn in *. apply IH; lia.
Qed.

(** the loop always ends *)
Lemma eval_loop_total f : ∀ z i neg r ok, (length z < f)%nat → is_Ok (eval_loop f z i neg r ok).
Proof.
  induction f as [|f IH]; intros z i neg r ok Hf; [lia|]. cbn [eval_loop].
  destruct z as [|c z]; [by eexists|]. cbn [length] in *.
  assert (length (tl z) ≤ length z)%nat by (destruct z; cbn; lia).
  repeat match goal with |- is_Ok (if ?b then _ else _) => destruct b; try (by eexists) end; try (apply IH; lia).
  - destruct (find_close 1 z) as [[a b]|] eqn:E; [|apply IH; lia]. apply find_close_length in E.
    destruct (IH a 0 false 0 true) as [v ->]; [lia|]. cbn. destruct (v <? 0); [by eexists|]. apply IH; lia.
  - pose proof (span_name_length z). destruct (span_name z) as [a b]. cbn in *. apply IH; lia.
Qed.

(** *** Expressions and what they mean: the operators associate to the right and
    have equal precedence *)

Inductive bterm := BName (s : str) | BNot (t : bterm) | BParen (e : bexpr)
with bexpr := BTerm (t : bterm) | BOr (t : bterm) (e : bexpr) | BAnd (t : bterm) (e : bexpr).
Scheme bterm_mut := Induction for bterm Sort Prop with bexpr_mut := Induction for bexpr Sort Prop.
Combined Scheme bexpr_ind2 from bterm_mut, bexpr_mut.

Fixpoint denote_t (t : bterm) : bool :=
  match t with
  | BName s => bool_decide (s ∈ azDefine)
  | BNot t => negb (denote_t t)
  | BParen e => denote e
  end
with denote (e : bexpr) : bool :=
  match e with
  | BTerm t => denote_t t
  | BOr t e => denote_t t || denote e
  | BAnd t e => denote_t t && denote e
  end.
Fixpoint print_t (t : bterm) : str :=
  match t with
  | BName s => s
  | BNot t => 33 :: print_t t
  | BParen e => 40 :: print_e e ++ [41]
  end
with print_e (e : bexpr) : str :=
  match e with
  | BTerm t => print_t t
  | BOr t e => print_t t ++ [32; 124; 124; 32] ++ print_e e
  | BAnd t e => print_t t ++ [32; 38; 38; 32] ++ print_e e
  end.
Definition name_ok (s : str) : Prop := ∃ c s', s = c :: s' ∧ ISALPHA c = true ∧ Forall (λ d, id_char d = true) s'.
Fixpoint term_ok (t : bterm) : Prop :=
  match t with BName s => name_ok s | BNot t => term_ok t | BParen e => expr_ok e end
with expr_ok (e : bexpr) : Prop :=
  match e with BTerm t => term_ok t | BOr t e | BAnd t e => term_ok t ∧ expr_ok e end.

Definition balanced (w : str) : Prop :=
  ∀ n z, find_close (S n) (w ++ z) = (λ p, (w ++ p.1, p.2)) <$> find_close (S n) z.
Lemma balanced_app v w : balanced v → balanced w → balanced (v ++ w).
Proof.
  intros Hv Hw n z. rewrite <- app_assoc, Hv, Hw. destruct (find_close (S n) z) as [[a b]|]; [|done].
  cbn. by rewrite app_assoc.
Qed.
Lemma balanced_plain w : Forall (λ c, c ≠ 40 ∧ c ≠ 41) w → balanced w.
Proof.
  intros Hw n z. induction Hw as [|c w [H1 H2] Hw IH]; cbn [app find_close].
  - destruct (find_close (S n) z) as [[a b]|]; done.
  - rewrite (proj2 (Z.eqb_neq c 41)), (proj2 (Z.eqb_neq c 40)) by done. rewrite IH.
    by destruct (find_close (S n) z) as [[a b]|].
Qed.
Lemma balanced_paren w : balanced w → balanced (40 :: w ++ [41]).
Proof.
  intros Hw n z. cbn [app find_close]. change (40 =? 41) with false. change (40 =? 40) with true. cbn match.
  rewrite <- app_assoc, Hw. cbn [app find_close]. change (41 =? 41) with true. cbn match.
  destruct (find_close (S n) z) as [[a b]|]; [|done]. cbn. by rewrite <- app_assoc.
Qed.
Lemma id_char_plain c : id_char c = true → c ≠ 40 ∧ c ≠ 41 ∧ c ≠ 33.
Proof. intros H. repeat split; intros ->; vm_compute in H; discriminate. Qed.
Lemma print_balanced : (∀ t, term_ok t → balanced (print_t t)) ∧ (∀ e, expr_ok e → balanced (print_e e)).
Proof.
  apply bexpr_ind2; cbn [term_ok expr_ok print_t print_e].
  - intros s (c&s'&->&Hc&Hs). apply balanced_plain. constructor.
    + destruct (id_char_plain c) as (?&?&_); [unfold id_char, ISALNUM; by rewrite Hc|done].
    + eapply Forall_impl; [exact Hs|]. intros d (?&?&_)%id_char_plain. done.
  - intros t IH Ht. apply (balanced_app [33]); [apply balanced_plain; repeat constructor; done|auto].
  - intros e IH He. apply balanced_paren. auto.
  - auto.
  - intros t IHt e IHe [Ht He]. repeat apply balanced_app; auto. apply balanced_plain. repeat constructor; done.
  - intros t IHt e IHe [Ht He]. repeat apply balanced_app; auto. apply balanced_plain. repeat constructor; done.
Qed.

Notation ev z := (eval_loop (S (length z)) z).
Notation b2z b := (if (b : bool) then 1 else 0).

(** one step of the loop on the left of an equation *)
Ltac eval_step := match goal with |- _ = ?R => let rhs := fresh "rhs" in set (rhs := R) end; cbn [eval_loop].

Lemma span_name_app s z :
  Forall (λ d, id_char d = true) s → id_char (hd 0 z) = false → span_name (s ++ z) = (s, z).
Proof.
  intros Hs Hz. induction Hs as [|c s Hc Hs IH]; cbn [app span_name].
  - destruct z as [|c z]; [done|]. cbn in *. by rewrite Hz.
  - by rewrite Hc, IH.
Qed.

Lemma ev_space z i neg r ok : ev (32 :: z) i neg r ok = ev z (i + 1) neg r ok.
Proof. eval_step. change (ISSPACE 32) with true. cbn match. subst rhs. apply eval_loop_fuel; cbn; lia. Qed.

Lemma alpha_facts c : ISALPHA c = true →
  ISSPACE c = false ∧ (c =? 33) = false ∧ (c =? 124) = false ∧ (c =? 38) = false ∧ (c =? 40) = false.
Proof.
  unfold ISALPHA, ISUPPER, ISLOWER, ISSPACE. intros H.
  rewrite orb_true_iff, !andb_true_iff, !Z.leb_le in H. repeat split; lia.
Qed.

Lemma ev_name s z i neg r :
  name_ok s → id_char (hd 0 z) = false →
  ev (s ++ z) i neg r true = ev z (i + zlen s) false (b2z (xorb neg (bool_decide (s ∈ azDefine)))) false.
Proof.
  intros (c&s'&->&Hc&Hs) Hz. destruct (alpha_facts c Hc) as (E1&E2&E3&E4&E5).
  change ((c :: s') ++ z) with (c :: (s' ++ z)). eval_step.
  rewrite E1, E2, E3, E4, E5, Hc. cbn [andb]. rewrite (span_name_app _ _ Hs Hz).
  subst rhs. assert (zlen (c :: s') = 1 + zlen s') as -> by (unfold zlen; cbn [length]; lia). rewrite Z.add_assoc.
  replace (if neg then _ else _) with (b2z (xorb neg (bool_decide (c :: s' ∈ azDefine)))) by (by destruct neg, (bool_decide _)).
  apply eval_loop_fuel; cbn [length]; rewrite ?length_app; lia.
Qed.

Lemma eval_printed :
  (∀ t, term_ok t → ∀ z i neg r, id_char (hd 0 z) = false →
     ev (print_t t ++ z) i neg r true = ev z (i + zlen (print_t t)) false (b2z (xorb neg (denote_t t))) false) ∧
  (∀ e, expr_ok e → ∀ i r, ev (print_e e) i false r true = Ok (b2z (denote e))).
Proof.
  apply bexpr_ind2; cbn [term_ok expr_ok print_t print_e denote_t denote].
  - intros s Hs z i neg r Hz. by apply ev_name.
  - intros t IH Ht z i neg r Hz. cbn [app]. eval_step. change (ISSPACE 33) with false. change (33 =? 33) with true.
    cbn match. rewrite (eval_loop_fuel _ (S (length (print_t t ++ z)))) by (cbn; lia).
    rewrite IH by done. subst rhs. f_equal; [unfold zlen; cbn [length]; lia|]. by destruct neg, (denote_t t).
  - intros e IH He z i neg r Hz. cbn [app]. rewrite <- app_assoc. eval_step.
    change (ISSPACE 40) with false. change (40 =? 33) with false. change (40 =? 124) with false.
    change (40 =? 38) with false. change (40 =? 40) with true. cbn [andb]. cbn match.
    rewrite (proj2 print_balanced e He). cbn [app find_close]. change (41 =? 41) with true. cbn [fmap option_fmap option_map fst snd].
    rewrite app_nil_r. rewrite (eval_loop_fuel _ (S (length (print_e e)))) by (rewrite ?length_app; cbn [length]; rewrite ?length_app; cbn; lia).
    rewrite IH by done. subst rhs. cbn [mbind res_bind].
    destruct (denote e); cbn match;
      (rewrite (eval_loop_fuel _ (S (length z))) by (cbn [length]; rewrite ?length_app; cbn [length]; lia));
      f_equal; try (unfold zlen; cbn [length]; rewrite length_app; cbn [length]; lia); by destruct neg.
  - intros t IH Ht i r. rewrite <- (app_nil_r (print_t t)). rewrite IH by done. cbn. by destruct (denote_t t).
  - intros t IHt e IHe [Ht He] i r. rewrite IHt by done. cbn [app]. rewrite ev_space. eval_step.
    change (ISSPACE 124) with false. change (124 =? 33) with false. change (124 =? 124) with true. cbn [andb hd tl].
    change (124 =? 124) with true. cbn match. subst rhs. destruct (denote_t t); cbn [xorb orb]; [done|].
    change (negb (0 =? 0)) with false. cbn match. rewrite (eval_loop_fuel _ (S (length (32 :: print_e e)))) by (cbn; lia).
    rewrite ev_space. by apply IHe.
  - intros t IHt e IHe [Ht He] i r. rewrite IHt by done. cbn [app]. rewrite ev_space. eval_step.
    change (ISSPACE 38) with false. change (38 =? 33) with false. change (38 =? 124) with false. change (38 =? 38) with true.
    cbn [andb hd tl]. change (38 =? 38) with true. cbn match. subst rhs. destruct (denote_t t); cbn [xorb andb]; [|done].
    change (1 =? 0) with false. cbn match. rewrite (eval_loop_fuel _ (S (length (32 :: print_e e)))) by (cbn; lia).
    rewrite ev_space. by apply IHe.
Qed.

(** Preprocessor expressions: on every well-formed expression of names, "!",
    parentheses, "||" and "&&" the evaluator returns its truth value, where the
    two operators have the same precedence and associate to the right, a name is
    true when it is among the macros; on any text at all it ends. *)
Theorem eval_preprocessor_correct :
  (∀ e lineno, expr_ok e → eval_preprocessor_boolean (print_e e) lineno = Ok (if denote e then 1 else 0)) ∧
  (∀ z lineno, eval_preprocessor_boolean z lineno ≠ Err OutOfFuel).
Proof.
  split.
  - intros e lineno He. unfold eval_preprocessor_boolean. rewrite (proj2 eval_printed e He). cbn [mbind res_bind].
    by destruct (denote e).
  - intros z lineno. unfold eval_preprocessor_boolean.
    destruct (eval_loop_total (S (length z)) z 0 false 0 true) as [v ->]; [lia|]. cbn. by destruct (_ && _).
Qed.
End Eval.

(** "!A && (B || A)" with A undefined and B defined *)
Lemma eval_preprocessor_correct_witness :
  eval_preprocessor_boolean [[66]] [33; 65; 32; 38; 38; 32; 40; 66; 32; 124; 124; 32; 65; 41] 1 = Ok 1.
Proof.
  apply (proj1 (eval_preprocessor_correct [[66]]) (BAnd (BNot (BName [65])) (BTerm (BParen (BOr (BName [66]) (BTerm (BName [65]))))))).
  repeat split; eexists _, _; (split; [reflexivity|]); split; [reflexivity|constructor| reflexivity|constructor|reflexivity|constructor].
Defined.

(** An unmatched parenthesis is not reported: the branch meant to catch it
    tests for the NUL the loop has already stopped at, so "!(" counts as true. *)
Theorem unmatched_paren_accepted azDefine lineno : eval_preprocessor_boolean azDefine [33; 40] lineno = Ok 1.
Proof. reflexivity. Qed.

(** ** Directives *)

Section Directives.
Context (azDefine : list str).

Record pp := mkPP { pp_z : str; pp_exclude : Z; pp_start : nat; pp_lineno : Z; pp_start_lineno : Z }.

Definition at_ (z : str) (i : nat) : Z := default 0 (z !! i).
(** [strncmp(&z[i],p,n)==0] for the [n] characters of [p] *)
Definition prefix_at (p z : str) (i : nat) : bool := bool_decide (take (length p) (drop i z) = p).
(** [for(j=a; j<b; j++) if( z[j]!='\n' ) z[j] = ' '] *)
Definition blank (a b : nat) (z : str) : str :=
  imap (λ j c, if bool_decide (a ≤ j < b)%nat && negb (c =? 10) then 32 else c) z.
(** the end of the line position [i] is in *)
Fixpoint line_length (z : str) : nat :=
  match z with
  | [] => 0
  | c :: z => if c =? 10 then 0 else S (line_length z)
  end.
Definition line_end (z : str) (i : nat) : nat := (i + line_length (drop i z))%nat.
(** [for(j=i; z[j] && !ISSPACE(z[j]); j++)] *)
Fixpoint word_length (z : str) : nat :=
  match z with
  | [] => 0
  | c :: z => if ISSPACE c then 0 else S (word_length z)
  end.

Definition s_endif : str := [37; 101; 110; 100; 105; 102].
Definition s_else : str := [37; 101; 108; 115; 101].
Definition s_ifdef : str := [37; 105; 102; 100; 101; 102; 32].
Definition s_if : str := [37; 105; 102; 32].
Definition s_ifndef : str := [37; 105; 102; 110; 100; 101; 102; 32].

(** the body of the loop *)
Definition pp_step (i : nat) (st : pp) : res pp :=
  let z := pp_z st in
  let lineno := if at_ z i =? 10 then pp_lineno st + 1 else pp_lineno st in
  let exclude := pp_exclude st in
  let skip := mkPP z exclude (pp_start st) lineno (pp_start_lineno st) in
  if negb (at_ z i =? 37) || (bool_decide (0 < i)%nat && negb (at_ z (i - 1) =? 10)) then Ok skip
  else if prefix_at s_endif z i && ISSPACE (at_ z (i + 6)) then
    let '(exclude', z) :=
      if negb (exclude =? 0) then
        (exclude - 1, if exclude - 1 =? 0 then blank (pp_start st) i z else z)
      else (exclude, z) in
    Ok (mkPP (blank i (line_end z i) z) exclude' (pp_start st) lineno (pp_start_lineno st))
  else if prefix_at s_else z i && ISSPACE (at_ z (i + 5)) then
    let '(exclude', start, start_lineno, z) :=
      if exclude =? 1 then (0, pp_start st, pp_start_lineno st, blank (pp_start st) i z)
      else if exclude =? 0 then (1, i, lineno, z)
      else (exclude, pp_start st, pp_start_lineno st, z) in
    Ok (mkPP (blank i (line_end z i) z) exclude' start lineno start_lineno)
  else if prefix_at s_ifdef z i || prefix_at s_if z i || prefix_at s_ifndef z i then
    let* (exclude', start, start_lineno) :=
      if negb (exclude =? 0) then Ok (exclude + 1, pp_start st, pp_start_lineno st)
      else
        let iBool := (i + word_length (drop i z))%nat in
        let isNot := bool_decide (iBool = i + 7)%nat in
        r ← eval_preprocessor_boolean azDefine (take (line_end z iBool - iBool) (drop iBool z)) lineno;
        let exclude' := if isNot then r else if r =? 0 then 1 else 0 in
        Ok (if negb (exclude' =? 0) then (exclude', i, lineno) else (exclude', pp_start st, pp_start_lineno st)) in
    Ok (mkPP (blank i (line_end z i) z) exclude' start lineno start_lineno)
  else Ok skip.

Fixpoint pp_loop (n i : nat) (st : pp) : res pp :=
  match n with
  | O => Ok st
  | S n => st ← pp_step i st; pp_loop n (S i) st
  end.
Definition preprocess_input (z : str) : res str :=
  st ← pp_loop (length z) 0 (mkPP z 0 0 1 1);
  if negb (pp_exclude st =? 0) then Err ExitCalled else Ok (pp_z st).

(** a text with characters other than newlines turned into spaces *)
Definition blanked (z z' : str) : Prop := Forall2 (λ c c', c' = c ∨ c ≠ 10 ∧ c' = 32) z z'.

Lemma blanked_trans a b c : blanked a b → blanked b c → blanked a c.
Proof. apply Forall2_trans. naive_solver. Qed.
Lemma blank_blanked a b z : blanked z (blank a b z).
Proof.
  unfold blanked, blank. apply Forall2_same_length_lookup_2; [by rewrite length_imap|].
  intros i c c' Hc Hc'. rewrite list_lookup_imap, Hc in Hc'. injection Hc' as <-.
  destruct (bool_decide _); [|by left]. destruct (Z.eqb_spec c 10); [by left|by right].
Qed.
Lemma blanked_refl z : blanked z z.
Proof. apply Forall_Forall2_diag, Forall_true. auto. Qed.

Lemma eval_res z lineno : (∃ r, eval_preprocessor_boolean azDefine z lineno = Ok r) ∨ eval_preprocessor_boolean azDefine z lineno = Err ExitCalled.
Proof.
  unfold eval_preprocessor_boolean. destruct (eval_loop_total azDefine (S (length z)) z 0 false 0 true) as [v ->]; [lia|].
  cbn. destruct (_ && _); [by right|left; by eexists].
Qed.

Lemma pp_step_blanked i st :
  (∃ st', pp_step i st = Ok st' ∧ blanked (pp_z st) (pp_z st')) ∨ pp_step i st = Err ExitCalled.
Proof.
  pose proof (λ a b, blank_blanked a b (pp_z st)) as Hb.
  assert (∀ a b c d, blanked (pp_z st) (blank a b (blank c d (pp_z st)))) as Hbb
    by (intros; eapply blanked_trans; [apply Hb|apply blank_blanked]).
  unfold pp_step. destruct (_ || _); [left; eexists; split; [done|apply blanked_refl]|].
  destruct (_ && _).
  { left. destruct (negb _); [destruct (_ =? 0)|]; (eexists; split; [done|]); [apply Hbb|apply Hb|apply Hb]. }
  destruct (_ && _).
  { left. destruct (_ =? 1); [|destruct (_ =? 0)]; (eexists; split; [done|]); [apply Hbb|apply Hb|apply Hb]. }
  destruct (_ || _); [|left; eexists; split; [done|apply blanked_refl]].
  destruct (negb _); [left; eexists; split; [done|apply Hb]|].
  match goal with |- context [eval_preprocessor_boolean azDefine ?z ?n] => destruct (eval_res z n) as [[r ->]| ->] end;
    [|by right].
  left. cbn [mbind res_bind]. destruct (negb _); eexists; (split; [done|apply Hb]).
Qed.

Lemma preprocess_blanked z :
  (∃ z', preprocess_input z = Ok z' ∧ blanked z z') ∨ preprocess_input z = Err ExitCalled.
Proof.
  assert (∀ n i st, (∃ st', pp_loop n i st = Ok st' ∧ blanked (pp_z st) (pp_z st')) ∨ pp_loop n i st = Err ExitCalled) as Hl.
  { induction n as [|n IH]; intros i st; [left; exists st; split; [done|apply blanked_refl]|]. cbn [pp_loop].
    destruct (pp_step_blanked i st) as [(st1&->&H1)| ->]; [|by right]. cbn [mbind res_bind].
    destruct (IH (S i) st1) as [(st2&->&H2)| ->]; [|by right]. left. exists st2. split; [done|]. by eapply blanked_trans. }
  unfold preprocess_input. destruct (Hl (length z) 0%nat (mkPP z 0 0 1 1)) as [(st&->&Hb)| ->]; [|by right].
  cbn [mbind res_bind]. destruct (negb _); [by right|]. left. by eexists.
Qed.

(** Preprocessing keeps the shape of the text: it either stops with a message
    (a syntax error in a condition, or a conditional left open) or returns a text of
    the same length in which every character is as before or was turned from
    something other than a newline into a space, so line numbers and columns of
    what remains are those of the file. *)
Theorem preprocess_keeps_lines z :
  (∃ z', preprocess_input z = Ok z' ∧ length z' = length z ∧
     ∀ j c, z !! j = Some c → z' !! j = Some c ∨ c ≠ 10 ∧ z' !! j = Some 32) ∨
  preprocess_input z = Err ExitCalled.
Proof.
  destruct (preprocess_blanked z) as [(z'&->&Hb)| ->]; [|by right]. left. eexists. split; [done|].
  split; [by rewrite <- (Forall2_length _ _ _ Hb)|]. intros j c Hj.
  destruct (Forall2_lookup_l _ _ _ _ _ Hb Hj) as (c'&Hj'&[->|[? ->]]); rewrite Hj'; auto.
Qed.
(** *** A text without directives *)

Definition is_directive (z : str) : bool :=
  prefix_at s_endif z 0 && ISSPACE (at_ z 6) || prefix_at s_else z 0 && ISSPACE (at_ z 5) ||
  (prefix_at s_ifdef z 0 || prefix_at s_if z 0 || prefix_at s_ifndef z 0).
(** no line begins with one; [bol] says that the text begins a line *)
Fixpoint no_directive (bol : bool) (z : str) : bool :=
  match z with
  | [] => true
  | c :: z' => negb (bol && (c =? 37) && is_directive z) && no_directive (c =? 10) z'
  end.
Lemma at_app pre z k : at_ (pre ++ z) (length pre + k) = at_ z k.
Proof. unfold at_. rewrite lookup_app_r by lia. f_equal. f_equal. lia. Qed.
Lemma at_mid pre c z : at_ (pre ++ c :: z) (length pre) = c.
Proof. unfold at_. by rewrite list_lookup_middle. Qed.
Lemma prefix_at_app p pre z : prefix_at p (pre ++ z) (length pre) = prefix_at p z 0.
Proof. unfold prefix_at. by rewrite drop_app_length, drop_0. Qed.
Lemma pp_loop_plain z : ∀ pre lineno s n, no_directive (bool_decide (pre = []) || (at_ pre (length pre - 1) =? 10)) z = true →
  ∃ lineno', pp_loop (length z) (length pre) (mkPP (pre ++ z) 0 s lineno n) = Ok (mkPP (pre ++ z) 0 s lineno' n).
Proof.
  induction z as [|c z IH]; intros pre lineno s n H; [by eexists|]. cbn [no_directive] in H. apply andb_prop in H as [Hd H]. cbn [length pp_loop].
  unfold pp_step. cbn [pp_z pp_exclude pp_start pp_lineno pp_start_lineno]. rewrite !prefix_at_app, !at_app, !at_mid.
  set (lineno1 := if c =? 10 then _ else _).
  assert (∃ lineno', pp_loop (length z) (S (length pre)) (mkPP (pre ++ c :: z) 0 s lineno1 n) = Ok (mkPP (pre ++ c :: z) 0 s lineno' n)) as (l'&Hl).
  { specialize (IH (pre ++ [c]) lineno1 s n). rewrite length_app, <- app_assoc in IH. cbn [length app] in IH. rewrite Nat.add_1_r in IH. apply IH.
    rewrite bool_decide_false by (by destruct pre). cbn [orb]. replace (S (length pre) - 1)%nat with (length pre) by lia. by rewrite at_mid. }
  assert ((at_ (pre ++ c :: z) (length pre - 1) =? 10) = (at_ pre (length pre - 1) =? 10) ∨ pre = []) as Hp.
  { destruct pre as [|x pre]; [by right|left]. unfold at_. rewrite lookup_app_l; [done|cbn; lia]. }
  destruct (negb (c =? 37) || (bool_decide (0 < length pre)%nat && negb (at_ (pre ++ c :: z) (length pre - 1) =? 10))) eqn:Es.
  { cbn [mbind res_bind]. by exists l'. }
  apply orb_false_iff in Es as [E1 E2]. apply negb_false_iff in E1.
  assert (is_directive (c :: z) = false) as Hn.
  { apply negb_true_iff in Hd. rewrite E1, andb_true_r in Hd. apply andb_false_iff in Hd as [Hd|Hd]; [|done]. exfalso.
    apply orb_false_iff in Hd as [H1 H2]. destruct Hp as [Hp| ->]; [|done]. rewrite Hp, H2 in E2. cbn [negb] in E2. rewrite andb_true_r in E2.
    apply bool_decide_eq_false_1 in E2, H1. destruct pre; [done|cbn in E2; lia]. }
  unfold is_directive in Hn. apply orb_false_iff in Hn as [[H1 H2]%orb_false_iff H3]. rewrite H1, H2, H3. cbn [mbind res_bind]. by exists l'.
Qed.
Lemma preprocess_same z : no_directive true z = true → preprocess_input z = Ok z.
Proof.
  intros H. destruct (pp_loop_plain z [] 1 0%nat 1 H) as (l&Hl). unfold preprocess_input. cbn [app length] in Hl. by rewrite Hl.
Qed.
End Directives.
