(* ===== verification/LemonRead.v ===== *)
(** The reader of grammar files ([src/sql/lemon.c], "parse.c"): the state machine
    [parseonetoken] that is given the tokens of the file one by one and builds the
    symbols, the rules and the declarations. [ErrorMsg] prints and is counted by
    its callers; where a pointer it prints may be null, that is a fault. The arrays [rhs] and [alias] of the state are a list of pairs,
    whose length is [nrhs]; the rules from [firstrule] on along [next] are a list. *)
From Stdlib Require Import Ascii String.
From stdpp Require Import functions.
From S2P Require Import Prelude LemonTable LemonPrintf LemonData LemonFirst LemonSymbol LemonPreproc.

(** the characters of a literal *)
Definition lit (s : string) : list Z := (λ c, Z.of_N (N_of_ascii c)) <$> list_ascii_of_string s.
Arguments lit _%_string_scope.

(** ** Fields of symbols and rules *)

Definition sp_set (type : symbol_type) (rule : list nat) (fallback : option nat) (prec : Z) (assoc : e_assoc) (destructor : option str) (destLineno : Z)
    (datatype : option str) (bContent : bool) (subsym : list nat) (s : symbol) : symbol :=
  mkSymbol (sp_name s) (sp_index s) type rule fallback prec assoc (sp_firstset s) (sp_lambda s) (sp_useCnt s) destructor destLineno datatype (sp_dtnum s) bContent subsym.
Definition set_type (t : symbol_type) (s : symbol) : symbol :=
  sp_set t (sp_rule s) (sp_fallback s) (sp_prec s) (sp_assoc s) (sp_destructor s) (sp_destLineno s) (sp_datatype s) (sp_bContent s) (sp_subsym s) s.
Definition set_rule (l : list nat) (s : symbol) : symbol :=
  sp_set (sp_type s) l (sp_fallback s) (sp_prec s) (sp_assoc s) (sp_destructor s) (sp_destLineno s) (sp_datatype s) (sp_bContent s) (sp_subsym s) s.
Definition set_fallback (f : option nat) (s : symbol) : symbol :=
  sp_set (sp_type s) (sp_rule s) f (sp_prec s) (sp_assoc s) (sp_destructor s) (sp_destLineno s) (sp_datatype s) (sp_bContent s) (sp_subsym s) s.
Definition set_prec (p : Z) (a : e_assoc) (s : symbol) : symbol :=
  sp_set (sp_type s) (sp_rule s) (sp_fallback s) p a (sp_destructor s) (sp_destLineno s) (sp_datatype s) (sp_bContent s) (sp_subsym s) s.
Definition set_destructor (d : option str) (s : symbol) : symbol :=
  sp_set (sp_type s) (sp_rule s) (sp_fallback s) (sp_prec s) (sp_assoc s) d (sp_destLineno s) (sp_datatype s) (sp_bContent s) (sp_subsym s) s.
Definition set_destLineno (n : Z) (s : symbol) : symbol :=
  sp_set (sp_type s) (sp_rule s) (sp_fallback s) (sp_prec s) (sp_assoc s) (sp_destructor s) n (sp_datatype s) (sp_bContent s) (sp_subsym s) s.
Definition set_datatype (d : option str) (s : symbol) : symbol :=
  sp_set (sp_type s) (sp_rule s) (sp_fallback s) (sp_prec s) (sp_assoc s) (sp_destructor s) (sp_destLineno s) d (sp_bContent s) (sp_subsym s) s.
Definition set_bContent (c : bool) (s : symbol) : symbol :=
  sp_set (sp_type s) (sp_rule s) (sp_fallback s) (sp_prec s) (sp_assoc s) (sp_destructor s) (sp_destLineno s) (sp_datatype s) c (sp_subsym s) s.
Definition set_subsym (l : list nat) (s : symbol) : symbol :=
  sp_set (sp_type s) (sp_rule s) (sp_fallback s) (sp_prec s) (sp_assoc s) (sp_destructor s) (sp_destLineno s) (sp_datatype s) (sp_bContent s) l s.

Definition set_code (line : Z) (code : option str) (noCode : bool) (r : rule) : rule :=
  mkRule (rp_lhs r) (rp_lhsalias r) (rp_lhsStart r) (rp_ruleline r) (rp_rhs r) (rp_rhsalias r) line code (rp_codePrefix r) (rp_codeSuffix r)
    (rp_precsym r) (rp_index r) (rp_iRule r) noCode (rp_codeEmitted r) (rp_canReduce r) (rp_doesReduce r) (rp_neverReduce r).
Definition set_neverReduce (r : rule) : rule :=
  mkRule (rp_lhs r) (rp_lhsalias r) (rp_lhsStart r) (rp_ruleline r) (rp_rhs r) (rp_rhsalias r) (rp_line r) (rp_code r) (rp_codePrefix r) (rp_codeSuffix r)
    (rp_precsym r) (rp_index r) (rp_iRule r) (rp_noCode r) (rp_codeEmitted r) (rp_canReduce r) (rp_doesReduce r) true.

(** ** The state *)

Inductive e_state :=
  | INITIALIZE | WAITING_FOR_DECL_OR_RULE | WAITING_FOR_DECL_KEYWORD | WAITING_FOR_DECL_ARG | WAITING_FOR_PRECEDENCE_SYMBOL
  | WAITING_FOR_ARROW | IN_RHS | LHS_ALIAS_1 | LHS_ALIAS_2 | LHS_ALIAS_3 | RHS_ALIAS_1 | RHS_ALIAS_2 | PRECEDENCE_MARK_1 | PRECEDENCE_MARK_2
  | RESYNC_AFTER_RULE_ERROR | RESYNC_AFTER_DECL_ERROR | WAITING_FOR_DESTRUCTOR_SYMBOL | WAITING_FOR_DATATYPE_SYMBOL | WAITING_FOR_FALLBACK_ID
  | WAITING_FOR_WILDCARD_ID | WAITING_FOR_CLASS_ID | WAITING_FOR_CLASS_TOKEN | WAITING_FOR_TOKEN_NAME.
#[global] Instance e_state_eq : EqDecision e_state.
Proof. solve_decision. Defined.

(** where the argument of a declaration goes: a text field of [struct lemon] or of a
    symbol *)
Inductive slot :=
  | S_name | S_include | S_extracode | S_tokendest | S_vardest | S_tokenprefix | S_error | S_accept | S_failure | S_overflow | S_arg | S_ctx
  | S_tokentype | S_vartype | S_stacksize | S_start | S_destructor (sp : nat) | S_datatype (sp : nat).
#[global] Instance slot_eq : EqDecision slot.
Proof. solve_decision. Defined.

(** what is built: the symbols, the rules and the fields of [struct lemon] *)
Record grammar := mkGrammar {
  g_tab : symtab;
  g_rules : list rule;
  g_list : list nat;
  g_nrule : Z;
  g_text : slot → option str;
  g_wildcard : option nat;
  g_has_fallback : bool;
}.
(** the rule that is being read *)
Record parts := mkParts { lhs : option nat; lhsalias : option str; rhs : list (nat * option str) }.
(** the declaration that is being read; [decllinenoslot] is the symbol whose
    [destLineno] it points to *)
Record decl := mkDecl {
  fallback : option nat;
  tkclass : option nat;
  declkeyword : option str;
  declargslot : option slot;
  insertLineMacro : bool;
  decllinenoslot : option nat;
  declassoc : e_assoc;
  preccounter : Z;
}.
Record pstate := mkPstate {
  ps_state : e_state;
  errorcnt : Z;
  prevrule : option nat;
  ps_rule : parts;
  ps_decl : decl;
  ps_gp : grammar;
}.
Implicit Types (p : pstate) (g : grammar).

Definition MAXRHS : Z := 1000.

Definition upd_tab (t : symtab) g : grammar := mkGrammar t (g_rules g) (g_list g) (g_nrule g) (g_text g) (g_wildcard g) (g_has_fallback g).
Definition upd_sym (f : symbol → symbol) (sp : nat) g : grammar :=
  upd_tab (mkSymtab (alter f sp (sy_heap (g_tab g))) (x2a (g_tab g)) (sy_str (g_tab g))) g.
Definition upd_rule (f : rule → rule) (rp : nat) g : grammar :=
  mkGrammar (g_tab g) (alter f rp (g_rules g)) (g_list g) (g_nrule g) (g_text g) (g_wildcard g) (g_has_fallback g).
Definition upd_text (s : slot) (v : option str) g : grammar :=
  mkGrammar (g_tab g) (g_rules g) (g_list g) (g_nrule g) (<[s := v]> (g_text g)) (g_wildcard g) (g_has_fallback g).

Definition go (s : e_state) p : pstate := mkPstate s (errorcnt p) (prevrule p) (ps_rule p) (ps_decl p) (ps_gp p).
(** an error message *)
Definition error p : pstate := mkPstate (ps_state p) (errorcnt p + 1) (prevrule p) (ps_rule p) (ps_decl p) (ps_gp p).
Definition with_rule (r : parts) p : pstate := mkPstate (ps_state p) (errorcnt p) (prevrule p) r (ps_decl p) (ps_gp p).
Definition with_decl (d : decl) p : pstate := mkPstate (ps_state p) (errorcnt p) (prevrule p) (ps_rule p) d (ps_gp p).
Definition with_gp (g : grammar) p : pstate := mkPstate (ps_state p) (errorcnt p) (prevrule p) (ps_rule p) (ps_decl p) g.
Definition with_prev (r : option nat) p : pstate := mkPstate (ps_state p) (errorcnt p) r (ps_rule p) (ps_decl p) (ps_gp p).

Definition upd_slot (s : option slot) (line : bool) (no : option nat) (d : decl) : decl :=
  mkDecl (fallback d) (tkclass d) (declkeyword d) s line no (declassoc d) (preccounter d).

(** the symbols and rules at a pointer *)
Definition the_sym p (sp : nat) : symbol := sym (sy_heap (g_tab (ps_gp p))) sp.
Definition the_rule p (rp : nat) : rule := rul (g_rules (ps_gp p)) rp.

(** [x[i]]: NUL at the end *)
Definition chr (x : cstr) (i : nat) : Z := default 0 (cs x !! i).
Lemma cstring_drop n s : bool_decide (cstring s) → bool_decide (cstring (drop n s)).
Proof. rewrite !bool_decide_spec. apply Forall_drop. Qed.
(** [&x[n]] *)
Definition cs_drop (n : nat) (x : cstr) : cstr := drop n (cs x) ↾ cstring_drop n (cs x) (proj2_sig x).
Definition is_arrow (x : cstr) : bool := (chr x 0 =? 58) && (chr x 1 =? 58) && (chr x 2 =? 61).

Section Reader.
(** what the allocator returns, the name of the file and the command line option [-l] *)
Context (calloc_ok : Z → bool) (malloc_ok : bool) (rule_ok : bool) (filename : str) (nolinenosflag : bool).

(** [Symbol_new] in the grammar of the state *)
Definition get_sym (x : cstr) p : res (nat * pstate) :=
  let* (sp, t) := Symbol_new calloc_ok malloc_ok x (g_tab (ps_gp p)) in
  Ok (sp, with_gp (upd_tab t (ps_gp p)) p).
Definition find_sym (x : cstr) p : res (option nat) := Symbol_find (g_tab (ps_gp p)) x.
Definition on_sym (f : symbol → symbol) (sp : nat) p : pstate := with_gp (upd_sym f sp (ps_gp p)) p.
Definition on_rule (f : rule → rule) (rp : nat) p : pstate := with_gp (upd_rule f rp (ps_gp p)) p.

(** ** Rules *)

Definition initialize p : pstate :=
  let d := ps_decl p in let g := ps_gp p in
  mkPstate (ps_state p) (errorcnt p) None (ps_rule p)
    (mkDecl (fallback d) (tkclass d) (declkeyword d) (declargslot d) (insertLineMacro d) (decllinenoslot d) (declassoc d) 0)
    (mkGrammar (g_tab g) (g_rules g) [] 0 (g_text g) (g_wildcard g) (g_has_fallback g)).

(** a code fragment after a rule *)
Definition code_fragment (x : cstr) (lineno : Z) p : pstate :=
  match prevrule p with
  | None => error p
  | Some rp =>
      if rp_code (the_rule p rp) is Some _ then error p
      else if decide (cs x = lit "{NEVER-REDUCE") then on_rule set_neverReduce rp p
      else on_rule (set_code lineno (Some (drop 1 (cs x))) false) rp p
  end.
Definition decl_or_rule (x : cstr) (lineno : Z) p : res pstate :=
  if chr x 0 =? 37 then Ok (go WAITING_FOR_DECL_KEYWORD p)
  else if ISLOWER (chr x 0) then
    let* (sp, p) := get_sym x p in
    Ok (go WAITING_FOR_ARROW (with_rule (mkParts (Some sp) None []) p))
  else if chr x 0 =? 123 then Ok (code_fragment x lineno p)
  else if chr x 0 =? 91 then Ok (go PRECEDENCE_MARK_1 p)
  else Ok (error p).

Definition precedence_mark_1 (x : cstr) p : res pstate :=
  p ← (if negb (ISUPPER (chr x 0)) then Ok (error p)
       else match prevrule p with
            | None => Ok (error p)
            | Some rp =>
                if rp_precsym (the_rule p rp) is Some _ then Ok (error p)
                else let* (sp, p) := get_sym x p in Ok (on_rule (upd_precsym (Some sp)) rp p)
            end);
  Ok (go PRECEDENCE_MARK_2 p).
Definition precedence_mark_2 (x : cstr) p : pstate :=
  go WAITING_FOR_DECL_OR_RULE (if negb (chr x 0 =? 93) then error p else p).

Definition waiting_for_arrow (x : cstr) p : res pstate :=
  if is_arrow x then Ok (go IN_RHS p)
  else if chr x 0 =? 40 then Ok (go LHS_ALIAS_1 p)
  else _ ← of_opt NullDeref (lhs (ps_rule p)); Ok (go RESYNC_AFTER_RULE_ERROR (error p)).
Definition lhs_alias_1 (x : cstr) p : res pstate :=
  if ISALPHA (chr x 0) then
    let r := ps_rule p in Ok (go LHS_ALIAS_2 (with_rule (mkParts (lhs r) (Some (cs x)) (rhs r)) p))
  else _ ← of_opt NullDeref (lhs (ps_rule p)); Ok (go RESYNC_AFTER_RULE_ERROR (error p)).
Definition lhs_alias_2 (x : cstr) p : pstate :=
  if chr x 0 =? 41 then go LHS_ALIAS_3 p else go RESYNC_AFTER_RULE_ERROR (error p).
Definition lhs_alias_3 (x : cstr) p : res pstate :=
  if is_arrow x then Ok (go IN_RHS p)
  else _ ← of_opt NullDeref (lhs (ps_rule p)); Ok (go RESYNC_AFTER_RULE_ERROR (error p)).

(** symbols that carry an alias have content *)
Fixpoint mark_content (l : list (nat * option str)) p : pstate :=
  match l with
  | [] => p
  | (sp, None) :: l => mark_content l p
  | (sp, Some _) :: l => mark_content l (on_sym (set_bContent true) sp p)
  end.
(** the end of a rule *)
Definition finish_rule (lineno : Z) p : res pstate :=
  if negb rule_ok then Ok (with_prev None (error p))
  else
    let r := ps_rule p in
    let p := mark_content (rhs r) p in
    sp ← of_opt NullDeref (lhs r);
    let g := ps_gp p in
    let rp := length (g_rules g) in
    let new := mkRule sp (lhsalias r) false lineno (rhs r).*1 (rhs r).*2 0 None None None None (g_nrule g) 0 true false false false false in
    let g := mkGrammar (g_tab g) (g_rules g ++ [new]) (g_list g ++ [rp]) (g_nrule g + 1) (g_text g) (g_wildcard g) (g_has_fallback g) in
    let g := upd_sym (λ s, set_rule (rp :: sp_rule s) s) sp g in
    Ok (with_prev (Some rp) (with_gp g p)).

(** the symbol a compound starts from: a new one without a name of its own *)
Definition multi_symbol (name : str) (origsp : nat) : symbol :=
  mkSymbol name 0 MULTITERMINAL [] None 0 LEFT None false 0 None 0 None 0 false [origsp].
(** the last symbol of the right-hand side becomes a compound with one more *)
Definition compound (x : cstr) p : res pstate :=
  let r := ps_rule p in
  let n := Z.to_nat (zlen (rhs r) - 1) in
  let* (msp, a) := of_opt OutOfBounds (rhs r !! n) in
  let '(msp, p) :=
    if decide (sp_type (the_sym p msp) = MULTITERMINAL) then (msp, p)
    else
      let t := g_tab (ps_gp p) in
      let new := length (sy_heap t) in
      (new, with_rule (mkParts (lhs r) (lhsalias r) (<[n := (new, a)]> (rhs r)))
              (with_gp (upd_tab (mkSymtab (sy_heap t ++ [multi_symbol (sp_name (the_sym p msp)) msp]) (x2a t) (sy_str t)) (ps_gp p)) p)) in
  let* (sp, p) := get_sym (cs_drop 1 x) p in
  let p := on_sym (λ s, set_subsym (sp_subsym s ++ [sp]) s) msp p in
  first ← of_opt OutOfBounds (sp_subsym (the_sym p msp) !! 0%nat);
  Ok (if ISLOWER (chr x 1) || ISLOWER (hd 0 (sp_name (the_sym p first))) then error p else p).

Definition in_rhs (x : cstr) (lineno : Z) p : res pstate :=
  let r := ps_rule p in
  if chr x 0 =? 46 then p ← finish_rule lineno p; Ok (go WAITING_FOR_DECL_OR_RULE p)
  else if ISALPHA (chr x 0) then
    if zlen (rhs r) >=? MAXRHS then Ok (go RESYNC_AFTER_RULE_ERROR (error p))
    else let* (sp, p) := get_sym x p in Ok (with_rule (mkParts (lhs r) (lhsalias r) (rhs r ++ [(sp, None)])) p)
  else if ((chr x 0 =? 124) || (chr x 0 =? 47)) && (0 <? zlen (rhs r)) && ISUPPER (chr x 1) then compound x p
  else if (chr x 0 =? 40) && (0 <? zlen (rhs r)) then Ok (go RHS_ALIAS_1 p)
  else Ok (go RESYNC_AFTER_RULE_ERROR (error p)).
Definition rhs_alias_1 (x : cstr) p : res pstate :=
  let r := ps_rule p in
  let n := Z.to_nat (zlen (rhs r) - 1) in
  if ISALPHA (chr x 0) then
    let* (sp, _) := of_opt OutOfBounds (rhs r !! n) in
    Ok (go RHS_ALIAS_2 (with_rule (mkParts (lhs r) (lhsalias r) (<[n := (sp, Some (cs x))]> (rhs r))) p))
  else _ ← of_opt OutOfBounds (rhs r !! n); Ok (go RESYNC_AFTER_RULE_ERROR (error p)).
(** the message prints the alias of the left-hand side, which may be null *)
Definition rhs_alias_2 (x : cstr) p : res pstate :=
  if chr x 0 =? 41 then Ok (go IN_RHS p)
  else _ ← of_opt NullDeref (lhsalias (ps_rule p)); Ok (go RESYNC_AFTER_RULE_ERROR (error p)).

(** ** Declarations *)

(** the keywords whose argument is text: where it goes, and whether a line directive
    is put in front of it *)
Definition text_keyword (x : str) : option (slot * bool) :=
  if decide (x = lit "name") then Some (S_name, false)
  else if decide (x = lit "include") then Some (S_include, true)
  else if decide (x = lit "code") then Some (S_extracode, true)
  else if decide (x = lit "token_destructor") then Some (S_tokendest, true)
  else if decide (x = lit "default_destructor") then Some (S_vardest, true)
  else if decide (x = lit "token_prefix") then Some (S_tokenprefix, false)
  else if decide (x = lit "syntax_error") then Some (S_error, true)
  else if decide (x = lit "parse_accept") then Some (S_accept, true)
  else if decide (x = lit "parse_failure") then Some (S_failure, true)
  else if decide (x = lit "stack_overflow") then Some (S_overflow, true)
  else if decide (x = lit "extra_argument") then Some (S_arg, false)
  else if decide (x = lit "extra_context") then Some (S_ctx, false)
  else if decide (x = lit "token_type") then Some (S_tokentype, false)
  else if decide (x = lit "default_type") then Some (S_vartype, false)
  else if decide (x = lit "stack_size") then Some (S_stacksize, false)
  else if decide (x = lit "start_symbol") then Some (S_start, false)
  else None.
Definition decl_keyword (x : cstr) p : pstate :=
  if ISALPHA (chr x 0) then
    let d := ps_decl p in
    let d := mkDecl (fallback d) (tkclass d) (Some (cs x)) None true None (declassoc d) (preccounter d) in
    let prec (a : e_assoc) := go WAITING_FOR_PRECEDENCE_SYMBOL
      (with_decl (mkDecl (fallback d) (tkclass d) (declkeyword d) None true None a (preccounter d + 1)) p) in
    match text_keyword (cs x) with
    | Some (s, line) => go WAITING_FOR_DECL_ARG (with_decl (upd_slot (Some s) line None d) p)
    | None =>
        if decide (cs x = lit "left") then prec LEFT
        else if decide (cs x = lit "right") then prec RIGHT
        else if decide (cs x = lit "nonassoc") then prec NONE
        else if decide (cs x = lit "destructor") then go WAITING_FOR_DESTRUCTOR_SYMBOL (with_decl d p)
        else if decide (cs x = lit "type") then go WAITING_FOR_DATATYPE_SYMBOL (with_decl d p)
        else if decide (cs x = lit "fallback") then
          go WAITING_FOR_FALLBACK_ID (with_decl (mkDecl None (tkclass d) (declkeyword d) None true None (declassoc d) (preccounter d)) p)
        else if decide (cs x = lit "token") then go WAITING_FOR_TOKEN_NAME (with_decl d p)
        else if decide (cs x = lit "wildcard") then go WAITING_FOR_WILDCARD_ID (with_decl d p)
        else if decide (cs x = lit "token_class") then go WAITING_FOR_CLASS_ID (with_decl d p)
        else go RESYNC_AFTER_DECL_ERROR (error (with_decl d p))
    end
  else go RESYNC_AFTER_DECL_ERROR (error p).

Definition destructor_symbol (x : cstr) p : res pstate :=
  if negb (ISALPHA (chr x 0)) then Ok (go RESYNC_AFTER_DECL_ERROR (error p))
  else
    let* (sp, p) := get_sym x p in
    Ok (go WAITING_FOR_DECL_ARG (with_decl (upd_slot (Some (S_destructor sp)) true (Some sp) (ps_decl p)) p)).
Definition datatype_symbol (x : cstr) p : res pstate :=
  if negb (ISALPHA (chr x 0)) then Ok (go RESYNC_AFTER_DECL_ERROR (error p))
  else
    found ← find_sym x p;
    let defined := match found with Some sp => match sp_datatype (the_sym p sp) with Some _ => true | None => false end | None => false end in
    if (defined : bool) then Ok (go RESYNC_AFTER_DECL_ERROR (error p))
    else
      let* (sp, p) := match found with Some sp => Ok (sp, p) | None => get_sym x p end in
      Ok (go WAITING_FOR_DECL_ARG (with_decl (upd_slot (Some (S_datatype sp)) false (decllinenoslot (ps_decl p)) (ps_decl p)) p)).

Definition precedence_symbol (x : cstr) p : res pstate :=
  if chr x 0 =? 46 then Ok (go WAITING_FOR_DECL_OR_RULE p)
  else if ISUPPER (chr x 0) then
    let* (sp, p) := get_sym x p in
    if sp_prec (the_sym p sp) >=? 0 then Ok (error p)
    else Ok (on_sym (set_prec (preccounter (ps_decl p)) (declassoc (ps_decl p))) sp p)
  else Ok (error p).

(** *** The argument of a declaration *)

Definition slot_text (s : slot) p : option str :=
  match s with
  | S_destructor sp => sp_destructor (the_sym p sp)
  | S_datatype sp => sp_datatype (the_sym p sp)
  | _ => g_text (ps_gp p) s
  end.
Definition set_slot_text (s : slot) (v : str) p : pstate :=
  match s with
  | S_destructor sp => on_sym (set_destructor (Some v)) sp p
  | S_datatype sp => on_sym (set_datatype (Some v)) sp p
  | _ => with_gp (upd_text s (Some v) (ps_gp p)) p
  end.
(** [%d] of a line, which has at most ten digits *)
Definition print_dec (z : Z) : str :=
  if z <? 0 then 45 :: dec_digits 20 (- z) [] else if z =? 0 then [48] else dec_digits 20 z [].
(** a file name with its backslashes doubled *)
Fixpoint escape_name (z : str) : str :=
  match z with
  | [] => []
  | c :: z => if c =? 92 then 92 :: c :: escape_name z else c :: escape_name z
  end.
Definition count_backslashes (z : str) : Z := zlen (filter (λ c, c = 92) z).
(** the line directive, and the bytes it is given *)
Definition line_text (zOld : str) (lineno : Z) : str * Z :=
  let zLine := lit "#line " ++ print_dec lineno ++ [32] in
  ((if negb (bool_decide (zOld = [])) && negb (default 0 (last zOld) =? 10) then [10] else []) ++ zLine ++ [34] ++ escape_name filename ++ [34; 10],
   zlen zLine + zlen filename + count_backslashes filename).
Definition decl_arg (x : cstr) (lineno : Z) p : res pstate :=
  let c := chr x 0 in
  if (c =? 123) || (c =? 34) || ISALNUM c then
    let d := ps_decl p in
    let zNew := if (c =? 34) || (c =? 123) then drop 1 (cs x) else cs x in
    s ← of_opt NullDeref (declargslot d);
    let zOld := default [] (slot_text s p) in
    let no := (λ sp, sp_destLineno (the_sym p sp)) <$> decllinenoslot d in
    let addLineMacro := negb nolinenosflag && insertLineMacro d && (1 <? lineno) && match no with Some n => negb (n =? 0) | None => true end in
    let '(zLine, extra) := if (addLineMacro : bool) then line_text zOld lineno else ([], 0) in
    (* the directive is put together in an array of fifty bytes, the text in one of [n] *)
    let n := zlen zOld + zlen zNew + 20 + extra in
    let z := zOld ++ zLine ++ zNew in
    if ((addLineMacro : bool) && (50 <? zlen (lit "#line " ++ print_dec lineno ++ [32]) + 1)) || (n <? zlen z + 1) then Err OutOfBounds
    else
      let p := match decllinenoslot d, no with Some sp, Some 0 => on_sym (set_destLineno lineno) sp p | _, _ => p end in
      Ok (go WAITING_FOR_DECL_OR_RULE (set_slot_text s z p))
  else Ok (go RESYNC_AFTER_DECL_ERROR (error p)).

(** *** Lists of tokens *)

Definition fallback_id (x : cstr) p : res pstate :=
  if chr x 0 =? 46 then Ok (go WAITING_FOR_DECL_OR_RULE p)
  else if negb (ISUPPER (chr x 0)) then Ok (error p)
  else
    let* (sp, p) := get_sym x p in
    let d := ps_decl p in
    match fallback d with
    | None => Ok (with_decl (mkDecl (Some sp) (tkclass d) (declkeyword d) (declargslot d) (insertLineMacro d) (decllinenoslot d) (declassoc d) (preccounter d)) p)
    | Some f =>
        if sp_fallback (the_sym p sp) is Some _ then Ok (error p)
        else
          let p := on_sym (set_fallback (Some f)) sp p in
          let g := ps_gp p in
          Ok (with_gp (mkGrammar (g_tab g) (g_rules g) (g_list g) (g_nrule g) (g_text g) (g_wildcard g) true) p)
    end.
Definition token_name (x : cstr) p : res pstate :=
  if chr x 0 =? 46 then Ok (go WAITING_FOR_DECL_OR_RULE p)
  else if negb (ISUPPER (chr x 0)) then Ok (error p)
  else let* (_, p) := get_sym x p in Ok p.
Definition wildcard_id (x : cstr) p : res pstate :=
  if chr x 0 =? 46 then Ok (go WAITING_FOR_DECL_OR_RULE p)
  else if negb (ISUPPER (chr x 0)) then Ok (error p)
  else
    let* (sp, p) := get_sym x p in
    let g := ps_gp p in
    match g_wildcard g with
    | None => Ok (with_gp (mkGrammar (g_tab g) (g_rules g) (g_list g) (g_nrule g) (g_text g) (Some sp) (g_has_fallback g)) p)
    | Some _ => Ok (error p)
    end.
Definition class_id (x : cstr) p : res pstate :=
  if negb (ISLOWER (chr x 0)) then Ok (go RESYNC_AFTER_DECL_ERROR (error p))
  else
    found ← find_sym x p;
    match found with
    | Some _ => Ok (go RESYNC_AFTER_DECL_ERROR (error p))
    | None =>
        let* (sp, p) := get_sym x p in
        let p := on_sym (set_type MULTITERMINAL) sp p in
        let d := ps_decl p in
        Ok (go WAITING_FOR_CLASS_TOKEN
             (with_decl (mkDecl (fallback d) (Some sp) (declkeyword d) (declargslot d) (insertLineMacro d) (decllinenoslot d) (declassoc d) (preccounter d)) p))
    end.
Definition class_token (x : cstr) p : res pstate :=
  if chr x 0 =? 46 then Ok (go WAITING_FOR_DECL_OR_RULE p)
  else if ISUPPER (chr x 0) || (((chr x 0 =? 124) || (chr x 0 =? 47)) && ISUPPER (chr x 1)) then
    msp ← of_opt NullDeref (tkclass (ps_decl p));
    let* (sp, p) := get_sym (if negb (ISUPPER (chr x 0)) then cs_drop 1 x else x) p in
    Ok (on_sym (λ s, set_subsym (sp_subsym s ++ [sp]) s) msp p)
  else Ok (go RESYNC_AFTER_DECL_ERROR (error p)).
Definition resync (x : cstr) p : pstate :=
  let p := if chr x 0 =? 46 then go WAITING_FOR_DECL_OR_RULE p else p in
  if chr x 0 =? 37 then go WAITING_FOR_DECL_KEYWORD p else p.

(** ** One token *)

(** the [switch] *)
Definition parse_state (x : cstr) (lineno : Z) p : res pstate :=
  match ps_state p with
  | INITIALIZE => decl_or_rule x lineno (initialize p)
  | WAITING_FOR_DECL_OR_RULE => decl_or_rule x lineno p
  | PRECEDENCE_MARK_1 => precedence_mark_1 x p
  | PRECEDENCE_MARK_2 => Ok (precedence_mark_2 x p)
  | WAITING_FOR_ARROW => waiting_for_arrow x p
  | LHS_ALIAS_1 => lhs_alias_1 x p
  | LHS_ALIAS_2 => Ok (lhs_alias_2 x p)
  | LHS_ALIAS_3 => lhs_alias_3 x p
  | IN_RHS => in_rhs x lineno p
  | RHS_ALIAS_1 => rhs_alias_1 x p
  | RHS_ALIAS_2 => rhs_alias_2 x p
  | WAITING_FOR_DECL_KEYWORD => Ok (decl_keyword x p)
  | WAITING_FOR_DESTRUCTOR_SYMBOL => destructor_symbol x p
  | WAITING_FOR_DATATYPE_SYMBOL => datatype_symbol x p
  | WAITING_FOR_PRECEDENCE_SYMBOL => precedence_symbol x p
  | WAITING_FOR_DECL_ARG => decl_arg x lineno p
  | WAITING_FOR_FALLBACK_ID => fallback_id x p
  | WAITING_FOR_TOKEN_NAME => token_name x p
  | WAITING_FOR_WILDCARD_ID => wildcard_id x p
  | WAITING_FOR_CLASS_ID => class_id x p
  | WAITING_FOR_CLASS_TOKEN => class_token x p
  | RESYNC_AFTER_RULE_ERROR | RESYNC_AFTER_DECL_ERROR => Ok (resync x p)
  end.
Definition parseonetoken (x : cstr) (lineno : Z) p : res pstate :=
  let* (_, ss) := Strsafe calloc_ok malloc_ok x (sy_str (g_tab (ps_gp p))) in
  let t := g_tab (ps_gp p) in
  parse_state x lineno (with_gp (upd_tab (mkSymtab (sy_heap t) (x2a t) ss) (ps_gp p)) p).

(** the tokens of a file with their lines *)
Fixpoint parse_tokens (l : list (cstr * Z)) p : res pstate :=
  match l with
  | [] => Ok p
  | (x, lineno) :: l => p ← parseonetoken x lineno p; parse_tokens l p
  end.
End Reader.
