(* ===== verification/LemonReadSpec.v ===== *)
(** What the reader of grammar files keeps: an invariant of its state that every
    token preserves, whatever the tokens are. Symbols and rules are well formed,
    rules are numbered in order and listed under their left-hand side, and what a
    state is about to dereference is there. *)
From S2P Require Import Prelude LemonTable LemonPrintf LemonData LemonFirst LemonSymbol LemonPreproc LemonRead.

(** ** The invariant *)

(** a pointer that may be null *)
Definition below (n : nat) (o : option nat) : Prop := from_option (λ i, i < n)%nat True o.

Record sym_ok (n : nat) (s : symbol) : Prop := {
  so_fallback : below n (sp_fallback s);
  so_subsym : Forall (λ i, i < n)%nat (sp_subsym s);
}.
Record rule_ok (n i : nat) (r : rule) : Prop := {
  ro_index : rp_index r = Z.of_nat i;
  ro_lhs : (rp_lhs r < n)%nat;
  ro_rhs : Forall (λ i, i < n)%nat (rp_rhs r);
  ro_alias : length (rp_rhsalias r) = length (rp_rhs r);
  ro_max : zlen (rp_rhs r) ≤ MAXRHS;
  ro_prec : below n (rp_precsym r);
  ro_code : rp_noCode r = bool_decide (rp_code r = None);
}.
(** the rules with a left-hand side, the latest first *)
Definition rules_of (rs : list rule) (sp : nat) : list nat :=
  reverse (filter (λ i, rp_lhs (rul rs i) = sp) (seq 0 (length rs))).
Arguments rules_of : simpl never.

Notation heap g := (sy_heap (g_tab g)).
Record gram_ok (g : grammar) : Prop := {
  gr_tab : symtab_wf (g_tab g);
  gr_syms : Forall (sym_ok (length (heap g))) (heap g);
  gr_rules : ∀ i r, g_rules g !! i = Some r → rule_ok (length (heap g)) i r;
  gr_list : g_list g = seq 0 (length (g_rules g));
  gr_nrule : g_nrule g = zlen (g_rules g);
  gr_by_lhs : ∀ i, (i < length (heap g))%nat → sp_rule (sym (heap g) i) = rules_of (g_rules g) i;
  gr_wildcard : below (length (heap g)) (g_wildcard g);
}.
Record parts_ok (n : nat) (r : parts) : Prop := {
  po_lhs : below n (lhs r);
  po_rhs : Forall (λ e, e.1 < n)%nat (rhs r);
  po_max : zlen (rhs r) ≤ MAXRHS;
}.
Definition slot_ok (n : nat) (s : slot) : Prop :=
  match s with S_destructor sp | S_datatype sp => (sp < n)%nat | _ => True end.
Record decl_ok (n : nat) (d : decl) : Prop := {
  do_fallback : below n (fallback d);
  do_tkclass : below n (tkclass d);
  do_slot : from_option (slot_ok n) True (declargslot d);
  do_lineno : below n (decllinenoslot d);
}.
Record all_ok (g : grammar) (r : parts) (d : decl) (prev : option nat) : Prop := {
  bo_gram : gram_ok g;
  bo_parts : parts_ok (length (heap g)) r;
  bo_decl : decl_ok (length (heap g)) d;
  bo_prev : below (length (g_rules g)) prev;
}.
Definition body_ok (p : pstate) : Prop := all_ok (ps_gp p) (ps_rule p) (ps_decl p) (prevrule p).
(** what a state has stored for the token it waits for *)
Definition state_ok (p : pstate) : Prop :=
  match ps_state p with
  | INITIALIZE => g_rules (ps_gp p) = []
  | WAITING_FOR_ARROW | LHS_ALIAS_1 | LHS_ALIAS_2 | LHS_ALIAS_3 | IN_RHS => is_Some (lhs (ps_rule p))
  | RHS_ALIAS_1 | RHS_ALIAS_2 => is_Some (lhs (ps_rule p)) ∧ rhs (ps_rule p) ≠ []
  | WAITING_FOR_DECL_ARG => is_Some (declargslot (ps_decl p))
  | WAITING_FOR_CLASS_TOKEN => is_Some (tkclass (ps_decl p))
  | _ => True
  end.
Definition reader_ok (p : pstate) : Prop := body_ok p ∧ state_ok p.

(** ** Growing the heap of symbols *)

Lemma below_mono n m o : (n ≤ m)%nat → below n o → below m o.
Proof. intros ?. destruct o; cbn; lia. Qed.
Lemma all_mono n m (l : list nat) : (n ≤ m)%nat → Forall (λ i, i < n)%nat l → Forall (λ i, i < m)%nat l.
Proof. intros ? H. eapply Forall_impl; [exact H|]. cbn. lia. Qed.
Lemma sym_ok_mono n m s : (n ≤ m)%nat → sym_ok n s → sym_ok m s.
Proof. intros ? [? ?]. constructor; [by eapply below_mono|by eapply all_mono]. Qed.
Lemma rule_ok_mono n m i r : (n ≤ m)%nat → rule_ok n i r → rule_ok m i r.
Proof. intros ? [? ? ? ? ? ?]. constructor; eauto using below_mono, all_mono. lia. Qed.
Lemma parts_ok_mono n m r : (n ≤ m)%nat → parts_ok n r → parts_ok m r.
Proof. intros ? [? H ?]. constructor; eauto using below_mono. eapply Forall_impl; [exact H|]. cbn. lia. Qed.
Lemma decl_ok_mono n m d : (n ≤ m)%nat → decl_ok n d → decl_ok m d.
Proof.
  intros ? [? ? Hs ?]. constructor; eauto using below_mono. destruct (declargslot d) as [s|]; [|done]. cbn in *.
  destruct s; cbn in *; lia.
Qed.

(** the heap after a change: at least as long, names and rule lists kept, new symbols
    without rules *)
Record grows (h h' : list symbol) : Prop := {
  gw_length : (length h ≤ length h')%nat;
  gw_name : ∀ i, (i < length h)%nat → sp_name (sym h' i) = sp_name (sym h i);
  gw_rule : ∀ i, (i < length h)%nat → sp_rule (sym h' i) = sp_rule (sym h i);
  gw_new : ∀ i, (length h ≤ i < length h')%nat → sp_rule (sym h' i) = [];
}.
Lemma grows_alter f sp h :
  (∀ s, sp_name (f s) = sp_name s) → (∀ s, sp_rule (f s) = sp_rule s) → grows h (alter f sp h).
Proof.
  intros Hn Hr. constructor; rewrite ?length_alter; try (intros; lia).
  - intros i _. rewrite symtab_sym_alter. case_decide as Hd; [|done]. destruct Hd as [-> _]. apply Hn.
  - intros i _. rewrite symtab_sym_alter. case_decide as Hd; [|done]. destruct Hd as [-> _]. apply Hr.
Qed.
Lemma sym_app_l h k i : (i < length h)%nat → sym (h ++ k) i = sym h i.
Proof. intros. unfold sym. by rewrite lookup_app_l. Qed.
Lemma sym_app_r h s : sym (h ++ [s]) (length h) = s.
Proof. unfold sym. rewrite lookup_app_r, Nat.sub_diag; [done|lia]. Qed.
Lemma grows_app h s : sp_rule s = [] → grows h (h ++ [s]).
Proof.
  intros Hs. constructor; rewrite ?length_app; cbn [length]; [lia|..]; intros i Hi.
  - by rewrite sym_app_l.
  - by rewrite sym_app_l.
  - assert (i = length h) as -> by lia. by rewrite sym_app_r.
Qed.
Lemma grows_trans h h' h'' : grows h h' → grows h' h'' → grows h h''.
Proof.
  intros [L1 N1 R1 E1] [L2 N2 R2 E2]. constructor; [lia|..]; intros i Hi.
  - rewrite N2, N1; [done|done|lia].
  - rewrite R2, R1; [done|done|lia].
  - destruct (decide (i < length h')%nat); [rewrite R2 by done; apply E1; lia|apply E2; lia].
Qed.
Lemma rules_of_new rs n i :
  (∀ j r, rs !! j = Some r → (rp_lhs r < n)%nat) → (n ≤ i)%nat → rules_of rs i = [].
Proof.
  intros Hr Hi. unfold rules_of. destruct (filter _ _) as [|j l] eqn:E; [done|]. exfalso.
  assert (j ∈ filter (λ i0, rp_lhs (rul rs i0) = i) (seq 0 (length rs))) as Hin by (rewrite E; left).
  apply list_elem_of_filter in Hin as [Hl Hj%elem_of_seq]. revert Hl.
  assert (is_Some (rs !! j)) as [r Hj'] by (apply lookup_lt_is_Some_2; lia).
  unfold rul. rewrite Hj'. cbn. specialize (Hr _ _ Hj'). lia.
Qed.
Lemma gram_grows g t :
  gram_ok g → symtab_wf t → grows (heap g) (sy_heap t) → Forall (sym_ok (length (sy_heap t))) (sy_heap t) → gram_ok (upd_tab t g).
Proof.
  intros Hg Ht Hw Hs. destruct Hg as [G1 G2 G3 G4 G5 G6 G7]. destruct Hw as [W1 W2 W3 W4].
  constructor; cbn; try done.
  - intros i r Hr. eapply rule_ok_mono; [exact W1|]. by apply G3.
  - intros i Hi. destruct (decide (i < length (heap g))%nat) as [Hlt|]; [by rewrite W3, G6 by done|].
    rewrite W4 by lia. symmetry. apply (rules_of_new _ (length (heap g))); [|lia]. intros j r Hr. apply (G3 _ _ Hr).
  - by eapply below_mono.
Qed.
Lemma body_grows p t :
  body_ok p → symtab_wf t → grows (heap (ps_gp p)) (sy_heap t) → Forall (sym_ok (length (sy_heap t))) (sy_heap t) →
  body_ok (with_gp (upd_tab t (ps_gp p)) p).
Proof.
  intros [B1 B2 B3 B4] Ht Hw Hs. pose proof (gw_length _ _ Hw). constructor; cbn.
  - by apply gram_grows.
  - by eapply parts_ok_mono.
  - by eapply decl_ok_mono.
  - done.
Qed.
Lemma Forall_alter_all {A} (P : A → Prop) f i l : Forall P l → (∀ x, P x → P (f x)) → Forall P (alter f i l).
Proof. intros Hl Hf. apply Forall_alter; [done|]. intros x _. apply Hf. Qed.

Lemma on_sym_ok f sp p :
  (∀ s, sp_name (f s) = sp_name s) → (∀ s, sp_rule (f s) = sp_rule s) →
  (∀ s, sym_ok (length (heap (ps_gp p))) s → sym_ok (length (heap (ps_gp p))) (f s)) →
  body_ok p → body_ok (on_sym f sp p).
Proof.
  intros Hn Hr Hf Hp. apply body_grows; [done|..]; cbn.
  - apply symtab_wf_alter; [done|]. apply (gr_tab _ (bo_gram _ _ _ _ Hp)).
  - by apply grows_alter.
  - rewrite length_alter. apply Forall_alter_all; [|done]. apply (gr_syms _ (bo_gram _ _ _ _ Hp)).
Qed.
Lemma on_rule_ok f rp p :
  (∀ r, rp_lhs (f r) = rp_lhs r) →
  (∀ i r, rule_ok (length (heap (ps_gp p))) i r → rule_ok (length (heap (ps_gp p))) i (f r)) →
  body_ok p → body_ok (on_rule f rp p).
Proof.
  intros Hl Hf [[G1 G2 G3 G4 G5 G6 G7] B2 B3 B4]. constructor; cbn; [|done|done|by rewrite length_alter].
  assert (∀ i, rp_lhs (rul (alter f rp (g_rules (ps_gp p))) i) = rp_lhs (rul (g_rules (ps_gp p)) i)) as Hlhs.
  { intros i. unfold rul. destruct (decide (i = rp)) as [->|]; [|by rewrite list_lookup_alter_ne].
    rewrite list_lookup_alter_eq. destruct (_ !! rp); [apply Hl|done]. }
  constructor; cbn; try done.
  - intros i r Hr. destruct (decide (i = rp)) as [->|]; [|rewrite list_lookup_alter_ne in Hr by done; by apply G3].
    rewrite list_lookup_alter_eq in Hr. apply fmap_Some in Hr as (r0&Hr&->). apply Hf. by apply G3.
  - by rewrite length_alter.
  - unfold zlen. by rewrite length_alter.
  - intros i Hi. rewrite G6 by done. unfold rules_of. rewrite length_alter. apply (f_equal reverse), list_filter_iff.
    intros j. by rewrite Hlhs.
Qed.

Lemma with_rule_ok r p : body_ok p → parts_ok (length (heap (ps_gp p))) r → body_ok (with_rule r p).
Proof. by intros [? ? ? ?]. Qed.
Lemma with_decl_ok d p : body_ok p → decl_ok (length (heap (ps_gp p))) d → body_ok (with_decl d p).
Proof. by intros [? ? ? ?]. Qed.

(** one more rule *)
Lemma rul_app_l rs r i : (i < length rs)%nat → rul (rs ++ [r]) i = rul rs i.
Proof. intros. unfold rul. by rewrite lookup_app_l. Qed.
Lemma rul_app_r rs r : rul (rs ++ [r]) (length rs) = r.
Proof. unfold rul. rewrite lookup_app_r, Nat.sub_diag; [done|lia]. Qed.
Lemma filter_ext_in {A} (P Q : A → Prop) `{∀ x, Decision (P x)} `{∀ x, Decision (Q x)} (l : list A) :
  (∀ x, x ∈ l → P x ↔ Q x) → filter P l = filter Q l.
Proof.
  induction l as [|x l IH]; intros Hl; [done|]. rewrite !filter_cons, IH by (intros; apply Hl; by right).
  assert (P x ↔ Q x) by (apply Hl; left). repeat case_decide; tauto.
Qed.
Lemma rules_of_app rs r i :
  rules_of (rs ++ [r]) i = if decide (rp_lhs r = i) then length rs :: rules_of rs i else rules_of rs i.
Proof.
  unfold rules_of. rewrite length_app. cbn [length]. rewrite Nat.add_1_r, seq_S, filter_app, reverse_app. cbn [Nat.add].
  rewrite (filter_ext_in _ (λ j, rp_lhs (rul rs j) = i) (seq 0 (length rs))).
  - rewrite filter_cons, rul_app_r, filter_nil. by case_decide.
  - intros j Hj%elem_of_seq. by rewrite rul_app_l by lia.
Qed.
Lemma add_rule_ok g r :
  gram_ok g → rule_ok (length (heap g)) (length (g_rules g)) r →
  gram_ok (upd_sym (λ s, set_rule (length (g_rules g) :: sp_rule s) s) (rp_lhs r)
    (mkGrammar (g_tab g) (g_rules g ++ [r]) (g_list g ++ [length (g_rules g)]) (g_nrule g + 1) (g_text g) (g_wildcard g) (g_has_fallback g))).
Proof.
  intros [G1 G2 G3 G4 G5 G6 G7] Hr. constructor; cbn; rewrite ?length_alter.
  - by apply symtab_wf_alter.
  - apply Forall_alter_all; [done|]. intros s [? ?]. by constructor.
  - intros i r' [Hi|[Hle Hi]]%lookup_app_Some; [by apply G3|].
    apply list_lookup_singleton_Some in Hi as [? <-]. by replace i with (length (g_rules g)) by lia.
  - by rewrite length_app, seq_app, G4.
  - rewrite zlen_app, G5. done.
  - intros i Hi. rewrite symtab_sym_alter, rules_of_app. destruct (decide (rp_lhs r = i)) as [<-|Hne].
    + rewrite decide_True by (split; [done|apply Hr]). cbn. by rewrite G6.
    + rewrite decide_False by naive_solver. by apply G6.
  - done.
Qed.

(** ** The operations *)

Section Safe.
Context (calloc_ok : Z → bool) (filename : str) (nolinenosflag : bool).
Context (Hcalloc : ∀ n, calloc_ok n = true).

Lemma get_sym_ok x p :
  body_ok p → ∃ sp t, get_sym calloc_ok true x p = Ok (sp, with_gp (upd_tab t (ps_gp p)) p) ∧
    body_ok (with_gp (upd_tab t (ps_gp p)) p) ∧ (sp < length (sy_heap t))%nat ∧ grows (heap (ps_gp p)) (sy_heap t) ∧
    sp_name (sym (sy_heap t) sp) = cs x ∧ Symbol_find t x = Ok (Some sp).
Proof.
  intros Hp. pose proof (bo_gram _ _ _ _ Hp) as Hg. pose proof (gr_tab _ Hg) as Ht. pose proof (gr_syms _ Hg) as Hs.
  unfold get_sym. destruct (Symbol_new_wf calloc_ok (g_tab (ps_gp p)) x Ht Hcalloc) as (sp&t&->&Hwf&Hn&Hf&_&Hm).
  exists sp, t. split; [done|].
  destruct (Symbol_find_ok (g_tab (ps_gp p)) x Ht) as (r&Hr&Hi). rewrite Hr in Hm.
  assert (grows (heap (ps_gp p)) (sy_heap t) ∧ (sp < length (sy_heap t))%nat ∧ Forall (sym_ok (length (sy_heap t))) (sy_heap t)) as (Hgr&Hlt&Hall).
  { destruct r as [q|]; destruct Hm as (->&_&Hh); rewrite Hh.
    - split; [by apply grows_alter|]. rewrite length_alter. split; [apply (sy_lt _ Ht q x); by apply Hi|].
      apply Forall_alter_all; [done|]. intros s [? ?]. by constructor.
    - split; [by apply grows_app|]. rewrite length_app. cbn [length]. split; [lia|]. apply Forall_app. split.
      + eapply Forall_impl; [exact Hs|]. intros s. apply sym_ok_mono. lia.
      + by repeat constructor. }
  split_and!; try done. by apply body_grows.
Qed.

(** a step that returns and keeps the invariant *)
Definition safe (r : res pstate) : Prop := ∃ p, r = Ok p ∧ reader_ok p.
Lemma safe_Ok p : body_ok p → state_ok p → safe (Ok p).
Proof. intros. by exists p. Qed.

(** take the next decision of the code *)
Ltac step := match goal with |- safe (if ?b then _ else _) => destruct b eqn:? end.
(** a symbol is looked up or made *)
Ltac new_sym sp t := match goal with H : body_ok ?p |- context [get_sym calloc_ok true ?x ?p] =>
  let Hb := fresh "Hb" in let Hlt := fresh "Hlt" in let Hgr := fresh "Hgr" in let Hn := fresh "Hn" in
  destruct (get_sym_ok x p H) as (sp&t&->&Hb&Hlt&Hgr&Hn&_); cbn [mbind res_bind] end.
(** a state that stores nothing *)
Ltac waits Hq := match goal with Hst : ps_state ?p = _ |- _ =>
  assert (∀ q, ps_state q = ps_state p → state_ok q) as Hq by (intros q; unfold state_ok; rewrite Hst; by intros ->) end.
(** an error or a mere change of state *)
Ltac quiet := apply safe_Ok; [assumption|first [exact I|assumption]].

Lemma code_fragment_ok x lineno p : body_ok p → ps_state p = WAITING_FOR_DECL_OR_RULE ∨ ps_state p = INITIALIZE ∧ g_rules (ps_gp p) = [] → reader_ok (code_fragment x lineno p).
Proof.
  intros Hp Hs.
  assert (∀ q, ps_state q = ps_state p → length (g_rules (ps_gp q)) = length (g_rules (ps_gp p)) → state_ok q) as Hst.
  { intros q Hq Hl. unfold state_ok. rewrite Hq. destruct Hs as [->|[-> Hr]]; [done|]. rewrite Hr in Hl. by apply nil_length_inv. }
  unfold code_fragment. destruct (prevrule p) as [rp|]; [|split; [exact Hp|by apply Hst]].
  destruct (rp_code _); [split; [exact Hp|by apply Hst]|].
  case_decide; (split; [apply on_rule_ok; [done| |done]|apply Hst; [done|apply length_alter]]).
  - intros i r [? ? ? ? ? ? ?]. by constructor.
  - intros i r [? ? ? ? ? ? ?]. by constructor.
Qed.

Lemma parts_set n r l : parts_ok n r → Forall (λ e, e.1 < n)%nat l → zlen l ≤ MAXRHS → parts_ok n (mkParts (lhs r) (lhsalias r) l).
Proof. intros [? ? ?]. by constructor. Qed.

Lemma decl_or_rule_safe x lineno p :
  body_ok p → ps_state p = WAITING_FOR_DECL_OR_RULE ∨ ps_state p = INITIALIZE ∧ g_rules (ps_gp p) = [] →
  safe (decl_or_rule calloc_ok true x lineno p).
Proof.
  intros Hp Hs. unfold decl_or_rule. step; [quiet|]. step.
  { new_sym sp t. apply safe_Ok; [|by eexists]. apply (with_rule_ok _ _ Hb). by constructor; [|constructor|]. }
  step; [eexists; split; [done|by apply code_fragment_ok]|]. step; [quiet|].
  apply safe_Ok; [exact Hp|]. unfold state_ok. cbn. by destruct Hs as [->|[-> ->]].
Qed.
Lemma initialize_ok p : body_ok p → g_rules (ps_gp p) = [] → body_ok (initialize p).
Proof.
  intros [[G1 G2 G3 G4 G5 G6 G7] B2 B3 B4] Hr. constructor; cbn; [|done| |done].
  - constructor; cbn; rewrite ?Hr in *; done.
  - by destruct B3; constructor.
Qed.

Lemma precedence_mark_1_safe x p : body_ok p → safe (precedence_mark_1 calloc_ok true x p).
Proof.
  intros Hp. unfold precedence_mark_1. destruct (negb _); [quiet|]. destruct (prevrule p) as [rp|]; [|quiet].
  destruct (rp_precsym _); [quiet|]. new_sym sp t. apply safe_Ok; [|exact I].
  apply (on_rule_ok _ _ (with_gp _ _)); [done| |done]. intros i r [? ? ? ? ? ? ?]. by constructor.
Qed.
Lemma precedence_mark_2_safe x p : body_ok p → safe (Ok (precedence_mark_2 x p)).
Proof. intros Hp. unfold precedence_mark_2. destruct (negb _); quiet. Qed.

Lemma waiting_for_arrow_safe x p : body_ok p → is_Some (lhs (ps_rule p)) → safe (waiting_for_arrow x p).
Proof. intros Hp Hl. unfold waiting_for_arrow. step; [quiet|]. step; [quiet|]. destruct Hl as [sp ->]. quiet. Qed.
Lemma lhs_alias_1_safe x p : body_ok p → is_Some (lhs (ps_rule p)) → safe (lhs_alias_1 x p).
Proof.
  intros Hp Hl. unfold lhs_alias_1. step; [|destruct Hl as [sp ->]; quiet].
  apply safe_Ok; [|done]. apply (with_rule_ok _ _ Hp). destruct (bo_parts _ _ _ _ Hp). by constructor.
Qed.
Lemma lhs_alias_2_safe x p : body_ok p → is_Some (lhs (ps_rule p)) → safe (Ok (lhs_alias_2 x p)).
Proof. intros Hp Hl. unfold lhs_alias_2. destruct (_ =? _); quiet. Qed.
Lemma lhs_alias_3_safe x p : body_ok p → is_Some (lhs (ps_rule p)) → safe (lhs_alias_3 x p).
Proof. intros Hp Hl. unfold lhs_alias_3. step; [quiet|]. destruct Hl as [sp ->]. quiet. Qed.

Lemma mark_content_ok l p :
  body_ok p → ∃ t, mark_content l p = with_gp (upd_tab t (ps_gp p)) p ∧ body_ok (with_gp (upd_tab t (ps_gp p)) p) ∧
    length (sy_heap t) = length (heap (ps_gp p)) ∧ grows (heap (ps_gp p)) (sy_heap t).
Proof.
  revert p. induction l as [|[sp [a|]] l IH]; intros p Hp; cbn [mark_content].
  - exists (g_tab (ps_gp p)). destruct p as [? ? ? ? ? [? ? ? ? ? ? ?]]. split_and!; [done..|]. constructor; intros; try done. lia.
  - destruct (IH (on_sym (set_bContent true) sp p)) as (t&->&Hb&Hl&Hg).
    { apply on_sym_ok; [done|done| |done]. intros s [? ?]. by constructor. }
    exists t. split; [done|]. split; [done|]. split; [rewrite Hl; apply length_alter|].
    eapply grows_trans; [|exact Hg]. by apply grows_alter.
  - by apply IH.
Qed.

Lemma finish_rule_safe lineno p :
  body_ok p → is_Some (lhs (ps_rule p)) → ∃ p', finish_rule true lineno p = Ok p' ∧ body_ok p'.
Proof.
  intros Hp [sp Hl]. unfold finish_rule. cbn [negb]. destruct (mark_content_ok (rhs (ps_rule p)) p Hp) as (t&->&Hb&Hlen&_).
  rewrite Hl. cbn [of_opt mbind res_bind]. eexists. split; [done|].
  destruct Hb as [B1 [B2 B3 B4] B5 B6]. constructor; cbn; rewrite ?length_alter; try done.
  - apply (add_rule_ok (upd_tab t (ps_gp p)) (mkRule sp _ _ _ _ _ _ _ _ _ _ _ _ _ _ _ _ _)); [done|].
    cbn in *. rewrite Hl in B2. constructor; cbn; try done.
    + apply (gr_nrule _ B1).
    + by apply Forall_fmap.
    + by rewrite !length_fmap.
    + unfold zlen in *. by rewrite length_fmap.
  - rewrite length_app. cbn. lia.
Qed.

Lemma add_subsym_ok msp sp p :
  body_ok p → (sp < length (heap (ps_gp p)))%nat → body_ok (on_sym (λ s, set_subsym (sp_subsym s ++ [sp]) s) msp p).
Proof.
  intros Hp Hsp. apply on_sym_ok; [done|done| |done]. intros s [? ?]. constructor; cbn; [done|].
  apply Forall_app. split; [done|]. by constructor.
Qed.
(** the last entry of a right-hand side *)
Lemma last_entry {A} (l : list A) : l ≠ [] → is_Some (l !! Z.to_nat (zlen l - 1)).
Proof. intros Hl. apply lookup_lt_is_Some_2. unfold zlen. destruct l; [done|]. cbn [length]. lia. Qed.
Lemma zlen_insert {A} n (a : A) l : zlen (<[n := a]> l) = zlen l.
Proof. unfold zlen. by rewrite length_insert. Qed.

Lemma symtab_wf_app t s : symtab_wf t → symtab_wf (mkSymtab (sy_heap t ++ [s]) (x2a t) (sy_str t)).
Proof.
  intros [H1 H2 H3 H4]. constructor; cbn; [done|done|..].
  - intros i k Hin%H3. rewrite length_app. lia.
  - intros i k Hin. rewrite sym_app_l by (by eapply H3). by apply H4.
Qed.
(** the symbol of a compound is added to the heap *)
Lemma push_multi_ok msp p :
  body_ok p → (msp < length (heap (ps_gp p)))%nat →
  let t := g_tab (ps_gp p) in
  body_ok (with_gp (upd_tab (mkSymtab (sy_heap t ++ [multi_symbol (sp_name (the_sym p msp)) msp]) (x2a t) (sy_str t)) (ps_gp p)) p).
Proof.
  intros Hp Hm t. subst t. pose proof (bo_gram _ _ _ _ Hp) as Hg. apply body_grows; [done|..].
  - apply symtab_wf_app, Hg.
  - by apply grows_app.
  - cbn [sy_heap]. rewrite length_app. cbn [length]. apply Forall_app. split.
    + eapply Forall_impl; [apply Hg|]. intros s. apply sym_ok_mono. lia.
    + repeat constructor. cbn. lia.
Qed.
Lemma parts_ok_insert m n k sp a r :
  (n ≤ m)%nat → (sp < m)%nat → parts_ok n r → parts_ok m (mkParts (lhs r) (lhsalias r) (<[k := (sp, a)]> (rhs r))).
Proof.
  intros ? ? Hr. destruct (parts_ok_mono n m r) as [? ? ?]; [done|done|]. constructor; cbn; [done| |by rewrite zlen_insert].
  by apply Forall_insert.
Qed.

Lemma compound_safe x p :
  body_ok p → ps_state p = IN_RHS → is_Some (lhs (ps_rule p)) → rhs (ps_rule p) ≠ [] → safe (compound calloc_ok true x p).
Proof.
  intros Hp Hst Hl Hr. unfold compound. destruct (last_entry _ Hr) as [[msp a] Hlast]. rewrite Hlast. cbn [of_opt].
  pose proof (Forall_lookup_1 _ _ _ _ (po_rhs _ _ (bo_parts _ _ _ _ Hp)) Hlast) as Hmsp. cbn in Hmsp.
  assert (∀ m q, body_ok q → (m < length (heap (ps_gp q)))%nat → ps_state q = IN_RHS → is_Some (lhs (ps_rule q)) →
    safe (let* (sp, p) := get_sym calloc_ok true (cs_drop 1 x) q in
          let p := on_sym (λ s, set_subsym (sp_subsym s ++ [sp]) s) m p in
          first ← of_opt OutOfBounds (sp_subsym (the_sym p m) !! 0%nat);
          Ok (if ISLOWER (chr x 1) || ISLOWER (hd 0 (sp_name (the_sym p first))) then error p else p))) as Hrest.
  { intros m q Hq Hm Hs Hlq. new_sym sp t. pose proof (add_subsym_ok m sp _ Hb Hlt) as Hb2.
    pose proof (gw_length _ _ Hgr). cbv zeta.
    match goal with |- context [sp_subsym (the_sym ?q m) !! _] =>
      assert (sp_subsym (the_sym q m) = sp_subsym (sym (sy_heap t) m) ++ [sp]) as -> by
        (unfold the_sym; cbn [ps_gp on_sym with_gp upd_sym upd_tab g_tab sy_heap]; by rewrite symtab_sym_alter, decide_True by (split; [done|lia])) end.
    destruct (sp_subsym _); cbn [app of_opt lookup list_lookup]; (apply safe_Ok; [by destruct (_ || _)|]);
      destruct (_ || _); unfold state_ok; cbn; by rewrite Hs. }
  case_decide; [by apply Hrest|]. apply Hrest; [|cbn; rewrite length_app; cbn; lia|done|done].
  apply with_rule_ok; [by apply push_multi_ok|]. cbn. rewrite length_app. cbn.
  eapply parts_ok_insert; [| |apply Hp]; lia.
Qed.

Lemma in_rhs_safe x lineno p :
  body_ok p → ps_state p = IN_RHS → is_Some (lhs (ps_rule p)) → safe (in_rhs calloc_ok true true x lineno p).
Proof.
  intros Hp Hst Hl. unfold in_rhs. step.
  { destruct (finish_rule_safe lineno p Hp Hl) as (p'&->&Hb). quiet. }
  step.
  { step; [quiet|]. new_sym sp t. apply safe_Ok; [|unfold state_ok; cbn; by rewrite Hst].
    apply (with_rule_ok _ _ Hb). destruct (bo_parts _ _ _ _ Hb) as [P1 P2 P3]. constructor; cbn; [done|..].
    - apply Forall_app. split; [done|]. by constructor.
    - rewrite zlen_app. unfold zlen at 2. cbn. lia. }
  step; [|step; [|quiet]].
  - apply compound_safe; try done. intros Hn. rewrite Hn, andb_false_r in *. done.
  - apply safe_Ok; [done|]. split; [done|]. cbn. intros Hn. rewrite Hn, andb_false_r in *. done.
Qed.
Lemma rhs_alias_1_safe x p : body_ok p → is_Some (lhs (ps_rule p)) → rhs (ps_rule p) ≠ [] → safe (rhs_alias_1 x p).
Proof.
  intros Hp Hl Hr. unfold rhs_alias_1. destruct (last_entry _ Hr) as [[msp a] Hlast]. rewrite Hlast. cbn [of_opt mbind res_bind].
  step; [|quiet]. apply safe_Ok.
  - apply (with_rule_ok _ _ Hp). eapply parts_ok_insert; [done| |apply Hp].
    apply (Forall_lookup_1 _ _ _ _ (po_rhs _ _ (bo_parts _ _ _ _ Hp)) Hlast).
  - split; [done|]. cbn. intros Hn%(f_equal length). rewrite length_insert in Hn. by apply nil_length_inv in Hn.
Qed.
(** the alias of a right-hand side symbol is not closed, in a rule without an alias on its
    left: the message prints a null pointer *)
Definition unclosed (x : cstr) p : Prop := ps_state p = RHS_ALIAS_2 ∧ lhsalias (ps_rule p) = None ∧ chr x 0 ≠ 41.
Lemma rhs_alias_2_safe x p : body_ok p → ps_state p = RHS_ALIAS_2 → is_Some (lhs (ps_rule p)) →
  safe (rhs_alias_2 x p) ∨ rhs_alias_2 x p = Err NullDeref ∧ unclosed x p.
Proof.
  intros Hp Hs Hl. unfold rhs_alias_2. destruct (Z.eqb_spec (chr x 0) 41); [left; quiet|].
  destruct (lhsalias (ps_rule p)) eqn:E; cbn [of_opt mbind res_bind]; [left; quiet|by right].
Qed.

(** *** Declarations *)

Lemma decl_keyword_safe x p : body_ok p → safe (Ok (decl_keyword x p)).
Proof.
  intros Hp. unfold decl_keyword. destruct (ISALPHA _); [|quiet].
  set (d := mkDecl _ _ _ _ _ _ _ _). assert (decl_ok (length (heap (ps_gp p))) d) as Hd by (destruct (bo_decl _ _ _ _ Hp); by constructor).
  destruct (text_keyword (cs x)) as [[s line]|] eqn:E.
  - apply safe_Ok; [|by eexists]. apply (with_decl_ok _ _ Hp). destruct Hd. constructor; cbn; try done.
    revert E. unfold text_keyword. repeat case_decide; intros; by simplify_eq.
  - repeat case_decide; (apply safe_Ok; [|exact I]); apply (with_decl_ok _ _ Hp); destruct Hd; by constructor.
Qed.
Lemma destructor_symbol_safe x p : body_ok p → safe (destructor_symbol calloc_ok true x p).
Proof.
  intros Hp. unfold destructor_symbol. step; [quiet|]. new_sym sp t. apply safe_Ok; [|by eexists].
  apply (with_decl_ok _ _ Hb). destruct (bo_decl _ _ _ _ Hb). by constructor.
Qed.
Lemma datatype_symbol_safe x p : body_ok p → safe (datatype_symbol calloc_ok true x p).
Proof.
  intros Hp. unfold datatype_symbol. step; [quiet|]. pose proof (gr_tab _ (bo_gram _ _ _ _ Hp)) as Ht.
  unfold find_sym. destruct (Symbol_find_ok (g_tab (ps_gp p)) x Ht) as (r&->&Hi). cbn [mbind res_bind]. step; [quiet|].
  destruct r as [sp|].
  - apply safe_Ok; [|by eexists]. apply (with_decl_ok _ _ Hp). destruct (bo_decl _ _ _ _ Hp). constructor; try done.
    cbn. by apply (sy_lt _ Ht sp x), Hi.
  - new_sym sp t. apply safe_Ok; [|by eexists]. apply (with_decl_ok _ _ Hb). destruct (bo_decl _ _ _ _ Hb). by constructor.
Qed.
Lemma precedence_symbol_safe x p :
  body_ok p → ps_state p = WAITING_FOR_PRECEDENCE_SYMBOL → safe (precedence_symbol calloc_ok true x p).
Proof.
  intros Hp Hst. unfold precedence_symbol. waits Hq.
  step; [quiet|]. step; [|apply safe_Ok; [done|by apply Hq]]. new_sym sp t. step; apply safe_Ok; try done; try by apply Hq.
  apply (on_sym_ok _ _ (with_gp _ _)); [done|done| |done]. intros s [? ?]. by constructor.
Qed.

Lemma dec_digits_length fuel z acc : (length (dec_digits fuel z acc) ≤ fuel + length acc)%nat.
Proof.
  revert z acc. induction fuel as [|fuel IH]; intros z acc; cbn [dec_digits]; [lia|]. destruct (_ <? _); [|lia].
  etransitivity; [apply IH|]. cbn [length]. lia.
Qed.
Lemma print_dec_length z : zlen (print_dec z) ≤ 21.
Proof.
  unfold print_dec, zlen. pose proof (dec_digits_length 20 z []). pose proof (dec_digits_length 20 (- z) []).
  destruct (_ <? _); [|destruct (_ =? _)]; cbn [length] in *; lia.
Qed.
(** the lines are printed as [lemon_sprintf] prints them *)
Lemma dec_digits_fuel f f' v : v < 10 ^ Z.of_nat f → v < 10 ^ Z.of_nat f' → dec_digits f v [] = dec_digits f' v [].
Proof.
  revert f' v. induction f as [|f IH]; intros [|f'] v Hf Hf'; cbn [dec_digits]; [done|..].
  - rewrite (proj2 (Z.ltb_ge 0 v)) by (cbn in Hf; lia). done.
  - rewrite (proj2 (Z.ltb_ge 0 v)) by (cbn in Hf'; lia). done.
  - destruct (0 <? v); [|done]. rewrite dec_digits_app, (dec_digits_app f'), (IH f'); [done|..];
      rewrite Nat2Z.inj_succ, Z.pow_succ_r in Hf, Hf' by lia; apply Z.div_lt_upper_bound; lia.
Qed.
Lemma print_dec_render z : in32 z → print_dec z = render (PInt 0 z).
Proof.
  unfold in32, INT32_MIN, INT32_MAX. intros Hz. unfold print_dec, render, digits. assert (2147483648 < 10 ^ Z.of_nat 20 ∧ 2147483648 < 10 ^ Z.of_nat 50) by (cbn; lia).
  destruct (Z.ltb_spec z 0); [by rewrite (dec_digits_fuel 20 50) by lia|]. destruct (_ =? _); [done|].
  by rewrite justify_0, (dec_digits_fuel 20 50) by lia.
Qed.
Lemma escape_name_length z : zlen (escape_name z) = zlen z + count_backslashes z.
Proof.
  unfold count_backslashes, zlen. induction z as [|c z IH]; [done|]. cbn [escape_name]. rewrite filter_cons.
  destruct (Z.eqb_spec c 92); [rewrite decide_True by done|rewrite decide_False by done]; cbn [length]; lia.
Qed.
(** the directive and the text fit in what is allocated for them *)
Lemma line_text_fits zOld lineno :
  zlen (line_text filename zOld lineno).1 ≤ (line_text filename zOld lineno).2 + 4.
Proof.
  unfold line_text. cbn [fst snd]. rewrite !zlen_app, escape_name_length.
  assert (zlen (if negb (bool_decide (zOld = [])) && negb (default 0 (last zOld) =? 10) then [10] else []) ≤ 1)
    by (destruct (_ && _); unfold zlen; cbn; lia).
  assert (zlen [34] = 1 ∧ zlen [34; 10] = 2 ∧ zlen [32] = 1) as (E1&E2&E3) by done. lia.
Qed.
Lemma set_slot_text_ok s v p : body_ok p → body_ok (set_slot_text s v p).
Proof.
  intros Hp. assert (∀ s, body_ok (with_gp (upd_text s (Some v) (ps_gp p)) p)) as Htext.
  { intros s'. destruct Hp as [[? ? ? ? ? ? ?] ? ? ?]. by constructor; [constructor|..]. }
  destruct s; cbn [set_slot_text]; try apply Htext;
    (apply on_sym_ok; [done|done| |done]; intros s [? ?]; by constructor).
Qed.
Lemma decl_arg_safe x lineno p : body_ok p → is_Some (declargslot (ps_decl p)) → safe (decl_arg filename nolinenosflag x lineno p).
Proof.
  intros Hp [s Hs]. unfold decl_arg. step; [|quiet]. rewrite Hs. cbn [of_opt mbind res_bind].
  set (zOld := default [] (slot_text s p)). set (zNew := if _ || _ then drop 1 _ else _).
  set (add := negb nolinenosflag && _ && _ && _).
  pose proof (line_text_fits zOld lineno) as Hfit. destruct (line_text filename zOld lineno) as [zLine extra]. cbn [fst snd] in Hfit.
  assert (∀ q v, body_ok q → safe (Ok (go WAITING_FOR_DECL_OR_RULE (set_slot_text s v q)))) as Hend.
  { intros q v Hq. apply safe_Ok; [|exact I]. by apply (set_slot_text_ok s v q). }
  assert (∀ q sp, body_ok q → body_ok (on_sym (set_destLineno lineno) sp q)) as Hline.
  { intros q sp Hq. apply on_sym_ok; [done|done| |done]. intros s0 [? ?]. by constructor. }
  assert ((50 <? zlen (lit "#line " ++ print_dec lineno ++ [32]) + 1) = false) as ->.
  { rewrite !zlen_app. pose proof (print_dec_length lineno). change (zlen (lit "#line ")) with 6. change (zlen [32]) with 1. lia. }
  rewrite andb_false_r. cbn [orb].
  assert (zlen (zOld ++ (if add then zLine else []) ++ zNew) + 1 ≤ zlen zOld + zlen zNew + 20 + (if add then extra else 0)) as Hn.
  { rewrite !zlen_app. destruct add; [lia|]. change (zlen []) with 0. lia. }
  destruct add; (rewrite (proj2 (Z.ltb_ge _ _)) by exact Hn); apply Hend;
    (destruct (decllinenoslot (ps_decl p)) as [sp|]; [|done]; cbn; destruct (sp_destLineno _); by try apply Hline).
Qed.

(** *** Lists of tokens *)

Lemma fallback_id_safe x p : body_ok p → ps_state p = WAITING_FOR_FALLBACK_ID → safe (fallback_id calloc_ok true x p).
Proof.
  intros Hp Hst. waits Hq.
  unfold fallback_id. step; [quiet|]. step; [apply safe_Ok; [done|by apply Hq]|]. new_sym sp t.
  destruct (fallback _) as [f|] eqn:Ef.
  - destruct (sp_fallback _); (apply safe_Ok; [|by apply Hq]); [done|].
    assert (body_ok (on_sym (set_fallback (Some f)) sp (with_gp (upd_tab t (ps_gp p)) p))) as [[? ? ? ? ? ? ?] ? ? ?].
    { apply on_sym_ok; [done|done| |done]. intros s [? ?]. constructor; [|done].
      pose proof (do_fallback _ _ (bo_decl _ _ _ _ Hb)) as H. by rewrite Ef in H. }
    by constructor; [constructor|..].
  - apply safe_Ok; [|by apply Hq]. apply (with_decl_ok _ _ Hb). destruct (bo_decl _ _ _ _ Hb). by constructor.
Qed.
Lemma token_name_safe x p : body_ok p → ps_state p = WAITING_FOR_TOKEN_NAME → safe (token_name calloc_ok true x p).
Proof.
  intros Hp Hst. waits Hq.
  unfold token_name. step; [quiet|]. step; [apply safe_Ok; [done|by apply Hq]|]. new_sym sp t. apply safe_Ok; [done|by apply Hq].
Qed.
Lemma wildcard_id_safe x p : body_ok p → ps_state p = WAITING_FOR_WILDCARD_ID → safe (wildcard_id calloc_ok true x p).
Proof.
  intros Hp Hst. waits Hq.
  unfold wildcard_id. step; [quiet|]. step; [apply safe_Ok; [done|by apply Hq]|]. new_sym sp t.
  destruct (g_wildcard _); (apply safe_Ok; [|by apply Hq]); [done|]. destruct Hb as [[? ? ? ? ? ? ?] ? ? ?].
  by constructor; [constructor|..].
Qed.
Lemma class_id_safe x p : body_ok p → safe (class_id calloc_ok true x p).
Proof.
  intros Hp. unfold class_id. step; [quiet|].
  unfold find_sym. destruct (Symbol_find_ok (g_tab (ps_gp p)) x (gr_tab _ (bo_gram _ _ _ _ Hp))) as (r&->&Hi). cbn [mbind res_bind].
  destruct r; [quiet|]. new_sym sp t. apply safe_Ok; [|by eexists].
  assert (body_ok (on_sym (set_type MULTITERMINAL) sp (with_gp (upd_tab t (ps_gp p)) p))) as Hb2.
  { apply on_sym_ok; [done|done| |done]. intros s [? ?]. by constructor. }
  apply (with_decl_ok _ _ Hb2). destruct (bo_decl _ _ _ _ Hb2). constructor; cbn; try done. by rewrite length_alter.
Qed.
Lemma class_token_safe x p :
  body_ok p → ps_state p = WAITING_FOR_CLASS_TOKEN → is_Some (tkclass (ps_decl p)) → safe (class_token calloc_ok true x p).
Proof.
  intros Hp Hst Hc. unfold class_token. step; [quiet|]. step; [|quiet]. destruct (Hc) as [msp Hm]. rewrite Hm. cbn [of_opt mbind res_bind].
  new_sym sp t. apply safe_Ok; [by apply add_subsym_ok|]. unfold state_ok. cbn. by rewrite Hst.
Qed.
Lemma resync_safe x p : body_ok p → ps_state p = RESYNC_AFTER_RULE_ERROR ∨ ps_state p = RESYNC_AFTER_DECL_ERROR → safe (Ok (resync x p)).
Proof.
  intros Hp Hst. unfold resync. apply safe_Ok; [by destruct (_ =? 46), (_ =? 37)|].
  destruct (_ =? 46), (_ =? 37); try exact I. unfold state_ok. by destruct Hst as [-> | ->].
Qed.

(** ** One token, and all *)

Lemma parse_state_safe x lineno q : reader_ok q →
  safe (parse_state calloc_ok true true filename nolinenosflag x lineno q) ∨
  parse_state calloc_ok true true filename nolinenosflag x lineno q = Err NullDeref ∧ unclosed x q.
Proof.
  intros [Hq Hsq]. destruct (decide (ps_state q = RHS_ALIAS_2)) as [Es|Hne].
  { unfold parse_state, state_ok in *. rewrite Es in *. destruct Hsq. by apply rhs_alias_2_safe. }
  left. unfold parse_state. revert Hsq. unfold state_ok. destruct (ps_state q) eqn:Es; intros Hsq.
  - apply decl_or_rule_safe; [by apply initialize_ok|]. right. split; [exact Es|exact Hsq].
  - apply decl_or_rule_safe; auto.
  - by apply decl_keyword_safe.
  - by apply decl_arg_safe.
  - by apply precedence_symbol_safe.
  - by apply waiting_for_arrow_safe.
  - by apply in_rhs_safe.
  - by apply lhs_alias_1_safe.
  - by apply lhs_alias_2_safe.
  - by apply lhs_alias_3_safe.
  - destruct Hsq. by apply rhs_alias_1_safe.
  - done.
  - by apply precedence_mark_1_safe.
  - by apply precedence_mark_2_safe.
  - apply resync_safe; auto.
  - apply resync_safe; auto.
  - by apply destructor_symbol_safe.
  - by apply datatype_symbol_safe.
  - by apply fallback_id_safe.
  - by apply wildcard_id_safe.
  - by apply class_id_safe.
  - by apply class_token_safe.
  - by apply token_name_safe.
Qed.
(** saving the text of the token changes nothing else *)
Lemma save_token x lineno p :
  reader_ok p → ∃ ss, let t := g_tab (ps_gp p) in
    let q := with_gp (upd_tab (mkSymtab (sy_heap t) (x2a t) ss) (ps_gp p)) p in
    parseonetoken calloc_ok true true filename nolinenosflag x lineno p = parse_state calloc_ok true true filename nolinenosflag x lineno q ∧ reader_ok q.
Proof.
  intros [Hp Hst]. destruct (Strsafe_ok calloc_ok x (sy_str (g_tab (ps_gp p)))) as (a&ss&Hs&Hss&_); [apply Hp|done|].
  exists ss. unfold parseonetoken. rewrite Hs. split; [done|]. split; [|exact Hst].
  pose proof (bo_gram _ _ _ _ Hp) as Hg. apply body_grows; [done| | |apply Hg].
  - destruct (gr_tab _ Hg). by constructor.
  - constructor; cbn; intros; try done; lia.
Qed.
Lemma parseonetoken_safe x lineno p : reader_ok p →
  safe (parseonetoken calloc_ok true true filename nolinenosflag x lineno p) ∨
  parseonetoken calloc_ok true true filename nolinenosflag x lineno p = Err NullDeref ∧ unclosed x p.
Proof. intros Hp. destruct (save_token x lineno p Hp) as (ss&->&Hq). by destruct (parse_state_safe x lineno _ Hq) as [?|[? ?]]; [left|right]. Qed.
End Safe.
