(* ===== verification/LemonScan.v ===== *)
(** The scanner of grammar files ([src/sql/lemon.c], [Parse]): white space, comments,
    strings, blocks of C code, names and operators, each token with its line, passed
    to [parseonetoken] one by one. The buffer is the list of its characters before
    the NUL; a read behind the NUL is out of bounds. *)
From S2P Require Import Prelude LemonTable LemonData LemonFirst LemonSymbol LemonPreproc LemonRead.

(** a C string ends at the first NUL *)
Fixpoint before_nul (s : str) : str :=
  match s with
  | [] => []
  | c :: s => if c =? 0 then [] else c :: before_nul s
  end.
Lemma before_nul_id s : cstring s → before_nul s = s.
Proof. induction 1 as [|c s Hc Hs IH]; [done|]. cbn [before_nul]. by rewrite (proj2 (Z.eqb_neq c 0)), IH. Qed.
Lemma before_nul_ok s : bool_decide (cstring (before_nul s)).
Proof.
  rewrite bool_decide_spec. induction s as [|c s IH]; [constructor|]. cbn [before_nul].
  destruct (Z.eqb_spec c 0); constructor; done.
Qed.
Definition to_cstr (s : str) : cstr := before_nul s ↾ before_nul_ok s.

Definition next_line (c lineno : Z) : Z := if c =? 10 then lineno + 1 else lineno.

(** ** Comments between tokens *)

Fixpoint skip_line (s : str) : str :=
  match s with
  | [] => []
  | c :: s' => if c =? 10 then s else skip_line s'
  end.
(** [prev] is [cp[-1]] *)
Fixpoint skip_comment (prev : Z) (s : str) (lineno : Z) : str * Z :=
  match s with
  | [] => ([], lineno)
  | c :: s => if (c =? 47) && (prev =? 42) then (s, lineno) else skip_comment c s (next_line c lineno)
  end.

(** ** Strings and blocks of code *)

(** up to the closing quote or the end *)
Fixpoint string_end (s : str) (lineno : Z) : str * Z :=
  match s with
  | [] => ([], lineno)
  | c :: s' => if c =? 34 then (s, lineno) else string_end s' (next_line c lineno)
  end.

(** the loops within a block of code; the loop around them steps over the character
    they stop at, so [None], the NUL, is left behind *)
Fixpoint code_comment (prevc : Z) (s : str) (lineno : Z) : option (str * Z) :=
  match s with
  | [] => None
  | c :: s => if (c =? 47) && (prevc =? 42) then Some (s, lineno) else code_comment c s (next_line c lineno)
  end.
Fixpoint code_line (s : str) (lineno : Z) : option (str * Z) :=
  match s with
  | [] => None
  | c :: s => if c =? 10 then Some (s, lineno + 1) else code_line s lineno
  end.
Fixpoint code_literal (startchar prevc : Z) (s : str) (lineno : Z) : option (str * Z) :=
  match s with
  | [] => None
  | c :: s =>
      if (c =? startchar) && negb (prevc =? 92) then Some (s, lineno)
      else code_literal startchar (if prevc =? 92 then 0 else c) s (next_line c lineno)
  end.
(** up to the brace that closes the block or the end *)
Fixpoint code_end (fuel : nat) (level : Z) (s : str) (lineno : Z) : res (str * Z) :=
  match fuel with
  | O => Err OutOfFuel
  | S fuel =>
      match s with
      | [] => Ok ([], lineno)
      | c :: s' =>
          if negb ((1 <? level) || negb (c =? 125)) then Ok (s, lineno)
          else if c =? 10 then code_end fuel level s' (lineno + 1)
          else if c =? 123 then code_end fuel (level + 1) s' lineno
          else if c =? 125 then code_end fuel (level - 1) s' lineno
          else if (c =? 47) && (hd 0 s' =? 42) then
            let* (s, lineno) := of_opt OutOfBounds (code_comment 0 (tail s') lineno) in code_end fuel level s lineno
          else if (c =? 47) && (hd 0 s' =? 47) then
            let* (s, lineno) := of_opt OutOfBounds (code_line (tail s') lineno) in code_end fuel level s lineno
          else if (c =? 39) || (c =? 34) then
            let* (s, lineno) := of_opt OutOfBounds (code_literal c 0 s' lineno) in code_end fuel level s lineno
          else code_end fuel level s' lineno
      end
  end.

(** ** One token *)

(** the token that begins with [c]: its length, where the next one begins, the line
    there, and whether it is left open at the end of the file *)
Definition scan_token (c : Z) (s : str) (lineno : Z) : res (nat * str * Z * bool) :=
  let len (r : str) := (S (length s) - length r)%nat in
  if c =? 34 then
    let '(r, lineno) := string_end s lineno in
    Ok (len r, tail r, lineno, bool_decide (r = []))
  else if c =? 123 then
    let* (r, lineno) := code_end (S (length s)) 1 s lineno in
    Ok (len r, tail r, lineno, bool_decide (r = []))
  else if ISALNUM c then
    let r := (span_name s).2 in Ok (len r, r, lineno, false)
  else if (c =? 58) && (hd 0 s =? 58) && (hd 0 (tail s) =? 61) then
    let r := tail (tail s) in Ok (len r, r, lineno, false)
  else if ((c =? 47) || (c =? 124)) && ISALPHA (hd 0 s) then
    let r := (span_name (tail s)).2 in Ok (len r, r, lineno, false)
  else Ok (1%nat, s, lineno, false).

Section Scan.
Context (calloc_ok : Z → bool) (malloc_ok : bool) (rule_ok : bool) (filename : str) (nolinenosflag : bool).

(** ** The file *)

Fixpoint Parse_loop (fuel : nat) (s : str) (lineno : Z) (p : pstate) : res pstate :=
  match fuel with
  | O => Err OutOfFuel
  | S fuel =>
      match s with
      | [] => Ok p
      | c :: s' =>
          let lineno := next_line c lineno in
          if ISSPACE c then Parse_loop fuel s' lineno p
          else if (c =? 47) && (hd 0 s' =? 47) then Parse_loop fuel (skip_line (tail s')) lineno p
          else if (c =? 47) && (hd 0 s' =? 42) then
            let '(s, lineno) := skip_comment 42 (tail s') lineno in Parse_loop fuel s lineno p
          else
            let* (n, rest, lineno', bad) := scan_token c s' lineno in
            let p := if (bad : bool) then error p else p in
            p ← parseonetoken calloc_ok malloc_ok rule_ok filename nolinenosflag (to_cstr (take n s)) lineno p;
            Parse_loop fuel rest lineno' p
      end
  end.

(** [memset] of the state, with the table of symbols as it is *)
Definition pstate0 (t : symtab) : pstate :=
  mkPstate INITIALIZE 0 None (mkParts None None []) (mkDecl None None None None false None LEFT 0) (mkGrammar t [] [] 0 (λ _, None) None false).

(** [Parse]: the rules, the number of errors and the rest of the grammar. [file] is
    what reading the file gives, nothing when it fails; [azDefine] are the macros;
    printing the preprocessed text is output *)
Definition Parse (azDefine : list str) (file : option str) (printPreprocessed : bool) (t : symtab) : res (list nat * Z * grammar) :=
  match file with
  | None => Ok ([], 1, ps_gp (pstate0 t))
  | Some filebuf =>
      text ← preprocess_input azDefine (before_nul filebuf);
      if printPreprocessed then Ok ([], 0, ps_gp (pstate0 t))
      else
        p ← Parse_loop (S (length text)) text 1 (pstate0 t);
        Ok (g_list (ps_gp p), errorcnt p, ps_gp p)
  end.
End Scan.
