(* ===== verification/LemonScanSpec.v ===== *)
(** What the scanner of grammar files finds: the text is cut into gaps (white space
    and comments) and tokens, each token is given its line, and nothing is read
    behind the end unless a comment or literal within a block of code is left open. *)
From S2P Require Import Prelude LemonTable LemonData LemonFirst LemonSymbol LemonPreproc LemonRead LemonReadSpec LemonScan.

(** ** Texts *)

Definition newlines (s : str) : Z := zlen (filter (λ c, c = 10) s).
Lemma newlines_app s t : newlines (s ++ t) = newlines s + newlines t.
Proof. unfold newlines. by rewrite filter_app, zlen_app. Qed.
Lemma newlines_cons c s lineno : lineno + newlines (c :: s) = next_line c lineno + newlines s.
Proof.
  unfold newlines, next_line, zlen. rewrite filter_cons.
  destruct (Z.eqb_spec c 10); [rewrite decide_True by done|rewrite decide_False by done]; cbn [length]; lia.
Qed.
Lemma newlines_head c s : newlines (c :: s) = newlines [c] + newlines s.
Proof. apply (newlines_app [c] s). Qed.
Lemma newlines_none s : Forall (λ c, c ≠ 10) s → newlines s = 0.
Proof.
  induction 1 as [|c s Hc Hs IH]; [done|]. pose proof (newlines_cons c s 0). unfold next_line in *.
  rewrite (proj2 (Z.eqb_neq c 10)) in * by done. lia.
Qed.

(** a comment up to its end, the first star and slash; [prev] is the character before *)
Definition comment_end (prev : Z) (t : str) : Prop :=
  (∃ u, prev :: t = u ++ [42; 47]) ∧ ∀ u v, prev :: t = u ++ [42; 47] ++ v → v = [].
(** a literal after its opening quote: a backslash takes the next character with it *)
Inductive literal (q : Z) : str → Prop :=
  | literal_end : literal q [q]
  | literal_char c t : c ≠ q → c ≠ 92 → literal q t → literal q (c :: t)
  | literal_escape c t : literal q t → literal q (92 :: c :: t).
(** C code that leads from one depth of braces to another *)
Inductive block : Z → str → Z → Prop :=
  | block_nil l : block l [] l
  | block_open l s m : block (l + 1) s m → block l (123 :: s) m
  | block_close l s m : 1 < l → block (l - 1) s m → block l (125 :: s) m
  | block_char l c s m : c ∉ [123; 125; 39; 34] → (c = 47 → hd 0 s ∉ [42; 47]) → block l s m → block l (c :: s) m
  | block_comment l t s m : comment_end 0 t → block l s m → block l (47 :: 42 :: t ++ s) m
  | block_line l t s m : Forall (λ c, c ≠ 10) t → block l s m → block l (47 :: 47 :: t ++ 10 :: s) m
  | block_literal l q t s m : q ∈ [39; 34] → literal q t → block l s m → block l (q :: t ++ s) m.
(** the start of a comment or literal that the text does not end *)
Inductive open_item : str → Prop :=
  | open_comment t : (∀ u v, t = u ++ v → ¬ comment_end 0 u) → open_item (47 :: 42 :: t)
  | open_line t : Forall (λ c, c ≠ 10) t → open_item (47 :: 47 :: t)
  | open_literal q t : q ∈ [39; 34] → (∀ u v, t = u ++ v → ¬ literal q u) → open_item (q :: t).
Definition left_open (s : str) : Prop := ∃ u b v m, s = u ++ 123 :: b ++ v ∧ block 1 b m ∧ open_item v.

(** ** Blocks of code *)

Lemma code_comment_spec prev s lineno :
  match code_comment prev s lineno with
  | Some (r, lineno') => ∃ t, s = t ++ r ∧ lineno' = lineno + newlines t ∧ comment_end prev t
  | None => ∀ t v, s = t ++ v → ¬ comment_end prev t
  end.
Proof.
  revert prev lineno. induction s as [|c s IH]; intros prev lineno; cbn [code_comment].
  - intros t v Ht [[u Hu] _]. symmetry in Ht. apply app_nil in Ht as [-> ->]. by destruct u as [|? [|? ?]].
  - destruct ((c =? 47) && (prev =? 42)) eqn:E.
    + apply andb_true_iff in E as [->%Z.eqb_eq ->%Z.eqb_eq]. exists [47]. split; [done|].
      split; [change (newlines [47]) with 0; lia|]. split; [by exists []|].
      intros [|? [|? [|? ?]]] v Hv; try done. cbn in Hv. by injection Hv as <-.
    + assert (∀ t, comment_end prev (c :: t) ↔ comment_end c t) as Hstep.
      { intros t. split; intros [[u Hu] Hfirst].
        - destruct u as [|d u]; [injection Hu as -> -> ->; done|]. injection Hu as <- Hu. split; [by exists u|].
          intros u' v Hv. apply (Hfirst (prev :: u')). cbn. by f_equal.
        - split; [exists (prev :: u); cbn; by f_equal|]. intros u' v Hv. destruct u' as [|d u']; [injection Hv as -> -> ->; done|].
          injection Hv as <- Hv. by apply (Hfirst u'). }
      specialize (IH c (next_line c lineno)). destruct (code_comment c s _) as [[r lineno']|].
      * destruct IH as (t&->&->&Hu). exists (c :: t). split; [done|]. split; [by rewrite newlines_cons|]. by apply Hstep.
      * intros [|d t] v Ht Hl.
        { destruct Hl as [[u Hu] _]. by destruct u as [|? [|? ?]]. }
        cbn in Ht. injection Ht as -> Ht. apply Hstep in Hl. by eapply IH.
Qed.
Lemma code_line_spec s lineno :
  match code_line s lineno with
  | Some (r, lineno') => ∃ t, s = t ++ 10 :: r ∧ Forall (λ c, c ≠ 10) t ∧ lineno' = lineno + 1
  | None => Forall (λ c, c ≠ 10) s
  end.
Proof.
  induction s as [|c s IH]; cbn [code_line]; [constructor|]. destruct (Z.eqb_spec c 10) as [->|Hc].
  - by exists [].
  - destruct (code_line s lineno) as [[r lineno']|]; [|by constructor].
    destruct IH as (t&->&Ht&->). exists (c :: t). split; [done|]. split; [by constructor|done].
Qed.
(** what completes a literal, by the character before *)
Definition literal_from (q prevc : Z) (t : str) : Prop :=
  if decide (prevc = 92) then ∃ c t', t = c :: t' ∧ literal q t' else literal q t.
Lemma code_literal_spec q prevc s lineno :
  q ∈ [39; 34] →
  match code_literal q prevc s lineno with
  | Some (r, lineno') => ∃ t, s = t ++ r ∧ lineno' = lineno + newlines t ∧ literal_from q prevc t
  | None => ∀ t v, s = t ++ v → ¬ literal_from q prevc t
  end.
Proof.
  intros Hq. assert (q ≠ 92 ∧ newlines [q] = 0) as [Hq92 Hq10].
  { apply elem_of_cons in Hq as [->|Hq%list_elem_of_singleton]; [done|]. by subst. }
  clear Hq. revert prevc lineno. induction s as [|c s IH]; intros prevc lineno; cbn [code_literal].
  - intros t v Ht Hl. symmetry in Ht. apply app_nil in Ht as [-> ->]. unfold literal_from in Hl.
    case_decide; [naive_solver|inversion Hl].
  - assert (∀ t, literal_from q prevc (c :: t) ↔
      (c = q ∧ prevc ≠ 92 ∧ t = []) ∨ ((c =? q) && negb (prevc =? 92) = false ∧ literal_from q (if prevc =? 92 then 0 else c) t)) as Hstep.
    { intros t. unfold literal_from. destruct (Z.eqb_spec prevc 92) as [->|Hp].
      - rewrite andb_false_r, decide_True, decide_False by done. split.
        + intros (d&t'&[= -> ->]&Hl). by right.
        + intros [(_&?&_)|[_ Hl]]; [done|]. by exists c, t.
      - rewrite decide_False by done. cbn [negb]. rewrite andb_true_r. split.
        + inversion 1; subst; [by left|right; split; [by apply Z.eqb_neq|by rewrite decide_False]|].
          right. split; [apply Z.eqb_neq; congruence|]. rewrite decide_True by done. by eexists _, _.
        + intros [(->&_&->)|[Hc%Z.eqb_neq Hl]]; [constructor|]. case_decide; [|by constructor].
          destruct Hl as (d&t'&->&Hl). subst c. by constructor. }
    destruct ((c =? q) && negb (prevc =? 92)) eqn:E.
    + apply andb_true_iff in E as [->%Z.eqb_eq Hp%negb_true_iff%Z.eqb_neq]. exists [q]. split; [done|]. split; [lia|].
      apply Hstep. by left.
    + specialize (IH (if prevc =? 92 then 0 else c) (next_line c lineno)). destruct (code_literal _ _ _ _) as [[r lineno']|].
      * destruct IH as (t&->&->&Hl). exists (c :: t). split; [done|]. split; [by rewrite newlines_cons|]. apply Hstep. by right.
      * intros [|d t] v Ht Hl.
        { unfold literal_from in Hl. case_decide; [naive_solver|inversion Hl]. }
        cbn in Ht. injection Ht as -> Ht. apply Hstep in Hl as [(->&Hp&_)|[_ Hl]]; [|by eapply IH].
        apply andb_false_iff in E as [?%Z.eqb_neq|?%negb_false_iff%Z.eqb_eq]; done.
Qed.

Lemma code_end_spec fuel l s lineno :
  (length s < fuel)%nat → 1 ≤ l →
  match code_end fuel l s lineno with
  | Ok (r, lineno') => ∃ b m, s = b ++ r ∧ block l b m ∧ lineno' = lineno + newlines b ∧ (r = [] ∨ m = 1 ∧ hd 0 r = 125)
  | Err e => e = OutOfBounds ∧ ∃ b v m, s = b ++ v ∧ block l b m ∧ open_item v
  end.
Proof.
  revert l s lineno. induction fuel as [|fuel IH]; intros l s lineno Hf Hl; [lia|]. cbn [code_end].
  destruct s as [|c s]; [exists [], l; split_and!; [done|constructor|change (newlines []) with 0; lia|by left]|]. cbn [length] in Hf.
  (* a step over the text [a] *)
  assert (∀ a s' l' lineno0, c :: s = a ++ s' → (length s' ≤ length s)%nat → 1 ≤ l' → lineno0 = lineno + newlines a →
    (∀ b r m, s' = b ++ r → block l' b m → block l (a ++ b) m) →
    match code_end fuel l' s' lineno0 with
    | Ok (r, lineno') => ∃ b m, c :: s = b ++ r ∧ block l b m ∧ lineno' = lineno + newlines b ∧ (r = [] ∨ m = 1 ∧ hd 0 r = 125)
    | Err e => e = OutOfBounds ∧ ∃ b v m, c :: s = b ++ v ∧ block l b m ∧ open_item v
    end) as Hstep.
  { intros a s' l' lineno0 Hs Hlen Hl' Hn Hb. specialize (IH l' s' lineno0 ltac:(lia) Hl').
    destruct (code_end fuel l' s' lineno0) as [[r lineno']|e].
    - destruct IH as (b&m&->&Hbl&->&Hr). exists (a ++ b), m. rewrite Hs, <- app_assoc, newlines_app, Hn.
      split_and!; [done|by eapply Hb|lia|done].
    - destruct IH as (He&b&v&m&->&Hbl&Ho). split; [done|]. exists (a ++ b), v, m. rewrite Hs, <- app_assoc.
      split_and!; [done|by eapply Hb|done]. }
  destruct (negb _) eqn:E1.
  { apply negb_true_iff, orb_false_iff in E1 as [?%Z.ltb_ge ->%negb_false_iff%Z.eqb_eq].
    exists [], l. split_and!; [done|constructor|change (newlines []) with 0; lia|]. right. split; [lia|done]. }
  destruct (Z.eqb_spec c 10) as [->|H10].
  { apply (Hstep [10]); [done|done|done|done|]. intros. apply block_char; [set_solver|done|done]. }
  destruct (Z.eqb_spec c 123) as [->|H123].
  { apply (Hstep [123]); [done|done|lia|change (newlines [123]) with 0; lia|]. intros. by constructor. }
  destruct (Z.eqb_spec c 125) as [->|H125].
  { change (125 =? 125) with true in E1. cbn [negb] in E1. rewrite orb_false_r in E1. apply negb_false_iff, Z.ltb_lt in E1.
    apply (Hstep [125]); [done|done|lia|change (newlines [125]) with 0; lia|]. intros. by constructor. }
  assert (newlines [c] = 0) as Hc by (apply newlines_none; by repeat constructor).
  destruct ((c =? 47) && (hd 0 s =? 42)) eqn:E2.
  { apply andb_true_iff in E2 as [->%Z.eqb_eq E2%Z.eqb_eq]. destruct s as [|d s]; [done|]. cbn in E2. subst d. cbn [tail].
    pose proof (code_comment_spec 0 s lineno) as Hs. destruct (code_comment 0 s lineno) as [[r lineno']|].
    - destruct Hs as (t&->&->&Ht). cbn [of_opt]. apply (Hstep (47 :: 42 :: t)); [done|cbn [length]; rewrite length_app; lia|done|by rewrite !newlines_cons|].
      intros. by constructor.
    - split; [done|]. exists [], (47 :: 42 :: s), l. split_and!; [done|constructor|by constructor]. }
  destruct ((c =? 47) && (hd 0 s =? 47)) eqn:E3.
  { apply andb_true_iff in E3 as [->%Z.eqb_eq E3%Z.eqb_eq]. destruct s as [|d s]; [done|]. cbn in E3. subst d. cbn [tail].
    pose proof (code_line_spec s lineno) as Hs. destruct (code_line s lineno) as [[r lineno']|].
    - destruct Hs as (t&->&Ht&->). cbn [of_opt]. apply (Hstep (47 :: 47 :: t ++ [10])); [cbn; by rewrite <- app_assoc|..].
      + cbn [length]. rewrite length_app. cbn. lia.
      + done.
      + rewrite !newlines_cons, newlines_app, (newlines_none t Ht). done.
      + intros. cbn. rewrite <- app_assoc. by constructor.
    - split; [done|]. exists [], (47 :: 47 :: s), l. split_and!; [done|constructor|by constructor]. }
  destruct ((c =? 39) || (c =? 34)) eqn:E4.
  { assert (c ∈ [39; 34]) as Hq by (apply orb_true_iff in E4 as [->%Z.eqb_eq| ->%Z.eqb_eq]; set_solver).
    pose proof (code_literal_spec c 0 s lineno Hq) as Hs. destruct (code_literal c 0 s lineno) as [[r lineno']|].
    - destruct Hs as (t&->&->&Ht). cbn [of_opt].
      apply (Hstep (c :: t)); [done|rewrite length_app; lia|done|rewrite newlines_head; lia|]. intros. by constructor.
    - split; [done|]. exists [], (c :: s), l. split_and!; [done|constructor|by constructor]. }
  apply (Hstep [c]); [done|done|done|lia|]. intros b r m -> Hb. apply block_char; [..|done].
  - apply orb_false_iff in E4 as [?%Z.eqb_neq ?%Z.eqb_neq]. rewrite !elem_of_cons, elem_of_nil. naive_solver.
  - intros ->. destruct b as [|d b]; [set_solver|]. cbn in E2, E3 |- *. apply Z.eqb_neq in E2, E3. set_solver.
Qed.

(** ** Tokens *)

(** a token, the character that closes it, what follows, and whether it is left open *)
Inductive token : str → str → str → bool → Prop :=
  | token_string b s : Forall (λ c, c ≠ 34) b → token (34 :: b) [34] s false
  | token_open_string b : Forall (λ c, c ≠ 34) b → token (34 :: b) [] [] true
  | token_code b s : block 1 b 1 → token (123 :: b) [125] s false
  | token_open_code b m : block 1 b m → token (123 :: b) [] [] true
  | token_word c n s : ISALNUM c = true → Forall (λ d, id_char d = true) n → id_char (hd 0 s) = false → token (c :: n) [] s false
  | token_arrow s : token [58; 58; 61] [] s false
  | token_alternative c d n s : c ∈ [47; 124] → ISALPHA d = true → Forall (λ d, id_char d = true) n → id_char (hd 0 s) = false →
      token (c :: d :: n) [] s false
  | token_char c s : c ∉ [34; 123] → ISSPACE c = false → ISALNUM c = false → (c = 58 → take 2 s ≠ [58; 61]) →
      (c ∈ [47; 124] → ISALPHA (hd 0 s) = false) → (c = 47 → hd 0 s ∉ [42; 47]) → token [c] [] s false.

(** the tokens of a text that begins on a line *)
Inductive scanned : Z → str → list (str * Z * bool) → Prop :=
  | scanned_end l : scanned l [] []
  | scanned_space l c s toks : ISSPACE c = true → scanned (l + newlines [c]) s toks → scanned l (c :: s) toks
  | scanned_line l t s toks : Forall (λ c, c ≠ 10) t → s = [] ∨ hd 0 s = 10 → scanned l s toks → scanned l (47 :: 47 :: t ++ s) toks
  | scanned_comment l t s toks : comment_end 42 t → scanned (l + newlines t) s toks → scanned l (47 :: 42 :: t ++ s) toks
  | scanned_open_comment l t : (∀ u v, t = u ++ v → ¬ comment_end 42 u) → scanned l (47 :: 42 :: t) []
  | scanned_token l raw close s bad toks :
      token raw close s bad → scanned (l + newlines (raw ++ close)) s toks → scanned l (raw ++ close ++ s) ((raw, l, bad) :: toks).

Lemma string_end_spec s lineno :
  let '(r, lineno') := string_end s lineno in
  ∃ b, s = b ++ r ∧ Forall (λ c, c ≠ 34) b ∧ lineno' = lineno + newlines b ∧ (r = [] ∨ hd 0 r = 34).
Proof.
  revert lineno. induction s as [|c s IH]; intros lineno; cbn [string_end].
  - exists []. split_and!; [done|constructor|change (newlines []) with 0; lia|by left].
  - destruct (Z.eqb_spec c 34) as [->|Hc].
    + exists []. split_and!; [done|constructor|change (newlines []) with 0; lia|by right].
    + specialize (IH (next_line c lineno)). destruct (string_end s _) as [r lineno']. destruct IH as (b&->&Hb&->&Hr).
      exists (c :: b). split_and!; [done|by constructor|by rewrite newlines_cons|done].
Qed.
Lemma span_name_spec s :
  s = (span_name s).1 ++ (span_name s).2 ∧ Forall (λ d, id_char d = true) (span_name s).1 ∧ id_char (hd 0 (span_name s).2) = false.
Proof.
  induction s as [|c s IH]; cbn [span_name]; [by repeat constructor|]. destruct (id_char c) eqn:E; [|by repeat constructor].
  destruct (span_name s) as [a b]. cbn in *. destruct IH as (->&Ha&Hb). split; [done|]. split; [by constructor|done].
Qed.
Lemma id_no_newline n : Forall (λ d, id_char d = true) n → newlines n = 0.
Proof. intros Hn. apply newlines_none. eapply Forall_impl; [exact Hn|]. intros c Hc ->. vm_compute in Hc. discriminate. Qed.

Lemma left_open_app a s : left_open s → left_open (a ++ s).
Proof. intros (u&b&v&m&->&Hb&Hv). exists (a ++ u), b, v, m. split; [by rewrite <- app_assoc|done]. Qed.

Lemma scan_token_spec c s lineno :
  ISSPACE c = false → (c = 47 → hd 0 s ∉ [42; 47]) →
  match scan_token c s lineno with
  | Ok (n, rest, lineno', bad) => ∃ raw close, c :: s = raw ++ close ++ rest ∧ n = length raw ∧ token raw close rest bad ∧
      lineno' = lineno + newlines (raw ++ close)
  | Err e => e = OutOfBounds ∧ left_open (c :: s)
  end.
Proof.
  intros Hsp Hcm. unfold scan_token.
  assert (∀ a r, s = a ++ r → (S (length s) - length r)%nat = length (c :: a)) as Hlen.
  { intros a r ->. rewrite length_app. cbn [length]. lia. }
  destruct (Z.eqb_spec c 34) as [->|H34].
  { pose proof (string_end_spec s lineno) as Hs. destruct (string_end s lineno) as [r lineno']. destruct Hs as (b&->&Hb&->&Hr).
    destruct r as [|d r].
    - exists (34 :: b), []. rewrite !app_nil_r. split; [done|]. split; [rewrite <- (app_nil_r b) at 1; by apply Hlen|].
      split; [by constructor|]. by rewrite newlines_cons.
    - destruct Hr as [|Hr]; [done|]. cbn in Hr. subst d. exists (34 :: b), [34]. split; [done|]. split; [by apply Hlen|].
      split; [by constructor|]. rewrite newlines_app. pose proof (newlines_cons 34 b lineno) as Hn.
      change (next_line 34 lineno) with lineno in Hn. change (newlines [34]) with 0. lia. }
  destruct (Z.eqb_spec c 123) as [->|H123].
  { pose proof (code_end_spec (S (length s)) 1 s lineno ltac:(lia) ltac:(lia)) as Hs.
    destruct (code_end _ _ _ _) as [[r lineno']|e].
    - destruct Hs as (b&m&->&Hb&->&Hr). pose proof (newlines_cons 123 b lineno) as Hn. change (next_line 123 lineno) with lineno in Hn.
      destruct r as [|d r].
      + exists (123 :: b), []. rewrite !app_nil_r. split; [done|]. split; [rewrite <- (app_nil_r b) at 1; by apply Hlen|].
        split; [by econstructor|done].
      + destruct Hr as [|[-> Hr]]; [done|]. cbn in Hr. subst d. exists (123 :: b), [125]. split; [done|]. split; [by apply Hlen|].
        split; [by constructor|]. rewrite newlines_app. change (newlines [125]) with 0. lia.
    - destruct Hs as (->&b&v&m&->&Hb&Ho). split; [done|]. by exists [], b, v, m. }
  assert (newlines [c] = 0) as Hc.
  { apply newlines_none. constructor; [|done]. intros ->. done. }
  destruct (ISALNUM c) eqn:Eal.
  { destruct (span_name_spec s) as (Hs&Hn&Hr). exists (c :: (span_name s).1), []. rewrite app_nil_r. split; [cbn; by f_equal|].
    split; [by apply Hlen|]. split; [by constructor|].
    rewrite newlines_head, (id_no_newline _ Hn). lia. }
  destruct ((c =? 58) && _ && _) eqn:Earr.
  { apply andb_true_iff in Earr as [[->%Z.eqb_eq E1%Z.eqb_eq]%andb_true_iff E2%Z.eqb_eq].
    destruct s as [|d [|e s]]; [done|done|]. cbn in E1, E2. subst d e. exists [58; 58; 61], []. split; [done|].
    split; [cbn [length tail]; lia|]. split; [apply token_arrow|]. change (newlines _) with 0. lia. }
  destruct (((c =? 47) || (c =? 124)) && _) eqn:Ealt.
  { apply andb_true_iff in Ealt as [E1 E2]. destruct s as [|d s]; [done|]. cbn [hd tail] in *.
    assert (c ∈ [47; 124]) by (apply orb_true_iff in E1 as [->%Z.eqb_eq| ->%Z.eqb_eq]; set_solver).
    destruct (span_name_spec s) as (Hs&Hn&Hr). exists (c :: d :: (span_name s).1), []. rewrite app_nil_r. split; [cbn; by do 2 f_equal|].
    split; [apply (Hlen (d :: (span_name s).1)); cbn; by f_equal|]. split; [by apply token_alternative|].
    rewrite newlines_head, (id_no_newline (d :: _)); [lia|]. constructor; [|done]. unfold id_char, ISALNUM. by rewrite E2. }
  exists [c], []. split; [done|]. split; [done|]. split; [|rewrite app_nil_r; lia]. apply token_char; try done.
  - rewrite !elem_of_cons, elem_of_nil. naive_solver.
  - intros -> Hs. destruct s as [|d [|e s]]; [done|done|]. cbn in Hs. injection Hs as -> ->. done.
  - intros Hin. apply andb_false_iff in Ealt as [E1|E1]; [|done]. apply orb_false_iff in E1 as [?%Z.eqb_neq ?%Z.eqb_neq].
    rewrite !elem_of_cons, elem_of_nil in Hin. naive_solver.
Qed.

Lemma skip_line_spec s : ∃ t, s = t ++ skip_line s ∧ Forall (λ c, c ≠ 10) t ∧ (skip_line s = [] ∨ hd 0 (skip_line s) = 10).
Proof.
  induction s as [|c s IH]; cbn [skip_line]; [exists []; by repeat constructor|]. destruct (Z.eqb_spec c 10) as [->|Hc].
  - exists []. split_and!; [done|constructor|by right].
  - destruct IH as (t&Hs&Ht&Hr). exists (c :: t). split; [cbn; by f_equal|]. split; [by constructor|done].
Qed.
Lemma skip_comment_code prev s lineno : skip_comment prev s lineno = default ([], lineno + newlines s) (code_comment prev s lineno).
Proof.
  revert prev lineno. induction s as [|c s IH]; intros prev lineno; cbn [skip_comment code_comment].
  - cbn. change (newlines []) with 0. f_equal. lia.
  - destruct (_ && _); [done|]. by rewrite IH, newlines_cons.
Qed.

Lemma token_nonempty raw close s bad : token raw close s bad → raw ≠ [].
Proof. by destruct 1. Qed.
Lemma scanned_nil l toks : scanned l [] toks → toks = [].
Proof.
  inversion 1 as [| | | | |? raw close s bad toks' Htok]; [done|]. exfalso. eapply token_nonempty; [done|].
  by destruct raw.
Qed.

(** what a token is does not depend on the text beyond the next one *)
Lemma token_prefix raw close u v bad : token raw close (u ++ v) bad → token raw close u bad.
Proof.
  assert (∀ f : Z → bool, f 0 = false → f (hd 0 (u ++ v)) = false → f (hd 0 u) = false) as Hhd by (intros f H0; by destruct u).
  intros H. remember (u ++ v) as w eqn:Hw. destruct H as [b s|b Hb|b s Hb|b m Hb|c n s Hc Hn Hs|s|c d n s Hc Hd Hn Hs|c s H1 H2 H3 H4 H5 H6]; try subst s.
  - by constructor.
  - symmetry in Hw. apply app_nil in Hw as [-> _]. by constructor.
  - by constructor.
  - symmetry in Hw. apply app_nil in Hw as [-> _]. by econstructor.
  - apply token_word; [done|done|]. by apply (Hhd id_char).
  - apply token_arrow.
  - apply token_alternative; [done|done|done|]. by apply (Hhd id_char).
  - apply token_char; [done|done|done| | |].
    + intros Hc E. apply (H4 Hc). destruct u as [|a [|a' u]]; [done|done|]. cbn in E |- *. done.
    + intros Hc. apply (Hhd ISALPHA); [done|]. by apply H5.
    + intros Hc. destruct u; [set_solver|]. by apply H6.
Qed.

Section Loop.
Context (calloc_ok : Z → bool) (malloc_ok rule_ok : bool) (filename : str) (nolinenosflag : bool).

(** the tokens passed on one by one; one that is left open counts as an error *)
Fixpoint feed (toks : list (str * Z * bool)) (p : pstate) : res pstate :=
  match toks with
  | [] => Ok p
  | (raw, lineno, bad) :: toks =>
      p ← parseonetoken calloc_ok malloc_ok rule_ok filename nolinenosflag (to_cstr raw) lineno (if (bad : bool) then error p else p);
      feed toks p
  end.

Notation loop := (Parse_loop calloc_ok malloc_ok rule_ok filename nolinenosflag).
Lemma Parse_loop_spec fuel s lineno :
  (length s < fuel)%nat →
  (∃ toks, scanned lineno s toks ∧ ∀ p, loop fuel s lineno p = feed toks p) ∨
  (left_open s ∧ ∃ u v toks, s = u ++ v ∧ scanned lineno u toks ∧ ∀ p, loop fuel s lineno p = (_ ← feed toks p; Err OutOfBounds)).
Proof.
  revert s lineno. induction fuel as [|fuel IH]; intros s lineno Hf; [lia|]. cbn [Parse_loop].
  destruct s as [|c s]; [left; exists []; split; [constructor|done]|]. cbn [length] in Hf.
  (* the rest after a gap *)
  assert (∀ a s' l', c :: s = a ++ s' → (length s' ≤ length s)%nat → (∀ u v toks, s' = u ++ v → scanned l' u toks → scanned lineno (a ++ u) toks) →
    (∃ toks, scanned lineno (c :: s) toks ∧ ∀ p, loop fuel s' l' p = feed toks p) ∨
    (left_open (c :: s) ∧ ∃ u v toks, c :: s = u ++ v ∧ scanned lineno u toks ∧ ∀ p, loop fuel s' l' p = (_ ← feed toks p; Err OutOfBounds))) as Hgap.
  { intros a s' l' Hs Hlen Hsc. destruct (IH s' l' ltac:(lia)) as [(toks&H1&H2)|[H1 (u&v&toks&->&H2&H3)]].
    - left. exists toks. split; [|done]. rewrite Hs. apply (Hsc s' []); [by rewrite app_nil_r|done].
    - right. split; [rewrite Hs; by apply left_open_app|]. exists (a ++ u), v, toks. split_and!; [by rewrite <- app_assoc|by apply (Hsc u v)|done]. }
  assert (next_line c lineno = lineno + newlines [c]) as Hnl by (rewrite newlines_cons; change (newlines []) with 0; lia).
  destruct (ISSPACE c) eqn:Esp.
  { apply (Hgap [c]); [done|done|]. intros u v toks _ Ht. apply scanned_space; [done|]. by rewrite <- Hnl. }
  assert (newlines [c] = 0) as Hc by (apply newlines_none; constructor; [by intros ->|done]).
  rewrite Hnl, Hc, Z.add_0_r.
  destruct ((c =? 47) && (hd 0 s =? 47)) eqn:E1.
  { apply andb_true_iff in E1 as [->%Z.eqb_eq E1%Z.eqb_eq]. destruct s as [|d s]; [done|]. cbn in E1. subst d. cbn [tail].
    destruct (skip_line_spec s) as (t&Hs&Ht&Hr). apply (Hgap (47 :: 47 :: t)); [cbn; by do 2 f_equal|..].
    - apply (f_equal length) in Hs. rewrite length_app in Hs. cbn [length]. lia.
    - intros u v toks Hu Hsc. apply scanned_line; [done| |done]. rewrite Hu in Hr. destruct u as [|d u]; [by left|right]. by destruct Hr. }
  destruct ((c =? 47) && (hd 0 s =? 42)) eqn:E2.
  { apply andb_true_iff in E2 as [->%Z.eqb_eq E2%Z.eqb_eq]. destruct s as [|d s]; [done|]. cbn in E2. subst d. cbn [tail].
    rewrite skip_comment_code. pose proof (code_comment_spec 42 s lineno) as Hs.
    destruct (code_comment 42 s lineno) as [[r lineno']|]; cbn [default from_option].
    - destruct Hs as (t&->&->&Ht). apply (Hgap (47 :: 42 :: t)); [done|cbn [length]; rewrite length_app; lia|].
      intros u v toks _ Hu. by apply (scanned_comment lineno t u).
    - apply (Hgap (47 :: 42 :: s)); [by rewrite app_nil_r|cbn; lia|]. intros u v toks Huv Hu. symmetry in Huv. apply app_nil in Huv as [-> _]. apply scanned_nil in Hu as ->.
      rewrite app_nil_r. by apply scanned_open_comment. }
  pose proof (scan_token_spec c s lineno Esp) as Hs. destruct (scan_token c s lineno) as [[[[n rest] lineno'] bad]|e].
  - destruct Hs as (raw&close&Hs&->&Htok&->).
    { intros ->. cbn in E1, E2. apply Z.eqb_neq in E1, E2. set_solver. }
    rewrite Hs, take_app_length.
    assert (length rest ≤ length s)%nat.
    { pose proof (token_nonempty _ _ _ _ Htok). apply (f_equal length) in Hs. rewrite !length_app in Hs. cbn [length] in Hs.
      destruct raw; [done|]. cbn [length] in Hs. lia. }
    destruct (IH rest (lineno + newlines (raw ++ close)) ltac:(lia)) as [(toks&H1&H2)|[H1 H2]].
    + left. exists ((raw, lineno, bad) :: toks). split; [by apply scanned_token|]. intros p. cbn [feed].
      destruct (parseonetoken _ _ _ _ _ _ _ _); [|done]. apply H2.
    + right. split; [by do 2 apply left_open_app|]. destruct H2 as (u&v&toks&->&H2&H3). exists (raw ++ close ++ u), v, ((raw, lineno, bad) :: toks).
      split_and!; [by rewrite <- !app_assoc|apply scanned_token; [by eapply token_prefix|done]|]. intros p. cbn [feed].
      destruct (parseonetoken _ _ _ _ _ _ _ _); [|done]. apply H3.
  - destruct Hs as [-> Hs].
    { intros ->. cbn in E1, E2. apply Z.eqb_neq in E1, E2. set_solver. }
    right. split; [done|]. exists [], (c :: s), []. split_and!; [done|constructor|done].
Qed.
End Loop.

(** ** What is shown of the scanner *)

(** a token is a piece of the text, and its line counts the newlines before it *)
Definition placed (l : Z) (s : str) (tok : str * Z * bool) : Prop :=
  ∃ u v, s = u ++ tok.1.1 ++ v ∧ tok.1.2 = l + newlines u.
Lemma scanned_positions l s toks :
  scanned l s toks → Forall (placed l s) toks.
Proof.
  assert (∀ a l l' s toks, l' = l + newlines a → Forall (placed l' s) toks → Forall (placed l (a ++ s)) toks) as Hshift.
  { intros a l0 l' s0 toks0 -> H. eapply Forall_impl; [exact H|]. intros [[raw line] bad] (u&v&->&Hl). cbn in Hl. subst line.
    exists (a ++ u), v. cbn. split; [by rewrite app_assoc|]. rewrite newlines_app. lia. }
  induction 1 as [l|l c s toks Hc Hs IH|l t s toks Ht Hr Hs IH|l t s toks Ht Hs IH|l t Ht|l raw close s bad toks Htok Hs IH].
  - constructor.
  - by apply (Hshift [c] l (l + newlines [c]) s).
  - apply (Hshift (47 :: 47 :: t) l l s); [|done]. rewrite newlines_none; [lia|]. by repeat constructor.
  - apply (Hshift (47 :: 42 :: t) l (l + newlines t) s); [|done]. rewrite (newlines_head 47 (42 :: t)), (newlines_head 42 t).
    change (newlines [47]) with 0. change (newlines [42]) with 0. lia.
  - constructor.
  - constructor.
    + exists [], (close ++ s). cbn. split; [done|]. change (newlines []) with 0. lia.
    + rewrite app_assoc. by apply (Hshift (raw ++ close) l (l + newlines (raw ++ close)) s).
Qed.

(** C25: The scanner of grammar files: unless a comment or a literal within a block of
    code is left open, any text is cut into white space, comments and tokens (strings,
    balanced blocks of C code whose own comments and literals hide their braces, words,
    the arrow, alternatives and single characters), and the loop is the tokens passed
    to the state machine in order. The token that is passed on is a piece of the text and its
    line is the first line plus the newlines before it. *)
Theorem scan_correct calloc_ok malloc_ok rule_ok filename nolinenosflag s lineno :
  ¬ left_open s →
  ∃ toks, scanned lineno s toks ∧ Forall (placed lineno s) toks ∧
    ∀ p, Parse_loop calloc_ok malloc_ok rule_ok filename nolinenosflag (S (length s)) s lineno p =
         feed calloc_ok malloc_ok rule_ok filename nolinenosflag toks p.
Proof.
  intros Hno. destruct (Parse_loop_spec calloc_ok malloc_ok rule_ok filename nolinenosflag (S (length s)) s lineno) as [(toks&H1&H2)|[H _]];
    [lia| |done]. exists toks. split; [done|]. split; [by apply scanned_positions|done].
Qed.

(** ** What is shown of reading a file *)

(** a table of symbols as [main] passes it on *)
Definition fresh_table (t : symtab) : Prop :=
  symtab_wf t ∧ Forall (λ s, sp_rule s = [] ∧ sp_fallback s = None ∧ sp_subsym s = []) (sy_heap t).
Lemma pstate0_ok t : fresh_table t → reader_ok (pstate0 t).
Proof.
  intros [Ht Hs]. split; [|done]. rewrite Forall_lookup in Hs. constructor; cbn; [|by constructor; [|constructor|]|by constructor|done].
  constructor; cbn; try done.
  - apply Forall_lookup. intros i s (_&Hf&Hb)%Hs. constructor; [by rewrite Hf|by rewrite Hb; constructor].
  - intros i Hi. destruct (lookup_lt_is_Some_2 _ _ Hi) as [s Hl]. rewrite (sym_lookup _ _ _ Hl). by apply (Hs i).
Qed.

(** some token finds the alias of a right-hand side symbol not closed, in a rule without an
    alias on its left *)
Definition stops_unclosed calloc_ok filename nolinenosflag (toks : list (str * Z * bool)) (p : pstate) : Prop :=
  ∃ toks1 raw line bad toks2 q, toks = toks1 ++ (raw, line, bad) :: toks2 ∧ feed calloc_ok true true filename nolinenosflag toks1 p = Ok q ∧ unclosed (to_cstr raw) q.
Lemma feed_safe calloc_ok filename nolinenosflag toks : (∀ n, calloc_ok n = true) → ∀ p, reader_ok p →
  (∃ p', feed calloc_ok true true filename nolinenosflag toks p = Ok p' ∧ reader_ok p') ∨
  feed calloc_ok true true filename nolinenosflag toks p = Err NullDeref ∧ stops_unclosed calloc_ok filename nolinenosflag toks p.
Proof.
  intros Hcal. induction toks as [|[[raw line] bad] toks IH]; intros p Hp; [left; by exists p|]. cbn [feed].
  destruct (parseonetoken_safe calloc_ok filename nolinenosflag Hcal (to_cstr raw) line (if bad then error p else p)) as [(q&E&Hq)|[E Hu]]; [by destruct bad|..]; rewrite E; cbn [mbind res_bind].
  - destruct (IH q Hq) as [?|[-> (t1&r1&l1&b1&t2&q1&->&Hf&Hu)]]; [by left|]. right. split; [done|].
    exists ((raw, line, bad) :: t1), r1, l1, b1, t2, q1. cbn [feed]. by rewrite E.
  - right. split; [done|]. exists [], raw, line, bad, toks, p. split_and!; [done..|]. by destruct bad.
Qed.

(** C24: Reading a grammar file, whatever the file holds: with memory at hand, [Parse] ends,
    and in one of four ways. It returns a well-formed grammar (the table of symbols agrees
    with the heap, all pointers to symbols and rules are in range, the rules are numbered
    in the order they were read and listed under their left-hand side the latest first, no
    right-hand side has more than MAXRHS symbols, and aliases match it); or the preprocessor
    stopped with a message; or a comment or literal within a block of code is left open and
    the buffer is left behind; or the alias of a right-hand side symbol is not closed in a
    rule without an alias on its left, and the message about it prints a null pointer. No
    other access is out of bounds (the right-hand side arrays and the buffer of a
    declaration's text among them), and no other null pointer is followed. *)
Theorem Parse_safe calloc_ok filename nolinenosflag azDefine filebuf t :
  (∀ n, calloc_ok n = true) → fresh_table t →
  let r := Parse calloc_ok true true filename nolinenosflag azDefine (Some filebuf) false t in
  (∃ n g, r = Ok (seq 0 (length (g_rules g)), n, g) ∧ gram_ok g) ∨
  r = Err ExitCalled ∧ preprocess_input azDefine (before_nul filebuf) = Err ExitCalled ∨
  r = Err OutOfBounds ∧ (∃ text, preprocess_input azDefine (before_nul filebuf) = Ok text ∧ left_open text) ∨
  r = Err NullDeref ∧ (∃ u v toks, preprocess_input azDefine (before_nul filebuf) = Ok (u ++ v) ∧ scanned 1 u toks ∧
    stops_unclosed calloc_ok filename nolinenosflag toks (pstate0 t)).
Proof.
  intros Hcal Ht. cbv zeta. unfold Parse.
  destruct (preprocess_blanked azDefine (before_nul filebuf)) as [(text&->&_)| ->]; [|by right; left].
  cbn [mbind res_bind]. pose proof (pstate0_ok t Ht) as Hp.
  destruct (Parse_loop_spec calloc_ok true true filename nolinenosflag (S (length text)) text 1) as [(toks&Hsc&->)|[Hopen (u&v&toks&->&Hsc&->)]]; [lia|..];
    destruct (feed_safe calloc_ok filename nolinenosflag toks Hcal _ Hp) as [(p&->&[Hb _])|[-> Hu]].
  - left. cbn. exists (errorcnt p), (ps_gp p). pose proof (bo_gram _ _ _ _ Hb) as Hg. split; [|done]. by rewrite (gr_list _ Hg).
  - right. right. right. split; [done|]. exists text, [], toks. by rewrite app_nil_r.
  - right. right. left. split; [done|]. by eexists.
  - right. right. right. split; [done|]. by exists u, v, toks.
Qed.

(** "a::=B." *)
Definition small_text : str := [97; 58; 58; 61; 66; 46].
Lemma scan_correct_witness :
  ¬ left_open small_text ∧ ∃ toks, scanned 1 small_text toks ∧
    Parse_loop (λ _, true) true true [] false 7 small_text 1 (pstate0 symtab0) = feed (λ _, true) true true [] false toks (pstate0 symtab0).
Proof.
  assert (¬ left_open small_text) as Hno.
  { intros (u&b&v&m&H&_). assert (123 ∈ small_text) as Hin by (rewrite H; apply elem_of_app; right; left).
    vm_compute in Hin. repeat (apply elem_of_cons in Hin as [Hin|Hin]; [discriminate|]). by apply elem_of_nil in Hin. }
  split; [exact Hno|]. destruct (scan_correct (λ _, true) true true [] false small_text 1 Hno) as (toks&H1&_&H2). exists toks. split; [exact H1|].
  exact (H2 (pstate0 symtab0)).
Defined.

Lemma symtab0_fresh : fresh_table symtab0.
Proof. split; [apply symtab0_ok|constructor]. Qed.
Lemma Parse_safe_witness :
  ∃ n g, Parse (λ _, true) true true [] false [] (Some small_text) false symtab0 = Ok (seq 0 (length (g_rules g)), n, g) ∧ gram_ok g.
Proof.
  destruct (Parse_safe (λ _, true) [] false [] small_text symtab0) as [H|[[H _]|[[H _]|[H _]]]]; [reflexivity|apply symtab0_fresh|exact H|..];
    vm_compute in H; discriminate.
Defined.

(** A comment left open within a block of code: "a::=B.{/* }". The loop that looks for
    the end of the comment stops at the NUL, the one around it steps over the NUL and
    goes on reading. *)
Theorem open_comment_reads_on :
  Parse (λ _, true) true true [] false [] (Some (small_text ++ [123; 47; 42; 32; 125])) false symtab0 = Err OutOfBounds.
Proof. vm_compute. reflexivity. Qed.
(** "a::=B(x y.": the alias is not closed, and the message about it prints the alias of the
    left-hand side, which there is not. *)
Theorem unclosed_alias_null :
  Parse (λ _, true) true true [] false [] (Some [97; 58; 58; 61; 66; 40; 120; 32; 121; 46]) false symtab0 = Err NullDeref.
Proof. vm_compute. reflexivity. Qed.
(** Between tokens the opening star of a comment counts as its closing one, so "/*/"
    is a whole comment and the text after it is read: "/*/a::=B." has one rule. *)
Theorem short_comment_ends :
  ∃ g, Parse (λ _, true) true true [] false [] (Some ([47; 42; 47] ++ small_text)) false symtab0 = Ok ([0%nat], 0, g).
Proof. eexists. vm_compute. reflexivity. Qed.
