(* ===== verification/LemonRoundtrip.v ===== *)
(** Reading what was written: rules are written as tokens and as text, and the reader
    of grammar files finds exactly these rules again. *)
From S2P Require Import Prelude LemonTable LemonData LemonFirst LemonSymbol LemonPreproc LemonRead LemonReadSpec LemonScan LemonScanSpec.

(** ** Rules as they are written *)

Record rule_text := mkRuleText {
  t_lhs : cstr;
  t_lhsalias : option cstr;
  t_rhs : list (cstr * option cstr);
  t_prec : option cstr;
  t_never : bool;
  t_code : option cstr;
}.
Lemma no_nul_cons c s : c ≠ 0 → bool_decide (cstring s) → bool_decide (cstring (c :: s)).
Proof. rewrite !bool_decide_spec. by constructor. Qed.
Definition cs_cons (c : Z) (H : c ≠ 0) (x : cstr) : cstr := (c :: cs x) ↾ no_nul_cons c (cs x) H (proj2_sig x).

Definition tok (s : str) : cstr := to_cstr s.
Definition alias_tokens (a : option cstr) : list cstr :=
  match a with None => [] | Some a => [tok (lit "("); a; tok (lit ")")] end.
Definition code_token (x : cstr) : cstr := cs_cons 123 ltac:(done) x.
Definition rule_tokens (r : rule_text) : list cstr :=
  [t_lhs r] ++ alias_tokens (t_lhsalias r) ++ [tok (lit "::=")] ++ concat ((λ e, e.1 :: alias_tokens e.2) <$> t_rhs r) ++ [tok (lit ".")] ++
  match t_prec r with None => [] | Some x => [tok (lit "["); x; tok (lit "]")] end ++
  (if t_never r then [tok (lit "{NEVER-REDUCE")] else []) ++
  match t_code r with None => [] | Some x => [code_token x] end.

(** a word with a first character of a kind *)
Definition word (first : Z → bool) (x : cstr) : Prop :=
  ∃ c s, cs x = c :: s ∧ first c = true ∧ Forall (λ d, id_char d = true) s.
Record text_ok (r : rule_text) : Prop := {
  to_lhs : word ISLOWER (t_lhs r);
  to_lhsalias : from_option (word ISALPHA) True (t_lhsalias r);
  to_rhs : Forall (λ e, word ISALPHA e.1 ∧ from_option (word ISALPHA) True e.2) (t_rhs r);
  to_max : zlen (t_rhs r) ≤ MAXRHS;
  to_prec : from_option (word ISUPPER) True (t_prec r);
  to_code : from_option (λ x, cs x ≠ lit "NEVER-REDUCE") True (t_code r);
}.

(** the rule in the grammar is the one that was written *)
Definition named (h : list symbol) (sp : nat) (x : cstr) : Prop := (sp < length h)%nat ∧ sp_name (sym h sp) = cs x.
Definition named_opt (h : list symbol) (o : option nat) (x : option cstr) : Prop :=
  match o, x with Some sp, Some x => named h sp x | None, None => True | _, _ => False end.
Record is_rule (h : list symbol) (rp : rule) (r : rule_text) : Prop := {
  ir_lhs : named h (rp_lhs rp) (t_lhs r);
  ir_lhsalias : rp_lhsalias rp = cs <$> t_lhsalias r;
  ir_rhs : Forall2 (λ sp e, named h sp e.1) (rp_rhs rp) (t_rhs r);
  ir_rhsalias : rp_rhsalias rp = (λ e : cstr * option cstr, cs <$> e.2) <$> t_rhs r;
  ir_prec : named_opt h (rp_precsym rp) (t_prec r);
  ir_never : rp_neverReduce rp = t_never r;
  ir_code : rp_code rp = cs <$> t_code r;
}.

(** names stay where they are *)
Record keeps_names (h h' : list symbol) : Prop := {
  kn_length : (length h ≤ length h')%nat;
  kn_name : ∀ i, (i < length h)%nat → sp_name (sym h' i) = sp_name (sym h i);
}.
#[global] Instance keeps_names_pre : PreOrder keeps_names.
Proof.
  split; [by constructor|]. intros h h' h'' [L1 N1] [L2 N2]. constructor; [lia|]. intros i Hi. rewrite N2, N1; [done|done|lia].
Qed.
Lemma named_keeps h h' sp x : keeps_names h h' → named h sp x → named h' sp x.
Proof. intros [L N] [Hl Hn]. split; [lia|]. by rewrite N. Qed.
Lemma named_opt_keeps h h' o x : keeps_names h h' → named_opt h o x → named_opt h' o x.
Proof. intros Hk. destruct o, x; try done. by apply named_keeps. Qed.
Lemma is_rule_keeps h h' rp r : keeps_names h h' → is_rule h rp r → is_rule h' rp r.
Proof.
  intros Hk [H1 H2 H3 H4 H5 H6 H7]. constructor; try done; [by eapply named_keeps| |by eapply named_opt_keeps].
  eapply Forall2_impl; [exact H3|]. intros sp e. by apply named_keeps.
Qed.
Lemma grows_keeps h h' : grows h h' → keeps_names h h'.
Proof. intros [? ? ? ?]. by constructor. Qed.

(** tokens with their lines, cut where the tokens are *)
Lemma fst_app_inv {A B} (l : list (A * B)) k1 k2 : l.*1 = k1 ++ k2 → ∃ l1 l2, l = l1 ++ l2 ∧ l1.*1 = k1 ∧ l2.*1 = k2.
Proof. intros (l1&l2&->&->&->)%fmap_app_inv. by exists l1, l2. Qed.

Section Tokens.
Context (calloc_ok : Z → bool) (filename : str) (nolinenosflag : bool).
Context (Hcalloc : ∀ n, calloc_ok n = true).
Notation step := (parseonetoken calloc_ok true true filename nolinenosflag).
Notation steps := (parse_tokens calloc_ok true true filename nolinenosflag).

(** no error, the same rules *)
Record quietly (p q : pstate) : Prop := {
  qu_errors : errorcnt q = errorcnt p;
  qu_rules : g_rules (ps_gp q) = g_rules (ps_gp p);
  qu_names : keeps_names (heap (ps_gp p)) (heap (ps_gp q));
}.
Instance quietly_pre : PreOrder quietly.
Proof. split; [by constructor|]. intros p q r [? ? ?] [? ? ?]. constructor; [congruence..|by etransitivity]. Qed.

Definition save (ss : strsafe) (p : pstate) : pstate :=
  with_gp (upd_tab (mkSymtab (heap (ps_gp p)) (x2a (g_tab (ps_gp p))) ss) (ps_gp p)) p.
Lemma step_intro (R : pstate → Prop) x lineno p :
  reader_ok p → (∀ ss, reader_ok (save ss p) → ∃ q, parse_state calloc_ok true true filename nolinenosflag x lineno (save ss p) = Ok q ∧ R q) →
  ∃ q, step x lineno p = Ok q ∧ reader_ok q ∧ R q.
Proof.
  intros Hp H. destruct (save_token calloc_ok filename nolinenosflag Hcalloc x lineno p Hp) as (ss&->&Hs).
  destruct (H ss Hs) as (q&Hq&HR). exists q. split; [exact Hq|]. split; [|done].
  destruct (parse_state_safe calloc_ok filename nolinenosflag Hcalloc x lineno _ Hs) as [(q'&Hq'&Hok)|[Hq' _]];
    fold (save ss p) in Hq'; rewrite Hq in Hq'; [|done]. by injection Hq' as ->.
Qed.
Lemma steps_app a b p : steps (a ++ b) p = (q ← steps a p; steps b q).
Proof.
  revert p. induction a as [|[x l] a IH]; intros p; [done|]. cbn [app parse_tokens].
  destruct (step x l p); [apply IH|done].
Qed.

Lemma word_chr first x : word first x → first (chr x 0) = true.
Proof. intros (c&s&Hx&Hf&_). unfold chr. by rewrite Hx. Qed.

Lemma read_lhs x lineno p :
  reader_ok p → ps_state p = WAITING_FOR_DECL_OR_RULE ∨ ps_state p = INITIALIZE → word ISLOWER x →
  ∃ q, step x lineno p = Ok q ∧ reader_ok q ∧ quietly p q ∧ ps_state q = WAITING_FOR_ARROW ∧
    ∃ sp, ps_rule q = mkParts (Some sp) None [] ∧ named (heap (ps_gp q)) sp x.
Proof.
  intros Hp Hst Hx%word_chr. apply step_intro; [done|]. intros ss [Hs Hss]. unfold parse_state.
  assert (∀ p0, body_ok p0 → quietly p p0 → ∃ q, decl_or_rule calloc_ok true x lineno p0 = Ok q ∧ quietly p q ∧ ps_state q = WAITING_FOR_ARROW ∧
    ∃ sp, ps_rule q = mkParts (Some sp) None [] ∧ named (heap (ps_gp q)) sp x) as Hgo.
  { intros p0 H0 Hq. unfold decl_or_rule. assert ((chr x 0 =? 37) = false) as -> by (apply Z.eqb_neq; intros E; rewrite E in Hx; done).
    rewrite Hx. destruct (get_sym_ok calloc_ok Hcalloc x p0 H0) as (sp&t&->&Hb&Hlt&Hgr&Hn&_).
    eexists. split; [done|]. cbn. split; [|split; [done|by exists sp]].
    destruct Hq. constructor; cbn; [done|done|]. etransitivity; [done|]. by apply grows_keeps. }
  cbn [save ps_state with_gp]. destruct Hst as [Hst|Hst]; rewrite Hst; apply Hgo.
  - done.
  - by constructor.
  - apply initialize_ok; [done|]. unfold state_ok in Hss. cbn in Hss. by rewrite Hst in Hss.
  - by constructor.
Qed.

(** a token that only moves the machine on *)
Lemma read_arrow lineno p :
  reader_ok p → ps_state p = WAITING_FOR_ARROW ∨ ps_state p = LHS_ALIAS_3 →
  ∃ q, step (tok (lit "::=")) lineno p = Ok q ∧ reader_ok q ∧ quietly p q ∧ ps_state q = IN_RHS ∧ ps_rule q = ps_rule p.
Proof.
  intros Hp Hst. apply step_intro; [done|]. intros ss _. unfold parse_state.
  cbn [save ps_state with_gp]. by destruct Hst as [-> | ->]; (eexists; split; [reflexivity|]; split; [constructor|]).
Qed.
(** the alias of the left-hand side *)
Lemma read_lhsalias a l p :
  reader_ok p → ps_state p = WAITING_FOR_ARROW → word ISALPHA a → l.*1 = alias_tokens (Some a) →
  ∃ q, steps l p = Ok q ∧ reader_ok q ∧ quietly p q ∧ ps_state q = LHS_ALIAS_3 ∧
    ps_rule q = mkParts (lhs (ps_rule p)) (Some (cs a)) (rhs (ps_rule p)).
Proof.
  intros Hp Hst Ha%word_chr Hl. destruct l as [|[x1 l1] [|[x2 l2] [|[x3 l3] [|? ?]]]]; try done. injection Hl as -> -> ->.
  cbn [parse_tokens].
  destruct (step_intro (λ q, quietly p q ∧ ps_state q = LHS_ALIAS_1 ∧ ps_rule q = ps_rule p) (tok (lit "(")) l1 p) as (q1&->&H1&Q1&S1&R1); [done| |].
  { intros ss _. unfold parse_state. cbn [save ps_state with_gp]. rewrite Hst. eexists. split; [reflexivity|]. by split; [constructor|]. }
  cbn [mbind res_bind].
  destruct (step_intro (λ q, quietly q1 q ∧ ps_state q = LHS_ALIAS_2 ∧ ps_rule q = mkParts (lhs (ps_rule p)) (Some (cs a)) (rhs (ps_rule p))) a l2 q1)
    as (q2&->&H2&Q2&S2&R2); [done| |].
  { intros ss _. unfold parse_state. cbn [save ps_state with_gp]. rewrite S1. unfold lhs_alias_1. rewrite Ha. eexists. split; [reflexivity|].
    split; [by constructor|]. split; [done|]. cbn. by rewrite R1. }
  cbn [mbind res_bind].
  destruct (step_intro (λ q, quietly q2 q ∧ ps_state q = LHS_ALIAS_3 ∧ ps_rule q = ps_rule q2) (tok (lit ")")) l3 q2) as (q3&->&H3&Q3&S3&R3); [done| |].
  { intros ss _. unfold parse_state. cbn [save ps_state with_gp]. rewrite S2. eexists. split; [reflexivity|]. by split; [constructor|]. }
  exists q3. split; [done|]. split; [done|]. split; [by do 2 (etransitivity; [done|])|]. split; [done|]. by rewrite R3.
Qed.

Lemma read_symbol x lineno p :
  reader_ok p → ps_state p = IN_RHS → word ISALPHA x → zlen (rhs (ps_rule p)) < MAXRHS →
  ∃ q, step x lineno p = Ok q ∧ reader_ok q ∧ quietly p q ∧ ps_state q = IN_RHS ∧
    ∃ sp, ps_rule q = mkParts (lhs (ps_rule p)) (lhsalias (ps_rule p)) (rhs (ps_rule p) ++ [(sp, None)]) ∧ named (heap (ps_gp q)) sp x.
Proof.
  intros Hp Hst Hx%word_chr Hmax. apply step_intro; [done|]. intros ss [Hs _]. unfold parse_state. cbn [save ps_state with_gp].
  rewrite Hst. unfold in_rhs. assert ((chr x 0 =? 46) = false) as -> by (apply Z.eqb_neq; intros E; rewrite E in Hx; done).
  rewrite Hx. cbn [save ps_rule with_gp]. rewrite Z.geb_leb, (proj2 (Z.leb_gt _ _)) by done.
  destruct (get_sym_ok calloc_ok Hcalloc x _ Hs) as (sp&t&Hget&Hb&Hlt&Hgr&Hn&_). rewrite Hget.
  eexists. split; [reflexivity|]. split; [constructor; cbn; [done|done|by apply grows_keeps]|]. split; [done|]. by exists sp.
Qed.
(** the alias of the symbol read last *)
Lemma read_rhsalias a l k sp p :
  reader_ok p → ps_state p = IN_RHS → rhs (ps_rule p) = k ++ [(sp, None)] → word ISALPHA a → l.*1 = alias_tokens (Some a) →
  ∃ q, steps l p = Ok q ∧ reader_ok q ∧ quietly p q ∧ ps_state q = IN_RHS ∧
    ps_rule q = mkParts (lhs (ps_rule p)) (lhsalias (ps_rule p)) (k ++ [(sp, Some (cs a))]).
Proof.
  intros Hp Hst Hr Ha%word_chr Hl. destruct l as [|[x1 l1] [|[x2 l2] [|[x3 l3] [|? ?]]]]; try done. injection Hl as -> -> ->.
  cbn [parse_tokens].
  assert (Z.to_nat (zlen (k ++ [(sp, None : option str)]) - 1) = length k) as Hlast by (unfold zlen; rewrite length_app; cbn; lia).
  destruct (step_intro (λ q, quietly p q ∧ ps_state q = RHS_ALIAS_1 ∧ ps_rule q = ps_rule p) (tok (lit "(")) l1 p) as (q1&->&H1&Q1&S1&R1); [done| |].
  { intros ss _. unfold parse_state. cbn [save ps_state with_gp]. rewrite Hst. unfold in_rhs. cbn [save ps_rule with_gp]. rewrite Hr.
    assert ((0 <? zlen (k ++ [(sp, None : option str)])) = true) as -> by (apply Z.ltb_lt; rewrite zlen_app; unfold zlen; cbn; lia).
    eexists. split; [reflexivity|]. by split; [constructor|]. }
  cbn [mbind res_bind].
  destruct (step_intro (λ q, quietly q1 q ∧ ps_state q = RHS_ALIAS_2 ∧ ps_rule q = mkParts (lhs (ps_rule p)) (lhsalias (ps_rule p)) (k ++ [(sp, Some (cs a))])) a l2 q1)
    as (q2&->&H2&Q2&S2&R2); [done| |].
  { intros ss _. unfold parse_state. cbn [save ps_state with_gp]. rewrite S1. unfold rhs_alias_1. rewrite Ha. cbn [save ps_rule with_gp]. rewrite R1, Hr, Hlast.
    rewrite list_lookup_middle by done. cbn [of_opt]. eexists. split; [reflexivity|].
    split; [by constructor|]. split; [done|]. cbn. by rewrite insert_app_r_alt, Nat.sub_diag by lia. }
  cbn [mbind res_bind].
  destruct (step_intro (λ q, quietly q2 q ∧ ps_state q = IN_RHS ∧ ps_rule q = ps_rule q2) (tok (lit ")")) l3 q2) as (q3&->&H3&Q3&S3&R3); [done| |].
  { intros ss _. unfold parse_state. cbn [save ps_state with_gp]. rewrite S2. eexists. split; [reflexivity|]. by split; [constructor|]. }
  exists q3. split; [done|]. split; [done|]. split; [by do 2 (etransitivity; [done|])|]. split; [done|]. by rewrite R3.
Qed.

(** a right-hand side, behind what has been read of it *)
Definition entry (h : list symbol) (e : nat * option str) (x : cstr * option cstr) : Prop := named h e.1 x.1 ∧ e.2 = cs <$> x.2.
Lemma read_entry x l p :
  reader_ok p → ps_state p = IN_RHS → word ISALPHA x.1 → from_option (word ISALPHA) True x.2 → zlen (rhs (ps_rule p)) < MAXRHS →
  l.*1 = x.1 :: alias_tokens x.2 →
  ∃ q, steps l p = Ok q ∧ reader_ok q ∧ quietly p q ∧ ps_state q = IN_RHS ∧
    ∃ e, ps_rule q = mkParts (lhs (ps_rule p)) (lhsalias (ps_rule p)) (rhs (ps_rule p) ++ [e]) ∧ entry (heap (ps_gp q)) e x.
Proof.
  intros Hp Hst Hx Ha Hmax Hl. destruct x as [x a]. cbn [fst snd] in *. destruct l as [|[x' l1] l]; [done|]. injection Hl as -> Hl. cbn [parse_tokens].
  destruct (read_symbol x l1 p) as (q1&->&H1&Q1&S1&sp&R1&N1); [done..|]. cbn [mbind res_bind]. destruct a as [a|].
  - destruct (read_rhsalias a l (rhs (ps_rule p)) sp q1) as (q2&->&H2&Q2&S2&R2); [done|done|by rewrite R1|done|done|].
    exists q2. split; [done|]. split; [done|]. split; [by etransitivity|]. split; [done|]. exists (sp, Some (cs a)).
    split; [by rewrite R2, R1|]. split; [|done]. eapply named_keeps; [apply Q2|done].
  - destruct l; [|done]. exists q1. split; [done|]. split; [done|]. split; [done|]. split; [done|]. by exists (sp, None).
Qed.
Lemma read_rhs es l p ds :
  reader_ok p → ps_state p = IN_RHS → Forall (λ e, word ISALPHA e.1 ∧ from_option (word ISALPHA) True e.2) es →
  Forall2 (entry (heap (ps_gp p))) (rhs (ps_rule p)) ds → zlen (ds ++ es) ≤ MAXRHS → l.*1 = concat ((λ e, e.1 :: alias_tokens e.2) <$> es) →
  ∃ q, steps l p = Ok q ∧ reader_ok q ∧ quietly p q ∧ ps_state q = IN_RHS ∧
    lhs (ps_rule q) = lhs (ps_rule p) ∧ lhsalias (ps_rule q) = lhsalias (ps_rule p) ∧ Forall2 (entry (heap (ps_gp q))) (rhs (ps_rule q)) (ds ++ es).
Proof.
  revert l p ds. induction es as [|x es IH]; intros l p ds Hp Hst Hes Hds Hmax Hl.
  - destruct l; [|done]. exists p. rewrite app_nil_r. done.
  - cbn in Hl. change (x.1 :: alias_tokens x.2 ++ ?b) with ((x.1 :: alias_tokens x.2) ++ b) in Hl.
    apply fst_app_inv in Hl as (la&lb&->&Ha&Hb). apply Forall_cons in Hes as [[Hx1 Hx2] Hes].
    assert (zlen (rhs (ps_rule p)) < MAXRHS).
    { pose proof (Forall2_length _ _ _ Hds). unfold zlen in *. rewrite length_app in Hmax. cbn in Hmax. lia. }
    destruct (read_entry x la p) as (q1&E1&H1&Q1&S1&e&R1&N1); [done..|]. rewrite steps_app, E1. cbn [mbind res_bind].
    destruct (IH lb q1 (ds ++ [x])) as (q2&E2&H2&Q2&S2&R2&R3&R4); [done|done|done| |by rewrite <- app_assoc|done|].
    { rewrite R1. cbn. apply Forall2_app; [|by constructor]. eapply Forall2_impl; [exact Hds|].
      intros ? ? [? ?]. split; [|done]. eapply named_keeps; [apply Q1|done]. }
    exists q2. split; [done|]. split; [done|]. split; [by etransitivity|]. split; [done|]. rewrite R2, R3, R1. rewrite <- app_assoc in R4. done.
Qed.

(** the end of the rule *)
Lemma keeps_alter f i h : (∀ s, sp_name (f s) = sp_name s) → keeps_names h (alter f i h).
Proof.
  intros Hf. constructor; [by rewrite length_alter|]. intros j _. rewrite symtab_sym_alter. case_decide as Hd; [|done].
  destruct Hd as [-> _]. apply Hf.
Qed.
(** between a rule and the next: [new] is the last of the rules *)
Record after_rule (n : Z) (h : list symbol) (rs : list rule) (new : rule) (q : pstate) : Prop := {
  ar_ok : reader_ok q;
  ar_state : ps_state q = WAITING_FOR_DECL_OR_RULE;
  ar_errors : errorcnt q = n;
  ar_names : keeps_names h (heap (ps_gp q));
  ar_rules : g_rules (ps_gp q) = rs ++ [new];
  ar_prev : prevrule q = Some (length rs);
}.
Lemma read_dot lineno p sp :
  reader_ok p → ps_state p = IN_RHS → lhs (ps_rule p) = Some sp →
  ∃ q idx, step (tok (lit ".")) lineno p = Ok q ∧
    after_rule (errorcnt p) (heap (ps_gp p)) (g_rules (ps_gp p))
      (mkRule sp (lhsalias (ps_rule p)) false lineno (rhs (ps_rule p)).*1 (rhs (ps_rule p)).*2 0 None None None None idx 0 true false false false false) q.
Proof.
  intros Hp Hst Hl.
  destruct (step_intro (λ q, ∃ idx, ps_state q = WAITING_FOR_DECL_OR_RULE ∧ errorcnt q = errorcnt p ∧ keeps_names (heap (ps_gp p)) (heap (ps_gp q)) ∧
    g_rules (ps_gp q) = g_rules (ps_gp p) ++ [mkRule sp (lhsalias (ps_rule p)) false lineno (rhs (ps_rule p)).*1 (rhs (ps_rule p)).*2 0 None None None None idx 0 true false false false false] ∧
    prevrule q = Some (length (g_rules (ps_gp p)))) (tok (lit ".")) lineno p) as (q&E&Hq&idx&H1&H2&H3&H4&H5); [done| |by exists q, idx].
  intros ss [Hs _]. unfold parse_state. cbn [save ps_state with_gp]. rewrite Hst. unfold in_rhs.
  change (chr (tok (lit ".")) 0 =? 46) with true. cbn match. unfold finish_rule. cbn [negb]. cbn [save ps_rule with_gp].
  destruct (mark_content_ok (rhs (ps_rule p)) _ Hs) as (t&->&_&_&Hgr). rewrite Hl. cbn [of_opt mbind res_bind].
  eexists. split; [reflexivity|]. eexists. cbn. split_and!; try done.
  etransitivity; [by apply grows_keeps|]. by apply keeps_alter.
Qed.

(** what may follow a rule *)
Lemma after_step n h rs new new' q x lineno :
  after_rule n h rs new q →
  (∀ ss, reader_ok (save ss q) → ∃ q', parse_state calloc_ok true true filename nolinenosflag x lineno (save ss q) = Ok q' ∧
     ps_state q' = WAITING_FOR_DECL_OR_RULE ∧ errorcnt q' = errorcnt q ∧ keeps_names (heap (ps_gp q)) (heap (ps_gp q')) ∧
     g_rules (ps_gp q') = rs ++ [new'] ∧ prevrule q' = prevrule q) →
  ∃ q', step x lineno q = Ok q' ∧ after_rule n h rs new' q'.
Proof.
  intros [A1 A2 A3 A4 A5 A6] H. destruct (step_intro _ x lineno q A1 H) as (q'&E&Hok&H1&H2&H3&H4&H5).
  exists q'. split; [done|]. constructor; [done|done|congruence|by etransitivity|done|congruence].
Qed.

Lemma after_from n h rs new q : after_rule n h rs new q → after_rule n (heap (ps_gp q)) rs new q.
Proof. intros [? ? ? ? ? ?]. by constructor. Qed.
Lemma after_since n h h' rs new q : keeps_names h h' → after_rule n h' rs new q → after_rule n h rs new q.
Proof. intros ? [? ? ? ? ? ?]. constructor; try done. by etransitivity. Qed.
Lemma last_rule rs new : rul (rs ++ [new]) (length rs) = new.
Proof. apply rul_app_r. Qed.
Lemma alter_last f rs (new : rule) : alter f (length rs) (rs ++ [new]) = rs ++ [f new].
Proof. rewrite <- (Nat.add_0_r (length rs)). by rewrite alter_app_r. Qed.
Lemma read_never n h rs new q lineno :
  after_rule n h rs new q → rp_code new = None →
  ∃ q', step (tok (lit "{NEVER-REDUCE")) lineno q = Ok q' ∧ after_rule n h rs (set_neverReduce new) q'.
Proof.
  intros Ha Hc. apply (after_step n h rs new _ q); [done|]. destruct Ha as [A1 A2 A3 A4 A5 A6]. intros ss _. unfold parse_state. cbn [save ps_state with_gp].
  rewrite A2. unfold decl_or_rule. set (x := tok _). change (chr x 0 =? 37) with false. change (ISLOWER (chr x 0)) with false. change (chr x 0 =? 123) with true.
  cbn match. unfold code_fragment. cbn [save prevrule with_gp]. rewrite A6. unfold the_rule. cbn [save ps_gp with_gp upd_tab g_rules]. rewrite A5, last_rule, Hc.
  rewrite decide_True by reflexivity. eexists. split; [reflexivity|]. cbn. rewrite A5, alter_last. done.
Qed.
Lemma read_code n h rs new q x lineno :
  after_rule n h rs new q → rp_code new = None → cs x ≠ lit "NEVER-REDUCE" →
  ∃ q', step (code_token x) lineno q = Ok q' ∧ after_rule n h rs (set_code lineno (Some (cs x)) false new) q'.
Proof.
  intros Ha Hc Hx. apply (after_step n h rs new _ q); [done|]. destruct Ha as [A1 A2 A3 A4 A5 A6]. intros ss _. unfold parse_state. cbn [save ps_state with_gp].
  rewrite A2. unfold decl_or_rule. change (chr (code_token x) 0 =? 37) with false. change (ISLOWER (chr (code_token x) 0)) with false.
  change (chr (code_token x) 0 =? 123) with true. cbn match. unfold code_fragment. cbn [save prevrule with_gp]. rewrite A6.
  unfold the_rule. cbn [save ps_gp with_gp upd_tab g_rules]. rewrite A5, last_rule, Hc.
  rewrite decide_False by (change (cs (code_token x)) with (123 :: cs x); intros E; apply Hx; by injection E).
  eexists. split; [reflexivity|]. cbn. rewrite A5, alter_last. done.
Qed.
Lemma read_prec n h rs new q x l :
  after_rule n h rs new q → rp_precsym new = None → word ISUPPER x → l.*1 = [tok (lit "["); x; tok (lit "]")] →
  ∃ q' sp, steps l q = Ok q' ∧ after_rule n h rs (upd_precsym (Some sp) new) q' ∧ named (heap (ps_gp q')) sp x.
Proof.
  intros [A1 A2 A3 A4 A5 A6] Hc Hx%word_chr Hl. destruct l as [|[x1 l1] [|[x2 l2] [|[x3 l3] [|? ?]]]]; try done. injection Hl as -> -> ->.
  cbn [parse_tokens].
  destruct (step_intro (λ p, quietly q p ∧ ps_state p = PRECEDENCE_MARK_1 ∧ prevrule p = prevrule q) (tok (lit "[")) l1 q) as (q1&->&H1&Q1&S1&P1); [done| |].
  { intros ss _. unfold parse_state. cbn [save ps_state with_gp]. rewrite A2. eexists. split; [reflexivity|]. by split; [constructor|]. }
  cbn [mbind res_bind].
  destruct (step_intro (λ p, ∃ sp, errorcnt p = errorcnt q1 ∧ keeps_names (heap (ps_gp q1)) (heap (ps_gp p)) ∧ named (heap (ps_gp p)) sp x ∧
    g_rules (ps_gp p) = rs ++ [upd_precsym (Some sp) new] ∧ ps_state p = PRECEDENCE_MARK_2 ∧ prevrule p = prevrule q1) x l2 q1)
    as (q2&->&H2&sp&E2&K2&N2&R2&S2&P2); [done| |].
  { intros ss [Hs _]. unfold parse_state. cbn [save ps_state with_gp]. rewrite S1. unfold precedence_mark_1. rewrite Hx. cbn [negb save prevrule with_gp].
    rewrite P1, A6. unfold the_rule. cbn [save ps_gp with_gp upd_tab g_rules]. rewrite (qu_rules _ _ Q1), A5, last_rule, Hc.
    destruct (get_sym_ok calloc_ok Hcalloc x _ Hs) as (sp&t&Hget&_&Hlt&Hgr&Hn&_). rewrite Hget. cbn [mbind res_bind].
    eexists. split; [reflexivity|]. exists sp. cbn. rewrite (qu_rules _ _ Q1), A5, alter_last.
    split_and!; try done; [by apply grows_keeps|by rewrite P1, A6]. }
  cbn [mbind res_bind].
  destruct (step_intro (λ p, quietly q2 p ∧ ps_state p = WAITING_FOR_DECL_OR_RULE ∧ prevrule p = prevrule q2) (tok (lit "]")) l3 q2) as (q3&->&H3&Q3&S3&P3); [done| |].
  { intros ss _. unfold parse_state. cbn [save ps_state with_gp]. rewrite S2. eexists. split; [reflexivity|]. by split; [constructor|]. }
  destruct Q1 as [Q1 _ K1], Q3 as [Q3 R3 K3]. exists q3, sp. split; [done|]. split; [|by eapply named_keeps].
  constructor; [done|done|congruence| |congruence|congruence]. do 3 (etransitivity; [done|]). done.
Qed.

(** the left-hand side with its alias and the arrow *)
Lemma read_head r l1 l2 l3 p :
  text_ok r → reader_ok p → ps_state p = WAITING_FOR_DECL_OR_RULE ∨ ps_state p = INITIALIZE →
  l1.*1 = [t_lhs r] → l2.*1 = alias_tokens (t_lhsalias r) → l3.*1 = [tok (lit "::=")] →
  ∃ q sp, steps (l1 ++ l2 ++ l3) p = Ok q ∧ reader_ok q ∧ quietly p q ∧ ps_state q = IN_RHS ∧
    ps_rule q = mkParts (Some sp) (cs <$> t_lhsalias r) [] ∧ named (heap (ps_gp q)) sp (t_lhs r).
Proof.
  intros Hr Hp Hst H1 H2 H3. destruct l1 as [|[x1 n1] [|? ?]]; try done. injection H1 as ->.
  destruct l3 as [|[x3 n3] [|? ?]]; try done. injection H3 as ->. cbn [app parse_tokens].
  destruct (read_lhs (t_lhs r) n1 p) as (q1&->&Hq1&Q1&S1&sp&R1&N1); [done|done|apply Hr|]. cbn [mbind res_bind]. rewrite steps_app.
  assert (∃ q2, steps l2 q1 = Ok q2 ∧ reader_ok q2 ∧ quietly q1 q2 ∧ (ps_state q2 = WAITING_FOR_ARROW ∨ ps_state q2 = LHS_ALIAS_3) ∧
    ps_rule q2 = mkParts (Some sp) (cs <$> t_lhsalias r) []) as (q2&->&Hq2&Q2&S2&R2).
  { pose proof (to_lhsalias _ Hr) as Ha. destruct (t_lhsalias r) as [a|].
    - destruct (read_lhsalias a l2 q1) as (q2&?&?&?&?&HR); [done..|]. exists q2. rewrite HR, R1. split_and!; auto.
    - destruct l2; [|done]. exists q1. rewrite R1. split_and!; auto. reflexivity. }
  cbn [mbind res_bind parse_tokens]. destruct (read_arrow n3 q2 Hq2 S2) as (q3&->&Hq3&Q3&S3&R3). cbn [mbind res_bind].
  exists q3, sp. split; [done|]. split; [done|]. split; [by do 2 (etransitivity; [done|])|]. split; [done|]. split; [by rewrite R3|].
  eapply named_keeps; [apply Q3|]. eapply named_keeps; [apply Q2|done].
Qed.
(** what follows the dot *)
Lemma read_marks r l1 l2 l3 n h rs new p :
  text_ok r → after_rule n h rs new p → rp_precsym new = None → rp_neverReduce new = false → rp_code new = None →
  l1.*1 = match t_prec r with None => [] | Some x => [tok (lit "["); x; tok (lit "]")] end →
  l2.*1 = (if t_never r then [tok (lit "{NEVER-REDUCE")] else []) →
  l3.*1 = match t_code r with None => [] | Some x => [code_token x] end →
  ∃ q new', steps (l1 ++ l2 ++ l3) p = Ok q ∧ after_rule n h rs new' q ∧
    named_opt (heap (ps_gp q)) (rp_precsym new') (t_prec r) ∧ rp_neverReduce new' = t_never r ∧ rp_code new' = cs <$> t_code r ∧
    rp_lhs new' = rp_lhs new ∧ rp_lhsalias new' = rp_lhsalias new ∧ rp_rhs new' = rp_rhs new ∧ rp_rhsalias new' = rp_rhsalias new.
Proof.
  intros Hr Hp Hp0 Hn0 Hc0 H1 H2 H3. rewrite !steps_app.
  assert (∃ q o, steps l1 p = Ok q ∧ after_rule n h rs (upd_precsym o new) q ∧ named_opt (heap (ps_gp q)) o (t_prec r)) as (q1&o&->&A1&N1).
  { pose proof (to_prec _ Hr) as Hx. destruct (t_prec r) as [x|].
    - destruct (read_prec n h rs new p x l1) as (q&sp&?&?&?); [done..|]. by exists q, (Some sp).
    - destruct l1; [|done]. exists p, None. split; [done|]. split; [|done]. destruct new; cbn in *. by subst. }
  cbn [mbind res_bind]. rewrite steps_app. set (new1 := upd_precsym o new) in *.
  assert (∃ q, steps l2 q1 = Ok q ∧ after_rule n (heap (ps_gp q1)) rs (if t_never r then set_neverReduce new1 else new1) q) as (q2&->&A2).
  { apply after_from in A1. destruct (t_never r); [|destruct l2; [|done]; by exists q1].
    destruct l2 as [|[x n2] [|? ?]]; try done. injection H2 as ->. cbn [parse_tokens].
    destruct (read_never n _ rs new1 q1 n2 A1 Hc0) as (q2&->&A2). by exists q2. }
  cbn [mbind res_bind]. set (new2 := if t_never r then set_neverReduce new1 else new1) in *.
  assert (rp_code new2 = None) as Hc2 by (by subst new2; destruct (t_never r)).
  assert (∃ q new3, steps l3 q2 = Ok q ∧ after_rule n (heap (ps_gp q2)) rs new3 q ∧ rp_code new3 = cs <$> t_code r ∧
    (∃ line no, new3 = set_code line (rp_code new3) no new2)) as (q3&new3&->&A3&C3&line&no&E3).
  { pose proof (to_code _ Hr) as Hx. pose proof (after_from _ _ _ _ _ A2) as A2'. destruct (t_code r) as [x|].
    - destruct l3 as [|[x3 n3] [|? ?]]; try done. injection H3 as ->. cbn [parse_tokens].
      destruct (read_code n _ rs new2 q2 x n3 A2' Hc2 Hx) as (q3&->&A3). eexists q3, _. split; [done|]. split; [exact A3|]. split; [done|]. by eexists _, _.
    - destruct l3; [|done]. exists q2, new2. split; [done|]. split; [done|]. split; [done|].
      exists (rp_line new2), (rp_noCode new2). rewrite Hc2. destruct new2. cbn in Hc2. by subst. }
  exists q3, new3. split; [done|]. split.
  { eapply after_since; [|exact A3]. etransitivity; [apply A1|apply A2]. }
  assert (named_opt (heap (ps_gp q3)) o (t_prec r)) as N3.
  { eapply named_opt_keeps; [apply A3|]. eapply named_opt_keeps; [apply A2|done]. }
  rewrite E3. subst new2 new1. destruct (t_never r); cbn; split_and!; done.
Qed.
Lemma read_rule r l p :
  text_ok r → reader_ok p → ps_state p = WAITING_FOR_DECL_OR_RULE ∨ ps_state p = INITIALIZE → l.*1 = rule_tokens r →
  ∃ q new, steps l p = Ok q ∧ after_rule (errorcnt p) (heap (ps_gp p)) (g_rules (ps_gp p)) new q ∧ is_rule (heap (ps_gp q)) new r.
Proof.
  intros Hr Hp Hst Hl. unfold rule_tokens in Hl.
  apply fst_app_inv in Hl as (l1&?&->&E1&Hl). apply fst_app_inv in Hl as (l2&?&->&E2&Hl).
  apply fst_app_inv in Hl as (l3&?&->&E3&Hl). apply fst_app_inv in Hl as (l4&?&->&E4&Hl).
  apply fst_app_inv in Hl as (l5&?&->&E5&Hl). apply fst_app_inv in Hl as (l6&?&->&E6&Hl). apply fst_app_inv in Hl as (l7&l8&->&E7&E8).
  replace (l1 ++ l2 ++ l3 ++ l4 ++ l5 ++ l6 ++ l7 ++ l8) with ((l1 ++ l2 ++ l3) ++ l4 ++ l5 ++ (l6 ++ l7 ++ l8)) by (by rewrite <- !app_assoc).
  destruct (read_head r l1 l2 l3 p) as (q1&sp&S1&H1&Q1&St1&R1&N1); [done..|]. rewrite steps_app, S1. cbn [mbind res_bind].
  destruct (read_rhs (t_rhs r) l4 q1 []) as (q2&S2&H2&Q2&St2&R2&R3&R4); [done|done|apply Hr|rewrite R1; constructor|apply Hr|done|].
  rewrite steps_app, S2. cbn [mbind res_bind app] in *. rewrite R1 in R2, R3. cbn [lhs lhsalias] in R2, R3.
  destruct l5 as [|[x5 n5] [|? ?]]; try done. injection E5 as ->. cbn [app parse_tokens].
  destruct (read_dot n5 q2 sp H2 St2 R2) as (q3&idx&->&A3). cbn [mbind res_bind]. rewrite R3 in A3.
  destruct (read_marks r l6 l7 l8 _ _ _ _ q3 Hr A3) as (q4&new&S4&A4&M1&M2&M3&M4&M5&M6&M7); [done..|]. cbn in M4, M5, M6, M7.
  exists q4, new. split; [exact S4|].
  assert (keeps_names (heap (ps_gp q2)) (heap (ps_gp q4))) as K4 by apply A4.
  assert (keeps_names (heap (ps_gp q1)) (heap (ps_gp q4))) as K1 by (etransitivity; [apply Q2|done]). split.
  - destruct Q1 as [E1' E1'' K], Q2 as [E2' E2'' K2]. rewrite E2', E2'', E1', E1'' in A4.
    eapply after_since; [|exact A4]. etransitivity; [exact K|]. exact K2.
  - constructor; try done.
    + rewrite M4. by eapply named_keeps; [exact K1|].
    + rewrite M6. apply Forall2_fmap_l. eapply Forall2_impl; [exact R4|]. intros e x [? _]. by eapply named_keeps; [exact K4|].
    + rewrite M7. symmetry. apply list_eq_Forall2. apply Forall2_fmap. apply Forall2_flip. eapply Forall2_impl; [exact R4|]. by intros e x [_ ?].
Qed.

Lemma read_rules rs l p :
  Forall text_ok rs → reader_ok p → ps_state p = WAITING_FOR_DECL_OR_RULE ∨ ps_state p = INITIALIZE → l.*1 = concat (rule_tokens <$> rs) →
  ∃ q new, steps l p = Ok q ∧ reader_ok q ∧ errorcnt q = errorcnt p ∧ keeps_names (heap (ps_gp p)) (heap (ps_gp q)) ∧
    g_rules (ps_gp q) = g_rules (ps_gp p) ++ new ∧ Forall2 (is_rule (heap (ps_gp q))) new rs.
Proof.
  intros Hrs. revert l p. induction Hrs as [|r rs Hr Hrs IH]; intros l p Hp Hst Hl.
  - destruct l; [|done]. exists p, []. rewrite app_nil_r. split_and!; done.
  - rewrite fmap_cons in Hl. cbn [concat] in Hl. apply fst_app_inv in Hl as (l1&l2&->&H1&H2). rewrite steps_app.
    destruct (read_rule r l1 p) as (q1&new1&->&[A1 A2 A3 A4 A5 _]&I1); [done..|]. cbn [mbind res_bind].
    destruct (IH l2 q1) as (q2&new2&->&B1&B2&B3&B4&B5); [done|by left|done|].
    exists q2, (new1 :: new2). split; [done|]. split; [done|]. split; [congruence|]. split; [by etransitivity|].
    split; [by rewrite B4, A5, <- app_assoc|]. constructor; [by eapply is_rule_keeps|done].
Qed.
End Tokens.

(** ** Text *)

(** *** Blocks are read as they are written *)

Lemma comment_end_unique prev t t' s s' : comment_end prev t → comment_end prev t' → t ++ s = t' ++ s' → t = t'.
Proof.
  assert (∀ t w, comment_end prev t → comment_end prev (t ++ w) → w = []) as Hp.
  { intros t0 w [[u Hu] _] [_ Hf]. apply (Hf u). change (prev :: t0 ++ w) with ((prev :: t0) ++ w). by rewrite Hu, <- app_assoc. }
  intros H H' E. apply app_eq_inv in E as [(w&->&_)|(w&->&_)]; [rewrite (Hp t' w H' H)|rewrite (Hp t w H H')]; by rewrite app_nil_r.
Qed.
Lemma code_comment_complete t s lineno : comment_end 0 t → code_comment 0 (t ++ s) lineno = Some (s, lineno + newlines t).
Proof.
  intros Ht. pose proof (code_comment_spec 0 (t ++ s) lineno) as H. destruct (code_comment 0 (t ++ s) lineno) as [[r n]|].
  - destruct H as (t'&E&->&Ht'). pose proof (comment_end_unique _ _ _ _ _ Ht Ht' E) as <-. by apply app_inv_head in E as ->.
  - by destruct (H t s).
Qed.
Lemma code_line_complete t s lineno : Forall (λ c, c ≠ 10) t → code_line (t ++ 10 :: s) lineno = Some (s, lineno + 1).
Proof. induction 1 as [|c t Hc Ht IH]; [done|]. cbn [app code_line]. by rewrite (proj2 (Z.eqb_neq c 10)). Qed.
Lemma literal_unique q t t' s s' : q ≠ 92 → literal q t → literal q t' → t ++ s = t' ++ s' → t = t'.
Proof.
  intros Hq Ht. revert t'. induction Ht as [|c t Hc H92 Ht IH|c t Ht IH]; intros t' Ht' E.
  - inversion Ht'; subst; cbn in E; [done|by injection E|by injection E].
  - inversion Ht'; subst; cbn in E; [by injection E|injection E as -> E; f_equal; auto|by injection E].
  - inversion Ht'; subst; cbn in E; [by injection E as ?|by injection E|injection E as -> E; do 2 f_equal; auto].
Qed.
Lemma code_literal_complete q t s lineno :
  q ∈ [39; 34] → literal q t → code_literal q 0 (t ++ s) lineno = Some (s, lineno + newlines t).
Proof.
  intros Hq Ht. pose proof (code_literal_spec q 0 (t ++ s) lineno Hq) as H. destruct (code_literal q 0 (t ++ s) lineno) as [[r n]|].
  - destruct H as (t'&E&->&Ht'). assert (t = t') as <-.
    { eapply literal_unique; [|exact Ht|exact Ht'|exact E]. intros ->. set_solver. }
    by apply app_inv_head in E as ->.
  - by destruct (H t s).
Qed.
(** one item of a block *)
Inductive item : Z → str → Z → str → Prop :=
  | item_open l s : item l [123] (l + 1) s
  | item_close l s : 1 < l → item l [125] (l - 1) s
  | item_char l c s : c ∉ [123; 125; 39; 34] → (c = 47 → hd 0 s ∉ [42; 47]) → item l [c] l s
  | item_comment l t s : comment_end 0 t → item l (47 :: 42 :: t) l s
  | item_line l t s : Forall (λ c, c ≠ 10) t → item l (47 :: 47 :: t ++ [10]) l s
  | item_literal l q t s : q ∈ [39; 34] → literal q t → item l (q :: t) l s.
Lemma code_end_item l a l' s lineno fuel :
  item l a l' s → code_end (S fuel) l (a ++ s) lineno = code_end fuel l' s (lineno + newlines a).
Proof.
  destruct 1 as [l s|l s Hl|l c s Hc Hcm|l t s Ht|l t s Ht|l q t s Hq Ht]; cbn [app code_end].
  - rewrite orb_true_r. cbn [negb]. by rewrite Z.add_0_r.
  - rewrite (proj2 (Z.ltb_lt 1 l)) by done. cbn [orb negb]. by rewrite Z.add_0_r.
  - rewrite !elem_of_cons, elem_of_nil in Hc.
    rewrite (proj2 (Z.eqb_neq c 123)), (proj2 (Z.eqb_neq c 125)), (proj2 (Z.eqb_neq c 39)), (proj2 (Z.eqb_neq c 34)) by naive_solver.
    cbn [negb]. rewrite orb_true_r. cbn [negb orb]. destruct (Z.eqb_spec c 10) as [->|H10]; [done|].
    rewrite newlines_none by (by repeat constructor). rewrite Z.add_0_r.
    destruct (Z.eqb_spec c 47) as [->|H47]; [|done]. cbn [andb]. specialize (Hcm eq_refl). rewrite !elem_of_cons, elem_of_nil in Hcm.
    rewrite (proj2 (Z.eqb_neq _ 42)), (proj2 (Z.eqb_neq _ 47)) by naive_solver. done.
  - rewrite orb_true_r. cbn [negb hd tail]. change (47 =? 10) with false. change (47 =? 123) with false. change (47 =? 125) with false.
    change (47 =? 47) with true. change (42 =? 42) with true. cbn [andb]. rewrite code_comment_complete by done. cbn [of_opt].
    by rewrite (newlines_head 47 (42 :: t)), (newlines_head 42 t), !Z.add_assoc, !Z.add_0_r.
  - rewrite orb_true_r. cbn [negb hd tail]. change (47 =? 10) with false. change (47 =? 123) with false. change (47 =? 125) with false.
    change (47 =? 47) with true. change (47 =? 42) with false. cbn [andb]. rewrite <- app_assoc. cbn [app].
    rewrite code_line_complete by done. cbn [of_opt]. f_equal. rewrite (newlines_head 47 (47 :: t ++ [10])), (newlines_head 47 (t ++ [10])), newlines_app, (newlines_none t Ht). reflexivity.
  - assert (q = 39 ∨ q = 34) as Hq' by set_solver.
    assert ((q =? 10) = false ∧ (q =? 123) = false ∧ (q =? 125) = false ∧ (q =? 47) = false ∧ ((q =? 39) || (q =? 34)) = true ∧ newlines [q] = 0)
      as (E1&E2&E3&E4&E5&E6) by (by destruct Hq' as [-> | ->]).
    rewrite E3, orb_true_r, E1, E2, E4, E5. cbn [negb andb]. rewrite code_literal_complete by done. cbn [of_opt].
    by rewrite newlines_head, E6.
Qed.
Lemma code_end_complete l b m r lineno fuel :
  block l b m → hd 0 r ∉ [42; 47] → (length (b ++ r) < fuel)%nat →
  ∃ fuel', (length r < fuel')%nat ∧ code_end fuel l (b ++ r) lineno = code_end fuel' m r (lineno + newlines b).
Proof.
  intros Hb Hr. revert lineno fuel.
  assert (∀ l a l' b m lineno fuel, item l a l' (b ++ r) → a ≠ [] →
    (∀ lineno fuel, (length (b ++ r) < fuel)%nat →
      ∃ fuel', (length r < fuel')%nat ∧ code_end fuel l' (b ++ r) lineno = code_end fuel' m r (lineno + newlines b)) →
    (length ((a ++ b) ++ r) < fuel)%nat →
    ∃ fuel', (length r < fuel')%nat ∧ code_end fuel l ((a ++ b) ++ r) lineno = code_end fuel' m r (lineno + newlines (a ++ b))) as Hstep.
  { intros l0 a l' b0 m0 lineno fuel Hi Ha IH Hf. destruct fuel as [|fuel]; [lia|]. rewrite <- app_assoc in *.
    rewrite (code_end_item _ _ _ _ _ _ Hi), newlines_app, Z.add_assoc. apply IH. rewrite length_app in Hf. destruct a; [done|]. cbn in Hf. lia. }
  induction Hb as [l|l s m Hs IH|l s m Hl Hs IH|l c s m Hc Hcm Hs IH|l t s m Ht Hs IH|l t s m Ht Hs IH|l q t s m Hq Ht Hs IH];
    intros lineno fuel.
  - intros Hf. exists fuel. split; [done|]. cbn. change (newlines []) with 0. by rewrite Z.add_0_r.
  - apply (Hstep l [123] (l + 1)); [constructor|done|done].
  - apply (Hstep l [125] (l - 1)); [by constructor|done|done].
  - apply (Hstep l [c] l); [|done|done]. apply item_char; [done|]. intros Hc47. destruct s as [|d s]; [exact Hr|by apply Hcm].
  - apply (Hstep l (47 :: 42 :: t) l); [by constructor|done|done].
  - change (47 :: 47 :: t ++ 10 :: s) with ((47 :: 47 :: t) ++ [10] ++ s). rewrite (app_assoc _ [10] s). apply (Hstep l (47 :: 47 :: t ++ [10]) l); [by constructor|done|done].
  - apply (Hstep l (q :: t) l); [by constructor|done|done].
Qed.

(** *** The scanner does not depend on the fuel *)

Section Text.
Context (calloc_ok : Z → bool) (malloc_ok rule_ok : bool) (filename : str) (nolinenosflag : bool).
Notation loop := (Parse_loop calloc_ok malloc_ok rule_ok filename nolinenosflag).
Notation step := (parseonetoken calloc_ok malloc_ok rule_ok filename nolinenosflag).
Notation steps := (parse_tokens calloc_ok malloc_ok rule_ok filename nolinenosflag).

Lemma skip_comment_length prev s lineno : (length (skip_comment prev s lineno).1 ≤ length s)%nat.
Proof.
  revert prev lineno. induction s as [|c s IH]; intros prev lineno; cbn [skip_comment]; [done|]. destruct (_ && _); cbn [fst length]; [lia|].
  etransitivity; [apply IH|]. lia.
Qed.
Lemma skip_line_length s : (length (skip_line s) ≤ length s)%nat.
Proof. induction s as [|c s IH]; cbn [skip_line]; [done|]. destruct (_ =? _); cbn [length]; lia. Qed.
Lemma tail_length {A} (s : list A) : (length (tail s) ≤ length s)%nat.
Proof. destruct s; cbn; lia. Qed.

Lemma Parse_loop_fuel f f' s lineno p : (length s < f)%nat → (length s < f')%nat → loop f s lineno p = loop f' s lineno p.
Proof.
  revert f' s lineno p. induction f as [|f IH]; intros [|f'] s lineno p Hf Hf'; [lia..|]. cbn [Parse_loop].
  destruct s as [|c s]; [done|]. cbn [length] in *. pose proof (tail_length s).
  destruct (ISSPACE c) eqn:Esp; [apply IH; lia|].
  destruct ((c =? 47) && (hd 0 s =? 47)) eqn:E1; [pose proof (skip_line_length (tail s)); apply IH; lia|].
  destruct ((c =? 47) && (hd 0 s =? 42)) eqn:E2.
  { pose proof (skip_comment_length 42 (tail s) (next_line c lineno)). destruct (skip_comment _ _ _). cbn in *. apply IH; lia. }
  pose proof (scan_token_spec c s (next_line c lineno) Esp) as Hs.
  destruct (scan_token c s (next_line c lineno)) as [[[[n rest] lineno'] bad]|]; [|done].
  destruct Hs as (raw&close&Hs&_&Htok&_).
  { intros ->. cbn in E1, E2. apply Z.eqb_neq in E1, E2. set_solver. }
  destruct (step _ _ _); [|done]. cbn [mbind res_bind]. pose proof (token_nonempty _ _ _ _ Htok).
  apply (f_equal length) in Hs. rewrite !length_app in Hs. cbn [length] in Hs. destruct raw; [done|]. cbn [length] in Hs. apply IH; lia.
Qed.

(** *** Tokens as text *)

Notation run s := (loop (S (length s)) s).
(** the brace that closes a block is not part of the token *)
Definition token_text (x : cstr) : str := if chr x 0 =? 123 then cs x ++ [125] else cs x.
Definition plain_token (x : cstr) : Prop :=
  word ISALPHA x ∨ cs x ∈ lit <$> ["::="; "("; ")"; "."; "["; "]"]%string ∨ ∃ b, cs x = 123 :: b ∧ block 1 b 1.
(** tokens with white space around them *)
Inductive written : list cstr → str → Prop :=
  | written_nil w : Forall (λ c, ISSPACE c = true) w → written [] w
  | written_cons w x xs s : Forall (λ c, ISSPACE c = true) w → ISSPACE (hd 0 s) = true → plain_token x → written xs s →
      written (x :: xs) (w ++ token_text x ++ s).

Lemma run_space c s lineno p : ISSPACE c = true → run (c :: s) lineno p = run s (next_line c lineno) p.
Proof. intros Hc. set (R := run s _ p). cbn [Parse_loop]. rewrite Hc. apply Parse_loop_fuel; cbn; lia. Qed.
Lemma run_spaces w s lineno p : Forall (λ c, ISSPACE c = true) w → run (w ++ s) lineno p = run s (lineno + newlines w) p.
Proof.
  intros Hw. revert lineno. induction Hw as [|c w Hc Hw IH]; intros lineno; [change (newlines []) with 0; by rewrite Z.add_0_r|].
  cbn [app]. rewrite run_space by done. by rewrite IH, newlines_cons.
Qed.

Lemma space_no_word c : ISSPACE c = true → id_char c = false.
Proof.
  unfold ISSPACE, id_char, ISALNUM, ISALPHA, ISUPPER, ISLOWER. intros H.
  rewrite orb_true_iff, andb_true_iff, Z.eqb_eq, !Z.leb_le in H. rewrite !orb_false_iff, !andb_false_iff, !Z.leb_gt, Z.eqb_neq. lia.
Qed.
Lemma chr_head x c s : cs x = c :: s → chr x 0 = c.
Proof. unfold chr. by intros ->. Qed.
Lemma scan_token_text x s lineno :
  plain_token x → ISSPACE (hd 0 s) = true →
  ∃ c s', token_text x ++ s = c :: s' ∧ ISSPACE c = false ∧ c ≠ 47 ∧
    scan_token c s' lineno = Ok (length (cs x), s, lineno + newlines (token_text x), false) ∧ take (length (cs x)) (c :: s') = cs x.
Proof.
  intros Hx Hs. unfold token_text. destruct Hx as [(c&n&Hx&Hc&Hn)|[Hx|(b&Hx&Hb)]].
  - assert (ISALNUM c = true ∧ ISSPACE c = false ∧ c ≠ 47 ∧ (c =? 34) = false ∧ (c =? 123) = false ∧ c ≠ 10) as (E1&E2&E3&E4&E5&E6).
    { unfold ISALNUM. rewrite Hc. revert Hc. unfold ISALPHA, ISUPPER, ISLOWER, ISSPACE. rewrite orb_true_iff, !andb_true_iff, !Z.leb_le. intros. lia. }
    rewrite (chr_head _ _ _ Hx), E5, Hx. exists c, (n ++ s). split; [done|]. split; [done|]. split; [done|]. split.
    + unfold scan_token. rewrite E4, E5, E1, (span_name_app n s Hn) by (by apply space_no_word). cbn [snd]. rewrite length_app. cbn [length].
      replace (S (length n + length s) - length s)%nat with (S (length n)) by lia.
      rewrite newlines_none, Z.add_0_r; [done|]. constructor; [done|]. eapply Forall_impl; [exact Hn|]. by intros d Hd ->.
    + exact (take_app_length (c :: n) s).
  - assert (cs x = [58; 58; 61] ∨ ∃ c, cs x = [c] ∧ c ∈ [40; 41; 46; 91; 93]) as [Hx'|(c&Hx'&Hc)].
    { rewrite !fmap_cons, fmap_nil, !elem_of_cons, elem_of_nil in Hx.
      destruct Hx as [->|[->|[->|[->|[->|[->|[]]]]]]]; [by left|right; eexists; (split; [reflexivity|set_solver])..]. }
    + rewrite (chr_head _ _ _ Hx'), Hx'. exists 58, (58 :: 61 :: s). split; [done|]. split; [done|]. split; [done|]. split; [|done].
      change (scan_token 58 (58 :: 61 :: s) lineno) with (Ok (S (S (S (length s))) - length s, s, lineno, false) : res (nat * str * Z * bool))%nat.
      change (lineno + newlines _) with (lineno + 0). rewrite Z.add_0_r. by replace (S (S (S (length s))) - length s)%nat with 3%nat by lia.
    + rewrite (chr_head _ _ _ Hx'), Hx'. exists c, s.
      rewrite !elem_of_cons, elem_of_nil in Hc. destruct Hc as [->|[->|[->|[->|[->|[]]]]]]; (split; [done|]; split; [done|]; split; [done|]; split; [|done]);
        change (lineno + newlines _) with (lineno + 0); by rewrite Z.add_0_r.
  - rewrite (chr_head _ _ _ Hx), Hx. change (123 =? 123) with true. cbn match.
    exists 123, (b ++ 125 :: s). split; [by cbn; rewrite <- app_assoc|]. split; [done|]. split; [done|]. split.
    + unfold scan_token. change (123 =? 34) with false. change (123 =? 123) with true. cbn match.
      destruct (code_end_complete 1 b 1 (125 :: s) lineno (S (length (b ++ 125 :: s))) Hb) as (fuel&Hfuel&->); [cbn; set_solver|lia|].
      destruct fuel as [|fuel]; [lia|]. cbn [code_end]. change (negb ((1 <? 1) || negb (125 =? 125))) with true. cbn match.
      cbn [tail]. rewrite length_app. cbn [length]. replace (S (length b + S (length s)) - S (length s))%nat with (S (length b)) by lia.
      replace (lineno + newlines b) with (lineno + newlines ((123 :: b) ++ [125])); [done|].
      rewrite newlines_app, newlines_head. change (newlines [123]) with 0. change (newlines [125]) with 0. lia.
    + exact (take_app_length (123 :: b) (125 :: s)).
Qed.
Lemma cs_cstring x : cstring (cs x).
Proof. exact (bool_decide_unpack _ (proj2_sig x)). Qed.
Lemma to_cstr_cs x : to_cstr (cs x) = x.
Proof. apply (sig_eq_pi _). apply before_nul_id, cs_cstring. Qed.

Lemma run_token x s lineno p :
  plain_token x → ISSPACE (hd 0 s) = true →
  run (token_text x ++ s) lineno p = (q ← step x lineno p; run s (lineno + newlines (token_text x)) q).
Proof.
  intros Hx Hs. destruct (scan_token_text x s lineno Hx Hs) as (c&s'&E&Hsp&H47&Hscan&Htake).
  assert (length s < length (c :: s'))%nat as Hlen.
  { rewrite <- E, length_app. destruct (token_text x) as [|d t] eqn:Et; [|cbn; lia]. cbn in E. subst s. cbn in Hs. congruence. }
  rewrite E. match goal with |- _ = ?r => set (R := r) end. cbn [Parse_loop]. rewrite Hsp, (proj2 (Z.eqb_neq c 47)) by done. cbn [andb].
  assert (next_line c lineno = lineno) as -> by (unfold next_line; destruct (Z.eqb_spec c 10) as [->|]; done).
  rewrite Hscan, Htake, to_cstr_cs. subst R. destruct (step x lineno p); [|done]. cbn [mbind res_bind]. apply Parse_loop_fuel; [done|lia].
Qed.
Lemma run_written xs s lineno : written xs s → ∃ l, l.*1 = xs ∧ ∀ p, run s lineno p = steps l p.
Proof.
  intros H. revert lineno. induction H as [w Hw|w x xs s Hw Hs Hx H IH]; intros lineno.
  - exists []. split; [done|]. intros p. rewrite <- (app_nil_r w). by rewrite run_spaces.
  - destruct (IH (lineno + newlines w + newlines (token_text x))) as (l&Hl&Hrun). exists ((x, lineno + newlines w) :: l).
    split; [by rewrite fmap_cons, Hl|]. intros p. rewrite run_spaces, run_token by done. cbn [parse_tokens].
    destruct (step _ _ _); [|done]. apply Hrun.
Qed.
Lemma written_cstring xs s : written xs s → cstring s.
Proof.
  assert (∀ w, Forall (λ c, ISSPACE c = true) w → cstring w) as Hsp by (intros w Hw; eapply Forall_impl; [exact Hw|]; by intros c Hc ->).
  induction 1 as [w Hw|w x xs s Hw Hs Hx H IH]; [by apply Hsp|]. apply Forall_app. split; [by apply Hsp|]. apply Forall_app. split; [|done].
  unfold token_text. pose proof (cs_cstring x). destruct (_ =? _); [|done]. apply Forall_app. split; [done|]. by repeat constructor.
Qed.
End Text.

(** C23: Round trip through a grammar file, with memory at hand: any list of rules with
    their aliases, precedence marks, NEVER-REDUCE marks and code, with at most MAXRHS
    symbols on a right-hand side and no code that is the text NEVER-REDUCE, written as text
    with white space between the tokens (names as words, with a small letter first on the
    left-hand side and a capital first in a precedence mark, code as balanced blocks of C)
    in which no line is a directive of the preprocessor (begins with %ifdef, %ifndef, %if,
    %else or %endif), is read back by [Parse] as exactly these rules, in this order, without
    an error: symbols bear the names that were written, aliases, marks and code are those of
    the text. *)
Theorem grammar_roundtrip calloc_ok filename nolinenosflag azDefine t rs text :
  (∀ n, calloc_ok n = true) → fresh_table t → Forall text_ok rs → written (concat (rule_tokens <$> rs)) text → no_directive true text = true →
  ∃ g, Parse calloc_ok true true filename nolinenosflag azDefine (Some text) false t = Ok (seq 0 (length rs), 0, g) ∧
    gram_ok g ∧ Forall2 (is_rule (heap g)) (g_rules g) rs.
Proof.
  intros Hcal Ht Hrs Hw H37. unfold Parse. rewrite before_nul_id by (by eapply written_cstring).
  rewrite preprocess_same by done. cbn [mbind res_bind].
  destruct (run_written calloc_ok true true filename nolinenosflag _ _ 1 Hw) as (l&Hl&->).
  destruct (read_rules calloc_ok filename nolinenosflag Hcal rs l (pstate0 t)) as (q&new&->&Hq&He&_&Hr&Hall);
    [done|by apply pstate0_ok|by right|done|].
  cbn in *. exists (ps_gp q). pose proof (bo_gram _ _ _ _ (proj1 Hq)) as Hg. subst new. split; [|done].
  by rewrite (gr_list _ Hg), (Forall2_length _ _ _ Hall), He.
Qed.

(** *** An instance *)

Fixpoint print_tokens (xs : list cstr) : str :=
  match xs with
  | [] => [32]
  | x :: xs => 32 :: token_text x ++ print_tokens xs
  end.
Lemma written_print xs : Forall plain_token xs → written xs (print_tokens xs).
Proof.
  induction 1 as [|x xs Hx Hxs IH]; cbn [print_tokens]; [apply written_nil; by repeat constructor|].
  apply (written_cons [32] x xs (print_tokens xs)); [by repeat constructor|by destruct xs|done|done].
Qed.

Lemma word_weaken f g x : (∀ c, f c = true → g c = true) → word f x → word g x.
Proof. intros H (c&s&E&Hc&Hs). exists c, s. auto. Qed.
Lemma block_plain b : Forall (λ c, c ∉ [123; 125; 39; 34; 47]) b → block 1 b 1.
Proof. induction 1 as [|c b Hc Hb IH]; [constructor|]. apply block_char; [set_solver|set_solver|done]. Qed.
Lemma rule_tokens_plain r : text_ok r → from_option (λ x, block 1 (cs x) 1) True (t_code r) → Forall plain_token (rule_tokens r).
Proof.
  intros [H1 H2 H3 _ H4 _] Hc.
  assert (∀ c, ISLOWER c = true → ISALPHA c = true) as Hlo by (intros c; unfold ISALPHA; intros ->; apply orb_true_r).
  assert (∀ c, ISUPPER c = true → ISALPHA c = true) as Hup by (intros c; unfold ISALPHA; by intros ->).
  assert (∀ x, word ISALPHA x → plain_token x) as Hw by (intros; by left).
  assert (∀ x, cs x ∈ lit <$> ["::="; "("; ")"; "."; "["; "]"]%string → plain_token x) as Hp by (intros; right; by left).
  assert (∀ a, from_option (word ISALPHA) True a → Forall plain_token (alias_tokens a)) as Ha.
  { intros [a|] Hx; [|constructor]. constructor; [apply Hp; right; left|]. constructor; [by apply Hw|]. constructor; [|done]. apply Hp. right; right; left. }
  unfold rule_tokens. repeat (apply Forall_app; split).
  - constructor; [|done]. apply Hw. by eapply word_weaken; [|exact H1].
  - by apply Ha.
  - constructor; [|done]. apply Hp. left.
  - apply Forall_concat, Forall_fmap. eapply Forall_impl; [exact H3|]. intros e [Hx Hy]. cbn. constructor; [by apply Hw|by apply Ha].
  - constructor; [|done]. apply Hp. do 3 right. left.
  - revert H4. destruct (t_prec r) as [x|]; [|constructor]. intros H4. constructor; [apply Hp; do 4 right; left|].
    constructor; [apply Hw; by eapply word_weaken; [|exact H4]|]. constructor; [|done]. apply Hp. do 5 right. left.
  - destruct (t_never r); [|constructor]. constructor; [|done]. right. right. exists (lit "NEVER-REDUCE"). split; [reflexivity|].
    apply block_plain. vm_compute. repeat (constructor; [set_solver|]). constructor.
  - revert Hc. destruct (t_code r) as [x|]; [|constructor]. intros Hc. constructor; [|done]. right. right. by exists (cs x).
Qed.

(** expr(A) ::= expr(B) PLUS term. [PLUS] {NEVER-REDUCE} {f('}');} *)
Definition sample_rule : rule_text :=
  mkRuleText (tok (lit "expr")) (Some (tok (lit "A"))) [(tok (lit "expr"), Some (tok (lit "B"))); (tok (lit "PLUS"), None); (tok (lit "term"), None)]
    (Some (tok (lit "PLUS"))) true (Some (tok (lit "f('}');"))).
Lemma sample_word f (x : string) c s : lit x = c :: s → f c = true → forallb id_char s = true → cs (tok (lit x)) = lit x → word f (tok (lit x)).
Proof.
  intros E Hf Hs Hx. exists c, s. split; [congruence|]. split; [done|]. apply Forall_forall. intros d Hd.
  apply (proj1 (forallb_forall _ _) Hs). by apply list_elem_of_In.
Qed.
Lemma sample_ok : text_ok sample_rule.
Proof.
  assert (word ISALPHA (tok (lit "A"))) by (eapply sample_word; reflexivity).
  assert (word ISALPHA (tok (lit "B"))) by (eapply sample_word; reflexivity).
  constructor; cbn [sample_rule t_lhs t_lhsalias t_rhs t_prec t_code from_option].
  - eapply sample_word; reflexivity.
  - assumption.
  - repeat constructor; cbn [fst snd from_option]; try done; eapply sample_word; reflexivity.
  - vm_compute. discriminate.
  - eapply sample_word; reflexivity.
  - vm_compute. discriminate.
Qed.
Lemma sample_block : block 1 (lit "f('}');") 1.
Proof.
  change (lit "f('}');") with [102; 40; 39; 125; 39; 41; 59].
  apply block_char; [set_solver|done|]. apply block_char; [set_solver|done|].
  apply (block_literal 1 39 [125; 39] [41; 59]); [set_solver|apply literal_char; [done|done|constructor]|].
  apply block_plain. repeat (constructor; [set_solver|]). constructor.
Qed.
Definition sample_text : str := print_tokens (rule_tokens sample_rule).

Lemma grammar_roundtrip_witness :
  ∃ g, Parse (λ _, true) true true [] false [] (Some sample_text) false symtab0 = Ok ([0%nat], 0, g) ∧
    Forall2 (is_rule (heap g)) (g_rules g) [sample_rule].
Proof.
  destruct (grammar_roundtrip (λ _, true) [] false [] symtab0 [sample_rule] sample_text) as (g&H1&_&H2).
  - reflexivity.
  - apply symtab0_fresh.
  - constructor; [apply sample_ok|constructor].
  - cbn [fmap list_fmap concat]. rewrite app_nil_r. apply written_print, rule_tokens_plain; [apply sample_ok|apply sample_block].
  - vm_compute. reflexivity.
  - exists g. split; [exact H1|exact H2].
Defined.
