(* ===== verification/LemonUnion.v ===== *)
(** The union of semantic values ([src/sql/lemon.c], [print_stack_union]): every
    nonterminal is given the number of its data type, which is looked up in a hash
    table with linear probing; and the C types of the tables ([minimum_size_type]).
    Data types are C strings; the lines of the union that are printed are the list of
    the types with their numbers. *)
From S2P Require Import Prelude LemonTable LemonData LemonFirst LemonSymbol LemonPreproc.

Definition upd_dtnum (n : Z) (s : symbol) : symbol :=
  mkSymbol (sp_name s) (sp_index s) (sp_type s) (sp_rule s) (sp_fallback s) (sp_prec s) (sp_assoc s)
    (sp_firstset s) (sp_lambda s) (sp_useCnt s) (sp_destructor s) (sp_destLineno s) (sp_datatype s) n
    (sp_bContent s) (sp_subsym s).

(** ** One data type *)

Fixpoint skip_space (s : str) : str :=
  match s with
  | [] => []
  | c :: s' => if ISSPACE c then skip_space s' else s
  end.
(** [while( j>0 && ISSPACE(stddt[j-1]) ) j--] *)
Definition trim_end (s : str) : str := reverse (skip_space (reverse s)).
Definition std_type (cp : str) : str := trim_end (skip_space cp).
Definition type_hash (s : str) (arraysize : Z) : Z :=
  Z.land (foldl (λ h c, (h * 53 + c) mod UINT) 0 s) 2147483647 mod arraysize.

(** the slot of a type, or the empty one it belongs to *)
Fixpoint probe (fuel : nat) (types : list (option str)) (hash : Z) (stddt : str) : res Z :=
  match fuel with
  | O => Err OutOfFuel
  | S fuel =>
      slot ← of_opt OutOfBounds (types !! Z.to_nat hash);
      match slot with
      | None => Ok hash
      | Some t =>
          if decide (t = stddt) then Ok hash
          else probe fuel types (if hash + 1 >=? zlen types then 0 else hash + 1) stddt
      end
  end.

Section Union.
Context (vartype tokentype : option str) (errsym : option nat).
Implicit Types (h : list symbol) (types : list (option str)) (l : list nat).

(** the text of the data type of a symbol that has a number of its own *)
Definition type_text (s : symbol) : option str :=
  if decide (sp_type s = NONTERMINAL) then
    match sp_datatype s with Some cp => Some cp | None => vartype end
  else None.
Fixpoint max_length h l (n : Z) : Z :=
  match l with
  | [] => n
  | sp :: l => max_length h l (match sp_datatype (sym h sp) with Some cp => Z.max n (zlen cp) | None => n end)
  end.
(** [stddt] has room for twice the length of the longest type *)
Definition number_one (arraysize maxdtlength : Z) (sp : nat) h types : res (list symbol * list (option str)) :=
  if decide (errsym = Some sp) then Ok (alter (upd_dtnum (arraysize + 1)) sp h, types)
  else
    match type_text (sym h sp) with
    | None => Ok (alter (upd_dtnum 0) sp h, types)
    | Some cp =>
        if maxdtlength * 2 <? zlen (skip_space cp) then Err OutOfBounds
        else
          let stddt := std_type cp in
          if decide (tokentype = Some stddt) then Ok (alter (upd_dtnum 0) sp h, types)
          else if arraysize =? 0 then Err DivByZero
          else
            hash ← probe (S (length types)) types (type_hash stddt arraysize) stddt;
            Ok (alter (upd_dtnum (hash + 1)) sp h, <[Z.to_nat hash := Some stddt]> types)
    end.
Fixpoint number_all (arraysize maxdtlength : Z) l h types : res (list symbol * list (option str)) :=
  match l with
  | [] => Ok (h, types)
  | sp :: l => let* (h, types) := number_one arraysize maxdtlength sp h types in number_all arraysize maxdtlength l h types
  end.
(** the lines of the union: a type and its number *)
Definition union_fields types : list (str * Z) := omap id (imap (λ i t, (λ t, (t, Z.of_nat i + 1)) <$> t) types).
(** the symbols with their numbers, and the union; [l] is [lemp->symbols] *)
Definition print_stack_union (calloc_ok : bool) l h : res (list symbol * list (str * Z)) :=
  let arraysize := zlen l * 2 in
  if negb calloc_ok then Err ExitCalled
  else
    let maxdtlength := max_length h l (match vartype with Some t => zlen t | None => 0 end) in
    let* (h, types) := number_all arraysize maxdtlength l h (replicate (Z.to_nat arraysize) None) in
    let fields := union_fields types in
    Ok (h, match errsym with
           | Some sp => if negb (sp_useCnt (sym h sp) =? 0) then fields ++ [([105; 110; 116], sp_dtnum (sym h sp))] else fields
           | None => fields
           end).
End Union.

(** the smallest type for values between [lwr] and [upr], with its bytes *)
Inductive c_type := c_int | c_uchar | c_ushort | c_uint | c_schar | c_short.
Definition minimum_size_type (lwr upr : Z) : c_type * Z :=
  if lwr >=? 0 then
    if upr <=? 255 then (c_uchar, 1) else if upr <? 65535 then (c_ushort, 2) else (c_uint, 4)
  else if (lwr >=? -127) && (upr <=? 127) then (c_schar, 1)
  else if (lwr >=? -32767) && (upr <? 32767) then (c_short, 2)
  else (c_int, 4).

(** ** The table of types *)

Section Table.
Context (m : Z) (Hm : 0 < m).
Notation at_ types k := (types !! Z.to_nat (k mod m)).

(** every type is where probing from its hash finds it *)
Definition table_wf (types : list (option str)) : Prop :=
  zlen types = m ∧ ∀ j t, types !! j = Some (Some t) → ∃ k, 0 ≤ k ∧ Z.of_nat j = (type_hash t m + k) mod m ∧
    ∀ k', 0 ≤ k' < k → ∃ t', at_ types (type_hash t m + k') = Some (Some t') ∧ t' ≠ t.
(** [hash] is the first slot from the hash of [t] on that is empty or has [t] *)
Definition finds (types : list (option str)) (t : str) (hash : Z) : Prop :=
  ∃ k, 0 ≤ k ∧ hash = (type_hash t m + k) mod m ∧ (at_ types (type_hash t m + k) = Some None ∨ at_ types (type_hash t m + k) = Some (Some t)) ∧
    ∀ k', 0 ≤ k' < k → ∃ t', at_ types (type_hash t m + k') = Some (Some t') ∧ t' ≠ t.

Lemma type_slot_some k (types : list (option str)) : zlen types = m → ∃ x, at_ types k = Some x.
Proof. intros Hl. apply lookup_lt_is_Some_2. pose proof (Z.mod_pos_bound k m Hm). unfold zlen in Hl. lia. Qed.
Lemma next_slot k : (if k mod m + 1 >=? m then 0 else k mod m + 1) = (k + 1) mod m.
Proof.
  pose proof (Z.mod_pos_bound k m Hm) as Hb. rewrite Z.geb_leb. destruct (Z.leb_spec m (k mod m + 1)).
  - rewrite <- Zplus_mod_idemp_l. replace (k mod m + 1) with m by lia. symmetry. apply Z.mod_same. lia.
  - rewrite <- Zplus_mod_idemp_l. symmetry. apply Z.mod_small. lia.
Qed.
Lemma probe_finds types t fuel k k1 :
  zlen types = m → 0 ≤ k ≤ k1 → k1 - k < Z.of_nat fuel → at_ types (type_hash t m + k1) = Some None →
  (∀ k', 0 ≤ k' < k → ∃ t', at_ types (type_hash t m + k') = Some (Some t') ∧ t' ≠ t) →
  ∃ hash, probe fuel types ((type_hash t m + k) mod m) t = Ok hash ∧ finds types t hash.
Proof.
  intros Hl. revert k. induction fuel as [|fuel IH]; intros k Hk Hf Hnone Hbefore; [lia|]. cbn [probe].
  destruct (type_slot_some (type_hash t m + k) types Hl) as [[t'|] Hx]; rewrite Hx; cbn [of_opt mbind res_bind].
  - case_decide as Ht.
    + subst t'. eexists. split; [done|]. exists k. split; [lia|]. split; [done|]. split; [by right|done].
    + rewrite Hl, next_slot. rewrite <- Z.add_assoc. apply IH; [|lia|done|].
      * split; [lia|]. destruct (decide (k = k1)) as [->|]; [congruence|lia].
      * intros k' Hk'. destruct (decide (k' = k)) as [->|]; [by exists t'|apply Hbefore; lia].
  - eexists. split; [done|]. exists k. split; [lia|]. split; [done|]. split; [by left|done].
Qed.
Lemma type_hash_range t : 0 ≤ type_hash t m < m.
Proof. unfold type_hash. by apply Z.mod_pos_bound. Qed.
(** with an empty slot the search ends *)
Lemma probe_ok types t j :
  zlen types = m → types !! j = Some None → ∃ hash, probe (S (length types)) types (type_hash t m) t = Ok hash ∧ finds types t hash.
Proof.
  intros Hl Hj. pose proof (type_hash_range t) as Hh. pose proof (lookup_lt_Some _ _ _ Hj) as Hlt. unfold zlen in Hl.
  destruct (probe_finds types t (S (length types)) 0 ((Z.of_nat j - type_hash t m) mod m)) as (hash&Hp&Hf).
  - done.
  - pose proof (Z.mod_pos_bound (Z.of_nat j - type_hash t m) m Hm). lia.
  - pose proof (Z.mod_pos_bound (Z.of_nat j - type_hash t m) m Hm). lia.
  - rewrite Zplus_mod_idemp_r. replace (type_hash t m + (Z.of_nat j - type_hash t m)) with (Z.of_nat j) by lia.
    rewrite Z.mod_small by lia. by rewrite Nat2Z.id.
  - lia.
  - rewrite Z.add_0_r, Z.mod_small in Hp by lia. by exists hash.
Qed.
(** a type is in one slot *)
Lemma table_unique types i j t : table_wf types → types !! i = Some (Some t) → types !! j = Some (Some t) → i = j.
Proof.
  intros [Hl Hw] Hi Hj. destruct (Hw i t Hi) as (k&Hk&Ei&Bi), (Hw j t Hj) as (k'&Hk'&Ej&Bj).
  assert (∀ i0 k0, Z.of_nat i0 = (type_hash t m + k0) mod m → Z.to_nat ((type_hash t m + k0) mod m) = i0) as Hn by (intros ? ? <-; apply Nat2Z.id).
  destruct (Z.lt_trichotomy k k') as [H|[->|H]].
  - destruct (Bj k) as (t'&Ht'&Hne); [lia|]. rewrite (Hn i k Ei), Hi in Ht'. congruence.
  - rewrite <- Ej in Ei. lia.
  - destruct (Bi k') as (t'&Ht'&Hne); [lia|]. rewrite (Hn j k' Ej), Hj in Ht'. congruence.
Qed.
Lemma table_insert types t hash :
  table_wf types → finds types t hash → table_wf (<[Z.to_nat hash := Some t]> types) ∧ 0 ≤ hash < m ∧
    (∀ j t', types !! j = Some (Some t') → <[Z.to_nat hash := Some t]> types !! j = Some (Some t')).
Proof.
  intros [Hl Hw] (k&Hk&->&Hslot&Hbefore). pose proof (Z.mod_pos_bound (type_hash t m + k) m Hm) as Hb. set (h := (type_hash t m + k) mod m) in *.
  assert (∀ j t', types !! j = Some (Some t') → <[Z.to_nat h := Some t]> types !! j = Some (Some t')) as Hkeep.
  { intros j t' Hj. destruct (decide (j = Z.to_nat h)) as [->|]; [|by rewrite list_lookup_insert_ne].
    rewrite list_lookup_insert_eq by (by eapply lookup_lt_Some). destruct Hslot as [Hs|Hs]; congruence. }
  split; [|done]. split; [unfold zlen in *; by rewrite length_insert|].
  assert (∀ t0 k0, (∀ k', 0 ≤ k' < k0 → ∃ t', at_ types (type_hash t0 m + k') = Some (Some t') ∧ t' ≠ t0) →
    ∀ k', 0 ≤ k' < k0 → ∃ t', at_ (<[Z.to_nat h := Some t]> types) (type_hash t0 m + k') = Some (Some t') ∧ t' ≠ t0) as Hmono.
  { intros t0 k0 H k' Hk'. destruct (H k' Hk') as (t'&Ht'&Hne). exists t'. split; [|done]. by apply Hkeep. }
  intros j t' Hj. destruct (decide (j = Z.to_nat h)) as [->|Hne].
  - rewrite list_lookup_insert_eq in Hj by (unfold zlen in Hl; lia). injection Hj as <-. exists k. split; [done|]. split; [lia|by apply Hmono].
  - rewrite list_lookup_insert_ne in Hj by done. destruct (Hw j t' Hj) as (k'&Hk'&Ej&Bj). exists k'. split; [done|]. split; [done|by apply Hmono].
Qed.
End Table.

(** ** All symbols *)

Lemma skip_space_length s : zlen (skip_space s) ≤ zlen s.
Proof. induction s as [|c s IH]; cbn [skip_space]; [done|]. unfold zlen in *. destruct (ISSPACE c); cbn [length]; lia. Qed.
Lemma max_length_le h l n :
  n ≤ max_length h l n ∧ ∀ sp cp, sp ∈ l → sp_datatype (sym h sp) = Some cp → zlen cp ≤ max_length h l n.
Proof.
  revert n. induction l as [|sp l IH]; intros n; cbn [max_length]; [split; [lia|]; by intros ? ? ?%elem_of_nil|].
  destruct (IH (match sp_datatype (sym h sp) with Some cp => Z.max n (zlen cp) | None => n end)) as [H1 H2]. split.
  - destruct (sp_datatype (sym h sp)); lia.
  - intros sp' cp [->|Hin]%elem_of_cons Hcp; [rewrite Hcp in H1 |- *; lia|by eapply H2].
Qed.
(** the number of empty slots *)
Definition empties (types : list (option str)) : nat := length (filter (λ t, t = None) types).
Lemma empties_insert types i t : (empties types ≤ S (empties (<[i := Some t]> types)))%nat.
Proof.
  unfold empties. revert i. induction types as [|x types IH]; intros i; [cbn; lia|]. destruct i as [|i].
  - change (<[0%nat := Some t]> (x :: types)) with (Some t :: types). rewrite !filter_cons. rewrite (decide_False (P := Some t = None)) by done. case_decide; cbn [length]; lia.
  - change (<[S i := Some t]> (x :: types)) with (x :: <[i := Some t]> types). rewrite !filter_cons. specialize (IH i). case_decide; cbn [length]; lia.
Qed.
Lemma empties_some types : (0 < empties types)%nat → ∃ j, types !! j = Some None.
Proof.
  unfold empties. intros H. destruct (filter (λ t, t = None) types) as [|x l] eqn:E; [cbn in H; lia|].
  assert (x ∈ filter (λ t, t = None) types) as [-> Hin]%list_elem_of_filter by (rewrite E; left). by apply list_elem_of_lookup_1.
Qed.

Lemma empties_replicate n : empties (replicate n None) = n.
Proof. unfold empties. induction n as [|n IH]; [done|]. cbn [replicate]. rewrite filter_cons, decide_True by done. cbn [length]. lia. Qed.

Section Numbers.
Context (vartype tokentype : option str) (errsym : option nat) (h0 : list symbol) (m maxlen : Z) (Hm : 0 < m).
Implicit Types (types : list (option str)) (l : list nat).

(** the data type that has a number in the table *)
Definition own_type (sp : nat) : option str :=
  if decide (errsym = Some sp) then None
  else match type_text vartype (sym h0 sp) with
       | Some cp => if decide (tokentype = Some (std_type cp)) then None else Some (std_type cp)
       | None => None
       end.
Definition numbered types (sp : nat) (n : Z) : Prop :=
  match own_type sp with
  | Some t => 1 ≤ n ≤ m ∧ types !! Z.to_nat (n - 1) = Some (Some t)
  | None => n = if decide (errsym = Some sp) then m + 1 else 0
  end.
(** after the symbols [done] *)
Record numbering (done : list nat) h types : Prop := {
  nb_table : table_wf m types;
  nb_free : m ≤ Z.of_nat (empties types + length done);
  nb_heap : ∀ i, sym h i = upd_dtnum (sp_dtnum (sym h i)) (sym h0 i);
  nb_length : length h = length h0;
  nb_done : Forall (λ sp, numbered types sp (sp_dtnum (sym h sp))) done;
  nb_used : ∀ j t, types !! j = Some (Some t) → ∃ sp, sp ∈ done ∧ own_type sp = Some t;
}.

Lemma number_one_ok done sp h types :
  numbering done h types → (sp < length h0)%nat → sp ∉ done → Z.of_nat (length done) < m →
  (∀ cp, type_text vartype (sym h0 sp) = Some cp → zlen cp ≤ maxlen) → 0 ≤ maxlen →
  ∃ h' types', number_one vartype tokentype errsym m maxlen sp h types = Ok (h', types') ∧ numbering (done ++ [sp]) h' types'.
Proof.
  intros [N1 N2 N3 N4 N5 N6] Hsp Hnew Hroom Hmax Hpos. unfold number_one.
  assert (type_text vartype (sym h sp) = type_text vartype (sym h0 sp)) as -> by (by rewrite N3).
  assert (∀ n types', table_wf m types' → numbered types' sp n → m ≤ Z.of_nat (empties types' + S (length done)) →
    (∀ j t, types !! j = Some (Some t) → types' !! j = Some (Some t)) →
    (∀ j t, types' !! j = Some (Some t) → types !! j = Some (Some t) ∨ own_type sp = Some t) →
    numbering (done ++ [sp]) (alter (upd_dtnum n) sp h) types') as Hstep.
  { intros n types' Hw Hn Hfree Hkeep Hused. constructor; [done|..].
    - rewrite length_app. cbn. lia.
    - intros i. rewrite symtab_sym_alter. case_decide as Hd; [|apply N3]. destruct Hd as [-> _]. by rewrite N3.
    - by rewrite length_alter.
    - apply Forall_app. split.
      + rewrite Forall_forall in N5 |- *. intros sp' Hin. rewrite symtab_sym_alter, decide_False by (intros [-> _]; done).
        specialize (N5 sp' Hin). unfold numbered in *. destruct (own_type sp'); [|done]. destruct N5 as [? ?]. split; [done|by apply Hkeep].
      + constructor; [|constructor]. rewrite symtab_sym_alter, decide_True by (split; [done|lia]). done.
    - intros j t Hj. destruct (Hused j t Hj) as [Ho|Ho]; [|exists sp; set_solver]. destruct (N6 j t Ho) as (sp'&?&?). exists sp'. set_solver. }
  unfold numbered, own_type in Hstep. destruct (decide (errsym = Some sp)).
  { eexists _, _. split; [done|]. apply Hstep; auto. lia. }
  destruct (type_text vartype (sym h0 sp)) as [cp|]; [|eexists _, _; split; [done|]; apply Hstep; auto; lia].
  rewrite (proj2 (Z.ltb_ge _ _)) by (pose proof (skip_space_length cp); specialize (Hmax cp eq_refl); lia).
  destruct (decide (tokentype = Some (std_type cp))); [eexists _, _; split; [done|]; apply Hstep; auto; lia|].
  rewrite (proj2 (Z.eqb_neq m 0)) by lia.
  destruct (empties_some types) as [j Hj]; [lia|]. destruct (probe_ok m Hm types (std_type cp) j) as (hash&->&Hf); [apply N1|done|].
  cbn [mbind res_bind]. eexists _, _. split; [done|]. destruct (table_insert m Hm types _ hash N1 Hf) as (Hw&Hr&Hkeep).
  assert (<[Z.to_nat hash := Some (std_type cp)]> types !! Z.to_nat hash = Some (Some (std_type cp))) as Hat.
  { apply list_lookup_insert_eq. destruct N1 as [N1 _]. unfold zlen in N1. lia. }
  apply Hstep; [done| |pose proof (empties_insert types (Z.to_nat hash) (std_type cp)); lia|done|].
  - split; [lia|]. replace (hash + 1 - 1) with hash by lia. done.
  - intros i t Hi. destruct (decide (i = Z.to_nat hash)) as [->|]; [right; congruence|left]. by rewrite list_lookup_insert_ne in Hi.
Qed.
Lemma number_all_ok l done h types :
  numbering done h types → NoDup (done ++ l) → Forall (λ sp, sp < length h0)%nat l → Z.of_nat (length (done ++ l)) ≤ m →
  (∀ sp cp, sp ∈ l → type_text vartype (sym h0 sp) = Some cp → zlen cp ≤ maxlen) → 0 ≤ maxlen →
  ∃ h' types', number_all vartype tokentype errsym m maxlen l h types = Ok (h', types') ∧ numbering (done ++ l) h' types'.
Proof.
  revert done h types. induction l as [|sp l IH]; intros done h types Hn Hnd Hl Hlen Hmax Hpos; cbn [number_all].
  - exists h, types. by rewrite app_nil_r.
  - apply Forall_cons in Hl as [Hsp Hl]. rewrite length_app in Hlen. cbn [length] in Hlen.
    destruct (number_one_ok done sp h types) as (h1&t1&->&H1); [done|done| |lia|intros cp; apply Hmax; left|done|].
    { apply NoDup_app in Hnd as (_&Hd&_). intros Hin. apply (Hd sp Hin). left. }
    destruct (IH (done ++ [sp]) h1 t1) as (h2&t2&->&H2); [done|by rewrite <- app_assoc|done|rewrite !length_app; cbn [length]; lia| |done|].
    { intros sp' cp Hin. apply Hmax. by right. }
    exists h2, t2. rewrite <- app_assoc in H2. done.
Qed.
End Numbers.

Lemma union_fields_spec types t n : (t, n) ∈ union_fields types ↔ 1 ≤ n ∧ types !! Z.to_nat (n - 1) = Some (Some t).
Proof.
  unfold union_fields. rewrite list_elem_of_omap. split.
  - intros (x&Hx&Hid). cbn in Hid. subst x. apply list_elem_of_lookup_1 in Hx as (i&Hi). rewrite list_lookup_imap in Hi.
    destruct (types !! i) as [o|] eqn:E; [|done]. cbn in Hi. destruct o as [t'|]; [|done]. injection Hi as -> <-.
    split; [lia|]. by replace (Z.to_nat (Z.of_nat i + 1 - 1)) with i by lia.
  - intros [Hn Ht]. exists (Some (t, n)). split; [|done]. apply (list_elem_of_lookup_2 _ (Z.to_nat (n - 1))).
    rewrite list_lookup_imap, Ht. cbn. repeat f_equal. lia.
Qed.

(** C19: The numbers of data types: for the symbols of a grammar, [print_stack_union]
    ends (the probing of its hash table among it), stays in its buffers, and changes
    nothing of a symbol but [dtnum]. A nonterminal with a data type other than that of
    the tokens has a number from 1 on such that two of them have the same number exactly
    when their types are the same up to the white space around them; the error symbol has
    a number behind all of these, every other symbol has 0; and the members of the union
    that are printed are exactly the types in use with their numbers, and an int for
    the error symbol when it is used. *)
Theorem print_stack_union_correct vartype tokentype errsym l h :
  NoDup l → l ≠ [] → Forall (λ sp, sp < length h)%nat l →
  ∃ h' fields, print_stack_union vartype tokentype errsym true l h = Ok (h', fields) ∧
    let own := own_type vartype tokentype errsym h in let num sp := sp_dtnum (sym h' sp) in
    (∀ i, sym h' i = upd_dtnum (num i) (sym h i)) ∧
    (∀ sp, sp ∈ l → own sp = None → num sp = if decide (errsym = Some sp) then zlen l * 2 + 1 else 0) ∧
    (∀ sp t, sp ∈ l → own sp = Some t → 1 ≤ num sp ≤ zlen l * 2) ∧
    (∀ sp sp' t t', sp ∈ l → sp' ∈ l → own sp = Some t → own sp' = Some t' → (num sp = num sp' ↔ t = t')) ∧
    (∀ t n, (t, n) ∈ fields ↔ (∃ sp, sp ∈ l ∧ own sp = Some t ∧ num sp = n) ∨
       ∃ sp, errsym = Some sp ∧ sp_useCnt (sym h sp) ≠ 0 ∧ t = [105; 110; 116] ∧ num sp = n).
Proof.
  intros Hnd Hl Hin. unfold print_stack_union. cbn [negb]. set (m := zlen l * 2). set (maxlen := max_length h l _).
  assert (0 < m) as Hm by (subst m; destruct l; [done|]; unfold zlen; cbn; lia).
  destruct (max_length_le h l (match vartype with Some t => zlen t | None => 0 end)) as [Hmax0 Hmax]. fold maxlen in Hmax0, Hmax.
  destruct (number_all_ok vartype tokentype errsym h m maxlen Hm l [] h (replicate (Z.to_nat m) None)) as (h'&types&->&[N1 _ N3 _ N5 N6]).
  - constructor; [|..].
    + split; [rewrite zlen_replicate; lia|]. intros j t [? _]%lookup_replicate. done.
    + rewrite empties_replicate. lia.
    + intros i. by destruct (sym h i).
    + done.
    + constructor.
    + intros j t [? _]%lookup_replicate. done.
  - done.
  - done.
  - cbn [app]. subst m. unfold zlen. lia.
  - intros sp cp Hsp Ht. unfold type_text in Ht. case_decide; [|done].
    destruct (sp_datatype (sym h sp)) as [cp'|] eqn:E; [injection Ht as ->; by eapply Hmax|]. rewrite Ht in Hmax0. done.
  - destruct vartype as [t|]; [pose proof (zlen_nonneg t)|]; lia.
  - cbn [app] in *. rewrite Forall_forall in N5.
    assert (∀ sp t, sp ∈ l → own_type vartype tokentype errsym h sp = Some t →
      1 ≤ sp_dtnum (sym h' sp) ≤ m ∧ types !! Z.to_nat (sp_dtnum (sym h' sp) - 1) = Some (Some t)) as Hown.
    { intros sp t Hsp Ho. specialize (N5 sp Hsp). unfold numbered in N5. by rewrite Ho in N5. }
    assert (∀ t n, (t, n) ∈ union_fields types ↔ ∃ sp, sp ∈ l ∧ own_type vartype tokentype errsym h sp = Some t ∧ sp_dtnum (sym h' sp) = n) as Hfields.
    { intros t n. rewrite union_fields_spec. split.
      - intros [Hn Ht]. destruct (N6 _ _ Ht) as (sp&Hsp&Ho). exists sp. split; [done|]. split; [done|].
        destruct (Hown sp t Hsp Ho) as [Hr Hat]. pose proof (table_unique m _ _ _ _ N1 Ht Hat). lia.
      - intros (sp&Hsp&Ho&<-). destruct (Hown sp t Hsp Ho) as [Hr Hat]. split; [lia|done]. }
    eexists _, _. split; [done|]. cbv zeta. split; [done|]. split.
    { intros sp Hsp Ho. specialize (N5 sp Hsp). unfold numbered in N5. by rewrite Ho in N5. }
    split; [intros sp t Hsp Ho; by apply (Hown sp t)|]. split.
    { intros sp sp' t t' Hsp Hsp' Ho Ho'. destruct (Hown sp t Hsp Ho) as [Hr Hat], (Hown sp' t' Hsp' Ho') as [Hr' Hat']. split.
      - intros E. rewrite E in Hat. congruence.
      - intros ->. pose proof (table_unique m _ _ _ _ N1 Hat Hat'). lia. }
    intros t n. destruct errsym as [esp|]; [|rewrite Hfields; naive_solver].
    assert (sp_useCnt (sym h' esp) = sp_useCnt (sym h esp)) as -> by (by rewrite N3).
    destruct (Z.eqb_spec (sp_useCnt (sym h esp)) 0); cbn [negb]; [rewrite Hfields; naive_solver|].
    rewrite elem_of_app, Hfields, list_elem_of_singleton. split; [|naive_solver]. intros [?|[= -> ->]]; [by left|right]. by exists esp.
Qed.

(** a token and two nonterminals of type "int", one written with a space *)
Definition typed_symbols : list symbol :=
  let nt (t : str) := mkSymbol [101] 0 NONTERMINAL [] None (-1) UNK None false 1 None 0 (Some t) 0 false [] in
  [mkSymbol [73] 0 TERMINAL [] None (-1) UNK None false 1 None 0 None 0 false []; nt [105; 110; 116]; nt [32; 105; 110; 116]].
Lemma print_stack_union_correct_witness :
  ∃ h' fields, print_stack_union None None None true [0; 1; 2]%nat typed_symbols = Ok (h', fields) ∧
    sp_dtnum (sym h' 1) = sp_dtnum (sym h' 2) ∧ sp_dtnum (sym h' 0) = 0.
Proof.
  destruct (print_stack_union_correct None None None [0; 1; 2]%nat typed_symbols) as (h'&fields&H&_&H0&_&Heq&_).
  - repeat (constructor; [set_solver|]). constructor.
  - discriminate.
  - repeat (constructor; [cbn; lia|]). constructor.
  - exists h', fields. split; [exact H|]. split.
    + apply (Heq 1%nat 2%nat [105; 110; 116] [105; 110; 116]); [set_solver|set_solver|reflexivity..].
    + apply (H0 0%nat); [set_solver|reflexivity].
Defined.

(** ** The types of the tables *)

(** what a type can hold, with the sizes of a machine with 32 bit integers *)
Definition c_range (t : c_type) : Z * Z :=
  match t with
  | c_int => (-2147483648, 2147483647) | c_uchar => (0, 255) | c_ushort => (0, 65535)
  | c_uint => (0, 4294967295) | c_schar => (-128, 127) | c_short => (-32768, 32767)
  end.
(** The type that is chosen for a table holds all values of the table, and its size is
    the number of bytes that is given for it. *)
Theorem minimum_size_type_fits lwr upr :
  in32 lwr → in32 upr → lwr ≤ upr →
  let '(t, n) := minimum_size_type lwr upr in
  (c_range t).1 ≤ lwr ∧ upr ≤ (c_range t).2 ∧ (c_range t).2 - (c_range t).1 + 1 = 2 ^ (8 * n).
Proof.
  unfold in32, INT32_MIN, INT32_MAX, minimum_size_type. intros Hl Hu Hlu.
  rewrite !Z.geb_leb. destruct (Z.leb_spec 0 lwr).
  - destruct (Z.leb_spec upr 255); [cbn; lia|]. destruct (Z.ltb_spec upr 65535); cbn; lia.
  - destruct (Z.leb_spec (-127) lwr), (Z.leb_spec upr 127); cbn [andb]; [cbn; lia|..];
      (destruct (Z.leb_spec (-32767) lwr), (Z.ltb_spec upr 32767); cbn; lia).
Qed.
