(* ===== verification/LemonCode.v ===== *)
(** The code of a rule ([src/sql/lemon.c], [translate_code]): the labels of the symbols
    in the C code behind a rule are replaced by the places of their values on the stack
    of the parser, the code that calls destructors is put around it, and labels that are
    unused or ambiguous are counted as errors. The buffer of [append_str] is the text in
    it; it grows as needed, and [Strsafe] keeps a copy of what was built. *)
From S2P Require Import Prelude LemonTable LemonPrintf LemonData LemonFirst LemonSymbol LemonPreproc LemonRead LemonScan.

(** ** The text that is built *)

(** up to two [%d] are replaced *)
Fixpoint expand_d (l : str) (p1 p2 : Z) : str :=
  match l with
  | [] => []
  | c :: l' =>
      if c =? 37 then
        match l' with
        | d :: l'' => if d =? 100 then print_dec p1 ++ expand_d l'' p2 p2 else c :: expand_d l' p1 p2
        | [] => [c]
        end
      else c :: expand_d l' p1 p2
  end.
(** [append_str] with a text; with a null pointer the text is returned and [used] reset *)
Definition append_str (text zText : str) (n p1 p2 : Z) : res str :=
  text ← (if n <? 0 then
            if zlen text + n <? 0 then Err ExitCalled else Ok (take (Z.to_nat (zlen text + n)) text)
          else Ok text);
  z ← mem_read (zText ++ [0]) 0 (if n <=? 0 then zlen zText else n);
  Ok (text ++ expand_d z p1 p2).

(** the position of the first occurrence *)
Fixpoint strstr (s pat : str) : option nat :=
  if bool_decide (take (length pat) s = pat) then Some 0%nat
  else match s with [] => None | _ :: s => S <$> strstr s pat end.

Section Code.
(** [lemp->tokendest] and [lemp->vardest], and the symbols *)
Context (tokendest vardest : option str) (h : list symbol).

Definition is_set (o : option str) : bool := match o with Some _ => true | None => false end.
Definition has_destructor (sp : nat) : bool :=
  if decide (sp_type (sym h sp) = TERMINAL) then is_set tokendest else is_set vardest || is_set (sp_destructor (sym h sp)).

(** ** The labels in the code *)

(** [used] is one flag for each symbol of the right-hand side *)
Record tstate := mkT { ts_text : str; ts_errors : Z; ts_lhsused : bool; ts_used : list bool; ts_dontUseRhs0 : bool }.
Implicit Types (st : tstate) (rp : rule).

Fixpoint find_alias (w : str) (l : list (option str)) : option nat :=
  match l with
  | [] => None
  | a :: l => if decide (a = Some w) then Some 0%nat else S <$> find_alias w l
  end.
(** the number of the data type of a value on the right-hand side *)
Definition rhs_dtnum (sp : nat) : res Z :=
  if decide (sp_type (sym h sp) = MULTITERMINAL) then
    first ← of_opt OutOfBounds (sp_subsym (sym h sp) !! 0%nat); Ok (sp_dtnum (sym h first))
  else Ok (sp_dtnum (sym h sp)).
Definition nrhs rp : Z := zlen (rp_rhs rp).

(** a word of the code after the character [prev]; nothing when it is no label *)
Definition label (rp : rule) (zLhs w : str) (prev : option Z) st : res (option tstate) :=
  if decide (rp_lhsalias rp = Some w) then
    text ← append_str (ts_text st) zLhs 0 0 0;
    Ok (Some (mkT text (ts_errors st) true (ts_used st) (ts_dontUseRhs0 st)))
  else
    match find_alias w (rp_rhsalias rp) with
    | None => Ok None
    | Some i =>
        let used := <[i := true]> (ts_used st) in
        if bool_decide (i = 0%nat) && ts_dontUseRhs0 st then
          Ok (Some (mkT (ts_text st) (ts_errors st + 1) (ts_lhsused st) used (ts_dontUseRhs0 st)))
        else
          text ← (if bool_decide (prev = Some 64) then append_str (ts_text st) (lit "yymsp[%d].major") (-1) (Z.of_nat i - nrhs rp + 1) 0
                  else
                    sp ← of_opt OutOfBounds (rp_rhs rp !! i);
                    dtnum ← rhs_dtnum sp;
                    append_str (ts_text st) (lit "yymsp[%d].minor.yy%d") 0 (Z.of_nat i - nrhs rp + 1) dtnum);
          Ok (Some (mkT text (ts_errors st) (ts_lhsused st) used (ts_dontUseRhs0 st)))
    end.
Definition put (c : Z) st : tstate := mkT (ts_text st ++ [c]) (ts_errors st) (ts_lhsused st) (ts_used st) (ts_dontUseRhs0 st).
(** a word can begin after the character [prev] *)
Definition word_start (c : Z) (prev : option Z) : bool :=
  ISALPHA c && match prev with None => true | Some d => negb (id_char d) end.

(** the loop over the code from position [off] on; [zSkip] is the position of the comment
    [zOvwrt]. A label is stepped over together with the character behind it; when this is
    the NUL, the loop leaves the string *)
Fixpoint trans_loop (fuel : nat) (rp : rule) (zLhs zOvwrt : str) (zSkip : option nat) (off : nat) (prev : option Z) (s : str) st : res tstate :=
  match fuel with
  | O => Err OutOfFuel
  | S fuel =>
      match s with
      | [] => Ok st
      | c :: s' =>
          if bool_decide (zSkip = Some off) then
            text ← append_str (ts_text st) zOvwrt 0 0 0;
            trans_loop fuel rp zLhs zOvwrt zSkip (off + length zOvwrt) (last zOvwrt) (drop (length zOvwrt) s)
              (mkT text (ts_errors st) (ts_lhsused st) (ts_used st) true)
          else
            let '(w, r) := span_name s' in
            found ← (if word_start c prev then label rp zLhs (c :: w) prev st else Ok None);
            match found with
            | None => trans_loop fuel rp zLhs zOvwrt zSkip (off + 1) (Some c) s' (put c st)
            | Some st =>
                match r with
                | [] => Err OutOfBounds
                | d :: r => trans_loop fuel rp zLhs zOvwrt zSkip (off + length w + 2) (Some d) r (put d st)
                end
            end
      end
  end.

(** ** The checks and the code behind *)

Definition destructor_call (text : str) (sp : nat) (k : Z) : res str :=
  append_str text (lit "  yy_destructor(yypParser,%d,&yymsp[%d].minor);" ++ [10]) 0 (sp_index (sym h sp)) k.
(** the symbols of the right-hand side from the [i]-th on: the text and the errors *)
Fixpoint check_labels (rp : rule) (used : list bool) (i : nat) (l : list nat) (text : str) (errors : Z) : res (str * Z) :=
  match l with
  | [] => Ok (text, errors)
  | sp :: l =>
      match rp_rhsalias rp !! i with
      | Some (Some a) =>
          let same := bool_decide (0 < i)%nat && bool_decide (rp_lhsalias rp = Some a) in
          let twice := bool_decide (0 < i)%nat && bool_decide (Some a ∈ take i (rp_rhsalias rp)) in
          let unused := negb (default false (used !! i)) in
          let n (b : bool) := if b then 1 else 0 in
          check_labels rp used (S i) l text (errors + n same + n twice + n unused)
      | _ =>
          text ← (if bool_decide (0 < i)%nat && has_destructor sp then destructor_call text sp (Z.of_nat i - nrhs rp + 1) else Ok text);
          check_labels rp used (S i) l text errors
      end
  end.

Definition set_rule_code (code : option str) (line : Z) (noCode : bool) (prefix suffix : option str) (rp : rule) : rule :=
  mkRule (rp_lhs rp) (rp_lhsalias rp) (rp_lhsStart rp) (rp_ruleline rp) (rp_rhs rp) (rp_rhsalias rp) line code prefix suffix
    (rp_precsym rp) (rp_index rp) (rp_iRule rp) noCode (rp_codeEmitted rp) (rp_canReduce rp) (rp_doesReduce rp) (rp_neverReduce rp).

(** the comment that allows the left-hand side to overwrite the first symbol, put
    together in an array of 900 bytes *)
Definition overwrites (a b : str) : str := lit "/*" ++ a ++ lit "-overwrites-" ++ b ++ lit "*/".

(** whether the value of the left-hand side is written directly to the stack, the flags
    to begin with, the comment, its position and the errors; [code] is the code *)
Definition lhs_direct (rp : rule) (code : str) : res (bool * bool * list bool * str * option nat * Z) :=
  let used := replicate (length (rp_rhs rp)) false in
  match rp_rhs rp, rp_rhsalias rp, rp_lhsalias rp with
  | r0 :: _, Some b :: _, Some a =>
      if decide (a = b) then
        Ok (true, true, <[0%nat := true]> used, [], None, if sp_dtnum (sym h (rp_lhs rp)) =? sp_dtnum (sym h r0) then 0 else 1)
      else
        let zOvwrt := overwrites a b in
        if 900 <? zlen zOvwrt + 1 then Err OutOfBounds
        else
          let zSkip := strstr code zOvwrt in
          Ok (match zSkip with Some _ => true | None => false end, false, used, zOvwrt, zSkip, 0)
  | _, _, _ => Ok (true, false, used, [], None, 0)
  end.
Definition lhs_place (rp : rule) (lhsdirect : bool) : str :=
  let dtnum := print_dec (sp_dtnum (sym h (rp_lhs rp))) in
  if lhsdirect then lit "yymsp[" ++ print_dec (1 - nrhs rp) ++ lit "].minor.yy" ++ dtnum else lit "yylhsminor.yy" ++ dtnum.

(** the rule, [lemp->errorcnt] and whether [yylhsminor] is needed *)
Definition translate_code (rp : rule) (errorcnt : Z) : res (rule * Z * bool) :=
  let '(code, line, noCode) := match rp_code rp with Some c => (c, rp_line rp, false) | None => ([10], rp_ruleline rp, true) end in
  let* (prefix, noCode) :=
    match rp_rhs rp, rp_rhsalias rp with
    | r0 :: _, None :: _ =>
        if has_destructor r0 then text ← destructor_call [] r0 (1 - nrhs rp); Ok (Some (before_nul text), false) else Ok (rp_codePrefix rp, noCode)
    | _, _ => Ok (rp_codePrefix rp, noCode)
    end in
  let* (lhsdirect, lhsused, used, zOvwrt, zSkip, errors) := lhs_direct rp code in
  let zLhs := lhs_place rp lhsdirect in
  st ← trans_loop (S (length code)) rp zLhs zOvwrt zSkip 0 None code (mkT [] (errorcnt + errors) lhsused used false);
  let text := before_nul (ts_text st) in
  let code := if bool_decide (text = []) then code else text in
  let errors := ts_errors st + match rp_lhsalias rp with Some _ => if ts_lhsused st then 0 else 1 | None => 0 end in
  let* (text, errors) := check_labels rp (ts_used st) 0 (rp_rhs rp) [] errors in
  text ← (if lhsdirect then Ok text
          else
            text ← append_str text (lit "  yymsp[%d].minor.yy%d = ") 0 (1 - nrhs rp) (sp_dtnum (sym h (rp_lhs rp)));
            text ← append_str text zLhs 0 0 0;
            append_str text (lit ";" ++ [10]) 0 0 0);
  let suffix := before_nul text in
  let '(suffix, noCode) := if bool_decide (suffix = []) then (rp_codeSuffix rp, noCode) else (Some suffix, false) in
  Ok (set_rule_code (Some code) line noCode prefix suffix rp, errors, negb lhsdirect).
End Code.

(** ** What the code is turned into *)

(** a place where the code uses a label: the value of the left-hand side, the value of a
    symbol of the right-hand side, or with an at sign its token number *)
Inductive part := PLhs | PRhs (i : nat) | PMajor (i : nat).
#[global] Instance part_eq : EqDecision part.
Proof. solve_decision. Defined.

Section Translate.
Context (h : list symbol) (rp : rule) (zLhs : str).
Implicit Types (st : tstate) (l : list (part * str)).

Definition is_label (w : str) : Prop := rp_lhsalias rp = Some w ∨ is_Some (find_alias w (rp_rhsalias rp)).
Definition alias_of (p : part) : str :=
  match p with PLhs => default [] (rp_lhsalias rp) | PRhs i | PMajor i => default [] (default None (rp_rhsalias rp !! i)) end.
Definition dtnum_of (i : nat) : Z :=
  match rp_rhs rp !! i with Some sp => match rhs_dtnum h sp with Ok n => n | Err _ => 0 end | None => 0 end.
(** as it is written, and what it becomes *)
Definition part_text (p : part) : str := match p with PMajor _ => 64 :: alias_of p | _ => alias_of p end.
Definition part_code (p : part) : str :=
  match p with
  | PLhs => zLhs
  | PRhs i => lit "yymsp[" ++ print_dec (Z.of_nat i - nrhs rp + 1) ++ lit "].minor.yy" ++ print_dec (dtnum_of i)
  | PMajor i => lit "yymsp[" ++ print_dec (Z.of_nat i - nrhs rp + 1) ++ lit "].major"
  end.
Fixpoint code_text t l : str := match l with [] => t | (p, t') :: l => t ++ part_text p ++ code_text t' l end.
Fixpoint code_out t l : str := match l with [] => t | (p, t') :: l => t ++ part_code p ++ code_out t' l end.

Definition part_ok (p : part) : Prop :=
  match p with
  | PLhs => ∃ a, rp_lhsalias rp = Some a ∧ name_ok a
  | PRhs i | PMajor i => ∃ b, rp_rhsalias rp !! i = Some (Some b) ∧ name_ok b ∧ find_alias b (rp_rhsalias rp) = Some i ∧
      rp_lhsalias rp ≠ Some b ∧ ∃ sp, rp_rhs rp !! i = Some sp ∧ is_Ok (rhs_dtnum h sp)
  end.
(** the character before a position of [t] *)
Definition before (prev : option Z) (a : str) : option Z := match last a with Some c => Some c | None => prev end.
(** text without labels *)
Definition plain (prev : option Z) (t : str) : Prop :=
  ∀ a c b, t = a ++ c :: b → word_start c (before prev a) = true → ¬ is_label (c :: (span_name b).1).
Definition no_id (o : option Z) : Prop := match o with Some c => id_char c = false | None => True end.
(** the characters around the labels delimit them *)
Fixpoint code_ok (prev : option Z) t l : Prop :=
  plain prev t ∧
  match l with
  | [] => True
  | (p, t') :: l =>
      part_ok p ∧ no_id (before prev t) ∧ (∀ i, p = PRhs i → before prev t ≠ Some 64) ∧ t' ≠ [] ∧ id_char (hd 0 t') = false ∧ code_ok None t' l
  end.
Definition mark_used (p : part) (used : list bool) : list bool := match p with PLhs => used | PRhs i | PMajor i => <[i := true]> used end.
Definition uses_lhs l : bool := existsb (λ e, bool_decide (e.1 = PLhs)) l.

(** the same as a check *)
Fixpoint plainb (prev : option Z) (t : str) : bool :=
  match t with
  | [] => true
  | c :: t' =>
      let w := c :: (span_name t').1 in
      negb (word_start c prev && (bool_decide (rp_lhsalias rp = Some w) || bool_decide (is_Some (find_alias w (rp_rhsalias rp))))) && plainb (Some c) t'
  end.
Lemma plainb_ok prev t : plainb prev t = true → plain prev t.
Proof.
  revert prev. induction t as [|x t IH]; intros prev H a c b E Hw; [by destruct a|]. cbn [plainb] in H. apply andb_true_iff in H as [Hx Ht].
  destruct a as [|y a]; injection E as -> ->; [|apply (IH _ Ht a c b); [done|]; revert Hw; unfold before; cbn [last]; destruct a; [done|];
    destruct (last _) eqn:El; [done|]; by apply last_None in El].
  unfold before in Hw. cbn [last] in Hw. rewrite Hw in Hx. cbn [andb] in Hx. intros [Hl|Hl].
  - by rewrite (bool_decide_true _ Hl) in Hx.
  - by rewrite (bool_decide_true _ Hl), orb_true_r in Hx.
Qed.

(** *** The steps of the loop *)

Notation loop fuel off prev s st := (trans_loop h fuel rp zLhs [] None off prev s st).

Lemma expand_plain t p1 p2 : 37 ∉ t → expand_d t p1 p2 = t.
Proof.
  induction t as [|c t IH]; intros Ht; [done|]. cbn [expand_d]. rewrite (proj2 (Z.eqb_neq c 37)) by (intros ->; apply Ht; left).
  rewrite IH; [done|]. set_solver.
Qed.
Lemma append_all text z p1 p2 : append_str text z 0 p1 p2 = Ok (text ++ expand_d z p1 p2).
Proof.
  unfold append_str. cbn [mbind res_bind]. change (0 <? 0) with false. change (0 <=? 0) with true. cbn match.
  assert (mem_read (z ++ [0]) 0 (zlen z) = Ok z) as ->; [|done].
  apply mem_read_Ok. pose proof (zlen_nonneg z). rewrite zlen_app. split_and!; [lia|lia|unfold zlen; cbn; lia|].
  unfold zlen. rewrite Nat2Z.id. change (Z.to_nat 0) with 0%nat. by rewrite drop_0, take_app_length.
Qed.
Lemma append_back text c z p1 p2 : append_str (text ++ [c]) z (-1) p1 p2 = Ok (text ++ expand_d z p1 p2).
Proof.
  pose proof (append_all text z p1 p2) as H. unfold append_str in *. cbn [mbind res_bind] in *. change (-1 <? 0) with true. change (-1 <=? 0) with true. cbn match.
  rewrite zlen_app. change (zlen [c]) with 1. rewrite (proj2 (Z.ltb_ge _ _)) by (pose proof (zlen_nonneg text); lia).
  replace (Z.to_nat (zlen text + 1 + -1)) with (length text) by (unfold zlen; lia). rewrite take_app_length. exact H.
Qed.

Definition puts (t : str) st : tstate := mkT (ts_text st ++ t) (ts_errors st) (ts_lhsused st) (ts_used st) (ts_dontUseRhs0 st).
Definition apply_part (p : part) st : tstate :=
  mkT (ts_text st ++ part_code p) (ts_errors st) (ts_lhsused st || bool_decide (p = PLhs)) (mark_used p (ts_used st)) (ts_dontUseRhs0 st).

Lemma label_none w prev st : ¬ is_label w → label h rp zLhs w prev st = Ok None.
Proof.
  intros Hw. unfold label, is_label in *. rewrite decide_False by tauto. destruct (find_alias w (rp_rhsalias rp)); [|done].
  exfalso. apply Hw. right. by eexists.
Qed.
Lemma span_stop t s : t ≠ [] → no_id (last t) → (span_name (t ++ s)).1 = (span_name t).1.
Proof.
  induction t as [|c t IH]; intros Ht Hl; [done|]. cbn [app span_name]. destruct (id_char c) eqn:E; [|done].
  destruct t as [|d t]; [cbn in Hl; congruence|]. rewrite last_cons_cons in Hl.
  specialize (IH ltac:(done) Hl). destruct (span_name ((d :: t) ++ s)), (span_name (d :: t)). cbn in *. by subst.
Qed.
Lemma before_cons prev c t : before prev (c :: t) = before (Some c) t.
Proof. unfold before. destruct t as [|d t]; [done|]. rewrite last_cons_cons. by destruct (last (d :: t)) eqn:E; [|apply last_None in E]. Qed.
Lemma alpha_id c : ISALPHA c = true → id_char c = true.
Proof. unfold id_char, ISALNUM. by intros ->. Qed.

Lemma loop_plain t s prev st fuel off :
  plain prev t → (s = [] ∨ no_id (before prev t)) → (length (t ++ s) < fuel)%nat →
  ∃ fuel' off', (length s < fuel')%nat ∧ loop fuel off prev (t ++ s) st = loop fuel' off' (before prev t) s (puts t st).
Proof.
  revert prev st fuel off. induction t as [|c t IH]; intros prev st fuel off Ht Hs Hf.
  - exists fuel, off. split; [done|]. unfold puts. rewrite app_nil_r. by destruct st.
  - destruct fuel as [|fuel]; [lia|]. cbn [app length] in Hf. cbn [app trans_loop]. rewrite bool_decide_false by done.
    destruct (span_name (t ++ s)) as [w r] eqn:Esp.
    assert ((if word_start c prev then label h rp zLhs (c :: w) prev st else Ok None) = Ok None) as ->.
    { destruct (word_start c prev) eqn:Ew; [|done]. apply label_none.
      assert (w = (span_name t).1) as ->; [|by apply (Ht [] c t)].
      change w with ((w, r).1). rewrite <- Esp. destruct Hs as [->|Hs]; [by rewrite app_nil_r|].
      destruct t as [|d t]; [|apply span_stop; [done|]; rewrite before_cons in Hs; unfold before in Hs; by destruct (last (d :: t))].
      exfalso. cbn in Hs. unfold word_start in Ew. apply andb_true_iff in Ew as [Hc _]. apply alpha_id in Hc. congruence. }
    cbn [mbind res_bind]. rewrite before_cons in *.
    destruct (IH (Some c) (put c st) fuel (off + 1)%nat) as (fuel'&off'&Hf'&->); [|done|lia|].
    { intros a d b -> Hw. apply (Ht (c :: a) d b); [done|]. by rewrite before_cons. }
    exists fuel', off'. split; [done|]. unfold puts, put. cbn. by rewrite <- app_assoc.
Qed.
Lemma loop_off fuel off off' prev s st : loop fuel off prev s st = loop fuel off' prev s st.
Proof.
  revert off off' prev s st. induction fuel as [|fuel IH]; intros off off' prev s st; [done|]. cbn [trans_loop]. destruct s as [|c s]; [done|].
  rewrite !bool_decide_false by done. destruct (span_name s) as [w r]. destruct (if word_start c prev then _ else _) as [[st'|]|]; cbn [mbind res_bind]; [|apply IH|done].
  destruct r; [done|apply IH].
Qed.
(** a label and the character behind it *)
Lemma loop_label w d s prev st st' fuel off :
  name_ok w → no_id prev → id_char d = false → (length (w ++ d :: s) < fuel)%nat → label h rp zLhs w prev st = Ok (Some st') →
  ∃ fuel' off', (length (d :: s) < fuel')%nat ∧ loop fuel off prev (w ++ d :: s) st = loop fuel' off' None (d :: s) st'.
Proof.
  intros (c&w'&->&Hc&Hw) Hp Hd Hf Hl. destruct fuel as [|fuel]; [lia|]. exists (S fuel), off. split; [rewrite length_app in Hf; cbn in *; lia|].
  cbn [app trans_loop]. rewrite !bool_decide_false by done. rewrite (span_name_app w' (d :: s) Hw Hd).
  assert (word_start c prev = true) as -> by (unfold word_start; rewrite Hc; destruct prev; [cbn in Hp; by rewrite Hp|done]).
  rewrite Hl. cbn [mbind res_bind].
  assert (word_start d None = false) as Hwd.
  { unfold word_start. destruct (ISALPHA d) eqn:E; [apply alpha_id in E; congruence|done]. }
  destruct (span_name s) as [w r]. rewrite Hwd. cbn [mbind res_bind]. apply loop_off.
Qed.

(** *** The parts *)

Lemma print_dec_plain z : (37 ∉ print_dec z) ∧ Forall (λ c, c ≠ 0) (print_dec z).
Proof.
  assert (∀ f v, Forall (λ c, c ≠ 37 ∧ c ≠ 0) (dec_digits f v [])) as Hd.
  { intros f v. eapply Forall_impl; [apply dec_digits_digit|]. intros c Hc. split; by intros ->. }
  assert (Forall (λ c, c ≠ 37 ∧ c ≠ 0) (print_dec z)) as H.
  { unfold print_dec. destruct (z <? 0); [|destruct (z =? 0); [by repeat constructor|apply Hd]]. constructor; [done|apply Hd]. }
  split; [|eapply Forall_impl; [exact H|]; by intros c [_ ?]]. intros Hin. rewrite Forall_forall in H. by destruct (H 37 Hin).
Qed.
Lemma expand_minor x y :
  expand_d (lit "yymsp[%d].minor.yy%d") x y = lit "yymsp[" ++ print_dec x ++ lit "].minor.yy" ++ print_dec y.
Proof. rewrite <- (app_nil_r (print_dec y)). reflexivity. Qed.
Lemma label_rhs i st (prev : option Z) :
  part_ok (PRhs i) → ts_dontUseRhs0 st = false → prev ≠ Some 64 →
  label h rp zLhs (alias_of (PRhs i)) prev st = Ok (Some (apply_part (PRhs i) st)).
Proof.
  intros (b&Hb&_&Hf&Hl&sp&Hsp&[n Hn]) Hd Hp. unfold label. cbn [alias_of]. rewrite Hb. cbn [default from_option id]. rewrite decide_False by done.
  rewrite Hf, Hd, andb_false_r, (bool_decide_false _ Hp). rewrite Hsp. cbn [of_opt mbind res_bind]. rewrite Hn. cbn [mbind res_bind]. rewrite append_all, expand_minor. cbn [mbind res_bind].
  unfold apply_part, part_code, dtnum_of. rewrite Hsp, Hn, Hd, bool_decide_false by done. rewrite orb_false_r. done.
Qed.
Lemma label_major i st text :
  part_ok (PMajor i) → ts_dontUseRhs0 st = false → ts_text st = text ++ [64] →
  label h rp zLhs (alias_of (PMajor i)) (Some 64) st =
  Ok (Some (apply_part (PMajor i) (mkT text (ts_errors st) (ts_lhsused st) (ts_used st) false))).
Proof.
  intros (b&Hb&_&Hf&Hl&sp&Hsp&_) Hd Ht. unfold label. cbn [alias_of]. rewrite Hb. cbn [default from_option id]. rewrite decide_False by done.
  rewrite Hf, Hd, andb_false_r, bool_decide_true by done. rewrite Ht, append_back. cbn [mbind res_bind].
  unfold apply_part, part_code. rewrite (bool_decide_false (PMajor i = PLhs)), orb_false_r by done. done.
Qed.
Lemma label_lhs st prev :
  part_ok PLhs → 37 ∉ zLhs → label h rp zLhs (alias_of PLhs) prev st = Ok (Some (apply_part PLhs st)).
Proof.
  intros (a&Ha&_) Hz. unfold label. cbn [alias_of]. rewrite Ha. cbn [default from_option id]. rewrite decide_True by done. rewrite append_all, expand_plain by done.
  cbn [mbind res_bind]. unfold apply_part. by rewrite bool_decide_true, orb_true_r.
Qed.
Lemma part_name p : part_ok p → name_ok (alias_of p).
Proof. destruct p; intros (b&Hb&?); cbn [alias_of]; rewrite Hb; cbn; naive_solver. Qed.

Lemma loop_part p d s prev st fuel off :
  part_ok p → no_id prev → (∀ i, p = PRhs i → prev ≠ Some 64) → id_char d = false → 37 ∉ zLhs → ts_dontUseRhs0 st = false →
  (length (part_text p ++ d :: s) < fuel)%nat →
  ∃ fuel' off', (length (d :: s) < fuel')%nat ∧ loop fuel off prev (part_text p ++ d :: s) st = loop fuel' off' None (d :: s) (apply_part p st).
Proof.
  intros Hp Hprev H64 Hd Hz Hdont Hf. pose proof (part_name p Hp) as Hn. destruct p as [|i|i]; cbn [part_text] in *.
  - eapply loop_label; [done..|by apply label_lhs].
  - eapply loop_label; [done..|apply label_rhs; [done|done|by eapply H64]].
  - destruct fuel as [|fuel]; [lia|]. cbn [app length] in Hf.
    assert (loop (S fuel) off prev ((64 :: alias_of (PMajor i)) ++ d :: s) st = loop fuel (off + 1)%nat (Some 64) (alias_of (PMajor i) ++ d :: s) (put 64 st)) as ->.
    { cbn [app trans_loop]. rewrite bool_decide_false by done. by destruct (span_name (alias_of (PMajor i) ++ d :: s)). }
    eapply loop_label; [done|done|done|lia|].
    rewrite (label_major i (put 64 st) (ts_text st)); [|done|done|done]. unfold apply_part. cbn. by rewrite Hdont.
Qed.
Lemma trans_ok l t prev st fuel off :
  code_ok prev t l → 37 ∉ zLhs → ts_dontUseRhs0 st = false → (length (code_text t l) < fuel)%nat →
  loop fuel off prev (code_text t l) st =
  Ok (mkT (ts_text st ++ code_out t l) (ts_errors st) (ts_lhsused st || uses_lhs l) (foldl (λ u e, mark_used e.1 u) (ts_used st) l) false).
Proof.
  intros Hok Hz. revert t prev st fuel off Hok. induction l as [|[p t'] l IH]; intros t prev st fuel off [Ht Hl] Hdont Hf; cbn [code_text code_out] in *.
  - destruct (loop_plain t [] prev st fuel off) as (f&o&Hf'&E); [done|by left|by rewrite app_nil_r|]. rewrite app_nil_r in E. rewrite E.
    destruct f as [|f]; [lia|]. cbn. unfold puts. by rewrite orb_false_r, Hdont.
  - destruct Hl as (Hp&Hprev&H64&Hne&Hd&Hrest). destruct (loop_plain t (part_text p ++ code_text t' l) prev st fuel off) as (f&o&Hf'&->);
      [done|by right|done|].
    assert (∃ d s, code_text t' l = d :: s ∧ id_char d = false) as (d&s&Es&Hds).
    { destruct t' as [|d t']; [done|]. cbn in Hd. destruct l as [|[p' t''] l]; cbn [code_text app]; by eexists _, _. }
    rewrite Es in Hf' |- *. destruct (loop_part p d s (before prev t) (puts t st) f o) as (f'&o'&Hf''&->); [done..|].
    rewrite <- Es in Hf'' |- *. rewrite IH; [|done|done|done]. unfold apply_part, puts. cbn. rewrite <- !app_assoc, orb_assoc. done.
Qed.
End Translate.

(** ** The whole translation *)

Section Whole.
Context (tokendest vardest : option str) (h : list symbol) (rp : rule).
Implicit Types (l : list (part * str)).

(** the left-hand side and the first symbol have the same label *)
Definition shared : Prop := ∃ a, rp_lhsalias rp = Some a ∧ rp_rhsalias rp !! 0%nat = Some (Some a) ∧ rp_rhs rp ≠ [].
(** the value of the left-hand side can be written to the stack at once *)
Definition direct : bool :=
  match rp_rhs rp, rp_rhsalias rp, rp_lhsalias rp with _ :: _, Some b :: _, Some a => bool_decide (a = b) | _, _, _ => true end.
(** the code does not have the comment that allows it otherwise *)
Definition no_comment (code : str) : Prop :=
  ∀ a b, rp_lhsalias rp = Some a → rp_rhsalias rp !! 0%nat = Some (Some b) →
    zlen (overwrites a b) < 900 ∧ strstr code (overwrites a b) = None.
Definition uses l (i : nat) : Prop := ∃ e, e ∈ l ∧ (e.1 = PRhs i ∨ e.1 = PMajor i).
(** labels are used and not ambiguous *)
Record labels_good l : Prop := {
  lg_lhs : ∀ a, rp_lhsalias rp = Some a → uses_lhs l = true ∨ shared;
  lg_used : ∀ i a, rp_rhsalias rp !! i = Some (Some a) → (i < length (rp_rhs rp))%nat → uses l i ∨ i = 0%nat ∧ shared;
  lg_once : ∀ i a, rp_rhsalias rp !! i = Some (Some a) → (0 < i < length (rp_rhs rp))%nat → rp_lhsalias rp ≠ Some a ∧ (Some a ∉ take i (rp_rhsalias rp));
  lg_type : shared → ∀ r0, rp_rhs rp !! 0%nat = Some r0 → sp_dtnum (sym h (rp_lhs rp)) = sp_dtnum (sym h r0);
}.

Lemma mark_length p used : length (mark_used p used) = length used.
Proof. destruct p; [done|apply length_insert..]. Qed.
Lemma mark_one p used i :
  mark_used p used !! i = Some true ↔ used !! i = Some true ∨ (i < length used)%nat ∧ (p = PRhs i ∨ p = PMajor i).
Proof.
  assert (∀ j, <[j := true]> used !! i = Some true ↔ used !! i = Some true ∨ (i < length used)%nat ∧ j = i) as Hins.
  { intros j. destruct (decide (j = i)) as [->|Hne]; [|rewrite list_lookup_insert_ne by done; tauto].
    destruct (decide (i < length used)%nat); [rewrite list_lookup_insert_eq by done; tauto|rewrite list_insert_ge by lia; tauto]. }
  destruct p as [|j|j]; cbn [mark_used]; [|rewrite Hins..].
  - split; [by left|]. intros [?|(_&[?|?])]; done.
  - split; (intros [?|[? Hj]]; [by left|right; split; [done|]]); [left; by rewrite Hj|]. destruct Hj as [[= ->]|?]; done.
  - split; (intros [?|[? Hj]]; [by left|right; split; [done|]]); [right; by rewrite Hj|]. destruct Hj as [?|[= ->]]; done.
Qed.
Lemma marks_lookup l used i :
  foldl (λ u e, mark_used e.1 u) used l !! i = Some true ↔ used !! i = Some true ∨ (i < length used)%nat ∧ uses l i.
Proof.
  assert (∀ e l, uses (e :: l) i ↔ (e.1 = PRhs i ∨ e.1 = PMajor i) ∨ uses l i) as Hcons.
  { intros e l0. unfold uses. split.
    - intros (e'&[->|Hin]%elem_of_cons&He); [by left|right; by exists e'].
    - intros [He|(e'&Hin&He)]; [exists e; split; [left|done]|exists e'; split; [by right|done]]. }
  revert used. induction l as [|e l IH]; intros used; cbn [foldl].
  - split; [by left|]. intros [?|(_&e&He&_)]; [done|]. by apply elem_of_nil in He.
  - rewrite IH, mark_one, mark_length, Hcons. tauto.
Qed.

(** what one symbol of the right-hand side must satisfy *)
Definition label_fine (used : list bool) (i : nat) : Prop :=
  ∀ a, rp_rhsalias rp !! i = Some (Some a) →
    used !! i = Some true ∧ ((0 < i)%nat → rp_lhsalias rp ≠ Some a ∧ (Some a ∉ take i (rp_rhsalias rp))).
(** the call of a destructor, and the calls for the symbols without label behind the first *)
Definition call_text (sp : nat) (k : Z) : str :=
  lit "  yy_destructor(yypParser," ++ print_dec (sp_index (sym h sp)) ++ lit ",&yymsp[" ++ print_dec k ++ lit "].minor);" ++ [10].
Fixpoint unnamed_calls (i : nat) (k : list nat) : str :=
  match k with
  | [] => []
  | sp :: k =>
      (if bool_decide (0 < i)%nat && bool_decide (mjoin (rp_rhsalias rp !! i) = None) && has_destructor tokendest vardest h sp
       then call_text sp (Z.of_nat i - nrhs rp + 1) else []) ++ unnamed_calls (S i) k
  end.
Lemma destructor_call_ok text sp k : destructor_call h text sp k = Ok (text ++ call_text sp k).
Proof. unfold destructor_call. rewrite append_all. reflexivity. Qed.
Lemma check_labels_ok used k i text errors :
  ∃ errors', check_labels tokendest vardest h rp used i k text errors = Ok (text ++ unnamed_calls i k, errors') ∧ errors ≤ errors' ∧
    (errors' = errors ↔ ∀ j, (i ≤ j < i + length k)%nat → label_fine used j).
Proof.
  revert i text errors. induction k as [|sp k IH]; intros i text errors; cbn [check_labels unnamed_calls].
  - exists errors. rewrite app_nil_r. split; [done|]. split; [lia|]. split; [intros _ j Hj; cbn in Hj; lia|done].
  - assert (∀ P : Prop, (P ↔ label_fine used i) → (P ∧ (∀ j, (S i ≤ j < S i + length k)%nat → label_fine used j)) ↔
      ∀ j, (i ≤ j < i + length (sp :: k))%nat → label_fine used j) as Hsplit.
    { intros P HP. cbn [length]. split.
      - intros [Hi Hr] j Hj. destruct (decide (j = i)) as [->|]; [by apply HP|apply Hr; lia].
      - intros H. split; [apply HP, H; lia|]. intros j Hj. apply H. lia. }
    destruct (mjoin (rp_rhsalias rp !! i)) as [a|] eqn:Em.
    + assert (rp_rhsalias rp !! i = Some (Some a)) as Ea by (destruct (rp_rhsalias rp !! i) as [[]|]; cbn in Em; congruence). rewrite Ea.
      rewrite (bool_decide_false (Some a = None)) by done. rewrite andb_false_r. cbn [andb app].
      set (same := bool_decide (0 < i)%nat && _). set (twice := bool_decide (0 < i)%nat && _). set (unused := negb _).
      destruct (IH (S i) text (errors + (if same then 1 else 0) + (if twice then 1 else 0) + (if unused then 1 else 0))) as (errors'&->&Hle&Hiff).
      exists errors'. split; [done|]. split; [destruct same, twice, unused; lia|].
      rewrite <- (Hsplit (same = false ∧ twice = false ∧ unused = false)).
      * clear -Hle Hiff. revert Hle Hiff. generalize same, twice, unused. intros [] [] [] Hle Hiff; (split; [intros E|intros [(?&?&?) Hr]; try discriminate]); try lia.
        -- split; [done|]. apply Hiff. lia.
        -- apply Hiff in Hr. lia.
      * unfold same, twice, unused. rewrite !andb_false_iff, !bool_decide_eq_false, negb_false_iff. unfold label_fine. rewrite Ea. split.
        -- intros (H1&H2&H3) a' [= <-]. split; [destruct (used !! i) as [[]|]; done|]. intros Hi. split; [destruct H1|destruct H2]; done.
        -- intros H. destruct (H a eq_refl) as [-> H2]. destruct (decide (0 < i)%nat) as [Hi|Hi]; [|tauto]. destruct (H2 Hi). tauto.
    + rewrite (bool_decide_true (None = None)), andb_true_r by done. set (b := bool_decide (0 < i)%nat && has_destructor _ _ _ _).
      assert (match rp_rhsalias rp !! i with Some (Some _) => False | _ => True end) as Hn by (destruct (rp_rhsalias rp !! i) as [[]|]; done).
      destruct (IH (S i) (text ++ (if b then call_text sp (Z.of_nat i - nrhs rp + 1) else [])) errors) as (errors'&E&Hle&Hiff).
      exists errors'. split; [|split; [done|]].
      * rewrite app_assoc, <- E. destruct b; rewrite ?destructor_call_ok, ?app_nil_r; by destruct (rp_rhsalias rp !! i) as [[]|].
      * rewrite <- (Hsplit True), Hiff; [tauto|]. split; [|done]. intros _ a Ha. by rewrite Ha in Hn.
Qed.

Lemma loop_ovwrt zLhs z fuel off prev s st :
  trans_loop h fuel rp zLhs z None off prev s st = trans_loop h fuel rp zLhs [] None off prev s st.
Proof.
  revert off prev s st. induction fuel as [|fuel IH]; intros off prev s st; [done|]. cbn [trans_loop]. destruct s as [|c s]; [done|].
  rewrite bool_decide_false by done. destruct (span_name s) as [w r]. destruct (if word_start c prev then _ else _) as [[st'|]|]; cbn [mbind res_bind]; [|apply IH|done].
  destruct r; [done|apply IH].
Qed.
Lemma lhs_direct_ok code :
  length (rp_rhsalias rp) = length (rp_rhs rp) → no_comment code →
  ∃ lhsused used z e, lhs_direct h rp code = Ok (direct, lhsused, used, z, None, e) ∧
    length used = length (rp_rhs rp) ∧ (lhsused = true ↔ shared) ∧ (∀ i, used !! i = Some true ↔ i = 0%nat ∧ shared) ∧
    0 ≤ e ∧ (e = 0 ↔ (shared → ∀ r0, rp_rhs rp !! 0%nat = Some r0 → sp_dtnum (sym h (rp_lhs rp)) = sp_dtnum (sym h r0))).
Proof.
  intros Hlen Hno. unfold lhs_direct, direct, shared. set (n := length (rp_rhs rp)).
  assert (∀ i, replicate n false !! i = Some true ↔ False) as Hrep.
  { intros i. split; [|done]. intros Hi. by apply lookup_replicate in Hi as [? _]. }
  assert (∀ P : Prop, ¬ P → ∃ lhsused used z e, Ok (true, false, replicate n false, @nil Z, @None nat, 0) = Ok (true, lhsused, used, z, None, e) ∧
    length used = n ∧ (lhsused = true ↔ P) ∧ (∀ i, used !! i = Some true ↔ i = 0%nat ∧ P) ∧
    0 ≤ e ∧ (e = 0 ↔ (P → ∀ r0, rp_rhs rp !! 0%nat = Some r0 → sp_dtnum (sym h (rp_lhs rp)) = sp_dtnum (sym h r0)))) as Hplain.
  { intros P HP. do 4 eexists. split; [done|]. rewrite length_replicate. split; [done|]. split; [done|]. split; [intros i; rewrite Hrep; tauto|]. split; [done|]. tauto. }
  destruct (rp_rhs rp) as [|r0 rhs] eqn:Er; [apply Hplain; intros (a&_&_&H); done|].
  destruct (rp_rhsalias rp) as [|[b|] ras] eqn:Ea; [done| |apply Hplain; intros (a&_&[=]&_)].
  destruct (rp_lhsalias rp) as [a|] eqn:El; [|apply Hplain; intros (a&[=]&_)].
  destruct (decide (a = b)) as [->|Hab].
  - rewrite bool_decide_true by done. do 4 eexists. split; [done|]. rewrite length_insert, length_replicate. split; [done|].
    assert (∃ a, Some b = Some a ∧ (Some b :: ras) !! 0%nat = Some (Some a) ∧ r0 :: rhs ≠ []) as Hs by (by exists b). split; [tauto|]. split.
    + intros i. destruct (decide (i = 0%nat)) as [->|]; [rewrite list_lookup_insert_eq by (rewrite length_replicate; unfold n; cbn; lia); tauto|].
      rewrite list_lookup_insert_ne by done. rewrite Hrep. tauto.
    + destruct (Z.eqb_spec (sp_dtnum (sym h (rp_lhs rp))) (sp_dtnum (sym h r0))) as [E|E].
      * split; [lia|]. split; [|done]. intros _ _ r1 [= <-]. done.
      * split; [lia|]. split; [lia|]. intros H. destruct E. by apply H.
  - destruct (Hno a b El) as [H9 Hs]; [by rewrite Ea|]. rewrite (proj2 (Z.ltb_ge _ _)) by lia. rewrite Hs, bool_decide_false by done.
    assert (¬ ∃ a0, Some a = Some a0 ∧ (Some b :: ras) !! 0%nat = Some (Some a0) ∧ r0 :: rhs ≠ []) as Hns.
    { intros (a0&[= <-]&[= <-]&_). done. }
    do 4 eexists. split; [done|]. rewrite length_replicate. split; [done|]. split; [done|]. split; [intros i; rewrite Hrep; tauto|]. split; [done|]. tauto.
Qed.

Ltac text_plain :=
  repeat lazymatch goal with
  | |- Forall _ (print_dec _) => apply print_dec_plain
  | |- Forall _ (_ ++ _) => apply Forall_app; split
  | |- Forall _ _ => vm_compute; repeat (constructor; try done)
  end.
Lemma lhs_place_plain b : (37 ∉ lhs_place h rp b) ∧ cstring (lhs_place h rp b).
Proof.
  split; [|unfold lhs_place, cstring; destruct b; text_plain].
  assert (Forall (λ c, c ≠ 37) (lhs_place h rp b)) as H; [|rewrite Forall_forall in H; intros Hin; by destruct (H 37 Hin)].
  assert (∀ z, Forall (λ c, c ≠ 37) (print_dec z)) as Hd.
  { intros z. apply Forall_forall. intros c Hc ->. by apply print_dec_plain in Hc. }
  unfold lhs_place. destruct b; rewrite !Forall_app; split_and!; try apply Hd; vm_compute; repeat (constructor; try done).
Qed.
Lemma call_cstring sp k : cstring (call_text sp k).
Proof. unfold cstring, call_text. text_plain. Qed.
Lemma calls_cstring i k : cstring (unnamed_calls i k).
Proof.
  revert i. induction k as [|sp k IH]; intros i; [constructor|]. cbn [unnamed_calls]. apply Forall_app. split; [|apply IH].
  destruct (_ && _); [apply call_cstring|constructor].
Qed.
Lemma code_out_cstring zLhs t l : cstring zLhs → cstring (code_text rp t l) → cstring (code_out h rp zLhs t l).
Proof.
  intros Hz. revert t. induction l as [|[p t'] l IH]; intros t; cbn [code_text code_out]; [done|].
  intros [Ht [_ Hr]%Forall_app]%Forall_app. apply Forall_app. split; [done|]. apply Forall_app. split; [|by apply IH].
  destruct p; [done|unfold part_code; text_plain..].
Qed.
Lemma code_out_empty t l : code_out h rp (lhs_place h rp direct) t l = [] → code_text rp t l = [].
Proof.
  destruct l as [|[p t'] l]; cbn [code_text code_out]; [done|]. intros [_ [Hp _]%app_nil]%app_nil. exfalso.
  destruct p; [unfold part_code, lhs_place in Hp; destruct direct|..]; done.
Qed.

(** the last step of the code: the value of the left-hand side is put on the stack *)
Definition store_text : str :=
  if direct then [] else lit "  yymsp[" ++ print_dec (1 - nrhs rp) ++ lit "].minor.yy" ++ print_dec (sp_dtnum (sym h (rp_lhs rp))) ++ lit " = " ++ lhs_place h rp false ++ lit ";" ++ [10].
Definition suffix_text : str := unnamed_calls 0 (rp_rhs rp) ++ store_text.
(** the first symbol has no label but a destructor *)
Definition first_unnamed : bool :=
  match rp_rhs rp, rp_rhsalias rp with r0 :: _, None :: _ => has_destructor tokendest vardest h r0 | _, _ => false end.

Lemma labels_good_iff used l :
  length used = length (rp_rhs rp) → (∀ i, used !! i = Some true ↔ i = 0%nat ∧ shared) → length (rp_rhsalias rp) = length (rp_rhs rp) →
  (∀ j, (0 ≤ j < 0 + length (rp_rhs rp))%nat → label_fine (foldl (λ u e, mark_used e.1 u) used l) j) ↔
  (∀ i a, rp_rhsalias rp !! i = Some (Some a) → (i < length (rp_rhs rp))%nat → uses l i ∨ i = 0%nat ∧ shared) ∧
  (∀ i a, rp_rhsalias rp !! i = Some (Some a) → (0 < i < length (rp_rhs rp))%nat → rp_lhsalias rp ≠ Some a ∧ (Some a ∉ take i (rp_rhsalias rp))).
Proof.
  intros Hu H0 Hlen. unfold label_fine. split.
  - intros H. split.
    + intros i a Ha Hi. destruct (H i ltac:(lia) a Ha) as [Hm _]. apply marks_lookup in Hm. rewrite H0 in Hm. tauto.
    + intros i a Ha Hi. destruct (H i ltac:(lia) a Ha) as [_ Hm]. apply Hm. lia.
  - intros [H1 H2] j Hj a Ha. split; [|intros Hp; apply H2; [done|lia]].
    apply marks_lookup. rewrite H0, Hu. destruct (H1 j a Ha ltac:(lia)); [right; split; [lia|done]|by left].
Qed.

Lemma prefix_ok :
  (match rp_rhs rp, rp_rhsalias rp with
   | r0 :: _, None :: _ =>
       if has_destructor tokendest vardest h r0 then text ← destructor_call h [] r0 (1 - nrhs rp); Ok (Some (before_nul text), false) else Ok (rp_codePrefix rp, false)
   | _, _ => Ok (rp_codePrefix rp, false)
   end) = Ok (if first_unnamed then Some (call_text (hd 0%nat (rp_rhs rp)) (1 - nrhs rp)) else rp_codePrefix rp, false).
Proof.
  unfold first_unnamed. destruct (rp_rhs rp) as [|r0 rhs]; [done|]. destruct (rp_rhsalias rp) as [|[b|] ras]; [done|done|].
  destruct (has_destructor _ _ _ _); [|done]. rewrite destructor_call_ok. cbn [mbind res_bind app hd]. by rewrite before_nul_id by apply call_cstring.
Qed.
Lemma store_ok text :
  (if direct then Ok text
   else text ← append_str text (lit "  yymsp[%d].minor.yy%d = ") 0 (1 - nrhs rp) (sp_dtnum (sym h (rp_lhs rp)));
        text ← append_str text (lhs_place h rp direct) 0 0 0;
        append_str text (lit ";" ++ [10]) 0 0 0) = Ok (text ++ store_text).
Proof.
  unfold store_text. destruct direct; [by rewrite app_nil_r|]. rewrite append_all. cbn [mbind res_bind]. rewrite append_all. cbn [mbind res_bind].
  rewrite append_all, (expand_plain (lhs_place h rp false)) by apply lhs_place_plain.
  change (expand_d (lit "  yymsp[%d].minor.yy%d = ") ?x ?y) with (lit "  yymsp[" ++ print_dec x ++ lit "].minor.yy" ++ print_dec y ++ lit " = ").
  rewrite <- !app_assoc. reflexivity.
Qed.

(** C18: the code of a rule that does not contain the comment A-overwrites-B made of the
    labels of its left-hand side and of its first symbol (with it the value is stored at
    once and uses of the first label behind it are errors, [overwrite_comment]; the comment
    is built in a buffer of 900 bytes and must fit it even where the code does not have it):
    when the code consists of text and uses of labels that are C names, each use between
    characters that are not part of a name and followed by a character (a use at the very
    end leaves the string, [label_at_end_escapes]), each use is replaced by the place of its
    value on the stack of the parser, or behind an @ by its token number, the text is kept,
    the code before and behind calls the destructors of symbols without label and stores the
    value of the left-hand side, and errors are counted exactly when a label is unused,
    ambiguous, or shared by values of different types. *)
Theorem translate_code_correct t l errorcnt :
  rp_code rp = Some (code_text rp t l) → cstring (code_text rp t l) → length (rp_rhsalias rp) = length (rp_rhs rp) →
  code_ok h rp None t l → no_comment (code_text rp t l) →
  ∃ rp' errors, translate_code tokendest vardest h rp errorcnt = Ok (rp', errors, negb direct) ∧
    rp_code rp' = Some (code_out h rp (lhs_place h rp direct) t l) ∧ rp_noCode rp' = false ∧
    rp_codePrefix rp' = (if first_unnamed then Some (call_text (hd 0%nat (rp_rhs rp)) (1 - nrhs rp)) else rp_codePrefix rp) ∧
    rp_codeSuffix rp' = (if bool_decide (suffix_text = []) then rp_codeSuffix rp else Some suffix_text) ∧
    errorcnt ≤ errors ∧ (errors = errorcnt ↔ labels_good l).
Proof.
  intros Hc Hcs Hlen Hok Hno. unfold translate_code. rewrite Hc, prefix_ok. cbn [mbind res_bind].
  destruct (lhs_direct_ok _ Hlen Hno) as (lhsused&used&z&e&->&Hul&Hlu&Hus&He&Heq). cbn [mbind res_bind].
  destruct (lhs_place_plain direct) as [H37 Hz].
  rewrite loop_ovwrt, trans_ok; [|done|done|done|lia]. cbn [mbind res_bind ts_text ts_errors ts_lhsused ts_used app].
  rewrite (before_nul_id (code_out _ _ _ _ _)) by (by apply code_out_cstring).
  set (e1 := match rp_lhsalias rp with Some _ => _ | None => 0 end).
  destruct (check_labels_ok (foldl (λ u e, mark_used e.1 u) used l) (rp_rhs rp) 0 [] (errorcnt + e + e1)) as (errors&->&Hle&Hiff).
  cbn [mbind res_bind app]. rewrite store_ok. cbn [mbind res_bind]. fold suffix_text.
  assert (cstring suffix_text) as Hsuf.
  { apply Forall_app. split; [apply calls_cstring|]. unfold store_text. destruct direct; [constructor|].
    rewrite !Forall_app. split_and!; first [apply lhs_place_plain|apply print_dec_plain|repeat (constructor; try done)]. }
  rewrite (before_nul_id suffix_text) by done.
  assert (0 ≤ e1 ∧ (e1 = 0 ↔ ∀ a, rp_lhsalias rp = Some a → uses_lhs l = true ∨ shared)) as [He1 Hlhs].
  { unfold e1. destruct (rp_lhsalias rp) as [a|]; [|done]. destruct (lhsused || uses_lhs l) eqn:Eo.
    - split; [done|]. split; [|done]. intros _ a' _. apply orb_true_iff in Eo. tauto.
    - split; [done|]. split; [done|]. intros H. apply orb_false_iff in Eo as [E1 E2]. destruct (H a eq_refl) as [?|?%Hlu]; congruence. }
  rewrite labels_good_iff in Hiff by done.
  match goal with |- context [if bool_decide (code_out ?h ?rp ?z ?t ?l = []) then _ else _] =>
    assert ((if bool_decide (code_out h rp z t l = []) then code_text rp t l else code_out h rp z t l) = code_out h rp z t l) as -> end.
  { case_bool_decide as Hemp; [|done]. by rewrite Hemp, (code_out_empty _ _ Hemp). }
  assert (errors = errorcnt ↔ labels_good l) as Hgood.
  { split.
    - intros E. assert (e = 0 ∧ e1 = 0 ∧ errors = errorcnt + e + e1) as (E0&E1&E2) by lia. destruct (proj1 Hiff E2) as [E3 E4]. exact (Build_labels_good l (proj1 Hlhs E1) E3 E4 (proj1 Heq E0)).
    - intros [L1 L2 L3 L4]. pose proof (proj2 Hiff (conj L2 L3)). pose proof (proj2 Heq L4). pose proof (proj2 Hlhs L1). lia. }
  destruct (bool_decide (suffix_text = [])); eexists _, errors; (split; [done|]; split; [done|]; split; [done|]; split; [done|]; split; [done|]; split; [lia|done]).
Qed.
End Whole.

(** the rule [e(A) ::= e(B) PLUS e(C). { A = B + C; }], where tokens have a destructor *)
Definition sum_symbols : list symbol :=
  [mkSymbol (lit "PLUS") 1 TERMINAL [] None (-1) UNK None false 1 None 0 None 0 false [];
   mkSymbol (lit "e") 7 NONTERMINAL [] None (-1) UNK None false 1 None 0 None 3 false []].
Definition sum_rule (code : str) : rule :=
  mkRule 1 (Some (lit "A")) true 1 [1; 0; 1]%nat [Some (lit "B"); None; Some (lit "C")] 1 (Some code) None None None 0 0 false false false false false.
Definition sum_parts : list (part * str) := [(PLhs, lit " = "); (PRhs 0, lit " + "); (PRhs 2, lit "; ")].
Definition sum_code : str := lit " A = B + C; ".
Lemma sum_code_ok : code_ok sum_symbols (sum_rule sum_code) None (lit " ") sum_parts.
Proof.
  assert (∀ a, a ∈ [65; 66; 67] → name_ok [a]) as Hn by (intros a Ha; exists a, []; split_and!; [done|set_unfold in Ha; destruct_or! Ha; by subst|constructor]).
  split; [by apply plainb_ok|]. split; [exists (lit "A"); split; [done|apply Hn; set_solver]|]. do 4 (split; [done|]). split; [by apply plainb_ok|].
  split; [exists (lit "B"); split_and!; [done|apply Hn; set_solver|done|done|exists 1%nat; split; [done|by eexists]]|]. do 4 (split; [done|]). split; [by apply plainb_ok|].
  split; [exists (lit "C"); split_and!; [done|apply Hn; set_solver|done|done|exists 1%nat; split; [done|by eexists]]|]. do 4 (split; [done|]). split; [by apply plainb_ok|]. done.
Qed.
Lemma translate_code_correct_witness :
  ∃ rp', translate_code (Some []) None sum_symbols (sum_rule sum_code) 0 = Ok (rp', 0, true) ∧
    rp_code rp' = Some (lit " yylhsminor.yy3 = yymsp[-2].minor.yy3 + yymsp[0].minor.yy3; ") ∧
    rp_codeSuffix rp' = Some (lit "  yy_destructor(yypParser,1,&yymsp[-1].minor);" ++ [10] ++ lit "  yymsp[-2].minor.yy3 = yylhsminor.yy3;" ++ [10]).
Proof.
  destruct (translate_code_correct (Some []) None sum_symbols (sum_rule sum_code) (lit " ") sum_parts 0) as (rp'&errors&H&H1&_&_&H2&_&H3).
  - reflexivity.
  - repeat (constructor; [discriminate|]). constructor.
  - reflexivity.
  - exact sum_code_ok.
  - intros a b [= <-] [= <-]. split; [vm_compute; reflexivity|reflexivity].
  - exists rp'. split; [rewrite H; f_equal; f_equal; f_equal; apply H3|split; [rewrite H1; reflexivity|rewrite H2; reflexivity]].
    constructor.
    + intros a _. left. reflexivity.
    + intros i a Ha _. left. destruct i as [|[|[|i]]]; [|discriminate| |discriminate].
      * exists (PRhs 0, lit " + "). split; [set_solver|left; reflexivity].
      * exists (PRhs 2, lit "; "). split; [set_solver|left; reflexivity].
    + intros i a Ha Hi. destruct i as [|[|[|i]]]; [lia|discriminate| |discriminate]. injection Ha as <-. split; [discriminate|]. set_solver.
    + intros (a&[= <-]&[=]&_).
Defined.

(** With the comment, the value of the left-hand side is written to the stack at once, and a
    use of the first label behind the comment is an error. *)
Theorem overwrite_comment :
  (let* (rp', errors, rc) := translate_code (Some []) None sum_symbols (sum_rule (lit " A = B; /*A-overwrites-B*/ A += C; ")) 0 in Ok (rp_code rp', errors, rc)) =
    Ok (Some (lit " yymsp[-2].minor.yy3 = yymsp[-2].minor.yy3; /*A-overwrites-B*/ yymsp[-2].minor.yy3 += yymsp[0].minor.yy3; "), 0, false) ∧
  (let* (_, errors, _) := translate_code (Some []) None sum_symbols (sum_rule (lit " /*A-overwrites-B*/ A = B + C; ")) 0 in Ok errors) = Ok 1.
Proof. vm_compute. split; reflexivity. Qed.
(** A label at the very end of the code: the loop steps over the NUL with the label. *)
Theorem label_at_end_escapes :
  translate_code None None sum_symbols (sum_rule (lit "A = B + C")) 0 = Err OutOfBounds.
Proof. vm_compute. reflexivity. Qed.
(** A comment that allows to overwrite is not seen when a label stands right before it:
    the first symbol can still be used behind it. *)
Theorem comment_behind_label_missed :
  ∃ rp', translate_code None None sum_symbols (sum_rule (lit "A = C/*A-overwrites-B*/ + B;")) 0 = Ok (rp', 0, false) ∧
    rp_code rp' = Some (lit "yymsp[-2].minor.yy3 = yymsp[0].minor.yy3/*yymsp[-2].minor.yy3-overwrites-yymsp[-2].minor.yy3*/ + yymsp[-2].minor.yy3;").
Proof. eexists. split; [vm_compute; reflexivity|reflexivity]. Qed.
