(* ===== verification/LemonTables.v ===== *)
(** The tables of the generated parser ([src/sql/lemon.c], [ReportTable]): the numbers of
    the actions, the order in which the action sets of the states are entered into the
    action table, and the arrays that are written to the parser. The arrays are those the
    driver runs on ([Lempar]), so that what it finds in them can be compared with the
    action lists of the states. *)
From S2P Require Import Prelude LemonTable LemonSort LemonData LemonFirst LemonSymbol LemonActions LemonCompress ActTab Lempar LemonUnion.

Definition upd_numbers (nrule : Z) (m : lemon) : lemon :=
  let minShiftReduce := zlen (lem_sorted m) in
  let errAction := minShiftReduce + nrule in
  let accAction := errAction + 1 in
  let noAction := accAction + 1 in
  let minReduce := noAction + 1 in
  let maxAction := minReduce + nrule in
  mkLemon (lem_sorted m) (lem_rule m) (lem_startRule m) (lem_nxstate m) (lem_nsymbol m) (lem_nterminal m)
    minShiftReduce errAction accAction noAction minReduce maxAction
    (lem_symbols m) (lem_errorcnt m) (lem_errsym m) (lem_wildcard m) (lem_start m) (lem_nconflict m).
Definition upd_iTknOfst (o : Z) (s : state) : state :=
  mkState (stp_bp s) (stp_cfp s) (stp_statenum s) (stp_ap s) (stp_nTknAct s) (stp_nNtAct s) o (stp_iNtOfst s)
    (stp_iDfltReduce s) (stp_pDfltReduce s) (stp_autoReduce s).
Definition upd_iNtOfst (o : Z) (s : state) : state :=
  mkState (stp_bp s) (stp_cfp s) (stp_statenum s) (stp_ap s) (stp_nTknAct s) (stp_nNtAct s) (stp_iTknOfst s) o
    (stp_iDfltReduce s) (stp_pDfltReduce s) (stp_autoReduce s).
Definition upd_doesReduce (b : bool) (r : rule) : rule :=
  mkRule (rp_lhs r) (rp_lhsalias r) (rp_lhsStart r) (rp_ruleline r) (rp_rhs r) (rp_rhsalias r) (rp_line r) (rp_code r)
    (rp_codePrefix r) (rp_codeSuffix r) (rp_precsym r) (rp_index r) (rp_iRule r) (rp_noCode r) (rp_codeEmitted r)
    (rp_canReduce r) b (rp_neverReduce r).

(** ** The action table *)

Record axset := mkAx { ax_stp : nat; ax_isTkn : bool; ax_nAction : Z; ax_iOrder : Z }.
Definition axset_compare (p1 p2 : axset) : Z :=
  let c := ax_nAction p2 - ax_nAction p1 in
  if c =? 0 then ax_iOrder p1 - ax_iOrder p2 else c.
Fixpoint axsets (h : heap) (i : Z) (sts : list nat) : list axset :=
  match sts with
  | [] => []
  | s :: sts =>
      mkAx s true (stp_nTknAct (stt (h_states h) s)) (i * 2) ::
      mkAx s false (stp_nNtAct (stt (h_states h) s)) (i * 2 + 1) :: axsets h (i + 1) sts
  end.

(** the entries of one set: the symbols with their actions *)
Fixpoint set_actions (lem : lemon) (h : heap) (isTkn : bool) (l : list action) : res (list (Z * Z)) :=
  match l with
  | [] => Ok []
  | ap :: l =>
      let i := sp_index (sym (h_syms h) (ap_sp ap)) in
      if (if isTkn then i >=? lem_nterminal lem else (i <? lem_nterminal lem) || (i =? lem_nsymbol lem))
      then set_actions lem h isTkn l
      else
        action ← compute_action lem h ap;
        k ← set_actions lem h isTkn l;
        Ok (if action <? 0 then k else (i, action) :: k)
  end.
(** the heap, the table and the extreme offsets *)
Record placing := mkPlacing { pl_heap : heap; pl_tab : acttab; mnTknOfst : Z; mxTknOfst : Z; mnNtOfst : Z; mxNtOfst : Z }.
Definition place_set (lem : lemon) (ax : axset) (pl : placing) : res placing :=
  let h := pl_heap pl in
  tx ← set_actions lem h (ax_isTkn ax) (stp_ap (stt (h_states h) (ax_stp ax)));
  let* (o, p) := acttab_add (pl_tab pl) (ax_isTkn ax) tx in
  if ax_isTkn ax then
    Ok (mkPlacing (upd_states (alter (upd_iTknOfst o) (ax_stp ax)) h) p
          (if o <? mnTknOfst pl then o else mnTknOfst pl) (if o >? mxTknOfst pl then o else mxTknOfst pl) (mnNtOfst pl) (mxNtOfst pl))
  else
    Ok (mkPlacing (upd_states (alter (upd_iNtOfst o) (ax_stp ax)) h) p
          (mnTknOfst pl) (mxTknOfst pl) (if o <? mnNtOfst pl then o else mnNtOfst pl) (if o >? mxNtOfst pl then o else mxNtOfst pl)).
(** up to the first empty set *)
Fixpoint place_sets (lem : lemon) (l : list axset) (pl : placing) : res placing :=
  match l with
  | ax :: l => if ax_nAction ax >? 0 then pl ← place_set lem ax pl; place_sets lem l pl else Ok pl
  | [] => Ok pl
  end.
Definition emitted_states (lem : lemon) : list nat := take (Z.to_nat (lem_nxstate lem)) (lem_sorted lem).
Definition fill_table (calloc_ok : bool) (lem : lemon) (h : heap) : res placing :=
  if negb calloc_ok then Err ExitCalled
  else
    let ax := axsets h 0 (emitted_states lem) in
    let sorted := qsort axset_compare ax in
    if no_ties axset_compare sorted then
      place_sets lem sorted (mkPlacing h (acttab_alloc (lem_nsymbol lem) (lem_nterminal lem)) 0 0 0 0)
    else Err ExitCalled.

(** ** Rules that reduce *)

Fixpoint mark_does (l : list action) (rs : list rule) : res (list rule) :=
  match l with
  | [] => Ok rs
  | ap :: l =>
      if bool_decide (ap_type ap = REDUCE) || bool_decide (ap_type ap = SHIFTREDUCE) then
        match ap_x ap with XRule rp => mark_does l (alter (upd_doesReduce true) rp rs) | _ => Err NullDeref end
      else mark_does l rs
  end.
Fixpoint mark_states (h : heap) (sts : list nat) (rs : list rule) : res (list rule) :=
  match sts with
  | [] => Ok rs
  | s :: sts => rs ← mark_does (stp_ap (stt (h_states h) s)) rs; mark_states h sts rs
  end.
Definition mark_doesReduce (lem : lemon) (h : heap) : res heap :=
  rs ← mark_states h (emitted_states lem) (foldl (λ rs rp, alter (upd_doesReduce false) rp rs) (h_rules h) (lem_rule lem));
  Ok (upd_rules (λ _, rs) h).

(** ** The arrays *)

(** [n] entries of the table from [i] on *)
Fixpoint table_entries (f : lookahead_action → Z) (a : list lookahead_action) (i : Z) (n : nat) : res (list Z) :=
  match n with
  | O => Ok []
  | S n => e ← act_at a i; l ← table_entries f a (i + 1) n; Ok (f e :: l)
  end.
Definition action_table (lem : lemon) (p : acttab) (n : Z) : res (list Z) :=
  table_entries (λ e, if la_action e <? 0 then lem_noAction lem else la_action e) (aAction p) 0 (Z.to_nat n).
Definition lookahead_table (lem : lemon) (p : acttab) (nactiontab : Z) : res (list Z) :=
  l ← table_entries (λ e, if la_lookahead e <? 0 then lem_nsymbol lem else la_lookahead e) (aAction p) 0 (Z.to_nat (nAction p));
  Ok (l ++ replicate (Z.to_nat (lem_nterminal lem + nactiontab - zlen l)) (lem_nterminal lem)).
(** the states up to the last one with an offset *)
Fixpoint trim_offsets (f : state → Z) (h : heap) (rev_sts : list nat) : list nat :=
  match rev_sts with
  | s :: k => if f (stt (h_states h) s) =? NO_OFFSET then trim_offsets f h k else rev_sts
  | [] => []
  end.
Definition offset_states (f : state → Z) (lem : lemon) (h : heap) : list nat :=
  reverse (trim_offsets f h (reverse (emitted_states lem))).
Definition offset_table (f : state → Z) (none : Z) (h : heap) (sts : list nat) : list Z :=
  (λ s, let o := f (stt (h_states h) s) in if o =? NO_OFFSET then none else o) <$> sts.
Definition default_table (lem : lemon) (h : heap) : list Z :=
  (λ s, let d := stp_iDfltReduce (stt (h_states h) s) in if d <? 0 then lem_errAction lem else d + lem_minReduce lem) <$> emitted_states lem.
Definition fallback_table (lem : lemon) (h : heap) : list Z :=
  (λ sp, match sp_fallback (sym (h_syms h) sp) with None => 0 | Some f => sp_index (sym (h_syms h) f) end)
    <$> take (Z.to_nat (lem_nterminal lem)) (lem_symbols lem).
Definition rule_lhs (lem : lemon) (h : heap) : list Z := (λ rp, sp_index (sym (h_syms h) (rp_lhs (rul (h_rules h) rp)))) <$> lem_rule lem.
(** the array is one of [signed char] *)
Definition rule_nrhs (lem : lemon) (h : heap) : list Z := (λ rp, swrap 8 (- zlen (rp_rhs (rul (h_rules h) rp)))) <$> lem_rule lem.

Section Report.
(** the macros that the user of the parser sets, and [lemp->has_fallback] *)
Context (stackdepth : Z) (noerrorrecovery trackmax has_fallback : bool).

Definition error_symbol (lem : lemon) (h : heap) : option Z :=
  match lem_errsym lem with
  | Some e => if sp_useCnt (sym (h_syms h) e) =? 0 then None else Some (sp_index (sym (h_syms h) e))
  | None => None
  end.
Definition tables_from (lem : lemon) (pl : placing) (nactiontab : Z) (action lookahead : list Z) : yytables :=
  let h := pl_heap pl in
  let shifts := offset_states stp_iTknOfst lem h in
  let reduces := offset_states stp_iNtOfst lem h in
  {| YYSTACKDEPTH := stackdepth; YYNSTATE := lem_nxstate lem; YYNTOKEN := lem_nterminal lem; YYNOCODE := lem_nsymbol lem;
     YYWILDCARD := (λ w, sp_index (sym (h_syms h) w)) <$> lem_wildcard lem;
     YYERRORSYMBOL := error_symbol lem h; YYNOERRORRECOVERY := noerrorrecovery; YYTRACKMAXSTACKDEPTH := trackmax;
     YY_MAX_SHIFT := lem_nxstate lem - 1; YY_MIN_SHIFTREDUCE := lem_minShiftReduce lem;
     YY_MAX_SHIFTREDUCE := lem_minShiftReduce lem + zlen (lem_rule lem) - 1;
     YY_ERROR_ACTION := lem_errAction lem; YY_ACCEPT_ACTION := lem_accAction lem; YY_MIN_REDUCE := lem_minReduce lem;
     YY_SHIFT_COUNT := zlen shifts - 1; YY_REDUCE_COUNT := zlen reduces - 1; YY_ACTTAB_COUNT := nactiontab;
     yy_action := action; yy_lookahead := lookahead;
     yy_shift_ofst := offset_table stp_iTknOfst nactiontab h shifts;
     yy_reduce_ofst := offset_table stp_iNtOfst (mnNtOfst pl - 1) h reduces;
     yy_default := default_table lem h;
     yyFallback := if has_fallback then Some (fallback_table lem h) else None;
     yyRuleInfoLhs := rule_lhs lem h; yyRuleInfoNRhs := rule_nrhs lem h |}.
Definition tables_of (lem : lemon) (pl : placing) : res yytables :=
  nactiontab ← acttab_action_size (pl_tab pl);
  action ← action_table lem (pl_tab pl) nactiontab;
  lookahead ← lookahead_table lem (pl_tab pl) nactiontab;
  Ok (tables_from lem pl nactiontab action lookahead).
(** the numbers, the heap with the offsets and the marked rules, and the tables *)
Definition report_tables (calloc_ok : bool) (lem : lemon) (h : heap) : res (lemon * heap * yytables) :=
  let lem := upd_numbers (zlen (lem_rule lem)) lem in
  pl ← fill_table calloc_ok lem h;
  h' ← mark_doesReduce lem (pl_heap pl);
  y ← tables_of lem pl;
  Ok (lem, h', y).
End Report.

(** ** The sets as they are entered *)

Notation aidx h a := (sp_index (sym (h_syms h) (ap_sp a))).
Definition act_value (lem : lemon) (h : heap) (a : action) : Z := match compute_action lem h a with Ok v => v | Err _ => -1 end.
(** the actions that go into a set *)
Definition in_set (lem : lemon) (h : heap) (isTkn : bool) (a : action) : Prop :=
  emitted lem h a = true ∧ if isTkn then aidx h a < lem_nterminal lem else lem_nterminal lem ≤ aidx h a ∧ aidx h a ≠ lem_nsymbol lem.
#[global] Instance in_set_dec lem h b a : Decision (in_set lem h b a).
Proof. unfold in_set. destruct b; apply _. Defined.
Definition the_set (lem : lemon) (h : heap) (isTkn : bool) (s : nat) : list (Z * Z) :=
  (λ a, (aidx h a, act_value lem h a)) <$> filter (in_set lem h isTkn) (stp_ap (stt (h_states h) s)).
Definition ofs (h : heap) (s : nat) (isTkn : bool) : Z :=
  if isTkn then stp_iTknOfst (stt (h_states h) s) else stp_iNtOfst (stt (h_states h) s).

Lemma set_actions_spec lem h b l :
  (∀ a, a ∈ l → is_Ok (compute_action lem h a)) →
  set_actions lem h b l = Ok ((λ a, (aidx h a, act_value lem h a)) <$> filter (in_set lem h b) l).
Proof.
  induction l as [|a l IH]; intros Hl; [done|]. cbn [set_actions]. rewrite IH by (intros; apply Hl; by right).
  destruct (Hl a ltac:(by left)) as [v Hv]. rewrite filter_cons.
  assert (emitted lem h a = (0 <=? v)) as He by (unfold emitted; by rewrite Hv).
  assert (act_value lem h a = v) as Ha by (unfold act_value; by rewrite Hv).
  destruct (if b then _ else _) eqn:Er.
  - rewrite decide_False; [done|]. intros [_ Hr]. destruct b; [apply Z.geb_le in Er; lia|].
    apply orb_true_iff in Er as [Er|Er]; [apply Z.ltb_lt in Er|apply Z.eqb_eq in Er]; lia.
  - rewrite Hv. cbn [mbind res_bind]. assert (if b then aidx h a < lem_nterminal lem else lem_nterminal lem ≤ aidx h a ∧ aidx h a ≠ lem_nsymbol lem) as Hr.
    { destruct b; [rewrite Z.geb_leb in Er; apply Z.leb_gt in Er; lia|]. apply orb_false_iff in Er as [E1 E2]. apply Z.ltb_ge in E1. apply Z.eqb_neq in E2. lia. }
    destruct (Z.ltb_spec v 0).
    + rewrite decide_False; [done|]. intros [E _]. rewrite He in E. apply Z.leb_le in E. lia.
    + rewrite decide_True by (split; [rewrite He; apply Z.leb_le; lia|done]). by rewrite fmap_cons, Ha.
Qed.

(** the parts of a heap that the sets depend on *)
Record same_lists (h h' : heap) : Prop := {
  sl_nums : same_numbers h h';
  sl_ap : ∀ s, stp_ap (stt (h_states h') s) = stp_ap (stt (h_states h) s);
  sl_dflt : ∀ s, stp_iDfltReduce (stt (h_states h') s) = stp_iDfltReduce (stt (h_states h) s);
  sl_len : length (h_states h') = length (h_states h);
}.
Lemma same_lists_refl h : same_lists h h.
Proof. by repeat constructor. Qed.
Lemma same_lists_trans h1 h2 h3 : same_lists h1 h2 → same_lists h2 h3 → same_lists h1 h3.
Proof.
  intros [(N1&N2&N3) A1 D1 L1] [(M1&M2&M3) A2 D2 L2]. constructor; [split_and!; [congruence..|]|..]; intros; try congruence.
  all: by rewrite ?M3, ?A2, ?D2.
Qed.
Lemma the_set_same lem h h' b s : same_lists h h' → the_set lem h' b s = the_set lem h b s.
Proof.
  intros [Hn Ha _ _]. unfold the_set. rewrite Ha. pose proof (compute_action_same lem h h') as Hc. destruct Hn as (Hy&Hr&Hn).
  assert (∀ a, in_set lem h' b a ↔ in_set lem h b a) as Hin.
  { intros a. unfold in_set, emitted. by rewrite Hc, Hy. }
  rewrite (list_filter_iff (in_set lem h' b) (in_set lem h b) _ Hin).
  apply list_fmap_ext. intros i a _. unfold act_value. by rewrite Hc, Hy.
Qed.
Lemma upd_offset_same h s f :
  (∀ x, stp_ap (f x) = stp_ap x ∧ stp_iDfltReduce (f x) = stp_iDfltReduce x ∧ stp_statenum (f x) = stp_statenum x) →
  same_lists h (upd_states (alter f s) h).
Proof.
  intros Hf. constructor; [split_and!; [done|done|]|..|cbn; by rewrite length_alter]; intros i; cbn [h_states upd_states]; rewrite stt_alter; case_decide as E; try done.
  all: destruct E as [-> _]; apply Hf.
Qed.

(** ** Entering the sets *)

Section Place.
Context (lem : lemon).

(** one set can be entered *)
Definition ax_ready (h : heap) (N nt : Z) (ax : axset) : Prop :=
  (ax_stp ax < length (h_states h))%nat ∧ (∀ a, a ∈ stp_ap (stt (h_states h) (ax_stp ax)) → is_Ok (compute_action lem h a)) ∧
  (0 < ax_nAction ax → state_tx_ok nt N (ax_isTkn ax, the_set lem h (ax_isTkn ax) (ax_stp ax))).
Lemma ax_ready_same h h' N nt ax : same_lists h h' → ax_ready h N nt ax → ax_ready h' N nt ax.
Proof.
  intros Hs (H1&H2&H3). pose proof (the_set_same lem h h' (ax_isTkn ax) (ax_stp ax) Hs) as Ht. destruct Hs as [Hn Ha _ Hl].
  split; [by rewrite Hl|]. split; [|by rewrite Ht]. intros a. rewrite Ha. intros Hin. rewrite (compute_action_same lem h h' a Hn). by apply H2.
Qed.

Lemma place_set_ok ax pl G :
  tab_ok (pl_tab pl) G → pending (pl_tab pl) [] → ax_ready (pl_heap pl) (nsymbol (pl_tab pl)) (nterminal (pl_tab pl)) ax → 0 < ax_nAction ax →
  ∃ o pl', place_set lem ax pl = Ok pl' ∧ same_lists (pl_heap pl) (pl_heap pl') ∧
    tab_ok (pl_tab pl') ((ax_isTkn ax, o, to_la (the_set lem (pl_heap pl) (ax_isTkn ax) (ax_stp ax))) :: G) ∧ pending (pl_tab pl') [] ∧
    nterminal (pl_tab pl') = nterminal (pl_tab pl) ∧ nsymbol (pl_tab pl') = nsymbol (pl_tab pl) ∧
    ofs (pl_heap pl') (ax_stp ax) (ax_isTkn ax) = o ∧
    (∀ s b, (s, b) ≠ (ax_stp ax, ax_isTkn ax) → ofs (pl_heap pl') s b = ofs (pl_heap pl) s b).
Proof.
  intros Hok Hp (Hlt&Hcomp&Hready) Hpos. unfold place_set. rewrite set_actions_spec by done. cbn [mbind res_bind].
  fold (the_set lem (pl_heap pl) (ax_isTkn ax) (ax_stp ax)). specialize (Hready Hpos). set (tx := the_set _ _ _ _) in *. unfold acttab_add.
  destruct (acttab_actions_ok (pl_tab pl) G [] tx Hok Hp) as (Hok1&Hp1&Hnt1&Hns1). set (p1 := foldl _ (pl_tab pl) tx) in *. change (pending p1 (to_la tx)) in Hp1.
  destruct (acttab_insert_ok p1 G (to_la tx) (ax_isTkn ax)) as (o&p2&->&Hok2&Hp2&Hnt2&Hns2); [done|done|rewrite Hnt1, Hns1; by apply state_tx_la|].
  cbn [mbind res_bind]. exists o. destruct (ax_isTkn ax) eqn:Eb; (eexists; split; [done|]); cbn [pl_heap pl_tab].
  all: (split; [by apply upd_offset_same|]; split; [done|]; split; [done|]; split; [congruence|]; split; [congruence|]).
  all: unfold ofs; cbn [h_states upd_states]; (split; [rewrite stt_alter, decide_True by done; done|]).
  all: intros s b Hne; rewrite stt_alter; destruct (decide (s = ax_stp ax ∧ _)) as [[-> _]|]; [|done]; destruct b; done.
Qed.

Lemma place_sets_ok l : ∀ pl G,
  StronglySorted (λ a b, ax_nAction b ≤ ax_nAction a) l → NoDup ((λ ax, (ax_stp ax, ax_isTkn ax)) <$> l) →
  tab_ok (pl_tab pl) G → pending (pl_tab pl) [] →
  (∀ ax, ax ∈ l → ax_ready (pl_heap pl) (nsymbol (pl_tab pl)) (nterminal (pl_tab pl)) ax) →
  ∃ pl' G', place_sets lem l pl = Ok pl' ∧ same_lists (pl_heap pl) (pl_heap pl') ∧ tab_ok (pl_tab pl') G' ∧
    nterminal (pl_tab pl') = nterminal (pl_tab pl) ∧ nsymbol (pl_tab pl') = nsymbol (pl_tab pl) ∧ (∀ x, x ∈ G → x ∈ G') ∧
    (∀ ax, ax ∈ l → 0 < ax_nAction ax →
       (ax_isTkn ax, ofs (pl_heap pl') (ax_stp ax) (ax_isTkn ax), to_la (the_set lem (pl_heap pl) (ax_isTkn ax) (ax_stp ax))) ∈ G') ∧
    (∀ s b, (∀ ax, ax ∈ l → 0 < ax_nAction ax → (s, b) ≠ (ax_stp ax, ax_isTkn ax)) → ofs (pl_heap pl') s b = ofs (pl_heap pl) s b).
Proof.
  induction l as [|ax l IH]; intros pl G Hsort Hnd Hok Hp Hready; cbn [place_sets].
  { exists pl, G. split; [done|]. split; [apply same_lists_refl|]. split_and!; try done. intros ? H. by apply elem_of_nil in H. }
  apply StronglySorted_inv in Hsort as [Hsort Hle]. rewrite Forall_forall in Hle. rewrite fmap_cons in Hnd. apply NoDup_cons in Hnd as [Hni Hnd].
  rewrite Z.gtb_ltb. destruct (Z.ltb_spec 0 (ax_nAction ax)) as [Hpos|Hneg]; cycle 1.
  { exists pl, G. assert (∀ x, x ∈ ax :: l → ax_nAction x ≤ 0) as Hall.
    { intros x [->|Hx]%elem_of_cons; [done|]. specialize (Hle x Hx). lia. }
    split; [done|]. split; [apply same_lists_refl|]. split_and!; try done. intros x Hx ?. specialize (Hall x Hx). lia. }
  destruct (place_set_ok ax pl G) as (o&pl1&->&Hs1&Hok1&Hp1&Hnt1&Hns1&Hofs&Hoth); [done|done|apply Hready; by left|done|]. cbn [mbind res_bind].
  destruct (IH pl1 _ Hsort Hnd Hok1 Hp1) as (pl'&G'&->&Hs2&Hok2&Hnt2&Hns2&Hsub&Hin&Hout).
  { intros x Hx. rewrite Hnt1, Hns1. eapply ax_ready_same; [done|]. apply Hready. by right. }
  exists pl', G'. split; [done|]. split; [by eapply same_lists_trans|]. split; [done|]. split; [congruence|]. split; [congruence|].
  split; [intros; apply Hsub; by right|]. split.
  - intros x [->|Hx]%elem_of_cons Hxp.
    + rewrite Hout, Hofs; [apply Hsub; by left|]. intros y Hy _ E. apply Hni. apply list_elem_of_fmap. by exists y.
    + rewrite <- (the_set_same lem (pl_heap pl) (pl_heap pl1)) by done. by apply Hin.
  - intros s b Hx. rewrite Hout, Hoth; [done|apply Hx; [by left|done]|]. intros y Hy. apply Hx. by right.
Qed.
End Place.

(** ** The table of all states *)

Lemma axsets_in h i sts ax :
  ax ∈ axsets h i sts ↔ ∃ k s, sts !! k = Some s ∧
    (ax = mkAx s true (stp_nTknAct (stt (h_states h) s)) ((i + Z.of_nat k) * 2) ∨
     ax = mkAx s false (stp_nNtAct (stt (h_states h) s)) ((i + Z.of_nat k) * 2 + 1)).
Proof.
  revert i. induction sts as [|s sts IH]; intros i; cbn [axsets].
  - split; [by intros ?%elem_of_nil|]. by intros (k&s&?&_).
  - rewrite !elem_of_cons, IH. split.
    + intros [->|[->|(k&s'&Hk&H)]]; [exists 0%nat, s; split; [done|left; f_equal; lia]|exists 0%nat, s; split; [done|right; f_equal; lia]|].
      exists (S k), s'. split; [done|]. by replace (i + Z.of_nat (S k)) with (i + 1 + Z.of_nat k) by lia.
    + intros ([|k]&s'&Hk&H); cbn in Hk.
      * injection Hk as <-. replace (i + Z.of_nat 0) with i in H by lia. destruct H; [by left|right; by left].
      * right. right. exists k, s'. split; [done|]. by replace (i + 1 + Z.of_nat k) with (i + Z.of_nat (S k)) by lia.
Qed.
Lemma axsets_nodup h i sts : NoDup (axsets h i sts).
Proof.
  revert i. induction sts as [|s sts IH]; intros i; cbn [axsets]; [constructor|].
  assert (∀ ax, ax ∈ axsets h (i + 1) sts → i * 2 + 1 < ax_iOrder ax) as Hlt.
  { intros ax (k&s'&_&[->| ->])%axsets_in; cbn; lia. }
  apply NoDup_cons. split; [intros [E|H]%elem_of_cons; [done|apply Hlt in H; cbn in H; lia]|].
  apply NoDup_cons. split; [intros H%Hlt; cbn in H; lia|apply IH].
Qed.
Lemma axsets_pairs h i sts : NoDup sts → NoDup ((λ ax, (ax_stp ax, ax_isTkn ax)) <$> axsets h i sts).
Proof.
  revert i. induction sts as [|s sts IH]; intros i Hnd; cbn [axsets]; [constructor|]. apply NoDup_cons in Hnd as [Hs Hnd]. rewrite !fmap_cons. cbn [ax_stp ax_isTkn].
  assert (∀ b, (s, b) ∉ (λ ax, (ax_stp ax, ax_isTkn ax)) <$> axsets h (i + 1) sts) as Hni.
  { intros b (ax&E&(k&s'&Hk&Hax)%axsets_in)%list_elem_of_fmap. apply Hs. apply list_elem_of_lookup. exists k. destruct Hax as [->| ->]; cbn in E; by injection E as -> _. }
  apply NoDup_cons. split; [intros [?|H]%elem_of_cons; [done|by apply Hni in H]|]. apply NoDup_cons. split; [apply Hni|by apply IH].
Qed.
Lemma axset_compare_order a b : axset_compare a b ≤ 0 → ax_nAction b ≤ ax_nAction a.
Proof. unfold axset_compare. destruct (Z.eqb_spec (ax_nAction b - ax_nAction a) 0); lia. Qed.
Lemma axset_compare_tie h i sts a b : a ∈ axsets h i sts → b ∈ axsets h i sts → NoDup sts → a ≠ b → axset_compare a b ≠ 0.
Proof.
  intros (k&s&Hk&Ha)%axsets_in (k'&s'&Hk'&Hb)%axsets_in Hnd Hne E. apply Hne. unfold axset_compare in E.
  destruct (Z.eqb_spec (ax_nAction b - ax_nAction a) 0); [|lia].
  assert (ax_iOrder a = ax_iOrder b) as Ho by lia.
  assert (k = k') as <- by (destruct Ha as [->| ->], Hb as [->| ->]; cbn in Ho; lia). rewrite Hk in Hk'. injection Hk' as <-.
  destruct Ha as [->| ->], Hb as [->| ->]; cbn in Ho; try done; lia.
Qed.

Section Fill.
Context (lem : lemon) (h : heap).

(** what a state brings, as [ResortStates] leaves it: actions with numbers, one for a symbol,
    the counts of them, and no offsets *)
Record state_ready (s : nat) : Prop := {
  sr_acts : ∀ a, a ∈ stp_ap (stt (h_states h) s) → is_Ok (compute_action lem h a) ∧ 0 ≤ aidx h a ≤ lem_nsymbol lem;
  sr_one : NoDup ((λ a, aidx h a) <$> filter (λ a, emitted lem h a = true) (stp_ap (stt (h_states h) s)));
  sr_tkn : stp_nTknAct (stt (h_states h) s) = tkn_actions lem h (stp_ap (stt (h_states h) s));
  sr_nt : stp_nNtAct (stt (h_states h) s) = nt_actions lem h (stp_ap (stt (h_states h) s));
  sr_none : ∀ b, ofs h s b = NO_OFFSET;
}.
Record report_ready : Prop := {
  rr_syms : 0 ≤ lem_nterminal lem < lem_nsymbol lem;
  rr_nodup : NoDup (lem_sorted lem);
  rr_range : ∀ s, s ∈ lem_sorted lem → (s < length (h_states h))%nat;
  rr_states : ∀ s, s ∈ emitted_states lem → state_ready s;
}.

Lemma set_empty (b : bool) s : state_ready s → lem_nterminal lem < lem_nsymbol lem →
  let n := if b then stp_nTknAct (stt (h_states h) s) else stp_nNtAct (stt (h_states h) s) in
  0 ≤ n ∧ (0 < n ↔ the_set lem h b s ≠ []).
Proof.
  intros [Ha _ Ht Hn _] Hs n. set (l := stp_ap (stt (h_states h) s)) in *.
  assert (the_set lem h b s ≠ [] ↔ 0 < zlen (filter (in_set lem h b) l)) as ->.
  { unfold the_set. fold l. destruct (filter _ l); [done|]. rewrite fmap_cons. unfold zlen. cbn [length]. split; [lia|done]. }
  destruct b; unfold n.
  - rewrite Ht. unfold tkn_actions. split; [apply zlen_nonneg|]. done.
  - rewrite Hn. unfold nt_actions. split; [apply zlen_nonneg|].
    rewrite (filter_cons_ext _ (in_set lem h false) l); [done|]. intros a Hin. unfold in_set. destruct (Ha a Hin) as [_ Hr]. intuition lia.
Qed.
Lemma the_set_ok (b : bool) s : state_ready s → the_set lem h b s ≠ [] → state_tx_ok (lem_nterminal lem) (lem_nsymbol lem) (b, the_set lem h b s).
Proof.
  intros [Ha Ho _ _ _] Hne. split; [done|]. split; cbn [fst snd].
  - unfold the_set. rewrite <- list_fmap_compose. cbn. set (l := stp_ap (stt (h_states h) s)) in *.
    assert (filter (in_set lem h b) l `sublist_of` filter (λ a, emitted lem h a = true) l) as Hsub.
    { clear. induction l as [|a l IH]; [done|]. rewrite !filter_cons. destruct (decide (in_set lem h b a)) as [[E ?]|].
      - rewrite decide_True by done. by apply sublist_skip.
      - case_decide; [by apply sublist_cons|done]. }
    eapply sublist_NoDup; [exact Ho|]. by apply (fmap_sublist (λ a, aidx h a)).
  - intros l a (x&[= -> ->]&[[He Hr] Hin]%list_elem_of_filter)%list_elem_of_fmap. destruct (Ha x Hin) as [_ Hi]. destruct b; lia.
Qed.

Lemma fill_table_ok : report_ready →
  ∃ pl G, fill_table true lem h = Ok pl ∧ same_lists h (pl_heap pl) ∧ tab_ok (pl_tab pl) G ∧
    nterminal (pl_tab pl) = lem_nterminal lem ∧ nsymbol (pl_tab pl) = lem_nsymbol lem ∧
    ∀ s b, s ∈ emitted_states lem →
      if decide (the_set lem h b s = []) then ofs (pl_heap pl) s b = NO_OFFSET
      else (b, ofs (pl_heap pl) s b, to_la (the_set lem h b s)) ∈ G.
Proof.
  intros [Hsyms Hnd Hlt Hst]. unfold fill_table. cbn [negb]. set (ax := axsets h 0 (emitted_states lem)).
  assert (NoDup (emitted_states lem)) as Hnde by (eapply sublist_NoDup; [exact Hnd|apply sublist_take]).
  assert (∀ s, s ∈ emitted_states lem → s ∈ lem_sorted lem) as Hsub by (intros s (k&?%list_elem_of_lookup_2&_)%elem_of_take; done).
  rewrite no_ties_ok; [|rewrite qsort_perm; apply axsets_nodup|intros a b; rewrite !qsort_perm; intros; by eapply axset_compare_tie].
  destruct (acttab_alloc_ok (lem_nsymbol lem) (lem_nterminal lem) Hsyms) as [Hok Hp].
  destruct (place_sets_ok lem (qsort axset_compare ax) (mkPlacing h (acttab_alloc (lem_nsymbol lem) (lem_nterminal lem)) 0 0 0 0) []) as (pl&G&->&Hs&Hok'&Hnt&Hns&_&Hin&Hout).
  - eapply StronglySorted_impl; [|apply qsort_sorted]; [intros a b _ _; apply axset_compare_order|..].
    + intros x y _ _. unfold axset_compare. repeat case_match; lia.
    + intros x y z _ _ _. unfold axset_compare. repeat case_match; lia.
  - rewrite qsort_perm. by apply axsets_pairs.
  - done.
  - done.
  - intros a. rewrite qsort_perm. intros (k&s&Hk%list_elem_of_lookup_2&Ha)%axsets_in. specialize (Hst s Hk). cbn [pl_heap pl_tab acttab_alloc nsymbol nterminal].
    assert (ax_stp a = s) as <- by (destruct Ha as [->| ->]; done). split; [by apply Hlt, Hsub|]. split; [intros x Hx; by apply (sr_acts _ Hst)|].
    intros Hpos. apply the_set_ok; [done|]. apply (set_empty (ax_isTkn a) (ax_stp a) Hst); [lia|]. clear -Ha Hpos. destruct a as [s0 b0 n0 o0]. cbn in *. destruct Ha as [[= -> -> ?]|[= -> -> ?]]; lia.
  - exists pl, G. split; [done|]. split; [done|]. split; [done|]. split; [done|]. split; [done|]. intros s b Hse. pose proof (Hst s Hse) as Hr.
    destruct (set_empty b s Hr) as [Hn0 Hn]; [lia|]. apply list_elem_of_lookup in Hse as [k Hk].
    set (e := mkAx s b (if b then stp_nTknAct (stt (h_states h) s) else stp_nNtAct (stt (h_states h) s)) (if b then (0 + Z.of_nat k) * 2 else (0 + Z.of_nat k) * 2 + 1)).
    assert (e ∈ ax) as He by (apply axsets_in; exists k, s; split; [done|]; destruct b; [by left|by right]). case_decide as Hemp.
    + rewrite Hout; [apply (sr_none _ Hr)|]. intros a. rewrite qsort_perm. intros (k'&s'&_&Ha)%axsets_in Hpos [= -> ->].
      apply Hn in Hemp; [done|]. destruct Ha as [->| ->]; done.
    + apply (Hin e); [by rewrite qsort_perm|]. apply Hn in Hemp. by destruct b.
Qed.
End Fill.

(** ** Reading the arrays *)

Lemma table_entries_ok f a n i :
  0 ≤ i → i + Z.of_nat n ≤ zlen a →
  ∃ l, table_entries f a i n = Ok l ∧ zlen l = Z.of_nat n ∧ ∀ j e, 0 ≤ j < Z.of_nat n → act_at a (i + j) = Ok e → tab l j = Ok (f e).
Proof.
  revert i. induction n as [|n IH]; intros i Hi Hn; cbn [table_entries].
  { exists []. split; [done|]. split; [done|]. intros j e Hj. lia. }
  destruct (act_at_ex a i) as [e He]; [lia|]. rewrite He. cbn [mbind res_bind].
  destruct (IH (i + 1)) as (l&->&Hl&Hat); [lia|lia|]. cbn [mbind res_bind]. eexists. split; [done|]. split; [unfold zlen in *; cbn [length]; lia|].
  intros j e' Hj He'. destruct (decide (j = 0)) as [->|Hj0].
  - rewrite Z.add_0_r in He'. rewrite He in He'. injection He' as <-. by apply tab_Ok.
  - apply tab_Ok. split; [lia|]. replace (Z.to_nat j) with (S (Z.to_nat (j - 1))) by lia. cbn [lookup list_lookup].
    apply (tab_Ok l (j - 1)). apply Hat; [lia|]. by replace (i + 1 + (j - 1)) with (i + j) by lia.
Qed.
Lemma action_size_ok p G :
  tab_ok p G → nAction p ≤ nActionAlloc p →
  ∃ n, acttab_action_size p = Ok n ∧ 0 ≤ n ≤ nAction p ∧ ∀ k e, act_at (aAction p) k = Ok e → n ≤ k → la_lookahead e < 0.
Proof.
  intros Hok Hle. unfold acttab_action_size. pose proof (t_n _ _ Hok) as H0.
  assert (∀ m : nat, Z.of_nat m ≤ nAction p → (∀ k e, act_at (aAction p) k = Ok e → Z.of_nat m ≤ k → la_lookahead e < 0) →
    ∃ n, action_size (aAction p) m = Ok n ∧ 0 ≤ n ≤ Z.of_nat m ∧ ∀ k e, act_at (aAction p) k = Ok e → n ≤ k → la_lookahead e < 0) as H.
  { induction m as [|m IH]; intros Hm Hall; cbn [action_size]; [exists 0; split; [done|]; split; [lia|done]|].
    destruct (act_at_ex (aAction p) (Z.of_nat m)) as [e He]; [unfold nActionAlloc in Hle; lia|]. rewrite He. cbn [mbind res_bind].
    destruct (Z.ltb_spec (la_lookahead e) 0) as [Hneg|Hpos].
    - destruct IH as (n&->&Hn&Hr); [lia| |].
      + intros k e' He' Hk. destruct (decide (k = Z.of_nat m)) as [->|]; [congruence|]. apply (Hall k e' He'). lia.
      + exists n. split; [done|]. split; [lia|done].
    - exists (Z.of_nat (S m)). split; [done|]. split; [lia|]. done. }
  destruct (H (Z.to_nat (nAction p))) as (n&->&Hn&Hr); [lia| |].
  { intros k e He Hk. apply (t_tail _ _ Hok k e He). lia. }
  exists n. split; [done|]. split; [lia|done].
Qed.

(** the size of a table whose entries count beyond the slots allocated is read behind them *)
Lemma action_size_overread p : nActionAlloc p < nAction p → acttab_action_size p = Err OutOfBounds.
Proof.
  intros H. pose proof (zlen_nonneg (aAction p)). unfold nActionAlloc in H. unfold acttab_action_size.
  destruct (Z.to_nat (nAction p)) as [|m] eqn:Em; [lia|]. cbn [action_size]. unfold act_at at 1.
  rewrite (proj2 (Z.leb_le 0 _)), lookup_ge_None_2 by (unfold zlen in H; lia). done.
Qed.

(** *** One row of the action table *)

Fixpoint assoc (t : Z) (l : list (Z * Z)) : option Z :=
  match l with
  | [] => None
  | (k, a) :: l => if k =? t then Some a else assoc t l
  end.
Lemma assoc_spec t l : match assoc t l with Some a => (t, a) ∈ l | None => t ∉ l.*1 end.
Proof.
  induction l as [|[k a] l IH]; cbn [assoc]; [apply not_elem_of_nil|]. destruct (Z.eqb_spec k t) as [->|Hne]; [by left|].
  destruct (assoc t l); [by right|]. rewrite fmap_cons. apply not_elem_of_cons. split; [by intros ->|done].
Qed.

Section Rows.
Context (lem : lemon) (p : acttab) (G : list (bool * Z * list lookahead_action)) (Hok : tab_ok p G).
Context (Hnt : nterminal p = lem_nterminal lem) (Hns : nsymbol p = lem_nsymbol lem) (Hroom : nAction p ≤ nActionAlloc p).

(** the arrays *)
Record arrays (n : Z) (action lookahead : list Z) : Prop := {
  ar_n : 0 ≤ n ≤ nAction p;
  ar_tail : ∀ k e, act_at (aAction p) k = Ok e → n ≤ k → la_lookahead e < 0;
  ar_action : ∀ k e, 0 ≤ k < n → act_at (aAction p) k = Ok e → 0 ≤ la_action e → tab action k = Ok (la_action e);
  ar_look : ∀ k e, 0 ≤ k < nAction p → act_at (aAction p) k = Ok e →
    tab lookahead k = Ok (if la_lookahead e <? 0 then lem_nsymbol lem else la_lookahead e);
  ar_pad : ∀ k, nAction p ≤ k < lem_nterminal lem + n → tab lookahead k = Ok (lem_nterminal lem);
  ar_len : lem_nterminal lem + n ≤ zlen lookahead;
}.
Lemma arrays_ok :
  ∃ n action lookahead, acttab_action_size p = Ok n ∧ action_table lem p n = Ok action ∧ lookahead_table lem p n = Ok lookahead ∧
    arrays n action lookahead.
Proof.
  destruct (action_size_ok p G Hok Hroom) as (n&Hn&Hr&Htail). unfold nActionAlloc in Hroom.
  destruct (table_entries_ok (λ e, if la_action e <? 0 then lem_noAction lem else la_action e) (aAction p) (Z.to_nat n) 0) as (action&Ha&Hal&Hat); [lia|lia|].
  destruct (table_entries_ok (λ e, if la_lookahead e <? 0 then lem_nsymbol lem else la_lookahead e) (aAction p) (Z.to_nat (nAction p)) 0) as (look&Hl&Hll&Hlt); [lia|lia|].
  exists n, action, (look ++ replicate (Z.to_nat (lem_nterminal lem + n - zlen look)) (lem_nterminal lem)).
  split; [done|]. split; [done|]. split; [unfold lookahead_table; by rewrite Hl|]. constructor; try done.
  - intros k e Hk He Hpos. rewrite (Hat k e); [|lia|done]. by rewrite (proj2 (Z.ltb_ge _ _)).
  - intros k e Hk He. apply tab_Ok. pose proof (proj1 (tab_Ok _ _ _) (Hlt k e ltac:(lia) He)) as [_ Hlk]. split; [lia|]. by apply lookup_app_l_Some.
  - intros k Hk. apply tab_Ok. split; [lia|]. rewrite lookup_app_r by (unfold zlen in *; lia). apply lookup_replicate_2. unfold zlen in *. lia.
  - rewrite zlen_app. unfold zlen at 2. rewrite length_replicate. lia.
Qed.

Context (n : Z) (action lookahead : list Z) (Har : arrays n action lookahead).

(** what is found for a symbol at an offset *)
Definition row (o t : Z) (r : option Z) : Prop :=
  match r with
  | Some a => tab lookahead (o + t) = Ok t ∧ tab action (o + t) = Ok a ∧ 0 ≤ o + t < n
  | None => ∃ x, tab lookahead (o + t) = Ok x ∧ x ≠ t
  end.
Lemma row_in b o tx t a :
  (b, o, to_la tx) ∈ G → (t, a) ∈ tx → 0 ≤ a → row o t (Some a).
Proof.
  intros HG Hin Ha. assert (mkLA t a ∈ to_la tx) as Hla by (apply list_elem_of_fmap; by exists (t, a)).
  destruct (t_in _ _ Hok _ _ _ _ HG Hla) as [Hat Hlt]. cbn [la_lookahead] in *. pose proof (act_at_lt _ _ _ Hat) as Hr.
  destruct (t_wf _ _ Hok _ _ _ HG) as (_&_&Hw). specialize (Hw _ Hla). cbn [la_lookahead] in Hw. pose proof (t_syms _ _ Hok).
  assert (0 ≤ t) by (destruct b; lia). assert (o + t < n) as Hn.
  { destruct (Z.lt_ge_cases (o + t) n) as [?|Hge]; [done|]. pose proof (ar_tail _ _ _ Har _ _ Hat Hge). cbn in *. lia. }
  split; [|split; [|lia]].
  - rewrite (ar_look _ _ _ Har (o + t) _ ltac:(lia) Hat). cbn [la_lookahead]. by rewrite (proj2 (Z.ltb_ge _ _)).
  - by rewrite (ar_action _ _ _ Har (o + t) _ ltac:(lia) Hat).
Qed.
Lemma row_shift o tx t :
  (true, o, to_la tx) ∈ G → (∀ l a, (l, a) ∈ tx → 0 ≤ a) → 0 ≤ t < lem_nterminal lem → row o t (assoc t tx) ∧ 0 ≤ o < n.
Proof.
  intros HG Hpos Ht. destruct (t_safe _ _ Hok _ _ HG) as (Ho&Hon&Hsafe). rewrite Hnt in *.
  assert (o < n) as Hlt.
  { destruct (t_wf _ _ Hok _ _ _ HG) as (Hne&_&Hw). destruct tx as [|[l a] tx]; [done|].
    destruct (row_in true o ((l, a) :: tx) l a HG) as (_&_&?); [by left|apply (Hpos l); by left|].
    specialize (Hw (mkLA l a) ltac:(by left)). cbn in Hw. lia. }
  split; [|lia]. pose proof (assoc_spec t tx) as Ha. destruct (assoc t tx) as [a|]; [by eapply row_in; [..|eapply Hpos]|].
  destruct (act_at_ex (aAction p) (o + t)) as [e He]; [unfold nActionAlloc in Hroom; lia|].
  exists (if la_lookahead e <? 0 then lem_nsymbol lem else la_lookahead e). split; [apply (ar_look _ _ _ Har); [lia|done]|].
  pose proof (t_syms _ _ Hok). destruct (Z.ltb_spec (la_lookahead e) 0); [lia|]. intros E.
  pose proof (Hsafe t e Ht He E) as ([l a]&->&Hin)%list_elem_of_fmap. cbn in E. subst l. apply Ha, list_elem_of_fmap. by exists (t, a).
Qed.
Lemma row_none t : 0 ≤ t < lem_nterminal lem → row n t None.
Proof.
  intros Ht. pose proof (t_syms _ _ Hok). pose proof (ar_n _ _ _ Har). destruct (Z.lt_ge_cases (n + t) (nAction p)) as [Hlt|Hge].
  - destruct (act_at_ex (aAction p) (n + t)) as [e He]; [unfold nActionAlloc in Hroom; lia|].
    eexists. split; [apply (ar_look _ _ _ Har); [lia|done]|]. pose proof (ar_tail _ _ _ Har _ _ He ltac:(lia)). rewrite (proj2 (Z.ltb_lt _ _)) by done. lia.
  - exists (lem_nterminal lem). split; [apply (ar_pad _ _ _ Har); lia|lia].
Qed.
End Rows.

(** *** The offsets of the states *)

Lemma trim_offsets_spec f h l :
  ∃ pre, l = pre ++ trim_offsets f h l ∧ Forall (λ s, f (stt (h_states h) s) = NO_OFFSET) pre.
Proof.
  induction l as [|s l (pre&E&Hp)]; [by exists []|]. cbn [trim_offsets].
  destruct (Z.eqb_spec (f (stt (h_states h) s)) NO_OFFSET); [|by exists []]. exists (s :: pre). split; [cbn; by f_equal|by constructor].
Qed.
Lemma trim_offsets_head f h l : match trim_offsets f h l with [] => True | s :: _ => f (stt (h_states h) s) ≠ NO_OFFSET end.
Proof. induction l as [|s l IH]; [done|]. cbn [trim_offsets]. by destruct (Z.eqb_spec (f (stt (h_states h) s)) NO_OFFSET). Qed.
Lemma offset_states_spec f lem h :
  (∀ k s, Z.of_nat k < zlen (offset_states f lem h) → emitted_states lem !! k = Some s → offset_states f lem h !! k = Some s) ∧
  (∀ k s, emitted_states lem !! k = Some s → f (stt (h_states h) s) ≠ NO_OFFSET → Z.of_nat k < zlen (offset_states f lem h)).
Proof.
  unfold offset_states. destruct (trim_offsets_spec f h (reverse (emitted_states lem))) as (pre&E&Hp). set (l := trim_offsets _ _ _) in *.
  assert (emitted_states lem = reverse l ++ reverse pre) as Ee.
  { rewrite <- reverse_app, <- E. by rewrite reverse_involutive. }
  split.
  - intros k s Hk. rewrite Ee, lookup_app_l; [done|]. unfold zlen in Hk. lia.
  - intros k s Hk Hf. destruct (Z.lt_ge_cases (Z.of_nat k) (zlen (reverse l))) as [|Hge]; [done|]. exfalso. apply Hf.
    rewrite Ee, lookup_app_r in Hk by (unfold zlen in Hge; lia). apply list_elem_of_lookup_2 in Hk. rewrite elem_of_reverse in Hk.
    rewrite Forall_forall in Hp. by apply Hp.
Qed.
Lemma offset_states_last f lem h k :
  Z.of_nat k < zlen (offset_states f lem h) → ∃ k' s, (k ≤ k')%nat ∧ emitted_states lem !! k' = Some s ∧ f (stt (h_states h) s) ≠ NO_OFFSET.
Proof.
  unfold offset_states. destruct (trim_offsets_spec f h (reverse (emitted_states lem))) as (pre&E&_).
  pose proof (trim_offsets_head f h (reverse (emitted_states lem))) as Hh. set (l := trim_offsets _ _ _) in *. destruct l as [|s l]; [unfold zlen; cbn; lia|]. intros Hk.
  assert (emitted_states lem = (reverse l ++ [s]) ++ reverse pre) as Ee.
  { rewrite <- reverse_cons, <- reverse_app, <- E. by rewrite reverse_involutive. }
  exists (length l), s. rewrite reverse_cons in Hk. unfold zlen in Hk. rewrite length_app, length_reverse in Hk. cbn [length] in Hk.
  split; [lia|]. split; [|done]. rewrite Ee, lookup_app_l by (rewrite length_app, length_reverse; cbn [length]; lia). rewrite lookup_app_r by (rewrite length_reverse; lia).
  by rewrite length_reverse, Nat.sub_diag.
Qed.
Lemma offset_table_at f none lem h k s :
  emitted_states lem !! k = Some s → Z.of_nat k < zlen (offset_states f lem h) →
  tab (offset_table f none h (offset_states f lem h)) (Z.of_nat k) = Ok (if f (stt (h_states h) s) =? NO_OFFSET then none else f (stt (h_states h) s)).
Proof.
  intros Hk Hlt. apply tab_Ok. split; [lia|]. rewrite Nat2Z.id. unfold offset_table. rewrite list_lookup_fmap.
  by rewrite (proj1 (offset_states_spec f lem h) k s Hlt Hk).
Qed.

(** ** What the parser is to do *)

Section Choice.
Context (has_fallback : bool) (lem : lemon) (h : heap).

(** the action of a state on a symbol, in its list of actions *)
Definition state_action (isTkn : bool) (s : nat) (t : Z) : option Z := assoc t (the_set lem h isTkn s).
Definition default_action (s : nat) : Z :=
  let d := stp_iDfltReduce (stt (h_states h) s) in if d <? 0 then lem_errAction lem else d + lem_minReduce lem.
(** without an action for the token: the action for the wildcard, or the default *)
Definition no_action (s : nat) (t : Z) : Z :=
  match lem_wildcard lem with
  | Some w =>
      if 0 <? t then default (default_action s) (state_action true s (sp_index (sym (h_syms h) w))) else default_action s
  | None => default_action s
  end.
Definition fallback_token (t : Z) : option Z :=
  if has_fallback then
    sp ← lem_symbols lem !! Z.to_nat t; f ← sp_fallback (sym (h_syms h) sp); Some (sp_index (sym (h_syms h) f))
  else None.
Definition shift_choice (s : nat) (t : Z) : Z :=
  match state_action true s t with
  | Some a => a
  | None =>
      match fallback_token t with
      | Some f => default (no_action s f) (state_action true s f)
      | None => no_action s t
      end
  end.
(** fallbacks are tokens without fallback, and the wildcard is a token *)
Record tokens_ready : Prop := {
  tr_syms : lem_nterminal lem ≤ zlen (lem_symbols lem);
  tr_fallback : ∀ t f, 0 ≤ t < lem_nterminal lem → fallback_token t = Some f → 0 < f < lem_nterminal lem ∧ fallback_token f = None;
  tr_wildcard : ∀ w, lem_wildcard lem = Some w → 0 ≤ sp_index (sym (h_syms h) w) < lem_nterminal lem;
}.
End Choice.

Lemma fallback_table_at lem h t :
  lem_nterminal lem ≤ zlen (lem_symbols lem) → 0 ≤ t < lem_nterminal lem →
  tab (fallback_table lem h) t = Ok (default 0 (fallback_token true lem h t)).
Proof.
  intros Hl Ht. apply tab_Ok. split; [lia|]. unfold fallback_table, fallback_token. rewrite list_lookup_fmap, lookup_take_lt by lia.
  destruct (lookup_lt_is_Some_2 (lem_symbols lem) (Z.to_nat t)) as [sp Hsp]; [unfold zlen in Hl; lia|]. rewrite Hsp. cbn.
  by destruct (sp_fallback (sym (h_syms h) sp)).
Qed.

Section Find.
Context (has_fallback : bool) (lem : lemon) (h : heap) (Y : yytables) (n : Z) (s k : nat) (o : Z).
Context (Hready : tokens_ready has_fallback lem h).
Context (Hofst : tab (yy_shift_ofst Y) (Z.of_nat k) = Ok o) (Ho : 0 ≤ o ≤ n) (Hn : YY_ACTTAB_COUNT Y = n).
Context (Hntok : YYNTOKEN Y = lem_nterminal lem) (Hnocode : YYNOCODE Y = lem_nsymbol lem) (Hsyms : lem_nterminal lem < lem_nsymbol lem).
Context (Hlen : lem_nterminal lem + n ≤ zlen (yy_lookahead Y)).
Context (Hrow : ∀ t, 0 ≤ t < lem_nterminal lem → row n (yy_action Y) (yy_lookahead Y) o t (state_action lem h true s t)).
Context (Hdef : tab (yy_default Y) (Z.of_nat k) = Ok (default_action lem h s)).
Context (Hwild : YYWILDCARD Y = (λ w, sp_index (sym (h_syms h) w)) <$> lem_wildcard lem).
Context (Hfall : yyFallback Y = if has_fallback then Some (fallback_table lem h) else None).

Lemma find_wild t :
  0 ≤ t < lem_nterminal lem →
  match YYWILDCARD Y with
  | Some w =>
      let j := o + t - t + w in
      lj ← tab (yy_lookahead Y) j;
      if (lj =? w) && (0 <? t) then tab (yy_action Y) j else tab (yy_default Y) (Z.of_nat k)
  | None => tab (yy_default Y) (Z.of_nat k)
  end = Ok (no_action lem h s t).
Proof.
  intros Ht. rewrite Hwild, Hdef. unfold no_action. destruct (lem_wildcard lem) as [w|] eqn:Ew; cbn [fmap option_fmap option_map]; [|done].
  set (iw := sp_index (sym (h_syms h) w)). cbn zeta. replace (o + t - t + iw) with (o + iw) by lia.
  pose proof (Hrow iw (tr_wildcard _ _ _ Hready w Ew)) as Hw. destruct (state_action lem h true s iw) as [a|]; cbn [row default from_option id] in *.
  - destruct Hw as (->&->&_). cbn [mbind res_bind]. rewrite Z.eqb_refl. by destruct (0 <? t).
  - destruct Hw as (x&->&Hx). cbn [mbind res_bind]. rewrite (proj2 (Z.eqb_neq _ _)) by done. by destruct (0 <? t).
Qed.
Lemma find_loop_ok fuel t :
  0 ≤ t < lem_nterminal lem → (if fallback_token has_fallback lem h t is Some _ then 2 ≤ fuel else 1 ≤ fuel)%nat →
  yy_find_shift_action_loop Y fuel t (Z.of_nat k) = Ok (shift_choice has_fallback lem h s t).
Proof.
  revert t. induction fuel as [|fuel IH]; intros t Ht Hf; [destruct (fallback_token _ _ _ _); lia|]. cbn [yy_find_shift_action_loop]. rewrite Hofst. cbn [mbind res_bind].
  unfold assert. rewrite (proj2 (Z.leb_le 0 o)), (proj2 (Z.leb_le o _)), (proj2 (Z.leb_le (o + _) _)), (proj2 (Z.eqb_neq t (YYNOCODE Y))), (proj2 (Z.ltb_lt t (YYNTOKEN Y))) by lia.
  cbn [mbind res_bind negb]. unfold shift_choice. pose proof (Hrow t Ht) as Hr. destruct (state_action lem h true s t) as [a|] eqn:Ea; cbn [row] in Hr.
  { destruct Hr as (->&Ha&_). cbn [mbind res_bind]. by rewrite Z.eqb_refl. }
  destruct Hr as (x&->&Hx). cbn [mbind res_bind]. rewrite (proj2 (Z.eqb_neq _ _)) by done.
  pose proof (find_wild t Ht) as Hw. cbn zeta in Hw. rewrite Hw, Hfall. pose proof (tr_fallback _ _ _ Hready t) as Hfb.
  assert (has_fallback = false → fallback_token has_fallback lem h t = None) as Hoff by (by intros ->).
  destruct has_fallback; [|by rewrite Hoff]. rewrite fallback_table_at by (done || apply Hready). cbn [mbind res_bind].
  destruct (fallback_token true lem h t) as [f|] eqn:Ef; cbn [default from_option id]; [|done].
  destruct (Hfb f Ht eq_refl) as [Hfr Hff]. rewrite (proj2 (Z.eqb_neq f 0)) by lia. cbn [negb].
  rewrite fallback_table_at by ((apply Hready) || lia). rewrite Hff. cbn [mbind res_bind default from_option id]. rewrite Z.eqb_refl. cbn [mbind res_bind].
  rewrite IH; [|lia|rewrite Hff; lia]. unfold shift_choice. rewrite Hff. by destruct (state_action lem h true s f).
Qed.
End Find.

(** ** The generated tables *)

Lemma mark_does_ok l : ∀ rs,
  (∀ a, a ∈ l → ap_type a = REDUCE ∨ ap_type a = SHIFTREDUCE → ∃ rp, ap_x a = XRule rp) → is_Ok (mark_does l rs).
Proof.
  induction l as [|a l IH]; intros rs Hl; cbn [mark_does]; [by eexists|].
  destruct (bool_decide (ap_type a = REDUCE) || bool_decide (ap_type a = SHIFTREDUCE)) eqn:E; [|apply IH; intros; apply Hl; [by right|done]].
  apply orb_true_iff in E. rewrite !bool_decide_eq_true in E. destruct (Hl a ltac:(by left) E) as [rp ->].
  apply IH. intros; apply Hl; [by right|done].
Qed.
Lemma compute_rule lem h a : is_Ok (compute_action lem h a) → ap_type a = REDUCE ∨ ap_type a = SHIFTREDUCE → ∃ rp, ap_x a = XRule rp.
Proof. intros [v Hv] Ht. unfold compute_action in Hv. destruct (ap_x a) as [|rp|]; [|by exists rp|]; destruct Ht as [E|E]; rewrite E in Hv; by cbn in Hv. Qed.
Lemma mark_doesReduce_ok lem h :
  (∀ s a, s ∈ emitted_states lem → a ∈ stp_ap (stt (h_states h) s) → is_Ok (compute_action lem h a)) → is_Ok (mark_doesReduce lem h).
Proof.
  intros Hc. unfold mark_doesReduce. generalize (foldl (λ rs rp, alter (upd_doesReduce false) rp rs) (h_rules h) (lem_rule lem)).
  revert Hc. generalize (emitted_states lem). intros sts Hc rs0.
  assert (is_Ok (mark_states h sts rs0)) as [rs ->]; [|by eexists]. revert rs0. induction sts as [|s sts IH]; intros rs0; cbn [mark_states]; [by eexists|].
  destruct (mark_does_ok (stp_ap (stt (h_states h) s)) rs0) as [rs ->].
  { intros a Ha. apply (compute_rule lem h). apply (Hc s a); [by left|done]. }
  apply IH. intros. eapply Hc; [by right|done].
Qed.
Lemma set_action_pos lem h b s l a : (l, a) ∈ the_set lem h b s → 0 ≤ a.
Proof.
  intros (x&[= -> ->]&[[He _] _]%list_elem_of_filter)%list_elem_of_fmap. unfold emitted in He. unfold act_value.
  destruct (compute_action lem h x); [by apply Z.leb_le|done].
Qed.
Lemma default_table_at lem h k s :
  emitted_states lem !! k = Some s → tab (default_table lem h) (Z.of_nat k) = Ok (default_action lem h s).
Proof. intros Hk. apply tab_Ok. split; [lia|]. rewrite Nat2Z.id. unfold default_table. by rewrite list_lookup_fmap, Hk. Qed.

Section Generated.
Context (stackdepth : Z) (norecovery trackmax has_fallback : bool) (lem : lemon) (h : heap) (pl : placing).
Context (G : list (bool * Z * list lookahead_action)) (n : Z) (action look : list Z).
Context (Hsyms : 0 ≤ lem_nterminal lem < lem_nsymbol lem) (Hbig : lem_nsymbol lem ≤ INT32_MAX) (Hsame : same_lists h (pl_heap pl)) (Hok : tab_ok (pl_tab pl) G).
Context (Hnt : nterminal (pl_tab pl) = lem_nterminal lem) (Hns : nsymbol (pl_tab pl) = lem_nsymbol lem) (Hroom : nAction (pl_tab pl) ≤ nActionAlloc (pl_tab pl)).
Context (Hsets : ∀ s b, s ∈ emitted_states lem →
  if decide (the_set lem h b s = []) then ofs (pl_heap pl) s b = NO_OFFSET else (b, ofs (pl_heap pl) s b, to_la (the_set lem h b s)) ∈ G).
Context (Har : arrays lem (pl_tab pl) n action look).
Notation Y := (tables_from stackdepth norecovery trackmax has_fallback lem pl n action look).

Lemma placed_offset s b : s ∈ emitted_states lem → the_set lem h b s ≠ [] → ofs (pl_heap pl) s b ≠ NO_OFFSET.
Proof using Hsyms Hbig Hok Hnt Hns Hsets.
  intros Hs Hne E. pose proof (Hsets s b Hs) as Hin. rewrite decide_False in Hin by done.
  pose proof (t_wf _ _ Hok _ _ _ Hin) as (_&_&Hw). destruct (the_set lem h b s) as [|[l a] tx] eqn:Etx; [done|].
  destruct (t_in _ _ Hok _ _ _ (mkLA l a) Hin ltac:(by left)) as [Hat _]. apply act_at_lt in Hat. cbn in Hat.
  specialize (Hw (mkLA l a) ltac:(by left)). cbn in Hw. rewrite Hnt, Hns in Hw. rewrite E in Hat. unfold NO_OFFSET, INT32_MAX in *. destruct b; lia.
Qed.
Lemma state_action_in b s t a : state_action lem h b s t = Some a → (t, a) ∈ the_set lem h b s.
Proof. intros E. pose proof (assoc_spec t (the_set lem h b s)) as Hs. unfold state_action in E. by rewrite E in Hs. Qed.
Lemma state_action_offset b s t a : s ∈ emitted_states lem → state_action lem h b s t = Some a → ofs (pl_heap pl) s b ≠ NO_OFFSET.
Proof. intros Hs Ha%state_action_in. apply placed_offset; [done|]. intros E. rewrite E in Ha. by apply elem_of_nil in Ha. Qed.
(** the row of a state for the tokens *)
Lemma shift_row s t : s ∈ emitted_states lem → 0 ≤ t < lem_nterminal lem →
  let o := if ofs (pl_heap pl) s true =? NO_OFFSET then n else ofs (pl_heap pl) s true in
  0 ≤ o ≤ n ∧ row n action look o t (state_action lem h true s t).
Proof.
  intros Hs Ht o. pose proof (Hsets s true Hs) as Hin. pose proof (ar_n _ _ _ _ _ Har) as Hn. unfold o. case_decide as Hemp.
  - rewrite Hin. change (NO_OFFSET =? NO_OFFSET) with true. cbn match. split; [lia|]. unfold state_action. rewrite Hemp. by eapply row_none.
  - rewrite (proj2 (Z.eqb_neq _ _)) by (by apply placed_offset).
    destruct (row_shift lem (pl_tab pl) G Hok Hnt Hns Hroom n action look Har _ _ t Hin) as [Hr ?]; [apply set_action_pos|done|]. split; [lia|done].
Qed.

Lemma shift_found k s t :
  tokens_ready has_fallback lem h → emitted_states lem !! k = Some s → Z.of_nat k ≤ YY_SHIFT_COUNT Y → 0 ≤ t < lem_nterminal lem →
  yy_find_shift_action Y t (Z.of_nat k) = Ok (shift_choice has_fallback lem h s t).
Proof.
  intros Htok Hk Hcnt Ht. cbn [YY_SHIFT_COUNT tables_from] in Hcnt. unfold yy_find_shift_action. cbn [YY_MAX_SHIFT YY_SHIFT_COUNT tables_from].
  rewrite Z.gtb_ltb, (proj2 (Z.ltb_ge _ _)) by (apply lookup_lt_Some in Hk; unfold emitted_states in Hk; rewrite length_take in Hk; lia).
  unfold assert. rewrite (proj2 (Z.leb_le _ _)) by lia. cbn [mbind res_bind].
  pose proof (list_elem_of_lookup_2 _ _ _ Hk) as Hs. pose proof (sl_nums _ _ Hsame) as (Hsy&_&_).
  eapply (find_loop_ok has_fallback lem h Y n s k); try done.
  - cbn [yy_shift_ofst tables_from]. apply offset_table_at; [done|lia].
  - by apply (shift_row s t).
  - lia.
  - apply Har.
  - intros t' Ht'. by apply (shift_row s t').
  - cbn [yy_default tables_from]. rewrite (default_table_at _ _ k s Hk). unfold default_action. by rewrite (sl_dflt _ _ Hsame).
  - cbn [YYWILDCARD tables_from]. by rewrite Hsy.
  - cbn [yyFallback tables_from]. unfold fallback_table. by rewrite Hsy.
  - destruct (fallback_token _ _ _ _); lia.
Qed.
(** behind the last state with an offset the driver's assertion fails *)
Lemma shift_asserts k s t :
  emitted_states lem !! k = Some s → YY_SHIFT_COUNT Y < Z.of_nat k → yy_find_shift_action Y t (Z.of_nat k) = Err ExitCalled.
Proof using.
  intros Hk Hc. unfold yy_find_shift_action. set (c := YY_SHIFT_COUNT Y) in *. cbn [YY_MAX_SHIFT tables_from].
  rewrite Z.gtb_ltb, (proj2 (Z.ltb_ge _ _)) by (apply lookup_lt_Some in Hk; unfold emitted_states in Hk; rewrite length_take in Hk; lia).
  unfold assert. by rewrite (proj2 (Z.leb_gt _ _)).
Qed.
Lemma reduce_found k s t a :
  emitted_states lem !! k = Some s → state_action lem h false s t = Some a → yy_find_reduce_action Y (Z.of_nat k) t = Ok a.
Proof.
  intros Hk Hsa. pose proof (list_elem_of_lookup_2 _ _ _ Hk) as Hs. pose proof (state_action_offset _ _ _ _ Hs Hsa) as Hofs. apply state_action_in in Hsa.
  assert (Z.of_nat k < zlen (offset_states stp_iNtOfst lem (pl_heap pl))) as Hlt by (by apply (proj2 (offset_states_spec stp_iNtOfst lem (pl_heap pl)) k s Hk)).
  pose proof (Hsets s false Hs) as Hin. rewrite decide_False in Hin by (intros E; rewrite E in Hsa; by apply elem_of_nil in Hsa).
  destruct (row_in lem (pl_tab pl) G Hok n action look Har false _ _ t a Hin Hsa (set_action_pos _ _ _ _ _ _ Hsa)) as (Hl1&Ha1&Hr1).
  assert (t ≠ lem_nsymbol lem) as Htn.
  { pose proof (t_wf _ _ Hok _ _ _ Hin) as (_&_&Hw). specialize (Hw (mkLA t a)). rewrite Hns in Hw. cbn in Hw. assert (t < lem_nsymbol lem); [|lia].
    apply Hw. apply list_elem_of_fmap. by exists (t, a). }
  unfold yy_find_reduce_action. cbn [tables_from YYERRORSYMBOL YY_REDUCE_COUNT yy_reduce_ofst YYNOCODE YY_ACTTAB_COUNT yy_lookahead yy_action].
  rewrite (offset_table_at _ _ _ _ k s Hk Hlt). change (stp_iNtOfst (stt (h_states (pl_heap pl)) s)) with (ofs (pl_heap pl) s false).
  rewrite (proj2 (Z.eqb_neq (ofs _ _ _) _)) by done. cbn [mbind res_bind]. unfold assert.
  rewrite (proj2 (Z.eqb_neq t _)) by done. cbn [negb mbind res_bind]. rewrite !Hl1, !Ha1. cbn [mbind res_bind]. rewrite Z.eqb_refl. cbn [negb mbind res_bind].
  rewrite (proj2 (Z.ltb_ge (_ + _) 0)), Z.geb_leb, (proj2 (Z.leb_gt n _)), (proj2 (Z.leb_le 0 _)), (proj2 (Z.ltb_lt _ n)) by lia. cbn [orb andb mbind res_bind].
  destruct (error_symbol lem (pl_heap pl)); [|rewrite (proj2 (Z.leb_le _ _)) by lia; done].
  by rewrite Z.gtb_ltb, (proj2 (Z.ltb_ge _ _)) by lia.
Qed.
End Generated.

(** C11: the tables that are written to the generated parser, for states as [ResortStates]
    leaves them in which no symbol has two actions that are written (as a conflict resolved
    by %nonassoc can leave them), with fallbacks that are tokens without fallback and a
    wildcard that is a token. Packing them succeeds; then either the packed table counts
    more entries than it has slots (as [acttab_size_overread] shows it can) and the
    generator reads behind its array, or the tables are written. In the tables, for every
    state up to the last one that has an action for a token, the driver's search for a token
    fails no assertion, leaves no array and finds the action the state's list has for the
    token, or for its fallback, or for the wildcard, and else the default of the state; for
    the states behind it the driver's assertion on YY_SHIFT_COUNT fails. After a reduction
    the driver finds the action for the nonterminal. *)
Theorem report_tables_correct stackdepth norecovery trackmax has_fallback lem0 h :
  let lem := upd_numbers (zlen (lem_rule lem0)) lem0 in
  report_ready lem h → tokens_ready has_fallback lem h → lem_nsymbol lem ≤ INT32_MAX →
  ∃ pl, fill_table true lem h = Ok pl ∧
    if nActionAlloc (pl_tab pl) <? nAction (pl_tab pl)
    then report_tables stackdepth norecovery trackmax has_fallback true lem0 h = Err OutOfBounds
    else ∃ h' Y, report_tables stackdepth norecovery trackmax has_fallback true lem0 h = Ok (lem, h', Y) ∧
      (∀ k s t, emitted_states lem !! k = Some s → 0 ≤ t < lem_nterminal lem →
         yy_find_shift_action Y t (Z.of_nat k) =
           if Z.of_nat k <=? YY_SHIFT_COUNT Y then Ok (shift_choice has_fallback lem h s t) else Err ExitCalled) ∧
      (∀ k, Z.of_nat k ≤ YY_SHIFT_COUNT Y ↔
         ∃ k' s t a, (k ≤ k')%nat ∧ emitted_states lem !! k' = Some s ∧ state_action lem h true s t = Some a) ∧
      (∀ k s t a, emitted_states lem !! k = Some s → state_action lem h false s t = Some a → yy_find_reduce_action Y (Z.of_nat k) t = Ok a).
Proof.
  intros lem Hready Htok Hbig. unfold report_tables. fold lem. pose proof (rr_syms _ _ Hready) as Hsyms.
  destruct (fill_table_ok lem h Hready) as (pl&G&Hfill&Hsame&Hok&Hnt&Hns&Hsets). exists pl. split; [done|]. rewrite Hfill. cbn [mbind res_bind].
  destruct (mark_doesReduce_ok lem (pl_heap pl)) as [h' ->].
  { intros s a Hs Ha. rewrite (sl_ap _ _ Hsame) in Ha. rewrite (compute_action_same lem h) by apply Hsame.
    by apply (sr_acts _ _ _ (rr_states _ _ Hready s Hs)). }
  cbn [mbind res_bind]. unfold tables_of. destruct (Z.ltb_spec (nActionAlloc (pl_tab pl)) (nAction (pl_tab pl))) as [Hover|Hroom].
  { by rewrite action_size_overread. }
  destruct (arrays_ok lem (pl_tab pl) G Hok Hroom) as (n&action&look&->&Ha&Hl&Har).
  cbn [mbind res_bind]. rewrite Ha. cbn [mbind res_bind]. rewrite Hl. cbn [mbind res_bind]. eexists h', _. split; [done|].
  split; [|split; [|intros; by eapply reduce_found; eauto]].
  - intros k s t Hk Ht. destruct (Z.leb_spec (Z.of_nat k) (YY_SHIFT_COUNT (tables_from stackdepth norecovery trackmax has_fallback lem pl n action look))) as [Hc|Hc];
      [by eapply shift_found; eauto|by apply (shift_asserts _ _ _ _ _ _ _ _ _ k s)].
  - intros k. cbn [YY_SHIFT_COUNT tables_from]. rewrite Z.sub_1_r, <- Z.lt_le_pred. split.
    + intros (k'&s&Hle&Hk'&Hofs)%offset_states_last. pose proof (list_elem_of_lookup_2 _ _ _ Hk') as Hs. pose proof (Hsets s true Hs) as Hset.
      case_decide as Hemp; [done|]. destruct (the_set lem h true s) as [|[t a] tx] eqn:E; [done|].
      exists k', s, t, a. split; [done|]. split; [done|]. unfold state_action. rewrite E. cbn [assoc]. by rewrite Z.eqb_refl.
    + intros (k'&s&t&a&Hle&Hk'&Hsa). apply Z.le_lt_trans with (Z.of_nat k'); [lia|].
      apply (proj2 (offset_states_spec stp_iTknOfst lem (pl_heap pl)) k' s Hk'). apply list_elem_of_lookup_2 in Hk'.
      change (ofs (pl_heap pl) s true ≠ NO_OFFSET). by eapply (state_action_offset lem h pl).
Qed.

(** two tokens and the nonterminal of [s ::= A.]: the start state shifts [A] and accepts
    [s], the other state reduces at the end and by default *)
Definition gt_heap : heap :=
  mkHeap [symbol0; upd_index 1 symbol0; upd_index 2 symbol0; upd_index 3 symbol0] [rule0] []
    [upd_counts_state 1 1 (-1) (upd_ap [mkAction 0 1 SHIFT (XState 1) None; mkAction 1 2 ACCEPT XNull None] state0);
     upd_counts_state 1 0 0 (upd_ap [mkAction 2 0 REDUCE (XRule 0) None; mkAction 3 3 REDUCE (XRule 0) None] (upd_statenum 1 state0))].
Definition gt_lemon : lemon :=
  mkLemon [0; 1]%nat [0]%nat (Some 0%nat) 2 3 2 0 0 0 0 0 0 [0; 1; 2; 3]%nat 0 None None None 0.
Notation gt_numbered := (upd_numbers (zlen (lem_rule gt_lemon)) gt_lemon).
Lemma gt_ready : report_ready gt_numbered gt_heap.
Proof.
  assert (∀ s, s ∈ [0; 1]%nat → s = 0%nat ∨ s = 1%nat) as Hs by (intros s; rewrite !elem_of_cons, elem_of_nil; tauto).
  constructor; [vm_compute; done|apply (bool_decide_unpack _); vm_compute; exact I|intros s [->| ->]%Hs; vm_compute; lia|].
  intros s [->| ->]%Hs; (constructor; [|apply (bool_decide_unpack _); vm_compute; exact I|vm_compute; done|vm_compute; done|by intros []]).
  all: intros a [->|[->|Ha]%elem_of_cons]%elem_of_cons; [split; [by eexists|vm_compute; done]..|by apply elem_of_nil in Ha].
Qed.
Lemma gt_tokens : tokens_ready false gt_numbered gt_heap.
Proof. constructor; done. Qed.
Lemma report_tables_correct_witness :
  ∃ h' Y, report_tables 100 false false false true gt_lemon gt_heap = Ok (gt_numbered, h', Y) ∧
    yy_find_shift_action Y 1 0 = Ok 1 ∧ yy_find_shift_action Y 1 1 = Ok (YY_MIN_REDUCE Y) ∧ yy_find_reduce_action Y 0 2 = Ok (YY_ACCEPT_ACTION Y).
Proof.
  destruct (report_tables_correct 100 false false false gt_lemon gt_heap gt_ready gt_tokens) as (pl&Hpl&H).
  - vm_compute. discriminate.
  - vm_compute in Hpl. injection Hpl as <-. rewrite (proj2 (Z.ltb_ge _ _)) in H by (vm_compute; discriminate).
    destruct H as (h'&Y&H&Hshift&_&Hreduce). exists h', Y. split; [exact H|].
    assert (YY_SHIFT_COUNT Y = 1 ∧ YY_MIN_REDUCE Y = 6 ∧ YY_ACCEPT_ACTION Y = 4) as (E1&->&->) by (vm_compute in H; injection H as _ <-; split_and!; reflexivity).
    rewrite E1 in Hshift.
    split; [apply (Hshift 0%nat 0%nat 1); [reflexivity|split; reflexivity || (vm_compute; discriminate)]|].
    split; [apply (Hshift 1%nat 1%nat 1); [reflexivity|split; reflexivity || (vm_compute; discriminate)]|].
    apply (Hreduce 0%nat 0%nat 2); reflexivity.
Defined.

(** The table of the sizes has signed characters: for a rule of 200 symbols, which the
    generator takes, it says that 56 entries are to be pushed. *)
Theorem rule_size_wraps :
  rule_nrhs gt_lemon (mkHeap (h_syms gt_heap) [mk_rule 2 (replicate 200 1%nat) 0] (h_cfgs gt_heap) (h_states gt_heap)) = [56].
Proof. vm_compute. reflexivity. Qed.
