(* ===== verification/LemonEmit.v ===== *)
(** Writing the generated parser ([src/sql/lemon.c]): the stream with its line counter,
    the functions that copy the template and the code of the grammar to it, and the
    [#line] directives. What is written is a list of pieces, so that a directive can be
    told apart from text that looks like one; [lineno] is kept as the code keeps it. *)
From S2P Require Import Prelude LemonTable LemonPrintf LemonData LemonFirst LemonSymbol LemonPreproc LemonRead LemonScan LemonScanSpec.

Inductive piece := Text (s : str) | Linedir (n : Z) (file : str).
(** the stream that is written, the counter, and the lines of the template that are left *)
Record outs := mkOuts { o_out : list piece; o_lineno : Z; o_in : list str }.
Implicit Types (st : outs).
Definition linedir_text (n : Z) (file : str) : str := lit "#line " ++ print_dec n ++ [32; 34] ++ escape_name file ++ [34; 10].
Definition piece_text (p : piece) : str := match p with Text s => s | Linedir n file => linedir_text n file end.
Definition text_of (l : list piece) : str := l ≫= piece_text.

(** a step writes to the stream, or fails *)
Notation step := (outs → res outs).
Definition skip : step := Ok.
Definition andthen (f g : step) : step := λ st, st ← f st; g st.
Notation "f >>> g" := (andthen f g) (at level 62, right associativity).
Definition with_ {A} (r : res A) (f : A → step) : step := λ st, x ← r; f x st.
Fixpoint each {A} (f : A → step) (l : list A) : step := match l with [] => skip | x :: l => f x >>> each f l end.
(** [fprintf(out, s)] with [k] added to [lineno] *)
Definition write (s : str) (k : Z) : step := λ st, Ok (mkOuts (o_out st ++ [Text s]) (o_lineno st + k) (o_in st)).
Definition line (s : str) : step := write (s ++ [10]) 1.

(** ** Numbers and names *)

(** [%wd] and [%ws], and with a minus sign *)
Definition pad_left (w : nat) (s : str) : str := replicate (w - length s) 32 ++ s.
Definition pad_right (w : nat) (s : str) : str := s ++ replicate (w - length s) 32.
Definition dec (w : nat) (z : Z) : str := pad_left w (print_dec z).
Definition quoted (s : str) : str := [34] ++ s ++ [34].

(** ** The template *)

Definition LINESIZE : nat := 1000.
(** the lines as [fgets] reads them into a buffer of [LINESIZE] bytes *)
Fixpoint fgets_lines (room : nat) (acc s : str) : list str :=
  match s with
  | [] => match acc with [] => [] | _ => [acc] end
  | c :: s =>
      if c =? 10 then (acc ++ [c]) :: fgets_lines (LINESIZE - 2) [] s
      else match room with
           | O => (acc ++ [c]) :: fgets_lines (LINESIZE - 2) [] s
           | S room => fgets_lines room (acc ++ [c]) s
           end
  end.
Definition template_lines (s : str) : list str := before_nul <$> fgets_lines (LINESIZE - 2) [] s.
Definition section_end (l : str) : bool := (default 0 (l !! 0%nat) =? 37) && (default 0 (l !! 1%nat) =? 37).
(** words that begin with "Parse" begin with the name instead; [skip] characters are left out *)
Fixpoint rename (name : str) (skip : nat) (prev : option Z) (l : str) : str :=
  match l with
  | [] => []
  | c :: l' =>
      match skip with
      | S skip => rename name skip (Some c) l'
      | O =>
          if bool_decide (take 5 l = lit "Parse") && match prev with None => true | Some d => negb (ISALPHA d) end
          then name ++ rename name 4 (Some c) l' else c :: rename name 0 (Some c) l'
      end
  end.
Definition xfer_line (name : option str) (l : str) : str := match name with Some name => rename name 0 None l | None => l end.
Fixpoint xfer (name : option str) (l : list str) : list str * list str :=
  match l with
  | [] => ([], [])
  | x :: l => if section_end x then ([], l) else let '(a, b) := xfer name l in (xfer_line name x :: a, b)
  end.
Definition tplt_xfer (name : option str) : step := λ st,
  let '(ls, rest) := xfer name (o_in st) in
  Ok (mkOuts (o_out st ++ (Text <$> ls)) (o_lineno st + zlen ls) rest).
Definition tplt_skip_header : step := λ st,
  let '(ls, rest) := xfer None (o_in st) in Ok (mkOuts (o_out st) (o_lineno st + zlen ls) rest).

Section Emit.
(** [lemp->nolinenosflag], [lemp->filename] and [lemp->outname] *)
Context (nolinenos : bool) (filename outname : str).

Definition tplt_linedir (n : Z) (file : str) : step := λ st, Ok (mkOuts (o_out st ++ [Linedir n file]) (o_lineno st) (o_in st)).
Definition count_line : step := λ st, Ok (mkOuts (o_out st) (o_lineno st + 1) (o_in st)).
(** the counter goes up for the directive, which names the next line of the output *)
Definition back_to_output : step := count_line >>> λ st, tplt_linedir (o_lineno st) outname st.
(** text whose newlines are counted one by one *)
Definition write_counted (s : str) : step := write s (newlines s).

(** [prev] is the character before the string *)
Definition tplt_print (prev : option Z) (s : str) : step :=
  write_counted s >>>
  with_ (of_opt OutOfBounds (match last s with Some c => Some c | None => prev end)) (λ c,
    if negb (c =? 10) then write [10] 1 else skip) >>>
  if nolinenos then skip else back_to_output.
Definition print_text (o : option str) : step := match o with None => skip | Some s => tplt_print None s end.

(** [$$] in the code of a destructor *)
Fixpoint destructor_text (dtnum : Z) (s : str) : str :=
  match s with
  | [] => []
  | c :: s' =>
      match s' with
      | d :: s'' => if (c =? 36) && (d =? 36) then lit "(yypminor->yy" ++ print_dec dtnum ++ [41] ++ destructor_text dtnum s'' else c :: destructor_text dtnum s'
      | [] => [c]
      end
  end.
Definition destructor_body (dtnum : Z) (cp : str) : step :=
  write (destructor_text dtnum cp) (newlines cp) >>>
  write [10] 1 >>>
  (if nolinenos then skip else back_to_output) >>>
  line (lit "}").
Definition emit_destructor_code (tokendest vardest : option str) (sp : symbol) : step :=
  let body := destructor_body (sp_dtnum sp) in
  if decide (sp_type sp = TERMINAL) then
    match tokendest with None => skip | Some cp => line (lit "{") >>> body cp end
  else
    match sp_destructor sp with
    | Some cp => line (lit "{") >>> (if nolinenos then skip else count_line >>> tplt_linedir (sp_destLineno sp) filename) >>> body cp
    | None =>
        match vardest with
        | Some cp => line (lit "{") >>> body cp
        | None => λ _, Err ExitCalled
        end
    end.

Definition nonempty (o : option str) : option str := match o with Some (_ :: _) => o | _ => None end.
Definition emit_code (rp : rule) : step :=
  match nonempty (rp_codePrefix rp) with Some p => write ([123] ++ p) (newlines p) | None => skip end >>>
  match rp_code rp with
  | Some code =>
      (if nolinenos then skip else count_line >>> tplt_linedir (rp_line rp) filename) >>>
      write ([123] ++ code) (newlines code) >>>
      line (lit "}") >>>
      (if nolinenos then skip else back_to_output)
  | None => skip
  end >>>
  match nonempty (rp_codeSuffix rp) with Some p => write_counted p | None => skip end >>>
  match rp_codePrefix rp with Some _ => line (lit "}") | None => skip end.
End Emit.

(** ** The counter and the directives *)

Definition nls (l : list piece) : Z := newlines (text_of l).
Lemma nls_app a b : nls (a ++ b) = nls a + nls b.
Proof. unfold nls, text_of. by rewrite bind_app, newlines_app. Qed.
Lemma nls_text s : nls [Text s] = newlines s.
Proof. unfold nls, text_of. cbn [mbind list_bind piece_text]. by rewrite app_nil_r. Qed.
Definition one_line (s : str) : Prop := Forall (λ c, c ≠ 10) s.
Lemma escape_name_line s : one_line s → one_line (escape_name s).
Proof. induction 1 as [|c s Hc Hs IH]; [constructor|]. cbn [escape_name]. destruct (c =? 92); by repeat constructor. Qed.
Lemma print_dec_line z : one_line (print_dec z).
Proof.
  assert (∀ f v, one_line (dec_digits f v [])) as Hd.
  { intros f v. eapply Forall_impl; [apply dec_digits_digit|]. intros c Hc ->. done. }
  unfold print_dec. destruct (z <? 0); [constructor; [done|apply Hd]|]. destruct (z =? 0); [by repeat constructor|apply Hd].
Qed.
Lemma linedir_newlines n file : one_line file → nls [Linedir n file] = 1.
Proof.
  intros Hf. unfold nls, text_of. cbn [mbind list_bind piece_text]. rewrite app_nil_r. unfold linedir_text. rewrite !newlines_app.
  rewrite (newlines_none (print_dec n)) by apply print_dec_line. rewrite (newlines_none (escape_name file)) by (by apply escape_name_line). reflexivity.
Qed.

Section Keeps.
Context (filename outname : str).

(** from [st] to [st'], the counter went up by the lines that were written, and each
    directive for the output gives the line behind it *)
Definition keeps st st' : Prop :=
  ∃ new, o_out st' = o_out st ++ new ∧ o_lineno st' = o_lineno st + nls new ∧
    ∀ a n b, new = a ++ Linedir n outname :: b → n = o_lineno st + nls a + 1.
(** a line of the template *)
Definition template_line (s : str) : Prop := ∃ l, s = l ++ [10] ∧ one_line l.
Definition Keeps (f : step) : Prop :=
  ∀ st st', Forall template_line (o_in st) → f st = Ok st' → Forall template_line (o_in st') ∧ keeps st st'.

Lemma lines_refl st : keeps st st.
Proof. exists []. rewrite app_nil_r. split; [done|]. split; [change (nls []) with 0; lia|]. intros a n b E. by apply app_cons_not_nil in E. Qed.
Lemma app_cons_inv {A} (new1 new2 a b : list A) x :
  new1 ++ new2 = a ++ x :: b → (∃ b', new1 = a ++ x :: b') ∨ (∃ a', a = new1 ++ a' ∧ new2 = a' ++ x :: b).
Proof.
  intros E. destruct (decide (length a < length new1)%nat) as [Hlt|Hge].
  - left. exists (drop (S (length a)) new1). rewrite <- (take_drop (length a) new1) at 1.
    assert (take (length a) new1 = a) as Ht.
    { rewrite <- (take_app_le new1 new2) by lia. by rewrite E, take_app_length. }
    rewrite Ht. f_equal. destruct (drop (length a) new1) as [|y r] eqn:Ed; [apply (f_equal length) in Ed; rewrite length_drop in Ed; cbn in Ed; lia|].
    assert (new1 = a ++ y :: r) as En by (rewrite <- (take_drop (length a) new1), Ht, Ed; done). rewrite En in E |- *. rewrite <- app_assoc in E.
    apply app_inv_head in E. injection E as -> _. f_equal. rewrite (cons_middle x a r), app_assoc. rewrite drop_app_ge by (rewrite length_app; cbn; lia).
    rewrite length_app. cbn. by replace (S (length a) - (length a + 1))%nat with 0%nat by lia.
  - right. exists (drop (length new1) a). assert (take (length new1) a = new1) as Ht.
    { rewrite <- (take_app_le a (x :: b)) by lia. by rewrite <- E, take_app_length. }
    assert (a = new1 ++ drop (length new1) a) as Ea by (rewrite <- Ht at 1; by rewrite take_drop). split; [done|].
    rewrite Ea, <- app_assoc in E. by apply app_inv_head in E.
Qed.
Lemma lines_trans st1 st2 st3 : keeps st1 st2 → keeps st2 st3 → keeps st1 st3.
Proof.
  intros (n1&O1&L1&D1) (n2&O2&L2&D2). exists (n1 ++ n2). split; [by rewrite O2, O1, app_assoc|]. split; [rewrite nls_app; lia|].
  intros a n b [(b'&E)|(a'&->&E)]%app_cons_inv; [by eapply D1|]. rewrite nls_app. apply D2 in E. lia.
Qed.

Lemma Keeps_skip : Keeps skip.
Proof. intros st st' Hi [= <-]. split; [done|apply lines_refl]. Qed.
Lemma Keeps_andthen f g : Keeps f → Keeps g → Keeps (f >>> g).
Proof.
  intros Hf Hg st st' Hi H. unfold andthen in H. destruct (f st) as [st1|] eqn:E; [|done]. cbn in H.
  destruct (Hf st st1 Hi E) as [Hi1 K1]. destruct (Hg st1 st' Hi1 H) as [Hi2 K2]. split; [done|by eapply lines_trans].
Qed.
Lemma Keeps_with {A} (r : res A) (f : A → step) : (∀ x, r = Ok x → Keeps (f x)) → Keeps (with_ r f).
Proof. intros Hf st st' Hi H. unfold with_ in H. destruct r as [x|]; [|done]. cbn in H. by apply (Hf x eq_refl). Qed.
Lemma Keeps_each {A} (f : A → step) l : (∀ x, x ∈ l → Keeps (f x)) → Keeps (each f l).
Proof.
  induction l as [|x l IH]; intros Hf; cbn [each]; [apply Keeps_skip|]. apply Keeps_andthen; [apply Hf; by left|].
  apply IH. intros. apply Hf. by right.
Qed.
Lemma Keeps_write s k : newlines s = k → Keeps (write s k).
Proof.
  intros Hk st st' Hi [= <-]. split; [done|]. exists [Text s]. cbn [o_out o_lineno]. split; [done|].
  split; [unfold nls, text_of; cbn; rewrite app_nil_r, Hk; done|]. intros [|x [|y a]] n b [=].
Qed.
Lemma Keeps_line s : one_line s → Keeps (line s).
Proof. intros Hs. apply Keeps_write. rewrite newlines_app, (newlines_none s Hs). reflexivity. Qed.
Lemma Keeps_err e : Keeps (λ _, Err e).
Proof. by intros st st'. Qed.
Lemma Keeps_counted s : Keeps (write_counted s).
Proof. by apply Keeps_write. Qed.

Lemma Keeps_back : one_line outname → Keeps (back_to_output outname).
Proof.
  intros Ho st st' Hi [= <-]. split; [done|]. exists [Linedir (o_lineno st + 1) outname]. cbn [o_out o_lineno]. split; [done|].
  rewrite linedir_newlines by done. split; [done|]. intros [|x [|y a]] n b [=]; [|done..]. change (nls []) with 0. lia.
Qed.
Lemma Keeps_source n : one_line filename → filename ≠ outname → Keeps (count_line >>> tplt_linedir n filename).
Proof.
  intros Hf Hne st st' Hi [= <-]. split; [done|]. exists [Linedir n filename]. cbn [o_out o_lineno]. split; [done|].
  rewrite linedir_newlines by done. split; [lia|]. intros [|x [|y a]] m b [=]; done.
Qed.

Lemma rename_newlines name k prev l : one_line name → one_line (take k l) → newlines (rename name k prev l) = newlines l.
Proof.
  intros Hn. revert k prev. induction l as [|c l IH]; intros k prev Hk; [done|]. cbn [rename]. rewrite (newlines_head c l). destruct k as [|k].
  - case_bool_decide as Hp; cbn [andb]; [destruct (match prev with None => true | Some d => negb (ISALPHA d) end)|].
    + rewrite newlines_app, (newlines_none name Hn). injection Hp as -> Hl. rewrite (IH 4%nat); [done|]. rewrite Hl. vm_compute. repeat (constructor; try done).
    + rewrite newlines_head. f_equal. by apply (IH 0%nat).
    + rewrite newlines_head. f_equal. by apply (IH 0%nat).
  - cbn [take] in Hk. apply Forall_cons in Hk as [Hc Hk]. rewrite (IH k) by done. rewrite (newlines_none [c]) by (by constructor). done.
Qed.
Lemma template_line_newlines l : template_line l → newlines l = 1.
Proof. intros (x&->&Hx). by rewrite newlines_app, (newlines_none x Hx). Qed.
Lemma xfer_spec name l :
  Forall template_line l → (∀ n, name = Some n → one_line n) →
  Forall template_line (xfer name l).2 ∧ nls (Text <$> (xfer name l).1) = zlen (xfer name l).1.
Proof.
  intros Hl Hn. induction Hl as [|x l Hx Hl IH]; [done|]. cbn [xfer]. destruct (section_end x); [done|].
  destruct (xfer name l) as [a b]. destruct IH as [H1 H2]. split; [done|]. cbn [fst] in *. rewrite fmap_cons.
  change (Text (xfer_line name x) :: (Text <$> a)) with ([Text (xfer_line name x)] ++ (Text <$> a)). rewrite nls_app, H2. unfold zlen. cbn [length].
  assert (nls [Text (xfer_line name x)] = 1) as ->; [|lia]. unfold nls, text_of. cbn [mbind list_bind piece_text]. rewrite app_nil_r.
  unfold xfer_line. destruct name as [n|]; [rewrite rename_newlines; [|by apply Hn|constructor]|]; by apply template_line_newlines.
Qed.
Lemma Keeps_xfer name : (∀ n, name = Some n → one_line n) → Keeps (tplt_xfer name).
Proof.
  intros Hn st st' Hi H. unfold tplt_xfer in H. destruct (xfer_spec name (o_in st) Hi Hn) as [H1 H2]. destruct (xfer name (o_in st)) as [ls rest].
  injection H as <-. cbn [fst snd o_in] in *. split; [done|]. exists (Text <$> ls). cbn [o_out o_lineno]. split; [done|]. split; [lia|].
  intros a n b E. exfalso. assert (Linedir n outname ∈ Text <$> ls) as (x&?&_)%list_elem_of_fmap by (rewrite E; set_solver). done.
Qed.

Section Flags.
Context (nolinenos : bool) (Hf : one_line filename) (Ho : one_line outname) (Hne : filename ≠ outname).
Lemma Keeps_if (b : bool) f g : Keeps f → Keeps g → Keeps (if b then f else g).
Proof. by destruct b. Qed.
Lemma Keeps_print prev s : Keeps (tplt_print nolinenos outname prev s).
Proof.
  apply Keeps_andthen; [apply Keeps_counted|]. apply Keeps_andthen.
  - apply Keeps_with. intros c _. apply Keeps_if; [by apply Keeps_write|apply Keeps_skip].
  - apply Keeps_if; [apply Keeps_skip|by apply Keeps_back].
Qed.
Lemma Keeps_text o : Keeps (print_text nolinenos outname o).
Proof. destruct o; [apply Keeps_print|apply Keeps_skip]. Qed.
Lemma destructor_newlines n s : newlines (destructor_text n s) = newlines s.
Proof.
  remember (length s) as m eqn:Em. assert (length s ≤ m)%nat as Hm by lia. clear Em. revert s Hm. induction m as [|m IH]; intros s Hm; [by destruct s; [|cbn in Hm; lia]|].
  destruct s as [|c [|d s]]; [done|done|].
  change (destructor_text n (c :: d :: s)) with (if (c =? 36) && (d =? 36) then lit "(yypminor->yy" ++ print_dec n ++ [41] ++ destructor_text n s else c :: destructor_text n (d :: s)). destruct (Z.eqb_spec c 36) as [->|]; cbn [andb]; [destruct (Z.eqb_spec d 36) as [->|]|].
  - rewrite !newlines_app, (newlines_none (print_dec n)) by apply print_dec_line. rewrite IH by (cbn in Hm; lia). done.
  - rewrite (newlines_head 36 (destructor_text n (d :: s))), IH by (cbn in *; lia). by rewrite <- newlines_head.
  - rewrite (newlines_head c (destructor_text n (d :: s))), IH by (cbn in *; lia). by rewrite <- newlines_head.
Qed.
Lemma Keeps_brace (s : str) : s = [123] ∨ s = [125] → Keeps (line s).
Proof. intros Hs. apply Keeps_line. destruct Hs as [->| ->]; by repeat constructor. Qed.
Lemma Keeps_destructor tokendest vardest sp : Keeps (emit_destructor_code nolinenos filename outname tokendest vardest sp).
Proof.
  unfold emit_destructor_code. set (body := destructor_body _ _ _).
  assert (∀ cp, Keeps (body cp)) as Hb.
  { intros cp. apply Keeps_andthen; [apply Keeps_write, destructor_newlines|]. apply Keeps_andthen; [by apply Keeps_write|].
    apply Keeps_andthen; [apply Keeps_if; [apply Keeps_skip|by apply Keeps_back]|apply Keeps_brace; by right]. }
  assert (Keeps (line (lit "{"))) as Hl by (apply Keeps_brace; by left).
  case_decide; [destruct tokendest; [by apply Keeps_andthen|apply Keeps_skip]|].
  destruct (sp_destructor sp).
  - apply Keeps_andthen; [done|]. apply Keeps_andthen; [apply Keeps_if; [apply Keeps_skip|by apply Keeps_source]|done].
  - destruct vardest; [by apply Keeps_andthen|apply Keeps_err].
Qed.
Lemma Keeps_code rp : Keeps (emit_code nolinenos filename outname rp).
Proof.
  assert (∀ p, newlines ([123] ++ p) = newlines p) as Hb by (intros p; by rewrite newlines_app).
  apply Keeps_andthen; [destruct (nonempty _); [by apply Keeps_write|apply Keeps_skip]|].
  apply Keeps_andthen; [destruct (rp_code rp); [|apply Keeps_skip]|].
  - apply Keeps_andthen; [apply Keeps_if; [apply Keeps_skip|by apply Keeps_source]|].
    apply Keeps_andthen; [by apply Keeps_write|]. apply Keeps_andthen; [apply Keeps_brace; by right|].
    apply Keeps_if; [apply Keeps_skip|by apply Keeps_back].
  - apply Keeps_andthen; [destruct (nonempty _); [apply Keeps_counted|apply Keeps_skip]|].
    destruct (rp_codePrefix rp); [apply Keeps_brace; by right|apply Keeps_skip].
Qed.
End Flags.
End Keeps.
