(* ===== verification/LemonReport.v ===== *)
(** The generated parser ([src/sql/lemon.c], [ReportTable]): every line of the C file in the
    order in which it is written, between the sections of the template, with the counter
    that the [#line] directives take their numbers from. The tables come from
    [LemonTables], the numbers of the data types from [LemonUnion] and the code of the
    rules from [LemonCode]. The file with SQL statements, the header file and the names of
    the files are here as well. *)
From S2P Require Import Prelude LemonTable LemonPrintf LemonData LemonFirst LemonSymbol LemonActions LemonCompress LemonPreproc LemonRead LemonScan LemonScanSpec ActTab Lempar LemonUnion LemonCode LemonTables LemonEmit.

(** ** Names of files *)

(** [strrchr]: the position of the last occurrence *)
Definition strrchr (c : Z) (s : str) : option nat :=
  (λ p, (length s - 1 - p.1)%nat) <$> list_find (λ d, d = c) (reverse s).
Definition file_makename (outputDir : option str) (filename suffix : str) : str :=
  let filename := match outputDir with
                  | Some _ => match strrchr 47 filename with Some p => drop (S p) filename | None => filename end
                  | None => filename
                  end in
  let name := match outputDir with Some d => d ++ [47] | None => [] end ++ filename in
  match strrchr 46 name with Some p => take p name | None => name end ++ suffix.

(** ** Rules as text *)

Section Text.
Context (h : list symbol) (rs : list rule).

Definition rhs_text (sp : nat) : res str :=
  if decide (sp_type (sym h sp) = MULTITERMINAL) then
    match sp_subsym (sym h sp) with
    | [] => Err OutOfBounds
    | x :: l => Ok ([32] ++ sp_name (sym h x) ++ (l ≫= λ y, [124] ++ sp_name (sym h y)))
    end
  else Ok ([32] ++ sp_name (sym h sp)).
Fixpoint rhs_texts (l : list nat) : res str :=
  match l with [] => Ok [] | sp :: l => a ← rhs_text sp; b ← rhs_texts l; Ok (a ++ b) end.
Definition writeRuleText (rp : nat) : res str :=
  t ← rhs_texts (rp_rhs (rul rs rp)); Ok (sp_name (sym h (rp_lhs (rul rs rp))) ++ lit " ::=" ++ t).
(** the same text, written by another function *)
Definition rule_print (rp : nat) : res str :=
  t ← rhs_texts (rp_rhs (rul rs rp)); Ok (sp_name (sym h (rp_lhs (rul rs rp))) ++ (lit " ::=" ++ t)).
End Text.

(** ** The SQL file *)

Section Sql.
Context (lem : lemon) (h : list symbol) (rs : list rule).
Definition lines (l : list str) : str := l ≫= λ s, s ++ [10].

Definition sql_symbol (i : Z) (sp : nat) : str :=
  lit "INSERT INTO symbol(id,name,isTerminal,fallback)VALUES(" ++ print_dec i ++ lit ",'" ++ sp_name (sym h sp) ++ lit "'," ++
  (if i <? lem_nterminal lem then lit "TRUE" else lit "FALSE") ++
  match sp_fallback (sym h sp) with Some f => lit "," ++ print_dec (sp_index (sym h f)) ++ lit ");" | None => lit ",NULL);" end ++ [10].
Definition sql_rhs (i j sp : Z) : str :=
  lit "INSERT INTO rulerhs(ruleid,pos,sym)VALUES(" ++ print_dec i ++ lit "," ++ print_dec j ++ lit "," ++ print_dec sp ++ lit ");" ++ [10].
Fixpoint sql_rhss (i j : Z) (l : list nat) : str :=
  match l with
  | [] => []
  | sp :: l =>
      (if decide (sp_type (sym h sp) = MULTITERMINAL) then sp_subsym (sym h sp) ≫= λ k, sql_rhs i j (sp_index (sym h k))
       else sql_rhs i j (sp_index (sym h sp))) ++ sql_rhss i (j + 1) l
  end.
Fixpoint sql_rules (i : Z) (l : list nat) : res str :=
  match l with
  | [] => Ok []
  | rp :: l =>
      if rp_iRule (rul rs rp) =? i then
        t ← writeRuleText h rs rp;
        rest ← sql_rules (i + 1) l;
        Ok (lit "INSERT INTO rule(ruleid,lhs,txt)VALUES(" ++ print_dec i ++ lit "," ++ print_dec (sp_index (sym h (rp_lhs (rul rs rp)))) ++
            lit ",'" ++ t ++ lit "');" ++ [10] ++ sql_rhss i 0 (rp_rhs (rul rs rp)) ++ rest)
      else Err ExitCalled
  end.
Definition sql_file : res str :=
  rules ← sql_rules 0 (lem_rule lem);
  Ok (lines [lit "BEGIN;"; lit "CREATE TABLE symbol("; lit "  id INTEGER PRIMARY KEY,"; lit "  name TEXT NOT NULL,";
             lit "  isTerminal BOOLEAN NOT NULL,"; lit "  fallback INTEGER REFERENCES symbol DEFERRABLE INITIALLY DEFERRED"; lit ");"] ++
      concat (imap (λ i, sql_symbol (Z.of_nat i)) (take (Z.to_nat (lem_nsymbol lem)) (lem_symbols lem))) ++
      lines [lit "CREATE TABLE rule("; lit "  ruleid INTEGER PRIMARY KEY,"; lit "  lhs INTEGER REFERENCES symbol(id),"; lit "  txt TEXT"; lit ");";
             lit "CREATE TABLE rulerhs("; lit "  ruleid INTEGER REFERENCES rule(ruleid),"; lit "  pos INTEGER,"; lit "  sym INTEGER REFERENCES symbol(id)"; lit ");"] ++
      rules ++ lines [lit "COMMIT;"]).
End Sql.

(** ** The C file *)

Definition type_name (t : c_type) : str :=
  match t with
  | c_int => lit "int" | c_uchar => lit "unsigned char" | c_ushort => lit "unsigned short int"
  | c_uint => lit "unsigned int" | c_schar => lit "signed char" | c_short => lit "short"
  end.
Definition define (a b : str) : step := line (lit "#define " ++ a ++ [32] ++ b).
Definition define_num (a : str) (n : Z) : step := line (lit "#define " ++ a ++ print_dec n).

(** the leading blank lines of the include code are skipped: the character before the rest,
    and the rest, which begins where the line does *)
Fixpoint skip_blank (prev : option Z) (begin s : str) : option Z * str :=
  match s with
  | c :: s' => if ISSPACE c then if c =? 10 then skip_blank (Some 10) s' s' else skip_blank prev begin s' else (prev, begin)
  | [] => (prev, begin)
  end.
(** the last word of a declaration, from which [&arg[i]] begins *)
Definition last_word (s : str) : str :=
  let '(_, rest) := span_name (skip_space (reverse s)) in drop (length rest) s.

Section Report.
Context (nolinenos has_fallback mhflag : bool) (filename outname incName : str) (txt : slot → option str) (nruleWithAction : Z).
Implicit Types (lem : lemon) (h : list symbol) (rs : list rule).
Definition parser_name : str := default (lit "Parse") (txt S_name).
Definition prefix : str := default [] (txt S_tokenprefix).
Definition xfer_template : step := tplt_xfer (txt S_name).
Definition symbol_name lem h (i : Z) : res str := sp ← of_opt OutOfBounds (lem_symbols lem !! Z.to_nat i); Ok (sp_name (sym h sp)).
Definition interface : step := if mhflag then line (lit "#if INTERFACE") else skip.
Definition end_interface : step := if mhflag then line (lit "#endif") else skip.

Definition file_comment : step :=
  write (lit "/* This file is automatically generated by Lemon from input grammar" ++ [10] ++
         lit "** source file " ++ quoted filename ++ lit ". */" ++ [10]) 2.
Definition include_part : step :=
  let include := default [] (txt S_include) in
  let '(prev, include) := skip_blank None include include in
  (if default 0 (include !! 0%nat) =? 47 then tplt_skip_header else xfer_template) >>>
  tplt_print nolinenos outname prev include >>>
  (if mhflag then line (lit "#include " ++ quoted incName) else skip) >>>
  xfer_template.
(** the line of [#ifndef] is not counted *)
Definition guard lem h : step :=
  if mhflag then line (lit "#if INTERFACE")
  else with_ (symbol_name lem h 1) (λ s, write (lit "#ifndef " ++ prefix ++ s ++ [10]) 0).
Definition token_defines lem h : step :=
  each (λ i, with_ (symbol_name lem h i) (λ s, define (prefix ++ pad_right 30 s) (dec 2 i))) (seqZ 1 (lem_nterminal lem - 1)) >>>
  line (lit "#endif") >>>
  xfer_template.
Definition type_defines lem h : step :=
  define (lit "YYCODETYPE") (type_name (minimum_size_type 0 (lem_nsymbol lem)).1) >>>
  define (lit "YYNOCODE") (print_dec (lem_nsymbol lem)) >>>
  define (lit "YYACTIONTYPE") (type_name (minimum_size_type 0 (lem_maxAction lem)).1) >>>
  match lem_wildcard lem with Some w => define (lit "YYWILDCARD") (print_dec (sp_index (sym h w))) | None => skip end.
Definition union_part (fields : list (str * Z)) : step :=
  interface >>>
  define (parser_name ++ lit "TOKENTYPE") (default (lit "void*") (txt S_tokentype)) >>>
  end_interface >>>
  line (lit "typedef union {") >>>
  line (lit "  int yyinit;") >>>
  line (lit "  " ++ parser_name ++ lit "TOKENTYPE yy0;") >>>
  each (λ f, line (lit "  " ++ f.1 ++ lit " yy" ++ print_dec f.2 ++ lit ";")) fields >>>
  line (lit "} YYMINORTYPE;").
Definition arg_defines (kind : str) (o : option str) : step :=
  let d (what value : str) : step := line (lit "#define " ++ parser_name ++ kind ++ what ++ value) in
  match o with
  | Some ((_ :: _) as arg) =>
      let w := last_word arg in
      d (lit "_SDECL ") (arg ++ lit ";") >>> d (lit "_PDECL ,") arg >>> d (lit "_PARAM ,") w >>>
      d (lit "_FETCH ") (arg ++ lit "=yypParser->" ++ w ++ lit ";") >>> d (lit "_STORE yypParser->") (w ++ lit "=" ++ w ++ lit ";")
  | _ => d (lit "_SDECL") [] >>> d (lit "_PDECL") [] >>> d (lit "_PARAM") [] >>> d (lit "_FETCH") [] >>> d (lit "_STORE") []
  end.
Definition stack_part : step :=
  line (lit "#ifndef YYSTACKDEPTH") >>>
  define (lit "YYSTACKDEPTH") (default (lit "100") (txt S_stacksize)) >>>
  line (lit "#endif") >>>
  interface >>> arg_defines (lit "ARG") (txt S_arg) >>> arg_defines (lit "CTX") (txt S_ctx) >>> end_interface.
Definition error_part lem h : step :=
  match lem_errsym lem with
  | Some e =>
      if sp_useCnt (sym h e) =? 0 then skip
      else define (lit "YYERRORSYMBOL") (print_dec (sp_index (sym h e))) >>> define (lit "YYERRSYMDT") (lit "yy" ++ print_dec (sp_dtnum (sym h e)))
  | None => skip
  end >>>
  if has_fallback then line (lit "#define YYFALLBACK 1") else skip.
Definition number_defines lem : step :=
  let nrule := zlen (lem_rule lem) in
  define_num (lit "YYNSTATE             ") (lem_nxstate lem) >>>
  define_num (lit "YYNRULE              ") nrule >>>
  define_num (lit "YYNRULE_WITH_ACTION  ") nruleWithAction >>>
  define_num (lit "YYNTOKEN             ") (lem_nterminal lem) >>>
  define_num (lit "YY_MAX_SHIFT         ") (lem_nxstate lem - 1) >>>
  define_num (lit "YY_MIN_SHIFTREDUCE   ") (lem_minShiftReduce lem) >>>
  define_num (lit "YY_MAX_SHIFTREDUCE   ") (lem_minShiftReduce lem + nrule - 1) >>>
  define_num (lit "YY_ERROR_ACTION      ") (lem_errAction lem) >>>
  define_num (lit "YY_ACCEPT_ACTION     ") (lem_accAction lem) >>>
  define_num (lit "YY_NO_ACTION         ") (lem_noAction lem) >>>
  define_num (lit "YY_MIN_REDUCE        ") (lem_minReduce lem) >>>
  define_num (lit "YY_MAX_REDUCE        ") (lem_minReduce lem + nrule - 1) >>>
  xfer_template.

(** *** The arrays *)

Definition entry (i j x : Z) : step :=
  write ((if j =? 0 then lit " /* " ++ dec 5 i ++ lit " */ " else []) ++ [32] ++ dec 4 x ++ [44]) 0.
(** ten entries on a line, the last line ended by its last entry *)
Fixpoint print_array (i j : Z) (l : list Z) : step :=
  match l with
  | [] => skip
  | x :: l =>
      entry i j x >>>
      if (j =? 9) || bool_decide (l = []) then write [10] 1 >>> print_array (i + 1) 0 l else print_array (i + 1) (j + 1) l
  end.
(** the last line ended behind the loop *)
Fixpoint print_lookahead (i j : Z) (l : list Z) : step :=
  match l with
  | [] => if j >? 0 then write [10] 1 else skip
  | x :: l => entry i j x >>> if j =? 9 then write [10] 1 >>> print_lookahead (i + 1) 0 l else print_lookahead (i + 1) (j + 1) l
  end.
Definition array (type name : str) (body : step) : step :=
  line (lit "static const " ++ type ++ [32] ++ name ++ lit "[] = {") >>> body >>> line (lit "};").
Definition paren_define (a : str) (n : Z) : step := line (lit "#define " ++ a ++ lit " (" ++ print_dec n ++ lit ")").
Definition arrays_part lem (pl : placing) (Y : yytables) : step :=
  paren_define (lit "YY_ACTTAB_COUNT") (YY_ACTTAB_COUNT Y) >>>
  array (lit "YYACTIONTYPE") (lit "yy_action") (print_array 0 0 (yy_action Y)) >>>
  array (lit "YYCODETYPE") (lit "yy_lookahead") (print_lookahead 0 0 (yy_lookahead Y)) >>>
  paren_define (lit "YY_SHIFT_COUNT   ") (YY_SHIFT_COUNT Y) >>>
  paren_define (lit "YY_SHIFT_MIN     ") (mnTknOfst pl) >>>
  paren_define (lit "YY_SHIFT_MAX     ") (mxTknOfst pl) >>>
  array (type_name (minimum_size_type (mnTknOfst pl) (lem_nterminal lem + YY_ACTTAB_COUNT Y)).1) (lit "yy_shift_ofst") (print_array 0 0 (yy_shift_ofst Y)) >>>
  paren_define (lit "YY_REDUCE_COUNT") (YY_REDUCE_COUNT Y) >>>
  paren_define (lit "YY_REDUCE_MIN  ") (mnNtOfst pl) >>>
  paren_define (lit "YY_REDUCE_MAX  ") (mxNtOfst pl) >>>
  array (type_name (minimum_size_type (mnNtOfst pl - 1) (mxNtOfst pl)).1) (lit "yy_reduce_ofst") (print_array 0 0 (yy_reduce_ofst Y)) >>>
  array (lit "YYACTIONTYPE") (lit "yy_default") (print_array 0 0 (yy_default Y)) >>>
  xfer_template.

(** *** Names of tokens, symbols and rules *)

Definition fallback_line h (sp : nat) : step :=
  let name := pad_left 10 (sp_name (sym h sp)) in
  match sp_fallback (sym h sp) with
  | None => line (lit "    0,  /* " ++ name ++ lit " => nothing */")
  | Some f => line (lit "  " ++ dec 3 (sp_index (sym h f)) ++ lit ",  /* " ++ name ++ lit " => " ++ sp_name (sym h f) ++ lit " */")
  end.
Definition fallback_part lem h : step :=
  (if has_fallback then each (fallback_line h) (take (Z.to_nat (lem_nterminal lem)) (lem_symbols lem)) else skip) >>> xfer_template.
Definition grammar_symbols lem : list nat := take (Z.to_nat (lem_nsymbol lem)) (lem_symbols lem).
Definition indexed {A} (l : list A) : list (Z * A) := imap (λ i x, (Z.of_nat i, x)) l.
Definition symbol_names lem h : step :=
  each (λ p, line (lit "  /* " ++ dec 4 p.1 ++ lit " */ " ++ quoted (sp_name (sym h p.2)) ++ lit ",")) (indexed (grammar_symbols lem)) >>> xfer_template.
Definition rule_names lem h rs : step :=
  each (λ p, if rp_iRule (rul rs p.2) =? p.1 then
               with_ (writeRuleText h rs p.2) (λ t, line (lit " /* " ++ dec 3 p.1 ++ lit " */ " ++ quoted t ++ lit ","))
             else λ _, Err ExitCalled) (indexed (lem_rule lem)) >>> xfer_template.

(** *** Destructors *)

Definition case_line (s : symbol) : step := line (lit "    case " ++ print_dec (sp_index s) ++ lit ": /* " ++ sp_name s ++ lit " */").
Definition break_line : step := line (lit "      break;").
Definition emit_destructor (s : symbol) : step :=
  emit_destructor_code nolinenos filename outname (txt S_tokendest) (txt S_vardest) s.
(** the cases of a group of symbols below a comment *)
Definition case_group (comment : str) h (l : list nat) : step :=
  (if bool_decide (l = []) then skip else line comment) >>> each (λ sp, case_line (sym h sp)) l.
Definition token_destructors h (l : list nat) : step :=
  let tokens := filter (λ sp, sp_type (sym h sp) = TERMINAL) l in
  match txt S_tokendest with
  | None => skip
  | Some _ =>
      case_group (lit "      /* TERMINAL Destructor */") h tokens >>>
      match tokens with sp :: _ => emit_destructor (sym h sp) >>> break_line | [] => skip end
  end.
Definition default_destructors h (l : list nat) : step :=
  let others := filter (λ sp, sp_type (sym h sp) ≠ TERMINAL ∧ 0 < sp_index (sym h sp) ∧ sp_destructor (sym h sp) = None) l in
  match txt S_vardest with
  | None => skip
  | Some _ =>
      case_group (lit "      /* Default NON-TERMINAL Destructor */") h others >>>
      match last others with Some sp => emit_destructor (sym h sp) | None => skip end >>>
      break_line
  end.
(** the symbols with a destructor of their own; those with the same one share a case and
    are marked by a line number of -1 *)
Definition same_destructor h (sp sp2 : nat) : Prop :=
  sp_type (sym h sp2) ≠ TERMINAL ∧ sp_destructor (sym h sp2) = sp_destructor (sym h sp) ∧ sp_dtnum (sym h sp2) = sp_dtnum (sym h sp).
#[local] Instance same_destructor_dec h sp sp2 : Decision (same_destructor h sp sp2).
Proof. unfold same_destructor. apply _. Defined.
Fixpoint own_destructors (l : list nat) h : step :=
  match l with
  | [] => skip
  | sp :: l =>
      let s := sym h sp in
      match sp_destructor s with
      | None => own_destructors l h
      | Some _ =>
          if bool_decide (sp_type s = TERMINAL) || (sp_destLineno s <? 0) then own_destructors l h
          else
            let dups := filter (same_destructor h sp) l in
            case_line s >>> each (λ sp2, case_line (sym h sp2)) dups >>>
            emit_destructor s >>> break_line >>>
            own_destructors l (foldr (λ sp2 h, alter (set_destLineno (-1)) sp2 h) h dups)
      end
  end.
Definition destructor_part lem h : step :=
  let l := grammar_symbols lem in
  token_destructors h l >>> default_destructors h l >>> own_destructors l h >>> xfer_template >>>
  print_text nolinenos outname (txt S_overflow) >>> xfer_template.

(** *** Rules *)

Definition rule_info (value : Z → nat → str) lem h rs : step :=
  each (λ p, with_ (rule_print h rs p.2) (λ t, line (lit "  " ++ value p.1 p.2 ++ lit ",  /* (" ++ print_dec p.1 ++ lit ") " ++ t ++ lit " */")))
    (indexed (lem_rule lem)) >>> xfer_template.
Definition rule_info_part lem h rs : step :=
  rule_info (λ _ rp, dec 4 (sp_index (sym h (rp_lhs (rul rs rp))))) lem h rs >>>
  rule_info (λ _ rp, dec 3 (- nrhs (rul rs rp))) lem h rs.
(** the code of all rules: the rules, the errors and how many need [yylhsminor] *)
Fixpoint translate_all (l : list nat) h rs (errorcnt i : Z) : res (list rule * Z * Z) :=
  match l with
  | [] => Ok (rs, errorcnt, i)
  | rp :: l =>
      let* (r, errorcnt, minor) := translate_code (txt S_tokendest) (txt S_vardest) h (rul rs rp) errorcnt in
      translate_all l h (alter (λ _, r) rp rs) errorcnt (i + if minor then 1 else 0)
  end.
Definition upd_codeEmitted (r : rule) : rule :=
  mkRule (rp_lhs r) (rp_lhsalias r) (rp_lhsStart r) (rp_ruleline r) (rp_rhs r) (rp_rhsalias r) (rp_line r) (rp_code r)
    (rp_codePrefix r) (rp_codeSuffix r) (rp_precsym r) (rp_index r) (rp_iRule r) (rp_noCode r) true
    (rp_canReduce r) (rp_doesReduce r) (rp_neverReduce r).
(** equal texts are the same string, as all of them are kept by [Strsafe] *)
Definition same_code (r r2 : rule) : Prop :=
  rp_code r2 = rp_code r ∧ rp_codePrefix r2 = rp_codePrefix r ∧ rp_codeSuffix r2 = rp_codeSuffix r.
#[local] Instance same_code_dec r r2 : Decision (same_code r r2).
Proof. unfold same_code. apply _. Defined.
Definition rule_case h rs (tail : str) (rp : nat) : step :=
  with_ (writeRuleText h rs rp) (λ t, line (lit "      case " ++ print_dec (rp_iRule (rul rs rp)) ++ lit ": /* " ++ t ++ lit " */" ++ tail)).
(** [k] goes on with the rules whose code is written *)
Fixpoint emit_rules (l : list nat) h rs (k : list rule → step) : step :=
  match l with
  | [] => k rs
  | rp :: l =>
      let r := rul rs rp in
      if rp_codeEmitted r || rp_noCode r then emit_rules l h rs k
      else
        let dups := filter (λ rp2, same_code r (rul rs rp2)) l in
        rule_case h rs [] rp >>>
        each (λ rp2, rule_case h rs (lit " yytestcase(yyruleno==" ++ print_dec (rp_iRule (rul rs rp2)) ++ lit ");") rp2) dups >>>
        emit_code nolinenos filename outname r >>>
        line (lit "        break;") >>>
        emit_rules l h (alter upd_codeEmitted rp (foldr (λ rp2 rs, alter upd_codeEmitted rp2 rs) rs dups)) k
  end.
Definition default_rule h rs (rp : nat) : step :=
  let r := rul rs rp in
  if rp_codeEmitted r then skip
  else if negb (rp_noCode r) then λ _, Err ExitCalled
  else
    with_ (writeRuleText h rs rp) (λ t,
      let i := print_dec (rp_iRule r) in
      line (lit "      /* (" ++ i ++ lit ") " ++ t ++
        if rp_neverReduce r then lit " (NEVER REDUCES) */ assert(yyruleno!=" ++ i ++ lit ");"
        else if rp_doesReduce r then lit " */ yytestcase(yyruleno==" ++ i ++ lit ");"
        else lit " (OPTIMIZED OUT) */ assert(yyruleno!=" ++ i ++ lit ");")).
Definition reduce_part lem h rs (i : Z) : step :=
  (if i =? 0 then skip else line (lit "        YYMINORTYPE yylhsminor;")) >>>
  emit_rules (lem_rule lem) h rs (λ rs,
    line (lit "      default:") >>>
    each (default_rule h rs) (lem_rule lem) >>>
    line (lit "        break;")) >>>
  xfer_template.
Definition end_part : step :=
  print_text nolinenos outname (txt S_failure) >>> xfer_template >>>
  print_text nolinenos outname (txt S_error) >>> xfer_template >>>
  print_text nolinenos outname (txt S_accept) >>> xfer_template >>>
  print_text nolinenos outname (txt S_extracode).

(** *** The whole file *)

Definition head_part : step := file_comment >>> include_part.
Definition body_part lem (hp : heap) (fields : list (str * Z)) (pl : placing) (Y : yytables) (rs : list rule) (i : Z) : step :=
  let h := h_syms hp in
  token_defines lem h >>> type_defines lem h >>> union_part fields >>> stack_part >>> error_part lem h >>>
  number_defines lem >>> arrays_part lem pl Y >>> fallback_part lem h >>> symbol_names lem h >>> rule_names lem h (h_rules hp) >>>
  destructor_part lem h >>> rule_info_part lem h (h_rules hp) >>> reduce_part lem h rs i >>> end_part.
(** the stream, the heap and the errors; the template is a text *)
Definition report_file (stackdepth : Z) (norecovery trackmax : bool) lem (hp : heap) (template : str) : res (outs * heap * Z) :=
  let lem := upd_numbers (zlen (lem_rule lem)) lem in
  let* (h, fields) := print_stack_union (txt S_vartype) (txt S_tokentype) (lem_errsym lem) true (grammar_symbols lem) (h_syms hp) in
  let hp := upd_syms h hp in
  pl ← fill_table true lem hp;
  hp ← mark_doesReduce lem (pl_heap pl);
  Y ← tables_of stackdepth norecovery trackmax has_fallback lem pl;
  let* (rs, errorcnt, i) := translate_all (lem_rule lem) h (h_rules hp) (lem_errorcnt lem) 0 in
  out ← (head_part >>> guard lem h >>> body_part lem hp fields pl Y rs i) (mkOuts [] 1 (template_lines template));
  Ok (out, upd_rules (λ _, rs) hp, errorcnt).
End Report.

(** ** The lines of the file *)

Lemma pad_line n : one_line (replicate n 32).
Proof. apply Forall_replicate. done. Qed.
Lemma pad_left_line n s : one_line s → one_line (pad_left n s).
Proof. intros Hs. apply Forall_app. split; [apply pad_line|done]. Qed.
Lemma pad_right_line n s : one_line s → one_line (pad_right n s).
Proof. intros Hs. apply Forall_app. split; [done|apply pad_line]. Qed.
Lemma dec_line n z : one_line (dec n z).
Proof. apply pad_left_line, print_dec_line. Qed.
Lemma type_name_line t : one_line (type_name t).
Proof. destruct t; repeat (constructor; try done). Qed.
Lemma last_word_line s : one_line s → one_line (last_word s).
Proof. intros Hs. unfold last_word. destruct (span_name _). by apply Forall_drop. Qed.
Lemma one_line_app a b : one_line a → one_line b → one_line (a ++ b).
Proof. intros. by apply Forall_app. Qed.
Lemma one_line_cons c a : c ≠ 10 → one_line a → one_line (c :: a).
Proof. intros. by constructor. Qed.
Lemma quoted_line s : one_line s → one_line (quoted s).
Proof. intros. apply one_line_cons; [done|]. apply one_line_app; [done|]. by repeat constructor. Qed.
Lemma bind_line {A} (f : A → str) l : (∀ x, one_line (f x)) → one_line (l ≫= f).
Proof. intros Hf. induction l as [|x l IH]; [constructor|]. cbn [mbind list_bind]. by apply one_line_app. Qed.
Create HintDb line.
#[local] Hint Resolve quoted_line pad_left_line pad_right_line dec_line print_dec_line type_name_line last_word_line : line.
(** a text without newlines: its parts have none *)
Ltac oneline :=
  repeat lazymatch goal with
  | |- one_line (_ ++ _) => apply one_line_app
  | |- one_line (lit _) => vm_compute; repeat (constructor; [discriminate|]); constructor
  | |- one_line [] => constructor
  | |- one_line (_ :: _) => apply one_line_cons; [discriminate|]
  | |- one_line (_ ≫= _) => apply bind_line; intros
  | |- one_line (if _ then _ else _) => case_match
  | |- one_line _ => by eauto with line
  end.
(** a sequence of steps keeps the counter when each of them does *)
Ltac keep :=
  repeat lazymatch goal with
  | |- Keeps _ (_ >>> _) => apply Keeps_andthen
  | |- Keeps _ (line _) => apply Keeps_line; oneline
  | |- Keeps _ (define _ _) => apply Keeps_line; oneline
  | |- Keeps _ (define_num _ _) => apply Keeps_line; oneline
  | |- Keeps _ (paren_define _ _) => apply Keeps_line; oneline
  | |- Keeps _ skip => apply Keeps_skip
  | |- Keeps _ (each _ _) => apply Keeps_each; intros
  | |- Keeps _ (with_ _ _) => apply Keeps_with; intros
  | |- Keeps _ (if _ then _ else _) => case_match
  | |- Keeps _ (match ?o with Some _ => _ | None => _ end) => destruct o eqn:?
  | |- Keeps _ (λ _, Err _) => apply Keeps_err
  end.

Ltac in_slots := apply (bool_decide_unpack _); vm_compute; exact I.

Section Lines.
Context (nolinenos has_fallback mhflag : bool) (filename outname incName : str) (txt : slot → option str) (nruleWithAction : Z).
Context (Hf : one_line filename) (Ho : one_line outname) (Hne : filename ≠ outname) (Hinc : one_line incName).
Context (Htxt : ∀ s t, s ∈ [S_name; S_tokenprefix; S_tokentype; S_stacksize; S_arg; S_ctx] → txt s = Some t → one_line t).
Context (h : list symbol) (Hnames : ∀ sp, one_line (sp_name (sym h sp))).
Implicit Types (lem : lemon) (rs : list rule).

Lemma text_line s d : s ∈ [S_name; S_tokenprefix; S_tokentype; S_stacksize; S_arg; S_ctx] → one_line d → one_line (default d (txt s)).
Proof. intros Hs Hd. destruct (txt s) eqn:E; [by eapply Htxt|done]. Qed.
Lemma name_line : one_line (parser_name txt).
Proof. apply text_line; [in_slots|oneline]. Qed.
Lemma prefix_line : one_line (prefix txt).
Proof. apply text_line; [in_slots|oneline]. Qed.
Lemma Keeps_template : Keeps outname (xfer_template txt).
Proof. apply Keeps_xfer. intros n Hn. eapply Htxt; [|exact Hn]. in_slots. Qed.
Lemma rhs_texts_line l t : rhs_texts h l = Ok t → one_line t.
Proof.
  revert t. induction l as [|sp l IH]; intros t H; cbn [rhs_texts] in H; [injection H as <-; constructor|].
  destruct (rhs_text h sp) as [a|] eqn:Ea; [|done]. cbn in H. destruct (rhs_texts h l) as [b|] eqn:Eb; [|done]. injection H as <-.
  apply one_line_app; [|by apply IH]. unfold rhs_text in Ea. case_decide; [|injection Ea as <-; oneline].
  destruct (sp_subsym (sym h sp)) as [|x k]; [done|]. injection Ea as <-. oneline.
Qed.
Lemma rule_text_line rs rp t : writeRuleText h rs rp = Ok t → one_line t.
Proof.
  unfold writeRuleText. destruct (rhs_texts h _) as [x|] eqn:E; [|done]. intros [= <-]. apply rhs_texts_line in E. oneline.
Qed.
Lemma rule_print_line rs rp t : rule_print h rs rp = Ok t → one_line t.
Proof. apply rule_text_line. Qed.
Lemma symbol_name_line lem i t : symbol_name lem h i = Ok t → one_line t.
Proof. unfold symbol_name. destruct (lem_symbols lem !! Z.to_nat i); [|done]. by intros [= <-]. Qed.
#[local] Hint Resolve name_line prefix_line rule_text_line rule_print_line symbol_name_line : line.
#[local] Hint Extern 5 (one_line (default _ (txt _))) => apply text_line; [in_slots|oneline] : line.
Notation K := (Keeps outname).

Lemma Keeps_head : K (file_comment filename >>> (if mhflag then line (lit "#include " ++ quoted incName) else skip)).
Proof.
  keep. apply Keeps_write. unfold quoted. rewrite !newlines_app, (newlines_none filename Hf). reflexivity.
Qed.
Lemma Keeps_tokens lem : K (token_defines txt lem h).
Proof. unfold token_defines. keep. apply Keeps_template. Qed.
Lemma Keeps_types lem : K (type_defines lem h).
Proof. unfold type_defines. keep. Qed.
Lemma Keeps_union fields : (∀ f, f ∈ fields → one_line f.1) → K (union_part mhflag txt fields).
Proof. intros Hfs. unfold union_part, interface, end_interface. keep. Qed.
Lemma Keeps_args kind o : one_line kind → (∀ t, o = Some t → one_line t) → K (arg_defines txt kind o).
Proof.
  intros Hk Hof. unfold arg_defines. cbv zeta. destruct o as [[|c arg]|]; [keep| |keep].
  assert (one_line (c :: arg)) as Ha by (by apply Hof). generalize dependent (c :: arg). intros a _ Ha. keep.
Qed.
Lemma Keeps_stack : K (stack_part mhflag txt).
Proof.
  unfold stack_part, interface, end_interface. keep; apply Keeps_args; try oneline; intros t Ht; eapply Htxt; [|exact Ht| |exact Ht]; in_slots.
Qed.
Lemma Keeps_errors lem : K (error_part has_fallback lem h).
Proof. unfold error_part. keep. Qed.
Lemma Keeps_numbers lem : K (number_defines txt nruleWithAction lem).
Proof. unfold number_defines. keep. apply Keeps_template. Qed.
Lemma Keeps_entry i j x : K (entry i j x).
Proof.
  apply Keeps_write, newlines_none. change (one_line ((if j =? 0 then lit " /* " ++ dec 5 i ++ lit " */ " else []) ++ [32] ++ dec 4 x ++ [44])). oneline.
Qed.
Lemma Keeps_array l i j : K (print_array i j l).
Proof.
  revert i j. induction l as [|x l IH]; intros i j; cbn [print_array]; keep; try apply Keeps_entry; try apply IH. by apply Keeps_write.
Qed.
Lemma Keeps_look l i j : K (print_lookahead i j l).
Proof.
  revert i j. induction l as [|x l IH]; intros i j; cbn [print_lookahead]; keep; try apply Keeps_entry; try apply IH; by apply Keeps_write.
Qed.
Lemma Keeps_arrays lem pl Y : K (arrays_part txt lem pl Y).
Proof. unfold arrays_part, array. keep; try apply Keeps_array; try apply Keeps_look. apply Keeps_template. Qed.
Lemma Keeps_fallbacks lem : K (fallback_part has_fallback txt lem h).
Proof. unfold fallback_part, fallback_line. keep; apply Keeps_template. Qed.
Lemma Keeps_names lem : K (symbol_names txt lem h).
Proof. unfold symbol_names. keep. apply Keeps_template. Qed.
Lemma Keeps_rule_names lem rs : K (rule_names txt lem h rs).
Proof. unfold rule_names. keep. apply Keeps_template. Qed.
Lemma Keeps_info value lem rs : (∀ i rp, one_line (value i rp)) → K (rule_info txt value lem h rs).
Proof. intros Hv. unfold rule_info. keep. apply Keeps_template. Qed.
Lemma Keeps_info_part lem rs : K (rule_info_part txt lem h rs).
Proof. unfold rule_info_part. keep; apply Keeps_info; intros; apply dec_line. Qed.
Lemma Keeps_end : K (end_part nolinenos outname txt).
Proof. unfold end_part. keep; try apply Keeps_template; by apply Keeps_text. Qed.
End Lines.

Definition names_ok (h : list symbol) : Prop := ∀ sp, one_line (sp_name (sym h sp)).
Lemma names_alter f i h : (∀ s, sp_name (f s) = sp_name s) → names_ok h → names_ok (alter f i h).
Proof.
  intros Hf Hh sp. unfold sym. destruct (decide (sp = i)) as [->|Hne]; [|rewrite list_lookup_alter_ne by done; apply (Hh sp)].
  rewrite list_lookup_alter_eq. specialize (Hh i). unfold sym in Hh. destruct (h !! i); cbn in *; [by rewrite Hf|done].
Qed.

Section Code.
Context (nolinenos has_fallback mhflag : bool) (filename outname incName : str) (txt : slot → option str) (nruleWithAction : Z).
Context (Hf : one_line filename) (Ho : one_line outname) (Hne : filename ≠ outname) (Hinc : one_line incName).
Context (Htxt : ∀ s t, s ∈ [S_name; S_tokenprefix; S_tokentype; S_stacksize; S_arg; S_ctx] → txt s = Some t → one_line t).
Implicit Types (lem : lemon) (rs : list rule) (h : list symbol).
Notation K := (Keeps outname).

Lemma Keeps_emit_destructor s : K (emit_destructor nolinenos filename outname txt s).
Proof. by apply Keeps_destructor. Qed.
Lemma Keeps_case s : one_line (sp_name s) → K (case_line s).
Proof. intros. unfold case_line. keep. Qed.
Lemma Keeps_break : K break_line.
Proof. unfold break_line. keep. Qed.
Lemma Keeps_group c h l : one_line c → names_ok h → K (case_group c h l).
Proof. intros Hc Hh. unfold case_group. keep. apply Keeps_case, Hh. Qed.
Lemma Keeps_own l h : names_ok h → K (own_destructors nolinenos filename outname txt l h).
Proof.
  revert h. induction l as [|sp l IH]; intros h Hh; cbn [own_destructors]; [apply Keeps_skip|].
  destruct (sp_destructor (sym h sp)); [|by apply IH]. case_match; [by apply IH|]. keep.
  - apply Keeps_case, Hh.
  - apply Keeps_case, Hh.
  - apply Keeps_emit_destructor.
  - apply Keeps_break.
  - apply IH. induction (filter _ l) as [|x k IHk]; [done|]. cbn [foldr]. by apply names_alter.
Qed.
Lemma Keeps_destructors lem h : names_ok h → K (destructor_part nolinenos filename outname txt lem h).
Proof.
  intros Hh. unfold destructor_part, token_destructors, default_destructors. keep.
  all: first [by apply Keeps_group; [oneline|]|apply Keeps_break|by apply Keeps_own|by apply Keeps_template|by apply Keeps_text|apply Keeps_emit_destructor|idtac].
  case_match; keep; [apply Keeps_emit_destructor|apply Keeps_break].
Qed.
Lemma Keeps_rule_case h rs tail rp : names_ok h → one_line tail → K (rule_case h rs tail rp).
Proof. intros Hh Ht. unfold rule_case. keep. apply (rule_text_line h Hh) in H. oneline. Qed.
Lemma Keeps_rules l h rs k : names_ok h → (∀ rs, K (k rs)) → K (emit_rules nolinenos filename outname l h rs k).
Proof.
  intros Hh Hk. revert rs. induction l as [|rp l IH]; intros rs; cbn [emit_rules]; [apply Hk|]. case_match; [apply IH|]. keep.
  - apply Keeps_rule_case; [done|oneline].
  - apply Keeps_rule_case; [done|oneline].
  - by apply Keeps_code.
  - apply IH.
Qed.
Lemma Keeps_default h rs rp : names_ok h → K (default_rule h rs rp).
Proof.
  intros Hh. unfold default_rule. cbv zeta. case_match; [apply Keeps_skip|]. case_match; [apply Keeps_err|].
  apply Keeps_with. intros t Ht. apply (rule_text_line h Hh) in Ht. keep.
Qed.
Lemma Keeps_reduce lem h rs i : names_ok h → K (reduce_part nolinenos filename outname txt lem h rs i).
Proof.
  intros Hh. unfold reduce_part. keep; [|by apply Keeps_template]. apply Keeps_rules; [done|]. intros rs'. keep. by apply Keeps_default.
Qed.
Lemma Keeps_body lem hp fields pl Y rs i :
  names_ok (h_syms hp) → (∀ f, f ∈ fields → one_line f.1) →
  K (body_part nolinenos has_fallback mhflag filename outname txt nruleWithAction lem hp fields pl Y rs i).
Proof.
  intros Hh Hfs. unfold body_part. cbv zeta. set (h := h_syms hp) in *. keep.
  - by apply Keeps_tokens.
  - by apply Keeps_types.
  - by apply Keeps_union.
  - by apply Keeps_stack.
  - by apply Keeps_errors.
  - by apply Keeps_numbers.
  - by apply Keeps_arrays.
  - by apply Keeps_fallbacks.
  - by apply Keeps_names.
  - by apply Keeps_rule_names.
  - by apply Keeps_destructors.
  - by apply Keeps_info_part.
  - by apply Keeps_reduce.
  - by apply Keeps_end.
Qed.
End Code.

(** *** Names and types stay as they are *)

Definition types_ok (h : list symbol) : Prop := ∀ sp t, sp_datatype (sym h sp) = Some t → one_line t.
Lemma types_alter n i h : types_ok h → types_ok (alter (upd_dtnum n) i h).
Proof. intros Hh sp t. rewrite sym_alter. case_decide; [|apply Hh]. cbn [sp_datatype upd_dtnum]. apply Hh. Qed.
Lemma skip_space_line s : one_line s → one_line (skip_space s).
Proof. induction 1 as [|c s Hc Hs IH]; [constructor|]. cbn [skip_space]. destruct (ISSPACE c); [done|by constructor]. Qed.
Lemma std_type_line s : one_line s → one_line (std_type s).
Proof.
  intros Hs. unfold std_type, trim_end. apply Forall_reverse. apply skip_space_line. apply Forall_reverse. by apply skip_space_line.
Qed.
Definition table_lines (types : list (option str)) : Prop := ∀ i t, types !! i = Some (Some t) → one_line t.

Section Union.
Context (vartype tokentype : option str) (errsym : option nat) (Hvar : ∀ t, vartype = Some t → one_line t).
Lemma number_one_lines a m sp h types h' types' :
  number_one vartype tokentype errsym a m sp h types = Ok (h', types') → names_ok h → types_ok h → table_lines types →
  names_ok h' ∧ types_ok h' ∧ table_lines types'.
Proof.
  unfold number_one. intros H Hn Ht Hl.
  assert (∀ n, names_ok (alter (upd_dtnum n) sp h) ∧ types_ok (alter (upd_dtnum n) sp h)) as Ha.
  { intros n. split; [by apply names_alter|by apply types_alter]. }
  case_decide; [injection H as <- <-; destruct (Ha (a + 1)); done|].
  destruct (type_text vartype (sym h sp)) as [cp|] eqn:Ec; [|injection H as <- <-; destruct (Ha 0); done].
  case_match; [done|]. case_decide; [injection H as <- <-; destruct (Ha 0); done|]. case_match; [done|].
  destruct (probe _ _ _ _) as [hash|]; [|done]. injection H as <- <-. destruct (Ha (hash + 1)). split; [done|]. split; [done|].
  assert (one_line cp) as Hcp.
  { unfold type_text in Ec. case_decide; [|done]. destruct (sp_datatype (sym h sp)) eqn:Ed; [injection Ec as ->; by eapply Ht|by apply Hvar]. }
  intros i t Hi. destruct (decide (i = Z.to_nat hash)) as [->|]; [|rewrite list_lookup_insert_ne in Hi by done; by eapply Hl].
  destruct (decide (Z.to_nat hash < length types)%nat); [|rewrite list_insert_ge in Hi by lia; by eapply Hl].
  rewrite list_lookup_insert_eq in Hi by done. injection Hi as <-. by apply std_type_line.
Qed.
Lemma number_all_lines a m l : ∀ h types h' types',
  number_all vartype tokentype errsym a m l h types = Ok (h', types') → names_ok h → types_ok h → table_lines types →
  names_ok h' ∧ types_ok h' ∧ table_lines types'.
Proof.
  induction l as [|sp l IH]; intros h types h' types' H Hn Ht Hl; cbn [number_all] in H; [by injection H as <- <-|].
  destruct (number_one _ _ _ _ _ _ _ _) as [[h1 types1]|] eqn:E; [|done]. cbn in H.
  destruct (number_one_lines _ _ _ _ _ _ _ E Hn Ht Hl) as (?&?&?). by eapply IH.
Qed.
Lemma union_lines l h h' fields :
  print_stack_union vartype tokentype errsym true l h = Ok (h', fields) → names_ok h → types_ok h →
  names_ok h' ∧ ∀ f, f ∈ fields → one_line f.1.
Proof.
  unfold print_stack_union. cbn [negb]. intros H Hn Ht. destruct (number_all _ _ _ _ _ _ _ _) as [[h1 types]|] eqn:E; [|done]. cbn in H.
  injection H as <- <-. destruct (number_all_lines _ _ _ _ _ _ _ E Hn Ht) as (H1&H2&H3).
  { intros i t Hi. apply lookup_replicate in Hi as [? _]. done. }
  split; [done|]. assert (∀ f, f ∈ union_fields types → one_line f.1) as Hu.
  { intros [t n] Hf. apply union_fields_spec in Hf as [_ Hf]. by eapply H3. }
  destruct errsym; [|done]. destruct (negb _); [|done]. intros f [Hf| ->%list_elem_of_singleton]%elem_of_app; [by apply Hu|].
  repeat (constructor; [discriminate|]). constructor.
Qed.
End Union.

Lemma place_sets_syms lem l : ∀ pl pl', place_sets lem l pl = Ok pl' → h_syms (pl_heap pl') = h_syms (pl_heap pl).
Proof.
  induction l as [|ax l IH]; intros pl pl' H; cbn [place_sets] in H; [by injection H as <-|]. case_match; [|by injection H as <-].
  destruct (place_set lem ax pl) as [pl1|] eqn:E; [|done]. cbn in H. rewrite (IH _ _ H). unfold place_set in E.
  destruct (set_actions _ _ _ _); [|done]. cbn in E. destruct (acttab_add _ _ _) as [[o p]|]; [|done]. cbn in E. case_match; by injection E as <-.
Qed.
Lemma fill_table_syms lem hp pl : fill_table true lem hp = Ok pl → h_syms (pl_heap pl) = h_syms hp.
Proof. unfold fill_table. cbn [negb]. case_match; [|done]. by intros Hp%place_sets_syms. Qed.
Lemma mark_syms lem hp hp' : mark_doesReduce lem hp = Ok hp' → h_syms hp' = h_syms hp.
Proof. unfold mark_doesReduce. destruct (mark_states _ _ _); [|done]. by intros [= <-]. Qed.

Section Directives.
Context (nolinenos has_fallback mhflag : bool) (filename outname incName : str) (txt : slot → option str) (nruleWithAction : Z).

(** the texts that are put into single lines have no newline; the output is not the input *)
Record texts_ok : Prop := {
  tx_file : one_line filename;
  tx_out : one_line outname;
  tx_inc : one_line incName;
  tx_differ : filename ≠ outname;
  tx_txt : ∀ s t, s ∈ [S_name; S_tokenprefix; S_tokentype; S_stacksize; S_arg; S_ctx] → txt s = Some t → one_line t;
  tx_var : ∀ t, txt S_vartype = Some t → one_line t;
}.
(** the lines of the template that are left out when the include code begins with a comment *)
Definition skipped_lines (template : str) : Z :=
  let include := default [] (txt S_include) in
  if default 0 ((skip_blank None include include).2 !! 0%nat) =? 47 then zlen (xfer None (template_lines template)).1 else 0.

(** the counter and all directives are too large by [k] *)
Definition exact (k : Z) (st : outs) : Prop :=
  o_lineno st = 1 + nls (o_out st) + k ∧ ∀ a n b, o_out st = a ++ Linedir n outname :: b → n = nls a + 2 + k.
Lemma exact_keeps k st st' : exact k st → keeps outname st st' → exact k st'.
Proof.
  intros [Hl Hd] (new&Ho&Hl'&Hd'). split; [rewrite Ho, nls_app; lia|]. rewrite Ho. intros a n b [(b'&E)|(a'&->&E)]%app_cons_inv.
  - by apply (Hd a n b').
  - rewrite nls_app. apply Hd' in E. lia.
Qed.

Lemma head_lines template st :
  texts_ok → Forall template_line (template_lines template) →
  head_part nolinenos mhflag filename outname incName txt (mkOuts [] 1 (template_lines template)) = Ok st →
  Forall template_line (o_in st) ∧ exact (skipped_lines template) st.
Proof.
  intros [Hf Ho Hinc Hne Htxt _] Htl Hst. unfold head_part, andthen in Hst. unfold file_comment, write in Hst. cbn [mbind res_bind o_out o_lineno o_in app] in Hst.
  set (c := Text _) in Hst.
  assert (nls [c] = 2) as Hc.
  { unfold c. rewrite nls_text, newlines_app, (newlines_head 10), !newlines_app. unfold quoted. rewrite !newlines_app, (newlines_none filename Hf). reflexivity. }
  assert (∀ k l, o_lineno (mkOuts [c] k l) = 3 + (k - 3) → exact (k - 3) (mkOuts [c] k l)) as Hex.
  { intros k l _. split; cbn [o_lineno o_out]; [lia|]. intros [|x [|y a]] n b [=]. }
  unfold include_part in Hst. unfold skipped_lines. cbv zeta in Hst |- *.
  destruct (skip_blank None (default [] (txt S_include)) (default [] (txt S_include))) as [prev include]. cbn [snd].
  set (rest := tplt_print nolinenos outname prev include >>> _) in Hst.
  assert (Keeps outname rest) as Hrest.
  { apply Keeps_andthen; [by apply Keeps_print|]. apply Keeps_andthen; [|by apply Keeps_template]. apply Keeps_if; [apply Keeps_line; oneline|apply Keeps_skip]. }
  destruct (default 0 (include !! 0%nat) =? 47).
  - unfold andthen in Hst. unfold tplt_skip_header in Hst at 1. cbn [o_in] in Hst.
    destruct (xfer_spec None (template_lines template) Htl) as [Hx _]; [done|]. destruct (xfer None (template_lines template)) as [ls r] eqn:Ex. cbn [fst snd] in *.
    cbn [mbind res_bind o_out o_lineno] in Hst. destruct (Hrest (mkOuts [c] (1 + 2 + zlen ls) r) st Hx Hst) as [Hi Hk]. split; [done|].
    eapply exact_keeps; [|exact Hk]. replace (zlen ls) with (1 + 2 + zlen ls - 3) at 1 by lia. apply Hex. cbn [o_lineno]. lia.
  - unfold andthen in Hst at 1. destruct (xfer_template txt _) as [st1|] eqn:Ex; [|done]. cbn [mbind res_bind] in Hst.
    destruct (Keeps_template outname txt Htxt (mkOuts [c] (1 + 2) (template_lines template)) st1 Htl Ex) as [Hi1 Hk1]. destruct (Hrest _ _ Hi1 Hst) as [Hi Hk]. split; [done|].
    eapply exact_keeps; [|exact Hk]. eapply exact_keeps; [|exact Hk1]. apply (Hex 3). done.
Qed.

(** C12: the line directives of a generated parser that is written, when the texts that are
    put into one line have no newline (the file names, the names of symbols, %name,
    %token_prefix, %token_type, %default_type, %type, %stack_size, %extra_argument and
    %extra_context: with one of several lines the count is wrong,
    [multiline_type_uncounted]), the output file is not the grammar file, and each line of
    the template ends with a newline and fits the line buffer: each directive that leads
    back to the output gives the number of the line behind it, plus the lines of the
    template that were left out; behind the guard of the token codes, which is not counted
    unless makeheaders output is written, one less. Code of any number of lines (%include,
    %code, %syntax_error, destructors, the code of rules) is counted exactly. *)
Theorem report_lines_correct stackdepth norecovery trackmax lem hp template out hp' errorcnt :
  texts_ok → names_ok (h_syms hp) → types_ok (h_syms hp) → Forall template_line (template_lines template) →
  report_file nolinenos has_fallback mhflag filename outname incName txt nruleWithAction stackdepth norecovery trackmax lem hp template = Ok (out, hp', errorcnt) →
  ∃ pre g post, o_out out = pre ++ Text g :: post ∧ take 3 g = lit "#if" ∧
    (∀ a n b, pre = a ++ Linedir n outname :: b → n = nls a + 2 + skipped_lines template) ∧
    (∀ a n b, post = a ++ Linedir n outname :: b →
       n = nls (pre ++ Text g :: a) + 2 + skipped_lines template - if mhflag then 0 else 1).
Proof.
  intros Htx Hn Ht Htl H. unfold report_file in H. cbv zeta in H. set (lem1 := upd_numbers _ lem) in H.
  destruct (print_stack_union _ _ _ _ _ _) as [[h fields]|] eqn:Eu; [|done]. cbn [mbind res_bind] in H.
  destruct (union_lines _ _ _ (tx_var Htx) _ _ _ _ Eu Hn Ht) as [Hh Hfs].
  destruct (fill_table true lem1 (upd_syms h hp)) as [pl|] eqn:Ef; [|done]. cbn [mbind res_bind] in H. apply fill_table_syms in Ef. cbn [upd_syms h_syms] in Ef.
  destruct (mark_doesReduce lem1 (pl_heap pl)) as [hp1|] eqn:Em; [|done]. cbn [mbind res_bind] in H. apply mark_syms in Em.
  destruct (tables_of _ _ _ _ _ _) as [Y|]; [|done]. cbn [mbind res_bind] in H.
  destruct (translate_all _ _ _ _ _ _) as [[[rs errs] i]|]; [|done]. cbn [mbind res_bind] in H.
  match type of H with (mbind _ ?r = _) => destruct r as [st|] eqn:Er; [|done] end. cbn [mbind res_bind] in H. injection H as <- _ _.
  unfold andthen in Er. destruct (head_part _ _ _ _ _ _ _) as [st1|] eqn:Eh; [|done]. cbn [mbind res_bind] in Er.
  destruct (head_lines template st1 Htx Htl Eh) as [Hi1 [Hl1 Hd1]].
  destruct (guard mhflag txt lem1 h st1) as [st2|] eqn:Eg; [|done]. cbn [mbind res_bind] in Er.
  assert (∃ g, o_out st2 = o_out st1 ++ [Text g] ∧ take 3 g = lit "#if" ∧ nls [Text g] = 1 ∧ o_in st2 = o_in st1 ∧ o_lineno st2 = o_lineno st1 + if mhflag then 1 else 0) as (g&Eo&Hg&Hng&Ei&El).
  { unfold guard in Eg. destruct mhflag; [injection Eg as <-; eexists; split; [done|]; done|].
    unfold with_ in Eg. destruct (symbol_name lem1 h 1) as [s|] eqn:Es; [|done]. cbn [mbind res_bind] in Eg. unfold write in Eg.
    set (g := lit "#ifndef " ++ prefix txt ++ s ++ [10]) in Eg. exists g.
    assert (st2 = mkOuts (o_out st1 ++ [Text g]) (o_lineno st1 + 0) (o_in st1)) as -> by congruence. split; [done|]. split; [done|].
    split; [|done]. unfold g. rewrite nls_text, !newlines_app.
    rewrite (newlines_none s) by (by eapply symbol_name_line). rewrite (newlines_none (prefix txt)) by (apply (prefix_line txt (tx_txt Htx))). reflexivity. }
  destruct (Keeps_body nolinenos has_fallback mhflag filename outname txt nruleWithAction) with (lem := lem1) (hp := hp1) (fields := fields) (pl := pl) (Y := Y) (rs := rs) (i := i) (st := st2) (st' := st)
    as [_ (new&Hnew&_&Hd)]; try done; try apply Htx; [by rewrite Em, Ef|by rewrite Ei|].
  exists (o_out st1), g, new. split; [by rewrite Hnew, Eo, <- app_assoc|]. split; [done|]. split; [done|].
  intros a n b E. apply Hd in E. change (Text g :: a) with ([Text g] ++ a). rewrite !nls_app. destruct mhflag; lia.
Qed.
End Directives.

(** the parser of two tokens, with include code and a template of empty sections *)
Definition rw_txt (s : slot) : option str :=
  match s with S_include => Some (lit "int x;" ++ [10]) | S_error => Some (lit "e();") | _ => None end.
Definition rw_template : str := lines (lit "// Parse" :: replicate 14 (lit "%%")).
Definition rw_report : res (outs * heap * Z) :=
  report_file false false false (lit "g.y") (lit "g.c") (lit "g.h") rw_txt 0 100 false false gt_lemon gt_heap rw_template.
Lemma rw_texts : texts_ok (lit "g.y") (lit "g.c") (lit "g.h") rw_txt.
Proof.
  constructor; [oneline..|done| |done]. intros s t Hs Ht. rewrite !elem_of_cons, elem_of_nil in Hs. destruct_or! Hs; by subst.
Qed.
Lemma rw_lines : Forall template_line (template_lines rw_template).
Proof.
  assert (template_lines rw_template = (lit "// Parse" ++ [10]) :: replicate 14 (lit "%%" ++ [10])) as -> by (vm_compute; reflexivity).
  constructor; [exists (lit "// Parse"); split; [done|oneline]|]. apply Forall_replicate. exists (lit "%%"). split; [done|oneline].
Qed.
Lemma report_lines_correct_witness :
  ∃ out hp' e pre g post, rw_report = Ok (out, hp', e) ∧ o_out out = pre ++ Text g :: post ∧
    ∀ a n b, post = a ++ Linedir n (lit "g.c") :: b → n = nls (pre ++ Text g :: a) + 2 + 0 - 1.
Proof.
  unfold rw_report. destruct (report_file _ _ _ _ _ _ _ _ _ _ _ _ _ _) as [[[out hp'] e]|] eqn:E; [|vm_compute in E; discriminate].
  destruct (report_lines_correct false false false (lit "g.y") (lit "g.c") (lit "g.h") rw_txt 0 100 false false gt_lemon gt_heap rw_template out hp' e rw_texts) as (pre&g&post&Ho&_&_&Hpost).
  - intros [|[|[|[|sp]]]]; constructor.
  - intros [|[|[|[|sp]]]] t; discriminate.
  - exact rw_lines.
  - exact E.
  - exists out, hp', e, pre, g, post. split; [reflexivity|]. split; [exact Ho|].
    assert (skipped_lines rw_txt rw_template = 0) as Hs by (vm_compute; reflexivity). rewrite Hs in Hpost. exact Hpost.
Defined.

(** A token type of two lines is counted as one: the same directive names line 74, but it is
    followed by line 76. *)
Theorem multiline_type_uncounted :
  match report_file false false false (lit "g.y") (lit "g.c") (lit "g.h")
          (λ s, match s with S_tokentype => Some (lit "struct" ++ [10] ++ lit "token") | _ => rw_txt s end) 0 100 false false gt_lemon gt_heap rw_template with
  | Ok (out, _, _) => last (o_out out) = Some (Linedir 74 (lit "g.c")) ∧ nls (o_out out) + 1 = 76
  | Err _ => False
  end.
Proof. vm_compute. split; reflexivity. Qed.
(** Without include code, the character before an empty string is read. *)
Theorem no_include_escapes :
  report_file false false false (lit "g.y") (lit "g.c") (lit "g.h") (λ _, None) 0 100 false false gt_lemon gt_heap rw_template = Err OutOfBounds.
Proof. vm_compute. reflexivity. Qed.
(** The directive behind the code of [%syntax_error] names line 74, but it is followed by line 75. *)
Theorem directive_off_by_one :
  match rw_report with
  | Ok (out, _, _) => last (o_out out) = Some (Linedir 74 (lit "g.c")) ∧ nls (o_out out) + 1 = 75
  | Err _ => False
  end.
Proof. vm_compute. split; reflexivity. Qed.
