(* ===== verification/LemonOption.v ===== *)
(** The command line of the parser generator ([src/sql/lemon.c], "option.c" and the table
    of options in [main]): switches, switches with an argument, and the other arguments.
    What an option does is an assignment to a variable or a call, recorded in order. *)
From S2P Require Import Prelude LemonTable LemonPrintf LemonData LemonPreproc LemonRead LemonScan LemonEmit.

Inductive option_type := OPT_FLAG | OPT_INT | OPT_DBL | OPT_STR | OPT_FFLAG | OPT_FINT | OPT_FDBL | OPT_FSTR.
(** the variable or function of an option is its name; [None] is a null pointer *)
Record s_options := mkOption { op_type : option_type; op_label : str; op_arg : option str; op_message : str }.
(** what is assigned or passed; a double as its bits *)
Inductive opt_value := VInt (z : Z) | VDbl (d : Z) | VStr (s : str).
Notation effect := (str * opt_value)%type.
Notation argv := (list str).

Section Options.
(** [strtod]: the value and what is left of the text *)
Context (strtod : str → Z * str).
Context (op : list s_options).
Implicit Types (a : str) (args : argv).

Definition has_equal a : bool := bool_decide (61 ∈ a).
(** [X[0]=='-' || X[0]=='+' || strchr(X,'=')]; an empty argument begins with its NUL *)
Definition is_switch a : bool := match a with c :: _ => (c =? 45) || (c =? 43) | [] => false end.
Definition ISOPT a : bool := is_switch a || has_equal a.
Definition dashes : str := [45; 45].

(** the loops over [g_argv], from index [i] on *)
Fixpoint argindex_from (args : argv) (i : Z) (n : Z) (dashdash : bool) : Z :=
  match args with
  | [] => -1
  | a :: args =>
      let plain := dashdash || negb (ISOPT a) in
      if plain && (n =? 0) then i
      else argindex_from args (i + 1) (if plain then n - 1 else n) (bool_decide (a = dashes) || dashdash)
  end.
(** the first argument is the name of the program *)
Definition argindex args (n : Z) : Z := match args with [] => -1 | _ :: rest => argindex_from rest 1 n false end.
Fixpoint count_args (args : argv) (dashdash : bool) : Z :=
  match args with
  | [] => 0
  | a :: args => (if dashdash || negb (ISOPT a) then 1 else 0) + count_args args (bool_decide (a = dashes) || dashdash)
  end.
Definition OptNArgs args : Z := match args with [] => 0 | _ :: rest => count_args rest false end.
Definition OptArg args (n : Z) : option str := let i := argindex args n in if 0 <=? i then args !! Z.to_nat i else None.

(** the first option whose label begins the text *)
Definition find_flag (s : str) : option s_options := snd <$> list_find (λ o, take (length (op_label o)) s = op_label o) op.
(** a flag: the number of errors and what it does *)
Definition handleflags a : Z * list effect :=
  let v := if default 0 (head a) =? 45 then 1 else 0 in
  match find_flag (tail a) with
  | None => (1, [])
  | Some o =>
      match op_arg o with
      | None => (0, [])
      | Some var =>
          match op_type o with
          | OPT_FLAG | OPT_FFLAG => (0, [(var, VInt v)])
          | OPT_FSTR => (0, [(var, VStr (drop 2 a))])
          | _ => (1, [])
          end
      end
  end.

(** [strtol] with base 0 *)
Definition digit_val (c : Z) : Z := if ISDIGIT c then c - 48 else if (97 <=? c) && (c <=? 102) then c - 87 else if (65 <=? c) && (c <=? 70) then c - 55 else 99.
Fixpoint strtol_digits (base acc : Z) (s : str) : Z * str :=
  match s with
  | c :: s' => if digit_val c <? base then strtol_digits base (acc * base + digit_val c) s' else (acc, s)
  | [] => (acc, [])
  end.
(** [LONG_MIN] and [LONG_MAX] for what does not fit *)
Definition clamp (z : Z) : Z := Z.max (- 2 ^ 63) (Z.min (2 ^ 63 - 1) z).
Fixpoint skip_white (s : str) : str := match s with c :: s' => if ISSPACE c then skip_white s' else s | [] => [] end.
Definition strtol (s : str) : Z * str :=
  let t := skip_white s in
  let '(sign, t) := match t with c :: t' => if c =? 45 then (-1, t') else if c =? 43 then (1, t') else (1, t) | [] => (1, []) end in
  let '(base, digits) :=
    match t with
    | 48 :: x :: d :: rest => if ((x =? 120) || (x =? 88)) && (digit_val d <? 16) then (16, d :: rest) else (8, t)
    | 48 :: _ => (8, t)
    | _ => (10, t)
    end in
  match digits with
  | d :: _ => if digit_val d <? base then let '(v, rest) := strtol_digits base 0 digits in (clamp (sign * v), rest) else (0, s)
  | [] => (0, s)
  end.

Fixpoint split_equal (a : str) : str * str :=
  match a with [] => ([], []) | c :: a => if c =? 61 then ([], a) else let '(x, y) := split_equal a in (c :: x, y) end.
(** a switch with an argument behind the first equal sign; the value is stored also when
    there is text behind the number *)
Definition handleswitch a : res (Z * list effect) :=
  if negb (has_equal a) then Err ExitCalled
  else
    let '(name, cp) := split_equal a in
    match snd <$> list_find (λ o, name = op_label o) op with
    | None => Ok (1, [])
    | Some o =>
        let number (end_ : str) : Z := match end_ with [] => 0 | _ => 1 end in
        let store (v : opt_value) (errcnt : Z) : res (Z * list effect) := var ← of_opt NullDeref (op_arg o); Ok (errcnt, [(var, v)]) in
        match op_type o with
        | OPT_FLAG | OPT_FFLAG => Ok (1, [])
        | OPT_DBL | OPT_FDBL => let '(dv, end_) := strtod cp in store (VDbl dv) (number end_)
        | OPT_INT | OPT_FINT => let '(lv, end_) := strtol cp in store (VInt (swrap32 lv)) (number end_)
        | OPT_STR | OPT_FSTR => store (VStr cp) 0
        end
    end.

Fixpoint init_from (args : argv) : res (Z * list effect) :=
  match args with
  | [] => Ok (0, [])
  | a :: args =>
      let* (n, e) := (if is_switch a then Ok (handleflags a) else if has_equal a then handleswitch a else Ok (0, [])) in
      let* (m, es) := init_from args in
      Ok (n + m, e ++ es)
  end.
(** with an error the options are printed and the program ends *)
Definition OptInit args : res (list effect) :=
  match args with
  | [] => Ok []
  | _ :: rest => let* (errcnt, e) := init_from rest in if 0 <? errcnt then Err ExitCalled else Ok e
  end.

(** the command line with a mark below the [k]-th character of argument [n] *)
Definition errline args (n k : Z) : res str :=
  match args with
  | [] => Err OutOfBounds
  | a0 :: rest =>
      let spcnt := zlen a0 + 1 + foldr (λ x z, zlen x + 1 + z) 0 (take (Z.to_nat (n - 1)) rest) + k in
      Ok (a0 ++ (rest ≫= λ x, 32 :: x) ++ [10] ++
          (if spcnt <? 20 then pad_left (Z.to_nat spcnt) [] ++ lit "^-- here" else pad_left (Z.to_nat (spcnt - 7)) [] ++ lit "here --^") ++ [10])
  end.

(** the list of options *)
Definition kind_text (t : option_type) : str :=
  match t with
  | OPT_FLAG | OPT_FFLAG => []
  | OPT_INT | OPT_FINT => lit "<integer>"
  | OPT_DBL | OPT_FDBL => lit "<real>"
  | OPT_STR | OPT_FSTR => lit "<string>"
  end.
Definition option_len (o : s_options) : nat := (length (op_label o) + 1 + length (kind_text (op_type o)))%nat.
Definition max_len : nat := foldl (λ m o, Nat.max m (option_len o)) 0%nat op.
Definition option_head (o : s_options) : str :=
  match op_type o with
  | OPT_FLAG | OPT_FFLAG => lit "  -" ++ pad_right max_len (op_label o)
  | t => lit "  -" ++ op_label o ++ kind_text t ++ pad_left (max_len - length (op_label o) - length (kind_text t)) []
  end.
Definition OptPrint : str := op ≫= λ o, option_head o ++ lit "  " ++ op_message o ++ [10].

(** ** What the loops compute *)

(** the arguments that are not options: those behind a double dash, and those that do not
    look like one *)
Fixpoint plain_args (args : argv) (dashdash : bool) : list str :=
  match args with
  | [] => []
  | a :: args => (if dashdash || negb (ISOPT a) then [a] else []) ++ plain_args args (bool_decide (a = dashes) || dashdash)
  end.
Lemma argindex_from_ok args0 args : ∀ i n d, 0 ≤ n → (∀ k, args0 !! (Z.to_nat i + k)%nat = args !! k) → 0 ≤ i →
  match plain_args args d !! Z.to_nat n with
  | Some a => ∃ j, argindex_from args i n d = j ∧ 0 ≤ j ∧ args0 !! Z.to_nat j = Some a
  | None => argindex_from args i n d = -1
  end.
Proof.
  induction args as [|a args IH]; intros i n d Hn Hi Hp; cbn [plain_args argindex_from]; [done|].
  assert (∀ k, args0 !! (Z.to_nat (i + 1) + k)%nat = args !! k) as Hi'.
  { intros k. transitivity ((a :: args) !! S k); [|done]. rewrite <- (Hi (S k)). f_equal. lia. }
  destruct (d || negb (ISOPT a)); cbn [andb app]; [|by apply IH; [|done|lia]].
  destruct (Z.eqb_spec n 0) as [->|Hne].
  - cbn. exists i. split_and!; [done|done|]. pose proof (Hi 0%nat) as H0. rewrite Nat.add_0_r in H0. done.
  - replace (Z.to_nat n) with (S (Z.to_nat (n - 1))) by lia. cbn [lookup list_lookup]. apply IH; [lia|done|lia].
Qed.
Lemma count_args_ok args : ∀ d, count_args args d = zlen (plain_args args d).
Proof.
  induction args as [|a args IH]; intros d; cbn [count_args plain_args]; [done|]. rewrite zlen_app, IH.
  by destruct (d || negb (ISOPT a)).
Qed.
(** the arguments of the program: [OptArg] gives the [n]-th one that is not an option, and
    a null pointer from [OptNArgs] on *)
Theorem OptArg_correct prog args n : 0 ≤ n → OptArg (prog :: args) n = plain_args args false !! Z.to_nat n ∧ OptNArgs (prog :: args) = zlen (plain_args args false).
Proof.
  intros Hn. split; [|apply count_args_ok]. unfold OptArg, argindex.
  pose proof (argindex_from_ok (prog :: args) args 1 n false Hn (λ k, eq_refl) ltac:(lia)) as H.
  destruct (plain_args args false !! Z.to_nat n) as [a|]; [destruct H as (j&->&Hj&Ha)|rewrite H]; [by rewrite (proj2 (Z.leb_le _ _))|done].
Qed.

(** a command line of flags, each the label of an option with a sign before it, and of other
    arguments: it is accepted, and the flags are assigned in order *)
Inductive word := WFlag (minus : bool) (o : s_options) | WArg (a : str).
Definition word_text (w : word) : str := match w with WFlag minus o => (if minus : bool then 45 else 43) :: op_label o | WArg a => a end.
Definition word_effect (w : word) : list effect :=
  match w with
  | WFlag minus o => match op_arg o with Some var => [(var, VInt (if minus : bool then 1 else 0))] | None => [] end
  | WArg _ => []
  end.
(** no label begins with another one *)
Definition labels_apart : Prop := ∀ i j o o', op !! i = Some o → op !! j = Some o' → take (length (op_label o)) (op_label o') = op_label o → i = j.
Definition word_ok (w : word) : Prop :=
  match w with WFlag _ o => o ∈ op ∧ op_type o = OPT_FLAG | WArg a => ISOPT a = false end.
Lemma find_flag_ok o : labels_apart → o ∈ op → find_flag (op_label o) = Some o.
Proof.
  intros Hl [i Hi]%list_elem_of_lookup. unfold find_flag.
  destruct (list_find (λ o', take (length (op_label o')) (op_label o) = op_label o') op) as [[j o']|] eqn:E.
  - apply list_find_Some in E as (Hj&Hp&_). cbn. assert (j = i) as -> by (by eapply Hl). congruence.
  - apply list_find_None in E. rewrite Forall_lookup in E. exfalso. apply (E i o Hi). apply take_ge. done.
Qed.
Theorem OptInit_flags prog ws : labels_apart → Forall word_ok ws → OptInit (prog :: (word_text <$> ws)) = Ok (ws ≫= word_effect).
Proof.
  intros Hl Hw. cbn [OptInit]. assert (init_from (word_text <$> ws) = Ok (0, ws ≫= word_effect)) as ->; [|done].
  induction Hw as [|w ws Hw _ IH]; [done|]. rewrite fmap_cons. cbn [init_from].
  assert ((if is_switch (word_text w) then Ok (handleflags (word_text w)) else if has_equal (word_text w) then handleswitch (word_text w) else Ok (0, [])) = Ok (0, word_effect w)) as ->.
  { destruct w as [minus o|a]; cbn [word_text word_ok word_effect] in *.
    - destruct Hw as [Ho Ht]. unfold is_switch, handleflags. cbn [head tail default]. rewrite (find_flag_ok o Hl Ho), Ht. destruct minus; cbn; by destruct (op_arg o).
    - unfold ISOPT in Hw. apply orb_false_iff in Hw as [-> ->]. done. }
  cbn [mbind res_bind]. rewrite IH. done.
Qed.
(** the help text: every message begins in the same column *)
Theorem help_aligned o : o ∈ op → length (option_head o) = (3 + max_len)%nat.
Proof.
  intros Ho. assert (option_len o ≤ max_len)%nat as Hm.
  { unfold max_len. assert (∀ l m, (m ≤ foldl (λ m o, Nat.max m (option_len o)) m l)%nat) as Hmono.
    { induction l as [|x l IH]; intros m; cbn [foldl]; [done|]. specialize (IH (Nat.max m (option_len x))). lia. }
    generalize 0%nat. induction Ho as [x l|x y l _ IH]; intros m; cbn [foldl]; [|apply IH]. specialize (Hmono l (Nat.max m (option_len x))). lia. }
  assert (length (lit "  -") = 3 ∧ length (lit "<integer>") = 9 ∧ length (lit "<real>") = 6 ∧ length (lit "<string>") = 8)%nat as (L1&L2&L3&L4) by done.
  unfold option_len in Hm. unfold option_head, pad_left, pad_right. destruct (op_type o); cbn [kind_text] in *; rewrite !length_app, ?length_replicate, ?L1, ?L2, ?L3, ?L4 in *; cbn [length] in *; lia.
Qed.
End Options.

(** ** The options of the program *)

Definition opt (t : option_type) (label : string) (arg : option str) (message : string) : s_options := mkOption t (lit label) arg (lit message).
Definition options : list s_options :=
  [opt OPT_FLAG "b" (Some (lit "basisflag")) "Print only the basis in report.";
   opt OPT_FLAG "c" (Some (lit "compress")) "Don't compress the action table.";
   opt OPT_FSTR "d" (Some (lit "handle_d_option")) "Output directory.  Default '.'";
   opt OPT_FSTR "D" (Some (lit "handle_D_option")) "Define an %ifdef macro.";
   opt OPT_FLAG "E" (Some (lit "printPP")) "Print input file after preprocessing.";
   opt OPT_FSTR "f" None "Ignored.  (Placeholder for -f compiler options.)";
   opt OPT_FLAG "g" (Some (lit "rpflag")) "Print grammar without actions.";
   opt OPT_FSTR "I" None "Ignored.  (Placeholder for '-I' compiler options.)";
   opt OPT_FLAG "m" (Some (lit "mhflag")) "Output a makeheaders compatible file.";
   opt OPT_FLAG "l" (Some (lit "nolinenosflag")) "Do not print #line statements.";
   opt OPT_FSTR "O" None "Ignored.  (Placeholder for '-O' compiler options.)";
   opt OPT_FLAG "p" (Some (lit "showPrecedenceConflict")) "Show conflicts resolved by precedence rules";
   opt OPT_FLAG "q" (Some (lit "quiet")) "(Quiet) Don't print the report file.";
   opt OPT_FLAG "r" (Some (lit "noResort")) "Do not sort or renumber states";
   opt OPT_FLAG "s" (Some (lit "statistics")) "Print parser stats to standard output.";
   opt OPT_FLAG "S" (Some (lit "sqlFlag")) "Generate the *.sql file describing the parser tables.";
   opt OPT_FLAG "x" (Some (lit "version")) "Print the version number.";
   opt OPT_FSTR "T" (Some (lit "handle_T_option")) "Specify a template file.";
   opt OPT_FSTR "W" None "Ignored.  (Placeholder for '-W' compiler options.)"].

Lemma options_apart : labels_apart options.
Proof.
  assert (NoDup (op_label <$> options)) as Hn by (apply (bool_decide_unpack _); vm_compute; exact I).
  assert (Forall (λ o, length (op_label o) = 1%nat) options) as Hl by (repeat constructor).
  intros i j o o' Hi Hj Ht. assert (length (op_label o) = 1%nat ∧ length (op_label o') = 1%nat) as [H1 H2].
  { rewrite Forall_lookup in Hl. split; [by eapply Hl|by eapply Hl]. }
  rewrite take_ge in Ht by lia. eapply NoDup_lookup; [exact Hn|by rewrite list_lookup_fmap, Hi|]. rewrite list_lookup_fmap, Hj. cbn. by rewrite Ht.
Qed.

Section Dashes.
Context (strtod : str → Z * str).
Lemma handleflags_errs op a : 0 ≤ (handleflags op a).1.
Proof. unfold handleflags. destruct (find_flag op (tail a)) as [o|]; [|done]. destruct (op_arg o); [|done]. by destruct (op_type o). Qed.
Lemma handleswitch_errs op a n e : handleswitch strtod op a = Ok (n, e) → 0 ≤ n.
Proof.
  unfold handleswitch. destruct (has_equal a); cbn [negb]; [|done]. destruct (split_equal a) as [name cp]. destruct (snd <$> _) as [o|]; [|by intros [= <- _]].
  assert (∀ (v : opt_value) (m : Z), 0 ≤ m → (var ← of_opt NullDeref (op_arg o); Ok (m, [(var, v)])) = Ok (n, e) → 0 ≤ n) as Hs.
  { intros v m Hm. destruct (op_arg o); cbn; [|done]. by intros [= <- _]. }
  destruct (op_type o); try (by intros [= <- _]); try (destruct (strtod cp) as [? []]); try (destruct (strtol cp) as [? []]); intros H; eapply Hs; try exact H; done.
Qed.
Lemma init_errs op args : ∀ n e, init_from strtod op args = Ok (n, e) → 0 ≤ n.
Proof.
  induction args as [|a args IH]; intros n e; [by intros [= <- _]|]. cbn [init_from]. intros ([n1 e1]&H1&([n2 e2]&H2&[= <- _])%res_bind_Ok)%res_bind_Ok.
  specialize (IH _ _ H2). assert (0 ≤ n1); [|lia]. destruct (is_switch a); [|destruct (has_equal a); [by eapply handleswitch_errs|by injection H1 as <- _]].
  injection H1 as H1. pose proof (handleflags_errs op a). rewrite H1 in *. done.
Qed.
(** the double dash, which [OptNArgs] and [OptArg] take for the end of the options, is an error
    for [OptInit]: it never gets there *)
Theorem dashes_rejected prog l1 l2 e : OptInit strtod options (prog :: l1 ++ dashes :: l2) ≠ Ok e.
Proof.
  cbn [OptInit]. intros ([n es]&H&Hn)%res_bind_Ok. assert (1 ≤ n); [|by rewrite (proj2 (Z.ltb_lt _ _)) in Hn by lia].
  clear Hn. revert n es H. induction l1 as [|a l1 IH]; intros n es; cbn [app init_from].
  - assert (handleflags options dashes = (1, [])) as -> by (vm_compute; reflexivity). change (is_switch dashes) with true. cbn [mbind res_bind].
    intros ([n2 e2]&H2&[= <- _])%res_bind_Ok. pose proof (init_errs _ _ _ _ H2). lia.
  - intros ([n1 e1]&H1&([n2 e2]&H2&[= <- _])%res_bind_Ok)%res_bind_Ok. specialize (IH _ _ H2). assert (0 ≤ n1); [|lia].
    destruct (is_switch a); [|destruct (has_equal a); [by eapply handleswitch_errs|by injection H1 as <- _]]. injection H1 as H1. pose proof (handleflags_errs options a). rewrite H1 in *. done.
Qed.
End Dashes.
