(* ===== verification/LemonListing.v ===== *)
(** What the parser generator writes besides the parser ([src/sql/lemon.c]): the reprint of
    the grammar, the report file, the header file with the token codes, and the choice of
    the template file. *)
From S2P Require Import Prelude LemonTable LemonPrintf LemonData LemonFirst LemonSymbol LemonActions LemonPreproc LemonRead LemonScan LemonScanSpec LemonEmit LemonReport.

Section Listing.
Context (h : list symbol) (rs : list rule) (cfgs : list config) (sts : list state).
Implicit Types (lem : lemon).

(** ** Rules and actions *)

(** the right-hand side from position [i] on, with a star at the cursor *)
Fixpoint rhs_cursor (i cursor : Z) (l : list nat) : res str :=
  match l with
  | [] => Ok (if i =? cursor then lit " *" else [])
  | sp :: l => a ← rhs_text h sp; b ← rhs_cursor (i + 1) cursor l; Ok ((if i =? cursor then lit " *" else []) ++ a ++ b)
  end.
Definition RulePrint (rp : nat) (iCursor : Z) : res str :=
  t ← rhs_cursor 0 iCursor (rp_rhs (rul rs rp)); Ok (sp_name (sym h (rp_lhs (rul rs rp))) ++ lit " ::=" ++ t).
Definition ConfigPrint (cfp : config) : res str := RulePrint (cfp_rp cfp) (cfp_dot cfp).

Definition state_of (x : action_arg) : res state := match x with XState s => of_opt OutOfBounds (sts !! s) | _ => Err OutOfBounds end.
Definition rule_of (x : action_arg) : res nat := match x with XRule r => Ok r | _ => Err OutOfBounds end.
(** [None]: nothing is printed *)
Definition PrintAction (showPrecedenceConflict : bool) (ap : action) (indent : nat) : res (option str) :=
  let name := pad_left indent (sp_name (sym h (ap_sp ap))) in
  let shift (what tail : str) : res (option str) := st ← state_of (ap_x ap); Ok (Some (name ++ what ++ pad_right 7 (print_dec (stp_statenum st)) ++ tail)) in
  let reduce (what tail : str) : res (option str) := rp ← rule_of (ap_x ap); Ok (Some (name ++ what ++ pad_right 7 (print_dec (rp_iRule (rul rs rp))) ++ tail)) in
  let with_rule (what : str) : res (option str) := rp ← rule_of (ap_x ap); t ← RulePrint rp (-1); reduce what t in
  r ← (match ap_type ap with
      | SHIFT => shift (lit " shift        ") []
      | REDUCE => with_rule (lit " reduce       ")
      | SHIFTREDUCE => with_rule (lit " shift-reduce ")
      | ACCEPT => Ok (Some (name ++ lit " accept"))
      | ERROR => Ok (Some (name ++ lit " error"))
      | SRCONFLICT | RRCONFLICT => reduce (lit " reduce       ") (lit " ** Parsing conflict **")
      | SSCONFLICT => shift (lit " shift        ") (lit " ** Parsing conflict **")
      | SH_RESOLVED => if showPrecedenceConflict then shift (lit " shift        ") (lit " -- dropped by precedence") else Ok None
      | RD_RESOLVED => if showPrecedenceConflict then reduce (lit " reduce ") (lit " -- dropped by precedence") else Ok None
      | NOT_USED => Ok None
      end : res (option str));
  let because : str :=
    match ap_spOpt ap with
    | Some o => lit "  /* because " ++ sp_name (sym h (ap_sp ap)) ++ lit "==" ++ sp_name (sym h o) ++ lit " */"
    | None => []
    end in
  Ok (match r with Some s => Some (s ++ because) | None => None end).

Fixpoint texts {A} (f : A → res str) (l : list A) : res str :=
  match l with [] => Ok [] | x :: l => a ← f x; b ← texts f l; Ok (a ++ b) end.

(** ** The reprint of the grammar *)

Definition symbol_at lem (i : Z) : res symbol := sp ← of_opt OutOfBounds (lem_symbols lem !! Z.to_nat i); Ok (sym h sp).
Definition name_width lem : res Z :=
  foldr (λ i (r : res Z), m ← r; sp ← symbol_at lem i; Ok (Z.max (zlen (sp_name sp)) m)) (Ok 10) (seqZ 0 (lem_nsymbol lem)).
(** row [i] of the list of symbols: every [skip]-th one *)
Definition row (nsymbol skip i : Z) : list Z := (λ k, i + skip * k) <$> seqZ 0 ((nsymbol - i + skip - 1) / skip).
Definition columns (maxlen : Z) : Z := Z.max 1 (76 / (maxlen + 5)).
Definition rows (nsymbol ncolumns : Z) : list (list Z) :=
  let skip := (nsymbol + ncolumns - 1) / ncolumns in row nsymbol skip <$> seqZ 0 skip.
Definition reprint_entry lem (maxlen j : Z) : res str :=
  sp ← symbol_at lem j;
  if sp_index sp =? j then Ok ([32] ++ dec 3 j ++ [32] ++ pad_right (Z.to_nat maxlen) (take (Z.to_nat maxlen) (sp_name sp))) else Err ExitCalled.
Definition reprint_rule (rp : nat) : res str :=
  t ← rule_print h rs rp;
  Ok (t ++ lit "." ++ match rp_precsym (rul rs rp) with Some p => lit " [" ++ sp_name (sym h p) ++ lit "]" | None => [] end ++ [10]).
Definition Reprint lem (filename : str) : res str :=
  maxlen ← name_width lem;
  symbols ← texts (λ r, t ← texts (reprint_entry lem maxlen) r; Ok (lit "//" ++ t ++ [10])) (rows (lem_nsymbol lem) (columns maxlen));
  rules ← texts reprint_rule (lem_rule lem);
  Ok (lit "// Reprint of input file " ++ quoted filename ++ lit "." ++ [10] ++ lit "// Symbols:" ++ [10] ++ symbols ++ rules).

(** ** The report file *)

Definition config_line (cfp : config) : res str :=
  t ← ConfigPrint cfp;
  Ok ((if cfp_dot cfp =? zlen (rp_rhs (rul rs (cfp_rp cfp))) then lit "    " ++ pad_left 5 ([40] ++ print_dec (rp_iRule (rul rs (cfp_rp cfp))) ++ [41]) ++ [32]
       else lit "          ") ++ t ++ [10]).
Definition action_line (showPrecedenceConflict : bool) (ap : action) : res str :=
  r ← PrintAction showPrecedenceConflict ap 30; Ok (match r with Some s => s ++ [10] | None => [] end).
Definition config_at (c : nat) : res config := of_opt OutOfBounds (cfgs !! c).
(** the configurations of a state: those of its basis, or all *)
Definition report_state (basisflag showPrecedenceConflict : bool) (s : nat) : res str :=
  st ← of_opt OutOfBounds (sts !! s);
  configs ← texts (λ c, cfp ← config_at c; config_line cfp) (if basisflag then stp_bp st else stp_cfp st);
  actions ← texts (action_line showPrecedenceConflict) (stp_ap st);
  Ok (lit "State " ++ print_dec (stp_statenum st) ++ lit ":" ++ [10] ++ configs ++ [10] ++ actions ++ [10]).
Definition rule_line : str := lit "----------------------------------------------------" ++ [10].
(** the members of a first set *)
Definition firstset_text lem (sp : symbol) : res str :=
  match sp_firstset sp with
  | None => Ok []
  | Some set => texts (λ j, if SetFind set j then x ← symbol_at lem j; Ok ([32] ++ sp_name x) else Ok []) (seqZ 0 (lem_nterminal lem))
  end.
Definition report_symbol lem (i : Z) : res str :=
  sp ← symbol_at lem i;
  first ← (if decide (sp_type sp = NONTERMINAL) then t ← firstset_text lem sp; Ok (lit ":" ++ (if sp_lambda sp then lit " <lambda>" else []) ++ t) else Ok [] : res str);
  Ok (lit "  " ++ dec 3 i ++ lit ": " ++ sp_name sp ++ first ++ (if 0 <=? sp_prec sp then lit " (precedence=" ++ print_dec (sp_prec sp) ++ lit ")" else []) ++ [10]).
(** the names of the symbols without content, in lines of at most 75 characters *)
Fixpoint wrap_names (n : Z) (l : list str) : str :=
  match l with
  | [] => if 0 <? n then [10] else []
  | w :: l =>
      let new := (0 <? n) && (75 <? n + zlen w) in
      let n := if new then 0 else n in
      (if new then [10] else []) ++ (if 0 <? n then [32] else []) ++ w ++ wrap_names ((if 0 <? n then n + 1 else n) + zlen w) l
  end.
Fixpoint symbols_of lem (l : list Z) : res (list symbol) :=
  match l with [] => Ok [] | i :: l => sp ← symbol_at lem i; k ← symbols_of lem l; Ok (sp :: k) end.
Definition report_rule (rp : nat) : res str :=
  t ← rule_print h rs rp;
  Ok (dec 4 (rp_iRule (rul rs rp)) ++ lit ": " ++ t ++ lit "." ++
      match rp_precsym (rul rs rp) with Some p => lit " [" ++ sp_name (sym h p) ++ lit " precedence=" ++ print_dec (sp_prec (sym h p)) ++ lit "]" | None => [] end ++ [10]).
Definition ReportOutput (basisflag showPrecedenceConflict : bool) lem : res str :=
  states ← texts (report_state basisflag showPrecedenceConflict) (take (Z.to_nat (lem_nxstate lem)) (lem_sorted lem));
  symbols ← texts (report_symbol lem) (seqZ 0 (lem_nsymbol lem));
  all ← symbols_of lem (seqZ 0 (lem_nsymbol lem));
  rules ← texts report_rule (lem_rule lem);
  Ok (states ++ rule_line ++ lit "Symbols:" ++ [10] ++ lit "The first-set of non-terminals is shown after the name." ++ [10; 10] ++ symbols ++
      rule_line ++ lit "Syntax-only Symbols:" ++ [10] ++ lit "The following symbols never carry semantic content." ++ [10; 10] ++
      wrap_names 0 (sp_name <$> filter (λ sp, sp_bContent sp = false) all) ++ rule_line ++ lit "Rules:" ++ [10] ++ rules).

(** ** The header file *)

Definition define_line (prefix name : str) (i : Z) : str := lit "#define " ++ prefix ++ pad_right 30 name ++ [32] ++ dec 3 i ++ [10].
(** the line of each token; [pattern] is a buffer of [LINESIZE] bytes *)
Definition header_lines lem (prefix : str) : res (list str) :=
  sps ← symbols_of lem (seqZ 1 (lem_nterminal lem - 1)); Ok (imap (λ k sp, define_line prefix (sp_name sp) (Z.of_nat k + 1)) sps).
(** the loop that compares the file that is there with the lines; what is left of both *)
Fixpoint same_lines (patterns read : list str) : res (list str * list str) :=
  match patterns, read with
  | p :: patterns', r :: read' =>
      if (Z.of_nat LINESIZE <=? zlen p) then Err OutOfBounds
      else if bool_decide (before_nul r = p) then same_lines patterns' read' else Ok (patterns, read')
  | _, _ => Ok (patterns, read)
  end.
(** the file that is there, and the file that is there afterwards; the stream ends when
    nothing is left to read *)
Definition ReportHeader lem (prefix : str) (old : option str) : res str :=
  patterns ← header_lines lem prefix;
  match old with
  | None => Ok (concat patterns)
  | Some text =>
      let* (missing, rest) := same_lines patterns (fgets_lines (LINESIZE - 2) [] text) in
      match missing, rest with
      | [], [] => Ok text
      | _, _ => Ok (concat patterns)
      end
  end.
End Listing.

(** ** The template file *)

Section Template.
(** the files that exist and can be read *)
Context (access : str → bool).

(** the directories of a search path; an empty rest ends it *)
Fixpoint path_dirs (cur s : str) : list str :=
  match s with
  | [] => [cur]
  | c :: s' => if c =? 58 then cur :: match s' with [] => [] | _ => path_dirs [] s' end else path_dirs (cur ++ [c]) s'
  end.
(** the first directory with the file, or the last one; without a directory the buffer for
    the name has not been written *)
Fixpoint search_dirs (name : str) (path : res str) (dirs : list str) : res str :=
  match dirs with
  | [] => path
  | d :: dirs => let p := d ++ [47] ++ name in if access p then Ok p else search_dirs name (Ok p) dirs
  end.
Definition pathsearch (argv0 name : str) (PATH : option str) : res str :=
  match strrchr 47 argv0 with
  | Some i => Ok (take i argv0 ++ [47] ++ name)
  | None =>
      let pathlist := default (lit ".:/bin:/usr/bin") PATH in
      search_dirs name (Err UninitRead) (match pathlist with [] => [] | _ => path_dirs [] pathlist end)
  end.
Definition templatename : str := lit "lempar.c".
(** the file that is opened, if any, and the errors that are counted; [buf] has 1000 bytes *)
Definition tplt_open (user_templatename : option str) (filename argv0 : str) (PATH : option str) : res (option str * Z) :=
  match user_templatename with
  | Some t => if access t then Ok (Some t, 0) else Ok (None, 1)
  | None =>
      let buf := match strrchr 46 filename with Some i => take i filename | None => filename end ++ lit ".lt" in
      if 1000 <=? zlen buf then Err OutOfBounds
      else
        tpltname ← (if access buf then Ok buf else if access templatename then Ok templatename else pathsearch argv0 templatename PATH);
        if access tpltname then Ok (Some tpltname, 0) else Ok (None, 1)
  end.

Lemma search_dirs_ok name dirs : ∀ path, dirs ≠ [] → ∃ d, d ∈ dirs ∧ search_dirs name path dirs = Ok (d ++ [47] ++ name) ∧
  (access (d ++ [47] ++ name) = true ∨ ∀ e, e ∈ dirs → access (e ++ [47] ++ name) = false).
Proof.
  induction dirs as [|d dirs IH]; intros path Hne; [done|]. cbn [search_dirs]. destruct (access (d ++ [47] ++ name)) eqn:E.
  - exists d. split_and!; [by left|done|by left].
  - destruct dirs as [|d' dirs]; [exists d; split_and!; [by left|done|right; by intros e ->%list_elem_of_singleton]|].
    destruct (IH (Ok (d ++ [47] ++ name))) as (x&Hx&->&Ha); [done|]. exists x. split_and!; [by right|done|].
    destruct Ha as [?|Ha]; [by left|right]. intros e [->|He]%elem_of_cons; [done|by apply Ha].
Qed.
(** the template: whenever one of the places has it, a file that exists is opened and no error
    is counted *)
Theorem template_found filename argv0 path : (zlen filename < 996) → (∀ c, c ∈ argv0 → c ≠ 47) → path ≠ [] →
  (∃ d, d ∈ path_dirs [] path ∧ access (d ++ [47] ++ templatename) = true) →
  ∃ t, tplt_open None filename argv0 (Some path) = Ok (Some t, 0) ∧ access t = true.
Proof.
  intros Hf Ha Hp (d&Hd&Hacc). unfold tplt_open. set (buf := _ ++ lit ".lt").
  assert (zlen buf < 1000) as Hb.
  { unfold buf. rewrite zlen_app. change (zlen (lit ".lt")) with 3. destruct (strrchr 46 filename); [|lia]. pose proof (length_take filename n). unfold zlen in *. lia. }
  rewrite (proj2 (Z.leb_gt _ _)) by lia. destruct (access buf) eqn:E1; [cbn [mbind res_bind]; rewrite E1; eauto|].
  destruct (access templatename) eqn:E2; [cbn [mbind res_bind]; rewrite E2; eauto|]. unfold pathsearch.
  assert (strrchr 47 argv0 = None) as ->.
  { unfold strrchr. destruct (list_find (λ d, d = 47) (reverse argv0)) as [[i c]|] eqn:El; [|done].
    apply list_find_Some in El as (Hi&->&_). apply list_elem_of_lookup_2, elem_of_reverse, Ha in Hi. done. }
  change (default (lit ".:/bin:/usr/bin") (Some path)) with path. destruct path as [|c path]; [done|]. destruct (search_dirs_ok templatename (path_dirs [] (c :: path)) (Err UninitRead)) as (x&Hx&->&[Hok|Hno]).
  - intros En. rewrite En in Hd. by apply not_elem_of_nil in Hd.
  - cbn [mbind res_bind]. rewrite Hok. eauto.
  - specialize (Hno d Hd). congruence.
Qed.
End Template.

(** ** The list of symbols and the header *)

(** the reprint shows every symbol in exactly one place *)
Theorem rows_cover nsymbol ncolumns : 0 ≤ nsymbol → 1 ≤ ncolumns → concat (rows nsymbol ncolumns) ≡ₚ seqZ 0 nsymbol ∧ Forall (λ r, zlen r ≤ ncolumns) (rows nsymbol ncolumns).
Proof.
  intros Hn Hc. unfold rows. set (skip := (nsymbol + ncolumns - 1) / ncolumns). assert (nsymbol ≤ skip * ncolumns) as Hs.
  { pose proof (Z.div_mod (nsymbol + ncolumns - 1) ncolumns ltac:(lia)). pose proof (Z.mod_pos_bound (nsymbol + ncolumns - 1) ncolumns ltac:(lia)). fold skip in H. nia. }
  assert (∀ i j, 0 ≤ i < skip → j ∈ row nsymbol skip i ↔ 0 ≤ j < nsymbol ∧ j mod skip = i) as Hrow.
  { intros i j Hi. unfold row. rewrite list_elem_of_fmap. pose proof (Z.div_mod (nsymbol - i + skip - 1) skip ltac:(lia)) as Hd. pose proof (Z.mod_pos_bound (nsymbol - i + skip - 1) skip ltac:(lia)) as Hm. split.
    - intros (k&->&Hk%elem_of_seqZ). split; [nia|]. rewrite (Z.mul_comm skip k), Z.mod_add, Z.mod_small by lia. done.
    - intros [Hj <-]. exists (j / skip). pose proof (Z.div_mod j skip ltac:(lia)) as Hj'. split; [lia|]. apply elem_of_seqZ. split; [apply Z.div_pos; lia|]. nia. }
  split.
  - assert (∀ l, concat (row nsymbol skip <$> l) = l ≫= row nsymbol skip) as ->.
    { induction l as [|x l IH]; [done|]. rewrite fmap_cons, bind_cons. cbn [concat]. by rewrite IH. }
    apply NoDup_Permutation; [|apply NoDup_seqZ|].
    + apply NoDup_bind; [| |apply NoDup_seqZ].
      * intros x y j Hx%elem_of_seqZ Hy%elem_of_seqZ H1 H2. rewrite Hrow in H1, H2 by lia. lia.
      * intros x Hx%elem_of_seqZ. unfold row. apply NoDup_fmap_2; [intros a b Hab; nia|apply NoDup_seqZ].
    + intros j. rewrite elem_of_seqZ, list_elem_of_bind. split.
      * intros (i&Hj&Hi%elem_of_seqZ). apply Hrow in Hj; lia.
      * intros Hj. exists (j mod skip). assert (0 < skip) by nia. pose proof (Z.mod_pos_bound j skip ltac:(lia)). rewrite Hrow, elem_of_seqZ by lia. split; [split; [lia|done]|lia].
  - apply Forall_forall. intros r (i&->&Hi%elem_of_seqZ)%list_elem_of_fmap. unfold row, zlen. rewrite length_fmap, length_seqZ.
    pose proof (Z.div_le_upper_bound (nsymbol - i + skip - 1) skip ncolumns ltac:(lia)). assert ((nsymbol - i + skip - 1) / skip ≤ ncolumns); [|lia].
    destruct (decide (ncolumns = 0)); [lia|]. pose proof (Z.div_mod (nsymbol - i + skip - 1) skip ltac:(lia)). pose proof (Z.mod_pos_bound (nsymbol - i + skip - 1) skip ltac:(lia)). nia.
Qed.

Lemma fgets_concat text : ∀ room acc, concat (fgets_lines room acc text) = acc ++ text.
Proof.
  induction text as [|c text IH]; intros room acc; cbn [fgets_lines].
  - destruct acc; [done|]. cbn [concat]. by rewrite !app_nil_r.
  - destruct (c =? 10); [cbn [concat]; rewrite IH; by rewrite <- app_assoc|].
    destruct room; [cbn [concat]; rewrite IH; by rewrite <- app_assoc|]. rewrite IH. by rewrite <- app_assoc.
Qed.
Lemma same_lines_ok ps : ∀ read, Forall (λ p, zlen p < Z.of_nat LINESIZE) ps → Forall (Forall (λ c, c ≠ 0)) read →
  ∃ missing rest, same_lines ps read = Ok (missing, rest) ∧ (missing = [] → rest = [] → ps = read).
Proof.
  induction ps as [|p ps IH]; intros read Hp Hr; [eexists _, _; split; [done|]; by intros _ ->|].
  destruct read as [|r read]; [eexists _, _; by split|]. apply Forall_cons in Hp as [Hp Hps], Hr as [Hr Hrs]. cbn [same_lines]. rewrite (proj2 (Z.leb_gt _ _)) by done.
  rewrite (before_nul_id r Hr). destruct (bool_decide (r = p)) eqn:E; [|eexists _, _; by split]. apply bool_decide_eq_true in E as ->.
  destruct (IH read Hps Hrs) as (m&x&->&Hm). eexists _, _. split; [done|]. intros -> ->. by rewrite Hm.
Qed.
(** the header file: whatever file was there, afterwards it has the line of every token, in the
    order of their codes, and nothing else *)
Theorem ReportHeader_correct h lem prefix ps old : header_lines h lem prefix = Ok ps → Forall (λ p, zlen p < Z.of_nat LINESIZE) ps →
  (∀ text, old = Some text → Forall (λ c, c ≠ 0) text) → ReportHeader h lem prefix old = Ok (concat ps).
Proof.
  intros Hps Hl Ho. unfold ReportHeader. rewrite Hps. cbn [mbind res_bind]. destruct old as [text|]; [|done].
  assert (Forall (Forall (λ c, c ≠ 0)) (fgets_lines (LINESIZE - 2) [] text)) as Hr.
  { apply Forall_forall. intros x Hx. apply Forall_forall. intros c Hc. specialize (Ho text eq_refl). rewrite Forall_forall in Ho. apply Ho.
    change text with ([] ++ text). rewrite <- (fgets_concat text (LINESIZE - 2) []). apply list_elem_of_In, in_concat. exists x. by rewrite <- !list_elem_of_In. }
  destruct (same_lines_ok ps _ Hl Hr) as (m&x&->&Hm). cbn [mbind res_bind]. destruct m; [|done]. destruct x; [|done].
  rewrite (Hm eq_refl eq_refl), fgets_concat. done.
Qed.
(** an empty search path: the name of the template is whatever the new buffer holds *)
Theorem empty_path_unset access name : pathsearch access (lit "lemon") name (Some []) = Err UninitRead.
Proof. vm_compute; reflexivity. Qed.
(** the name of a token can be too long for the buffer of the line *)
Theorem header_line_escapes h lem prefix p r text : header_lines h lem prefix = Ok [p] → 1000 ≤ zlen p → fgets_lines (LINESIZE - 2) [] text = [r] →
  ReportHeader h lem prefix (Some text) = Err OutOfBounds.
Proof. intros Hp Hl Hr. unfold ReportHeader. rewrite Hp. cbn [mbind res_bind]. rewrite Hr. cbn [same_lines]. by rewrite (proj2 (Z.leb_le _ _)). Qed.
