(* ===== verification/LemonMain.v ===== *)
(** The parser generator as a whole ([src/sql/lemon.c], [main]): the command line, the
    reading of the grammar, the passes in the order in which they run, and the files
    that are written. The files of the system are a function from names to contents, which
    a run changes step by step, so that what was written stays when a later step faults;
    a file whose writing is cut short by a fault is empty here. A template that is also one
    of the files that are written is left out. *)
From stdpp Require Import functions.
From S2P Require Import Prelude LemonTable LemonPrintf LemonData LemonFirst LemonSymbol LemonActions LemonStates LemonLR0 LemonFollow LemonCompress LemonPreproc LemonRead LemonScan ActTab Lempar LemonTables LemonEmit LemonReport LemonOption LemonListing.

Notation files := (str → option str).

(** ** Computations over the files *)

Definition io (A : Type) : Type := files → files * res A.
Definition io_ret {A} (a : A) : io A := λ fs, (fs, Ok a).
Definition io_bind {A B} (m : io A) (f : A → io B) : io B :=
  λ fs, let '(fs, r) := m fs in match r with Ok a => f a fs | Err e => (fs, Err e) end.
Definition lift {A} (r : res A) : io A := λ fs, (fs, r).
Definition read_file (name : str) : io (option str) := λ fs, (fs, Ok (fs name)).
Definition exists_file : io (str → bool) := λ fs, (fs, Ok (λ f, bool_decide (is_Some (fs f)))).
Definition put_file (name text : str) : io unit := λ fs, (<[name := Some text]> fs, Ok tt).
Notation "'let!' p ':=' m 'in' k" := (io_bind m (λ p, k)) (at level 10, p pattern, m at level 200, k at level 200, format "'[v' 'let!'  p  ':='  m  'in' '//' k ']'").

(** ** What the options set *)

Record globals := mkGlobals { o_flag : str → Z; outputDir : option str; user_templatename : option str; azDefine : list str }.
Definition globals0 : globals := mkGlobals (λ _, 0) None None [].
Definition handle_d_option (o : globals) (z : str) : globals := mkGlobals (o_flag o) (Some z) (user_templatename o) (azDefine o).
Definition handle_T_option (o : globals) (z : str) : globals := mkGlobals (o_flag o) (outputDir o) (Some z) (azDefine o).
Definition apply_option (o : globals) (e : effect) : globals :=
  match e.2 with
  | VInt v => mkGlobals (<[e.1 := v]> (o_flag o)) (outputDir o) (user_templatename o) (azDefine o)
  | VDbl _ => o
  | VStr z =>
      if decide (e.1 = lit "handle_d_option") then handle_d_option o z
      else if decide (e.1 = lit "handle_T_option") then handle_T_option o z
      else if decide (e.1 = lit "handle_D_option") then mkGlobals (o_flag o) (outputDir o) (user_templatename o) (handle_D_option (azDefine o) z)
      else o
  end.
Definition flag (o : globals) (name : string) : bool := negb (o_flag o (lit name) =? 0).
Arguments flag _ _%_string_scope.

(** ** The program *)

(** the argument of [exit], and the version, the preprocessed text or the reprint on the
    standard output *)
Record run := mkRun { exit_arg : Z; r_stdout : str }.
(** the status the parent process sees: the low eight bits *)
Definition status (r : run) : Z := Z.land (exit_arg r) 255.

Section Main.
(** which allocations succeed, as in the passes; [strtod] *)
Context (calloc_ok : Z → bool) (malloc_ok rule_ok : bool) (calloc : nat → option Z) (malloc : nat → bool) (strtod : str → Z * str).
(** which files can be written, and the search path *)
Context (can_write : str → bool) (PATH : option str).
(** the depth of the recursion of [getstate] and of the last loop of [CompressTables] *)
Context (fuel : nat).

Definition with_lem (errorcnt : Z) (m : lemon) : lemon := upd_counts errorcnt (lem_nconflict m) m.

(** [file_open] for writing, the making of the text, and the number of errors *)
Definition write_file (name : str) (text : res str) (errorcnt : Z) : io Z :=
  if can_write name then let! _ := put_file name [] in let! text := lift text in let! _ := put_file name text in io_ret errorcnt
  else io_ret (errorcnt + 1).

(** the passes that make the tables *)
Definition initial_gen (n : Z) : res gen :=
  x ← of_opt NullDeref (State_init calloc_ok);
  Ok (mkGen [] [] [] true [] true (mkTable 0 [] []) x [] (mkApool 0 []) n).
Definition build (compress noResort : bool) (t : symtab) (lem : lemon) (h : heap) : res (lemon * heap) :=
  let size := SetSize (lem_nterminal lem + 1) in
  let rs := FindRulePrecedences (h_syms h) (h_rules h) in
  ss ← FindFirstSets (lem_symbols lem) (lem_nterminal lem) (lem_nsymbol lem) size (rul rs <$> lem_rule lem) (h_syms h);
  g ← initial_gen (lem_errorcnt lem);
  let* (rs, g) := FindStates ss rs (lem_errsym lem) size calloc_ok calloc malloc fuel t lem g in
  let sorted := State_arrayof (g_x3 g) in
  let lem := with_lem (g_errorcnt g) (upd_sorted sorted (lem_nxstate lem) lem) in
  let cfgs := FindLinks (g_states g) sorted (g_cfgs g) in
  cfgs ← FindFollowSets (g_states g) sorted size cfgs;
  let* (lem, h, _) := FindActions calloc t lem (mkHeap ss rs cfgs (g_states g)) (g_pool g) in
  h ← (if compress then Ok h else let* (_, h) := CompressTables calloc_ok malloc_ok fuel t lem h in Ok h);
  if noResort then Ok (lem, h) else ResortStates lem h.

(** [ReportTable] with its files: the number of errors. [outname] is the name of the file
    that was opened last; what the macros that configure the driver are does not show in
    the file. *)
Definition ReportTable (o : globals) (g : grammar) (nruleWithAction : Z) (filename argv0 : str) (lem : lemon) (h : heap) : io Z :=
  let name suffix := file_makename (outputDir o) filename suffix in
  let! there := exists_file in
  let! (tpltname, n) := lift (tplt_open there (user_templatename o) filename argv0 PATH) in
  match tpltname with
  | None => io_ret (lem_errorcnt lem + n)
  | Some tpltname =>
      let! template := read_file tpltname in
      let! template := lift (of_opt NullDeref template) in
      if negb (can_write (name (lit ".c"))) then io_ret (lem_errorcnt lem + 1)
      else
        let! _ := put_file (name (lit ".c")) [] in
        if flag o "sqlFlag" && negb (can_write (name (lit ".sql"))) then io_ret (lem_errorcnt lem + 1)
        else
          let! _ := if flag o "sqlFlag" then write_file (name (lit ".sql")) (sql_file lem (h_syms h) (h_rules h)) 0 else io_ret 0 in
          let outname := name (if flag o "sqlFlag" then lit ".sql" else lit ".c") in
          let! (out, _, errorcnt) :=
            lift (report_file (flag o "nolinenosflag") (g_has_fallback g) (flag o "mhflag") filename outname (name (lit ".h")) (g_text g) nruleWithAction
              100 false false lem h template) in
          let! _ := put_file (name (lit ".c")) (text_of (o_out out)) in
          io_ret errorcnt
  end.
(** [ReportHeader] with its files *)
Definition header_file (o : globals) (g : grammar) (filename : str) (lem : lemon) (h : heap) (errorcnt : Z) : io Z :=
  let name := file_makename (outputDir o) filename (lit ".h") in
  let! old := read_file name in
  let! text := lift (ReportHeader (h_syms h) lem (default [] (g_text g S_tokenprefix)) old) in
  if decide (old = Some text) then io_ret errorcnt else write_file name (Ok text) errorcnt.

(** the symbols and the rules that were read get their numbers *)
Definition prepare (g : grammar) (errsym : option nat) (t : symtab) : res (lemon * heap * Z) :=
  let* (ss, symbols, nsymbol, nterminal) := index_symbols t in
  let '(rs, nruleWithAction, rules) := number_rules (g_list g) (g_rules g) in
  Ok (mkLemon [] rules (head (g_list g)) 0 nsymbol nterminal 0 0 0 0 0 0 symbols 0 errsym (g_wildcard g) (to_cstr <$> g_text g S_start) 0, mkHeap ss rs [] [], nruleWithAction).
(** everything behind the reading of the grammar, but for the statistics *)
Definition generate (o : globals) (g : grammar) (filename argv0 : str) (errsym : option nat) (t : symtab) : io run :=
  let! (lem, h, nruleWithAction) := lift (prepare g errsym t) in
  if flag o "rpflag" then let! text := lift (Reprint (h_syms h) (h_rules h) lem filename) in io_ret (mkRun 0 text)
  else
    let! (lem, h) := lift (build (flag o "compress") (flag o "noResort") t lem h) in
    let! errorcnt :=
      if flag o "quiet" then io_ret (lem_errorcnt lem)
      else
        write_file (file_makename (outputDir o) filename (lit ".out"))
          (ReportOutput (h_syms h) (h_rules h) (h_cfgs h) (h_states h) (flag o "basisflag") (flag o "showPrecedenceConflict") lem) (lem_errorcnt lem) in
    let! errorcnt := ReportTable o g nruleWithAction filename argv0 (with_lem errorcnt lem) h in
    let! errorcnt := if flag o "mhflag" then io_ret errorcnt else header_file o g filename lem h errorcnt in
    io_ret (mkRun (if (0 <? errorcnt) || (0 <? lem_nconflict lem) then 1 else 0) []).

Definition dollar : cstr := to_cstr (lit "$").
Definition error_name : cstr := to_cstr (lit "error").
(** the tables are set up and the file is parsed: the number of errors and the grammar *)
Definition read_grammar (o : globals) (filename : str) (text : option str) : res (Z * grammar) :=
  strs ← of_opt NullDeref (Strsafe_init calloc_ok);
  x2 ← of_opt NullDeref (Symbol_init calloc_ok);
  let* (_, t) := Symbol_new calloc_ok malloc_ok dollar (mkSymtab [] x2 strs) in
  let* (_, errorcnt, g) := LemonScan.Parse calloc_ok malloc_ok rule_ok filename (flag o "nolinenosflag") (azDefine o) text (flag o "printPP") t in
  Ok (errorcnt, g).
(** what [Parse] prints of the file: the preprocessed text, when it is asked for *)
Definition printed (o : globals) (text : option str) : res str :=
  match text with
  | Some filebuf => if flag o "printPP" then text ← preprocess_input (azDefine o) (before_nul filebuf); Ok (text ++ [10]) else Ok []
  | None => Ok []
  end.
Definition main (args : argv) : io run :=
  let! es := lift (OptInit strtod options args) in
  let o := foldl apply_option globals0 es in
  if flag o "version" then io_ret (mkRun 0 (lit "Lemon version 1.0" ++ [10]))
  else if negb (OptNArgs args =? 1) then io_ret (mkRun 1 [])
  else
    let! argv0 := lift (of_opt NullDeref (head args)) in
    let! filename := lift (of_opt NullDeref (OptArg args 0)) in
    let! text := read_file filename in
    let! (errorcnt, g) := lift (read_grammar o filename text) in
    let! out := lift (printed o text) in
    if flag o "printPP" || negb (errorcnt =? 0) then io_ret (mkRun errorcnt out)
    else if g_nrule g =? 0 then io_ret (mkRun 1 [])
    else
      let! errsym := lift (Symbol_find (g_tab g) error_name) in
      let! (_, t) := lift (Symbol_new calloc_ok malloc_ok default_cstr (g_tab g)) in
      generate o g filename argv0 errsym t.

(** the tables of a grammar: what [main] does without options, up to the arrays of
    [ReportTable]; a grammar with errors has none *)
Definition grammar_tables (filename text : str) : res (lemon * heap * yytables) :=
  strs ← of_opt NullDeref (Strsafe_init calloc_ok);
  x2 ← of_opt NullDeref (Symbol_init calloc_ok);
  let* (_, t) := Symbol_new calloc_ok malloc_ok dollar (mkSymtab [] x2 strs) in
  let* (_, errorcnt, g) := LemonScan.Parse calloc_ok malloc_ok rule_ok filename false [] (Some text) false t in
  if negb (errorcnt =? 0) || (g_nrule g =? 0) then Err ExitCalled
  else
    errsym ← Symbol_find (g_tab g) error_name;
    let* (_, t) := Symbol_new calloc_ok malloc_ok default_cstr (g_tab g) in
    let* (lem, h, _) := prepare g errsym t in
    let* (lem, h) := build false false t lem h in
    report_tables 100 false false (g_has_fallback g) true lem h.
End Main.

(** ** What a run changes *)

Definition outputs (o : globals) (filename : str) : list str := file_makename (outputDir o) filename <$> [lit ".c"; lit ".h"; lit ".out"; lit ".sql"].
Definition same_but (l : list str) (fs fs' : files) : Prop := ∀ f, f ∉ l → fs' f = fs f.

Section Frame.
Context (calloc_ok : Z → bool) (malloc_ok rule_ok : bool) (calloc : nat → option Z) (malloc : nat → bool) (strtod : str → Z * str).
Context (can_write : str → bool) (PATH : option str) (fuel : nat).

(** a computation that changes no file outside [l] *)
Definition stays {A} (l : list str) (m : io A) : Prop := ∀ fs, same_but l fs (m fs).1.
Lemma stays_lift {A} l (r : res A) : stays l (lift r).
Proof. by intros fs f. Qed.
Lemma stays_ret {A} l (a : A) : stays l (io_ret a).
Proof. by intros fs f. Qed.
Lemma stays_read l name : stays l (read_file name).
Proof. by intros fs f. Qed.
Lemma stays_exists l : stays l exists_file.
Proof. by intros fs f. Qed.
Lemma stays_put l name text : name ∈ l → stays l (put_file name text).
Proof. intros Hn fs f Hf. cbn. rewrite fn_lookup_insert_ne; [done|]. by intros ->. Qed.
Lemma stays_bind {A B} l (m : io A) (f : A → io B) : stays l m → (∀ a, stays l (f a)) → stays l (io_bind m f).
Proof.
  intros Hm Hf fs. unfold io_bind. specialize (Hm fs). destruct (m fs) as [fs1 [a|e]]; [|done]. intros n Hn. cbn [fst] in Hm. rewrite <- (Hm n Hn). by apply Hf.
Qed.
Lemma stays_ok {A B} l (a : A) (f : A → io B) : stays l (f a) → stays l (io_bind (lift (Ok a)) f).
Proof. done. Qed.
Lemma stays_write l name text n : name ∈ l → stays l (write_file can_write name text n).
Proof.
  intros Hn. unfold write_file. destruct (can_write name); [|apply stays_ret]. apply stays_bind; [by apply stays_put|]. intros _.
  apply stays_bind; [apply stays_lift|]. intros t. apply stays_bind; [by apply stays_put|]. intros _. apply stays_ret.
Qed.
Lemma output_in o f x : x ∈ [lit ".c"; lit ".h"; lit ".out"; lit ".sql"] → file_makename (outputDir o) f x ∈ outputs o f.
Proof. apply list_elem_of_fmap_2. Qed.
Ltac suffix := apply output_in, (bool_decide_unpack _); vm_compute; exact I.
(** goes through a computation *)
Ltac stay := repeat first
  [apply stays_ret|apply stays_lift|apply stays_read|apply stays_exists|apply stays_put; suffix|apply stays_write; suffix|
   simple apply stays_ok|apply stays_bind; [|intros ?]|match goal with |- stays _ (match ?x with _ => _ end) => destruct x end].

(** when the file could be read, its text could be printed *)
Lemma read_printed o filename text x : read_grammar calloc_ok malloc_ok rule_ok o filename text = Ok x → ∃ out, printed o text = Ok out.
Proof.
  unfold read_grammar, printed. intros (?&_&H)%res_bind_Ok. apply res_bind_Ok in H as (?&_&H). apply res_bind_Ok in H as ([? t]&_&H).
  apply res_bind_Ok in H as (?&H&_). unfold LemonScan.Parse in H. destruct text as [filebuf|]; [|by eexists].
  apply res_bind_Ok in H as (text&->&_). destruct (flag o "printPP"); by eexists.
Qed.

Lemma generate_frame o g filename argv0 errsym t : stays (outputs o filename) (generate calloc_ok malloc_ok calloc malloc can_write PATH fuel o g filename argv0 errsym t).
Proof. unfold generate. stay. Qed.

(** C10: what a run of the parser generator does to the files, however it ends: normally, by
    [exit] or a failed assertion in any pass, by a fault, or cut off at any depth of its
    recursions. With arguments that are not understood, or without a file argument, nothing
    changes. Otherwise no file changes but the four whose names are made from the file
    argument and the output directory: the parser, its header, the report and the SQL file.
    When there is one file argument, the version is not asked for, and the grammar is read
    and has errors, or was only to be printed, no file at all has changed, the argument of
    [exit] is the number of the errors, and the standard output is the preprocessed text if
    that was asked for. *)
Theorem main_frame args fs :
  let '(fs', r) := main calloc_ok malloc_ok rule_ok calloc malloc strtod can_write PATH fuel args fs in
  match OptInit strtod options args, OptArg args 0 with
  | Ok es, Some filename =>
      let o := foldl apply_option globals0 es in
      same_but (outputs o filename) fs fs' ∧
      ∀ errorcnt g, flag o "version" = false → OptNArgs args = 1 → read_grammar calloc_ok malloc_ok rule_ok o filename (fs filename) = Ok (errorcnt, g) →
        flag o "printPP" = true ∨ errorcnt ≠ 0 → fs' = fs ∧ ∃ out, r = Ok (mkRun errorcnt out) ∧ printed o (fs filename) = Ok out
  | _, _ => fs' = fs
  end.
Proof.
  destruct (main _ _ _ _ _ _ _ _ _ args fs) as [fs' r] eqn:E. unfold main in E. destruct (OptInit strtod options args) as [es|e] eqn:Eo; [|by injection E as <- _].
  cbn [io_bind lift] in E. cbv zeta in E. set (o := foldl apply_option globals0 es) in *. destruct (OptArg args 0) as [filename|] eqn:Ea.
  2: { destruct (flag o "version"); [by injection E as <- _|]. destruct (negb _); [by injection E as <- _|]. unfold io_bind, lift in E. destruct (head args); by injection E as <- _. }
  cbv zeta. split.
  - revert E. match goal with |- ?m fs = _ → _ => assert (stays (outputs o filename) m) as Hm end.
    { change (of_opt NullDeref (Some filename)) with (Ok filename). stay. }
    intros E. specialize (Hm fs). by rewrite E in Hm.
  - intros n g Hv Hn Hr Hp. rewrite Hv, Hn in E. change (negb (1 =? 1)) with false in E. cbv iota in E. unfold io_bind, lift, read_file in E.
    destruct args as [|a args]; [done|]. cbn [head of_opt] in E. rewrite Hr in E.
    destruct (read_printed _ _ _ _ Hr) as [out Hout]. rewrite Hout in E.
    assert (flag o "printPP" || negb (n =? 0) = true) as Hpp by (apply orb_true_iff; destruct Hp as [->|Hz]; [by left|right; by rewrite (proj2 (Z.eqb_neq n 0))]).
    rewrite Hpp in E. injection E as <- <-. split; [done|by exists out].
Qed.

(** Without sorting the states, their number in the tables stays zero: no state is written,
    whatever the grammar. *)
Theorem no_resort_no_states compress t lem h lem' h' : lem_nxstate lem = 0 →
  build calloc_ok malloc_ok calloc malloc fuel compress true t lem h = Ok (lem', h') → emitted_states lem' = [].
Proof.
  unfold build. intros Hn (ss&_&H)%res_bind_Ok. apply res_bind_Ok in H as (g&_&H). apply res_bind_Ok in H as ([rs g']&_&H).
  apply res_bind_Ok in H as (cfgs&_&H). apply res_bind_Ok in H as ([[lem1 h1] st]&Ha&H). apply res_bind_Ok in H as (h2&_&[= <- _]).
  unfold FindActions in Ha. apply res_bind_Ok in Ha as ([h3 st3]&_&Ha). apply res_bind_Ok in Ha as (sp&_&Ha). apply res_bind_Ok in Ha as (s0&_&Ha).
  apply res_bind_Ok in Ha as ([app st4]&_&Ha). apply res_bind_Ok in Ha as ([n h4]&_&[= <- _ _]). unfold emitted_states. cbn [upd_counts with_lem upd_sorted lem_nxstate lem_sorted]. by rewrite Hn.
Qed.
End Frame.

(** ** A small grammar *)

Definition mn_grammar : str :=
  lines [lit "%include {int x;}"; lit "%left PLUS."; lit "%syntax_error {e();}"; lit "s ::= e."; lit "e ::= e PLUS e. {a();}"; lit "e ::= ID."].
Definition mn_files (grammar : str) : files := <[lit "g.y" := Some grammar]> (<[lit "lempar.c" := Some rw_template]> (λ _, None)).
Notation mn_main args grammar :=
  (main (λ _, true) true true (λ n, Some (Z.of_nat n * 100)) (λ _, true) (λ s, (0, s)) (λ _, true) None 100 (lit "lemon" :: args) (mn_files grammar)).
(** a line of the parser that is written by a run that ends *)
Definition has_line (l : str) (x : files * res run) : bool :=
  match x.2 with Ok _ => match x.1 (lit "g.c") with Some t => bool_decide (l ++ [10] ∈ template_lines t) | None => false end | Err _ => false end.

Lemma mn_options : OptInit (λ s, (0, s)) options [lit "lemon"; lit "g.y"] = Ok [] ∧ OptArg [lit "lemon"; lit "g.y"] 0 = Some (lit "g.y").
Proof. vm_compute. split; reflexivity. Qed.
Lemma mn_result : let x := mn_main [lit "g.y"] mn_grammar in (exit_arg <$> x.2) = Ok 0 ∧ has_line (lit "#define YYNSTATE             3") x = true.
Proof. vm_compute. split; reflexivity. Qed.
Lemma mn_input : lit "g.y" ∉ outputs globals0 (lit "g.y").
Proof. apply (bool_decide_unpack _). vm_compute. exact I. Qed.
Lemma main_frame_witness : let x := mn_main [lit "g.y"] mn_grammar in
  (exit_arg <$> x.2) = Ok 0 ∧ has_line (lit "#define YYNSTATE             3") x = true ∧ x.1 (lit "g.y") = Some mn_grammar.
Proof.
  cbv zeta. split; [apply mn_result|]. split; [apply mn_result|].
  pose proof (main_frame (λ _, true) true true (λ n, Some (Z.of_nat n * 100)) (λ _, true) (λ s, (0, s)) (λ _, true) None 100 (lit "lemon" :: [lit "g.y"]) (mn_files mn_grammar)) as H.
  destruct (mn_main [lit "g.y"] mn_grammar) as [fs' r]. rewrite (proj1 mn_options), (proj2 mn_options) in H. destruct H as [Hs _]. cbn [fst].
  rewrite (Hs _ mn_input). unfold mn_files. apply fn_lookup_insert.
Defined.

(** With the option that keeps the order of the states, the parser that is written has no
    states, and the program reports success. *)
Theorem unsorted_parser_empty :
  has_line (lit "#define YYNSTATE             0") (mn_main [lit "-r"; lit "g.y"] mn_grammar) = true ∧
  has_line (lit "#define YY_MAX_SHIFT         -1") (mn_main [lit "-r"; lit "g.y"] mn_grammar) = true.
Proof. vm_compute. split; reflexivity. Qed.
(** With the option for the SQL file, the directives in the parser name the SQL file. *)
Theorem directives_name_sql : 
  has_line (lit "#line 6 " ++ quoted (lit "g.sql")) (mn_main [lit "-S"; lit "g.y"] mn_grammar) = true ∧
  has_line (lit "#line 6 " ++ quoted (lit "g.c")) (mn_main [lit "g.y"] mn_grammar) = true.
Proof. vm_compute. split; reflexivity. Qed.
(** The number of errors is the argument of [exit]: with 256 of them the program ends with
    the status of success. *)
Theorem many_errors_succeed :
  match (mn_main [lit "g.y"] (concat (replicate 128 (lit "1.")))).2 with Ok r => exit_arg r = 256 ∧ status r = 0 | Err _ => False end.
Proof. vm_compute. split; reflexivity. Qed.
