(* ===== verification/SqlGrammar.v ===== *)
(** The parser of Dawn's SQL ([src/sql/parse.y]): the grammar file, the tables that the
    parser generator makes of it, and what a run of the driver on these tables that
    accepts has found. *)
From S2P Require Import Prelude LemonTable LemonData LemonFirst LemonSymbol LemonActions LemonCompress LemonPreproc LemonRead LemonScan ActTab Lempar LemparSound LemparSafe LemonTables LemonReport LemonMain.

(** ** The file *)

(** a line, with a tilde for every quotation mark *)
Definition y (s : string) : str := (λ c, if c =? 126 then 34 else c) <$> lit s.
Arguments y _%_string_scope.
Definition parse_y : str := lines [
  y "%include {";
  y "#include <stdio.h>";
  y "#include <iostream>";
  y "#include <assert.h>";
  y "#include <string.h>";
  y "";
  y "#include ~ast/node.h~";
  y "#include ~ast/ddl.h~";
  y "#include ~ast/dml.h~";
  y "#include ~util/config.h~";
  y "#include ~sql/lex.h~";
  y "";
  y "static bool debug = false;";
  y "";
  y "inline void debug_print(std::string info) {";
  y "    if (debug) {";
  y "        std::cout << info << std::endl;";
  y "    }";
  y "}";
  y "}";
  y "";
  y "%token_type {dawn::Token}";
  y "%token_prefix TOKEN_";
  y "%extra_argument {dawn::StmtListNode* ast_root}";
  y "%name dawn_parse";
  y "";
  y "%left PLUS MINUS STAR DIVIDE EQUAL GREATER LESS.";
  y "%left GT_EQ LE_EQ NOT_EQ OR AND NOT.";
  y "";
  y "%syntax_error {";
  y "    debug_print(~Error Happends~);";
  y "    ast_root->set_error();";
  y "}";
  y "";
  y "////////////////////// Non-terminal Type Definition //////////////////////";
  y "";
  y "%type stmt_list {dawn::StmtListNode*}";
  y "%type stmt {dawn::StmtNode*}";
  y "%type ddl {dawn::DDLNode*}";
  y "%type dml {dawn::DMLNode*}";
  y "%type create {dawn::CreateNode*}";
  y "%type drop {dawn::DropNode*}";
  y "%type identifier {dawn::IdentifierNode*}";
  y "%type create_def_list {dawn::CreateDefListNode*}";
  y "%type create_def {dawn::CreateDefNode*}";
  y "%type col_name {dawn::IdentifierNode*}";
  y "%type column_def {dawn::ColumnDefNode*}";
  y "%type data_type {dawn::DataTypeNode*}";
  y "%type insert {dawn::InsertNode*}";
  y "%type value_list {dawn::ValueListNode*}";
  y "%type value {dawn::ValueNode*}";
  y "%type literal {dawn::LiteralNode*}";
  y "%type where_condition {dawn::WhereCondNode*}";
  y "%type select {dawn::SelectNode*}";
  y "%type select_expr_list {dawn::SelectExprListNode*}";
  y "%type table_references {dawn::TableRefsNode*}";
  y "%type select_expr {dawn::SelectExprNode*}";
  y "%type table_reference {dawn::TableRefNode*}";
  y "%type table_factor {dawn::TableFactorNode*}";
  y "%type tb_name {dawn::TableNameNode*}";
  y "%type expr {dawn::ExprNode*}";
  y "%type boolean_primary {dawn::BooleanPrimaryNode*}";
  y "%type comparison_operator {dawn::ComparisonOprNode*}";
  y "%type predicate {dawn::PredicateNode*}";
  y "%type bit_expr {dawn::BitExprNode*}";
  y "%type simple_expr {dawn::SimpleExprNode*}";
  y "%type delete {dawn::DeleteNode*}";
  y "";
  y "//////////////////////////////// Rules Begin ////////////////////////////////";
  y "";
  y "sql ::= stmt_list(A). {";
  y "    debug_print(~sql: stmt_list~);";
  y "    *ast_root = std::move(*A);";
  y "    delete A;";
  y "}";
  y "";
  y "stmt_list(A) ::= stmt(B). {";
  y "    debug_print(~stmt_list: stmt~);";
  y "    A = new dawn::StmtListNode();";
  y "    A->add_child(B);";
  y "}";
  y "";
  y "stmt_list(A) ::= stmt_list(B) SEMICOLON stmt(C). {";
  y "    debug_print(~stmt_list: stmt_list ';' stmt~);";
  y "    B->add_child(C);";
  y "    A = B;";
  y "}";
  y "";
  y "stmt(A) ::= ddl(B). {";
  y "    debug_print(~stmt: ddl~);";
  y "    A = B;";
  y "}";
  y "";
  y "stmt(A) ::= dml(B). {";
  y "    debug_print(~stmt: dml~);";
  y "    A = B;";
  y "}";
  y "";
  y "stmt(A) ::= empty_stmt. {";
  y "    debug_print(~stmt: empty_stmt~);";
  y "    A = new dawn::StmtNode(dawn::NodeType::kEmptyStmt);";
  y "}";
  y "";
  y "empty_stmt ::= . {debug_print(~empty_stmt~);}";
  y "";
  y "ddl(A) ::= create(B). {";
  y "    debug_print(~ddl: create~);";
  y "    // A = new dawn::DDLNode(dawn::DDLType::kCreateTable);";
  y "    // A->add_child(B);";
  y "    A = B;";
  y "}";
  y "";
  y "ddl(A) ::= drop(B). {";
  y "    debug_print(~ddl: drop~);";
  y "    // A = new dawn::DDLNode(dawn::DDLType::kDropTable);";
  y "    // A->add_child(B);";
  y "    A = B;";
  y "}";
  y "";
  y "dml(A) ::= insert(B). {";
  y "    debug_print(~dml: insert~);";
  y "    // A = new dawn::DMLNode(dawn::DMLType::kInsert);";
  y "    // A->add_child(B);";
  y "    A = B;";
  y "}";
  y "";
  y "dml(A) ::= delete(B). {";
  y "    debug_print(~dml: delete~);";
  y "    A = B;";
  y "}";
  y "";
  y "dml(A) ::= select(B). {";
  y "    debug_print(~dml: select~);";
  y "    // A = new dawn::DMLNode(dawn::DMLType::kSelect);";
  y "    // A->add_child(B);";
  y "    A = B;";
  y "}";
  y "";
  y "create(A) ::= CREATE TABLE identifier(B) LEFT_PARENTHESES create_def_list(C) RIGHT_PARENTHESES. {";
  y "    debug_print(~create: CREATE TABLE identifier '(' create_def_list ')'~);";
  y "    A = new dawn::CreateNode(B, C);";
  y "}";
  y "";
  y "create_def_list(A) ::= create_def(B). {";
  y "    debug_print(~create_def_list: create_def~);";
  y "    A = new dawn::CreateDefListNode();";
  y "    A->add_child(B);";
  y "}";
  y "";
  y "create_def_list(A) ::= create_def_list(B) COMMA create_def(C). {";
  y "    debug_print(~create_def_list: create_def_list ',' create_def~);";
  y "    B->add_child(C);";
  y "    A = B;";
  y "}";
  y "";
  y "create_def(A) ::= col_name(B) column_def(C). {";
  y "    debug_print(~create_def: col_name column_def~);";
  y "    A = new dawn::CreateDefNode(B, C);";
  y "}";
  y "";
  y "create_def(A) ::= PRIMARY_KEY LEFT_PARENTHESES identifier(B) RIGHT_PARENTHESES. {";
  y "    debug_print(~create_def: PRIMARY_KEY '(' identifier ')'~);";
  y "    A = new dawn::CreateDefNode(B);";
  y "}";
  y "";
  y "col_name(A) ::= identifier(B). {";
  y "    debug_print(~col_name: identifier~);";
  y "    A = B;";
  y "}";
  y "";
  y "column_def(A) ::= data_type(B). {";
  y "    debug_print(~column_def: data_type~);";
  y "    A = new dawn::ColumnDefNode(B);";
  y "}";
  y "";
  y "data_type(A) ::= CHAR LEFT_PARENTHESES INT_NUM(B) RIGHT_PARENTHESES. {";
  y "    debug_print(~data_type: CHAR '(' NUMBER ')'~);";
  y "    A = new dawn::DataTypeNode(dawn::TypeId::kChar, B.val_.integer_);";
  y "}";
  y "";
  y "data_type(A) ::= INT. {";
  y "    debug_print(~data_type: INT~);";
  y "    A = new dawn::DataTypeNode(dawn::TypeId::kInteger);";
  y "}";
  y "";
  y "data_type(A) ::= DECIMAL. {";
  y "    debug_print(~data_type: DECIMAL~);";
  y "    A = new dawn::DataTypeNode(dawn::TypeId::kDecimal);";
  y "}";
  y "";
  y "data_type(A) ::= BOOLEAN. {";
  y "    debug_print(~data_type: BOOLEAN~);";
  y "    A = new dawn::DataTypeNode(dawn::TypeId::kBoolean);";
  y "}";
  y "";
  y "identifier(A) ::= ID(B). {";
  y "    debug_print(~identifier: ID~);";
  y "    A = new dawn::IdentifierNode(B.val_.varchar_);";
  y "    delete[] B.val_.varchar_;";
  y "}";
  y "";
  y "drop(A) ::= DROP TABLE identifier(B). {";
  y "    debug_print(~drop: DROP TABLE identifier~);";
  y "    A = new dawn::DropNode(B);";
  y "}";
  y "";
  y "insert(A) ::= INSERT INTO identifier(B) VALUES LEFT_PARENTHESES value_list(C) RIGHT_PARENTHESES. {";
  y "    debug_print(~insert: INSERT INTO identifier VALUES '(' value_list ')'~);";
  y "    A = new dawn::InsertNode(B, C);";
  y "}";
  y "";
  y "value_list(A) ::= value(B). {";
  y "    debug_print(~value_list: value~);";
  y "    dawn::ValueListNode* node = new dawn::ValueListNode();";
  y "    node->add_child(B);";
  y "    A = node;";
  y "}";
  y "";
  y "value_list(A) ::= value_list(B) COMMA value(C). {";
  y "    debug_print(~value_list: value_list ',' value~);";
  y "    B->add_child(C);";
  y "    A = B;";
  y "}";
  y "";
  y "value(A) ::= literal(B). {";
  y "    debug_print(~value: literal~);";
  y "    A = new dawn::ValueNode(B);";
  y "}";
  y "";
  y "delete(A) ::= DELETE FROM identifier(B) WHERE where_condition(C). {";
  y "    debug_print(~delete: DELETE FROM identifier WHERE where_condition~);";
  y "    ";
  y "    // The following codes are expedient for tackling the memory leak";
  y "    A = new dawn::DeleteNode();";
  y "    A->add_child(B);";
  y "    A->add_child(C);";
  y "}";
  y "";
  y "select(A) ::= SELECT select_expr_list(B) FROM table_references(C) WHERE where_condition(D). {";
  y "    debug_print(~select: SELECT select_expr FROM table_references WHERE where_condition~);";
  y "    A = new dawn::SelectNode();";
  y "    A->set_select_expr_list(B);";
  y "    A->set_table_refs(C);";
  y "    A->set_where_cond(D);";
  y "}";
  y "";
  y "select_expr_list(A) ::= select_expr(B). {";
  y "    debug_print(~select_exprs: select_expr~);";
  y "    A = new dawn::SelectExprListNode();";
  y "    if (B->get_type() == dawn::SelectExprNode::SelectExprType::kStar)";
  y "        A->set_star(true);";
  y "    else";
  y "        A->add_child(B);";
  y "}";
  y "";
  y "select_expr_list(A) ::= select_expr_list(B) COMMA select_expr(C). {";
  y "    debug_print(~select_exprs: select_expr_list ',' select_expr~);";
  y "    if (B->is_star()) {";
  y "        // Do nothing if there is a '*' in the expression list";
  y "    } else {";
  y "        B->add_child(C);";
  y "        A = B;";
  y "    }";
  y "}";
  y "";
  y "select_expr(A) ::= col_name(B). {";
  y "    debug_print(~select_expr: col_name~);";
  y "    A = new dawn::SelectExprNode(dawn::SelectExprNode::SelectExprType::kColName);";
  y "    A->add_child(B);";
  y "}";
  y "";
  y "select_expr(A) ::= STAR. {";
  y "    debug_print(~select_expr: *~);";
  y "    A = new dawn::SelectExprNode(dawn::SelectExprNode::SelectExprType::kStar);";
  y "}";
  y "";
  y "// We only support the single table so far.";
  y "table_references(A) ::= table_reference(B). {";
  y "    debug_print(~table_references: table_reference~);";
  y "    A = new dawn::TableRefsNode();";
  y "    A->add_child(B);";
  y "}";
  y "";
  y "table_references ::= table_references COMMA table_reference. {";
  y "    debug_print(~table_references: table_references ',' table_reference~);";
  y "    // We do not support multi tables so far";
  y "    // TODO: Cartesian product";
  y "}";
  y "";
  y "// Only support single table so far.";
  y "table_reference(A) ::= table_factor(B). {";
  y "    debug_print(~table_reference: table_factor~);";
  y "    A = new dawn::TableRefNode();";
  y "    A->add_child(B);";
  y "}";
  y "";
  y "table_reference ::= joined_table. {";
  y "    debug_print(~table_reference: joined_table~);";
  y "}";
  y "";
  y "table_factor(A) ::= tb_name(B). {";
  y "    debug_print(~table_factor: tb_name~);";
  y "    A = new dawn::TableFactorNode();";
  y "    A->add_child(B);";
  y "}";
  y "";
  y "joined_table ::= table_reference NATURAL JOIN table_factor. {";
  y "    debug_print(~joined_table: table_reference NATURAL JOIN table_factor~);";
  y "}";
  y "";
  y "tb_name(A) ::= identifier(B). {";
  y "    debug_print(~tb_name: identifier~);";
  y "    A = B;";
  y "}";
  y "";
  y "where_condition(A) ::= expr(B). {";
  y "    debug_print(~where_condition: expr~);";
  y "    A = B;";
  y "}";
  y "";
  y "expr(A) ::= expr(B) AND expr(C). {";
  y "    debug_print(~expr: expr AND expr~);";
  y "    A = new dawn::ExprNode(dawn::ExprNode::ExprType::kAND);";
  y "    A->add_child(B);";
  y "    A->add_child(C);";
  y "}";
  y "";
  y "expr(A) ::= expr(B) OR expr(C). {";
  y "    debug_print(~expr: expr OR expr~);";
  y "    A = new dawn::ExprNode(dawn::ExprNode::ExprType::kOR);";
  y "    A->add_child(B);";
  y "    A->add_child(C);";
  y "}";
  y "";
  y "expr(A) ::= NOT expr(B). {";
  y "    debug_print(~expr: NOT expr~);";
  y "    A = new dawn::ExprNode(dawn::ExprNode::ExprType::kNOT);";
  y "    A->add_child(B);";
  y "}";
  y "";
  y "expr(A) ::= boolean_primary(B). {";
  y "    debug_print(~expr: boolean_primary~);";
  y "    A = new dawn::ExprNode(dawn::ExprNode::ExprType::kBooleanPrimary);";
  y "    A->add_child(B);";
  y "}";
  y "";
  y "boolean_primary(A) ::= boolean_primary(B) comparison_operator(C) predicate(D). {";
  y "    debug_print(~boolean_primary: boolean_primary comparison_operator predicate~);";
  y "    A = new dawn::BooleanPrimaryNode();";
  y "    A->set_recursive(true);";
  y "    A->set_comparison_opr(true);";
  y "    A->add_child(B);";
  y "    A->add_child(C);";
  y "    A->add_child(D);";
  y "}";
  y "";
  y "boolean_primary(A) ::= predicate(B). {";
  y "    debug_print(~boolean_primary: predicate~);";
  y "    A = new dawn::BooleanPrimaryNode();";
  y "    A->add_child(B);";
  y "}";
  y "";
  y "comparison_operator(A) ::= EQUAL. {";
  y "    debug_print(~comparison_operator: =~);";
  y "    A = new dawn::ComparisonOprNode(dawn::ComparisonOprNode::ComparisonOprType::kEqual);";
  y "}";
  y "";
  y "comparison_operator(A) ::= GREATER_SIGN. {";
  y "    debug_print(~comparison_operator: >~);";
  y "    A = new dawn::ComparisonOprNode(dawn::ComparisonOprNode::ComparisonOprType::kGreater);";
  y "}";
  y "";
  y "comparison_operator(A) ::= LESS_SIGN. {";
  y "    debug_print(~comparison_operator: <~);";
  y "    A = new dawn::ComparisonOprNode(dawn::ComparisonOprNode::ComparisonOprType::kLess);";
  y "}";
  y "";
  y "comparison_operator(A) ::= GT_EQ. {";
  y "    debug_print(~comparison_operator: GT_EQ~);";
  y "    A = new dawn::ComparisonOprNode(dawn::ComparisonOprNode::ComparisonOprType::kGreaterEq);";
  y "}";
  y "";
  y "comparison_operator(A) ::= LE_EQ. {";
  y "    debug_print(~comparison_operator: LE_EQ~);";
  y "    A = new dawn::ComparisonOprNode(dawn::ComparisonOprNode::ComparisonOprType::kLessEq);";
  y "}";
  y "";
  y "comparison_operator(A) ::= NOT_EQ. {";
  y "    debug_print(~comparison_operator: NOT_EQ~);";
  y "    A = new dawn::ComparisonOprNode(dawn::ComparisonOprNode::ComparisonOprType::kNotEqual);";
  y "}";
  y "";
  y "predicate(A) ::= bit_expr(B). {";
  y "    debug_print(~predicate: bit_expr~);";
  y "    dawn::PredicateNode* predicate = new dawn::PredicateNode();";
  y "    predicate->add_child(B);";
  y "    A = predicate;";
  y "}";
  y "";
  y "bit_expr(A) ::= bit_expr(B) PLUS bit_expr(C). {";
  y "    debug_print(~bit_expr: bit_expr '+' bit_expr~);";
  y "    dawn::BitExprNode* bit_expr = new dawn::BitExprNode(dawn::BitExprNode::BitExprType::kPlus);";
  y "    bit_expr->add_child(B);";
  y "    bit_expr->add_child(C);";
  y "    A = bit_expr;";
  y "}";
  y "";
  y "bit_expr(A) ::= bit_expr(B) MINUS bit_expr(C). {";
  y "    debug_print(~bit_expr: bit_expr '-' bit_expr~);";
  y "    dawn::BitExprNode* bit_expr = new dawn::BitExprNode(dawn::BitExprNode::BitExprType::kMinus);";
  y "    bit_expr->add_child(B);";
  y "    bit_expr->add_child(C);";
  y "    A = bit_expr;";
  y "}";
  y "";
  y "bit_expr(A) ::= bit_expr(B) STAR bit_expr(C). {";
  y "    debug_print(~bit_expr: bit_expr '*' bit_expr~);";
  y "    dawn::BitExprNode* bit_expr = new dawn::BitExprNode(dawn::BitExprNode::BitExprType::kMultiply);";
  y "    bit_expr->add_child(B);";
  y "    bit_expr->add_child(C);";
  y "    A = bit_expr;";
  y "}";
  y "";
  y "bit_expr(A) ::= bit_expr(B) DIVIDE bit_expr(C). {";
  y "    debug_print(~bit_expr: bit_expr '/' bit_expr~);";
  y "    dawn::BitExprNode* bit_expr = new dawn::BitExprNode(dawn::BitExprNode::BitExprType::kDivide);";
  y "    bit_expr->add_child(B);";
  y "    bit_expr->add_child(C);";
  y "    A = bit_expr;";
  y "}";
  y "";
  y "bit_expr(A) ::= simple_expr(B). {";
  y "    debug_print(~bit_expr: simple_expr~);";
  y "    dawn::BitExprNode* bit_expr = new dawn::BitExprNode(dawn::BitExprNode::BitExprType::kSimpleExpr);";
  y "    bit_expr->add_child(B);";
  y "    A = bit_expr;";
  y "}";
  y "";
  y "simple_expr(A) ::= literal(B). {";
  y "    debug_print(~simple_expr: literal~);";
  y "    A = new dawn::SimpleExprNode(dawn::SimpleExprNode::SimpleExprType::kLiteral);";
  y "    A->add_child(B);";
  y "}";
  y "";
  y "simple_expr(A) ::= identifier(B). {";
  y "    debug_print(~simple_expr: identifier~);";
  y "    A = new dawn::SimpleExprNode(dawn::SimpleExprNode::SimpleExprType::kIdentifier);";
  y "    A->add_child(B);";
  y "}";
  y "";
  y "literal(A) ::= INT_NUM(B). {";
  y "    debug_print(~literal: INT_NUM~);";
  y "    A = new dawn::LiteralNode();";
  y "    A->set_integer(B.val_.integer_);";
  y "}";
  y "";
  y "literal(A) ::= DECIMAL_NUM(B). {";
  y "    debug_print(~literal: FLOAT_NUM~);";
  y "    A = new dawn::LiteralNode();";
  y "    A->set_decimal(B.val_.decimal_);";
  y "}";
  y "";
  y "literal(A) ::= STRING(B). {";
  y "    debug_print(~literal: STRING~);";
  y "    A = new dawn::LiteralNode();";
  y "    A->set_str(B.val_.varchar_, strlen(B.val_.varchar_));";
  y "}";
  y "";
  y "literal(A) ::= TRUE. {";
  y "    debug_print(~literal: TRUE~);";
  y "    A = new dawn::LiteralNode();";
  y "    A->set_boolean(true);";
  y "}";
  y "";
  y "literal(A) ::= FALSE. {";
  y "    debug_print(~literal: FALSE~);";
  y "    A = new dawn::LiteralNode();";
  y "    A->set_boolean(false);";
  y "}"].

(** ** The tables *)

(** the codes of the symbols of a rule and, for a state, the symbols before the dot of a
    longest item, the last one first *)
Record made := mkMade { md_errors : Z; md_conflicts : Z; md_names : list str; md_rhs : list (list Z); md_past : list (list Z); md_tables : yytables }.
Definition rule_codes (h : heap) (rp : nat) : list Z := (λ sp, sp_index (sym (h_syms h) sp)) <$> rp_rhs (rul (h_rules h) rp).
Definition longest (l : list (list Z)) : list Z := foldr (λ a b, if (length b <? length a)%nat then a else b) [] l.
Definition state_past (h : heap) (s : nat) : list Z :=
  longest ((λ c, match h_cfgs h !! c with Some c => reverse (take (Z.to_nat (cfp_dot c)) (rule_codes h (cfp_rp c))) | None => [] end) <$> stp_cfp (stt (h_states h) s)).
Definition made_of (r : res (lemon * heap * yytables)) : res made :=
  let* (lem, h, Y) := r in
  Ok (mkMade (lem_errorcnt lem) (lem_nconflict lem) ((λ sp, sp_name (sym (h_syms h) sp)) <$> take (Z.to_nat (lem_nsymbol lem)) (lem_symbols lem))
        (rule_codes h <$> lem_rule lem) (state_past h <$> emitted_states lem) Y).

(** every allocation succeeds, and the depth of the recursion is bounded by 200 *)
Notation run_tables := (grammar_tables (λ _, true) true true (λ n, Some (Z.of_nat n * 100)) (λ _, true) 200).
(** the same without the pass over the text that looks for directives, as it has none *)
Definition scanned_tables : res (lemon * heap * yytables) :=
  let* (_, t) := Symbol_new (λ _, true) true dollar symtab0 in
  p ← LemonScan.Parse_loop (λ _, true) true true (lit "parse.y") false (S (length parse_y)) parse_y 1 (pstate0 t);
  let g := ps_gp p in
  if negb (errorcnt p =? 0) || (g_nrule g =? 0) then Err ExitCalled
  else
    errsym ← Symbol_find (g_tab g) error_name;
    let* (_, t) := Symbol_new (λ _, true) true default_cstr (g_tab g) in
    let* (lem, h, _) := prepare g errsym t in
    let* (lem, h) := build (λ _, true) true (λ n, Some (Z.of_nat n * 100)) (λ _, true) 200 false false t lem h in
    report_tables 100 false false (g_has_fallback g) true lem h.
Definition no_tables : yytables := mkTables 0 0 0 0 None None false false 0 0 0 0 0 0 0 0 0 [] [] [] [] [] None [] [].
Definition dawn_made := Eval vm_compute in match made_of scanned_tables with Ok m => m | Err _ => mkMade 1 0 [] [] [] no_tables end.
Definition dawn_tables := Eval cbv [md_tables dawn_made] in md_tables dawn_made.
Definition dawn_rhs (r : Z) : list Z := default [] (md_rhs dawn_made !! Z.to_nat r).
Definition dawn_past (s : Z) : list Z := default [] (md_past dawn_made !! Z.to_nat s).

Lemma run_scanned : run_tables (lit "parse.y") parse_y = scanned_tables.
Proof.
  unfold grammar_tables, LemonScan.Parse. rewrite before_nul_id by (apply (bool_decide_unpack _); vm_compute; exact I). rewrite preprocess_same by (vm_compute; reflexivity).
  unfold scanned_tables. change (of_opt NullDeref (Strsafe_init (λ _, true))) with (Ok (sy_str symtab0) : res strsafe).
  change (of_opt NullDeref (Symbol_init (λ _, true))) with (Ok (x2a symtab0) : res (xtable (nat * cstr))). cbn [mbind res_bind].
  change (mkSymtab [] (x2a symtab0) (sy_str symtab0)) with symtab0. destruct (Symbol_new _ _ dollar symtab0) as [[sp t]|]; [|done]. cbn [mbind res_bind].
  by destruct (LemonScan.Parse_loop _ _ _ _ _ _ _ _ _).
Qed.
Lemma dawn_generated : made_of (run_tables (lit "parse.y") parse_y) = Ok dawn_made.
Proof. rewrite run_scanned. vm_compute. reflexivity. Qed.

(** the code of a symbol: its position among the symbols *)
Definition code_of (name : string) : Z := match list_find (λ n, n = lit name) (md_names dawn_made) with Some (i, _) => Z.of_nat i | None => -1 end.
Arguments code_of _%_string_scope.

Lemma dawn_consistent : tables_ok dawn_tables dawn_rhs (code_of "sql") dawn_past.
Proof. apply tables_okb_sound. vm_compute. reflexivity. Qed.

(** C9: the SQL parser, from its grammar to its language: the generator reads [parse.y]
    without an error and makes its tables without a conflict, 51 states and 68 rules; and
    whenever the driver on these tables, with any code for the rules, started fresh,
    accepts on the last of its tokens without having met an error, the tokens before it
    derive from the start symbol by the rules of the file. *)
Theorem dawn_parser_sound {T M U} (C : yycode T M U) malloc_ok fuel m0 u ts p :
  parse_tokens dawn_tables C malloc_ok fuel (ParseInit dawn_tables malloc_ok m0 u) ts = Ok (true, p) →
  (∃ m, made_of (run_tables (lit "parse.y") parse_y) = Ok m ∧ md_errors m = 0 ∧ md_conflicts m = 0 ∧ md_tables m = dawn_tables ∧
     YYNSTATE dawn_tables = 51 ∧ md_rhs m = dawn_rhs <$> seqZ 0 68) ∧
  ∃ ts' last, ts = ts' ++ [last] ∧ derives dawn_tables dawn_rhs (code_of "sql") ts'.*1.
Proof.
  intros H. split; [|by eapply parser_sound; [apply dawn_consistent|exact H]].
  exists dawn_made. split; [apply dawn_generated|]. split_and!; vm_compute; reflexivity.
Qed.
(** DROP TABLE ID and the end *)
Definition drop_tokens : list (Z * unit) := (λ t, (t, tt)) <$> [code_of "DROP"; code_of "TABLE"; code_of "ID"; 0].
Definition no_code : yycode unit unit unit :=
  mkCode _ _ _ (λ _, tt) (λ _ _ u, u) (λ _ _ _ _ u, (tt, u)) (λ u, u) (λ u, u) (λ _ _ u, u) (λ u, u).
Lemma drop_accepted : ∃ p, parse_tokens dawn_tables no_code (λ _, true) 50 (ParseInit dawn_tables (λ _, true) tt tt) drop_tokens = Ok (true, p).
Proof. eexists. vm_compute. reflexivity. Qed.
Lemma dawn_parser_sound_witness : ∃ ts' last, drop_tokens = ts' ++ [last] ∧ derives dawn_tables dawn_rhs (code_of "sql") ts'.*1.
Proof. destruct drop_accepted as [p H]. exact (proj2 (dawn_parser_sound no_code (λ _, true) 50 tt tt drop_tokens p H)). Defined.

(** ** The driver on these tables *)

Definition dawn_preds := Eval vm_compute in map_to_list (pred_map dawn_tables).
Definition dawn_below : Z → list Z := preds_in (list_to_map dawn_preds).
Lemma dawn_safe : tables_safeb dawn_tables dawn_below = true.
Proof. vm_compute. reflexivity. Qed.
Lemma parse_stack_safe_witness :
  match Parse dawn_tables no_code (λ _, true) 50 (ParseInit dawn_tables (λ _, true) tt tt) (code_of "DROP") tt with
  | Ok (_, p') => path dawn_tables dawn_below (yystack p') ∧ bounded dawn_tables p'
  | Err e => e = OutOfFuel
  end.
Proof.
  destruct (parse_stack_safe dawn_tables dawn_below no_code (λ _, true) dawn_safe tt tt) as [[H1 H2] H3].
  apply (H3 50%nat _ (code_of "DROP") tt H1 H2). vm_compute. split; [discriminate|reflexivity].
Defined.
