(* ===== verification/SqlParser.v ===== *)
(** The code of the rules of [src/sql/parse.y] and the parser that runs it: the driver
    ([Lempar]) on the tables that the generator makes of the file ([SqlGrammar]). Statements
    that create and drop tables and insert rows are parsed into the trees that
    [SqlExec] executes. *)
From S2P Require Import Prelude Config Values Schema Lexer Ast SqlExec ActTab Lempar LemparSound SqlGrammar.

(** ** The code of the rules *)

(** an entry of the union of values: a token, a pointer to a node, or nothing that was
    assigned *)
Inductive minor_val := MTok (tk : Token) | MNode (n : Ast.node) | MNone.
Implicit Types (n : Ast.node) (tk : Token) (m : minor_val).
Definition node_in m : res Ast.node := match m with MNode n => Ok n | _ => Err UninitRead end.
Definition tok_in m : res Token := match m with MTok tk => Ok tk | _ => Err UninitRead end.
(** the members of the union [val_]; another member than the one last stored is not read *)
Definition integer_of m : res Z := tk ← tok_in m; match val_ tk with TVInt z => Ok z | _ => Err UninitRead end.
Definition decimal_of m : res Z := tk ← tok_in m; match val_ tk with TVDec d => Ok d | _ => Err UninitRead end.
Definition varchar_of m : res bytes := tk ← tok_in m; match val_ tk with TVStr s => Ok s | _ => Err UninitRead end.

(** the code of a rule: the values of the right-hand side and the root of the tree; the
    value of the left-hand side and the root *)
Notation rule_code := (list minor_val → Ast.node → res (minor_val * Ast.node)).
Definition arg (ms : list minor_val) (i : nat) : res minor_val := of_opt OutOfBounds (ms !! i).
Definition arg_node (ms : list minor_val) (i : nat) : res Ast.node := m ← arg ms i; node_in m.
(** [A] is made of the nodes at one, two or three positions *)
Definition make1 (i : nat) (f : Ast.node → res Ast.node) : rule_code := λ ms root, a ← arg_node ms i; r ← f a; Ok (MNode r, root).
Definition make2 (i j : nat) (f : Ast.node → Ast.node → res minor_val) : rule_code := λ ms root, a ← arg_node ms i; b ← arg_node ms j; r ← f a b; Ok (r, root).
Definition same (i : nat) : rule_code := make1 i Ok.
Definition build1 (i : nat) (f : Ast.node → Ast.node) : rule_code := make1 i (λ a, Ok (f a)).
Definition build2 (i j : nat) (f : Ast.node → Ast.node → Ast.node) : rule_code := make2 i j (λ a b, Ok (MNode (f a b))).
Definition const (n : Ast.node) : rule_code := λ _ root, Ok (MNode n, root).
(** without a name for the left-hand side, its value is the entry of the first symbol *)
Definition unnamed : rule_code := λ ms root, m ← arg ms 0; Ok (m, root).
Definition with_tok (i : nat) (f : minor_val → res Ast.node) : rule_code := λ ms root, m ← arg ms i; r ← f m; Ok (MNode r, root).
Definition new (c : node_class) (l : list Ast.node) : Ast.node := list_node c l.

(** the list of statements replaces the root, with its flag; its own node is freed *)
Definition sql_code : rule_code := λ ms _, a ← arg_node ms 0; Ok (MNone, a).
Definition ID_code m : res Ast.node := s ← varchar_of m; id ← c_string s 0; Ok (ident id).
Definition CHAR_code m : res Ast.node := z ← integer_of m; Ok (Node (DataTypeNode kChar z) []).
Definition STRING_code m : res Ast.node := s ← varchar_of m; t ← c_string s 0; Ok (Node (LiteralNode (LStr s (zlen t))) []).
Definition data_type (t : TypeId) : rule_code := const (Node (DataTypeNode t (-1)) []).
Definition literal_const (l : literal) : rule_code := const (Node (LiteralNode l) []).
Definition first_select_expr (b : Ast.node) : res Ast.node :=
  t ← select_expr_type b;
  let a := Node (SelectExprListNode false) [] in
  Ok (match t with kStar => set_star a true | kColName => add_child a b end).
(** when the list is a star, [A] is not assigned *)
Definition next_select_expr (b c : Ast.node) : res minor_val :=
  star ← is_star b; if (star : bool) then Ok MNone else Ok (MNode (add_child b c)).
Definition select_code : rule_code := λ ms root,
  b ← arg_node ms 1; c ← arg_node ms 3; d ← arg_node ms 5; Ok (MNode (SelectNode (Some b) (Some c) (Some d)), root).
Definition comparison_code : rule_code := λ ms root,
  b ← arg_node ms 0; c ← arg_node ms 1; d ← arg_node ms 2; Ok (MNode (comparison_tree b c d), root).
Definition opr (t : ComparisonOprType) : rule_code := const (Node (ComparisonOprNode t) []).

(** in the order of the file, which is the order of their numbers, as every rule has code *)
Definition dawn_rules : list rule_code := [
  sql_code;
  build1 0 (λ b, new (StmtListNode false) [b]); build2 0 2 add_child;
  same 0; same 0; const (Node EmptyStmt []); λ _ root, Ok (MNone, root);
  same 0; same 0; same 0; same 0; same 0;
  build2 2 4 CreateNode_new;
  build1 0 (λ b, new CreateDefListNode [b]); build2 0 2 add_child;
  build2 0 1 CreateDefNode_column; build1 2 CreateDefNode_key;
  same 0; build1 0 ColumnDefNode_new;
  with_tok 2 CHAR_code; data_type kInteger; data_type kDecimal; data_type kBoolean;
  with_tok 0 ID_code;
  build1 2 DropNode_new;
  build2 2 5 InsertNode_new;
  build1 0 (λ b, new ValueListNode [b]); build2 0 2 add_child;
  build1 0 ValueNode_new;
  build2 2 4 (λ b c, new DeleteNode [b; c]);
  select_code;
  make1 0 first_select_expr; make2 0 2 next_select_expr;
  build1 0 (λ b, new (SelectExprNode kColName) [b]); const (Node (SelectExprNode kStar) []);
  build1 0 (λ b, new TableRefsNode [b]); unnamed;
  build1 0 (λ b, new (TableRefNode kTableFactor) [b]); unnamed;
  build1 0 (λ b, new TableFactorNode [b]); unnamed;
  same 0; same 0;
  build2 0 2 (λ b c, expr_tree kAND [b; c]); build2 0 2 (λ b c, expr_tree kOR [b; c]); build1 1 (λ b, expr_tree kNOT [b]);
  build1 0 (λ b, expr_tree kBooleanPrimary [b]);
  comparison_code; build1 0 boolean_tree;
  opr kEqual; opr kGreater; opr kLess; opr kGreaterEq; opr kLessEq; opr kNotEqual;
  build1 0 predicate_tree;
  build2 0 2 (λ b c, new (BitExprNode kPlus) [b; c]); build2 0 2 (λ b c, new (BitExprNode kMinus) [b; c]);
  build2 0 2 (λ b c, new (BitExprNode kMultiply) [b; c]); build2 0 2 (λ b c, new (BitExprNode kDivide) [b; c]);
  build1 0 (λ b, new (BitExprNode kSimpleExpr) [b]);
  build1 0 (λ b, new (SimpleExprNode kLiteral) [b]); build1 0 (λ b, new (SimpleExprNode kIdentifier) [b]);
  with_tok 0 (λ m, z ← integer_of m; Ok (Node (LiteralNode (LInt z)) []));
  with_tok 0 (λ m, d ← decimal_of m; Ok (Node (LiteralNode (LDec d)) []));
  with_tok 0 STRING_code; literal_const (LBool true); literal_const (LBool false)].

(** [%syntax_error] *)
Definition set_error n : Ast.node := match n with Node (StmtListNode _) l => Node (StmtListNode true) l | _ => n end.

(** ** The parser *)

(** the state of the code is the root of the tree, or how the code of a rule failed *)
Definition dawn_code : yycode Token minor_val (res Ast.node) :=
  {| yy0 := MTok;
     destructor_code := λ _ _ u, u;
     reduce_code := λ r ms _ _ u,
       match u with
       | Ok root =>
           match dawn_rules !! Z.to_nat r with
           | Some f => match f ms root with Ok (m, root) => (m, Ok root) | Err e => (MNone, Err e) end
           | None => (MNone, u)
           end
       | Err e => (MNone, Err e)
       end;
     overflow_code := λ u, u;
     failure_code := λ u, u;
     syntax_error_code := λ _ _ u, root ← u; Ok (set_error root);
     accept_code := λ u, u |}.

(** the codes of the tokens, as in the header file that the generator writes *)
Definition token_code (t : token_type) : Z :=
  match t with
  | TOKEN_CREATE => code_of "CREATE" | TOKEN_TABLE => code_of "TABLE" | TOKEN_PRIMARY_KEY => code_of "PRIMARY_KEY"
  | TOKEN_CHAR => code_of "CHAR" | TOKEN_INT => code_of "INT" | TOKEN_DECIMAL => code_of "DECIMAL" | TOKEN_BOOLEAN => code_of "BOOLEAN"
  | TOKEN_DROP => code_of "DROP" | TOKEN_INSERT => code_of "INSERT" | TOKEN_INTO => code_of "INTO" | TOKEN_VALUES => code_of "VALUES"
  | TOKEN_DELETE => code_of "DELETE" | TOKEN_FROM => code_of "FROM" | TOKEN_WHERE => code_of "WHERE" | TOKEN_SELECT => code_of "SELECT"
  | TOKEN_TRUE => code_of "TRUE" | TOKEN_FALSE => code_of "FALSE" | TOKEN_NATURAL => code_of "NATURAL" | TOKEN_JOIN => code_of "JOIN"
  | TOKEN_OR => code_of "OR" | TOKEN_NOT => code_of "NOT" | TOKEN_AND => code_of "AND"
  | TOKEN_LEFT_PARENTHESES => code_of "LEFT_PARENTHESES" | TOKEN_RIGHT_PARENTHESES => code_of "RIGHT_PARENTHESES"
  | TOKEN_SEMICOLON => code_of "SEMICOLON" | TOKEN_COMMA => code_of "COMMA" | TOKEN_LE_EQ => code_of "LE_EQ" | TOKEN_LESS_SIGN => code_of "LESS_SIGN"
  | TOKEN_GT_EQ => code_of "GT_EQ" | TOKEN_GREATER_SIGN => code_of "GREATER_SIGN" | TOKEN_STAR => code_of "STAR" | TOKEN_EQUAL => code_of "EQUAL"
  | TOKEN_STRING => code_of "STRING" | TOKEN_ID => code_of "ID" | TOKEN_INT_NUM => code_of "INT_NUM" | TOKEN_DECIMAL_NUM => code_of "DECIMAL_NUM"
  end.
Notation dawn_parser := (yyParser minor_val (res Ast.node)).
Implicit Types (p : dawn_parser).
Definition dawn_parseAlloc : dawn_parser := ParseInit dawn_tables (λ _, true) MNone (Ok StmtListNode_new).
(** a token gets 200 steps, twice the size of the stack; a run that needs more ends in a fault *)
Definition dawn_parse p (type : option token_type) tk (root : Ast.node) : res (dawn_parser * Ast.node) :=
  let* (_, p) := Parse dawn_tables dawn_code (λ _, true) 200 (upd_user p (Ok root)) (match type with Some t => token_code t | None => 0 end) tk in
  root ← yyuser p;
  Ok (p, root).

(** ** Runs that build trees *)

(** The control of the driver does not depend on the values: the same tables run with
    parse trees for values, and the code of the rules is applied to the trees. *)
Inductive ptree := PVal (m : minor_val) | PNode (r : Z) (children : list ptree).
Definition apply_rule (r : Z) (ms : list minor_val) (root : Ast.node) : res (minor_val * Ast.node) :=
  match dawn_rules !! Z.to_nat r with Some f => f ms root | None => Ok (MNone, root) end.
Fixpoint eval (t : ptree) : res minor_val :=
  match t with
  | PVal m => Ok m
  | PNode r l =>
      ms ← (fix go l := match l with [] => Ok [] | t :: l => m ← eval t; ms ← go l; Ok (m :: ms) end) l;
      let* (m, _) := apply_rule r ms StmtListNode_new in Ok m
  end.
Fixpoint evals (l : list ptree) : res (list minor_val) := match l with [] => Ok [] | t :: l => m ← eval t; ms ← evals l; Ok (m :: ms) end.
(** the root after the reductions, in their order *)
Definition replay_one (t : ptree) (root : Ast.node) : res Ast.node :=
  match t with PVal _ => Ok root | PNode r l => ms ← evals l; let* (_, root) := apply_rule r ms root in Ok root end.
Fixpoint replay (l : list ptree) (root : Ast.node) : res Ast.node := match l with [] => Ok root | t :: l => root ← replay_one t root; replay l root end.
Definition tree_code : yycode Token ptree (list ptree) :=
  {| yy0 := λ tk, PVal (MTok tk); destructor_code := λ _ _ u, u; reduce_code := λ r ms _ _ u, (PNode r ms, u ++ [PNode r ms]);
     overflow_code := λ u, u; failure_code := λ u, u; syntax_error_code := λ _ _ u, u; accept_code := λ u, u |}.
Notation tree_parser := (yyParser ptree (list ptree)).

Lemma eval_node r l : eval (PNode r l) = (ms ← evals l; let* (m, _) := apply_rule r ms StmtListNode_new in Ok m).
Proof. cbn [eval]. f_equal. Qed.
Lemma evals_Forall2 l ms : evals l = Ok ms ↔ Forall2 (λ t m, eval t = Ok m) l ms.
Proof.
  revert ms. induction l as [|t l IH]; intros ms; cbn [evals].
  - split; [intros [= <-]; constructor|by inversion 1].
  - split.
    + intros (m&Hm&(ms'&Hms&[= <-])%res_bind_Ok)%res_bind_Ok. constructor; [done|by apply IH].
    + inversion 1 as [|? m ? ms' Hm Hms]; subst. rewrite Hm. cbn [mbind res_bind]. apply IH in Hms. by rewrite Hms.
Qed.
Lemma replay_app l1 l2 root : replay (l1 ++ l2) root = (root ← replay l1 root; replay l2 root).
Proof. revert root. induction l1 as [|t l1 IH]; intros root; [done|]. cbn [app replay]. destruct (replay_one t root); [apply IH|done]. Qed.

(** the value of a rule does not depend on the root *)
Definition rule_stable (f : rule_code) : Prop := ∀ ms r1 r2, (∃ e, f ms r1 = Err e ∧ f ms r2 = Err e) ∨ ∃ m r1' r2', f ms r1 = Ok (m, r1') ∧ f ms r2 = Ok (m, r2').
Lemma res_stable {A} (x : res A) (k1 k2 : A → res (minor_val * Ast.node)) :
  (∀ a, x = Ok a → (∃ e, k1 a = Err e ∧ k2 a = Err e) ∨ ∃ m r1 r2, k1 a = Ok (m, r1) ∧ k2 a = Ok (m, r2)) →
  (∃ e, (x ≫= k1) = Err e ∧ (x ≫= k2) = Err e) ∨ ∃ m r1 r2, (x ≫= k1) = Ok (m, r1) ∧ (x ≫= k2) = Ok (m, r2).
Proof. intros H. destruct x as [a|e]; [by apply H|left; by exists e]. Qed.
Lemma dawn_rules_stable : Forall rule_stable dawn_rules.
Proof.
  repeat (constructor; [intros ms r1 r2; unfold sql_code, make2, make1, with_tok, const, data_type, literal_const, opr, unnamed, select_code, comparison_code;
    repeat (apply res_stable; intros ? _); right; eauto|]). constructor.
Qed.
Lemma apply_stable r ms l root root' m : evals l = Ok ms → apply_rule r ms root = Ok (m, root') → eval (PNode r l) = Ok m.
Proof.
  intros Hl H. rewrite eval_node, Hl. cbn [mbind res_bind]. unfold apply_rule in *. destruct (dawn_rules !! Z.to_nat r) as [f|] eqn:E; [|by injection H as <- _].
  pose proof dawn_rules_stable as Hs. rewrite Forall_lookup in Hs. destruct (Hs _ _ E ms root StmtListNode_new) as [(e&H1&_)|(m'&r1&r2&H1&->)]; [congruence|].
  rewrite H1 in H. injection H as -> _. done.
Qed.

(** *** The simulation *)

Definition entry_is (e1 : yyStackEntry ptree) (e2 : yyStackEntry minor_val) : Prop :=
  stateno e1 = stateno e2 ∧ major e1 = major e2 ∧ eval (minor e1) = Ok (minor e2).
(** the trees of a run, from the root [root0] *)
Record simulates (root0 : Ast.node) (p1 : tree_parser) (p2 : dawn_parser) : Prop := {
  sm_stack : Forall2 entry_is (yystack p1) (yystack p2);
  sm_size : yystksz p1 = yystksz p2 ∧ yyhwm p1 = yyhwm p2 ∧ yyerrcnt p1 = yyerrcnt p2;
  sm_user : yyuser p2 = replay (yyuser p1) root0;
}.

Section Simulation.
Context (Y : yytables) (Hdepth : (YYSTACKDEPTH Y >? 0) = true) (Htrack : YYTRACKMAXSTACKDEPTH Y = false).
Notation loop C := (Parse_loop Y C (λ _, true)).

Lemma sim_depth root0 (p1 : tree_parser) p2 : simulates root0 p1 p2 → depth p1 = depth p2.
Proof. intros [H _ _]. unfold depth, zlen. by rewrite (Forall2_length _ _ _ H). Qed.
Lemma sim_shift root0 (p1 p1' : tree_parser) p2 s t tk r : simulates root0 p1 p2 → yy_shift Y tree_code (λ _, true) p1 s t tk = Ok (false, p1') →
  yyuser p1' = yyuser p1 ∧ (r = false → ∃ p2', yy_shift Y dawn_code (λ _, true) p2 s t tk = Ok (r, p2') ∧ simulates root0 p1' p2').
Proof.
  intros Hs H. pose proof (sim_depth _ _ _ Hs) as Hd. unfold yy_shift, track_depth in *. rewrite Htrack in *. cbn [mbind res_bind] in *. rewrite Hdepth in *. rewrite Hd in H.
  destruct (depth p2 + 1 >? YYSTACKDEPTH Y - 1); [done|]. injection H as <-. split; [done|]. intros ->. eexists. split; [done|]. destruct Hs as [Hk Hz Hu].
  split; [|done|done]. constructor; [done|exact Hk].
Qed.
Lemma sim_reduce root0 (p1 p1' : tree_parser) p2 r t tk a : simulates root0 p1 p2 → yy_reduce Y tree_code p1 r t tk = Ok (a, p1') →
  ∃ tr, yyuser p1' = yyuser p1 ++ [tr] ∧
    ∀ root', replay (yyuser p1') root0 = Ok root' → ∃ p2', yy_reduce Y dawn_code p2 r t tk = Ok (a, p2') ∧ simulates root0 p1' p2'.
Proof.
  intros [Hk Hz Hu] H. unfold yy_reduce in *. apply res_bind_Ok in H as (goto&Hg&H). apply res_bind_Ok in H as (size&Hsz&H). rewrite Hg, Hsz. cbn [mbind res_bind].
  destruct (0 <? size); [done|]. set (n := Z.to_nat (- size)) in *. cbn [reduce_code tree_code] in H.
  set (l := minor <$> reverse (take n (yystack p1))) in *. set (ms := minor <$> reverse (take n (yystack p2))) in *.
  assert (evals l = Ok ms) as Hl.
  { apply evals_Forall2. unfold l, ms. rewrite Forall2_fmap. apply Forall2_reverse, Forall2_take. eapply Forall2_impl; [exact Hk|]. by intros ? ? (_&_&?). }
  pose proof (Forall2_drop _ _ _ n Hk) as Hd. inversion Hd as [E1 E2|e1 e2 k1 k2 He Hk' E1 E2]; rewrite <- E1 in H; [done|].
  apply res_bind_Ok in H as (act&Ha&H). apply res_bind_Ok in H as ([]&H1&H). apply res_bind_Ok in H as ([]&H2&H). injection H as <- <-. cbn [yyuser upd_user].
  exists (PNode r l). split; [done|]. intros root' Hr. rewrite replay_app in Hr. apply res_bind_Ok in Hr as (root1&Hr1&Hr). cbn [replay] in Hr.
  apply res_bind_Ok in Hr as (root2&Hr2&[= ->]). cbn [replay_one] in Hr2. rewrite Hl in Hr2. cbn [mbind res_bind] in Hr2. apply res_bind_Ok in Hr2 as ([m root3]&Hap&[= ->]).
  assert (reduce_code dawn_code r ms t tk (yyuser p2) = (m, Ok root')) as ->.
  { cbn [reduce_code dawn_code]. rewrite Hu, Hr1. unfold apply_rule in Hap. destruct (dawn_rules !! Z.to_nat r) as [f|]; [by rewrite Hap|by injection Hap as <- <-]. }
  destruct He as (Hst&Hmj&He). rewrite <- Hst, Ha. cbn [mbind res_bind]. rewrite H1, H2. cbn [mbind res_bind]. eexists. split; [done|].
  split; cbn [yystack upd_user upd_stack yystksz yyhwm yyerrcnt yyuser]; [|done|].
  - constructor; [|by rewrite E1, E2 || (constructor; [split_and!; done|done])]. split_and!; [done|done|]. cbn [minor]. by eapply apply_stable.
  - rewrite replay_app, Hr1. cbn [mbind res_bind replay replay_one]. rewrite Hl. cbn [mbind res_bind]. by rewrite Hap.
Qed.
Lemma reduce_extends (p1 p1' : tree_parser) r t tk a : yy_reduce Y tree_code p1 r t tk = Ok (a, p1') → ∃ tr, yyuser p1' = yyuser p1 ++ [tr].
Proof.
  unfold yy_reduce. intros (goto&_&H)%res_bind_Ok. apply res_bind_Ok in H as (size&_&H). destruct (0 <? size); [done|]. cbn [reduce_code tree_code] in H. destruct (drop _ _); [done|].
  apply res_bind_Ok in H as (act&_&H). apply res_bind_Ok in H as ([]&_&H). apply res_bind_Ok in H as ([]&_&H). injection H as _ <-. by eexists.
Qed.
(** one step of the loop, when it ends without an error: a reduction, a shift or the end *)
Lemma loop_room nrhs {M U} (p : yyParser M U) : (if nrhs =? 0 then check_room Y (λ _, true) p else Ok (true, p)) =
  Ok (if nrhs =? 0 then negb (depth p >=? YYSTACKDEPTH Y - 1) else true, p).
Proof. destruct (nrhs =? 0); [|done]. unfold check_room, track_depth. rewrite Htrack. cbn [mbind res_bind]. by rewrite Hdepth. Qed.
Lemma loop_extends fuel t tk : ∀ (p1 p1' : tree_parser) a r, loop tree_code fuel p1 t tk a false = Ok (r, p1') → r = RShift ∨ r = RAccept → ∃ ext, yyuser p1' = yyuser p1 ++ ext.
Proof.
  induction fuel as [|fuel IH]; intros p1 p1' a r H Hr; [done|]. cbn [Parse_loop] in H. apply res_bind_Ok in H as (act&_&H).
  destruct (act >=? YY_MIN_REDUCE Y).
  - apply res_bind_Ok in H as (nrhs&_&H). rewrite loop_room in H. cbn [mbind res_bind] in H. destruct (negb _) in H; [injection H as <- _; by destruct Hr|].
    apply res_bind_Ok in H as ([act' p1a]&Hred&H). apply reduce_extends in Hred as (tr&Hu). apply IH in H as (ext&->); [|done]. rewrite Hu, <- app_assoc. by eexists.
  - exists []. rewrite app_nil_r. destruct (act <=? YY_MAX_SHIFTREDUCE Y).
    + apply res_bind_Ok in H as ([o p1a]&Hsh&H). unfold yy_shift, track_depth in Hsh. rewrite Htrack in Hsh. cbn [mbind res_bind] in Hsh. rewrite Hdepth in Hsh.
      destruct (_ >? _) in Hsh; injection Hsh as <- <-; injection H as <- <-; [by destruct Hr|]. by destruct (YYNOERRORRECOVERY Y).
    + destruct (act =? YY_ACCEPT_ACTION Y).
      * destruct (yystack p1) as [|e [|e' k]]; [done..|]. apply res_bind_Ok in H as (p1a&Hacc&[= _ <-]). unfold yy_accept in Hacc. by apply res_bind_Ok in Hacc as ([]&_&[= <-]).
      * apply res_bind_Ok in H as ([]&_&H). apply res_bind_Ok in H as ([[[t' a']|] p1a]&_&H); [|injection H as <- _; by destruct Hr].
        apply Parse_loop_hit in H as [? ?]. by destruct Hr.
Qed.
Lemma loop_sim fuel root0 t tk : ∀ (p1 p1' : tree_parser) p2 a r root', simulates root0 p1 p2 → loop tree_code fuel p1 t tk a false = Ok (r, p1') → r = RShift ∨ r = RAccept →
  replay (yyuser p1') root0 = Ok root' → ∃ p2', loop dawn_code fuel p2 t tk a false = Ok (r, p2') ∧ simulates root0 p1' p2'.
Proof.
  induction fuel as [|fuel IH]; intros p1 p1' p2 a r root' Hs H Hr Hrep; [done|]. cbn [Parse_loop] in *. apply res_bind_Ok in H as (act&Ha&H). rewrite Ha. cbn [mbind res_bind].
  pose proof (sim_depth _ _ _ Hs) as Hd.
  destruct (act >=? YY_MIN_REDUCE Y).
  - apply res_bind_Ok in H as (nrhs&Hn&H). rewrite Hn. cbn [mbind res_bind]. rewrite loop_room in H |- *. cbn [mbind res_bind] in *. rewrite Hd in H.
    destruct (negb _) in H |- *; [injection H as <- _; by destruct Hr|]. apply res_bind_Ok in H as ([act' p1a]&Hred&H).
    destruct (sim_reduce _ _ _ _ _ _ _ _ Hs Hred) as (tr&Hu&Hsim). destruct (loop_extends _ _ _ _ _ _ _ H Hr) as (ext&Hext).
    rewrite Hext, replay_app in Hrep. pose proof Hrep as Hrep'. apply res_bind_Ok in Hrep' as (root1&Hr1&_). destruct (Hsim _ Hr1) as (p2a&Hred2&Hs').
    rewrite Hred2. cbn [mbind res_bind]. eapply IH; [exact Hs'|exact H|exact Hr|]. rewrite Hext, replay_app. exact Hrep.
  - destruct (act <=? YY_MAX_SHIFTREDUCE Y).
    + apply res_bind_Ok in H as ([o p1a]&Hsh&H). destruct o; [injection H as <- _; by destruct Hr|].
      destruct (sim_shift _ _ _ _ _ _ _ false Hs Hsh) as [_ (p2a&->&[Hk (Hz1&Hz2&Hz3) Hu])]; [done|]. cbn [mbind res_bind]. injection H as <- <-. eexists. split; [done|].
      destruct (YYNOERRORRECOVERY Y); split; cbn; try done. by rewrite Hz3.
    + destruct (act =? YY_ACCEPT_ACTION Y).
      * destruct Hs as [Hk (Hz1&Hz2&Hz3) Hu]. destruct (yystack p1) as [|e [|e' k]]; [done..|]. inversion Hk as [|? e2 ? k2 He Hk' E1 E2]; subst. inversion Hk' as [|? e2' ? k2' He' Hk2 E1 E3]; subst.
        apply res_bind_Ok in H as (p1a&Hacc&[= <- <-]). unfold yy_accept in *. cbn [depth upd_errcnt upd_stack yystack] in *.
        apply res_bind_Ok in Hacc as ([]&Hacc&[= <-]).
        assert (depth (upd_errcnt (upd_stack p1 (e' :: k)) (-1)) = depth (upd_errcnt (upd_stack p2 (e2' :: k2')) (-1))) as Hdd
          by (unfold depth, zlen; cbn [yystack upd_errcnt upd_stack length]; by rewrite (Forall2_length _ _ _ Hk2)).
        rewrite Hdd in Hacc. rewrite Hacc. cbn [mbind res_bind]. eexists. split; [done|]. split; [exact Hk'|done|exact Hu].
      * apply res_bind_Ok in H as ([]&_&H). apply res_bind_Ok in H as ([[[t' a']|] p1a]&_&H); [|injection H as <- _; by destruct Hr].
        apply Parse_loop_hit in H as [? ?]. by destruct Hr.
Qed.
End Simulation.

(** ** Tokens one after the other *)

(** the loop of [sql_execute] on the tokens it gets *)
Fixpoint feed (l : list Token) p (root : Ast.node) : res (dawn_parser * Ast.node) :=
  match l with
  | [] => Ok (p, root)
  | tk :: l => type ← of_opt UninitRead (type_ tk); let* (p, root) := dawn_parse p (Some type) tk root in feed l p root
  end.
(** the same with trees: the parser and the reductions; every token is shifted *)
Fixpoint feed_trees (l : list Token) (p : tree_parser) : res (tree_parser * list ptree) :=
  match l with
  | [] => Ok (p, [])
  | tk :: l =>
      type ← of_opt UninitRead (type_ tk);
      let* (r, p) := Parse dawn_tables tree_code (λ _, true) 200 (upd_user p []) (token_code type) tk in
      match r with RShift => let* (p', ts) := feed_trees l p in Ok (p', yyuser p ++ ts) | _ => Err ExitCalled end
  end.
(** the stack of a parser has the values of the trees *)
Definition is_at (p1 : tree_parser) p : Prop :=
  Forall2 entry_is (yystack p1) (yystack p) ∧ yystksz p1 = yystksz p ∧ yyhwm p1 = yyhwm p ∧ yyerrcnt p1 = yyerrcnt p.

Lemma Parse_sim (root root' : Ast.node) (p1 p1' : tree_parser) p t tk r : is_at p1 p → Parse dawn_tables tree_code (λ _, true) 200 (upd_user p1 []) t tk = Ok (r, p1') →
  r = RShift ∨ r = RAccept → replay (yyuser p1') root = Ok root' →
  ∃ p', Parse dawn_tables dawn_code (λ _, true) 200 (upd_user p (Ok root)) t tk = Ok (r, p') ∧ yyuser p' = Ok root' ∧ is_at p1' p'.
Proof.
  intros (Hk&Hz) H Hr Hrep. assert (simulates root (upd_user p1 []) (upd_user p (Ok root))) as Hs by (split; [exact Hk|exact Hz|done]).
  unfold Parse in *. cbn [yystack upd_user] in *. inversion Hk as [E1 E2|e1 e2 k1 k2 (Hst&Hmj&He) Hk' E1 E2]; rewrite <- E1 in H; [done|].
  destruct (loop_sim dawn_tables eq_refl eq_refl 200 root t tk _ p1' _ (stateno e1) r root' Hs) as (p'&H'&Hs'); try done.
  rewrite <- Hst. exists p'. split; [exact H'|]. split; [by rewrite (sm_user _ _ _ Hs')|]. split; [apply Hs'|apply Hs'].
Qed.
Lemma feed_sim l : ∀ (p1 p1' : tree_parser) p ts (root root' : Ast.node), feed_trees l p1 = Ok (p1', ts) → is_at p1 p → replay ts root = Ok root' →
  ∃ p', feed l p root = Ok (p', root') ∧ is_at p1' p'.
Proof.
  induction l as [|tk l IH]; intros p1 p1' p ts root root' H Ha Hr; cbn [feed_trees feed] in *.
  - injection H as <- <-. injection Hr as <-. by exists p.
  - apply res_bind_Ok in H as (type&->&H). cbn [mbind res_bind]. apply res_bind_Ok in H as ([r p1a]&H1&H). destruct r; [|done..].
    apply res_bind_Ok in H as ([p1b ts']&H2&[= <- <-]). rewrite replay_app in Hr. apply res_bind_Ok in Hr as (root1&Hr1&Hr2).
    destruct (Parse_sim root root1 p1 p1a p _ _ _ Ha H1) as (p'&H'&Hu&Ha'); [by left|done|]. unfold dawn_parse. rewrite H'. cbn [mbind res_bind]. rewrite Hu. cbn [mbind res_bind].
    by apply (IH p1a p1b p' ts' root1 root').
Qed.
Lemma feed_app l1 l2 p (root : Ast.node) : feed (l1 ++ l2) p root = (let* (p, root) := feed l1 p root in feed l2 p root).
Proof.
  revert p root. induction l1 as [|tk l1 IH]; intros p root; [done|]. cbn [app feed]. destruct (of_opt _ _); [|done]. cbn [mbind res_bind].
  destruct (dawn_parse _ _ _ _) as [[p' root']|]; [|done]. apply IH.
Qed.

(** ** Texts that do not do what they say *)

(** the tree of a text *)
Definition tree_of (s : string) : res Ast.node :=
  let* (tk, p, root) := SqlExec.parse_tokens dawn_parse 100 (Lex_new (str s)) (mkToken None TVNone) dawn_parseAlloc StmtListNode_new in
  let* (_, root) := dawn_parse p None tk root in
  Ok root.
Arguments tree_of _%_string_scope.

(** A syntax error sets the flag of the root and skips the token; when the rest of the text
    is accepted, the list of statements replaces the root together with the flag: the
    statements are executed. Only an error at the end of the text is reported. *)
Theorem syntax_error_forgotten :
  tree_of "drop drop table t;" = Ok (Node (StmtListNode false) [DropNode_new (ident (str "t")); Node EmptyStmt []]) ∧
  tree_of "drop drop table t;" = tree_of "drop table t;" ∧ tree_of "drop table ;" = Ok (Node (StmtListNode true) []).
Proof. vm_compute. split_and!; reflexivity. Qed.
(** A star with something behind it in the list of columns leaves the value of the list
    unassigned, and it is used. *)
Theorem star_list_unassigned : tree_of "select *, a from t where a = 3;" = Err UninitRead.
Proof. vm_compute. reflexivity. Qed.
(** All tables but the first are dropped from the tree without an error. *)
Theorem other_tables_dropped :
  tree_of "select a from t, s where a = 3;" = tree_of "select a from t where a = 3;" ∧
  tree_of "select a from t natural join s where a = 3;" = tree_of "select a from t where a = 3;".
Proof. vm_compute. split; reflexivity. Qed.
(** AND does not bind tighter than OR: both group to the left. *)
Theorem and_or_group_left : ∃ t a b c, tree_of "delete from t where a or b and c;" =
  Ok (Node (StmtListNode false) [Node DeleteNode [t; Node (ExprNode kAND) [Node (ExprNode kOR) [a; b]; c]]; Node EmptyStmt []]).
Proof. eexists _, _, _, _. vm_compute. reflexivity. Qed.
