(* ===== verification/SqlStatements.v ===== *)
(** Statements as text: the statements that create and drop tables and insert rows, written
    as lexemes, are parsed by the generated parser into the trees of [Ast], and executing
    such a text does what its statements say. *)
From S2P Require Import Prelude Config Replacer ClockReplacer Page FileSys DiskManager BufferPool PoolSpec Values TablePage TablePageSpec Schema PoolClient LinkHash LinkHashSpec Table TableSpec MetaPages Catalog CatalogSpec Lexer Ast SqlExec SqlSpec ActTab Lempar LemparSound SqlGrammar SqlParser.

(** ** Statements and their lexemes *)

Inductive def_src := CInt (name : bytes) | CDecimal (name : bytes) | CBoolean (name : bytes) | CChar (name len : bytes) | CKey (name : bytes).
Inductive val_src := SNum (ds : bytes) | SDec (ip fp : bytes) | SText (s : bytes) | SBool (b : bool).
Inductive stmt_src :=
  | SCreate (name : bytes) (d : def_src) (ds : list def_src)
  | SDrop (name : bytes)
  | SInsert (name : bytes) (v : val_src) (vs : list val_src)
  | SEmpty.

Definition lp : lexeme := XSym (str "(") TOKEN_LEFT_PARENTHESES.
Definition rp : lexeme := XSym (str ")") TOKEN_RIGHT_PARENTHESES.
Definition comma : lexeme := XSym (str ",") TOKEN_COMMA.
Definition semi : lexeme := XSym (str ";") TOKEN_SEMICOLON.
Definition def_lexemes (d : def_src) : list lexeme :=
  match d with
  | CInt name => [XId name; XKey (str "int") TOKEN_INT]
  | CDecimal name => [XId name; XKey (str "decimal") TOKEN_DECIMAL]
  | CBoolean name => [XId name; XKey (str "boolean") TOKEN_BOOLEAN]
  | CChar name len => [XId name; XKey (str "char") TOKEN_CHAR; lp; XNum len; rp]
  | CKey name => [XPrimaryKey false; lp; XId name; rp]
  end.
Definition val_lexeme (v : val_src) : lexeme :=
  match v with
  | SNum ds => XNum ds
  | SDec ip fp => XDec ip fp
  | SText s => XStr s
  | SBool true => XKey (str "true") TOKEN_TRUE
  | SBool false => XKey (str "false") TOKEN_FALSE
  end.
Definition sep (x : lexeme) (ls : list (list lexeme)) : list lexeme := concat ((λ l, x :: l) <$> ls).
Definition stmt_lexemes (s : stmt_src) : list lexeme :=
  match s with
  | SCreate name d ds => [XKey (str "create") TOKEN_CREATE; XKey (str "table") TOKEN_TABLE; XId name; lp] ++ def_lexemes d ++ sep comma (def_lexemes <$> ds) ++ [rp]
  | SDrop name => [XKey (str "drop") TOKEN_DROP; XKey (str "table") TOKEN_TABLE; XId name]
  | SInsert name v vs => [XKey (str "insert") TOKEN_INSERT; XKey (str "into") TOKEN_INTO; XId name; XKey (str "values") TOKEN_VALUES; lp] ++
      [val_lexeme v] ++ sep comma ((λ v, [val_lexeme v]) <$> vs) ++ [rp]
  | SEmpty => []
  end.
Definition sql_lexemes (s : stmt_src) (ss : list stmt_src) : list lexeme := stmt_lexemes s ++ sep semi (stmt_lexemes <$> ss).
(** the texts of statements: their lexemes, spaced in any way the scanner needs *)
Definition sql_text (s : stmt_src) (ss : list stmt_src) (sql : bytes) : Prop := spaced (sql_lexemes s ss) sql.

(** ** What they mean *)

Definition def_of (d : def_src) : def_spec :=
  match d with
  | CInt name => DColumn name kInteger (-1)
  | CDecimal name => DColumn name kDecimal (-1)
  | CBoolean name => DColumn name kBoolean (-1)
  | CChar name len => DColumn name kChar (digits_val len)
  | CKey name => DKey name
  end.
Definition val_of (v : val_src) : literal :=
  match v with
  | SNum ds => LInt (digits_val ds)
  | SDec ip fp => LDec (atof (ip ++ 46 :: fp))
  | SText s => LStr (s ++ [0]) (zlen s)
  | SBool b => LBool b
  end.
Definition stmt_tree (s : stmt_src) : Ast.node :=
  match s with
  | SCreate name d ds => create_tree name (def_of <$> d :: ds)
  | SDrop name => DropNode_new (ident name)
  | SInsert name v vs => insert_tree name (val_of <$> v :: vs)
  | SEmpty => Node EmptyStmt []
  end.
(** names are identifiers but no key words, numbers have digits *)
Definition name_src (w : bytes) : Prop := is_ident w = true ∧ find_word key_words w = None ∧ w ∉ key_words_prefix.
Definition num_src (ds : bytes) : Prop := ds ≠ [] ∧ forallb is_digit ds = true ∧ digits_val ds ≤ INT32_MAX.
Definition def_src_ok (d : def_src) : Prop :=
  match d with CInt n | CDecimal n | CBoolean n | CKey n => name_src n | CChar n len => name_src n ∧ num_src len end.
Definition val_src_ok (v : val_src) : Prop :=
  match v with
  | SNum ds => num_src ds
  | SDec ip fp => ip ≠ [] ∧ fp ≠ [] ∧ forallb is_digit (ip ++ fp) = true
  | SText s => Forall (λ c, c ≠ 0) s
  | SBool _ => True
  end.
Definition stmt_src_ok (s : stmt_src) : Prop :=
  match s with
  | SCreate name d ds => name_src name ∧ Forall def_src_ok (d :: ds)
  | SDrop name => name_src name
  | SInsert name v vs => name_src name ∧ Forall val_src_ok (v :: vs)
  | SEmpty => True
  end.

(** ** Stacks *)

Notation E s m x := (mkEntry s m x).
Notation entries := (list (yyStackEntry minor_val)).
Implicit Types (k : entries) (p : dawn_parser) (root n : Ast.node).
Definition has p k : Prop := ∃ e u, p = mkParser k 0 0 e u.
(** before the first statement, and behind a semicolon *)
Definition base (b : option (minor_val * Ast.node)) : entries :=
  match b with None => [] | Some (m, n) => [E 1 14 m; E 34 43 (MNode n)] end ++ [E 0 0 MNone].
Definition push (b : option (minor_val * Ast.node)) n : Ast.node := match b with None => new (StmtListNode false) [n] | Some (_, l) => add_child l n end.
(** behind the parenthesis that opens the columns, and with columns on the stack *)
Definition create_open m1 m2 m3 (name : bytes) b : entries := [E 15 17 m1; E 49 49 (MNode (ident name)); E 27 16 m2; E 50 15 m3] ++ base b.
Definition create_list l m1 m2 m3 (name : bytes) b : entries := E 33 50 (MNode l) :: create_open m1 m2 m3 name b.
Definition insert_open m1 m2 m3 m4 (name : bytes) b : entries := [E 16 17 m1; E 40 30 m2; E 41 49 (MNode (ident name)); E 24 29 m3; E 42 28 m4] ++ base b.
Definition insert_list l m1 m2 m3 m4 (name : bytes) b : entries := E 32 56 (MNode l) :: insert_open m1 m2 m3 m4 name b.

Definition as_tree (e : yyStackEntry minor_val) : yyStackEntry ptree := mkEntry (stateno e) (major e) (PVal (minor e)).
Lemma has_is_at p k : has p k → ∃ e, is_at (mkParser (as_tree <$> k) 0 0 e []) p.
Proof.
  intros (e&u&->). exists e. split; [|done]. cbn [yystack]. rewrite Forall2_fmap_l. induction k as [|x k IH]; constructor; [done|exact IH].
Qed.
Lemma entries_unique (k1 : list (yyStackEntry ptree)) k k' : Forall2 entry_is k1 k → Forall2 entry_is k1 k' → k = k'.
Proof.
  intros Hk. revert k'. induction Hk as [|e1 [s2 m2 x2] k1 k (Ha&Hb&Hc) _ IH]; intros k' Hk'; inversion Hk' as [|? [s3 m3 x3] ? k3 (Ha'&Hb'&Hc') Hk3]; subst; [done|].
  cbn in *. f_equal; [congruence|by apply IH].
Qed.
(** the stack behind some tokens, from the trees that are built *)
Lemma feed_values l k (k1 : list (yyStackEntry ptree)) k' ts p root root' : has p k →
  (∀ e, ∃ e' u, feed_trees l (mkParser (as_tree <$> k) 0 0 e []) = Ok (mkParser k1 0 0 e' u, ts)) → replay ts root = Ok root' → Forall2 entry_is k1 k' →
  ∃ p', feed l p root = Ok (p', root') ∧ has p' k'.
Proof.
  intros (e&Hp)%has_is_at Hf Hr Hk. destruct (Hf e) as (e'&u&H). destruct (feed_sim l _ _ _ _ _ _ H Hp Hr) as ([k2 z1 z2 z3 u2]&Hfeed&(Hk2&H1&H2&H3)).
  cbn in Hk2, H1, H2, H3. subst. exists (mkParser k2 0 0 z3 u2). split; [done|]. exists z3, u2. f_equal.
  by eapply entries_unique.
Qed.

(** a run of the tables on tokens whose values are not known *)
Ltac run_parser :=
  intros ?; eexists _, _;
  lazymatch goal with |- ?l = _ => let v := eval vm_compute in l in transitivity v; [exact (@eq_refl _ v <: l = v)|reflexivity] end.
(** the code of the rules on the trees, with the texts of identifiers and strings *)
Ltac eval_trees := lazy -[c_string add_child zlen]; repeat (match goal with H : c_string _ _ = Ok _ |- _ => rewrite H end; lazy -[c_string add_child zlen]); try reflexivity.
Ltac eval_stack := repeat (apply Forall2_cons_2; [split_and!; [reflexivity|reflexivity|eval_trees]|]); apply Forall2_nil_2.
Ltac steps := eapply feed_values; [eassumption|run_parser|eval_trees|eval_stack].

Notation tk t v := (mkToken (Some t) v).
Lemma create_head b v1 v2 s v4 name p root : has p (base b) → c_string s 0 = Ok name →
  ∃ p', feed [tk TOKEN_CREATE v1; tk TOKEN_TABLE v2; tk TOKEN_ID (TVStr s); tk TOKEN_LEFT_PARENTHESES v4] p root = Ok (p', root) ∧
    has p' (create_open (MTok (tk TOKEN_LEFT_PARENTHESES v4)) (MTok (tk TOKEN_TABLE v2)) (MTok (tk TOKEN_CREATE v1)) name b).
Proof. intros Hp Hs. destruct b as [[m n]|]; steps. Qed.

(** the tokens of a column and of a value; key words carry any value *)
Definition def_toks (d : def_src) (l : list Token) : Prop :=
  match d with
  | CInt name => ∃ s v, c_string s 0 = Ok name ∧ l = [tk TOKEN_ID (TVStr s); tk TOKEN_INT v]
  | CDecimal name => ∃ s v, c_string s 0 = Ok name ∧ l = [tk TOKEN_ID (TVStr s); tk TOKEN_DECIMAL v]
  | CBoolean name => ∃ s v, c_string s 0 = Ok name ∧ l = [tk TOKEN_ID (TVStr s); tk TOKEN_BOOLEAN v]
  | CChar name len => ∃ s v1 v2 v3, c_string s 0 = Ok name ∧
      l = [tk TOKEN_ID (TVStr s); tk TOKEN_CHAR v1; tk TOKEN_LEFT_PARENTHESES v2; tk TOKEN_INT_NUM (TVInt (digits_val len)); tk TOKEN_RIGHT_PARENTHESES v3]
  | CKey name => ∃ s v1 v2 v3, c_string s 0 = Ok name ∧ l = [tk TOKEN_PRIMARY_KEY v1; tk TOKEN_LEFT_PARENTHESES v2; tk TOKEN_ID (TVStr s); tk TOKEN_RIGHT_PARENTHESES v3]
  end.
Definition val_toks (v : val_src) (t : Token) : Prop :=
  match v with
  | SNum ds => t = tk TOKEN_INT_NUM (TVInt (digits_val ds))
  | SDec ip fp => t = tk TOKEN_DECIMAL_NUM (TVDec (atof (ip ++ 46 :: fp)))
  | SText s => c_string (s ++ [0]) 0 = Ok s ∧ t = tk TOKEN_STRING (TVStr (s ++ [0]))
  | SBool b => ∃ v, t = tk (if b then TOKEN_TRUE else TOKEN_FALSE) v
  end.
(** a list that is empty or has a comma behind it, and one more element *)
Definition before (s m : Z) (mk : Ast.node → entries) (k0 : entries) (o : option (minor_val * Ast.node)) : entries :=
  match o with None => k0 | Some (c, l) => E s m c :: mk l end.
Definition grown (c : node_class) (o : option (minor_val * Ast.node)) n : Ast.node := match o with None => new c [n] | Some (_, l) => add_child l n end.
Definition closing (last : bool) (v : token_val) : Token := if last then tk TOKEN_RIGHT_PARENTHESES v else tk TOKEN_COMMA v.

Lemma def_step b o m1 m2 m3 name d l last v p root :
  has p (before 18 19 (λ l, create_list l m1 m2 m3 name b) (create_open m1 m2 m3 name b) o) → def_toks d l →
  ∃ p', feed (l ++ [closing last v]) p root = Ok (p', root) ∧
    has p' (E (if last then 195 else 18) (if last then 18 else 19) (MTok (closing last v)) :: create_list (grown CreateDefListNode o (def_node (def_of d))) m1 m2 m3 name b).
Proof.
  intros Hp Hl. destruct b as [[mb nb]|]; destruct o as [[mo lo]|]; destruct last.
  all: destruct d as [n|n|n|n len|n].
  all: first [destruct Hl as (s&w&Hs&->)|destruct Hl as (s&w1&w2&w3&Hs&->)].
  all: cbn [def_of]; try (generalize (digits_val len); intros z).
  all: steps.
Qed.
Lemma insert_head b v1 v2 s v4 v5 name p root : has p (base b) → c_string s 0 = Ok name →
  ∃ p', feed [tk TOKEN_INSERT v1; tk TOKEN_INTO v2; tk TOKEN_ID (TVStr s); tk TOKEN_VALUES v4; tk TOKEN_LEFT_PARENTHESES v5] p root = Ok (p', root) ∧
    has p' (insert_open (MTok (tk TOKEN_LEFT_PARENTHESES v5)) (MTok (tk TOKEN_VALUES v4)) (MTok (tk TOKEN_INTO v2)) (MTok (tk TOKEN_INSERT v1)) name b).
Proof. intros Hp Hs. destruct b as [[m n]|]; steps. Qed.
Lemma val_step b o m1 m2 m3 m4 name x t last v p root :
  has p (before 20 19 (λ l, insert_list l m1 m2 m3 m4 name b) (insert_open m1 m2 m3 m4 name b) o) → val_toks x t →
  ∃ p', feed [t; closing last v] p root = Ok (p', root) ∧
    has p' (E (if last then 208 else 20) (if last then 18 else 19) (MTok (closing last v)) ::
      insert_list (grown ValueListNode o (ValueNode_new (Node (LiteralNode (val_of x)) []))) m1 m2 m3 m4 name b).
Proof.
  intros Hp Ht. destruct b as [[mb nb]|]; destruct o as [[mo lo]|]; destruct last.
  all: destruct x as [ds|ip fp|s|x]; cbn [val_of val_toks] in *;
    [subst t; generalize (digits_val ds); intros z|subst t; generalize (atof (ip ++ 46 :: fp)); intros z
    |destruct Ht as [Hs ->]; revert Hs; generalize (s ++ [0]); intros s0 Hs|destruct Ht as [w ->]; destruct x].
  all: steps.
Qed.

(** ** The end of a statement *)

(** the next semicolon or the end of the text puts the statement into the list *)
Definition stmt_done b n p : Prop :=
  (∀ root v, ∃ p', feed [tk TOKEN_SEMICOLON v] p root = Ok (p', root) ∧ has p' (base (Some (MTok (tk TOKEN_SEMICOLON v), push b n)))) ∧
  ∀ root t, ∃ p', dawn_parse p None t root = Ok (p', push b n).
Lemma end_values k t ts p root root' : has p k →
  (∀ e, ∃ (k1 : list (yyStackEntry ptree)) e', Parse dawn_tables tree_code (λ _, true) 200 (mkParser (as_tree <$> k) 0 0 e []) 0 t = Ok (RAccept, mkParser k1 0 0 e' ts)) → replay ts root = Ok root' →
  ∃ p', dawn_parse p None t root = Ok (p', root').
Proof.
  intros (e&Hp)%has_is_at Hf Hr. destruct (Hf e) as (k1&e'&H). destruct (Parse_sim root root' _ _ p 0 t RAccept Hp H) as (p'&H'&Hu&_); [by right|done|].
  unfold dawn_parse. rewrite H'. cbn [mbind res_bind]. rewrite Hu. by eexists.
Qed.
Ltac ends := split; [intros ? ?; steps|intros ? ?; eapply end_values; [eassumption|run_parser|eval_trees]].
Lemma create_end b l m0 m1 m2 m3 name p : has p (E 195 18 m0 :: create_list l m1 m2 m3 name b) → stmt_done b (CreateNode_new (ident name) l) p.
Proof. intros Hp. destruct b as [[mb nb]|]; ends. Qed.
Lemma insert_end b l m0 m1 m2 m3 m4 name p : has p (E 208 18 m0 :: insert_list l m1 m2 m3 m4 name b) → stmt_done b (InsertNode_new (ident name) l) p.
Proof. intros Hp. destruct b as [[mb nb]|]; ends. Qed.
Lemma drop_end b v1 v2 s name p root : has p (base b) → c_string s 0 = Ok name →
  ∃ p', feed [tk TOKEN_DROP v1; tk TOKEN_TABLE v2; tk TOKEN_ID (TVStr s)] p root = Ok (p', root) ∧ stmt_done b (DropNode_new (ident name)) p'.
Proof.
  intros Hp Hs. assert (∃ p', feed [tk TOKEN_DROP v1; tk TOKEN_TABLE v2; tk TOKEN_ID (TVStr s)] p root = Ok (p', root) ∧
    has p' ([E 206 26 (MTok (tk TOKEN_ID (TVStr s))); E 25 16 (MTok (tk TOKEN_TABLE v2)); E 43 27 (MTok (tk TOKEN_DROP v1))] ++ base b)) as (p'&Hf&Hp').
  { destruct b as [[mb nb]|]; steps. }
  exists p'. split; [exact Hf|]. clear Hp. destruct b as [[mb nb]|]; ends.
Qed.
Lemma empty_end b p : has p (base b) → stmt_done b (Node EmptyStmt []) p.
Proof. intros Hp. destruct b as [[mb nb]|]; ends. Qed.

(** ** Whole statements *)

Definition ended (xs : list lexeme) (t : Token) : Token := foldl (λ t x, token_of x t) t xs.
Lemma tokens_of_app xs ys t : tokens_of (xs ++ ys) t = tokens_of xs t ++ tokens_of ys (ended xs t).
Proof. revert t. induction xs as [|x xs IH]; intros t; [done|]. cbn [app tokens_of ended foldl]. by rewrite IH. Qed.
Lemma name_c_string w : name_src w → c_string (w ++ [0; 0]) 0 = Ok w.
Proof.
  intros [H _]. apply (c_string_app w [0]). destruct w as [|c w]; [done|]. cbn [is_ident] in H. apply andb_prop in H as [Hc Hw].
  constructor; [apply is_letter_bounds in Hc; lia|by eapply word_nonzero; [apply is_word_nonzero|]].
Qed.
Lemma def_toks_ok d t : def_src_ok d → def_toks d (tokens_of (def_lexemes d) t).
Proof.
  destruct d as [n|n|n|n len|n]; cbn [def_src_ok]; intros H;
    [apply name_c_string in H; eexists _, _; by split..|destruct H as [H _]; apply name_c_string in H; eexists _, _, _, _; by split|apply name_c_string in H; eexists _, _, _, _; by split].
Qed.
(** a value behind a parenthesis or a comma *)
Lemma val_toks_ok v t : val_src_ok v → type_ t ≠ Some TOKEN_DECIMAL → val_toks v (token_of (val_lexeme v) t).
Proof.
  destruct v as [ds|ip fp|s|[]]; cbn [val_src_ok]; intros H Ht; [|done| |by eexists..].
  - cbn [val_lexeme token_of]. unfold int_type. by rewrite decide_False.
  - split; [by apply (c_string_app s [])|done].
Qed.

Lemma defs_run ds : ∀ d o m1 m2 m3 name b p root t, has p (before 18 19 (λ l, create_list l m1 m2 m3 name b) (create_open m1 m2 m3 name b) o) →
  Forall def_src_ok (d :: ds) →
  ∃ p' m0, feed (tokens_of (def_lexemes d ++ sep comma (def_lexemes <$> ds) ++ [rp]) t) p root = Ok (p', root) ∧
    has p' (E 195 18 m0 :: create_list (foldl add_child (grown CreateDefListNode o (def_node (def_of d))) (def_node <$> (def_of <$> ds))) m1 m2 m3 name b).
Proof.
  induction ds as [|d' ds IH]; intros d o m1 m2 m3 name b p root t Hp [Hd Hds]%Forall_cons; rewrite tokens_of_app.
  - destruct (def_step b o m1 m2 m3 name d (tokens_of (def_lexemes d) t) true (val_ (ended (def_lexemes d) t)) p root Hp) as (p'&Hf&Hp'); [by apply def_toks_ok|].
    exists p', (MTok (closing true (val_ (ended (def_lexemes d) t)))). split; [exact Hf|exact Hp'].
  - rewrite fmap_cons. change (sep comma (def_lexemes d' :: (def_lexemes <$> ds)) ++ [rp]) with (comma :: (def_lexemes d' ++ sep comma (def_lexemes <$> ds)) ++ [rp]).
    rewrite <- app_assoc. cbn [tokens_of]. rewrite cons_middle, app_assoc, feed_app. set (t1 := ended (def_lexemes d) t).
    destruct (def_step b o m1 m2 m3 name d (tokens_of (def_lexemes d) t) false (val_ t1) p root Hp) as (p'&Hf&Hp'); [by apply def_toks_ok|].
    cbn [closing] in Hf. change (token_of comma t1) with (tk TOKEN_COMMA (val_ t1)). rewrite Hf. cbn [mbind res_bind].
    destruct (IH d' (Some (MTok (tk TOKEN_COMMA (val_ t1)), grown CreateDefListNode o (def_node (def_of d)))) m1 m2 m3 name b p' root (tk TOKEN_COMMA (val_ t1)) Hp' Hds) as (p2&m0&Hf2&Hp2).
    by exists p2, m0.
Qed.
Lemma vals_run vs : ∀ x o m1 m2 m3 m4 name b p root t, has p (before 20 19 (λ l, insert_list l m1 m2 m3 m4 name b) (insert_open m1 m2 m3 m4 name b) o) →
  Forall val_src_ok (x :: vs) → type_ t ≠ Some TOKEN_DECIMAL →
  ∃ p' m0, feed (tokens_of ([val_lexeme x] ++ sep comma ((λ v, [val_lexeme v]) <$> vs) ++ [rp]) t) p root = Ok (p', root) ∧
    has p' (E 208 18 m0 :: insert_list (foldl add_child (grown ValueListNode o (ValueNode_new (Node (LiteralNode (val_of x)) [])))
      ((λ l, ValueNode_new (Node (LiteralNode l) [])) <$> (val_of <$> vs))) m1 m2 m3 m4 name b).
Proof.
  induction vs as [|x' vs IH]; intros x o m1 m2 m3 m4 name b p root t Hp [Hx Hvs]%Forall_cons Ht.
  - destruct (val_step b o m1 m2 m3 m4 name x (token_of (val_lexeme x) t) true (val_ (token_of (val_lexeme x) t)) p root Hp) as (p'&Hf&Hp'); [by apply val_toks_ok|].
    exists p', (MTok (closing true (val_ (token_of (val_lexeme x) t)))). split; [exact Hf|exact Hp'].
  - rewrite fmap_cons. change ([val_lexeme x] ++ sep comma ([val_lexeme x'] :: ((λ v, [val_lexeme v]) <$> vs)) ++ [rp])
      with ([val_lexeme x; comma] ++ [val_lexeme x'] ++ sep comma ((λ v, [val_lexeme v]) <$> vs) ++ [rp]).
    rewrite tokens_of_app, feed_app. set (t1 := token_of (val_lexeme x) t).
    destruct (val_step b o m1 m2 m3 m4 name x t1 false (val_ t1) p root Hp) as (p'&Hf&Hp'); [by apply val_toks_ok|].
    change (tokens_of [val_lexeme x; comma] t) with [t1; closing false (val_ t1)]. rewrite Hf. cbn [mbind res_bind].
    destruct (IH x' (Some (MTok (closing false (val_ t1)), grown ValueListNode o (ValueNode_new (Node (LiteralNode (val_of x)) [])))) m1 m2 m3 m4 name b p' root (tk TOKEN_COMMA (val_ t1)) Hp' Hvs) as (p2&m0&Hf2&Hp2); [done|].
    by exists p2, m0.
Qed.
Lemma stmt_run s b p root t : stmt_src_ok s → has p (base b) →
  ∃ p', feed (tokens_of (stmt_lexemes s) t) p root = Ok (p', root) ∧ stmt_done b (stmt_tree s) p'.
Proof.
  intros Hs Hp. destruct s as [name d ds|name|name v vs|]; cbn [stmt_lexemes stmt_src_ok stmt_tree] in *.
  - destruct Hs as [Hn Hds]. rewrite tokens_of_app, feed_app.
    destruct (create_head b (val_ t) (val_ t) (name ++ [0; 0]) (TVStr (name ++ [0; 0])) name p root Hp) as (p1&Hf1&Hp1); [by apply name_c_string|].
    cbn [tokens_of token_of]. unfold set_type, lp. cbn [token_of val_ set_type]. unfold set_type. cbn [val_]. rewrite Hf1. cbn [mbind res_bind].
    edestruct (defs_run ds d None) as (p2&m0&Hf2&Hp2); [exact Hp1|exact Hds|]. exists p2. split; [exact Hf2|]. apply create_end in Hp2. exact Hp2.
  - apply (drop_end b (val_ t) (val_ t) (name ++ [0; 0])); [exact Hp|by apply name_c_string].
  - destruct Hs as [Hn Hvs]. rewrite tokens_of_app, feed_app.
    destruct (insert_head b (val_ t) (val_ t) (name ++ [0; 0]) (TVStr (name ++ [0; 0])) (TVStr (name ++ [0; 0])) name p root Hp) as (p1&Hf1&Hp1); [by apply name_c_string|].
    cbn [tokens_of token_of]. unfold set_type, lp. cbn [token_of val_ set_type]. unfold set_type. cbn [val_]. rewrite Hf1. cbn [mbind res_bind].
    edestruct (vals_run vs v None) as (p2&m0&Hf2&Hp2); [exact Hp1|exact Hvs| |exists p2; split; [exact Hf2|]; apply insert_end in Hp2; exact Hp2]. done.
  - exists p. split; [done|]. by apply empty_end.
Qed.

(** ** A text of statements *)

Lemma sql_run ss : ∀ s b p root t, Forall stmt_src_ok (s :: ss) → has p (base b) →
  ∃ p' b' n, feed (tokens_of (sql_lexemes s ss) t) p root = Ok (p', root) ∧ stmt_done b' n p' ∧ push b' n = foldl add_child (push b (stmt_tree s)) (stmt_tree <$> ss).
Proof.
  induction ss as [|s' ss IH]; intros s b p root t [Hs Hss]%Forall_cons Hp; unfold sql_lexemes; rewrite tokens_of_app, feed_app;
    destruct (stmt_run s b p root t Hs Hp) as (p1&Hf&Hd); rewrite Hf; cbn [mbind res_bind].
  - exists p1, b, (stmt_tree s). by split.
  - set (t1 := ended (stmt_lexemes s) t). rewrite fmap_cons. change (sep semi (stmt_lexemes s' :: (stmt_lexemes <$> ss))) with ([semi] ++ sql_lexemes s' ss).
    rewrite tokens_of_app, feed_app. change (tokens_of [semi] t1) with [tk TOKEN_SEMICOLON (val_ t1)].
    destruct (proj1 Hd root (val_ t1)) as (p2&Hf2&Hp2). rewrite Hf2. cbn [mbind res_bind].
    destruct (IH s' _ p2 root (ended [semi] t1) Hss Hp2) as (p'&b'&n&Hf3&Hd3&Hn). exists p', b', n. split; [exact Hf3|]. split; [exact Hd3|]. exact Hn.
Qed.

Lemma name_wf w : name_src w → wf (XId w).
Proof. done. Qed.
Lemma sym_wf w ty : bool_decide ((w, ty) ∈ symbols) = true → wf (XSym w ty).
Proof. apply bool_decide_eq_true_1. Qed.
Lemma key_wf w ty : is_ident w && bool_decide ((w, ty) ∈ key_words) = true → wf (XKey w ty).
Proof. intros [H1 H2%bool_decide_eq_true_1]%andb_prop. by split. Qed.
Ltac wf_one := first [by apply name_wf|by apply sym_wf|by apply key_wf|done].
Ltac wf_lexemes := repeat (apply Forall_cons_2; [wf_one|]); try by apply Forall_nil_2.
Lemma def_wf d : def_src_ok d → Forall wf (def_lexemes d).
Proof.
  destruct d as [n|n|n|n len|n]; cbn [def_src_ok def_lexemes]; intros H; [wf_lexemes..| |wf_lexemes].
  destruct H as [Hn Hl]. wf_lexemes.
Qed.
Lemma val_wf v : val_src_ok v → wf (val_lexeme v).
Proof. destruct v as [ds|ip fp|s|[]]; cbn [val_src_ok val_lexeme]; intros H; wf_one. Qed.
Lemma sep_wf {A} x (f : A → list lexeme) (P : A → Prop) ls : wf x → (∀ a, P a → Forall wf (f a)) → Forall P ls → Forall wf (sep x (f <$> ls)).
Proof.
  intros Hx Hf. induction 1 as [|a ls Ha _ IH]; [by apply Forall_nil_2|]. rewrite fmap_cons. change (sep x (f a :: (f <$> ls))) with (x :: f a ++ sep x (f <$> ls)).
  apply Forall_cons_2; [done|]. apply Forall_app. split; [by apply Hf|exact IH].
Qed.
Lemma stmt_wf s : stmt_src_ok s → Forall wf (stmt_lexemes s).
Proof.
  destruct s as [name d ds|name|name v vs|]; cbn [stmt_src_ok stmt_lexemes]; intros H.
  - destruct H as [Hn [Hd Hds]%Forall_cons]. rewrite !Forall_app. split_and!; [wf_lexemes|by apply def_wf|eapply sep_wf; [wf_one|apply def_wf|done]|wf_lexemes].
  - wf_lexemes.
  - destruct H as [Hn [Hv Hvs]%Forall_cons]. rewrite !Forall_app.
    split_and!; [wf_lexemes|apply Forall_singleton; by apply val_wf|eapply sep_wf; [wf_one|intros u Hu; apply Forall_singleton; by apply val_wf|done]|wf_lexemes].
  - by apply Forall_nil_2.
Qed.
Lemma sql_wf s ss : Forall stmt_src_ok (s :: ss) → Forall wf (sql_lexemes s ss).
Proof.
  intros [Hs Hss]%Forall_cons. apply Forall_app. split; [by apply stmt_wf|]. eapply sep_wf; [wf_one|apply stmt_wf|done].
Qed.

(** the loop over the tokens of a text *)
Lemma parse_spaced xs : ∀ sp pre sql b t p root p' root', Forall wf xs → spaced xs sql → forallb blank sp = true → feed (tokens_of xs t) p root = Ok (p', root') →
  ∃ t', SqlExec.parse_tokens dawn_parse (S (length xs)) (lx pre (sp ++ sql) b) t p root = Ok (t', p', root').
Proof.
  induction xs as [|x xs IH]; intros sp pre sql b t p root p' root' Hx Hs Hsp Hf; cbn [length].
  - cbn [SqlExec.parse_tokens spaced] in *. rewrite next_token_end by (by rewrite forallb_app, Hsp). cbn [mbind res_bind negb]. injection Hf as <- <-. by eexists.
  - apply Forall_cons in Hx as [Hx Hxs]. destruct Hs as (sp1&rest&Hsp1&->&Hr&Hs). rewrite (app_assoc sp).
    destruct (next_token_lexeme x t (sp ++ sp1) pre rest b Hx) as [b' H]; [by rewrite forallb_app, Hsp|done|].
    change (SqlExec.parse_tokens dawn_parse (S (S (length xs))) (lx pre ((sp ++ sp1) ++ text x ++ rest) b) t p root) with
      (let* (more, t, lex) := next_token (lx pre ((sp ++ sp1) ++ text x ++ rest) b) t in
       if negb more then Ok (t, p, root)
       else type ← of_opt UninitRead (type_ t); let* (p, root) := dawn_parse p (Some type) t root in SqlExec.parse_tokens dawn_parse (S (length xs)) lex t p root).
    rewrite H. cbn [mbind res_bind negb]. cbn [tokens_of feed] in Hf. apply res_bind_Ok in Hf as (type&->&Hf). cbn [mbind res_bind].
    apply res_bind_Ok in Hf as ([p1 root1]&Hp&Hf). rewrite Hp. cbn [mbind res_bind].
    destruct (IH [] (pre ++ (sp ++ sp1) ++ text x) rest b' (token_of x t) p1 root1 p' root' Hxs Hs eq_refl Hf) as [t' H']. by exists t'.
Qed.

Lemma list_node_cons c n l : foldl add_child (new c [n]) l = Node c (n :: l).
Proof. unfold new, list_node. cbn [foldl add_child]. by rewrite list_node_children. Qed.
Lemma parses_text s ss sql : Forall stmt_src_ok (s :: ss) → sql_text s ss sql →
  parses dawn_parseAlloc dawn_parse (S (length (sql_lexemes s ss))) (Lex_new sql) (stmt_tree <$> s :: ss).
Proof.
  intros Hs Ht. destruct (sql_run ss s None dawn_parseAlloc StmtListNode_new (mkToken None TVNone) Hs) as (p&b&n&Hf&[_ Hd]&Hn); [by eexists _, _|].
  destruct (parse_spaced _ [] [] sql [] _ _ _ _ _ (sql_wf s ss Hs) Ht eq_refl Hf) as (t&Hp). destruct (Hd StmtListNode_new t) as (p'&He).
  exists t, p, StmtListNode_new, p'. split; [exact Hp|]. rewrite He, Hn. unfold push. by rewrite list_node_cons.
Qed.



Definition d_w : def_src := CInt (str "id").
Definition ds_w : list def_src := [CChar (str "nm") (str "3"); CKey (str "id")].
Definition x_w : val_src := SNum (str "7").
Definition xs_w : list val_src := [SText (str "abc")].
Definition ss_w : list stmt_src := [SInsert name_cat x_w xs_w; SEmpty].
Definition text_w : bytes := print (sql_lexemes (SCreate name_cat d_w ds_w) ss_w).
Lemma text_w_sql : text_w = str "create table users ( id int , nm char ( 3 ) , primary key ( id ) ) ; insert into users values ( 7 , " ++ [34] ++ str "abc" ++ [34] ++ str " ) ; ".
Proof. vm_compute. reflexivity. Qed.
Lemma src_w_ok : Forall stmt_src_ok (SCreate name_cat d_w ds_w :: ss_w).
Proof.
  assert (∀ w, is_ident w && bool_decide (find_word key_words w = None) && bool_decide (w ∉ key_words_prefix) = true → name_src w) as Hn.
  { intros w [[H1 H2%bool_decide_eq_true_1]%andb_prop H3%bool_decide_eq_true_1]%andb_prop. by split_and!. }
  assert (∀ ds, num_src ds ↔ ds ≠ [] ∧ forallb is_digit ds = true ∧ digits_val ds ≤ INT32_MAX) as Hd by done.
  repeat constructor; try (by apply Hn); try (vm_compute; discriminate); try (vm_compute; repeat (constructor; [discriminate|]); constructor).
Qed.
Lemma defs_w_ok : defs_ok (def_of <$> d_w :: ds_w) [4; 3].
Proof. split; try reflexivity; repeat constructor; vm_compute; try discriminate; repeat constructor; discriminate. Qed.
Notation fuel_w := (S (length (sql_lexemes (SCreate name_cat d_w ds_w) ss_w))).
